(* ===== verification/_CoqProject ===== *)
-Q . S2P
Prelude.v
SqlUtil.v
GoNum.v
GoText.v
Crs.v
FilterLexer.v
FilterParser.v
FilterPostGIS.v
FilterDuckDB.v
FilterSpec.v
SqlScan.v
FilterCorrect.v
FilterSafety.v
LockStore.v
LockStoreCorrect.v
LockTheorems.v
WriteGate.v
RateLimit.v
ProtocolRequest.v
XmlTree.v
Identity.v
Sessions.v
Rbac.v
RbacCorrect.v
RbacTheorems.v
TileOwnership.v
TileMatrix.v
TileIndex.v
TileIndexCorrect.v
TileJobs.v
TileManager.v
TileManagerCorrect.v
TileCacheTheorems.v
TileJobRunner.v
TileJobTheorems.v
LayerGroups.v
GoPath.v
PathPolicy.v
CatalogStore.v
CatalogDeletion.v
CatalogTheorems.v
DeletionCoordinator.v
DeletionCorrect.v
DeletionAttempt.v
DeletionTheorems.v
TileLifecycle.v
Mosaic.v
MosaicTheorems.v
Base64.v
Cache.v
DataRevision.v
Transaction.v
FeatureVersions.v
FeatureVersionsCorrect.v
FeatureNames.v
FesModels.v
FesCompiler.v
FesSafety.v
FesMeaning.v
FesTheorems.v
QueryPredicate.v
DataSourceSql.v
DataSourceSafe.v
ImportPlan.v
Faults.v
ImportStore.v
ImportFiles.v
ImportFilesCorrect.v
Importer.v
ImportCorrect.v
ImportOperations.v
ImportWorker.v
ImportRecovery.v
ImportTheorems.v
AuthProviders.v
AuthTheorems.v
Transport.v
AuditLog.v
AuditSteps.v
AuditList.v
