(* ===== verification/Prelude.v ===== *)
(** * A verification development for neoserver

    neoserver is a geospatial server: it publishes the layers of a workspace
    through WFS, WMS, WMTS, WCS, OGC API and STAC, over PostGIS, DuckDB and file
    sources, with a catalog in DuckDB. This library models the parts of
    [src/internal] that carry the server's own guarantees and proves them.

    ** How the parts interact

    A request passes the failure limiter and an authentication provider
    ([identity]), is resolved to one protocol operation ([protocolrequest]) and
    checked against the policies of its workspace ([rbac]). A feature query
    compiles its CQL2 text or FES filter to SQL ([filter], [wfs]) over a source that
    the path policy admits ([datasource]). A WFS transaction takes the
    workspace's write gate, checks feature locks, brackets the write with a data
    revision ([workspace]) and runs its actions in document order ([wfs]).
    Responses go to the response cache ([cache]) under keys that name their
    workspace; tiles go to the persistent tile store, which one process owns at a
    time ([tilecache]) and which background jobs fill ([tilejobs]). Harvest jobs
    build the generations of raster mosaics ([mosaiccatalog]). The importer copies
    a file into a database of its own and publishes it as a service ([importer]);
    its rollback is a deletion of that service. A service or a
    workspace is deleted by a coordinator ([cataloglifecycle]) that journals its
    phases in the catalog ([store]) and empties each of the other stores; the
    class [Lifecycle] of [DeletionCoordinator] is what it asks of them, and the
    tile cache ([TileLifecycle]) and the mosaics ([MosaicTheorems]) meet it.

    ** Files and sources

    - [Prelude]: outcomes, the state-error monad and its [wp] rules, byte strings,
      maps with string keys, the hint databases.
    - [SqlUtil] ([sqlutil/quote.go]): quoting of identifiers and literals.
    - [GoNum]: the standard library's parsing of decimal literals.
    - [FilterLexer], [FilterParser], [FilterPostGIS], [FilterDuckDB]
      ([filter/lexer.go], [token.go], [compiler.go], [duckdb.go]): the lexer with
      its position, the recursive-descent parsers with their argument list, the
      two SQL dialects. The DuckDB parser repeats the other one with a few
      changes, so one parser is parametric in a record of dialect choices and
      each method of [duckdbParser] is its instance.
    - [FilterSpec]: the SQL fragments a filter may produce, as syntax trees with
      their rendering. [SqlScan]: the lexical rules of SQL and the class
      [SafeDialect], what a dialect promises about its fragments, with both
      instances. [FilterCorrect]: the parser's correctness by [wp].
      [FilterSafety]: the theorems on the two compilers.
    - [LockStore] ([wfs/locking.go], [lock_identity.go], [runtime.go],
      [store/store_wfs_locks.go]): feature locks. [LockStoreCorrect]: invariants
      and their preservation. [LockTheorems]: the theorems.
    - [WriteGate] ([wfs/write_gate.go]): the per-workspace gate, as interleaved
      goroutines.
    - [RateLimit] ([identity/ratelimit.go]): exponential back-off.
    - [ProtocolRequest] ([protocolrequest/request.go], [policies.go]).
    - [Identity] ([identity/identity.go]): roles.
    - [Sessions] ([store/store_sessions.go], [identity/session.go]): browser
      sessions, the table with its statements and the validation of a request.
    - [Rbac] ([rbac/rbac.go], [adapter.go], [middleware.go], [operation.go],
      [store/store_auth.go]): the enforcer over the class [CasbinLaws], what it
      relies on of the Casbin library, with a concrete engine as its instance.
      [RbacCorrect]: the invariants; [RbacTheorems]: the theorems.
    - [TileOwnership] ([tilecache/ownership.go], [s3.go]): the owner lease, its
      verification and its fence, any number of processes over one object store.
    - [TileMatrix] ([tiles/tilematrixsets.go], [types.go]): tile matrix sets, built
      in and custom, their validation and tile arithmetic in binary64.
    - [TileIndex] ([tilecache/types.go], [index.go]): identities, keys, the index of
      tiles and its usage counters; [TileIndexCorrect]: that they agree.
      [TileJobs] ([tilecache/jobs.go]): the tables of jobs and chunks.
    - [TileManager] ([tilecache/manager.go], [blob.go]): every operation of the tile
      cache in a monad in which each call of the index and of the blob store takes
      the next element of a list of faults. [TileManagerCorrect]: what holds after
      each operation; [TileCacheTheorems]: the theorems.
    - [TileJobRunner] ([tilejobs/manager.go]): the chunks of a job, the loop over a
      chunk, and the workers as a step relation over the job tables.
      [TileJobTheorems]: the theorems.
    - [LayerGroups] ([workspace/groups.go], [workspace.go],
      [wms/handlers_getmap.go]): groups of layers, their validation and expansion.
    - [GoPath]: the standard library's file paths. [PathPolicy]
      ([datasource/pathpolicy/pathpolicy.go], [fetch.go]): which files, objects and
      addresses a data source may open.
    - [CatalogStore] ([store/store_deletion.go], [store_layer_group.go],
      [store_service.go], [store_workspace.go]): the catalog rows that deletions
      read and remove, their plans, the journal, the statements on layer groups and
      map selection. [CatalogDeletion]: the invariants; [CatalogTheorems].
    - [DeletionCoordinator] ([cataloglifecycle/coordinator.go], [assets.go]): the
      execution, retry and recovery of a deletion over four stores of the class
      [Lifecycle], each step of which works, fails or dies. [DeletionCorrect]: rules
      and invariants; [DeletionAttempt]: what an attempt does; [DeletionTheorems].
      [TileLifecycle]: an instance of the class.
    - [Mosaic] ([mosaiccatalog/catalog.go], [jobs.go], [manager.go]): generations of
      granules, harvest jobs and the harvest itself. [MosaicTheorems].
    - [Faults]: operations whose calls take fates from a list: work, fail, be the
      last, or come after something that another goroutine does; their rules.
      [ImportPlan] ([importer/manager.go]): plans of imports and the SQL built from
      them. [ImportStore] ([store/store_import.go], [store_import_transform.go]): the
      tables. [ImportFiles] ([importer/manager.go], [recovery.go]): uploads, archives,
      the byte budget; [ImportFilesCorrect]. [Importer]: the API operations, the
      worker, publication, rollback, recovery. [ImportCorrect]: the invariant;
      [ImportOperations], [ImportWorker], [ImportRecovery]: every operation keeps it;
      [ImportTheorems]: the theorems.
    - [AuthProviders] ([identity/middleware.go], [apikey.go], [staticapikey.go],
      [basicauth.go], [jwt.go], [oidc.go], [oidc_recovery.go], [store/store_auth.go]):
      the validators of credentials and the middleware that asks them.
      [AuthTheorems]. [Transport] ([identity/transport.go]): the client address and
      the encryption of a request behind proxies.
    - [AuditLog] ([audit/audit.go], [store/store_audit_outbox.go]): events, the log and
      its outbox, recording, the delivery loop and the shutdown as threads of atomic
      steps, retention, queries. [AuditSteps]: schedules of these threads with
      failures, crashes and restarts, what is kept, and the delivery of a backlog;
      [AuditList]: pages.
    - [DataSourceSql] ([datasource/sqlbuild.go], [source.go], [feature_json.go],
      [feature_ids.go], [postgis/postgis.go], [postgis/transaction.go],
      [duckdb/duckdb.go], [duckdbsqlview/duckdbsqlview.go],
      [geoparquet/geoparquet.go], [vectorfile/vectorfile.go]): the statements on
      features of tables, files and views and their arguments. [DataSourceSafe]:
      how they read.
    - [Base64]: the unpadded URL alphabet of [encoding/base64] with its round
      trip. [Cache] ([cache/cache.go], [fill.go], [keys.go]): keys, fill epochs,
      invalidation.
    - [DataRevision] ([workspace/data_revision.go],
      [store/store_data_revision.go]): revisions around feature writes, one step
      per atomic operation.
    - [Transaction] ([wfs/transaction.go], [transaction_order.go],
      [transaction_values.go]): decoding of transactions and their execution
      order.
    - [FeatureVersions] ([wfs/versioning.go], [version_batch.go],
      [store/store_wfs_versions.go], [store_wfs_version_batch.go]): the histories of
      features in memory and in the catalog. [FeatureVersionsCorrect]: the theorems.
    - [FeatureNames] ([wfs/feature_names.go], [models_helpers.go], [gml.go],
      [lock_identity.go], [workspace/workspace.go]): advertised names, their
      resolution to publications, and the lock check of a mutation.
    - [XmlTree]: decoded XML elements. [FesModels] ([wfs/fes_models.go]): decoding
      and validation of filter documents. [FesCompiler] ([wfs/fes_compiler.go],
      [fes_predicates.go], [fes_dialect.go]): their compilation to SQL. [FesSafety]:
      what the SQL may contain. [FesMeaning], [FesTheorems]: what it means.
    - [QueryPredicate] ([datasource/query_predicate.go]): adding a predicate to a
      query, over the class [PredicateLaws] that the filter compiler meets.

    ** What the theorems show

    - Filters (C1, C2, C16, C30): no byte of a CQL or FES filter reaches the SQL
      except as a quoted allow-listed identifier or a bound argument; a FES
      document keeps its meaning unless it has several identifiers in one And; the
      parser terminates on every input.
    - Tiles (C5, C21, C24-C26, C37-C39): one owner of the tile store without
      takeovers; counters equal to the rows and quotas over them in interleavings
      with the phases of reads, as long as no repair is overtaken, authentic hits,
      complete deletions; the tiles of a chunk are processed in order from the
      recorded offset on, once while the progress is stored, jobs are exclusive
      and process no tiles of a quiesced scope; served matrix sets are well
      formed.
    - Deletions (C7, C8, C14): an attempt to delete a service or a workspace ends
      with everything gone or with an unfinished operation and the catalog
      untouched or committed as a whole; other rows of the catalog stay; one fault
      is healed by one retry, and no reference of the catalog dangles but by a
      renaming that keeps the old name as a member or a write that overtakes a
      check.
    - Mosaics (C9): the active generation is the old mosaic or the harvested one,
      and a request that reads the generation and then the rows finds the one, the
      other or nothing.
    - Locks (C6, C34): mutual exclusion, also across restarts as long as these
      list no row of a lock that was released, the exact outcome of acquiring.
      Write gate (C28): mutual exclusion in every interleaving.
    - Authorization and authentication (C12, C17, C20, C35, C36): decisions are
      those of the stored rules in every reachable state, failed writes roll back;
      an identity stands on a credential of its request and everything else is
      refused; what an accepted session implies; forwarding headers count only
      from trusted proxies.
    - Data sources (C3, C18, C29): the statements that list, render and count
      features of tables, files and views are the intended ones whatever is asked
      for; what may be opened lies within the allow-list; the address filter
      passes exactly the public addresses.
    - Workspaces and writes (C22, C23, C27, C31, C32, C40): a data revision
      identifies the content across crashes as long as no begin failed; groups
      have no cycles; nothing filled before an invalidation is served after it; a
      transaction runs in document order; batches of version changes equal their
      changes one by one; an advertised name leads back to its publication and
      mutations are checked against its locks.
    - Imports (C4, C10, C11, C19): a published service keeps its database across
      failing calls, crashes and restarts, unless a refused rollback is retried; a
      cancelled import leaves nothing; an archive writes below its own directory
      and within the budget; the statement that copies a layer is the intended
      one.
    - Audit (C13, C15, C33): no acknowledged event is lost in any interleaving
      with failures, crashes and restarts; a backlog is delivered by the loop
      alone when the databases work; following the cursors shows the selection
      once and in order.

    Theorems without a number are of the same components: the DuckDB dialect, lock
    quotas and ownership, back-off values, request resolution, the role hierarchy,
    session rotation, isolation of workspace policies, default policies, cache
    keys, coordinate systems, the size of version histories, the removal of mosaic scopes,
    what groups disclose, the chunks of tile jobs, deletions that cannot complete,
    the statements that change features, the validation of import
    plans, the budget of retained sources, the spacing of the provider's discovery.
    Lemmas at the end of a file show where the code does not do what it means to
    ([TileCacheTheorems.stale_repair_drifts] and others).

    ** Modelling choices

    - State is passed explicitly; a method under a mutex is one function, code
      that interleaves is a step relation with one step per critical section or
      atomic operation. Clocks, random identifiers and failures of statements are
      arguments, so the theorems hold for all of them.
    - What a theorem on histories leaves out is a flag or a hypothesis of its
      statement, not a missing step: restarts that list rows of released locks
      ([lockReachable]), repairs that were overtaken ([repairsCurrent]), renamings
      that keep the old name and checks that were overtaken ([catStep]), retries of refused rollbacks and abandoned
      requests ([importStep]), takeovers ([ownReachable]), begins that failed
      ([beginFailed]).
    - The parser of the filter takes fuel [8 * length + 8]: between two bytes
      it consumes the parser goes through at most eight recursive calls, so the
      bound is never reached; C30 states it, and [NoFuel] occurs in no result.
    - Other loops: eviction and deletion take one more step than there are rows,
      since each step removes one ([TileManagerCorrect], C25, C38); the loop over a
      chunk takes its number of tiles (C37); the checks and the expansion of groups
      take the depth limit the code itself has; the closure of a plan takes one pass
      more than there are groups, since each pass but the last adds one
      ([CatalogDeletion]); the removal of a mosaic scope takes the five attempts the
      code makes.
    - A call that may fail takes a fault: it works, fails, or fails after (part of)
      its effect; a process that stops is a call that fails with the rest of the
      operation, followed by the reconciliation of the next start.
    - Third-party code is a parameter with named hypotheses: Casbin (class
      [CasbinLaws], instantiated), the digests of tokens and keys, the object
      store's entity tags (equal tags mean equal markers; instantiated), the
      Ristretto store (it may keep, refuse or drop any entry), the key decoder of
      locks, glob patterns, URL and address parsing, the file system, the rendering
      of a tile, signatures and the OIDC library, the resolution of timestamps, their
      printing (any text), the verbs [%.12g] and [%f] (any without quotes and
      parameters), the check of views by the PostgreSQL parser.
      [encoding/xml] is its token stream or its element tree; [encoding/json] on
      events is a pair of functions of which the one undoes the other up to texts
      that are not UTF-8 (the image of an event), with the identity as instance.
    - Case folding and white-space trimming are those of the ASCII range where
      the code compares with ASCII names. Integers are [Z]; saturation and byte
      layout are written out where the code depends on them (time differences in
      [RateLimit], length prefixes in [Cache], binary64 literals in [GoNum]).

    ** What is not modelled

    HTTP plumbing, rendering, GDAL, the drivers of the databases, XML and JSON
    encoders, configuration and observability, the administration console. The
    next candidates, in this order: the processors of single transaction actions,
    the integrity audit of the catalog, tile addressing of WMTS, style rules, the
    validation of tile jobs and reprojection of their bounds. *)

From stdpp Require Export base list strings gmap numbers pretty list_numbers.
From Stdlib Require Export Ascii.

Open Scope Z_scope.

Declare Scope neo_scope.
Delimit Scope neo_scope with neo.
Open Scope neo_scope.

(** ** Outcomes and the state-error monad

    A Go method that mutates its receiver and returns [(value, error)] is a
    computation in [M S E]: it takes the receiver's state and gives a value
    with the new state, an error, or [NoFuel] when the recursion bound of the
    model was too small. [NoFuel] is not a behaviour of the code: for every
    entry point the development proves that it is never produced. *)
Inductive outcome (E A : Type) : Type :=
| Ok (a : A)
| Err (e : E)
| NoFuel.
Arguments Ok {E A} a.
Arguments Err {E A} e.
Arguments NoFuel {E A}.

Definition M (S E A : Type) : Type := S -> outcome E (A * S).

#[export] Instance M_ret S E : MRet (M S E) := fun A a s => Ok (a, s).

#[export] Instance M_bind S E : MBind (M S E) := fun A B k m s =>
  match m s with
  | Ok (a, s') => k a s'
  | Err e => Err e
  | NoFuel => NoFuel
  end.

Definition mfail {S E A} (e : E) : M S E A := fun _ => Err e.
Definition mnofuel {S E A} : M S E A := fun _ => NoFuel.
Definition mget {S E A} (f : S -> A) : M S E A := fun s => Ok (f s, s).
Definition mupd {S E} (f : S -> S) : M S E unit := fun s => Ok (tt, f s).

(** [wp m Q s]: running [m] from [s] never exhausts the fuel, and when it
    succeeds the value and the new state satisfy [Q]. Errors are allowed. *)
Definition wp {S E A} (m : M S E A) (Q : A -> S -> Prop) (s : S) : Prop :=
  match m s with
  | Ok (a, s') => Q a s'
  | Err _ => True
  | NoFuel => False
  end.

Section WpRules.
Context {S E : Type}.

Lemma wp_ret {A} (a : A) (Q : A -> S -> Prop) s : Q a s -> wp (E:=E) (mret a) Q s.
Proof. done. Qed.

Lemma wp_bind {A B} (m : M S E A) (k : A -> M S E B) (Q : B -> S -> Prop) s :
  wp m (fun a s' => wp (k a) Q s') s -> wp (m ≫= k) Q s.
Proof.
  unfold wp, mbind, M_bind.
  destruct (m s) as [[a s']|e|]; done.
Qed.

Lemma wp_mono {A} (m : M S E A) (Q Q' : A -> S -> Prop) s :
  wp m Q s -> (forall a s', Q a s' -> Q' a s') -> wp m Q' s.
Proof.
  unfold wp. destruct (m s) as [[a s']|e|]; naive_solver.
Qed.

Lemma wp_fail {A} (e : E) (Q : A -> S -> Prop) s : wp (mfail e) Q s.
Proof. done. Qed.

Lemma wp_get {A} (f : S -> A) (Q : A -> S -> Prop) s :
  Q (f s) s -> wp (E:=E) (mget f) Q s.
Proof. done. Qed.

Lemma wp_upd (f : S -> S) (Q : unit -> S -> Prop) s :
  Q tt (f s) -> wp (E:=E) (mupd f) Q s.
Proof. done. Qed.

End WpRules.

Create HintDb neo.
#[export] Hint Resolve wp_ret wp_fail wp_get wp_upd : neo.

(** ** Byte strings *)

(** [s[k:]]. *)
Fixpoint sdrop (k : nat) (s : string) : string :=
  match k, s with
  | O, _ => s
  | S k', String _ s' => sdrop k' s'
  | S _, EmptyString => EmptyString
  end.

(** [s[:k]]. *)
Fixpoint stake (k : nat) (s : string) : string :=
  match k, s with
  | O, _ => EmptyString
  | S k', String c s' => String c (stake k' s')
  | S _, EmptyString => EmptyString
  end.

(** Number of leading bytes that satisfy [f]. *)
Fixpoint span_len (f : ascii -> bool) (s : string) : nat :=
  match s with
  | EmptyString => 0%nat
  | String c s' => if f c then S (span_len f s') else 0%nat
  end.

(** [strings.Contains(s, string(c))] for a single byte [c]. *)
Fixpoint has_byte (c : ascii) (s : string) : bool :=
  match s with
  | EmptyString => false
  | String d s' => Ascii.eqb c d || has_byte c s'
  end.

Fixpoint all_bytes (f : ascii -> bool) (s : string) : bool :=
  match s with
  | EmptyString => true
  | String d s' => f d && all_bytes f s'
  end.

Definition code (c : ascii) : N := N_of_ascii c.

(** [strings.ToUpper] and [strings.ToLower] on ASCII text. *)
Definition up_byte (c : ascii) : ascii :=
  if ((97 <=? code c) && (code c <=? 122))%N then ascii_of_N (code c - 32) else c.
Definition low_byte (c : ascii) : ascii :=
  if ((65 <=? code c) && (code c <=? 90))%N then ascii_of_N (code c + 32) else c.

Fixpoint smap (f : ascii -> ascii) (s : string) : string :=
  match s with
  | EmptyString => EmptyString
  | String c s' => String (f c) (smap f s')
  end.

Definition ToUpper (s : string) : string := smap up_byte s.
Definition ToLower (s : string) : string := smap low_byte s.

(** [strings.EqualFold] on ASCII text. *)
Definition EqualFold (a b : string) : bool := String.eqb (ToLower a) (ToLower b).

(** [strings.ReplaceAll(s, string(c), r)] for a single byte [c]. *)
Fixpoint ReplaceByte (c : ascii) (r : string) (s : string) : string :=
  match s with
  | EmptyString => EmptyString
  | String d s' =>
      if Ascii.eqb c d then r +:+ ReplaceByte c r s' else String d (ReplaceByte c r s')
  end.

(** [strings.TrimSpace(s) == ""]: the text is a sequence of white-space
    code points in UTF-8. *)
Definition utf8_space2 (a b : ascii) : bool :=
  ((code a =? 194) && ((code b =? 133) || (code b =? 160)))%N.

Definition utf8_space3 (a b c : ascii) : bool :=
  ((code a =? 225) && (code b =? 154) && (code c =? 128)
   || (code a =? 226) && (code b =? 128)
      && ((128 <=? code c) && (code c <=? 138) || (code c =? 168) || (code c =? 169) || (code c =? 175))
   || (code a =? 226) && (code b =? 129) && (code c =? 159)
   || (code a =? 227) && (code b =? 128) && (code c =? 128))%N.

Fixpoint isBlank (s : string) : bool :=
  match s with
  | EmptyString => true
  | String a r =>
      if ((9 <=? code a) && (code a <=? 13) || (code a =? 32))%N then isBlank r
      else
        match r with
        | String b r2 =>
            if utf8_space2 a b then isBlank r2
            else
              match r2 with
              | String c r3 => if utf8_space3 a b c then isBlank r3 else false
              | EmptyString => false
              end
        | EmptyString => false
        end
  end.

(** Whether [s] starts with the byte [c]. *)
Definition head_is (c : ascii) (s : string) : bool :=
  match s with
  | EmptyString => false
  | String d _ => Ascii.eqb c d
  end.

(** [m[k]] for a map literal with string keys. *)
Fixpoint assoc {V} (k : string) (m : list (string * V)) : option V :=
  match m with
  | [] => None
  | (k', v) :: m' => if String.eqb k k' then Some v else assoc k m'
  end.

(** [strings.Split(s, string(c))] for a single byte [c]. *)
Fixpoint Split (c : ascii) (s : string) : list string :=
  match s with
  | EmptyString => [""]
  | String d s' =>
      match Split c s' with
      | part :: rest => if Ascii.eqb d c then "" :: part :: rest else String d part :: rest
      | [] => [""]
      end
  end.

(** [strings.Join]. *)
Fixpoint Join (sep : string) (l : list string) : string :=
  match l with
  | [] => ""
  | [x] => x
  | x :: rest => x +:+ sep +:+ Join sep rest
  end.

Section ByteStrings.

Lemma length_sdrop k s : String.length (sdrop k s) = (String.length s - k)%nat.
Proof. revert s; induction k; intros []; simpl; auto. Qed.

Lemma sapp_cons c (a b : string) : String c a +:+ b = String c (a +:+ b).
Proof. done. Qed.

Lemma sapp_nil_l (a : string) : "" +:+ a = a.
Proof. done. Qed.

Lemma length_sapp (a b : string) :
  String.length (a +:+ b) = (String.length a + String.length b)%nat.
Proof. induction a; rewrite ?sapp_cons; simpl; by rewrite ?IHa. Qed.

Lemma sdrop_add j k s : sdrop (j + k) s = sdrop k (sdrop j s).
Proof.
  revert s; induction j; intros s; simpl; [done|].
  destruct s; [by destruct k|apply IHj].
Qed.

Lemma span_len_le f s : (span_len f s <= String.length s)%nat.
Proof. induction s as [|c s IH]; simpl; [lia|]. destruct (f c); lia. Qed.

Lemma span_len_stake f s : all_bytes f (stake (span_len f s) s) = true.
Proof.
  induction s as [|c s IH]; simpl; [done|].
  destruct (f c) eqn:Hc; simpl; [by rewrite Hc|done].
Qed.

Lemma sapp_assoc (a b c : string) : (a +:+ b) +:+ c = a +:+ (b +:+ c).
Proof. induction a; rewrite ?sapp_cons; by rewrite ?IHa. Qed.

Lemma sapp_nil_r (a : string) : a +:+ "" = a.
Proof. induction a; rewrite ?sapp_cons; by rewrite ?IHa. Qed.

Lemma sdrop_app (a b : string) : sdrop (String.length a) (a +:+ b) = b.
Proof. induction a; [done|]. rewrite sapp_cons. done. Qed.

Lemma sdrop_all (s : string) k : (String.length s <= k)%nat -> sdrop k s = "".
Proof. revert s; induction k; intros []; simpl; intros; try done; [lia|]. apply IHk. lia. Qed.

Lemma Split_nonempty c s : exists part rest, Split c s = part :: rest.
Proof.
  induction s as [|d s (part & rest & IH)]; simpl; [eauto|]. rewrite IH. destruct (Ascii.eqb d c); eauto.
Qed.

Lemma Split_none c s : has_byte c s = false -> Split c s = [s].
Proof.
  induction s as [|d s IH]; simpl; [done|]. intros [Hd Hs]%orb_false_iff. rewrite IH by done.
  by rewrite Ascii.eqb_sym, Hd.
Qed.

Lemma Split_app c a b : has_byte c a = false -> Split c (a +:+ String c b) = a :: Split c b.
Proof.
  induction a as [|d a IH]; simpl; rewrite ?sapp_nil_l, ?sapp_cons; simpl.
  - intros _. destruct (Split_nonempty c b) as (part & rest & ->). by rewrite Ascii.eqb_refl.
  - intros [Hd Hs]%orb_false_iff. rewrite IH by done. by rewrite Ascii.eqb_sym, Hd.
Qed.

Lemma Split_Join c l :
  l <> [] -> Forall (fun s => has_byte c s = false) l -> Split c (Join (String c "") l) = l.
Proof.
  induction l as [|s l IH]; intros Hne Hf; [done|]. apply Forall_cons in Hf as [Hs Hl].
  destruct l as [|s' l]; [by apply Split_none|].
  change (Join (String c "") (s :: s' :: l)) with (s +:+ String c ("" +:+ Join (String c "") (s' :: l))).
  rewrite Split_app by done. f_equal. by apply IH.
Qed.

Lemma all_bytes_has f c s : all_bytes f s = true -> f c = false -> has_byte c s = false.
Proof.
  induction s as [|d s IH]; simpl; [done|]. intros [Hd Hs]%andb_true_iff Hc. rewrite IH by done.
  destruct (Ascii.eqb_spec c d) as [->|]; [congruence|done].
Qed.

End ByteStrings.

Create Rewrite HintDb neo_str.
#[export] Hint Rewrite length_sdrop length_sapp sapp_cons sapp_nil_l sapp_assoc sapp_nil_r : neo_str.

(** ** Maps with string keys

    A Go [map[string]V] is a [gmap string V]; a [range] loop visits
    [map_to_list m]. Go leaves the order of the visit open: no theorem depends
    on it. *)

Definition map_existsb {V} (f : string -> V -> bool) (m : gmap string V) : bool :=
  existsb (fun kv => f kv.1 kv.2) (map_to_list m).

(** The number of entries that satisfy [f]. *)
Definition map_count {V} (f : string -> V -> bool) (m : gmap string V) : Z :=
  Z.of_nat (size (filter (fun kv => f kv.1 kv.2 = true) m)).

Section StringMaps.
Context {V : Type}.

Lemma map_existsb_true (f : string -> V -> bool) m :
  map_existsb f m = true <-> exists k v, m !! k = Some v /\ f k v = true.
Proof.
  unfold map_existsb. rewrite existsb_exists. split.
  - intros ([k v] & Hin & Hf). exists k, v.
    by rewrite <- list_elem_of_In, elem_of_map_to_list in Hin.
  - intros (k & v & Hm & Hf). exists (k, v).
    by rewrite <- list_elem_of_In, elem_of_map_to_list.
Qed.

Lemma map_existsb_false (f : string -> V -> bool) m :
  map_existsb f m = false <-> forall k v, m !! k = Some v -> f k v = false.
Proof.
  rewrite <- not_true_iff_false, map_existsb_true. split.
  - intros H k v Hm. destruct (f k v) eqn:E; [exfalso; eauto|done].
  - intros H (k & v & Hm & Hf). by rewrite (H _ _ Hm) in Hf.
Qed.

Lemma map_count_nonneg (f : string -> V -> bool) m : 0 <= map_count f m.
Proof. unfold map_count. lia. Qed.

Lemma map_count_insert (f : string -> V -> bool) k v m :
  m !! k = None -> map_count f (<[k:=v]> m) = map_count f m + (if f k v then 1 else 0).
Proof.
  intros Hk. unfold map_count. destruct (f k v) eqn:E.
  - rewrite map_filter_insert_True by done.
    rewrite map_size_insert_None by (apply map_lookup_filter_None; by left). lia.
  - rewrite map_filter_insert_False by (simpl; congruence). rewrite delete_id by done. lia.
Qed.

Lemma map_count_delete (f : string -> V -> bool) k v m :
  m !! k = Some v -> map_count f (delete k m) = map_count f m - (if f k v then 1 else 0).
Proof.
  intros Hk. rewrite <- (insert_delete_id m k v Hk) at 2.
  rewrite map_count_insert by apply lookup_delete_eq. lia.
Qed.

Lemma map_count_update (f : string -> V -> bool) k v v' m :
  m !! k = Some v ->
  map_count f (<[k:=v']> m) = map_count f m - (if f k v then 1 else 0) + (if f k v' then 1 else 0).
Proof.
  intros Hk. rewrite <- insert_delete_eq.
  rewrite map_count_insert by apply lookup_delete_eq. by rewrite (map_count_delete f k v m Hk).
Qed.

Lemma map_count_pos (f : string -> V -> bool) k v m :
  m !! k = Some v -> f k v = true -> 1 <= map_count f m.
Proof.
  intros Hk Hf. pose proof (map_count_nonneg f (delete k m)).
  rewrite (map_count_delete f k v m Hk), Hf in *. lia.
Qed.

Lemma map_count_zero (f : string -> V -> bool) m :
  (forall k v, m !! k = Some v -> f k v = false) -> map_count f m = 0.
Proof.
  intros H. unfold map_count. rewrite (proj2 (map_empty_filter _ m)); [done|].
  intros k v Hk. simpl. by rewrite (H k v Hk).
Qed.

Lemma map_count_pos_inv (f : string -> V -> bool) m :
  0 < map_count f m -> exists k v, m !! k = Some v /\ f k v = true.
Proof.
  intros H. apply map_existsb_true, not_false_iff_true. rewrite map_existsb_false.
  intros Hf. rewrite (map_count_zero f m Hf) in H. lia.
Qed.

(** At most one entry satisfies [f] when the count is at most one. *)
Lemma map_count_unique (f : string -> V -> bool) k v k' v' m :
  map_count f m <= 1 -> m !! k = Some v -> f k v = true -> m !! k' = Some v' -> f k' v' = true ->
  k = k'.
Proof.
  intros Hc Hk Hf Hk' Hf'. destruct (decide (k = k')) as [|Hne]; [done|exfalso].
  assert (1 <= map_count f (delete k m)).
  { apply (map_count_pos f k' v'); [by rewrite lookup_delete_ne|done]. }
  rewrite (map_count_delete f k v m Hk), Hf in *. lia.
Qed.

Lemma map_count_mono (f : string -> V -> bool) m m' : m ⊆ m' -> map_count f m <= map_count f m'.
Proof.
  intros Hs. unfold map_count. apply Nat2Z.inj_le. apply map_subseteq_size, map_filter_subseteq_mono, Hs.
Qed.

End StringMaps.

(** The sum of [f] over the entries. *)
Definition map_sum {V} (f : string -> V -> Z) (m : gmap string V) : Z :=
  map_fold (fun k v acc => f k v + acc) 0 m.

Section Sums.
Context {V : Type}.
Implicit Types (f : string -> V -> Z) (m : gmap string V).

Lemma map_sum_insert f k v m : m !! k = None -> map_sum f (<[k:=v]> m) = f k v + map_sum f m.
Proof. intros Hk. unfold map_sum. by rewrite map_fold_insert_L by (done || lia). Qed.

Lemma map_sum_delete f k v m : m !! k = Some v -> map_sum f (delete k m) = map_sum f m - f k v.
Proof.
  intros Hk. rewrite <- (insert_delete_id m k v Hk) at 2. rewrite map_sum_insert by apply lookup_delete_eq. lia.
Qed.

(** The sum after a row is written, in terms of the row it replaces. *)
Lemma map_sum_write f k v m :
  map_sum f (<[k:=v]> m) = map_sum f m - (match m !! k with Some u => f k u | None => 0 end) + f k v.
Proof.
  destruct (m !! k) as [u|] eqn:Hk.
  - rewrite <- insert_delete_eq, map_sum_insert by apply lookup_delete_eq. rewrite (map_sum_delete f k u) by done. lia.
  - rewrite map_sum_insert by done. lia.
Qed.

Lemma map_sum_nonneg f m : (forall k v, m !! k = Some v -> 0 <= f k v) -> 0 <= map_sum f m.
Proof.
  induction m as [|k v m Hk IH] using map_ind; intros H; [unfold map_sum; by rewrite map_fold_empty|].
  rewrite map_sum_insert by done. pose proof (H k v (lookup_insert_eq _ _ _)).
  assert (0 <= map_sum f m); [|lia]. apply IH. intros k' v' Hk'. apply H.
  rewrite lookup_insert_ne by congruence. done.
Qed.

Lemma map_sum_zero f m : (forall k v, m !! k = Some v -> f k v = 0) -> map_sum f m = 0.
Proof.
  induction m as [|k v m Hk IH] using map_ind; intros H; [done|].
  rewrite map_sum_insert by done. rewrite (H k v (lookup_insert_eq _ _ _)), IH; [done|].
  intros k' v' Hk'. apply (H k'). rewrite lookup_insert_ne by congruence. done.
Qed.

Lemma map_sum_ge f m k v :
  (forall k' v', m !! k' = Some v' -> 0 <= f k' v') -> m !! k = Some v -> f k v <= map_sum f m.
Proof.
  intros Hf Hk. assert (0 <= map_sum f (delete k m)).
  { apply map_sum_nonneg. intros k' v' [_ Hk']%lookup_delete_Some. eauto. }
  rewrite (map_sum_delete f k v m Hk) in *. lia.
Qed.
End Sums.

(** ** Filtered lists *)

Lemma elem_of_Lfilter {A} (f : A -> bool) l x : x ∈ List.filter f l <-> x ∈ l /\ f x = true.
Proof. rewrite !list_elem_of_In. apply filter_In. Qed.

Lemma Lfilter_all {A} (f : A -> bool) l : (forall x, x ∈ l -> f x = true) -> List.filter f l = l.
Proof. induction l as [|x l IH]; intros H; cbn; [done|]. rewrite (H x) by left. f_equal. apply IH. intros y Hy. apply H. by right. Qed.

Lemma Lfilter_none {A} (f : A -> bool) l : (forall x, x ∈ l -> f x = false) -> List.filter f l = [].
Proof. induction l as [|x l IH]; intros H; cbn; [done|]. rewrite (H x) by left. apply IH. intros y Hy. apply H. by right. Qed.

(** ** Generic tactics *)

(** Split every conjunction and existential of the context. *)
Ltac neo_split :=
  repeat match goal with
  | H : _ /\ _ |- _ => destruct H
  | H : exists _, _ |- _ => destruct H
  end.

(** One step of a weakest-precondition goal. *)
Ltac wp_bind := apply wp_bind.
