(* ===== verification/SqlUtil.v ===== *)
(** * Package [internal/sqlutil]: quoting of SQL identifiers and literals

    [QuoteIdent] and [QuoteLiteral] are the two ways by which the program puts
    text of its own into SQL. *)

From S2P Require Import Prelude.

(** The double quote and the apostrophe, by code. *)
Definition dquote : ascii := "034"%char.
Definition squote : ascii := "039"%char.

Definition QuoteIdent (name : string) : string :=
  String dquote "" +:+ ReplaceByte dquote (String dquote (String dquote "")) name +:+ String dquote "".

Definition EscapeLiteral (value : string) : string :=
  ReplaceByte squote (String squote (String squote "")) value.

Definition QuoteLiteral (value : string) : string :=
  String squote "" +:+ EscapeLiteral value +:+ String squote "".

(** The drivers that may read a vector file ([datasource/vectorfile/read_policy.go]). *)
Definition ReadPolicySQL : string := ", allowed_drivers=['GeoJSON','GPKG','ESRI Shapefile','FlatGeobuf']".
