(* ===== verification/GoNum.v ===== *)
(** * [strconv.ParseFloat] and decimal printing

    [float64] values are those of the IEEE 754 format with 53 bits of precision
    and exponents up to 1024, as computed by [SpecFloat]. *)

From S2P Require Import Prelude.
From Stdlib Require Export SpecFloat.

Definition float64 : Type := spec_float.

(** Reads digits and at most one period: the digits as an integer, how many of
    them follow the period, whether any digit was read, and the rest. *)
Fixpoint scan_mantissa (s : string) (mant frac : Z) (sawdot sawdigits : bool)
    : Z * Z * bool * string :=
  match s with
  | EmptyString => (mant, frac, sawdigits, s)
  | String c s' =>
      if Ascii.eqb c "." then
        if sawdot then (mant, frac, sawdigits, s) else scan_mantissa s' mant frac true sawdigits
      else if ((48 <=? code c) && (code c <=? 57))%N then
        scan_mantissa s' (mant * 10 + (Z.of_N (code c) - 48)) (if sawdot then frac + 1 else frac)
          sawdot true
      else (mant, frac, sawdigits, s)
  end.

(** The digits of an exponent; like the library it stops accumulating at 10000. *)
Fixpoint scan_exponent (s : string) (e : Z) : Z * string :=
  match s with
  | EmptyString => (e, s)
  | String c s' =>
      if ((48 <=? code c) && (code c <=? 57))%N then
        scan_exponent s' (if e <? 10000 then e * 10 + (Z.of_N (code c) - 48) else e)
      else (e, s)
  end.

Definition starts_with_digit (s : string) : bool :=
  match s with
  | String c _ => ((48 <=? code c) && (code c <=? 57))%N
  | EmptyString => false
  end.

(** The float64 nearest to [(-1)^neg * mant * 10^exp10]. *)
Definition decimal_to_float (neg : bool) (mant exp10 : Z) : float64 :=
  match mant with
  | Zpos m =>
      if 0 <=? exp10 then
        binary_normalize 53 1024 (cond_Zopp neg (Zpos m * 10 ^ exp10)) 0 neg
      else
        SFdiv 53 1024 (S754_finite neg m 0) (S754_finite false (Z.to_pos (10 ^ (- exp10))) 0)
  | _ => S754_zero neg
  end.

Definition is_finite_float (f : float64) : bool :=
  match f with S754_infinity _ | S754_nan => false | _ => true end.

(** Decimal text; [None] when the library returns an error (a syntax error, or a
    value out of the range of float64). *)
Definition parseDecimal (s : string) : option float64 :=
  let neg := head_is "-" s in
  let s1 := if head_is "-" s || head_is "+" s then sdrop 1 s else s in
  let '(mant, frac, sawdigits, r) := scan_mantissa s1 0 0 false false in
  if negb sawdigits then None
  else
    let finish (exp10 : Z) : option float64 :=
      let f := decimal_to_float neg mant exp10 in
      if is_finite_float f then Some f else None in
    match r with
    | EmptyString => finish (- frac)
    | String c r' =>
        if Ascii.eqb c "e" || Ascii.eqb c "E" then
          let eneg := head_is "-" r' in
          let r2 := if head_is "-" r' || head_is "+" r' then sdrop 1 r' else r' in
          if starts_with_digit r2 then
            let '(e, r3) := scan_exponent r2 0 in
            match r3 with
            | EmptyString => finish ((if eneg then - e else e) - frac)
            | _ => None
            end
          else None
        else None
    end.

(** Hexadecimal digits and at most one period, like [scan_mantissa]. *)
Definition hexDigit (c : ascii) : option Z :=
  let n := Z.of_N (code c) in
  if (48 <=? n) && (n <=? 57) then Some (n - 48)
  else if (97 <=? n) && (n <=? 102) then Some (n - 87)
  else if (65 <=? n) && (n <=? 70) then Some (n - 55)
  else None.

Fixpoint scan_hex (s : string) (mant frac : Z) (sawdot sawdigits : bool) : Z * Z * bool * string :=
  match s with
  | EmptyString => (mant, frac, sawdigits, s)
  | String c s' =>
      if Ascii.eqb c "." then
        if sawdot then (mant, frac, sawdigits, s) else scan_hex s' mant frac true sawdigits
      else
        match hexDigit c with
        | Some d => scan_hex s' (mant * 16 + d) (if sawdot then frac + 1 else frac) sawdot true
        | None => (mant, frac, sawdigits, s)
        end
  end.

(** The text after [0x]: an exponent is required. *)
Definition parseHex (neg : bool) (s : string) : option float64 :=
  let '(mant, frac, sawdigits, r) := scan_hex s 0 0 false false in
  if negb sawdigits then None
  else
    match r with
    | EmptyString => None
    | String c r' =>
        if Ascii.eqb c "p" || Ascii.eqb c "P" then
          let eneg := head_is "-" r' in
          let r2 := if head_is "-" r' || head_is "+" r' then sdrop 1 r' else r' in
          if starts_with_digit r2 then
            let '(e, r3) := scan_exponent r2 0 in
            match r3 with
            | EmptyString =>
                let f := binary_normalize 53 1024 (cond_Zopp neg mant) ((if eneg then - e else e) - 4 * frac) neg in
                if is_finite_float f then Some f else None
            | _ => None
            end
          else None
        else None
    end.

(** Underscores only between digits, or after a base prefix; [saw] is the kind of
    the last byte. *)
Inductive sawByte : Type := SawStart | SawDigit | SawUnderscore | SawOther.

Fixpoint underscoresFrom (hex : bool) (saw : sawByte) (s : string) : bool :=
  match s with
  | EmptyString => match saw with SawUnderscore => false | _ => true end
  | String c s' =>
      if match hexDigit c with Some d => hex || (d <? 10) | None => false end
      then underscoresFrom hex SawDigit s'
      else if Ascii.eqb c "_" then
        match saw with SawDigit => underscoresFrom hex SawUnderscore s' | _ => false end
      else
        match saw with SawUnderscore => false | _ => underscoresFrom hex SawOther s' end
  end.

Definition basePrefix (letters : list ascii) (s : string) : bool :=
  match s with
  | String z (String x _) => Ascii.eqb z "0" && existsb (Ascii.eqb (low_byte x)) letters
  | _ => false
  end.

Definition underscoreOK (s : string) : bool :=
  let s := if head_is "-" s || head_is "+" s then sdrop 1 s else s in
  if basePrefix ["b"; "o"; "x"]%char s
  then underscoresFrom (basePrefix ["x"%char] s) SawDigit (sdrop 2 s)
  else underscoresFrom false SawStart s.

(** [strconv.ParseFloat(s, 64)]: infinities, NaN, hexadecimal and decimal text,
    with underscores. *)
Definition ParseFloat (s : string) : option float64 :=
  let neg := head_is "-" s in
  let s1 := if head_is "-" s || head_is "+" s then sdrop 1 s else s in
  if EqualFold s1 "inf" || EqualFold s1 "infinity" then Some (S754_infinity neg)
  else if EqualFold s "nan" then Some S754_nan
  else if has_byte "_" s && negb (underscoreOK s) then None
  else
    let s := ReplaceByte "_" "" s in
    let s1 := ReplaceByte "_" "" s1 in
    if basePrefix ["x"%char] s1 && Nat.ltb 2 (String.length s1) then parseHex neg (sdrop 2 s1)
    else parseDecimal s.

(** [a <= b] and [a > b] on float64. *)
Definition float_leb (a b : float64) : bool := SFleb a b.
Definition float_gtb (a b : float64) : bool := SFltb b a.

Example ParseFloat_tenth : ParseFloat "0.1" = Some (S754_finite false 7205759403792794 (-56)).
Proof. vm_compute. reflexivity. Qed.

Example ParseFloat_exponent : ParseFloat "-1.5e2" = ParseFloat "-150".
Proof. vm_compute. reflexivity. Qed.

Example ParseFloat_forms :
  map ParseFloat ["0x1.8p1"; "1_000"; "-INF"; "NaN"; "0x_Ap0"]
  = [ParseFloat "3"; ParseFloat "1000"; Some (S754_infinity true); Some S754_nan; ParseFloat "10"].
Proof. vm_compute. reflexivity. Qed.

Example ParseFloat_rejects :
  map ParseFloat ["."; "1.2.3"; "1e"; "-"; "1e400"; "0x1"; "1__0"; "+nan"; "0x_"]
  = [None; None; None; None; None; None; None; None; None].
Proof. vm_compute. reflexivity. Qed.
