(* ===== verification/GoText.v ===== *)
(** * Text functions of Go's standard library

    The functions of [strings] and [strconv] that several components use. White
    space is that of the ASCII range; integers are those of [int] on 64-bit
    platforms. *)

From S2P Require Import Prelude.

(** ** [strings] *)

Definition isTrimmed (c : ascii) : bool :=
  existsb (Ascii.eqb c) ["009"; "010"; "011"; "012"; "013"; " "]%char.

(** [strings.TrimRightFunc]. *)
Fixpoint trimRightBy (f : ascii -> bool) (s : string) : string :=
  match s with
  | "" => ""
  | String c s' => match trimRightBy f s' with "" => if f c then "" else String c "" | t => String c t end
  end.

Definition TrimSpace (s : string) : string := trimRightBy isTrimmed (sdrop (span_len isTrimmed s) s).

Definition HasPrefix (s prefix : string) : bool := String.prefix prefix s.

Definition HasSuffix (s suffix : string) : bool :=
  Nat.leb (String.length suffix) (String.length s)
  && String.eqb (sdrop (String.length s - String.length suffix) s) suffix.

Definition TrimPrefix (s prefix : string) : string :=
  if HasPrefix s prefix then sdrop (String.length prefix) s else s.

Fixpoint Contains (s sub : string) : bool :=
  HasPrefix s sub || match s with "" => false | String _ s' => Contains s' sub end.

(** [strings.ReplaceAll] for a text [old] that is not empty; [skip] bytes of an
    occurrence are still to be passed. *)
Fixpoint replaceFrom (old new : string) (skip : nat) (s : string) : string :=
  match s with
  | "" => ""
  | String c s' =>
      match skip with
      | S k => replaceFrom old new k s'
      | O => if HasPrefix s old then new +:+ replaceFrom old new (String.length old - 1) s'
             else String c (replaceFrom old new 0 s')
      end
  end.

Definition ReplaceAll (s old new : string) : string := replaceFrom old new 0 s.

(** The text before and after the first [c]. *)
Fixpoint cut (c : ascii) (s : string) : option (string * string) :=
  match s with
  | EmptyString => None
  | String d s' =>
      if Ascii.eqb d c then Some ("", s')
      else match cut c s' with Some (a, b) => Some (String d a, b) | None => None end
  end.

(** The text before and after the last [c]. *)
Fixpoint cutLast (c : ascii) (s : string) : option (string * string) :=
  match s with
  | "" => None
  | String d s' =>
      match cutLast c s' with
      | Some (a, b) => Some (String d a, b)
      | None => if Ascii.eqb d c then Some ("", s') else None
      end
  end.

(** [strings.Fields]; [word] is the word being read. *)
Fixpoint fieldsFrom (word : string) (s : string) : list string :=
  match s with
  | "" => if String.eqb word "" then [] else [word]
  | String c s' =>
      if isTrimmed c then (if String.eqb word "" then [] else [word]) ++ fieldsFrom "" s'
      else fieldsFrom (word +:+ String c "") s'
  end.

Definition Fields (s : string) : list string := fieldsFrom "" s.

Definition lastOr (d : string) (l : list string) : string := default d (last l).

(** ** [strconv.Atoi] *)

Definition digit (c : ascii) : bool := ((48 <=? code c) && (code c <=? 57))%N.

Fixpoint digitsValue (acc : Z) (s : string) : option Z :=
  match s with
  | "" => Some acc
  | String c s' => if digit c then digitsValue (acc * 10 + (Z.of_N (code c) - 48)) s' else None
  end.

Definition inInt64 (n : Z) : bool := (- 2 ^ 63 <=? n) && (n <? 2 ^ 63).

Definition Atoi (s : string) : option Z :=
  let digits := if head_is "-" s || head_is "+" s then sdrop 1 s else s in
  match digits with
  | "" => None
  | _ =>
      n ← digitsValue 0 digits;
      let n := if head_is "-" s then - n else n in
      if inInt64 n then Some n else None
  end.

(** The bytes of the decimal form of a number. *)
Definition digitOrDash (c : ascii) : bool := digit c || Ascii.eqb c "-".

(** ** Lemmas *)

Lemma all_bytes_impl (f g : ascii -> bool) s :
  (forall c, f c = true -> g c = true) -> all_bytes f s = true -> all_bytes g s = true.
Proof.
  intros H. induction s as [|c s IH]; simpl; [done|]. intros [Hc Hs]%andb_true_iff. by rewrite H, IH.
Qed.

Lemma pretty_N_go_digits x s : all_bytes digit s = true -> all_bytes digit (pretty_N_go x s) = true.
Proof.
  revert s. induction (N.lt_wf_0 x) as [x _ IH]. intros s Hs.
  destruct (decide (x = 0)%N) as [->|]; [by rewrite pretty_N_go_0|].
  rewrite pretty_N_go_step by lia. apply IH; [apply N.div_lt; lia|]. cbn [all_bytes]. rewrite Hs, andb_true_r.
  unfold pretty_N_char. by repeat case_match.
Qed.

Lemma pretty_digits (k : Z) : 0 <= k -> all_bytes digit (pretty k) = true.
Proof.
  intros Hk. destruct k as [|p|p]; [done| |lia].
  change (pretty (Z.pos p)) with (pretty_N_go (N.pos p) ""). by apply pretty_N_go_digits.
Qed.

Lemma pretty_number (k : Z) : all_bytes digitOrDash (pretty k) = true.
Proof.
  destruct k as [|p|p]; [done| |].
  - eapply all_bytes_impl; [|apply (pretty_digits (Z.pos p)); lia]. unfold digitOrDash. by intros c ->.
  - change (all_bytes digitOrDash (pretty_N_go (N.pos p) "") = true).
    eapply all_bytes_impl; [|by apply pretty_N_go_digits]. unfold digitOrDash. by intros c ->.
Qed.

(** What holds of digits and the dash holds of every byte of a printed number. *)
Definition numberBytes : list ascii := ["0"; "1"; "2"; "3"; "4"; "5"; "6"; "7"; "8"; "9"; "-"]%char.

Lemma number_bytes (f : ascii -> bool) (k : Z) : forallb f numberBytes = true -> all_bytes f (pretty k) = true.
Proof.
  rewrite forallb_forall. intros Hf. eapply all_bytes_impl; [|apply pretty_number].
  intros c Hc. apply Hf. unfold digitOrDash, digit, code in Hc.
  destruct c as [[] [] [] [] [] [] [] []]; vm_compute in Hc; try discriminate; vm_compute; tauto.
Qed.

Lemma digitsValue_app acc a b :
  digitsValue acc (a +:+ b) = n ← digitsValue acc a; digitsValue n b.
Proof.
  revert acc. induction a as [|c a IH]; intros acc; [done|]. rewrite sapp_cons. simpl.
  destruct (digit c); [apply IH|done].
Qed.

Lemma pretty_N_char_digit (x : N) :
  (x < 10)%N -> digit (pretty_N_char x) = true /\ Z.of_N (code (pretty_N_char x)) - 48 = Z.of_N x.
Proof.
  intros H. assert (In x [0;1;2;3;4;5;6;7;8;9]%N) as Hin by (simpl; lia).
  simpl in Hin. repeat destruct Hin as [<-|Hin]; try done.
Qed.

Lemma digitsValue_pretty_N (x : N) s :
  digitsValue 0 (pretty_N_go x s) = digitsValue (Z.of_N x) s.
Proof.
  revert s. induction (N.lt_wf_0 x) as [x _ IH]. intros s.
  destruct (decide (x = 0)%N) as [->|]; [by rewrite pretty_N_go_0|].
  rewrite pretty_N_go_step by lia. rewrite IH by (apply N.div_lt; lia). simpl.
  destruct (pretty_N_char_digit (x `mod` 10)%N) as [-> ->]; [apply N.mod_lt; lia|].
  f_equal. rewrite N2Z.inj_div, N2Z.inj_mod. simpl. pose proof (Z.div_mod (Z.of_N x) 10). lia.
Qed.

Lemma pretty_pos_digits (p : positive) :
  exists c s, pretty (Z.pos p) = String c s /\ digit c = true /\ digitsValue 0 (String c s) = Some (Z.pos p).
Proof.
  pose proof (digitsValue_pretty_N (N.pos p) "") as H. simpl in H.
  change (pretty (Z.pos p)) with (pretty_N_go (N.pos p) "").
  destruct (pretty_N_go (N.pos p) "") as [|c s]; [done|].
  exists c, s. split_and!; [done| |done]. simpl in H. by destruct (digit c).
Qed.

(** Reading back a printed integer. *)
Lemma Atoi_pretty n : inInt64 n = true -> Atoi (pretty n) = Some n.
Proof.
  intros Hn. unfold Atoi. destruct n as [|p|p].
  - done.
  - destruct (pretty_pos_digits p) as (c & s & -> & Hc & Hv).
    assert (head_is "-" (String c s) = false /\ head_is "+" (String c s) = false) as [-> ->].
    { cbn [head_is]. split; apply Ascii.eqb_neq; intros <-; done. }
    cbn [orb]. rewrite Hv. simpl. by rewrite Hn.
  - destruct (pretty_pos_digits p) as (c & s & E & Hc & Hv).
    change (pretty (Z.neg p)) with (String "-" (pretty (Z.pos p))). rewrite E.
    change (head_is "-" (String "-" _)) with true. cbn [orb sdrop]. rewrite Hv. cbn -[inInt64]. change (- Z.pos p) with (Z.neg p). by rewrite Hn.
Qed.

Lemma trimRightBy_id f s : all_bytes (fun c => negb (f c)) s = true -> trimRightBy f s = s.
Proof.
  induction s as [|c s IH]; simpl; [done|]. intros [Hc Hs]%andb_true_iff. rewrite IH by done.
  apply negb_true_iff in Hc. rewrite Hc. by destruct s.
Qed.

Lemma trimRightBy_app f a b : b <> "" -> trimRightBy f b = b -> trimRightBy f (a +:+ b) = a +:+ b.
Proof.
  intros Hne Hb. induction a as [|c a IH]; [done|]. rewrite sapp_cons. cbn [trimRightBy]. rewrite IH.
  destruct (a +:+ b) eqn:E; [|done]. destruct a; [by destruct b|by rewrite sapp_cons in E].
Qed.

Lemma TrimSpace_id s : all_bytes (fun c => negb (isTrimmed c)) s = true -> TrimSpace s = s.
Proof.
  intros H. unfold TrimSpace. assert (span_len isTrimmed s = 0%nat) as ->.
  { destruct s as [|c s]; [done|]. simpl in *. apply andb_true_iff in H as [Hc _].
    apply negb_true_iff in Hc. by rewrite Hc. }
  by apply trimRightBy_id.
Qed.

Lemma smap_app f a b : smap f (a +:+ b) = smap f a +:+ smap f b.
Proof. induction a as [|c a IH]; [done|]. rewrite sapp_cons. simpl. by rewrite sapp_cons, IH. Qed.

Lemma smap_id f (g : ascii -> bool) s :
  (forall c, g c = true -> f c = c) -> all_bytes g s = true -> smap f s = s.
Proof.
  intros Hf. induction s as [|c s IH]; simpl; [done|]. intros [Hc Hs]%andb_true_iff. by rewrite Hf, IH.
Qed.

Lemma all_bytes_app f a b : all_bytes f (a +:+ b) = all_bytes f a && all_bytes f b.
Proof. induction a as [|c a IH]; [done|]. rewrite sapp_cons. simpl. rewrite IH. by rewrite andb_assoc. Qed.

Lemma prefix_app a b : String.prefix a (a +:+ b) = true.
Proof.
  induction a as [|c a IH]; [by destruct b|]. rewrite sapp_cons. simpl.
  destruct (ascii_dec c c); [done|congruence].
Qed.

Lemma HasPrefix_split s p : HasPrefix s p = true -> exists r, s = p +:+ r.
Proof.
  unfold HasPrefix. revert s. induction p as [|c p IH]; intros s; [by exists s|]. destruct s as [|a s]; cbn [String.prefix]; [done|].
  destruct (ascii_dec c a) as [->|]; [|done]. intros (r & ->)%IH. by exists r.
Qed.

Lemma TrimPrefix_app a b : TrimPrefix (a +:+ b) a = b.
Proof. unfold TrimPrefix, HasPrefix. by rewrite prefix_app, sdrop_app. Qed.

Lemma Contains_app a b c : Contains (a +:+ b +:+ c) b = true.
Proof.
  induction a as [|d a IH].
  - rewrite sapp_nil_l. assert (H : HasPrefix (b +:+ c) b = true) by apply prefix_app.
    destruct (b +:+ c); cbn [Contains]; by rewrite H.
  - rewrite sapp_cons. simpl. by rewrite IH, orb_true_r.
Qed.

(** What a prefix says of a text that starts with another one of that length. *)
Lemma prefix_false a b p :
  String.length a = String.length p -> a <> p -> String.prefix p (a +:+ b) = false.
Proof.
  revert p. induction a as [|c a IH]; intros [|d p]; simpl; try done. intros [= Hl] Hne.
  destruct (ascii_dec d c) as [->|]; [|done]. apply IH; [done|congruence].
Qed.

Lemma cutLast_none c s : has_byte c s = false -> cutLast c s = None.
Proof.
  induction s as [|d s IH]; simpl; [done|]. intros [Hd Hs]%orb_false_iff. rewrite IH by done.
  by rewrite Ascii.eqb_sym, Hd.
Qed.

Lemma cutLast_app c a b : has_byte c b = false -> cutLast c (a +:+ String c b) = Some (a, b).
Proof.
  intros Hb. induction a as [|d a IH].
  - rewrite sapp_nil_l. simpl. by rewrite cutLast_none, Ascii.eqb_refl.
  - rewrite sapp_cons. simpl. by rewrite IH.
Qed.

Lemma cut_app c a b : has_byte c a = false -> cut c (a +:+ String c b) = Some (a, b).
Proof.
  induction a as [|d a IH]; cbn [has_byte].
  - intros _. rewrite sapp_nil_l. cbn [cut]. by rewrite Ascii.eqb_refl.
  - intros [Hd Ha]%orb_false_iff. rewrite sapp_cons. cbn [cut]. by rewrite Ascii.eqb_sym, Hd, IH.
Qed.

Lemma cut_none c s : has_byte c s = false -> cut c s = None.
Proof.
  induction s as [|d s IH]; simpl; [done|]. intros [Hd Hs]%orb_false_iff. by rewrite Ascii.eqb_sym, Hd, IH.
Qed.
