(* ===== verification/Crs.v ===== *)
(** * Coordinate reference systems and bounding boxes
      ([internal/crs/crs.go], [internal/query/crs.go], [bbox.go], [internal/wfs/transaction_values.go],
      [fes_predicates.go])

    The spellings of a coordinate reference system that the services accept, the
    ones they print, and the axis order each one stands for. Whether the authority
    exchanges the axes of a system is looked up in PROJ through GDAL: a parameter
    of [inputGeometryCRS]. *)

From S2P Require Import Prelude GoNum GoText.

(** ** Package [crs] *)

Definition DefaultSRID : Z := 4326.

Inductive crsErr : Type :=
| EmptyCRS
| InvalidEPSG (crs : string)
| InvalidURN (crs : string)
| InvalidHTTP (crs : string)
| UnsupportedCRS (crs : string).

(** The first part that is neither empty nor ["0"] and reads as a number. *)
Fixpoint firstNumber (parts : list string) : option Z :=
  match parts with
  | [] => None
  | p :: rest =>
      if negb (String.eqb p "") && negb (String.eqb p "0") then
        match Atoi p with Some n => Some n | None => firstNumber rest end
      else firstNumber rest
  end.

(** The first number after some part that reads [EPSG]. *)
Fixpoint numberAfterEPSG (parts : list string) : option Z :=
  match parts with
  | [] => None
  | p :: rest =>
      if EqualFold p "EPSG" then
        match firstNumber rest with Some n => Some n | None => numberAfterEPSG rest end
      else numberAfterEPSG rest
  end.

Definition Parse (crs : string) : crsErr + Z :=
  let crs := TrimSpace crs in
  if String.eqb crs "" then inl EmptyCRS
  else if HasPrefix (ToUpper crs) "EPSG:" then
    match Atoi (TrimPrefix (ToUpper crs) "EPSG:") with
    | None => inl (InvalidEPSG crs)
    | Some srid => inr srid
    end
  else if EqualFold crs "CRS:84" || EqualFold crs "OGC:CRS84" then inr DefaultSRID
  else if HasPrefix (ToLower crs) "urn:" then
    match numberAfterEPSG (Split ":" crs) with
    | Some srid => inr srid
    | None => inl (InvalidURN crs)
    end
  else if Contains crs "opengis.net" then
    match Atoi (lastOr "" (Split "/" crs)) with
    | Some srid => inr srid
    | None => inl (InvalidHTTP crs)
    end
  else
    match (if Contains (ToUpper crs) "EPSG" then numberAfterEPSG (Split ":" crs) else None) with
    | Some srid => inr srid
    | None => inl (UnsupportedCRS crs)
    end.

Definition MustParse (crs : string) : Z :=
  match Parse crs with inr srid => srid | inl _ => 0 end.

Definition ToURN (srid : Z) : string := "urn:ogc:def:crs:EPSG::" +:+ pretty srid.
Definition ToEPSG (srid : Z) : string := "EPSG:" +:+ pretty srid.
Definition ToHTTPURI (srid : Z) : string := "http://www.opengis.net/def/crs/EPSG/0/" +:+ pretty srid.

Definition IsLatLonOrder (crs : string) : bool :=
  let crs := TrimSpace crs in
  if EqualFold crs "CRS:84" || EqualFold crs "OGC:CRS84" then false
  else
    match Parse crs with
    | inl _ => false
    | inr srid => existsb (Z.eqb srid) [4326; 4269; 4267; 4258]
    end.

(** ** Package [query] *)

Definition CRS84URI : string := "http://www.opengis.net/def/crs/OGC/1.3/CRS84".

Definition isSlash (c : ascii) : bool := Ascii.eqb c "/".

Definition ParseCRS (v : string) : crsErr + Z :=
  let v := TrimSpace v in
  if String.eqb v "" then inl EmptyCRS
  else if String.eqb v CRS84URI || EqualFold v "CRS84" then inr 4326
  else if HasPrefix (ToUpper v) "EPSG:" then
    match Atoi (TrimPrefix (ToUpper v) "EPSG:") with
    | None => inl (InvalidEPSG v)
    | Some n => inr n
    end
  else if Contains v "/def/crs/EPSG/0/" then
    match Atoi (lastOr "" (Split "/" (trimRightBy isSlash v))) with
    | None => inl (InvalidHTTP v)
    | Some n => inr n
    end
  else
    match Atoi v with
    | Some n => inr n
    | None => inl (UnsupportedCRS v)
    end.

Definition CRSURIFromSRID (srid : Z) : string :=
  if srid =? 4326 then CRS84URI else "http://www.opengis.net/def/crs/EPSG/0/" +:+ pretty srid.

Record BBox : Type := mkBBox { MinX : float64; MinY : float64; MaxX : float64; MaxY : float64 }.

Inductive bboxErr : Type := BBoxArity | BBoxNumber (part : string) | BBoxOrder.

Fixpoint finiteNumbers (parts : list string) : bboxErr + list float64 :=
  match parts with
  | [] => inr []
  | p :: rest =>
      match ParseFloat (TrimSpace p) with
      | Some f =>
          if is_finite_float f then
            match finiteNumbers rest with inl err => inl err | inr l => inr (f :: l) end
          else inl (BBoxNumber p)
      | None => inl (BBoxNumber p)
      end
  end.

Definition ParseBBox (v : string) : bboxErr + BBox :=
  let parts := Split "," v in
  if negb (Nat.eqb (length parts) 4) then inl BBoxArity
  else
    match finiteNumbers parts with
    | inl err => inl err
    | inr [n0; n1; n2; n3] => if float_gtb n1 n3 then inl BBoxOrder else inr (mkBBox n0 n1 n2 n3)
    | inr _ => inl BBoxArity
    end.

(** ** Input systems of WFS ([transaction_values.go], [fes_predicates.go]) *)

Definition crs84Names : list string :=
  ["crs:84"; "ogc:crs84"; "urn:ogc:def:crs:ogc::crs84"; "urn:ogc:def:crs:ogc:1.3:crs84";
   "http://www.opengis.net/def/crs/ogc/1.3/crs84"; "https://www.opengis.net/def/crs/ogc/1.3/crs84"].

(** The normalized spelling and the number; [None] is an unsupported system. *)
Definition normalizedInputCRS (value : string) : option (string * Z) :=
  let lower := ToLower (TrimSpace value) in
  if existsb (String.eqb lower) crs84Names then Some ("EPSG:4326", 4326)
  else
    match Parse value with
    | inl _ => None
    | inr srid =>
        if srid <=? 0 then None
        else if HasPrefix lower "epsg:" then Some (ToEPSG srid, srid)
        else Some (ToURN srid, srid)
    end.

(** The number of the system and whether the coordinates come in the exchanged
    order. [AuthorityAxisSwap] is [None] where the library does not know the
    system. *)
Definition inputGeometryCRS (AuthorityAxisSwap : Z -> option bool) (value : string) (defaultSRID : Z)
    : option (Z * bool) :=
  if String.eqb (TrimSpace value) "" then Some (defaultSRID, false)
  else
    '(normalized, srid) ← normalizedInputCRS value;
    if HasPrefix normalized "EPSG:" then Some (srid, false)
    else swap ← AuthorityAxisSwap srid; Some (srid, swap).

(** ** Printed systems are read back *)

Section RoundTrip.
Context (n : Z) (Hn : inInt64 n = true).

Lemma trim_printed prefix :
  all_bytes (fun c => negb (isTrimmed c)) prefix = true -> TrimSpace (prefix +:+ pretty n) = prefix +:+ pretty n.
Proof. intros Hp. apply TrimSpace_id. rewrite all_bytes_app, Hp. by apply number_bytes. Qed.

Lemma upper_printed prefix : ToUpper (prefix +:+ pretty n) = ToUpper prefix +:+ pretty n.
Proof.
  unfold ToUpper. rewrite smap_app. f_equal. apply (smap_id _ (fun c => Ascii.eqb (up_byte c) c)).
  - by intros c ->%Ascii.eqb_eq.
  - by apply number_bytes.
Qed.

Lemma lower_printed prefix : ToLower (prefix +:+ pretty n) = ToLower prefix +:+ pretty n.
Proof.
  unfold ToLower. rewrite smap_app. f_equal. apply (smap_id _ (fun c => Ascii.eqb (low_byte c) c)).
  - by intros c ->%Ascii.eqb_eq.
  - by apply number_bytes.
Qed.

Lemma split_printed c :
  forallb (fun d => negb (Ascii.eqb d c)) numberBytes = true -> Split c (pretty n) = [pretty n].
Proof.
  intros Hc. apply Split_none, (all_bytes_has (fun d => negb (Ascii.eqb d c))); [|by rewrite Ascii.eqb_refl].
  by apply number_bytes.
Qed.

Lemma pretty_nonempty : pretty n <> "".
Proof. intros E. pose proof (Atoi_pretty n Hn) as H. by rewrite E in H. Qed.

Lemma Parse_ToEPSG : Parse (ToEPSG n) = inr n.
Proof.
  unfold Parse, ToEPSG. rewrite trim_printed, upper_printed by done.
  change (ToUpper "EPSG:") with "EPSG:". unfold HasPrefix. rewrite prefix_app, TrimPrefix_app.
  by rewrite Atoi_pretty.
Qed.

(** The parts of a printed system do not depend on the digits of its number. *)
Lemma Parse_ToURN : n <> 0 -> Parse (ToURN n) = inr n.
Proof.
  intros H0. pose proof (Atoi_pretty n Hn) as Ha.
  assert (Hs : Split ":" (pretty n) = [pretty n]) by (by apply split_printed).
  assert (pretty n <> "0") as Hz%String.eqb_neq by (intros E; rewrite E in Ha; by injection Ha as <-).
  pose proof pretty_nonempty as He%String.eqb_neq.
  unfold Parse, ToURN, EqualFold. rewrite trim_printed, upper_printed, lower_printed by done.
  revert Ha Hs Hz He. generalize (pretty n) as d. intros d Ha Hs Hz He.
  change (HasPrefix _ "EPSG:") with false. change (HasPrefix _ "urn:") with true.
  assert (Split ":" ("urn:ogc:def:crs:EPSG::" +:+ d) = ["urn"; "ogc"; "def"; "crs"; "EPSG"; ""; d]) as ->
    by (rewrite !sapp_cons, sapp_nil_l; cbn [Split]; by rewrite Hs).
  simpl. by rewrite He, Hz, Ha.
Qed.

Lemma uri_last : lastOr "" (Split "/" ("http://www.opengis.net/def/crs/EPSG/0/" +:+ pretty n)) = pretty n.
Proof.
  assert (Hs : Split "/" (pretty n) = [pretty n]) by (by apply split_printed).
  revert Hs. generalize (pretty n) as d. intros d Hs. rewrite !sapp_cons, sapp_nil_l. cbn [Split]. by rewrite Hs.
Qed.

Lemma Parse_ToHTTPURI : Parse (ToHTTPURI n) = inr n.
Proof.
  unfold Parse, ToHTTPURI, EqualFold. rewrite trim_printed, upper_printed, lower_printed, uri_last by done.
  rewrite Atoi_pretty by done. by generalize (pretty n) as d.
Qed.

Lemma ParseCRS_CRSURIFromSRID : ParseCRS (CRSURIFromSRID n) = inr n.
Proof.
  unfold CRSURIFromSRID. destruct (n =? 4326) eqn:E; [apply Z.eqb_eq in E as ->; reflexivity|].
  unfold ParseCRS, EqualFold. rewrite trim_printed, upper_printed, lower_printed by done.
  rewrite trimRightBy_app by (apply pretty_nonempty || by apply trimRightBy_id, number_bytes).
  rewrite uri_last, Atoi_pretty by done.
  change (Contains _ _) with (Contains ("http://www.opengis.net" +:+ "/def/crs/EPSG/0/" +:+ pretty n) "/def/crs/EPSG/0/").
  rewrite Contains_app.
  by generalize (pretty n) as d.
Qed.

(** What the spelling of an input system says about its axes. *)
Lemma inputGeometryCRS_EPSG swap d : 0 < n -> inputGeometryCRS swap (ToEPSG n) d = Some (n, false).
Proof.
  intros H0. unfold inputGeometryCRS, normalizedInputCRS. rewrite Parse_ToEPSG. unfold ToEPSG.
  rewrite trim_printed, lower_printed by done. rewrite (proj2 (Z.leb_gt n 0)) by done.
  assert (existsb (String.eqb (ToLower "EPSG:" +:+ pretty n)) crs84Names = false) as ->
    by by generalize (pretty n) as p.
  change (ToLower "EPSG:") with "epsg:". unfold HasPrefix. rewrite prefix_app. cbn -[pretty String.prefix].
  unfold ToEPSG. by rewrite prefix_app.
Qed.

Lemma inputGeometryCRS_URN swap d :
  0 < n -> inputGeometryCRS swap (ToURN n) d = b ← swap n; Some (n, b).
Proof.
  intros H0. unfold inputGeometryCRS, normalizedInputCRS. rewrite Parse_ToURN by lia. unfold ToURN.
  rewrite trim_printed, lower_printed by done. rewrite (proj2 (Z.leb_gt n 0)) by done.
  assert (existsb (String.eqb (ToLower "urn:ogc:def:crs:EPSG::" +:+ pretty n)) crs84Names = false) as ->
    by by generalize (pretty n) as p.
  cbn -[pretty]. by generalize (pretty n) as p.
Qed.

Lemma inputGeometryCRS_URI swap d :
  0 < n -> inputGeometryCRS swap (ToHTTPURI n) d = b ← swap n; Some (n, b).
Proof.
  intros H0. unfold inputGeometryCRS, normalizedInputCRS. rewrite Parse_ToHTTPURI. unfold ToHTTPURI, ToURN.
  rewrite trim_printed, lower_printed by done. rewrite (proj2 (Z.leb_gt n 0)) by done.
  assert (existsb (String.eqb (ToLower "http://www.opengis.net/def/crs/EPSG/0/" +:+ pretty n)) crs84Names = false) as ->
    by by generalize (pretty n) as p.
  cbn -[pretty]. by generalize (pretty n) as p.
Qed.
End RoundTrip.

(** Every 64-bit number is read back from each printed form of its system (the
    URN form reads a zero as a missing version, so 0 is excluded there). For the
    input of WFS the short form means longitude before latitude and the two formal
    ones mean the order of the authority, with the same number in all three. *)
Theorem crs_round_trip n :
  inInt64 n = true ->
  Parse (ToEPSG n) = inr n /\ Parse (ToHTTPURI n) = inr n /\ ParseCRS (CRSURIFromSRID n) = inr n
  /\ (n <> 0 -> Parse (ToURN n) = inr n)
  /\ (0 < n -> forall swap d,
        inputGeometryCRS swap (ToEPSG n) d = Some (n, false)
        /\ inputGeometryCRS swap (ToURN n) d = (b ← swap n; Some (n, b))
        /\ inputGeometryCRS swap (ToHTTPURI n) d = (b ← swap n; Some (n, b))).
Proof.
  intros Hn. split_and!; auto using Parse_ToEPSG, Parse_ToHTTPURI, ParseCRS_CRSURIFromSRID, Parse_ToURN.
  intros H0 swap d. auto using inputGeometryCRS_EPSG, inputGeometryCRS_URN, inputGeometryCRS_URI.
Qed.

Lemma crs_round_trip_witness :
  Parse "urn:ogc:def:crs:EPSG::3857" = inr 3857 /\ inputGeometryCRS (fun _ => Some true) "EPSG:4326" 0 = Some (4326, false).
Proof.
  split.
  - apply (crs_round_trip 3857); [reflexivity|discriminate].
  - apply (crs_round_trip 4326); [reflexivity|lia].
Defined.

(** ** Bounding boxes *)

Lemma finite_gtb a b :
  is_finite_float a = true -> is_finite_float b = true -> float_gtb a b = negb (float_leb a b).
Proof.
  unfold float_gtb, float_leb, SFltb, SFleb.
  destruct a as [sa|sa| |sa ma ea], b as [sb|sb| |sb mb eb]; try done; intros _ _; simpl;
    try (by destruct sa); try (by destruct sb).
  assert (Hm : Pos.compare_cont Eq ma mb = CompOpp (Pos.compare_cont Eq mb ma))
    by by rewrite Pos.compare_cont_antisym.
  destruct sa, sb; try done; rewrite (Z.compare_antisym eb ea); destruct (eb ?= ea); simpl; try done;
    rewrite Hm; by destruct (Pos.compare_cont Eq mb ma).
Qed.

Lemma finiteNumbers_spec parts l :
  finiteNumbers parts = inr l <->
  Forall2 (fun p f => ParseFloat (TrimSpace p) = Some f /\ is_finite_float f = true) parts l.
Proof.
  revert l. induction parts as [|p parts IH]; intros l; simpl.
  - split; [intros [= <-]; constructor|by inversion 1].
  - split.
    + destruct (ParseFloat _) as [f|] eqn:Ef; [|done]. destruct (is_finite_float f) eqn:Ff; [|done].
      destruct (finiteNumbers parts) as [|l'] eqn:El; [done|]. intros [= <-].
      constructor; [done|by apply IH].
    + inversion 1 as [|? f ? l' [Ef Ff] Hl]; subst. rewrite Ef, Ff. apply IH in Hl. by rewrite Hl.
Qed.

(** A bounding box is accepted exactly when it is four numbers of which none
    is infinite or a NaN and the south does not exceed the north; west and east are
    in any order. *)
Theorem bbox_accepted v b :
  ParseBBox v = inr b <->
  Forall2 (fun p f => ParseFloat (TrimSpace p) = Some f /\ is_finite_float f = true)
    (Split "," v) [MinX b; MinY b; MaxX b; MaxY b]
  /\ float_leb (MinY b) (MaxY b) = true.
Proof.
  unfold ParseBBox. rewrite <- finiteNumbers_spec. destruct (Nat.eqb_spec (length (Split "," v)) 4) as [Hl|Hl]; simpl.
  - destruct (finiteNumbers (Split "," v)) as [err|l] eqn:E; [intuition congruence|].
    destruct l as [|n0 [|n1 [|n2 [|n3 [|]]]]]; try intuition congruence.
    apply finiteNumbers_spec in E. do 4 (inversion E as [|? ? ? ? [_ ?] E']; subst; clear E; rename E' into E).
    rewrite finite_gtb by done. split.
    + destruct (float_leb n1 n3) eqn:G; [|done]. by intros [= <-].
    + destruct b. simpl. intros [[= -> -> -> ->] ->]. done.
  - split; [done|]. intros [E _]. apply finiteNumbers_spec, Forall2_length in E. done.
Qed.
