(* ===== verification/FilterLexer.v ===== *)
(** * The CQL2 lexer ([internal/filter/token.go], [internal/filter/lexer.go])

    A lexer is the input with a byte position. [next] returns one token and the
    advanced lexer; at the end of the input it returns [tokEOF] forever. *)

From S2P Require Import Prelude SqlUtil.

(** ** Tokens *)

Inductive tokenType : Type :=
| tokEOF | tokInvalid | tokIdent | tokString | tokNumber | tokBool | tokTemporal
| tokLParen | tokRParen | tokComma
| tokAnd | tokOr | tokNot
| tokEq | tokNeq | tokLt | tokGt | tokLte | tokGte
| tokPlus | tokMinus | tokMul | tokDiv
| tokLike | tokILike | tokBetween | tokIn | tokIs | tokNull
| tokSpatialOp | tokDWithin
| tokPoint | tokLineString | tokPolygon | tokMultiPoint | tokMultiLineString
| tokMultiPolygon | tokGeometryCollection | tokEnvelope.

#[export] Instance tokenType_eq_dec : EqDecision tokenType.
Proof. solve_decision. Defined.

Record token : Type := mkToken { typ : tokenType; raw : string; pos : nat }.

(** ** The lexer *)

(** [l.n] is [len(l.s)]. *)
Record lexer : Type := mkLexer { l_s : string; l_i : nat }.

Definition newLexer (s : string) : lexer := mkLexer s 0.

(** [l.s[l.i:]], the input that is left. *)
Definition l_rest (l : lexer) : string := sdrop (l_i l) (l_s l).

Definition advance (k : nat) (l : lexer) : lexer := mkLexer (l_s l) (l_i l + k).

Definition isAlpha (b : ascii) : bool :=
  ((65 <=? code b) && (code b <=? 90) || (97 <=? code b) && (code b <=? 122))%N.

Definition isDigit (b : ascii) : bool := ((48 <=? code b) && (code b <=? 57))%N.

(** [unicode.IsSpace(rune(b))] for a byte [b]: the white space of Latin-1. *)
Definition isSpaceByte (b : ascii) : bool :=
  ((9 <=? code b) && (code b <=? 13) || (code b =? 32) || (code b =? 133) || (code b =? 160))%N.

(** [string(b)] for a byte [b]: the UTF-8 encoding of the code point [b]. *)
Definition utf8_of_byte (b : ascii) : string :=
  if (code b <? 128)%N then String b ""
  else String (ascii_of_N (192 + code b / 64)) (String (ascii_of_N (128 + code b mod 64)) "").

Definition skipWS (l : lexer) : lexer := advance (span_len isSpaceByte (l_rest l)) l.

Definition digit_at (i : nat) (s : string) : bool :=
  match String.get i s with Some c => isDigit c | None => false end.

Definition byte_at (i : nat) (c : ascii) (s : string) : bool :=
  match String.get i s with Some d => Ascii.eqb c d | None => false end.

Definition looksLikeDateOrDateTime (s : string) : bool :=
  if (String.length s <? 10)%nat then false
  else if negb (byte_at 4 "-" s) || negb (byte_at 7 "-" s) then false
  else forallb (fun idx => digit_at idx s) [0; 1; 2; 3; 5; 6; 8; 9]%nat.

Definition temporal_byte (ch : ascii) : bool :=
  isDigit ch || isAlpha ch || Ascii.eqb ch "-" || Ascii.eqb ch "+" || Ascii.eqb ch ":" || Ascii.eqb ch ".".

Definition lexTemporalCandidate (l : lexer) : option (token * lexer) :=
  let k := span_len temporal_byte (l_rest l) in
  let r := stake k (l_rest l) in
  if looksLikeDateOrDateTime r then Some (mkToken tokTemporal r (l_i l), advance k l) else None.

(** Called with the lexer on a byte; a sign counts when a digit or a period follows. *)
Definition peekNumberStart (l : lexer) : bool :=
  match l_rest l with
  | String c (String n _) =>
      (Ascii.eqb c "-" || Ascii.eqb c "+") && (isDigit n || Ascii.eqb n ".")
  | _ => false
  end.

(** The body of a quoted literal, read after its opening quote [q]: the text
    with doubled quotes undone and the number of bytes read, the closing quote
    included; [None] when the literal is not closed. *)
Fixpoint scanQuoted (q : ascii) (s : string) : option (string * nat) :=
  match s with
  | EmptyString => None
  | String c s' =>
      if Ascii.eqb c q then
        match s' with
        | String d s'' =>
            if Ascii.eqb d q then
              match scanQuoted q s'' with
              | Some (body, k) => Some (String q body, S (S k))
              | None => None
              end
            else Some (EmptyString, 1%nat)
        | EmptyString => Some (EmptyString, 1%nat)
        end
      else
        match scanQuoted q s' with
        | Some (body, k) => Some (String c body, S k)
        | None => None
        end
  end.

Definition lexQuoted (q : ascii) (t : tokenType) (l : lexer) : token * lexer :=
  match scanQuoted q (sdrop 1 (l_rest l)) with
  | Some (body, k) => (mkToken t body (l_i l), advance (S k) l)
  | None => (mkToken tokInvalid (l_rest l) (l_i l), advance (String.length (l_rest l)) l)
  end.

Definition lexString (l : lexer) : token * lexer := lexQuoted squote tokString l.
Definition lexQuotedIdent (l : lexer) : token * lexer := lexQuoted dquote tokIdent l.

Definition word_byte (ch : ascii) : bool :=
  isAlpha ch || isDigit ch || Ascii.eqb ch "_" || Ascii.eqb ch ":" || Ascii.eqb ch "$".

Definition spatialOps : list string :=
  ["EQUALS"; "DISJOINT"; "TOUCHES"; "WITHIN"; "OVERLAPS"; "CROSSES"; "INTERSECTS"; "CONTAINS";
   "S_INTERSECTS"].

(** The switch of [lexWord] on the upper-cased word. *)
Definition keyword (up rw : string) : option (tokenType * string) :=
  if String.eqb up "AND" then Some (tokAnd, rw)
  else if String.eqb up "OR" then Some (tokOr, rw)
  else if String.eqb up "NOT" then Some (tokNot, rw)
  else if String.eqb up "LIKE" then Some (tokLike, rw)
  else if String.eqb up "ILIKE" then Some (tokILike, rw)
  else if String.eqb up "BETWEEN" then Some (tokBetween, rw)
  else if String.eqb up "IN" then Some (tokIn, rw)
  else if String.eqb up "IS" then Some (tokIs, rw)
  else if String.eqb up "NULL" then Some (tokNull, rw)
  else if String.eqb up "TRUE" || String.eqb up "FALSE" then Some (tokBool, ToLower up)
  else if String.eqb up "NOW" then Some (tokTemporal, "NOW")
  else if existsb (String.eqb up) spatialOps then Some (tokSpatialOp, ToLower up)
  else if String.eqb up "DWITHIN" then Some (tokDWithin, ToLower up)
  else if String.eqb up "POINT" then Some (tokPoint, "POINT")
  else if String.eqb up "LINESTRING" then Some (tokLineString, "LINESTRING")
  else if String.eqb up "POLYGON" then Some (tokPolygon, "POLYGON")
  else if String.eqb up "MULTIPOINT" then Some (tokMultiPoint, "MULTIPOINT")
  else if String.eqb up "MULTILINESTRING" then Some (tokMultiLineString, "MULTILINESTRING")
  else if String.eqb up "MULTIPOLYGON" then Some (tokMultiPolygon, "MULTIPOLYGON")
  else if String.eqb up "GEOMETRYCOLLECTION" then Some (tokGeometryCollection, "GEOMETRYCOLLECTION")
  else if String.eqb up "ENVELOPE" || String.eqb up "BBOX" then Some (tokEnvelope, "ENVELOPE")
  else None.

Definition lexWord (l : lexer) : token * lexer :=
  let k := S (span_len word_byte (sdrop 1 (l_rest l))) in
  let rw := stake k (l_rest l) in
  let l' := advance k l in
  match keyword (ToUpper rw) rw with
  | Some (t, r) => (mkToken t r (l_i l), l')
  | None =>
      if looksLikeDateOrDateTime rw then (mkToken tokTemporal rw (l_i l), l')
      else (mkToken tokIdent rw (l_i l), l')
  end.

Definition is_sign (s : string) : bool := head_is "+" s || head_is "-" s.
Definition number_byte (ch : ascii) : bool := isDigit ch || Ascii.eqb ch ".".

(** The length of the number at the start of [s]: a sign, digits and periods,
    an exponent. *)
Definition number_len (s : string) : nat :=
  let n1 := if is_sign s then 1%nat else 0%nat in
  let n2 := (n1 + span_len number_byte (sdrop n1 s))%nat in
  if head_is "e" (sdrop n2 s) || head_is "E" (sdrop n2 s) then
    let n3 := S n2 in
    let n4 := (n3 + if is_sign (sdrop n3 s) then 1 else 0)%nat in
    (n4 + span_len isDigit (sdrop n4 s))%nat
  else n2.

Definition lexNumber (l : lexer) : token * lexer :=
  let k := number_len (l_rest l) in
  (mkToken tokNumber (stake k (l_rest l)) (l_i l), advance k l).

Definition next (l0 : lexer) : token * lexer :=
  let l := skipWS l0 in
  let p := l_i l in
  match l_rest l with
  | EmptyString => (mkToken tokEOF "" p, l)
  | String ch tl =>
      if Ascii.eqb ch "(" then (mkToken tokLParen "(" p, advance 1 l)
      else if Ascii.eqb ch ")" then (mkToken tokRParen ")" p, advance 1 l)
      else if Ascii.eqb ch "," then (mkToken tokComma "," p, advance 1 l)
      else if Ascii.eqb ch "+" then (mkToken tokPlus "+" p, advance 1 l)
      else if Ascii.eqb ch "-" then
        if peekNumberStart l then lexNumber l else (mkToken tokMinus "-" p, advance 1 l)
      else if Ascii.eqb ch "*" then (mkToken tokMul "*" p, advance 1 l)
      else if Ascii.eqb ch "/" then (mkToken tokDiv "/" p, advance 1 l)
      else if Ascii.eqb ch "<" then
        if head_is "=" tl then (mkToken tokLte "<=" p, advance 2 l)
        else if head_is ">" tl then (mkToken tokNeq "<>" p, advance 2 l)
        else (mkToken tokLt "<" p, advance 1 l)
      else if Ascii.eqb ch ">" then
        if head_is "=" tl then (mkToken tokGte ">=" p, advance 2 l)
        else (mkToken tokGt ">" p, advance 1 l)
      else if Ascii.eqb ch "=" then (mkToken tokEq "=" p, advance 1 l)
      else if Ascii.eqb ch squote then lexString l
      else if Ascii.eqb ch dquote then lexQuotedIdent l
      else if isDigit ch || Ascii.eqb ch "." then
        match lexTemporalCandidate l with
        | Some r => r
        | None => lexNumber l
        end
      else if isAlpha ch then lexWord l
      else (mkToken tokInvalid (utf8_of_byte ch) p, advance 1 l)
  end.

(** ** What [next] guarantees about a token *)

Definition spatialNames : list string := map ToLower spatialOps.

(** The text of an operator, a Boolean or a spatial operator is one of the
    fixed spellings; only identifiers, literals and invalid input carry text
    of the request's own. *)
Definition token_wf (t : token) : Prop :=
  match typ t with
  | tokEOF => raw t = ""
  | tokEq => raw t = "="
  | tokNeq => raw t = "<>"
  | tokLt => raw t = "<"
  | tokGt => raw t = ">"
  | tokLte => raw t = "<="
  | tokGte => raw t = ">="
  | tokPlus => raw t = "+"
  | tokMinus => raw t = "-"
  | tokMul => raw t = "*"
  | tokDiv => raw t = "/"
  | tokBool => raw t = "true" \/ raw t = "false"
  | tokSpatialOp => raw t ∈ spatialNames
  | _ => True
  end.

(** One token was read from [l]: at least one byte, at most what is left. *)
Definition lexed (l : lexer) (r : token * lexer) : Prop :=
  exists k, r.2 = advance k l /\ (0 < k <= String.length (l_rest l))%nat
    /\ typ r.1 <> tokEOF /\ token_wf r.1 /\ pos r.1 = l_i l.

Section LexerLemmas.

Lemma l_rest_advance k l : l_rest (advance k l) = sdrop k (l_rest l).
Proof. apply sdrop_add. Qed.

Lemma advance_add j k l : advance k (advance j l) = advance (j + k) l.
Proof. unfold advance; simpl. f_equal. lia. Qed.

Lemma lexed_intro l t k :
  (0 < k <= String.length (l_rest l))%nat -> typ t <> tokEOF -> token_wf t -> pos t = l_i l ->
  lexed l (t, advance k l).
Proof. intros. exists k. repeat split; simpl; solve [done | lia]. Qed.

Lemma scanQuoted_bound q s body k :
  scanQuoted q s = Some (body, k) -> (0 < k <= String.length s)%nat.
Proof.
  remember (String.length s) as n eqn:Hn. revert s body k Hn.
  induction n as [n IH] using lt_wf_ind. intros [|c s'] body k Hn; simpl in *; [done|].
  destruct (Ascii.eqb c q).
  - destruct s' as [|d s'']; [intros; simplify_eq; lia|].
    destruct (Ascii.eqb d q); [|intros; simplify_eq; simpl in *; lia].
    simpl in Hn. destruct (scanQuoted q s'') as [[b j]|] eqn:Hs; [|done]. intros; simplify_eq.
    specialize (IH (String.length s'') ltac:(lia) s'' b j eq_refl Hs). lia.
  - destruct (scanQuoted q s') as [[b j]|] eqn:Hs; [|done]. intros; simplify_eq.
    specialize (IH (String.length s') ltac:(lia) s' b j eq_refl Hs). lia.
Qed.

Lemma lexQuoted_lexed q t l :
  l_rest l <> "" -> t = tokString \/ t = tokIdent -> lexed l (lexQuoted q t l).
Proof.
  intros Hne Ht. unfold lexQuoted.
  assert (0 < String.length (l_rest l))%nat by (destruct (l_rest l); simpl; [done|lia]).
  destruct (scanQuoted _ _) as [[body k]|] eqn:Hs.
  - apply scanQuoted_bound in Hs. rewrite length_sdrop in Hs.
    apply lexed_intro; destruct Ht; subst; solve [done | lia].
  - apply lexed_intro; solve [done | lia].
Qed.

Lemma number_len_le s : (number_len s <= String.length s)%nat.
Proof.
  unfold number_len.
  assert (Hsg : forall u, ((if is_sign u then 1 else 0) <= String.length u)%nat).
  { intros []; simpl; [done|]. destruct (is_sign _); lia. }
  set (n1 := if is_sign s then 1%nat else 0%nat).
  pose proof (Hsg s) as H1. fold n1 in H1.
  pose proof (span_len_le number_byte (sdrop n1 s)) as H2. rewrite length_sdrop in H2.
  set (n2 := (n1 + span_len number_byte (sdrop n1 s))%nat) in *.
  destruct (head_is "e" (sdrop n2 s) || head_is "E" (sdrop n2 s)) eqn:He; [|lia].
  assert (n2 < String.length s)%nat.
  { assert (0 < String.length (sdrop n2 s))%nat; [|rewrite length_sdrop in *; lia].
    destruct (sdrop n2 s); simpl in *; [done|lia]. }
  pose proof (Hsg (sdrop (S n2) s)) as H3. rewrite length_sdrop in H3.
  set (n4 := (S n2 + (if is_sign (sdrop (S n2) s) then 1 else 0))%nat) in *.
  pose proof (span_len_le isDigit (sdrop n4 s)) as H4. rewrite length_sdrop in H4. lia.
Qed.

Lemma number_len_pos s :
  number_byte (match s with String c _ => c | _ => "a" end) = true \/ is_sign s = true ->
  (0 < number_len s)%nat.
Proof.
  unfold number_len. intros H.
  set (n1 := if is_sign s then 1%nat else 0%nat).
  set (n2 := (n1 + span_len number_byte (sdrop n1 s))%nat).
  assert (0 < n2)%nat.
  { subst n2 n1. destruct (is_sign s) eqn:Hs; simpl; [lia|].
    destruct H as [H|]; [|done]. destruct s as [|c s]; [done|]. simpl. rewrite H. lia. }
  destruct (_ || _); lia.
Qed.

Lemma lexNumber_lexed l :
  (0 < number_len (l_rest l))%nat -> lexed l (lexNumber l).
Proof.
  intros H. pose proof (number_len_le (l_rest l)). by apply lexed_intro.
Qed.

Lemma spatialOps_lower up :
  existsb (String.eqb up) spatialOps = true -> ToLower up ∈ spatialNames.
Proof.
  intros (x & Hx & ->%String.eqb_eq)%existsb_exists. apply list_elem_of_In, in_map, Hx.
Qed.

Lemma keyword_wf up rw t r p :
  keyword up rw = Some (t, r) -> t <> tokEOF /\ token_wf (mkToken t r p).
Proof.
  unfold keyword.
  repeat match goal with
  | |- (if ?b then _ else _) = _ -> _ =>
      destruct b eqn:?; [intros [= <- <-]; split; [discriminate|try exact I]|]
  end; [| |done].
  - apply orb_true_iff in Heqb8 as [->%String.eqb_eq | ->%String.eqb_eq]; [by left|by right].
  - by apply spatialOps_lower.
Qed.

Lemma lexWord_lexed l : l_rest l <> "" -> lexed l (lexWord l).
Proof.
  intros Hne. unfold lexWord.
  pose proof (span_len_le word_byte (sdrop 1 (l_rest l))) as Hk. rewrite length_sdrop in Hk.
  assert (0 < String.length (l_rest l))%nat by (destruct (l_rest l); simpl; [done|lia]).
  destruct (keyword _ _) as [[t r]|] eqn:Hw.
  - eapply keyword_wf in Hw as [Ht Hw]. apply lexed_intro; [lia|done|apply Hw|done].
  - destruct (looksLikeDateOrDateTime _); apply lexed_intro; solve [done | lia].
Qed.

Lemma lexTemporal_lexed l r : lexTemporalCandidate l = Some r -> lexed l r.
Proof.
  unfold lexTemporalCandidate.
  pose proof (span_len_le temporal_byte (l_rest l)).
  destruct (looksLikeDateOrDateTime _) eqn:Hd; [|done]. intros; simplify_eq.
  apply lexed_intro; try done. split; [|lia].
  destruct (span_len temporal_byte (l_rest l)) as [|k]; [|lia]. simpl in Hd.
  by destruct (l_rest l).
Qed.

(** Either the input is exhausted, or [next] reads a token. *)
Lemma next_spec l0 :
  let l := skipWS l0 in
  match l_rest l with
  | EmptyString => next l0 = (mkToken tokEOF "" (l_i l), l)
  | _ => lexed l (next l0)
  end.
Proof.
  unfold next. set (l := skipWS l0). simpl.
  destruct (l_rest l) as [|ch tl] eqn:Hr; [done|].
  assert (Hne : l_rest l <> "") by (rewrite Hr; done).
  assert (H1 : (0 < 1 <= String.length (l_rest l))%nat) by (rewrite Hr; simpl; lia).
  assert (H2 : forall c, head_is c tl = true -> (0 < 2 <= String.length (l_rest l))%nat).
  { intros c Hc. rewrite Hr. destruct tl; simpl in *; [done|lia]. }
  repeat match goal with
  | |- lexed _ (if Ascii.eqb ch ?c then _ else _) => destruct (Ascii.eqb_spec ch c); [subst ch|]
  | |- lexed _ (if head_is ?c tl then _ else _) => destruct (head_is c tl) eqn:?
  end; try (by apply lexed_intro); try (apply lexed_intro; by eauto).
  - destruct (peekNumberStart l) eqn:Hp; [|by apply lexed_intro].
    apply lexNumber_lexed, number_len_pos. right. by rewrite Hr.
  - apply lexQuoted_lexed; auto.
  - apply lexQuoted_lexed; auto.
  - destruct (isDigit ch || Ascii.eqb ch ".") eqn:Hd.
    + destruct (lexTemporalCandidate l) eqn:Ht; [by apply lexTemporal_lexed|].
      apply lexNumber_lexed, number_len_pos. left. by rewrite Hr.
    + destruct (isAlpha ch); [by apply lexWord_lexed|by apply lexed_intro].
Qed.

End LexerLemmas.

(** ** Quoting and lexing are inverse *)

Section QuotedRoundTrip.

Lemma scanQuoted_ReplaceByte q s tl :
  head_is q tl = false ->
  scanQuoted q (ReplaceByte q (String q (String q "")) s +:+ String q tl)
  = Some (s, S (String.length (ReplaceByte q (String q (String q "")) s))).
Proof.
  intros Htl. induction s as [|c s IH].
  - rewrite sapp_nil_l. simpl. rewrite Ascii.eqb_refl.
    destruct tl as [|d tl']; [done|]. simpl in Htl. by rewrite Ascii.eqb_sym, Htl.
  - simpl. destruct (Ascii.eqb_spec q c) as [<-|Hne].
    + rewrite !sapp_cons, sapp_nil_l. simpl. rewrite !Ascii.eqb_refl, IH. done.
    + rewrite sapp_cons. simpl. destruct (Ascii.eqb_spec c q); [congruence|]. by rewrite IH.
Qed.

Lemma skipWS_id l : span_len isSpaceByte (l_rest l) = 0%nat -> skipWS l = l.
Proof. unfold skipWS, advance. intros ->. destruct l. simpl. f_equal. lia. Qed.

(** A quoted literal followed by anything but another quote is read back. *)
Lemma lexQuoted_quote q t s tl l :
  head_is q tl = false ->
  l_rest l = String q (ReplaceByte q (String q (String q "")) s +:+ String q tl) ->
  lexQuoted q t l
  = (mkToken t s (l_i l),
     advance (S (S (String.length (ReplaceByte q (String q (String q "")) s)))) l).
Proof.
  intros Htl Hr. unfold lexQuoted. rewrite Hr. simpl. by rewrite scanQuoted_ReplaceByte.
Qed.

Lemma length_QuoteIdent name :
  String.length (QuoteIdent name)
  = S (S (String.length (ReplaceByte dquote (String dquote (String dquote "")) name))).
Proof. unfold QuoteIdent. rewrite sapp_cons, sapp_nil_l. simpl. rewrite length_sapp. simpl. lia. Qed.

Lemma length_QuoteLiteral v :
  String.length (QuoteLiteral v)
  = S (S (String.length (ReplaceByte squote (String squote (String squote "")) v))).
Proof. unfold QuoteLiteral, EscapeLiteral. rewrite sapp_cons, sapp_nil_l. simpl. rewrite length_sapp. simpl. lia. Qed.

Lemma next_QuoteIdent l name tl :
  l_rest l = QuoteIdent name +:+ tl -> head_is dquote tl = false ->
  next l = (mkToken tokIdent name (l_i l), advance (String.length (QuoteIdent name)) l).
Proof.
  intros Hr Htl. rewrite length_QuoteIdent. unfold QuoteIdent in Hr.
  rewrite !sapp_cons, !sapp_nil_l, sapp_assoc, sapp_cons, sapp_nil_l in Hr.
  unfold next. rewrite skipWS_id by (by rewrite Hr). rewrite Hr. simpl.
  by apply (lexQuoted_quote _ _ _ tl).
Qed.

Lemma next_QuoteLiteral l v tl :
  l_rest l = QuoteLiteral v +:+ tl -> head_is squote tl = false ->
  next l = (mkToken tokString v (l_i l), advance (String.length (QuoteLiteral v)) l).
Proof.
  intros Hr Htl. rewrite length_QuoteLiteral. unfold QuoteLiteral, EscapeLiteral in Hr.
  rewrite !sapp_cons, !sapp_nil_l, sapp_assoc, sapp_cons, sapp_nil_l in Hr.
  unfold next. rewrite skipWS_id by (by rewrite Hr). rewrite Hr. simpl.
  by apply (lexQuoted_quote _ _ _ tl).
Qed.

Lemma next_end l : l_rest l = "" -> next l = (mkToken tokEOF "" (l_i l), l).
Proof. intros Hr. unfold next. rewrite skipWS_id by (by rewrite Hr). by rewrite Hr. Qed.

End QuotedRoundTrip.
