(* ===== verification/FilterParser.v ===== *)
(** * The CQL2 compiler ([internal/filter/compiler.go], [internal/filter/duckdb.go])

    A recursive-descent parser that emits a SQL expression while it parses.
    Literals of the filter become bound arguments: the SQL only has [$k]
    placeholders for them. The repository has the parser twice, for PostGIS and
    for DuckDB, with the same control flow; they differ in the options and in
    eight places where SQL text is put together. Those places are the fields of
    [Dialect]. The recursion is bounded by a fuel; [FilterCorrect] proves that
    the fuel given by the entry points is always enough. *)

From S2P Require Import Prelude SqlUtil GoNum FilterLexer.

(** A bound argument: [any] holding a [string] or a [float64]. *)
Inductive arg : Type := ArgString (s : string) | ArgFloat (f : float64).

(** The errors, one constructor per [fmt.Errorf] of the parser. *)
Inductive perr : Type :=
| ErrUnexpectedToken (r : string) (at_ : nat)
| ErrExpected (t : tokenType) (at_ : nat) (r : string)
| ErrNumericDistance (at_ : nat)
| ErrInvalidDistance (r : string)
| ErrLikeString (at_ : nat)
| ErrExpectedNull (at_ : nat)
| ErrInvalidNumber (r : string)
| ErrInLiteral (at_ : nat)
| ErrBetweenAnd (at_ : nat)
| ErrExpectedComparison (at_ : nat)
| ErrScalarToken (r : string) (at_ : nat)
| ErrGeometryProperty (name allowed : string)
| ErrEnvelopeNumber (at_ : nat)
| ErrGeometryParen (kw : string) (at_ : nat)
| ErrUnterminatedGeometry
| ErrExpectedGeometry (at_ : nat)
| ErrUnknownProperty (name : string)
| ErrBBoxCoordinates
| ErrBBoxMinX
| ErrBBoxMaxX.

(** What the two parsers do differently, and the two option fields they share. *)
Class Dialect : Type := {
  d_allowed : gset string;
  d_geomProperty : string;
  d_spatial : string -> string -> string -> string;
  d_dwithin : string -> string -> string -> string;
  d_inSep : string;
  d_zoned : string -> bool;
  d_timestamp : bool -> string -> string;
  d_geomColumn : string -> string;
  d_geomArg : string -> string;
  d_geomExpr : string -> string
}.

Record parser : Type := mkParser {
  p_l : lexer;
  p_cur : token;
  p_peek : token;
  p_args : list arg;
  p_next : Z
}.

Abbreviation P := (M parser perr).

Definition envelopeWKT (coords : list string) : outcome perr string :=
  match coords with
  | [c0; c1; c2; c3] =>
      match ParseFloat c0 with
      | None => Err ErrBBoxMinX
      | Some minX =>
          match ParseFloat c2 with
          | None => Err ErrBBoxMaxX
          | Some maxX =>
              if float_leb minX maxX then
                Ok ("POLYGON((" +:+ c0 +:+ " " +:+ c1 +:+ "," +:+ c2 +:+ " " +:+ c1 +:+ ","
                    +:+ c2 +:+ " " +:+ c3 +:+ "," +:+ c0 +:+ " " +:+ c3 +:+ ","
                    +:+ c0 +:+ " " +:+ c1 +:+ "))")
              else
                Ok ("MULTIPOLYGON(((" +:+ c0 +:+ " " +:+ c1 +:+ ",180 " +:+ c1 +:+ ",180 " +:+ c3
                    +:+ "," +:+ c0 +:+ " " +:+ c3 +:+ "," +:+ c0 +:+ " " +:+ c1
                    +:+ ")),((-180 " +:+ c1 +:+ "," +:+ c2 +:+ " " +:+ c1 +:+ ","
                    +:+ c2 +:+ " " +:+ c3 +:+ ",-180 " +:+ c3 +:+ ",-180 " +:+ c1 +:+ ")))")
          end
      end
  | _ => Err ErrBBoxCoordinates
  end.

Definition lift {A} (o : outcome perr A) : P A := fun p =>
  match o with Ok a => Ok (a, p) | Err e => Err e | NoFuel => NoFuel end.

Definition bump : P unit := fun p =>
  let '(t, l) := next (p_l p) in
  Ok (tt, mkParser l (p_peek p) t (p_args p) (p_next p)).

Definition expect (t : tokenType) : P token :=
  tok ← mget p_cur;
  if decide (typ tok = t) then bump;; mret tok
  else mfail (ErrExpected t (pos tok) (raw tok)).

Definition addArg (v : arg) : P string := fun p =>
  Ok ("$" +:+ pretty (p_next p),
      mkParser (p_l p) (p_cur p) (p_peek p) (p_args p ++ [v]) (p_next p + 1)).

Definition scalarPrec (t : tokenType) : option Z :=
  match t with
  | tokMul | tokDiv => Some 20
  | tokPlus | tokMinus => Some 10
  | _ => None
  end.

(** ** The parser *)

Section Parser.
Context (D : Dialect).

Definition assertAllowedProperty (name : string) : P unit :=
  if decide (name ∈ d_allowed) then mret tt else mfail (ErrUnknownProperty name).

Fixpoint parseScalarExpr (fuel : nat) (minPrec : Z) : P string :=
  match fuel with
  | O => mnofuel
  | S f => left ← parseScalarPrimary f; scalarLoop f minPrec left
  end
with scalarLoop (fuel : nat) (minPrec : Z) (left : string) : P string :=
  match fuel with
  | O => mnofuel
  | S f =>
      tok ← mget p_cur;
      match scalarPrec (typ tok) with
      | None => mret left
      | Some prec =>
          if prec <? minPrec then mret left
          else
            bump;;
            right ← parseScalarExpr f (prec + 1);
            scalarLoop f minPrec ("(" +:+ left +:+ " " +:+ raw tok +:+ " " +:+ right +:+ ")")
      end
  end
with parseScalarPrimary (fuel : nat) : P string :=
  match fuel with
  | O => mnofuel
  | S f =>
      tok ← mget p_cur;
      match typ tok with
      | tokLParen =>
          bump;;
          inner ← parseScalarExpr f 0;
          expect tokRParen;;
          mret ("(" +:+ inner +:+ ")")
      | tokIdent =>
          assertAllowedProperty (raw tok);;
          bump;;
          mret (QuoteIdent (raw tok))
      | tokString =>
          ph ← addArg (ArgString (raw tok));
          bump;;
          mret ph
      | tokNumber =>
          match ParseFloat (raw tok) with
          | None => mfail (ErrInvalidNumber (raw tok))
          | Some n =>
              ph ← addArg (ArgFloat n);
              bump;;
              mret ph
          end
      | tokBool =>
          bump;;
          mret (ToLower (raw tok))
      | tokTemporal =>
          pk ← mget p_peek;
          if EqualFold (raw tok) "NOW" && bool_decide (typ pk = tokLParen) then
            bump;;
            bump;;
            expect tokRParen;;
            mret "NOW()"
          else
            ph ← addArg (ArgString (raw tok));
            bump;;
            mret (d_timestamp (d_zoned (raw tok)) ph)
      | _ => mfail (ErrScalarToken (raw tok) (pos tok))
      end
  end.

(** The tail of a comparison whose left side is parsed: [(NOT)? BETWEEN] or a
    binary comparison. The code has this text in both branches of
    [parseComparison]. *)
Definition parseBetween (f : nat) (left not_ : string) : P string :=
  a ← parseScalarExpr f 0;
  tok ← mget p_cur;
  if decide (typ tok = tokAnd) then
    bump;;
    b ← parseScalarExpr f 0;
    mret (left +:+ not_ +:+ " BETWEEN " +:+ a +:+ " AND " +:+ b)
  else mfail (ErrBetweenAnd (pos tok)).

Definition parseComparisonTail (f : nat) (left : string) : P string :=
  tok ← mget p_cur;
  pk ← mget p_peek;
  if bool_decide (typ tok = tokNot) && bool_decide (typ pk = tokBetween) then
    bump;;
    bump;;
    parseBetween f left " NOT"
  else
    match typ tok with
    | tokBetween =>
        bump;;
        parseBetween f left ""
    | tokEq | tokNeq | tokLt | tokGt | tokLte | tokGte =>
        bump;;
        right ← parseScalarExpr f 0;
        mret (left +:+ " " +:+ raw tok +:+ " " +:+ right)
    | _ => mfail (ErrExpectedComparison (pos tok))
    end.

(** The literals of an [IN] list, up to the token that is not a comma. *)
Fixpoint inLoop (fuel : nat) (phs : list string) : P (list string) :=
  match fuel with
  | O => mnofuel
  | S f =>
      tok ← mget p_cur;
      phs' ← match typ tok with
             | tokString =>
                 ph ← addArg (ArgString (raw tok));
                 bump;;
                 mret (phs ++ [ph])
             | tokNumber =>
                 match ParseFloat (raw tok) with
                 | None => mfail (ErrInvalidNumber (raw tok))
                 | Some n =>
                     ph ← addArg (ArgFloat n);
                     bump;;
                     mret (phs ++ [ph])
                 end
             | _ => mfail (ErrInLiteral (pos tok))
             end;
      sep ← mget p_cur;
      if decide (typ sep = tokComma) then bump;; inLoop f phs' else mret phs'
  end.

Definition isLikeOrIn (t : tokenType) : bool :=
  match t with tokLike | tokILike | tokIn => true | _ => false end.

(** [propertyName (NOT)? (LIKE|ILIKE) string], from the operator on. *)
Definition parseLike (prop : string) (neg ci : bool) : P string :=
  bump;;
  lit ← mget p_cur;
  match typ lit with
  | tokString =>
      ph ← addArg (ArgString (raw lit));
      bump;;
      let op := if ci then "ILIKE" else "LIKE" in
      mret (if neg then QuoteIdent prop +:+ " NOT " +:+ op +:+ " " +:+ ph
            else QuoteIdent prop +:+ " " +:+ op +:+ " " +:+ ph)
  | _ => mfail (ErrLikeString (pos lit))
  end.

(** [propertyName IS (NOT)? NULL], from [IS] on. *)
Definition parseIsNull (prop : string) : P string :=
  bump;;
  n ← mget p_cur;
  let isNot := bool_decide (typ n = tokNot) in
  (if isNot then bump else mret tt);;
  nl ← mget p_cur;
  match typ nl with
  | tokNull =>
      bump;;
      mret (if isNot then QuoteIdent prop +:+ " IS NOT NULL" else QuoteIdent prop +:+ " IS NULL")
  | _ => mfail (ErrExpectedNull (pos nl))
  end.

(** [propertyName (NOT)? IN (...)], from [IN] on. *)
Definition parseIn (f : nat) (prop : string) (neg : bool) : P string :=
  bump;;
  expect tokLParen;;
  phs ← inLoop f [];
  expect tokRParen;;
  mret (if neg then QuoteIdent prop +:+ " NOT IN (" +:+ Join d_inSep phs +:+ ")"
        else QuoteIdent prop +:+ " IN (" +:+ Join d_inSep phs +:+ ")").

(** What may follow a property name at the head of a comparison. *)
Definition parsePropertyPredicate (f : nat) (prop : string) (neg : bool) : P string :=
  opTok ← mget p_cur;
  match typ opTok with
  | tokLike => parseLike prop neg false
  | tokILike => parseLike prop neg true
  | tokIs => parseIsNull prop
  | tokIn => parseIn f prop neg
  | _ => parseComparisonTail f (QuoteIdent prop)
  end.

Definition parseComparison (f : nat) : P string :=
  tok ← mget p_cur;
  match typ tok with
  | tokIdent =>
      assertAllowedProperty (raw tok);;
      bump;;
      c0 ← mget p_cur;
      pk ← mget p_peek;
      let neg := bool_decide (typ c0 = tokNot) && isLikeOrIn (typ pk) in
      (if neg then bump else mret tt);;
      parsePropertyPredicate f (raw tok) neg
  | _ =>
      left ← parseScalarExpr f 0;
      parseComparisonTail f left
  end.

(** The [ENVELOPE] coordinates; [k] of them are left to read. *)
Fixpoint envelopeCoords (k : nat) (coords : list string) : P (list string) :=
  match k with
  | O => mret coords
  | S k' =>
      tok ← mget p_cur;
      match typ tok with
      | tokNumber =>
          bump;;
          (if decide (k' = 0%nat) then mret tt else (expect tokComma;; mret tt));;
          envelopeCoords k' (coords ++ [raw tok])
      | _ => mfail (ErrEnvelopeNumber (pos tok))
      end
  end.

(** Copies the tokens of a geometry literal, from its opening parenthesis to
    the matching closing one. *)
Fixpoint wktLoop (fuel : nat) (depth : Z) (prevNum : bool) (sb : string) : P string :=
  match fuel with
  | O => mnofuel
  | S f =>
      tok ← mget p_cur;
      let depth' := match typ tok with
                    | tokLParen => depth + 1
                    | tokRParen => depth - 1
                    | _ => depth
                    end in
      let isNum := bool_decide (typ tok = tokNumber) in
      let sb' := sb +:+ (if prevNum && isNum then " " else "") +:+ raw tok in
      bump;;
      if depth' =? 0 then mret sb'
      else
        c ← mget p_cur;
        if decide (typ c = tokEOF) then mfail ErrUnterminatedGeometry
        else wktLoop f depth' isNum sb'
  end.

Definition parseGeomLiteralWKT (f : nat) : P string :=
  tok ← mget p_cur;
  match typ tok with
  | tokEnvelope =>
      bump;;
      expect tokLParen;;
      coords ← envelopeCoords 4 [];
      expect tokRParen;;
      lift (envelopeWKT coords)
  | tokPoint | tokLineString | tokPolygon | tokMultiPoint | tokMultiLineString
  | tokMultiPolygon | tokGeometryCollection =>
      bump;;
      c ← mget p_cur;
      match typ c with
      | tokLParen => wktLoop f 0 false (ToUpper (raw tok))
      | _ => mfail (ErrGeometryParen (raw tok) (pos c))
      end
  | _ => mfail (ErrExpectedGeometry (pos tok))
  end.

Definition parseGeomExpr (f : nat) : P string :=
  tok ← mget p_cur;
  match typ tok with
  | tokIdent =>
      if String.eqb (raw tok) d_geomProperty then
        bump;;
        mret (d_geomColumn (raw tok))
      else mfail (ErrGeometryProperty (raw tok) d_geomProperty)
  | _ =>
      wkt ← parseGeomLiteralWKT f;
      ph ← addArg (ArgString (d_geomArg wkt));
      mret (d_geomExpr ph)
  end.

Definition parsePredicate (f : nat) : P string :=
  tok ← mget p_cur;
  match typ tok with
  | tokSpatialOp =>
      bump;;
      expect tokLParen;;
      g1 ← parseGeomExpr f;
      expect tokComma;;
      g2 ← parseGeomExpr f;
      expect tokRParen;;
      mret (d_spatial (ToLower (raw tok)) g1 g2)
  | tokDWithin =>
      bump;;
      expect tokLParen;;
      g1 ← parseGeomExpr f;
      expect tokComma;;
      g2 ← parseGeomExpr f;
      expect tokComma;;
      d ← mget p_cur;
      match typ d with
      | tokNumber =>
          match ParseFloat (raw d) with
          | None => mfail (ErrInvalidDistance (raw d))
          | Some dist =>
              ph ← addArg (ArgFloat dist);
              bump;;
              expect tokRParen;;
              mret (d_dwithin g1 g2 ph)
          end
      | _ => mfail (ErrNumericDistance (pos d))
      end
  | _ => parseComparison f
  end.

Fixpoint parseOr (fuel : nat) : P string :=
  match fuel with
  | O => mnofuel
  | S f => left ← parseAnd f; orLoop f left
  end
with orLoop (fuel : nat) (left : string) : P string :=
  match fuel with
  | O => mnofuel
  | S f =>
      tok ← mget p_cur;
      match typ tok with
      | tokOr =>
          bump;;
          right ← parseAnd f;
          orLoop f ("(" +:+ left +:+ " OR " +:+ right +:+ ")")
      | _ => mret left
      end
  end
with parseAnd (fuel : nat) : P string :=
  match fuel with
  | O => mnofuel
  | S f => left ← parseNot f; andLoop f left
  end
with andLoop (fuel : nat) (left : string) : P string :=
  match fuel with
  | O => mnofuel
  | S f =>
      tok ← mget p_cur;
      match typ tok with
      | tokAnd =>
          bump;;
          right ← parseNot f;
          andLoop f ("(" +:+ left +:+ " AND " +:+ right +:+ ")")
      | _ => mret left
      end
  end
with parseNot (fuel : nat) : P string :=
  match fuel with
  | O => mnofuel
  | S f =>
      tok ← mget p_cur;
      match typ tok with
      | tokNot =>
          bump;;
          expr ← parseNot f;
          mret ("(NOT " +:+ expr +:+ ")")
      | _ => parsePrimary f
      end
  end
with parsePrimary (fuel : nat) : P string :=
  match fuel with
  | O => mnofuel
  | S f =>
      tok ← mget p_cur;
      match typ tok with
      | tokLParen =>
          bump;;
          inner ← parseOr f;
          expect tokRParen;;
          mret ("(" +:+ inner +:+ ")")
      | _ => parsePredicate f
      end
  end.

Definition parse (fuel : nat) : P string :=
  l ← mget p_l;
  if isBlank (l_s l) then mret ""
  else
    sql ← parseOr fuel;
    tok ← mget p_cur;
    if decide (typ tok = tokEOF) then mret sql
    else mfail (ErrUnexpectedToken (raw tok) (pos tok)).

End Parser.

(** [newParser] after the defaults of the options: the lexer is primed with
    two tokens. *)
Definition startParser (input : string) (start : Z) : parser :=
  let '(c, l1) := next (newLexer input) in
  let '(k, l2) := next l1 in
  mkParser l2 c k [] start.

(** Enough for every input ([FilterCorrect]). *)
Definition parseFuel (input : string) : nat := (8 * String.length input + 8)%nat.

(** The body of [Compile] and of [CompileForDuckDB]: the SQL, the arguments and
    the next parameter index. With an error the code returns ["" , nil] and the
    start index of the options. *)
Definition runParser (D : Dialect) (cql : string) (start : Z)
    : outcome perr (string * list arg * Z) :=
  match parse D (parseFuel cql) (startParser cql start) with
  | Ok (out, p) => Ok (out, p_args p, p_next p)
  | Err e => Err e
  | NoFuel => NoFuel
  end.
