(* ===== verification/FilterPostGIS.v ===== *)
(** * The PostGIS dialect of the CQL2 compiler ([internal/filter/compiler.go]) *)

From S2P Require Import Prelude SqlUtil GoNum FilterLexer FilterParser.

Record Options : Type := mkOptions {
  StartParamIndex : Z;
  FilterSRID : Z;
  SourceSRID : Z;
  AllowedProperties : gset string;
  GeometryProperty : string
}.

(** The defaults [newParser] puts into its copy of the options. *)
Definition newParserOptions (opt : Options) : Options :=
  mkOptions
    (if StartParamIndex opt <=? 0 then 1 else StartParamIndex opt)
    (if FilterSRID opt =? 0 then 4326 else FilterSRID opt)
    (SourceSRID opt)
    (AllowedProperties opt)
    (if String.eqb (GeometryProperty opt) "" then "geom" else GeometryProperty opt).

Definition pgFunctionForCql : list (string * string) :=
  [("crosses", "ST_Crosses"); ("contains", "ST_Contains"); ("disjoint", "ST_Disjoint");
   ("equals", "ST_Equals"); ("intersects", "ST_Intersects"); ("s_intersects", "ST_Intersects");
   ("overlaps", "ST_Overlaps"); ("touches", "ST_Touches"); ("within", "ST_Within");
   ("dwithin", "ST_DWithin")].

Definition toPostGISFunction (cqlFunName : string) : string :=
  match assoc (ToLower cqlFunName) pgFunctionForCql with
  | Some fn => fn
  | None => "UNKNOWN_" +:+ cqlFunName
  end.

(** Whether a temporal literal is compared as [timestamptz]. *)
Definition pgZoned (val : string) : bool :=
  (has_byte "Z" val || has_byte "+" val)
  || (has_byte "T" val && has_byte ":" val
      && (has_byte "Z" val || has_byte "+" val || has_byte "-" val)).

(** The fragments of SQL the PostGIS parser emits, for normalized options. *)
Definition postgis (opt : Options) : Dialect := {|
  d_allowed := AllowedProperties opt;
  d_geomProperty := GeometryProperty opt;
  d_spatial op g1 g2 := toPostGISFunction op +:+ "(" +:+ g1 +:+ "," +:+ g2 +:+ ")";
  d_dwithin g1 g2 ph := "ST_DWithin(" +:+ g1 +:+ "," +:+ g2 +:+ "," +:+ ph +:+ ")";
  d_inSep := ",";
  d_zoned := pgZoned;
  d_timestamp tz ph := if tz then ph +:+ "::timestamptz" else ph +:+ "::timestamp";
  d_geomColumn name := QuoteIdent name;
  d_geomArg wkt := "SRID=" +:+ pretty (FilterSRID opt) +:+ ";" +:+ wkt;
  d_geomExpr ph :=
    let sql := ph +:+ "::geometry" in
    if negb (SourceSRID opt =? 0) && negb (SourceSRID opt =? FilterSRID opt)
    then "ST_Transform(" +:+ sql +:+ "," +:+ pretty (SourceSRID opt) +:+ ")"
    else sql
|}.

Definition Compile (cql : string) (opt : Options) : outcome perr (string * list arg * Z) :=
  let o := newParserOptions opt in
  runParser (postgis o) cql (StartParamIndex o).

(** ** Filters the compiler accepts *)

Definition demoOptions : Options := mkOptions 1 0 3857 {["name"; "pop"; "a"; "b"]} "geom".

Example Compile_precedence :
  Compile "a = 1 OR b > 2 + 3 * 4 AND NOT name LIKE 'x''%'" demoOptions
  = Ok ("(" +:+ QuoteIdent "a" +:+ " = $1 OR (" +:+ QuoteIdent "b"
        +:+ " > ($2 + ($3 * $4)) AND (NOT " +:+ QuoteIdent "name" +:+ " LIKE $5)))",
        [ArgFloat (S754_finite false 4503599627370496 (-52));
         ArgFloat (S754_finite false 4503599627370496 (-51));
         ArgFloat (S754_finite false 6755399441055744 (-51));
         ArgFloat (S754_finite false 4503599627370496 (-50)); ArgString "x'%"], 6).
Proof. vm_compute. reflexivity. Qed.

Example Compile_geometry :
  Compile "S_INTERSECTS(geom, BBOX(170,-10,-170,10))" demoOptions
  = Ok ("ST_Intersects(" +:+ QuoteIdent "geom" +:+ ",ST_Transform($1::geometry,3857))",
        [ArgString "SRID=4326;MULTIPOLYGON(((170 -10,180 -10,180 10,170 10,170 -10)),((-180 -10,-170 -10,-170 10,-180 10,-180 -10)))"], 2).
Proof. vm_compute. reflexivity. Qed.
