(* ===== verification/FilterDuckDB.v ===== *)
(** * The DuckDB dialect of the CQL2 compiler ([internal/filter/duckdb.go])

    [duckdb.go] repeats the parser of [compiler.go] for [DuckDBOptions]. Each
    method is the common one of [FilterParser] at the DuckDB dialect. *)

From S2P Require Import Prelude SqlUtil GoNum FilterLexer FilterParser.

Record DuckDBOptions : Type := mkDuckDBOptions {
  dk_StartParamIndex : Z;
  dk_FilterSRID : Z;
  dk_SourceSRID : Z;
  dk_AllowedProperties : gset string;
  dk_GeometryProperty : string;
  dk_GeometryExpression : string
}.

(** The defaults [newDuckDBParser] puts into its copy of the options. *)
Definition newDuckDBParserOptions (opt : DuckDBOptions) : DuckDBOptions :=
  mkDuckDBOptions
    (if dk_StartParamIndex opt <=? 0 then 1 else dk_StartParamIndex opt)
    (if dk_FilterSRID opt =? 0 then 4326 else dk_FilterSRID opt)
    (dk_SourceSRID opt)
    (dk_AllowedProperties opt)
    (if String.eqb (dk_GeometryProperty opt) "" then "geom" else dk_GeometryProperty opt)
    (dk_GeometryExpression opt).

Definition duckdbFunctionForCql : list (string * string) :=
  [("crosses", "ST_Crosses"); ("contains", "ST_Contains"); ("disjoint", "ST_Disjoint");
   ("equals", "ST_Equals"); ("intersects", "ST_Intersects"); ("s_intersects", "ST_Intersects");
   ("overlaps", "ST_Overlaps"); ("touches", "ST_Touches"); ("within", "ST_Within");
   ("dwithin", "ST_DWithin")].

Definition toDuckDBFunction (cqlFunName : string) : string :=
  match assoc (ToLower cqlFunName) duckdbFunctionForCql with
  | Some fn => fn
  | None => "UNKNOWN_" +:+ cqlFunName
  end.

Definition duckdbZoned (val : string) : bool :=
  (has_byte "Z" val || has_byte "+" val) || (has_byte "T" val && has_byte ":" val).

Definition duckdbGeomColumn (opt : DuckDBOptions) (name : string) : string :=
  if String.eqb (dk_GeometryExpression opt) "" then QuoteIdent name else dk_GeometryExpression opt.

Definition duckdbGeomExpr (opt : DuckDBOptions) (ph : string) : string :=
  let sql := "ST_GeomFromText(CAST(" +:+ ph +:+ " AS VARCHAR))" in
  if negb (dk_SourceSRID opt =? 0) && negb (dk_SourceSRID opt =? dk_FilterSRID opt)
  then "ST_Transform(" +:+ sql +:+ ", 'EPSG:" +:+ pretty (dk_FilterSRID opt) +:+ "', 'EPSG:"
       +:+ pretty (dk_SourceSRID opt) +:+ "', always_xy := true)"
  else sql.

(** The fragments of SQL the DuckDB parser emits, for normalized options. *)
Definition duckdb (opt : DuckDBOptions) : Dialect := {|
  d_allowed := dk_AllowedProperties opt;
  d_geomProperty := dk_GeometryProperty opt;
  d_spatial op g1 g2 := toDuckDBFunction op +:+ "(" +:+ g1 +:+ ", " +:+ g2 +:+ ")";
  d_dwithin g1 g2 ph := "ST_DWithin(" +:+ g1 +:+ ", " +:+ g2 +:+ ", " +:+ ph +:+ ")";
  d_inSep := ", ";
  d_zoned := duckdbZoned;
  d_timestamp tz ph :=
    if tz then "CAST(" +:+ ph +:+ " AS TIMESTAMPTZ)" else "CAST(" +:+ ph +:+ " AS TIMESTAMP)";
  d_geomColumn := duckdbGeomColumn opt;
  d_geomArg wkt := wkt;
  d_geomExpr := duckdbGeomExpr opt
|}.

(** ** The methods of [duckdbParser] *)

Section DuckDBParser.
Context (opt : DuckDBOptions).

Definition duckdb_assertAllowedProperty : string -> P unit := assertAllowedProperty (duckdb opt).
Definition duckdb_parseScalarExpr : nat -> Z -> P string := parseScalarExpr (duckdb opt).
Definition duckdb_parseScalarPrimary : nat -> P string := parseScalarPrimary (duckdb opt).
Definition duckdb_parseGeomLiteralWKT : nat -> P string := parseGeomLiteralWKT.
Definition duckdb_parseGeomExpr : nat -> P string := parseGeomExpr (duckdb opt).
Definition duckdb_parseComparisonTail : nat -> string -> P string := parseComparisonTail (duckdb opt).
Definition duckdb_parseComparison : nat -> P string := parseComparison (duckdb opt).
Definition duckdb_parsePredicate : nat -> P string := parsePredicate (duckdb opt).
Definition duckdb_parsePrimary : nat -> P string := parsePrimary (duckdb opt).
Definition duckdb_parseNot : nat -> P string := parseNot (duckdb opt).
Definition duckdb_parseAnd : nat -> P string := parseAnd (duckdb opt).
Definition duckdb_parseOr : nat -> P string := parseOr (duckdb opt).
Definition duckdb_parse : nat -> P string := parse (duckdb opt).

End DuckDBParser.

Definition CompileForDuckDB (cql : string) (opt : DuckDBOptions)
    : outcome perr (string * list arg * Z) :=
  let o := newDuckDBParserOptions opt in
  runParser (duckdb o) cql (dk_StartParamIndex o).

Definition demoDuckDBOptions : DuckDBOptions :=
  mkDuckDBOptions 3 0 3857 {["name"; "pop"; "at"]} "geom" "".

Example CompileForDuckDB_in_and_time :
  CompileForDuckDB "name NOT IN ('x', 'y') AND at < 2020-01-01T00:00" demoDuckDBOptions
  = Ok ("(" +:+ QuoteIdent "name" +:+ " NOT IN ($3, $4) AND " +:+ QuoteIdent "at"
        +:+ " < CAST($5 AS TIMESTAMPTZ))",
        [ArgString "x"; ArgString "y"; ArgString "2020-01-01T00:00"], 6).
Proof. vm_compute. reflexivity. Qed.
