(* ===== verification/FilterSpec.v ===== *)
(** * What a compiled filter is: the abstract syntax of the emitted SQL

    The specification of the compiler's output. A filter compiles to the text of
    a [pred]: a tree whose leaves are quoted allow-listed property names, the
    geometry column, the constants [true], [false] and [NOW()], and numbered
    placeholders. There is no leaf for text of the request. *)

From S2P Require Import Prelude SqlUtil FilterLexer FilterParser.

Inductive scalar : Type :=
| ScProp (name : string)
| ScArg (k : Z)
| ScBool (b : bool)
| ScNow
| ScCast (tz : bool) (k : Z)
| ScParen (e : scalar)
| ScBin (op : string) (l r : scalar).

Inductive geometry : Type :=
| GColumn
| GLiteral (k : Z).

Inductive pred : Type :=
| POr (l r : pred)
| PAnd (l r : pred)
| PNot (e : pred)
| PParen (e : pred)
| PSpatial (op : string) (g1 g2 : geometry)
| PDWithin (g1 g2 : geometry) (k : Z)
| PLike (neg ci : bool) (name : string) (k : Z)
| PIsNull (neg : bool) (name : string)
| PIn (neg : bool) (name : string) (ks : list Z)
| PBetween (neg : bool) (e lo hi : scalar)
| PCompare (op : string) (l r : scalar).

Definition placeholder (k : Z) : string := "$" +:+ pretty k.

(** ** Text *)

Section Render.
Context (D : Dialect).

Fixpoint scalar_sql (e : scalar) : string :=
  match e with
  | ScProp name => QuoteIdent name
  | ScArg k => placeholder k
  | ScBool b => if b then "true" else "false"
  | ScNow => "NOW()"
  | ScCast tz k => d_timestamp tz (placeholder k)
  | ScParen e => "(" +:+ scalar_sql e +:+ ")"
  | ScBin op l r => "(" +:+ scalar_sql l +:+ " " +:+ op +:+ " " +:+ scalar_sql r +:+ ")"
  end.

Definition geometry_sql (g : geometry) : string :=
  match g with
  | GColumn => d_geomColumn d_geomProperty
  | GLiteral k => d_geomExpr (placeholder k)
  end.

Fixpoint pred_sql (e : pred) : string :=
  match e with
  | POr l r => "(" +:+ pred_sql l +:+ " OR " +:+ pred_sql r +:+ ")"
  | PAnd l r => "(" +:+ pred_sql l +:+ " AND " +:+ pred_sql r +:+ ")"
  | PNot e => "(NOT " +:+ pred_sql e +:+ ")"
  | PParen e => "(" +:+ pred_sql e +:+ ")"
  | PSpatial op g1 g2 => d_spatial op (geometry_sql g1) (geometry_sql g2)
  | PDWithin g1 g2 k => d_dwithin (geometry_sql g1) (geometry_sql g2) (placeholder k)
  | PLike neg ci name k =>
      QuoteIdent name +:+ (if neg then " NOT " else " ") +:+ (if ci then "ILIKE" else "LIKE")
      +:+ " " +:+ placeholder k
  | PIsNull neg name => QuoteIdent name +:+ (if neg then " IS NOT NULL" else " IS NULL")
  | PIn neg name ks =>
      QuoteIdent name +:+ (if neg then " NOT IN (" else " IN (")
      +:+ Join d_inSep (map placeholder ks) +:+ ")"
  | PBetween neg e lo hi =>
      scalar_sql e +:+ (if neg then " NOT" else "") +:+ " BETWEEN " +:+ scalar_sql lo
      +:+ " AND " +:+ scalar_sql hi
  | PCompare op l r => scalar_sql l +:+ " " +:+ op +:+ " " +:+ scalar_sql r
  end.

End Render.

(** ** The placeholders, from left to right *)

Fixpoint scalar_args (e : scalar) : list Z :=
  match e with
  | ScProp _ | ScBool _ | ScNow => []
  | ScArg k | ScCast _ k => [k]
  | ScParen e => scalar_args e
  | ScBin _ l r => scalar_args l ++ scalar_args r
  end.

Definition geometry_args (g : geometry) : list Z :=
  match g with GColumn => [] | GLiteral k => [k] end.

Fixpoint pred_args (e : pred) : list Z :=
  match e with
  | POr l r | PAnd l r => pred_args l ++ pred_args r
  | PNot e | PParen e => pred_args e
  | PSpatial _ g1 g2 => geometry_args g1 ++ geometry_args g2
  | PDWithin g1 g2 k => geometry_args g1 ++ geometry_args g2 ++ [k]
  | PLike _ _ _ k => [k]
  | PIsNull _ _ => []
  | PIn _ _ ks => ks
  | PBetween _ e lo hi => scalar_args e ++ scalar_args lo ++ scalar_args hi
  | PCompare _ l r => scalar_args l ++ scalar_args r
  end.

(** ** Allow-listed names and fixed operators only *)

Definition arithOps : list string := ["+"; "-"; "*"; "/"].
Definition compareOps : list string := ["="; "<>"; "<"; ">"; "<="; ">="].

Fixpoint scalar_safe (allowed : gset string) (e : scalar) : Prop :=
  match e with
  | ScProp name => name ∈ allowed
  | ScArg _ | ScBool _ | ScNow | ScCast _ _ => True
  | ScParen e => scalar_safe allowed e
  | ScBin op l r => op ∈ arithOps /\ scalar_safe allowed l /\ scalar_safe allowed r
  end.

Fixpoint pred_safe (allowed : gset string) (e : pred) : Prop :=
  match e with
  | POr l r | PAnd l r => pred_safe allowed l /\ pred_safe allowed r
  | PNot e | PParen e => pred_safe allowed e
  | PSpatial op _ _ => op ∈ spatialNames
  | PDWithin _ _ _ => True
  | PLike _ _ name _ | PIsNull _ name => name ∈ allowed
  | PIn _ name ks => name ∈ allowed /\ ks <> []
  | PBetween _ e lo hi =>
      scalar_safe allowed e /\ scalar_safe allowed lo /\ scalar_safe allowed hi
  | PCompare op l r =>
      op ∈ compareOps /\ scalar_safe allowed l /\ scalar_safe allowed r
  end.

(** [a, a+1, ..., b-1]. *)
Definition range (a b : Z) : list Z := seqZ a (b - a).

(** The fragment of [e] uses exactly the placeholders [a .. b-1], each once and
    in order. *)
Definition scalar_ok (allowed : gset string) (e : scalar) (a b : Z) : Prop :=
  scalar_safe allowed e /\ scalar_args e = range a b.

Definition geometry_ok (g : geometry) (a b : Z) : Prop := geometry_args g = range a b.

Definition pred_ok (allowed : gset string) (e : pred) (a b : Z) : Prop :=
  pred_safe allowed e /\ pred_args e = range a b.

Section Range.

Lemma range_nil a : range a a = [].
Proof. unfold range. by rewrite Z.sub_diag. Qed.

Lemma range_one a : range a (a + 1) = [a].
Proof. unfold range. replace (a + 1 - a) with 1 by lia. done. Qed.

Lemma range_app a b c : a <= b -> b <= c -> range a b ++ range b c = range a c.
Proof.
  intros. unfold range. replace (c - a) with ((b - a) + (c - b)) by lia.
  rewrite seqZ_app by lia. do 2 f_equal. lia.
Qed.

End Range.
