(* ===== verification/SqlScan.v ===== *)
(** * The emitted SQL at the level of bytes

    A scanner for the lexical structure of SQL: quoted identifiers, string
    literals (both with doubled quotes), numbered parameters, and the remaining
    bytes. A fragment is safe when, wherever it is put, the scanner reads it as
    complete pieces of a given kind: no quote of it stays open and nothing of it
    runs into what follows. *)

From S2P Require Import Prelude GoText SqlUtil FilterLexer FilterParser FilterPostGIS FilterDuckDB FilterSpec.

Inductive sqlPiece : Type :=
| SqlIdent (name : string)
| SqlLiteral (value : string)
| SqlParam (digits : string)
| SqlCode (c : ascii).

Inductive scanMode : Type :=
| Plain
| InIdent (acc : string)
| IdentQuote (acc : string)
| InLiteral (acc : string)
| LiteralQuote (acc : string)
| InParam (acc : string).

Definition snoc (s : string) (c : ascii) : string := s +:+ String c "".

(** A byte outside quotes. *)
Definition plainStep (c : ascii) : list sqlPiece * scanMode :=
  if Ascii.eqb c dquote then ([], InIdent "")
  else if Ascii.eqb c squote then ([], InLiteral "")
  else if Ascii.eqb c "$" then ([], InParam "")
  else ([SqlCode c], Plain).

(** One byte: the pieces it completes and the next mode. *)
Definition scanStep (m : scanMode) (c : ascii) : list sqlPiece * scanMode :=
  let ends p := (p :: (plainStep c).1, (plainStep c).2) in
  match m with
  | Plain => plainStep c
  | InIdent a => ([], if Ascii.eqb c dquote then IdentQuote a else InIdent (snoc a c))
  | IdentQuote a => if Ascii.eqb c dquote then ([], InIdent (snoc a c)) else ends (SqlIdent a)
  | InLiteral a => ([], if Ascii.eqb c squote then LiteralQuote a else InLiteral (snoc a c))
  | LiteralQuote a => if Ascii.eqb c squote then ([], InLiteral (snoc a c)) else ends (SqlLiteral a)
  | InParam a => if isDigit c then ([], InParam (snoc a c)) else ends (SqlParam a)
  end.

(** What is left at the end of the text; [None] when a quote is open. *)
Definition scanEnd (m : scanMode) : option (list sqlPiece) :=
  match m with
  | Plain => Some []
  | IdentQuote a => Some [SqlIdent a]
  | LiteralQuote a => Some [SqlLiteral a]
  | InParam a => Some [SqlParam a]
  | InIdent _ | InLiteral _ => None
  end.

Fixpoint scan (m : scanMode) (s : string) : option (list sqlPiece) :=
  match s with
  | EmptyString => scanEnd m
  | String c s' => let '(ps, m') := scanStep m c in app ps <$> scan m' s'
  end.

Definition sqlScan (sql : string) : option (list sqlPiece) := scan Plain sql.

Fixpoint params (ps : list sqlPiece) : list string :=
  match ps with
  | [] => []
  | SqlParam d :: rest => d :: params rest
  | _ :: rest => params rest
  end.

(** Bytes of the compiler's own text: letters, digits and some punctuation. *)
Definition codeByte (c : ascii) : bool :=
  isAlpha c || isDigit c || existsb (Ascii.eqb c) [" "; "("; ")"; ","; "+"; "-"; "*"; "/"; "="; "<"; ">"; ":"; "_"; "."]%char.

(** A byte that ends a parameter or a quoted piece. *)
Definition boundary (s : string) : bool :=
  match s with
  | EmptyString => true
  | String c _ => negb (isDigit c) && negb (Ascii.eqb c dquote) && negb (Ascii.eqb c squote)
  end.

(** ** Scanning one piece *)

Lemma boundary_ends (m : scanMode) (p : sqlPiece) tl :
  match m with
  | IdentQuote a => p = SqlIdent a
  | LiteralQuote a => p = SqlLiteral a
  | InParam a => p = SqlParam a
  | _ => False
  end ->
  boundary tl = true -> scan m tl = cons p <$> scan Plain tl.
Proof.
  intros Hm Hb. destruct tl as [|c tl]; [destruct m; try done; by subst p|].
  simpl in *. apply andb_true_iff in Hb as [[Hd Hi]%andb_true_iff Hl].
  apply negb_true_iff in Hd, Hi, Hl.
  destruct m; try done; subst p; simpl; rewrite ?Hi, ?Hl, ?Hd;
    destruct (plainStep c) as [ps m']; simpl; by destruct (scan m' tl).
Qed.

Lemma snoc_app acc c s : snoc acc c +:+ s = acc +:+ String c s.
Proof. unfold snoc. by rewrite sapp_assoc. Qed.

Lemma scan_ident acc name tl :
  scan (InIdent acc) (ReplaceByte dquote (String dquote (String dquote "")) name +:+ String dquote tl)
  = scan (IdentQuote (acc +:+ name)) tl.
Proof.
  revert acc. induction name as [|c name IH]; intros acc;
    [rewrite sapp_nil_l, sapp_nil_r; simpl; by destruct (scan _ tl)|].
  cbn [ReplaceByte]. destruct (Ascii.eqb_spec dquote c) as [<-|Hne].
  - rewrite !sapp_cons, sapp_nil_l. change (scan (InIdent acc) (String dquote (String dquote ?x)))
      with (app [] <$> (app [] <$> scan (InIdent (snoc acc dquote)) x)).
    rewrite IH, snoc_app. by destruct (scan _ tl).
  - rewrite sapp_cons. cbn [scan scanStep]. apply not_eq_sym, Ascii.eqb_neq in Hne. rewrite Hne, IH, snoc_app.
    by destruct (scan _ tl).
Qed.

Lemma scan_literal acc v tl :
  has_byte squote v = false -> scan (InLiteral acc) (v +:+ String squote tl) = scan (LiteralQuote (acc +:+ v)) tl.
Proof.
  revert acc. induction v as [|c v IH]; intros acc; cbn [has_byte].
  - intros _. rewrite sapp_nil_l, sapp_nil_r. simpl. by destruct (scan _ tl).
  - intros [Hc Hv]%orb_false_iff. rewrite sapp_cons. cbn [scan scanStep].
    rewrite Ascii.eqb_sym, Hc, IH, snoc_app by done. by destruct (scan _ tl).
Qed.

Lemma scan_escaped acc v tl : scan (InLiteral acc) (EscapeLiteral v +:+ String squote tl) = scan (LiteralQuote (acc +:+ v)) tl.
Proof.
  revert acc. induction v as [|c v IH]; intros acc; [rewrite sapp_nil_r; unfold EscapeLiteral; simpl; by destruct (scan (LiteralQuote acc) tl)|].
  unfold EscapeLiteral in *. cbn [ReplaceByte]. destruct (Ascii.eqb_spec squote c) as [<-|Hne].
  - rewrite !sapp_cons, sapp_nil_l. change (scan (InLiteral acc) (String squote (String squote ?x)))
      with (app [] <$> (app [] <$> scan (InLiteral (snoc acc squote)) x)).
    rewrite IH, snoc_app. by destruct (scan _ tl).
  - rewrite sapp_cons. cbn [scan scanStep]. apply not_eq_sym, Ascii.eqb_neq in Hne. rewrite Hne, IH, snoc_app.
    by destruct (scan _ tl).
Qed.

Lemma scan_param acc d tl :
  all_bytes isDigit d = true -> scan (InParam acc) (d +:+ tl) = scan (InParam (acc +:+ d)) tl.
Proof.
  revert acc. induction d as [|c d IH]; intros acc; cbn [all_bytes].
  - intros _. by rewrite sapp_nil_l, sapp_nil_r.
  - intros [Hc Hd]%andb_true_iff. rewrite sapp_cons. cbn [scan scanStep].
    rewrite Hc, IH, snoc_app by done. by destruct (scan _ tl).
Qed.

(** ** Safe fragments *)

(** Wherever [s] is put before a boundary, it is read as pieces that satisfy [Q],
    with the parameters [ks] in order. *)
Definition safeFrag (Q : sqlPiece -> Prop) (s : string) (ks : list string) : Prop :=
  exists ps, Forall Q ps /\ params ps = ks
    /\ forall tl, boundary tl = true -> scan Plain (s +:+ tl) = app ps <$> scan Plain tl.

Lemma params_app ps qs : params (ps ++ qs) = params ps ++ params qs.
Proof. induction ps as [|[] ps IH]; simpl; by rewrite ?IH. Qed.

Lemma boundary_app s tl : boundary s = true -> boundary tl = true -> boundary (s +:+ tl) = true.
Proof. by destruct s. Qed.

Section Fragments.
Context {Q : sqlPiece -> Prop} (Hcode : forall c, codeByte c = true -> Q (SqlCode c)).

Lemma sf_scan s ks :
  safeFrag Q s ks -> exists ps, sqlScan s = Some ps /\ Forall Q ps /\ params ps = ks.
Proof.
  intros (ps & HQ & Hp & Hs). exists ps. specialize (Hs "" eq_refl). rewrite sapp_nil_r in Hs.
  unfold sqlScan. rewrite Hs. simpl. by rewrite app_nil_r.
Qed.

Lemma sf_nil : safeFrag Q "" [].
Proof. exists []. split_and!; [done..|]. intros tl _. rewrite sapp_nil_l. by destruct (scan _ tl). Qed.

Lemma scan_code_byte c s : codeByte c = true -> scan Plain (String c s) = cons (SqlCode c) <$> scan Plain s.
Proof.
  intros Hc. cbn [scan scanStep]. unfold plainStep.
  destruct (Ascii.eqb_spec c dquote) as [->|]; [done|].
  destruct (Ascii.eqb_spec c squote) as [->|]; [done|].
  destruct (Ascii.eqb_spec c "$") as [->|]; [done|]. by destruct (scan Plain s).
Qed.

Lemma sf_code c s ks : all_bytes codeByte c = true -> safeFrag Q s ks -> safeFrag Q (c +:+ s) ks.
Proof.
  intros Hc (ps & HQ & Hp & Hs). induction c as [|b c IH]; [by exists ps|].
  simpl in Hc. apply andb_true_iff in Hc as [Hb Hc]. destruct (IH Hc) as (qs & HQ' & Hp' & Hs').
  exists (SqlCode b :: qs). split_and!; [by constructor; [apply Hcode|]|done|].
  intros tl Htl. rewrite sapp_cons, sapp_cons, scan_code_byte, Hs' by done. by destruct (scan Plain tl).
Qed.

Lemma sf_text c : all_bytes codeByte c = true -> safeFrag Q c [].
Proof. intros Hc. rewrite <- (sapp_nil_r c). apply sf_code; [done|apply sf_nil]. Qed.

Lemma sf_app a b ka kb :
  safeFrag Q a ka -> boundary b = true -> safeFrag Q b kb -> safeFrag Q (a +:+ b) (ka ++ kb).
Proof.
  intros (pa & Qa & Ka & Sa) Hb (pb & Qb & Kb & Sb). exists (pa ++ pb).
  split_and!; [by apply Forall_app|by rewrite params_app, Ka, Kb|].
  intros tl Htl. rewrite sapp_assoc, Sa, Sb by auto using boundary_app.
  destruct (scan Plain tl); simpl; [by rewrite app_assoc|done].
Qed.

Lemma sf_then a c ks : safeFrag Q a ks -> boundary c = true -> all_bytes codeByte c = true -> safeFrag Q (a +:+ c) ks.
Proof. intros Ha Hb Hc. rewrite <- (app_nil_r ks). auto using sf_app, sf_text. Qed.

Lemma sf_ident name : Q (SqlIdent name) -> safeFrag Q (QuoteIdent name) [].
Proof.
  intros HQ. exists [SqlIdent name]. split_and!; [by repeat constructor|done|].
  intros tl Htl. unfold QuoteIdent. rewrite !sapp_cons, !sapp_nil_l, sapp_assoc, sapp_cons, sapp_nil_l.
  change (scan Plain (String dquote ?x)) with (app [] <$> scan (InIdent "") x).
  rewrite scan_ident, (boundary_ends _ (SqlIdent name)) by done. by destruct (scan Plain tl).
Qed.

Lemma sf_literal v : has_byte squote v = false -> Q (SqlLiteral v) -> safeFrag Q (String squote v +:+ String squote "") [].
Proof.
  intros Hv HQ. exists [SqlLiteral v]. split_and!; [by repeat constructor|done|].
  intros tl Htl. rewrite !sapp_cons, sapp_assoc, sapp_cons, sapp_nil_l.
  change (scan Plain (String squote ?x)) with (app [] <$> scan (InLiteral "") x).
  rewrite scan_literal, (boundary_ends _ (SqlLiteral v)) by done. by destruct (scan Plain tl).
Qed.

Lemma sf_param k : 0 <= k -> (forall d, Q (SqlParam d)) -> safeFrag Q (placeholder k) [pretty k].
Proof.
  intros Hk HQ. exists [SqlParam (pretty k)]. split_and!; [by repeat constructor|done|].
  intros tl Htl. unfold placeholder. rewrite !sapp_cons, !sapp_nil_l.
  change (scan Plain (String "$" ?x)) with (app [] <$> scan (InParam "") x).
  rewrite scan_param by (by apply pretty_digits).
  rewrite (boundary_ends _ (SqlParam (pretty k))) by done. by destruct (scan Plain tl).
Qed.
End Fragments.

(** ** What a dialect promises about its fragments *)

(** The pieces of a compiled filter: identifiers are allow-listed properties or
    the geometry column, literals are coordinate reference systems. *)
Definition okPiece (allowed : gset string) (geom : string) (p : sqlPiece) : Prop :=
  match p with
  | SqlIdent name => name ∈ allowed \/ name = geom
  | SqlLiteral v => exists srid : Z, v = "EPSG:" +:+ pretty srid
  | SqlParam _ => True
  | SqlCode c => codeByte c = true
  end.

Definition dialectPiece (D : Dialect) : sqlPiece -> Prop := okPiece d_allowed d_geomProperty.

Class SafeDialect (D : Dialect) : Prop := {
  sd_spatial op g1 g2 k1 k2 :
    op ∈ spatialNames -> safeFrag (dialectPiece D) g1 k1 -> safeFrag (dialectPiece D) g2 k2 ->
    safeFrag (dialectPiece D) (d_spatial op g1 g2) (k1 ++ k2);
  sd_dwithin g1 g2 ph k1 k2 k3 :
    safeFrag (dialectPiece D) g1 k1 -> safeFrag (dialectPiece D) g2 k2 -> safeFrag (dialectPiece D) ph k3 ->
    safeFrag (dialectPiece D) (d_dwithin g1 g2 ph) (k1 ++ k2 ++ k3);
  sd_inSep : boundary d_inSep = true /\ all_bytes codeByte d_inSep = true;
  sd_timestamp tz ph ks :
    safeFrag (dialectPiece D) ph ks -> safeFrag (dialectPiece D) (d_timestamp tz ph) ks;
  sd_geomColumn : safeFrag (dialectPiece D) (d_geomColumn d_geomProperty) [];
  sd_geomExpr ph ks :
    safeFrag (dialectPiece D) ph ks -> safeFrag (dialectPiece D) (d_geomExpr ph) ks
}.

Lemma sf_eq Q s ks ks' : safeFrag Q s ks -> ks = ks' -> safeFrag Q s ks'.
Proof. by intros H <-. Qed.

Lemma dialect_code D c : codeByte c = true -> dialectPiece D (SqlCode c).
Proof. done. Qed.

(** Reads off a fragment made of fixed text and of fragments known to be safe. *)
Ltac frag_step :=
  match goal with
  | H : safeFrag ?Q ?s _ |- safeFrag ?Q ?s _ => exact H
  | |- safeFrag _ ("" +:+ _) _ => rewrite sapp_nil_l
  | |- safeFrag _ (_ +:+ _) _ =>
      first [ apply (sf_code (dialect_code _)); [reflexivity|]
            | eapply sf_app; [|reflexivity|] ]
  | |- safeFrag _ _ _ => apply (sf_text (dialect_code _)); reflexivity
  end.

Ltac frag := eapply sf_eq; [repeat frag_step | rewrite ?app_nil_r; simpl; rewrite ?app_nil_r; try done].

Lemma code_function (f : string -> string) op :
  forallb (fun o => all_bytes codeByte (f o)) spatialNames = true ->
  op ∈ spatialNames -> all_bytes codeByte (f op) = true.
Proof. intros H Hin%list_elem_of_In. rewrite forallb_forall in H. by apply H. Qed.

Lemma code_number (k : Z) : all_bytes codeByte (pretty k) = true.
Proof.
  eapply all_bytes_impl; [|apply pretty_number]. unfold digitOrDash, codeByte. change isDigit with digit.
  intros c [-> | ->%Ascii.eqb_eq]%orb_true_iff; [by rewrite orb_true_r|done].
Qed.

Lemma EPSG_piece (srid : Z) : has_byte squote ("EPSG:" +:+ pretty srid) = false.
Proof.
  assert (H : has_byte squote (pretty srid) = false)
    by (eapply all_bytes_has; [apply pretty_number|done]).
  rewrite !sapp_cons, sapp_nil_l. exact H.
Qed.

#[export] Instance postgis_safe opt : SafeDialect (postgis opt).
Proof.
  split; simpl.
  - intros op g1 g2 k1 k2 Hop H1 H2. apply (sf_code (dialect_code _)).
    + apply (code_function toPostGISFunction); [vm_compute; reflexivity|done].
    + frag.
  - intros g1 g2 ph k1 k2 k3 H1 H2 H3. frag.
  - done.
  - intros [] ph ks H; frag.
  - apply sf_ident. by right.
  - intros ph ks H. destruct (_ && _); [|frag].
    apply (sf_code (dialect_code _)); [done|]. rewrite sapp_assoc.
    eapply sf_eq; [|apply app_nil_r]. eapply sf_app; [exact H|done|].
    apply (sf_code (dialect_code _)); [done|]. apply (sf_code (dialect_code _)); [done|].
    apply (sf_code (dialect_code _)); [apply code_number|frag].
Qed.

(** A configured geometry expression is trusted as far as it is itself such a
    fragment; without one the column is quoted. *)
Lemma duckdb_safe opt :
  safeFrag (dialectPiece (duckdb opt)) (dk_GeometryExpression opt) [] -> SafeDialect (duckdb opt).
Proof.
  intros Hexpr. split; simpl.
  - intros op g1 g2 k1 k2 Hop H1 H2. apply (sf_code (dialect_code _)).
    + apply (code_function toDuckDBFunction); [vm_compute; reflexivity|done].
    + frag.
  - intros g1 g2 ph k1 k2 k3 H1 H2 H3. frag.
  - done.
  - intros [] ph ks H; frag.
  - unfold duckdbGeomColumn. destruct (String.eqb _ _); [apply sf_ident; by right|done].
  - intros ph ks H. unfold duckdbGeomExpr.
    assert (Hg : safeFrag (dialectPiece (duckdb opt)) ("ST_GeomFromText(CAST(" +:+ ph +:+ " AS VARCHAR))") ks) by frag.
    destruct (_ && _); [|exact Hg]. revert Hg. generalize ("ST_GeomFromText(CAST(" +:+ ph +:+ " AS VARCHAR))").
    intros sql Hg.
    assert (Hl : forall srid : Z, safeFrag (dialectPiece (duckdb opt))
              (String squote ("EPSG:" +:+ pretty srid) +:+ String squote "") []).
    { intros srid. apply sf_literal; [apply EPSG_piece|by exists srid]. }
    pose proof (Hl (dk_FilterSRID opt)) as H1. pose proof (Hl (dk_SourceSRID opt)) as H2.
    assert (E : "ST_Transform(" +:+ sql +:+ ", 'EPSG:" +:+ pretty (dk_FilterSRID opt) +:+ "', 'EPSG:"
       +:+ pretty (dk_SourceSRID opt) +:+ "', always_xy := true)"
       = "ST_Transform(" +:+ sql +:+ ", "
         +:+ (String squote ("EPSG:" +:+ pretty (dk_FilterSRID opt)) +:+ String squote "") +:+ ", "
         +:+ (String squote ("EPSG:" +:+ pretty (dk_SourceSRID opt)) +:+ String squote "")
         +:+ ", always_xy := true)").
    { unfold squote. rewrite ?sapp_cons, ?sapp_nil_l, ?sapp_assoc, ?sapp_cons, ?sapp_nil_l. done. }
    rewrite E. frag.
Qed.

(** ** The text of a safe tree is a safe fragment *)
Section Rendered.
Context (D : Dialect) {HD : SafeDialect D}.
Abbreviation sf := (safeFrag (dialectPiece D)).

Lemma sf_placeholder k : 0 <= k -> sf (placeholder k) [pretty k].
Proof. intros. by apply sf_param. Qed.

Lemma sf_property name : name ∈ d_allowed -> sf (QuoteIdent name) [].
Proof. intros. apply sf_ident. by left. Qed.

Lemma sf_op op (ops : list string) :
  op ∈ ops -> forallb (all_bytes codeByte) ops = true -> all_bytes codeByte op = true.
Proof. intros Hin%list_elem_of_In H. rewrite forallb_forall in H. by apply H. Qed.

Definition prettys (ks : list Z) : list string := map pretty ks.

Lemma prettys_app a b : prettys (a ++ b) = prettys a ++ prettys b.
Proof. apply map_app. Qed.

Lemma scalar_frag e :
  scalar_safe d_allowed e -> Forall (fun k => 0 <= k) (scalar_args e) ->
  sf (scalar_sql D e) (prettys (scalar_args e)).
Proof.
  induction e as [name|k|b| |tz k|e IH|op l IHl r IHr]; simpl; intros Hs Ha.
  - by apply sf_property.
  - apply Forall_cons in Ha as [Hk _]. by apply sf_placeholder.
  - destruct b; frag.
  - frag.
  - apply Forall_cons in Ha as [Hk _]. by apply sd_timestamp, sf_placeholder.
  - specialize (IH Hs Ha). frag.
  - destruct Hs as (Hop & Hl & Hr). apply Forall_app in Ha as [Al Ar].
    specialize (IHl Hl Al). specialize (IHr Hr Ar). rewrite prettys_app.
    apply (sf_code (dialect_code _)); [done|]. apply sf_app; [done|done|].
    apply (sf_code (dialect_code _)); [done|].
    apply (sf_code (dialect_code _)); [apply (sf_op op arithOps); done|]. frag.
Qed.

Lemma geometry_frag g :
  Forall (fun k => 0 <= k) (geometry_args g) -> sf (geometry_sql D g) (prettys (geometry_args g)).
Proof.
  destruct g as [|k]; simpl; intros Ha; [apply sd_geomColumn|].
  apply Forall_cons in Ha as [Hk _]. by apply sd_geomExpr, sf_placeholder.
Qed.

Lemma join_frag ks :
  Forall (fun k => 0 <= k) ks -> sf (Join d_inSep (map placeholder ks)) (prettys ks).
Proof.
  destruct sd_inSep as [Hb Hc]. induction ks as [|k ks IH]; intros Ha; [apply sf_nil|].
  apply Forall_cons in Ha as [Hk Ha]. specialize (IH Ha). pose proof (sf_placeholder k Hk) as Hp.
  destruct ks as [|k' ks]; [done|]. change (prettys (k :: k' :: ks)) with ([pretty k] ++ prettys (k' :: ks)).
  change (Join d_inSep (map placeholder (k :: k' :: ks)))
    with (placeholder k +:+ d_inSep +:+ Join d_inSep (map placeholder (k' :: ks))).
  apply sf_app; [done| |by apply (sf_code (dialect_code _))].
  apply boundary_app; [done|]. by destruct ks.
Qed.

Lemma pred_frag e :
  pred_safe d_allowed e -> Forall (fun k => 0 <= k) (pred_args e) ->
  sf (pred_sql D e) (prettys (pred_args e)).
Proof.
  induction e as [l IHl r IHr|l IHl r IHr|e IH|e IH|op g1 g2|g1 g2 k|neg ci name k|neg name|neg name ks
                 |neg e lo hi|op l r]; simpl; intros Hs Ha.
  - destruct Hs as [Hl Hr]. apply Forall_app in Ha as [Al Ar]. specialize (IHl Hl Al).
    specialize (IHr Hr Ar). rewrite prettys_app. frag.
  - destruct Hs as [Hl Hr]. apply Forall_app in Ha as [Al Ar]. specialize (IHl Hl Al).
    specialize (IHr Hr Ar). rewrite prettys_app. frag.
  - specialize (IH Hs Ha). frag.
  - specialize (IH Hs Ha). frag.
  - apply Forall_app in Ha as [A1 A2]. rewrite prettys_app. by apply sd_spatial; [|apply geometry_frag..].
  - apply Forall_app in Ha as [A1 [A2 A3]%Forall_app]. apply Forall_cons in A3 as [Hk _].
    rewrite !prettys_app. apply sd_dwithin; [by apply geometry_frag..|by apply sf_placeholder].
  - apply Forall_cons in Ha as [Hk _]. pose proof (sf_property _ Hs). pose proof (sf_placeholder k Hk).
    destruct neg, ci; frag.
  - pose proof (sf_property _ Hs). destruct neg; frag.
  - destruct Hs as [Hs _]. pose proof (sf_property _ Hs). pose proof (join_frag ks Ha). destruct neg; frag.
  - destruct Hs as (He & Hl & Hh). apply Forall_app in Ha as [Ae [Al Ah]%Forall_app].
    pose proof (scalar_frag e He Ae). pose proof (scalar_frag lo Hl Al). pose proof (scalar_frag hi Hh Ah).
    rewrite !prettys_app. destruct neg; frag.
  - destruct Hs as (Hop & Hl & Hr). apply Forall_app in Ha as [Al Ar].
    pose proof (scalar_frag l Hl Al). pose proof (scalar_frag r Hr Ar). rewrite prettys_app.
    apply sf_app; [done|done|]. apply (sf_code (dialect_code _)); [done|].
    apply (sf_code (dialect_code _)); [apply (sf_op op compareOps); done|]. frag.
Qed.

(** What the scanner reads in a compiled filter. *)
Lemma pred_scan e a b :
  0 <= a -> pred_ok d_allowed e a b ->
  exists ps, sqlScan (pred_sql D e) = Some ps /\ Forall (dialectPiece D) ps /\ params ps = prettys (range a b).
Proof.
  intros Ha [Hs He]. rewrite <- He. apply sf_scan. apply pred_frag; [done|].
  rewrite He. apply Forall_forall. intros k Hk. apply list_elem_of_In in Hk.
  unfold range in Hk. apply list_elem_of_In, elem_of_seqZ in Hk. lia.
Qed.
End Rendered.
