(* ===== verification/FilterCorrect.v ===== *)
(** * Correctness of the CQL2 compiler, for every dialect

    One specification per parser function, in weakest-precondition style: from a
    well-formed parser with enough fuel, the function does not run out of fuel,
    never un-reads input, appends exactly the arguments of the placeholders it
    emits, and its text is that of a safe syntax tree ([FilterSpec]). *)

From S2P Require Import Prelude SqlUtil GoNum FilterLexer FilterParser FilterSpec.

(** ** Measure and invariant of a parser *)

Definition weight (t : token) : nat := if decide (typ t = tokEOF) then 0%nat else 1%nat.

(** Tokens and bytes left: an upper bound on the number of [bump]s that matter. *)
Definition mu (p : parser) : nat :=
  (weight (p_cur p) + weight (p_peek p) + String.length (l_rest (p_l p)))%nat.

Definition wfP (p : parser) : Prop := token_wf (p_cur p) /\ token_wf (p_peek p).

(** The arguments only grow, in step with the parameter index. *)
Definition grows (p p' : parser) : Prop :=
  exists new, p_args p' = p_args p ++ new /\ p_next p' = p_next p + Z.of_nat (length new).

Record adv (p p' : parser) : Prop := mkAdv {
  adv_wf : wfP p';
  adv_mu : (mu p' <= mu p)%nat;
  adv_grows : grows p p'
}.

Section Steps.

Lemma grows_refl p : grows p p.
Proof. exists []. rewrite app_nil_r. simpl. split; [done|lia]. Qed.

Lemma grows_trans p q r : grows p q -> grows q r -> grows p r.
Proof.
  intros (n1 & Ha1 & Hn1) (n2 & Ha2 & Hn2). exists (n1 ++ n2).
  rewrite Ha2, Ha1, Hn2, Hn1, length_app, app_assoc. split; [done|lia].
Qed.

Lemma adv_refl p : wfP p -> adv p p.
Proof. intros H. by split; [done|lia|apply grows_refl]. Qed.

Lemma adv_trans p q r : adv p q -> adv q r -> adv p r.
Proof.
  intros [_ Hm1 Hg1] [Hw Hm2 Hg2]. split; [done|lia|by eapply grows_trans].
Qed.

Lemma adv_next p q : adv p q -> p_next p <= p_next q.
Proof. intros [_ _ (new & _ & ->)]. lia. Qed.

(** Reading a token costs at least its weight. *)
Lemma next_weight l t l' :
  next l = (t, l') ->
  token_wf t /\ (weight t + String.length (l_rest l') <= String.length (l_rest l))%nat.
Proof.
  intros Hn. pose proof (next_spec l) as H. simpl in H.
  assert (Hs : (String.length (l_rest (skipWS l)) <= String.length (l_rest l))%nat).
  { unfold skipWS. rewrite l_rest_advance, length_sdrop. lia. }
  destruct (l_rest (skipWS l)) as [|c r] eqn:Hr.
  - rewrite Hn in H. simplify_eq. split; [done|]. rewrite Hr. unfold weight. simpl. lia.
  - destruct H as (k & Hk & Hlen & Ht & Hw & _). rewrite Hn in Hk, Ht, Hw. simpl in *. subst l'.
    split; [done|]. rewrite l_rest_advance, length_sdrop, Hr. unfold weight.
    rewrite Hr in Hlen. simpl in *. destruct (decide _); lia.
Qed.

Lemma wp_bump Q p :
  wfP p ->
  (forall p', adv p p' -> p_next p' = p_next p -> p_cur p' = p_peek p ->
     (mu p' <= mu p - weight (p_cur p))%nat -> Q tt p') ->
  wp bump Q p.
Proof.
  intros [Hc Hp] HQ. unfold wp, bump. destruct (next (p_l p)) as [t l] eqn:Hn.
  apply next_weight in Hn as [Hw Hlen].
  assert (Hm : (mu (mkParser l (p_peek p) t (p_args p) (p_next p)) <= mu p - weight (p_cur p))%nat).
  { unfold mu; simpl. lia. }
  apply HQ; [|done|done|done]. split; [done|lia|].
  exists []. simpl. rewrite app_nil_r. split; [done|lia].
Qed.

(** Consuming a token other than the end of the input. *)
Lemma wp_bump_strict Q p :
  wfP p -> typ (p_cur p) <> tokEOF ->
  (forall p', adv p p' -> p_next p' = p_next p -> (mu p' < mu p)%nat -> p_cur p' = p_peek p -> Q tt p') ->
  wp bump Q p.
Proof.
  intros Hw Ht HQ. apply wp_bump; [done|]. intros p' Ha Hn Hc Hm. apply HQ; [done|done| |done].
  assert (weight (p_cur p) = 1%nat) as Hwt by (unfold weight; destruct (decide _); done).
  unfold mu in *. lia.
Qed.

Lemma wp_expect t Q p :
  wfP p -> t <> tokEOF ->
  (forall tok p', adv p p' -> p_next p' = p_next p -> (mu p' < mu p)%nat -> Q tok p') ->
  wp (expect t) Q p.
Proof.
  intros Hw Ht HQ. unfold expect. apply wp_bind, wp_get.
  destruct (decide _) as [He|]; [|done].
  apply wp_bind, wp_bump_strict; [done|congruence|]. intros p' Ha Hn Hm _. by apply wp_ret, HQ.
Qed.

Lemma wp_addArg v Q p :
  wfP p ->
  (forall p', adv p p' -> p_next p' = p_next p + 1 -> mu p' = mu p -> p_cur p' = p_cur p ->
     Q (placeholder (p_next p)) p') ->
  wp (addArg v) Q p.
Proof.
  intros Hw HQ. unfold wp, addArg. apply HQ; try done. split; [done|done|].
  exists [v]. simpl. split; [done|lia].
Qed.

End Steps.

#[export] Hint Resolve adv_refl adv_wf : neo.

(** Chains the [adv] facts of the context. *)
Ltac adv_chain :=
  first [ eassumption | (apply adv_refl; eauto with neo)
        | (eapply adv_trans; [eassumption|]; adv_chain) ].

(** Adds what the [adv] facts of the context say about parameter indexes and measures. *)
Ltac adv_facts :=
  repeat match goal with
  | H : adv ?p ?q |- _ =>
      lazymatch goal with
      | _ : p_next p <= p_next q |- _ => fail
      | _ => pose proof (adv_next p q H); pose proof (adv_mu p q H); pose proof (adv_wf p q H)
      end
  end.

Ltac w_get := apply wp_bind, wp_get.
Ltac w_bump p' :=
  apply wp_bind, wp_bump_strict;
  [ eauto with neo | congruence | intros p' ? ? ? ?; adv_facts ].
Ltac w_expect p' :=
  apply wp_bind, wp_expect; [ eauto with neo | done | intros ? p' ? ? ?; adv_facts ].
Ltac w_arg p' :=
  apply wp_bind, wp_addArg; [ eauto with neo | intros p' ? ? ? ?; adv_facts ].

(** ** Scalar expressions *)

Section Correct.
Context (D : Dialect).

Definition scalarP (p : parser) (sql : string) (p' : parser) : Prop :=
  adv p p' /\ exists e, scalar_ok d_allowed e (p_next p) (p_next p') /\ sql = scalar_sql D e.

Definition scalar_spec (fuel : nat) : Prop := forall minPrec p,
  wfP p -> (8 * mu p + 2 <= fuel)%nat -> wp (parseScalarExpr D fuel minPrec) (scalarP p) p.

Definition scalar_loop_spec (fuel : nat) : Prop := forall minPrec left p0 p,
  wfP p -> (8 * mu p + 1 <= fuel)%nat -> scalarP p0 left p ->
  wp (scalarLoop D fuel minPrec left) (scalarP p0) p.

Definition scalar_primary_spec (fuel : nat) : Prop := forall p,
  wfP p -> (8 * mu p + 1 <= fuel)%nat -> wp (parseScalarPrimary D fuel) (scalarP p) p.

Lemma scalar_ok_nil e p p' :
  scalar_safe d_allowed e -> scalar_args e = [] -> p_next p' = p_next p ->
  scalar_ok d_allowed e (p_next p) (p_next p').
Proof. intros ? ? ->. split; [done|]. by rewrite range_nil. Qed.

Lemma scalar_ok_one e p p' :
  scalar_safe d_allowed e -> scalar_args e = [p_next p] -> p_next p' = p_next p + 1 ->
  scalar_ok d_allowed e (p_next p) (p_next p').
Proof. intros ? ? ->. split; [done|]. by rewrite range_one. Qed.

Lemma arith_op_wf t prec : token_wf t -> scalarPrec (typ t) = Some prec -> raw t ∈ arithOps.
Proof.
  unfold token_wf, arithOps. destruct (typ t); simpl; try done; intros -> _; set_solver.
Qed.

Lemma scalarPrec_not_eof t prec : scalarPrec t = Some prec -> t <> tokEOF.
Proof. by intros H ->. Qed.

Lemma scalar_loop_step fuel : scalar_spec fuel -> scalar_loop_spec fuel -> scalar_loop_spec (S fuel).
Proof.
  intros IHe IHl minPrec left p0 p Hw Hf HL. simpl. w_get.
  destruct (scalarPrec _) as [prec|] eqn:Hp; [|by apply wp_ret].
  destruct (prec <? minPrec); [by apply wp_ret|].
  apply wp_bind, wp_bump_strict; [done|by eapply scalarPrec_not_eof|]. intros p1 A1 N1 M1 _. adv_facts.
  apply wp_bind. eapply wp_mono; [apply IHe; [done|lia]|].
  intros right p2 (A2 & er & [Hs Hargs] & ->). adv_facts.
  destruct HL as (A0 & el & [Hsl Hal] & ->). adv_facts.
  apply IHl; [done|lia|]. split; [adv_chain|].
  exists (ScBin (raw (p_cur p)) el er). split; [|done]. split.
  - simpl. split_and!; [|done|done]. eapply arith_op_wf; [apply Hw|done].
  - simpl. rewrite Hal, Hargs, N1. apply range_app; lia.
Qed.

Lemma scalar_primary_step fuel : scalar_spec fuel -> scalar_primary_spec (S fuel).
Proof.
  intros IHe p Hw Hf. simpl. w_get.
  destruct (typ (p_cur p)) eqn:Ht; try apply wp_fail.
  - apply wp_bind. unfold assertAllowedProperty. destruct (decide _) as [Hin|]; [|apply wp_fail].
    apply wp_ret. w_bump p1. apply wp_ret. split; [done|].
    exists (ScProp (raw (p_cur p))). split; [|done]. by apply scalar_ok_nil.
  - w_arg p1. w_bump p2. apply wp_ret. split; [adv_chain|].
    exists (ScArg (p_next p)). split; [|done]. apply scalar_ok_one; [done|done|congruence].
  - destruct (ParseFloat _); [|apply wp_fail].
    w_arg p1. w_bump p2. apply wp_ret. split; [adv_chain|].
    exists (ScArg (p_next p)). split; [|done]. apply scalar_ok_one; [done|done|congruence].
  - w_bump p1. apply wp_ret. split; [done|].
    assert (raw (p_cur p) = "true" \/ raw (p_cur p) = "false") as Hb.
    { destruct Hw as [Hw _]. unfold token_wf in Hw. by rewrite Ht in Hw. }
    exists (ScBool (String.eqb (raw (p_cur p)) "true")). split; [by apply scalar_ok_nil|].
    by destruct Hb as [-> | ->].
  - w_get. destruct (EqualFold _ _ && bool_decide _) eqn:Hnow.
    + apply andb_true_iff in Hnow as [_ Hpk%bool_decide_eq_true].
      w_bump p1. w_bump p2. w_expect p3. apply wp_ret. split; [adv_chain|].
      exists ScNow. split; [|done]. apply scalar_ok_nil; [done|done|congruence].
    + w_arg p1. w_bump p2. apply wp_ret. split; [adv_chain|].
      exists (ScCast (d_zoned (raw (p_cur p))) (p_next p)). split; [|done].
      apply scalar_ok_one; [done|done|congruence].
  - w_bump p1. apply wp_bind. eapply wp_mono; [apply IHe; [done|lia]|].
    intros inner p2 (A2 & e & [Hs Ha] & ->). adv_facts. w_expect p3.
    apply wp_ret. split; [adv_chain|]. exists (ScParen e). split; [|done].
    split; [done|]. simpl. rewrite Ha. congruence.
Qed.

Lemma scalar_specs fuel : scalar_spec fuel /\ scalar_loop_spec fuel /\ scalar_primary_spec fuel.
Proof.
  induction fuel as [|f (IHe & IHl & IHp)].
  { split_and!; intros ?; intros; lia. }
  split_and!; [|by apply scalar_loop_step|by apply scalar_primary_step].
  intros minPrec p Hw Hf. simpl. apply wp_bind.
  eapply wp_mono; [apply IHp; [done|lia]|]. intros left p1 HL.
  destruct (HL) as [A1 _]. adv_facts. apply IHl; [done|lia|done].
Qed.

Lemma wp_scalar f minPrec p :
  wfP p -> (8 * mu p + 2 <= f)%nat -> wp (parseScalarExpr D f minPrec) (scalarP p) p.
Proof. apply scalar_specs. Qed.

(** ** Geometries *)

Definition geometryP (p : parser) (sql : string) (p' : parser) : Prop :=
  adv p p' /\ exists g, geometry_ok g (p_next p) (p_next p') /\ sql = geometry_sql D g.

(** A geometry literal is read without binding anything yet. *)
Definition silentP {A} (p : parser) (_ : A) (p' : parser) : Prop :=
  adv p p' /\ p_next p' = p_next p.

Lemma wp_envelopeCoords k coords p0 p :
  silentP p0 tt p -> wp (envelopeCoords k coords) (silentP p0) p.
Proof.
  revert coords p. induction k as [|k IH]; intros coords p [A0 N0]; simpl; [by apply wp_ret|].
  adv_facts. w_get. destruct (typ (p_cur p)) eqn:Ht; try apply wp_fail.
  w_bump p1. apply wp_bind. destruct (decide (k = 0%nat)).
  - apply wp_ret, IH. split; [adv_chain|congruence].
  - w_expect p2. apply wp_ret, IH. split; [adv_chain|congruence].
Qed.

Lemma wp_wktLoop fuel depth prevNum sb p0 p :
  silentP p0 tt p -> (8 * mu p + 1 <= fuel)%nat -> typ (p_cur p) <> tokEOF ->
  wp (wktLoop fuel depth prevNum sb) (silentP p0) p.
Proof.
  revert depth prevNum sb p. induction fuel as [|f IH]; intros depth prevNum sb p [A0 N0] Hf Ht;
    [lia|]. simpl. adv_facts. w_get. w_bump p1.
  assert (silentP p0 tt p1) by (split; [adv_chain|congruence]).
  destruct (_ =? 0); [by apply wp_ret|]. w_get.
  destruct (decide _); [apply wp_fail|]. apply IH; [done|lia|done].
Qed.

Lemma wp_lift_silent {A} (o : outcome perr A) p0 p :
  o <> NoFuel -> silentP p0 tt p -> wp (lift o) (silentP p0) p.
Proof. intros Ho Hs. unfold wp, lift. by destruct o. Qed.

Lemma envelopeWKT_fuel coords : envelopeWKT coords <> NoFuel.
Proof.
  unfold envelopeWKT. repeat case_match; done.
Qed.

Lemma wp_geomLiteral f p :
  wfP p -> (8 * mu p + 2 <= f)%nat -> wp (parseGeomLiteralWKT f) (silentP p) p.
Proof.
  intros Hw Hf. unfold parseGeomLiteralWKT. w_get.
  destruct (typ (p_cur p)) eqn:Ht; try apply wp_fail;
    w_bump p1; try (w_get; destruct (typ (p_cur p1)) eqn:Hc; try apply wp_fail;
      apply wp_wktLoop; [by split|lia|congruence]).
  w_expect p2. apply wp_bind. eapply wp_mono.
  { apply (wp_envelopeCoords 4 [] p). split; [adv_chain|congruence]. }
  intros coords p3 [A3 N3]. adv_facts. w_expect p4.
  apply wp_lift_silent; [apply envelopeWKT_fuel|]. split; [adv_chain|congruence].
Qed.

Lemma wp_geomExpr f p :
  wfP p -> (8 * mu p + 2 <= f)%nat -> wp (parseGeomExpr D f) (geometryP p) p.
Proof.
  intros Hw Hf. unfold parseGeomExpr. w_get.
  assert (Hlit : wp (wkt ← parseGeomLiteralWKT f; ph ← addArg (ArgString (d_geomArg wkt));
                     mret (d_geomExpr ph)) (geometryP p) p).
  { apply wp_bind. eapply wp_mono; [by apply wp_geomLiteral|]. intros wkt p1 [A1 N1]. adv_facts.
    w_arg p2. apply wp_ret. split; [adv_chain|]. exists (GLiteral (p_next p)).
    split; [|simpl; by rewrite N1]. unfold geometry_ok. simpl.
    replace (p_next p2) with (p_next p + 1) by lia. by rewrite range_one. }
  destruct (typ (p_cur p)) eqn:Ht; try exact Hlit.
  destruct (String.eqb_spec (raw (p_cur p)) d_geomProperty) as [->|]; [|apply wp_fail].
  w_bump p1. apply wp_ret. split; [done|]. exists GColumn. split; [|done].
  unfold geometry_ok. simpl. replace (p_next p1) with (p_next p) by lia. by rewrite range_nil.
Qed.

(** ** Predicates *)

Definition predP (p : parser) (sql : string) (p' : parser) : Prop :=
  adv p p' /\ exists e, pred_ok d_allowed e (p_next p) (p_next p') /\ sql = pred_sql D e.

Lemma wp_between f left neg p0 p :
  scalarP p0 left p -> (8 * mu p + 2 <= f)%nat ->
  wp (parseBetween D f left (if neg : bool then " NOT" else "")) (predP p0) p.
Proof.
  intros (A0 & el & [Hsl Hal] & ->) Hf. adv_facts. unfold parseBetween. apply wp_bind.
  eapply wp_mono; [by apply wp_scalar|]. intros a p1 (A1 & ea & [Hsa Haa] & ->). adv_facts.
  w_get. destruct (decide _) as [Ht|]; [|apply wp_fail]. w_bump p2.
  apply wp_bind. eapply wp_mono; [apply wp_scalar; [done|lia]|].
  intros b p3 (A3 & eb & [Hsb Hab] & ->). adv_facts. apply wp_ret. split; [adv_chain|].
  exists (PBetween neg el ea eb). split; [|done]. split; [done|]. simpl.
  rewrite Hal, Haa, Hab. replace (p_next p2) with (p_next p1) by lia.
  rewrite range_app by lia. by rewrite range_app by lia.
Qed.

Lemma compare_op_wf t :
  token_wf t ->
  match typ t with tokEq | tokNeq | tokLt | tokGt | tokLte | tokGte => True | _ => False end ->
  raw t ∈ compareOps.
Proof.
  unfold token_wf, compareOps. destruct (typ t); simpl; try done; intros -> _; set_solver.
Qed.

Lemma wp_comparison_tail f left p0 p :
  scalarP p0 left p -> (8 * mu p + 2 <= f)%nat ->
  wp (parseComparisonTail D f left) (predP p0) p.
Proof.
  intros HL Hf. destruct (HL) as (A0 & el & [Hsl Hal] & Hl). adv_facts.
  assert (Hadv : forall q, adv p q -> p_next q = p_next p -> scalarP p0 left q).
  { intros q Hq Hn. split; [adv_chain|]. exists el. rewrite Hn. done. }
  assert (Hcmp : typ (p_cur p) <> tokEOF -> raw (p_cur p) ∈ compareOps ->
     wp (bump;; right ← parseScalarExpr D f 0;
         mret (left +:+ " " +:+ raw (p_cur p) +:+ " " +:+ right)) (predP p0) p).
  { intros Hne Hop. w_bump p1. apply wp_bind. eapply wp_mono; [apply wp_scalar; [done|lia]|].
    intros right p2 (A2 & er & [Hsr Har] & ->). adv_facts. apply wp_ret.
    split; [adv_chain|]. exists (PCompare (raw (p_cur p)) el er). split; [|by rewrite Hl].
    split; [done|]. simpl. rewrite Hal, Har. replace (p_next p1) with (p_next p) by lia.
    apply range_app; lia. }
  unfold parseComparisonTail. w_get. w_get.
  destruct (bool_decide _ && bool_decide _) eqn:Hnb.
  - apply andb_true_iff in Hnb as [Hn%bool_decide_eq_true Hb%bool_decide_eq_true].
    w_bump p1. w_bump p2. apply (wp_between f left true); [|lia].
    apply Hadv; [adv_chain|congruence].
  - destruct (typ (p_cur p)) eqn:Ht; try apply wp_fail;
      try (apply Hcmp; [done|apply compare_op_wf; [apply (adv_wf _ _ A0)|by rewrite Ht]]).
    w_bump p1. apply (wp_between f left false); [by apply Hadv|lia].
Qed.

Lemma range_snoc a b : a <= b -> range a b ++ [b] = range a (b + 1).
Proof. intros. rewrite <- (range_app a b (b + 1)) by lia. by rewrite range_one. Qed.

(** The list of an [IN] predicate: one placeholder per literal, in order. *)
Lemma wp_inLoop fuel ks p0 p :
  adv p0 p -> ks = range (p_next p0) (p_next p) -> (8 * mu p + 1 <= fuel)%nat ->
  wp (inLoop fuel (map placeholder ks))
     (fun phs p' => adv p0 p' /\ p_next p0 < p_next p'
        /\ phs = map placeholder (range (p_next p0) (p_next p'))) p.
Proof.
  revert ks p. induction fuel as [|f IH]; intros ks p A0 Hks Hf; [lia|]. simpl. adv_facts.
  w_get. apply wp_bind.
  assert (Hlit : forall v, typ (p_cur p) <> tokEOF ->
    wp (ph ← addArg v; bump;; mret (map placeholder ks ++ [ph]))
       (fun phs' p' => adv p p' /\ p_next p' = p_next p + 1 /\ (mu p' < mu p)%nat
          /\ phs' = map placeholder (range (p_next p0) (p_next p'))) p).
  { intros v Hne. w_arg p1. w_bump p2. apply wp_ret.
    split_and!; [adv_chain|congruence|lia|].
    replace (p_next p2) with (p_next p + 1) by lia.
    rewrite <- range_snoc by lia. rewrite map_app. by subst ks. }
  assert (Hrest : forall phs' p', adv p p' /\ p_next p' = p_next p + 1 /\ (mu p' < mu p)%nat
          /\ phs' = map placeholder (range (p_next p0) (p_next p')) ->
    wp (sep ← mget p_cur; if decide (typ sep = tokComma) then bump;; inLoop f phs' else mret phs')
      (fun phs p' => adv p0 p' /\ p_next p0 < p_next p'
        /\ phs = map placeholder (range (p_next p0) (p_next p'))) p').
  { intros phs' p' (A1 & N1 & M1 & ->). adv_facts. w_get. destruct (decide _) as [Hc|].
    - w_bump p2. apply IH; [adv_chain|congruence|lia].
    - apply wp_ret. split_and!; [adv_chain|lia|done]. }
  destruct (typ (p_cur p)) eqn:Ht; try apply wp_fail.
  - eapply wp_mono; [by apply Hlit|apply Hrest].
  - destruct (ParseFloat _); [|apply wp_fail]. eapply wp_mono; [by apply Hlit|apply Hrest].
Qed.

Lemma pred_ok_one e p p' :
  pred_safe d_allowed e -> pred_args e = [p_next p] -> p_next p' = p_next p + 1 ->
  pred_ok d_allowed e (p_next p) (p_next p').
Proof. intros ? ? ->. split; [done|]. by rewrite range_one. Qed.

(** A parser positioned on the operator that follows an allowed property name. *)
Definition after_property (p0 p : parser) (prop : string) : Prop :=
  adv p0 p /\ p_next p = p_next p0 /\ prop ∈ d_allowed.

Lemma wp_like p0 p prop neg ci :
  after_property p0 p prop -> typ (p_cur p) <> tokEOF ->
  wp (parseLike prop neg ci) (predP p0) p.
Proof.
  intros (A0 & N0 & Hin) Hne. adv_facts. unfold parseLike. w_bump p1. w_get.
  destruct (typ (p_cur p1)) eqn:Hl; try apply wp_fail.
  w_arg p2. w_bump p3. apply wp_ret. split; [adv_chain|].
  exists (PLike neg ci prop (p_next p0)). split; [apply pred_ok_one; simpl; auto; congruence|].
  replace (p_next p1) with (p_next p0) by lia. by destruct neg.
Qed.

Lemma wp_isNull p0 p prop :
  after_property p0 p prop -> typ (p_cur p) <> tokEOF -> wp (parseIsNull prop) (predP p0) p.
Proof.
  intros (A0 & N0 & Hin) Hne. adv_facts. unfold parseIsNull. w_bump p1. w_get. simpl.
  assert (Hnull : forall q neg, adv p0 q -> p_next q = p_next p0 ->
    wp (nl ← mget p_cur;
        match typ nl with
        | tokNull => bump;; mret (if neg : bool then QuoteIdent prop +:+ " IS NOT NULL"
                                  else QuoteIdent prop +:+ " IS NULL")
        | _ => mfail (ErrExpectedNull (pos nl))
        end) (predP p0) q).
  { intros q neg Aq Nq. adv_facts. w_get. destruct (typ (p_cur q)) eqn:Hq; try apply wp_fail.
    w_bump q'. apply wp_ret. split; [adv_chain|]. exists (PIsNull neg prop).
    split; [|by destruct neg]. split; [done|]. simpl.
    replace (p_next q') with (p_next p0) by lia. by rewrite range_nil. }
  case_bool_decide as Hn.
  - w_bump p2. apply (Hnull p2 true); [adv_chain|congruence].
  - apply wp_bind, wp_ret, (Hnull p1 false); [adv_chain|congruence].
Qed.

Lemma wp_in f p0 p prop neg :
  after_property p0 p prop -> typ (p_cur p) <> tokEOF -> (8 * mu p + 1 <= f)%nat ->
  wp (parseIn D f prop neg) (predP p0) p.
Proof.
  intros (A0 & N0 & Hin) Hne Hf. adv_facts. unfold parseIn. w_bump p1. w_expect p2. apply wp_bind.
  eapply wp_mono.
  { apply (wp_inLoop f [] p0); [adv_chain| |lia].
    replace (p_next p2) with (p_next p0) by lia. by rewrite range_nil. }
  intros phs p3 (A3 & N3 & ->). adv_facts. w_expect p4. apply wp_ret. split; [adv_chain|].
  exists (PIn neg prop (range (p_next p0) (p_next p3))). split; [|by destruct neg].
  split; [|simpl; congruence]. simpl. split; [done|].
  intros Hnil%(f_equal length). unfold range in Hnil. rewrite length_seqZ in Hnil. simpl in Hnil. lia.
Qed.

Lemma wp_property_predicate f p0 p prop neg :
  after_property p0 p prop -> (8 * mu p + 2 <= f)%nat ->
  wp (parsePropertyPredicate D f prop neg) (predP p0) p.
Proof.
  intros Hap Hf. destruct (Hap) as (A0 & N0 & Hin). unfold parsePropertyPredicate. w_get.
  assert (Htl : wp (parseComparisonTail D f (QuoteIdent prop)) (predP p0) p).
  { apply wp_comparison_tail; [|done]. split; [done|].
    exists (ScProp prop). split; [by apply scalar_ok_nil|done]. }
  destruct (typ (p_cur p)) eqn:Hq; try exact Htl.
  - apply wp_like; [done|congruence].
  - apply wp_like; [done|congruence].
  - apply wp_in; [done|congruence|lia].
  - apply wp_isNull; [done|congruence].
Qed.

Lemma wp_comparison f p :
  wfP p -> (8 * mu p + 2 <= f)%nat -> wp (parseComparison D f) (predP p) p.
Proof.
  intros Hw Hf. unfold parseComparison. w_get.
  assert (Hdef : wp (left ← parseScalarExpr D f 0; parseComparisonTail D f left) (predP p) p).
  { apply wp_bind. eapply wp_mono; [by apply wp_scalar|]. intros left p1 HL.
    destruct (HL) as [A1 _]. adv_facts. apply wp_comparison_tail; [done|lia]. }
  destruct (typ (p_cur p)) eqn:Ht; try exact Hdef. clear Hdef.
  apply wp_bind. unfold assertAllowedProperty. destruct (decide _) as [Hin|]; [|apply wp_fail].
  apply wp_ret. w_bump p1. w_get. w_get. simpl.
  destruct (bool_decide _ && _) eqn:Hneg.
  - apply andb_true_iff in Hneg as [Hn%bool_decide_eq_true _].
    w_bump p2. apply wp_property_predicate; [|lia]. split_and!; [adv_chain|congruence|done].
  - apply wp_bind, wp_ret, wp_property_predicate; [by split_and!|lia].
Qed.

Lemma spatial_op_wf t : token_wf t -> typ t = tokSpatialOp -> ToLower (raw t) ∈ spatialNames.
Proof.
  unfold token_wf. intros H Ht. rewrite Ht in H.
  unfold spatialNames, spatialOps in *. simpl in *.
  rewrite !elem_of_cons in H. repeat destruct H as [->|H]; [..|by apply not_elem_of_nil in H];
    vm_compute; set_solver.
Qed.

Lemma wp_predicate f p :
  wfP p -> (8 * mu p + 2 <= f)%nat -> wp (parsePredicate D f) (predP p) p.
Proof.
  intros Hw Hf. unfold parsePredicate. w_get.
  destruct (typ (p_cur p)) eqn:Ht; try (by apply wp_comparison);
    (w_bump p1; w_expect p2; apply wp_bind;
     eapply wp_mono; [apply wp_geomExpr; [done|lia]|];
     intros g1s p3 (A3 & g1 & Hg1 & ->); adv_facts; w_expect p4; apply wp_bind;
     eapply wp_mono; [apply wp_geomExpr; [done|lia]|];
     intros g2s p5 (A5 & g2 & Hg2 & ->); adv_facts; w_expect p6);
    unfold geometry_ok in *.
  - apply wp_ret. split; [adv_chain|].
    exists (PSpatial (ToLower (raw (p_cur p))) g1 g2). split; [|done].
    split; [by apply spatial_op_wf; [apply Hw|]|]. simpl. rewrite Hg1, Hg2.
    replace (p_next p2) with (p_next p) by lia. replace (p_next p4) with (p_next p3) by lia.
    rewrite range_app by lia. congruence.
  - w_get. destruct (typ (p_cur p6)) eqn:Hd; try apply wp_fail.
    destruct (ParseFloat _); [|apply wp_fail]. w_arg p7. w_bump p8. w_expect p9.
    apply wp_ret. split; [adv_chain|].
    exists (PDWithin g1 g2 (p_next p5)). split; [|simpl; congruence]. split; [done|]. simpl.
    rewrite Hg1, Hg2. replace (p_next p2) with (p_next p) by lia.
    replace (p_next p4) with (p_next p3) by lia. rewrite app_assoc, range_app by lia.
    replace (p_next p9) with (p_next p5 + 1) by lia. apply range_snoc. lia.
Qed.

(** ** Boolean expressions *)

Definition bool_spec (k : nat) (parseF : nat -> P string) (fuel : nat) : Prop := forall p,
  wfP p -> (8 * mu p + k <= fuel)%nat -> wp (parseF fuel) (predP p) p.

Definition bool_loop_spec (loop : nat -> string -> P string) (fuel : nat) : Prop :=
  forall left p0 p, (8 * mu p + 1 <= fuel)%nat -> predP p0 left p ->
  wp (loop fuel left) (predP p0) p.

(** The loops of [parseOr] and [parseAnd] differ in the operand and the connective. *)
Lemma bool_loop_step (con : pred -> pred -> pred) (txt : string) (t : tokenType) operand loop fuel k :
  (k <= 8)%nat -> t <> tokEOF ->
  (forall l r, pred_sql D (con l r) = "(" +:+ pred_sql D l +:+ txt +:+ pred_sql D r +:+ ")") ->
  (forall l r, pred_args (con l r) = pred_args l ++ pred_args r) ->
  (forall l r, pred_safe d_allowed (con l r) <-> pred_safe d_allowed l /\ pred_safe d_allowed r) ->
  bool_spec k operand fuel -> bool_loop_spec loop fuel ->
  forall left p0 p, (8 * mu p + 1 <= S fuel)%nat -> predP p0 left p -> typ (p_cur p) = t ->
  wp (bump;; right ← operand fuel; loop fuel ("(" +:+ left +:+ txt +:+ right +:+ ")")) (predP p0) p.
Proof.
  intros Hk Ht Hsql Hargs Hsafe IHo IHl left p0 p Hf (A0 & el & [Hsl Hal] & ->) Hc. adv_facts.
  w_bump p1. apply wp_bind. eapply wp_mono; [apply IHo; [done|lia]|].
  intros right p2 (A2 & er & [Hsr Har] & ->). adv_facts.
  apply IHl; [lia|]. split; [adv_chain|]. exists (con el er). split; [|by rewrite Hsql].
  split; [by apply Hsafe|]. rewrite Hargs, Hal, Har. replace (p_next p1) with (p_next p) by lia.
  apply range_app; lia.
Qed.

Lemma bool_specs fuel :
  bool_spec 6 (parseOr D) fuel /\ bool_loop_spec (orLoop D) fuel
  /\ bool_spec 5 (parseAnd D) fuel /\ bool_loop_spec (andLoop D) fuel
  /\ bool_spec 4 (parseNot D) fuel /\ bool_spec 3 (parsePrimary D) fuel.
Proof.
  induction fuel as [|f (IHo & IHol & IHa & IHal & IHn & IHp)].
  { split_and!; intros ?; intros; lia. }
  split_and!.
  - intros p Hw Hf. simpl. apply wp_bind. eapply wp_mono; [apply IHa; [done|lia]|].
    intros left p1 HL. destruct (HL) as [A1 _]. adv_facts. apply IHol; [lia|done].
  - intros left p0 p Hf HL. simpl. w_get. destruct (typ (p_cur p)) eqn:Ht; try (by apply wp_ret).
    apply (bool_loop_step POr " OR " tokOr (parseAnd D) (orLoop D) f 5); done || lia.
  - intros p Hw Hf. simpl. apply wp_bind. eapply wp_mono; [apply IHn; [done|lia]|].
    intros left p1 HL. destruct (HL) as [A1 _]. adv_facts. apply IHal; [lia|done].
  - intros left p0 p Hf HL. simpl. w_get. destruct (typ (p_cur p)) eqn:Ht; try (by apply wp_ret).
    apply (bool_loop_step PAnd " AND " tokAnd (parseNot D) (andLoop D) f 4); done || lia.
  - intros p Hw Hf. simpl. w_get.
    assert (Hp : wp (parsePrimary D f) (predP p) p) by (apply IHp; [done|lia]).
    destruct (typ (p_cur p)) eqn:Ht; try exact Hp.
    w_bump p1. apply wp_bind. eapply wp_mono; [apply IHn; [done|lia]|].
    intros expr p2 (A2 & e & [Hs Ha] & ->). apply wp_ret. split; [adv_chain|].
    exists (PNot e). split; [|done]. split; [done|]. simpl. congruence.
  - intros p Hw Hf. simpl. w_get.
    assert (Hp : wp (parsePredicate D f) (predP p) p) by (apply wp_predicate; [done|lia]).
    destruct (typ (p_cur p)) eqn:Ht; try exact Hp.
    w_bump p1. apply wp_bind. eapply wp_mono; [apply IHo; [done|lia]|].
    intros inner p2 (A2 & e & [Hs Ha] & ->). adv_facts. w_expect p3. apply wp_ret.
    split; [adv_chain|]. exists (PParen e). split; [|done]. split; [done|]. simpl. congruence.
Qed.

(** ** The entry point *)

Lemma next_source l : l_s (next l).2 = l_s l.
Proof.
  pose proof (next_spec l) as H. simpl in H.
  destruct (l_rest (skipWS l)); [by rewrite H|]. destruct H as (k & -> & _). done.
Qed.

Lemma startParser_wf cql start :
  wfP (startParser cql start) /\ (mu (startParser cql start) <= String.length cql)%nat
  /\ p_args (startParser cql start) = [] /\ p_next (startParser cql start) = start
  /\ l_s (p_l (startParser cql start)) = cql.
Proof.
  pose proof (next_source (newLexer cql)) as S1. unfold startParser.
  destruct (next (newLexer cql)) as [c l1] eqn:H1.
  pose proof (next_source l1) as S2. destruct (next l1) as [k l2] eqn:H2.
  apply next_weight in H1 as [W1 L1], H2 as [W2 L2]. unfold mu, wfP. simpl in *.
  unfold newLexer, l_rest in L1; simpl in L1. split_and!; [done|done|unfold l_rest in *; lia|done|done|congruence].
Qed.

(** What every run of the compiler gives: never [NoFuel]; with a blank filter
    nothing; otherwise the text of a safe tree whose placeholders are numbered
    consecutively from the start index, one per argument. *)
Lemma runParser_spec cql start :
  match runParser D cql start with
  | Ok (sql, args, nextIndex) =>
      nextIndex = start + Z.of_nat (length args)
      /\ if isBlank cql then sql = "" /\ args = []
         else exists e, pred_ok d_allowed e start nextIndex /\ sql = pred_sql D e
  | Err _ => True
  | NoFuel => False
  end.
Proof.
  destruct (startParser_wf cql start) as (Hw & Hm & Ha & Hn & Hs).
  assert (Hwp : wp (parse D (parseFuel cql))
    (fun sql p' => adv (startParser cql start) p' /\
       if isBlank cql then sql = "" /\ p' = startParser cql start
       else exists e, pred_ok d_allowed e start (p_next p') /\ sql = pred_sql D e)
    (startParser cql start)).
  { unfold parse. w_get. rewrite Hs.
    destruct (isBlank cql); [apply wp_ret; split; [by apply adv_refl|done]|].
    apply wp_bind. eapply wp_mono.
    { apply (proj1 (bool_specs (parseFuel cql))); [done|unfold parseFuel; lia]. }
    intros sql p1 (A1 & e & He & ->). w_get. destruct (decide _); [|apply wp_fail].
    apply wp_ret. split; [done|]. exists e. by rewrite Hn in He. }
  unfold wp in Hwp. unfold runParser.
  destruct (parse D _ _) as [[sql p']|e|]; [|done|done].
  destruct Hwp as [[_ _ (new & Hargs & Hnext)] Hsql].
  rewrite Ha in Hargs. simpl in Hargs. rewrite Hn in Hnext. subst new. split; [done|].
  destruct (isBlank cql); [|done]. destruct Hsql as [-> ->]. done.
Qed.

End Correct.
