(* ===== verification/FilterSafety.v ===== *)
(** * The guarantees of the two filter compilers

    Termination, SQL safety and rejection of undeclared properties, for
    [Compile] and [CompileForDuckDB], and the lexical round trips. *)

From S2P Require Import Prelude SqlUtil GoNum FilterLexer FilterParser FilterPostGIS FilterDuckDB FilterSpec SqlScan FilterCorrect.

(** The normalized start index is positive. *)
Lemma start_index_nonneg (i : Z) : 0 <= (if i <=? 0 then 1 else i).
Proof. destruct (Z.leb_spec i 0); lia. Qed.

(** C1: the SQL that [Compile] returns is exactly the text of a tree built from
    allow-listed quoted properties, the geometry column, fixed operators and
    functions, and placeholders; the placeholders, from left to right, are
    [$start], [$start+1], ..., one for each bound argument, and the returned
    index is the next free one. Read by the lexical rules of SQL, that text has no
    open quote, its quoted identifiers are the allow-listed properties and the
    geometry column, it has no string literal but reference systems, its
    parameters are those placeholders, and the rest are bytes of the compiler's
    own vocabulary (no semicolon, quote or backslash): no text of the request
    reaches the SQL. *)
Theorem Compile_sql_safe cql opt sql args nextIndex :
  isBlank cql = false ->
  Compile cql opt = Ok (sql, args, nextIndex) ->
  let o := newParserOptions opt in
  nextIndex = StartParamIndex o + Z.of_nat (length args)
  /\ (exists e, sql = pred_sql (postgis o) e /\ pred_safe (AllowedProperties opt) e
       /\ pred_args e = range (StartParamIndex o) nextIndex)
  /\ (exists ps, sqlScan sql = Some ps
       /\ Forall (okPiece (AllowedProperties opt) (GeometryProperty o)) ps
       /\ params ps = prettys (range (StartParamIndex o) nextIndex)).
Proof.
  intros Hb H o. pose proof (runParser_spec (postgis o) cql (StartParamIndex o)) as Hs.
  unfold Compile in H. fold o in H. rewrite H, Hb in Hs.
  destruct Hs as [Hn (e & He & ->)]. split; [done|]. split.
  - destruct He as [Hsafe Hargs]. by exists e.
  - exact (pred_scan (postgis o) e _ _ (start_index_nonneg _) He).
Qed.

Lemma Compile_sql_safe_witness :
  let sql := "(" +:+ QuoteIdent "a" +:+ " = $1 OR " +:+ QuoteIdent "name" +:+ " IN ($2,$3))" in
  exists ps, sqlScan sql = Some ps
    /\ Forall (okPiece (AllowedProperties demoOptions) "geom") ps /\ params ps = prettys (range 1 4).
Proof.
  refine (proj2 (proj2 (Compile_sql_safe "a = 'x' OR name IN ('y','z')" demoOptions _
           [ArgString "x"; ArgString "y"; ArgString "z"] 4 _ _))); vm_compute; reflexivity.
Defined.

(** C30: both compilers terminate on every input and every options: the bound on
    the recursion is never reached, so they return SQL or a parse error. *)
Theorem Compile_terminates cql opt dopt :
  Compile cql opt <> NoFuel /\ CompileForDuckDB cql dopt <> NoFuel.
Proof.
  split; intros H.
  - pose proof (runParser_spec (postgis (newParserOptions opt)) cql
      (StartParamIndex (newParserOptions opt))) as Hs.
    unfold Compile in H. by rewrite H in Hs.
  - pose proof (runParser_spec (duckdb (newDuckDBParserOptions dopt)) cql
      (dk_StartParamIndex (newDuckDBParserOptions dopt))) as Hs.
    unfold CompileForDuckDB in H. by rewrite H in Hs.
Qed.

(** The same SQL safety for [CompileForDuckDB]; the reading of the text
    supposes that a geometry expression configured for the layer is itself such a
    fragment (no expression is). *)
Theorem CompileForDuckDB_sql_safe cql opt sql args nextIndex :
  isBlank cql = false ->
  CompileForDuckDB cql opt = Ok (sql, args, nextIndex) ->
  let o := newDuckDBParserOptions opt in
  nextIndex = dk_StartParamIndex o + Z.of_nat (length args)
  /\ (exists e, sql = pred_sql (duckdb o) e /\ pred_safe (dk_AllowedProperties opt) e
       /\ pred_args e = range (dk_StartParamIndex o) nextIndex)
  /\ (safeFrag (okPiece (dk_AllowedProperties opt) (dk_GeometryProperty o)) (dk_GeometryExpression opt) [] ->
      exists ps, sqlScan sql = Some ps
       /\ Forall (okPiece (dk_AllowedProperties opt) (dk_GeometryProperty o)) ps
       /\ params ps = prettys (range (dk_StartParamIndex o) nextIndex)).
Proof.
  intros Hb H o. pose proof (runParser_spec (duckdb o) cql (dk_StartParamIndex o)) as Hs.
  unfold CompileForDuckDB in H. fold o in H. rewrite H, Hb in Hs.
  destruct Hs as [Hn (e & He & ->)]. split; [done|]. split.
  - destruct He as [Hsafe Hargs]. by exists e.
  - intros Hexpr. pose proof (duckdb_safe o Hexpr) as HD.
    exact (pred_scan (duckdb o) e _ _ (start_index_nonneg _) He).
Qed.

Lemma CompileForDuckDB_sql_safe_witness :
  let sql := QuoteIdent "name" +:+ " LIKE $3" in
  exists ps, sqlScan sql = Some ps
    /\ Forall (okPiece (dk_AllowedProperties demoDuckDBOptions) "geom") ps /\ params ps = prettys (range 3 4).
Proof.
  refine (proj2 (proj2 (CompileForDuckDB_sql_safe "name like 'a%'" demoDuckDBOptions _ [ArgString "a%"] 4 _ _)) _);
    [vm_compute; reflexivity | vm_compute; reflexivity | apply sf_nil].
Defined.

(** Quoting and lexing are inverse: an identifier quoted by
    [sqlutil.QuoteIdent], or a literal quoted by [sqlutil.QuoteLiteral], is read
    back by the lexer as one token with the original bytes, whatever they are,
    when no further quote follows. *)
Theorem quote_lex_roundtrip name v tl :
  head_is dquote tl = false -> head_is squote tl = false ->
  next (newLexer (QuoteIdent name +:+ tl))
    = (mkToken tokIdent name 0,
       mkLexer (QuoteIdent name +:+ tl) (String.length (QuoteIdent name)))
  /\ next (newLexer (QuoteLiteral v +:+ tl))
    = (mkToken tokString v 0,
       mkLexer (QuoteLiteral v +:+ tl) (String.length (QuoteLiteral v))).
Proof.
  intros Hd Hs. split.
  - by rewrite (next_QuoteIdent _ name tl).
  - by rewrite (next_QuoteLiteral _ v tl).
Qed.

Lemma quote_lex_roundtrip_witness :
  next (newLexer (QuoteIdent (String dquote "; DROP") +:+ " = 1"))
    = (mkToken tokIdent (String dquote "; DROP") 0,
       mkLexer (QuoteIdent (String dquote "; DROP") +:+ " = 1") 10)
  /\ next (newLexer (QuoteLiteral "o'ne" +:+ " = 1"))
    = (mkToken tokString "o'ne" 0, mkLexer (QuoteLiteral "o'ne" +:+ " = 1") 7).
Proof. apply (quote_lex_roundtrip (String dquote "; DROP") "o'ne" " = 1"); reflexivity. Defined.

(** ** End-to-end behaviour on a symbolic literal *)

Section Verbatim.
Context (D : Dialect).

Lemma next_eq l tl :
  l_rest l = " = " +:+ QuoteLiteral tl ->
  exists l', next l = (mkToken tokEq "=" (S (l_i l)), l') /\ l_rest l' = " " +:+ QuoteLiteral tl.
Proof.
  intros Hr. unfold QuoteLiteral in *. rewrite !sapp_cons, !sapp_nil_l in *.
  exists (advance 2 l). split; [|by rewrite l_rest_advance, Hr].
  assert (Hs : skipWS l = advance 1 l) by (unfold skipWS; by rewrite Hr).
  unfold next. rewrite Hs, l_rest_advance, Hr, advance_add. simpl. by rewrite Nat.add_1_r.
Qed.

Lemma next_space_literal l v :
  l_rest l = " " +:+ QuoteLiteral v ->
  exists l', next l = (mkToken tokString v (S (l_i l)), l') /\ l_rest l' = "".
Proof.
  intros Hr.
  assert (Hs : skipWS l = advance 1 l).
  { unfold skipWS. rewrite Hr. unfold QuoteLiteral. by rewrite !sapp_cons, !sapp_nil_l. }
  assert (Hr1 : l_rest (advance 1 l) = QuoteLiteral v +:+ "").
  { by rewrite l_rest_advance, Hr, sapp_nil_r. }
  assert (Hn : next l = next (advance 1 l)).
  { unfold next at 1. rewrite Hs. unfold next at 1.
    rewrite (skipWS_id (advance 1 l)); [done|]. rewrite Hr1. unfold QuoteLiteral.
    by rewrite !sapp_cons, !sapp_nil_l. }
  rewrite Hn, (next_QuoteLiteral _ v "") by done. eexists. split.
  - do 2 f_equal. simpl. by rewrite Nat.add_1_r.
  - by rewrite l_rest_advance, Hr1, sdrop_app.
Qed.

Lemma isBlank_QuoteIdent name tl : isBlank (QuoteIdent name +:+ tl) = false.
Proof.
  unfold QuoteIdent. rewrite !sapp_cons, !sapp_nil_l.
  by destruct (_ +:+ _) as [|b [|c r]].
Qed.

Lemma parseScalarExpr_S f m :
  parseScalarExpr D (S f) m = (left ← parseScalarPrimary D f; scalarLoop D f m left).
Proof. done. Qed.

Lemma parseOr_S f : parseOr D (S f) = (left ← parseAnd D f; orLoop D f left).
Proof. done. Qed.

Lemma parseAnd_S f : parseAnd D (S f) = (left ← parseNot D f; andLoop D f left).
Proof. done. Qed.

Lemma parseNot_S f p : typ (p_cur p) = tokIdent -> parseNot D (S f) p = parsePrimary D f p.
Proof. intros H. simpl. unfold mbind, M_bind, mget. by rewrite H. Qed.

Lemma parsePrimary_S f p : typ (p_cur p) = tokIdent -> parsePrimary D (S f) p = parseComparison D f p.
Proof.
  intros H. simpl. unfold mbind, M_bind, mget. rewrite H.
  unfold parsePredicate, mbind, M_bind, mget. by rewrite H.
Qed.

Lemma loops_at_end f left p :
  typ (p_cur p) = tokEOF ->
  orLoop D (S f) left p = Ok (left, p) /\ andLoop D (S f) left p = Ok (left, p)
  /\ forall m, scalarLoop D (S f) m left p = Ok (left, p).
Proof. intros H. simpl. unfold mbind, M_bind, mget. by rewrite H. Qed.

Lemma parseScalar_string f m l v i pk args nx t' l' :
  next l = (t', l') -> typ pk = tokEOF ->
  parseScalarExpr D (S (S f)) m (mkParser l (mkToken tokString v i) pk args nx)
  = Ok (placeholder nx, mkParser l' pk t' (args ++ [ArgString v]) (nx + 1)).
Proof.
  intros Hn Hpk. rewrite parseScalarExpr_S. unfold mbind at 1, M_bind at 1.
  assert (Hp : parseScalarPrimary D (S f) (mkParser l (mkToken tokString v i) pk args nx)
    = Ok (placeholder nx, mkParser l' pk t' (args ++ [ArgString v]) (nx + 1))).
  { simpl. cbv beta iota zeta delta [mbind M_bind mget p_cur typ raw addArg bump p_l p_peek p_args p_next].
    by rewrite Hn. }
  rewrite Hp. by apply loops_at_end.
Qed.

Lemma parseComparisonTail_literal f left l v i j args nx t1 l1 t2 l2 :
  next l = (t1, l1) -> typ t1 = tokEOF -> next l1 = (t2, l2) ->
  parseComparisonTail D (S (S f)) left
    (mkParser l (mkToken tokEq "=" i) (mkToken tokString v j) args nx)
  = Ok (left +:+ " = " +:+ placeholder nx, mkParser l2 t1 t2 (args ++ [ArgString v]) (nx + 1)).
Proof.
  intros H1 Ht H2. unfold parseComparisonTail.
  cbv beta iota zeta delta [mbind M_bind mget p_cur p_peek typ raw].
  rewrite (bool_decide_eq_false_2 (tokEq = tokNot)) by done.
  cbv beta iota delta [andb bump p_l p_peek p_args p_next]. rewrite H1.
  by rewrite (parseScalar_string f 0 l1 v j t1 args nx t2 l2).
Qed.

Lemma parseComparison_literal f l name i j v k args nx l1 t2 l2 t3 l3 :
  name ∈ d_allowed -> next l = (mkToken tokString v k, l1) ->
  next l1 = (t2, l2) -> typ t2 = tokEOF -> next l2 = (t3, l3) ->
  parseComparison D (S (S f)) (mkParser l (mkToken tokIdent name i) (mkToken tokEq "=" j) args nx)
  = Ok (QuoteIdent name +:+ " = " +:+ placeholder nx,
        mkParser l3 t2 t3 (args ++ [ArgString v]) (nx + 1)).
Proof.
  intros Hin H1 H2 Ht H3. unfold parseComparison, assertAllowedProperty.
  cbv beta iota zeta delta [mbind M_bind mget p_cur typ raw].
  destruct (decide (name ∈ d_allowed)); [|done].
  cbv beta iota zeta delta [mret M_ret bump p_l p_peek p_args p_next]. rewrite H1.
  cbv beta iota zeta delta [p_cur p_peek typ raw].
  rewrite (bool_decide_eq_false_2 (tokEq = tokNot)) by done. cbv beta iota delta [andb].
  unfold parsePropertyPredicate. cbv beta iota zeta delta [mbind M_bind mget p_cur typ].
  by rewrite (parseComparisonTail_literal f (QuoteIdent name) l1 v j k args nx t2 l2 t3 l3).
Qed.

Lemma runParser_literal name v start :
  name ∈ d_allowed ->
  runParser D (QuoteIdent name +:+ " = " +:+ QuoteLiteral v) start
  = Ok (QuoteIdent name +:+ " = " +:+ placeholder start, [ArgString v], start + 1).
Proof.
  intros Hin. set (cql := QuoteIdent name +:+ " = " +:+ QuoteLiteral v).
  assert (H1 := next_QuoteIdent (newLexer cql) name (" = " +:+ QuoteLiteral v) eq_refl eq_refl).
  set (l1 := advance (String.length (QuoteIdent name)) (newLexer cql)) in H1.
  destruct (next_eq l1 v) as (l2 & H2 & R2).
  { subst l1. rewrite l_rest_advance. apply sdrop_app. }
  destruct (next_space_literal l2 v R2) as (l3 & H3 & R3). pose proof (next_end l3 R3) as H4.
  pose proof (next_source l1) as Hs2. rewrite H2 in Hs2. simpl in Hs2.
  unfold runParser, startParser. rewrite H1, H2.
  unfold parse, mget, mbind, M_bind. cbv beta iota delta [p_l]. rewrite Hs2.
  unfold cql at 1. rewrite isBlank_QuoteIdent.
  assert (exists f, parseFuel cql = S (S (S (S (S (S f)))))) as [f ->].
  { exists (8 * String.length cql + 2)%nat. unfold parseFuel. lia. }
  rewrite parseOr_S. unfold mbind, M_bind. rewrite parseAnd_S. unfold mbind, M_bind.
  rewrite parseNot_S, parsePrimary_S by done.
  erewrite parseComparison_literal by done.
  match goal with |- context [andLoop D (S ?g) ?x ?p] =>
    destruct (loops_at_end g x p eq_refl) as (_ & -> & _) end.
  match goal with |- context [orLoop D (S ?g) ?x ?p] =>
    destruct (loops_at_end g x p eq_refl) as (-> & _ & _) end.
  done.
Qed.

End Verbatim.

(** An equality filter on an allowed property compiles to one comparison
    with one placeholder, and the argument is the literal byte for byte, for
    every property name and every literal, quotes included. *)
Theorem Compile_literal_verbatim opt name v :
  name ∈ AllowedProperties opt ->
  let start := StartParamIndex (newParserOptions opt) in
  Compile (QuoteIdent name +:+ " = " +:+ QuoteLiteral v) opt
  = Ok (QuoteIdent name +:+ " = " +:+ placeholder start, [ArgString v], start + 1).
Proof. intros Hin start. by apply runParser_literal. Qed.

Lemma Compile_literal_verbatim_witness :
  Compile (QuoteIdent "name" +:+ " = " +:+ QuoteLiteral "x' OR 1=1 --") demoOptions
  = Ok (QuoteIdent "name" +:+ " = $1", [ArgString "x' OR 1=1 --"], 2).
Proof. apply (Compile_literal_verbatim demoOptions "name" "x' OR 1=1 --"). set_solver. Defined.

(** ** The token stream is finite *)

(** The lexer after [k] tokens. *)
Fixpoint after_tokens (k : nat) (l : lexer) : lexer :=
  match k with
  | O => l
  | S k' => after_tokens k' (next l).2
  end.

Lemma next_eof_rest l t l' : next l = (t, l') -> typ t = tokEOF -> l_rest l' = "".
Proof.
  intros Hn Ht. pose proof (next_spec l) as H. simpl in H.
  destruct (l_rest (skipWS l)) eqn:Hr; rewrite Hn in H; [by simplify_eq|].
  destruct H as (k & _ & _ & Hne & _). done.
Qed.

Lemma after_tokens_end k l :
  (String.length (l_rest l) <= k)%nat -> typ (next (after_tokens k l)).1 = tokEOF.
Proof.
  revert l. induction k as [|k IH]; intros l Hk.
  - simpl. rewrite next_end; [done|]. destruct (l_rest l); [done|simpl in Hk; lia].
  - simpl. destruct (next l) as [t l'] eqn:Hn. pose proof Hn as Hn'.
    apply next_weight in Hn as [_ Hw]. simpl. apply IH. unfold weight in Hw.
    destruct (decide (typ t = tokEOF)) as [Ht|]; [|lia].
    rewrite (next_eof_rest _ _ _ Hn' Ht). simpl. lia.
Qed.

(** The lexer is total and makes progress: every token other than the end
    of the input consumes input, operator and keyword tokens carry only their
    fixed spellings, and after at most [len(s)] tokens the lexer reports the
    end of the input. *)
Theorem lexer_progress s l :
  (let '(t, l') := next l in
   l_s l' = l_s l /\ token_wf t
   /\ (if decide (typ t = tokEOF) then l_rest l' = ""
       else (String.length (l_rest l') < String.length (l_rest l))%nat))
  /\ typ (next (after_tokens (String.length s) (newLexer s))).1 = tokEOF.
Proof.
  split; [|by apply after_tokens_end].
  pose proof (next_source l) as Hs. destruct (next l) as [t l'] eqn:Hn.
  pose proof Hn as Hn'. apply next_weight in Hn as [Hw Hlen]. unfold weight in Hlen.
  split_and!; [done|done|]. destruct (decide _); [by eapply next_eof_rest|lia].
Qed.

(** ** Where the code departs from its comments *)

(** A comparison whose left side starts with a property takes no arithmetic on
    that side, although the comment of [parseComparison] announces that "the
    generic scalar parser" continues from the identifier. *)
Lemma property_head_rejects_arithmetic :
  Compile "a + 1 > 2" demoOptions = Err (ErrExpectedComparison 2)
  /\ Compile "2 < a + 1" demoOptions
     = Ok ("$1 < (" +:+ QuoteIdent "a" +:+ " + $2)",
           [ArgFloat (S754_finite false 4503599627370496 (-51));
            ArgFloat (S754_finite false 4503599627370496 (-52))], 3).
Proof. split; vm_compute; reflexivity. Qed.

(** Inside a geometry literal an invalid byte is copied into the bound WKT, not
    rejected by the parser as the comment of the lexer says. *)
Lemma geometry_literal_accepts_invalid_token :
  Compile "INTERSECTS(geom, POINT(1 ; 2))" demoOptions
  = Ok ("ST_Intersects(" +:+ QuoteIdent "geom" +:+ ",ST_Transform($1::geometry,3857))",
        [ArgString "SRID=4326;POINT(1;2)"], 2).
Proof. vm_compute. reflexivity. Qed.
