(* ===== verification/LockStore.v ===== *)
(** * WFS feature locks ([internal/wfs/locking.go], [lock_identity.go], [runtime.go])

    The in-memory lock table with its quotas, the record of swept locks, and the
    persisted rows of [store_wfs_locks.go]. Every operation runs under the
    store's mutex, so it is a function of the state; it takes the reading [now]
    of the clock (nanoseconds), the identifier [uuid.New] gives, and whether the
    write to the database fails, as arguments.

    Lock keys are opaque strings that carry a source identity when they decode;
    the decoder ([decodeLockKey]: base64 and JSON) is a variable of the section,
    so every theorem holds for any decoder. *)

From S2P Require Import Prelude.

Definition second : Z := 1000000000.

Definition LockActionAll : string := "ALL".
Definition LockActionSome : string := "SOME".
Definition DefaultLockExpiry : Z := 300.

Record FeatureLock : Type := mkLock {
  LockID : string;
  WorkspaceID : string;
  FeatureIDs : gmap string (list string);
  ExpiresAt : Z;
  OwnerID : string;
  CreatedAt : Z
}.

Definition IsExpired (now : Z) (l : FeatureLock) : bool := ExpiresAt l <? now.

(** [WFSLockRecord] has the same fields as a lock; the table [wfs_locks] maps
    [lock_id] to its row. [None] is a memory-only store. *)
Record LockStore : Type := mkLockStore {
  locks : gmap string FeatureLock;
  expired : gmap string Z;
  maxExpirySec : Z;
  maxPerWorkspace : Z;
  maxPerPrincipal : Z;
  maxFeatures : Z;
  persisted : option (gmap string FeatureLock)
}.

(** Errors, by the code of the OWS exception or the reason. *)
Inductive lockErr : Type :=
| FeatureQuotaExceeded
| WorkspaceQuotaExceeded
| PrincipalQuotaExceeded
| CannotLockAll (n : nat)
| PersistFailed
| LockNotFound (lockID : string)
| OwnedByAnother
| InvalidParameterValue
| AuthorizationFailed
| LockHasExpired
| MissingParameterValue.

Definition NewLockStore (maxExpiry maxWorkspace maxPrincipal maxFeat : Z)
    (persistence : option (gmap string FeatureLock)) : LockStore :=
  mkLockStore ∅ ∅
    (if maxExpiry <=? 0 then 3600 else maxExpiry)
    (if maxWorkspace <=? 0 then 1000 else maxWorkspace)
    (if maxPrincipal <=? 0 then 100 else maxPrincipal)
    (if maxFeat <=? 0 then 10000 else maxFeat)
    persistence.

Definition with_locks (ls : LockStore) (m : gmap string FeatureLock) : LockStore :=
  mkLockStore m (expired ls) (maxExpirySec ls) (maxPerWorkspace ls) (maxPerPrincipal ls)
    (maxFeatures ls) (persisted ls).

Definition with_persisted (ls : LockStore) (m : option (gmap string FeatureLock)) : LockStore :=
  mkLockStore (locks ls) (expired ls) (maxExpirySec ls) (maxPerWorkspace ls) (maxPerPrincipal ls)
    (maxFeatures ls) m.

Definition restore_one (now : Z) (m : gmap string FeatureLock) (rec : FeatureLock)
    : gmap string FeatureLock :=
  if now <? ExpiresAt rec then <[LockID rec := rec]> m else m.

Definition restore (ls : LockStore) (now : Z) (records : list FeatureLock) : LockStore :=
  with_locks ls (foldl (restore_one now) (locks ls) records).

(** [ParseQName(name).LocalPart]: what follows the first colon. *)
Fixpoint after_colon (s : string) : option string :=
  match s with
  | EmptyString => None
  | String c s' => if Ascii.eqb c ":" then Some s' else after_colon s'
  end.

Definition LocalPart (name : string) : string :=
  match after_colon name with Some local => local | None => name end.

Record lockIdentity : Type := mkLockIdentity { Source : string; Name : string }.

Definition expiredRetention : Z := 3600 * second.

(** Removes expired locks and remembers their identifiers for an hour. *)
Definition cleanExpiredLocked (ls : LockStore) (now : Z) : LockStore :=
  let swept := filter (fun kv => IsExpired now kv.2 = true) (locks ls) in
  let marked := ((fun _ => now) <$> swept) ∪ expired ls in
  mkLockStore
    (filter (fun kv => IsExpired now kv.2 = false) (locks ls))
    (filter (fun kv => now - kv.2 <= expiredRetention) marked)
    (maxExpirySec ls) (maxPerWorkspace ls) (maxPerPrincipal ls) (maxFeatures ls) (persisted ls).

Definition CleanExpired (ls : LockStore) (now : Z) : LockStore := cleanExpiredLocked ls now.

Definition hasExpired (ls : LockStore) (lockID : string) : bool :=
  bool_decide (is_Some (expired ls !! lockID)).

Definition Expired (ls : LockStore) (lockID : string) : bool := hasExpired ls lockID.

Definition GetLock (ls : LockStore) (lockID : string) : option FeatureLock := locks ls !! lockID.

Definition rid (local fid : string) : string := local +:+ "." +:+ fid.

Definition totalFeatures (features : gmap string (list string)) : Z :=
  map_fold (fun _ ids n => n + Z.of_nat (length ids)) 0 features.

(** The two steps of the expiry of a new lock: the default, then the cap. *)
Definition clampExpiry (ls : LockStore) (expirySeconds : Z) : Z :=
  let e := if expirySeconds <=? 0 then DefaultLockExpiry else expirySeconds in
  if maxExpirySec ls <? e then maxExpirySec ls else e.

Section Locks.
Context (decodeLockKey : string -> option lockIdentity).

Definition lockDisplayName (key : string) : string :=
  match decodeLockKey key with
  | Some identity => LocalPart (Name identity)
  | None => LocalPart key
  end.

Definition sameLockTypeName (a b : string) : bool :=
  match decodeLockKey a, decodeLockKey b with
  | Some li, Some ri => String.eqb (Source li) (Source ri)
  | None, None => String.eqb (LocalPart a) (LocalPart b)
  | _, _ => true
  end.

(** The lock holds feature [fid] of a type that is the same as [typeName]. *)
Definition holds (l : FeatureLock) (typeName fid : string) : bool :=
  map_existsb (fun lockedTypeName ids =>
    sameLockTypeName lockedTypeName typeName && bool_decide (fid ∈ ids)) (FeatureIDs l).

Definition isFeatureLockedLocked (ls : LockStore) (now : Z) (workspaceID typeName fid : string) : bool :=
  map_existsb (fun _ l =>
    negb (IsExpired now l) && String.eqb (WorkspaceID l) workspaceID && holds l typeName fid) (locks ls).

Definition IsFeatureLocked (ls : LockStore) (now : Z) (workspaceID typeName fid : string) : bool :=
  isFeatureLockedLocked ls now workspaceID typeName fid.

(** The requested features that are already locked, as public identifiers. *)
Definition alreadyLockedIn (ls : LockStore) (now : Z) (workspaceID : string)
    (features : gmap string (list string)) : list string :=
  flat_map (fun kv =>
    map (rid (lockDisplayName kv.1))
      (List.filter (isFeatureLockedLocked ls now workspaceID kv.1) kv.2)) (map_to_list features).

(** Drops from the request what [alreadyLocked] names ([SOME]). *)
Definition dropLocked (alreadyLocked : list string) (features : gmap string (list string))
    : gmap string (list string) :=
  map_imap (fun typeName ids =>
    Some (List.filter (fun fid => negb (bool_decide (rid (lockDisplayName typeName) fid ∈ alreadyLocked))) ids))
    features.

Record acquireResult : Type := mkAcquireResult {
  granted : option FeatureLock;
  notLocked : list string;
  acquireErr : option lockErr
}.

Definition acquireFails (e : lockErr) : acquireResult := mkAcquireResult None [] (Some e).

(** The body of [AcquireLockOwnedContext] once the workspace's write gate is held. *)
Definition AcquireLockOwned (ls0 : LockStore) (now : Z) (lockID : string) (putFails : bool)
    (workspaceID : string) (features : gmap string (list string)) (expirySeconds : Z)
    (lockAction ownerID : string) : acquireResult * LockStore :=
  let ls := cleanExpiredLocked ls0 now in
  if maxFeatures ls <? totalFeatures features then (acquireFails FeatureQuotaExceeded, ls)
  else
    let inWorkspace := fun (_ : string) l => String.eqb (WorkspaceID l) workspaceID in
    let byOwner := fun (_ : string) l =>
      String.eqb (WorkspaceID l) workspaceID && String.eqb (OwnerID l) ownerID in
    if maxPerWorkspace ls <=? map_count inWorkspace (locks ls)
    then (acquireFails WorkspaceQuotaExceeded, ls)
    else if maxPerPrincipal ls <=? map_count byOwner (locks ls)
    then (acquireFails PrincipalQuotaExceeded, ls)
    else
      let alreadyLocked := alreadyLockedIn ls now workspaceID features in
      if String.eqb lockAction LockActionAll && negb (Nat.eqb (length alreadyLocked) 0)
      then (mkAcquireResult None alreadyLocked (Some (CannotLockAll (length alreadyLocked))), ls)
      else
        let features' :=
          if Nat.eqb (length alreadyLocked) 0 then features else dropLocked alreadyLocked features in
        let lock := mkLock lockID workspaceID features' (now + clampExpiry ls expirySeconds * second)
                      ownerID now in
        let ls' := with_locks ls (<[lockID := lock]> (locks ls)) in
        match persisted ls with
        | None => (mkAcquireResult (Some lock) alreadyLocked None, ls')
        | Some rows =>
            if putFails
            then (acquireFails PersistFailed, with_locks ls' (delete lockID (locks ls')))
            else (mkAcquireResult (Some lock) alreadyLocked None,
                  with_persisted ls' (Some (<[lockID := lock]> rows)))
        end.

(** Best effort: with [delFails] the row stays. *)
Definition deletePersistedLock (ls : LockStore) (lockID : string) (delFails : bool) : LockStore :=
  match persisted ls with
  | None => ls
  | Some rows => if delFails then ls else with_persisted ls (Some (delete lockID rows))
  end.

Definition ReleaseLockOwned (ls : LockStore) (lockID ownerID : string) (delFails : bool)
    : option lockErr * LockStore :=
  match locks ls !! lockID with
  | None => (Some (LockNotFound lockID), ls)
  | Some lock =>
      if negb (String.eqb (OwnerID lock) "") && negb (String.eqb (OwnerID lock) ownerID)
      then (Some OwnedByAnother, ls)
      else (None, deletePersistedLock (with_locks ls (delete lockID (locks ls))) lockID delFails)
  end.

Definition ReleaseLock (ls : LockStore) (lockID : string) (delFails : bool)
    : option lockErr * LockStore :=
  match locks ls !! lockID with
  | None => (Some (LockNotFound lockID), ls)
  | Some _ => (None, deletePersistedLock (with_locks ls (delete lockID (locks ls))) lockID delFails)
  end.

Definition ValidateLockOwner (ls : LockStore) (now : Z) (lockID workspaceID ownerID : string)
    : option lockErr :=
  match locks ls !! lockID with
  | None => Some InvalidParameterValue
  | Some lock =>
      if IsExpired now lock || negb (String.eqb (WorkspaceID lock) workspaceID)
      then Some InvalidParameterValue
      else if negb (String.eqb (OwnerID lock) "") && negb (String.eqb (OwnerID lock) ownerID)
      then Some AuthorizationFailed
      else None
  end.

Definition ValidateLock (ls : LockStore) (now : Z) (lockID workspaceID typeName fid : string)
    : option lockErr :=
  match locks ls !! lockID with
  | None => if hasExpired ls lockID then Some LockHasExpired else Some InvalidParameterValue
  | Some lock =>
      if IsExpired now lock then Some LockHasExpired
      else if negb (String.eqb (WorkspaceID lock) workspaceID) then Some InvalidParameterValue
      else
        match FeatureIDs lock !! typeName with
        | Some ids => if bool_decide (fid ∈ ids) then None else Some MissingParameterValue
        | None => Some MissingParameterValue
        end
  end.

(** An active lock of the workspace, other than the provided one, that holds one
    of the features. *)
Definition blocks (now : Z) (workspaceID typeName : string) (fids : list string)
    (providedLockId : string) (l : FeatureLock) : bool :=
  negb (IsExpired now l) && String.eqb (WorkspaceID l) workspaceID
  && negb (String.eqb (LockID l) providedLockId)
  && map_existsb (fun lockedTypeName ids =>
       sameLockTypeName lockedTypeName typeName
       && existsb (fun fid => bool_decide (fid ∈ fids)) ids) (FeatureIDs l).

Definition CheckFeatureLocks (ls : LockStore) (now : Z) (workspaceID typeName : string)
    (fids : list string) (providedLockId : string) : option lockErr :=
  match List.find (fun kv => blocks now workspaceID typeName fids providedLockId kv.2)
          (map_to_list (locks ls)) with
  | None => None
  | Some (_, holdingLock) =>
      if String.eqb providedLockId "" then Some MissingParameterValue
      else if negb (String.eqb providedLockId (LockID holdingLock)) then Some InvalidParameterValue
      else None
  end.

Definition CheckFeatureLock (ls : LockStore) (now : Z) (workspaceID typeName fid providedLockId : string)
    : option lockErr := CheckFeatureLocks ls now workspaceID typeName [fid] providedLockId.

Definition lockedFeatureIDs (features : gmap string (list string)) (typeName : string) : list string :=
  flat_map (fun kv => if sameLockTypeName kv.1 typeName then kv.2 else []) (map_to_list features).

End Locks.

Definition ClearWorkspace (ls : LockStore) (workspaceID : string) : LockStore :=
  with_locks ls (filter (fun kv => WorkspaceID kv.2 <> workspaceID) (locks ls)).

(** ** The runtime that owns the store ([runtime.go], [store_wfs_locks.go]) *)

(** [DELETE FROM wfs_locks WHERE expires_at <= ?]. *)
Definition DeleteExpiredWFSLocks (rows : gmap string FeatureLock) (now : Z) : gmap string FeatureLock :=
  filter (fun kv => now < ExpiresAt kv.2) rows.

(** [DELETE FROM wfs_locks WHERE workspace_id = ?]. *)
Definition DeleteWorkspaceWFSLocks (rows : gmap string FeatureLock) (workspaceID : string)
    : gmap string FeatureLock :=
  filter (fun kv => WorkspaceID kv.2 <> workspaceID) rows.

(** [SELECT ... FROM wfs_locks WHERE expires_at > ?]. *)
Definition ListWFSLocks (rows : gmap string FeatureLock) (now : Z) : list FeatureLock :=
  map snd (map_to_list (filter (fun kv => now < ExpiresAt kv.2) rows)).

(** One tick of the cleanup goroutine, which reads the clock twice; [delFails]
    as above. *)
Definition cleanupTick (ls : LockStore) (now1 now2 : Z) (delFails : bool) : LockStore :=
  let ls' := CleanExpired ls now1 in
  match persisted ls' with
  | Some rows => if delFails then ls' else with_persisted ls' (Some (DeleteExpiredWFSLocks rows now2))
  | None => ls'
  end.

(** [RuntimeState.ClearWorkspace], on locks. *)
Definition RuntimeClearWorkspace (ls : LockStore) (workspaceID : string) (delFails : bool) : LockStore :=
  let ls' := ClearWorkspace ls workspaceID in
  match persisted ls' with
  | Some rows =>
      if delFails then ls' else with_persisted ls' (Some (DeleteWorkspaceWFSLocks rows workspaceID))
  | None => ls'
  end.

(** [NewRuntimeState]: a new process over the persisted rows. *)
Definition NewRuntimeState (maxExpiry maxWorkspace maxPrincipal maxFeat : Z)
    (persistence : option (gmap string FeatureLock)) (now : Z) (listFails : bool) : LockStore :=
  let ls := NewLockStore maxExpiry maxWorkspace maxPrincipal maxFeat persistence in
  match persistence with
  | Some rows => if listFails then ls else restore ls now (ListWFSLocks rows now)
  | None => ls
  end.
