(* ===== verification/LockStoreCorrect.v ===== *)
(** * Invariants and contracts of the WFS lock store

    Mutual exclusion of locks, quotas, durability of grants and the exact
    conditions under which a mutation is refused, on every state the store can
    reach. *)

From S2P Require Import Prelude LockStore.

Section LockProps.
Context (decodeLockKey : string -> option lockIdentity).

Abbreviation same := (sameLockTypeName decodeLockKey).
Abbreviation locked := (isFeatureLockedLocked decodeLockKey).
Abbreviation display := (lockDisplayName decodeLockKey).

(** ** The abstract view: who holds which feature *)

(** [l] holds the feature [fid] under the key [t]. *)
Definition holdsAt (l : FeatureLock) (t fid : string) : Prop :=
  exists ids, FeatureIDs l !! t = Some ids /\ fid ∈ ids.

(** Two locks of one workspace hold a common feature of the same source. *)
Definition conflict (l1 l2 : FeatureLock) : Prop :=
  WorkspaceID l1 = WorkspaceID l2
  /\ exists t1 t2 fid, holdsAt l1 t1 fid /\ holdsAt l2 t2 fid /\ same t1 t2 = true.

Definition exclusive (now : Z) (ls : LockStore) : Prop :=
  forall id1 id2 l1 l2, id1 <> id2 ->
    locks ls !! id1 = Some l1 -> locks ls !! id2 = Some l2 ->
    IsExpired now l1 = false -> IsExpired now l2 = false -> ~ conflict l1 l2.

Definition inWorkspace (ws : string) (_ : string) (l : FeatureLock) : bool :=
  String.eqb (WorkspaceID l) ws.

Definition byOwner (ws owner : string) (_ : string) (l : FeatureLock) : bool :=
  String.eqb (WorkspaceID l) ws && String.eqb (OwnerID l) owner.

Record lockInv (now : Z) (ls : LockStore) : Prop := mkLockInv {
  inv_keyed : forall id l, locks ls !! id = Some l -> LockID l = id;
  inv_exclusive : exclusive now ls;
  inv_workspace_quota : forall ws, map_count (inWorkspace ws) (locks ls) <= maxPerWorkspace ls;
  inv_principal_quota : forall ws owner,
    map_count (byOwner ws owner) (locks ls) <= maxPerPrincipal ls;
  inv_durable : forall rows id l, persisted ls = Some rows ->
    locks ls !! id = Some l -> now < ExpiresAt l -> rows !! id = Some l;
  inv_rows_keyed : forall rows id l, persisted ls = Some rows ->
    rows !! id = Some l -> LockID l = id;
  inv_expiry : 0 < maxExpirySec ls
}.

(** ** Elementary facts *)

Lemma same_sym a b : same a b = same b a.
Proof.
  unfold sameLockTypeName. destruct (decodeLockKey a), (decodeLockKey b); try done;
    apply String.eqb_sym.
Qed.

Lemma holds_true l t fid :
  holds decodeLockKey l t fid = true <-> exists t', holdsAt l t' fid /\ same t' t = true.
Proof.
  unfold holds. rewrite map_existsb_true. unfold holdsAt. split.
  - intros (t' & ids & Hl & [Hs Hin%bool_decide_eq_true]%andb_true_iff). eauto 10.
  - intros (t' & (ids & Hl & Hin) & Hs). exists t', ids. split; [done|].
    by rewrite Hs, bool_decide_eq_true_2.
Qed.

Lemma locked_true ls now ws t fid :
  locked ls now ws t fid = true <->
  exists id l, locks ls !! id = Some l /\ IsExpired now l = false /\ WorkspaceID l = ws
    /\ exists t', holdsAt l t' fid /\ same t' t = true.
Proof.
  unfold isFeatureLockedLocked. rewrite map_existsb_true. split.
  - intros (id & l & Hl & [[He Hw%String.eqb_eq]%andb_true_iff Hh%holds_true]%andb_true_iff).
    apply negb_true_iff in He. eauto 10.
  - intros (id & l & Hl & He & <- & Hh). exists id, l. split; [done|].
    by rewrite He, String.eqb_refl, (proj2 (holds_true _ _ _) Hh).
Qed.

Lemma elem_alreadyLocked ls now ws features r :
  r ∈ alreadyLockedIn decodeLockKey ls now ws features <->
  exists t ids fid, features !! t = Some ids /\ fid ∈ ids
    /\ locked ls now ws t fid = true /\ r = rid (display t) fid.
Proof.
  unfold alreadyLockedIn. rewrite list_elem_of_In, in_flat_map. split.
  - intros ([t ids] & Hin & (fid & <- & [Hf Hl]%filter_In)%in_map_iff).
    rewrite <- list_elem_of_In, elem_of_map_to_list in Hin. rewrite <- list_elem_of_In in Hf.
    eauto 10.
  - intros (t & ids & fid & Ht & Hf & Hl & ->). exists (t, ids).
    rewrite <- list_elem_of_In, elem_of_map_to_list. split; [done|]. simpl.
    apply in_map, filter_In. by rewrite <- list_elem_of_In.
Qed.

Lemma lookup_dropLocked already features t ids' :
  dropLocked decodeLockKey already features !! t = Some ids' <->
  exists ids, features !! t = Some ids
    /\ ids' = List.filter (fun fid => negb (bool_decide (rid (display t) fid ∈ already))) ids.
Proof.
  unfold dropLocked. rewrite map_lookup_imap.
  destruct (features !! t) as [ids|]; simpl; split.
  - intros [= <-]. eauto.
  - intros (ids0 & [= <-] & ->). done.
  - done.
  - by intros (ids0 & ? & _).
Qed.

Lemma exclusive_mono now now' ls : now <= now' -> exclusive now ls -> exclusive now' ls.
Proof.
  unfold exclusive, IsExpired. intros Hn H id1 id2 l1 l2 Hne H1 H2 He1 He2.
  apply (H id1 id2 l1 l2 Hne H1 H2); apply Z.ltb_ge; apply Z.ltb_ge in He1, He2; lia.
Qed.

(** Removing locks, with the same limits and no lost rows, keeps the invariant. *)
Lemma lockInv_shrink now now' ls ls' :
  lockInv now ls -> now <= now' -> locks ls' ⊆ locks ls ->
  maxPerWorkspace ls' = maxPerWorkspace ls -> maxPerPrincipal ls' = maxPerPrincipal ls ->
  maxExpirySec ls' = maxExpirySec ls ->
  (forall rows', persisted ls' = Some rows' ->
     exists rows, persisted ls = Some rows
       /\ rows' ⊆ rows
       /\ forall id l, locks ls' !! id = Some l -> now' < ExpiresAt l ->
            rows !! id = Some l -> rows' !! id = Some l) ->
  lockInv now' ls'.
Proof.
  intros [Hk He Hw Hp Hd Hrk Hx] Hn Hsub Hmw Hmp Hme Hrows.
  assert (Hsome : forall id l, locks ls' !! id = Some l -> locks ls !! id = Some l)
    by (intros; by eapply lookup_weaken).
  split.
  - eauto.
  - apply (exclusive_mono now); [done|]. intros id1 id2 l1 l2 Hne H1 H2. eapply He; eauto.
  - intros ws. rewrite Hmw. etrans; [by apply map_count_mono|done].
  - intros ws owner. rewrite Hmp. etrans; [by apply map_count_mono|done].
  - intros rows' id l Hr Hl Hex. destruct (Hrows _ Hr) as (rows & Hr0 & _ & Hall).
    apply Hall; [done|done|]. eapply Hd; [done|by apply Hsome|lia].
  - intros rows' id l Hr Hl. destruct (Hrows _ Hr) as (rows & Hr0 & Hss & _).
    eapply Hrk; [done|by eapply lookup_weaken].
  - by rewrite Hme.
Qed.

Lemma clean_locks_lookup ls now id l :
  locks (cleanExpiredLocked ls now) !! id = Some l <->
  locks ls !! id = Some l /\ IsExpired now l = false.
Proof. simpl. by rewrite map_lookup_filter_Some. Qed.

Lemma clean_inv now now' ls : lockInv now ls -> now <= now' -> lockInv now' (cleanExpiredLocked ls now').
Proof.
  intros Hinv Hn. eapply lockInv_shrink; [done|done| |done|done|done|].
  - apply map_filter_subseteq.
  - intros rows Hr. exists rows. split_and!; eauto.
Qed.

(** ** Acquiring a lock *)

(** The store with the granted lock, in memory and in the table. *)
Definition grant (ls : LockStore) (lock : FeatureLock) : LockStore :=
  mkLockStore (<[LockID lock := lock]> (locks ls)) (expired ls) (maxExpirySec ls)
    (maxPerWorkspace ls) (maxPerPrincipal ls) (maxFeatures ls)
    (match persisted ls with
     | Some rows => Some (<[LockID lock := lock]> rows)
     | None => None
     end).

(** What the lock asks for once the features of others are removed. *)
Definition grantable (ls : LockStore) (now : Z) (ws : string) (features : gmap string (list string))
    : gmap string (list string) :=
  let already := alreadyLockedIn decodeLockKey ls now ws features in
  if Nat.eqb (length already) 0 then features else dropLocked decodeLockKey already features.

Lemma acquire_cases ls0 now lockID putFails ws features expiry action owner :
  locks ls0 !! lockID = None ->
  let ls := cleanExpiredLocked ls0 now in
  let already := alreadyLockedIn decodeLockKey ls now ws features in
  let '(r, ls') := AcquireLockOwned decodeLockKey ls0 now lockID putFails ws features expiry action owner in
  (granted r = None /\ acquireErr r <> None /\ ls' = ls)
  \/ (granted r = Some (mkLock lockID ws (grantable ls now ws features)
                          (now + clampExpiry ls expiry * second) owner now)
      /\ acquireErr r = None /\ notLocked r = already
      /\ ls' = grant ls (mkLock lockID ws (grantable ls now ws features)
                          (now + clampExpiry ls expiry * second) owner now)
      /\ totalFeatures features <= maxFeatures ls
      /\ map_count (inWorkspace ws) (locks ls) < maxPerWorkspace ls
      /\ map_count (byOwner ws owner) (locks ls) < maxPerPrincipal ls
      /\ (action = LockActionAll -> already = [])).
Proof.
  intros Hfresh ls already. unfold AcquireLockOwned. fold ls.
  destruct (_ <? totalFeatures features) eqn:Hq; [by left|].
  destruct (maxPerWorkspace ls <=? _) eqn:Hw; [by left|].
  destruct (maxPerPrincipal ls <=? _) eqn:Hp; [by left|]. fold already.
  apply Z.ltb_ge in Hq. apply Z.leb_gt in Hw, Hp.
  destruct (String.eqb action LockActionAll && _) eqn:Ha; [by left|].
  assert (Hall : action = LockActionAll -> already = []).
  { intros ->. rewrite String.eqb_refl in Ha. simpl in Ha. apply negb_false_iff in Ha.
    apply Nat.eqb_eq in Ha. by destruct already. }
  destruct (persisted ls) as [rows|] eqn:Hrows.
  - destruct putFails; [left|right].
    + split_and!; [done|done|]. unfold with_locks; simpl.
      rewrite delete_insert_id; [by subst ls|]. subst ls. simpl.
      apply map_lookup_filter_None. by left.
    + split_and!; try done. unfold grant. by rewrite Hrows.
  - right. split_and!; try done. unfold grant, with_locks. by rewrite Hrows.
Qed.

(** A grantable feature is not held by an active lock of the workspace. *)
Lemma grantable_free ls now ws features t ids fid :
  grantable ls now ws features !! t = Some ids -> fid ∈ ids -> locked ls now ws t fid = false.
Proof.
  unfold grantable. set (already := alreadyLockedIn _ _ _ _ _). intros Ht Hin.
  apply not_true_iff_false. intros Hl.
  assert (Hal : forall ids0, features !! t = Some ids0 -> fid ∈ ids0 -> rid (display t) fid ∈ already).
  { intros ids0 H0 Hin0. apply elem_alreadyLocked. eauto 10. }
  destruct (Nat.eqb_spec (length already) 0) as [Hz|].
  - specialize (Hal _ Ht Hin). apply nil_length_inv in Hz. rewrite Hz in Hal.
    by apply not_elem_of_nil in Hal.
  - apply lookup_dropLocked in Ht as (ids0 & H0 & ->).
    apply list_elem_of_In, filter_In in Hin as [Hin Hb].
    rewrite bool_decide_eq_true_2 in Hb; [done|]. apply (Hal ids0); [done|by apply list_elem_of_In].
Qed.

Lemma grant_exclusive now ls lock :
  exclusive now ls ->
  (forall id l, locks ls !! id = Some l -> IsExpired now l = false) ->
  locks ls !! LockID lock = None ->
  (forall t fid, holdsAt lock t fid -> locked ls now (WorkspaceID lock) t fid = false) ->
  exclusive now (grant ls lock).
Proof.
  intros He Hact Hfresh Hfree.
  assert (Hnc : forall id l, locks ls !! id = Some l -> ~ conflict lock l).
  { intros id l Hl (Hws & t1 & t2 & fid & H1 & H2 & Hs).
    specialize (Hfree _ _ H1). apply not_true_iff_false in Hfree. apply Hfree, locked_true.
    exists id, l. rewrite same_sym in Hs. eauto 10. }
  intros id1 id2 l1 l2 Hne. simpl. rewrite !lookup_insert.
  destruct (decide (LockID lock = id1)), (decide (LockID lock = id2)); subst; [done| | |].
  - intros [= <-] H2 _ _. eauto.
  - intros H1 [= <-] _ _ (Hws & t1 & t2 & fid & A & B & Hs).
    apply (Hnc _ _ H1). split; [done|]. exists t2, t1, fid. by rewrite same_sym.
  - intros H1 H2 A B. by apply (He id1 id2).
Qed.

Lemma acquire_inv now now' ls0 lockID putFails ws features expiry action owner :
  lockInv now ls0 -> now <= now' -> locks ls0 !! lockID = None ->
  lockInv now' (AcquireLockOwned decodeLockKey ls0 now' lockID putFails ws features expiry action owner).2.
Proof.
  intros Hinv Hn Hfresh.
  pose proof (acquire_cases ls0 now' lockID putFails ws features expiry action owner Hfresh) as H.
  pose proof (clean_inv now now' ls0 Hinv Hn) as Hc. cbv zeta in H.
  set (ls := cleanExpiredLocked ls0 now') in *.
  destruct (AcquireLockOwned _ _ _ _ _ _ _ _ _ _) as [r ls']. simpl.
  destruct H as [(_ & _ & ->)|(_ & _ & _ & -> & _ & Hw & Hp & _)]; [done|].
  set (lock := mkLock _ _ _ _ _ _).
  assert (Hf : locks ls !! LockID lock = None).
  { simpl. apply map_lookup_filter_None. by left. }
  destruct Hc as [Hk He Hqw Hqp Hd Hrk Hx]. split.
  - intros id l. simpl. rewrite lookup_insert. case_decide; [by intros [= <-]|apply Hk].
  - apply grant_exclusive; [done| |done|].
    + intros id l [_ H]%clean_locks_lookup. done.
    + intros t fid (ids & Ht & Hin). by apply (grantable_free ls now' ws features t ids fid).
  - intros ws'. cbn [grant locks maxPerWorkspace]. rewrite map_count_insert by done.
    specialize (Hqw ws'). change (inWorkspace ws' (LockID lock) lock) with (String.eqb ws ws').
    destruct (String.eqb_spec ws ws') as [<-|]; lia.
  - intros ws' owner'. cbn [grant locks maxPerPrincipal]. rewrite map_count_insert by done.
    specialize (Hqp ws' owner').
    change (byOwner ws' owner' (LockID lock) lock) with (String.eqb ws ws' && String.eqb owner owner').
    destruct (String.eqb_spec ws ws') as [<-|], (String.eqb_spec owner owner') as [<-|]; cbn [andb]; lia.
  - intros rows' id l. simpl. destruct (persisted ls0) as [rows|] eqn:Hr; [|done]. intros [= <-].
    rewrite !lookup_insert. case_decide; [done|]. by apply Hd.
  - intros rows' id l. simpl. destruct (persisted ls0) as [rows|] eqn:Hr; [|done]. intros [= <-].
    rewrite lookup_insert. case_decide; [intros [= <-]; simpl; congruence|by apply Hrk].
  - done.
Qed.

(** ** The other operations *)

Lemma delete_persisted_inv now ls lockID delFails :
  lockInv now ls ->
  lockInv now (deletePersistedLock (with_locks ls (delete lockID (locks ls))) lockID delFails).
Proof.
  intros Hinv. unfold deletePersistedLock. simpl.
  destruct (persisted ls) as [rows|] eqn:Hr; [destruct delFails|].
  - (eapply (lockInv_shrink now); [done|lia|apply delete_subseteq|done|done|done|]).
    simpl. intros rows' H'. exists rows'. split_and!; eauto.
  - (eapply (lockInv_shrink now); [done|lia|apply delete_subseteq|done|done|done|]).
    simpl. intros rows' [= <-]. exists rows. split_and!; [done|apply delete_subseteq|]. intros id l Hl _ Hid.
    rewrite lookup_delete in *. by case_decide.
  - (eapply (lockInv_shrink now); [done|lia|apply delete_subseteq|done|done|done|]).
    simpl. intros rows' H'. congruence.
Qed.

Lemma release_inv now ls lockID owner delFails :
  lockInv now ls ->
  lockInv now (ReleaseLockOwned ls lockID owner delFails).2
  /\ lockInv now (ReleaseLock ls lockID delFails).2.
Proof.
  intros Hinv. unfold ReleaseLockOwned, ReleaseLock.
  destruct (locks ls !! lockID) as [l|]; [|done].
  split; [|by apply delete_persisted_inv]. destruct (_ && _); [done|by apply delete_persisted_inv].
Qed.

Lemma tick_inv now now1 now2 ls delFails :
  lockInv now ls -> now <= now1 -> now1 <= now2 -> lockInv now2 (cleanupTick ls now1 now2 delFails).
Proof.
  intros Hinv Hn1 Hn2. unfold cleanupTick, CleanExpired.
  assert (Hs : locks (cleanExpiredLocked ls now1) ⊆ locks ls) by apply map_filter_subseteq.
  simpl. destruct (persisted ls) as [rows|] eqn:Hr; [destruct delFails|];
    (eapply (lockInv_shrink now); [done|lia|exact Hs|done|done|done|]); simpl.
  - intros rows' H'. exists rows'. split_and!; eauto.
  - intros rows' [= <-]. exists rows. split_and!; [done|apply map_filter_subseteq|]. intros id l _ Hx Hid.
    by apply map_lookup_filter_Some.
  - intros rows' H'. congruence.
Qed.

Lemma clear_inv now ls ws delFails :
  lockInv now ls -> lockInv now (RuntimeClearWorkspace ls ws delFails).
Proof.
  intros Hinv. unfold RuntimeClearWorkspace.
  assert (Hs : locks (ClearWorkspace ls ws) ⊆ locks ls) by apply map_filter_subseteq.
  simpl. destruct (persisted ls) as [rows|] eqn:Hr; [destruct delFails|];
    (eapply (lockInv_shrink now); [done|lia|exact Hs|done|done|done|]); simpl.
  - intros rows' H'. exists rows'. split_and!; eauto.
  - intros rows' [= <-]. exists rows. split_and!; [done|apply map_filter_subseteq|].
    intros id l [_ Hw]%map_lookup_filter_Some _ Hid.
    by apply map_lookup_filter_Some.
  - intros rows' H'. congruence.
Qed.

(** ** Reachable states *)

(** One operation of the runtime, under the store's mutex; the clock does not go
    back, and [uuid.New] gives an identifier that is not in use. *)
Inductive lockStep : Z * LockStore -> Z * LockStore -> Prop :=
| step_acquire now now' ls lockID putFails ws features expiry action owner :
    now <= now' -> locks ls !! lockID = None ->
    lockStep (now, ls)
      (now', (AcquireLockOwned decodeLockKey ls now' lockID putFails ws features expiry action owner).2)
| step_release_owned now ls lockID owner delFails :
    lockStep (now, ls) (now, (ReleaseLockOwned ls lockID owner delFails).2)
| step_release now ls lockID delFails :
    lockStep (now, ls) (now, (ReleaseLock ls lockID delFails).2)
| step_clean now now' ls :
    now <= now' -> lockStep (now, ls) (now', CleanExpired ls now')
| step_tick now now1 now2 ls delFails :
    now <= now1 -> now1 <= now2 -> lockStep (now, ls) (now2, cleanupTick ls now1 now2 delFails)
| step_clear now ls ws delFails :
    lockStep (now, ls) (now, RuntimeClearWorkspace ls ws delFails).

(** [lock_id] is the primary key of the table. *)
Definition keyedRows (persistence : option (gmap string FeatureLock)) : Prop :=
  forall rows id l, persistence = Some rows -> rows !! id = Some l -> LockID l = id.

(** A new process with the same configuration over the rows of the table, which it may
    fail to list. *)
Definition restarted (ls : LockStore) (now : Z) (listFails : bool) : LockStore :=
  NewRuntimeState (maxExpirySec ls) (maxPerWorkspace ls) (maxPerPrincipal ls) (maxFeatures ls) (persisted ls) now listFails.

(** Every row that has not expired is the row of a lock in memory. A row whose deletion
    failed, or that an earlier start failed to list, is not. *)
Definition rowsHeld (ls : LockStore) (now : Z) : Prop :=
  forall rows id l, persisted ls = Some rows -> rows !! id = Some l -> now < ExpiresAt l -> locks ls !! id = Some l.

(** A first process without locks in memory, the operations, and restarts. The flag is the
    history's: [true] once a restart has listed the row of a lock that was not held. *)
Inductive lockReachable : bool -> Z * LockStore -> Prop :=
| reach_start now me mw mp mf rows :
    keyedRows rows -> lockReachable false (now, NewLockStore me mw mp mf rows)
| reach_step b s s' : lockReachable b s -> lockStep s s' -> lockReachable b s'
| reach_restart b now now' ls :
    lockReachable b (now, ls) -> now <= now' -> rowsHeld ls now' -> lockReachable b (now', restarted ls now' false)
| reach_restart_stray b now now' ls :
    lockReachable b (now, ls) -> now <= now' -> lockReachable true (now', restarted ls now' false)
| reach_restart_empty b now now' ls :
    lockReachable b (now, ls) -> now <= now' -> lockReachable b (now', restarted ls now' true).

Lemma start_inv now me mw mp mf rows : keyedRows rows -> lockInv now (NewLockStore me mw mp mf rows).
Proof.
  intros Hk. split; simpl.
  - intros id l H. by rewrite lookup_empty in H.
  - intros id1 id2 l1 l2 _ H. simpl in H. by rewrite lookup_empty in H.
  - intros ws. unfold map_count. rewrite map_filter_empty, map_size_empty.
    destruct (mw <=? 0) eqn:E; [done|]. apply Z.leb_gt in E. lia.
  - intros ws owner. unfold map_count. rewrite map_filter_empty, map_size_empty.
    destruct (mp <=? 0) eqn:E; [done|]. apply Z.leb_gt in E. lia.
  - intros r id l _ H. by rewrite lookup_empty in H.
  - done.
  - destruct (me <=? 0) eqn:E; [done|]. by apply Z.leb_gt in E.
Qed.

Lemma step_inv s s' : lockInv s.1 s.2 -> lockStep s s' -> lockInv s'.1 s'.2.
Proof.
  intros Hinv Hst. destruct Hst; simpl in *.
  - by eapply acquire_inv.
  - by apply (release_inv _ _ _ owner).
  - by apply (release_inv _ _ _ "").
  - by eapply clean_inv.
  - by eapply tick_inv.
  - by apply clear_inv.
Qed.

Lemma restored_lookup now recs m id l :
  foldl (restore_one now) m recs !! id = Some l -> m !! id = Some l \/ l ∈ recs /\ LockID l = id /\ now < ExpiresAt l.
Proof.
  revert m. induction recs as [|x recs IH]; intros m; simpl; [by left|]. intros [H|(Hin & ? & ?)]%IH; [|right; split; [by right|done]].
  unfold restore_one in H. destruct (now <? ExpiresAt x) eqn:E; [|by left].
  apply lookup_insert_Some in H as [[<- <-]|[_ H]]; [right|by left]. split_and!; [left|done|by apply Z.ltb_lt].
Qed.

Lemma listed_row rows now l : l ∈ ListWFSLocks rows now -> exists id, rows !! id = Some l.
Proof.
  unfold ListWFSLocks. rewrite list_elem_of_In, in_map_iff. intros ([k l'] & <- & Hin).
  rewrite <- list_elem_of_In, elem_of_map_to_list in Hin. apply map_lookup_filter_Some in Hin as [Hk _]. by exists k.
Qed.

(** What a restart puts in memory comes from the rows. *)
Lemma restarted_row now ls now' id l :
  lockInv now ls -> locks (restarted ls now' false) !! id = Some l ->
  exists rows, persisted ls = Some rows /\ rows !! id = Some l /\ now' < ExpiresAt l.
Proof.
  intros Hinv H. unfold restarted, NewRuntimeState in H. destruct (persisted ls) as [rows|] eqn:Hp; [|by simpl in H; rewrite lookup_empty in H].
  simpl in H. apply restored_lookup in H as [H|(Hin & Hid & Hx)]; [by rewrite lookup_empty in H|].
  apply listed_row in Hin as [k Hk]. exists rows. split; [done|]. pose proof (inv_rows_keyed _ _ Hinv rows k l Hp Hk) as E. split; [congruence|done].
Qed.

Lemma defaulted_le (x d : Z) : 0 < d -> x <= (if x <=? 0 then d else x).
Proof. intros Hd. destruct (Z.leb_spec x 0); lia. Qed.

Lemma restart_inv now now' ls listFails :
  lockInv now ls -> now <= now' -> (listFails = false -> rowsHeld ls now') -> lockInv now' (restarted ls now' listFails).
Proof.
  intros Hinv Hn Hh. destruct listFails.
  { assert (restarted ls now' true = NewLockStore (maxExpirySec ls) (maxPerWorkspace ls) (maxPerPrincipal ls) (maxFeatures ls) (persisted ls)) as ->
      by (unfold restarted, NewRuntimeState; by destruct (persisted ls)).
    apply start_inv. intros rows id l. apply (inv_rows_keyed _ _ Hinv). }
  assert (Hsub : locks (restarted ls now' false) ⊆ locks ls).
  { apply map_subseteq_spec. intros id l H. apply (restarted_row now) in H as (rows & Hp & Hr & Hx); [|done]. by apply (Hh eq_refl rows). }
  pose proof Hinv as [Hk He Hw Hp Hd Hrk Hx]. assert (Hpers : persisted (restarted ls now' false) = persisted ls)
    by (unfold restarted, NewRuntimeState; by destruct (persisted ls)).
  assert (Hlim : maxPerWorkspace (restarted ls now' false) = (if maxPerWorkspace ls <=? 0 then 1000 else maxPerWorkspace ls)
    /\ maxPerPrincipal (restarted ls now' false) = (if maxPerPrincipal ls <=? 0 then 100 else maxPerPrincipal ls)
    /\ maxExpirySec (restarted ls now' false) = maxExpirySec ls).
  { unfold restarted, NewRuntimeState. destruct (persisted ls); simpl; by rewrite (proj2 (Z.leb_gt _ _) Hx). }
  destruct Hlim as (L1 & L2 & L3). split.
  - intros id l H. apply Hk. by eapply lookup_weaken.
  - apply (exclusive_mono now); [done|]. intros id1 id2 l1 l2 Hne H1 H2. eapply He; [done|by eapply lookup_weaken..].
  - intros ws. rewrite L1. etrans; [by apply map_count_mono|]. etrans; [apply Hw|by apply defaulted_le].
  - intros ws owner. rewrite L2. etrans; [by apply map_count_mono|]. etrans; [apply Hp|by apply defaulted_le].
  - intros rows id l Hr Hl _. apply (restarted_row now) in Hl as (rows' & Hp' & Hr' & _); [|done]. rewrite Hpers in Hr. congruence.
  - intros rows id l Hr. rewrite Hpers in Hr. by apply Hrk.
  - by rewrite L3.
Qed.

Lemma reachable_inv s : lockReachable false s -> lockInv s.1 s.2.
Proof.
  remember false as b eqn:Hb. induction 1 as [now me mw mp mf rows Hk|b s s' _ IH Hst|b now now' ls _ IH Hn Hh|b now now' ls _ _ _|b now now' ls _ IH Hn]; subst; [by apply start_inv|by eapply step_inv; eauto| |done|].
  - by apply (restart_inv now); [apply IH| |].
  - by apply (restart_inv now); [apply IH| |].
Qed.

End LockProps.
