(* ===== verification/LockTheorems.v ===== *)
(** * The guarantees of the WFS lock store

    Stated for every decoder of lock keys and every state that operations, failures of
    the database, the clock and restarts reach ([LockStoreCorrect.lockReachable]). *)

From S2P Require Import Prelude LockStore LockStoreCorrect.

(** ** A concrete history for the examples: two keys, one lock *)

Definition plainKeys : string -> option lockIdentity := fun _ => None.

Definition demoStore : LockStore := NewLockStore 0 0 0 0 (Some ∅).

Definition demoAcquire : acquireResult * LockStore :=
  AcquireLockOwned plainKeys demoStore 1000 "lock-1" false "ws" {["app:Roads" := ["7"; "8"]]} 60
    LockActionAll "apikey:k".

Lemma demo_reachable : lockReachable plainKeys false (1000, demoAcquire.2).
Proof.
  eapply reach_step; [apply (reach_start plainKeys 0 0 0 0 0 (Some ∅))|].
  - intros rows id l [= <-] H. by rewrite lookup_empty in H.
  - by apply (step_acquire plainKeys 0 1000 demoStore).
Qed.

(** C6: mutual exclusion. However the operations, the failures of the database, the
    clock and restarts of the process interleave, no feature of a workspace is held by two
    unexpired locks, unless a restart has listed the row of a lock that was no longer held
    (its deletion had failed, or an earlier start had failed to list it;
    [released_lock_returns] shows what happens then). *)
Theorem locks_mutually_exclusive decode now ls id1 id2 l1 l2 t1 t2 fid :
  lockReachable decode false (now, ls) -> id1 <> id2 ->
  locks ls !! id1 = Some l1 -> locks ls !! id2 = Some l2 ->
  IsExpired now l1 = false -> IsExpired now l2 = false ->
  WorkspaceID l1 = WorkspaceID l2 -> sameLockTypeName decode t1 t2 = true ->
  ~ (holdsAt l1 t1 fid /\ holdsAt l2 t2 fid).
Proof.
  intros Hr Hne H1 H2 E1 E2 Hw Hs [A B].
  apply (inv_exclusive _ _ _ (reachable_inv decode _ Hr) id1 id2 l1 l2 Hne H1 H2 E1 E2).
  split; [done|]. by exists t1, t2, fid.
Qed.

Definition demoLock : FeatureLock :=
  mkLock "lock-1" "ws" {["app:Roads" := ["7"; "8"]]} (1000 + 60 * second) "apikey:k" 1000.

(** After a restart another principal asks for "7" and "9" and is given "9". *)
Definition demoRestarted : LockStore := restarted demoAcquire.2 1500 false.

Definition demoAfter : acquireResult * LockStore :=
  AcquireLockOwned plainKeys demoRestarted 2000 "lock-2" false "ws" {["Roads" := ["7"; "9"]]} 60 LockActionSome "basic:u".

Definition demoSecond : FeatureLock :=
  mkLock "lock-2" "ws" {["Roads" := ["9"]]} (2000 + 60 * second) "basic:u" 2000.

Lemma demo_after_reachable : lockReachable plainKeys false (2000, demoAfter.2).
Proof.
  eapply (reach_step _ _ (1500, demoRestarted)); [|by apply (step_acquire plainKeys 1500 2000 demoRestarted)].
  apply (reach_restart _ _ 1000); [apply demo_reachable|lia|]. intros rows id l Hp Hr _.
  assert (E : persisted demoAcquire.2 = Some {["lock-1" := demoLock]}) by (vm_compute; reflexivity). rewrite E in Hp. injection Hp as <-.
  apply lookup_singleton_Some in Hr as [<- <-]. vm_compute. reflexivity.
Qed.

Lemma locks_mutually_exclusive_witness :
  locks demoAfter.2 !! "lock-1" = Some demoLock /\ locks demoAfter.2 !! "lock-2" = Some demoSecond
  /\ ~ (holdsAt demoLock "app:Roads" "7" /\ holdsAt demoSecond "Roads" "7").
Proof.
  split; [vm_compute; reflexivity|]. split; [vm_compute; reflexivity|].
  apply (locks_mutually_exclusive plainKeys 2000 demoAfter.2 "lock-1" "lock-2"); try (vm_compute; reflexivity).
  - apply demo_after_reachable.
  - discriminate.
Defined.

(** A release whose row could not be deleted: the feature is locked again by another
    principal, and after a restart both locks hold it. *)
Example released_lock_returns :
  let released := (ReleaseLockOwned demoAcquire.2 "lock-1" "apikey:k" true).2 in
  let again := AcquireLockOwned plainKeys released 2000 "lock-2" false "ws" {["app:Roads" := ["7"]]} 60 LockActionAll "basic:u" in
  let restart := restarted again.2 3000 false in
  acquireErr again.1 = None
  /\ map (fun kv => (kv.1, holds plainKeys kv.2 "app:Roads" "7" && negb (IsExpired 3000 kv.2))) (map_to_list (locks restart))
     = [("lock-1", true); ("lock-2", true)].
Proof. vm_compute. done. Qed.

(** Quotas. In every reachable state a workspace has at most
    [maxPerWorkspace] locks, and a principal at most [maxPerPrincipal] in it. *)
Theorem lock_quotas decode now ls ws owner :
  lockReachable decode false (now, ls) ->
  map_count (inWorkspace ws) (locks ls) <= maxPerWorkspace ls
  /\ map_count (byOwner ws owner) (locks ls) <= maxPerPrincipal ls.
Proof. intros Hr. by destruct (reachable_inv decode _ Hr) as [_ _ Hw Hp _ _ _]. Qed.

Lemma lock_quotas_witness :
  map_count (inWorkspace "ws") (locks demoAcquire.2) <= 1000
  /\ map_count (byOwner "ws" "apikey:k") (locks demoAcquire.2) <= 100.
Proof. apply (lock_quotas plainKeys 1000 demoAcquire.2 "ws" "apikey:k" demo_reachable). Defined.

(** ** Acquisition *)

Lemma clampExpiry_bounds ls expiry :
  0 < maxExpirySec ls -> 0 < clampExpiry ls expiry <= maxExpirySec ls.
Proof.
  intros H. unfold clampExpiry, DefaultLockExpiry.
  destruct (Z.leb_spec expiry 0);
  match goal with |- context [maxExpirySec ls <? ?e] => destruct (Z.ltb_spec (maxExpirySec ls) e) end; lia.
Qed.

(** C34: what [AcquireLockOwned] does on every branch. Either it fails, and the
    store is the old one without expired locks (a failed write to the database
    is rolled back); or it grants a lock that holds only requested features
    nobody else held, names every requested feature it leaves out, leaves out
    nothing under [ALL], and expires after a positive time within the limit. *)
Theorem acquire_contract decode ls0 now lockID putFails ws features expiry action owner :
  locks ls0 !! lockID = None -> 0 < maxExpirySec ls0 ->
  let ls := cleanExpiredLocked ls0 now in
  let '(r, ls') := AcquireLockOwned decode ls0 now lockID putFails ws features expiry action owner in
  match granted r with
  | None => acquireErr r <> None /\ ls' = ls
  | Some lock =>
      acquireErr r = None /\ locks ls' = <[lockID := lock]> (locks ls)
      /\ WorkspaceID lock = ws /\ OwnerID lock = owner
      /\ (forall t fid, holdsAt lock t fid ->
           exists ids, features !! t = Some ids /\ fid ∈ ids
             /\ isFeatureLockedLocked decode ls now ws t fid = false)
      /\ (forall t ids fid, features !! t = Some ids -> fid ∈ ids ->
           holdsAt lock t fid \/ rid (lockDisplayName decode t) fid ∈ notLocked r)
      /\ (action = LockActionAll -> FeatureIDs lock = features)
      /\ 0 < ExpiresAt lock - now <= maxExpirySec ls0 * second
  end.
Proof.
  intros Hfresh Hmax. pose proof (acquire_cases decode ls0 now lockID putFails ws features expiry
    action owner Hfresh) as H. cbv zeta in *. set (ls := cleanExpiredLocked ls0 now) in *.
  destruct (AcquireLockOwned _ _ _ _ _ _ _ _ _ _) as [r ls'].
  destruct H as [(-> & He & ->)|(-> & He & Hn & -> & _ & _ & _ & Hall)]; [done|].
  split_and!; try done.
  - intros t fid (ids & Ht & Hin). pose proof (grantable_free decode _ _ _ _ _ _ _ Ht Hin) as Hf.
    simpl in Ht. unfold grantable in Ht. destruct (Nat.eqb _ 0); [by eauto|].
    apply lookup_dropLocked in Ht as (ids0 & H0 & ->). exists ids0. split_and!; [done| |done].
    apply list_elem_of_In, filter_In in Hin as [Hin _]. by apply list_elem_of_In.
  - intros t ids fid Ht Hin. rewrite Hn. unfold holdsAt. simpl. unfold grantable.
    destruct (Nat.eqb _ 0); [left; eauto|].
    destruct (decide (rid (lockDisplayName decode t) fid ∈ alreadyLockedIn decode ls now ws features))
      as [|Hni]; [by right|left].
    eexists. split; [apply lookup_dropLocked; eauto|].
    apply list_elem_of_In, filter_In. rewrite bool_decide_eq_false_2 by done.
    split; [by apply list_elem_of_In|done].
  - intros Ha. simpl. unfold grantable. by rewrite (Hall Ha).
  - simpl. pose proof (clampExpiry_bounds ls expiry Hmax). unfold second. lia.
  - simpl. pose proof (clampExpiry_bounds ls expiry Hmax) as Hc.
    change (maxExpirySec ls) with (maxExpirySec ls0) in Hc. unfold second. lia.
Qed.

(** A second request with [SOME]: "7" is taken, "9" is granted. *)
Definition demoSome : acquireResult * LockStore :=
  AcquireLockOwned plainKeys demoAcquire.2 2000 "lock-2" false "ws" {["Roads" := ["7"; "9"]]} 60
    LockActionSome "basic:u".

Lemma acquire_contract_witness :
  notLocked demoSome.1 = ["Roads.7"]
  /\ match granted demoSome.1 with
     | None => acquireErr demoSome.1 <> None
     | Some lock => FeatureIDs lock = {["Roads" := ["9"]]} /\ acquireErr demoSome.1 = None
         /\ 0 < ExpiresAt lock - 2000 <= maxExpirySec demoAcquire.2 * second
     end.
Proof.
  split; [vm_compute; reflexivity|].
  assert (Hf : match granted demoSome.1 with
    | None => True | Some lock => FeatureIDs lock = {["Roads" := ["9"]]} end) by (vm_compute; reflexivity).
  pose proof (acquire_contract plainKeys demoAcquire.2 2000 "lock-2" false "ws"
    {["Roads" := ["7"; "9"]]} 60 LockActionSome "basic:u"
    ltac:(vm_compute; reflexivity) ltac:(vm_compute; reflexivity)) as H.
  unfold demoSome in *. destruct (AcquireLockOwned _ _ _ _ _ _ _ _ _ _) as [r ls'].
  cbn [fst snd] in *. destruct (granted r); [|exact (proj1 H)].
  destruct H as (A & _ & _ & _ & _ & _ & _ & B). exact (conj Hf (conj A B)).
Defined.

(** ** Enforcement *)

Lemma find_map_to_list {V} (f : string * V -> bool) (m : gmap string V) :
  match List.find f (map_to_list m) with
  | Some (k, v) => m !! k = Some v /\ f (k, v) = true
  | None => forall k v, m !! k = Some v -> f (k, v) = false
  end.
Proof.
  destruct (List.find f (map_to_list m)) as [[k v]|] eqn:Hf.
  - apply find_some in Hf as [Hin Hf]. by rewrite <- list_elem_of_In, elem_of_map_to_list in Hin.
  - intros k v Hm. apply (find_none _ _ Hf). by rewrite <- list_elem_of_In, elem_of_map_to_list.
Qed.

Lemma blocks_true decode now ws t fids prov l :
  blocks decode now ws t fids prov l = true <->
  IsExpired now l = false /\ WorkspaceID l = ws /\ LockID l <> prov
  /\ exists fid, fid ∈ fids /\ holds decode l t fid = true.
Proof.
  unfold blocks. rewrite !andb_true_iff, !negb_true_iff, String.eqb_eq, String.eqb_neq,
    map_existsb_true. split.
  - intros [[[He Hw] Hp] (t' & ids & Hl & [Hs (fid & Hin & Hf%bool_decide_eq_true)%existsb_exists]%andb_true_iff)].
    split_and!; [done|done|done|]. exists fid. split; [done|]. apply holds_true.
    exists t'. split; [|done]. exists ids. split; [done|by apply list_elem_of_In].
  - intros (He & Hw & Hp & fid & Hf & (t' & (ids & Hl & Hin) & Hs)%holds_true).
    split_and!; [done|done|done|]. exists t', ids. split; [done|]. rewrite Hs. simpl.
    apply existsb_exists. exists fid. split; [by apply list_elem_of_In|by apply bool_decide_eq_true].
Qed.

(** [CheckFeatureLocks] admits a mutation exactly when no unexpired lock of
    the workspace, other than the one whose identifier was provided, holds one
    of the affected features; otherwise the error code tells a missing
    identifier from a wrong one. *)
Theorem CheckFeatureLocks_exact decode ls now ws t fids prov :
  let refused := exists id l fid, locks ls !! id = Some l /\ IsExpired now l = false
    /\ WorkspaceID l = ws /\ LockID l <> prov /\ fid ∈ fids /\ holds decode l t fid = true in
  (CheckFeatureLocks decode ls now ws t fids prov = None <-> ~ refused)
  /\ (CheckFeatureLocks decode ls now ws t fids prov
        = Some (if String.eqb prov "" then MissingParameterValue else InvalidParameterValue) <-> refused).
Proof.
  intros refused. unfold CheckFeatureLocks.
  pose proof (find_map_to_list (fun kv => blocks decode now ws t fids prov kv.2) (locks ls)) as H.
  destruct (List.find _ _) as [[id l]|].
  - destruct H as [Hl Hb%blocks_true]. simpl in Hb. destruct Hb as (He & Hw & Hp & fid & Hf & Hh).
    assert (Hr : refused) by (exists id, l, fid; done).
    destruct (String.eqb prov "") eqn:E; [split; split; done|].
    destruct (String.eqb_spec prov (LockID l)); [congruence|]. simpl. split; split; done.
  - assert (Hr : ~ refused).
    { intros (id & l & fid & Hl & He & Hw & Hp & Hf & Hh). specialize (H id l Hl). simpl in H.
      apply not_true_iff_false in H. apply H, blocks_true. eauto 10. }
    split; split; done.
Qed.

(** Only its owner releases an owned lock, and a release removes that lock
    and nothing else: any other identity gets [OwnedByAnother] and the store is
    unchanged. *)
Theorem ReleaseLockOwned_ownership ls lockID owner delFails lock :
  locks ls !! lockID = Some lock ->
  let '(err, ls') := ReleaseLockOwned ls lockID owner delFails in
  if decide (OwnerID lock <> "" /\ OwnerID lock <> owner)
  then err = Some OwnedByAnother /\ ls' = ls
  else err = None /\ locks ls' = delete lockID (locks ls) /\ expired ls' = expired ls.
Proof.
  intros Hl. unfold ReleaseLockOwned. rewrite Hl.
  destruct (String.eqb_spec (OwnerID lock) "") as [E|E], (String.eqb_spec (OwnerID lock) owner) as [F|F];
    simpl; destruct (decide _) as [[A B]|A]; try done; try (exfalso; tauto);
    unfold deletePersistedLock; simpl; by destruct (persisted ls); [destruct delFails|].
Qed.

Lemma ReleaseLockOwned_ownership_witness :
  (ReleaseLockOwned demoAcquire.2 "lock-1" "basic:u" false).1 = Some OwnedByAnother.
Proof.
  pose proof (ReleaseLockOwned_ownership demoAcquire.2 "lock-1" "basic:u" false demoLock
    ltac:(vm_compute; reflexivity)) as H.
  destruct (ReleaseLockOwned _ _ _ _) as [err ls']. simpl.
  rewrite decide_True in H by (split; vm_compute; discriminate). apply H.
Defined.

(** ** Restart *)

Lemma foldl_restore now id l recs m :
  now < ExpiresAt l -> LockID l = id ->
  (forall r, r ∈ recs -> LockID r = id -> r = l) ->
  m !! id = Some l \/ l ∈ recs ->
  foldl (restore_one now) m recs !! id = Some l.
Proof.
  intros Hx Hid. revert m. induction recs as [|r recs IH]; intros m Hu Hor; simpl.
  { destruct Hor as [|Hin]; [done|]. by apply not_elem_of_nil in Hin. }
  apply IH; [intros r' Hr'; apply Hu; by right|]. unfold restore_one.
  destruct (decide (LockID r = id)) as [Hr|Hr].
  - assert (r = l) as -> by (apply Hu; [left|done]). left.
    rewrite (proj2 (Z.ltb_lt _ _) Hx), Hid. apply lookup_insert_eq.
  - destruct Hor as [Hm|[->|Hin]%elem_of_cons]; [left|done|by right].
    destruct (now <? ExpiresAt r); [|done]. by rewrite lookup_insert_ne.
Qed.

(** A granted lock survives a restart. From any reachable state with
    persistence, a new process that starts later over the same table holds every
    lock that was held and has not expired by then. *)
Theorem restart_preserves_locks decode now ls rows id lock now' me mw mp mf :
  lockReachable decode false (now, ls) -> persisted ls = Some rows ->
  locks ls !! id = Some lock -> now <= now' -> now' < ExpiresAt lock ->
  locks (NewRuntimeState me mw mp mf (Some rows) now' false) !! id = Some lock.
Proof.
  intros Hr Hrows Hl Hn Hx. destruct (reachable_inv decode _ Hr) as [Hk _ _ _ Hd Hrk _]. simpl in *.
  assert (Hrow : rows !! id = Some lock) by (apply (Hd rows id lock Hrows Hl); lia).
  assert (Hin : forall r, r ∈ ListWFSLocks rows now' <-> rows !! LockID r = Some r /\ now' < ExpiresAt r).
  { intros r. unfold ListWFSLocks. rewrite list_elem_of_In, in_map_iff. split.
    - intros ([k r'] & <- & Hin). rewrite <- list_elem_of_In, elem_of_map_to_list in Hin.
      apply map_lookup_filter_Some in Hin as [Hk' Hx']. simpl in *. by rewrite (Hrk _ _ _ Hrows Hk').
    - intros [Hr' Hx']. exists (LockID r, r). split; [done|].
      rewrite <- list_elem_of_In, elem_of_map_to_list. by apply map_lookup_filter_Some. }
  unfold NewRuntimeState, restore. simpl. apply foldl_restore; [done|by apply Hk| |].
  - intros r [Hr' _]%Hin E. rewrite E in Hr'. congruence.
  - right. apply Hin. by rewrite (Hk id lock Hl).
Qed.

Lemma restart_preserves_locks_witness :
  locks (NewRuntimeState 0 0 0 0 (persisted demoAcquire.2) 5000 false) !! "lock-1" = Some demoLock.
Proof.
  assert (Hp : persisted demoAcquire.2 = Some {["lock-1" := demoLock]}) by (vm_compute; reflexivity).
  rewrite Hp. apply (restart_preserves_locks plainKeys 1000 demoAcquire.2 _ "lock-1" demoLock);
    [apply demo_reachable|exact Hp|vm_compute; reflexivity|lia|vm_compute; reflexivity].
Defined.

(** ** A limit of [SOME] *)

(** Keys that carry a source: the part before the bar, with the public name after it. *)
Definition barKeys (k : string) : option lockIdentity :=
  if String.eqb k "s1|a:Roads" then Some (mkLockIdentity "s1" "a:Roads")
  else if String.eqb k "s2|b:Roads" then Some (mkLockIdentity "s2" "b:Roads")
  else None.

(** The features to leave out are compared by their public identifier, which has
    no source: a free feature of another source with the same local type name
    and identifier is left out as well. *)
Lemma some_drops_free_homonym :
  let ls := (AcquireLockOwned barKeys demoStore 0 "lock-1" false "ws" {["s1|a:Roads" := ["1"]]} 60
               LockActionAll "u").2 in
  let r := (AcquireLockOwned barKeys ls 1 "lock-2" false "ws"
              {["s1|a:Roads" := ["1"]; "s2|b:Roads" := ["1"]]} 60 LockActionSome "v").1 in
  isFeatureLockedLocked barKeys ls 1 "ws" "s2|b:Roads" "1" = false
  /\ FeatureIDs <$> granted r = Some {["s1|a:Roads" := []; "s2|b:Roads" := []]}.
Proof. split; vm_compute; reflexivity. Qed.
