(* ===== verification/WriteGate.v ===== *)
(** * The per-workspace write gate ([internal/wfs/write_gate.go])

    [acquire] serializes lock grants and transactions of a workspace. Gates are
    heap objects: a goroutine keeps the pointer it obtained while the table
    [entries] may drop it, so pointers and the table are modelled apart. Every
    section under the mutex and every channel operation is one step of a
    goroutine; the steps of different goroutines interleave in any order. *)

From S2P Require Import Prelude.

(** A gate: whether the token is in the channel, and the reference count. *)
Record writeGate : Type := mkGate { token : bool; refs : Z }.

Record writeGates : Type := mkGates {
  entries : gmap string nat;
  heap : gmap nat writeGate;
  nextPtr : nat
}.

Definition noGates : writeGates := mkGates ∅ ∅ 0.

(** Where a goroutine is: between the first critical section and the [select];
    holding the token (the release function not yet called); about to run [drop]
    after the context was cancelled or the token was given back. *)
Inductive gatePc : Type :=
| Waiting (workspace : string) (e : nat)
| Holding (workspace : string) (e : nat)
| Dropping (workspace : string) (e : nat).

Definition pcPtr (p : gatePc) : nat :=
  match p with Waiting _ e | Holding _ e | Dropping _ e => e end.

Definition pcWorkspace (p : gatePc) : string :=
  match p with Waiting ws _ | Holding ws _ | Dropping ws _ => ws end.

(** The first critical section of [acquire]: find or create the gate, count the reference. *)
Definition acquireRef (g : writeGates) (workspace : string) : nat * writeGates :=
  let '(e, g1) :=
    match entries g !! workspace with
    | Some e => (e, g)
    | None =>
        let e := nextPtr g in
        (e, mkGates (<[workspace := e]> (entries g)) (<[e := mkGate true 0]> (heap g)) (S e))
    end in
  (e, mkGates (entries g1) (alter (fun x => mkGate (token x) (refs x + 1)) e (heap g1)) (nextPtr g1)).

(** [<-e.token]: [None] while the channel is empty. *)
Definition takeToken (g : writeGates) (e : nat) : option writeGates :=
  match heap g !! e with
  | Some (mkGate true n) => Some (mkGates (entries g) (<[e := mkGate false n]> (heap g)) (nextPtr g))
  | _ => None
  end.

(** [e.token <- struct{}{}]: [None] while the channel is full. *)
Definition putToken (g : writeGates) (e : nat) : option writeGates :=
  match heap g !! e with
  | Some (mkGate false n) => Some (mkGates (entries g) (<[e := mkGate true n]> (heap g)) (nextPtr g))
  | _ => None
  end.

(** [drop]: the table entry is deleted by its workspace. *)
Definition drop (g : writeGates) (workspace : string) (e : nat) : writeGates :=
  match heap g !! e with
  | Some (mkGate t n) =>
      mkGates (if n - 1 =? 0 then delete workspace (entries g) else entries g)
        (<[e := mkGate t (n - 1)]> (heap g)) (nextPtr g)
  | None => g
  end.

(** The gates with the goroutines that are inside [acquire] or hold a release function. *)
Definition gateState : Type := (writeGates * gmap string gatePc)%type.

(** [sync.Once] makes every call of a release function after the first one a
    no-op, so only the first is a step. *)
Inductive gateStep : gateState -> gateState -> Prop :=
| step_enter g thr r ws e g' :
    thr !! r = None -> acquireRef g ws = (e, g') ->
    gateStep (g, thr) (g', <[r := Waiting ws e]> thr)
| step_cancel g thr r ws e :
    thr !! r = Some (Waiting ws e) ->
    gateStep (g, thr) (g, <[r := Dropping ws e]> thr)
| step_take g thr r ws e g' :
    thr !! r = Some (Waiting ws e) -> takeToken g e = Some g' ->
    gateStep (g, thr) (g', <[r := Holding ws e]> thr)
| step_release g thr r ws e g' :
    thr !! r = Some (Holding ws e) -> putToken g e = Some g' ->
    gateStep (g, thr) (g', <[r := Dropping ws e]> thr)
| step_drop g thr r ws e :
    thr !! r = Some (Dropping ws e) ->
    gateStep (g, thr) (drop g ws e, delete r thr).

Inductive gateReachable : gateState -> Prop :=
| gate_start : gateReachable (noGates, ∅)
| gate_next s s' : gateReachable s -> gateStep s s' -> gateReachable s'.

(** ** The invariant *)

Definition uses (e : nat) (_ : string) (p : gatePc) : bool := Nat.eqb (pcPtr p) e.

Definition holdsPtr (e : nat) (_ : string) (p : gatePc) : bool :=
  match p with Holding _ e' => Nat.eqb e' e | _ => false end.

(** A gate in the table counts the goroutines that refer to it, is referred to,
    and its token is out exactly when one goroutine holds it. *)
Definition gateOk (thr : gmap string gatePc) (e : nat) (x : writeGate) : Prop :=
  refs x = map_count (uses e) thr /\ 0 < refs x
  /\ map_count (holdsPtr e) thr = if token x then 0 else 1.

Record gateInv (s : gateState) : Prop := mkGateInv {
  gi_ptr : forall ws p, s.2 !! ws = Some p -> entries s.1 !! pcWorkspace p = Some (pcPtr p);
  gi_inj : forall ws ws' e, entries s.1 !! ws = Some e -> entries s.1 !! ws' = Some e -> ws = ws';
  gi_ok : forall ws e, entries s.1 !! ws = Some e -> exists x, heap s.1 !! e = Some x /\ gateOk s.2 e x;
  gi_next : forall ws e, entries s.1 !! ws = Some e -> (e < nextPtr s.1)%nat
}.

Lemma gateInv_start : gateInv (noGates, ∅).
Proof. split; simpl; intros *; rewrite ?lookup_empty; done. Qed.

(** Pointers of other gates are not affected by a goroutine that moves at [e]. *)
Lemma gateOk_other thr r p p' e e' x :
  thr !! r = Some p -> pcPtr p = e -> pcPtr p' = e -> e' <> e ->
  gateOk thr e' x -> gateOk (<[r := p']> thr) e' x.
Proof.
  intros Hr Hp Hp' Hne (Hn & Hpos & Hh). unfold gateOk.
  assert (Hu : forall q, pcPtr q = e -> uses e' r q = false /\ holdsPtr e' r q = false).
  { intros q <-. unfold uses. split; [by apply Nat.eqb_neq|].
    destruct q; simpl in *; try done. by apply Nat.eqb_neq. }
  destruct (Hu p Hp) as [U1 H1], (Hu p' Hp') as [U2 H2].
  rewrite (map_count_update _ r p p' thr Hr), U1, U2, (map_count_update _ r p p' thr Hr), H1, H2.
  split_and!; [lia|lia|]. rewrite <- Hh. lia.
Qed.

(** A move of goroutine [r] from [p] to [p'] at the gate [e] it refers to, with
    the gate updated to [x'], keeps the invariant when the updated gate is fine. *)
Lemma gateInv_move g thr r p p' x' :
  gateInv (g, thr) -> thr !! r = Some p -> pcWorkspace p' = pcWorkspace p -> pcPtr p' = pcPtr p ->
  gateOk (<[r := p']> thr) (pcPtr p) x' ->
  gateInv (mkGates (entries g) (<[pcPtr p := x']> (heap g)) (nextPtr g), <[r := p']> thr).
Proof.
  intros [Hptr Hinj Hok Hnext] Hr Hw He Hx'. split; simpl in *; [|by auto| |by auto].
  - intros r' q [[<- <-]|[Hne Hq]]%lookup_insert_Some; [|by apply (Hptr r')].
    rewrite Hw, He. by apply (Hptr r).
  - intros ws e Hws. destruct (decide (e = pcPtr p)) as [->|Hne].
    + exists x'. by rewrite lookup_insert_eq.
    + destruct (Hok ws e Hws) as (x & Hx & Hxok). exists x. rewrite lookup_insert_ne by done.
      split; [done|]. by apply (gateOk_other thr r p p' (pcPtr p)).
Qed.

(** The gate a goroutine refers to, with its counts. *)
Lemma gateInv_at g thr r p :
  gateInv (g, thr) -> thr !! r = Some p -> exists x, heap g !! pcPtr p = Some x /\ gateOk thr (pcPtr p) x.
Proof. intros H Hr. apply (gi_ok _ H (pcWorkspace p)). by apply (gi_ptr _ H r). Qed.

Lemma uses_eq e r p : pcPtr p = e -> uses e r p = true.
Proof. intros <-. apply Nat.eqb_refl. Qed.

Lemma acquireRef_inv g thr r ws e g' :
  gateInv (g, thr) -> thr !! r = None -> acquireRef g ws = (e, g') ->
  gateInv (g', <[r := Waiting ws e]> thr).
Proof.
  intros [Hptr Hinj Hok Hnext] Hr Ha. unfold acquireRef in Ha. simpl in *.
  assert (Hcnt : forall e', map_count (uses e') (<[r:=Waiting ws e]> thr)
                  = map_count (uses e') thr + (if Nat.eqb e e' then 1 else 0)
                /\ map_count (holdsPtr e') (<[r:=Waiting ws e]> thr) = map_count (holdsPtr e') thr).
  { intros e'. rewrite !map_count_insert by done. unfold uses at 2. simpl. lia. }
  destruct (entries g !! ws) as [e0|] eqn:Hws; injection Ha as <- <-.
  - destruct (Hok ws e0 Hws) as (x0 & Hx0 & Hn0 & Hp0 & Hh0). split; simpl; [|by auto| |by auto].
    + intros r' q [[<- <-]|[Hne Hq]]%lookup_insert_Some; [done|by apply (Hptr r')].
    + intros ws' e' Hws'. destruct (Hcnt e') as [Hu Hh]. unfold gateOk. rewrite Hu, Hh.
      destruct (Nat.eqb_spec e0 e') as [<-|Hne].
      * exists (mkGate (token x0) (refs x0 + 1)). rewrite lookup_alter_eq, Hx0. simpl.
        split_and!; [done|lia|lia|done].
      * destruct (Hok ws' e' Hws') as (x & Hx & Hn & Hp & Hh'). exists x.
        rewrite lookup_alter_ne by done. split_and!; [done|lia|lia|done].
  - assert (Hfresh : forall ws' , entries g !! ws' <> Some (nextPtr g)).
    { intros ws' H. specialize (Hnext ws' _ H). lia. }
    assert (Hz : forall r' q, thr !! r' = Some q -> uses (nextPtr g) r' q = false).
    { intros r' q Hq. apply Nat.eqb_neq. intros E. apply (Hfresh (pcWorkspace q)).
      rewrite <- E. by apply (Hptr r'). }
    split; simpl.
    + intros r' q [[<- <-]|[Hne Hq]]%lookup_insert_Some; [by rewrite lookup_insert_eq|].
      pose proof (Hptr r' q Hq) as Hq'. rewrite lookup_insert_ne by congruence. done.
    + intros w w' e' [[<- <-]|[Hne Hw]]%lookup_insert_Some [[<- ?]|[Hne' Hw']]%lookup_insert_Some;
        simplify_eq; eauto; exfalso; by eapply Hfresh.
    + intros w e' Hw. destruct (Hcnt e') as [Hu Hh]. unfold gateOk. rewrite Hu, Hh.
      apply lookup_insert_Some in Hw as [[<- <-]|[Hne Hw]].
      * exists (mkGate true 1). rewrite lookup_alter_eq, lookup_insert_eq, Nat.eqb_refl.
        rewrite (map_count_zero _ _ Hz), (map_count_zero (holdsPtr (nextPtr g)) thr); [done|].
        intros r' q Hq. specialize (Hz r' q Hq). by destruct q.
      * destruct (Hok w e' Hw) as (x & Hx & Hn & Hp & Hh'). exists x.
        assert (e' <> nextPtr g) by (intros ->; by apply (Hfresh w)).
        rewrite lookup_alter_ne, lookup_insert_ne by done.
        rewrite (proj2 (Nat.eqb_neq _ _)) by done. split_and!; [done|lia|lia|done].
    + intros w e' [[<- <-]|[Hne Hw]]%lookup_insert_Some; [lia|]. specialize (Hnext w e' Hw). lia.
Qed.

Lemma drop_inv g thr r ws e :
  gateInv (g, thr) -> thr !! r = Some (Dropping ws e) -> gateInv (drop g ws e, delete r thr).
Proof.
  intros Hinv Hr. destruct (gateInv_at g thr r _ Hinv Hr) as ([t n] & Hx & Hn & Hp & Hh). simpl in *.
  destruct Hinv as [Hptr Hinj Hok Hnext]. simpl in *. pose proof (Hptr r _ Hr) as Hws. simpl in Hws.
  assert (Hcnt : forall e', map_count (uses e') (delete r thr)
                  = map_count (uses e') thr - (if Nat.eqb e e' then 1 else 0)
                /\ map_count (holdsPtr e') (delete r thr) = map_count (holdsPtr e') thr).
  { intros e'. rewrite !(map_count_delete _ r _ thr Hr). unfold uses at 2. simpl. lia. }
  unfold drop. rewrite Hx. destruct (Hcnt e) as [He _]. rewrite Nat.eqb_refl in He.
  assert (Hothers : forall r' q, delete r thr !! r' = Some q -> entries g !! pcWorkspace q = Some (pcPtr q)).
  { intros r' q [_ Hq]%lookup_delete_Some. by apply (Hptr r'). }
  assert (Hgates : forall w e', entries g !! w = Some e' -> e' <> e \/ n - 1 <> 0 ->
    exists x, <[e := mkGate t (n - 1)]> (heap g) !! e' = Some x /\ gateOk (delete r thr) e' x).
  { intros w e' Hw Hc. destruct (Hcnt e') as [Hu Hh']. unfold gateOk. rewrite Hu, Hh'.
    destruct (Nat.eqb_spec e e') as [<-|Hne].
    - exists (mkGate t (n - 1)). rewrite lookup_insert_eq. simpl. split_and!; [done|lia|lia|done].
    - destruct (Hok w e' Hw) as (x & Hx' & Hn' & Hp' & Hh''). exists x.
      rewrite lookup_insert_ne by done. split_and!; [done|lia|lia|done]. }
  destruct (Z.eqb_spec (n - 1) 0) as [Hz|Hz]; split; simpl.
  - intros r' q Hq. rewrite lookup_delete_ne; [by apply (Hothers r')|]. intros E.
    assert (1 <= map_count (uses e) (delete r thr)).
    { apply (map_count_pos _ r' q); [done|]. pose proof (Hothers r' q Hq) as Hq'.
      rewrite <- E, Hws in Hq'. injection Hq' as ->. by apply uses_eq. }
    lia.
  - intros w w' e' [_ Hw]%lookup_delete_Some [_ Hw']%lookup_delete_Some. eauto.
  - intros w e' [Hne Hw]%lookup_delete_Some. apply (Hgates w); [done|]. left. intros ->. eauto.
  - intros w e' [_ Hw]%lookup_delete_Some. eauto.
  - exact Hothers.
  - exact Hinj.
  - intros w e' Hw. apply (Hgates w); [done|by right].
  - exact Hnext.
Qed.

Lemma gateStep_inv s s' : gateInv s -> gateStep s s' -> gateInv s'.
Proof.
  intros Hinv Hs. destruct Hs as [g thr r ws e g' Hr Ha|g thr r ws e Hr|g thr r ws e g' Hr Ht|
    g thr r ws e g' Hr Ht|g thr r ws e Hr].
  - by eapply acquireRef_inv.
  - destruct (gateInv_at g thr r _ Hinv Hr) as (x & Hx & Hn & Hp & Hh). simpl in *.
    replace g with (mkGates (entries g) (<[e := x]> (heap g)) (nextPtr g))
      by (rewrite insert_id by done; by destruct g).
    apply (gateInv_move g thr r (Waiting ws e)); [done..|]. unfold gateOk.
    rewrite !(map_count_update _ r _ _ thr Hr), !uses_eq by done. simpl. split_and!; [lia|lia|rewrite <- Hh; lia].
  - destruct (gateInv_at g thr r _ Hinv Hr) as ([t n] & Hx & Hn & Hp & Hh). unfold takeToken in Ht.
    simpl in *. rewrite Hx in Ht. destruct t; [|done]. injection Ht as <-.
    apply (gateInv_move g thr r (Waiting ws e)); [done..|]. unfold gateOk.
    rewrite !(map_count_update _ r _ _ thr Hr), !uses_eq by done. simpl. rewrite Nat.eqb_refl. split_and!; lia.
  - destruct (gateInv_at g thr r _ Hinv Hr) as ([t n] & Hx & Hn & Hp & Hh). unfold putToken in Ht.
    simpl in *. rewrite Hx in Ht. destruct t; [done|]. injection Ht as <-.
    apply (gateInv_move g thr r (Holding ws e)); [done..|]. unfold gateOk.
    rewrite !(map_count_update _ r _ _ thr Hr), !uses_eq by done. simpl. rewrite Nat.eqb_refl. split_and!; lia.
  - by apply drop_inv.
Qed.

Lemma gateReachable_inv s : gateReachable s -> gateInv s.
Proof. induction 1; [apply gateInv_start|]. by eapply gateStep_inv. Qed.

(** ** Theorems *)

(** C28: the write gate is exclusive. In every interleaving of acquisitions,
    cancellations and releases, while one goroutine holds the gate of a
    workspace no other goroutine holds it, also when the gate was dropped from
    the table and created again in between. *)
Theorem write_gate_exclusive g thr r1 r2 ws e1 e2 :
  gateReachable (g, thr) -> thr !! r1 = Some (Holding ws e1) -> r1 <> r2 ->
  thr !! r2 <> Some (Holding ws e2).
Proof.
  intros Hr%gateReachable_inv H1 Hne H2. apply Hne.
  assert (e2 = e1) as ->.
  { pose proof (gi_ptr _ Hr r1 _ H1) as A. pose proof (gi_ptr _ Hr r2 _ H2) as B. simpl in *. congruence. }
  destruct (gateInv_at g thr r1 _ Hr H1) as (x & _ & _ & _ & Hc). simpl in Hc.
  apply (map_count_unique (holdsPtr e1) r1 (Holding ws e1) r2 (Holding ws e1) thr);
    [destruct (token x); lia|done|apply Nat.eqb_refl|done|apply Nat.eqb_refl].
Qed.

(** A run: "a" takes the gate of "ws", "b" waits for it. *)
Definition demoGates : gateState :=
  let '(e1, g1) := acquireRef noGates "ws" in
  let '(e2, g2) := acquireRef g1 "ws" in
  match takeToken g2 e1 with
  | Some g3 => (g3, <["a" := Holding "ws" e1]> (<["b" := Waiting "ws" e2]> {["a" := Waiting "ws" e1]}))
  | None => (g2, ∅)
  end.

Lemma demoGates_reachable : gateReachable demoGates.
Proof.
  eapply gate_next; [eapply gate_next; [eapply gate_next; [apply gate_start|]|]|].
  - apply (step_enter _ ∅ "a" "ws"); [done|reflexivity].
  - apply (step_enter _ _ "b" "ws"); [done|reflexivity].
  - apply (step_take _ _ "a" "ws" 0%nat); reflexivity.
Qed.

Lemma write_gate_exclusive_witness :
  demoGates.2 !! "a" = Some (Holding "ws" 0%nat) /\ demoGates.2 !! "b" <> Some (Holding "ws" 0%nat).
Proof.
  split; [vm_compute; reflexivity|].
  apply (write_gate_exclusive demoGates.1 demoGates.2 "a" "b" "ws" 0%nat 0%nat).
  - exact demoGates_reachable.
  - vm_compute. reflexivity.
  - discriminate.
Defined.

(** The write gate neither blocks for nothing nor leaks. The table has an
    entry exactly for the workspaces some goroutine waits for, holds or is
    leaving; a waiting goroutine can take the token unless a goroutine of the
    same workspace holds it; and giving the token back never blocks. *)
Theorem write_gate_live g thr :
  gateReachable (g, thr) ->
  (forall ws, is_Some (entries g !! ws) <-> exists r p, thr !! r = Some p /\ pcWorkspace p = ws)
  /\ (forall r ws e, thr !! r = Some (Waiting ws e) ->
       is_Some (takeToken g e) \/ exists r' e', thr !! r' = Some (Holding ws e'))
  /\ (forall r ws e, thr !! r = Some (Holding ws e) -> is_Some (putToken g e)).
Proof.
  intros Hr%gateReachable_inv. split_and!.
  - intros ws. split.
    + intros [e He]. destruct (gi_ok _ Hr ws e He) as (x & _ & Hn & Hp & _). simpl in *.
      destruct (map_count_pos_inv (uses e) thr) as (r & p & Hp' & Hu%Nat.eqb_eq); [lia|].
      exists r, p. split; [done|]. apply (gi_inj _ Hr _ _ e); [|done]. simpl.
      rewrite <- Hu. by apply (gi_ptr _ Hr r).
    + intros (r & p & Hp & <-). eexists. by apply (gi_ptr _ Hr r).
  - intros r ws e H. destruct (gateInv_at g thr r _ Hr H) as ([t n] & Hx & _ & _ & Hc).
    unfold takeToken. simpl in *. rewrite Hx. destruct t; [by left; eexists|right].
    destruct (map_count_pos_inv (holdsPtr e) thr) as (r' & p & Hp & Hu); [lia|].
    destruct p as [|ws' e'|]; [done| |done]. simpl in Hu. apply Nat.eqb_eq in Hu as ->.
    exists r', e. rewrite Hp. do 2 f_equal.
    apply (gi_inj _ Hr _ _ e); [by apply (gi_ptr _ Hr r' _ Hp)|by apply (gi_ptr _ Hr r _ H)].
  - intros r ws e H. destruct (gateInv_at g thr r _ Hr H) as ([t n] & Hx & _ & _ & Hc).
    unfold putToken. simpl in *. rewrite Hx. destruct t; [|by eexists].
    pose proof (map_count_pos (holdsPtr e) r _ thr H (Nat.eqb_refl e)). lia.
Qed.

Lemma write_gate_live_witness :
  is_Some (putToken demoGates.1 0%nat) /\ is_Some (entries demoGates.1 !! "ws").
Proof.
  destruct (write_gate_live demoGates.1 demoGates.2 demoGates_reachable) as (Ht & _ & Hp).
  split; [apply (Hp "a" "ws")|apply Ht; exists "b", (Waiting "ws" 0%nat)]; vm_compute; done.
Defined.
