(* ===== verification/RateLimit.v ===== *)
(** * Back-off of failed authentications ([internal/identity/ratelimit.go])

    The limiter counts failures per key (client address, principal) and blocks a
    key that reached its threshold. Instants are nanoseconds; [zeroTime] is the
    zero [time.Time] that a missing map entry yields. The hash of the principal
    and the client address of the request are arguments. *)

From S2P Require Import Prelude.

Definition nsSecond : Z := 1000000000.
Definition Minute : Z := 60 * nsSecond.
Definition Hour : Z := 60 * Minute.

(** The zero [time.Time]: 1 January of year 1, relative to the Unix epoch. *)
Definition zeroTime : Z := -62135596800 * nsSecond.

(** [t.Sub(u)] saturates at the bounds of a [time.Duration]. *)
Definition Sub (t u : Z) : Z := Z.max (- 2 ^ 63) (Z.min (2 ^ 63 - 1) (t - u)).

Definition clientFailureThreshold : Z := 5.
Definition principalFailureThreshold : Z := 50.

Record RateKey : Type := mkRateKey { Key : string; Threshold : Z }.

Definition CredentialRateKeys (HashSessionToken : string -> string) (clientAddress principal : string)
    : list RateKey :=
  [mkRateKey ("ip:" +:+ clientAddress) clientFailureThreshold;
   mkRateKey ("principal:" +:+ HashSessionToken principal) principalFailureThreshold].

Record failureAttempt : Type := mkAttempt {
  failures : Z;
  blockedUntil : Z;
  updatedAt : Z
}.

Definition noAttempt : failureAttempt := mkAttempt 0 zeroTime zeroTime.

(** [FailureLimiter.attempts]; every method runs under the mutex. *)
Abbreviation FailureLimiter := (gmap string failureAttempt).

Definition NewFailureLimiter : FailureLimiter := ∅.

(** [l.attempts[key]]: the zero value when there is no entry. *)
Definition attempt (l : FailureLimiter) (key : string) : failureAttempt := default noAttempt (l !! key).

Definition prune (l : FailureLimiter) (now : Z) : FailureLimiter :=
  if Z.of_nat (size l) <? 1024 then l
  else filter (fun kv => ~ (blockedUntil kv.2 <= now /\ Hour < Sub now (updatedAt kv.2))) l.

Definition waitOne (l : FailureLimiter) (now : Z) (wait : Z) (key : RateKey) : Z :=
  let blocked := blockedUntil (attempt l (Key key)) in
  if now <? blocked then Z.max wait (Sub blocked now) else wait.

Definition Wait (l : FailureLimiter) (keys : list RateKey) (now : Z) : Z * FailureLimiter :=
  let l := prune l now in
  (foldl (waitOne l now) 0 keys, l).

Definition failOne (now : Z) (acc : Z * FailureLimiter) (key : RateKey) : Z * FailureLimiter :=
  let '(wait, l) := acc in
  let a := attempt l (Key key) in
  let n := failures a + 1 in
  let over := n - Threshold key in
  let a' := mkAttempt n
    (if 0 <=? over
     then now + Z.min (Z.shiftl (30 * nsSecond) (Z.min over 5)) (15 * Minute)
     else blockedUntil a) now in
  (if now <? blockedUntil a' then Z.max wait (Sub (blockedUntil a') now) else wait,
   <[Key key := a']> l).

Definition Fail (l : FailureLimiter) (keys : list RateKey) (now : Z) : Z * FailureLimiter :=
  foldl (failOne now) (0, prune l now) keys.

Definition Succeed (l : FailureLimiter) (keys : list RateKey) : FailureLimiter :=
  foldl (fun l key => delete (Key key) l) l keys.

(** ** Runs of the limiter *)

Inductive limEvent : Type :=
| EvWait (keys : list RateKey) (now : Z)
| EvFail (keys : list RateKey) (now : Z)
| EvSucceed (keys : list RateKey).

Definition limStep (l : FailureLimiter) (ev : limEvent) : FailureLimiter :=
  match ev with
  | EvWait keys now => (Wait l keys now).2
  | EvFail keys now => (Fail l keys now).2
  | EvSucceed keys => Succeed l keys
  end.

(** The back-off of the [over]-th failure past the threshold, in nanoseconds. *)
Definition backoff (over : Z) : Z := Z.min (30 * nsSecond * 2 ^ Z.min over 5) (15 * Minute).

Section Runs.
(** Every use of a key comes with the same threshold. *)
Context (th : string -> Z) (th_pos : forall k, 0 < th k).

Definition keysOk (keys : list RateKey) : Prop := Forall (fun key => Threshold key = th (Key key)) keys.

(** Events in the order of the clock, from instant [t] to instant [t']. *)
Inductive limRun : Z -> FailureLimiter -> list limEvent -> Z -> FailureLimiter -> Prop :=
| run_nil t l : limRun t l [] t l
| run_wait t l keys now evs t' l' :
    t <= now -> keysOk keys -> limRun now (limStep l (EvWait keys now)) evs t' l' ->
    limRun t l (EvWait keys now :: evs) t' l'
| run_fail t l keys now evs t' l' :
    t <= now -> keysOk keys -> limRun now (limStep l (EvFail keys now)) evs t' l' ->
    limRun t l (EvFail keys now :: evs) t' l'
| run_succeed t l keys evs t' l' :
    limRun t (limStep l (EvSucceed keys)) evs t' l' ->
    limRun t l (EvSucceed keys :: evs) t' l'.

(** The deadline is determined by the number of failures and the last of them. *)
Definition attemptOk (t : Z) (k : string) (a : failureAttempt) : Prop :=
  0 < failures a /\ updatedAt a <= t
  /\ blockedUntil a = if failures a <? th k then zeroTime
                      else updatedAt a + backoff (failures a - th k).

Definition limInv (t : Z) (l : FailureLimiter) : Prop :=
  zeroTime <= t /\ forall k a, l !! k = Some a -> attemptOk t k a.

Lemma backoff_shift over :
  0 <= over -> Z.min (Z.shiftl (30 * nsSecond) (Z.min over 5)) (15 * Minute) = backoff over.
Proof. intros H. unfold backoff. by rewrite Z.shiftl_mul_pow2 by lia. Qed.

Lemma backoff_bounds over : 0 <= over -> 30 * nsSecond <= backoff over <= 15 * Minute.
Proof.
  intros H. unfold backoff, Minute, nsSecond.
  pose proof (Z.pow_le_mono_r 2 0 (Z.min over 5)). lia.
Qed.

Lemma backoff_mono over over' : 0 <= over <= over' -> backoff over <= backoff over'.
Proof.
  intros H. unfold backoff. pose proof (Z.pow_le_mono_r 2 (Z.min over 5) (Z.min over' 5)).
  unfold nsSecond. lia.
Qed.

Lemma prune_subseteq l now : prune l now ⊆ l.
Proof. unfold prune. destruct (_ <? _); [done|]. apply map_filter_subseteq. Qed.

Lemma limInv_subseteq t t' l l' : limInv t l -> t <= t' -> l' ⊆ l -> limInv t' l'.
Proof.
  intros [Hz H] Ht Hs. split; [lia|]. intros k a Hk.
  destruct (H k a (lookup_weaken _ _ _ _ Hk Hs)) as (A & B & C). split_and!; [done|lia|done].
Qed.

Lemma failOne_lookup now wait l key :
  (failOne now (wait, l) key).2
  = <[Key key := mkAttempt (failures (attempt l (Key key)) + 1)
        (if 0 <=? failures (attempt l (Key key)) + 1 - Threshold key
         then now + backoff (failures (attempt l (Key key)) + 1 - Threshold key)
         else blockedUntil (attempt l (Key key))) now]> l.
Proof.
  simpl. destruct (Z.leb_spec 0 (failures (attempt l (Key key)) + 1 - Threshold key)); [|done].
  by rewrite backoff_shift.
Qed.

Lemma attempt_ok t l k :
  limInv t l -> (l !! k = None /\ attempt l k = noAttempt) \/ (l !! k = Some (attempt l k) /\ attemptOk t k (attempt l k)).
Proof.
  intros [_ H]. unfold attempt. destruct (l !! k) as [a|] eqn:E; [right|left]; split; try done. by apply H.
Qed.

Lemma failOne_inv t now wait l key :
  limInv t l -> t <= now -> Threshold key = th (Key key) -> limInv now (failOne now (wait, l) key).2.
Proof.
  intros Hi Ht Hth. rewrite failOne_lookup. destruct (limInv_subseteq t now l l Hi Ht) as [Hz Hl]; [done|].
  split; [done|]. intros k a [[<- <-]|[Hne Hk]]%lookup_insert_Some; [|by apply Hl].
  pose proof (th_pos (Key key)). rewrite Hth.
  assert (Hb : 0 <= failures (attempt l (Key key)) /\ (failures (attempt l (Key key)) < th (Key key) ->
    blockedUntil (attempt l (Key key)) = zeroTime)).
  { destruct (attempt_ok t l (Key key) Hi) as [[_ ->]|[_ (Hn & Hu & Hb)]]; [done|]. split; [lia|].
    intros Hlt. by rewrite Hb, (proj2 (Z.ltb_lt _ _) Hlt). }
  destruct Hb as [Hn Hb]. unfold attemptOk. cbn [failures updatedAt blockedUntil].
  set (n := failures (attempt l (Key key))) in *. split_and!; [lia|done|].
  destruct (Z.leb_spec 0 (n + 1 - th (Key key))), (Z.ltb_spec (n + 1) (th (Key key))); lia.
Qed.

Lemma foldl_fail_inv now keys acc :
  limInv now acc.2 -> keysOk keys -> limInv now (foldl (failOne now) acc keys).2.
Proof.
  intros Hi Hk. revert acc Hi. induction Hk as [|key keys Hth Hk IH]; intros [w l] Hi; [done|].
  cbn [foldl]. apply IH. by apply (failOne_inv now).
Qed.

Lemma Succeed_subseteq l keys : Succeed l keys ⊆ l.
Proof.
  unfold Succeed. revert l. induction keys as [|key keys IH]; intros l; simpl; [done|].
  etransitivity; [apply IH|apply delete_subseteq].
Qed.

Lemma limRun_inv t l evs t' l' : limRun t l evs t' l' -> limInv t l -> limInv t' l'.
Proof.
  induction 1 as [t l|t l keys now evs t' l' Ht Hk _ IH|t l keys now evs t' l' Ht Hk _ IH|t l keys evs t' l' _ IH];
    intros Hi; [done|apply IH..].
  - apply (limInv_subseteq t _ l); [done|done|]. apply prune_subseteq.
  - apply foldl_fail_inv; [|done]. by apply (limInv_subseteq t _ l); [| |apply prune_subseteq].
  - apply (limInv_subseteq t _ l); [done|done|]. apply Succeed_subseteq.
Qed.

Lemma limInv_new t : zeroTime <= t -> limInv t NewFailureLimiter.
Proof. intros H. split; [done|]. intros k a Hk. destruct (lookup_empty_Some k a Hk). Qed.

(** ** Deadlines along a run *)

Lemma limRun_le t l evs t' l' : limRun t l evs t' l' -> t <= t'.
Proof. induction 1; lia. Qed.

Definition deadline (l : FailureLimiter) (k : string) : Z := blockedUntil (attempt l k).

Lemma prune_keeps_blocked l now k B : now < B -> B <= deadline l k -> B <= deadline (prune l now) k.
Proof.
  intros Hnow HB. unfold prune. destruct (_ <? _); [done|]. unfold deadline, attempt in *.
  rewrite map_lookup_filter. destruct (l !! k) as [a|] eqn:E; simpl in *; [|done].
  rewrite option_guard_True by (simpl; lia). done.
Qed.

Lemma failOne_deadline t now wait l key k :
  limInv t l -> t <= now -> Threshold key = th (Key key) ->
  deadline l k <= deadline (failOne now (wait, l) key).2 k.
Proof.
  intros Hi Ht Hth. rewrite failOne_lookup. unfold deadline, attempt at 2.
  destruct (decide (Key key = k)) as [<-|Hne]; [|by rewrite lookup_insert_ne].
  rewrite lookup_insert_eq. simpl. rewrite Hth.
  destruct (Z.leb_spec 0 (failures (attempt l (Key key)) + 1 - th (Key key))) as [Ho|]; [|done].
  pose proof (backoff_bounds _ Ho). pose proof (proj1 Hi) as Hz. unfold nsSecond in *.
  destruct (attempt_ok t l (Key key) Hi) as [[_ Ha]|[_ (Hn & Hu & Hb)]].
  - replace (blockedUntil (attempt l (Key key))) with zeroTime by by rewrite Ha. lia.
  - rewrite Hb. destruct (Z.ltb_spec (failures (attempt l (Key key))) (th (Key key))); [lia|].
    pose proof (backoff_mono (failures (attempt l (Key key)) - th (Key key))
      (failures (attempt l (Key key)) + 1 - th (Key key))). lia.
Qed.

Lemma foldl_fail_deadline now keys acc k :
  limInv now acc.2 -> keysOk keys -> deadline acc.2 k <= deadline (foldl (failOne now) acc keys).2 k.
Proof.
  intros Hi Hk. revert acc Hi. induction Hk as [|key keys Hth Hk IH]; intros [w l] Hi; [done|].
  cbn [foldl]. etransitivity; [by apply (failOne_deadline now now w l key)|].
  apply IH. by apply (failOne_inv now).
Qed.

Lemma Succeed_other l keys k : k ∉ map Key keys -> Succeed l keys !! k = l !! k.
Proof.
  unfold Succeed. revert l. induction keys as [|key keys IH]; intros l Hk; simpl in *; [done|].
  apply not_elem_of_cons in Hk as [Hne Hk]. rewrite IH by done. by apply lookup_delete_ne.
Qed.

(** The event clears the key. *)
Definition clears (k : string) (ev : limEvent) : Prop :=
  match ev with EvSucceed keys => k ∈ map Key keys | _ => False end.

Lemma limRun_deadline t l evs t' l' k B :
  limRun t l evs t' l' -> limInv t l -> Forall (fun ev => ~ clears k ev) evs ->
  t' < B -> B <= deadline l k -> B <= deadline l' k.
Proof.
  induction 1 as [t l|t l keys now evs t' l' Ht Hk Hrun IH|t l keys now evs t' l' Ht Hk Hrun IH|
    t l keys evs t' l' Hrun IH]; intros Hi Hc Hlt HB; [done|..];
    apply Forall_cons in Hc as [Hc Hcs]; pose proof (limRun_le _ _ _ _ _ Hrun).
  - apply IH; [|done|done|apply prune_keeps_blocked; [lia|done]].
    apply (limInv_subseteq t _ l); [done|done|]. apply prune_subseteq.
  - assert (Hp : limInv now (prune l now)) by (by apply (limInv_subseteq t _ l); [| |apply prune_subseteq]).
    apply IH; [by apply foldl_fail_inv|done|done|].
    etransitivity; [|by apply (foldl_fail_deadline now keys (0, prune l now))].
    apply prune_keeps_blocked; [lia|done].
  - apply IH; [|done|done|]; simpl.
    + apply (limInv_subseteq t _ l); [done|done|]. apply Succeed_subseteq.
    + unfold deadline, attempt in *. by rewrite Succeed_other.
Qed.

Lemma deadline_le t l k : limInv t l -> deadline l k <= t + 15 * Minute.
Proof.
  intros Hi. pose proof (proj1 Hi). unfold deadline.
  destruct (attempt_ok t l k Hi) as [[_ ->]|[_ (Hn & Hu & Hb)]]; [simpl; unfold Minute, nsSecond; lia|].
  rewrite Hb. destruct (Z.ltb_spec (failures (attempt l k)) (th k)); [unfold Minute, nsSecond; lia|].
  pose proof (backoff_bounds (failures (attempt l k) - th k)). lia.
Qed.
End Runs.

(** ** Theorems *)

(** Once a key is blocked it stays blocked until its deadline. Whatever
    requests, failures of this or other keys, successes of other keys and
    prunings of the table come in between, [Wait] reports at least the time left
    until the deadline, and never more than 15 minutes. *)
Theorem blocked_until_deadline th t0 evs0 t1 l1 k evs t2 l2 now :
  (forall key, 0 < th key) -> zeroTime <= t0 -> limRun th t0 NewFailureLimiter evs0 t1 l1 ->
  limRun th t1 l1 evs t2 l2 -> Forall (fun ev => ~ clears k ev) evs ->
  t2 <= now -> now < deadline l1 k ->
  deadline l1 k - now <= (Wait l2 [mkRateKey k (th k)] now).1 <= 15 * Minute.
Proof.
  intros Hpos Hz Hrun0 Hrun Hc Ht Hlt.
  pose proof (limRun_inv th Hpos _ _ _ _ _ Hrun0 (limInv_new th t0 Hz)) as Hi1.
  pose proof (limRun_inv th Hpos _ _ _ _ _ Hrun Hi1) as Hi2.
  pose proof (limRun_deadline th Hpos t1 l1 evs t2 l2 k (deadline l1 k) Hrun Hi1 Hc
    (Z.le_lt_trans _ _ _ Ht Hlt) (Z.le_refl _)) as HB.
  apply (prune_keeps_blocked _ now) in HB; [|done].
  assert (Hi3 : limInv th now (prune l2 now)) by (by apply (limInv_subseteq th t2 _ l2); [| |apply prune_subseteq]).
  pose proof (deadline_le th now _ k Hi3). unfold Wait, waitOne. simpl.
  change (blockedUntil (attempt (prune l2 now) k)) with (deadline (prune l2 now) k).
  destruct (Z.ltb_spec now (deadline (prune l2 now) k)); [|lia].
  unfold Sub, Minute, nsSecond in *. lia.
Qed.


Definition demoKey (k : string) : RateKey := mkRateKey k 5.

(** Five failures of a client in the same second. *)
Definition demoFailures : list limEvent := repeat (EvFail [demoKey "ip:a"] 1000) 5.

Definition demoLimiter : FailureLimiter := foldl limStep NewFailureLimiter demoFailures.

Lemma demoFailures_run : limRun (fun _ => 5) 0 NewFailureLimiter demoFailures 1000 demoLimiter.
Proof.
  unfold demoFailures, demoLimiter. cbn [repeat foldl].
  repeat (apply run_fail; [lia|by repeat constructor|]). apply run_nil.
Qed.

Lemma blocked_until_deadline_witness :
  deadline demoLimiter "ip:a" = 1000 + 30 * nsSecond
  /\ deadline demoLimiter "ip:a" - 6000 <=
    (Wait (limStep demoLimiter (EvFail [demoKey "ip:b"] 3000)) [demoKey "ip:a"] 6000).1 <= 15 * Minute.
Proof.
  split; [vm_compute; reflexivity|].
  apply (blocked_until_deadline (fun _ => 5) 0 demoFailures 1000 demoLimiter "ip:a"
    [EvFail [demoKey "ip:b"] 3000] 3000).
  - done.
  - done.
  - exact demoFailures_run.
  - apply run_fail; [lia|by repeat constructor|apply run_nil].
  - apply Forall_singleton. exact (fun H => H).
  - lia.
  - vm_compute. reflexivity.
Defined.

(** What a further failure of the key costs. *)
Definition penalty (th : string -> Z) (l : FailureLimiter) (key : RateKey) : Z :=
  let n := failures (attempt l (Key key)) + 1 in
  if n <? th (Key key) then 0 else backoff (n - th (Key key)).

Lemma foldl_fail_wait th now keys w l :
  (forall key, 0 < th key) -> limInv th now l -> keysOk th keys -> NoDup (map Key keys) -> 0 <= w ->
  (foldl (failOne now) (w, l) keys).1 = foldl Z.max w (map (penalty th l) keys).
Proof.
  intros Hpos Hi Hk. revert w l Hi. induction Hk as [|key keys Hth Hk IH]; intros w l Hi Hnd Hw; [done|].
  simpl in Hnd. apply NoDup_cons in Hnd as [Hni Hnd]. cbn [foldl map].
  pose proof (failOne_inv th Hpos now now w l key Hi (Z.le_refl _) Hth) as Hi'.
  destruct (failOne now (w, l) key) as [w' l'] eqn:E.
  assert (Hl' : l' = (failOne now (w, l) key).2) by by rewrite E.
  assert (Hw' : w' = Z.max w (penalty th l key)).
  { replace w' with (failOne now (w, l) key).1 by by rewrite E. unfold penalty. simpl. rewrite Hth.
    pose proof (Hpos (Key key)). pose proof (proj1 Hi) as Hz.
    set (n := failures (attempt l (Key key))).
    destruct (Z.ltb_spec (n + 1) (th (Key key))) as [Hn|Hn].
    - rewrite (proj2 (Z.leb_gt 0 (n + 1 - th (Key key)))) by lia.
      assert (blockedUntil (attempt l (Key key)) = zeroTime) as ->.
      { unfold n in *. destruct (attempt_ok th now l (Key key) Hi) as [[_ ->]|[_ (_ & _ & ->)]]; [done|].
        by rewrite (proj2 (Z.ltb_lt _ _)) by lia. }
      destruct (Z.ltb_spec now zeroTime); lia.
    - rewrite (proj2 (Z.leb_le 0 (n + 1 - th (Key key)))), backoff_shift by lia.
      pose proof (backoff_bounds (n + 1 - th (Key key))). unfold Minute, nsSecond in *.
      destruct (Z.ltb_spec now (now + backoff (n + 1 - th (Key key)))); unfold Sub; lia. }
  rewrite IH by (simpl in *; try done; lia). rewrite Hw'. f_equal. apply map_ext_in.
  intros key' Hin. unfold penalty.
  assert (attempt l' (Key key') = attempt l (Key key')) as ->; [|done].
  rewrite Hl', failOne_lookup. unfold attempt at 1. rewrite lookup_insert_ne; [done|].
  intros Hkey. apply Hni. rewrite Hkey. apply list_elem_of_In. by apply in_map.
Qed.

(** A failure costs what the policy says. From any reachable state, [Fail]
    over distinct keys returns the largest penalty: nothing for a key below its
    threshold, 30 seconds at the threshold, doubled by every further failure up
    to 15 minutes. *)
Theorem Fail_backoff th t0 evs t l keys now :
  (forall key, 0 < th key) -> zeroTime <= t0 -> limRun th t0 NewFailureLimiter evs t l ->
  t <= now -> keysOk th keys -> NoDup (map Key keys) ->
  (Fail l keys now).1 = foldl Z.max 0 (map (penalty th (prune l now)) keys).
Proof.
  intros Hpos Hz Hrun Ht Hk Hnd. apply foldl_fail_wait; [done| |done|done|done].
  apply (limInv_subseteq th t _ l); [|done|apply prune_subseteq].
  apply (limRun_inv th Hpos _ _ _ _ _ Hrun (limInv_new th t0 Hz)).
Qed.

Lemma Fail_backoff_witness : (Fail demoLimiter [demoKey "ip:a"; demoKey "ip:b"] 2000).1 = 60 * nsSecond.
Proof.
  rewrite (Fail_backoff (fun _ => 5) 0 demoFailures 1000 demoLimiter [demoKey "ip:a"; demoKey "ip:b"] 2000).
  - vm_compute. reflexivity.
  - done.
  - done.
  - exact demoFailures_run.
  - lia.
  - by repeat constructor.
  - apply NoDup_cons; split; [by rewrite list_elem_of_singleton|apply NoDup_singleton].
Defined.

(** The failures of a key in a run since it was last cleared. *)
Definition countEvent (k : string) (n : Z) (ev : limEvent) : Z :=
  match ev with
  | EvWait _ _ => n
  | EvFail keys _ => n + Z.of_nat (length (List.filter (fun key => String.eqb (Key key) k) keys))
  | EvSucceed keys => if existsb (fun key => String.eqb (Key key) k) keys then 0 else n
  end.

Definition recentFailures (k : string) (evs : list limEvent) : Z := foldl (countEvent k) 0 evs.

Lemma attempt_subseteq l l' k n :
  l' ⊆ l -> 0 <= n -> failures (attempt l k) <= n -> failures (attempt l' k) <= n.
Proof.
  intros Hs Hn H. unfold attempt in *. destruct (l' !! k) as [a|] eqn:E; [|done].
  by rewrite (lookup_weaken _ _ _ _ E Hs) in H.
Qed.

Lemma foldl_fail_count now keys acc k :
  failures (attempt (foldl (failOne now) acc keys).2 k)
  = failures (attempt acc.2 k) + Z.of_nat (length (List.filter (fun key => String.eqb (Key key) k) keys)).
Proof.
  revert acc. induction keys as [|key keys IH]; intros [w l]; [simpl; lia|].
  cbn [foldl]. rewrite IH, failOne_lookup. unfold attempt at 1. simpl.
  destruct (String.eqb_spec (Key key) k) as [<-|Hne].
  - rewrite lookup_insert_eq. simpl. lia.
  - rewrite lookup_insert_ne by done. done.
Qed.

Lemma Succeed_cleared l keys k : k ∈ map Key keys -> Succeed l keys !! k = None.
Proof.
  unfold Succeed. revert l. induction keys as [|key keys IH]; intros l Hk; simpl in *; [by apply not_elem_of_nil in Hk|].
  destruct (decide (k ∈ map Key keys)) as [Hin|Hni]; [by apply IH|].
  apply elem_of_cons in Hk as [->|]; [|done]. change (foldl _ ?m keys) with (Succeed m keys).
  rewrite Succeed_other by done. apply lookup_delete_eq.
Qed.

Lemma limRun_count th t l evs t' l' k n :
  limRun th t l evs t' l' -> 0 <= n -> failures (attempt l k) <= n ->
  failures (attempt l' k) <= foldl (countEvent k) n evs.
Proof.
  intros Hr. revert n. induction Hr as [t l|t l keys now evs t' l' _ _ _ IH|
    t l keys now evs t' l' _ _ _ IH|t l keys evs t' l' _ IH]; intros n Hn H; cbn [foldl countEvent]; [done|..].
  - apply IH; [done|]. by apply (attempt_subseteq l); [apply prune_subseteq|..].
  - apply IH; [lia|]. unfold limStep, Fail. rewrite foldl_fail_count. cbn [snd].
    pose proof (attempt_subseteq l (prune l now) k n (prune_subseteq l now) Hn H). lia.
  - apply IH; destruct (existsb _ keys) eqn:E; try done; simpl.
    + apply existsb_exists in E as (key & Hin & <-%String.eqb_eq). unfold attempt.
      rewrite Succeed_cleared; [done|]. apply list_elem_of_In. by apply in_map.
    + by apply (attempt_subseteq l); [apply Succeed_subseteq|..].
Qed.

(** A key with fewer failures than its threshold since it was last cleared
    is never blocked: a client is not throttled before its fifth failure and a
    principal not before its fiftieth, whatever other clients do. *)
Theorem below_threshold_unblocked th t0 evs t l k now :
  (forall key, 0 < th key) -> zeroTime <= t0 -> limRun th t0 NewFailureLimiter evs t l ->
  t <= now -> recentFailures k evs < th k -> (Wait l [mkRateKey k (th k)] now).1 = 0.
Proof.
  intros Hpos Hz Hrun Ht Hn.
  pose proof (limRun_inv th Hpos _ _ _ _ _ Hrun (limInv_new th t0 Hz)) as Hi.
  pose proof (limRun_count th _ _ _ _ _ k 0 Hrun ltac:(done) ltac:(done)) as Hc.
  change (foldl (countEvent k) 0 evs) with (recentFailures k evs) in Hc.
  assert (Hi' : limInv th now (prune l now)) by (by apply (limInv_subseteq th t _ l); [| |apply prune_subseteq]).
  pose proof (proj1 Hi'). unfold Wait, waitOne. simpl.
  assert (blockedUntil (attempt (prune l now) k) = zeroTime) as ->; [|destruct (Z.ltb_spec now zeroTime); lia].
  destruct (attempt_ok th now (prune l now) k Hi') as [[_ ->]|[Hk (_ & _ & ->)]]; [done|].
  assert (attempt l k = attempt (prune l now) k) as Ha.
  { unfold attempt at 1. by rewrite (lookup_weaken _ _ _ _ Hk (prune_subseteq l now)). }
  rewrite Ha in Hc. destruct (Z.ltb_spec (failures (attempt (prune l now) k)) (th k)); [done|lia].
Qed.

Lemma below_threshold_unblocked_witness : (Wait demoLimiter [demoKey "ip:b"] 2000).1 = 0.
Proof.
  apply (below_threshold_unblocked (fun _ => 5) 0 demoFailures 1000 demoLimiter "ip:b" 2000).
  - done.
  - done.
  - exact demoFailures_run.
  - lia.
  - vm_compute. reflexivity.
Defined.
