(* ===== verification/ProtocolRequest.v ===== *)
(** * Routing semantics of a request ([internal/protocolrequest])

    [resolve] names the operation of a request before authentication,
    authorization and auditing; [Action] maps an operation to the action a
    policy must grant; [ValidatePolicy] is what the policy editor accepts.

    A request is its method, its path, its decoded query ([URL.Query]: every key
    with its values), and its body as [io.ReadAll] and the tokens of
    [encoding/xml] give it. Letters are upper-cased in the ASCII range, the
    alphabet of every name the component compares with. *)

From S2P Require Import Prelude GoText.

(** ** Requests *)

Record xmlAttr : Type := mkAttr { attrSpace : string; attrLocal : string; attrValue : string }.
Record xmlElement : Type := mkElement { elemSpace : string; elemLocal : string; elemAttr : list xmlAttr }.

(** What [Decoder.Token] returns; [Text blank] is character data, [blank] when it
    is only white space. *)
Inductive xmlToken : Type :=
| StartElement (e : xmlElement)
| EndElement
| Directive
| Text (blank : bool)
| OtherToken.

(** A body: whether reading it failed, whether it is blank, its tokens, and
    whether the decoder stopped at the end of the input or at an error. *)
Record xmlBody : Type := mkBody {
  bodyUnreadable : bool;
  bodyBlank : bool;
  bodyTokens : list xmlToken;
  bodyMalformed : bool
}.

Record request : Type := mkRequest {
  Method : string;
  Path : string;
  Query : list (string * list string);
  Body : option xmlBody
}.

Inductive routeErr : Type :=
| ConflictingParameter (key : string)
| UnreadableBody
| MalformedXML
| MultipleRoots
| DirectivesUnsupported
| TextOutsideRoot
| MissingRoot
| UnexpectedNamespace
| AmbiguousAttribute.

Record Descriptor : Type := mkDescriptor {
  Service : string;
  Workspace : string;
  OpName : string;
  ServiceParameter : string;
  Version : string;
  DErr : option routeErr
}.

(** ** Paths *)

(** [strings.TrimLeft(s, "/")]. *)
Fixpoint trimLeftSlash (s : string) : string :=
  match s with
  | String "/" s' => trimLeftSlash s'
  | _ => s
  end.

Fixpoint trimRightSlash (s : string) : string :=
  match s with
  | EmptyString => EmptyString
  | String c s' =>
      match trimRightSlash s' with
      | EmptyString => if Ascii.eqb c "/" then EmptyString else String c EmptyString
      | t => String c t
      end
  end.

Definition pathParts (path : string) : list string :=
  Split "/" (trimRightSlash (trimLeftSlash path)).

(** The first [workspaces] segment that has a successor: the successor and what follows it. *)
Fixpoint findWorkspace (parts : list string) : option (string * list string) :=
  match parts with
  | [] => None
  | part :: rest =>
      match rest with
      | ws :: after => if String.eqb part "workspaces" then Some (ws, after) else findWorkspace rest
      | [] => None
      end
  end.

Definition isOneOf (s : string) (l : list string) : bool := existsb (String.eqb s) l.
Arguments isOneOf : simpl never.

Definition protocolSegments : list string := ["wfs"; "wms"; "wcs"; "wmts"; "ogc"; "ogc-tiles"; "stac"].

(** The loop over the path segments: workspace, service and remaining segments. *)
Definition routePath (service : string) (parts : list string) : string * string * list string :=
  match findWorkspace parts with
  | None => ("", service, [])
  | Some (ws, []) => (ws, service, [])
  | Some (ws, seg :: after) =>
      if isOneOf seg protocolSegments
         && (String.eqb service "" || String.eqb service seg
             || (String.eqb service "ogcapi" && String.eqb seg "ogc"))
      then (ws, seg, after) else (ws, service, [])
  end.

(** ** Operation names *)

Definition nth_is (l : list string) (i : nat) (s : string) : bool :=
  match l !! i with Some x => String.eqb x s | None => false end.

Definition len_is (l : list string) (n : nat) : bool := Nat.eqb (length l) n.

(** The three independent tests of the [stac] branch, in their order. *)
Definition stacName (method : string) (tail : list string) : string :=
  let get := String.eqb method "GET" in
  let n0 := if len_is tail 1 && nth_is tail 0 "search" && (get || String.eqb method "POST")
            then "SEARCH" else method in
  if get || String.eqb method "HEAD" then
    let n1 := if len_is tail 1 && nth_is tail 0 "collections" then "LISTCOLLECTIONS" else n0 in
    let n2 := if len_is tail 3 && nth_is tail 2 "items" then "GETFEATURES" else n1 in
    if len_is tail 4 && nth_is tail 2 "items" then "GETITEM" else n2
  else n0.

Definition ogcName (service method : string) (tail : list string) : string :=
  let api := String.eqb service "ogcapi" in
  let tiles := String.eqb service "ogc-tiles" in
  if api && len_is tail 4 && nth_is tail 0 "collections" && nth_is tail 2 "items" then "GETITEM"
  else if api && len_is tail 3 && nth_is tail 0 "collections" && nth_is tail 2 "items" then "GETFEATURES"
  else if len_is tail 1 && nth_is tail 0 "collections" then "LISTCOLLECTIONS"
  else if tiles && len_is tail 6 && nth_is tail 0 "map" && nth_is tail 1 "tiles" then "GETTILE"
  else if tiles && len_is tail 7 && nth_is tail 0 "collections" && nth_is tail 2 "tiles" then "GETTILE"
  else if tiles && len_is tail 8 && nth_is tail 0 "collections" && nth_is tail 2 "map" && nth_is tail 3 "tiles"
  then "GETTILE"
  else method.

Definition wmtsRestName (tail : list string) : string :=
  if len_is tail 2 && nth_is tail 1 "WMTSCapabilities.xml" then "GETCAPABILITIES"
  else if len_is tail 9 then "GETFEATUREINFO"
  else "GETTILE".

(** ** Query parameters *)

Definition routingKeys : list string := ["REQUEST"; "SERVICE"; "VERSION"].

Definition routeItem (key : string) (item : string) : string :=
  if String.eqb key "VERSION" then item else ToUpper item.

Fixpoint routeItems (key : string) (items : list string) (values : gmap string string)
    : routeErr + gmap string string :=
  match items with
  | [] => inr values
  | item :: rest =>
      let item := routeItem key item in
      match values !! key with
      | Some previous =>
          if String.eqb previous item then routeItems key rest (<[key := item]> values)
          else inl (ConflictingParameter key)
      | None => routeItems key rest (<[key := item]> values)
      end
  end.

Fixpoint queryLoop (q : list (string * list string)) (values : gmap string string)
    : routeErr + gmap string string :=
  match q with
  | [] => inr values
  | (key, items) :: rest =>
      let key := ToUpper key in
      if isOneOf key routingKeys then
        match routeItems key items values with
        | inl e => inl e
        | inr values' => queryLoop rest values'
        end
      else queryLoop rest values
  end.

Definition queryRouting (r : request) : routeErr + gmap string string := queryLoop (Query r) ∅.

(** ** XML roots *)

Definition noElement : xmlElement := mkElement "" "" [].

Fixpoint rootLoop (toks : list xmlToken) (malformed : bool) (root : xmlElement) (depth : Z)
    : routeErr + xmlElement :=
  match toks with
  | [] =>
      if malformed then inl MalformedXML
      else if String.eqb (elemLocal root) "" || negb (depth =? 0) then inl MissingRoot
      else inr root
  | StartElement e :: rest =>
      if depth =? 0 then
        if negb (String.eqb (elemLocal root) "") then inl MultipleRoots
        else rootLoop rest malformed e (depth + 1)
      else rootLoop rest malformed root (depth + 1)
  | EndElement :: rest => rootLoop rest malformed root (depth - 1)
  | Directive :: _ => inl DirectivesUnsupported
  | Text blank :: rest =>
      if (depth =? 0) && negb blank then inl TextOutsideRoot else rootLoop rest malformed root depth
  | OtherToken :: rest => rootLoop rest malformed root depth
  end.

Definition xmlRoot (b : xmlBody) : routeErr + xmlElement :=
  rootLoop (bodyTokens b) (bodyMalformed b) noElement 0.

Definition validNamespace (service namespace : string) : bool :=
  if String.eqb service "wfs" then
    String.eqb namespace "http://www.opengis.net/wfs/2.0" || String.eqb namespace "http://www.opengis.net/wfs"
  else if String.eqb service "wcs" then
    String.eqb namespace "http://www.opengis.net/wcs/2.0" || String.eqb namespace "http://www.opengis.net/wcs/2.1"
  else false.

(** The loop over the attributes of the root: [seen] holds the names met. *)
Fixpoint attrLoop (attrs : list xmlAttr) (seen : list string) (d : Descriptor) : Descriptor :=
  match attrs with
  | [] => d
  | attr :: rest =>
      let name := ToUpper (attrLocal attr) in
      if negb (String.eqb name "SERVICE") && negb (String.eqb name "VERSION") then attrLoop rest seen d
      else if isOneOf name seen || negb (String.eqb (attrSpace attr) "")
      then mkDescriptor (Service d) (Workspace d) (OpName d) (ServiceParameter d) (Version d)
             (Some AmbiguousAttribute)
      else if String.eqb name "SERVICE"
      then attrLoop rest (name :: seen) (mkDescriptor (Service d) (Workspace d) (OpName d)
             (ToUpper (attrValue attr)) (Version d) (DErr d))
      else attrLoop rest (name :: seen) (mkDescriptor (Service d) (Workspace d) (OpName d)
             (ServiceParameter d) (attrValue attr) (DErr d))
  end.

Definition with_err (d : Descriptor) (e : routeErr) : Descriptor :=
  mkDescriptor (Service d) (Workspace d) (OpName d) (ServiceParameter d) (Version d) (Some e).

(** The body of a POST to [wfs] or [wcs]. *)
Definition resolveBody (service : string) (b : xmlBody) (d : Descriptor) : Descriptor :=
  if bodyUnreadable b then with_err d UnreadableBody
  else if bodyBlank b then d
  else
    match xmlRoot b with
    | inl e => with_err d e
    | inr root =>
        if negb (String.eqb (elemSpace root) "") && negb (validNamespace service (elemSpace root))
        then with_err d UnexpectedNamespace
        else attrLoop (elemAttr root) []
               (mkDescriptor (Service d) (Workspace d) (ToUpper (elemLocal root)) (ServiceParameter d)
                  (Version d) (DErr d))
    end.

Definition resolve (r : request) (service0 path : string) : Descriptor :=
  let '(workspace, service1, tail) := routePath service0 (pathParts path) in
  let service := if String.eqb service1 "ogc" then "ogcapi" else service1 in
  let d := mkDescriptor service workspace (Method r) "" "" None in
  let named := fun name => mkDescriptor service workspace name "" "" None in
  if String.eqb service "" then d
  else if String.eqb service "stac" then named (stacName (Method r) tail)
  else if String.eqb service "ogcapi" || String.eqb service "ogc-tiles"
  then named (ogcName service (Method r) tail)
  else if String.eqb service "wmts" && negb (len_is tail 0) then named (wmtsRestName tail)
  else
    match queryRouting r with
    | inl e => with_err d e
    | inr q =>
        let d := mkDescriptor service workspace (ToUpper (default "" (q !! "REQUEST")))
                   (ToUpper (default "" (q !! "SERVICE"))) (default "" (q !! "VERSION")) None in
        match Body r with
        | Some b =>
            if String.eqb (Method r) "POST" && (String.eqb service "wfs" || String.eqb service "wcs")
            then resolveBody service b d else d
        | None => d
        end
    end.

(** ** Actions and policies *)

Definition readOperations : list string :=
  ["GETCAPABILITIES"; "DESCRIBEFEATURETYPE"; "GETFEATURE"; "GETPROPERTYVALUE"; "LISTSTOREDQUERIES";
   "DESCRIBESTOREDQUERIES"; "GETMAP"; "GETFEATUREINFO"; "GETLEGENDGRAPHIC"; "DESCRIBELAYER"; "GETTILE";
   "GETCOVERAGE"; "DESCRIBECOVERAGE"; "GETITEM"; "GETFEATURES"; "LISTCOLLECTIONS"; "GET"; "HEAD"].

Definition methodAction (method : string) : string :=
  if isOneOf method ["GET"; "HEAD"; "OPTIONS"] then "read" else "write".

Definition Action (service operation method : string) : string :=
  let op := ToUpper operation in
  if String.eqb op "SEARCH" then if String.eqb service "stac" then "read" else methodAction method
  else if isOneOf op ["CREATESTOREDQUERY"; "DROPSTOREDQUERY"]
  then if String.eqb service "wfs" then "manage" else methodAction method
  else if isOneOf op ["TRANSACTION"; "LOCKFEATURE"; "GETFEATUREWITHLOCK"]
  then if String.eqb service "wfs" then "write" else methodAction method
  else if isOneOf op readOperations then "read"
  else methodAction method.

Definition Mutating (d : Descriptor) (method : string) : bool :=
  negb (String.eqb (Action (Service d) (OpName d) method) "read").

Definition policyServices : list (string * list string) :=
  [("stac", ["GET"; "HEAD"; "SEARCH"; "LISTCOLLECTIONS"; "GETFEATURES"; "GETITEM"]);
   ("wfs", ["GETCAPABILITIES"; "DESCRIBEFEATURETYPE"; "GETFEATURE"; "GETPROPERTYVALUE"; "LISTSTOREDQUERIES";
            "DESCRIBESTOREDQUERIES"; "TRANSACTION"; "LOCKFEATURE"; "GETFEATUREWITHLOCK"; "CREATESTOREDQUERY";
            "DROPSTOREDQUERY"]);
   ("wms", ["GETCAPABILITIES"; "GETMAP"; "GETFEATUREINFO"; "GETLEGENDGRAPHIC"; "DESCRIBELAYER"]);
   ("wcs", ["GETCAPABILITIES"; "DESCRIBECOVERAGE"; "GETCOVERAGE"]);
   ("wmts", ["GETCAPABILITIES"; "GETTILE"; "GETFEATUREINFO"]);
   ("ogcapi", ["GET"; "HEAD"; "GETITEM"; "GETFEATURES"; "LISTCOLLECTIONS"]);
   ("ogc-tiles", ["GET"; "HEAD"; "GETTILE"; "LISTCOLLECTIONS"])].

(** [PolicyOperations()]: service, then operation, to its action. *)
Definition PolicyOperations : list (string * list (string * string)) :=
  map (fun s => (s.1, map (fun op => (op, Action s.1 op "GET")) s.2)) policyServices.

Inductive policyErr : Type := ActionNotSupported | OperationNotSupported | WrongAction (expected : string).

Definition ValidatePolicy (service operation action : string) : option policyErr :=
  let operations := default [] (assoc service PolicyOperations) in
  if String.eqb operation "" || String.eqb operation "*"
  then if existsb (fun kv => String.eqb action kv.2) operations then None else Some ActionNotSupported
  else
    match assoc operation operations with
    | None => Some OperationNotSupported
    | Some expected => if String.eqb action expected then None else Some (WrongAction expected)
    end.

(** ** The descriptor in the request context *)

(** The outer middleware, with the mount point of the deployment. *)
Definition Middleware (basePath : string) (r : request) : Descriptor :=
  resolve r "" (TrimPrefix (Path r) (trimRightSlash basePath)).

(** [Prepare] with the descriptor already in the context, if any. *)
Definition Prepare (existing : option Descriptor) (r : request) (service : string) : Descriptor :=
  match existing with
  | Some d => if String.eqb service "" || String.eqb (Service d) service then d
              else resolve r service (Path r)
  | None => resolve r service (Path r)
  end.

Definition Get (existing : option Descriptor) (r : request) : Descriptor := Prepare existing r "".

(** ** Policies and enforcement *)

Lemma assoc_In {V} k (m : list (string * V)) v : assoc k m = Some v -> In (k, v) m.
Proof.
  induction m as [|[k' v'] m IH]; simpl; [done|].
  destruct (String.eqb_spec k k') as [->|]; [intros [= ->]; by left|right; auto].
Qed.

(** Every operation the editor offers has its action for every method. *)
Lemma policyServices_action :
  Forall (fun s => Forall (fun op => forall method, Action s.1 op method = Action s.1 op "GET") s.2)
    policyServices.
Proof. repeat (constructor || (intros method; reflexivity)). Qed.

(** A policy the editor accepts is the policy enforcement asks for. When
    [ValidatePolicy] accepts an action for an operation of a service, a request
    for that operation needs exactly this action, whatever its HTTP method; and
    a service-wide policy names an action that some operation of the service needs. *)
Theorem ValidatePolicy_enforced service operation action :
  ValidatePolicy service operation action = None ->
  if String.eqb operation "" || String.eqb operation "*"
  then exists op ops, assoc service policyServices = Some ops /\ In op ops
         /\ forall method, Action service op method = action
  else forall method, Action service operation method = action.
Proof.
  assert (Hops : forall ops, assoc service PolicyOperations = Some ops ->
    forall op a, In (op, a) ops -> (exists names, assoc service policyServices = Some names /\ In op names)
      /\ forall method, Action service op method = a).
  { intros ops Ha op a Hin. unfold PolicyOperations in Ha.
    assert (Hm : exists names, assoc service policyServices = Some names
      /\ ops = map (fun op => (op, Action service op "GET")) names).
    { revert Ha. clear. induction policyServices as [|[s names] l IH]; simpl; [done|].
      destruct (String.eqb_spec service s) as [->|]; [|done]. intros [= <-]. eauto. }
    destruct Hm as (names & Hn & ->). apply in_map_iff in Hin as (op' & [= -> <-] & Hin).
    split; [eauto|]. pose proof policyServices_action as Hall. rewrite List.Forall_forall in Hall.
    specialize (Hall _ (assoc_In _ _ _ Hn)). rewrite List.Forall_forall in Hall. by apply Hall. }
  unfold ValidatePolicy. destruct (assoc service PolicyOperations) as [ops|]; simpl.
  - specialize (Hops ops eq_refl). destruct (_ || _).
    + destruct (existsb _ ops) eqn:E; [|done]. intros _.
      apply existsb_exists in E as ([op a] & Hin & ->%String.eqb_eq).
      destruct (Hops op a Hin) as [(names & Hn & Hi) Ha]. eauto 10.
    + destruct (assoc operation ops) as [expected|] eqn:E; [|done].
      destruct (String.eqb_spec action expected) as [->|]; [|done]. intros _.
      by apply (Hops operation expected), assoc_In.
  - by destruct (_ || _).
Qed.

Lemma ValidatePolicy_enforced_witness :
  ValidatePolicy "wfs" "TRANSACTION" "write" = None
  /\ forall method, Action "wfs" "TRANSACTION" method = "write".
Proof.
  split; [reflexivity|]. exact (ValidatePolicy_enforced "wfs" "TRANSACTION" "write" eq_refl).
Defined.

(** ** Resolution *)

Lemma attrLoop_service l seen d : Service (attrLoop l seen d) = Service d.
Proof.
  revert seen d. induction l as [|a l IH]; intros seen d; simpl; [done|].
  destruct (_ && _); [apply IH|]. destruct (_ || _); [done|]. destruct (String.eqb _ _); by rewrite IH.
Qed.

Lemma resolveBody_service s b d : Service (resolveBody s b d) = Service d.
Proof.
  unfold resolveBody. destruct (bodyUnreadable b); [done|]. destruct (bodyBlank b); [done|].
  destruct (xmlRoot b); [done|]. destruct (_ && _); [done|]. by rewrite attrLoop_service.
Qed.

Definition canonicalService (s : string) : string := if String.eqb s "ogc" then "ogcapi" else s.

Lemma resolve_service r s0 path :
  Service (resolve r s0 path) = canonicalService (routePath s0 (pathParts path)).1.2.
Proof.
  unfold resolve. destruct (routePath s0 (pathParts path)) as [[ws s1] tail]. cbn [fst snd].
  change (if String.eqb s1 "ogc" then "ogcapi" else s1) with (canonicalService s1).
  repeat (match goal with |- context [if ?b then _ else _] => destruct b; [done|] end).
  destruct (queryRouting r); [done|]. destruct (Body r); [|done].
  destruct (_ && _); [|done]. by rewrite resolveBody_service.
Qed.

(** REST operations are named by the path. For the REST services the
    descriptor does not depend on the query or the body, so no parameter can
    turn a request into another operation than the router serves. *)
Theorem resolve_rest_fixed m q b q' b' service0 path :
  let d := resolve (mkRequest m path q b) service0 path in
  Service d ∈ ["stac"; "ogcapi"; "ogc-tiles"] ->
  resolve (mkRequest m path q' b') service0 path = d /\ DErr d = None.
Proof.
  intros d Hs. unfold d in *. rewrite resolve_service in Hs. revert Hs. unfold resolve.
  destruct (routePath service0 (pathParts path)) as [[ws s1] tail]. cbn [Method fst snd].
  change (if String.eqb s1 "ogc" then "ogcapi" else s1) with (canonicalService s1).
  rewrite !elem_of_cons. intros [->|[->|[->|[]%elem_of_nil]]]; done.
Qed.

Lemma resolve_rest_fixed_witness :
  let d := resolve (mkRequest "GET" "/workspaces/a/ogc/collections/c/items" [] None) "" 
             "/workspaces/a/ogc/collections/c/items" in
  OpName d = "GETFEATURES"
  /\ resolve (mkRequest "GET" "/workspaces/a/ogc/collections/c/items" [("request", ["Transaction"])] None) ""
       "/workspaces/a/ogc/collections/c/items" = d.
Proof.
  split; [reflexivity|].
  apply (resolve_rest_fixed "GET" [] None [("request", ["Transaction"])] None "").
  apply list_elem_of_In. right. left. reflexivity.
Defined.

(** The stages of the middleware agree. When the outer middleware resolved a
    request to a service, resolving it again for that service (as the route's own
    middleware does) gives the same descriptor, so authentication, authorization
    and the handler see the same operation. *)
Theorem resolve_stages_agree r path :
  resolve r (Service (resolve r "" path)) path = resolve r "" path.
Proof.
  rewrite resolve_service.
  assert (Hr : routePath (canonicalService (routePath "" (pathParts path)).1.2) (pathParts path)
               = routePath "" (pathParts path)); [|unfold resolve; by rewrite Hr].
  unfold routePath. destruct (findWorkspace (pathParts path)) as [[ws [|seg after]]|]; [done| |done].
  rewrite (eq_refl : String.eqb "" "" = true). cbn [orb].
  destruct (isOneOf seg protocolSegments); [|done]. cbn [andb fst snd]. unfold canonicalService.
  destruct (String.eqb_spec seg "ogc") as [->|]; [done|].
  by rewrite (proj2 (String.eqb_eq seg seg) eq_refl), orb_true_r.
Qed.

(** ** Query parameters *)

(** An assignment of the routing parameters that agrees with every occurrence. *)
Definition agrees (v : gmap string string) (q : list (string * list string)) : Prop :=
  forall key items item, In (key, items) q -> In item items -> isOneOf (ToUpper key) routingKeys = true ->
    v !! ToUpper key = Some (routeItem (ToUpper key) item).

Lemma routeItems_inr key items values v :
  routeItems key items values = inr v ->
  values ⊆ v /\ forall item, In item items -> v !! key = Some (routeItem key item).
Proof.
  revert values. induction items as [|item items IH]; intros values; simpl; [by intros [= ->]|].
  destruct (values !! key) as [prev|] eqn:E; [destruct (String.eqb_spec prev (routeItem key item)) as [->|]; [|done]|];
    intros [Hs Hi]%IH.
  - rewrite insert_id in Hs by done. split; [done|].
    intros item' [<-|Hin]; [by apply (lookup_weaken _ _ _ _ E)|auto].
  - split; [etransitivity; [by apply insert_subseteq|done]|].
    intros item' [<-|Hin]; [|auto]. apply (lookup_weaken _ _ _ _ (lookup_insert_eq values key _) Hs).
Qed.

Lemma routeItems_agrees key items values v0 :
  values ⊆ v0 -> (forall item, In item items -> v0 !! key = Some (routeItem key item)) ->
  exists v, routeItems key items values = inr v /\ v ⊆ v0.
Proof.
  revert values. induction items as [|item items IH]; intros values Hs Hi; simpl; [eauto|].
  assert (Hv0 : v0 !! key = Some (routeItem key item)) by (apply Hi; by left).
  assert (Hins : <[key := routeItem key item]> values ⊆ v0) by (by apply insert_subseteq_l).
  destruct (values !! key) as [prev|] eqn:E; [|apply IH; [done|intros; apply Hi; by right]].
  assert (prev = routeItem key item) as -> by (pose proof (lookup_weaken _ _ _ _ E Hs); congruence).
  rewrite (proj2 (String.eqb_eq _ _) eq_refl). apply IH; [done|intros; apply Hi; by right].
Qed.

Lemma queryLoop_inr q values v :
  queryLoop q values = inr v -> values ⊆ v /\ agrees v q.
Proof.
  revert values. induction q as [|[key items] q IH]; intros values; simpl.
  { intros [= ->]. split; [done|]. by intros k its i []. }
  destruct (isOneOf (ToUpper key) routingKeys) eqn:Hk.
  - destruct (routeItems _ items values) as [|values'] eqn:E; [done|]. intros [Hs Ha]%IH.
    apply routeItems_inr in E as [Hs' Hi]. split; [by etransitivity|].
    intros k its i [[= <- <-]|Hin] Hi' Hk'; [apply (lookup_weaken _ _ _ _ (Hi i Hi') Hs)|by apply (Ha k its)].
  - intros [Hs Ha]%IH. split; [done|].
    intros k its i [[= <- <-]|Hin] Hi' Hk'; [congruence|by apply (Ha k its)].
Qed.

Lemma queryLoop_agrees q values v0 :
  values ⊆ v0 -> agrees v0 q -> exists v, queryLoop q values = inr v.
Proof.
  revert values. induction q as [|[key items] q IH]; intros values Hs Ha; simpl; [eauto|].
  assert (Ha' : agrees v0 q) by (intros k its i Hin; apply (Ha k its); by right).
  destruct (isOneOf (ToUpper key) routingKeys) eqn:Hk; [|by apply IH].
  destruct (routeItems_agrees (ToUpper key) items values v0 Hs) as (v & -> & Hv); [|by apply IH].
  intros item Hin. apply (Ha key items); [by left|done|done].
Qed.

(** Routing parameters are unambiguous. A query is accepted exactly when one
    value per routing parameter (names compared without case) agrees with every
    occurrence of it, and that value is the one returned; so a handler that reads
    another spelling or another occurrence cannot see another operation. *)
Theorem queryRouting_unambiguous r :
  match queryRouting r with
  | inr v => agrees v (Query r)
  | inl _ => ~ exists v, agrees v (Query r)
  end.
Proof.
  unfold queryRouting. destruct (queryLoop (Query r) ∅) as [e|v] eqn:E; [|apply queryLoop_inr in E; apply E].
  intros [v0 Ha]. destruct (queryLoop_agrees (Query r) ∅ v0 (map_empty_subseteq v0) Ha) as (v & Hv).
  congruence.
Qed.

(** ** XML roots *)

(** The elements at the top of a token stream that starts at [depth]. *)
Fixpoint topElements (toks : list xmlToken) (depth : Z) : list xmlElement :=
  match toks with
  | [] => []
  | StartElement e :: rest =>
      if depth =? 0 then e :: topElements rest (depth + 1) else topElements rest (depth + 1)
  | EndElement :: rest => topElements rest (depth - 1)
  | _ :: rest => topElements rest depth
  end.

Fixpoint depthAfter (toks : list xmlToken) (depth : Z) : Z :=
  match toks with
  | [] => depth
  | StartElement _ :: rest => depthAfter rest (depth + 1)
  | EndElement :: rest => depthAfter rest (depth - 1)
  | _ :: rest => depthAfter rest depth
  end.

(** No directive, and no text but white space outside the elements. *)
Fixpoint cleanOutside (toks : list xmlToken) (depth : Z) : Prop :=
  match toks with
  | [] => True
  | StartElement _ :: rest => cleanOutside rest (depth + 1)
  | EndElement :: rest => cleanOutside rest (depth - 1)
  | Directive :: _ => False
  | Text blank :: rest => (depth = 0 -> blank = true) /\ cleanOutside rest depth
  | OtherToken :: rest => cleanOutside rest depth
  end.

Definition named (toks : list xmlToken) : Prop := forall e, In (StartElement e) toks -> elemLocal e <> "".

Lemma rootLoop_exact toks r0 depth root :
  named toks ->
  rootLoop toks false r0 depth = inr root <->
  cleanOutside toks depth /\ depthAfter toks depth = 0
  /\ if String.eqb (elemLocal r0) "" then topElements toks depth = [root] /\ elemLocal root <> ""
     else topElements toks depth = [] /\ r0 = root.
Proof.
  revert r0 depth. induction toks as [|t toks IH]; intros r0 depth Hn; simpl.
  - destruct (String.eqb (elemLocal r0) ""); simpl; [split; [done|]; intros (_ & _ & [? _]); done|].
    destruct (Z.eqb_spec depth 0); simpl; split; intuition congruence.
  - assert (Hn' : named toks) by (intros e He; apply Hn; by right).
    destruct t as [e| | |blank|]; simpl.
    + assert (He : elemLocal e <> "") by (apply Hn; by left).
      destruct (Z.eqb_spec depth 0) as [->|Hd]; [|by apply IH].
      destruct (String.eqb (elemLocal r0) ""); simpl; [|split; [done|]; intros (_ & _ & [? _]); done].
      rewrite IH by done. rewrite (proj2 (String.eqb_neq _ _) He). split; intuition congruence.
    + by apply IH.
    + split; [done|by intros (? & _)].
    + destruct (Z.eqb_spec depth 0) as [->|Hd]; simpl.
      * destruct blank; simpl; [rewrite IH by done; intuition congruence|]. split; [done|]. intuition congruence.
      * rewrite IH by done. split; intuition congruence.
    + by apply IH.
Qed.

(** The operation of an XML request is its only root. [xmlRoot] returns an
    element exactly when the document was read to its end, closes every element
    it opens, has neither directives nor text outside the root, and that element
    is the one at the top: a second root or a hidden directive is refused. *)
Theorem xmlRoot_unique b root :
  named (bodyTokens b) ->
  xmlRoot b = inr root <->
  bodyMalformed b = false /\ topElements (bodyTokens b) 0 = [root]
  /\ depthAfter (bodyTokens b) 0 = 0 /\ cleanOutside (bodyTokens b) 0.
Proof.
  intros Hn. unfold xmlRoot. destruct (bodyMalformed b) eqn:Em.
  - split; [|intuition congruence]. intros H. exfalso. revert H. generalize noElement, 0. clear -b.
    induction (bodyTokens b) as [|t toks IH]; intros e d; simpl; [done|].
    destruct t as [e'| | |blank|]; simpl; try apply IH; [| done |].
    + destruct (d =? 0); [destruct (negb _); [done|]|]; apply IH.
    + destruct (_ && _); [done|apply IH].
  - rewrite rootLoop_exact by done. simpl. split; [intuition congruence|]. intros (_ & Ht & Hd & Hc).
    split_and!; try done. apply Hn. clear -Ht. revert Ht. generalize 0.
    induction (bodyTokens b) as [|t toks IH]; intros d; simpl; [done|].
    destruct t as [e'| | |blank|]; simpl; try (intros H; right; by apply (IH _ H)).
    destruct (d =? 0); [intros [= -> _]; by left|intros H; right; by apply (IH _ H)].
Qed.

Lemma xmlRoot_unique_witness :
  let tx := mkElement "" "Transaction" [] in
  let b := mkBody false false [Text true; StartElement tx; StartElement (mkElement "" "Delete" []);
             EndElement; EndElement] false in
  xmlRoot b = inr tx.
Proof.
  intros tx b. apply (xmlRoot_unique b tx).
  - intros e [H|[H|[H|[H|[H|[]]]]]]; [discriminate|injection H as <-|injection H as <-|discriminate..];
      discriminate.
  - repeat split; auto.
Defined.
