(* ===== verification/XmlTree.v ===== *)
(** * XML documents as [encoding/xml] delivers them

    A document is the tree of its elements with their character data; namespaces
    are resolved. [Decoder.Token] reads it as [tokensOf]. *)

From S2P Require Import Prelude ProtocolRequest.

Definition NSWfs : string := "http://www.opengis.net/wfs/2.0".
Definition NSFes : string := "http://www.opengis.net/fes/2.0".
Definition NSXsi : string := "http://www.w3.org/2001/XMLSchema-instance".

#[warnings="-register-all"]
Inductive xmlNode : Type :=
| Elem (e : xmlElement) (children : list xmlNode)
| CharData (text : string)
| DirectiveNode
| OtherNode.

(** Induction over the nodes of a tree. *)
Lemma xmlNode_rect' (P : xmlNode -> Prop) :
  (forall e ch, Forall P ch -> P (Elem e ch)) -> (forall t, P (CharData t)) -> P DirectiveNode -> P OtherNode ->
  forall n, P n.
Proof.
  intros He Ht Hd Ho. fix IH 1. intros [e ch|t| |]; [|apply Ht|apply Hd|apply Ho].
  apply He. induction ch as [|n ch IHch]; constructor; [apply IH|exact IHch].
Qed.

(** The content of an element, [None] when the decoder fails inside it. *)
Abbreviation content := (option (list xmlNode)).

(** A loop that stops at the first error. *)
Section MapErr.
Context {A B E : Type} (f : A -> E + B).
Fixpoint mapErr (l : list A) : E + list B :=
  match l with
  | [] => inr []
  | a :: l' =>
      match f a with
      | inl err => inl err
      | inr b => match mapErr l' with inl err => inl err | inr r => inr (b :: r) end
      end
  end.
End MapErr.

(** The value of the last attribute with this local name. *)
Fixpoint lastAttr (local : string) (attrs : list xmlAttr) (acc : string) : string :=
  match attrs with
  | [] => acc
  | a :: rest => lastAttr local rest (if String.eqb (attrLocal a) local then attrValue a else acc)
  end.

Definition attrOf (local : string) (e : xmlElement) : string := lastAttr local (elemAttr e) "".

(** The direct character data of an element. *)
Fixpoint charData (l : list xmlNode) : string :=
  match l with
  | [] => ""
  | CharData t :: l' => t +:+ charData l'
  | _ :: l' => charData l'
  end.

(** The tokens of a sequence of nodes. *)
Fixpoint nodeTokens (n : xmlNode) : list xmlToken :=
  match n with
  | Elem e children => StartElement e :: concat (map nodeTokens children) ++ [EndElement]
  | CharData t => [Text (isBlank t)]
  | DirectiveNode => [Directive]
  | OtherNode => [OtherToken]
  end.

Definition tokensOf (l : list xmlNode) : list xmlToken := concat (map nodeTokens l).
