(* ===== verification/Identity.v ===== *)
(** * Principals and their workspace roles ([internal/identity/identity.go], [session.go])

    [Identity] keeps the fields that authorization reads. A nil [*Identity] is
    [None]. *)

From S2P Require Import Prelude.

Record Identity : Type := mkIdentity {
  Subject : string;
  AuthMethod : string;
  Roles : gmap string string;
  APIKeyID : string;
  SessionID : string
}.

(** [id.Roles[ws]]: the empty string when there is no assignment. *)
Definition roleAt (id : Identity) (ws : string) : string := default "" (Roles id !! ws).

Definition GetWorkspaceRole (id : option Identity) (workspaceID : string) : string :=
  match id with
  | None => ""
  | Some id =>
      if bool_decide (Roles id !! "*" = Some "super_admin") then "super_admin"
      else match Roles id !! workspaceID with
           | Some role => role
           | None => roleAt id "*"
           end
  end.

Definition hierarchy : list (string * Z) :=
  [("super_admin", 4); ("admin", 3); ("editor", 2); ("viewer", 1)].

Definition roleLevel (role : string) : Z := default 0 (assoc role hierarchy).

Definition roleIncludes (role target : string) : bool :=
  (0 <? roleLevel role) && (0 <? roleLevel target) && (roleLevel target <=? roleLevel role).

Definition HasRole (id : option Identity) (workspaceID role : string) : bool :=
  match id with
  | None => false
  | Some _ =>
      let resolved := GetWorkspaceRole id workspaceID in
      negb (String.eqb resolved "") && (String.eqb resolved role || roleIncludes resolved role)
  end.

Definition HasWorkspaceAccess (id : option Identity) (workspaceID : string) : bool :=
  match id with
  | None => false
  | Some _ => negb (String.eqb (GetWorkspaceRole id workspaceID) "")
  end.

Definition IsSuperAdmin (id : option Identity) : bool :=
  match id with
  | None => false
  | Some id => String.eqb (roleAt id "*") "super_admin"
  end.

Definition IsAdmin (id : option Identity) (workspaceID : string) : bool := HasRole id workspaceID "admin".
Definition CanRead (id : option Identity) (workspaceID : string) : bool := HasRole id workspaceID "viewer".
Definition CanWrite (id : option Identity) (workspaceID : string) : bool := HasRole id workspaceID "editor".

Definition Anonymous : Identity := mkIdentity "anonymous" "anonymous" ∅ "" "".

(** ** Lemmas *)

Lemma GetWorkspaceRole_super id ws : IsSuperAdmin (Some id) = true -> GetWorkspaceRole (Some id) ws = "super_admin".
Proof.
  unfold IsSuperAdmin, GetWorkspaceRole, roleAt. intros H%String.eqb_eq.
  destruct (Roles id !! "*") as [r|]; simpl in H; [subst|done]. by rewrite bool_decide_eq_true_2.
Qed.

Lemma GetWorkspaceRole_plain id ws :
  IsSuperAdmin (Some id) = false ->
  GetWorkspaceRole (Some id) ws = default (roleAt id "*") (Roles id !! ws).
Proof.
  unfold IsSuperAdmin, GetWorkspaceRole, roleAt. intros H%String.eqb_neq.
  rewrite bool_decide_eq_false_2; [by destruct (Roles id !! ws)|]. intros E. by rewrite E in H.
Qed.

Lemma roleIncludes_trans a b c : roleIncludes a b = true -> roleIncludes b c = true -> roleIncludes a c = true.
Proof. unfold roleIncludes. rewrite !andb_true_iff, !Z.ltb_lt, !Z.leb_le. lia. Qed.

(** Roles form a hierarchy per workspace. Having a role implies having every
    role below it; a workspace assignment replaces the inherited global role (an
    empty assignment removes access), except for a global [super_admin], who has
    every built-in role in every workspace; an anonymous principal has none. *)
Theorem HasRole_hierarchy id ws role :
  (HasRole id ws role = true -> forall below, roleIncludes role below = true -> HasRole id ws below = true)
  /\ (IsSuperAdmin id = true -> 0 < roleLevel role -> HasRole id ws role = true)
  /\ (forall i r, id = Some i -> IsSuperAdmin id = false -> Roles i !! ws = Some r ->
        HasRole id ws role = negb (String.eqb r "") && (String.eqb r role || roleIncludes r role))
  /\ HasRole (Some Anonymous) ws role = false.
Proof.
  split_and!.
  - unfold HasRole. destruct id as [id|]; [|done]. rewrite !andb_true_iff, !orb_true_iff, !String.eqb_eq.
    intros [Hne Hr] below Hb. rewrite Hne. cbn [andb]. apply orb_true_iff. right.
    destruct Hr as [->|Hr]; [done|]. by apply (roleIncludes_trans _ role).
  - destruct id as [id|]; [|done]. intros Hs Hl. unfold HasRole. rewrite (GetWorkspaceRole_super id ws Hs). simpl.
    apply orb_true_iff. right. unfold roleIncludes. rewrite !andb_true_iff, !Z.ltb_lt, !Z.leb_le.
    split_and!; [done|done|]. unfold roleLevel in *. simpl in *.
    repeat (destruct (String.eqb role _); simpl in *; [lia|]). lia.
  - intros i r -> Hs Hr. unfold HasRole. by rewrite (GetWorkspaceRole_plain i ws Hs), Hr.
  - unfold HasRole, GetWorkspaceRole, Anonymous, roleAt. simpl. by rewrite !lookup_empty.
Qed.
