(* ===== verification/Sessions.v ===== *)
(** * Browser sessions ([internal/store/store_sessions.go], [internal/identity/session.go])

    The table [browser_sessions] with the operations of the store, and the
    validation of a request against it. Instants are nanoseconds; a TIMESTAMP
    column holds microseconds, so every instant bound to a statement goes through
    [ts]. The digest of a token ([HashSessionToken], SHA-256), the claims of a
    provider and their mapping to roles are variables. *)

From S2P Require Import Prelude Identity ProtocolRequest.

(** [t.Truncate(time.Microsecond)]. *)
Definition ts (t : Z) : Z := t - t mod 1000.

Definition SessionRotationGrace : Z := 30 * 1000000000.

Section Sessions.
Context {Claims : Type} (HashSessionToken : string -> string).

Record BrowserSession : Type := mkSession {
  SesID : string;
  TokenHash : string;
  CSRFHash : string;
  PreviousTokenHash : string;
  PreviousCSRFHash : string;
  PreviousValidUntil : option Z;
  SesSubject : string;
  SesAuthMethod : string;
  SesRoles : gmap string string;
  SesClaims : Claims;
  CredentialID : string;
  SesFingerprint : string;
  LastSeenAt : Z;
  IdleExpiresAt : Z;
  SesExpiresAt : Z;
  RevokedAt : option Z
}.

(** The rows by their primary key. *)
Abbreviation sessions := (gmap string BrowserSession).

Inductive sessionErr : Type := RoleUnknown (role : string) | ConstraintViolated | ErrNotFound | ErrSessionRotated.

(** The column [token_hash] is UNIQUE. *)
Definition tokenTaken (tbl : sessions) (id hash : string) : bool :=
  map_existsb (fun k s => negb (String.eqb k id) && String.eqb (TokenHash s) hash) tbl.

Definition with_times (s : BrowserSession) (lastSeen idle : Z) : BrowserSession :=
  mkSession (SesID s) (TokenHash s) (CSRFHash s) (PreviousTokenHash s) (PreviousCSRFHash s)
    (PreviousValidUntil s) (SesSubject s) (SesAuthMethod s) (SesRoles s) (SesClaims s) (CredentialID s)
    (SesFingerprint s) lastSeen idle (SesExpiresAt s) (RevokedAt s).

Definition with_revoked (s : BrowserSession) (at_ : Z) : BrowserSession :=
  mkSession (SesID s) (TokenHash s) (CSRFHash s) (PreviousTokenHash s) (PreviousCSRFHash s)
    (PreviousValidUntil s) (SesSubject s) (SesAuthMethod s) (SesRoles s) (SesClaims s) (CredentialID s)
    (SesFingerprint s) (LastSeenAt s) (IdleExpiresAt s) (SesExpiresAt s) (Some at_).

Definition with_rotation (s : BrowserSession) (tokenHash csrfHash : string) (until seen idle : Z) : BrowserSession :=
  mkSession (SesID s) tokenHash csrfHash (TokenHash s) (CSRFHash s) (Some until) (SesSubject s)
    (SesAuthMethod s) (SesRoles s) (SesClaims s) (CredentialID s) (SesFingerprint s) seen idle
    (SesExpiresAt s) (RevokedAt s).

(** The row of a new session: the previous-token columns have their defaults. *)
Definition newRow (s : BrowserSession) : BrowserSession :=
  mkSession (SesID s) (TokenHash s) (CSRFHash s) "" "" None (SesSubject s) (SesAuthMethod s) (SesRoles s)
    (SesClaims s) (CredentialID s) (SesFingerprint s) (ts (LastSeenAt s)) (ts (IdleExpiresAt s))
    (ts (SesExpiresAt s)) (ts <$> RevokedAt s).

(** [CreateBrowserSession], the identifier and the creation time filled in;
    [roleExists] is [GetRole]. *)
Definition CreateBrowserSession (tbl : sessions) (roleExists : string -> bool) (s : BrowserSession)
    : sessionErr + sessions :=
  match List.find (fun kv => negb (roleExists kv.2)) (map_to_list (SesRoles s)) with
  | Some kv => inl (RoleUnknown kv.2)
  | None =>
      match tbl !! SesID s with
      | Some _ => inl ConstraintViolated
      | None =>
          if tokenTaken tbl (SesID s) (TokenHash s) then inl ConstraintViolated
          else inr (<[SesID s := newRow s]> tbl)
      end
  end.

(** The condition of the SELECT. *)
Definition matchesToken (hash : string) (now : Z) (s : BrowserSession) : bool :=
  String.eqb (TokenHash s) hash
  || (String.eqb (PreviousTokenHash s) hash
      && match PreviousValidUntil s with Some u => ts now <? u | None => false end).

Definition GetBrowserSessionByTokenHash (tbl : sessions) (hash : string) (now : Z) : option BrowserSession :=
  snd <$> List.find (fun kv => matchesToken hash now kv.2) (map_to_list tbl).

(** An UPDATE of the row [id] under the condition [cond]. *)
Definition updateRow (tbl : sessions) (id : string) (cond : BrowserSession -> bool)
    (f : BrowserSession -> BrowserSession) (none : sessionErr) : sessionErr + sessions :=
  match tbl !! id with
  | Some s => if cond s then inr (<[id := f s]> tbl) else inl none
  | None => inl none
  end.

Definition isNull {A} (o : option A) : bool := match o with None => true | Some _ => false end.

Definition TouchBrowserSession (tbl : sessions) (id : string) (seenAt idleExpiresAt : Z) : sessionErr + sessions :=
  updateRow tbl id (fun s => isNull (RevokedAt s)) (fun s => with_times s (ts seenAt) (ts idleExpiresAt)) ErrNotFound.

(** The WHERE clause of a rotation: the caller still has the current token, the
    session is alive, and no earlier rotation is in its grace period. *)
Definition rotatable (expectedHash : string) (seenAt : Z) (s : BrowserSession) : bool :=
  String.eqb (TokenHash s) expectedHash && isNull (RevokedAt s)
  && (ts seenAt <? SesExpiresAt s) && (ts seenAt <? IdleExpiresAt s)
  && match PreviousValidUntil s with Some u => u <=? ts seenAt | None => true end.

Definition RotateBrowserSession (tbl : sessions) (id expectedHash tokenHash csrfHash : string)
    (seenAt idleExpiresAt : Z) : sessionErr + sessions :=
  match tbl !! id with
  | Some s =>
      if rotatable expectedHash seenAt s then
        if tokenTaken tbl id tokenHash then inl ConstraintViolated
        else inr (<[id := with_rotation s tokenHash csrfHash (ts (seenAt + SessionRotationGrace)) (ts seenAt)
                     (Z.min (ts idleExpiresAt) (SesExpiresAt s))]> tbl)
      else inl ErrSessionRotated
  | None => inl ErrSessionRotated
  end.

Definition RevokeBrowserSession (tbl : sessions) (id : string) (revokedAt : Z) : sessionErr + sessions :=
  updateRow tbl id (fun s => isNull (RevokedAt s)) (fun s => with_revoked s (ts revokedAt)) ErrNotFound.

Definition DeleteExpiredBrowserSessions (tbl : sessions) (now : Z) : sessions :=
  filter (fun kv => ts now < SesExpiresAt kv.2 /\ ts now < IdleExpiresAt kv.2 /\ RevokedAt kv.2 = None) tbl.

(** ** Validation of a request *)

Record APIKey : Type := mkAPIKey {
  KeyRevoked : bool;
  KeyExpiresAt : option Z;
  KeyWorkspaceID : option string;
  KeyRoleID : string
}.

(** [SessionValidator] with what it asks the catalog: API keys by identifier
    (when the catalog has that lookup), the roles of a set of claims and the
    active signing key. *)
Record SessionValidator : Type := mkValidator {
  apiKeyByID : option (string -> option APIKey);
  claimsToRoles : Claims -> option (gmap string string);
  activeSigningKey : option string;
  DefaultRole : string;
  staticHash : string;
  basicHashes : gmap string string
}.

Inductive cookie : Type := NoCookie | BadCookie | Cookie (value : string).

Inductive authErr : Type :=
| InvalidSessionCookie | InvalidSession | SessionExpired | CSRFFailed | LookupUnavailable
| CredentialRevoked | RolesUnresolved | SigningKeyRotated | CredentialChanged
| UnsupportedMethod (m : string).

Inductive validated : Type :=
| NoSession
| Rejected (e : authErr)
| Accepted (id : Identity) (tokenHash : string) (previous : bool).

Definition isUnsafeMethod (method : string) : bool := negb (isOneOf method ["GET"; "HEAD"; "OPTIONS"; "TRACE"]).

(** The roles the credential of the session has now. *)
Definition credentialRoles (v : SessionValidator) (s : BrowserSession) (now : Z)
    : authErr + gmap string string :=
  let m := SesAuthMethod s in
  if String.eqb m "apikey" then
    match apiKeyByID v with
    | None => inl LookupUnavailable
    | Some lookup =>
        match lookup (CredentialID s) with
        | None => inl CredentialRevoked
        | Some key =>
            if KeyRevoked key || match KeyExpiresAt key with Some e => e <=? now | None => false end
            then inl CredentialRevoked
            else inr {[default "*" (KeyWorkspaceID key) := KeyRoleID key]}
        end
    end
  else if String.eqb m "oidc" then
    match claimsToRoles v (SesClaims s) with Some roles => inr roles | None => inl RolesUnresolved end
  else if String.eqb m "jwt" then
    match activeSigningKey v with
    | None => inl SigningKeyRotated
    | Some key =>
        if negb (String.eqb (CredentialID s) "") && negb (String.eqb key (CredentialID s))
        then inl SigningKeyRotated else inr (SesRoles s)
    end
  else if String.eqb m "basic" || String.eqb m "password" then
    let h := default "" (basicHashes v !! SesSubject s) in
    if String.eqb h "" || negb (String.eqb h (SesFingerprint s)) then inl CredentialChanged
    else inr {["*" := DefaultRole v]}
  else if String.eqb m "static_apikey" then
    if String.eqb (staticHash v) "" || negb (String.eqb (staticHash v) (SesFingerprint s)) then inl CredentialChanged
    else inr {["*" := DefaultRole v]}
  else inl (UnsupportedMethod m).

(** [csrfOk]: the test of a mutating request. *)
Definition csrfOk (s : BrowserSession) (grace : bool) (csrf : string) : bool :=
  negb (String.eqb csrf "")
  && (String.eqb (HashSessionToken csrf) (CSRFHash s)
      || grace && String.eqb (HashSessionToken csrf) (PreviousCSRFHash s)).

(** [nowDB] is the clock when the row is read, [now] after it. *)
Definition ValidateRequest (v : SessionValidator) (tbl : sessions) (nowDB now : Z) (c : cookie)
    (method csrf : string) (d : Descriptor) : validated :=
  match c with
  | NoCookie => NoSession
  | BadCookie => Rejected InvalidSessionCookie
  | Cookie value =>
      if isBlank value then NoSession
      else
        match GetBrowserSessionByTokenHash tbl (HashSessionToken value) nowDB with
        | None => Rejected InvalidSession
        | Some s =>
            if negb (isNull (RevokedAt s)) || (SesExpiresAt s <=? now) || (IdleExpiresAt s <=? now)
            then Rejected SessionExpired
            else
              let previousToken := negb (String.eqb (TokenHash s) (HashSessionToken value)) in
              let grace := match PreviousValidUntil s with Some u => now <? u | None => false end in
              if previousToken && negb grace then Rejected SessionExpired
              else if (isUnsafeMethod method || Mutating d method) && negb (csrfOk s grace csrf)
              then Rejected CSRFFailed
              else
                match credentialRoles v s now with
                | inl e => Rejected e
                | inr roles =>
                    Accepted (mkIdentity (SesSubject s) (SesAuthMethod s) roles
                                (if String.eqb (SesAuthMethod s) "apikey" then CredentialID s else "") (SesID s))
                      (HashSessionToken value) previousToken
                end
        end
  end.

End Sessions.

Arguments BrowserSession : clear implicits.
Arguments SessionValidator : clear implicits.

(** ** Runs of the store *)

Section SessionRuns.
Context {Claims : Type}.
Implicit Types (tbl : gmap string (BrowserSession Claims)) (s : BrowserSession Claims).

Inductive sesEvent : Type :=
| EvCreate (roleExists : string -> bool) (s : BrowserSession Claims)
| EvTouch (id : string) (seenAt idleExpiresAt : Z)
| EvRotate (id expectedHash tokenHash csrfHash : string) (seenAt idleExpiresAt : Z)
| EvRevoke (id : string) (revokedAt : Z)
| EvCleanup (now : Z).

(** A failed statement leaves the table as it was. *)
Definition orElse tbl (r : sessionErr + gmap string (BrowserSession Claims)) : gmap string (BrowserSession Claims) :=
  match r with inr tbl' => tbl' | inl _ => tbl end.

Definition sesStep tbl (ev : sesEvent) : gmap string (BrowserSession Claims) :=
  match ev with
  | EvCreate roleExists s => orElse tbl (CreateBrowserSession tbl roleExists s)
  | EvTouch id seenAt idle => orElse tbl (TouchBrowserSession tbl id seenAt idle)
  | EvRotate id expected tok csrf seenAt idle => orElse tbl (RotateBrowserSession tbl id expected tok csrf seenAt idle)
  | EvRevoke id at_ => orElse tbl (RevokeBrowserSession tbl id at_)
  | EvCleanup now => DeleteExpiredBrowserSessions tbl now
  end.

(** The token an event brings into the table. *)
Definition newToken (ev : sesEvent) : option string :=
  match ev with
  | EvCreate _ s => Some (TokenHash s)
  | EvRotate _ _ tok _ _ _ => Some tok
  | _ => None
  end.

Definition createsId (id : string) (ev : sesEvent) : bool :=
  match ev with EvCreate _ s => String.eqb (SesID s) id | _ => false end.

(** Tokens are drawn at random: a new one is not in the table. *)
Definition tokenFresh tbl (h : string) : Prop :=
  forall k s, tbl !! k = Some s -> TokenHash s <> h /\ PreviousTokenHash s <> h.

Inductive sesRun : gmap string (BrowserSession Claims) -> list sesEvent -> gmap string (BrowserSession Claims) -> Prop :=
| ses_nil tbl : sesRun tbl [] tbl
| ses_cons tbl ev evs tbl' :
    (forall h, newToken ev = Some h -> tokenFresh tbl h) ->
    sesRun (sesStep tbl ev) evs tbl' -> sesRun tbl (ev :: evs) tbl'.

Lemma updateRow_inr tbl id cond f e tbl' :
  updateRow tbl id cond f e = inr tbl' ->
  exists s, tbl !! id = Some s /\ cond s = true /\ tbl' = <[id := f s]> tbl.
Proof.
  unfold updateRow. destruct (tbl !! id) as [s|]; [|done].
  destruct (cond s) eqn:E; [|done]. intros [= <-]. eauto.
Qed.

Lemma isNull_true {A} (o : option A) : isNull o = true -> o = None.
Proof. by destruct o. Qed.

(** What a step does, with the token and the identifier it brings in. *)
Lemma sesStep_change tbl ev :
  (exists s, sesStep tbl ev = <[SesID s := newRow s]> tbl /\ tbl !! SesID s = None
     /\ newToken ev = Some (TokenHash s) /\ createsId (SesID s) ev = true)
  \/ (exists id s seen idle, sesStep tbl ev = <[id := with_times s seen idle]> tbl
     /\ tbl !! id = Some s /\ RevokedAt s = None)
  \/ (exists id s expected tok csrf seenAt idle, tbl !! id = Some s /\ rotatable expected seenAt s = true
     /\ newToken ev = Some tok
     /\ sesStep tbl ev = <[id := with_rotation s tok csrf (ts (seenAt + SessionRotationGrace)) (ts seenAt)
                            (Z.min (ts idle) (SesExpiresAt s))]> tbl)
  \/ (exists id s at_, sesStep tbl ev = <[id := with_revoked s at_]> tbl
     /\ tbl !! id = Some s /\ RevokedAt s = None)
  \/ sesStep tbl ev ⊆ tbl.
Proof.
  destruct ev as [re s|id seen idle|id expected tok csrf seenAt idle|id at_|now]; simpl.
  - unfold CreateBrowserSession. destruct (List.find _ _); [do 4 right; done|].
    destruct (tbl !! SesID s) eqn:E; [do 4 right; done|].
    destruct (tokenTaken _ _ _) eqn:Et; [do 4 right; done|].
    left. exists s. split_and!; try done. apply String.eqb_refl.
  - destruct (TouchBrowserSession tbl id seen idle) eqn:E; [do 4 right; done|].
    apply updateRow_inr in E as (s & Hs & Hc%isNull_true & ->). right. left. eauto 10.
  - unfold RotateBrowserSession. destruct (tbl !! id) as [s|] eqn:E; [|do 4 right; done].
    destruct (rotatable expected seenAt s) eqn:Er; [|do 4 right; done].
    destruct (tokenTaken _ _ _) eqn:Et; [do 4 right; done|]. right. right. left. eauto 15.
  - destruct (RevokeBrowserSession tbl id at_) eqn:E; [do 4 right; done|].
    apply updateRow_inr in E as (s & Hs & Hc%isNull_true & ->). do 3 right. left. eauto 10.
  - do 4 right. apply map_filter_subseteq.
Qed.

(** Rows are stored under their identifier; a current token belongs to one row,
    and is not the previous token of another. *)
Record sesInv tbl : Prop := mkSesInv {
  si_keyed : forall k s, tbl !! k = Some s -> SesID s = k;
  si_token : forall k k' s s', tbl !! k = Some s -> tbl !! k' = Some s' -> TokenHash s = TokenHash s' -> k = k';
  si_previous : forall k k' s s', tbl !! k = Some s -> tbl !! k' = Some s' ->
    PreviousTokenHash s = TokenHash s' -> k = k' \/ PreviousValidUntil s = None
}.

Lemma sesInv_subseteq tbl tbl' : sesInv tbl -> tbl' ⊆ tbl -> sesInv tbl'.
Proof.
  intros [Hk Ht Hp] Hs. assert (W : forall k s, tbl' !! k = Some s -> tbl !! k = Some s)
    by (intros k s Hl; by apply (lookup_weaken _ _ _ _ Hl)).
  split; intros; eauto.
Qed.

(** A row replaced by one with the same identifier and tokens. *)
Lemma sesInv_update tbl id s s' :
  sesInv tbl -> tbl !! id = Some s -> SesID s' = SesID s -> TokenHash s' = TokenHash s ->
  PreviousTokenHash s' = PreviousTokenHash s -> PreviousValidUntil s' = PreviousValidUntil s ->
  sesInv (<[id := s']> tbl).
Proof.
  intros [Hk Ht Hp] Hs Ei Et Ep Eu.
  assert (H : forall k r, <[id := s']> tbl !! k = Some r -> exists r0, tbl !! k = Some r0 /\ SesID r = SesID r0
    /\ TokenHash r = TokenHash r0 /\ PreviousTokenHash r = PreviousTokenHash r0
    /\ PreviousValidUntil r = PreviousValidUntil r0).
  { intros k r [[<- <-]|[_ Hr]]%lookup_insert_Some; eauto 10. }
  split.
  - intros k r (r0 & Hr0 & -> & _)%H. eauto.
  - intros k k' r r' (r0 & Hr0 & _ & -> & _)%H (r1 & Hr1 & _ & -> & _)%H. eauto.
  - intros k k' r r' (r0 & Hr0 & _ & _ & -> & ->)%H (r1 & Hr1 & _ & -> & _)%H. eauto.
Qed.

Lemma sesStep_inv tbl ev :
  sesInv tbl -> (forall h, newToken ev = Some h -> tokenFresh tbl h) -> sesInv (sesStep tbl ev).
Proof.
  intros Hi Hf. destruct (sesStep_change tbl ev) as [(s & -> & Hn & Ht & _)|[(id & s & seen & idle & -> & Hs & _)|
    [(id & s & expected & tok & csrf & seenAt & idle & Hs & _ & Ht & ->)|[(id & s & at_ & -> & Hs & _)|Hsub]]]].
  - specialize (Hf _ Ht). destruct Hi as [Hk Hu Hp]. split.
    + intros k r [[<- <-]|[_ Hr]]%lookup_insert_Some; eauto.
    + intros k k' r r' [[<- <-]|[_ Hr]]%lookup_insert_Some [[<- <-]|[_ Hr']]%lookup_insert_Some; simpl; eauto;
        [intros E; by destruct (Hf _ _ Hr')|intros E; by destruct (Hf _ _ Hr)].
    + intros k k' r r' [[<- <-]|[_ Hr]]%lookup_insert_Some [[<- <-]|[_ Hr']]%lookup_insert_Some; simpl; eauto.
      intros E. by destruct (Hf _ _ Hr).
  - by apply (sesInv_update tbl id s).
  - specialize (Hf _ Ht). destruct Hi as [Hk Hu Hp]. split.
    + intros k r [[<- <-]|[_ Hr]]%lookup_insert_Some; simpl; eauto.
    + intros k k' r r' [[<- <-]|[_ Hr]]%lookup_insert_Some [[<- <-]|[_ Hr']]%lookup_insert_Some; simpl; eauto;
        [intros E; by destruct (Hf _ _ Hr')|intros E; by destruct (Hf _ _ Hr)].
    + intros k k' r r' [[<- <-]|[_ Hr]]%lookup_insert_Some [[<- <-]|[_ Hr']]%lookup_insert_Some; simpl; eauto.
      intros E. by destruct (Hf _ _ Hr).
  - by apply (sesInv_update tbl id s).
  - by apply (sesInv_subseteq tbl).
Qed.

Lemma sesRun_inv tbl evs tbl' : sesRun tbl evs tbl' -> sesInv tbl -> sesInv tbl'.
Proof. induction 1 as [|tbl ev evs tbl' Hf _ IH]; [done|]. intros Hi. by apply IH, sesStep_inv. Qed.

Lemma sesInv_empty : sesInv ∅.
Proof. split; intros *; by rewrite lookup_empty. Qed.

Lemma GetBrowserSession_Some tbl h now s :
  GetBrowserSessionByTokenHash tbl h now = Some s ->
  exists k, tbl !! k = Some s /\ matchesToken h now s = true.
Proof.
  unfold GetBrowserSessionByTokenHash. destruct (List.find _ _) as [[k s']|] eqn:E; [|done].
  intros [= <-]. apply find_some in E as [Hin Hm]. exists k.
  by rewrite <- list_elem_of_In, elem_of_map_to_list in Hin.
Qed.

(** A revoked row is frozen until it is deleted. *)
Lemma revoked_frozen tbl evs tbl' id s :
  sesRun tbl evs tbl' -> Forall (fun ev => createsId id ev = false) evs ->
  (forall r, tbl !! id = Some r -> r = s) -> RevokedAt s <> None ->
  forall r, tbl' !! id = Some r -> r = s.
Proof.
  intros Hr Hc Hs Hrev. revert Hc Hs. induction Hr as [|tbl ev evs tbl' _ _ IH]; [done|].
  intros [Hc Hcs]%Forall_cons Hs. apply IH; [done|]. intros r Hl.
  destruct (sesStep_change tbl ev) as [(s0 & E & Hn & _ & Hcr)|[(k & s0 & seen & idle & E & Hk & Hnr)|
    [(k & s0 & expected & tok & csrf & seenAt & idle & Hk & Hrot & Ht & E)|[(k & s0 & at_ & E & Hk & Hnr)|Hsub]]]];
    try rewrite E in Hl.
  - apply lookup_insert_Some in Hl as [[<- _]|[_ Hl]]; [congruence|auto].
  - apply lookup_insert_Some in Hl as [[<- _]|[_ Hl]]; [|auto]. by rewrite (Hs _ Hk) in Hnr.
  - apply lookup_insert_Some in Hl as [[<- _]|[_ Hl]]; [|auto]. unfold rotatable in Hrot.
    rewrite (Hs _ Hk), !andb_true_iff in Hrot. destruct Hrot as [[[[_ Hn%isNull_true] _] _] _]. congruence.
  - apply lookup_insert_Some in Hl as [[<- _]|[_ Hl]]; [|auto]. by rewrite (Hs _ Hk) in Hnr.
  - apply Hs. by apply (lookup_weaken _ _ _ _ Hl).
Qed.

(** After a rotation away from [old], no row accepts [old] past the grace period. *)
Definition retired tbl (old : string) (until : Z) : Prop :=
  forall k s, tbl !! k = Some s -> TokenHash s <> old
    /\ (PreviousTokenHash s = old -> forall u, PreviousValidUntil s = Some u -> u <= until).

Lemma retired_run tbl evs tbl' old until :
  sesRun tbl evs tbl' -> Forall (fun ev => newToken ev <> Some old) evs ->
  retired tbl old until -> retired tbl' old until.
Proof.
  intros Hr. induction Hr as [|tbl ev evs tbl' _ _ IH]; [done|].
  intros [Hc Hcs]%Forall_cons Hs. apply IH; [done|]. intros k r Hl.
  destruct (sesStep_change tbl ev) as [(s0 & E & Hn & Ht & _)|[(k0 & s0 & seen & idle & E & Hk & _)|
    [(k0 & s0 & expected & tok & csrf & seenAt & idle & Hk & _ & Ht & E)|[(k0 & s0 & at_ & E & Hk & _)|Hsub]]]];
    try rewrite E in Hl; [apply lookup_insert_Some in Hl as [[<- <-]|[_ Hl]]; [simpl|by apply (Hs k)]..|].
  - split; [congruence|done].
  - by apply (Hs k0).
  - destruct (Hs _ _ Hk) as [Hne _]. split; congruence.
  - by apply (Hs k0).
  - by apply (Hs k), (lookup_weaken _ _ _ _ Hl).
Qed.

Lemma retired_get tbl old until now :
  retired tbl old until -> until <= ts now -> GetBrowserSessionByTokenHash tbl old now = None.
Proof.
  intros Hr Hn. destruct (GetBrowserSessionByTokenHash tbl old now) as [s|] eqn:E; [|done].
  apply GetBrowserSession_Some in E as (k & Hk & Hm). destruct (Hr k s Hk) as [Hne Hp].
  unfold matchesToken in Hm. apply orb_true_iff in Hm as [Hm%String.eqb_eq|Hm]; [done|].
  apply andb_true_iff in Hm as [Hm%String.eqb_eq Hu]. destruct (PreviousValidUntil s) as [u|]; [|done].
  specialize (Hp Hm u eq_refl). apply Z.ltb_lt in Hu. lia.
Qed.
End SessionRuns.

(** ** Theorems *)

Section SessionTheorems.
Context {Claims : Type} (HashSessionToken : string -> string).
Implicit Types (tbl : gmap string (BrowserSession Claims)) (s : BrowserSession Claims).

(** The row and the guards behind an accepted request. *)
Lemma ValidateRequest_inv (v : SessionValidator Claims) tbl nowDB now c method csrf d i h p :
  ValidateRequest HashSessionToken v tbl nowDB now c method csrf d = Accepted i h p ->
  exists value s, c = Cookie value /\ h = HashSessionToken value
    /\ GetBrowserSessionByTokenHash tbl h nowDB = Some s /\ SessionID i = SesID s
    /\ RevokedAt s = None /\ now < SesExpiresAt s /\ now < IdleExpiresAt s
    /\ (TokenHash s = h \/ exists u, PreviousValidUntil s = Some u /\ now < u)
    /\ (isUnsafeMethod method || Mutating d method = true ->
          csrfOk HashSessionToken s match PreviousValidUntil s with Some u => now <? u | None => false end csrf = true)
    /\ credentialRoles v s now = inr (Roles i).
Proof.
  unfold ValidateRequest. destruct c as [| |value]; [done..|]. destruct (isBlank value); [done|].
  destruct (GetBrowserSessionByTokenHash _ _ _) as [s|] eqn:Eg; [|done].
  destruct (negb _ || _ || _) eqn:Ee; [done|].
  apply orb_false_iff in Ee as [[Er%negb_false_iff%isNull_true Ex%Z.leb_gt]%orb_false_iff Ei%Z.leb_gt].
  destruct (_ && negb match PreviousValidUntil s with _ => _ end) eqn:Eg'; [done|].
  destruct (_ && negb (csrfOk _ _ _ _)) eqn:Ec; [done|].
  destruct (credentialRoles v s now) as [e|roles] eqn:Er'; [done|]. intros [= <- <- <-].
  exists value, s. split_and!; try done; simpl.
  - apply andb_false_iff in Eg' as [Ht%negb_false_iff%String.eqb_eq|Ht%negb_false_iff]; [by left|right].
    destruct (PreviousValidUntil s) as [u|]; [|done]. exists u. by apply Z.ltb_lt in Ht.
  - intros Hm. rewrite Hm in Ec. by apply negb_false_iff.
Qed.

(** Revocation is final. From any state of the table the store can reach,
    once a session is revoked no request is accepted for it, whatever touches,
    rotations, sign-ins and cleanups follow. *)
Theorem revoked_session_refused evs0 tbl id s evs tbl' (v : SessionValidator Claims) nowDB now c method csrf d i h p :
  sesRun ∅ evs0 tbl -> tbl !! id = Some s -> RevokedAt s <> None ->
  sesRun tbl evs tbl' -> Forall (fun ev => createsId id ev = false) evs ->
  ValidateRequest HashSessionToken v tbl' nowDB now c method csrf d = Accepted i h p ->
  SessionID i <> id.
Proof.
  intros Hr0 Hs Hrev Hr Hc (value & r & _ & _ & Hg & Hid & Hnr & _)%ValidateRequest_inv Hi.
  apply GetBrowserSession_Some in Hg as (k & Hk & _).
  pose proof (sesRun_inv _ _ _ Hr (sesRun_inv _ _ _ Hr0 sesInv_empty)) as Hinv.
  pose proof (si_keyed _ Hinv _ _ Hk). apply Hrev.
  rewrite <- (revoked_frozen tbl evs tbl' id s Hr Hc ltac:(intros; congruence) Hrev r); [done|congruence].
Qed.

(** A rotated token dies. After a successful rotation the token it replaced
    is refused from the end of the grace period on (30 seconds, at the resolution
    of the column), in every later state of the table, as long as random tokens
    do not repeat. *)
Theorem rotated_token_retired evs0 tbl id old tok csrfHash seenAt idle tbl1 evs tbl' (v : SessionValidator Claims)
    nowDB now value method csrf d :
  sesRun ∅ evs0 tbl -> tokenFresh tbl tok ->
  RotateBrowserSession tbl id old tok csrfHash seenAt idle = inr tbl1 ->
  sesRun tbl1 evs tbl' -> Forall (fun ev => newToken ev <> Some old) evs ->
  HashSessionToken value = old -> ts (seenAt + SessionRotationGrace) <= ts nowDB ->
  ValidateRequest HashSessionToken v tbl' nowDB now (Cookie value) method csrf d
  = if isBlank value then NoSession else Rejected InvalidSession.
Proof.
  intros Hr0 Hf Hrot Hr Hc Hh Hn.
  assert (Hret : retired tbl1 old (ts (seenAt + SessionRotationGrace))).
  { pose proof (sesRun_inv _ _ _ Hr0 sesInv_empty) as [Hk Hu Hp]. unfold RotateBrowserSession in Hrot.
    destruct (tbl !! id) as [s|] eqn:Hs; [|done]. destruct (rotatable old seenAt s) eqn:E; [|done].
    destruct (tokenTaken _ _ _); [done|]. injection Hrot as <-. unfold rotatable in E.
    rewrite !andb_true_iff in E. destruct E as [[[[E%String.eqb_eq _] _] _] _].
    intros k r [[<- <-]|[Hne Hl]]%lookup_insert_Some; simpl.
    - split; [|intros _ u [= <-]; lia]. rewrite <- E. by apply not_eq_sym, (Hf id).
    - rewrite <- E. split; [intros Et; apply Hne; by apply (Hu id k s r)|].
      intros Ep u Eu. destruct (Hp k id r s Hl Hs Ep); [by subst|congruence]. }
  unfold ValidateRequest. destruct (isBlank value); [done|].
  by rewrite Hh, (retired_get _ _ _ _ (retired_run _ _ _ _ _ Hr Hc Hret) Hn).
Qed.

(** One refresh wins. After a successful rotation, another rotation that
    expects the replaced token fails, and so does any rotation of the session
    during the grace period, so at most two tokens are ever valid; the session's
    end is not moved and its idle expiry does not pass it. *)
Theorem rotation_single_winner tbl id old tok csrfHash seenAt idle tbl1 :
  RotateBrowserSession tbl id old tok csrfHash seenAt idle = inr tbl1 -> tok <> old ->
  (forall tok' csrf' seen' idle',
     RotateBrowserSession tbl1 id old tok' csrf' seen' idle' = inl ErrSessionRotated)
  /\ (forall expected tok' csrf' seen' idle', ts seen' < ts (seenAt + SessionRotationGrace) ->
     RotateBrowserSession tbl1 id expected tok' csrf' seen' idle' = inl ErrSessionRotated)
  /\ exists s s', tbl !! id = Some s /\ tbl1 !! id = Some s' /\ TokenHash s' = tok
     /\ SesExpiresAt s' = SesExpiresAt s /\ IdleExpiresAt s' <= SesExpiresAt s'.
Proof.
  intros Hrot Hne. unfold RotateBrowserSession in Hrot. destruct (tbl !! id) as [s|] eqn:Hs; [|done].
  destruct (rotatable old seenAt s); [|done]. destruct (tokenTaken _ _ _); [done|]. injection Hrot as <-.
  unfold RotateBrowserSession. rewrite lookup_insert_eq. unfold rotatable. simpl. split_and!.
  - intros. by rewrite (proj2 (String.eqb_neq _ _) Hne).
  - intros expected tok' csrf' seen' idle' Hlt. rewrite (proj2 (Z.leb_gt _ _) Hlt), !andb_false_r. done.
  - exists s. eexists. split_and!; try done. simpl. lia.
Qed.

(** C35: a session request is accepted only on a live session and a live
    credential: the row carries the presented token (or carried it until a
    rotation whose grace period has not ended), it is neither revoked nor
    expired; a mutating request shows the session's CSRF token; and the roles are
    those the credential has now. *)
Theorem ValidateRequest_sound (v : SessionValidator Claims) tbl nowDB now value method csrf d i h p :
  ValidateRequest HashSessionToken v tbl nowDB now (Cookie value) method csrf d = Accepted i h p ->
  exists k s, tbl !! k = Some s /\ SessionID i = SesID s
    /\ (TokenHash s = HashSessionToken value
        \/ PreviousTokenHash s = HashSessionToken value
           /\ exists u, PreviousValidUntil s = Some u /\ now < u /\ ts nowDB < u)
    /\ RevokedAt s = None /\ now < SesExpiresAt s /\ now < IdleExpiresAt s
    /\ (isUnsafeMethod method || Mutating d method = true -> csrf <> ""
        /\ (HashSessionToken csrf = CSRFHash s
            \/ HashSessionToken csrf = PreviousCSRFHash s
               /\ exists u, PreviousValidUntil s = Some u /\ now < u))
    /\ credentialRoles v s now = inr (Roles i).
Proof.
  intros (value' & s & [= <-] & -> & Hg & Hid & Hrev & Hx & Hidle & Htok & Hcsrf & Hroles)%ValidateRequest_inv.
  apply GetBrowserSession_Some in Hg as (k & Hk & Hm). exists k, s. split_and!; try done.
  - destruct Htok as [|(u & Hu & Hlt)]; [by left|]. unfold matchesToken in Hm. rewrite Hu in Hm.
    apply orb_true_iff in Hm as [Hm%String.eqb_eq|[Hp%String.eqb_eq Hl%Z.ltb_lt]%andb_true_iff]; [by left|].
    right. split; [done|]. eauto.
  - intros Hmut. specialize (Hcsrf Hmut). unfold csrfOk in Hcsrf.
    apply andb_true_iff in Hcsrf as [Hne%negb_true_iff%String.eqb_neq Hc]. split; [done|].
    apply orb_true_iff in Hc as [Hc%String.eqb_eq|[Hgr Hc%String.eqb_eq]%andb_true_iff]; [by left|right].
    split; [done|]. destruct (PreviousValidUntil s) as [u|]; [|done]. apply Z.ltb_lt in Hgr. eauto.
Qed.
End SessionTheorems.

(** ** Witnesses *)

(** The digest of the examples: any function will do. *)
Definition demoHash (raw : string) : string := "h:" +:+ raw.

Definition demoSession : BrowserSession unit :=
  mkSession "s1" (demoHash "t1") (demoHash "c1") "" "" None "ada" "basic" ∅ tt "" "fp" 0 (3600 * 1000000000)
    (7200 * 1000000000) None.

Definition demoSessions : gmap string (BrowserSession unit) := sesStep ∅ (EvCreate (fun _ => true) demoSession).

Definition demoRotated : gmap string (BrowserSession unit) :=
  sesStep demoSessions (EvRotate "s1" (demoHash "t1") (demoHash "t2") (demoHash "c2") 1000 (3600 * 1000000000)).

Definition demoValidator : SessionValidator unit :=
  mkValidator None (fun _ => None) None "editor" "" {["ada" := "fp"]}.

Definition demoGet : Descriptor := mkDescriptor "" "" "GET" "" "" None.

Lemma demoSessions_run : sesRun ∅ [EvCreate (fun _ => true) demoSession] demoSessions.
Proof.
  apply ses_cons; [|apply ses_nil]. intros h _ k s Hl. by rewrite lookup_empty in Hl.
Qed.

Lemma demoFresh h : h <> demoHash "t1" -> h <> "" -> tokenFresh demoSessions h.
Proof.
  intros H1 H2 k s Hl. assert (E : demoSessions = {["s1" := newRow demoSession]}) by reflexivity.
  rewrite E in Hl. apply lookup_singleton_Some in Hl as [<- <-]. simpl. split; by apply not_eq_sym.
Qed.

Lemma revoked_session_refused_witness :
  let tbl := sesStep demoSessions (EvRevoke "s1" 5000) in
  ~ (exists i h p, SessionID i = "s1"
       /\ ValidateRequest demoHash demoValidator tbl 6000 6000 (Cookie "t1") "GET" "" demoGet = Accepted i h p).
Proof.
  intros tbl (i & h & p & Hi & Hv). revert Hi.
  apply (revoked_session_refused demoHash [EvCreate (fun _ => true) demoSession; EvRevoke "s1" 5000] tbl "s1"
    (with_revoked (newRow demoSession) 5000) [] tbl demoValidator 6000 6000 (Cookie "t1") "GET" "" demoGet i h p).
  - apply ses_cons; [|apply ses_cons; [|apply ses_nil]].
    + intros h' _ k s Hl. by rewrite lookup_empty in Hl.
    + done.
  - reflexivity.
  - discriminate.
  - apply ses_nil.
  - constructor.
  - exact Hv.
Defined.

Lemma rotated_token_retired_witness :
  ValidateRequest demoHash demoValidator demoRotated 30000002000 30000002000 (Cookie "t1") "GET" "" demoGet
  = Rejected InvalidSession.
Proof.
  exact (rotated_token_retired demoHash [EvCreate (fun _ => true) demoSession] demoSessions "s1" (demoHash "t1")
    (demoHash "t2") (demoHash "c2") 1000 (3600 * 1000000000) demoRotated [] demoRotated demoValidator
    30000002000 30000002000 "t1" "GET" "" demoGet demoSessions_run
    (demoFresh (demoHash "t2") ltac:(vm_compute; discriminate) ltac:(vm_compute; discriminate)) eq_refl (ses_nil _) (Forall_nil_2 _) eq_refl
    ltac:(vm_compute; discriminate)).
Defined.

Lemma rotation_single_winner_witness :
  RotateBrowserSession demoRotated "s1" (demoHash "t1") (demoHash "t3") (demoHash "c3") 2000 (3600 * 1000000000)
  = inl ErrSessionRotated.
Proof.
  destruct (rotation_single_winner demoSessions "s1" (demoHash "t1") (demoHash "t2") (demoHash "c2") 1000
    (3600 * 1000000000) demoRotated eq_refl ltac:(vm_compute; discriminate)) as [H _]. apply H.
Defined.

Definition demoPrincipal : Identity := mkIdentity "ada" "basic" {["*" := "editor"]} "" "s1".

Lemma ValidateRequest_sound_witness :
  exists k s, demoRotated !! k = Some s /\ SesID s = "s1" /\ RevokedAt s = None.
Proof.
  destruct (ValidateRequest_sound demoHash demoValidator demoRotated 2000 2000 "t2" "POST" "c2" demoGet
    demoPrincipal (demoHash "t2") false ltac:(vm_compute; reflexivity))
    as (k & s & Hk & Hid & _ & Hr & _).
  exists k, s. exact (conj Hk (conj (eq_sym Hid) Hr)).
Defined.
