(* ===== verification/Rbac.v ===== *)
(** * Role-based access control ([internal/rbac])

    [Enforcer] wraps a Casbin engine, a third-party library: the class [Casbin]
    names the calls the code makes and [CasbinLaws] what Casbin documents of
    them for the model text of [rbac.go]. [listCasbin] is an instance that keeps
    the rules in a list; it shows that the laws can be met.

    The catalog keeps the rules in [casbin_rules] and the role names in [roles].
    Every operation runs under the enforcer's mutex; whether a statement of the
    database fails is an argument. *)

From S2P Require Import Prelude Identity ProtocolRequest.

(** ** The model of [rbac.go] *)

Definition ActionRead : string := "read".
Definition ActionWrite : string := "write".
Definition ActionDelete : string := "delete".
Definition ActionManage : string := "manage".

Definition RoleSuperAdmin : string := "super_admin".
Definition RoleAdmin : string := "admin".
Definition RoleEditor : string := "editor".
Definition RoleViewer : string := "viewer".

(** The matcher of the model text, for a rule [p = sub, ws, layer, act]. *)
Definition matcher (sub ws layer act : string) (p : list string) : bool :=
  match p with
  | [psub; pws; player; pact] =>
      String.eqb sub psub && (String.eqb pws "*" || String.eqb pws ws)
      && (String.eqb player "*" || String.eqb player layer) && (String.eqb pact "*" || String.eqb pact act)
  | _ => false
  end.

(** ** The engine *)

Class Casbin : Type := {
  Model : Type;
  emptyModel : Model;
  GetPolicy : Model -> list (list string);
  Enforce : Model -> string -> string -> string -> string -> option bool;
  AddPolicy : Model -> list string -> option Model;
  RemovePolicy : Model -> list string -> option Model;
  GetFilteredPolicy : Model -> nat -> string -> option (list (list string));
  LoadPolicyLine : string -> Model -> option Model
}.

(** A field that a CSV line gives back unchanged: printable ASCII without quote,
    hash sign or comma, not starting with a space. *)
Definition plainField (s : string) : bool :=
  negb (head_is " " s)
  && all_bytes (fun c => (32 <=? code c)%N && (code c <=? 126)%N
                         && negb (existsb (N.eqb (code c)) [34; 35; 44]%N)) s.

Definition plainRule (p : list string) : Prop := length p = 4%nat /\ forallb plainField p = true.

Definition addRule (p : list string) (l : list (list string)) : list (list string) :=
  if decide (p ∈ l) then l else l ++ [p].

Definition fieldMatches (i : nat) (v : string) (p : list string) : bool :=
  String.eqb v "" || nth_is p i v.

(** What Casbin documents: a request is allowed when some rule matches; adding a
    rule that is present and removing one that is absent change nothing; rules
    are looked up by a field, the empty value matching all; a policy line is a
    CSV record whose rule is added. *)
Class CasbinLaws (C : Casbin) : Prop := {
  empty_law : GetPolicy emptyModel = [];
  enforce_law m sub ws layer act :
    Forall (fun p => length p = 4%nat) (GetPolicy m) ->
    Enforce m sub ws layer act = Some (existsb (matcher sub ws layer act) (GetPolicy m));
  add_law m p : length p = 4%nat -> exists m', AddPolicy m p = Some m' /\ GetPolicy m' = addRule p (GetPolicy m);
  remove_law m p : exists m', RemovePolicy m p = Some m'
    /\ GetPolicy m' = List.filter (fun q => negb (bool_decide (q = p))) (GetPolicy m);
  filtered_law m i v : GetFilteredPolicy m i v = Some (List.filter (fieldMatches i v) (GetPolicy m));
  load_law m p : plainRule p ->
    exists m', LoadPolicyLine (Join ", " ("p" :: p)) m = Some m' /\ GetPolicy m' = addRule p (GetPolicy m)
}.

(** ** The policy table and its adapter *)

Record CasbinRule : Type := mkRule {
  PType : string; V0 : string; V1 : string; V2 : string; V3 : string; V4 : string; V5 : string
}.

Record policyStore : Type := mkPolicyStore { roleIds : gset string; casbin_rules : list CasbinRule }.

Definition at_ (values : list string) (i : nat) : string := default "" (values !! i).

Definition casbinRule (ptype : string) (values : list string) : CasbinRule :=
  mkRule ptype (at_ values 0) (at_ values 1) (at_ values 2) (at_ values 3) (at_ values 4) (at_ values 5).

(** [LoadCasbinPolicies]: rules of roles that exist. *)
Definition LoadCasbinPolicies (st : policyStore) : list CasbinRule :=
  List.filter (fun r => bool_decide (V0 r ∈ roleIds st)) (casbin_rules st).

(** [ReplaceCasbinPolicies], one transaction: all rules or none. *)
Definition ReplaceCasbinPolicies (st : policyStore) (rules : list CasbinRule) (fails : bool) : option policyStore :=
  if fails then None
  else if forallb (fun r => bool_decide (V0 r ∈ roleIds st)) rules
  then Some (mkPolicyStore (roleIds st) rules) else None.

Definition SaveCasbinPolicy (st : policyStore) (rule : CasbinRule) (fails : bool) : option policyStore :=
  if fails || negb (bool_decide (V0 rule ∈ roleIds st)) then None
  else Some (mkPolicyStore (roleIds st) (casbin_rules st ++ [rule])).

Definition rule_eqb (a b : CasbinRule) : bool :=
  String.eqb (PType a) (PType b) && String.eqb (V0 a) (V0 b) && String.eqb (V1 a) (V1 b)
  && String.eqb (V2 a) (V2 b) && String.eqb (V3 a) (V3 b) && String.eqb (V4 a) (V4 b) && String.eqb (V5 a) (V5 b).

Definition RemoveCasbinPolicy (st : policyStore) (rule : CasbinRule) (fails : bool) : option policyStore :=
  if fails then None
  else Some (mkPolicyStore (roleIds st) (List.filter (fun r => negb (rule_eqb r rule)) (casbin_rules st))).

Section Enforcer.
Context {C : Casbin}.

(** [StoreAdapter.LoadPolicy] into an empty model. *)
Definition loadOne (m : option Model) (r : CasbinRule) : option Model :=
  m ← m; LoadPolicyLine (Join ", " [PType r; V0 r; V1 r; V2 r; V3 r]) m.

Definition LoadPolicy (st : policyStore) (fails : bool) : option Model :=
  if fails then None else foldl loadOne (Some emptyModel) (LoadCasbinPolicies st).

(** [StoreAdapter.SavePolicy]; the model has no [g] section. *)
Definition SavePolicy (st : policyStore) (m : Model) (fails : bool) : option policyStore :=
  ReplaceCasbinPolicies st (map (casbinRule "p") (GetPolicy m)) fails.

(** ** The enforcer *)

Record Enforcer : Type := mkEnforcer { loadErr : bool; live : Model; catalog : policyStore }.

Inductive rbacErr : Type := LoadFailed | EngineFailed | SaveFailed | CatalogFailed.

Record faults : Type := mkFaults { saveFails : bool; loadFails : bool }.

Definition NewEnforcer (st : policyStore) (f : faults) : option Enforcer :=
  m ← LoadPolicy st (loadFails f); Some (mkEnforcer false m st).

(** [e.loadErr = e.enforcer.LoadPolicy()]: a failed load keeps the model. *)
Definition reloadModel (e : Enforcer) (f : faults) : option rbacErr * Enforcer :=
  match LoadPolicy (catalog e) (loadFails f) with
  | Some m => (None, mkEnforcer false m (catalog e))
  | None => (Some LoadFailed, mkEnforcer true (live e) (catalog e))
  end.

Definition persist (e : Enforcer) (f : faults) : option rbacErr * Enforcer :=
  match SavePolicy (catalog e) (live e) (saveFails f) with
  | Some st => (None, mkEnforcer (loadErr e) (live e) st)
  | None => (Some SaveFailed, (reloadModel e f).2)
  end.

Definition with_live (e : Enforcer) (m : Model) : Enforcer := mkEnforcer (loadErr e) m (catalog e).

(** The model changes one after the other; the first that fails ends the
    operation and what was changed before it stays. *)
Fixpoint applyAll (op : Model -> list string -> option Model) (ps : list (list string)) (m : Model)
    : Model * bool :=
  match ps with
  | [] => (m, true)
  | p :: rest => match op m p with Some m' => applyAll op rest m' | None => (m, false) end
  end.

Definition mutate (e : Enforcer) (f : faults) (op : Model -> list string -> option Model)
    (ps : list (list string)) : option rbacErr * Enforcer :=
  if loadErr e then (Some LoadFailed, e)
  else
    let '(m, ok) := applyAll op ps (live e) in
    if ok then persist (with_live e m) f else (Some EngineFailed, with_live e m).

Definition defaultPolicies : list (list string) :=
  [[RoleSuperAdmin; "*"; "*"; "*"];
   [RoleAdmin; "*"; "*"; ActionManage]; [RoleAdmin; "*"; "*"; ActionRead];
   [RoleAdmin; "*"; "*"; ActionWrite]; [RoleAdmin; "*"; "*"; ActionDelete];
   [RoleEditor; "*"; "*"; ActionRead]; [RoleEditor; "*"; "*"; ActionWrite];
   [RoleViewer; "*"; "*"; ActionRead]].

Definition AddDefaultPolicies (e : Enforcer) (f : faults) := mutate e f AddPolicy defaultPolicies.

Definition NewEnforcerWithDefaults (st : policyStore) (f : faults) : option Enforcer :=
  e ← NewEnforcer st f;
  match AddDefaultPolicies e f with
  | (None, e') => Some e'
  | (Some _, _) => None
  end.

(** The answer of a check: an error denies. *)
Definition answer : Type := rbacErr + bool.

Definition check (e : Enforcer) (role workspace layer action : string) : answer :=
  if loadErr e then inl LoadFailed
  else match Enforce (live e) role workspace layer action with
       | Some b => inr b
       | None => inl EngineFailed
       end.

Definition CanAccess (e : Enforcer) (role workspace layer action : string) : answer :=
  check e role workspace layer action.

Definition operationResource (service operation : string) : string :=
  "operation:" +:+ ToLower service +:+ ":" +:+ ToUpper operation.

Definition serviceResource (service : string) : string := "service:" +:+ ToLower service.

(** The resources from the most specific to the broadest. *)
Fixpoint firstAllowed (e : Enforcer) (role workspace action : string) (resources : list string) : answer :=
  match resources with
  | [] => inr false
  | resource :: rest =>
      match check e role workspace resource action with
      | inr false => firstAllowed e role workspace action rest
      | a => a
      end
  end.

Definition CanAccessOperation (e : Enforcer) (role workspace service operation action : string) : answer :=
  if loadErr e then inl LoadFailed
  else firstAllowed e role workspace action [operationResource service operation; serviceResource service; "*"].

(** The resource of an operation policy: a blank operation or [*] is the service. *)
Definition policyResource (service operation : string) : string :=
  if negb (isBlank operation) && negb (String.eqb operation "*")
  then operationResource service operation else serviceResource service.

Definition AddOperationPolicy (e : Enforcer) (f : faults) (role workspace service operation action : string) :=
  mutate e f AddPolicy [[role; workspace; policyResource service operation; action]].

Definition RemoveOperationPolicy (e : Enforcer) (f : faults) (role workspace service operation action : string) :=
  mutate e f RemovePolicy [[role; workspace; policyResource service operation; action]].

Definition CanAccessWorkspace (e : Enforcer) (role workspace : string) := check e role workspace "*" ActionRead.
Definition CanReadLayer (e : Enforcer) (role workspace layer : string) := check e role workspace layer ActionRead.
Definition CanWriteLayer (e : Enforcer) (role workspace layer : string) := check e role workspace layer ActionWrite.
Definition CanManageWorkspace (e : Enforcer) (role workspace : string) := check e role workspace "*" ActionManage.

Definition AddWorkspacePolicy (e : Enforcer) (f : faults) (role workspace action : string) :=
  mutate e f AddPolicy [[role; workspace; "*"; action]].

Definition AddLayerPolicy (e : Enforcer) (f : faults) (role workspace layer action : string) :=
  mutate e f AddPolicy [[role; workspace; layer; action]].

Definition RemoveWorkspacePolicy (e : Enforcer) (f : faults) (role workspace action : string) :=
  mutate e f RemovePolicy [[role; workspace; "*"; action]].

Definition RemoveLayerPolicy (e : Enforcer) (f : faults) (role workspace layer action : string) :=
  mutate e f RemovePolicy [[role; workspace; layer; action]].

Definition RemoveAllWorkspacePolicies (e : Enforcer) (f : faults) (workspace : string)
    : option rbacErr * Enforcer :=
  if loadErr e then (Some LoadFailed, e)
  else match GetFilteredPolicy (live e) 1 workspace with
       | None => (Some EngineFailed, e)
       | Some ps => mutate e f RemovePolicy ps
       end.

Definition RemoveResourcePolicies (e : Enforcer) (f : faults) (workspace : string) (resources : list string)
    : option rbacErr * Enforcer :=
  if loadErr e then (Some LoadFailed, e)
  else match GetFilteredPolicy (live e) 1 workspace with
       | None => (Some EngineFailed, e)
       | Some ps =>
           mutate e f RemovePolicy
             (List.filter (fun p => match p !! 2%nat with
                                    | Some l => isOneOf l resources | None => false end) ps)
       end.

Definition GetPoliciesForWorkspace (e : Enforcer) (workspace : string) : rbacErr + list (list string) :=
  if loadErr e then inl LoadFailed
  else match GetFilteredPolicy (live e) 1 workspace with Some l => inr l | None => inl EngineFailed end.

Definition GetPoliciesForRole (e : Enforcer) (role : string) : rbacErr + list (list string) :=
  if loadErr e then inl LoadFailed
  else match GetFilteredPolicy (live e) 0 role with Some l => inr l | None => inl EngineFailed end.

Definition GetAllPolicies (e : Enforcer) : rbacErr + list (list string) :=
  if loadErr e then inl LoadFailed else inr (GetPolicy (live e)).

Definition Reload (e : Enforcer) (f : faults) : option rbacErr * Enforcer := reloadModel e f.

(** [remove] is the catalog mutation the caller passes: a transaction on the
    tables, [None] when it fails. *)
Definition UpdatePolicyStore (e : Enforcer) (f : faults) (remove : policyStore -> option policyStore)
    : option rbacErr * Enforcer :=
  match remove (catalog e) with
  | None => (Some CatalogFailed, e)
  | Some st => reloadModel (mkEnforcer (loadErr e) (live e) st) f
  end.

Definition DeleteRole (e : Enforcer) (f : faults) (remove : policyStore -> option policyStore) :=
  UpdatePolicyStore e f remove.

(** ** Middleware ([middleware.go], [operation.go])

    A request context: the principal ([None] when there is none or it is nil),
    the workspace and the layer by their identifiers, and the [workspace] and
    [ws] parameters of the route. *)

Record reqContext : Type := mkReqContext {
  principal : option Identity;
  ctxWorkspace : option string;
  ctxLayer : option string;
  urlWorkspace : string;
  urlWs : string
}.

Record operationGrant : Type := mkGrant {
  gWorkspace : string; gService : string; gOperation : string; gAction : string
}.

(** The handler runs (with a grant in its context or not), or an error status is written. *)
Inductive decision : Type :=
| Next (grant : option operationGrant)
| Deny (status : Z).

(** The tail the handlers share: a check turned into a decision. *)
Definition decide_ (a : answer) (ok : decision) : decision :=
  match a with
  | inl _ => Deny 500
  | inr false => Deny 403
  | inr true => ok
  end.

Definition RequireWorkspaceRead (e : Enforcer) (r : reqContext) : decision :=
  match principal r, ctxWorkspace r with
  | None, _ => Deny 401
  | _, None => Deny 404
  | id, Some ws =>
      let role := GetWorkspaceRole id ws in
      if String.eqb role "" then Deny 403 else decide_ (CanAccessWorkspace e role ws) (Next None)
  end.

Definition RequireLayerRead (e : Enforcer) (r : reqContext) : decision :=
  match principal r, ctxWorkspace r, ctxLayer r with
  | None, _, _ => Deny 401
  | _, None, _ => Deny 404
  | _, _, None => Next None
  | id, Some ws, Some layer =>
      let role := GetWorkspaceRole id ws in
      if String.eqb role "" then Deny 403 else decide_ (CanReadLayer e role ws layer) (Next None)
  end.

Definition RequireWorkspaceAdmin (e : Enforcer) (r : reqContext) : decision :=
  match principal r with
  | None => Deny 401
  | id =>
      if IsSuperAdmin id then Next None
      else
        let workspaceID :=
          match ctxWorkspace r with
          | Some ws => ws
          | None => if String.eqb (urlWorkspace r) "" then urlWs r else urlWorkspace r
          end in
        if String.eqb workspaceID "" then Deny 400
        else
          let role := GetWorkspaceRole id workspaceID in
          if String.eqb role "" then Deny 403 else decide_ (CanManageWorkspace e role workspaceID) (Next None)
  end.

Definition RequireSuperAdmin (r : reqContext) : decision :=
  match principal r with
  | None => Deny 401
  | id => if IsSuperAdmin id then Next None else Deny 403
  end.

Definition RequireAction (e : Enforcer) (action : string) (r : reqContext) : decision :=
  match principal r with
  | None => Deny 401
  | id =>
      if IsSuperAdmin id then Next None
      else
        match ctxWorkspace r with
        | None => Deny 404
        | Some ws =>
            let role := GetWorkspaceRole id ws in
            if String.eqb role "" then Deny 403
            else decide_ (CanAccess e role ws (default "*" (ctxLayer r)) action) (Next None)
        end
  end.

Definition OptionalAuth (r : reqContext) : decision := Next None.

(** [d] is the descriptor [protocolrequest.Prepare(r, service)] leaves in the context. *)
Definition RequireServiceOperation (e : Enforcer) (service : string) (d : Descriptor) (method : string)
    (r : reqContext) : decision :=
  match DErr d with
  | Some _ => Deny 400
  | None =>
      match principal r with
      | None => Next None
      | id =>
          if IsSuperAdmin id then Next None
          else
            match ctxWorkspace r with
            | None => Deny 404
            | Some ws =>
                let role := GetWorkspaceRole id ws in
                if String.eqb role "" then Next None
                else
                  let action := Action service (OpName d) method in
                  decide_ (CanAccessOperation e role ws service (OpName d) action)
                    (Next (Some (mkGrant ws service (OpName d) action)))
            end
      end
  end.

(** [grant] is the one in the request's context, [d] its descriptor. *)
Definition HasOperationGrant (grant : option operationGrant) (d : Descriptor) (workspace service action : string)
    : bool :=
  match grant with
  | None => false
  | Some g => String.eqb (gWorkspace g) workspace && String.eqb (gService g) service
              && String.eqb (gAction g) action && String.eqb (gOperation g) (OpName d)
  end.

Definition operationAction (service operation method : string) : bool :=
  negb (String.eqb (Action service operation method) ActionRead).

End Enforcer.

(** ** Policies as records *)

Record Policy : Type := mkPolicy { PolRole : string; PolWorkspace : string; PolLayer : string; PolAction : string }.

Definition ParsePolicy (p : list string) : Policy := mkPolicy (at_ p 0) (at_ p 1) (at_ p 2) (at_ p 3).

Definition IsGlobal (p : Policy) : bool := String.eqb (PolWorkspace p) "*".

Definition IsLayerSpecific (p : Policy) : bool :=
  negb (String.eqb (PolLayer p) "*") && negb (String.eqb (PolLayer p) "").

Definition Matches (p : Policy) (role workspace layer action : string) : bool :=
  if negb (String.eqb (PolRole p) role) then false
  else if negb (String.eqb (PolWorkspace p) "*") && negb (String.eqb (PolWorkspace p) workspace) then false
  else if negb (String.eqb (PolLayer p) "*") && negb (String.eqb (PolLayer p) layer) then false
  else if negb (String.eqb (PolAction p) "*") && negb (EqualFold (PolAction p) action) then false
  else true.

(** ** A list engine *)

Fixpoint dropSpaces (s : string) : string :=
  match s with String " " s' => dropSpaces s' | _ => s end.

Definition parsePolicyLine (line : string) (m : list (list string)) : option (list (list string)) :=
  match map dropSpaces (Split "," line) with
  | "p" :: p => if Nat.eqb (length p) 4 then Some (addRule p m) else None
  | _ => None
  end.

#[export] Instance listCasbin : Casbin := {|
  Model := list (list string);
  emptyModel := [];
  GetPolicy m := m;
  Enforce m sub ws layer act := Some (existsb (matcher sub ws layer act) m);
  AddPolicy m p := Some (addRule p m);
  RemovePolicy m p := Some (List.filter (fun q => negb (bool_decide (q = p))) m);
  GetFilteredPolicy m i v := Some (List.filter (fieldMatches i v) m);
  LoadPolicyLine := parsePolicyLine
|}.

Lemma plainField_comma s : plainField s = true -> has_byte "," s = false.
Proof. unfold plainField. intros [_ H]%andb_true_iff. by apply (all_bytes_has _ _ _ H). Qed.

Lemma dropSpaces_plain s : plainField s = true -> dropSpaces s = s.
Proof.
  unfold plainField. intros [H _]%andb_true_iff. destruct s as [|c s]; [done|]. simpl in *.
  by destruct c as [[] [] [] [] [] [] [] []].
Qed.

Lemma Join_cons x y l : Join ", " (x :: y :: l) = x +:+ String "," (" " +:+ Join ", " (y :: l)).
Proof. done. Qed.

Lemma Split_rule l x :
  forallb plainField (x :: l) = true -> map dropSpaces (Split "," (Join ", " (x :: l))) = x :: l.
Proof.
  assert (Hsp : forall s, dropSpaces (String " " s) = dropSpaces s) by done.
  assert (Hgen : forall l x, forallb plainField (x :: l) = true ->
    map dropSpaces (Split "," (" " +:+ Join ", " (x :: l))) = x :: l).
  { clear l x. induction l as [|y l IH]; intros x Hp.
    - simpl in Hp. apply andb_true_iff in Hp as [Hx _]. change (Join ", " [x]) with x.
      rewrite Split_none by (rewrite sapp_cons; simpl; by apply plainField_comma).
      cbn [map]. by rewrite sapp_cons, sapp_nil_l, Hsp, dropSpaces_plain.
    - cbn [forallb] in Hp. apply andb_true_iff in Hp as [Hx Hp]. rewrite Join_cons, <- sapp_assoc.
      rewrite Split_app by (rewrite sapp_cons; simpl; by apply plainField_comma).
      cbn [map]. rewrite IH by done. by rewrite sapp_cons, sapp_nil_l, Hsp, dropSpaces_plain. }
  intros Hp. destruct l as [|y l].
  - simpl in Hp. apply andb_true_iff in Hp as [Hx _]. change (Join ", " [x]) with x.
    rewrite Split_none by by apply plainField_comma. simpl. by rewrite dropSpaces_plain.
  - cbn [forallb] in Hp. apply andb_true_iff in Hp as [Hx Hp]. rewrite Join_cons.
    rewrite Split_app by by apply plainField_comma. cbn [map]. rewrite Hgen by done. by rewrite dropSpaces_plain.
Qed.

#[export] Instance listCasbin_laws : CasbinLaws listCasbin.
Proof.
  split; [done|done|simpl; eauto|simpl; eauto|done|].
  intros m p [Hlen Hp]. exists (addRule p m). split; [|done].
  change (parsePolicyLine (Join ", " ("p" :: p)) m = Some (addRule p m)). unfold parsePolicyLine.
  rewrite (Split_rule p "p") by done. by rewrite Hlen.
Qed.
