(* ===== verification/RbacCorrect.v ===== *)
(** * Correctness of access control

    The live rules are the durable rules of the catalog in every state the
    enforcer can reach (or every check fails), so decisions are decisions of the
    catalog; policies of one workspace do not affect another. *)

From S2P Require Import Prelude Identity ProtocolRequest Rbac.

Definition ruleValues (r : CasbinRule) : list string := [V0 r; V1 r; V2 r; V3 r].

(** The rules that are in force after a load. *)
Definition durable (st : policyStore) : list (list string) := map ruleValues (LoadCasbinPolicies st).

Definition plainStore (st : policyStore) : Prop :=
  Forall (fun r => PType r = "p" /\ plainRule (ruleValues r)) (casbin_rules st).

Lemma addRule_elem p l q : q ∈ addRule p l <-> q = p \/ q ∈ l.
Proof.
  unfold addRule. destruct (decide (p ∈ l)) as [Hin|Hni]; [split; [by right|intros [->|]; done]|].
  rewrite elem_of_app, list_elem_of_singleton. tauto.
Qed.

Lemma ruleValues_casbinRule p : length p = 4%nat -> ruleValues (casbinRule "p" p) = p.
Proof. destruct p as [|a [|b [|c [|d [|]]]]]; done. Qed.

Section Correct.
Context {C : Casbin} {L : CasbinLaws C}.

Lemma foldl_load rules m :
  Forall (fun r => PType r = "p" /\ plainRule (ruleValues r)) rules ->
  exists m', foldl loadOne (Some m) rules = Some m'
    /\ forall q, q ∈ GetPolicy m' <-> q ∈ GetPolicy m \/ q ∈ map ruleValues rules.
Proof.
  intros H. revert m. induction H as [|r rules [Hp Hr] _ IH]; intros m; cbn [foldl map].
  { exists m. split; [done|]. intros q. rewrite elem_of_nil. tauto. }
  destruct (load_law m (ruleValues r) Hr) as (m1 & E & Hm1).
  assert (loadOne (Some m) r = Some m1) as -> by (unfold loadOne; rewrite Hp; exact E).
  destruct (IH m1) as (m' & E' & Hq). exists m'. split; [done|].
  intros q. rewrite Hq, Hm1, addRule_elem, elem_of_cons. tauto.
Qed.

Lemma plainStore_load st : plainStore st -> Forall (fun r => PType r = "p" /\ plainRule (ruleValues r)) (LoadCasbinPolicies st).
Proof.
  unfold plainStore. rewrite !List.Forall_forall. intros H r [Hin _]%filter_In. auto.
Qed.

Lemma LoadPolicy_durable st :
  plainStore st -> exists m, LoadPolicy st false = Some m /\ forall q, q ∈ GetPolicy m <-> q ∈ durable st.
Proof.
  intros H%plainStore_load. unfold LoadPolicy. destruct (foldl_load _ emptyModel H) as (m & E & Hq).
  exists m. split; [done|]. intros q. rewrite Hq, empty_law, elem_of_nil. unfold durable. tauto.
Qed.

Lemma durable_plain st : plainStore st -> Forall plainRule (durable st).
Proof.
  intros H%plainStore_load. unfold durable. rewrite !List.Forall_forall in *.
  intros p (r & <- & Hin)%in_map_iff. by apply H.
Qed.

(** ** The invariant *)

Definition sameRules (e : Enforcer) : Prop := forall q, q ∈ GetPolicy (live e) <-> q ∈ durable (catalog e).

Record rbacInv (e : Enforcer) : Prop := mkRbacInv {
  ri_store : plainStore (catalog e);
  ri_plain : Forall plainRule (GetPolicy (live e));
  ri_same : loadErr e = false -> sameRules e
}.

Lemma Forall_elem_equiv {A} (P : A -> Prop) l l' :
  (forall q, q ∈ l <-> q ∈ l') -> Forall P l' -> Forall P l.
Proof. rewrite !Forall_forall. intros H Hp q Hq. by apply Hp, H. Qed.

Lemma reloadModel_inv e f : plainStore (catalog e) -> Forall plainRule (GetPolicy (live e)) ->
  rbacInv (reloadModel e f).2.
Proof.
  intros Hst Hl. unfold reloadModel. destruct (loadFails f) eqn:Ef; [by split|].
  destruct (LoadPolicy_durable _ Hst) as (m & -> & Hq). split; simpl; [done| |done].
  by apply (Forall_elem_equiv _ _ _ Hq), durable_plain.
Qed.

(** A successful save makes the live rules the durable ones. *)
Lemma SavePolicy_durable st m st' fails :
  Forall plainRule (GetPolicy m) -> SavePolicy st m fails = Some st' ->
  plainStore st' /\ durable st' = GetPolicy m.
Proof.
  intros Hp. unfold SavePolicy, ReplaceCasbinPolicies. destruct fails; [done|].
  destruct (forallb _ _) eqn:Hall; [|done]. intros [= <-].
  assert (Hv : map ruleValues (map (casbinRule "p") (GetPolicy m)) = GetPolicy m).
  { rewrite map_map. rewrite <- (map_id (GetPolicy m)) at 2. apply map_ext_in. intros p Hin.
    rewrite List.Forall_forall in Hp. by apply ruleValues_casbinRule, Hp. }
  split.
  - unfold plainStore. simpl. rewrite List.Forall_forall in *. intros r (p & <- & Hin)%in_map_iff.
    split; [done|]. rewrite ruleValues_casbinRule; by apply Hp.
  - unfold durable, LoadCasbinPolicies. simpl. rewrite <- Hv at 2. f_equal.
    clear -Hall. induction (map (casbinRule "p") (GetPolicy m)) as [|r rs IH]; simpl in *; [done|].
    apply andb_true_iff in Hall as [-> Hall]. f_equal. by apply IH.
Qed.

Lemma persist_inv e f : loadErr e = false -> plainStore (catalog e) -> Forall plainRule (GetPolicy (live e)) ->
  rbacInv (persist e f).2.
Proof.
  intros He Hst Hl. unfold persist. destruct (SavePolicy _ _ _) as [st'|] eqn:E; [|by apply reloadModel_inv].
  destruct (SavePolicy_durable _ _ _ _ Hl E) as [Hst' Hd].
  split; simpl; [done|done|]. intros _ q. simpl. by rewrite Hd.
Qed.

(** What a list of additions or removals does to the rules. *)
Lemma applyAll_add ps m : Forall plainRule ps ->
  exists m', applyAll AddPolicy ps m = (m', true)
    /\ forall q, q ∈ GetPolicy m' <-> q ∈ GetPolicy m \/ q ∈ ps.
Proof.
  intros H. revert m. induction H as [|p ps [Hlen _] _ IH]; intros m; simpl.
  { exists m. split; [done|]. intros q. rewrite elem_of_nil. tauto. }
  destruct (add_law m p Hlen) as (m1 & -> & Hm1). destruct (IH m1) as (m' & E & Hq).
  exists m'. split; [done|]. intros q. rewrite Hq, Hm1, addRule_elem, elem_of_cons. tauto.
Qed.

Lemma applyAll_remove ps m :
  exists m', applyAll RemovePolicy ps m = (m', true)
    /\ forall q, q ∈ GetPolicy m' <-> q ∈ GetPolicy m /\ q ∉ ps.
Proof.
  revert m. induction ps as [|p ps IH]; intros m; simpl.
  { exists m. split; [done|]. intros q. rewrite elem_of_nil. tauto. }
  destruct (remove_law m p) as (m1 & -> & Hm1). destruct (IH m1) as (m' & E & Hq).
  exists m'. split; [done|]. intros q. rewrite Hq, Hm1, elem_of_cons, !list_elem_of_In, filter_In.
  rewrite negb_true_iff, bool_decide_eq_false. tauto.
Qed.

(** Additions of plain rules, or removals. *)
Inductive ruleChange : (Model -> list string -> option Model) -> list (list string) -> Prop :=
| change_add ps : Forall plainRule ps -> ruleChange AddPolicy ps
| change_remove ps : ruleChange RemovePolicy ps.

Lemma applyAll_change op ps m : ruleChange op ps -> Forall plainRule (GetPolicy m) ->
  exists m', applyAll op ps m = (m', true) /\ Forall plainRule (GetPolicy m')
    /\ forall q, q ∉ ps -> q ∈ GetPolicy m' <-> q ∈ GetPolicy m.
Proof.
  intros [ps' Hp|ps'] Hm.
  - destruct (applyAll_add ps' m Hp) as (m' & E & Hq). exists m'. split_and!; [done| |].
    + rewrite Forall_forall in *. intros q [|]%Hq; auto.
    + intros q Hn. rewrite Hq. tauto.
  - destruct (applyAll_remove ps' m) as (m' & E & Hq). exists m'. split_and!; [done| |].
    + rewrite Forall_forall in *. intros q [? _]%Hq; auto.
    + intros q Hn. rewrite Hq. tauto.
Qed.

Lemma mutate_inv e f op ps : rbacInv e -> ruleChange op ps -> rbacInv (mutate e f op ps).2.
Proof.
  intros Hi Hc. unfold mutate. destruct (loadErr e) eqn:Ee; [done|]. destruct Hi as [Hst Hl _].
  destruct (applyAll_change op ps (live e) Hc Hl) as (m' & -> & Hp & _). by apply persist_inv.
Qed.

(** ** Runs of the enforcer *)

Inductive rbacOp : Type :=
| OpAddDefaults
| OpAddOperation (role workspace service operation action : string)
| OpRemoveOperation (role workspace service operation action : string)
| OpAddWorkspace (role workspace action : string)
| OpAddLayer (role workspace layer action : string)
| OpRemoveWorkspace (role workspace action : string)
| OpRemoveLayer (role workspace layer action : string)
| OpRemoveAll (workspace : string)
| OpRemoveResources (workspace : string) (resources : list string)
| OpReload
| OpUpdateStore (remove : policyStore -> option policyStore).

Definition runOp (e : Enforcer) (f : faults) (op : rbacOp) : option rbacErr * Enforcer :=
  match op with
  | OpAddDefaults => AddDefaultPolicies e f
  | OpAddOperation role ws service operation action => AddOperationPolicy e f role ws service operation action
  | OpRemoveOperation role ws service operation action => RemoveOperationPolicy e f role ws service operation action
  | OpAddWorkspace role ws action => AddWorkspacePolicy e f role ws action
  | OpAddLayer role ws layer action => AddLayerPolicy e f role ws layer action
  | OpRemoveWorkspace role ws action => RemoveWorkspacePolicy e f role ws action
  | OpRemoveLayer role ws layer action => RemoveLayerPolicy e f role ws layer action
  | OpRemoveAll ws => RemoveAllWorkspacePolicies e f ws
  | OpRemoveResources ws resources => RemoveResourcePolicies e f ws resources
  | OpReload => Reload e f
  | OpUpdateStore remove => UpdatePolicyStore e f remove
  end.

(** The rules an operation adds have plain fields, and a catalog mutation leaves such rules. *)
Definition opOk (e : Enforcer) (op : rbacOp) : Prop :=
  match op with
  | OpAddOperation role ws service operation action =>
      plainRule [role; ws; policyResource service operation; action]
  | OpAddWorkspace role ws action => plainRule [role; ws; "*"; action]
  | OpAddLayer role ws layer action => plainRule [role; ws; layer; action]
  | OpUpdateStore remove => forall st, remove (catalog e) = Some st -> plainStore st
  | _ => True
  end.

Inductive rbacReachable : Enforcer -> Prop :=
| rbac_start st f e : plainStore st -> NewEnforcer st f = Some e -> rbacReachable e
| rbac_op e f op : rbacReachable e -> opOk e op -> rbacReachable (runOp e f op).2.

Lemma defaultPolicies_plain : Forall plainRule defaultPolicies.
Proof. repeat (constructor; [done|]). constructor. Qed.

Lemma NewEnforcer_inv st f e : plainStore st -> NewEnforcer st f = Some e -> rbacInv e.
Proof.
  intros Hst. unfold NewEnforcer. destruct (LoadPolicy_durable st Hst) as (m & E & Hq).
  destruct (loadFails f); [done|]. rewrite E. intros [= <-].
  split; simpl; [done|by apply (Forall_elem_equiv _ _ _ Hq), durable_plain|done].
Qed.

Lemma runOp_inv e f op : rbacInv e -> opOk e op -> rbacInv (runOp e f op).2.
Proof.
  intros Hi Hok. destruct op; simpl in *;
    try (apply mutate_inv; [done|constructor; repeat constructor; by try apply Hok]).
  - unfold RemoveAllWorkspacePolicies. destruct (loadErr e) eqn:E; [done|].
    destruct (GetFilteredPolicy _ _ _); [|done]. apply mutate_inv; [done|constructor].
  - unfold RemoveResourcePolicies. destruct (loadErr e) eqn:E; [done|].
    destruct (GetFilteredPolicy _ _ _); [|done]. apply mutate_inv; [done|constructor].
  - destruct Hi. by apply reloadModel_inv.
  - unfold UpdatePolicyStore. destruct (remove (catalog e)) as [st|] eqn:E; [|done].
    destruct Hi. apply reloadModel_inv; simpl; [by apply Hok|done].
Qed.

Lemma rbacReachable_inv e : rbacReachable e -> rbacInv e.
Proof. induction 1; [by eapply NewEnforcer_inv|]. by apply runOp_inv. Qed.

(** ** Decisions *)

Lemma check_exact e role ws layer action :
  rbacInv e -> loadErr e = false ->
  check e role ws layer action = inr (existsb (matcher role ws layer action) (GetPolicy (live e))).
Proof.
  intros [_ Hp _] He. unfold check. rewrite He, enforce_law; [done|].
  rewrite Forall_forall in *. intros p Hin. by apply Hp.
Qed.

Lemma matcher_true role ws layer action p :
  matcher role ws layer action p = true <->
  exists pws player pact, p = [role; pws; player; pact] /\ (pws = "*" \/ pws = ws)
    /\ (player = "*" \/ player = layer) /\ (pact = "*" \/ pact = action).
Proof.
  destruct p as [|a [|b [|c [|d [|]]]]]; simpl; try (split; [done|]; intros (? & ? & ? & [=] & _)).
  rewrite !andb_true_iff, !orb_true_iff, !String.eqb_eq. split.
  - intros [[[-> Hw] Hl] Ha]. eauto 10.
  - intros (? & ? & ? & [= -> -> -> ->] & Hw & Hl & Ha). tauto.
Qed.

Lemma existsb_matcher role ws layer action l :
  existsb (matcher role ws layer action) l = true <->
  exists pws player pact, [role; pws; player; pact] ∈ l /\ (pws = "*" \/ pws = ws)
    /\ (player = "*" \/ player = layer) /\ (pact = "*" \/ pact = action).
Proof.
  rewrite existsb_exists. split.
  - intros (p & Hin & (pws & player & pact & -> & H)%matcher_true).
    exists pws, player, pact. split; [by apply list_elem_of_In|done].
  - intros (pws & player & pact & Hin & H). exists [role; pws; player; pact].
    split; [by apply list_elem_of_In|]. apply matcher_true. eauto 10.
Qed.
End Correct.
