(* ===== verification/RbacTheorems.v ===== *)
(** * What access control guarantees

    Theorems over every Casbin engine that meets [CasbinLaws]; the witnesses run
    on the list engine. *)

From S2P Require Import Prelude Identity ProtocolRequest Rbac RbacCorrect.

Section Theorems.
Context {C : Casbin} {L : CasbinLaws C}.

(** A rule of the catalog in force. *)
Definition inForce (st : policyStore) (role ws action : string) (layers : list string) : Prop :=
  exists r, In r (LoadCasbinPolicies st) /\ V0 r = role /\ (V1 r = "*" \/ V1 r = ws)
    /\ V2 r ∈ layers /\ (V3 r = "*" \/ V3 r = action).

Lemma inForce_durable st role ws action layers :
  inForce st role ws action layers <->
  exists pws player pact, [role; pws; player; pact] ∈ durable st /\ (pws = "*" \/ pws = ws)
    /\ player ∈ layers /\ (pact = "*" \/ pact = action).
Proof.
  unfold inForce, durable. split.
  - intros (r & Hin & <- & Hw & Hl & Ha). exists (V1 r), (V2 r), (V3 r). split_and!; try done.
    apply list_elem_of_In. by apply (in_map ruleValues).
  - intros (pws & player & pact & Hin & Hw & Hl & Ha). apply list_elem_of_In in Hin.
    apply in_map_iff in Hin as (r & [= <- <- <- <-] & Hin). exists r. done.
Qed.

Lemma check_durable e role ws layer action :
  rbacInv e -> loadErr e = false ->
  exists b, check e role ws layer action = inr b
    /\ (b = true <-> inForce (catalog e) role ws action ["*"; layer]).
Proof.
  intros Hi He. rewrite (check_exact e role ws layer action Hi He). eexists. split; [done|].
  rewrite existsb_matcher, inForce_durable. pose proof (ri_same e Hi He) as Hs.
  setoid_rewrite <- (Hs : forall q, _ <-> _).
  split; intros (pws & player & pact & Hin & Hw & Hl & Ha); exists pws, player, pact; split_and!; try done;
    rewrite !elem_of_cons, elem_of_nil in *; tauto.
Qed.

Lemma operation_durable e role ws service operation action :
  rbacInv e ->
  match CanAccessOperation e role ws service operation action with
  | inl _ => loadErr e = true
  | inr allowed => allowed = true <-> inForce (catalog e) role ws action
      ["*"; serviceResource service; operationResource service operation]
  end.
Proof.
  intros Hi. unfold CanAccessOperation. destruct (loadErr e) eqn:He; [done|].
  destruct (check_durable e role ws (operationResource service operation) action Hi He) as (b1 & E1 & H1).
  destruct (check_durable e role ws (serviceResource service) action Hi He) as (b2 & E2 & H2).
  destruct (check_durable e role ws "*" action Hi He) as (b3 & E3 & H3).
  assert (Hf : firstAllowed e role ws action [operationResource service operation; serviceResource service; "*"]
    = inr (b1 || b2 || b3)).
  { simpl. rewrite E1. destruct b1; [done|]. rewrite E2. destruct b2; [done|]. rewrite E3. by destruct b3. }
  rewrite Hf, !orb_true_iff, H1, H2, H3. unfold inForce. split.
  - intros [[(r & ?)|(r & ?)]|(r & ?)]; exists r; rewrite !elem_of_cons, elem_of_nil in *; tauto.
  - intros (r & Hin & H0 & Hw & Hl & Ha). rewrite !elem_of_cons, elem_of_nil in Hl.
    destruct Hl as [Hl|[Hl|[Hl|[]]]]; [right|left; right|left; left]; exists r;
      rewrite !elem_of_cons, elem_of_nil; tauto.
Qed.


(** C36: a failed write is not observable. When a policy change fails to reach
    the database, afterwards every check gives the answer it gave before, or
    fails; it never answers from the lost change. *)
Theorem failed_write_rolls_back e f op e' role ws layer action :
  rbacReachable e -> opOk e op -> loadErr e = false -> runOp e f op = (Some SaveFailed, e') ->
  check e' role ws layer action = check e role ws layer action
  \/ check e' role ws layer action = inl LoadFailed.
Proof.
  intros Hr Hok He Hop. pose proof (rbacReachable_inv e Hr) as Hi.
  assert (Hcat : catalog e' = catalog e).
  { assert (Hm : forall o ps, ruleChange o ps -> mutate e f o ps = (Some SaveFailed, e') -> catalog e' = catalog e).
    { intros o ps Hc. unfold mutate. rewrite He.
      destruct (applyAll_change o ps (live e) Hc (ri_plain e Hi)) as (m & -> & _).
      unfold persist. destruct (SavePolicy _ _ _); [done|]. intros [= <-]. unfold reloadModel. simpl.
      by destruct (LoadPolicy _ _). }
    destruct op; simpl in Hop, Hok;
      try (eapply Hm; [|exact Hop]; constructor; repeat constructor; by try apply Hok).
    - unfold RemoveAllWorkspacePolicies in Hop. rewrite He in Hop.
      destruct (GetFilteredPolicy _ _ _); [|done]. eapply Hm; [|exact Hop]. constructor.
    - unfold RemoveResourcePolicies in Hop. rewrite He in Hop.
      destruct (GetFilteredPolicy _ _ _); [|done]. eapply Hm; [|exact Hop]. constructor.
    - unfold Reload, reloadModel in Hop. by destruct (LoadPolicy _ _).
    - unfold UpdatePolicyStore, reloadModel in Hop. destruct (remove (catalog e)); [|done]. simpl in Hop.
      by destruct (LoadPolicy _ _). }
  pose proof (runOp_inv e f op Hi Hok) as Hi'. rewrite Hop in Hi'. simpl in Hi'.
  destruct (loadErr e') eqn:He'; [right; unfold check; by rewrite He'|left].
  destruct (check_durable e' role ws layer action Hi' He') as (b' & -> & H').
  destruct (check_durable e role ws layer action Hi He) as (b & -> & H).
  rewrite Hcat in H'. f_equal. apply eq_bool_prop_intro. rewrite !Is_true_true, H, H'. done.
Qed.

(** The workspace an operation is about. *)
Definition scopedTo (op : rbacOp) (ws : string) : Prop :=
  match op with
  | OpAddOperation _ w _ _ _ | OpRemoveOperation _ w _ _ _ | OpAddWorkspace _ w _ | OpAddLayer _ w _ _
  | OpRemoveWorkspace _ w _ | OpRemoveLayer _ w _ _ => w = ws
  | OpRemoveAll w | OpRemoveResources w _ => w = ws /\ ws <> ""
  | _ => False
  end.

Definition ofWorkspace (ws : string) (p : list string) : Prop := p !! 1%nat = Some ws.

Lemma filtered_ofWorkspace ws m l :
  ws <> "" -> GetFilteredPolicy m 1 ws = Some l -> Forall (ofWorkspace ws) l.
Proof.
  intros Hne. rewrite filtered_law. intros [= <-]. apply List.Forall_forall.
  intros p [_ Hp]%filter_In. unfold fieldMatches, nth_is in Hp. unfold ofWorkspace.
  rewrite (proj2 (String.eqb_neq _ _) Hne) in Hp. simpl in Hp.
  destruct (p !! 1%nat) as [x|]; [|done]. apply String.eqb_eq in Hp. by subst.
Qed.

(** Workspaces are isolated. A policy change for one workspace (an
    identifier, not the wildcard) does not change any decision on another. *)
Theorem workspace_policies_isolated e f op e' ws role other layer action :
  rbacReachable e -> opOk e op -> scopedTo op ws -> ws <> "*" -> other <> ws ->
  runOp e f op = (None, e') -> check e' role other layer action = check e role other layer action.
Proof.
  intros Hr Hok Hsc Hstar Hother Hop. pose proof (rbacReachable_inv e Hr) as Hi.
  pose proof (runOp_inv e f op Hi Hok) as Hi'. rewrite Hop in Hi'. simpl in Hi'.
  assert (Hm : forall o ps, ruleChange o ps -> Forall (ofWorkspace ws) ps -> mutate e f o ps = (None, e') ->
    loadErr e = false /\ loadErr e' = false
    /\ forall q, ~ ofWorkspace ws q -> q ∈ GetPolicy (live e') <-> q ∈ GetPolicy (live e)).
  { intros o ps Hc Hps. unfold mutate. destruct (loadErr e) eqn:He; [done|].
    destruct (applyAll_change o ps (live e) Hc (ri_plain e Hi)) as (m & -> & Hp & Hq).
    unfold persist. destruct (SavePolicy _ _ _); [|done]. intros [= <-]. simpl. split_and!; [done|done|].
    intros q Hn. apply Hq. intros Hin. apply Hn. rewrite Forall_forall in Hps. auto. }
  assert (H : loadErr e = false /\ loadErr e' = false
    /\ forall q, ~ ofWorkspace ws q -> q ∈ GetPolicy (live e') <-> q ∈ GetPolicy (live e)).
  { destruct op; simpl in Hop, Hok, Hsc; try done;
      try (subst; eapply Hm; [| |exact Hop]; [constructor; repeat constructor; by try apply Hok|by repeat constructor]).
    - destruct Hsc as [-> Hne]. unfold RemoveAllWorkspacePolicies in Hop. destruct (loadErr e); [done|].
      destruct (GetFilteredPolicy _ _ _) as [l|] eqn:El; [|done].
      eapply Hm; [| |exact Hop]; [constructor|by eapply filtered_ofWorkspace].
    - destruct Hsc as [-> Hne]. unfold RemoveResourcePolicies in Hop. destruct (loadErr e); [done|].
      destruct (GetFilteredPolicy _ _ _) as [l|] eqn:El; [|done].
      eapply Hm; [| |exact Hop]; [constructor|]. apply filtered_ofWorkspace in El; [|done].
      rewrite List.Forall_forall in *. intros p [Hp _]%filter_In. auto. }
  destruct H as (He & He' & Hq). rewrite !check_exact by done. f_equal.
  apply eq_bool_prop_intro. rewrite !Is_true_true, !existsb_matcher.
  split; intros (pws & player & pact & Hin & Hw & Hrest); exists pws, player, pact; (split; [|done]);
    apply Hq; try done; unfold ofWorkspace; simpl; intros [= ->]; by destruct Hw.
Qed.

(** What the built-in roles may do without further policies. *)
Definition defaultAllows (role action : string) : bool :=
  if String.eqb role RoleSuperAdmin then true
  else if String.eqb role RoleAdmin then isOneOf action [ActionManage; ActionRead; ActionWrite; ActionDelete]
  else if String.eqb role RoleEditor then isOneOf action [ActionRead; ActionWrite]
  else if String.eqb role RoleViewer then String.eqb action ActionRead
  else false.

Lemma defaults_matcher role ws layer action :
  existsb (matcher role ws layer action) defaultPolicies = defaultAllows role action.
Proof.
  assert (Hm : forall r act, matcher role ws layer action [r; "*"; "*"; act]
    = String.eqb role r && (String.eqb act "*" || String.eqb act action)).
  { intros. simpl. by rewrite !andb_true_r. }
  unfold defaultPolicies. cbn [existsb]. rewrite !Hm. unfold defaultAllows, isOneOf. cbn [existsb].
  rewrite !(String.eqb_sym action).
  destruct (String.eqb_spec role RoleSuperAdmin) as [->|]; [done|].
  destruct (String.eqb_spec role RoleAdmin) as [->|]; [simpl; by rewrite !orb_false_r|].
  destruct (String.eqb_spec role RoleEditor) as [->|]; [simpl; by rewrite !orb_false_r|].
  destruct (String.eqb_spec role RoleViewer) as [->|]; [simpl; by rewrite !orb_false_r|]. done.
Qed.

(** The built-in roles. A new enforcer over a catalog without rules gives
    exactly the documented defaults: [super_admin] everything, [admin] the four
    actions, [editor] read and write, [viewer] read, any other role nothing. *)
Theorem default_policies_exact st f e role ws layer action :
  casbin_rules st = [] -> NewEnforcerWithDefaults st f = Some e ->
  CanAccess e role ws layer action = inr (defaultAllows role action).
Proof.
  intros Hst Hnew. unfold NewEnforcerWithDefaults in Hnew.
  assert (Hp : plainStore st) by (unfold plainStore; rewrite Hst; constructor).
  destruct (NewEnforcer st f) as [e0|] eqn:E0; [|done]. simpl in Hnew.
  pose proof (NewEnforcer_inv st f e0 Hp E0) as Hi0.
  assert (Hl0 : loadErr e0 = false /\ catalog e0 = st).
  { unfold NewEnforcer in E0. destruct (LoadPolicy _ _); [|done]. by injection E0 as <-. }
  destruct Hl0 as [Hl0 Hc0].
  pose proof (mutate_inv e0 f AddPolicy defaultPolicies Hi0 (change_add _ defaultPolicies_plain)) as Hi.
  unfold AddDefaultPolicies in Hnew. destruct (mutate _ _ _ _) as [[err|] e'] eqn:Em; [done|].
  injection Hnew as ->. simpl in Hi. unfold mutate in Em. rewrite Hl0 in Em.
  destruct (applyAll_add defaultPolicies (live e0) defaultPolicies_plain) as (m & Ea & Hq). rewrite Ea in Em.
  unfold persist in Em. destruct (SavePolicy _ _ _); [|done]. injection Em as <-.
  unfold CanAccess. rewrite check_exact by done. f_equal. rewrite <- (defaults_matcher role ws layer action).
  apply eq_bool_prop_intro. rewrite !Is_true_true, !existsb_matcher. simpl.
  assert (Hd : forall q, q ∈ GetPolicy m <-> q ∈ defaultPolicies).
  { intros q. pose proof (ri_same e0 Hi0 Hl0) as Hs. unfold sameRules in Hs. rewrite Hq, Hs, Hc0. unfold durable, LoadCasbinPolicies. rewrite Hst. simpl.
    rewrite elem_of_nil. tauto. }
  by setoid_rewrite Hd.
Qed.

(** An operation grant is backed by the catalog. When the middleware of a
    service lets a request through with a grant, the handler's test
    [HasOperationGrant] accepts it only for the workspace, service, action and
    operation that were checked, the principal has a role in that workspace, and
    a rule in force gives this role the action on the operation, its service or
    everything. *)
Theorem operation_grant_sound e service d method r g ws service' action :
  rbacReachable e -> RequireServiceOperation e service d method r = Next (Some g) ->
  HasOperationGrant (Some g) d ws service' action = true ->
  DErr d = None /\ ctxWorkspace r = Some ws /\ service' = service /\ action = Action service (OpName d) method
  /\ GetWorkspaceRole (principal r) ws <> ""
  /\ inForce (catalog e) (GetWorkspaceRole (principal r) ws) ws action
       ["*"; serviceResource service; operationResource service (OpName d)].
Proof.
  intros Hr. unfold RequireServiceOperation. destruct (DErr d); [done|].
  destruct (principal r) as [id|]; [|done]. destruct (IsSuperAdmin (Some id)); [done|].
  destruct (ctxWorkspace r) as [w|]; [|done].
  destruct (String.eqb_spec (GetWorkspaceRole (Some id) w) "") as [|Hrole]; [done|].
  pose proof (operation_durable e (GetWorkspaceRole (Some id) w) w service (OpName d)
    (Action service (OpName d) method) (rbacReachable_inv e Hr)) as Hd.
  destruct (CanAccessOperation _ _ _ _ _ _) as [|[]]; simpl; try done. intros [= <-].
  simpl. rewrite !andb_true_iff, !String.eqb_eq. intros [[[<- <-] <-] _].
  split_and!; try done. by apply Hd.
Qed.
End Theorems.

(** ** Witnesses *)

Definition demoCatalog : policyStore :=
  mkPolicyStore {["super_admin"; "admin"; "editor"; "viewer"]}
    [mkRule "p" "viewer" "ws1" "operation:wfs:TRANSACTION" "write" "" ""].

Definition noFaults : faults := mkFaults false false.

Definition demoEnforcer : Enforcer :=
  mkEnforcer false [["viewer"; "ws1"; "operation:wfs:TRANSACTION"; "write"]] demoCatalog.

Lemma demoEnforcer_reachable : rbacReachable demoEnforcer.
Proof.
  apply (rbac_start demoCatalog noFaults).
  - repeat constructor.
  - vm_compute. reflexivity.
Qed.


(** A write that fails: the removal of the grant is rolled back. *)
Lemma failed_write_rolls_back_witness :
  let op := OpRemoveOperation "viewer" "ws1" "wfs" "transaction" "write" in
  let e' := (runOp demoEnforcer (mkFaults true false) op).2 in
  check e' "viewer" "ws1" "operation:wfs:TRANSACTION" "write"
    = check demoEnforcer "viewer" "ws1" "operation:wfs:TRANSACTION" "write"
  \/ check e' "viewer" "ws1" "operation:wfs:TRANSACTION" "write" = inl LoadFailed.
Proof.
  intros op e'. apply (failed_write_rolls_back demoEnforcer (mkFaults true false) op e').
  - exact demoEnforcer_reachable.
  - exact I.
  - reflexivity.
  - vm_compute. reflexivity.
Defined.

Lemma workspace_policies_isolated_witness :
  let e' := (runOp demoEnforcer noFaults (OpAddLayer "viewer" "ws2" "roads" "write")).2 in
  check e' "viewer" "ws1" "roads" "write" = check demoEnforcer "viewer" "ws1" "roads" "write".
Proof.
  intros e'.
  apply (workspace_policies_isolated demoEnforcer noFaults (OpAddLayer "viewer" "ws2" "roads" "write") e' "ws2").
  - exact demoEnforcer_reachable.
  - split; reflexivity.
  - reflexivity.
  - discriminate.
  - discriminate.
  - vm_compute. reflexivity.
Defined.

Lemma default_policies_exact_witness :
  let st := mkPolicyStore {["super_admin"; "admin"; "editor"; "viewer"]} [] in
  match NewEnforcerWithDefaults st noFaults with
  | Some e => CanAccess e "editor" "ws1" "roads" "write" = inr true
              /\ CanAccess e "editor" "ws1" "roads" "delete" = inr false
  | None => False
  end.
Proof.
  intros st. destruct (NewEnforcerWithDefaults st noFaults) as [e|] eqn:E; [|by vm_compute in E].
  split; rewrite (default_policies_exact st noFaults e _ _ _ _ eq_refl E); reflexivity.
Defined.

Definition demoRequest : reqContext :=
  mkReqContext (Some (mkIdentity "ada" "apikey" {["ws1" := "viewer"]} "k" "")) (Some "ws1") None "" "".

Definition demoTransaction : Descriptor := mkDescriptor "wfs" "ws1" "TRANSACTION" "WFS" "2.0.0" None.

Lemma operation_grant_sound_witness :
  RequireServiceOperation demoEnforcer "wfs" demoTransaction "POST" demoRequest
    = Next (Some (mkGrant "ws1" "wfs" "TRANSACTION" "write"))
  /\ inForce demoCatalog (GetWorkspaceRole (principal demoRequest) "ws1") "ws1" "write"
       ["*"; serviceResource "wfs"; operationResource "wfs" "TRANSACTION"].
Proof.
  assert (H : RequireServiceOperation demoEnforcer "wfs" demoTransaction "POST" demoRequest
    = Next (Some (mkGrant "ws1" "wfs" "TRANSACTION" "write"))) by (vm_compute; reflexivity).
  split; [exact H|].
  apply (operation_grant_sound demoEnforcer "wfs" demoTransaction "POST" demoRequest _ "ws1" "wfs" "write"
    demoEnforcer_reachable H eq_refl).
Defined.

(** ** Limits *)

(** Without a layer in the context [RequireLayerRead] checks nothing: a principal
    without any role in the workspace passes. *)
Lemma layer_read_unchecked_without_layer e id ws :
  RequireLayerRead e (mkReqContext (Some id) (Some ws) None "" "") = Next None
  /\ (Roles id = ∅ -> RequireWorkspaceRead e (mkReqContext (Some id) (Some ws) None "" "") = Deny 403).
Proof.
  split; [done|]. intros H. unfold RequireWorkspaceRead, GetWorkspaceRole, roleAt. simpl. rewrite H.
  by rewrite !lookup_empty.
Qed.

(** [Policy.Matches] follows the matcher, but ignores the case of the action. *)
Lemma Matches_case p role ws layer action :
  length p = 4%nat ->
  Matches (ParsePolicy p) role ws layer action
  = existsb (fun act => matcher role ws layer act p) [action; at_ p 3]
    && (String.eqb (at_ p 3) "*" || EqualFold (at_ p 3) action).
Proof.
  intros Hlen. destruct p as [|a [|b [|c [|d [|]]]]]; try done. unfold Matches, ParsePolicy, at_. simpl.
  rewrite (String.eqb_sym role a), String.eqb_refl.
  destruct (String.eqb a role), (String.eqb b "*"), (String.eqb b ws), (String.eqb c "*"), (String.eqb c layer),
    (String.eqb d "*"), (String.eqb d action), (EqualFold d action); done.
Qed.
