(* ===== verification/TileOwnership.v ===== *)
(** * Ownership of the persistent tile cache ([internal/tilecache/ownership.go], [fenced_jobs.go])

    Processes that share an S3 prefix elect one writer with a marker object and
    conditional writes. The object store is not part of the program: [tag] is the
    version tag it gives a write (a digest of the body or a generation), and the
    only thing assumed of tags is that equal tags name equal bodies. A process is
    a guard with its place in [acquire], its fencing lock and its state; reads and
    conditional writes of different processes interleave in any order. *)

From S2P Require Import Prelude.

Definition legacyOwnerMarkerVersion : Z := 1.
Definition ownerMarkerVersion : Z := 3.

Record ownerMarker : Type := mkMarker {
  SchemaVersion : Z;
  InstanceID : string;
  Hostname : string;
  PID : Z;
  StartedAt : Z;
  Released : bool
}.

(** The body of the marker object: a marker, or something that does not decode. *)
Inductive body : Type := MarkerBody (m : ownerMarker) | CorruptBody.

Inductive ownershipState : Type := ownershipStarting | ownershipHeld | ownershipLost | ownershipReleased.

(** Where a process is: in [acquire] before the read, after it (with what it
    observed), after the conditional write; then running, and in [release]
    between the fence and the conditional write. *)
Inductive guardPc : Type :=
| AtRead
| AtClaim (observed : option (ownerMarker * string))
| AtVerify (etag : string)
| Running
| AtReleaseWrite
| Stopped.

Record ownershipGuard : Type := mkGuard {
  instanceID : string;
  hostname : string;
  pid : Z;
  startedAt : Z;
  TakeoverOwnerID : string;
  etag : string;
  state : ownershipState;
  readers : nat;
  pc : guardPc
}.

Definition newOwnershipGuard (id host : string) (p started : Z) (takeover : string) : ownershipGuard :=
  mkGuard id host p started takeover "" ownershipStarting 0 AtRead.

Definition with_pc (g : ownershipGuard) (e : string) (s : ownershipState) (n : nat) (c : guardPc) : ownershipGuard :=
  mkGuard (instanceID g) (hostname g) (pid g) (startedAt g) (TakeoverOwnerID g) e s n c.

Definition markerBody (g : ownershipGuard) (released : bool) : ownerMarker :=
  mkMarker ownerMarkerVersion (instanceID g) (hostname g) (pid g) (startedAt g) released.

Section Ownership.
Context (tag : body -> nat -> string).

(** The object at the marker's key with its tag, and the number of writes so far. *)
Record leaseStore : Type := mkLease { object : option (body * string); writes : nat }.

(** A write with [If-None-Match: *]. *)
Definition CreateLease (st : leaseStore) (b : body) : option (string * leaseStore) :=
  match object st with
  | Some _ => None
  | None => let e := tag b (S (writes st)) in Some (e, mkLease (Some (b, e)) (S (writes st)))
  end.

(** A write with [If-Match]. *)
Definition ReplaceLease (st : leaseStore) (b : body) (expected : string) : option (string * leaseStore) :=
  match object st with
  | Some (_, current) =>
      if String.eqb current expected
      then let e := tag b (S (writes st)) in Some (e, mkLease (Some (b, e)) (S (writes st)))
      else None
  | None => None
  end.

Inductive readResult : Type := NotFound | ReadError | Observed (m : ownerMarker) (e : string).

Definition readMarker (st : leaseStore) : readResult :=
  match object st with
  | None => NotFound
  | Some (CorruptBody, _) => ReadError
  | Some (MarkerBody m, e) =>
      if (SchemaVersion m <? legacyOwnerMarkerVersion) || (ownerMarkerVersion <? SchemaVersion m)
         || (Released m && (SchemaVersion m <? 3)) || String.eqb (InstanceID m) "" || String.eqb e ""
      then ReadError else Observed m e
  end.

(** The marker in the store is this process's own, as it wrote it. *)
Definition isMine (g : ownershipGuard) (e : string) (r : readResult) : bool :=
  match r with
  | Observed m e' => negb (Released m) && String.eqb (InstanceID m) (instanceID g) && String.eqb e' e
  | _ => false
  end.

(** The decision of [acquire] on what it observed: the conditional write, [None]
    when it refuses or loses the race. *)
Definition claim (g : ownershipGuard) (st : leaseStore) (observed : option (ownerMarker * string))
    : option (string * leaseStore) :=
  let mine := MarkerBody (markerBody g false) in
  match observed with
  | None => if String.eqb (TakeoverOwnerID g) "" then CreateLease st mine else None
  | Some (m, e) =>
      if Released m then if String.eqb (TakeoverOwnerID g) "" then ReplaceLease st mine e else None
      else if String.eqb (TakeoverOwnerID g) "" then None
      else if negb (String.eqb (TakeoverOwnerID g) (InstanceID m)) then None
      else ReplaceLease st mine e
  end.

(** [beginMutation]: the reader side of the fence, held until the mutation ends. *)
Definition beginMutation (g : ownershipGuard) : option ownershipGuard :=
  match state g with
  | ownershipHeld => Some (with_pc g (etag g) (state g) (S (readers g)) (pc g))
  | _ => None
  end.

Definition endMutation (g : ownershipGuard) : ownershipGuard :=
  with_pc g (etag g) (state g) (pred (readers g)) (pc g).

(** [markLost] and the fence of [release] take the writer side: they wait until
    no mutation holds the fence ([None]). *)
Definition markLost (g : ownershipGuard) : option ownershipGuard :=
  if Nat.eqb (readers g) 0
  then Some match state g with
            | ownershipHeld => with_pc g (etag g) ownershipLost 0 (pc g)
            | _ => g
            end
  else None.

Definition releaseFence (g : ownershipGuard) : option ownershipGuard :=
  if Nat.eqb (readers g) 0
  then Some (with_pc g (etag g) ownershipReleased 0
               match state g with ownershipHeld => AtReleaseWrite | _ => Stopped end)
  else None.

(** The conditional write that marks this generation released; a conflict is ignored. *)
Definition releaseWrite (g : ownershipGuard) (st : leaseStore) : leaseStore :=
  match ReplaceLease st (MarkerBody (markerBody g true)) (etag g) with
  | Some (_, st') => st'
  | None => st
  end.

(** [health]. *)
Definition health (g : ownershipGuard) : bool := match state g with ownershipHeld => true | _ => false end.

(** ** The system *)

Definition system : Type := (leaseStore * gmap string ownershipGuard)%type.

Inductive ownStep : system -> system -> Prop :=
| own_start st gs id host p started takeover :
    gs !! id = None -> id <> "" ->
    ownStep (st, gs) (st, <[id := newOwnershipGuard id host p started takeover]> gs)
| own_read st gs id g obs :
    gs !! id = Some g -> pc g = AtRead ->
    match readMarker st with
    | NotFound => obs = None
    | Observed m e => obs = Some (m, e)
    | ReadError => False
    end ->
    ownStep (st, gs) (st, <[id := with_pc g (etag g) (state g) (readers g) (AtClaim obs)]> gs)
| own_claim st gs id g obs e st' :
    gs !! id = Some g -> pc g = AtClaim obs -> claim g st obs = Some (e, st') ->
    ownStep (st, gs) (st', <[id := with_pc g (etag g) (state g) (readers g) (AtVerify e)]> gs)
| own_verify st gs id g e :
    gs !! id = Some g -> pc g = AtVerify e -> isMine g e (readMarker st) = true ->
    ownStep (st, gs) (st, <[id := with_pc g e ownershipHeld (readers g) Running]> gs)
| own_fail st gs id g :
    gs !! id = Some g -> match pc g with AtRead | AtClaim _ | AtVerify _ => True | _ => False end ->
    ownStep (st, gs) (st, <[id := with_pc g (etag g) (state g) (readers g) Stopped]> gs)
| own_begin st gs id g g' :
    gs !! id = Some g -> beginMutation g = Some g' -> ownStep (st, gs) (st, <[id := g']> gs)
| own_end st gs id g :
    gs !! id = Some g -> (0 < readers g)%nat -> ownStep (st, gs) (st, <[id := endMutation g]> gs)
| own_tick st gs id g g' :
    gs !! id = Some g -> pc g = Running -> isMine g (etag g) (readMarker st) = false -> markLost g = Some g' ->
    ownStep (st, gs) (st, <[id := g']> gs)
| own_read_failed st gs id g g' :
    gs !! id = Some g -> pc g = Running -> markLost g = Some g' -> ownStep (st, gs) (st, <[id := g']> gs)
| own_fence st gs id g g' :
    gs !! id = Some g -> pc g = Running -> releaseFence g = Some g' -> ownStep (st, gs) (st, <[id := g']> gs)
| own_release st gs id g :
    gs !! id = Some g -> pc g = AtReleaseWrite ->
    ownStep (st, gs) (releaseWrite g st, <[id := with_pc g (etag g) (state g) (readers g) Stopped]> gs)
| own_crash st gs id g :
    gs !! id = Some g -> ownStep (st, gs) (st, <[id := with_pc g (etag g) ownershipReleased 0 Stopped]> gs).

(** [allow] restricts the takeover identifiers processes are started with. *)
Inductive ownReachable (allow : string -> Prop) : system -> Prop :=
| own_init st : (forall b e, object st = Some (b, e) -> exists n, e = tag b n) ->
    ownReachable allow (st, ∅)
| own_next s s' : ownReachable allow s -> ownStep s s' ->
    (forall id g, s'.2 !! id = Some g -> allow (TakeoverOwnerID g)) -> ownReachable allow s'.

(** ** Invariants *)

Definition mine (g : ownershipGuard) : body := MarkerBody (markerBody g false).

(** What holds of every process whatever the others do. *)
Record guardOk (g : ownershipGuard) : Prop := mkGuardOk {
  go_obs : forall m e, pc g = AtClaim (Some (m, e)) -> exists n, e = tag (MarkerBody m) n;
  go_verify : forall e, pc g = AtVerify e -> exists n, e = tag (mine g) n;
  go_held : state g = ownershipHeld -> pc g = Running;
  go_etag : pc g = Running \/ pc g = AtReleaseWrite -> exists n, etag g = tag (mine g) n;
  go_fence : (0 < readers g)%nat -> state g = ownershipHeld
}.

Definition tagged (st : leaseStore) : Prop := forall b e, object st = Some (b, e) -> exists n, e = tag b n.

Record ownInv (s : system) : Prop := mkOwnInv {
  oi_tagged : tagged s.1;
  oi_key : forall id g, s.2 !! id = Some g -> instanceID g = id;
  oi_guard : forall id g, s.2 !! id = Some g -> guardOk g
}.

Lemma CreateLease_Some st b e st' :
  CreateLease st b = Some (e, st') -> object st = None /\ object st' = Some (b, e) /\ exists n, e = tag b n.
Proof. unfold CreateLease. destruct (object st); [done|]. intros [= <- <-]. eauto. Qed.

Lemma ReplaceLease_Some st b e0 e st' :
  ReplaceLease st b e0 = Some (e, st') ->
  (exists b0, object st = Some (b0, e0)) /\ object st' = Some (b, e) /\ exists n, e = tag b n.
Proof.
  unfold ReplaceLease. destruct (object st) as [[b0 cur]|]; [|done].
  destruct (String.eqb_spec cur e0) as [->|]; [|done]. intros [= <- <-]. eauto.
Qed.

(** What a successful claim found, and that it wrote this process's marker. *)
Lemma claim_Some g st obs e st' :
  claim g st obs = Some (e, st') ->
  object st' = Some (mine g, e) /\ (exists n, e = tag (mine g) n)
  /\ match obs with
     | None => object st = None
     | Some (m, e0) => (exists b0, object st = Some (b0, e0))
         /\ (Released m = true \/ TakeoverOwnerID g = InstanceID m /\ TakeoverOwnerID g <> "")
     end.
Proof.
  unfold claim. destruct obs as [[m e0]|].
  - destruct (Released m).
    + destruct (String.eqb_spec (TakeoverOwnerID g) ""); [|done].
      intros (Hb & Ho & Hn)%ReplaceLease_Some. eauto.
    + destruct (String.eqb_spec (TakeoverOwnerID g) ""); [done|].
      destruct (String.eqb_spec (TakeoverOwnerID g) (InstanceID m)); [|done].
      intros (Hb & Ho & Hn)%ReplaceLease_Some. eauto 10.
  - destruct (String.eqb (TakeoverOwnerID g) ""); [|done]. intros (Hb & Ho & Hn)%CreateLease_Some. eauto.
Qed.

Lemma readMarker_Observed st m e : readMarker st = Observed m e -> object st = Some (MarkerBody m, e).
Proof.
  unfold readMarker. destruct (object st) as [[[m'|] e']|]; try done.
  destruct (_ || _); [done|]. by intros [= <- <-].
Qed.

(** A step moves one process; the store changes only by a claim or a release. *)
Inductive stepKind (st : leaseStore) (g g' : ownershipGuard) (st' : leaseStore) : Prop :=
| sk_quiet : st' = st -> (forall e, pc g' <> AtVerify e) ->
    (state g' = ownershipHeld -> state g = ownershipHeld /\ etag g' = etag g) -> stepKind st g g' st'
| sk_claim obs e : pc g = AtClaim obs -> claim g st obs = Some (e, st') -> pc g' = AtVerify e ->
    state g' <> ownershipHeld -> stepKind st g g' st'
| sk_verify e : st' = st -> pc g = AtVerify e -> pc g' = Running -> etag g' = e -> stepKind st g g' st'
| sk_release : st' = releaseWrite g st -> pc g = AtReleaseWrite -> pc g' = Stopped ->
    state g' <> ownershipHeld -> stepKind st g g' st'.

Lemma ownInv_update st gs id g g' st' :
  ownInv (st, gs) -> gs !! id = Some g -> instanceID g' = instanceID g -> guardOk g' -> tagged st' ->
  ownInv (st', <[id := g']> gs).
Proof.
  intros [Ht Hk Hg] Hid Hi Hok Ht'. split; simpl in *; [done| |].
  - intros id' x [[<- <-]|[_ Hx]]%lookup_insert_Some; [|eauto]. rewrite Hi. eauto.
  - intros id' x [[<- <-]|[_ Hx]]%lookup_insert_Some; eauto.
Qed.

(** A process outside of mutations, at a place that carries no obligation. *)
Lemma guardOk_stopped g e s : guardOk (with_pc g e s 0 Stopped) <-> s <> ownershipHeld.
Proof.
  split; [intros [_ _ H _ _] ->; by specialize (H eq_refl)|].
  intros Hs. split; simpl; intros; try done; try lia. by destruct H.
Qed.

Lemma guardOk_idle g : guardOk g -> state g <> ownershipHeld -> readers g = 0%nat.
Proof. intros Hok Hs. pose proof (go_fence _ Hok). destruct (readers g); [done|]. exfalso. apply Hs, H. lia. Qed.

Lemma ownInv_start st gs id host p t k :
  ownInv (st, gs) -> gs !! id = None -> ownInv (st, <[id := newOwnershipGuard id host p t k]> gs).
Proof.
  intros [Ht Hk Hg] Hid. split; simpl in *; [done| |]; intros id' x [[<- <-]|[_ Hx]]%lookup_insert_Some; eauto.
  split; simpl; intros; try done; try lia. by destruct H.
Qed.

Lemma claim_guardOk g e n :
  guardOk g -> state g <> ownershipHeld -> e = tag (mine g) n ->
  guardOk (with_pc g (etag g) (state g) (readers g) (AtVerify e)).
Proof.
  intros Hok Hs He. pose proof (guardOk_idle g Hok Hs) as Hr. split; simpl; intros; try done; try lia.
  - injection H as <-. eauto.
  - by destruct H.
Qed.

Lemma releaseWrite_tagged g st : tagged st -> tagged (releaseWrite g st).
Proof.
  intros Ht. unfold releaseWrite. destruct (ReplaceLease _ _ _) as [[e st']|] eqn:E; [|done].
  apply ReplaceLease_Some in E as (_ & Ho & Hn). intros b e' Hb. rewrite Hb in Ho. by injection Ho as -> ->.
Qed.

Definition movedBy (st : leaseStore) (gs : gmap string ownershipGuard) (st' : leaseStore)
    (gs' : gmap string ownershipGuard) : Prop :=
  (exists id host p t k, gs !! id = None /\ gs' = <[id := newOwnershipGuard id host p t k]> gs /\ st' = st)
  \/ exists id g g', gs !! id = Some g /\ gs' = <[id := g']> gs /\ mine g' = mine g
       /\ TakeoverOwnerID g' = TakeoverOwnerID g /\ stepKind st g g' st'.

Lemma moved_guard st gs id g g' st' :
  ownInv (st, gs) -> gs !! id = Some g -> instanceID g' = instanceID g -> mine g' = mine g ->
  TakeoverOwnerID g' = TakeoverOwnerID g -> guardOk g' -> tagged st' -> stepKind st g g' st' ->
  ownInv (st', <[id := g']> gs) /\ movedBy st gs st' (<[id := g']> gs).
Proof.
  intros Hi Hid Hin Hm Ht Hok Htag Hk. split; [by apply (ownInv_update st gs id g)|].
  right. exists id, g, g'. done.
Qed.

(** Losing ownership, once no mutation is in progress. *)
Lemma markLost_moved st gs id g g' :
  ownInv (st, gs) -> gs !! id = Some g -> pc g = Running -> markLost g = Some g' ->
  ownInv (st, <[id := g']> gs) /\ movedBy st gs st (<[id := g']> gs).
Proof.
  intros Hi Hid Hpc Hl. pose proof (oi_tagged _ Hi) as Ht. pose proof (oi_guard _ Hi _ _ Hid) as Hok.
  assert (Hheld := go_held _ Hok). unfold markLost in Hl.
  destruct (Nat.eqb_spec (readers g) 0) as [Hr|]; [|done]. injection Hl as <-.
  apply (moved_guard st gs id g); try (by destruct (state g)).
  - destruct (state g) eqn:Es; try done. split; simpl; intros; try done; try lia; [congruence..|].
    by apply (go_etag _ Hok).
  - destruct (state g) eqn:Es; constructor 1; simpl; try done; congruence.
Qed.

(** A mutation of the owner begins or ends. *)
Lemma fence_moved st gs id g n :
  ownInv (st, gs) -> gs !! id = Some g -> state g = ownershipHeld ->
  let g' := with_pc g (etag g) (state g) n (pc g) in
  ownInv (st, <[id := g']> gs) /\ movedBy st gs st (<[id := g']> gs).
Proof.
  intros Hi Hid Es g'. pose proof (oi_tagged _ Hi) as Ht. pose proof (oi_guard _ Hi _ _ Hid) as Hok.
  assert (Hheld := go_held _ Hok). apply (moved_guard st gs id g); try done.
  - split; simpl; intros; try done; [by rewrite (Hheld Es) in H..|by apply Hheld|by apply (go_etag _ Hok)].
  - constructor 1; simpl; try done. by rewrite (Hheld Es).
Qed.

Lemma ownStep_inv st gs st' gs' :
  ownStep (st, gs) (st', gs') -> ownInv (st, gs) -> ownInv (st', gs') /\ movedBy st gs st' gs'.
Proof.
  intros Hs Hi. pose proof (oi_tagged _ Hi) as Ht. simpl in Ht.
  inversion Hs as [? ? id host p t k Hid _|? ? id g obs Hid Hpc Hobs|? ? id g obs e ? Hid Hpc Hc|
    ? ? id g e Hid Hpc Hm|? ? id g Hid Hpc|? ? id g g' Hid Hb|? ? id g Hid Hr|? ? id g g' Hid Hpc Hm Hl|
    ? ? id g g' Hid Hpc Hl|? ? id g g' Hid Hpc Hf|? ? id g Hid Hpc|? ? id g Hid]; subst;
    [|pose proof (oi_guard _ Hi _ _ Hid) as Hok; assert (Hheld := go_held _ Hok)..].
  - split; [by apply ownInv_start|]. left. exists id, host, p, t, k. done.
  - assert (Hns : state g <> ownershipHeld) by (intros H; specialize (Hheld H); congruence).
    pose proof (guardOk_idle g Hok Hns) as Hr. apply (moved_guard st' gs id g); try done.
    + split; simpl; intros; try done; try lia; [|by destruct H].
      injection H as ->. destruct (readMarker st') eqn:E; try done. injection Hobs as <- <-.
      apply readMarker_Observed in E. eauto.
    + by constructor 1.
  - assert (Hns : state g <> ownershipHeld) by (intros H; specialize (Hheld H); congruence).
    pose proof (claim_Some g st obs e st' Hc) as (Ho & [n Hn] & _).
    apply (moved_guard st gs id g); try done.
    + by apply (claim_guardOk g e n).
    + intros b e' Hb. rewrite Hb in Ho. injection Ho as -> ->. eauto.
    + by apply (sk_claim st g _ st' obs e).
  - apply (moved_guard st' gs id g); try done.
    + destruct (go_verify _ Hok e Hpc) as [n Hn]. split; simpl; intros; try done. by exists n.
    + by apply (sk_verify st' g _ st' e).
  - assert (Hns : state g <> ownershipHeld) by (intros H; specialize (Hheld H); by rewrite Hheld in Hpc).
    rewrite (guardOk_idle g Hok Hns). apply (moved_guard st' gs id g); try done; [by apply guardOk_stopped|].
    by constructor 1.
  - unfold beginMutation in Hb. destruct (state g) eqn:Es; try done. injection Hb as <-. rewrite <- Es.
    by apply fence_moved.
  - by apply fence_moved; [..|apply (go_fence _ Hok)].
  - by apply (markLost_moved st' gs id g).
  - by apply (markLost_moved st' gs id g).
  - unfold releaseFence in Hf. destruct (Nat.eqb_spec (readers g) 0) as [Hr|]; [|done]. injection Hf as <-.
    apply (moved_guard st' gs id g); try done.
    + split; simpl; intros; try done; try lia; [by destruct (state g)..|].
      apply (go_etag _ Hok). by left.
    + constructor 1; simpl; try done. intros e. by destruct (state g).
  - assert (Hns : state g <> ownershipHeld) by (intros H; specialize (Hheld H); congruence).
    rewrite (guardOk_idle g Hok Hns).
    apply (moved_guard st gs id g); try done; [by apply guardOk_stopped|by apply releaseWrite_tagged|].
    by constructor 4.
  - apply (moved_guard st' gs id g); try done; [by apply guardOk_stopped|]. by constructor 1.
Qed.

Lemma ownReachable_inv allow s : ownReachable allow s -> ownInv s.
Proof.
  induction 1 as [st Ht|[st gs] [st' gs'] _ IH Hs _].
  - split; simpl; [|intros id g; by rewrite lookup_empty..]. intros b e Hb. by apply Ht.
  - by apply (ownStep_inv st gs).
Qed.

(** ** Theorems *)

Context (tag_inj : forall b b' n n', tag b n = tag b' n' -> b = b').

(** Without takeovers the marker of a process that claimed or holds ownership is in place. *)
Definition markerInPlace (s : system) : Prop :=
  forall id g, s.2 !! id = Some g ->
    (forall e, pc g = AtVerify e -> object s.1 = Some (mine g, e))
    /\ (state g = ownershipHeld -> object s.1 = Some (mine g, etag g)).

(** A process whose marker is in place is in the way of any other's write. *)
Lemma claim_unowned st g obs e st' m2 e2 n2 :
  TakeoverOwnerID g = "" -> guardOk g -> pc g = AtClaim obs -> claim g st obs = Some (e, st') ->
  object st = Some (MarkerBody m2, e2) -> e2 = tag (MarkerBody m2) n2 -> Released m2 = true.
Proof.
  intros Ht Hok Hpc (_ & _ & Hobs)%claim_Some Ho2 He2. destruct obs as [[m e0]|]; [|congruence].
  destruct Hobs as [[b0 Hb0] [Hrel|[_ ?]]]; [|done]. destruct (go_obs _ Hok _ _ Hpc) as [n Hn].
  rewrite Hb0 in Ho2. injection Ho2 as -> ->. assert (MarkerBody m = MarkerBody m2) as [= ->]; [|done].
  apply (tag_inj _ _ n n2). congruence.
Qed.

Lemma release_unowned st g g2 e2 n2 :
  (exists n, etag g = tag (mine g) n) -> object st = Some (mine g2, e2) -> e2 = tag (mine g2) n2 ->
  instanceID g <> instanceID g2 -> releaseWrite g st = st.
Proof.
  intros [n Hn] Ho He2 Hne. unfold releaseWrite. destruct (ReplaceLease _ _ _) as [[e st']|] eqn:E; [|done].
  apply ReplaceLease_Some in E as [[b0 Hb0] _]. rewrite Hb0 in Ho. injection Ho as _ Hte.
  assert (mine g = mine g2) as Hm by (apply (tag_inj _ _ n n2); congruence).
  unfold mine, markerBody in Hm. congruence.
Qed.

Lemma markerInPlace_step st gs st' gs' :
  ownInv (st, gs) -> (forall id g, gs !! id = Some g -> TakeoverOwnerID g = "") ->
  movedBy st gs st' gs' -> markerInPlace (st, gs) -> markerInPlace (st', gs').
Proof.
  intros Hi Hto [(id & host & p & t & k & Hid & -> & ->)|(id & g & g' & Hid & -> & Hm & Htk & Hk)] Hp.
  { intros id' x Hx. simpl in Hx. apply lookup_insert_Some in Hx as [[<- <-]|[_ Hx]]; [done|by apply (Hp id')]. }
  pose proof (oi_guard _ Hi _ _ Hid) as Hok. destruct (Hp id g Hid) as [Hpv Hph].
  assert (Hother : forall id2 g2, id2 <> id -> gs !! id2 = Some g2 ->
    (forall e2, object st = Some (mine g2, e2) -> (exists n, e2 = tag (mine g2) n) ->
       object st' = Some (mine g2, e2)) ->
    (forall e, pc g2 = AtVerify e -> object st' = Some (mine g2, e))
    /\ (state g2 = ownershipHeld -> object st' = Some (mine g2, etag g2))).
  { intros id2 g2 Hne H2 Hkeep. destruct (Hp id2 g2 H2) as [A B]. pose proof (oi_guard _ Hi _ _ H2) as Hok2.
    split; [intros e He; apply Hkeep; [by apply A|by apply (go_verify _ Hok2)]|].
    intros Hh. apply Hkeep; [by apply B|]. apply (go_etag _ Hok2). left. by apply (go_held _ Hok2). }
  intros id2 x Hx. simpl in Hx. apply lookup_insert_Some in Hx as [[<- <-]|[Hne Hx]]; simpl.
  - rewrite Hm. destruct Hk as [Est Hnv Hheld|obs e Hpc Hc Hpc' Hns|e Est Hpc Hpc' He|Est Hpc Hpc' Hns]; try rewrite Est.
    + split; [intros e He; by destruct (Hnv e)|]. intros Hh. destruct (Hheld Hh) as [Hh' ->]. by apply Hph.
    + split; [|done]. intros e' He'. rewrite Hpc' in He'. injection He' as <-. by apply (claim_Some g st obs e st').
    + split; [congruence|]. intros _. rewrite He. by apply Hpv.
    + split; [congruence|done].
  - apply (Hother id2 x); [congruence|done|]. intros e2 Ho [n2 He2].
    destruct Hk as [Est _ _|obs e Hpc Hc _ _|e Est _ _ _|Est Hpc _ _]; try (by rewrite Est).
    + pose proof (claim_unowned st g obs e st' (markerBody x false) e2 n2 (Hto id g Hid) Hok Hpc Hc Ho He2). done.
    + rewrite Est, (release_unowned st g x e2 n2); [done| |done|done|].
      * apply (go_etag _ Hok). by right.
      * pose proof (oi_key _ Hi _ _ Hid). pose proof (oi_key _ Hi _ _ Hx). congruence.
Qed.

Lemma ownReachable_place s : ownReachable (eq "") s -> markerInPlace s.
Proof.
  induction 1 as [st Ht|[st gs] [st' gs'] Hr IH Hs Hto]; [intros id g; simpl; by rewrite lookup_empty|].
  pose proof (ownReachable_inv _ _ Hr) as Hi. destruct (ownStep_inv _ _ _ _ Hs Hi) as [_ Hmv].
  apply (markerInPlace_step st gs); try done. intros id g Hg.
  inversion Hr as [? ? Heq|? ? ? ? Hall]; subst; [by rewrite lookup_empty in Hg|].
  symmetry. by apply (Hall id).
Qed.

(** C21: one writer. Unless an operator orders a takeover, in every interleaving
    of starts, reads, conditional writes, checks, releases and crashes of any
    number of processes, a process with a mutation in flight holds ownership, its
    own marker is in the store, and no other process has a mutation in flight. *)
Theorem single_writer st gs id1 g1 :
  ownReachable (eq "") (st, gs) -> gs !! id1 = Some g1 -> (0 < readers g1)%nat ->
  state g1 = ownershipHeld /\ object st = Some (mine g1, etag g1)
  /\ forall id2 g2, gs !! id2 = Some g2 -> (0 < readers g2)%nat -> id2 = id1.
Proof.
  intros Hr H1 Hn1. pose proof (ownReachable_inv _ _ Hr) as Hi. pose proof (ownReachable_place _ Hr) as Hp.
  pose proof (go_fence _ (oi_guard _ Hi _ _ H1) Hn1) as Hs1. split_and!; [done|by apply (Hp id1)|].
  intros id2 g2 H2 Hn2. pose proof (go_fence _ (oi_guard _ Hi _ _ H2) Hn2) as Hs2.
  pose proof (proj2 (Hp id1 g1 H1) Hs1) as A. pose proof (proj2 (Hp id2 g2 H2) Hs2) as B. simpl in *.
  pose proof (oi_key _ Hi _ _ H1). pose proof (oi_key _ Hi _ _ H2). simpl in *.
  rewrite A in B. unfold mine, markerBody in B. congruence.
Qed.

(** A replaced owner is fenced and harmless. Also with takeovers: when the
    marker of a process that runs or is releasing is no longer in the store, its
    next check reports the loss, after which it starts no mutation; and its
    release leaves the store, with the marker of its successor, unchanged. *)
Theorem replaced_owner_fenced allow st gs id g :
  ownReachable allow (st, gs) -> gs !! id = Some g -> pc g = Running \/ pc g = AtReleaseWrite ->
  object st <> Some (mine g, etag g) ->
  isMine g (etag g) (readMarker st) = false /\ releaseWrite g st = st
  /\ forall g', markLost g = Some g' -> beginMutation g' = None /\ health g' = false.
Proof.
  intros Hr Hg Hpc Hrep. pose proof (ownReachable_inv _ _ Hr) as Hi.
  destruct (go_etag _ (oi_guard _ Hi _ _ Hg) Hpc) as [n Hn].
  assert (Htag : forall b, object st <> Some (b, etag g)).
  { intros b Hb. destruct (oi_tagged _ Hi _ _ Hb) as [n' Hn']. apply Hrep. rewrite Hb. do 2 f_equal.
    apply (tag_inj _ _ n' n). congruence. }
  split_and!.
  - destruct (readMarker st) as [| |m e] eqn:E; try done. apply readMarker_Observed in E. simpl.
    destruct (String.eqb_spec e (etag g)) as [->|]; [by destruct (Htag _ E)|by rewrite andb_false_r].
  - unfold releaseWrite. destruct (ReplaceLease _ _ _) as [[e st']|] eqn:E; [|done].
    apply ReplaceLease_Some in E as [[b Hb] _]. by destruct (Htag b).
  - intros g'. unfold markLost. destruct (Nat.eqb (readers g) 0); [|done]. intros [= <-].
    unfold beginMutation, health. destruct (state g) eqn:Es; simpl; by rewrite ?Es.
Qed.

End Ownership.

(** ** Witnesses *)

#[export] Instance ownerMarker_eq_dec : EqDecision ownerMarker.
Proof. solve_decision. Defined.

#[export] Instance ownerMarker_countable : Countable ownerMarker :=
  inj_countable' (fun m => (SchemaVersion m, InstanceID m, Hostname m, PID m, StartedAt m, Released m))
    (fun t => let '(v, i, h, p, s, r) := t in mkMarker v i h p s r) ltac:(by intros []).

#[export] Instance body_eq_dec : EqDecision body.
Proof. solve_decision. Defined.

#[export] Instance body_countable : Countable body :=
  inj_countable' (fun b => match b with MarkerBody m => Some m | CorruptBody => None end)
    (fun o => match o with Some m => MarkerBody m | None => CorruptBody end) ltac:(by intros []).

(** A tag computed from the body alone, as a digest is. *)
Definition demoTag (b : body) (_ : nat) : string := pretty (N.pos (encode b)).

Lemma demoTag_inj b b' n n' : demoTag b n = demoTag b' n' -> b = b'.
Proof.
  unfold demoTag. intros H. apply (inj (pretty : N -> string)) in H. injection H as H. by apply (inj encode).
Qed.

(** Process "a" claims an empty prefix and starts a mutation. *)
Definition demoGuard : ownershipGuard := newOwnershipGuard "a" "host" 1 0 "".
Definition demoMarker : body := MarkerBody (markerBody demoGuard false).
Definition demoLease : leaseStore := mkLease (Some (demoMarker, demoTag demoMarker 1)) 1.
Definition demoWriter : ownershipGuard := with_pc demoGuard (demoTag demoMarker 1) ownershipHeld 1 Running.

Definition demoSystem : system :=
  (demoLease,
   <["a" := demoWriter]> (<["a" := with_pc demoGuard (demoTag demoMarker 1) ownershipHeld 0 Running]>
     (<["a" := with_pc demoGuard "" ownershipStarting 0 (AtVerify (demoTag demoMarker 1))]>
       (<["a" := with_pc demoGuard "" ownershipStarting 0 (AtClaim None)]> (<["a" := demoGuard]> ∅))))).

Lemma no_takeover (gs : gmap string ownershipGuard) :
  map_Forall (fun _ g => TakeoverOwnerID g = "") gs -> forall id g, gs !! id = Some g -> "" = TakeoverOwnerID g.
Proof. intros H id g Hg. symmetry. by apply (H id g). Qed.

Lemma demoSystem_reachable : ownReachable demoTag (eq "") demoSystem.
Proof.
  assert (Hstep : forall s s' : system, ownReachable demoTag (eq "") s -> ownStep demoTag s s' ->
    map_Forall (fun _ g => TakeoverOwnerID g = "") s'.2 -> ownReachable demoTag (eq "") s').
  { intros s s' Hr Hs Hn. apply (own_next _ _ s); [done..|]. by apply no_takeover. }
  assert (Hins : forall gs g, TakeoverOwnerID g = "" -> map_Forall (fun _ g => TakeoverOwnerID g = "") gs ->
    map_Forall (fun _ g => TakeoverOwnerID g = "") (<["a" := g]> gs)) by (intros; by apply map_Forall_insert_2).
  pose proof (map_Forall_empty (fun (_ : string) g => TakeoverOwnerID g = "")) as H0.
  set (gs1 := <["a" := demoGuard]> ∅ : gmap string ownershipGuard).
  assert (R1 : ownReachable demoTag (eq "") (mkLease None 0, gs1)).
  { apply (Hstep (mkLease None 0, ∅)); [by apply own_init| |by apply Hins].
    by apply (own_start _ _ _ "a" "host" 1 0 ""). }
  set (gs2 := <["a" := with_pc demoGuard "" ownershipStarting 0 (AtClaim None)]> gs1).
  assert (R2 : ownReachable demoTag (eq "") (mkLease None 0, gs2)).
  { apply (Hstep _ _ R1); [|by apply Hins, Hins].
    apply (own_read demoTag _ _ "a" demoGuard None); [apply lookup_insert_eq|done|done]. }
  set (gs3 := <["a" := with_pc demoGuard "" ownershipStarting 0 (AtVerify (demoTag demoMarker 1))]> gs2).
  assert (R3 : ownReachable demoTag (eq "") (demoLease, gs3)).
  { apply (Hstep _ _ R2); [|by apply Hins, Hins, Hins].
    apply (own_claim demoTag _ _ "a" (with_pc demoGuard "" ownershipStarting 0 (AtClaim None)) None);
      [apply lookup_insert_eq|done|reflexivity]. }
  set (gs4 := <["a" := with_pc demoGuard (demoTag demoMarker 1) ownershipHeld 0 Running]> gs3).
  assert (R4 : ownReachable demoTag (eq "") (demoLease, gs4)).
  { apply (Hstep _ _ R3); [|by apply Hins, Hins, Hins, Hins].
    apply (own_verify demoTag _ _ "a"
      (with_pc demoGuard "" ownershipStarting 0 (AtVerify (demoTag demoMarker 1))) (demoTag demoMarker 1));
      [apply lookup_insert_eq|done|vm_compute; reflexivity]. }
  apply (Hstep _ _ R4); [|by apply Hins, Hins, Hins, Hins, Hins].
  apply (own_begin demoTag _ _ "a" (with_pc demoGuard (demoTag demoMarker 1) ownershipHeld 0 Running));
    [apply lookup_insert_eq|reflexivity].
Qed.

Lemma single_writer_witness :
  state demoWriter = ownershipHeld /\ object demoLease = Some (mine demoWriter, etag demoWriter).
Proof.
  destruct (single_writer demoTag demoTag_inj demoSystem.1 demoSystem.2 "a" demoWriter demoSystem_reachable
    (lookup_insert_eq _ _ _) (le_n 1)) as (Hs & Ho & _).
  exact (conj Hs Ho).
Defined.

(** Process "b" takes the prefix over from "a", which still runs. *)
Definition demoTaker : ownershipGuard := newOwnershipGuard "b" "other" 2 5 "a".
Definition demoTaken : body := MarkerBody (markerBody demoTaker false).
Definition demoObserved : option (ownerMarker * string) :=
  Some (markerBody demoGuard false, demoTag demoMarker 1).

Definition takenSystem : system :=
  (mkLease (Some (demoTaken, demoTag demoTaken 2)) 2,
   <["b" := with_pc demoTaker "" ownershipStarting 0 (AtVerify (demoTag demoTaken 2))]>
     (<["b" := with_pc demoTaker "" ownershipStarting 0 (AtClaim demoObserved)]>
       (<["b" := demoTaker]> demoSystem.2))).

Lemma ownReachable_mono tag (allow allow' : string -> Prop) s :
  (forall k, allow k -> allow' k) -> ownReachable tag allow s -> ownReachable tag allow' s.
Proof.
  intros Hm. induction 1 as [st Ht|s s' _ IH Hs Hall]; [by apply own_init|].
  apply (own_next _ _ s); [done|done|]. intros id g Hg. eauto.
Qed.

Lemma takenSystem_reachable : ownReachable demoTag (fun _ => True) takenSystem.
Proof.
  assert (R0 : ownReachable demoTag (fun _ => True) demoSystem)
    by (apply (ownReachable_mono _ (eq "")); [done|exact demoSystem_reachable]).
  assert (R1 : ownReachable demoTag (fun _ => True) (demoLease, <["b" := demoTaker]> demoSystem.2)).
  { apply (own_next _ _ _ _ R0); [|done].
    apply (own_start _ demoLease _ "b" "other" 2 5 "a"); [vm_compute; reflexivity|done]. }
  assert (R2 : ownReachable demoTag (fun _ => True) (demoLease,
    <["b" := with_pc demoTaker "" ownershipStarting 0 (AtClaim demoObserved)]> (<["b" := demoTaker]> demoSystem.2))).
  { apply (own_next _ _ _ _ R1); [|done].
    apply (own_read demoTag demoLease _ "b" demoTaker demoObserved);
      [apply lookup_insert_eq|done|vm_compute; reflexivity]. }
  apply (own_next _ _ _ _ R2); [|done].
  apply (own_claim demoTag demoLease _ "b" (with_pc demoTaker "" ownershipStarting 0 (AtClaim demoObserved))
    demoObserved); [apply lookup_insert_eq|done|vm_compute; reflexivity].
Qed.

Lemma replaced_owner_fenced_witness :
  isMine demoWriter (etag demoWriter) (readMarker takenSystem.1) = false
  /\ releaseWrite demoTag demoWriter takenSystem.1 = takenSystem.1.
Proof.
  assert (Hg : takenSystem.2 !! "a" = Some demoWriter) by (vm_compute; reflexivity).
  assert (Hne : object takenSystem.1 <> Some (mine demoWriter, etag demoWriter)) by (vm_compute; discriminate).
  destruct (replaced_owner_fenced demoTag demoTag_inj (fun _ => True) takenSystem.1 takenSystem.2 "a" demoWriter
    takenSystem_reachable Hg (or_introl eq_refl) Hne) as (A & B & _).
  exact (conj A B).
Defined.
