(* ===== verification/TileMatrix.v ===== *)
(** * Tile matrix sets ([internal/tiles/tilematrixsets.go], [types.go], [internal/wmts/limits.go])

    The two built-in sets and the registry of custom sets, their validation, the
    addressing of tiles and the bounding box of a tile. Floating-point values are those
    of [SpecFloat] (binary64, round to nearest even); a float converted to [int] is the
    floor of it, and -2^63 outside the range of int64. [digestOf] is the SHA-256 of the
    JSON of a definition. *)

From S2P Require Import Prelude GoText GoNum.

(** ** Arithmetic on float64 *)

Definition fadd (a b : float64) : float64 := SFadd 53 1024 a b.
Definition fsub (a b : float64) : float64 := SFsub 53 1024 a b.
Definition fmul (a b : float64) : float64 := SFmul 53 1024 a b.
Definition fdiv (a b : float64) : float64 := SFdiv 53 1024 a b.

(** [float64(n)]. *)
Definition ofInt (n : Z) : float64 := binary_normalize 53 1024 n 0 false.

Definition fzero : float64 := S754_zero false.

(** [math.Nextafter(x, math.Inf(1))] and [math.Nextafter(x, math.Inf(-1))]. *)
Definition nextUp (x : float64) : float64 := SFsucc 53 1024 x.
Definition nextDown (x : float64) : float64 := SFpred 53 1024 x.

(** [max] and [min] of two floats. *)
Definition fmax (a b : float64) : float64 :=
  match a, b with
  | S754_nan, _ | _, S754_nan => S754_nan
  | S754_zero s, S754_zero t => S754_zero (s && t)
  | _, _ => if SFltb a b then b else a
  end.
Definition fmin (a b : float64) : float64 :=
  match a, b with
  | S754_nan, _ | _, S754_nan => S754_nan
  | S754_zero s, S754_zero t => S754_zero (s || t)
  | _, _ => if SFltb b a then b else a
  end.

(** [int(math.Floor(x))]. *)
Definition floorInt (x : float64) : Z :=
  match x with
  | S754_zero _ => 0
  | S754_finite s m e =>
      let v := cond_Zopp s (Zpos m) in
      let n := if 0 <=? e then v * 2 ^ e else v / 2 ^ (- e) in
      if inInt64 n then n else - 2 ^ 63
  | _ => - 2 ^ 63
  end.

(** ** Definitions *)

Definition TMSWebMercatorQuad : string := "WebMercatorQuad".
Definition TMSWorldCRS84Quad : string := "WorldCRS84Quad".
Definition CRS3857URI : string := "http://www.opengis.net/def/crs/EPSG/0/3857".
Definition CRS4326URI : string := "http://www.opengis.net/def/crs/OGC/1.3/CRS84".
Definition TMSWebMercatorQuadURI : string := "http://www.opengis.net/def/tilematrixset/OGC/1.0/WebMercatorQuad".
Definition TMSWorldCRS84QuadURI : string := "http://www.opengis.net/def/tilematrixset/OGC/1.0/WorldCRS84Quad".

Definition WebMercatorOriginX : float64 := decimal_to_float true 200375083427892 (-7).
Definition WebMercatorOriginY : float64 := decimal_to_float false 200375083427892 (-7).
Definition WebMercatorExtent : float64 := decimal_to_float false 400750166855784 (-7).
Definition WebMercatorTileSize : Z := 256.
Definition WebMercatorScaleDenom0 : float64 := decimal_to_float false 559082264028717 (-6).
Definition WebMercatorCellSize0 : float64 := decimal_to_float false 156543033928041 (-9).

Definition CRS84OriginX : float64 := ofInt (-180).
Definition CRS84OriginY : float64 := ofInt 90.
Definition CRS84TileSize : Z := 256.
Definition CRS84ScaleDenom0 : float64 := decimal_to_float false 279541132014358 (-6).
Definition CRS84CellSize0 : float64 := decimal_to_float false 703125 (-6).

Record TileMatrix : Type := mkMatrix {
  MatrixID : string;
  ScaleDenominator : float64;
  CellSize : float64;
  CornerOfOrigin : string;
  PointOfOrigin : list float64;
  TileWidth : Z; TileHeight : Z;
  MatrixWidth : Z; MatrixHeight : Z
}.

Record BoundingBox : Type := mkBoundingBox {
  BoxCRS : string; LowerCorner : list float64; UpperCorner : list float64
}.

Record TileMatrixSetDefinition : Type := mkSet {
  SetID : string; Title : string; Description : string; URI : string; CRS : string;
  OrderedAxes : list string; WellKnownScaleSet : string;
  SetBounds : option BoundingBox;
  TileMatrices : list TileMatrix
}.

(** ** Validation *)

Inductive matrixError : Type :=
| IDRequired
| UnsupportedCRS (crs : string)
| MatrixCount
| MatrixIDNotUnique
| MatrixIDNotCanonical (id : string)
| InvalidMatrix (id : string)
| NotTopLeft (id : string)
| BuiltIn (id : string)
| UnknownSet (id : string)
| ZoomRange (z : Z)
| UnknownMatrix (z : Z)
| OutOfMatrix (x y : Z).

Definition isNaN (f : float64) : bool := match f with S754_nan => true | _ => false end.
Definition isInf (f : float64) : bool := match f with S754_infinity _ => true | _ => false end.

Definition validMatrix (m : TileMatrix) : bool :=
  negb (SFleb (CellSize m) fzero || isNaN (CellSize m) || isInf (CellSize m)
        || SFleb (ScaleDenominator m) fzero || (TileWidth m <=? 0) || (TileHeight m <=? 0)
        || (MatrixWidth m <=? 0) || (MatrixHeight m <=? 0) || negb (Nat.eqb (length (PointOfOrigin m)) 2)).

Fixpoint validateMatrices (seen : list string) (l : list TileMatrix) : option matrixError :=
  match l with
  | [] => None
  | m :: rest =>
      if String.eqb (TrimSpace (MatrixID m)) "" || bool_decide (MatrixID m ∈ seen) then Some MatrixIDNotUnique
      else
        match Atoi (MatrixID m) with
        | Some zoom =>
            if (zoom <? 0) || negb (String.eqb (pretty zoom) (MatrixID m)) then Some (MatrixIDNotCanonical (MatrixID m))
            else if negb (validMatrix m) then Some (InvalidMatrix (MatrixID m))
            else if negb (String.eqb (CornerOfOrigin m) "") && negb (String.eqb (CornerOfOrigin m) "topLeft")
                 then Some (NotTopLeft (MatrixID m))
            else validateMatrices (MatrixID m :: seen) rest
        | None => Some (MatrixIDNotCanonical (MatrixID m))
        end
  end.

Definition ValidateTileMatrixSetDefinition (d : TileMatrixSetDefinition) : option matrixError :=
  if String.eqb (TrimSpace (SetID d)) "" then Some IDRequired
  else if negb (String.eqb (CRS d) CRS3857URI) && negb (String.eqb (CRS d) CRS4326URI) then Some (UnsupportedCRS (CRS d))
  else if Nat.eqb (length (TileMatrices d)) 0 || Nat.ltb 64 (length (TileMatrices d)) then Some MatrixCount
  else validateMatrices [] (TileMatrices d).

(** ** The registry of custom sets, with the digest of each definition *)

Section Registry.
Context (digestOf : TileMatrixSetDefinition -> string).

Abbreviation registry := (gmap string (TileMatrixSetDefinition * string)).

Fixpoint customItems (next : registry) (l : list TileMatrixSetDefinition) : matrixError + registry :=
  match l with
  | [] => inr next
  | d :: rest =>
      match ValidateTileMatrixSetDefinition d with
      | Some e => inl e
      | None =>
          if String.eqb (SetID d) TMSWebMercatorQuad || String.eqb (SetID d) TMSWorldCRS84Quad then inl (BuiltIn (SetID d))
          else customItems (<[SetID d := (d, digestOf d)]> next) rest
      end
  end.

(** The registry is replaced as a whole, or kept. *)
Definition ReplaceCustomTileMatrixSets (reg : registry) (l : list TileMatrixSetDefinition) : option matrixError * registry :=
  match customItems ∅ l with
  | inl e => (Some e, reg)
  | inr next => (None, next)
  end.

Definition zooms : list Z := seqZ 0 25.

Definition webMercatorMatrix (z : Z) : TileMatrix :=
  let scale := Z.shiftl 1 z in
  mkMatrix (pretty z) (fdiv WebMercatorScaleDenom0 (ofInt scale)) (fdiv WebMercatorCellSize0 (ofInt scale)) "topLeft"
    [WebMercatorOriginX; WebMercatorOriginY] WebMercatorTileSize WebMercatorTileSize scale scale.

Definition getWebMercatorQuad : TileMatrixSetDefinition :=
  mkSet TMSWebMercatorQuad "Google Maps Compatible for the World"
    "The widely used 'Web Mercator' tile matrix set, compatible with Google Maps, Bing Maps, OpenStreetMap, and many other services."
    TMSWebMercatorQuadURI CRS3857URI ["X"; "Y"] "http://www.opengis.net/def/wkss/OGC/1.0/GoogleMapsCompatible"
    (Some (mkBoundingBox CRS3857URI [WebMercatorOriginX; WebMercatorOriginX] [WebMercatorOriginY; WebMercatorOriginY]))
    (webMercatorMatrix <$> zooms).

Definition worldCRS84Matrix (z : Z) : TileMatrix :=
  let scale := Z.shiftl 1 z in
  mkMatrix (pretty z) (fdiv CRS84ScaleDenom0 (ofInt scale)) (fdiv CRS84CellSize0 (ofInt scale)) "topLeft"
    [CRS84OriginX; CRS84OriginY] CRS84TileSize CRS84TileSize (scale * 2) scale.

Definition getWorldCRS84Quad : TileMatrixSetDefinition :=
  mkSet TMSWorldCRS84Quad "CRS84 for the World"
    "The tile matrix set for the World using CRS84 (WGS84 geographic coordinate system with longitude/latitude axes)."
    TMSWorldCRS84QuadURI CRS4326URI ["Lon"; "Lat"] "http://www.opengis.net/def/wkss/OGC/1.0/GoogleCRS84Quad"
    (Some (mkBoundingBox CRS4326URI [ofInt (-180); ofInt (-90)] [ofInt 180; ofInt 90]))
    (worldCRS84Matrix <$> zooms).

(** The definition and its digest. *)
Definition GetTileMatrixSetDefinition (reg : registry) (id : string) : option (TileMatrixSetDefinition * string) :=
  if String.eqb id TMSWebMercatorQuad then Some (getWebMercatorQuad, digestOf getWebMercatorQuad)
  else if String.eqb id TMSWorldCRS84Quad then Some (getWorldCRS84Quad, digestOf getWorldCRS84Quad)
  else reg !! id.

(** ** Addressing *)

Definition matrixForZoom (d : TileMatrixSetDefinition) (z : Z) : option TileMatrix :=
  snd <$> list_find (fun m => MatrixID m = pretty z) (TileMatrices d).

Definition ValidateTileCoords (reg : registry) (tms : string) (z x y : Z) : option matrixError :=
  if (z <? 0) || (24 <? z) then Some (ZoomRange z)
  else if String.eqb tms TMSWebMercatorQuad then
    let max := Z.shiftl 1 z in
    if (x <? 0) || (max <=? x) then Some (OutOfMatrix x y)
    else if (y <? 0) || (max <=? y) then Some (OutOfMatrix x y) else None
  else if String.eqb tms TMSWorldCRS84Quad then
    let maxX := Z.shiftl 1 z * 2 in
    let maxY := Z.shiftl 1 z in
    if (x <? 0) || (maxX <=? x) then Some (OutOfMatrix x y)
    else if (y <? 0) || (maxY <=? y) then Some (OutOfMatrix x y) else None
  else
    match GetTileMatrixSetDefinition reg tms with
    | None => Some (UnknownSet tms)
    | Some (d, _) =>
        match matrixForZoom d z with
        | None => Some (UnknownMatrix z)
        | Some m =>
            if (x <? 0) || (MatrixWidth m <=? x) || (y <? 0) || (MatrixHeight m <=? y) then Some (OutOfMatrix x y) else None
        end
    end.

Definition GetTMSSRID (reg : registry) (tms : string) : Z :=
  if String.eqb tms TMSWebMercatorQuad then 3857
  else if String.eqb tms TMSWorldCRS84Quad then 4326
  else match GetTileMatrixSetDefinition reg tms with
       | Some (d, _) => if String.eqb (CRS d) CRS3857URI then 3857 else 4326
       | None => 4326
       end.

(** ** The bounding box of a tile *)

Record TileBounds : Type := mkTileBounds { MinX : float64; MinY : float64; MaxX : float64; MaxY : float64 }.

Definition webMercatorTileBBox (z x y : Z) : TileBounds :=
  let n := ofInt (Z.shiftl 1 z) in
  let tileSize := fdiv WebMercatorExtent n in
  let minX := fadd WebMercatorOriginX (fmul (ofInt x) tileSize) in
  let maxX := fadd minX tileSize in
  let maxY := fsub WebMercatorOriginY (fmul (ofInt y) tileSize) in
  let minY := fsub maxY tileSize in
  mkTileBounds minX minY maxX maxY.

Definition worldCRS84TileBBox (z x y : Z) : TileBounds :=
  let scale := Z.shiftl 1 z in
  let tileWidth := fdiv (ofInt 360) (ofInt (scale * 2)) in
  let tileHeight := fdiv (ofInt 180) (ofInt scale) in
  let minLon := fadd CRS84OriginX (fmul (ofInt x) tileWidth) in
  let maxLon := fadd minLon tileWidth in
  let maxLat := fsub CRS84OriginY (fmul (ofInt y) tileHeight) in
  let minLat := fsub maxLat tileHeight in
  mkTileBounds minLon minLat maxLon maxLat.

(** A custom set's matrix has two coordinates of origin (it was validated). *)
Definition origin (m : TileMatrix) (k : nat) : float64 := default fzero (PointOfOrigin m !! k).

Definition TileBBox (reg : registry) (tms : string) (z x y : Z) : matrixError + TileBounds :=
  if String.eqb tms TMSWebMercatorQuad then inr (webMercatorTileBBox z x y)
  else if String.eqb tms TMSWorldCRS84Quad then inr (worldCRS84TileBBox z x y)
  else
    match GetTileMatrixSetDefinition reg tms with
    | None => inl (UnknownSet tms)
    | Some (d, _) =>
        match matrixForZoom d z with
        | None => inl (UnknownMatrix z)
        | Some m =>
            let width := fmul (ofInt (TileWidth m)) (CellSize m) in
            let height := fmul (ofInt (TileHeight m)) (CellSize m) in
            let minX := fadd (origin m 0) (fmul (ofInt x) width) in
            let maxY := fsub (origin m 1) (fmul (ofInt y) height) in
            inr (mkTileBounds minX (fsub maxY height) (fadd minX width) maxY)
        end
    end.
End Registry.

(** ** Properties *)

Section Properties.
Context (digestOf : TileMatrixSetDefinition -> string).

(** A set whose matrices are numbered by zoom level. *)
Lemma matrixForZoom_numbered (f : Z -> TileMatrix) d z :
  (forall k, MatrixID (f k) = pretty k) -> TileMatrices d = f <$> zooms -> 0 <= z <= 24 ->
  matrixForZoom d z = Some (f z).
Proof.
  intros Hid Hd Hz. unfold matrixForZoom. rewrite Hd.
  assert (Hf : list_find (fun m => MatrixID m = pretty z) (f <$> zooms) = Some (Z.to_nat z, f z)); [|by rewrite Hf].
  assert (Hl : forall i, (f <$> zooms) !! i = if decide (i < 25)%nat then Some (f (Z.of_nat i)) else None).
  { intros i. rewrite list_lookup_fmap. unfold zooms. case_decide.
    - rewrite lookup_seqZ_lt by lia. done.
    - rewrite lookup_seqZ_ge by lia. done. }
  apply list_find_Some. split_and!.
  - rewrite Hl, decide_True by lia. f_equal. f_equal. lia.
  - apply Hid.
  - intros j y Hj Hlt. rewrite Hl, decide_True in Hj by lia. injection Hj as <-. rewrite Hid.
    intros He%(inj pretty). lia.
Qed.

Lemma webMercator_zoom z : 0 <= z <= 24 -> matrixForZoom getWebMercatorQuad z = Some (webMercatorMatrix z).
Proof. by apply matrixForZoom_numbered. Qed.

Lemma worldCRS84_zoom z : 0 <= z <= 24 -> matrixForZoom getWorldCRS84Quad z = Some (worldCRS84Matrix z).
Proof. by apply matrixForZoom_numbered. Qed.

(** Every set of a registry that was loaded is valid and filed under its own name. *)
Definition wfRegistry (reg : gmap string (TileMatrixSetDefinition * string)) : Prop :=
  forall id d dg, reg !! id = Some (d, dg) ->
  SetID d = id /\ ValidateTileMatrixSetDefinition d = None /\ dg = digestOf d
  /\ id <> TMSWebMercatorQuad /\ id <> TMSWorldCRS84Quad.

Lemma customItems_wf l next next' :
  wfRegistry next -> customItems digestOf next l = inr next' -> wfRegistry next'.
Proof.
  revert next. induction l as [|d l IH]; intros next Hw; cbn [customItems]; [by intros [= <-]|].
  destruct (ValidateTileMatrixSetDefinition d) eqn:Hv; [done|]. destruct (_ || _) eqn:Hb; [done|]. apply IH.
  apply orb_false_iff in Hb as [H1%String.eqb_neq H2%String.eqb_neq].
  intros id d' dg [[<- [= <- <-]]|[_ Hl]]%lookup_insert_Some; [done|by apply Hw].
Qed.

Lemma ReplaceCustomTileMatrixSets_wf reg l :
  wfRegistry reg -> wfRegistry (ReplaceCustomTileMatrixSets digestOf reg l).2.
Proof.
  intros Hw. unfold ReplaceCustomTileMatrixSets. destruct (customItems digestOf ∅ l) as [e|next] eqn:Hc; [done|].
  eapply customItems_wf; [|exact Hc]. intros id d dg Hl. by rewrite lookup_empty in Hl.
Qed.

Lemma in_range x max : (x <? 0) || (max <=? x) = false <-> 0 <= x < max.
Proof. rewrite orb_false_iff, Z.ltb_ge, Z.leb_gt. done. Qed.

Lemma coords_case x y w h (e1 e2 : matrixError) :
  (if (x <? 0) || (w <=? x) then Some e1 else if (y <? 0) || (h <=? y) then Some e2 else None) = None
  <-> 0 <= x < w /\ 0 <= y < h.
Proof.
  rewrite <- !in_range. destruct ((x <? 0) || _); [split; [done|by intros [? _]]|].
  destruct ((y <? 0) || _); split; [done|by intros [_ ?]|done|done].
Qed.

Lemma conj_true (P Q : Prop) : P -> (P /\ Q <-> Q).
Proof. tauto. Qed.
End Properties.

(** For the built-in and for every registered custom set alike, tile coordinates are accepted
    exactly when the set's own definition has a matrix for the zoom level (0 to 24) and the column
    and row lie inside that matrix. *)
Theorem ValidateTileCoords_exact (digestOf : TileMatrixSetDefinition -> string) reg tms z x y :
  ValidateTileCoords digestOf reg tms z x y = None <->
  0 <= z <= 24 /\ exists d dg m, GetTileMatrixSetDefinition digestOf reg tms = Some (d, dg) /\
    matrixForZoom d z = Some m /\ 0 <= x < MatrixWidth m /\ 0 <= y < MatrixHeight m.
Proof.
  unfold ValidateTileCoords. destruct ((z <? 0) || (24 <? z)) eqn:Hz.
  { apply orb_true_iff in Hz. rewrite !Z.ltb_lt in Hz. split; [done|]. intros [? _]. lia. }
  apply orb_false_iff in Hz. rewrite !Z.ltb_ge in Hz. assert (Hr : 0 <= z <= 24) by lia. unfold GetTileMatrixSetDefinition.
  rewrite (conj_true _ _ Hr).
  destruct (String.eqb_spec tms TMSWebMercatorQuad) as [->|H1].
  { cbv zeta. rewrite coords_case. split.
    - intros H. exists getWebMercatorQuad, (digestOf getWebMercatorQuad), (webMercatorMatrix z).
      split; [done|]. split; [by apply webMercator_zoom|done].
    - intros (d & dg & m & [= <- <-] & Hm & H). rewrite webMercator_zoom in Hm by done. by injection Hm as <-. }
  destruct (String.eqb_spec tms TMSWorldCRS84Quad) as [->|H2].
  { cbv zeta. rewrite coords_case. split.
    - intros H. exists getWorldCRS84Quad, (digestOf getWorldCRS84Quad), (worldCRS84Matrix z).
      split; [done|]. split; [by apply worldCRS84_zoom|done].
    - intros (d & dg & m & [= <- <-] & Hm & H). rewrite worldCRS84_zoom in Hm by done. by injection Hm as <-. }
  destruct (reg !! tms) as [[d dg]|]; [|split; [done|by intros (? & ? & ? & ? & _)]].
  destruct (matrixForZoom d z) as [m|] eqn:Hm; [|split; [done|intros (? & ? & ? & [= <- <-] & He & _); congruence]].
  rewrite <- orb_assoc. split.
  - destruct (_ || _) eqn:Hb; [done|]. intros _. apply orb_false_iff in Hb as [Hx%in_range Hy%in_range]. exists d, dg, m. auto.
  - intros (d' & dg' & m' & [= <- <-] & Hm' & Hx & Hy). rewrite Hm in Hm'. injection Hm' as <-.
    apply in_range in Hx, Hy. by rewrite Hx, Hy.
Qed.

(** ** The sets that are served *)

Lemma validateMatrices_spec seen l : validateMatrices seen l = None ->
  NoDup (MatrixID <$> l) /\ (forall m, m ∈ l -> MatrixID m ∉ seen)
  /\ Forall (fun m => validMatrix m = true /\ (CornerOfOrigin m = "" \/ CornerOfOrigin m = "topLeft")
      /\ exists z, 0 <= z /\ MatrixID m = pretty z) l.
Proof.
  revert seen. induction l as [|m l IH]; intros seen; cbn [validateMatrices].
  { intros _. split_and!; [constructor|by intros m ?%not_elem_of_nil|constructor]. }
  destruct (String.eqb _ "" || _) eqn:Hs; [done|]. apply orb_false_iff in Hs as [_ Hs%bool_decide_eq_false].
  destruct (Atoi (MatrixID m)) as [z|]; [|done]. destruct (_ || _) eqn:Hz; [done|].
  destruct (validMatrix m) eqn:Hv; [|done]. cbn [negb]. destruct (negb _ && _) eqn:Hc; [done|].
  intros (Hn & Hnew & Hf)%IH. apply orb_false_iff in Hz as [Hz Hp%negb_false_iff]. apply String.eqb_eq in Hp.
  rewrite andb_false_iff, !negb_false_iff, !String.eqb_eq in Hc. split_and!.
  - rewrite fmap_cons. constructor; [|done]. intros (m' & Hm' & Hin)%list_elem_of_fmap. apply (Hnew m' Hin). rewrite <- Hm'. by left.
  - intros m' [->|Hin]%elem_of_cons; [done|]. intros Hs'. apply (Hnew m' Hin). by right.
  - constructor; [|done]. split_and!; [done..|]. exists z. split; [lia|done].
Qed.

Lemma matrixForZoom_unique d z m :
  NoDup (MatrixID <$> TileMatrices d) -> m ∈ TileMatrices d -> MatrixID m = pretty z -> matrixForZoom d z = Some m.
Proof.
  intros Hn Hin Hid. unfold matrixForZoom.
  destruct (list_find (fun m => MatrixID m = pretty z) (TileMatrices d)) as [[i m']|] eqn:Hf.
  - apply list_find_Some in Hf as (Hi & Hm' & _). cbn. f_equal. apply list_elem_of_lookup in Hin as [j Hj].
    assert (i = j) as -> by (eapply (NoDup_lookup (MatrixID <$> TileMatrices d) i j (pretty z)); [done| |];
      rewrite list_lookup_fmap, ?Hi, ?Hj; cbn; congruence). congruence.
  - apply list_find_None in Hf. rewrite Forall_forall in Hf. by destruct (Hf m Hin).
Qed.

(** C39: whatever the catalog loads, every tile matrix set that is served is well formed: it is the
    set of that name with its own digest, it passes validation, its matrices have distinct
    canonical zoom numbers, so that a level addresses exactly one matrix, and each has two
    origin coordinates at the top left, as the arithmetic of tile bounds reads them. *)
Theorem served_sets_well_formed (digestOf : TileMatrixSetDefinition -> string) loads tms d dg :
  GetTileMatrixSetDefinition digestOf (foldl (fun reg l => (ReplaceCustomTileMatrixSets digestOf reg l).2) ∅ loads) tms = Some (d, dg) ->
  SetID d = tms /\ dg = digestOf d /\ ValidateTileMatrixSetDefinition d = None
  /\ (forall m, m ∈ TileMatrices d -> exists z, 0 <= z /\ MatrixID m = pretty z /\ matrixForZoom d z = Some m)
  /\ (forall m, m ∈ TileMatrices d -> length (PointOfOrigin m) = 2%nat /\ 0 < MatrixWidth m /\ 0 < MatrixHeight m
       /\ (CornerOfOrigin m = "" \/ CornerOfOrigin m = "topLeft")).
Proof.
  assert (Hw : wfRegistry digestOf (foldl (fun reg l => (ReplaceCustomTileMatrixSets digestOf reg l).2) ∅ loads)).
  { assert (H0 : wfRegistry digestOf ∅) by (intros id d' dg' Hl; by rewrite lookup_empty in Hl).
    revert H0. generalize (∅ : gmap string (TileMatrixSetDefinition * string)).
    induction loads as [|l loads IH]; intros reg Hr; [done|]. cbn [foldl]. by apply IH, ReplaceCustomTileMatrixSets_wf. }
  intros Hg. assert (Hv : SetID d = tms /\ dg = digestOf d /\ ValidateTileMatrixSetDefinition d = None).
  { unfold GetTileMatrixSetDefinition in Hg. revert Hg.
    destruct (String.eqb_spec tms TMSWebMercatorQuad) as [->|]; [intros [= <- <-]; split_and!; [done..|vm_compute; reflexivity]|].
    destruct (String.eqb_spec tms TMSWorldCRS84Quad) as [->|]; [intros [= <- <-]; split_and!; [done..|vm_compute; reflexivity]|].
    intros (? & ? & ? & _)%Hw. done. }
  destruct Hv as (Hid & Hdg & Hv). split_and!; try done.
  all: unfold ValidateTileMatrixSetDefinition in Hv; do 3 (case_match; [done|]);
    apply validateMatrices_spec in Hv as (Hn & _ & Hf); rewrite Forall_forall in Hf; intros m Hm; destruct (Hf m Hm) as (Hvm & Hc & z & Hz & Hp).
  - exists z. split_and!; [done..|by apply matrixForZoom_unique].
  - unfold validMatrix in Hvm. rewrite ?andb_true_iff, ?negb_true_iff, ?orb_false_iff in Hvm.
    split_and!; [|lia|lia|done]. apply Nat.eqb_eq, negb_false_iff. tauto.
Qed.

Lemma served_sets_well_formed_witness :
  let custom := mkSet "grid" "" "" "" CRS3857URI [] "" None [webMercatorMatrix 3; webMercatorMatrix 0] in
  let reg := (ReplaceCustomTileMatrixSets (fun _ => "digest") ∅ [custom]).2 in
  SetID custom = "grid" /\ ValidateTileMatrixSetDefinition custom = None
  /\ matrixForZoom custom 3 = Some (webMercatorMatrix 3) /\ matrixForZoom custom 1 = None
  /\ (ReplaceCustomTileMatrixSets (fun _ => "digest") reg [custom; mkSet "bad" "" "" "" CRS3857URI [] "" None []]) = (Some MatrixCount, reg).
Proof.
  intros custom reg.
  destruct (served_sets_well_formed (fun _ => "digest") [[custom]] "grid" custom "digest") as (Hid & _ & Hv & _ & _); [vm_compute; reflexivity|].
  split_and!; [exact Hid|exact Hv|vm_compute; reflexivity..].
Defined.
