(* ===== verification/TileIndex.v ===== *)
(** * The index of the persistent tile cache
      ([internal/tilecache/types.go], [internal/tilecache/index.go])

    A tile is named by an [Identity]; its canonical key is the primary key of the
    index table, its object key the name of its payload in the blob store. The index
    also counts the bytes and entries of three kinds of scope (everything, a
    workspace, a resource of a workspace) in a second table.

    The tables are maps by primary key. An operation of [metadataIndex] is one
    transaction under the writer lock: it returns the new tables, or [None] when a
    constraint of the schema refuses it. [keyDigest] is the text form of the first
    sixteen bytes of SHA-256. Times are milliseconds. *)

From stdpp Require Import sorting.
From S2P Require Import Prelude GoText.

(** ** Identities and entries ([types.go]) *)

Definition cacheLayoutVersion : string := "v1".

Record Identity : Type := mkIdentity {
  WorkspaceID : string; WorkspaceRevision : Z;
  ResourceID : string; ResourceKind : string;
  Generation : Z; TileType : string; MatrixSet : string;
  Zoom : Z; Column : Z; Row : Z;
  StyleDigest : string; StyleName : string; Format : string
}.

Definition extensionForFormat (format : string) : string :=
  let f := ToLower (TrimSpace format) in
  if bool_decide (f ∈ ["image/png"; "png"]) then "png"
  else if bool_decide (f ∈ ["image/jpeg"; "image/jpg"; "jpeg"; "jpg"]) then "jpg"
  else if bool_decide (f ∈ ["image/webp"; "webp"]) then "webp"
  else if bool_decide (f ∈ ["application/vnd.mapbox-vector-tile"; "application/x-protobuf"; "mvt"; "pbf"]) then "mvt"
  else "".

Inductive identityError : Type :=
| IncompleteIdentity
| InvalidTileType (t : string)
| UnsupportedFormat (f : string).

Definition Validate (i : Identity) : option identityError :=
  if String.eqb (WorkspaceID i) "" || (WorkspaceRevision i <=? 0) || String.eqb (ResourceID i) ""
     || (Generation i <=? 0) || String.eqb (MatrixSet i) "" || (Zoom i <? 0) || (Column i <? 0) || (Row i <? 0)
  then Some IncompleteIdentity
  else if negb (String.eqb (TileType i) "map") && negb (String.eqb (TileType i) "vector")
  then Some (InvalidTileType (TileType i))
  else if String.eqb (extensionForFormat (Format i)) "" then Some (UnsupportedFormat (Format i))
  else None.

Definition CanonicalKey (i : Identity) : string :=
  Join "|" [cacheLayoutVersion; WorkspaceID i; pretty (WorkspaceRevision i); ResourceID i; ResourceKind i;
            pretty (Generation i); TileType i; MatrixSet i;
            pretty (Zoom i); pretty (Column i); pretty (Row i);
            StyleDigest i; Format i].

(** [strings.NewReplacer] of the three bytes. *)
Definition replaceUnsafe (c : ascii) : ascii :=
  if Ascii.eqb c "/" || Ascii.eqb c "\" || Ascii.eqb c "000" then "_"%char else c.

Definition sanitizePathPart (value : string) : string :=
  smap replaceUnsafe (ReplaceAll (TrimSpace value) ".." "_").

(** [strings.Trim(s, "/")]. *)
Definition isSlash (c : ascii) : bool := Ascii.eqb c "/".
Definition TrimSlashes (s : string) : string := trimRightBy isSlash (sdrop (span_len isSlash s) s).

Section ObjectKeys.
Context (keyDigest : string -> string).

Definition keyParts (prefix : string) (i : Identity) : list string :=
  let style := if String.eqb (StyleDigest i) "" then "default" else StyleDigest i in
  let leaf := keyDigest (CanonicalKey i) +:+ "." +:+ extensionForFormat (Format i) in
  [TrimSlashes prefix; cacheLayoutVersion; WorkspaceID i; "w" +:+ pretty (WorkspaceRevision i); ResourceID i;
   pretty (Generation i); TileType i; MatrixSet i; pretty (Zoom i);
   pretty (Row i); pretty (Column i); style; leaf].

Definition ObjectKey (prefix : string) (i : Identity) : string :=
  Join "/" (sanitizePathPart <$> filter (fun part => part <> "") (keyParts prefix i)).
End ObjectKeys.

Record Policy : Type := mkPolicy { WorkspaceQuotaBytes : Z; ResourceQuotaBytes : Z }.

Record Entry : Type := mkEntry {
  entIdentity : Identity;
  entCacheKey : string;
  entObjectKey : string;
  SizeBytes : Z;
  ETag : string;
  CreatedAt : Z;
  LastAccessedAt : Z
}.

Record Usage : Type := mkUsage {
  UsageBytes : Z; EntryCount : Z; QuotaBytes : Z; RemainingBytes : Z
}.

Record Selector : Type := mkSelector {
  selWorkspace : string; selResource : string; selTileType : string; selMatrixSet : string;
  selFormat : string; selStyleDigest : string; selStyleName : string;
  MinZoom : option Z; MaxZoom : option Z
}.

(** ** The tables ([index.go]) *)

Inductive rowState : Type := pending | ready.

Record tileRow : Type := mkRow { rowEntry : Entry; rowStateOf : rowState }.

Definition isReady (r : tileRow) : bool := match rowStateOf r with ready => true | pending => false end.

Abbreviation scope := (string * string)%type.

Record metadataIndex : Type := mkIndex {
  tile_entries : gmap string tileRow;
  cache_usage : gmap scope (Z * Z)
}.

Definition emptyIndex : metadataIndex := mkIndex ∅ ∅.

(** The scopes an entry is counted in. *)
Definition resourceScope (workspaceID resourceID : string) : string := workspaceID +:+ ":" +:+ resourceID.

Definition scopesOf (i : Identity) : list scope :=
  [("global", "global"); ("workspace", WorkspaceID i); ("resource", resourceScope (WorkspaceID i) (ResourceID i))].

Definition adjustOne (bytes count : Z) (u : gmap scope (Z * Z)) (s : scope) : gmap scope (Z * Z) :=
  match u !! s with
  | None => <[s := (bytes, count)]> u
  | Some (b, c) => <[s := (Z.max 0 (b + bytes), Z.max 0 (c + count))]> u
  end.

Definition adjustUsage (u : gmap scope (Z * Z)) (entry : Entry) (bytes count : Z) : gmap scope (Z * Z) :=
  foldl (adjustOne bytes count) u (scopesOf (entIdentity entry)).

(** The UNIQUE constraint on [object_key] for a row that is written under [key]. *)
Definition objectKeyFree (rows : gmap string tileRow) (key objectKey : string) : bool :=
  negb (map_existsb (fun k r => negb (String.eqb k key) && String.eqb (entObjectKey (rowEntry r)) objectKey) rows).

Definition getReady (ix : metadataIndex) (key : string) : option Entry :=
  match tile_entries ix !! key with
  | Some r => if isReady r then Some (rowEntry r) else None
  | None => None
  end.

Definition stamped (e : Entry) (created accessed : Z) : Entry :=
  mkEntry (entIdentity e) (entCacheKey e) (entObjectKey e) (SizeBytes e) (ETag e) created accessed.

Definition markPending (now : Z) (ix : metadataIndex) (entry : Entry) (previous : option Entry) : option metadataIndex :=
  let u := match previous with
           | Some p => adjustUsage (cache_usage ix) p (- SizeBytes p) (-1)
           | None => cache_usage ix
           end in
  if objectKeyFree (tile_entries ix) (entCacheKey entry) (entObjectKey entry)
  then Some (mkIndex (<[entCacheKey entry := mkRow (stamped entry now now) pending]> (tile_entries ix)) u)
  else None.

Definition markReady (ix : metadataIndex) (entry : Entry) : option metadataIndex :=
  match tile_entries ix !! entCacheKey entry with
  | Some (mkRow e pending) =>
      let e' := mkEntry (entIdentity e) (entCacheKey e) (entObjectKey e) (SizeBytes entry) (ETag entry)
                  (CreatedAt e) (LastAccessedAt e) in
      Some (mkIndex (<[entCacheKey entry := mkRow e' ready]> (tile_entries ix))
              (adjustUsage (cache_usage ix) entry (SizeBytes entry) 1))
  | _ => None
  end.

(** The INSERT is refused by the primary key and by the unique object key. *)
Definition restore (ix : metadataIndex) (previous : option Entry) (pendingKey : string) : option metadataIndex :=
  let rows := delete pendingKey (tile_entries ix) in
  match previous with
  | None => Some (mkIndex rows (cache_usage ix))
  | Some p =>
      match rows !! entCacheKey p with
      | Some _ => None
      | None =>
          if objectKeyFree rows (entCacheKey p) (entObjectKey p)
          then Some (mkIndex (<[entCacheKey p := mkRow p ready]> rows)
                       (adjustUsage (cache_usage ix) p (SizeBytes p) 1))
          else None
      end
  end.

Definition remove (ix : metadataIndex) (entry : Entry) : metadataIndex :=
  match tile_entries ix !! entCacheKey entry with
  | None => ix
  | Some r =>
      mkIndex (delete (entCacheKey entry) (tile_entries ix))
        (if isReady r then adjustUsage (cache_usage ix) entry (- SizeBytes entry) (-1) else cache_usage ix)
  end.

Definition usage (ix : metadataIndex) (scopeType scopeID : string) : Z * Z :=
  default (0, 0) (cache_usage ix !! (scopeType, scopeID)).

Definition rowsWhere (f : Entry -> bool) (ix : metadataIndex) : list Entry :=
  rowEntry <$> (filter (fun r => isReady r && f (rowEntry r) = true) (map_to_list (tile_entries ix)).*2).

(** ORDER BY last_accessed_at, created_at LIMIT 1. *)
Definition older (a b : Entry) : bool :=
  (LastAccessedAt a <? LastAccessedAt b)
  || (LastAccessedAt a =? LastAccessedAt b) && (CreatedAt a <=? CreatedAt b).

Definition oldest (l : list Entry) : option Entry :=
  match l with
  | [] => None
  | e :: rest => Some (foldl (fun best x => if older best x then best else x) e rest)
  end.

Definition lru (ix : metadataIndex) (scopeType workspaceID resourceID excludeKey : string) : option Entry :=
  oldest (rowsWhere (fun e =>
    negb (String.eqb (entCacheKey e) excludeKey)
    && (if String.eqb scopeType "workspace" then String.eqb (WorkspaceID (entIdentity e)) workspaceID
        else if String.eqb scopeType "resource"
             then String.eqb (WorkspaceID (entIdentity e)) workspaceID && String.eqb (ResourceID (entIdentity e)) resourceID
             else true)) ix).

Definition touchRow (t : Z) (r : tileRow) : tileRow :=
  if isReady r then mkRow (stamped (rowEntry r) (CreatedAt (rowEntry r)) t) (rowStateOf r) else r.

Definition updateAccess (ix : metadataIndex) (values : gmap string Z) : metadataIndex :=
  mkIndex (map_fold (fun key t rows => alter (touchRow t) key rows) (tile_entries ix) values) (cache_usage ix).

Definition nonReady (ix : metadataIndex) : list Entry :=
  rowEntry <$> filter (fun r => isReady r = false) (map_to_list (tile_entries ix)).*2.

Definition isSet (value column : string) : bool := String.eqb value "" || String.eqb column value.

Definition selects (s : Selector) (e : Entry) : bool :=
  let i := entIdentity e in
  isSet (selWorkspace s) (WorkspaceID i) && isSet (selResource s) (ResourceID i)
  && isSet (selTileType s) (TileType i) && isSet (selMatrixSet s) (MatrixSet i)
  && isSet (selFormat s) (Format i) && isSet (selStyleDigest s) (StyleDigest i) && isSet (selStyleName s) (StyleName i)
  && (match MinZoom s with Some z => z <=? Zoom i | None => true end)
  && (match MaxZoom s with Some z => Zoom i <=? z | None => true end).

Definition byCacheKey (a b : Entry) : Prop := String.leb (entCacheKey a) (entCacheKey b) = true.
#[export] Instance byCacheKey_dec : RelDecision byCacheKey.
Proof. intros a b. unfold byCacheKey. apply _. Defined.

Definition selectEntries (ix : metadataIndex) (s : Selector) (limit : nat) : list Entry :=
  take limit (merge_sort byCacheKey (rowsWhere (selects s) ix)).

(** The statements of [purgeLifecycleUsage] ([jobs.go]): the counters of a workspace
    and its resources, or of one resource. *)
Definition purgeWorkspaceUsage (ix : metadataIndex) (workspaceID : string) : metadataIndex :=
  mkIndex (tile_entries ix)
    (filter (fun kv => (String.eqb kv.1.1 "workspace" && String.eqb kv.1.2 workspaceID)
                       || (String.eqb kv.1.1 "resource" && HasPrefix kv.1.2 (workspaceID +:+ ":")) = false)
       (cache_usage ix)).

Definition purgeResourceUsage (ix : metadataIndex) (workspaceID resourceID : string) : metadataIndex :=
  mkIndex (tile_entries ix) (delete ("resource", resourceScope workspaceID resourceID) (cache_usage ix)).
