(* ===== verification/TileIndexCorrect.v ===== *)
(** * The usage counters of the tile index are exact

    [consistent]: every row is filed under its canonical key, no two rows share a
    payload, and each counter of the usage table is the number of ready entries of
    its scope and the sum of their sizes. Every transaction of the index preserves it. *)

From stdpp Require Import sorting.
From S2P Require Import Prelude GoText TileIndex.

(** ** The key names the tile *)

(** The text fields of the canonical key are free of its separator, and the workspace
    is free of the separator of the scopes of resources. *)
Definition plain (i : Identity) : Prop :=
  has_byte ":" (WorkspaceID i) = false /\
  Forall (fun s => has_byte "|" s = false)
    [WorkspaceID i; ResourceID i; ResourceKind i; TileType i; MatrixSet i; StyleDigest i; Format i].

(** The same tile: the name of the style does not count. *)
Definition sameTile (i j : Identity) : Prop :=
  mkIdentity (WorkspaceID i) (WorkspaceRevision i) (ResourceID i) (ResourceKind i) (Generation i) (TileType i)
    (MatrixSet i) (Zoom i) (Column i) (Row i) (StyleDigest i) "" (Format i)
  = mkIdentity (WorkspaceID j) (WorkspaceRevision j) (ResourceID j) (ResourceKind j) (Generation j) (TileType j)
    (MatrixSet j) (Zoom j) (Column j) (Row j) (StyleDigest j) "" (Format j).

Lemma number_pipe_free (n : Z) : has_byte "|" (pretty n) = false.
Proof. by apply (all_bytes_has (fun c => negb (Ascii.eqb c "|"))); [apply number_bytes|]. Qed.

Lemma CanonicalKey_split i :
  plain i ->
  Split "|" (CanonicalKey i) =
  [cacheLayoutVersion; WorkspaceID i; pretty (WorkspaceRevision i); ResourceID i; ResourceKind i;
   pretty (Generation i); TileType i; MatrixSet i; pretty (Zoom i); pretty (Column i); pretty (Row i);
   StyleDigest i; Format i].
Proof.
  intros H. unfold CanonicalKey. apply Split_Join; [done|].
  destruct H as [_ H]. rewrite !Forall_cons in H. destruct_and! H.
  repeat constructor; auto using number_pipe_free.
Qed.

Lemma CanonicalKey_sameTile i j :
  plain i -> plain j -> CanonicalKey i = CanonicalKey j -> sameTile i j.
Proof.
  intros Hi Hj He. apply (f_equal (Split "|")) in He. rewrite !CanonicalKey_split in He by done.
  injection He as ? Hr ? ? Hg ? ? Hz Hc Hw ? ?. apply (inj pretty) in Hr, Hg, Hz, Hc, Hw.
  unfold sameTile. by f_equal.
Qed.

(** ** The invariant *)

Definition inScope (s : scope) (e : Entry) : bool := bool_decide (s ∈ scopesOf (entIdentity e)).

Definition sizeIn (s : scope) (_ : string) (r : tileRow) : Z :=
  if isReady r && inScope s (rowEntry r) then SizeBytes (rowEntry r) else 0.

Definition countIn (s : scope) (_ : string) (r : tileRow) : Z :=
  if isReady r && inScope s (rowEntry r) then 1 else 0.

Definition total (rows : gmap string tileRow) (s : scope) : Z * Z :=
  (map_sum (sizeIn s) rows, map_sum (countIn s) rows).

Definition usage_exact (ix : metadataIndex) : Prop :=
  forall s, default (0, 0) (cache_usage ix !! s) = total (tile_entries ix) s.

Definition wfEntry (key : string) (e : Entry) : Prop :=
  entCacheKey e = key /\ CanonicalKey (entIdentity e) = key /\ plain (entIdentity e) /\ 0 <= SizeBytes e.

Record wfRows (rows : gmap string tileRow) : Prop := {
  wf_entry : forall key r, rows !! key = Some r -> wfEntry key (rowEntry r);
  wf_unique : forall key key' r r', rows !! key = Some r -> rows !! key' = Some r' ->
    entObjectKey (rowEntry r) = entObjectKey (rowEntry r') -> key = key'
}.

Definition consistent (ix : metadataIndex) : Prop := wfRows (tile_entries ix) /\ usage_exact ix.

(** ** Sums *)

Lemma sizeIn_nonneg rows s key r : wfRows rows -> rows !! key = Some r -> 0 <= sizeIn s key r.
Proof. intros Hw Hr. unfold sizeIn. destruct (_ && _); [apply (wf_entry _ Hw key r Hr)|done]. Qed.

Lemma countIn_nonneg s key r : 0 <= countIn s key r.
Proof. unfold countIn. destruct (_ && _); lia. Qed.

Lemma sizeIn_ready s key e : sizeIn s key (mkRow e ready) = if inScope s e then SizeBytes e else 0.
Proof. done. Qed.

Lemma countIn_ready s key e : countIn s key (mkRow e ready) = if inScope s e then 1 else 0.
Proof. done. Qed.

Lemma sizeIn_pending s key r : isReady r = false -> sizeIn s key r = 0.
Proof. intros H. unfold sizeIn. by rewrite H. Qed.

Lemma countIn_pending s key r : isReady r = false -> countIn s key r = 0.
Proof. intros H. unfold countIn. by rewrite H. Qed.

Lemma scopesOf_NoDup i : NoDup (scopesOf i).
Proof.
  unfold scopesOf. repeat constructor; rewrite ?elem_of_cons; intros H;
    repeat (destruct H as [H|H]; [discriminate H|]); by apply elem_of_nil in H.
Qed.

Definition moveBy (d : Z * Z) (t : Z * Z) : Z * Z := (t.1 + d.1, t.2 + d.2).

Lemma adjustOne_lookup b c u s s' :
  default (0, 0) (adjustOne b c u s !! s')
  = if decide (s = s')
    then match u !! s with None => (b, c) | Some (x, y) => (Z.max 0 (x + b), Z.max 0 (y + c)) end
    else default (0, 0) (u !! s').
Proof.
  unfold adjustOne. case_decide as He.
  - subst s'. destruct (u !! s) as [[x y]|] eqn:E; by rewrite lookup_insert_eq.
  - destruct (u !! s) as [[x y]|] eqn:E; by rewrite lookup_insert_ne by done.
Qed.

(** A change that keeps the counters of every touched scope non-negative is exact. *)
Lemma adjust_scopes b c l u s :
  NoDup l ->
  (s ∈ l -> 0 <= (default (0, 0) (u !! s)).1 + b /\ 0 <= (default (0, 0) (u !! s)).2 + c) ->
  default (0, 0) (foldl (adjustOne b c) u l !! s)
  = if bool_decide (s ∈ l) then moveBy (b, c) (default (0, 0) (u !! s)) else default (0, 0) (u !! s).
Proof.
  intros Hn. revert u. induction Hn as [|x l Hx Hn IH]; intros u Hs; cbn [foldl]; [done|].
  assert (Hu : x <> s -> default (0, 0) (adjustOne b c u x !! s) = default (0, 0) (u !! s)).
  { intros Hne. rewrite adjustOne_lookup, decide_False by done. done. }
  destruct (decide (x = s)) as [->|Hne].
  - rewrite IH by (intros Hin; done). rewrite bool_decide_false by done. rewrite bool_decide_true by left.
    rewrite adjustOne_lookup, decide_True by done. specialize (Hs ltac:(left)).
    destruct (u !! s) as [[p q]|]; cbn in *; unfold moveBy; cbn; f_equal; lia.
  - rewrite IH.
    + rewrite Hu by done. destruct (decide (s ∈ l)) as [Hin|Hin].
      * rewrite !bool_decide_true; [done|by right|done].
      * rewrite !bool_decide_false; [done| |done]. intros [->|?]%elem_of_cons; done.
    + intros Hin. rewrite Hu by done. apply Hs. by right.
Qed.

Lemma adjustUsage_exact u e b c s :
  (inScope s e = true -> 0 <= (default (0, 0) (u !! s)).1 + b /\ 0 <= (default (0, 0) (u !! s)).2 + c) ->
  default (0, 0) (adjustUsage u e b c !! s)
  = if inScope s e then moveBy (b, c) (default (0, 0) (u !! s)) else default (0, 0) (u !! s).
Proof.
  intros H. unfold adjustUsage. rewrite adjust_scopes; [done|apply scopesOf_NoDup|].
  intros Hin. apply H. unfold inScope. by apply bool_decide_true.
Qed.

Lemma inScope_same_identity s e e' : entIdentity e = entIdentity e' -> inScope s e = inScope s e'.
Proof. intros H. unfold inScope. by rewrite H. Qed.

(** ** Preservation *)

Lemma wfRows_insert rows key r :
  wfRows rows -> wfEntry key (rowEntry r) ->
  (forall k' r', rows !! k' = Some r' -> k' <> key -> entObjectKey (rowEntry r') <> entObjectKey (rowEntry r)) ->
  wfRows (<[key := r]> rows).
Proof.
  intros Hw He Hu. split.
  - intros k x [[<- <-]|[_ Hx]]%lookup_insert_Some; [done|by apply (wf_entry _ Hw)].
  - intros k k' x x' Hx Hx' Hob. apply lookup_insert_Some in Hx, Hx'.
    destruct Hx as [[<- <-]|[Hk Hx]], Hx' as [[<- <-]|[Hk' Hx']].
    + done.
    + exfalso. by apply (Hu k' x').
    + exfalso. by apply (Hu k x).
    + by apply (wf_unique _ Hw k k' x x').
Qed.

Lemma wfRows_delete rows key : wfRows rows -> wfRows (delete key rows).
Proof.
  intros Hw. split.
  - intros k r [_ Hr]%lookup_delete_Some. by apply (wf_entry _ Hw).
  - intros k k' r r' [_ Hr]%lookup_delete_Some [_ Hr']%lookup_delete_Some. by apply (wf_unique _ Hw).
Qed.

Lemma objectKeyFree_spec rows key ob :
  objectKeyFree rows key ob = true <->
  forall k r, rows !! k = Some r -> k <> key -> entObjectKey (rowEntry r) <> ob.
Proof.
  unfold objectKeyFree. rewrite negb_true_iff, map_existsb_false. split.
  - intros H k r Hr Hk. specialize (H k r Hr). apply andb_false_iff in H as [H|H].
    + by apply negb_false_iff, String.eqb_eq in H.
    + by apply String.eqb_neq in H.
  - intros H k r Hr. destruct (String.eqb_spec k key) as [|Hk]; [done|]. cbn.
    apply String.eqb_neq. by apply (H k).
Qed.

(** The totals after a row is written: the row it replaces is taken off. *)
Lemma total_write rows key r s :
  total (<[key := r]> rows) s
  = (map_sum (sizeIn s) rows - (match rows !! key with Some u => sizeIn s key u | None => 0 end) + sizeIn s key r,
     map_sum (countIn s) rows - (match rows !! key with Some u => countIn s key u | None => 0 end) + countIn s key r).
Proof. unfold total. by rewrite !map_sum_write. Qed.

Lemma total_delete rows key r s :
  rows !! key = Some r ->
  total (delete key rows) s = (map_sum (sizeIn s) rows - sizeIn s key r, map_sum (countIn s) rows - countIn s key r).
Proof. intros H. unfold total. by rewrite !(map_sum_delete _ key r). Qed.

(** A ready row's own share is in the totals of its scopes. *)
Lemma total_covers rows key e s :
  wfRows rows -> rows !! key = Some (mkRow e ready) -> inScope s e = true ->
  0 <= (total rows s).1 - SizeBytes e /\ 0 <= (total rows s).2 - 1.
Proof.
  intros Hw Hr Hs. unfold total. cbn [fst snd].
  pose proof (map_sum_ge (sizeIn s) rows key (mkRow e ready) (fun k v => sizeIn_nonneg rows s k v Hw) Hr) as H1.
  pose proof (map_sum_ge (countIn s) rows key (mkRow e ready) (fun k v _ => countIn_nonneg s k v) Hr) as H2.
  rewrite sizeIn_ready, Hs in H1. rewrite countIn_ready, Hs in H2. lia.
Qed.

(** Taking a ready row's share off the usage table. *)
Lemma usage_minus u rows key r e s :
  wfRows rows -> (forall x, default (0, 0) (u !! x) = total rows x) ->
  rows !! key = Some r -> isReady r = true ->
  entIdentity e = entIdentity (rowEntry r) -> SizeBytes e = SizeBytes (rowEntry r) ->
  default (0, 0) (adjustUsage u e (- SizeBytes e) (-1) !! s)
  = (map_sum (sizeIn s) rows - sizeIn s key r, map_sum (countIn s) rows - countIn s key r).
Proof.
  intros Hw Hu Hr Hready Hi Hsz. destruct r as [e0 st]. destruct st; [done|].
  cbn [rowEntry] in Hi, Hsz. rewrite adjustUsage_exact.
  - rewrite Hu. rewrite (inScope_same_identity s e e0 Hi).
    rewrite sizeIn_ready, countIn_ready. unfold total, moveBy. destruct (inScope s e0); cbn [fst snd]; f_equal; lia.
  - intros Hin. rewrite Hu, Hsz. rewrite (inScope_same_identity s e e0 Hi) in Hin.
    pose proof (total_covers rows key e0 s Hw Hr Hin) as [H1 H2]. lia.
Qed.

(** Adding a new ready row's share. *)
Lemma usage_plus u rows e s :
  wfRows rows -> default (0, 0) (u !! s) = total rows s -> 0 <= SizeBytes e ->
  default (0, 0) (adjustUsage u e (SizeBytes e) 1 !! s)
  = (map_sum (sizeIn s) rows + (if inScope s e then SizeBytes e else 0),
     map_sum (countIn s) rows + (if inScope s e then 1 else 0)).
Proof.
  intros Hw Hu He. rewrite adjustUsage_exact.
  - rewrite Hu. unfold total, moveBy. destruct (inScope s e); cbn [fst snd]; f_equal; lia.
  - intros _. rewrite Hu. unfold total. cbn [fst snd]. split; apply Z.add_nonneg_nonneg; try lia.
    + apply map_sum_nonneg. intros k v Hv. by apply (sizeIn_nonneg rows).
    + apply map_sum_nonneg. intros k v _. apply countIn_nonneg.
Qed.

Lemma markPending_consistent now ix e ix' :
  consistent ix -> wfEntry (entCacheKey e) e ->
  markPending now ix e (getReady ix (entCacheKey e)) = Some ix' -> consistent ix'.
Proof.
  intros [Hw Hu] He. unfold markPending. destruct (objectKeyFree _ _ _) eqn:Hf; [|done].
  intros [= <-]. rewrite objectKeyFree_spec in Hf. split; cbn [tile_entries cache_usage].
  - apply wfRows_insert; [done|done|]. intros k r Hr Hk. cbn. by apply (Hf k).
  - intros s. cbn [cache_usage tile_entries]. rewrite total_write.
    set (r0 := mkRow (stamped e now now) pending).
    assert (sizeIn s (entCacheKey e) r0 = 0 /\ countIn s (entCacheKey e) r0 = 0) as [-> ->] by done.
    unfold getReady. destruct (tile_entries ix !! entCacheKey e) as [r|] eqn:Hr.
    + destruct (isReady r) eqn:Hready.
      * rewrite (usage_minus _ _ _ r (rowEntry r) s Hw Hu Hr Hready) by done. f_equal; lia.
      * rewrite Hu, sizeIn_pending, countIn_pending by done. unfold total. f_equal; lia.
    + rewrite Hu. unfold total. f_equal; lia.
Qed.

Lemma markReady_consistent ix e ix' e0 :
  consistent ix -> tile_entries ix !! entCacheKey e = Some (mkRow e0 pending) -> entIdentity e0 = entIdentity e ->
  0 <= SizeBytes e -> markReady ix e = Some ix' -> consistent ix'.
Proof.
  intros [Hw Hu] Hr Hi Hsz. unfold markReady. rewrite Hr. intros [= <-].
  destruct (wf_entry _ Hw _ _ Hr) as (Hc & Hk & Hpf & _). split; cbn [tile_entries cache_usage].
  - apply wfRows_insert; [done|by split_and!|]. intros k r Hk' Hne Hob. cbn in Hob.
    apply Hne. by apply (wf_unique _ Hw k _ r _ Hk' Hr).
  - intros s. cbn [cache_usage tile_entries]. rewrite total_write, Hr.
    rewrite (usage_plus _ _ e s Hw (Hu s) Hsz).
    rewrite sizeIn_pending, countIn_pending, sizeIn_ready, countIn_ready by done.
    set (e1 := mkEntry _ _ _ _ _ _ _). rewrite (inScope_same_identity s e1 e Hi).
    change (SizeBytes e1) with (SizeBytes e). f_equal; lia.
Qed.

Lemma restore_consistent ix previous key r ix' :
  consistent ix -> tile_entries ix !! key = Some r -> isReady r = false ->
  (forall p, previous = Some p -> wfEntry key p) ->
  restore ix previous key = Some ix' -> consistent ix'.
Proof.
  intros [Hw Hu] Hr Hready Hp. unfold restore.
  assert (Ht : forall s, total (delete key (tile_entries ix)) s = total (tile_entries ix) s).
  { intros s. rewrite (total_delete _ _ r) by done. rewrite sizeIn_pending, countIn_pending by done.
    unfold total. f_equal; lia. }
  destruct previous as [p|].
  - destruct (Hp p eq_refl) as (Hc & Hk & Hpf & Hsz). rewrite Hc. rewrite lookup_delete_eq.
    destruct (objectKeyFree _ _ _) eqn:Hf; [|done]. intros [= <-].
    rewrite objectKeyFree_spec in Hf. split; cbn [tile_entries cache_usage].
    + apply wfRows_insert; [by apply wfRows_delete|by split_and!|done].
    + intros s. cbn [cache_usage tile_entries]. rewrite total_write, lookup_delete_eq.
      rewrite (usage_plus _ (delete key (tile_entries ix)) p s); [| by apply wfRows_delete| by rewrite Ht |done].
      rewrite sizeIn_ready, countIn_ready. f_equal; lia.
  - intros [= <-]. split; cbn; [by apply wfRows_delete|]. intros s. cbn. by rewrite Ht.
Qed.

(** What [remove] needs of the entry it is given: that it is the row as it stands. *)
Definition current (ix : metadataIndex) (e : Entry) : Prop :=
  forall r, tile_entries ix !! entCacheKey e = Some r -> isReady r = true ->
  entIdentity e = entIdentity (rowEntry r) /\ SizeBytes e = SizeBytes (rowEntry r).

Lemma remove_consistent ix e : consistent ix -> current ix e -> consistent (remove ix e).
Proof.
  intros [Hw Hu] Hcur. unfold remove. destruct (tile_entries ix !! entCacheKey e) as [r|] eqn:Hr; [|done].
  split; cbn [tile_entries cache_usage]; [by apply wfRows_delete|].
  intros s. cbn [cache_usage tile_entries]. rewrite (total_delete _ _ r s Hr). destruct (isReady r) eqn:Hready.
  - destruct (Hcur r Hr Hready) as [Hi Hsz]. by apply (usage_minus _ _ (entCacheKey e) r e s).
  - rewrite Hu, sizeIn_pending, countIn_pending by done. unfold total. f_equal; lia.
Qed.

(** ** Queries *)

Lemma getReady_Some ix key e : getReady ix key = Some e <-> tile_entries ix !! key = Some (mkRow e ready).
Proof.
  unfold getReady. destruct (tile_entries ix !! key) as [[e0 []]|]; cbn; split; intros H; congruence.
Qed.

Lemma elem_of_rows (f : tileRow -> Prop) `{forall r, Decision (f r)} (rows : gmap string tileRow) r :
  r ∈ filter f (map_to_list rows).*2 <-> f r /\ exists key, rows !! key = Some r.
Proof.
  rewrite list_elem_of_filter, list_elem_of_fmap. split.
  - intros [Hf ([k x] & -> & Hin)]. split; [done|]. exists k. by apply elem_of_map_to_list.
  - intros [Hf [k Hk]]. split; [done|]. exists (k, r). split; [done|]. by apply elem_of_map_to_list.
Qed.

Lemma elem_of_rowsWhere f ix e :
  e ∈ rowsWhere f ix <-> f e = true /\ exists key, tile_entries ix !! key = Some (mkRow e ready).
Proof.
  unfold rowsWhere. rewrite list_elem_of_fmap. split.
  - intros ([e0 st] & -> & Hin). apply elem_of_rows in Hin as [[Hr Hf]%andb_true_iff [k Hk]].
    destruct st; [done|]. cbn in *. eauto.
  - intros [Hf [k Hk]]. exists (mkRow e ready). split; [done|]. apply elem_of_rows. split; [exact Hf|eauto].
Qed.

Lemma elem_of_nonReady ix e :
  e ∈ nonReady ix <-> exists key, tile_entries ix !! key = Some (mkRow e pending).
Proof.
  unfold nonReady. rewrite list_elem_of_fmap. split.
  - intros ([e0 st] & -> & Hin). apply elem_of_rows in Hin as [Hr [k Hk]]. destruct st; [|done]. eauto.
  - intros [k Hk]. exists (mkRow e pending). split; [done|]. apply elem_of_rows. eauto.
Qed.

Lemma elem_of_selectEntries ix s n e :
  e ∈ selectEntries ix s n -> selects s e = true /\ exists key, tile_entries ix !! key = Some (mkRow e ready).
Proof.
  unfold selectEntries. intros Hin. apply elem_of_rowsWhere.
  rewrite <- (merge_sort_Permutation byCacheKey (rowsWhere (selects s) ix)).
  by apply (subseteq_take n (merge_sort byCacheKey (rowsWhere (selects s) ix))).
Qed.

(** When nothing is selected, no ready row matches. *)
Lemma selectEntries_nil ix s n :
  (0 < n)%nat -> selectEntries ix s n = [] ->
  forall key e, tile_entries ix !! key = Some (mkRow e ready) -> selects s e = false.
Proof.
  intros Hn Hnil key e Hk. apply not_true_iff_false. intros Hs.
  assert (Hin : e ∈ rowsWhere (selects s) ix) by (apply elem_of_rowsWhere; eauto).
  rewrite <- (merge_sort_Permutation byCacheKey (rowsWhere (selects s) ix)) in Hin.
  unfold selectEntries in Hnil. destruct (merge_sort _ _) as [|x l]; [by apply elem_of_nil in Hin|].
  destruct n; [lia|done].
Qed.

Lemma rowsWhere_keys_NoDup f ix :
  wfRows (tile_entries ix) -> NoDup (entCacheKey <$> rowsWhere f ix).
Proof.
  intros Hw. unfold rowsWhere.
  assert (H : forall l : list (string * tileRow), NoDup l.*1 ->
            (forall k r, (k, r) ∈ l -> entCacheKey (rowEntry r) = k) ->
            NoDup (entCacheKey <$> (rowEntry <$> filter (fun r => isReady r && f (rowEntry r) = true) l.*2))).
  { induction l as [|[k r] l IH]; intros Hn Hk; [constructor|]. cbn in Hn. apply NoDup_cons in Hn as [Hx Hn].
    assert (Hl : NoDup (entCacheKey <$> (rowEntry <$> filter (fun r => isReady r && f (rowEntry r) = true) l.*2))).
    { apply IH; [done|]. intros k' r' Hin. apply Hk. by right. }
    cbn [fmap list_fmap snd]. rewrite filter_cons. destruct (decide _); [|done].
    cbn [fmap list_fmap]. constructor; [|done]. intros Hin. apply Hx.
    rewrite (Hk k r) in Hin by left. rewrite <- list_fmap_compose in Hin.
    apply list_elem_of_fmap in Hin as (r' & -> & Hr').
    apply list_elem_of_filter in Hr' as [_ Hr']. apply list_elem_of_fmap in Hr' as ([k' r''] & -> & Hin').
    cbn. rewrite (Hk k' r'') by (by right). apply list_elem_of_fmap. by exists (k', r''). }
  apply H; [apply NoDup_fst_map_to_list|]. intros k r Hin%elem_of_map_to_list. apply (wf_entry _ Hw k r Hin).
Qed.

(** [oldest] picks an entry of the list that no other is strictly older than. *)
Lemma older_fold l e :
  let b := foldl (fun best x => if older best x then best else x) e l in
  (b = e \/ b ∈ l) /\ older b e = true /\ forall x, x ∈ l -> older b x = true.
Proof.
  assert (Hrefl : forall a, older a a = true).
  { intros a. unfold older. apply orb_true_iff. right. rewrite Z.eqb_refl. cbn. by apply Z.leb_le. }
  assert (Htot : forall a b, older a b = false -> older b a = true).
  { intros a b. unfold older. rewrite !orb_false_iff, !andb_false_iff, orb_true_iff, andb_true_iff, !Z.ltb_ge, !Z.eqb_neq,
      Z.leb_gt, Z.ltb_lt, Z.eqb_eq, Z.leb_le. lia. }
  assert (Htrans : forall a b c, older a b = true -> older b c = true -> older a c = true).
  { intros a b c. unfold older. rewrite !orb_true_iff, !andb_true_iff, !Z.ltb_lt, !Z.eqb_eq, !Z.leb_le. lia. }
  revert e. induction l as [|x l IH]; intros e; cbn [foldl].
  - split_and!; [by left|apply Hrefl|]. intros x Hx. by apply elem_of_nil in Hx.
  - destruct (older e x) eqn:Hex.
    + destruct (IH e) as (H1 & H2 & H3). split_and!; [|done|].
      * destruct H1 as [->|H1]; [by left|right; by right].
      * intros y [->|Hy]%elem_of_cons; [by eapply Htrans|by apply H3].
    + destruct (IH x) as (H1 & H2 & H3). split_and!.
      * destruct H1 as [->|H1]; [right; by left|right; by right].
      * eapply Htrans; [exact H2|]. by apply Htot.
      * intros y [->|Hy]%elem_of_cons; [done|by apply H3].
Qed.

Lemma oldest_Some l e : oldest l = Some e -> e ∈ l /\ forall x, x ∈ l -> older e x = true.
Proof.
  destruct l as [|x l]; [done|]. cbn. intros [= <-]. destruct (older_fold l x) as (H1 & H2 & H3). split.
  - destruct H1 as [->|H1]; [by left|by right].
  - intros y [->|Hy]%elem_of_cons; auto.
Qed.

Lemma oldest_None l : oldest l = None -> l = [].
Proof. by destruct l. Qed.

Lemma lru_Some ix st w r key e :
  lru ix st w r key = Some e ->
  entCacheKey e <> key /\ exists k, tile_entries ix !! k = Some (mkRow e ready).
Proof.
  unfold lru. intros [Hin _]%oldest_Some. apply elem_of_rowsWhere in Hin as [[Hk _]%andb_true_iff Hr].
  split; [|done]. by apply negb_true_iff, String.eqb_neq in Hk.
Qed.

(** ** Removal and access times *)

Lemma row_current ix key e :
  consistent ix -> tile_entries ix !! key = Some (mkRow e ready) -> current ix e /\ entCacheKey e = key.
Proof.
  intros [Hw _] Hk. pose proof (wf_entry _ Hw _ _ Hk) as (Hc & _). cbn in Hc. split; [|done].
  intros r Hr _. rewrite Hc, Hk in Hr. by injection Hr as <-.
Qed.

Lemma remove_rows ix e : tile_entries (remove ix e) = delete (entCacheKey e) (tile_entries ix).
Proof.
  unfold remove. destruct (tile_entries ix !! entCacheKey e) as [r|] eqn:Hr; [done|]. by rewrite delete_id.
Qed.

Lemma consistent_usage ix st id : consistent ix -> usage ix st id = total (tile_entries ix) (st, id).
Proof. intros [_ Hu]. apply Hu. Qed.

(** Removing rows lowers every counter. *)
Lemma total_delete_le rows key s : wfRows rows -> (total (delete key rows) s).1 <= (total rows s).1.
Proof.
  intros Hw. destruct (rows !! key) as [r|] eqn:Hr; [|by rewrite delete_id].
  rewrite (total_delete _ _ r) by done. cbn. pose proof (sizeIn_nonneg rows s key r Hw Hr). lia.
Qed.

Lemma touch_consistent rows u key t :
  consistent (mkIndex rows u) -> consistent (mkIndex (alter (touchRow t) key rows) u).
Proof.
  intros [Hw Hu]. destruct (rows !! key) as [r|] eqn:Hr.
  2:{ by rewrite alter_id by (intros x Hx; congruence). }
  assert (Ha : alter (touchRow t) key rows = <[key := touchRow t r]> rows).
  { apply map_eq. intros k. destruct (decide (k = key)) as [->|Hne].
    - by rewrite lookup_alter_eq, Hr, lookup_insert_eq.
    - by rewrite lookup_alter_ne, lookup_insert_ne by done. }
  rewrite Ha. destruct r as [e st]. split; cbn [tile_entries].
  - apply wfRows_insert; [done| |].
    + pose proof (wf_entry _ Hw _ _ Hr) as He. unfold touchRow. cbn. by destruct st.
    + intros k r' Hk Hne Hob. apply Hne. apply (wf_unique _ Hw k key r' (mkRow e st)); [done|done|].
      rewrite Hob. unfold touchRow. cbn. by destruct st.
  - intros s. specialize (Hu s). cbn [cache_usage tile_entries] in Hu |- *. rewrite Hu, total_write, Hr.
    assert (sizeIn s key (touchRow t (mkRow e st)) = sizeIn s key (mkRow e st) /\
            countIn s key (touchRow t (mkRow e st)) = countIn s key (mkRow e st)) as [-> ->]
      by (destruct st; done).
    unfold total. f_equal; lia.
Qed.

Lemma updateAccess_consistent ix values : consistent ix -> consistent (updateAccess ix values).
Proof.
  destruct ix as [rows u]. intros H. unfold updateAccess. cbn [tile_entries cache_usage].
  apply (map_fold_weak_ind (fun r (_ : gmap string Z) => consistent (mkIndex r u))); [done|].
  intros key t m r _ Hr. by apply touch_consistent.
Qed.

(** Access times change nothing but the access times. *)
Lemma updateAccess_lookup ix values key r' :
  tile_entries (updateAccess ix values) !! key = Some r' ->
  exists r, tile_entries ix !! key = Some r /\ rowStateOf r' = rowStateOf r /\
    entIdentity (rowEntry r') = entIdentity (rowEntry r) /\ entObjectKey (rowEntry r') = entObjectKey (rowEntry r) /\
    SizeBytes (rowEntry r') = SizeBytes (rowEntry r).
Proof.
  unfold updateAccess. cbn [tile_entries]. revert r'.
  apply (map_fold_weak_ind (fun rows (_ : gmap string Z) => forall r', rows !! key = Some r' ->
    exists r, tile_entries ix !! key = Some r /\ rowStateOf r' = rowStateOf r /\
    entIdentity (rowEntry r') = entIdentity (rowEntry r) /\ entObjectKey (rowEntry r') = entObjectKey (rowEntry r) /\
    SizeBytes (rowEntry r') = SizeBytes (rowEntry r))); [eauto 10|].
  intros k t m rows _ IH r'. destruct (decide (k = key)) as [->|Hne].
  - rewrite lookup_alter_eq. intros (r0 & Hr0 & ->)%fmap_Some. destruct (IH r0 Hr0) as (r & ? & Hs & ? & ? & ?).
    exists r. unfold touchRow. destruct (isReady r0); cbn; by split_and!.
  - rewrite lookup_alter_ne by done. apply IH.
Qed.
