(* ===== verification/TileJobs.v ===== *)
(** * The durable job table of the tile cache ([internal/tilecache/jobs.go], [fenced_jobs.go])

    Maintenance jobs of the tile cache and their resumable chunks are rows of the
    cache database. Every operation is one statement or one transaction under the
    writer lock; [now] is the time it reads. The request column holds the JSON of
    [JobRequest], whose decoding gives the request back. *)

From stdpp Require Import sorting.
From S2P Require Import Prelude GoNum.

Inductive Operation : Type := OperationSeed | OperationReseed | OperationTruncate | OtherOperation (name : string).

Inductive JobStatus : Type := JobQueued | JobRunning | JobCancelling | JobCancelled | JobSucceeded | JobFailed.

#[export] Instance JobStatus_eq_dec : EqDecision JobStatus.
Proof. solve_decision. Defined.

Record Bounds : Type := mkBounds { boundsBBox : float64 * float64 * float64 * float64; boundsCRS : string }.

Record JobRequest : Type := mkRequest {
  reqOperation : Operation; reqResource : string; reqResourceID : string; reqResourceKind : string;
  AllResources : bool; reqTileType : string; reqTileMatrixSet : string; reqFormat : string; reqStyle : string;
  reqMinZoom : option Z; reqMaxZoom : option Z; reqBounds : option Bounds; reqGeneration : Z
}.

Record Job : Type := mkJob {
  JobID : string; JobWorkspace : string; JobRequestOf : JobRequest; Status : JobStatus;
  TotalTiles : Z; ProcessedTiles : Z; SucceededTiles : Z; SkippedTiles : Z; FailedTiles : Z;
  BytesWritten : Z; BytesDeleted : Z; CancelRequested : bool; ErrorMessage : string;
  CreatedBy : string; JobCreatedAt : Z; StartedAt : option Z; CompletedAt : option Z; UpdatedAt : Z
}.

Record CreateJobInput : Type := mkCreate {
  inWorkspace : string; inRequest : JobRequest; inTotal : Z; inCreatedBy : string
}.

Record JobUpdate : Type := mkUpdate {
  upStatus : option JobStatus; upTotal : option Z; upProcessed : option Z; upSucceeded : option Z;
  upSkipped : option Z; upFailed : option Z; upWritten : option Z; upDeleted : option Z;
  upCancel : option bool; upError : option string; upStarted : option Z; upCompleted : option Z
}.

Record JobChunk : Type := mkChunk {
  ChunkID : string; ChunkJob : string; ChunkZoom : Z;
  MinCol : Z; MaxCol : Z; MinRow : Z; MaxRow : Z; NextOffset : Z;
  ChunkStatus : string; Attempts : Z; LastError : string; ChunkUpdatedAt : Z
}.

Record jobTables : Type := mkTables {
  tile_cache_jobs : gmap string Job;
  tile_cache_job_chunks : gmap string JobChunk
}.

Definition emptyTables : jobTables := mkTables ∅ ∅.

Inductive jobError : Type :=
| ErrJobNotFound
| ErrJobExists
| ErrAlready (s : JobStatus)
| ErrStillActive (id : string) (s : JobStatus)
| ErrChunkExists.

Definition with_jobs (t : jobTables) (jobs : gmap string Job) : jobTables :=
  mkTables jobs (tile_cache_job_chunks t).

Definition isStatus (j : Job) (s : JobStatus) : bool := bool_decide (Status j = s).

(** The columns the statements set. *)
Definition set_status (j : Job) (s : JobStatus) (cancel : bool) (started completed : option Z) (now : Z) : Job :=
  mkJob (JobID j) (JobWorkspace j) (JobRequestOf j) s (TotalTiles j) (ProcessedTiles j) (SucceededTiles j)
    (SkippedTiles j) (FailedTiles j) (BytesWritten j) (BytesDeleted j) cancel (ErrorMessage j) (CreatedBy j)
    (JobCreatedAt j) started completed now.

(** ** Claiming *)

(** [status='queued' AND cancel_requested=false]. *)
Definition claimable (j : Job) : bool := isStatus j JobQueued && negb (CancelRequested j).

(** [ORDER BY created_at, id]. *)
Definition earlier (a b : Job) : bool :=
  (JobCreatedAt a <? JobCreatedAt b) || (JobCreatedAt a =? JobCreatedAt b) && String.leb (JobID a) (JobID b).

Definition firstJob (l : list Job) : option Job :=
  match l with
  | [] => None
  | j :: rest => Some (foldl (fun best x => if earlier best x then best else x) j rest)
  end.

Definition jobsWhere (f : Job -> bool) (t : jobTables) : list Job :=
  filter (fun j => f j = true) (map_to_list (tile_cache_jobs t)).*2.

Definition ClaimNextTileCacheJob (now : Z) (t : jobTables) : option Job * jobTables :=
  match firstJob (jobsWhere claimable t) with
  | None => (None, t)
  | Some j =>
      let j' := set_status j JobRunning (CancelRequested j) (Some now) (CompletedAt j) now in
      (Some j', with_jobs t (<[JobID j := j']> (tile_cache_jobs t)))
  end.

(** ** Creating, reading, updating *)

Definition CreateTileCacheJob (now : Z) (id : string) (input : CreateJobInput) (t : jobTables) : (jobError + Job) * jobTables :=
  let job := mkJob id (inWorkspace input) (inRequest input) JobQueued (inTotal input) 0 0 0 0 0 0 false ""
               (inCreatedBy input) now None None now in
  match tile_cache_jobs t !! id with
  | Some _ => (inl ErrJobExists, t)
  | None => (inr job, with_jobs t (<[id := job]> (tile_cache_jobs t)))
  end.

Definition getTileCacheJob (t : jobTables) (id : string) : jobError + Job :=
  match tile_cache_jobs t !! id with Some j => inr j | None => inl ErrJobNotFound end.

Definition byCreatedDesc (a b : Job) : Prop := JobCreatedAt b <= JobCreatedAt a.
#[export] Instance byCreatedDesc_dec : RelDecision byCreatedDesc.
Proof. intros a b. unfold byCreatedDesc. apply _. Defined.

Definition ListTileCacheJobs (t : jobTables) (workspaceID : string) (limit : Z) : list Job :=
  let limit := if (limit <=? 0) || (1000 <? limit) then 100 else limit in
  take (Z.to_nat limit) (merge_sort byCreatedDesc
    (jobsWhere (fun j => String.eqb workspaceID "" || String.eqb (JobWorkspace j) workspaceID) t)).

(** A timestamp the update does not name is kept. *)
Definition orKeep {A} (new old : option A) : option A := match new with Some v => Some v | None => old end.

Definition applyUpdate (now : Z) (j : Job) (u : JobUpdate) : Job :=
  mkJob (JobID j) (JobWorkspace j) (JobRequestOf j) (default (Status j) (upStatus u))
    (default (TotalTiles j) (upTotal u)) (default (ProcessedTiles j) (upProcessed u))
    (default (SucceededTiles j) (upSucceeded u)) (default (SkippedTiles j) (upSkipped u))
    (default (FailedTiles j) (upFailed u)) (default (BytesWritten j) (upWritten u))
    (default (BytesDeleted j) (upDeleted u)) (default (CancelRequested j) (upCancel u))
    (default (ErrorMessage j) (upError u)) (CreatedBy j) (JobCreatedAt j)
    (orKeep (upStarted u) (StartedAt j)) (orKeep (upCompleted u) (CompletedAt j)) now.

Definition UpdateTileCacheJob (now : Z) (id : string) (u : JobUpdate) (t : jobTables) : (jobError + Job) * jobTables :=
  match getTileCacheJob t id with
  | inl e => (inl e, t)
  | inr j =>
      let j' := applyUpdate now j u in
      (inr j', with_jobs t (<[id := j']> (tile_cache_jobs t)))
  end.

(** ** Cancelling and resetting *)

Definition active (j : Job) : bool := isStatus j JobQueued || isStatus j JobRunning || isStatus j JobCancelling.

(** The CASE expressions of the two cancelling statements. *)
Definition cancelRow (now : Z) (j : Job) : Job :=
  if isStatus j JobQueued then set_status j JobCancelled true (StartedAt j) (Some now) now
  else set_status j JobCancelling true (StartedAt j) (CompletedAt j) now.

Definition RequestTileCacheJobCancel (now : Z) (id : string) (t : jobTables) : option jobError * jobTables :=
  match tile_cache_jobs t !! id with
  | None => (Some ErrJobNotFound, t)
  | Some j =>
      if active j then (None, with_jobs t (<[id := cancelRow now j]> (tile_cache_jobs t)))
      else (Some (ErrAlready (Status j)), t)
  end.

Definition resetRow (now : Z) (j : Job) : Job :=
  let j1 := if isStatus j JobRunning then set_status j JobQueued (CancelRequested j) (StartedAt j) (CompletedAt j) now else j in
  if isStatus j1 JobCancelling then set_status j1 JobCancelled (CancelRequested j1) (StartedAt j1) (Some now) now else j1.

Definition resetChunk (now : Z) (c : JobChunk) : JobChunk :=
  if String.eqb (ChunkStatus c) "running"
  then mkChunk (ChunkID c) (ChunkJob c) (ChunkZoom c) (MinCol c) (MaxCol c) (MinRow c) (MaxRow c) (NextOffset c)
         "queued" (Attempts c) (LastError c) now
  else c.

Definition ResetInterruptedTileCacheJobs (now : Z) (t : jobTables) : jobTables :=
  mkTables (resetRow now <$> tile_cache_jobs t) (resetChunk now <$> tile_cache_job_chunks t).

(** ** Chunks *)

(** A chunk as it is stored: [newID] is the identifier drawn when it has none. *)
Definition storedChunk (now : Z) (jobID newID : string) (c : JobChunk) : JobChunk :=
  mkChunk (if String.eqb (ChunkID c) "" then newID else ChunkID c) jobID (ChunkZoom c)
    (MinCol c) (MaxCol c) (MinRow c) (MaxRow c) (NextOffset c)
    (if String.eqb (ChunkStatus c) "" then "queued" else ChunkStatus c) (Attempts c) (LastError c) now.

Fixpoint insertChunks (now : Z) (jobID : string) (chunks : list (string * JobChunk)) (m : gmap string JobChunk)
    : option (gmap string JobChunk) :=
  match chunks with
  | [] => Some m
  | (newID, c) :: rest =>
      let c' := storedChunk now jobID newID c in
      match m !! ChunkID c' with
      | Some _ => None
      | None => insertChunks now jobID rest (<[ChunkID c' := c']> m)
      end
  end.

Definition deleteChunksOf (jobID : string) (m : gmap string JobChunk) : gmap string JobChunk :=
  filter (fun kv => ChunkJob kv.2 <> jobID) m.

Definition ReplaceTileCacheJobChunks (now : Z) (jobID : string) (chunks : list (string * JobChunk)) (t : jobTables)
    : option jobError * jobTables :=
  match insertChunks now jobID chunks (deleteChunksOf jobID (tile_cache_job_chunks t)) with
  | Some m => (None, mkTables (tile_cache_jobs t) m)
  | None => (Some ErrChunkExists, t)
  end.

(** [ORDER BY zoom, min_row, min_col]. *)
Definition byPosition (a b : JobChunk) : Prop :=
  ChunkZoom a < ChunkZoom b \/ ChunkZoom a = ChunkZoom b /\
  (MinRow a < MinRow b \/ MinRow a = MinRow b /\ MinCol a <= MinCol b).
#[export] Instance byPosition_dec : RelDecision byPosition.
Proof. intros a b. unfold byPosition. apply _. Defined.

Definition ListTileCacheJobChunks (t : jobTables) (jobID : string) : list JobChunk :=
  merge_sort byPosition (filter (fun c => ChunkJob c = jobID) (map_to_list (tile_cache_job_chunks t)).*2).

Definition chunkProgress (now : Z) (c : JobChunk) (old : JobChunk) : JobChunk :=
  mkChunk (ChunkID old) (ChunkJob old) (ChunkZoom old) (MinCol old) (MaxCol old) (MinRow old) (MaxRow old)
    (NextOffset c) (ChunkStatus c) (Attempts c) (LastError c) now.

Definition UpdateTileCacheJobChunk (now : Z) (c : JobChunk) (t : jobTables) : jobTables :=
  mkTables (tile_cache_jobs t) (alter (chunkProgress now c) (ChunkID c) (tile_cache_job_chunks t)).

(** ** Deletion of a workspace or of resources *)

Definition inLifecycle (workspaceID : string) (resourceIDs : list string) (j : Job) : bool :=
  String.eqb (JobWorkspace j) workspaceID
  && (match resourceIDs with [] => true | _ => false end || AllResources (JobRequestOf j)
      || bool_decide (reqResourceID (JobRequestOf j) ∈ resourceIDs)).

Definition byCreated (a b : Job) : Prop := JobCreatedAt a <= JobCreatedAt b.
#[export] Instance byCreated_dec : RelDecision byCreated.
Proof. intros a b. unfold byCreated. apply _. Defined.

Definition lifecycleJobs (t : jobTables) (workspaceID : string) (resourceIDs : list string) : list Job :=
  merge_sort byCreated (jobsWhere (inLifecycle workspaceID resourceIDs) t).

Fixpoint purgeLoop (jobs : list Job) (t : jobTables) : jobError + jobTables :=
  match jobs with
  | [] => inr t
  | j :: rest =>
      if active j then inl (ErrStillActive (JobID j) (Status j))
      else purgeLoop rest (mkTables (delete (JobID j) (tile_cache_jobs t))
                                    (deleteChunksOf (JobID j) (tile_cache_job_chunks t)))
  end.

Definition purgeLifecycleJobs (t : jobTables) (workspaceID : string) (resourceIDs : list string) : (jobError + Z) * jobTables :=
  let jobs := lifecycleJobs t workspaceID resourceIDs in
  match purgeLoop jobs t with
  | inl e => (inl e, t)
  | inr t' => (inr (Z.of_nat (length jobs)), t')
  end.

Definition cancelLifecycleJobs (now : Z) (t : jobTables) (workspaceID : string) (resourceIDs : list string) : jobTables :=
  foldl (fun t j => if active j then with_jobs t (alter (cancelRow now) (JobID j) (tile_cache_jobs t)) else t)
    t (lifecycleJobs t workspaceID resourceIDs).

Definition activeLifecycleJobs (t : jobTables) (workspaceID : string) (resourceIDs : list string) : Z :=
  Z.of_nat (length (filter (fun j => active j = true) (lifecycleJobs t workspaceID resourceIDs))).
