(* ===== verification/TileManager.v ===== *)
(** * The manager of the persistent tile cache ([internal/tilecache/manager.go])

    The manager keeps the index and the blob store in step: it stores a tile through
    a pending row, evicts the least recently used tiles to meet three quotas, repairs
    rows whose payload is gone and removes what a crash left pending.

    Every call of the database, of the blob store and of the ownership guard may
    fail: [faults] holds the outcome of the calls to come (a call succeeds when the
    list is empty). A failed call of the blob store may have taken effect for some of
    its objects. A failed transaction of the index has no effect. Operations run under
    the manager's mutex; [Get] and [Exists] take it only for the repair, so that between
    the phases of a read ([lookupEntry], [fetchPayload], [repair]) other operations
    run: [Get] and [Exists] are the reads that nothing interrupts. [keyDigest] and
    [contentDigest] are the text forms of SHA-256. *)

From S2P Require Import Prelude GoText TileIndex TileJobs.

(** ** The state and its monad *)

Inductive fault : Type := Works | Fails (applied : list string).

Inductive counter : Type :=
| hits | misses | writes | writeErrors | evictions | bytesEvicted | oversized | orphans.

#[export] Instance counter_eq_dec : EqDecision counter.
Proof. solve_decision. Defined.

Record Manager : Type := mkManager {
  index : metadataIndex;
  backend : gmap string string;
  jobs : jobTables;
  accessed : gmap string Z;
  counters : counter -> Z;
  faults : list fault
}.

Inductive cacheError : Type :=
| InvalidIdentity (e : identityError)
| OwnershipLost
| MetadataError
| BackendError
| QuotaUnsatisfiable
| JobFailure (e : jobError).

(** A method: its state survives an error. *)
Definition act (A : Type) : Type := Manager -> outcome cacheError A * Manager.

#[export] Instance act_ret : MRet act := fun A a m => (Ok a, m).

#[export] Instance act_bind : MBind act := fun A B k c m =>
  match c m with
  | (Ok a, m') => k a m'
  | (Err e, m') => (Err e, m')
  | (NoFuel, m') => (NoFuel, m')
  end.

Definition raise {A} (e : cacheError) : act A := fun m => (Err e, m).
Definition outOfFuel {A} : act A := fun m => (NoFuel, m).
Definition gets {A} (f : Manager -> A) : act A := fun m => (Ok (f m), m).

(** The error of a call whose result is looked at ([inl] the error). *)
Definition try {A} (c : act A) : act (cacheError + A) := fun m =>
  match c m with
  | (Ok a, m') => (Ok (inr a), m')
  | (Err e, m') => (Ok (inl e), m')
  | (NoFuel, m') => (NoFuel, m')
  end.

(** A call whose error is dropped. *)
Definition ignore {A} (c : act A) : act unit := try c ≫= fun _ => mret tt.

Definition set_index (ix : metadataIndex) : act unit := fun m =>
  (Ok tt, mkManager ix (backend m) (jobs m) (accessed m) (counters m) (faults m)).
Definition set_backend (b : gmap string string) : act unit := fun m =>
  (Ok tt, mkManager (index m) b (jobs m) (accessed m) (counters m) (faults m)).
Definition set_jobs (t : jobTables) : act unit := fun m =>
  (Ok tt, mkManager (index m) (backend m) t (accessed m) (counters m) (faults m)).
Definition set_accessed (a : gmap string Z) : act unit := fun m =>
  (Ok tt, mkManager (index m) (backend m) (jobs m) a (counters m) (faults m)).
Definition bump (c : counter) (n : Z) : act unit := fun m =>
  (Ok tt, mkManager (index m) (backend m) (jobs m) (accessed m)
            (fun c' => if decide (c' = c) then counters m c + n else counters m c') (faults m)).

(** The outcome of the next external call. *)
Definition nextFault : act fault := fun m =>
  match faults m with
  | [] => (Ok Works, m)
  | f :: rest => (Ok f, mkManager (index m) (backend m) (jobs m) (accessed m) (counters m) rest)
  end.

Definition beginMutation : act unit :=
  nextFault ≫= fun f => match f with Works => mret tt | Fails _ => raise OwnershipLost end.

Definition Writable : act bool :=
  nextFault ≫= fun f => match f with Works => mret true | Fails _ => mret false end.

(** A query of the index. *)
Definition query {A} (q : metadataIndex -> A) : act A :=
  nextFault ≫= fun f => match f with Works => gets (fun m => q (index m)) | Fails _ => raise MetadataError end.

(** A transaction of the index. *)
Definition transact (t : metadataIndex -> option metadataIndex) : act unit :=
  nextFault ≫= fun f =>
  match f with
  | Works => gets (fun m => t (index m)) ≫= fun r =>
             match r with Some ix => set_index ix | None => raise MetadataError end
  | Fails _ => raise MetadataError
  end.

(** The blob store ([BlobStore]). *)
Definition blobGet (key : string) : act (option string) :=
  nextFault ≫= fun f =>
  match f with Works => gets (fun m => backend m !! key) | Fails _ => raise BackendError end.

Definition blobPut (key content : string) : act unit :=
  nextFault ≫= fun f => gets backend ≫= fun b =>
  match f with
  | Works => set_backend (<[key := content]> b)
  | Fails applied =>
      (if bool_decide (key ∈ applied) then set_backend (<[key := content]> b) else mret tt) ≫= fun _ =>
      raise BackendError
  end.

Definition dropKeys (keys : list string) (b : gmap string string) : gmap string string := foldr delete b keys.

Definition blobDeleteBatch (keys : list string) : act unit :=
  nextFault ≫= fun f => gets backend ≫= fun b =>
  match f with
  | Works => set_backend (dropKeys keys b)
  | Fails applied =>
      set_backend (dropKeys (filter (fun k => k ∈ applied) keys) b) ≫= fun _ => raise BackendError
  end.

Definition blobDelete (key : string) : act unit := blobDeleteBatch [key].

(** ** Operations *)

Section Operations.
Context (keyDigest contentDigest : string -> string).
Context (MaxBytes : Z) (ObjectPrefix : string).

Definition len (content : string) : Z := Z.of_nat (String.length content).

Definition validated (i : Identity) : act unit :=
  match Validate i with Some e => raise (InvalidIdentity e) | None => mret tt end.

(** The repair of a row whose payload is gone. *)
Definition repair (entry : Entry) : act unit :=
  try beginMutation ≫= fun fence =>
  match fence with
  | inl _ => mret tt
  | inr _ => ignore (transact (fun ix => Some (remove ix entry)))
  end.

(** The phases of a read: the entry, its payload, and the note of a hit ([None]: [Exists]). *)
Definition lookupEntry (i : Identity) : act (option Entry) :=
  validated i ≫= fun _ => query (fun ix => getReady ix (CanonicalKey i)).

Definition fetchPayload (entry : Entry) : act (option string) := blobGet (entObjectKey entry).

Definition noteHit (key : string) (access : option Z) : act unit :=
  match access with
  | None => mret tt
  | Some now =>
      Writable ≫= fun w : bool =>
      gets accessed ≫= fun a =>
      (if w then set_accessed (<[key := now]> a) else mret tt) ≫= fun _ => bump hits 1
  end.

Definition Get (now : Z) (i : Identity) : act (option (string * Entry)) :=
  validated i ≫= fun _ =>
  query (fun ix => getReady ix (CanonicalKey i)) ≫= fun found =>
  match found with
  | None => bump misses 1 ≫= fun _ => mret None
  | Some entry =>
      blobGet (entObjectKey entry) ≫= fun blob =>
      match blob with
      | None =>
          repair entry ≫= fun _ => bump misses 1 ≫= fun _ => bump orphans 1 ≫= fun _ => mret None
      | Some data =>
          Writable ≫= fun w : bool =>
          gets accessed ≫= fun a =>
          (if w then set_accessed (<[CanonicalKey i := now]> a) else mret tt) ≫= fun _ =>
          bump hits 1 ≫= fun _ => mret (Some (data, entry))
      end
  end.

Definition Exists (i : Identity) : act bool :=
  validated i ≫= fun _ =>
  query (fun ix => getReady ix (CanonicalKey i)) ≫= fun found =>
  match found with
  | None => mret false
  | Some entry =>
      blobGet (entObjectKey entry) ≫= fun blob =>
      match blob with
      | None => repair entry ≫= fun _ => bump orphans 1 ≫= fun _ => mret false
      | Some _ => mret true
      end
  end.

Fixpoint evictUntil (fuel : nat) (scopeType scopeID : string) (i : Identity) (excludeKey : string) (delta quota : Z)
    : act unit :=
  match fuel with
  | O => outOfFuel
  | S fuel =>
      query (fun ix => usage ix scopeType scopeID) ≫= fun u : Z * Z =>
      if u.1 + delta <=? quota then mret tt
      else
        query (fun ix => lru ix scopeType (WorkspaceID i) (ResourceID i) excludeKey) ≫= fun candidate =>
        match candidate with
        | None => raise QuotaUnsatisfiable
        | Some e =>
            blobDelete (entObjectKey e) ≫= fun _ =>
            transact (fun ix => Some (remove ix e)) ≫= fun _ =>
            bump evictions 1 ≫= fun _ => bump bytesEvicted (SizeBytes e) ≫= fun _ =>
            evictUntil fuel scopeType scopeID i excludeKey delta quota
        end
  end.

(** Every round removes a row. *)
Definition evictFuel (m : Manager) : nat := S (size (tile_entries (index m))).

Fixpoint enforce (checks : list (string * string * Z)) (i : Identity) (delta : Z) : act unit :=
  match checks with
  | [] => mret tt
  | (scopeType, scopeID, quota) :: rest =>
      if quota <=? 0 then enforce rest i delta
      else gets evictFuel ≫= fun fuel =>
           try (evictUntil fuel scopeType scopeID i (CanonicalKey i) delta quota) ≫= fun r =>
           match r with
           | inl e => bump writeErrors 1 ≫= fun _ => raise e
           | inr _ => enforce rest i delta
           end
  end.

Definition quotaChecks (i : Identity) (policy : Policy) : list (string * string * Z) :=
  [("resource", resourceScope (WorkspaceID i) (ResourceID i), ResourceQuotaBytes policy);
   ("workspace", WorkspaceID i, WorkspaceQuotaBytes policy);
   ("global", "global", MaxBytes)].

Definition newEntry (now : Z) (i : Identity) (content : string) : Entry :=
  mkEntry i (CanonicalKey i) (ObjectKey keyDigest ObjectPrefix i) (len content) (contentDigest content) now now.

(** The write itself: pending row, payload, ready row, and what is undone on errors. *)
Definition store (now : Z) (entry : Entry) (previous : option Entry) (content : string) : act bool :=
  transact (fun ix => markPending now ix entry previous) ≫= fun _ =>
  try (blobPut (entObjectKey entry) content) ≫= fun put =>
  match put with
  | inl e =>
      ignore (transact (fun ix => restore ix previous (entCacheKey entry))) ≫= fun _ =>
      bump writeErrors 1 ≫= fun _ => raise e
  | inr _ =>
      try (transact (fun ix => markReady ix entry)) ≫= fun marked =>
      match marked with
      | inl e =>
          ignore (blobDelete (entObjectKey entry)) ≫= fun _ =>
          ignore (transact (fun ix => Some (remove ix entry))) ≫= fun _ =>
          bump writeErrors 1 ≫= fun _ => raise e
      | inr _ => bump writes 1 ≫= fun _ => mret true
      end
  end.

Definition Put (now : Z) (i : Identity) (content : string) (policy : Policy) : act bool :=
  validated i ≫= fun _ =>
  try beginMutation ≫= fun fence =>
  match fence with
  | inl e => bump writeErrors 1 ≫= fun _ => raise e
  | inr _ =>
      if existsb (fun limit => (0 <? limit) && (limit <? len content))
           [ResourceQuotaBytes policy; WorkspaceQuotaBytes policy; MaxBytes]
      then bump oversized 1 ≫= fun _ => mret false
      else
        query (fun ix => getReady ix (CanonicalKey i)) ≫= fun previous =>
        let delta := len content - (match previous with Some p => SizeBytes p | None => 0 end) in
        (if 0 <? delta then enforce (quotaChecks i policy) i delta else mret tt) ≫= fun _ =>
        store now (newEntry now i content) previous content
  end.

Record DeleteResult : Type := mkDeleted { Entries : Z; Bytes : Z }.

Definition batchLimit : nat := 500.

Fixpoint removeAll (entries : list Entry) (result : DeleteResult) : act (DeleteResult * option cacheError) :=
  match entries with
  | [] => mret (result, None)
  | e :: rest =>
      try (transact (fun ix => Some (remove ix e))) ≫= fun r =>
      match r with
      | inl err => mret (result, Some err)
      | inr _ => removeAll rest (mkDeleted (Entries result + 1) (Bytes result + SizeBytes e))
      end
  end.

Fixpoint deleteLoop (fuel : nat) (selector : Selector) (result : DeleteResult) : act (DeleteResult * option cacheError) :=
  match fuel with
  | O => outOfFuel
  | S fuel =>
      try (query (fun ix => selectEntries ix selector batchLimit)) ≫= fun r =>
      match r with
      | inl e => mret (result, Some e)
      | inr [] => mret (result, None)
      | inr entries =>
          try (blobDeleteBatch (entObjectKey <$> entries)) ≫= fun d =>
          match d with
          | inl e => mret (result, Some e)
          | inr _ =>
              removeAll entries result ≫= fun out =>
              match out with
              | (result, Some e) => mret (result, Some e)
              | (result, None) => deleteLoop fuel selector result
              end
          end
      end
  end.

(** The method [delete] under the mutex. *)
Definition deleteSelected (selector : Selector) : act (DeleteResult * option cacheError) :=
  gets evictFuel ≫= fun fuel => deleteLoop fuel selector (mkDeleted 0 0).

Definition Delete (selector : Selector) : act (DeleteResult * option cacheError) :=
  try beginMutation ≫= fun fence =>
  match fence with
  | inl e => mret (mkDeleted 0 0, Some e)
  | inr _ => deleteSelected selector
  end.

Definition DeleteIdentity (i : Identity) : act DeleteResult :=
  validated i ≫= fun _ =>
  beginMutation ≫= fun _ =>
  query (fun ix => getReady ix (CanonicalKey i)) ≫= fun found =>
  match found with
  | None => mret (mkDeleted 0 0)
  | Some entry =>
      blobDelete (entObjectKey entry) ≫= fun _ =>
      transact (fun ix => Some (remove ix entry)) ≫= fun _ =>
      mret (mkDeleted 1 (SizeBytes entry))
  end.

Fixpoint reconcileLoop (entries : list Entry) : act unit :=
  match entries with
  | [] => mret tt
  | e :: rest =>
      ignore (blobDelete (entObjectKey e)) ≫= fun _ =>
      transact (fun ix => Some (remove ix e)) ≫= fun _ =>
      bump orphans 1 ≫= fun _ => reconcileLoop rest
  end.

Definition reconcile : act unit :=
  beginMutation ≫= fun _ => query nonReady ≫= fun entries => reconcileLoop entries.

(** Access times that were not written are put back unless a later one came in. *)
Definition mergeAccessed (values current : gmap string Z) : gmap string Z :=
  map_fold (fun key value acc =>
    match acc !! key with
    | Some t => if t <? value then <[key := value]> acc else acc
    | None => <[key := value]> acc
    end) current values.

Definition flushAccess : act unit :=
  try beginMutation ≫= fun fence =>
  match fence with
  | inl _ => mret tt
  | inr _ =>
      gets accessed ≫= fun values =>
      set_accessed ∅ ≫= fun _ =>
      if decide (values = ∅) then mret tt
      else
        try (transact (fun ix => Some (updateAccess ix values))) ≫= fun r =>
        match r with
        | inr _ => mret tt
        | inl _ => gets accessed ≫= fun current => set_accessed (mergeAccessed values current)
        end
  end.

(** ** Reports and deletion of a scope *)

Definition applyQuota (u : Z * Z) (quota : Z) : Usage := mkUsage u.1 u.2 quota (Z.max 0 (quota - u.1)).

Definition Stats (workspaceID resourceID : string) (workspaceQuota resourceQuota : Z)
    : act (Usage * option Usage * option Usage) :=
  query (fun ix => usage ix "global" "global") ≫= fun g =>
  (if String.eqb workspaceID "" then mret None
   else query (fun ix => usage ix "workspace" workspaceID) ≫= fun u =>
        mret (Some (applyQuota u (if workspaceQuota <=? 0 then MaxBytes else workspaceQuota)))) ≫= fun ws =>
  (if String.eqb workspaceID "" || String.eqb resourceID "" then mret None
   else query (fun ix => usage ix "resource" (resourceScope workspaceID resourceID)) ≫= fun u =>
        let quota := if resourceQuota <=? 0 then workspaceQuota else resourceQuota in
        mret (Some (applyQuota u (if quota <=? 0 then MaxBytes else quota)))) ≫= fun res =>
  mret (applyQuota g MaxBytes, ws, res).

Fixpoint sumResources (workspaceID : string) (resourceIDs : list string) (entries bytes : Z) : act (Z * Z) :=
  match resourceIDs with
  | [] => mret (entries, bytes)
  | r :: rest =>
      Stats workspaceID r 0 0 ≫= fun s : Usage * option Usage * option Usage =>
      match s.2 with
      | Some u => sumResources workspaceID rest (entries + EntryCount u) (bytes + UsageBytes u)
      | None => sumResources workspaceID rest entries bytes
      end
  end.

Definition LifecycleStats (workspaceID : string) (resourceIDs : list string) : act (Z * Z * Z) :=
  (match resourceIDs with
   | [] => Stats workspaceID "" 0 0 ≫= fun s : Usage * option Usage * option Usage =>
           mret (match s.1.2 with Some u => (EntryCount u, UsageBytes u) | None => (0, 0) end)
   | _ => sumResources workspaceID resourceIDs 0 0
   end) ≫= fun eb : Z * Z =>
  nextFault ≫= fun f =>
  match f with
  | Fails _ => raise MetadataError
  | Works => gets (fun m => lifecycleJobs (jobs m) workspaceID resourceIDs) ≫= fun l =>
             mret (eb.1, eb.2, Z.of_nat (length l))
  end.

(** The selector of a whole workspace or of one of its resources. *)
Definition lifecycleSelector (workspaceID resourceID : string) : Selector :=
  mkSelector workspaceID resourceID "" "" "" "" "" None None.

Fixpoint purgeResources (workspaceID : string) (resourceIDs : list string) (result : DeleteResult)
    : act (DeleteResult * option cacheError) :=
  match resourceIDs with
  | [] => mret (result, None)
  | r :: rest =>
      deleteSelected (lifecycleSelector workspaceID r) ≫= fun out =>
      match out with
      | (_, Some e) => mret (result, Some e)
      | (d, None) => purgeResources workspaceID rest (mkDeleted (Entries result + Entries d) (Bytes result + Bytes d))
      end
  end.

Definition purgePayloads (workspaceID : string) (resourceIDs : list string) : act (DeleteResult * option cacheError) :=
  match resourceIDs with
  | [] =>
      deleteSelected (lifecycleSelector workspaceID "") ≫= fun out =>
      match out with
      | (_, Some e) => mret (mkDeleted 0 0, Some e)
      | (d, None) => mret (d, None)
      end
  | _ => purgeResources workspaceID resourceIDs (mkDeleted 0 0)
  end.

Definition purgeJobs (workspaceID : string) (resourceIDs : list string) : act Z :=
  nextFault ≫= fun f =>
  match f with
  | Fails _ => raise MetadataError
  | Works =>
      gets jobs ≫= fun t =>
      match purgeLifecycleJobs t workspaceID resourceIDs with
      | (inl e, _) => raise (JobFailure e)
      | (inr n, t') => set_jobs t' ≫= fun _ => mret n
      end
  end.

Fixpoint purgeUsageOf (workspaceID : string) (resourceIDs : list string) : act unit :=
  match resourceIDs with
  | [] => mret tt
  | r :: rest =>
      transact (fun ix => Some (purgeResourceUsage ix workspaceID r)) ≫= fun _ => purgeUsageOf workspaceID rest
  end.

Definition purgeLifecycleUsage (workspaceID : string) (resourceIDs : list string) : act unit :=
  match resourceIDs with
  | [] => transact (fun ix => Some (purgeWorkspaceUsage ix workspaceID))
  | _ => purgeUsageOf workspaceID resourceIDs
  end.

Definition PurgeLifecycle (workspaceID : string) (resourceIDs : list string) : act (DeleteResult * Z * option cacheError) :=
  try beginMutation ≫= fun fence =>
  match fence with
  | inl e => mret (mkDeleted 0 0, 0, Some e)
  | inr _ =>
      purgePayloads workspaceID resourceIDs ≫= fun out =>
      match out with
      | (result, Some e) => mret (result, 0, Some e)
      | (result, None) =>
          try (purgeJobs workspaceID resourceIDs) ≫= fun r =>
          match r with
          | inl e => mret (result, 0, Some e)
          | inr n =>
              try (purgeLifecycleUsage workspaceID resourceIDs) ≫= fun u =>
              match u with
              | inl e => mret (result, n, Some e)
              | inr _ => mret (result, n, None)
              end
          end
      end
  end.

Definition CancelLifecycleJobs (now : Z) (workspaceID : string) (resourceIDs : list string) : act unit :=
  beginMutation ≫= fun _ =>
  nextFault ≫= fun f =>
  match f with
  | Fails _ => raise MetadataError
  | Works => gets jobs ≫= fun t => set_jobs (cancelLifecycleJobs now t workspaceID resourceIDs)
  end.
End Operations.
