(* ===== verification/TileManagerCorrect.v ===== *)
(** * Correctness of the tile cache manager

    A program logic for the manager's methods ([awp]), the invariant of the cache and
    its preservation by every method under any failures of the database, of the blob
    store and of the ownership guard. *)

From stdpp Require Import sorting.
From S2P Require Import Prelude GoText TileIndex TileIndexCorrect TileJobs TileManager.

(** ** The program logic

    [awp c Q E m]: run from [m], [c] ends in a state that satisfies [Q] with its value, or
    in an error and a state that satisfies [E]; the fuel is enough. *)
Definition awp {A} (c : act A) (Q : A -> Manager -> Prop) (E : Manager -> Prop) (m : Manager) : Prop :=
  match c m with
  | (Ok a, m') => Q a m'
  | (Err _, m') => E m'
  | (NoFuel, _) => False
  end.

(** The index and the payloads are what the invariant is about. *)
Definition stable (m m' : Manager) : Prop := index m' = index m /\ backend m' = backend m.

Lemma awp_ret {A} (a : A) Q E m : Q a m -> awp (mret a) Q E m.
Proof. done. Qed.

Lemma awp_raise {A} e (Q : A -> Manager -> Prop) E m : E m -> awp (raise e) Q E m.
Proof. done. Qed.

Lemma awp_bind {A B} (c : act A) (k : A -> act B) Q E m :
  awp c (fun a m' => awp (k a) Q E m') E m -> awp (c ≫= k) Q E m.
Proof. unfold awp, mbind, act_bind. by destruct (c m) as [[a|e|] m']. Qed.

Lemma awp_mono {A} (c : act A) (Q Q' : A -> Manager -> Prop) (E E' : Manager -> Prop) m :
  awp c Q E m -> (forall a m', Q a m' -> Q' a m') -> (forall m', E m' -> E' m') -> awp c Q' E' m.
Proof. unfold awp. destruct (c m) as [[a|e|] m']; eauto. Qed.

Lemma awp_try {A} (c : act A) Q E m :
  awp c (fun a m' => Q (inr a) m') (fun m' => forall e, Q (inl e) m') m -> awp (try c) Q E m.
Proof. unfold awp, try. destruct (c m) as [[a|e|] m']; auto. Qed.

Lemma awp_ignore {A} (c : act A) Q E m :
  awp c (fun _ m' => Q tt m') (fun m' => Q tt m') m -> awp (ignore c) Q E m.
Proof. intros H. unfold ignore. apply awp_bind, awp_try. eapply awp_mono; [exact H|done|done]. Qed.

Lemma awp_gets {A} (f : Manager -> A) Q E m : Q (f m) m -> awp (gets f) Q E m.
Proof. done. Qed.

Lemma awp_bump c n Q E m : (forall m', stable m m' -> Q tt m') -> awp (bump c n) Q E m.
Proof. intros H. by apply H. Qed.

Lemma awp_set_accessed a Q E m : (forall m', stable m m' -> Q tt m') -> awp (set_accessed a) Q E m.
Proof. intros H. by apply H. Qed.

Lemma awp_set_jobs t Q E m : (forall m', stable m m' -> Q tt m') -> awp (set_jobs t) Q E m.
Proof. intros H. by apply H. Qed.

Lemma awp_nextFault Q E m : (forall f m', stable m m' -> Q f m') -> awp nextFault Q E m.
Proof. intros H. unfold awp, nextFault. destruct (faults m); by apply H. Qed.

Lemma awp_beginMutation Q E m :
  (forall m', stable m m' -> Q tt m') -> (forall m', stable m m' -> E m') -> awp beginMutation Q E m.
Proof. intros HQ HE. apply awp_bind, awp_nextFault. intros [|] m' Hs; [by apply HQ|by apply HE]. Qed.

Lemma awp_Writable Q E m : (forall b m', stable m m' -> Q b m') -> awp Writable Q E m.
Proof. intros HQ. apply awp_bind, awp_nextFault. intros [|] m' Hs; by apply HQ. Qed.

Lemma awp_query {A} (q : metadataIndex -> A) Q E m :
  (forall m', stable m m' -> Q (q (index m)) m') -> (forall m', stable m m' -> E m') -> awp (query q) Q E m.
Proof.
  intros HQ HE. apply awp_bind, awp_nextFault. intros [|] m' Hs; [|by apply HE].
  apply awp_gets. destruct Hs as [Hi Hb]. rewrite Hi. by apply HQ.
Qed.

Lemma awp_transact t Q E m :
  (forall m' ix, t (index m) = Some ix -> index m' = ix -> backend m' = backend m -> Q tt m') ->
  (forall m', stable m m' -> E m') -> awp (transact t) Q E m.
Proof.
  intros HQ HE. apply awp_bind, awp_nextFault. intros [|] m' Hs; [|by apply HE].
  apply awp_bind, awp_gets. destruct Hs as [Hi Hb]. destruct (t (index m')) as [ix|] eqn:Ht.
  - rewrite Hi in Ht. apply (HQ _ ix); done.
  - by apply HE.
Qed.

Lemma awp_blobGet key Q E m :
  (forall m', stable m m' -> Q (backend m !! key) m') -> (forall m', stable m m' -> E m') -> awp (blobGet key) Q E m.
Proof.
  intros HQ HE. apply awp_bind, awp_nextFault. intros [|] m' Hs; [|by apply HE].
  apply awp_gets. destruct Hs as [Hi Hb]. rewrite Hb. by apply HQ.
Qed.

Lemma awp_blobPut key content Q E m :
  (forall m', index m' = index m -> backend m' = <[key := content]> (backend m) -> Q tt m') ->
  (forall m', index m' = index m -> backend m' = backend m \/ backend m' = <[key := content]> (backend m) -> E m') ->
  awp (blobPut key content) Q E m.
Proof.
  intros HQ HE. apply awp_bind, awp_nextFault. intros f m' [Hi Hb]. apply awp_bind, awp_gets.
  destruct f as [|applied]; [apply HQ; [done|by cbn; rewrite Hb]|].
  case_bool_decide; (apply HE; [done|]); [right; cbn; by rewrite Hb|by left].
Qed.

Lemma awp_blobDeleteBatch keys Q E m :
  (forall m', index m' = index m -> backend m' = dropKeys keys (backend m) -> Q tt m') ->
  (forall m' ks, index m' = index m -> backend m' = dropKeys ks (backend m) -> E m') ->
  awp (blobDeleteBatch keys) Q E m.
Proof.
  intros HQ HE. apply awp_bind, awp_nextFault. intros f m' [Hi Hb]. apply awp_bind, awp_gets.
  destruct f as [|applied]; [apply HQ; [done|by cbn; rewrite Hb]|].
  apply (HE _ (filter (fun k => k ∈ applied) keys)); [done|by cbn; rewrite Hb].
Qed.

Lemma dropKeys_subseteq ks b : dropKeys ks b ⊆ b.
Proof. induction ks as [|k ks IH]; [done|]. etrans; [apply delete_subseteq|done]. Qed.

(** ** The invariant *)

Definition globalScope : scope := ("global", "global").

Lemma inScope_global e : inScope globalScope e = true.
Proof. unfold inScope. apply bool_decide_true. left. Qed.

Section Invariant.
Context (H : list (Identity * string)) (cap : Z).

(** The payload of a ready row, when it is there, was given to [Put] for this key. *)
Definition authentic (ix : metadataIndex) (b : gmap string string) : Prop :=
  forall key e data, tile_entries ix !! key = Some (mkRow e ready) -> b !! entObjectKey e = Some data ->
  exists i, (i, data) ∈ H /\ plain i /\ CanonicalKey i = key.

Definition within (ix : metadataIndex) : Prop := (total (tile_entries ix) globalScope).1 <= cap.

Record cacheInv (m : Manager) : Prop := {
  inv_consistent : consistent (index m);
  inv_authentic : authentic (index m) (backend m);
  inv_within : within (index m)
}.

Lemma cacheInv_stable m m' : stable m m' -> cacheInv m -> cacheInv m'.
Proof. intros [Hi Hb] [? ? ?]. split; rewrite ?Hi, ?Hb; done. Qed.

Lemma authentic_subseteq ix b b' : b' ⊆ b -> authentic ix b -> authentic ix b'.
Proof. intros Hs Ha key e data Hk Hd. apply (Ha key e); [done|]. by apply (lookup_weaken b' b). Qed.

Lemma authentic_remove ix b e : authentic ix b -> authentic (remove ix e) b.
Proof.
  intros Ha key e' data Hk. rewrite remove_rows in Hk. apply lookup_delete_Some in Hk as [_ Hk]. by apply Ha.
Qed.

(** Dropping payloads is always allowed; so is removing a row as it stands. *)
Lemma cacheInv_drop m m' ks :
  index m' = index m -> backend m' = dropKeys ks (backend m) -> cacheInv m -> cacheInv m'.
Proof.
  intros Hi Hb [? Ha ?]. split; rewrite ?Hi, ?Hb; [done| |done].
  eapply authentic_subseteq; [apply dropKeys_subseteq|done].
Qed.

Lemma cacheInv_remove m m' e :
  current (index m) e -> index m' = remove (index m) e -> backend m' = backend m -> cacheInv m -> cacheInv m'.
Proof.
  intros Hc Hi Hb [Hco Ha Hw]. split; rewrite ?Hi, ?Hb.
  - by apply remove_consistent.
  - by apply authentic_remove.
  - unfold within. rewrite remove_rows. etrans; [apply total_delete_le, Hco|done].
Qed.

(** Rules that thread the invariant. *)
Lemma awp_remove e Q E m :
  cacheInv m -> current (index m) e ->
  (forall m', cacheInv m' -> tile_entries (index m') = delete (entCacheKey e) (tile_entries (index m)) -> Q tt m') ->
  (forall m', cacheInv m' -> stable m m' -> E m') ->
  awp (transact (fun ix => Some (remove ix e))) Q E m.
Proof.
  intros Hm Hc HQ HE. apply awp_transact.
  - intros m' ix [= <-] Hi Hb. apply HQ; [by apply (cacheInv_remove m m' e)|]. by rewrite Hi, remove_rows.
  - intros m' Hs. apply HE; [by apply (cacheInv_stable m)|done].
Qed.

Lemma awp_drop keys Q E m :
  cacheInv m ->
  (forall m', cacheInv m' -> index m' = index m -> Q tt m') ->
  (forall m', cacheInv m' -> index m' = index m -> E m') ->
  awp (blobDeleteBatch keys) Q E m.
Proof.
  intros Hm HQ HE. apply awp_blobDeleteBatch; intros; [apply HQ|apply HE]; try done; by eapply cacheInv_drop.
Qed.

Lemma awp_repair e Q E m :
  cacheInv m -> current (index m) e -> (forall m', cacheInv m' -> Q tt m') -> awp (repair e) Q E m.
Proof.
  intros Hm Hc HQ. apply awp_bind, awp_try, awp_beginMutation.
  - intros m1 Hs. apply awp_ignore, awp_remove; [by apply (cacheInv_stable m)|by rewrite (proj1 Hs)|auto|auto].
  - intros m1 Hs _. apply HQ. by apply (cacheInv_stable m).
Qed.
End Invariant.

Lemma getReady_current ix key e : consistent ix -> getReady ix key = Some e -> current ix e /\ entCacheKey e = key.
Proof. intros Hc Hr%getReady_Some. by apply (row_current ix key). Qed.

Section Methods.
Context (keyDigest contentDigest : string -> string) (MaxBytes : Z) (ObjectPrefix : string).
Context (H : list (Identity * string)) (cap : Z).

Abbreviation inv := (cacheInv H cap).

Lemma inv_stable m m' : stable m m' -> inv m -> inv m'.
Proof. apply cacheInv_stable. Qed.

Lemma awp_validated i Q E m : Q tt m -> E m -> awp (validated i) Q E m.
Proof. intros HQ HE. unfold validated. by destruct (Validate i). Qed.

(** ** Reading *)

(** A hit gives what a [Put] of this key was given. *)
Lemma Get_inv now i m :
  inv m ->
  awp (Get now i)
    (fun r m' => inv m' /\ forall data e, r = Some (data, e) -> exists j, (j, data) ∈ H /\ plain j /\ CanonicalKey j = CanonicalKey i)
    inv m.
Proof.
  intros Hm. apply awp_bind, awp_validated; [|done]. apply awp_bind, awp_query.
  2:{ intros m1 Hs. by apply (inv_stable m). }
  intros m1 Hs. pose proof (inv_stable m m1 Hs Hm) as Hm1. rewrite <- (proj1 Hs).
  destruct (getReady (index m1) (CanonicalKey i)) as [e|] eqn:Hr.
  - apply awp_bind, awp_blobGet; [|intros m2 Hs2; by apply (inv_stable m1)].
    intros m2 Hs2. pose proof (inv_stable m1 m2 Hs2 Hm1) as Hm2.
    destruct (backend m1 !! entObjectKey e) as [data|] eqn:Hb.
    + apply awp_bind, awp_Writable. intros b m3 Hs3. pose proof (inv_stable m2 m3 Hs3 Hm2) as Hm3.
      apply awp_bind, awp_gets. apply awp_bind.
      assert (Hrest : forall m4, inv m4 -> awp (bump hits 1 ≫= (fun _ => mret (Some (data, e))))
        (fun r m' => inv m' /\ forall data e, r = Some (data, e) ->
           exists j, (j, data) ∈ H /\ plain j /\ CanonicalKey j = CanonicalKey i) inv m4).
      { intros m4 Hm4. apply awp_bind, awp_bump. intros m5 Hs5. apply awp_ret. split; [by apply (inv_stable m4)|].
        intros d e' [= <- <-]. apply (inv_authentic _ _ _ Hm1 (CanonicalKey i) e data); [by apply getReady_Some|done]. }
      destruct b; [|by apply awp_ret, Hrest].
      apply awp_set_accessed. intros m4 Hs4. apply Hrest. by apply (inv_stable m3).
    + apply awp_bind, (awp_repair H cap); [done| |].
      { rewrite (proj1 Hs2). eapply getReady_current; [apply Hm1|done]. }
      intros m3 Hm3. apply awp_bind, awp_bump. intros m4 Hs4. apply awp_bind, awp_bump. intros m5 Hs5.
      apply awp_ret. split; [|done]. eapply inv_stable; [done|]. by eapply inv_stable.
  - apply awp_bind, awp_bump. intros m2 Hs2. apply awp_ret. split; [by apply (inv_stable m1)|done].
Qed.

Lemma Exists_inv i m : inv m -> awp (Exists i) (fun _ => inv) inv m.
Proof.
  intros Hm. apply awp_bind, awp_validated; [|done]. apply awp_bind, awp_query.
  2:{ intros m1 Hs. by apply (inv_stable m). }
  intros m1 Hs. pose proof (inv_stable m m1 Hs Hm) as Hm1. rewrite <- (proj1 Hs).
  destruct (getReady (index m1) (CanonicalKey i)) as [e|] eqn:Hr; [|done].
  apply awp_bind, awp_blobGet; [|intros m2 Hs2; by apply (inv_stable m1)].
  intros m2 Hs2. pose proof (inv_stable m1 m2 Hs2 Hm1) as Hm2.
  destruct (backend m1 !! entObjectKey e) as [data|]; [done|].
  apply awp_bind, (awp_repair H cap); [done| |].
  { rewrite (proj1 Hs2). eapply getReady_current; [apply Hm1|done]. }
  intros m3 Hm3. apply awp_bind, awp_bump. intros m4 Hs4. by apply (inv_stable m3).
Qed.

(** ** Eviction *)

Definition bounded (check : string * string * Z) (delta : Z) (rows : gmap string tileRow) : Prop :=
  let '(st, id, quota) := check in 0 < quota -> (total rows (st, id)).1 + delta <= quota.

Lemma evictUntil_inv fuel st id i key delta quota m :
  inv m -> (size (tile_entries (index m)) < fuel)%nat ->
  awp (evictUntil fuel st id i key delta quota)
    (fun _ m' => inv m' /\ tile_entries (index m') ⊆ tile_entries (index m) /\
       tile_entries (index m') !! key = tile_entries (index m) !! key /\
       bounded (st, id, quota) delta (tile_entries (index m')))
    inv m.
Proof.
  revert m. induction fuel as [|fuel IH]; intros m Hm Hf; [lia|]. cbn [evictUntil].
  apply awp_bind, awp_query; [|intros m1 Hs; by apply (inv_stable m)].
  intros m1 Hs1. pose proof (inv_stable m m1 Hs1 Hm) as Hm1.
  destruct (_ <=? quota) eqn:Hq.
  { apply awp_ret. rewrite (proj1 Hs1). split_and!; [done|done|done|]. intros _.
    rewrite <- consistent_usage by apply Hm. by apply Z.leb_le. }
  apply awp_bind, awp_query; [|intros m2 Hs2; by apply (inv_stable m1)].
  intros m2 Hs2. pose proof (inv_stable m1 m2 Hs2 Hm1) as Hm2.
  destruct (lru _ _ _ _ _) as [e|] eqn:Hl; [|by apply awp_raise].
  apply lru_Some in Hl as [Hne [k Hk]].
  destruct (row_current _ _ _ (inv_consistent _ _ _ Hm1) Hk) as [Hc Hek].
  apply awp_bind, (awp_drop H cap); [done| |done]. intros m3 Hm3 Hi3.
  assert (Hix : index m3 = index m1) by (rewrite Hi3; apply Hs2).
  apply awp_bind, (awp_remove H cap); [done|by rewrite Hix| |done].
  intros m4 Hm4 Hrows. rewrite Hix, Hek in Hrows.
  apply awp_bind, awp_bump. intros m5 Hs5. apply awp_bind, awp_bump. intros m6 Hs6.
  assert (Hm6 : inv m6) by (eapply inv_stable; [done|]; by eapply inv_stable).
  assert (Hi6 : index m6 = index m4) by (destruct Hs5, Hs6; congruence).
  rewrite (proj1 Hs1) in Hrows, Hk. eapply awp_mono; [apply (IH m6 Hm6)| |done].
  - rewrite Hi6, Hrows. rewrite map_size_delete_Some by eauto. assert (size (tile_entries (index m)) <> 0)%nat; [|lia].
    intros Hz. apply map_size_empty_inv in Hz. rewrite Hz in Hk. by rewrite lookup_empty in Hk.
  - intros _ m7 (H1 & H2 & H3 & H4). rewrite Hi6, Hrows in H2, H3. split_and!; [done| |rewrite H3|done].
    + etrans; [exact H2|apply delete_subseteq].
    + rewrite lookup_delete_ne; [done|]. congruence.
Qed.

Lemma total_subseteq rows rows' s : wfRows rows -> rows' ⊆ rows -> (total rows' s).1 <= (total rows s).1.
Proof.
  intros Hw Hs. cbn. rewrite <- (map_difference_union rows' rows Hs).
  assert (Hd : rows' ##ₘ rows ∖ rows') by by apply map_disjoint_difference_r1.
  assert (Hsub : rows ∖ rows' ⊆ rows) by by apply map_subseteq_difference_l.
  revert Hd Hsub. generalize (rows ∖ rows') as d. intros d.
  induction d as [|k r d Hk IH] using map_ind; intros Hd Hsub.
  - rewrite map_union_empty. done.
  - apply map_disjoint_insert_r in Hd as [Hk' Hd].
    rewrite <- insert_union_r by done. rewrite map_sum_insert by (by apply lookup_union_None).
    assert (0 <= sizeIn s k r).
    { apply (sizeIn_nonneg rows); [done|]. eapply lookup_weaken; [apply lookup_insert_eq|exact Hsub]. }
    assert (map_sum (sizeIn s) rows' <= map_sum (sizeIn s) (rows' ∪ d)); [|lia].
    apply IH; [done|]. etrans; [|exact Hsub]. by apply insert_subseteq.
Qed.

Lemma bounded_subseteq check delta rows rows' :
  wfRows rows -> rows' ⊆ rows -> bounded check delta rows -> bounded check delta rows'.
Proof.
  destruct check as [[st id] quota]. intros Hw Hs Hb Hq. specialize (Hb Hq).
  pose proof (total_subseteq rows rows' (st, id) Hw Hs). lia.
Qed.

Lemma enforce_inv checks done_ i delta m :
  inv m -> Forall (fun c => bounded c delta (tile_entries (index m))) done_ ->
  awp (enforce checks i delta)
    (fun _ m' => inv m' /\ tile_entries (index m') !! CanonicalKey i = tile_entries (index m) !! CanonicalKey i /\
       Forall (fun c => bounded c delta (tile_entries (index m'))) (done_ ++ checks))
    inv m.
Proof.
  revert done_ m. induction checks as [|[[st id] quota] checks IH]; intros dn m Hm Hd; cbn [enforce].
  { apply awp_ret. by rewrite app_nil_r. }
  destruct (quota <=? 0) eqn:Hq.
  - eapply awp_mono; [apply (IH (dn ++ [(st, id, quota)]) m Hm)| |done].
    + apply Forall_app. split; [done|]. constructor; [|constructor]. intros Hpos. apply Z.leb_le in Hq. lia.
    + intros _ m' (? & ? & ?). rewrite <- app_assoc in *. done.
  - apply awp_bind, awp_gets, awp_bind, awp_try.
    eapply awp_mono; [apply evictUntil_inv; [done|unfold evictFuel; lia]| |].
    + intros _ m1 (Hm1 & Hsub & Hkey & Hb). eapply awp_mono; [apply (IH (dn ++ [(st, id, quota)]) m1 Hm1)| |done].
      * apply Forall_app. split; [|by constructor]. eapply Forall_impl; [exact Hd|].
        intros c. apply bounded_subseteq; [apply Hm|done].
      * intros _ m' (? & Hk & ?). rewrite <- app_assoc in *. rewrite Hk. done.
    + intros m1 Hm1 e. apply awp_bind, awp_bump. intros m2 Hs2. by apply (inv_stable m1).
Qed.

(** ** Storing *)

Lemma authentic_write ix ix' b b' i content key ob :
  authentic H ix b -> (i, content) ∈ H -> plain i -> CanonicalKey i = key ->
  objectKeyFree (tile_entries ix) key ob = true ->
  b' = b \/ b' = <[ob := content]> b ->
  (forall k e, tile_entries ix' !! k = Some (mkRow e ready) ->
     tile_entries ix !! k = Some (mkRow e ready) \/ k = key /\ entObjectKey e = ob /\ b' = <[ob := content]> b) ->
  authentic H ix' b'.
Proof.
  intros Ha Hin Hp Hkey Hfree Hb Hrows k e data Hk Hd. rewrite objectKeyFree_spec in Hfree.
  destruct (Hrows k e Hk) as [Hold|(-> & Hob & ->)].
  - destruct Hb as [->| ->]; [by apply (Ha k e)|].
    apply lookup_insert_Some in Hd as [[Hob <-]|[_ Hd]]; [|by apply (Ha k e)].
    destruct (decide (k = key)) as [->|Hne]; [eauto|]. exfalso. by apply (Hfree k _ Hold Hne).
  - rewrite Hob, lookup_insert_eq in Hd. injection Hd as <-. eauto.
Qed.

(** The share of the row that a write replaces. *)
Definition shareOf (s : scope) (previous : option Entry) : Z :=
  match previous with Some p => if inScope s p then SizeBytes p else 0 | None => 0 end.

Lemma total_ready rows key e s :
  (total (<[key := mkRow e ready]> rows) s).1
  = (total rows s).1 - (match rows !! key with Some (mkRow p ready) => if inScope s p then SizeBytes p else 0 | _ => 0 end)
    + (if inScope s e then SizeBytes e else 0).
Proof.
  rewrite total_write. cbn [fst]. rewrite sizeIn_ready. unfold total. cbn [fst].
  destruct (rows !! key) as [[p []]|]; [rewrite sizeIn_pending by done|rewrite sizeIn_ready|]; lia.
Qed.

Lemma total_pending rows key e s :
  (total (<[key := mkRow e pending]> rows) s).1
  = (total rows s).1 - (match rows !! key with Some (mkRow p ready) => if inScope s p then SizeBytes p else 0 | _ => 0 end).
Proof.
  rewrite total_write. cbn [fst]. assert (sizeIn s key (mkRow e pending) = 0) as -> by done. unfold total. cbn [fst].
  destruct (rows !! key) as [[p []]|]; [rewrite sizeIn_pending by done|rewrite sizeIn_ready|]; lia.
Qed.

Lemma shareOf_row s ix key :
  shareOf s (getReady ix key)
  = match tile_entries ix !! key with Some (mkRow p ready) => if inScope s p then SizeBytes p else 0 | _ => 0 end.
Proof. unfold getReady. by destruct (tile_entries ix !! key) as [[p []]|]. Qed.

Lemma shareOf_nonneg s ix key : wfRows (tile_entries ix) -> 0 <= shareOf s (getReady ix key).
Proof.
  intros Hw. destruct (getReady ix key) as [p|] eqn:Hr; [|done]. apply getReady_Some in Hr.
  destruct (wf_entry _ Hw _ _ Hr) as (_ & _ & _ & Hp). cbn in *. by destruct (inScope s p).
Qed.

(** The pending row: what it leaves of the invariant, with the payload written or not. *)
Lemma pending_inv now i content m m1 ix1 :
  inv m -> plain i -> (i, content) ∈ H ->
  markPending now (index m) (newEntry keyDigest contentDigest ObjectPrefix now i content)
    (getReady (index m) (CanonicalKey i)) = Some ix1 ->
  index m1 = ix1 ->
  backend m1 = backend m \/ backend m1 = <[ObjectKey keyDigest ObjectPrefix i := content]> (backend m) ->
  inv m1.
Proof.
  set (e := newEntry _ _ _ _ _ _). intros Hm Hp Hin Hmark Hi Hb.
  pose proof Hmark as Hmark'. unfold markPending in Hmark'. destruct (objectKeyFree _ _ _) eqn:Hfree; [|done].
  injection Hmark' as <-. split.
  - rewrite Hi. apply (markPending_consistent now (index m) e); [apply Hm| |done].
    split_and!; [done|done|done|]. cbn. unfold len. lia.
  - rewrite Hi. eapply (authentic_write (index m) _ (backend m)); [apply Hm|exact Hin|exact Hp|reflexivity|exact Hfree|exact Hb|].
    cbn [tile_entries]. intros k e' [[_ [=]]|[_ Hk]]%lookup_insert_Some. by left.
  - rewrite Hi. unfold within. cbn [tile_entries]. rewrite total_pending. change (entCacheKey e) with (CanonicalKey i).
    rewrite <- shareOf_row.
    pose proof (shareOf_nonneg globalScope (index m) (CanonicalKey i) (proj1 (inv_consistent _ _ _ Hm))).
    pose proof (inv_within _ _ _ Hm) as Hw. unfold within in Hw. lia.
Qed.

Lemma restore_inv now i content m m2 m3 ix1 ix' :
  inv m -> plain i -> (i, content) ∈ H ->
  markPending now (index m) (newEntry keyDigest contentDigest ObjectPrefix now i content)
    (getReady (index m) (CanonicalKey i)) = Some ix1 ->
  index m2 = ix1 -> inv m2 ->
  backend m2 = backend m \/ backend m2 = <[ObjectKey keyDigest ObjectPrefix i := content]> (backend m) ->
  restore ix1 (getReady (index m) (CanonicalKey i)) (CanonicalKey i) = Some ix' ->
  index m3 = ix' -> backend m3 = backend m2 -> inv m3.
Proof.
  set (e := newEntry _ _ _ _ _ _). intros Hm Hp Hin Hmark Hi2 Hm2 Hb Hrest Hi3 Hb3.
  pose proof Hmark as Hmark'. unfold markPending in Hmark'. destruct (objectKeyFree _ _ _) eqn:Hfree; [|done].
  injection Hmark' as Hix1.
  assert (Hrow : tile_entries ix1 !! CanonicalKey i = Some (mkRow (stamped e now now) pending))
    by (rewrite <- Hix1; apply lookup_insert_eq).
  assert (Hco : consistent ix').
  { eapply (restore_consistent ix1 _ (CanonicalKey i)); [rewrite <- Hi2; apply Hm2|exact Hrow|done| |done].
    intros p Hpr%getReady_Some. apply (wf_entry _ (proj1 (inv_consistent _ _ _ Hm)) _ _ Hpr). }
  assert (Hrows : tile_entries ix' = match getReady (index m) (CanonicalKey i) with
                                     | Some _ => tile_entries (index m)
                                     | None => delete (CanonicalKey i) (tile_entries (index m)) end).
  { rewrite <- Hix1 in Hrest. unfold restore in Hrest. cbn [tile_entries cache_usage] in Hrest.
    change (entCacheKey e) with (CanonicalKey i) in Hrest. rewrite delete_insert_eq in Hrest.
    destruct (getReady (index m) (CanonicalKey i)) as [p|] eqn:Hr; [|by injection Hrest as <-].
    pose proof (getReady_current _ _ _ (inv_consistent _ _ _ Hm) Hr) as [_ Hck]. rewrite Hck, lookup_delete_eq in Hrest.
    destruct (objectKeyFree _ _ _); [|done]. injection Hrest as <-. cbn.
    apply insert_delete_id. by apply getReady_Some. }
  split; rewrite Hi3; [done| |].
  - rewrite Hb3. eapply (authentic_write (index m) _ (backend m)); [apply Hm|exact Hin|exact Hp|reflexivity|exact Hfree|exact Hb|].
    rewrite Hrows. intros k e' Hk. left. destruct (getReady _ _); [done|]. by apply lookup_delete_Some in Hk as [_ Hk].
  - unfold within. rewrite Hrows. pose proof (inv_within _ _ _ Hm) as Hw. unfold within in Hw.
    destruct (getReady _ _); [done|]. etrans; [apply total_delete_le, Hm|done].
Qed.

(** What a completed write leaves. *)
Definition stored (i : Identity) (content : string) (m m' : Manager) : Prop :=
  (exists e, getReady (index m') (CanonicalKey i) = Some e /\ entIdentity e = i /\
     entObjectKey e = ObjectKey keyDigest ObjectPrefix i /\
     SizeBytes e = len content /\ ETag e = contentDigest content) /\
  backend m' !! ObjectKey keyDigest ObjectPrefix i = Some content /\
  forall s, s ∈ scopesOf i ->
    (total (tile_entries (index m')) s).1
    = (total (tile_entries (index m)) s).1 - shareOf s (getReady (index m) (CanonicalKey i)) + len content.

Lemma ready_inv now i content m m2 m3 ix1 ix' :
  inv m -> plain i -> (i, content) ∈ H ->
  (total (tile_entries (index m)) globalScope).1 - shareOf globalScope (getReady (index m) (CanonicalKey i))
    + len content <= cap ->
  markPending now (index m) (newEntry keyDigest contentDigest ObjectPrefix now i content)
    (getReady (index m) (CanonicalKey i)) = Some ix1 ->
  index m2 = ix1 -> inv m2 ->
  backend m2 = <[ObjectKey keyDigest ObjectPrefix i := content]> (backend m) ->
  markReady ix1 (newEntry keyDigest contentDigest ObjectPrefix now i content) = Some ix' ->
  index m3 = ix' -> backend m3 = backend m2 -> inv m3 /\ stored i content m m3.
Proof.
  set (e := newEntry _ _ _ _ _ _). intros Hm Hp Hin Hcap Hmark Hi2 Hm2 Hb Hready Hi3 Hb3.
  pose proof Hmark as Hmark'. unfold markPending in Hmark'. destruct (objectKeyFree _ _ _) eqn:Hfree; [|done].
  injection Hmark' as Hix1.
  assert (Hrow : tile_entries ix1 !! entCacheKey e = Some (mkRow (stamped e now now) pending))
    by (rewrite <- Hix1; apply lookup_insert_eq).
  assert (Hco : consistent ix').
  { apply (markReady_consistent ix1 e ix' (stamped e now now)); [rewrite <- Hi2; apply Hm2|exact Hrow|done| |done].
    cbn. unfold len. lia. }
  unfold markReady in Hready. rewrite Hrow in Hready. set (e' := mkEntry _ _ _ _ _ _ _) in Hready.
  assert (Hrows : tile_entries ix' = <[CanonicalKey i := mkRow e' ready]> (tile_entries (index m))).
  { injection Hready as <-. rewrite <- Hix1. cbn [tile_entries]. apply insert_insert_eq. }
  assert (Htot : forall s, s ∈ scopesOf i -> (total (tile_entries ix') s).1
    = (total (tile_entries (index m)) s).1 - shareOf s (getReady (index m) (CanonicalKey i)) + len content).
  { intros s Hs. rewrite Hrows, total_ready, shareOf_row.
    assert (inScope s e' = true) as -> by (by apply bool_decide_true). done. }
  split.
  - split; rewrite Hi3; [done| |].
    + rewrite Hb3. eapply (authentic_write (index m) _ (backend m));
        [apply Hm|exact Hin|exact Hp|reflexivity|exact Hfree|by right|].
      rewrite Hrows. intros k e0 [[<- [= <-]]|[_ Hk]]%lookup_insert_Some; [right; by split_and!|by left].
    + unfold within. rewrite Htot by left. exact Hcap.
  - unfold stored. rewrite Hi3, Hb3, Hb. split_and!.
    + exists e'. split_and!; [|done..]. apply getReady_Some. rewrite Hrows. apply lookup_insert_eq.
    + apply lookup_insert_eq.
    + exact Htot.
Qed.

Lemma store_inv now i content m :
  inv m -> plain i -> (i, content) ∈ H ->
  (total (tile_entries (index m)) globalScope).1 - shareOf globalScope (getReady (index m) (CanonicalKey i))
    + len content <= cap ->
  awp (store now (newEntry keyDigest contentDigest ObjectPrefix now i content) (getReady (index m) (CanonicalKey i)) content)
    (fun r m' => inv m' /\ r = true /\ stored i content m m') inv m.
Proof.
  set (e := newEntry _ _ _ _ _ _). intros Hm Hp Hin Hcap. apply awp_bind, awp_transact.
  2:{ intros m1 Hs. by apply (inv_stable m). }
  intros m1 ix1 Hmark Hi1 Hb1. apply awp_bind, awp_try, awp_blobPut.
  - intros m2 Hi2 Hb2. rewrite Hi1 in Hi2. rewrite Hb1 in Hb2.
    assert (Hm2 : inv m2) by (eapply pending_inv; eauto).
    apply awp_bind, awp_try, awp_transact.
    + intros m3 ix' Hr Hi3 Hb3. rewrite Hi2 in Hr.
      destruct (ready_inv now i content m m2 m3 ix1 ix') as [Hm3 Hst]; auto.
      apply awp_bind, awp_bump. intros m4 Hs4. apply awp_ret. split_and!; [by apply (inv_stable m3)|done|].
      destruct Hs4 as [Hi4 Hb4]. unfold stored in *. by rewrite Hi4, Hb4.
    + intros m3 Hs3 err. assert (Hm3 : inv m3) by (by apply (inv_stable m2)).
      assert (Hpend : forall m', tile_entries (index m') = tile_entries ix1 -> current (index m') e).
      { intros m' Hr r Hk Hrd. rewrite Hr in Hk. unfold markPending in Hmark.
        destruct (objectKeyFree _ _ _); [|done]. injection Hmark as <-. cbn in Hk.
        rewrite lookup_insert_eq in Hk. by injection Hk as <-. }
      apply awp_bind, awp_ignore, (awp_drop H cap); [done| |]; intros m4 Hm4 Hi4;
        (apply awp_bind, awp_ignore, (awp_remove H cap);
         [done|apply Hpend; rewrite Hi4; destruct Hs3 as [-> _]; by rewrite Hi2| |];
         intros m5 Hm5 _; apply awp_bind, awp_bump; intros m6 Hs6; by apply (inv_stable m5)).
  - intros m2 Hi2 Hb2 err. rewrite Hi1 in Hi2. rewrite Hb1 in Hb2.
    assert (Hm2 : inv m2) by (eapply pending_inv; eauto).
    apply awp_bind, awp_ignore, awp_transact.
    + intros m3 ix' Hr Hi3 Hb3. rewrite Hi2 in Hr.
      assert (Hm3 : inv m3) by (eapply (restore_inv now i content m m2 m3 ix1 ix'); eauto).
      apply awp_bind, awp_bump. intros m4 Hs4. by apply (inv_stable m3).
    + intros m3 Hs3. apply awp_bind, awp_bump. intros m4 Hs4. apply (inv_stable m3); [done|]. by apply (inv_stable m2).
Qed.

Definition sizeOf (previous : option Entry) : Z := match previous with Some p => SizeBytes p | None => 0 end.

(** A row of this key is counted in the scopes of this identity. *)
Lemma shareOf_same s ix i :
  wfRows (tile_entries ix) -> plain i -> s ∈ scopesOf i ->
  shareOf s (getReady ix (CanonicalKey i)) = sizeOf (getReady ix (CanonicalKey i)).
Proof.
  intros Hw Hp Hs. destruct (getReady ix (CanonicalKey i)) as [p|] eqn:Hr; [|done]. cbn.
  apply getReady_Some in Hr. destruct (wf_entry _ Hw _ _ Hr) as (_ & Hk & Hpl & _). cbn in Hk, Hpl.
  pose proof (CanonicalKey_sameTile _ _ Hpl Hp Hk) as Ht. unfold sameTile in Ht. injection Ht as Hws ? Hre ? ? ? ? ? ? ? ? ?.
  assert (inScope s p = true) as ->; [|done]. apply bool_decide_true. unfold scopesOf in *. by rewrite Hws, Hre.
Qed.

Lemma getReady_row ix ix' key : tile_entries ix' !! key = tile_entries ix !! key -> getReady ix' key = getReady ix key.
Proof. intros He. unfold getReady. by rewrite He. Qed.

Lemma checks_in_scope i policy st id q :
  (st, id, q) ∈ quotaChecks MaxBytes i policy -> (st, id) ∈ scopesOf i.
Proof.
  unfold quotaChecks, scopesOf. rewrite !elem_of_cons, elem_of_nil.
  intros [[= -> -> ->]|[[= -> -> ->]|[[= -> -> ->]|[]]]]; auto 10.
Qed.

(** What a write that returns [true] leaves: the tile, and the quotas when it grew. *)
Definition putDone (i : Identity) (content : string) (policy : Policy) (m m' : Manager) : Prop :=
  (exists e, getReady (index m') (CanonicalKey i) = Some e /\ entIdentity e = i /\
     entObjectKey e = ObjectKey keyDigest ObjectPrefix i /\
     SizeBytes e = len content /\ ETag e = contentDigest content) /\
  backend m' !! ObjectKey keyDigest ObjectPrefix i = Some content /\
  (sizeOf (getReady (index m) (CanonicalKey i)) < len content ->
   forall st id quota, (st, id, quota) ∈ quotaChecks MaxBytes i policy -> 0 < quota -> (usage (index m') st id).1 <= quota).

Lemma Put_inv now i content policy m :
  0 < MaxBytes -> cap = MaxBytes -> inv m -> plain i -> (i, content) ∈ H ->
  awp (Put keyDigest contentDigest MaxBytes ObjectPrefix now i content policy)
    (fun r m' => inv m' /\ (r = true -> putDone i content policy m m')) inv m.
Proof.
  intros Hmax Hcap Hm Hp Hin. apply awp_bind, awp_validated; [|done]. apply awp_bind, awp_try, awp_beginMutation.
  2:{ intros m1 Hs e. apply awp_bind, awp_bump. intros m2 Hs2. apply (inv_stable m1); [done|]. by apply (inv_stable m). }
  intros m1 Hs1. pose proof (inv_stable m m1 Hs1 Hm) as Hm1. destruct (existsb _ _).
  { apply awp_bind, awp_bump. intros m2 Hs2. apply awp_ret. split; [by apply (inv_stable m1)|done]. }
  apply awp_bind, awp_query; [|intros m2 Hs2; by apply (inv_stable m1)].
  intros m2 Hs2. pose proof (inv_stable m1 m2 Hs2 Hm1) as Hm2. cbv zeta.
  assert (Hix : index m2 = index m) by (destruct Hs1, Hs2; congruence).
  rewrite <- (proj1 Hs2).
  fold (sizeOf (getReady (index m2) (CanonicalKey i))). set (delta := len content - _).
  apply awp_bind.
  assert (Hstore : forall m3, inv m3 ->
    tile_entries (index m3) !! CanonicalKey i = tile_entries (index m2) !! CanonicalKey i ->
    (0 < delta -> Forall (fun c => bounded c delta (tile_entries (index m3))) (quotaChecks MaxBytes i policy)) ->
    awp (store now (newEntry keyDigest contentDigest ObjectPrefix now i content) (getReady (index m2) (CanonicalKey i)) content)
      (fun r m' => inv m' /\ (r = true -> putDone i content policy m m')) inv m3).
  { intros m3 Hm3 Hrow Hq. rewrite <- (getReady_row _ _ _ Hrow).
    assert (Hw3 : wfRows (tile_entries (index m3))) by apply Hm3.
    assert (Hsh : forall s, s ∈ scopesOf i -> (total (tile_entries (index m3)) s).1
      - shareOf s (getReady (index m3) (CanonicalKey i)) + len content = (total (tile_entries (index m3)) s).1 + delta).
    { intros s Hs. rewrite shareOf_same by done. unfold delta. rewrite (getReady_row _ _ _ Hrow). lia. }
    eapply awp_mono; [apply store_inv; [done|done|done|]| |done].
    - rewrite Hsh by left. pose proof (inv_within _ _ _ Hm3) as Hw. unfold within in Hw.
      destruct (Z.ltb_spec 0 delta) as [Hd|Hd]; [|lia]. specialize (Hq Hd).
      rewrite Forall_forall in Hq. specialize (Hq ("global", "global", MaxBytes)).
      rewrite Hcap. apply Hq; [|done]. right. right. left.
    - intros r m4 (Hm4 & _ & Hst & Hb & Htot). split; [done|]. intros _. unfold putDone. split_and!; [done|done|].
      intros Hgrow st id quota Hc Hpos. rewrite consistent_usage by apply Hm4.
      pose proof (checks_in_scope _ _ _ _ _ Hc) as Hs. rewrite Htot, Hsh by done.
      assert (Hd : 0 < delta) by (unfold delta; rewrite Hix; lia).
      specialize (Hq Hd). rewrite Forall_forall in Hq. by apply (Hq _ Hc). }
  destruct (Z.ltb_spec 0 delta) as [Hd|Hd].
  - eapply awp_mono; [apply (enforce_inv _ [] i delta m2 Hm2); constructor| |done].
    intros _ m3 (Hm3 & Hrow & Hb). apply Hstore; [done|done|]. intros _. exact Hb.
  - apply awp_ret, Hstore; [done|done|lia].
Qed.

(** ** Deleting *)

Definition never : Manager -> Prop := fun _ => False.

Lemma removeAll_inv entries result m :
  inv m -> NoDup (entCacheKey <$> entries) ->
  (forall e, e ∈ entries -> tile_entries (index m) !! entCacheKey e = Some (mkRow e ready)) ->
  awp (removeAll entries result)
    (fun out m' => inv m' /\ tile_entries (index m') ⊆ tile_entries (index m) /\
       (out.2 = None -> forall e, e ∈ entries -> tile_entries (index m') !! entCacheKey e = None) /\
       (forall k, k ∉ entCacheKey <$> entries -> tile_entries (index m') !! k = tile_entries (index m) !! k)) never m.
Proof.
  revert result m. induction entries as [|e entries IH]; intros result m Hm Hn Hrow; cbn [removeAll].
  { apply awp_ret. split_and!; [done|done| |done]. intros _ e He. by apply elem_of_nil in He. }
  apply NoDup_cons in Hn as [He Hn].
  destruct (row_current _ _ _ (inv_consistent _ _ _ Hm) (Hrow e ltac:(left))) as [Hc _].
  apply awp_bind, awp_try, (awp_remove H cap); [done|done| |].
  - intros m1 Hm1 Hr1. eapply awp_mono; [apply (IH _ m1 Hm1 Hn)| |done].
    + intros e' He'. rewrite Hr1, lookup_delete_ne; [apply Hrow; by right|].
      intros Heq. apply He. rewrite Heq. by apply list_elem_of_fmap_2.
    + intros out m2 (Hm2 & Hsub & Hnone & Hkeep). split_and!; [done| | |].
      * etrans; [exact Hsub|]. rewrite Hr1. apply delete_subseteq.
      * intros Ho e' [->|He']%elem_of_cons; [|by apply Hnone].
        apply (lookup_weaken_None _ (tile_entries (index m1))); [|done]. rewrite Hr1. apply lookup_delete_eq.
      * intros k [Hk1 Hk2]%not_elem_of_cons. rewrite Hkeep, Hr1 by done. by apply lookup_delete_ne.
  - intros m1 Hm1 Hs1 err. apply awp_ret. destruct Hs1 as [Hi1 _]. by rewrite Hi1.
Qed.

Lemma map_size_lt (rows rows' : gmap string tileRow) k r :
  rows' ⊆ rows -> rows !! k = Some r -> rows' !! k = None -> (size rows' < size rows)%nat.
Proof.
  intros Hsub Hk Hn. apply map_subset_size, map_subset_alt. split; [done|]. exists k. by rewrite Hk.
Qed.

(** Ready rows that the selector does not match are still there. *)
Definition unselected_kept (selector : Selector) (ix ix' : metadataIndex) : Prop :=
  forall k e, tile_entries ix !! k = Some (mkRow e ready) -> selects selector e = false ->
  tile_entries ix' !! k = Some (mkRow e ready).

Lemma deleteLoop_inv fuel selector result m :
  inv m -> (size (tile_entries (index m)) < fuel)%nat ->
  awp (deleteLoop fuel selector result)
    (fun out m' => inv m' /\ tile_entries (index m') ⊆ tile_entries (index m) /\
       (out.2 = None -> forall k e, tile_entries (index m') !! k = Some (mkRow e ready) -> selects selector e = false) /\
       unselected_kept selector (index m) (index m'))
    never m.
Proof.
  revert result m. induction fuel as [|fuel IH]; intros result m Hm Hf; [lia|]. cbn [deleteLoop].
  apply awp_bind, awp_try, awp_query.
  2:{ intros m1 Hs e. apply awp_ret. split_and!; [by apply (inv_stable m)|by rewrite (proj1 Hs)|done|].
      unfold unselected_kept. by rewrite (proj1 Hs). }
  intros m1 Hs1. pose proof (inv_stable m m1 Hs1 Hm) as Hm1. destruct Hs1 as [Hi1 _]. rewrite <- Hi1 in *.
  destruct (selectEntries (index m1) selector batchLimit) as [|e0 es] eqn:Hsel.
  { apply awp_ret. split_and!; [done|done| |by intros k e].
    intros _. by apply (selectEntries_nil (index m1) selector batchLimit); [unfold batchLimit; lia|]. }
  assert (Hmatch : forall e, e ∈ e0 :: es -> selects selector e = true).
  { intros e He. rewrite <- Hsel in He. by apply elem_of_selectEntries in He as [? _]. }
  assert (Hrow : forall e, e ∈ e0 :: es -> tile_entries (index m1) !! entCacheKey e = Some (mkRow e ready)).
  { intros e He. rewrite <- Hsel in He. apply elem_of_selectEntries in He as [_ [k Hk]].
    destruct (row_current _ _ _ (inv_consistent _ _ _ Hm1) Hk) as [_ ->]. done. }
  assert (Hnd : NoDup (entCacheKey <$> (e0 :: es))).
  { rewrite <- Hsel. unfold selectEntries. rewrite fmap_take. eapply sublist_NoDup; [|apply sublist_take].
    rewrite (merge_sort_Permutation byCacheKey). apply rowsWhere_keys_NoDup, Hm1. }
  clear Hsel. apply awp_bind, awp_try, (awp_drop H cap); [done| |].
  2:{ intros m2 Hm2 Hi2 err. apply awp_ret. unfold unselected_kept. by rewrite Hi2. }
  intros m2 Hm2 Hi2. apply awp_bind. rewrite <- Hi2 in *. eapply awp_mono; [by apply removeAll_inv| |done].
  intros [res err] m3 (Hm3 & Hsub & Hnone & Hkeep). cbn in Hnone.
  assert (Hkept : unselected_kept selector (index m2) (index m3)).
  { intros k e Hk Hs. rewrite Hkeep; [done|]. intros (e' & -> & He')%list_elem_of_fmap.
    rewrite Hrow in Hk by done. injection Hk as ->. by rewrite Hmatch in Hs. }
  destruct err as [err|]; [by apply awp_ret|]. specialize (Hnone eq_refl). eapply awp_mono; [apply (IH res m3 Hm3)| |done].
  - enough (size (tile_entries (index m3)) < size (tile_entries (index m2)))%nat by lia.
    eapply (map_size_lt _ _ (entCacheKey e0)); [done|apply Hrow; left|apply Hnone; left].
  - intros out m4 (? & ? & ? & Hk4). split_and!; [done|by etrans|done|].
    intros k e Hk Hs. apply Hk4; [by apply Hkept|done].
Qed.

Lemma deleteSelected_inv selector m :
  inv m ->
  awp (deleteSelected selector)
    (fun out m' => inv m' /\ tile_entries (index m') ⊆ tile_entries (index m) /\
       (out.2 = None -> forall k e, tile_entries (index m') !! k = Some (mkRow e ready) -> selects selector e = false) /\
       unselected_kept selector (index m) (index m'))
    never m.
Proof. intros Hm. apply awp_bind, awp_gets, deleteLoop_inv; [done|unfold evictFuel; lia]. Qed.

Lemma Delete_exact selector m :
  inv m ->
  awp (Delete selector)
    (fun out m' => inv m' /\ tile_entries (index m') ⊆ tile_entries (index m) /\
       (out.2 = None -> forall k e, tile_entries (index m') !! k = Some (mkRow e ready) -> selects selector e = false) /\
       unselected_kept selector (index m) (index m'))
    never m.
Proof.
  intros Hm. apply awp_bind, awp_try, awp_beginMutation.
  - intros m1 Hs1. rewrite <- (proj1 Hs1). apply deleteSelected_inv; by apply (inv_stable m).
  - intros m1 Hs1 e. apply awp_ret. unfold unselected_kept. rewrite (proj1 Hs1).
    split_and!; [by apply (inv_stable m)|done|done|done].
Qed.

Lemma DeleteIdentity_inv i m : inv m -> awp (DeleteIdentity i) (fun _ => inv) inv m.
Proof.
  intros Hm. apply awp_bind, awp_validated; [|done]. apply awp_bind, awp_beginMutation; [|intros; by apply (inv_stable m)].
  intros m1 Hs1. pose proof (inv_stable m m1 Hs1 Hm) as Hm1. apply awp_bind, awp_query; [|intros; by apply (inv_stable m1)].
  intros m2 Hs2. pose proof (inv_stable m1 m2 Hs2 Hm1) as Hm2. rewrite <- (proj1 Hs2).
  destruct (getReady _ _) as [e|] eqn:Hr; [|done].
  apply awp_bind, (awp_drop H cap); [done| |done]. intros m3 Hm3 Hi3.
  apply awp_bind, (awp_remove H cap); [done| |done|done].
  rewrite Hi3. eapply getReady_current; [apply Hm2|done].
Qed.

(** ** Maintenance *)

Lemma reconcileLoop_inv entries m :
  inv m -> (forall e r, e ∈ entries -> tile_entries (index m) !! entCacheKey e = Some r -> isReady r = false) ->
  awp (reconcileLoop entries) (fun _ => inv) inv m.
Proof.
  revert m. induction entries as [|e entries IH]; intros m Hm Hp; cbn [reconcileLoop]; [done|].
  assert (Hrest : forall m1, inv m1 -> index m1 = index m ->
    awp (transact (fun ix => Some (remove ix e)) ≫= fun _ => bump orphans 1 ≫= fun _ => reconcileLoop entries)
      (fun _ => inv) inv m1).
  { intros m1 Hm1 Hi1. apply awp_bind, (awp_remove H cap); [done| | |done].
    - intros r Hr Hrd. rewrite Hi1 in Hr. rewrite (Hp e r ltac:(left) Hr) in Hrd. done.
    - intros m2 Hm2 Hr2. apply awp_bind, awp_bump. intros m3 Hs3. apply IH; [by apply (inv_stable m2)|].
      intros e' r He' Hr. rewrite (proj1 Hs3), Hr2, Hi1 in Hr. apply lookup_delete_Some in Hr as [_ Hr].
      apply (Hp e'); [by right|done]. }
  apply awp_bind, awp_ignore, (awp_drop H cap); [done|auto|auto].
Qed.

Lemma reconcile_inv m : inv m -> awp reconcile (fun _ => inv) inv m.
Proof.
  intros Hm. apply awp_bind, awp_beginMutation; [|intros; by apply (inv_stable m)].
  intros m1 Hs1. pose proof (inv_stable m m1 Hs1 Hm) as Hm1. apply awp_bind, awp_query; [|intros; by apply (inv_stable m1)].
  intros m2 Hs2. pose proof (inv_stable m1 m2 Hs2 Hm1) as Hm2. apply reconcileLoop_inv; [done|].
  intros e r He Hr. apply elem_of_nonReady in He as [k Hk]. rewrite <- (proj1 Hs2) in Hk.
  destruct (wf_entry _ (proj1 (inv_consistent _ _ _ Hm2)) _ _ Hk) as (Hck & _). cbn in Hck.
  rewrite Hck, Hk in Hr. by injection Hr as <-.
Qed.

Lemma flushAccess_inv m : inv m -> awp flushAccess (fun _ => inv) inv m.
Proof.
  intros Hm. apply awp_bind, awp_try, awp_beginMutation; [|intros m1 Hs1 e; by apply (inv_stable m)].
  intros m1 Hs1. pose proof (inv_stable m m1 Hs1 Hm) as Hm1. apply awp_bind, awp_gets, awp_bind, awp_set_accessed.
  intros m2 Hs2. pose proof (inv_stable m1 m2 Hs2 Hm1) as Hm2. case_decide; [done|].
  apply awp_bind, awp_try, awp_transact.
  - intros m3 ix [= <-] Hi3 Hb3. apply awp_ret. destruct Hm2 as [Hco Ha Hw]. split; rewrite ?Hi3, ?Hb3.
    + by apply updateAccess_consistent.
    + intros k e data Hk Hd. apply updateAccess_lookup in Hk as ([e0 st] & Hk & Hst & _ & Hob & _).
      cbn in *. subst st. rewrite Hob in Hd. by apply (Ha k e0).
    + unfold within in *. pose proof (updateAccess_consistent (index m2) (accessed m1) Hco) as [_ Hu].
      rewrite <- (Hu globalScope). cbn [updateAccess cache_usage]. by rewrite (proj2 Hco globalScope).
  - intros m3 Hs3 e. apply awp_bind, awp_gets, awp_set_accessed. intros m4 Hs4.
    apply (inv_stable m3); [done|]. by apply (inv_stable m2).
Qed.

(** ** Purging a scope *)

Definition gone (workspaceID resourceID : string) (rows : gmap string tileRow) : Prop :=
  forall k e, rows !! k = Some (mkRow e ready) -> selects (lifecycleSelector workspaceID resourceID) e = false.

Definition purged (workspaceID : string) (resourceIDs : list string) (rows : gmap string tileRow) : Prop :=
  match resourceIDs with [] => gone workspaceID "" rows | _ => Forall (fun r => gone workspaceID r rows) resourceIDs end.

Lemma gone_subseteq w r rows rows' : rows' ⊆ rows -> gone w r rows -> gone w r rows'.
Proof. intros Hs Hg k e Hk. apply (Hg k). by apply (lookup_weaken rows' rows). Qed.

Lemma lifecycle_selects w r e :
  WorkspaceID (entIdentity e) = w -> r = "" \/ ResourceID (entIdentity e) = r ->
  selects (lifecycleSelector w r) e = true.
Proof.
  intros Hw Hr. unfold selects, isSet. cbn. rewrite Hw, String.eqb_refl.
  destruct Hr as [-> | ->]; [by rewrite orb_true_r|by rewrite String.eqb_refl, !orb_true_r].
Qed.

Lemma total_zero rows s :
  (forall k e, rows !! k = Some (mkRow e ready) -> inScope s e = false) -> total rows s = (0, 0).
Proof.
  intros Hs. unfold total. rewrite !map_sum_zero; [done| |]; intros k [e []] Hk; try done;
    [rewrite countIn_ready|rewrite sizeIn_ready]; by rewrite (Hs k e Hk).
Qed.

Lemma inScope_resource e id :
  inScope ("resource", id) e = true -> id = resourceScope (WorkspaceID (entIdentity e)) (ResourceID (entIdentity e)).
Proof.
  unfold inScope, scopesOf. intros Hs%bool_decide_eq_true. rewrite !elem_of_cons, elem_of_nil in Hs.
  destruct Hs as [[=]|[[=]|[[= ->]|[]]]]. done.
Qed.

Lemma inScope_workspace e id : inScope ("workspace", id) e = true -> id = WorkspaceID (entIdentity e).
Proof.
  unfold inScope, scopesOf. intros Hs%bool_decide_eq_true. rewrite !elem_of_cons, elem_of_nil in Hs.
  destruct Hs as [[=]|[[= ->]|[[=]|[]]]]. done.
Qed.

(** The workspace of a resource's scope can be read off when it has no separator. *)
Lemma resourceScope_workspace w w' r r' :
  has_byte ":" w = false -> has_byte ":" w' = false -> resourceScope w r = resourceScope w' r' -> w = w' /\ r = r'.
Proof.
  intros Hw Hw' He. apply (f_equal (cut ":")) in He. unfold resourceScope in He.
  change (":" +:+ r) with (String ":" r) in He. change (":" +:+ r') with (String ":" r') in He.
  rewrite !cut_app in He by done. by injection He.
Qed.

(** Counters of an empty scope may be dropped. *)
Lemma cacheInv_usage m m' :
  inv m -> backend m' = backend m -> tile_entries (index m') = tile_entries (index m) ->
  (forall s, cache_usage (index m') !! s = cache_usage (index m) !! s \/
     cache_usage (index m') !! s = None /\
     forall k e, tile_entries (index m) !! k = Some (mkRow e ready) -> inScope s e = false) ->
  inv m'.
Proof.
  intros Hm Hb Hr Hu. destruct Hm as [[Hw Hx] Ha Hc]. split.
  - split; rewrite ?Hr; [done|]. intros s. rewrite Hr. destruct (Hu s) as [->|[-> Hz]]; [apply Hx|]. by rewrite total_zero.
  - rewrite Hb. intros k e d. rewrite Hr. apply Ha.
  - unfold within. by rewrite Hr.
Qed.

Lemma purgeUsageOf_inv w ids m :
  has_byte ":" w = false -> inv m -> Forall (fun r => gone w r (tile_entries (index m))) ids ->
  awp (purgeUsageOf w ids) (fun _ m' => inv m' /\ tile_entries (index m') = tile_entries (index m)) inv m.
Proof.
  intros Hw. revert m. induction ids as [|r ids IH]; intros m Hm Hg; cbn [purgeUsageOf]; [done|].
  apply Forall_cons in Hg as [Hr Hg]. apply awp_bind, awp_transact; [|intros; by apply (inv_stable m)].
  intros m1 ix [= <-] Hi Hb. assert (Hrows : tile_entries (index m1) = tile_entries (index m)) by by rewrite Hi.
  rewrite <- Hrows. apply IH; [|by rewrite Hi].
  apply (cacheInv_usage m); [done|done|by rewrite Hi|]. intros s. rewrite Hi. cbn [purgeResourceUsage cache_usage].
  destruct (decide (s = ("resource", resourceScope w r))) as [->|Hne].
  - right. split; [apply lookup_delete_eq|]. intros k e Hk. apply not_true_iff_false. intros Hs%inScope_resource.
    destruct (wf_entry _ (proj1 (inv_consistent _ _ _ Hm)) _ _ Hk) as (_ & _ & (Hcol & _) & _). cbn in Hcol.
    apply resourceScope_workspace in Hs as [-> ->]; [|done..].
    specialize (Hr k e Hk). rewrite lifecycle_selects in Hr; [done|done|by right].
  - left. by apply lookup_delete_ne.
Qed.

Lemma prefix_workspace w w' r : has_byte ":" w = false -> has_byte ":" w' = false ->
  HasPrefix (resourceScope w' r) (w +:+ ":") = true -> w = w'.
Proof.
  unfold HasPrefix, resourceScope. revert w'. induction w as [|c w IH]; intros [|c' w'] Hw Hw' Hp; try done.
  - change ("" +:+ ":") with (String ":" "") in Hp. rewrite sapp_cons in Hp. cbn [String.prefix] in Hp.
    destruct (ascii_dec ":" c') as [<-|]; [|done]. by cbn in Hw'.
  - rewrite sapp_cons in Hp. change ("" +:+ ":" +:+ r) with (String ":" r) in Hp. cbn [String.prefix] in Hp.
    destruct (ascii_dec c ":") as [->|]; [|done]. by cbn in Hw.
  - rewrite !sapp_cons in Hp. cbn [String.prefix] in Hp. destruct (ascii_dec c c') as [->|]; [|done].
    cbn [has_byte] in Hw, Hw'. apply orb_false_iff in Hw as [_ Hw], Hw' as [_ Hw']. f_equal. by apply IH.
Qed.

Lemma purgeLifecycleUsage_inv w ids m :
  has_byte ":" w = false -> inv m ->
  purged w ids (tile_entries (index m)) ->
  awp (purgeLifecycleUsage w ids) (fun _ m' => inv m' /\ tile_entries (index m') = tile_entries (index m)) inv m.
Proof.
  intros Hw Hm Hg. destruct ids as [|r ids]; [|by apply purgeUsageOf_inv].
  apply awp_transact; [|intros; by apply (inv_stable m)]. intros m1 ix [= <-] Hi Hb. split; [|by rewrite Hi].
  apply (cacheInv_usage m); [done|done|by rewrite Hi|]. intros [st id]. rewrite Hi. cbn [purgeWorkspaceUsage cache_usage].
  destruct ((String.eqb st "workspace" && String.eqb id w) || (String.eqb st "resource" && HasPrefix id (w +:+ ":"))) eqn:Hsel.
  - right. split.
    + apply map_lookup_filter_None. right. intros x _ Hx. cbn [fst snd] in Hx. congruence.
    + intros k e Hk. apply not_true_iff_false. intros Hs.
      destruct (wf_entry _ (proj1 (inv_consistent _ _ _ Hm)) _ _ Hk) as (_ & _ & (Hcol & _) & _). cbn in Hcol.
      assert (Hwe : WorkspaceID (entIdentity e) = w).
      { apply orb_true_iff in Hsel as [Hsel|Hsel]; apply andb_true_iff in Hsel as [Hst Hid]; apply String.eqb_eq in Hst; subst st.
        - apply String.eqb_eq in Hid as ->. by apply inScope_workspace in Hs.
        - apply inScope_resource in Hs as ->. symmetry. by eapply prefix_workspace. }
      specialize (Hg k e Hk). by rewrite lifecycle_selects in Hg by auto.
  - left. destruct (cache_usage (index m) !! (st, id)) as [v|] eqn:Hv.
    + apply map_lookup_filter_Some. by split.
    + apply map_lookup_filter_None. by left.
Qed.

Lemma purgeResources_inv w ids done_ result m :
  inv m -> Forall (fun r => gone w r (tile_entries (index m))) done_ ->
  awp (purgeResources w ids result)
    (fun out m' => inv m' /\ (out.2 = None -> Forall (fun r => gone w r (tile_entries (index m'))) (done_ ++ ids))) never m.
Proof.
  revert done_ result m. induction ids as [|r ids IH]; intros dn result m Hm Hd; cbn [purgeResources].
  { apply awp_ret. by rewrite app_nil_r. }
  apply awp_bind. eapply awp_mono; [by apply deleteSelected_inv| |done].
  intros [d [err|]] m1 (Hm1 & Hsub & Hg & _); cbn in Hg; [by apply awp_ret|]. specialize (Hg eq_refl).
  eapply awp_mono; [apply (IH (dn ++ [r]) _ m1 Hm1)| |done].
  - apply Forall_app. split; [|by constructor]. eapply Forall_impl; [exact Hd|]. intros x. by apply gone_subseteq.
  - intros out m2. by rewrite <- app_assoc.
Qed.

Lemma PurgeLifecycle_inv w ids m :
  has_byte ":" w = false -> inv m -> 
  awp (PurgeLifecycle w ids) (fun out m' => inv m' /\ (out.2 = None -> purged w ids (tile_entries (index m')))) inv m.
Proof.
  intros Hw Hm. apply awp_bind, awp_try, awp_beginMutation; [|intros m1 Hs1 e; apply awp_ret; split; [by apply (inv_stable m)|done]].
  intros m1 Hs1. pose proof (inv_stable m m1 Hs1 Hm) as Hm1. apply awp_bind.
  assert (Hpay : awp (purgePayloads w ids) (fun out m' => inv m' /\ (out.2 = None ->
      purged w ids (tile_entries (index m'))))
      inv m1).
  { destruct ids as [|r ids]; unfold purgePayloads.
    - apply awp_bind. eapply awp_mono; [by apply deleteSelected_inv| |done].
      intros [d [err|]] m2 (Hm2 & _ & Hg & _); apply awp_ret; split; [done|done|done|]. intros _. exact (Hg eq_refl).
    - eapply awp_mono; [by apply (purgeResources_inv w (r :: ids) [])| |done]. done. }
  eapply awp_mono; [exact Hpay| |done]. intros [res [err|]] m2 [Hm2 Hg]; [done|]. specialize (Hg eq_refl).
  apply awp_bind, awp_try, awp_bind, awp_nextFault. intros [|ks] m3 Hs3.
  2:{ intros e. apply awp_ret. split; [by apply (inv_stable m2)|done]. }
  pose proof (inv_stable m2 m3 Hs3 Hm2) as Hm3. apply awp_bind, awp_gets.
  destruct (purgeLifecycleJobs (jobs m3) w ids) as [[e|n] t']; [apply awp_raise; intros ?; by apply awp_ret|].
  apply awp_bind, awp_set_jobs. intros m4 Hs4. pose proof (inv_stable m3 m4 Hs4 Hm3) as Hm4.
  apply awp_ret, awp_bind, awp_try. eapply awp_mono; [apply purgeLifecycleUsage_inv; [done|done|]| |].
  - by rewrite (proj1 Hs4), (proj1 Hs3).
  - intros [] m5 [Hm5 Hr5]. apply awp_ret. split; [done|]. intros _. by rewrite Hr5, (proj1 Hs4), (proj1 Hs3).
  - intros m5 Hm5 e. by apply awp_ret.
Qed.
End Methods.
