(* ===== verification/TileCacheTheorems.v ===== *)
(** * The persistent tile cache: main theorems

    A run is a sequence of the manager's methods, each with the failures of the calls
    it makes; a process that stops in the middle of a method is one whose remaining
    calls fail. In an interleaved run the reads are split where they give up control:
    between the lookup of the entry, the fetch of the payload and the repair. *)

From S2P Require Import Prelude GoText TileIndex TileIndexCorrect TileJobs TileManager TileManagerCorrect.

Inductive cacheOp : Type :=
| OpGet (now : Z) (i : Identity)
| OpExists (i : Identity)
| OpPut (now : Z) (i : Identity) (content : string) (policy : Policy)
| OpDelete (selector : Selector)
| OpDeleteIdentity (i : Identity)
| OpReconcile
| OpFlush
| OpPurge (workspaceID : string) (resourceIDs : list string).

Definition with_faults (fs : list fault) (m : Manager) : Manager :=
  mkManager (index m) (backend m) (jobs m) (accessed m) (counters m) fs.

(** A manager over a new index. The blob store may hold anything. *)
Definition newManager (b : gmap string string) (t : jobTables) : Manager := mkManager emptyIndex b t ∅ (fun _ => 0) [].

(** One more write in the history. *)
Lemma cacheInv_cons H cap m fs i content : cacheInv H cap m -> cacheInv ((i, content) :: H) cap (with_faults fs m).
Proof.
  intros [Hc Ha Hw]. split; [done| |done]. intros k e d Hk Hd.
  destruct (Ha k e d Hk Hd) as (j & Hj & ?). exists j. split; [by right|done].
Qed.

(** A read with working services of a tile that is there. *)
Lemma Get_hit now i m e data :
  Validate i = None -> getReady (index m) (CanonicalKey i) = Some e -> backend m !! entObjectKey e = Some data ->
  exists e' m', Get now i (with_faults [] m) = (Ok (Some (data, e')), m').
Proof.
  intros Hv Hr Hb. set (m0 := with_faults [] m).
  assert (Hq : query (fun ix => getReady ix (CanonicalKey i)) m0 = (Ok (Some e), m0)).
  { rewrite <- Hr. reflexivity. }
  assert (Hg : blobGet (entObjectKey e) m0 = (Ok (Some data), m0)).
  { rewrite <- Hb. reflexivity. }
  unfold Get, validated. rewrite Hv. unfold mbind at 1, act_bind at 1. cbn [mret act_ret].
  unfold mbind at 1, act_bind at 1. rewrite Hq. cbn [mret act_ret].
  unfold mbind at 1, act_bind at 1. rewrite Hg. eexists e, _. reflexivity.
Qed.

Section Runs.
Context (keyDigest contentDigest : string -> string) (MaxBytes : Z) (ObjectPrefix : string).

Definition runOp (op : cacheOp) (m : Manager) : Manager :=
  match op with
  | OpGet now i => (Get now i m).2
  | OpExists i => (Exists i m).2
  | OpPut now i content policy => (Put keyDigest contentDigest MaxBytes ObjectPrefix now i content policy m).2
  | OpDelete selector => (Delete selector m).2
  | OpDeleteIdentity i => (DeleteIdentity i m).2
  | OpReconcile => (reconcile m).2
  | OpFlush => (flushAccess m).2
  | OpPurge w ids => (PurgeLifecycle w ids m).2
  end.

Definition runStep (m : Manager) (step : cacheOp * list fault) : Manager := runOp step.1 (with_faults step.2 m).

Definition run (m : Manager) (steps : list (cacheOp * list fault)) : Manager := foldl runStep m steps.

(** What the identifiers of the catalog are: free of the separators. *)
Definition plainOp (op : cacheOp) : Prop :=
  match op with
  | OpPut _ i _ _ => plain i
  | OpPurge w _ => has_byte ":" w = false
  | _ => True
  end.

Definition putsOf (steps : list (cacheOp * list fault)) : list (Identity * string) :=
  omap (fun step => match step.1 with OpPut _ i content _ => Some (i, content) | _ => None end) steps.

Lemma awp_state {A} (c : act A) (Q : A -> Manager -> Prop) (I : Manager -> Prop) m :
  awp c Q I m -> (forall a m', Q a m' -> I m') -> I (c m).2.
Proof. unfold awp. destruct (c m) as [[a|e|] m']; cbn; intros Hc HQ; [by eapply HQ|done|done]. Qed.

Lemma cacheOp_inv H op m :
  0 < MaxBytes -> plainOp op -> (forall now i content policy, op = OpPut now i content policy -> (i, content) ∈ H) ->
  cacheInv H MaxBytes m -> cacheInv H MaxBytes (runOp op m).
Proof.
  intros Hmax Hp Hin Hm. destruct op; cbn [runOp plainOp] in *.
  - eapply awp_state; [by apply Get_inv|]. by intros a m' [? _].
  - eapply awp_state; [by apply Exists_inv|]. done.
  - eapply awp_state; [apply (Put_inv keyDigest contentDigest MaxBytes ObjectPrefix H MaxBytes); eauto|]. by intros a m' [? _].
  - eapply awp_state; [eapply awp_mono; [by apply (Delete_exact H MaxBytes)|exact (fun _ _ x => x)|done]|]. by intros a m' [? _].
  - eapply awp_state; [by apply DeleteIdentity_inv|]. done.
  - eapply awp_state; [by apply reconcile_inv|]. done.
  - eapply awp_state; [by apply flushAccess_inv|]. done.
  - eapply awp_state; [by apply PurgeLifecycle_inv|]. by intros a m' [? _].
Qed.

Lemma newManager_inv H b t : 0 < MaxBytes -> cacheInv H MaxBytes (newManager b t).
Proof.
  intros Hmax. split.
  - split; [split|]; cbn.
    + intros k r Hk. by rewrite lookup_empty in Hk.
    + intros k k' r r' Hk. by rewrite lookup_empty in Hk.
    + intros s. cbn. by rewrite lookup_empty.
  - intros k e d Hk. cbn in Hk. by rewrite lookup_empty in Hk.
  - unfold within, total. cbn [fst newManager index tile_entries emptyIndex]. rewrite map_sum_zero; [lia|].
    intros k r Hk. by rewrite lookup_empty in Hk.
Qed.

Lemma run_inv steps b t :
  0 < MaxBytes -> Forall (fun s => plainOp s.1) steps -> cacheInv (putsOf steps) MaxBytes (run (newManager b t) steps).
Proof.
  intros Hmax Hp.
  assert (Hgen : forall l m, Forall (fun s => plainOp s.1) l -> (forall x, x ∈ putsOf l -> x ∈ putsOf steps) ->
            cacheInv (putsOf steps) MaxBytes m -> cacheInv (putsOf steps) MaxBytes (run m l)).
  { induction l as [|[op fs] l IH]; intros m Hl Hsub Hm; [done|].
    apply Forall_cons in Hl as [Hop Hl]. cbn [run foldl]. apply IH; [done| |].
    - intros x Hx. apply Hsub. unfold putsOf in *. cbn [omap list_omap fst]. destruct op; try done. by right.
    - unfold runStep. cbn [fst snd] in *. apply cacheOp_inv; [done|done| |].
      + intros now i content policy ->. apply Hsub. left.
      + by apply (cacheInv_stable _ _ m). }
  apply Hgen; [done|done|by apply newManager_inv].
Qed.
End Runs.

(** ** Interleaved reads *)

(** A read in progress: the entry it found, and whether its payload was missing. *)
Record reading : Type := mkReading { readEntry : Entry; payloadMissing : bool }.

(** [Whole]: a method that is not interrupted; [Lookup], [Fetch] and [Repair]: the phases
    of the read of a goroutine. *)
Inductive cacheStep : Type :=
| Whole (op : cacheOp)
| Lookup (g : nat) (i : Identity)
| Fetch (g : nat) (access : option Z)
| Repair (g : nat).

Abbreviation cacheState := (Manager * gmap nat reading)%type.

Section Interleaved.
Context (keyDigest contentDigest : string -> string) (MaxBytes : Z) (ObjectPrefix : string).

Definition interleave (s : cacheState) (step : cacheStep * list fault) : cacheState :=
  let m := with_faults step.2 s.1 in
  match step.1 with
  | Whole op => (runOp keyDigest contentDigest MaxBytes ObjectPrefix op m, s.2)
  | Lookup g i =>
      match lookupEntry i m with
      | (Ok (Some e), m') => (m', <[g := mkReading e false]> s.2)
      | (_, m') => (m', delete g s.2)
      end
  | Fetch g access =>
      match s.2 !! g with
      | Some (mkReading e false) =>
          match fetchPayload e m with
          | (Ok None, m') => (m', <[g := mkReading e true]> s.2)
          | (Ok (Some _), m') => ((noteHit (entCacheKey e) access m').2, delete g s.2)
          | (_, m') => (m', delete g s.2)
          end
      | _ => s
      end
  | Repair g =>
      match s.2 !! g with
      | Some (mkReading e true) => ((repair e m).2, delete g s.2)
      | _ => s
      end
  end.

Definition interleaved (s : cacheState) (steps : list (cacheStep * list fault)) : cacheState := foldl interleave s steps.

(** Every repair finds no row, or the row its read found: none of another size was stored
    in between. *)
Fixpoint repairsCurrent (s : cacheState) (steps : list (cacheStep * list fault)) : Prop :=
  match steps with
  | [] => True
  | step :: rest =>
      match step.1 with
      | Repair g => match s.2 !! g with Some rd => current (index s.1) (readEntry rd) | None => True end
      | _ => True
      end /\ repairsCurrent (interleave s step) rest
  end.

#[export] Instance Identity_eq_dec : EqDecision Identity.
Proof. solve_decision. Defined.

(** The same as a test. *)
Definition currentTest (ix : metadataIndex) (e : Entry) : bool :=
  match tile_entries ix !! entCacheKey e with
  | Some r => negb (isReady r) || bool_decide (entIdentity e = entIdentity (rowEntry r)) && (SizeBytes e =? SizeBytes (rowEntry r))
  | None => true
  end.

Fixpoint repairsTest (s : cacheState) (steps : list (cacheStep * list fault)) : bool :=
  match steps with
  | [] => true
  | step :: rest =>
      match step.1 with
      | Repair g => match s.2 !! g with Some rd => currentTest (index s.1) (readEntry rd) | None => true end
      | _ => true
      end && repairsTest (interleave s step) rest
  end.

Lemma currentTest_sound ix e : currentTest ix e = true -> current ix e.
Proof.
  unfold currentTest, current. intros Ht r Hr Hready. rewrite Hr, Hready in Ht. cbn in Ht.
  by apply andb_true_iff in Ht as [?%bool_decide_eq_true ?%Z.eqb_eq].
Qed.

Lemma repairsTest_sound s steps : repairsTest s steps = true -> repairsCurrent s steps.
Proof.
  revert s. induction steps as [|step steps IH]; intros s; cbn [repairsTest repairsCurrent]; [done|].
  intros [Hc Hs]%andb_true_iff. split; [|by apply IH]. destruct step.1; try done. destruct (s.2 !! g); [by apply currentTest_sound|done].
Qed.

Definition plainStep (step : cacheStep) : Prop := match step with Whole op => plainOp op | _ => True end.

Definition writtenBy (steps : list (cacheStep * list fault)) : list (Identity * string) :=
  omap (fun step => match step.1 with Whole (OpPut _ i content _) => Some (i, content) | _ => None end) steps.

Lemma lookupEntry_stable i m : stable m (lookupEntry i m).2.
Proof.
  apply (awp_state _ (fun _ => stable m)); [|done]. apply awp_bind, awp_validated; [|done].
  apply awp_query; intros m' Hs; exact Hs.
Qed.

Lemma fetchPayload_stable e m : stable m (fetchPayload e m).2.
Proof. apply (awp_state _ (fun _ => stable m)); [|done]. by apply awp_blobGet. Qed.

Lemma noteHit_stable key access m : stable m (noteHit key access m).2.
Proof.
  destruct access as [now|]; [|done]. apply (awp_state _ (fun _ => stable m)); [|done].
  apply awp_bind, awp_Writable. intros b m1 [I1 B1]. apply awp_bind, awp_gets. apply awp_bind.
  assert (Hrest : forall m2, stable m1 m2 -> awp (bump hits 1) (fun _ => stable m) (stable m) m2).
  { intros m2 [I2 B2]. apply awp_bump. intros m3 [I3 B3]. split; congruence. }
  destruct b; [|by apply awp_ret, Hrest]. apply awp_set_accessed. intros m2 Hs. by apply Hrest.
Qed.

Lemma interleave_inv H s step :
  0 < MaxBytes -> plainStep step.1 -> (forall now i content policy, step.1 = Whole (OpPut now i content policy) -> (i, content) ∈ H) ->
  (forall g rd, step.1 = Repair g -> s.2 !! g = Some rd -> current (index s.1) (readEntry rd)) ->
  cacheInv H MaxBytes s.1 -> cacheInv H MaxBytes (interleave s step).1.
Proof.
  intros Hmax Hp Hin Hcur Hm. destruct s as [m rs], step as [[op|g i|g access|g] fs]; cbn in *;
    assert (Hm0 : cacheInv H MaxBytes (with_faults fs m)) by (by apply (cacheInv_stable _ _ m)).
  - apply cacheOp_inv; try done. intros now i content policy ->. by eapply Hin.
  - pose proof (lookupEntry_stable i (with_faults fs m)) as Hs. destruct (lookupEntry i _) as [[[e|]|e|] m']; by apply (cacheInv_stable _ _ _ _ Hs).
  - destruct (rs !! g) as [[e []]|]; try done. pose proof (fetchPayload_stable e (with_faults fs m)) as Hs.
    destruct (fetchPayload e _) as [[[d|]|er|] m']; cbn; try by apply (cacheInv_stable _ _ _ _ Hs).
    apply (cacheInv_stable _ _ m'); [apply noteHit_stable|by apply (cacheInv_stable _ _ _ _ Hs)].
  - destruct (rs !! g) as [[e []]|] eqn:Hg; try done. cbn. eapply (awp_state _ (fun _ => cacheInv H MaxBytes)); [|done].
    apply (awp_repair H MaxBytes); [done|by apply (Hcur g _ eq_refl Hg)|done].
Qed.

Lemma interleaved_inv steps b t :
  0 < MaxBytes -> Forall (fun s => plainStep s.1) steps -> repairsCurrent (newManager b t, ∅) steps ->
  cacheInv (writtenBy steps) MaxBytes (interleaved (newManager b t, ∅) steps).1.
Proof.
  intros Hmax Hp Hc.
  assert (Hgen : forall l s, Forall (fun s => plainStep s.1) l -> repairsCurrent s l -> (forall x, x ∈ writtenBy l -> x ∈ writtenBy steps) ->
            cacheInv (writtenBy steps) MaxBytes s.1 -> cacheInv (writtenBy steps) MaxBytes (interleaved s l).1).
  { induction l as [|step l IH]; intros s Hl Hr Hsub Hm; [done|]. apply Forall_cons in Hl as [Hs Hl]. destruct Hr as [Hr Hrs].
    cbn [interleaved foldl]. apply IH; [done|done| |].
    - intros x Hx. apply Hsub. unfold writtenBy in *. cbn [omap list_omap]. destruct step as [[[]|g i|g a|g] fs]; cbn [fst]; try done. by right.
    - apply interleave_inv; [done|done| | |done].
      + intros now i content policy Heq. apply Hsub. unfold writtenBy. cbn [omap list_omap]. rewrite Heq. left.
      + intros g rd Heq Hg. by rewrite Heq, Hg in Hr. }
  apply Hgen; [done|done|done|by apply newManager_inv].
Qed.
End Interleaved.



(** C26: A hit returns bytes that an earlier write was given for the same tile (the same workspace,
    revision, resource, generation, matrix set, position, style and format), never those of
    another tile; and a read right after a write that was reported as stored returns its bytes. *)
Theorem tile_hit_authentic (keyDigest contentDigest : string -> string) (MaxBytes : Z) (prefix : string) steps b t :
  0 < MaxBytes -> Forall (fun s => plainOp s.1) steps ->
  let m := run keyDigest contentDigest MaxBytes prefix (newManager b t) steps in
  (forall now i fs data e m', plain i -> Get now i (with_faults fs m) = (Ok (Some (data, e)), m') ->
     exists j, (j, data) ∈ putsOf steps /\ sameTile j i) /\
  (forall now i content policy fs m' now', plain i ->
     Put keyDigest contentDigest MaxBytes prefix now i content policy (with_faults fs m) = (Ok true, m') ->
     exists e m'', Get now' i (with_faults [] m') = (Ok (Some (content, e)), m'')).
Proof.
  intros Hmax Hp m. pose proof (run_inv keyDigest contentDigest MaxBytes prefix steps b t Hmax Hp) as Hinv. fold m in Hinv.
  split.
  - intros now i fs data e m' Hpl Hget.
    assert (Hm : cacheInv (putsOf steps) MaxBytes (with_faults fs m)) by (by apply (cacheInv_stable _ _ m)).
    pose proof (Get_inv _ MaxBytes now i _ Hm) as Hwp. unfold awp in Hwp. rewrite Hget in Hwp.
    destruct Hwp as [_ Hhit]. destruct (Hhit data e eq_refl) as (j & Hj & Hplj & Hk).
    exists j. split; [done|]. by apply CanonicalKey_sameTile.
  - intros now i content policy fs m' now' Hpl Hput.
    pose proof (cacheInv_cons _ MaxBytes m fs i content Hinv) as Hm.
    pose proof (Put_inv keyDigest contentDigest MaxBytes prefix _ MaxBytes now i content policy _ Hmax eq_refl Hm Hpl
                  ltac:(left)) as Hwp.
    unfold awp in Hwp. rewrite Hput in Hwp. destruct Hwp as [_ Hdone].
    destruct (Hdone eq_refl) as ((e & Hr & _ & Hob & _) & Hb & _).
    assert (Hv : Validate i = None).
    { unfold Put, validated in Hput. destruct (Validate i); [done|done]. }
    eapply Get_hit; [done|exact Hr|by rewrite Hob].
Qed.

(** C38: A deletion ends, also with more tiles than fit in a batch, and when it reports no error
    no ready tile that matches its selector is left; whatever it reports, it removes nothing
    else and the counters stay exact. *)
Theorem tile_delete_complete (keyDigest contentDigest : string -> string) (MaxBytes : Z) (prefix : string) steps b t
    selector fs :
  0 < MaxBytes -> Forall (fun s => plainOp s.1) steps ->
  let m := run keyDigest contentDigest MaxBytes prefix (newManager b t) steps in
  exists result err m', Delete selector (with_faults fs m) = (Ok (result, err), m') /\
    (err = None -> forall k e, tile_entries (index m') !! k = Some (mkRow e ready) -> selects selector e = false) /\
    tile_entries (index m') ⊆ tile_entries (index m) /\
    (forall k e, tile_entries (index m) !! k = Some (mkRow e ready) -> selects selector e = false ->
       tile_entries (index m') !! k = Some (mkRow e ready)) /\
    consistent (index m').
Proof.
  intros Hmax Hp m. pose proof (run_inv keyDigest contentDigest MaxBytes prefix steps b t Hmax Hp) as Hinv. fold m in Hinv.
  assert (Hm : cacheInv (putsOf steps) MaxBytes (with_faults fs m)) by (by apply (cacheInv_stable _ _ m)).
  pose proof (Delete_exact _ MaxBytes selector _ Hm) as Hwp. unfold awp in Hwp.
  destruct (Delete selector (with_faults fs m)) as [[[result err]|e|] m'] eqn:Hd; [|done|done].
  destruct Hwp as (Hinv' & Hsub & Hgone & Hkeep). exists result, err, m'. split_and!; [done|done|done|done|].
  apply Hinv'.
Qed.

(** ** Concrete runs *)

Definition exampleTile (r c : Z) : Identity :=
  mkIdentity "ws" 1 "roads" "feature" 1 "map" "WebMercatorQuad" 3 c r "" "default" "image/png".

Definition noQuota : Policy := mkPolicy 0 0.

Lemma exampleTile_plain r c : plain (exampleTile r c).
Proof. split; [done|repeat constructor]. Qed.

(** Stores one tile, reads it, and fails to store a second one over the quota of the resource
    when the eviction is refused. *)
Definition exampleSteps : list (cacheOp * list fault) :=
  [(OpPut 1 (exampleTile 0 0) "0123456789" noQuota, []);
   (OpGet 2 (exampleTile 0 0), []);
   (OpPut 3 (exampleTile 0 1) "abcdef" (mkPolicy 0 12), [Works; Works; Works; Works; Fails []])].

Lemma exampleSteps_plain : Forall (fun s => plainOp s.1) exampleSteps.
Proof. repeat constructor. Qed.

Definition idDigest (s : string) : string := s.

Abbreviation exampleRun := (run idDigest idDigest 100 "tiles" (newManager ∅ emptyTables) exampleSteps).

(** A reader that finds its payload gone, beside a write: the payload is deleted behind the
    back of the index, the reader looks up, another tile is stored, the reader repairs. *)
Definition interleavedSteps : list (cacheStep * list fault) :=
  [(Whole (OpPut 1 (exampleTile 0 0) "0123456789" noQuota), []);
   (Whole (OpDeleteIdentity (exampleTile 0 0)), [Works; Works; Works; Fails []]);
   (Lookup 7 (exampleTile 0 0), []);
   (Whole (OpPut 2 (exampleTile 0 1) "abc" noQuota), []);
   (Fetch 7 (Some 3), []);
   (Whole (OpPut 4 (exampleTile 0 2) "de" noQuota), []);
   (Repair 7, [])].

Abbreviation interleavedRun := (interleaved idDigest idDigest 100 "tiles" (newManager ∅ emptyTables, ∅) interleavedSteps).

Lemma interleavedSteps_plain : Forall (fun s => plainStep s.1) interleavedSteps.
Proof. repeat constructor. Qed.

Lemma interleavedSteps_current : repairsCurrent idDigest idDigest 100 "tiles" (newManager ∅ emptyTables, ∅) interleavedSteps.
Proof. apply repairsTest_sound. vm_compute. reflexivity. Qed.


(** A write over the quota of the resource: the oldest tile is evicted. *)
Abbreviation exampleSecond :=
  (Put idDigest idDigest 100 "tiles" 5 (exampleTile 0 0) "abcdef" (mkPolicy 0 9) (with_faults [] interleavedRun.1)).


Abbreviation exampleHit := (Get 5 (exampleTile 0 0) (with_faults [] exampleRun)).

Lemma tile_hit_authentic_witness :
  (exists e, exampleHit.1 = Ok (Some ("0123456789", e))) /\
  exists j, (j, "0123456789") ∈ putsOf exampleSteps /\ sameTile j (exampleTile 0 0).
Proof.
  destruct (tile_hit_authentic idDigest idDigest 100 "tiles" exampleSteps ∅ emptyTables ltac:(lia) exampleSteps_plain) as [Hh _].
  assert (Hok : exists e, exampleHit.1 = Ok (Some ("0123456789", e))) by (eexists; vm_compute; reflexivity).
  split; [exact Hok|]. destruct Hok as [e He].
  apply (Hh 5 (exampleTile 0 0) [] "0123456789" e exampleHit.2).
  - apply exampleTile_plain.
  - rewrite <- He. apply surjective_pairing.
Defined.

Lemma tile_delete_complete_witness :
  exists result err m', Delete (lifecycleSelector "ws" "") (with_faults [] exampleRun) = (Ok (result, err), m') /\
    consistent (index m').
Proof.
  destruct (tile_delete_complete idDigest idDigest 100 "tiles" exampleSteps ∅ emptyTables (lifecycleSelector "ws" "") []
              ltac:(lia) exampleSteps_plain) as (r & err & m' & Hd & _ & _ & _ & Hc).
  exists r, err, m'. split; [exact Hd|exact Hc].
Defined.

(** A reader that found its payload deleted before the tile was stored again: its repair removes
    the new row, takes the old size off the counters and leaves the new payload behind. *)
Definition staleSteps : list (cacheStep * list fault) :=
  [(Whole (OpPut 1 (exampleTile 0 0) "ab" noQuota), []);
   (Lookup 7 (exampleTile 0 0), []);
   (Whole (OpDeleteIdentity (exampleTile 0 0)), []);
   (Fetch 7 (Some 2), []);
   (Whole (OpPut 3 (exampleTile 0 0) "abcde" noQuota), []);
   (Repair 7, [])].

Abbreviation staleRun := ((interleaved idDigest idDigest 100 "tiles" (newManager ∅ emptyTables, ∅) staleSteps).1).

Example stale_repair_drifts :
  map_to_list (tile_entries (index staleRun)) = []
  /\ usage (index staleRun) "global" "global" = (3, 0)
  /\ backend staleRun !! ObjectKey idDigest "tiles" (exampleTile 0 0) = Some "abcde".
Proof. vm_compute. done. Qed.

(** [Get] is its phases in a row. *)
Example phases_of_Get now i m :
  Get now i m = (lookupEntry i ≫= fun found =>
    match found with
    | None => bump misses 1 ≫= fun _ => mret None
    | Some e => fetchPayload e ≫= fun blob =>
        match blob with
        | None => repair e ≫= fun _ => bump misses 1 ≫= fun _ => bump orphans 1 ≫= fun _ => mret None
        | Some data => noteHit (CanonicalKey i) (Some now) ≫= fun _ => mret (Some (data, e))
        end
    end) m.
Proof.
  unfold Get, lookupEntry, validated. destruct (Validate i); [done|]. cbn. unfold mbind, act_bind. cbn.
  destruct (query _ m) as [[[e|]|e|] m1]; try done. unfold fetchPayload. destruct (blobGet _ m1) as [[[d|]|er|] m2]; try done.
  unfold noteHit, mbind, act_bind. destruct (Writable m2) as [[[]|er|] m3]; done.
Qed.
