(* ===== verification/TileJobRunner.v ===== *)
(** * Workers of the tile cache jobs ([internal/tilejobs/manager.go])

    Jobs are cut into chunks of at most 1024 tiles. Workers claim queued jobs from the
    durable table and process their chunks; a chunk records the offset of its next tile
    so that an interrupted job resumes where it stopped. A deletion quiesces its scope:
    it blocks new work, cancels what is queued or running and waits until no matching
    job is active.

    Part one translates [buildChunks], [runChunk] and the functions that build the
    updates of a job. Part two is a step relation over the table, the blocked scopes
    and the workers: every access of the table is one step, and steps of workers,
    requests and deletions interleave in any order. *)

From S2P Require Import Prelude GoText GoNum TileMatrix TileJobs.

(** ** Building the chunks of a job *)

(** [for x := lo; x <= hi; x += step]: the values of [x]; at most [fuel] of them. *)
Fixpoint loopValues (fuel : nat) (x hi step : Z) : list Z :=
  match fuel with
  | O => []
  | S fuel => if x <=? hi then x :: loopValues fuel (x + step) hi step else []
  end.

Definition rangeBy (lo hi step : Z) : list Z := loopValues (Z.to_nat (hi - lo + 1)) lo hi step.

Definition newChunk (zoom minCol maxCol minRow maxRow : Z) : JobChunk :=
  mkChunk "" "" zoom minCol maxCol minRow maxRow 0 "queued" 0 "" 0.

(** The blocks of one zoom level. *)
Definition zoomChunks (zoom minCol maxCol minRow maxRow : Z) : list JobChunk :=
  let width := maxCol - minCol + 1 in
  let columnBlock := Z.min width 32 in
  let rowBlock := Z.max 1 (1024 / columnBlock) in
  row ← rangeBy minRow maxRow rowBlock;
  column ← rangeBy minCol maxCol columnBlock;
  [newChunk zoom column (Z.min maxCol (column + columnBlock - 1)) row (Z.min maxRow (row + rowBlock - 1))].

Abbreviation bbox4 := (float64 * float64 * float64 * float64)%type.

(** The columns and rows of a matrix that a box touches. *)
Definition tileRange (m : TileMatrix) (bbox : bbox4) : Z * Z * Z * Z :=
  let '(b0, b1, b2, b3) := bbox in
  let spanX := fmul (CellSize m) (ofInt (TileWidth m)) in
  let spanY := fmul (CellSize m) (ofInt (TileHeight m)) in
  let minCol := floorInt (fdiv (fsub b0 (origin m 0)) spanX) in
  let maxCol := floorInt (fdiv (fsub (nextDown b2) (origin m 0)) spanX) in
  let minRow := floorInt (fdiv (fsub (origin m 1) b3) spanY) in
  let maxRow := floorInt (fdiv (fsub (origin m 1) (nextUp b1)) spanY) in
  (Z.max 0 minCol, Z.min (MatrixWidth m - 1) maxCol, Z.max 0 minRow, Z.min (MatrixHeight m - 1) maxRow).

(** A run-time panic: an index out of range or a nil pointer. *)
Inductive built : Type := Built (chunks : list JobChunk) (total : Z) | BuildPanic.

Fixpoint buildLoop (d : TileMatrixSetDefinition) (bbox : bbox4) (levels : list Z) (chunks : list JobChunk) (total : Z) : built :=
  match levels with
  | [] => Built chunks total
  | zoom :: rest =>
      match TileMatrices d !! Z.to_nat zoom with
      | None => BuildPanic
      | Some m =>
          let '(minCol, maxCol, minRow, maxRow) := tileRange m bbox in
          if (maxCol <? minCol) || (maxRow <? minRow) then buildLoop d bbox rest chunks total
          else buildLoop d bbox rest (chunks ++ zoomChunks zoom minCol maxCol minRow maxRow)
                 (total + (maxCol - minCol + 1) * (maxRow - minRow + 1))
      end
  end.

Definition corner (l : list float64) (k : nat) : option float64 := l !! k.

(** The part of the requested box inside the set; [None] when the definition has no box. *)
Definition clipped (d : TileMatrixSetDefinition) (requested : bbox4) : option bbox4 :=
  let '(r0, r1, r2, r3) := requested in
  world ← SetBounds d;
  l0 ← LowerCorner world !! 0%nat; l1 ← LowerCorner world !! 1%nat;
  u0 ← UpperCorner world !! 0%nat; u1 ← UpperCorner world !! 1%nat;
  Some (fmax r0 l0, fmax r1 l1, fmin r2 u0, fmin r3 u1).

Definition buildChunks (digestOf : TileMatrixSetDefinition -> string) (reg : gmap string (TileMatrixSetDefinition * string))
    (matrixSet : string) (minZoom maxZoom : Z) (requested : bbox4) : matrixError + built :=
  match GetTileMatrixSetDefinition digestOf reg matrixSet with
  | None => inl (UnknownSet matrixSet)
  | Some (d, _) =>
      match clipped d requested with
      | None => inr BuildPanic
      | Some (b0, b1, b2, b3) =>
          if SFleb b2 b0 || SFleb b3 b1 then inr (Built [] 0)
          else inr (buildLoop d (b0, b1, b2, b3) (rangeBy minZoom maxZoom 1) [] 0)
      end
  end.

(** ** Processing a chunk *)

Definition chunkWidth (c : JobChunk) : Z := MaxCol c - MinCol c + 1.
Definition chunkTotal (c : JobChunk) : Z := chunkWidth c * (MaxRow c - MinRow c + 1).

(** Zoom, column and row of the tile at an offset. *)
Definition tileAt (c : JobChunk) (offset : Z) : Z * Z * Z :=
  (ChunkZoom c, MinCol c + offset mod chunkWidth c, MinRow c + offset / chunkWidth c).

Inductive tileResult : Type := TileFailed (message : string) | TileSkipped | TileDone (bytes : Z).

Record jobState : Type := mkJobState {
  stJob : Job;
  processed : Z; succeeded : Z; skipped : Z; failed : Z; bytesWritten : Z; bytesDeleted : Z;
  cancelled : bool; interrupted : bool
}.

(** [jobState.update]. *)
Definition update (s : jobState) (status : JobStatus) (message : string) (completed : option Z) : JobUpdate :=
  let j := stJob s in
  mkUpdate (Some status) None (Some (ProcessedTiles j + processed s)) (Some (SucceededTiles j + succeeded s))
    (Some (SkippedTiles j + skipped s)) (Some (FailedTiles j + failed s)) (Some (BytesWritten j + bytesWritten s))
    (Some (BytesDeleted j + bytesDeleted s)) None (Some message) None completed.

Definition isTruncate (j : Job) : bool :=
  match reqOperation (JobRequestOf j) with OperationTruncate => true | _ => false end.

(** The counters after a tile. *)
Definition countTile (s : jobState) (r : tileResult) : jobState :=
  let s1 := mkJobState (stJob s) (processed s + 1) in
  match r with
  | TileFailed _ => s1 (succeeded s) (skipped s) (failed s + 1) (bytesWritten s) (bytesDeleted s) (cancelled s) (interrupted s)
  | TileSkipped => s1 (succeeded s) (skipped s + 1) (failed s) (bytesWritten s) (bytesDeleted s) (cancelled s) (interrupted s)
  | TileDone n =>
      if isTruncate (stJob s)
      then s1 (succeeded s + 1) (skipped s) (failed s) (bytesWritten s) (bytesDeleted s + n) (cancelled s) (interrupted s)
      else s1 (succeeded s + 1) (skipped s) (failed s) (bytesWritten s + n) (bytesDeleted s) (cancelled s) (interrupted s)
  end.

Definition set_flags (s : jobState) (c i : bool) : jobState :=
  mkJobState (stJob s) (processed s) (succeeded s) (skipped s) (failed s) (bytesWritten s) (bytesDeleted s) c i.

Definition set_chunk_status (c : JobChunk) (status : string) : JobChunk :=
  mkChunk (ChunkID c) (ChunkJob c) (ChunkZoom c) (MinCol c) (MaxCol c) (MinRow c) (MaxRow c) (NextOffset c)
    status (Attempts c) (LastError c) (ChunkUpdatedAt c).

(** The chunk after a tile: one offset further, and the error if there was one. *)
Definition advance (c : JobChunk) (r : tileResult) : JobChunk :=
  mkChunk (ChunkID c) (ChunkJob c) (ChunkZoom c) (MinCol c) (MaxCol c) (MinRow c) (MaxRow c) (NextOffset c + 1)
    (ChunkStatus c)
    (match r with TileFailed _ => Attempts c + 1 | _ => Attempts c end)
    (match r with TileFailed e => e | _ => LastError c end) (ChunkUpdatedAt c).

Inductive chunkEnd : Type := ChunkInterrupted | ChunkCancelled | ChunkFinished | ChunkKilled.

(** The statements that store the chunk: before the first tile, after each tile, at the end. *)
Inductive recordPoint : Type := AtStart | AfterTile (offset : Z) | AtEnd.

(** What happens to one run of a chunk, at each offset: whether the process is stopping, whether
    the job is cancelled, what processing the tile gives, which statements that store the chunk
    succeed, and whether the process dies before the tile or between the tile and its record. *)
Record attempt : Type := mkAttempt {
  stopping : Z -> bool; cancelRequested : Z -> bool; processTile : Z * Z * Z -> tileResult;
  storedAt : recordPoint -> bool; killedBefore : Z -> bool; killedAfter : Z -> bool; chunkNow : Z
}.

Section RunChunk.
Context (a : attempt).

(** [UpdateTileCacheJobChunk], whose error is ignored. *)
Definition record (p : recordPoint) (c stored : JobChunk) : JobChunk :=
  if storedAt a p then chunkProgress (chunkNow a) c stored else stored.

(** The loop over the chunk in memory [c] and its row [stored], with the tiles it processes. *)
Fixpoint chunkLoop (fuel : nat) (s : jobState) (c stored : JobChunk)
    : chunkEnd * jobState * JobChunk * JobChunk * list (Z * Z * Z) :=
  if NextOffset c <? chunkTotal c then
    if killedBefore a (NextOffset c) then (ChunkKilled, s, c, stored, [])
    else if stopping a (NextOffset c) then
      let c' := set_chunk_status c "queued" in
      (ChunkInterrupted, set_flags s (cancelled s) true, c', record AtEnd c' stored, [])
    else if cancelRequested a (NextOffset c) then
      let c' := set_chunk_status c "cancelled" in
      (ChunkCancelled, set_flags s true (interrupted s), c', record AtEnd c' stored, [])
    else
      let tile := tileAt c (NextOffset c) in
      let r := processTile a tile in
      let c1 := advance c r in
      if killedAfter a (NextOffset c) then (ChunkKilled, countTile s r, c1, stored, [tile])
      else match fuel with
           | O => (ChunkInterrupted, s, c, stored, [])
           | S fuel =>
               let '(e, s', c', stored', visited) :=
                 chunkLoop fuel (countTile s r) c1 (record (AfterTile (NextOffset c)) c1 stored) in
               (e, s', c', stored', tile :: visited)
           end
  else
    let c' := set_chunk_status c "succeeded" in
    (ChunkFinished, s, c', record AtEnd c' stored, []).

(** Every round advances the offset. *)
Definition runChunk (s : jobState) (c : JobChunk) : chunkEnd * jobState * JobChunk * JobChunk * list (Z * Z * Z) :=
  let c1 := set_chunk_status c "running" in
  chunkLoop (Z.to_nat (chunkTotal c - NextOffset c)) s c1 (record AtStart c1 c).
End RunChunk.

(** A chunk over several processes: each takes up the row that the one before left, reset if it
    says that it is being run; a chunk recorded as succeeded is not taken up again. The result is
    the row and, per process that took it up, the recorded offset, the end and the tiles. *)
Fixpoint runAttempts (l : list attempt) (s : jobState) (stored : JobChunk) : JobChunk * list (Z * chunkEnd * list (Z * Z * Z)) :=
  match l with
  | [] => (stored, [])
  | a :: rest =>
      let c := resetChunk (chunkNow a) stored in
      if String.eqb (ChunkStatus c) "succeeded" then runAttempts rest s c
      else
        let '(e, _, _, stored', visited) := runChunk a s c in
        let '(final, trace) := runAttempts rest s stored' in
        (final, (NextOffset c, e, visited) :: trace)
  end.

(** ** How a job ends *)

(** The end of [run]: nothing is written for an interrupted job. *)
Definition conclude (now : Z) (s : jobState) (current : option Job) : option JobUpdate :=
  if interrupted s then None
  else if cancelled s || match current with Some j => CancelRequested j | None => false end
  then Some (mkUpdate (Some JobCancelled) None None None None None None None None None None (Some now))
  else if 0 <? failed s
  then Some (update s JobFailed "one or more tiles failed" (Some now))
  else Some (update s JobSucceeded "" (Some now)).

Definition finishFailed (now : Z) (message : string) : JobUpdate :=
  mkUpdate (Some JobFailed) None None None None None None None None (Some message) None (Some now).

Definition finishTruncate (now entries bytes : Z) : JobUpdate :=
  mkUpdate (Some JobSucceeded) (Some entries) (Some entries) (Some entries) None None None (Some bytes) None None None (Some now).

(** ** The coordinator *)

(** Jobs whose work is cut into chunks; the others delete whole selections of tiles. *)
Definition needsChunks (q : JobRequest) : bool :=
  match reqOperation q, reqBounds q with OperationTruncate, None => false | _, _ => true end.

(** A worker has claimed a job and looks whether its scope is blocked; it resolves the
    workspace and lists the chunks; it processes tiles. *)
Inductive workerPc : Type :=
| Claimed (j : Job)
| Executing (j : Job)
| Processing (j : Job)
| Stopped.

Record runner : Type := mkRunner {
  tables : jobTables;
  blockedWorkspaces : gset string;
  blockedResources : gmap string (gset string);
  workers : gmap nat workerPc;
  (** The jobs [Create] has stored without their chunks yet. *)
  creating : gset string;
  (** The scopes whose quiescing returned without error. *)
  quiesced : list (string * list string)
}.

Definition set_tables (r : runner) (t : jobTables) : runner :=
  mkRunner t (blockedWorkspaces r) (blockedResources r) (workers r) (creating r) (quiesced r).

Definition set_worker (r : runner) (w : nat) (p : option workerPc) (t : jobTables) : runner :=
  mkRunner t (blockedWorkspaces r) (blockedResources r)
    (match p with Some p => <[w := p]> (workers r) | None => delete w (workers r) end) (creating r) (quiesced r).

Definition held (r : runner) (w : nat) (j : Job) : Prop :=
  exists p, workers r !! w = Some p /\ (p = Claimed j \/ p = Executing j \/ p = Processing j).

Definition lifecycleBlocked (r : runner) (workspaceID resourceID : string) (allResources : bool) : bool :=
  bool_decide (workspaceID ∈ blockedWorkspaces r)
  || match blockedResources r !! workspaceID with
     | Some resources => allResources || bool_decide (resourceID ∈ resources)
     | None => false
     end.

(** The first part of [QuiesceLifecycle]. *)
Definition block (r : runner) (workspaceID : string) (resourceIDs : list string) : runner :=
  match resourceIDs with
  | [] => mkRunner (tables r) ({[workspaceID]} ∪ blockedWorkspaces r) (blockedResources r) (workers r) (creating r) (quiesced r)
  | _ =>
      let old := default ∅ (blockedResources r !! workspaceID) in
      mkRunner (tables r) (blockedWorkspaces r)
        (<[workspaceID := list_to_set resourceIDs ∪ old]> (blockedResources r)) (workers r) (creating r) (quiesced r)
  end.

(** The statements at the end of [Create]: the row of the job, then its chunks, and when these
    cannot be stored the row is marked as failed, whoever has claimed it in between. *)
Definition create (now : Z) (id : string) (input : CreateJobInput) (r : runner) : runner :=
  match CreateTileCacheJob now id input (tables r) with
  | (inl _, _) => r
  | (inr _, t) =>
      mkRunner t (blockedWorkspaces r) (blockedResources r) (workers r)
        (if needsChunks (inRequest input) then {[id]} ∪ creating r else creating r) (quiesced r)
  end.

Definition created (id : string) (r : runner) (t : jobTables) : runner :=
  mkRunner t (blockedWorkspaces r) (blockedResources r) (workers r) (creating r ∖ {[id]}) (quiesced r).

Definition giveUp (now : Z) (id message : string) (r : runner) : runner :=
  created id r (UpdateTileCacheJob now id (finishFailed now message) (tables r)).2.

(** Identifiers of jobs are new UUIDs: nothing refers to one yet. *)
Definition unused (r : runner) (id : string) : Prop :=
  id ∉ creating r /\ ListTileCacheJobChunks (tables r) id = [] /\ forall w j, held r w j -> JobID j <> id.

(** [ClaimNextTileCacheJob] by a worker. *)
Definition claim (now : Z) (w : nat) (r : runner) : runner :=
  match ClaimNextTileCacheJob now (tables r) with
  | (None, _) => r
  | (Some j, t) => set_worker r w (Some (Claimed j)) t
  end.

Definition cancelUpdate (now : Z) : JobUpdate :=
  mkUpdate (Some JobCancelled) None None None None None None None None None None (Some now).

(** The check after the claim: a job of a blocked scope is cancelled, not run. *)
Definition check (now : Z) (w : nat) (j : Job) (r : runner) : runner :=
  if lifecycleBlocked r (JobWorkspace j) (reqResourceID (JobRequestOf j)) (AllResources (JobRequestOf j))
  then set_worker r w None (UpdateTileCacheJob now (JobID j) (cancelUpdate now) (tables r)).2
  else set_worker r w (Some (Executing j)) (tables r).

(** [run] up to its first tile: a job that has no chunks although it needs them fails. *)
Definition begin (now : Z) (w : nat) (j : Job) (r : runner) : runner :=
  match ListTileCacheJobChunks (tables r) (JobID j) with
  | [] =>
      if needsChunks (JobRequestOf j)
      then set_worker r w None (UpdateTileCacheJob now (JobID j) (finishFailed now "job has no durable tile chunks") (tables r)).2
      else set_worker r w (Some (Processing j)) (tables r)
  | _ => set_worker r w (Some (Processing j)) (tables r)
  end.

(** A new process: the interrupted jobs go back to the queue. *)
Definition restart (now : Z) (r : runner) : runner :=
  mkRunner (ResetInterruptedTileCacheJobs now (tables r)) ∅ ∅ ∅ ∅ [].

(** The updates with which a worker leaves a job whose tiles it processed. *)
Inductive ending (now : Z) (t : jobTables) (j : Job) : JobUpdate -> Prop :=
| end_failed message : ending now t j (finishFailed now message)
| end_truncate entries bytes : ending now t j (finishTruncate now entries bytes)
| end_run s u : stJob s = j -> conclude now s (tile_cache_jobs t !! JobID j) = Some u -> ending now t j u.

(** A statement that fails changes nothing. *)
Inductive runnerStep : runner -> runner -> Prop :=
| step_create r now id input : unused r id -> runnerStep r (create now id input r)
| step_chunks r now id chunks t :
    id ∈ creating r -> ReplaceTileCacheJobChunks now id chunks (tables r) = (None, t) -> runnerStep r (created id r t)
| step_give_up r now id message : id ∈ creating r -> runnerStep r (giveUp now id message r)
| step_give_up_fails r id : id ∈ creating r -> runnerStep r (created id r (tables r))
| step_chunk r now c : runnerStep r (set_tables r (UpdateTileCacheJobChunk now c (tables r)))
| step_cancel r now id : runnerStep r (set_tables r (RequestTileCacheJobCancel now id (tables r)).2)
| step_claim r now w : workers r !! w = None -> runnerStep r (claim now w r)
| step_check r now w j : workers r !! w = Some (Claimed j) -> runnerStep r (check now w j r)
| step_check_fails r w j :
    workers r !! w = Some (Claimed j) ->
    lifecycleBlocked r (JobWorkspace j) (reqResourceID (JobRequestOf j)) (AllResources (JobRequestOf j)) = true ->
    runnerStep r (set_worker r w None (tables r))
| step_begin r now w j : workers r !! w = Some (Executing j) -> runnerStep r (begin now w j r)
| step_begin_fails r now w j message :
    workers r !! w = Some (Executing j) ->
    runnerStep r (set_worker r w None (UpdateTileCacheJob now (JobID j) (finishFailed now message) (tables r)).2)
| step_progress r now w j s :
    workers r !! w = Some (Processing j) -> stJob s = j ->
    runnerStep r (set_tables r (UpdateTileCacheJob now (JobID j) (update s JobRunning "" None) (tables r)).2)
| step_end r now w j u :
    workers r !! w = Some (Processing j) -> ending now (tables r) j u ->
    runnerStep r (set_worker r w None (UpdateTileCacheJob now (JobID j) u (tables r)).2)
| step_end_fails r w j :
    (workers r !! w = Some (Executing j) \/ workers r !! w = Some (Processing j)) ->
    runnerStep r (set_worker r w None (tables r))
| step_interrupt r w j :
    workers r !! w = Some (Processing j) -> runnerStep r (set_worker r w (Some Stopped) (tables r))
| step_block r ws ids : runnerStep r (block r ws ids)
| step_cancel_scope r now ws ids : runnerStep r (set_tables r (cancelLifecycleJobs now (tables r) ws ids))
| step_quiesced r ws ids :
    (match ids with
     | [] => ws ∈ blockedWorkspaces r
     | _ => exists s, blockedResources r !! ws = Some s /\ forall id, id ∈ ids -> id ∈ s
     end) ->
    activeLifecycleJobs (tables r) ws ids = 0 ->
    runnerStep r (mkRunner (tables r) (blockedWorkspaces r) (blockedResources r) (workers r) (creating r) ((ws, ids) :: quiesced r))
| step_purge r ws ids : runnerStep r (set_tables r (purgeLifecycleJobs (tables r) ws ids).2)
| step_restart r now : runnerStep r (restart now r).

Definition startRunner (t : jobTables) : runner := mkRunner t ∅ ∅ ∅ ∅ [].

Inductive reachable (t : jobTables) : runner -> Prop :=
| reach_start : reachable t (startRunner t)
| reach_step r r' : reachable t r -> runnerStep r r' -> reachable t r'.
