(* ===== verification/TileJobTheorems.v ===== *)
(** * Tile cache jobs: main theorems *)

From stdpp Require Import sorting.
From S2P Require Import Prelude GoText GoNum TileMatrix TileJobs TileJobRunner.

(** ** The table *)

Definition wfJobs (t : jobTables) : Prop := forall id j, tile_cache_jobs t !! id = Some j -> JobID j = id.

Definition busy (j : Job) : Prop := Status j = JobRunning \/ Status j = JobCancelling.

Definition sameJob (a b : Job) : Prop := JobWorkspace a = JobWorkspace b /\ JobRequestOf a = JobRequestOf b.

(** A job has no chunks. *)
Definition noChunks (t : jobTables) (id : string) : Prop :=
  forall k c, tile_cache_job_chunks t !! k = Some c -> ChunkJob c <> id.

Lemma noChunks_list t id : noChunks t id <-> ListTileCacheJobChunks t id = [].
Proof.
  unfold ListTileCacheJobChunks. rewrite <- (Permutation_nil_r (merge_sort _ _)), (merge_sort_Permutation byPosition).
  rewrite Permutation_nil_r. split.
  - intros Hn. apply elem_of_nil_inv. intros c [Hc ([k x] & -> & Hk%elem_of_map_to_list)%list_elem_of_fmap]%list_elem_of_filter.
    by apply (Hn k x).
  - intros Hl k c Hk Hc. apply (not_elem_of_nil c). rewrite <- Hl. apply list_elem_of_filter. split; [done|].
    apply list_elem_of_fmap. exists (k, c). split; [done|]. by apply elem_of_map_to_list.
Qed.

(** What the statements on existing rows keep: rows that are being processed stay such rows, except
    those of [e]; no row appears or goes back to the queue; no job gets chunks, except those of [c]. *)
Record keeps (e c : string -> Prop) (t t' : jobTables) : Prop := {
  k_wf : wfJobs t';
  k_busy : forall id row, ~ e id -> tile_cache_jobs t !! id = Some row -> busy row ->
    exists row', tile_cache_jobs t' !! id = Some row' /\ busy row' /\ sameJob row' row;
  k_rows : forall id row', tile_cache_jobs t' !! id = Some row' ->
    exists row, tile_cache_jobs t !! id = Some row /\ sameJob row' row /\ (Status row' = JobQueued -> Status row = JobQueued);
  k_chunks : forall id, ~ c id -> noChunks t id -> noChunks t' id
}.

Definition noId (_ : string) : Prop := False.

Lemma keeps_refl e c t : wfJobs t -> keeps e c t t.
Proof. intros H. split; [done| | |done]; intros id row; [intros _ Hr Hb|intros Hr]; by exists row. Qed.

(** Writing one row. *)
Lemma keeps_set (e c : string -> Prop) t id row row' :
  wfJobs t -> tile_cache_jobs t !! id = Some row -> JobID row' = id -> sameJob row' row ->
  (Status row' = JobQueued -> Status row = JobQueued) -> (busy row -> e id \/ busy row') ->
  keeps e c t (with_jobs t (<[id := row']> (tile_cache_jobs t))).
Proof.
  intros Hw Hrow Hid Hs Hq Hb. split; [| | |done].
  - intros id' j Hj. cbn in Hj. apply lookup_insert_Some in Hj as [[<- <-]|[_ Hj]]; [done|by apply Hw].
  - intros id' x He Hx Hbx. cbn. destruct (decide (id = id')) as [<-|Hne].
    + rewrite lookup_insert_eq. rewrite Hrow in Hx. injection Hx as <-. destruct (Hb Hbx); [done|eauto].
    + rewrite lookup_insert_ne by done. by exists x.
  - intros id' x Hx. cbn in Hx. apply lookup_insert_Some in Hx as [[<- <-]|[_ Hx]]; [by exists row|by exists x].
Qed.

Lemma active_busy j : busy j -> active j = true.
Proof. unfold active, isStatus. intros [-> | ->]; done. Qed.

Lemma isStatus_spec j s : isStatus j s = true <-> Status j = s.
Proof. unfold isStatus. apply bool_decide_eq_true. Qed.

Lemma Update_keeps (e : string -> Prop) now id u t :
  wfJobs t -> (e id \/ upStatus u = Some JobRunning) -> (exists s, upStatus u = Some s /\ s <> JobQueued) ->
  keeps e noId t (UpdateTileCacheJob now id u t).2.
Proof.
  intros Hw Hu (s & Hst & Hs). unfold UpdateTileCacheJob, getTileCacheJob.
  destruct (tile_cache_jobs t !! id) as [j|] eqn:Hr; [|by apply keeps_refl]. cbn.
  apply (keeps_set e noId t id j); [done|done|cbn; by apply Hw|done|cbn; by rewrite Hst|].
  intros _. destruct Hu as [He|Hu]; [by left|right]. left. cbn. by rewrite Hu.
Qed.

Lemma cancelRow_facts now j :
  JobID (cancelRow now j) = JobID j /\ sameJob (cancelRow now j) j /\ Status (cancelRow now j) <> JobQueued /\
  (busy j -> busy (cancelRow now j)).
Proof.
  unfold cancelRow. destruct (isStatus j JobQueued) eqn:Hq; split_and!; try done; [|by right].
  apply isStatus_spec in Hq. intros [Hb|Hb]; congruence.
Qed.

Lemma keeps_cancelRow c now id t row :
  wfJobs t -> tile_cache_jobs t !! id = Some row -> keeps noId c t (with_jobs t (<[id := cancelRow now row]> (tile_cache_jobs t))).
Proof.
  intros Hw Hr. destruct (cancelRow_facts now row) as (Hi & Hs & Hq & Hb).
  apply (keeps_set noId c t id row); [done|done|rewrite Hi; by apply Hw|done|done|auto].
Qed.

Lemma Cancel_keeps now id t : wfJobs t -> keeps noId noId t (RequestTileCacheJobCancel now id t).2.
Proof.
  intros Hw. unfold RequestTileCacheJobCancel. destruct (tile_cache_jobs t !! id) as [j|] eqn:Hr; [|by apply keeps_refl].
  destruct (active j); [|by apply keeps_refl]. by apply keeps_cancelRow.
Qed.

Lemma keeps_trans t t' t'' : keeps noId noId t t' -> keeps noId noId t' t'' -> keeps noId noId t t''.
Proof.
  intros [_ H1 R1 C1] [Hw H2 R2 C2]. split; [done| | |auto].
  - intros id row He Hr Hb. destruct (H1 id row He Hr Hb) as (r1 & Hr1 & Hb1 & Hs1 & Hq1).
    destruct (H2 id r1 He Hr1 Hb1) as (r2 & ? & ? & Hs2 & Hq2). exists r2. split_and!; [done|done|split; congruence].
  - intros id row Hr. destruct (R2 id row Hr) as (r1 & Hr1 & [Hs1 Hq1] & Hst1).
    destruct (R1 id r1 Hr1) as (r0 & ? & [Hs0 Hq0] & Hst0). exists r0. split_and!; [done|split; congruence|auto].
Qed.

Lemma alter_keeps now id t :
  wfJobs t -> keeps noId noId t (with_jobs t (alter (cancelRow now) id (tile_cache_jobs t))).
Proof.
  intros Hw. destruct (tile_cache_jobs t !! id) as [j|] eqn:Hr.
  - assert (alter (cancelRow now) id (tile_cache_jobs t) = <[id := cancelRow now j]> (tile_cache_jobs t)) as ->.
    { apply map_eq. intros k. destruct (decide (k = id)) as [->|Hne].
      - by rewrite lookup_alter_eq, Hr, lookup_insert_eq.
      - by rewrite lookup_alter_ne, lookup_insert_ne by done. }
    by apply keeps_cancelRow.
  - unfold with_jobs. rewrite alter_id by (intros x Hx; congruence). destruct t. by apply keeps_refl.
Qed.

Lemma cancelLifecycle_keeps now t ws ids : wfJobs t -> keeps noId noId t (cancelLifecycleJobs now t ws ids).
Proof.
  intros Hw. unfold cancelLifecycleJobs. generalize (lifecycleJobs t ws ids) as l. intros l. revert t Hw.
  induction l as [|j l IH]; intros t Hw; cbn [foldl]; [by apply keeps_refl|].
  destruct (active j); [|by apply IH]. pose proof (alter_keeps now (JobID j) t Hw) as Hk.
  eapply keeps_trans; [exact Hk|]. apply IH, Hk.
Qed.

Lemma elem_of_jobsWhere f t j : j ∈ jobsWhere f t <-> f j = true /\ exists id, tile_cache_jobs t !! id = Some j.
Proof.
  unfold jobsWhere. rewrite list_elem_of_filter, list_elem_of_fmap. split.
  - intros [Hf ([k x] & -> & Hin)]. split; [done|]. exists k. by apply elem_of_map_to_list.
  - intros [Hf [k Hk]]. split; [done|]. exists (k, j). split; [done|]. by apply elem_of_map_to_list.
Qed.

Lemma elem_of_lifecycleJobs t ws ids j :
  j ∈ lifecycleJobs t ws ids <-> inLifecycle ws ids j = true /\ exists id, tile_cache_jobs t !! id = Some j.
Proof. unfold lifecycleJobs. rewrite (merge_sort_Permutation byCreated). apply elem_of_jobsWhere. Qed.

(** A purge only removes rows of jobs that are not active, and their chunks. *)
Lemma purgeLoop_keeps l t t' :
  wfJobs t -> (forall j, j ∈ l -> active j = false -> forall row, tile_cache_jobs t !! JobID j = Some row -> row = j) ->
  purgeLoop l t = inr t' -> keeps noId noId t t'.
Proof.
  revert t. induction l as [|j l IH]; intros t Hw Hl; cbn [purgeLoop].
  { intros [= <-]. by apply keeps_refl. }
  destruct (active j) eqn:Ha; [done|]. set (t1 := mkTables _ _). intros Hp.
  assert (Hk : keeps noId noId t t1).
  { split.
    - intros id x Hx. cbn in Hx. apply lookup_delete_Some in Hx as [_ Hx]. by apply Hw.
    - intros id row _ Hr Hb. exists row. split; [|done]. cbn. rewrite lookup_delete_ne; [done|]. intros <-.
      rewrite (Hl j ltac:(left) Ha row Hr) in Hb. by rewrite (active_busy _ Hb) in Ha.
    - intros id row Hr. cbn in Hr. apply lookup_delete_Some in Hr as [_ Hr]. by exists row.
    - intros id _ Hn k c Hc. cbn in Hc. apply map_lookup_filter_Some in Hc as [Hc _]. by apply (Hn k). }
  eapply keeps_trans; [exact Hk|]. apply IH; [apply Hk| |done].
  intros x Hx Hax row Hr. cbn in Hr. apply lookup_delete_Some in Hr as [_ Hr]. apply Hl; [by right|done|done].
Qed.

Lemma Purge_keeps t ws ids : wfJobs t -> keeps noId noId t (purgeLifecycleJobs t ws ids).2.
Proof.
  intros Hw. unfold purgeLifecycleJobs. destruct (purgeLoop _ _) as [e|t'] eqn:Hp; [by apply keeps_refl|].
  cbn. eapply purgeLoop_keeps; [done| |exact Hp].
  intros j [_ [id Hj]]%elem_of_lifecycleJobs _ row Hr. rewrite (Hw _ _ Hj) in Hr. congruence.
Qed.

Lemma UpdateChunk_keeps now c t : wfJobs t -> keeps noId noId t (UpdateTileCacheJobChunk now c t).
Proof.
  intros Hw. destruct (keeps_refl noId noId t Hw) as [H1 H2 H3 _]. split; [done..|].
  intros id _ Hn k x Hx. cbn in Hx. apply lookup_alter_Some in Hx as [(<- & old & Hold & ->)|[_ Hx]].
  - by apply (Hn (ChunkID c) old).
  - by apply (Hn k x).
Qed.

Lemma insertChunks_job now id chunks m m' :
  insertChunks now id chunks m = Some m' -> forall k c, m' !! k = Some c -> m !! k = Some c \/ ChunkJob c = id.
Proof.
  revert m. induction chunks as [|[n x] l IH]; intros m; cbn [insertChunks]; [intros [= ->]; auto|].
  destruct (m !! _); [done|]. intros Hi k c Hk. destruct (IH _ Hi k c Hk) as [Hc|]; [|by right].
  apply lookup_insert_Some in Hc as [[_ <-]|[_ Hc]]; [by right|by left].
Qed.

Lemma Replace_keeps now id chunks t t' :
  wfJobs t -> ReplaceTileCacheJobChunks now id chunks t = (None, t') -> keeps noId (eq id) t t'.
Proof.
  intros Hw. unfold ReplaceTileCacheJobChunks. destruct (insertChunks _ _ _ _) as [m|] eqn:Hi; [|done]. intros [= <-].
  destruct (keeps_refl noId noId t Hw) as [H1 H2 H3 _]. split; [done..|].
  intros id' Hne Hn k c Hk Hc. destruct (insertChunks_job _ _ _ _ _ Hi k c Hk) as [Hold|]; [|congruence].
  apply map_lookup_filter_Some in Hold as [Hold _]. by apply (Hn k c).
Qed.

(** ** Claiming *)

Lemma earlier_fold l e :
  let b := foldl (fun best x => if earlier best x then best else x) e l in b = e \/ b ∈ l.
Proof.
  revert e. induction l as [|x l IH]; intros e; cbn [foldl]; [by left|].
  destruct (earlier e x).
  - destruct (IH e) as [->|H]; [by left|right; by right].
  - destruct (IH x) as [->|H]; [right; left|right; by right].
Qed.

Lemma firstJob_elem l j : firstJob l = Some j -> j ∈ l.
Proof. destruct l as [|x l]; [done|]. intros [= <-]. destruct (earlier_fold l x) as [->|H]; [by left|by right]. Qed.

(** The claimed job was queued; its row is now running. *)
Lemma Claim_Some now t j t' :
  wfJobs t -> ClaimNextTileCacheJob now t = (Some j, t') ->
  exists old, tile_cache_jobs t !! JobID j = Some old /\ Status old = JobQueued /\ CancelRequested old = false /\
    tile_cache_jobs t' = <[JobID j := j]> (tile_cache_jobs t) /\ Status j = JobRunning /\ sameJob j old.
Proof.
  intros Hw. unfold ClaimNextTileCacheJob. destruct (firstJob _) as [old|] eqn:Hf; [|done]. intros [= <- <-].
  apply firstJob_elem, elem_of_jobsWhere in Hf as [[Hq Hc]%andb_true_iff [id Hid]].
  apply isStatus_spec in Hq. apply negb_true_iff in Hc. exists old. cbn. rewrite (Hw _ _ Hid). by split_and!.
Qed.

(** ** The invariant of the coordinator *)

(** What blocking a scope has done. *)
Definition covered (r : runner) (ws : string) (ids : list string) : Prop :=
  match ids with
  | [] => ws ∈ blockedWorkspaces r
  | _ => exists s, blockedResources r !! ws = Some s /\ forall id, id ∈ ids -> id ∈ s
  end.

(** The row of a job is that of a job being processed. *)
Definition live (t : jobTables) (j : Job) : Prop :=
  exists row, tile_cache_jobs t !! JobID j = Some row /\ busy row /\ sameJob row j.

(** A job whose chunks could not be stored: its worker will find none. *)
Definition doomed (r : runner) (j : Job) : Prop :=
  needsChunks (JobRequestOf j) = true /\ noChunks (tables r) (JobID j) /\ JobID j ∉ creating r.

Record runnerInv (r : runner) : Prop := {
  ri_wf : wfJobs (tables r);
  ri_live : forall w j, held r w j -> live (tables r) j \/ doomed r j;
  ri_row : forall w j row, held r w j -> tile_cache_jobs (tables r) !! JobID j = Some row ->
    Status row <> JobQueued /\ sameJob row j;
  ri_processing : forall w j, workers r !! w = Some (Processing j) -> live (tables r) j /\ JobID j ∉ creating r;
  ri_creating : forall id, id ∈ creating r -> noChunks (tables r) id /\
    (forall row, tile_cache_jobs (tables r) !! id = Some row -> needsChunks (JobRequestOf row) = true) /\
    (forall w j, held r w j -> JobID j = id -> needsChunks (JobRequestOf j) = true);
  ri_once : forall w w' j j', held r w j -> held r w' j' -> JobID j = JobID j' -> w = w';
  ri_covered : forall ws ids, (ws, ids) ∈ quiesced r -> covered r ws ids;
  ri_executing : forall ws ids w j, (ws, ids) ∈ quiesced r -> workers r !! w = Some (Executing j) ->
    inLifecycle ws ids j = true -> doomed r j;
  ri_idle : forall ws ids w j, (ws, ids) ∈ quiesced r -> workers r !! w = Some (Processing j) -> inLifecycle ws ids j = false
}.

Lemma live_keeps e c t t' j : keeps e c t t' -> ~ e (JobID j) -> live t j -> live t' j.
Proof.
  intros Hk He (row & Hr & Hb & Hs1 & Hs2). destruct (k_busy _ _ _ _ Hk _ row He Hr Hb) as (row' & ? & ? & Ht1 & Ht2).
  exists row'. split_and!; [done|done|split; congruence].
Qed.

(** Statements on existing rows, workers that let go of their jobs and the ends of [Create]. *)
Lemma inv_shrink r e c t ws' cr' :
  runnerInv r -> keeps e c (tables r) t ->
  (forall w p, ws' !! w = Some p -> p <> Stopped -> workers r !! w = Some p) ->
  cr' ⊆ creating r ->
  (forall id, c id -> id ∈ creating r /\ id ∉ cr') ->
  (forall w j, held (mkRunner t (blockedWorkspaces r) (blockedResources r) ws' cr' (quiesced r)) w j ->
     ~ e (JobID j) \/ JobID j ∈ creating r /\ JobID j ∉ cr' /\ noChunks t (JobID j)) ->
  runnerInv (mkRunner t (blockedWorkspaces r) (blockedResources r) ws' cr' (quiesced r)).
Proof.
  set (r' := mkRunner _ _ _ _ _ _). intros Hr Hk Hsub Hcr Hc He.
  assert (Hheld : forall w j, held r' w j -> held r w j).
  { intros w j (p & Hp & Hor). exists p. split; [|done]. apply Hsub; [done|]. destruct Hor as [-> | [-> | ->]]; done. }
  assert (Hkeep : forall j, doomed r j -> doomed r' j).
  { intros j (Hn & Hch & Hnot). split_and!; [done| |set_solver]. apply (k_chunks _ _ _ _ Hk); [|done].
    intros Hcj. by apply Hc in Hcj as [Hcj _]. }
  split; cbn [tables workers creating quiesced].
  - apply Hk.
  - intros w j Hh. destruct (ri_live _ Hr w j (Hheld _ _ Hh)) as [Hl|Hd]; [|right; by apply Hkeep].
    destruct (He w j Hh) as [Hne|(Hin & Hout & Hno)]; [left; by eapply live_keeps|right].
    split_and!; [|done|done].
    destruct (ri_creating _ Hr _ Hin) as (_ & _ & Hn). by apply (Hn w j); [apply Hheld|].
  - intros w j row' Hh Hrow'. destruct (k_rows _ _ _ _ Hk _ _ Hrow') as (row & Hrow & [Hs1 Hs2] & Hq).
    destruct (ri_row _ Hr w j row (Hheld _ _ Hh) Hrow) as [Hnq [Ht1 Ht2]]. split; [auto|split; congruence].
  - intros w j Hw. assert (Hh : held r' w j) by (eexists; split; [exact Hw|auto]).
    destruct (ri_processing _ Hr w j) as [Hl Hnot]; [by apply Hsub|].
    destruct (He w j Hh) as [Hne|(Hin & _)]; [|done]. split; [by eapply live_keeps|set_solver].
  - intros id Hin. destruct (ri_creating _ Hr id) as (Hn & Hrows & Hw); [set_solver|]. split_and!.
    + apply (k_chunks _ _ _ _ Hk); [|done]. by intros [_ Hout]%Hc.
    + intros row' Hrow'. destruct (k_rows _ _ _ _ Hk _ _ Hrow') as (row & Hrow & [_ Hs2] & _). rewrite Hs2. by apply Hrows.
    + intros w j Hh. by apply (Hw w), Hheld.
  - intros w1 w2 j1 j2 H1%Hheld H2%Hheld. by apply (ri_once _ Hr).
  - apply Hr.
  - intros ws ids w j Hq Hw Hin. apply Hkeep. eapply (ri_executing _ Hr); [exact Hq|by apply Hsub|done].
  - intros ws ids w j Hq Hw. eapply (ri_idle _ Hr); [exact Hq|by apply Hsub].
Qed.

Lemma inv_tables r t : runnerInv r -> keeps noId noId (tables r) t -> runnerInv (set_tables r t).
Proof. intros Hr Hk. apply (inv_shrink r noId noId); [done..|]. intros w j _. left. intros []. Qed.

(** A worker lets go of its job; the others hold other jobs. *)
Lemma inv_leave r w j t p :
  runnerInv r -> held r w j -> keeps (fun id => id = JobID j) noId (tables r) t ->
  (p = None \/ p = Some Stopped) -> runnerInv (set_worker r w p t).
Proof.
  intros Hr Hh Hk Hp.
  assert (Hold : forall w' x, workers (set_worker r w p t) !! w' = Some x -> x <> Stopped -> w' <> w /\ workers r !! w' = Some x).
  { intros w' x Hx Hne. destruct Hp as [-> | ->]; cbn in Hx.
    - apply lookup_delete_Some in Hx as [? ?]. split; [congruence|done].
    - apply lookup_insert_Some in Hx as [[_ <-]|[? ?]]; [done|]. split; [congruence|done]. }
  apply (inv_shrink r (fun id => id = JobID j) noId); [done|done| |done|done|].
  - intros w' x Hx Hne. by apply Hold.
  - intros w' x (q & Hq & Hor). left. intros Heq. apply Hold in Hq as [Hne Hq]; [|destruct Hor as [-> | [-> | ->]]; done].
    apply Hne, (ri_once _ Hr w' w x j); [by exists q|done|done].
Qed.

(** The ends of [Create]. *)
Lemma inv_created r id t :
  runnerInv r -> id ∈ creating r -> keeps noId (eq id) (tables r) t -> runnerInv (created id r t).
Proof.
  intros Hr Hin Hk. apply (inv_shrink r noId (eq id)); [done|done|done|set_solver|intros ? <-; set_solver|].
  intros w j _. left. intros [].
Qed.

Lemma inv_giveUp r now id message : runnerInv r -> id ∈ creating r -> runnerInv (giveUp now id message r).
Proof.
  intros Hr Hin.
  assert (Hk : keeps (fun x => x = id) noId (tables r) (UpdateTileCacheJob now id (finishFailed now message) (tables r)).2).
  { apply Update_keeps; [apply Hr|by left|by eexists]. }
  apply (inv_shrink r (fun x => x = id) noId); [done|done|done|set_solver|done|].
  intros w j Hh. destruct (decide (JobID j = id)) as [->|Hne]; [right|by left]. split_and!; [done|set_solver|].
  apply (k_chunks _ _ _ _ Hk); [by intros []|]. by apply (ri_creating _ Hr).
Qed.

Lemma inv_create r now id input : runnerInv r -> unused r id -> runnerInv (create now id input r).
Proof.
  intros Hr (Hcr & Hch%noChunks_list & Hfree). unfold create, CreateTileCacheJob.
  destruct (tile_cache_jobs (tables r) !! id) as [x|] eqn:Hid; [done|]. set (job := mkJob _ _ _ _ _ _ _ _ _ _ _ _ _ _ _ _ _ _).
  set (cr' := if needsChunks _ then _ else _). set (r' := mkRunner _ _ _ _ _ _).
  assert (Hcr' : forall x, x <> id -> x ∈ cr' <-> x ∈ creating r) by (intros x Hx; unfold cr'; destruct (needsChunks _); set_solver).
  assert (Hl : forall w j, held r w j -> tile_cache_jobs (tables r') !! JobID j = tile_cache_jobs (tables r) !! JobID j).
  { intros w j Hh%Hfree. cbn. by rewrite lookup_insert_ne by congruence. }
  assert (Hd : forall w j, held r w j -> doomed r j -> doomed r' j).
  { intros w j Hh%Hfree (? & ? & ?). split_and!; [done|done|]. cbn. by rewrite Hcr'. }
  assert (Hlive : forall w j, held r w j -> live (tables r) j -> live (tables r') j).
  { intros w j Hh. unfold live. by rewrite (Hl w j Hh). }
  split; cbn [workers creating quiesced].
  - intros i x Hx. cbn in Hx. apply lookup_insert_Some in Hx as [[<- <-]|[_ Hx]]; [done|by apply (ri_wf _ Hr)].
  - intros w j Hh. destruct (ri_live _ Hr w j Hh); [left|right]; eauto.
  - intros w j row Hh. rewrite (Hl w j Hh). by apply (ri_row _ Hr w).
  - intros w j Hw. assert (Hh : held r w j) by (eexists; split; [exact Hw|auto]).
    destruct (ri_processing _ Hr w j Hw). split; [by eapply Hlive|]. change (JobID j ∉ cr').
    rewrite Hcr'; [done|by eapply Hfree].
  - intros i Hi. change (i ∈ cr') in Hi. destruct (decide (i = id)) as [->|Hne].
    + split_and!; [done| |intros w j Hh Heq; by apply Hfree in Hh]. intros row. cbn. rewrite lookup_insert_eq. intros [= <-].
      cbn. unfold cr' in Hi. destruct (needsChunks _); done.
    + rewrite Hcr' in Hi by done. destruct (ri_creating _ Hr i Hi) as (? & ? & ?). split_and!; [done| |done].
      intros row. cbn. rewrite lookup_insert_ne by done. auto.
  - apply (ri_once _ Hr).
  - apply (ri_covered _ Hr).
  - intros ws ids w j Hq Hw Hin. eapply Hd; [eexists; split; [exact Hw|auto]|]. by eapply (ri_executing _ Hr).
  - apply (ri_idle _ Hr).
Qed.

Lemma held_insert r w p t w' x :
  held (set_worker r w (Some p) t) w' x ->
  w' = w /\ (p = Claimed x \/ p = Executing x \/ p = Processing x) \/ w' <> w /\ held r w' x.
Proof.
  intros (q & Hq & Hor). cbn in Hq. apply lookup_insert_Some in Hq as [[<- <-]|[Hne Hq]]; [by left|right].
  split; [done|]. by exists q.
Qed.

Lemma inv_claim r now w : runnerInv r -> workers r !! w = None -> runnerInv (claim now w r).
Proof.
  intros Hr Hidle. unfold claim. destruct (ClaimNextTileCacheJob now (tables r)) as [[j|] t'] eqn:Hc; [|done].
  destruct (Claim_Some _ _ _ _ (ri_wf _ Hr) Hc) as (old & Hold & Hst & _ & Hrows & Hrun & Hsame).
  assert (Hchunks : tile_cache_job_chunks t' = tile_cache_job_chunks (tables r)).
  { unfold ClaimNextTileCacheJob in Hc. destruct (firstJob _); [|done]. by injection Hc as _ <-. }
  assert (Hother : forall w' x, held r w' x -> JobID x <> JobID j).
  { intros w' x Hx Heq. rewrite <- Heq in Hold. by destruct (ri_row _ Hr w' x old Hx Hold). }
  assert (Hlk : forall x, JobID x <> JobID j -> tile_cache_jobs t' !! JobID x = tile_cache_jobs (tables r) !! JobID x).
  { intros x Hx. by rewrite Hrows, lookup_insert_ne. }
  assert (Hpc : forall w' q, workers (set_worker r w (Some (Claimed j)) t') !! w' = Some q -> q <> Claimed j -> workers r !! w' = Some q).
  { intros w' q Hq Hne. cbn in Hq. by apply lookup_insert_Some in Hq as [[_ <-]|[_ Hq]]. }
  assert (Hheld : forall w' x, held (set_worker r w (Some (Claimed j)) t') w' x -> w' = w /\ x = j \/ w' <> w /\ held r w' x).
  { intros w' x [[-> [[= ->]|[[=]|[=]]]]|?]%held_insert; auto. }
  assert (Hno : forall id, noChunks (tables r) id -> noChunks t' id) by (intros id; unfold noChunks; by rewrite Hchunks).
  split; cbn [tables quiesced creating set_worker].
  - intros id x Hx. rewrite Hrows in Hx. apply lookup_insert_Some in Hx as [[<- <-]|[_ Hx]]; [done|by apply (ri_wf _ Hr)].
  - intros w' x [[-> ->]|[Hne Hx]]%Hheld.
    + left. exists j. rewrite Hrows, lookup_insert_eq. split_and!; [done|by left|done].
    + destruct (ri_live _ Hr w' x Hx) as [Hl|(? & ? & ?)]; [left|right; split_and!; auto].
      unfold live. rewrite Hlk; [done|by eapply Hother].
  - intros w' x row [[-> ->]|[Hne Hx]]%Hheld.
    + rewrite Hrows, lookup_insert_eq. intros [= <-]. by rewrite Hrun.
    + rewrite Hlk by (by eapply Hother). by apply (ri_row _ Hr w').
  - intros w' x Hx%Hpc; [|done]. destruct (ri_processing _ Hr w' x Hx) as [Hl ?]. split; [|done].
    unfold live. rewrite Hlk; [done|]. eapply Hother. eexists. split; [exact Hx|auto].
  - intros id Hid. destruct (ri_creating _ Hr id Hid) as (Hn & Hneeds & Hw). split_and!; [auto| |].
    + intros row. rewrite Hrows. intros [[<- <-]|[_ Hx]]%lookup_insert_Some; [|by apply Hneeds].
      destruct Hsame as [_ ->]. by apply Hneeds.
    + intros w' x [[-> ->]|[_ Hx]]%Hheld Heq; [|by apply (Hw w')]. destruct Hsame as [_ ->]. apply Hneeds. by rewrite <- Heq.
  - intros w1 w2 j1 j2 H1%Hheld H2%Hheld Heq.
    destruct H1 as [[-> ->]|[? H1]], H2 as [[-> ->]|[? H2]]; [done|by apply Hother in H2|by apply Hother in H1|].
    by apply (ri_once _ Hr w1 w2 j1 j2).
  - apply (ri_covered _ Hr).
  - intros ws ids w' x Hq Hx%Hpc Hin; [|done]. destruct (ri_executing _ Hr ws ids w' x Hq Hx Hin) as (? & ? & ?). split_and!; auto.
  - intros ws ids w' x Hq Hx%Hpc; [|done]. by apply (ri_idle _ Hr ws ids w' x).
Qed.

(** A job of a covered scope is blocked. *)
Lemma covered_blocked r ws ids j :
  covered r ws ids -> inLifecycle ws ids j = true ->
  lifecycleBlocked r (JobWorkspace j) (reqResourceID (JobRequestOf j)) (AllResources (JobRequestOf j)) = true.
Proof.
  unfold inLifecycle, lifecycleBlocked. intros Hc [Hws%String.eqb_eq Hin]%andb_true_iff. rewrite Hws.
  destruct ids as [|i0 ids]; cbn in Hc.
  - by rewrite bool_decide_true by done.
  - destruct Hc as (s & -> & Hs). apply orb_true_iff. right. cbn [orb] in Hin.
    apply orb_true_iff in Hin as [->|Hin%bool_decide_eq_true]; [done|].
    apply orb_true_iff. right. apply bool_decide_true. by apply Hs.
Qed.

(** A worker that goes on with the job it holds. *)
Lemma inv_go_on r w j p :
  runnerInv r -> held r w j -> (p = Executing j \/ p = Processing j) ->
  (p = Executing j -> forall ws ids, (ws, ids) ∈ quiesced r -> inLifecycle ws ids j = false) ->
  (p = Processing j -> live (tables r) j /\ JobID j ∉ creating r /\
     forall ws ids, (ws, ids) ∈ quiesced r -> inLifecycle ws ids j = false) ->
  runnerInv (set_worker r w (Some p) (tables r)).
Proof.
  intros Hr Hh Hp Hex Hpr.
  assert (Hheld : forall w' x, held (set_worker r w (Some p) (tables r)) w' x -> held r w' x).
  { intros w' x [[-> Hx]|[_ Hx]]%held_insert; [|done]. assert (x = j) as ->; [|done].
    destruct Hp as [->| ->]; destruct Hx as [Hx|[Hx|Hx]]; congruence. }
  split; cbn [tables quiesced creating set_worker]; try apply Hr.
  - intros w' x Hx. by apply (ri_live _ Hr w'), Hheld.
  - intros w' x row Hx. by apply (ri_row _ Hr w'), Hheld.
  - intros w' x Hx. cbn in Hx. apply lookup_insert_Some in Hx as [[_ Hx]|[_ Hx]]; [|by apply (ri_processing _ Hr w')].
    destruct Hp as [->| ->]; [done|]. injection Hx as <-. by destruct (Hpr eq_refl) as (? & ? & _).
  - intros id Hid. destruct (ri_creating _ Hr id Hid) as (? & ? & Hw). split_and!; [done|done|].
    intros w' x Hx. by apply (Hw w'), Hheld.
  - intros w1 w2 j1 j2 H1%Hheld H2%Hheld. by apply (ri_once _ Hr).
  - intros ws ids w' x Hq Hx Hin. cbn in Hx. apply lookup_insert_Some in Hx as [[_ Hx]|[_ Hx]]; [|by apply (ri_executing _ Hr ws ids w')].
    destruct Hp as [->| ->]; [|done]. injection Hx as <-. by rewrite (Hex eq_refl ws ids Hq) in Hin.
  - intros ws ids w' x Hq Hx. cbn in Hx. apply lookup_insert_Some in Hx as [[_ Hx]|[_ Hx]]; [|by apply (ri_idle _ Hr ws ids w')].
    destruct Hp as [->| ->]; [done|]. injection Hx as <-. destruct (Hpr eq_refl) as (_ & _ & Hs). by apply Hs.
Qed.

Lemma inv_check r now w j : runnerInv r -> workers r !! w = Some (Claimed j) -> runnerInv (check now w j r).
Proof.
  intros Hr Hw. assert (Hh : held r w j) by (eexists; split; [exact Hw|auto]). unfold check.
  destruct (lifecycleBlocked _ _ _ _) eqn:Hbl.
  - apply (inv_leave r w j _ None Hr Hh); [|by left]. apply Update_keeps; [apply Hr|by left|by eexists].
  - apply (inv_go_on r w j); [done|done|by left| |done]. intros _ ws ids Hq. apply not_true_iff_false. intros Hin.
    by rewrite (covered_blocked r ws ids j (ri_covered _ Hr ws ids Hq) Hin) in Hbl.
Qed.

(** Chunks to process, or no need of chunks: the worker does not hold a job without chunks. *)
Lemma inv_process r w j :
  runnerInv r -> workers r !! w = Some (Executing j) ->
  needsChunks (JobRequestOf j) = false \/ ListTileCacheJobChunks (tables r) (JobID j) <> [] ->
  runnerInv (set_worker r w (Some (Processing j)) (tables r)).
Proof.
  intros Hr Hw Hor. assert (Hh : held r w j) by (eexists; split; [exact Hw|auto]).
  assert (Hnd : ~ doomed r j).
  { intros (Hn & Hc & _). destruct Hor as [Ho|Ho]; [congruence|]. by apply Ho, noChunks_list. }
  apply (inv_go_on r w j); [done|done|by right|done|]. intros _. split_and!.
  - by destruct (ri_live _ Hr w j Hh).
  - intros Hin. destruct (ri_creating _ Hr _ Hin) as (Hc & _ & Hn). destruct Hor as [Ho|Ho].
    + by rewrite (Hn w j Hh eq_refl) in Ho.
    + by apply Ho, noChunks_list.
  - intros ws ids Hq. apply not_true_iff_false. intros Hin. by apply Hnd, (ri_executing _ Hr ws ids w).
Qed.

Lemma inv_begin r now w j : runnerInv r -> workers r !! w = Some (Executing j) -> runnerInv (begin now w j r).
Proof.
  intros Hr Hw. assert (Hh : held r w j) by (eexists; split; [exact Hw|auto]). unfold begin.
  destruct (ListTileCacheJobChunks _ _) as [|x l] eqn:Hl; [destruct (needsChunks _) eqn:Hn|].
  - apply (inv_leave r w j _ None Hr Hh); [|by left]. apply Update_keeps; [apply Hr|by left|by eexists].
  - apply inv_process; [done|done|by left].
  - apply inv_process; [done|done|right]. by rewrite Hl.
Qed.

Lemma inv_block r ws ids : runnerInv r -> runnerInv (block r ws ids).
Proof.
  intros Hr. assert (Hcov : forall ws' ids', (ws', ids') ∈ quiesced r -> covered (block r ws ids) ws' ids').
  { intros ws' ids' Hq. pose proof (ri_covered _ Hr ws' ids' Hq) as Hc. destruct ids as [|i0 ids], ids' as [|i1 ids']; cbn in *.
    - set_solver.
    - done.
    - done.
    - destruct Hc as (s & Hs & Hin). destruct (decide (ws = ws')) as [<-|Hne].
      + rewrite lookup_insert_eq, Hs. eexists. split; [done|]. intros id Hid. apply elem_of_union. right. cbn. by apply Hin.
      + rewrite lookup_insert_ne by done. eauto. }
  destruct Hr, ids; by split.
Qed.

(** When a scope has no active job, a worker that holds one of its jobs will find no chunks. *)
Lemma no_active_idle r ws ids w j :
  runnerInv r -> activeLifecycleJobs (tables r) ws ids = 0 -> held r w j -> inLifecycle ws ids j = true -> ~ live (tables r) j.
Proof.
  intros Hr Hz Hh Hin (row & Hrow & Hb & Hs1 & Hs2).
  assert (Hel : row ∈ filter (fun j => active j = true) (lifecycleJobs (tables r) ws ids)).
  { apply list_elem_of_filter. split; [by apply active_busy|]. apply elem_of_lifecycleJobs. split; [|eauto].
    unfold inLifecycle in *. by rewrite Hs1, Hs2. }
  unfold activeLifecycleJobs in Hz. destruct (filter _ _); [by apply elem_of_nil in Hel|]. cbn in Hz. lia.
Qed.

Lemma inv_quiesced r ws ids :
  runnerInv r -> covered r ws ids -> activeLifecycleJobs (tables r) ws ids = 0 ->
  runnerInv (mkRunner (tables r) (blockedWorkspaces r) (blockedResources r) (workers r) (creating r) ((ws, ids) :: quiesced r)).
Proof.
  intros Hr Hcov Hz. split; cbn [tables quiesced creating workers]; try apply Hr.
  - intros ws' ids' [[= -> ->]|Hq]%elem_of_cons; [done|by apply (ri_covered _ Hr)].
  - intros ws' ids' w j [[= -> ->]|Hq]%elem_of_cons Hx Hin; [|by apply (ri_executing _ Hr ws' ids' w j)].
    assert (Hh : held r w j) by (eexists; split; [exact Hx|auto]).
    destruct (ri_live _ Hr w j Hh) as [Hl|]; [|done]. by destruct (no_active_idle r ws ids w j Hr Hz Hh Hin).
  - intros ws' ids' w j [[= -> ->]|Hq]%elem_of_cons Hx; [|by apply (ri_idle _ Hr ws' ids' w j)].
    assert (Hh : held r w j) by (eexists; split; [exact Hx|auto]). apply not_true_iff_false. intros Hin.
    apply (no_active_idle r ws ids w j Hr Hz Hh Hin), (ri_processing _ Hr w j Hx).
Qed.

Lemma inv_start t : wfJobs t -> runnerInv (startRunner t).
Proof.
  intros Hw.
  assert (Hnone : forall w j, ~ held (startRunner t) w j).
  { intros w j (p & Hp & _). cbn in Hp. by rewrite lookup_empty in Hp. }
  split; [done|intros w j Hh; by apply Hnone in Hh|intros w j row Hh; by apply Hnone in Hh| | |
    intros w w' j j' Hh; by apply Hnone in Hh| | |]; cbn.
  - intros w j Hx. by rewrite lookup_empty in Hx.
  - intros id Hid. set_solver.
  - intros ws ids Hq. set_solver.
  - intros ws ids w j Hq. set_solver.
  - intros ws ids w j Hq. set_solver.
Qed.

Lemma inv_restart r now : runnerInv r -> runnerInv (restart now r).
Proof.
  intros Hr. apply inv_start. intros id j Hj. cbn in Hj. rewrite lookup_fmap in Hj. apply fmap_Some in Hj as (x & Hx & ->).
  rewrite <- (ri_wf _ Hr _ _ Hx). unfold resetRow. destruct (isStatus x JobRunning); destruct (isStatus _ JobCancelling); done.
Qed.

Lemma ending_settles now t j u : ending now t j u -> exists s, upStatus u = Some s /\ s <> JobQueued.
Proof.
  intros [message|entries bytes|s u' _ Hc]; [by eexists|by eexists|]. unfold conclude in Hc.
  repeat case_match; simplify_eq; by eexists.
Qed.

Lemma runner_step_inv r r' : runnerInv r -> runnerStep r r' -> runnerInv r'.
Proof.
  intros Hr Hs. pose proof (ri_wf _ Hr) as Hw.
  destruct Hs as [| | | | | | | |? ? ? H|? ? ? ? H|? ? ? ? ? H|? ? ? ? ? H|? ? ? ? ? H|? ? ? [H|H]|? ? ? H| | | | |];
    try (assert (Hh : held r w j) by (eexists; split; [exact H|auto])).
  - by apply inv_create.
  - apply inv_created; [done|done|]. by eapply Replace_keeps.
  - by apply inv_giveUp.
  - apply inv_created; [done|done|by apply keeps_refl].
  - by apply inv_tables, UpdateChunk_keeps.
  - by apply inv_tables, Cancel_keeps.
  - by apply inv_claim.
  - by apply inv_check.
  - apply (inv_leave r w j _ None Hr Hh); [by apply keeps_refl|by left].
  - by apply inv_begin.
  - apply (inv_leave r w j _ None Hr Hh); [|by left]. apply Update_keeps; [done|by left|by eexists].
  - apply inv_tables, Update_keeps; [done|done|by right|by eexists].
  - apply (inv_leave r w j _ None Hr Hh); [|by left]. apply Update_keeps; [done|by left|by eapply ending_settles].
  - apply (inv_leave r w j _ None Hr Hh); [by apply keeps_refl|by left].
  - apply (inv_leave r w j _ None Hr Hh); [by apply keeps_refl|by left].
  - apply (inv_leave r w j _ (Some Stopped) Hr Hh); [by apply keeps_refl|by right].
  - by apply inv_block.
  - by apply inv_tables, cancelLifecycle_keeps.
  - by apply inv_quiesced.
  - by apply inv_tables, Purge_keeps.
  - by apply inv_restart.
Qed.

Lemma runner_reachable_inv t r : wfJobs t -> reachable t r -> runnerInv r.
Proof. intros Hw Hr. induction Hr as [|r r' _ IH Hs]; [by apply inv_start|by eapply runner_step_inv]. Qed.

(** ** The tiles of a chunk *)

Definition tilesOf (c : JobChunk) : list (Z * Z * Z) := tileAt c <$> seqZ 0 (chunkTotal c).

Definition wfChunk (c : JobChunk) : Prop := MinCol c <= MaxCol c /\ MinRow c <= MaxRow c.

Lemma chunkTotal_pos c : wfChunk c -> 1 <= chunkWidth c /\ 1 <= chunkTotal c.
Proof. unfold wfChunk, chunkTotal, chunkWidth. intros []. nia. Qed.

Lemma elem_of_tilesOf c z col row :
  wfChunk c ->
  (z, col, row) ∈ tilesOf c <-> z = ChunkZoom c /\ MinCol c <= col <= MaxCol c /\ MinRow c <= row <= MaxRow c.
Proof.
  intros Hw. destruct (chunkTotal_pos c Hw) as [Hw1 _]. unfold tilesOf, tileAt. rewrite list_elem_of_fmap. split.
  - intros (o & [= -> -> ->] & Ho). apply elem_of_seqZ in Ho.
    pose proof (Z.mod_pos_bound o (chunkWidth c) ltac:(lia)).
    assert (0 <= o / chunkWidth c < MaxRow c - MinRow c + 1).
    { split; [apply Z.div_pos; lia|]. apply Z.div_lt_upper_bound; [lia|]. unfold chunkTotal in Ho. lia. }
    unfold chunkWidth in *. split; [done|]. lia.
  - intros (-> & Hc & Hr). exists ((row - MinRow c) * chunkWidth c + (col - MinCol c)).
    assert (Hlt : 0 <= col - MinCol c < chunkWidth c) by (unfold chunkWidth; lia).
    assert (((row - MinRow c) * chunkWidth c + (col - MinCol c)) mod chunkWidth c = col - MinCol c) as ->
      by (by rewrite Z.add_comm, Z.mod_add, Z.mod_small by lia).
    assert (((row - MinRow c) * chunkWidth c + (col - MinCol c)) / chunkWidth c = row - MinRow c) as ->
      by (rewrite Z.add_comm, Z.div_add, Z.div_small by lia; lia).
    split; [repeat f_equal; lia|]. apply elem_of_seqZ. unfold chunkTotal. nia.
Qed.

Lemma tilesOf_NoDup c : wfChunk c -> NoDup (tilesOf c).
Proof.
  intros Hw. destruct (chunkTotal_pos c Hw) as [Hw1 _]. apply NoDup_fmap_2_strong; [|apply NoDup_seqZ].
  intros a b _ _ [= Hm Hd]. pose proof (Z.div_mod a (chunkWidth c)). pose proof (Z.div_mod b (chunkWidth c)). nia.
Qed.

Lemma length_tilesOf c : wfChunk c -> Z.of_nat (length (tilesOf c)) = chunkTotal c.
Proof. intros Hw. destruct (chunkTotal_pos c Hw). unfold tilesOf. rewrite length_fmap, length_seqZ. lia. Qed.

(** ** Blocks *)

Lemma elem_of_loopValues fuel x hi step y :
  1 <= step -> hi - x + 1 <= Z.of_nat fuel ->
  y ∈ loopValues fuel x hi step <-> exists k, 0 <= k /\ y = x + k * step /\ y <= hi.
Proof.
  intros Hs. revert x. induction fuel as [|fuel IH]; intros x Hf; cbn [loopValues].
  - rewrite elem_of_nil. split; [done|]. intros (k & Hk & -> & Hle). nia.
  - destruct (Z.leb_spec x hi) as [Hx|Hx].
    + rewrite elem_of_cons, IH by lia. split.
      * intros [->|(k & Hk & -> & Hle)]; [exists 0; lia|exists (k + 1); nia].
      * intros (k & Hk & -> & Hle). destruct (decide (k = 0)) as [->|Hne]; [left; lia|right]. exists (k - 1). nia.
    + rewrite elem_of_nil. split; [done|]. intros (k & Hk & -> & Hle). nia.
Qed.

Lemma NoDup_loopValues fuel x hi step : 1 <= step -> NoDup (loopValues fuel x hi step).
Proof.
  intros Hs. revert x. induction fuel as [|fuel IH]; intros x; cbn [loopValues]; [constructor|].
  destruct (x <=? hi); [|constructor]. constructor; [|apply IH].
  assert (Hlow : forall f a y, y ∈ loopValues f a hi step -> a <= y).
  { intros f. induction f as [|f IHf]; intros a y; cbn [loopValues]; [by intros ?%elem_of_nil|].
    destruct (a <=? hi); [|by intros ?%elem_of_nil]. intros [->|Hy]%elem_of_cons; [lia|]. apply IHf in Hy. lia. }
  intros Hin%Hlow. lia.
Qed.

Lemma elem_of_rangeBy lo hi step y :
  1 <= step -> y ∈ rangeBy lo hi step <-> exists k, 0 <= k /\ y = lo + k * step /\ y <= hi.
Proof. intros Hs. unfold rangeBy. apply elem_of_loopValues; [done|lia]. Qed.

(** Every value of a range lies in one block of the range. *)
Lemma block_of lo hi step v :
  1 <= step -> lo <= v <= hi -> exists s, s ∈ rangeBy lo hi step /\ s <= v <= Z.min hi (s + step - 1).
Proof.
  intros Hs Hv. exists (lo + (v - lo) / step * step).
  pose proof (Z.div_mod (v - lo) step ltac:(lia)). pose proof (Z.mod_pos_bound (v - lo) step ltac:(lia)).
  assert (0 <= (v - lo) / step) by (apply Z.div_pos; lia). split; [|nia].
  apply elem_of_rangeBy; [done|]. exists ((v - lo) / step). split_and!; [done|done|nia].
Qed.

Lemma block_unique lo hi step v s s' :
  1 <= step -> s ∈ rangeBy lo hi step -> s' ∈ rangeBy lo hi step ->
  s <= v <= Z.min hi (s + step - 1) -> s' <= v <= Z.min hi (s' + step - 1) -> s = s'.
Proof.
  intros Hs (k & ? & -> & ?)%elem_of_rangeBy (k' & ? & -> & ?)%elem_of_rangeBy ? ?; [|done..].
  assert (k = k') as ->; [|done]. nia.
Qed.

Section Zoom.
Context (zoom minCol maxCol minRow maxRow : Z).
Context (Hc : minCol <= maxCol) (Hr : minRow <= maxRow).

Abbreviation columnBlock := (Z.min (maxCol - minCol + 1) 32).
Abbreviation rowBlock := (Z.max 1 (1024 / columnBlock)).

Lemma block_bounds : 1 <= columnBlock /\ 1 <= rowBlock /\ columnBlock * rowBlock <= 1024.
Proof.
  assert (Hcb : 1 <= columnBlock <= 32) by lia. split; [lia|]. split; [lia|].
  pose proof (Z.mul_div_le 1024 columnBlock ltac:(lia)).
  assert (1 <= 1024 / columnBlock) by (apply Z.div_le_lower_bound; lia). nia.
Qed.

Lemma elem_of_zoomChunks c :
  c ∈ zoomChunks zoom minCol maxCol minRow maxRow <->
  exists row col, row ∈ rangeBy minRow maxRow rowBlock /\ col ∈ rangeBy minCol maxCol columnBlock /\
    c = newChunk zoom col (Z.min maxCol (col + columnBlock - 1)) row (Z.min maxRow (row + rowBlock - 1)).
Proof.
  unfold zoomChunks. rewrite list_elem_of_bind. split.
  - intros (row & Hin & Hrow). apply list_elem_of_bind in Hin as (col & ->%list_elem_of_singleton & Hcol). eauto.
  - intros (row & col & Hrow & Hcol & ->). exists row. split; [|done]. apply list_elem_of_bind. exists col.
    split; [by apply list_elem_of_singleton|done].
Qed.

Lemma zoomChunks_wf c :
  c ∈ zoomChunks zoom minCol maxCol minRow maxRow ->
  wfChunk c /\ ChunkZoom c = zoom /\ NextOffset c = 0 /\ chunkTotal c <= 1024.
Proof.
  pose proof block_bounds as (Hcb & Hrb & Hmul).
  intros (row & col & Hrow & Hcol & ->)%elem_of_zoomChunks.
  apply elem_of_rangeBy in Hrow as (k & ? & -> & ?); [|done]. apply elem_of_rangeBy in Hcol as (k' & ? & -> & ?); [|done].
  split_and!; [split; cbn; lia|done|done|]. unfold chunkTotal, chunkWidth. cbn. nia.
Qed.

Lemma zoom_tiles z col row :
  (z, col, row) ∈ (zoomChunks zoom minCol maxCol minRow maxRow ≫= tilesOf) <->
  z = zoom /\ minCol <= col <= maxCol /\ minRow <= row <= maxRow.
Proof.
  pose proof block_bounds as (Hcb & Hrb & _). rewrite list_elem_of_bind. split.
  - intros (c & Ht & Hin). destruct (zoomChunks_wf c Hin) as (Hw & Hz & _).
    apply elem_of_tilesOf in Ht as (-> & ? & ?); [|done].
    apply elem_of_zoomChunks in Hin as (r0 & c0 & Hr0 & Hc0 & ->). cbn in *.
    apply elem_of_rangeBy in Hr0 as (k & ? & -> & ?); [|done]. apply elem_of_rangeBy in Hc0 as (k' & ? & -> & ?); [|done]. lia.
  - intros (-> & Hcol & Hrow).
    destruct (block_of minRow maxRow rowBlock row Hrb Hrow) as (r0 & Hr0 & Hin0).
    destruct (block_of minCol maxCol columnBlock col Hcb Hcol) as (c0 & Hc0 & Hin1).
    eexists. split; [|apply elem_of_zoomChunks; exists r0, c0; by split_and!].
    apply elem_of_tilesOf; [apply (zoomChunks_wf (newChunk zoom c0 _ r0 _)), elem_of_zoomChunks; exists r0, c0; by split_and!|].
    cbn. lia.
Qed.

Lemma zoom_NoDup : NoDup (zoomChunks zoom minCol maxCol minRow maxRow ≫= tilesOf).
Proof.
  pose proof block_bounds as (Hcb & Hrb & _). apply NoDup_bind.
  - intros c c' [[z col] row] Hin Hin' Ht Ht'.
    pose proof (zoomChunks_wf c Hin) as (Hw & _). pose proof (zoomChunks_wf c' Hin') as (Hw' & _).
    apply elem_of_tilesOf in Ht as (_ & Hc1 & Hr1); [|done]. apply elem_of_tilesOf in Ht' as (_ & Hc2 & Hr2); [|done].
    apply elem_of_zoomChunks in Hin as (r0 & c0 & Hr0 & Hc0 & ->), Hin' as (r1 & c1 & Hr0' & Hc0' & ->). cbn in *.
    rewrite (block_unique minRow maxRow rowBlock row r0 r1), (block_unique minCol maxCol columnBlock col c0 c1) by (done || lia). done.
  - intros c Hin. apply tilesOf_NoDup, (zoomChunks_wf c Hin).
  - unfold zoomChunks. apply NoDup_bind.
    + intros r0 r1 c _ _ (c0 & H0%list_elem_of_singleton & _)%list_elem_of_bind (c1 & H1%list_elem_of_singleton & _)%list_elem_of_bind.
      rewrite H0 in H1. by injection H1.
    + intros r0 _. apply NoDup_bind.
      * intros c0 c1 c _ _ ->%list_elem_of_singleton H1%list_elem_of_singleton. by injection H1.
      * intros c0 _. apply NoDup_singleton.
      * by apply NoDup_loopValues.
    + by apply NoDup_loopValues.
Qed.

Lemma zoom_length :
  Z.of_nat (length (zoomChunks zoom minCol maxCol minRow maxRow ≫= tilesOf)) = (maxCol - minCol + 1) * (maxRow - minRow + 1).
Proof.
  set (whole := newChunk zoom minCol maxCol minRow maxRow). assert (Hw : wfChunk whole) by done.
  assert (Hp : (zoomChunks zoom minCol maxCol minRow maxRow ≫= tilesOf) ≡ₚ tilesOf whole).
  { apply NoDup_Permutation; [apply zoom_NoDup|by apply tilesOf_NoDup|].
    intros [[z col] row]. rewrite zoom_tiles, elem_of_tilesOf by done. done. }
  rewrite Hp, length_tilesOf by done. done.
Qed.
End Zoom.

(** ** All levels *)

Definition levelChunks (d : TileMatrixSetDefinition) (bbox : bbox4) (zoom : Z) : list JobChunk :=
  match TileMatrices d !! Z.to_nat zoom with
  | None => []
  | Some m =>
      let '(c0, c1, r0, r1) := tileRange m bbox in
      if (c1 <? c0) || (r1 <? r0) then [] else zoomChunks zoom c0 c1 r0 r1
  end.

(** The columns and rows a job covers at a zoom level. *)
Definition jobRange (digestOf : TileMatrixSetDefinition -> string) (reg : gmap string (TileMatrixSetDefinition * string))
    (matrixSet : string) (requested : bbox4) (zoom : Z) : option (Z * Z * Z * Z) :=
  d ← fst <$> GetTileMatrixSetDefinition digestOf reg matrixSet;
  bbox ← clipped d requested;
  let '(b0, b1, b2, b3) := bbox in
  if SFleb b2 b0 || SFleb b3 b1 then None
  else m ← TileMatrices d !! Z.to_nat zoom; Some (tileRange m bbox).

Lemma level_tiles d bbox zoom z col row :
  (z, col, row) ∈ (levelChunks d bbox zoom ≫= tilesOf) <->
  z = zoom /\ exists m c0 c1 r0 r1, TileMatrices d !! Z.to_nat zoom = Some m /\ tileRange m bbox = (c0, c1, r0, r1) /\
    c0 <= col <= c1 /\ r0 <= row <= r1.
Proof.
  unfold levelChunks. destruct (TileMatrices d !! Z.to_nat zoom) as [m|].
  2:{ split; [by intros ?%elem_of_nil|]. by intros (_ & m & ? & ? & ? & ? & ? & _). }
  destruct (tileRange m bbox) as [[[c0 c1] r0] r1] eqn:Ht. destruct ((c1 <? c0) || (r1 <? r0)) eqn:He.
  - split; [by intros ?%elem_of_nil|]. intros (_ & m' & c0' & c1' & r0' & r1' & [= <-] & Ht' & ? & ?).
    rewrite Ht in Ht'. injection Ht' as <- <- <- <-. apply orb_true_iff in He. rewrite !Z.ltb_lt in He. lia.
  - apply orb_false_iff in He. rewrite !Z.ltb_ge in He. rewrite zoom_tiles by lia. split.
    + intros (-> & ? & ?). split; [done|]. by exists m, c0, c1, r0, r1.
    + intros (-> & m' & c0' & c1' & r0' & r1' & [= <-] & Ht' & ? & ?). rewrite Ht in Ht'. injection Ht' as <- <- <- <-. done.
Qed.

Lemma level_NoDup d bbox zoom : NoDup (levelChunks d bbox zoom ≫= tilesOf).
Proof.
  unfold levelChunks. destruct (TileMatrices d !! Z.to_nat zoom) as [m|]; [|constructor].
  destruct (tileRange m bbox) as [[[c0 c1] r0] r1]. destruct ((c1 <? c0) || (r1 <? r0)) eqn:He; [constructor|].
  apply orb_false_iff in He. rewrite !Z.ltb_ge in He. apply zoom_NoDup; lia.
Qed.

Lemma level_chunks_small d bbox zoom c :
  c ∈ levelChunks d bbox zoom -> NextOffset c = 0 /\ 1 <= chunkTotal c <= 1024.
Proof.
  unfold levelChunks. destruct (TileMatrices d !! Z.to_nat zoom) as [m|]; [|by intros ?%elem_of_nil].
  destruct (tileRange m bbox) as [[[c0 c1] r0] r1]. destruct ((c1 <? c0) || (r1 <? r0)) eqn:He; [by intros ?%elem_of_nil|].
  apply orb_false_iff in He. rewrite !Z.ltb_ge in He. intros Hin. apply zoomChunks_wf in Hin as (Hw & _ & Ho & Hle); [|lia..].
  split; [done|]. apply chunkTotal_pos in Hw. lia.
Qed.

Lemma buildLoop_Built d bbox levels chunks total chunks' total' :
  buildLoop d bbox levels chunks total = Built chunks' total' ->
  chunks' = chunks ++ (levels ≫= levelChunks d bbox) /\
  total' = total + Z.of_nat (length ((levels ≫= levelChunks d bbox) ≫= tilesOf)).
Proof.
  revert chunks total. induction levels as [|zoom levels IH]; intros chunks total; cbn [buildLoop].
  { intros [= <- <-]. rewrite app_nil_r. split; [done|cbn; lia]. }
  change ((zoom :: levels) ≫= levelChunks d bbox) with (levelChunks d bbox zoom ++ (levels ≫= levelChunks d bbox)).
  rewrite bind_app, length_app, Nat2Z.inj_add. unfold levelChunks at 1 3.
  destruct (TileMatrices d !! Z.to_nat zoom) as [m|]; [|done].
  destruct (tileRange m bbox) as [[[c0 c1] r0] r1]. destruct ((c1 <? c0) || (r1 <? r0)) eqn:He.
  - intros Hb. apply IH in Hb as [-> ->]. split; [done|cbn; lia].
  - intros Hb. apply IH in Hb as [-> ->]. apply orb_false_iff in He. rewrite !Z.ltb_ge in He.
    rewrite zoom_length by lia. split; [by rewrite app_assoc|lia].
Qed.

Lemma all_tiles d bbox levels z col row :
  (z, col, row) ∈ ((levels ≫= levelChunks d bbox) ≫= tilesOf) <->
  z ∈ levels /\ (z, col, row) ∈ (levelChunks d bbox z ≫= tilesOf).
Proof.
  rewrite list_elem_of_bind. split.
  - intros (c & Ht & (zoom & Hc & Hz)%list_elem_of_bind).
    assert (Hin : (z, col, row) ∈ (levelChunks d bbox zoom ≫= tilesOf)) by (apply list_elem_of_bind; eauto).
    pose proof (proj1 (level_tiles _ _ _ _ _ _) Hin) as [-> _]. done.
  - intros [Hz (c & Ht & Hc)%list_elem_of_bind]. exists c. split; [done|]. apply list_elem_of_bind. eauto.
Qed.

Lemma all_NoDup d bbox levels : NoDup levels -> NoDup ((levels ≫= levelChunks d bbox) ≫= tilesOf).
Proof.
  intros Hn. induction Hn as [|zoom levels Hz Hn IH]; [constructor|].
  change ((zoom :: levels) ≫= levelChunks d bbox) with (levelChunks d bbox zoom ++ (levels ≫= levelChunks d bbox)).
  rewrite bind_app. apply NoDup_app. split_and!; [apply level_NoDup| |done].
  intros [[z col] row] [-> _]%level_tiles [Hin _]%all_tiles. done.
Qed.

(** ** Running a chunk *)

(** What is left of a chunk. *)
Definition remaining (c : JobChunk) : list (Z * Z * Z) := tileAt c <$> seqZ (NextOffset c) (chunkTotal c - NextOffset c).

Definition sameArea (c c' : JobChunk) : Prop :=
  ChunkZoom c = ChunkZoom c' /\ MinCol c = MinCol c' /\ MaxCol c = MaxCol c' /\ MinRow c = MinRow c' /\ MaxRow c = MaxRow c'.

Lemma sameArea_remaining c c' : sameArea c c' -> NextOffset c = NextOffset c' -> remaining c = remaining c'.
Proof. intros (H1 & H2 & H3 & H4 & H5) H6. unfold remaining, tileAt, chunkTotal, chunkWidth. by rewrite H1, H2, H3, H4, H5, H6. Qed.

(** A chunk in memory and its row, at some point of a run. *)
Record runsAhead (c stored : JobChunk) : Prop := {
  ra_area : sameArea stored c;
  ra_order : 0 <= NextOffset stored <= NextOffset c;
  ra_total : NextOffset c <= chunkTotal c
}.

Lemma sameArea_total c c' : sameArea c c' -> chunkTotal c = chunkTotal c'.
Proof. intros (_ & H2 & H3 & H4 & H5). unfold chunkTotal, chunkWidth. by rewrite H2, H3, H4, H5. Qed.

Lemma record_ahead a p c stored : runsAhead c stored -> runsAhead c (record a p c stored).
Proof. intros [Ha Ho Ht]. unfold record. destruct (storedAt a p); split; cbn; done || lia. Qed.

Lemma record_succeeded a p c stored :
  ChunkStatus (record a p c stored) = "succeeded" -> ChunkStatus c = "succeeded" /\ NextOffset (record a p c stored) = NextOffset c
  \/ ChunkStatus stored = "succeeded" /\ NextOffset (record a p c stored) = NextOffset stored.
Proof. unfold record. destruct (storedAt a p); cbn; auto. Qed.

(** The run is one in which the record of every processed tile is stored. *)
Definition reliable (a : attempt) : Prop := forall o, storedAt a (AfterTile o) = true /\ killedAfter a o = false.

(** What a run from [c] and [stored] ends with. *)
Record ran (a : attempt) (c stored : JobChunk) (e : chunkEnd) (c' stored' : JobChunk) (visited : list (Z * Z * Z)) : Prop := {
  ran_ahead : runsAhead c' stored';
  ran_area : sameArea c' c;
  ran_tiles : visited ++ remaining c' = remaining c;
  ran_offset : NextOffset stored <= NextOffset stored' /\ NextOffset c <= NextOffset c';
  ran_finished : e = ChunkFinished -> remaining c' = [];
  ran_succeeded : ChunkStatus stored' = "succeeded" -> chunkTotal c <= NextOffset stored';
  ran_reliable : reliable a -> NextOffset stored = NextOffset c -> NextOffset stored' = NextOffset c'
}.

Lemma remaining_cons c r :
  NextOffset c < chunkTotal c -> remaining c = tileAt c (NextOffset c) :: remaining (advance c r).
Proof.
  intros Hlt. unfold remaining. rewrite (seqZ_cons (NextOffset c)) by lia. cbn [fmap list_fmap]. f_equal.
  change (NextOffset (advance c r)) with (NextOffset c + 1). change (chunkTotal (advance c r)) with (chunkTotal c).
  do 2 f_equal; lia.
Qed.

Lemma sameArea_trans c c' c'' : sameArea c c' -> sameArea c' c'' -> sameArea c c''.
Proof. unfold sameArea. intuition congruence. Qed.

(** The run ends with the record of the status. *)
Lemma ran_end a c stored status e :
  runsAhead c stored -> ChunkStatus stored <> "succeeded" -> (status = "succeeded" -> chunkTotal c <= NextOffset c) ->
  (e = ChunkFinished -> remaining c = []) ->
  let c' := set_chunk_status c status in ran a c stored e c' (record a AtEnd c' stored) [].
Proof.
  intros Hra Hns Hs He c'. assert (Hra' : runsAhead c' stored) by (destruct Hra; by split).
  pose proof (record_ahead a AtEnd c' stored Hra') as Hrec. split; [done|done|done| |done| |].
  - split; [|done]. unfold record. destruct (storedAt a AtEnd); [|done]. apply Hra'.
  - intros [[Hst ->]|[Hst _]]%record_succeeded; [by apply Hs|done].
  - intros _ Heq. unfold record. by destruct (storedAt a AtEnd).
Qed.

Lemma chunkLoop_spec a fuel s c stored e s' c' stored' visited :
  chunkTotal c - NextOffset c <= Z.of_nat fuel -> runsAhead c stored ->
  ChunkStatus c <> "succeeded" -> ChunkStatus stored <> "succeeded" ->
  chunkLoop a fuel s c stored = (e, s', c', stored', visited) -> ran a c stored e c' stored' visited.
Proof.
  revert s c stored e s' c' stored' visited.
  induction fuel as [|fuel IH]; intros s c stored e s' c' stored' visited Hf Hra Hc Hst; cbn [chunkLoop];
    destruct (Z.ltb_spec (NextOffset c) (chunkTotal c)) as [Hlt|Hge]; try lia.
  1,3: intros [= <- <- <- <- <-]; apply ran_end; [done|done|lia|]; intros _; unfold remaining; by rewrite seqZ_nil by lia.
  destruct (killedBefore a _); [intros [= <- <- <- <- <-]; by split|].
  destruct (stopping a _); [intros [= <- <- <- <- <-]; by apply ran_end|].
  destruct (cancelRequested a _); [intros [= <- <- <- <- <-]; by apply ran_end|].
  set (r := processTile a _). assert (Hra1 : runsAhead (advance c r) stored).
  { destruct Hra as [Ha Ho Ht]. split; [done|cbn; lia|]. change (chunkTotal (advance c r)) with (chunkTotal c). cbn. lia. }
  destruct (killedAfter a _) eqn:Hk.
  { intros [= <- <- <- <- <-]. split; [done|done| |cbn; lia|done|done|].
    - by rewrite (remaining_cons c r).
    - intros Hrel. destruct (Hrel (NextOffset c)). congruence. }
  destruct (chunkLoop a fuel _ _ _) as [[[[e1 s1] c1] st1] v1] eqn:Hl. intros [= <- <- <- <- <-].
  pose proof (record_ahead a (AfterTile (NextOffset c)) _ _ Hra1) as Hra2.
  apply IH in Hl as [Ha Harea Hv Ho He Hs Hrel]; [|unfold advance, chunkTotal, chunkWidth in *; cbn; lia|done|done|].
  2: { intros [[? _]|[? _]]%record_succeeded; done. }
  split; [done|done| | |done|done|].
  - by rewrite <- app_comm_cons, Hv, <- remaining_cons.
  - cbn in Ho. destruct Ho as [Ho1 Ho2]. split; [|lia]. etrans; [|exact Ho1]. unfold record. destruct (storedAt a _); [apply Hra1|done].
  - intros Hr _. apply Hrel; [done|]. unfold record. by rewrite (proj1 (Hr _)).
Qed.

Lemma resetChunk_facts now c :
  sameArea (resetChunk now c) c /\ NextOffset (resetChunk now c) = NextOffset c /\
  (ChunkStatus (resetChunk now c) = "succeeded" <-> ChunkStatus c = "succeeded").
Proof. unfold resetChunk. destruct (String.eqb_spec (ChunkStatus c) "running") as [->|]; done. Qed.

Lemma runChunk_spec a s c e s' c' stored' visited :
  0 <= NextOffset c <= chunkTotal c -> ChunkStatus c <> "succeeded" ->
  runChunk a s c = (e, s', c', stored', visited) -> ran a c c e c' stored' visited.
Proof.
  intros Ho Hst Hr. unfold runChunk in Hr. set (c1 := set_chunk_status c "running") in Hr.
  assert (Hra : runsAhead c1 c) by (split; cbn; [done|lia|apply Ho]).
  assert (Hoff : NextOffset (record a AtStart c1 c) = NextOffset c) by (unfold record; by destruct (storedAt a AtStart)).
  apply chunkLoop_spec in Hr as [H1 H2 H3 H4 H5 H6 H7];
    [|change (chunkTotal c1 - NextOffset c1) with (chunkTotal c - NextOffset c); lia|by apply record_ahead|done|].
  - rewrite Hoff in H4, H7. by split.
  - intros [[? _]|[? _]]%record_succeeded; done.
Qed.

Lemma drop_seqZ m n k : 0 <= k <= n -> drop (Z.to_nat k) (seqZ m n) = seqZ (m + k) (n - k).
Proof.
  intros Hk. replace n with (k + (n - k)) at 1 by lia. rewrite seqZ_app by lia.
  by rewrite drop_app_length' by (rewrite length_seqZ; lia).
Qed.

(** The remaining tiles of a chunk are those of its area from the offset on. *)
Lemma remaining_drop c o : sameArea c o -> 0 <= NextOffset c -> remaining c = drop (Z.to_nat (NextOffset c)) (tilesOf o).
Proof.
  intros Ha Ho. assert (Ht : tileAt c = tileAt o).
  { destruct Ha as (H1 & H2 & H3 & H4 & _). unfold tileAt, chunkWidth. by rewrite H1, H2, H3, H4. }
  unfold remaining, tilesOf. rewrite Ht, (sameArea_total c o Ha), <- fmap_drop. f_equal.
  destruct (decide (NextOffset c <= chunkTotal o)) as [Hle|Hgt].
  - by rewrite drop_seqZ, Z.add_0_l by lia.
  - rewrite seqZ_nil, drop_ge by (rewrite ?length_seqZ; lia). done.
Qed.

Lemma elem_of_take_le {A} (x : A) n m (l : list A) : (n <= m)%nat -> x ∈ take n l -> x ∈ take m l.
Proof.
  intros Hle Hx. rewrite <- (take_drop n (take m l)), take_take, Nat.min_l by done. apply elem_of_app. by left.
Qed.

Lemma take_extend {A} n m (l v : list A) : v ++ drop m l = drop n l -> take m l = take n l ++ v.
Proof. intros Hv. apply (app_inv_tail (drop m l)). by rewrite <- app_assoc, Hv, !take_drop. Qed.

(** One run, in terms of the tiles of the chunk. *)
Lemma ran_take a c c' e stored' visited o :
  sameArea c o -> 0 <= NextOffset c -> ran a c c e c' stored' visited ->
  let tiles := tilesOf o in
  visited ++ drop (Z.to_nat (NextOffset c')) tiles = drop (Z.to_nat (NextOffset c)) tiles /\
  take (Z.to_nat (NextOffset c')) tiles = take (Z.to_nat (NextOffset c)) tiles ++ visited /\
  (e = ChunkFinished -> take (Z.to_nat (NextOffset c')) tiles = tiles).
Proof.
  intros Ha Ho [Hra Harea Hv Hoff Hf _ _] tiles. destruct Hra as [_ Hord _].
  assert (Heq : visited ++ drop (Z.to_nat (NextOffset c')) tiles = drop (Z.to_nat (NextOffset c)) tiles).
  { unfold tiles. rewrite <- (remaining_drop c' o), <- (remaining_drop c o) by (done || lia || by eapply sameArea_trans). done. }
  split_and!; [done|by apply take_extend|]. intros He. apply Hf in He.
  rewrite (remaining_drop c' o) in He by (lia || by eapply sameArea_trans).
  rewrite <- (take_drop (Z.to_nat (NextOffset c')) tiles) at 2. fold tiles in He. by rewrite He, app_nil_r.
Qed.

Section Attempts.
Context (o : JobChunk).
Abbreviation tiles := (tilesOf o).

(** The row of the chunk between two processes. *)
Record resting (st : JobChunk) : Prop := {
  rs_area : sameArea st o;
  rs_offset : 0 <= NextOffset st <= chunkTotal o;
  rs_succeeded : ChunkStatus st = "succeeded" -> chunkTotal o <= NextOffset st
}.

Lemma resting_reset now st : resting st -> resting (resetChunk now st).
Proof.
  intros [Ha Ho Hs]. destruct (resetChunk_facts now st) as (Ha' & Ho' & Hst).
  split; rewrite ?Ho'; [by eapply sameArea_trans|done|]. intros ?%Hst. by apply Hs.
Qed.

Lemma resting_ran a c e c' stored' visited : resting c -> ran a c c e c' stored' visited -> resting stored'.
Proof.
  intros [Ha Ho Hs] [[Hra Hord Htot] Harea _ Hoff _ Hsucc _].
  assert (Ha' : sameArea c' o) by (by eapply sameArea_trans).
  rewrite (sameArea_total c' o Ha') in Htot. rewrite (sameArea_total c o Ha) in Hsucc.
  split; [by eapply sameArea_trans|lia|done].
Qed.

Definition recordedTiles (st : JobChunk) : list (Z * Z * Z) := take (Z.to_nat (NextOffset st)) tiles.
Definition processedIn (trace : list (Z * chunkEnd * list (Z * Z * Z))) : list (Z * Z * Z) := mjoin trace.*2.

Lemma runAttempts_spec l s st final trace :
  resting st -> runAttempts l s st = (final, trace) ->
  resting final /\
  Forall (fun x => x.2 `prefix_of` drop (Z.to_nat x.1.1) tiles) trace /\
  (forall t, t ∈ recordedTiles final -> t ∈ recordedTiles st \/ t ∈ processedIn trace) /\
  (forall x, x ∈ trace -> x.1.2 = ChunkFinished -> forall t, t ∈ tiles -> t ∈ recordedTiles st \/ t ∈ processedIn trace) /\
  (Forall reliable l -> processedIn trace ++ drop (Z.to_nat (NextOffset final)) tiles = drop (Z.to_nat (NextOffset st)) tiles).
Proof.
  revert st final trace. induction l as [|a l IH]; intros st final trace Hrest; cbn [runAttempts].
  { intros [= <- <-]. split_and!; [done|constructor|by left|intros x ?%elem_of_nil; done|done]. }
  pose proof (resting_reset (chunkNow a) st Hrest) as Hr1.
  destruct (resetChunk_facts (chunkNow a) st) as (_ & Hoff & _). unfold recordedTiles. rewrite <- Hoff.
  set (c := resetChunk (chunkNow a) st) in *. destruct (String.eqb_spec (ChunkStatus c) "succeeded") as [Hs|Hs].
  { intros Hl. destruct (IH c final trace Hr1 Hl) as (H1 & H2 & H3 & H4 & H5). split_and!; [done..|]. intros [_ Hrel]%Forall_cons. auto. }
  destruct (runChunk a s c) as [[[[e s'] c'] st'] v] eqn:Hrun. destruct (runAttempts l s st') as [fin tr] eqn:Hl. intros [= <- <-].
  pose proof (rs_offset _ Hr1) as Hoc. pose proof (rs_area _ Hr1) as Hac.
  apply runChunk_spec in Hrun; [|by rewrite (sameArea_total c o Hac)|done].
  destruct (IH st' fin tr (resting_ran _ _ _ _ _ _ Hr1 Hrun) Hl) as (H1 & H2 & H3 & H4 & H5).
  destruct (ran_take a c c' e st' v o Hac ltac:(lia) Hrun) as (Hv & Ht & Hfin).
  assert (Hst : forall t, t ∈ recordedTiles st' -> t ∈ take (Z.to_nat (NextOffset c)) tiles \/ t ∈ v ++ processedIn tr).
  { intros t Hin. apply (elem_of_take_le t _ (Z.to_nat (NextOffset c'))) in Hin.
    - rewrite Ht in Hin. apply elem_of_app in Hin as [?|?]; [by left|right; apply elem_of_app; by left].
    - destruct (ra_order _ _ (ran_ahead _ _ _ _ _ _ _ Hrun)). lia. }
  assert (Hext : forall t, t ∈ recordedTiles st' \/ t ∈ processedIn tr -> t ∈ take (Z.to_nat (NextOffset c)) tiles \/ t ∈ v ++ processedIn tr).
  { intros t [Hin|Hin]; [by apply Hst|right; apply elem_of_app; by right]. }
  change (processedIn ((NextOffset c, e, v) :: tr)) with (v ++ processedIn tr). split_and!.
  - done.
  - constructor; [|done]. cbn. exists (drop (Z.to_nat (NextOffset c')) tiles). by rewrite Hv.
  - intros t Hin. by apply Hext, H3.
  - intros x [->|Hx]%elem_of_cons He t Hin; [|by eapply Hext, H4]. cbn in He. rewrite <- (Hfin He), Ht in Hin.
    apply elem_of_app in Hin as [?|?]; [by left|right; apply elem_of_app; by left].
  - intros [Ha Hrel]%Forall_cons. rewrite <- app_assoc, (H5 Hrel), (ran_reliable _ _ _ _ _ _ _ Hrun Ha eq_refl). done.
Qed.
End Attempts.

(** The chunks of a job are a partition of its tiles: each tile of the requested zoom levels that
    the box touches is in exactly one chunk and no other tile is, no chunk has more than 1024
    tiles, and the announced total is the number of tiles. *)
Theorem job_chunks_partition (digestOf : TileMatrixSetDefinition -> string) reg matrixSet minZoom maxZoom requested chunks total :
  0 <= minZoom -> buildChunks digestOf reg matrixSet minZoom maxZoom requested = inr (Built chunks total) ->
  NoDup (chunks ≫= tilesOf) /\
  total = Z.of_nat (length (chunks ≫= tilesOf)) /\
  Forall (fun c => NextOffset c = 0 /\ 1 <= chunkTotal c <= 1024) chunks /\
  forall zoom col row, (zoom, col, row) ∈ (chunks ≫= tilesOf) <->
    minZoom <= zoom <= maxZoom /\
    exists c0 c1 r0 r1, jobRange digestOf reg matrixSet requested zoom = Some (c0, c1, r0, r1) /\
      c0 <= col <= c1 /\ r0 <= row <= r1.
Proof.
  intros Hmin. unfold buildChunks, jobRange. destruct (GetTileMatrixSetDefinition _ _ _) as [[d dg]|]; [|done].
  cbn [fmap option_fmap option_map mbind option_bind fst]. destruct (clipped d requested) as [[[[b0 b1] b2] b3]|]; [|done].
  cbn [mbind option_bind]. destruct (SFleb b2 b0 || SFleb b3 b1).
  { intros [= <- <-]. split_and!; [constructor|done|constructor|]. intros zoom col row. split; [by intros ?%elem_of_nil|].
    by intros (_ & c0 & c1 & r0 & r1 & ? & _). }
  intros Hb. injection Hb as Hb. apply buildLoop_Built in Hb as [-> ->]. cbn [app].
  assert (Hn : NoDup (rangeBy minZoom maxZoom 1)) by (apply NoDup_loopValues; lia). split_and!.
  - by apply all_NoDup.
  - lia.
  - apply Forall_forall. intros c (z & Hc & _)%list_elem_of_bind. by apply level_chunks_small in Hc.
  - intros zoom col row. rewrite all_tiles, level_tiles.
    assert (Hz : zoom ∈ rangeBy minZoom maxZoom 1 <-> minZoom <= zoom <= maxZoom).
    { rewrite elem_of_rangeBy by lia. split; [intros (k & ? & -> & ?); lia|]. intros H. exists (zoom - minZoom). lia. }
    rewrite Hz. split.
    + intros (Hr & _ & m & c0 & c1 & r0 & r1 & Hm & Ht & Hcol & Hrow). split; [done|]. exists c0, c1, r0, r1.
      rewrite Hm. cbn [mbind option_bind]. by rewrite Ht.
    + intros (Hr & c0 & c1 & r0 & r1 & Hj & Hcol & Hrow). split; [done|]. split; [done|].
      destruct (TileMatrices d !! Z.to_nat zoom) as [m|] eqn:Hm; [|done]. apply (inj Some) in Hj.
      exists m, c0, c1, r0, r1. split; [reflexivity|]. split; [exact Hj|done].
Qed.

(** C37: The tiles of a chunk over any number of processes, where each may be stopped, see the job
    cancelled, fail to store the progress of the chunk or be killed at any point: a process that takes
    the chunk up processes, in order and without a gap, tiles from the recorded offset on, so that a
    tile before the recorded offset is never processed again; every tile before the recorded offset
    has been processed, and every tile of the chunk once a run has finished it or its row says that it
    succeeded. As long as the progress is stored after every tile, each tile is processed at most
    once, and exactly once when the chunk is finished. *)
Theorem chunk_resumes (l : list attempt) (s : jobState) c final trace :
  wfChunk c -> NextOffset c = 0 -> ChunkStatus c <> "succeeded" -> runAttempts l s c = (final, trace) ->
  Forall (fun x => x.2 `prefix_of` drop (Z.to_nat x.1.1) (tilesOf c)) trace /\
  (forall t, t ∈ take (Z.to_nat (NextOffset final)) (tilesOf c) -> t ∈ processedIn trace) /\
  ((exists x, x ∈ trace /\ x.1.2 = ChunkFinished) \/ ChunkStatus final = "succeeded" ->
     forall t, t ∈ tilesOf c -> t ∈ processedIn trace) /\
  (Forall reliable l ->
     NoDup (processedIn trace) /\ processedIn trace = take (Z.to_nat (NextOffset final)) (tilesOf c)).
Proof.
  intros Hw Ho Hs Hr. destruct (chunkTotal_pos c Hw) as [_ Hpos].
  assert (Hrest : resting c c) by (split; [done|lia|done]).
  destruct (runAttempts_spec c l s c final trace Hrest Hr) as (Hf & Hp & Hd & Hfin & Hrel).
  assert (Hnone : forall t, t ∈ recordedTiles c c -> False) by (intros t; unfold recordedTiles; rewrite Ho; apply not_elem_of_nil).
  assert (Hd' : forall t, t ∈ recordedTiles c final -> t ∈ processedIn trace) by (intros t Ht; by destruct (Hd t Ht) as [?%Hnone|]).
  split_and!; [done|done| |].
  - intros [(x & Hx & He)|Hst] t Ht; [by destruct (Hfin x Hx He t Ht) as [?%Hnone|]|]. apply Hd'. unfold recordedTiles.
    pose proof (rs_succeeded _ _ Hf Hst). rewrite take_ge; [done|]. pose proof (length_tilesOf c Hw). lia.
  - intros Hall. specialize (Hrel Hall). rewrite Ho in Hrel. change (drop (Z.to_nat 0) (tilesOf c)) with (tilesOf c) in Hrel.
    pose proof (take_extend 0 _ _ _ Hrel) as Heq. cbn [take app] in Heq. split; [|done].
    pose proof (tilesOf_NoDup c Hw) as Hn. rewrite <- Hrel in Hn. by apply NoDup_app in Hn as [? _].
Qed.

(** C24: However claims, cancellations, deletions, restarts, failing statements, jobs whose chunks could
    not be stored and the workers' own updates interleave, no two workers hold the same job, and once
    the quiescing of a workspace or of resources has returned no worker processes tiles of a job of
    that scope. *)
Theorem jobs_exclusive_and_quiesced (t : jobTables) r :
  wfJobs t -> reachable t r ->
  (forall w w' j j', held r w j -> held r w' j' -> JobID j = JobID j' -> w = w') /\
  (forall ws ids w j, (ws, ids) ∈ quiesced r -> workers r !! w = Some (Processing j) -> inLifecycle ws ids j = false).
Proof.
  intros Hw Hr. pose proof (runner_reachable_inv t r Hw Hr) as Hinv. split; [apply (ri_once _ Hinv)|apply (ri_idle _ Hinv)].
Qed.

(** ** Concrete runs *)

Definition exampleBox : bbox4 := (ofInt (-180), ofInt (-90), ofInt 180, ofInt 90).

Definition noDigest (d : TileMatrixSetDefinition) : string := SetID d.

(** The whole world at the zoom levels 0 to 2: 2 + 8 + 32 tiles. *)
Lemma job_chunks_partition_witness :
  exists chunks, buildChunks noDigest ∅ TMSWorldCRS84Quad 0 2 exampleBox = inr (Built chunks 42) /\
    NoDup (chunks ≫= tilesOf) /\ Z.of_nat (length (chunks ≫= tilesOf)) = 42.
Proof.
  destruct (buildChunks noDigest ∅ TMSWorldCRS84Quad 0 2 exampleBox) as [e|[chunks total|]] eqn:Hb;
    [exfalso; vm_compute in Hb; discriminate Hb| |exfalso; vm_compute in Hb; discriminate Hb].
  assert (Ht : total = 42) by (vm_compute in Hb; congruence).
  destruct (job_chunks_partition noDigest ∅ TMSWorldCRS84Quad 0 2 exampleBox chunks total ltac:(lia) Hb) as (Hn & Hl & _).
  exists chunks. subst total. split; [reflexivity|]. split; [exact Hn|congruence].
Defined.

Definition exampleRequest : JobRequest :=
  mkRequest OperationSeed "roads" "r1" "feature" false "map" TMSWebMercatorQuad "image/png" "" (Some 0) (Some 1) None 1.

Definition exampleJob : Job := mkJob "j1" "ws" exampleRequest JobRunning 6 0 0 0 0 0 0 false "" "" 0 None None 0.

Definition exampleState : jobState := mkJobState exampleJob 0 0 0 0 0 0 false false.

(** The first process stops before the fourth tile; the second is killed after that tile, before its
    record; the third finishes. *)
Definition firstAttempt : attempt :=
  mkAttempt (fun o => 3 <=? o) (fun _ => false) (fun _ => TileDone 10) (fun _ => true) (fun _ => false) (fun _ => false) 1.
Definition killedAttempt : attempt :=
  mkAttempt (fun _ => false) (fun _ => false) (fun _ => TileDone 10) (fun _ => true) (fun _ => false) (fun o => o =? 3) 2.
Definition lastAttempt : attempt :=
  mkAttempt (fun _ => false) (fun _ => false) (fun _ => TileSkipped) (fun _ => true) (fun _ => false) (fun _ => false) 3.

Lemma chunk_resumes_witness :
  (exists final, runAttempts [firstAttempt; lastAttempt] exampleState (newChunk 2 0 2 0 1) =
     (final, [(0, ChunkInterrupted, [(2, 0, 0); (2, 1, 0); (2, 2, 0)]); (3, ChunkFinished, [(2, 0, 1); (2, 1, 1); (2, 2, 1)])])
     /\ NoDup [(2, 0, 0); (2, 1, 0); (2, 2, 0); (2, 0, 1); (2, 1, 1); (2, 2, 1)])
  /\ exists final trace, runAttempts [firstAttempt; killedAttempt; lastAttempt] exampleState (newChunk 2 0 2 0 1) = (final, trace)
     /\ ChunkStatus final = "succeeded" /\ forall t, t ∈ tilesOf (newChunk 2 0 2 0 1) -> t ∈ processedIn trace.
Proof.
  assert (Hwf : wfChunk (newChunk 2 0 2 0 1)) by (split; cbn; lia). split.
  - destruct (runAttempts [firstAttempt; lastAttempt] exampleState (newChunk 2 0 2 0 1)) as [final trace] eqn:Hr.
    destruct (chunk_resumes _ _ _ _ _ Hwf eq_refl ltac:(discriminate) Hr) as (_ & _ & _ & Hrel).
    assert (Ht : trace = [(0, ChunkInterrupted, [(2, 0, 0); (2, 1, 0); (2, 2, 0)]); (3, ChunkFinished, [(2, 0, 1); (2, 1, 1); (2, 2, 1)])])
      by (vm_compute in Hr; congruence).
    exists final. subst trace. split; [reflexivity|]. apply Hrel. repeat constructor.
  - destruct (runAttempts [firstAttempt; killedAttempt; lastAttempt] exampleState (newChunk 2 0 2 0 1)) as [final trace] eqn:Hr.
    destruct (chunk_resumes _ _ _ _ _ Hwf eq_refl ltac:(discriminate) Hr) as (_ & _ & Hfin & _).
    assert (Hs : ChunkStatus final = "succeeded") by (vm_compute in Hr; injection Hr as <- _; reflexivity).
    exists final, trace. split; [reflexivity|]. split; [exact Hs|]. apply Hfin. right. exact Hs.
Defined.

(** A tile whose record was not stored is processed again. *)
Example unrecorded_tile_again :
  (runAttempts [firstAttempt; killedAttempt; lastAttempt] exampleState (newChunk 2 0 2 0 1)).2 =
  [(0, ChunkInterrupted, [(2, 0, 0); (2, 1, 0); (2, 2, 0)]); (3, ChunkKilled, [(2, 0, 1)]);
   (3, ChunkFinished, [(2, 0, 1); (2, 1, 1); (2, 2, 1)])].
Proof. vm_compute. reflexivity. Qed.

Definition exampleInput : CreateJobInput := mkCreate "ws" exampleRequest 6 "admin".

(** A worker claims the job before its chunks are stored; they cannot be stored, the row is marked
    as failed, and the workspace is quiesced while the worker still holds the job. *)
Definition createdRunner : runner := create 1 "j1" exampleInput (startRunner emptyTables).
Definition claimedRunner : runner := claim 2 0 createdRunner.
Definition claimedJob : Job := mkJob "j1" "ws" exampleRequest JobRunning 6 0 0 0 0 0 0 false "" "admin" 1 (Some 2) None 2.
Definition checkedRunner : runner := check 3 0 claimedJob claimedRunner.
Definition blockedRunner : runner := block (giveUp 4 "j1" "no space" checkedRunner) "ws" [].
Definition quiescedRunner : runner :=
  mkRunner (tables blockedRunner) (blockedWorkspaces blockedRunner) (blockedResources blockedRunner)
    (workers blockedRunner) (creating blockedRunner) (("ws", []) :: quiesced blockedRunner).

Lemma emptyTables_wf : wfJobs emptyTables.
Proof. intros id j Hj. cbn in Hj. by rewrite lookup_empty in Hj. Qed.

Lemma quiescedRunner_reachable : reachable emptyTables quiescedRunner.
Proof.
  eapply reach_step; [|apply (step_quiesced blockedRunner "ws" [])]; [|cbn; set_solver|vm_compute; reflexivity].
  eapply reach_step; [|apply step_block].
  eapply reach_step; [|apply (step_give_up checkedRunner 4 "j1" "no space"); vm_compute; reflexivity].
  eapply reach_step; [|apply (step_check claimedRunner 3 0 claimedJob); vm_compute; reflexivity].
  eapply reach_step; [|apply (step_claim createdRunner 2 0); reflexivity].
  eapply reach_step; [apply reach_start|]. apply (step_create (startRunner emptyTables) 1 "j1" exampleInput).
  split_and!; [set_solver|reflexivity|]. intros w j (p & Hp & _). cbn in Hp. by rewrite lookup_empty in Hp.
Qed.

Lemma jobs_exclusive_and_quiesced_witness :
  workers quiescedRunner !! 0%nat = Some (Executing claimedJob) /\ inLifecycle "ws" [] claimedJob = true
  /\ (forall w j, held quiescedRunner w j -> JobID j = "j1" -> w = 0%nat)
  /\ (forall w j, workers quiescedRunner !! w = Some (Processing j) -> inLifecycle "ws" [] j = false)
  /\ workers (begin 5 0 claimedJob quiescedRunner) !! 0%nat = None.
Proof.
  assert (Hw : workers quiescedRunner !! 0%nat = Some (Executing claimedJob)) by (vm_compute; reflexivity).
  destruct (jobs_exclusive_and_quiesced emptyTables quiescedRunner emptyTables_wf quiescedRunner_reachable) as [Ho Hq].
  split; [exact Hw|]. split; [vm_compute; reflexivity|]. split; [|split; [|vm_compute; reflexivity]].
  - intros w j Hj Hid. refine (Ho w 0%nat j claimedJob Hj _ Hid). exists (Executing claimedJob). auto.
  - intros w j. apply Hq. left.
Defined.

(** The progress update of a worker sets the status of a job whose cancellation was requested back to
    running; when the process then stops, the reset puts the job back in the queue with its
    cancellation still requested, where it is neither cancelled nor ever claimed. *)
Definition stuckTables : jobTables :=
  let t1 := (RequestTileCacheJobCancel 3 "j1" (tables claimedRunner)).2 in
  let t2 := (UpdateTileCacheJob 4 "j1" (update exampleState JobRunning "" None) t1).2 in
  ResetInterruptedTileCacheJobs 5 t2.

Example cancelled_job_stuck_in_queue :
  (Status <$> tile_cache_jobs stuckTables !! "j1") = Some JobQueued
  /\ (CancelRequested <$> tile_cache_jobs stuckTables !! "j1") = Some true
  /\ (ClaimNextTileCacheJob 6 stuckTables).1 = None.
Proof. vm_compute. done. Qed.

(** A job is visible in the queue before its chunks are stored. *)
Example job_claimed_before_its_chunks :
  workers claimedRunner !! 0%nat = Some (Claimed claimedJob) /\ ListTileCacheJobChunks (tables claimedRunner) "j1" = [].
Proof. vm_compute. done. Qed.

(** Custom sets with fewer levels than the requested zoom range, or without a bounding box. *)
Definition smallSet (bounds : option BoundingBox) : TileMatrixSetDefinition :=
  mkSet "grid" "" "" "" CRS4326URI [] "" bounds [worldCRS84Matrix 0].

Definition smallRegistry (bounds : option BoundingBox) : gmap string (TileMatrixSetDefinition * string) :=
  (ReplaceCustomTileMatrixSets noDigest ∅ [smallSet bounds]).2.

Example custom_set_panics :
  ValidateTileMatrixSetDefinition (smallSet None) = None
  /\ buildChunks noDigest (smallRegistry None) "grid" 0 0 exampleBox = inr BuildPanic
  /\ buildChunks noDigest (smallRegistry (SetBounds getWorldCRS84Quad)) "grid" 0 1 exampleBox = inr BuildPanic.
Proof. vm_compute. done. Qed.
