(* ===== verification/LayerGroups.v ===== *)
(** * Layer groups ([internal/workspace/groups.go], [internal/workspace/workspace.go],
      [internal/store/store_layer_group.go], [expandRenderLayer] of [internal/wms/handlers_getmap.go])

    A layer group is a list of members, each a layer, a coverage or another group of the
    workspace. The registry validates a group before the catalog stores it; the map
    service expands a group into layers for the role of the request.

    [storeFails] is an error of the catalog statement, which then changes nothing. A
    [range] over a Go map takes the order of [map_to_list]. *)

From stdpp Require Import relations.
From S2P Require Import Prelude GoText GoNum TileMatrix.

(** ** The runtime catalog of a workspace *)

Record Layer : Type := mkLayer {
  LayerPublicID : string; LayerEnabled : bool; LayerPublic : bool; LayerRoles : list string
}.

Record Coverage : Type := mkCoverage {
  CoveragePublicID : string; CoverageEnabled : bool; CoveragePublic : bool; CoverageRoles : list string
}.

Record Service : Type := mkService {
  ServiceEnabled : bool; Layers : gmap string Layer; Coverages : gmap string Coverage
}.

Record LayerGroupMember : Type := mkMember {
  Resource : string; MemberStyle : string; Opacity : option float64; Composite : string
}.

(** A group, in the catalog and at run time. *)
Record LayerGroup : Type := mkGroup {
  GroupID : string; GroupWorkspace : string; PublicID : string; GroupTitle : string; GroupDescription : string;
  Enabled : bool; Public : bool; AllowedRoles : list string; Members : list LayerGroupMember;
  DefaultStyle : string; Styles : list string
}.

Record Workspace : Type := mkWorkspace {
  Services : gmap string Service;
  WorkspaceStyles : gset string;
  Groups : gmap string LayerGroup
}.

Inductive PublishedResource : Type :=
| ResourceFeature (l : Layer)
| ResourceCoverage (c : Coverage)
| ResourceGroup (g : LayerGroup).

Definition firstOf {A B} (f : A -> option B) (l : list A) : option B := head (omap f l).

Definition GetLayer (ws : Workspace) (publicID : string) : option Layer :=
  firstOf (fun svc : string * Service =>
    if ServiceEnabled svc.2 then
      match Layers svc.2 !! publicID with Some l => if LayerEnabled l then Some l else None | None => None end
    else None) (map_to_list (Services ws)).

Definition GetCoverage (ws : Workspace) (publicID : string) : option Coverage :=
  firstOf (fun svc : string * Service =>
    if ServiceEnabled svc.2 then
      match Coverages svc.2 !! publicID with Some c => if CoverageEnabled c then Some c else None | None => None end
    else None) (map_to_list (Services ws)).

Definition GetResource (ws : Workspace) (publicID : string) : option PublishedResource :=
  match GetLayer ws publicID with
  | Some l => Some (ResourceFeature l)
  | None =>
      match GetCoverage ws publicID with
      | Some c => Some (ResourceCoverage c)
      | None =>
          match Groups ws !! publicID with
          | Some g => if Enabled g then Some (ResourceGroup g) else None
          | None => None
          end
      end
  end.

Definition HasPublishedResourceID (ws : Workspace) (publicID : string) : bool :=
  bool_decide (is_Some (Groups ws !! publicID))
  || existsb (fun svc : string * Service =>
       bool_decide (is_Some (Layers svc.2 !! publicID)) || bool_decide (is_Some (Coverages svc.2 !! publicID)))
       (map_to_list (Services ws)).

Definition refersTo (publicID : string) (g : LayerGroup) : bool :=
  existsb (fun m => String.eqb (Resource m) publicID) (Members g).

Definition GroupReferences (ws : Workspace) (publicID : string) : list string :=
  PublicID <$> filter (fun g => refersTo publicID g = true) (map_to_list (Groups ws)).*2.

(** ** Visibility *)

(** The rule shared by layers, coverages and groups. *)
Definition roleAllowed (public : bool) (roles : list string) (role : string) : bool :=
  public || String.eqb role "super_admin" || match roles with [] => true | _ => false end
  || existsb (fun r => String.eqb r role) roles.

Definition LayerVisibleToRole (l : Layer) (role : string) : bool := roleAllowed (LayerPublic l) (LayerRoles l) role.

Definition CoverageVisibleToRole (c : Coverage) (role : string) : bool :=
  CoverageEnabled c && roleAllowed (CoveragePublic c) (CoverageRoles c) role.

(** [fuel] is larger than the number of levels the depth limit of 32 lets through. *)
Fixpoint groupVisibleToRole (fuel : nat) (ws : Workspace) (role : string) (g : LayerGroup) (visiting : list string) (depth : Z) : bool :=
  match fuel with
  | O => false
  | S fuel =>
      if negb (Enabled g) || (32 <? depth) || bool_decide (PublicID g ∈ visiting) then false
      else if negb (roleAllowed (Public g) (AllowedRoles g) role) then false
      else forallb (fun m =>
             match GetResource ws (Resource m) with
             | None => false
             | Some (ResourceFeature l) => LayerVisibleToRole l role
             | Some (ResourceCoverage c) => CoverageVisibleToRole c role
             | Some (ResourceGroup n) => groupVisibleToRole fuel ws role n (PublicID g :: visiting) (depth + 1)
             end) (Members g)
  end.

Definition GroupVisibleToRole (ws : Workspace) (g : LayerGroup) (role : string) : bool :=
  groupVisibleToRole 34 ws role g [] 0.

(** ** Validation *)

Inductive groupError : Type :=
| PublicIDRequired
| PublicIDConflict
| CannotRename (by_ : string)
| MembersEmpty
| MemberResourceRequired
| MemberOpacity
| MemberComposite (mode : string)
| MemberMissing (resource : string)
| MemberStyleMissing (style : string)
| NestingExceeds (n : Z)
| CycleIncludes (name : string)
| ErrNotFound
| ReferencedBy (name : string)
| StoreError.

Definition fone : float64 := ofInt 1.

Definition validateMember (ws : Workspace) (replaced : string) (m : LayerGroupMember) : option groupError :=
  if String.eqb (Resource m) "" then Some MemberResourceRequired
  else if match Opacity m with Some o => SFltb o fzero || SFltb fone o | None => false end then Some MemberOpacity
  else if negb (bool_decide (Composite m ∈ [""; "source-over"; "multiply"; "screen"; "overlay"; "darken"; "lighten"]))
  then Some (MemberComposite (Composite m))
  else if negb (String.eqb (Resource m) replaced) && match GetResource ws (Resource m) with None => true | _ => false end
  then Some (MemberMissing (Resource m))
  else if negb (String.eqb (MemberStyle m) "") && negb (bool_decide (MemberStyle m ∈ WorkspaceStyles ws))
  then Some (MemberStyleMissing (MemberStyle m))
  else None.

(** The first error of a list of checks. *)
Fixpoint firstError {A} (f : A -> option groupError) (l : list A) : option groupError :=
  match l with
  | [] => None
  | x :: rest => match f x with Some e => Some e | None => firstError f rest end
  end.

(** [visit]: [fuel] is larger than the number of levels the depth limit lets through. *)
Fixpoint visit (fuel : nat) (groups : gmap string LayerGroup) (maxDepth : Z) (name : string) (stack : list string) (depth : Z)
    : option groupError :=
  match fuel with
  | O => Some (NestingExceeds maxDepth)
  | S fuel =>
      if maxDepth <? depth then Some (NestingExceeds maxDepth)
      else if bool_decide (name ∈ stack) then Some (CycleIncludes name)
      else match groups !! name with
           | None => None
           | Some g =>
               firstError (fun m =>
                 match groups !! Resource m with
                 | Some _ => visit fuel groups maxDepth (Resource m) (name :: stack) (depth + 1)
                 | None => None
                 end) (Members g)
           end
  end.

Definition effectiveDepth (maxDepth : Z) : Z := if maxDepth <=? 0 then 8 else maxDepth.

(** The groups as they will be. *)
Definition replacedGroups (ws : Workspace) (candidate : LayerGroup) (replaced : string) : gmap string LayerGroup :=
  <[PublicID candidate := candidate]> (if String.eqb replaced "" then Groups ws else delete replaced (Groups ws)).

Definition validateLayerGroup (ws : Workspace) (candidate : LayerGroup) (replaced : string) (maxDepth : Z) : option groupError :=
  let maxDepth := effectiveDepth maxDepth in
  if String.eqb (PublicID candidate) "" then Some PublicIDRequired
  else if HasPublishedResourceID ws (PublicID candidate) && negb (String.eqb (PublicID candidate) replaced)
  then Some PublicIDConflict
  else
    match (if negb (String.eqb replaced "") && negb (String.eqb (PublicID candidate) replaced)
           then head (GroupReferences ws replaced) else None) with
    | Some r => Some (CannotRename r)
    | None =>
        match Members candidate with
        | [] => Some MembersEmpty
        | _ =>
            match firstError (validateMember ws replaced) (Members candidate) with
            | Some e => Some e
            | None =>
                visit (S (Z.to_nat maxDepth)) (replacedGroups ws candidate replaced) maxDepth (PublicID candidate) [] 1
            end
        end
    end.

(** ** The registry's operations, on one workspace and its rows of the catalog *)

Record groupState : Type := mkGroupState {
  layer_groups : gmap string LayerGroup;
  workspace : Workspace
}.

Definition set_groups (ws : Workspace) (g : gmap string LayerGroup) : Workspace :=
  mkWorkspace (Services ws) (WorkspaceStyles ws) g.

(** The row the catalog stores: the identifier is drawn by the catalog. *)
Definition CreateLayerGroup (storeFails : bool) (workspaceID id : string) (input : LayerGroup) (maxDepth : Z) (s : groupState)
    : (groupError + LayerGroup) * groupState :=
  match validateLayerGroup (workspace s) input "" maxDepth with
  | Some e => (inl e, s)
  | None =>
      let created := mkGroup id workspaceID (PublicID input) (GroupTitle input) (GroupDescription input) (Enabled input)
                       (Public input) (AllowedRoles input) (Members input) (DefaultStyle input) (Styles input) in
      if storeFails then (inl StoreError, s)
      else (inr created, mkGroupState (<[id := created]> (layer_groups s))
                           (set_groups (workspace s) (<[PublicID created := created]> (Groups (workspace s)))))
  end.

Record UpdateLayerGroupInput : Type := mkUpdateGroup {
  upPublicID : option string; upTitle : option string; upDescription : option string;
  upEnabled : option bool; upPublic : option bool; upRoles : option (list string);
  upMembers : option (list LayerGroupMember); upDefaultStyle : option string; upStyles : option (list string)
}.

Definition applyGroupUpdate (g : LayerGroup) (u : UpdateLayerGroupInput) : LayerGroup :=
  mkGroup (GroupID g) (GroupWorkspace g) (default (PublicID g) (upPublicID u)) (default (GroupTitle g) (upTitle u))
    (default (GroupDescription g) (upDescription u)) (default (Enabled g) (upEnabled u)) (default (Public g) (upPublic u))
    (default (AllowedRoles g) (upRoles u)) (default (Members g) (upMembers u))
    (default (DefaultStyle g) (upDefaultStyle u)) (default (Styles g) (upStyles u)).

Definition UpdateLayerGroup (storeFails : bool) (workspaceID id : string) (input : UpdateLayerGroupInput) (maxDepth : Z)
    (s : groupState) : (groupError + LayerGroup) * groupState :=
  match layer_groups s !! id with
  | None => (inl ErrNotFound, s)
  | Some existing =>
      if negb (String.eqb (GroupWorkspace existing) workspaceID) then (inl ErrNotFound, s)
      else
        let candidate := applyGroupUpdate existing input in
        match validateLayerGroup (workspace s) candidate (PublicID existing) maxDepth with
        | Some e => (inl e, s)
        | None =>
            if storeFails then (inl StoreError, s)
            else (inr candidate, mkGroupState (<[id := candidate]> (layer_groups s))
                   (set_groups (workspace s)
                      (<[PublicID candidate := candidate]> (delete (PublicID existing) (Groups (workspace s))))))
        end
  end.

Definition DeleteLayerGroup (storeFails : bool) (workspaceID id : string) (s : groupState) : option groupError * groupState :=
  match layer_groups s !! id with
  | None => (Some ErrNotFound, s)
  | Some existing =>
      if negb (String.eqb (GroupWorkspace existing) workspaceID) then (Some ErrNotFound, s)
      else
        match list_find (fun g => GroupID g <> id /\ refersTo (PublicID existing) g = true)
                (map_to_list (Groups (workspace s))).*2 with
        | Some (_, g) => (Some (ReferencedBy (PublicID g)), s)
        | None =>
            if storeFails then (Some StoreError, s)
            else (None, mkGroupState (delete id (layer_groups s))
                          (set_groups (workspace s) (delete (PublicID existing) (Groups (workspace s)))))
        end
  end.

(** ** Expansion for a map request *)

Record groupRenderLayer : Type := mkRender { rlName : string; rlStyle : string; rlComposite : string; rlOpacity : float64 }.

Inductive expandError : Type := ExpandNesting (n : Z) | LayerNotFound (name : string) | ExpandCycle (name : string).

Definition EffectiveOpacity (m : LayerGroupMember) : float64 := default fone (Opacity m).

Section Expand.
Context (ws : Workspace) (role : string) (maxDepth : Z).

Fixpoint expand (fuel : nat) (name inheritedStyle composite : string) (opacity : float64) (visiting : list string) (depth : Z)
    : expandError + list groupRenderLayer :=
  match fuel with
  | O => inl (ExpandNesting maxDepth)
  | S fuel =>
      if maxDepth <? depth then inl (ExpandNesting maxDepth)
      else
        match GetResource ws name with
        | None => inl (LayerNotFound name)
        | Some (ResourceGroup g) =>
            if negb (GroupVisibleToRole ws g role) then inl (LayerNotFound name)
            else if bool_decide (PublicID g ∈ visiting) then inl (ExpandCycle (PublicID g))
            else
              let groupStyle := if String.eqb inheritedStyle "" then DefaultStyle g else inheritedStyle in
              (fix members (l : list LayerGroupMember) : expandError + list groupRenderLayer :=
                 match l with
                 | [] => inr []
                 | m :: rest =>
                     let style := if String.eqb groupStyle "" then MemberStyle m else groupStyle in
                     let memberComposite := if String.eqb (Composite m) "" then composite else Composite m in
                     match expand fuel (Resource m) style memberComposite (fmul (EffectiveOpacity m) opacity)
                             (PublicID g :: visiting) (depth + 1) with
                     | inl e => inl e
                     | inr nested =>
                         match members rest with
                         | inl e => inl e
                         | inr more => inr (nested ++ more)
                         end
                     end
                 end) (Members g)
        | Some _ => inr [mkRender name inheritedStyle composite opacity]
        end
  end.
End Expand.

Definition expandRenderLayer (ws : Workspace) (name requestedStyle role : string) (maxDepth : Z)
    : expandError + list groupRenderLayer :=
  let maxDepth := effectiveDepth maxDepth in
  expand ws role maxDepth (S (Z.to_nat maxDepth)) name requestedStyle "" fone [] 1.

(** ** The group graph *)

Definition edge (groups : gmap string LayerGroup) (a b : string) : Prop :=
  exists g m, groups !! a = Some g /\ m ∈ Members g /\ Resource m = b /\ is_Some (groups !! b).

Definition acyclic (groups : gmap string LayerGroup) : Prop := forall a, ~ tc (edge groups) a a.

Lemma firstError_None {A} (f : A -> option groupError) l : firstError f l = None <-> forall x, x ∈ l -> f x = None.
Proof.
  induction l as [|x l IH]; cbn.
  - split; [intros _ x Hx; by apply elem_of_nil in Hx|done].
  - destruct (f x) eqn:Hx.
    + split; [done|]. intros H. rewrite (H x) in Hx; [done|by left].
    + rewrite IH. split; [intros H y [->|Hy]%elem_of_cons; auto|]. intros H y Hy. apply H. by right.
Qed.

(** A visit that succeeds meets none of the names on its stack. *)
Lemma visit_avoids fuel groups maxDepth c x stack depth :
  visit fuel groups maxDepth x stack depth = None -> c ∈ stack -> ~ rtc (edge groups) x c.
Proof.
  revert x stack depth. induction fuel as [|fuel IH]; intros x stack depth; cbn [visit]; [done|].
  destruct (maxDepth <? depth); [done|]. case_bool_decide as Hx; [done|]. intros Hv Hc Hr.
  inversion Hr as [|? y ? (g & m & Hg & Hm & Hres & [gy Hgy]) Hrest]; subst; [done|].
  rewrite Hg in Hv. rewrite firstError_None in Hv. specialize (Hv m Hm). cbn in Hv. rewrite Hgy in Hv.
  eapply IH; [exact Hv| |exact Hrest]. by right.
Qed.

(** A visit from [c] that succeeds rules out a cycle through [c]. *)
Lemma visit_no_cycle fuel groups maxDepth c depth :
  visit fuel groups maxDepth c [] depth = None -> ~ tc (edge groups) c c.
Proof.
  destruct fuel as [|fuel]; cbn [visit]; [done|]. destruct (maxDepth <? depth); [done|].
  rewrite bool_decide_false by apply not_elem_of_nil. intros Hv Ht.
  assert (Hs : exists y, edge groups c y /\ rtc (edge groups) y c).
  { inversion Ht as [? ? Hs|? y ? Hs Hrest]; subst; [exists c; by split; [|apply rtc_refl]|].
    exists y. split; [done|]. by apply tc_rtc. }
  destruct Hs as (y & (g & m & Hg & Hm & Hres & [gy Hgy]) & Hr). rewrite Hg in Hv.
  rewrite firstError_None in Hv. specialize (Hv m Hm). cbn in Hv. rewrite Hres, Hgy in Hv.
  eapply visit_avoids; [exact Hv| |exact Hr]. left.
Qed.

(** A cycle that avoids [c] is one of the groups without [c]. *)
Lemma tc_avoid (G G' : gmap string LayerGroup) c a b :
  (forall x y, edge G' x y -> x <> c -> y <> c -> edge G x y) ->
  tc (edge G') a b -> tc (edge G) a b \/ rtc (edge G') a c /\ rtc (edge G') c b.
Proof.
  intros Hedge Ht. induction Ht as [a b Hs|a y b Hs Ht IH].
  - destruct (decide (a = c)) as [->|Ha]; [right; split; [apply rtc_refl|by apply rtc_once]|].
    destruct (decide (b = c)) as [->|Hb]; [right; split; [by apply rtc_once|apply rtc_refl]|].
    left. apply tc_once. by apply Hedge.
  - destruct (decide (a = c)) as [->|Ha].
    { right. split; [apply rtc_refl|]. eapply rtc_l; [exact Hs|]. by apply tc_rtc. }
    destruct (decide (y = c)) as [->|Hy].
    { right. split; [by apply rtc_once|by apply tc_rtc]. }
    destruct IH as [IH|[IH1 IH2]].
    + left. eapply tc_l; [by apply Hedge|done].
    + right. split; [by eapply rtc_l|done].
Qed.

(** Writing one group keeps the graph acyclic when no cycle goes through it. *)
Lemma acyclic_write (G : gmap string LayerGroup) G0 g :
  acyclic G -> G0 ⊆ G -> ~ tc (edge (<[PublicID g := g]> G0)) (PublicID g) (PublicID g) ->
  acyclic (<[PublicID g := g]> G0).
Proof.
  intros Ha Hsub Hc a Ht. apply (tc_avoid G _ (PublicID g)) in Ht as Hcase. 1: destruct Hcase as [Hg|[H1 H2]].
  3: intros x y (gx & m & Hgx & Hm & Hres & [gy Hgy]) Hx Hy; rewrite lookup_insert_ne in Hgx, Hgy by congruence;
    exists gx, m; split_and!; [by eapply lookup_weaken|done|done|]; exists gy; by eapply lookup_weaken.
  - by apply (Ha a).
  - apply Hc. destruct (decide (a = PublicID g)) as [->|Hne]; [done|].
    eapply tc_rtc_r; [|exact H1]. inversion H2 as [|? y ? Hs Hrest]; subst; [done|]. eapply tc_rtc_r; [by apply tc_once|done].
Qed.

Lemma edge_members (G : gmap string LayerGroup) k g g' a b :
  Members g = Members g' -> edge (<[k := g]> G) a b -> edge (<[k := g']> G) a b.
Proof.
  intros Hm (x & m & Hx & Hin & Hres & [y Hy]).
  assert (Hb : is_Some (<[k := g']> G !! b)).
  { destruct (decide (k = b)) as [<-|]; [rewrite lookup_insert_eq; eauto|]. rewrite lookup_insert_ne in * by done. eauto. }
  destruct (decide (k = a)) as [<-|Hne].
  - rewrite lookup_insert_eq in Hx. injection Hx as <-. exists g', m. rewrite lookup_insert_eq, <- Hm. done.
  - rewrite lookup_insert_ne in Hx by done. exists x, m. by rewrite lookup_insert_ne by done.
Qed.

Lemma validate_no_cycle ws c replaced maxDepth :
  validateLayerGroup ws c replaced maxDepth = None ->
  ~ tc (edge (replacedGroups ws c replaced)) (PublicID c) (PublicID c).
Proof.
  unfold validateLayerGroup. repeat (case_match; try done).
  all: apply visit_no_cycle.
Qed.

Lemma acyclic_subseteq (G G' : gmap string LayerGroup) : G' ⊆ G -> acyclic G -> acyclic G'.
Proof.
  intros Hs Ha a Ht. apply (Ha a). eapply (tc_congruence id); [|exact Ht]. cbn.
  intros x y (g & m & Hg & Hm & Hres & [gy Hgy]). exists g, m.
  split_and!; [by eapply lookup_weaken|done|done|]. exists gy. by eapply lookup_weaken.
Qed.

(** ** Theorems *)

Inductive groupOp : Type :=
| OpCreate (storeFails : bool) (workspaceID id : string) (input : LayerGroup) (maxDepth : Z)
| OpUpdate (storeFails : bool) (workspaceID id : string) (input : UpdateLayerGroupInput) (maxDepth : Z)
| OpDelete (storeFails : bool) (workspaceID id : string).

Definition runGroupOp (s : groupState) (op : groupOp) : groupState :=
  match op with
  | OpCreate f w id input d => (CreateLayerGroup f w id input d s).2
  | OpUpdate f w id input d => (UpdateLayerGroup f w id input d s).2
  | OpDelete f w id => (DeleteLayerGroup f w id s).2
  end.

(** What is stored is what was validated. *)
Lemma acyclic_stored ws c stored replaced maxDepth G0 :
  acyclic (Groups ws) -> validateLayerGroup ws c replaced maxDepth = None ->
  G0 = (if String.eqb replaced "" then Groups ws else delete replaced (Groups ws)) ->
  PublicID stored = PublicID c -> Members stored = Members c -> acyclic (<[PublicID stored := stored]> G0).
Proof.
  intros Ha Hv HG Hid Hm. apply (acyclic_write (Groups ws)); [done| |].
  - rewrite HG. destruct (String.eqb _ _); [done|apply delete_subseteq].
  - intros Ht. apply (validate_no_cycle ws c replaced maxDepth Hv). unfold replacedGroups. rewrite <- HG, <- Hid.
    eapply (tc_congruence id); [|exact Ht]. cbn. intros x y. by apply edge_members.
Qed.

Lemma runGroupOp_acyclic s op : acyclic (Groups (workspace s)) -> acyclic (Groups (workspace (runGroupOp s op))).
Proof.
  intros Ha. destruct op as [f w id input d|f w id input d|f w id]; cbn [runGroupOp].
  - unfold CreateLayerGroup. destruct (validateLayerGroup _ _ _ _) eqn:Hv; [done|]. destruct f; [done|].
    by apply (acyclic_stored (workspace s) input _ "" d (Groups (workspace s))).
  - unfold UpdateLayerGroup. destruct (layer_groups s !! id) as [existing|]; [|done]. destruct (negb _); [done|].
    destruct (validateLayerGroup _ _ _ _) eqn:Hv; [done|]. destruct f; [done|].
    destruct (String.eqb_spec (PublicID existing) "") as [He|He].
    + assert (Hsub : acyclic (Groups (workspace s))) by done. cbn [workspace snd Groups set_groups].
      apply (acyclic_write (Groups (workspace s))); [done|apply delete_subseteq|].
      intros Ht. apply (validate_no_cycle _ _ _ _ Hv). unfold replacedGroups. rewrite He in *. cbn [String.eqb].
      eapply (tc_congruence Datatypes.id); [|exact Ht]. cbn. intros x y (g & m & Hg & Hm & Hres & [gy Hgy]).
      exists g, m. split_and!; [|done|done|eexists];
        (eapply lookup_weaken; [done|]; apply insert_mono, delete_subseteq).
    + apply (acyclic_stored (workspace s) (applyGroupUpdate existing input) _ (PublicID existing) d); [done|done| |done|done].
      by destruct (String.eqb_spec (PublicID existing) "").
  - unfold DeleteLayerGroup. destruct (layer_groups s !! id) as [existing|]; [|done]. destruct (negb _); [done|].
    destruct (list_find _ _) as [[]|]; [done|]. destruct f; [done|]. cbn.
    eapply acyclic_subseteq; [apply delete_subseteq|done].
Qed.

(** C23: Whatever groups are created, changed, renamed and deleted, with whatever limit of nesting and
    whatever statements of the catalog fail, no group ever contains itself through its members. *)
Theorem layer_groups_acyclic (s : groupState) (ops : list groupOp) :
  acyclic (Groups (workspace s)) -> acyclic (Groups (workspace (foldl runGroupOp s ops))).
Proof.
  revert s. induction ops as [|op ops IH]; intros s Ha; [done|]. cbn [foldl]. by apply IH, runGroupOp_acyclic.
Qed.

(** A layer or coverage the role may read. *)
Definition leafVisible (ws : Workspace) (role name : string) : Prop :=
  match GetResource ws name with
  | Some (ResourceFeature l) => LayerVisibleToRole l role = true
  | Some (ResourceCoverage c) => CoverageVisibleToRole c role = true
  | _ => False
  end.

Lemma visible_member fuel ws role g visiting depth m :
  groupVisibleToRole fuel ws role g visiting depth = true -> m ∈ Members g ->
  leafVisible ws role (Resource m) \/ exists n, GetResource ws (Resource m) = Some (ResourceGroup n).
Proof.
  destruct fuel as [|fuel]; cbn [groupVisibleToRole]; [done|]. destruct (_ || _); [done|]. destruct (negb _); [done|].
  intros Hall Hm. rewrite forallb_forall in Hall. specialize (Hall m (proj1 (list_elem_of_In _ _) Hm)).
  unfold leafVisible. destruct (GetResource ws (Resource m)) as [[l|c|n]|]; [by left|by left|right; eauto|done].
Qed.

Lemma expand_visible ws role maxDepth fuel name style composite opacity visiting depth layers :
  expand ws role maxDepth fuel name style composite opacity visiting depth = inr layers ->
  forall l, l ∈ layers ->
  (leafVisible ws role (rlName l) \/ (rlName l = name /\ forall g, GetResource ws name <> Some (ResourceGroup g))).
Proof.
  revert name style composite opacity visiting depth layers.
  induction fuel as [|fuel IH]; intros name style composite opacity visiting depth layers; cbn [expand]; [done|].
  destruct (maxDepth <? depth); [done|]. destruct (GetResource ws name) as [[l|c|g]|] eqn:Hres; [| | |done].
  1,2: intros [= <-] x ->%list_elem_of_singleton; right; (split; [done|]); intros g' [=].
  destruct (GroupVisibleToRole ws g role) eqn:Hvis; [|done]. cbn [negb]. case_bool_decide; [done|].
  assert (Hm : forall m, m ∈ Members g -> leafVisible ws role (Resource m) \/ exists n, GetResource ws (Resource m) = Some (ResourceGroup n)).
  { intros m. by apply (visible_member 34 ws role g [] 0). }
  revert layers Hm. generalize (Members g) as ms. intros ms. induction ms as [|m ms IHm]; intros layers Hm.
  { intros [= <-] x Hx. by apply elem_of_nil in Hx. }
  destruct (expand ws role maxDepth fuel (Resource m) _ _ _ _ _) as [e|nested] eqn:Hn; [done|].
  set (rest := (fix members (l : list LayerGroupMember) := _) ms). destruct rest as [e|more] eqn:Hrest; [done|].
  intros [= <-] x [Hx|Hx]%elem_of_app.
  - destruct (IH _ _ _ _ _ _ _ Hn x Hx) as [Hv|[Hname Hleaf]]; [by left|].
    left. destruct (Hm m ltac:(left)) as [Hv|[n Hg]]; [by rewrite Hname|]. by destruct (Hleaf n).
  - apply (IHm more); [intros m' Hm'; apply Hm; by right|exact Hrest|done].
Qed.

(** Expanding a group for a role discloses nothing: every layer or coverage in the result, at any depth
    of nesting, is enabled and one the role itself may read. *)
Theorem group_expansion_visible (ws : Workspace) (name style role : string) (maxDepth : Z) g layers :
  GetResource ws name = Some (ResourceGroup g) -> expandRenderLayer ws name style role maxDepth = inr layers ->
  forall l, l ∈ layers -> leafVisible ws role (rlName l).
Proof.
  intros Hg He l Hl. unfold expandRenderLayer in He. destruct (expand_visible _ _ _ _ _ _ _ _ _ _ _ He l Hl) as [Hv|[_ Hn]]; [done|].
  by destruct (Hn g).
Qed.

(** ** Concrete workspaces *)

Definition exampleMember (name : string) : LayerGroupMember := mkMember name "" None "".

Definition exampleGroup (name : string) (members : list string) : LayerGroup :=
  mkGroup name "ws" name "" "" true false [] (exampleMember <$> members) "" [].

Definition exampleWorkspace (groups : list LayerGroup) : Workspace :=
  mkWorkspace {["s" := mkService true {["roads" := mkLayer "roads" true false []]} ∅]} ∅
    (list_to_map ((fun g => (PublicID g, g)) <$> groups)).

Lemma no_groups_acyclic : acyclic ∅.
Proof.
  intros a Ht. assert (Hs : exists y, edge ∅ a y) by (inversion Ht; eauto).
  destruct Hs as (y & g & m & Hg & _). by rewrite lookup_empty in Hg.
Qed.

Definition exampleOps : list groupOp :=
  [OpCreate false "ws" "1" (exampleGroup "base" ["roads"]) 8;
   OpCreate false "ws" "2" (exampleGroup "all" ["base"; "roads"]) 8;
   OpUpdate false "ws" "1" (mkUpdateGroup None None None None None None (Some [exampleMember "all"]) None None) 8].

Lemma layer_groups_acyclic_witness :
  acyclic (Groups (workspace (foldl runGroupOp (mkGroupState ∅ (exampleWorkspace [])) exampleOps)))
  /\ (map_to_list (Groups (workspace (foldl runGroupOp (mkGroupState ∅ (exampleWorkspace [])) exampleOps)))).*1 = ["all"; "base"].
Proof.
  split; [|vm_compute; reflexivity].
  apply (layer_groups_acyclic (mkGroupState ∅ (exampleWorkspace [])) exampleOps). exact no_groups_acyclic.
Defined.

Definition nestedWorkspace : Workspace := exampleWorkspace [exampleGroup "base" ["roads"]; exampleGroup "all" ["base"; "roads"]].

Lemma group_expansion_visible_witness :
  exists layers, expandRenderLayer nestedWorkspace "all" "" "viewer" 8 = inr layers /\
    rlName <$> layers = ["roads"; "roads"] /\ forall l, l ∈ layers -> leafVisible nestedWorkspace "viewer" (rlName l).
Proof.
  destruct (expandRenderLayer nestedWorkspace "all" "" "viewer" 8) as [e|layers] eqn:He; [exfalso; vm_compute in He; discriminate He|].
  exists layers. split; [reflexivity|]. split.
  - vm_compute in He. injection He as <-. reflexivity.
  - intros l Hl. eapply (group_expansion_visible nestedWorkspace "all" "" "viewer" 8); [vm_compute; reflexivity|exact He|exact Hl].
Defined.

(** With a limit of one level a group of layers passes the validation and cannot be drawn. *)
Example valid_group_cannot_be_drawn :
  validateLayerGroup (exampleWorkspace []) (exampleGroup "base" ["roads"]) "" 1 = None
  /\ expandRenderLayer (exampleWorkspace [exampleGroup "base" ["roads"]]) "base" "" "viewer" 1 = inl (ExpandNesting 1).
Proof. vm_compute. done. Qed.

(** The nesting is checked below the changed group only: with a limit of two levels, a group that another
    group contains may be given a nested group. *)
Example nesting_above_not_checked :
  validateLayerGroup (exampleWorkspace [exampleGroup "c" ["roads"]; exampleGroup "b" ["roads"]; exampleGroup "a" ["b"]])
    (exampleGroup "b" ["c"]) "b" 2 = None
  /\ validateLayerGroup (exampleWorkspace [exampleGroup "c" ["roads"]; exampleGroup "b" ["c"]]) (exampleGroup "a" ["b"]) "" 2
     = Some (NestingExceeds 2).
Proof. vm_compute. done. Qed.

(** A member that has the group's old name is not looked up: a group that is renamed while it is given its own
    old name as a member keeps a member that does not exist. *)
Example rename_leaves_dangling_member :
  let ws := exampleWorkspace [exampleGroup "a" ["roads"]] in
  validateLayerGroup ws (exampleGroup "b" ["a"]) "a" 8 = None
  /\ GetResource (exampleWorkspace [exampleGroup "b" ["a"]]) "a" = None.
Proof. vm_compute. done. Qed.
