(* ===== verification/GoPath.v ===== *)
(** * File paths ([path/filepath] on Unix)

    [Clean], [IsAbs], [Join], [Abs] and [Rel] as used by the tile store and the path
    policy, on the components of a path. *)

From S2P Require Import Prelude GoText.

Definition IsAbs (p : string) : bool := HasPrefix p "/".

(** The components that [Clean] keeps, in reverse. *)
Fixpoint cleanFold (rooted : bool) (acc : list string) (parts : list string) : list string :=
  match parts with
  | [] => acc
  | p :: rest =>
      if String.eqb p "" || String.eqb p "." then cleanFold rooted acc rest
      else if String.eqb p ".." then
        match acc with
        | [] => cleanFold rooted (if rooted then [] else [".."]) rest
        | q :: acc' => cleanFold rooted (if String.eqb q ".." then ".." :: acc else acc') rest
        end
      else cleanFold rooted (p :: acc) rest
  end.

Definition cleanParts (p : string) : list string := rev (cleanFold (IsAbs p) [] (Split "/" p)).

Definition joinParts (rooted : bool) (parts : list string) : string :=
  if rooted then "/" +:+ Join "/" parts
  else match parts with [] => "." | _ => Join "/" parts end.

Definition Clean (p : string) : string := joinParts (IsAbs p) (cleanParts p).

(** [filepath.Join] of two elements. *)
Definition JoinPath (a b : string) : string :=
  if String.eqb a "" then (if String.eqb b "" then "" else Clean b)
  else if String.eqb b "" then Clean a
  else Clean (a +:+ "/" +:+ b).

(** [filepath.Abs] with the working directory [cwd]. *)
Definition Abs (cwd p : string) : string := if IsAbs p then Clean p else JoinPath cwd p.

Fixpoint stripCommon (base target : list string) : list string * list string :=
  match base, target with
  | b :: base', t :: target' => if String.eqb b t then stripCommon base' target' else (base, target)
  | _, _ => (base, target)
  end.

(** [filepath.Rel]: an error when one path is rooted and the other is not, or when what is left of
    the base is an unknown directory. *)
Definition Rel (base target : string) : option string :=
  if negb (Bool.eqb (IsAbs base) (IsAbs target)) then None
  else
    match stripCommon (cleanParts base) (cleanParts target) with
    | ([".."], _) => None
    | (b, t) => Some (joinParts false (replicate (length b) ".." ++ t))
    end.

(** ** Properties *)

(** A proper component: what [Clean] leaves of a rooted path. *)
Definition properPart (p : string) : bool :=
  negb (String.eqb p "") && negb (String.eqb p ".") && negb (String.eqb p "..") && negb (has_byte "/" p).

Lemma Split_parts c s : Forall (fun p => has_byte c p = false) (Split c s).
Proof.
  induction s as [|a s IH]; cbn [Split]; [by constructor|].
  destruct (Split_nonempty c s) as (part & rest & Hs). rewrite Hs in *. apply Forall_cons in IH as [Hp Hr].
  destruct (Ascii.eqb _ _) eqn:Ha; [constructor; [done|by constructor]|].
  constructor; [|done]. cbn [has_byte]. rewrite Hp, orb_false_r. first [exact Ha|by rewrite Ascii.eqb_sym].
Qed.

Lemma cleanFold_rooted acc parts :
  Forall (fun p => properPart p = true) acc -> Forall (fun p => has_byte "/" p = false) parts ->
  Forall (fun p => properPart p = true) (cleanFold true acc parts).
Proof.
  revert acc. induction parts as [|p parts IH]; intros acc Ha Hp; cbn [cleanFold]; [done|].
  apply Forall_cons in Hp as [Hp Hr]. destruct (String.eqb p "" || String.eqb p ".") eqn:He; [by apply IH|].
  apply orb_false_iff in He as [H1 H2]. destruct (String.eqb p "..") eqn:H3.
  - destruct acc as [|q acc']; [by apply IH|]. pose proof Ha as Ha0. apply Forall_cons in Ha as [Hq Ha']. unfold properPart in Hq.
    destruct (String.eqb q ".."); [by rewrite andb_false_r in Hq|]. by apply IH.
  - apply IH; [|done]. constructor; [|done]. unfold properPart. by rewrite H1, H2, H3, Hp.
Qed.

Lemma cleanParts_rooted p : IsAbs p = true -> Forall (fun q => properPart q = true) (cleanParts p).
Proof.
  intros Hr. unfold cleanParts. rewrite Hr. apply Forall_rev, cleanFold_rooted; [constructor|apply Split_parts].
Qed.

(** Cleaning the components of a rooted path again changes nothing. *)
Lemma cleanFold_proper rooted acc parts :
  Forall (fun p => properPart p = true) parts -> cleanFold rooted acc parts = rev parts ++ acc.
Proof.
  revert acc. induction parts as [|p parts IH]; intros acc Hp; cbn [cleanFold rev]; [done|].
  apply Forall_cons in Hp as [Hp Hr]. unfold properPart in Hp. rewrite !andb_true_iff, !negb_true_iff in Hp.
  destruct Hp as [[[H1 H2] H3] _]. rewrite H1, H2, H3. cbn [orb]. rewrite IH by done. by rewrite <- app_assoc.
Qed.

Lemma proper_no_slash parts : Forall (fun p => properPart p = true) parts -> Forall (fun s => has_byte "/" s = false) parts.
Proof.
  intros H. eapply Forall_impl; [exact H|]. intros p Hp. unfold properPart in Hp.
  apply andb_true_iff in Hp as [_ Hp]. by apply negb_true_iff in Hp.
Qed.

Lemma cleanParts_joinParts parts :
  Forall (fun p => properPart p = true) parts -> cleanParts (joinParts true parts) = parts.
Proof.
  intros Hp. unfold cleanParts, joinParts.
  assert (IsAbs ("/" +:+ Join "/" parts) = true) as -> by apply prefix_app.
  change ("/" +:+ Join "/" parts) with (String "/" (Join "/" parts)).
  destruct parts as [|p parts]; [done|].
  assert (Hs : Split "/" (String "/" (Join "/" (p :: parts))) = "" :: p :: parts).
  { change (String "/" (Join "/" (p :: parts))) with ("" +:+ String "/" (Join "/" (p :: parts))).
    rewrite Split_app by done. f_equal. apply (Split_Join "/"); [discriminate|]. by apply proper_no_slash. }
  rewrite Hs. change (cleanFold true [] ("" :: p :: parts)) with (cleanFold true [] (p :: parts)). rewrite cleanFold_proper by done. rewrite app_nil_r. apply rev_involutive.
Qed.

Lemma stripCommon_spec base target b t :
  stripCommon base target = (b, t) -> exists c, base = c ++ b /\ target = c ++ t.
Proof.
  revert target. induction base as [|x base IH]; intros [|y target]; cbn [stripCommon]; try (intros [= <- <-]; by exists []).
  destruct (String.eqb_spec x y) as [->|]; [|intros [= <- <-]; by exists []].
  intros (c & -> & ->)%IH. by exists (y :: c).
Qed.

Lemma stripCommon_app base target : stripCommon base (base ++ target) = ([], target).
Proof. induction base as [|x base IH]; cbn; [by destruct target|]. by rewrite String.eqb_refl. Qed.

(** A relative path that does not climb: the target lies below the base. *)
Definition climbs (rel : string) : bool := String.eqb rel ".." || HasPrefix rel "../".

Lemma joinParts_climbs b t :
  joinParts false (".." :: b ++ t) = ".." \/ exists r, joinParts false (".." :: b ++ t) = "../" +:+ r.
Proof.
  cbn [joinParts]. destruct (b ++ t) as [|x l]; [by left|]. right. exists (Join "/" (x :: l)). reflexivity.
Qed.

Lemma Rel_below base target rel :
  IsAbs base = true -> Rel base target = Some rel -> climbs rel = false ->
  exists below, cleanParts target = cleanParts base ++ below.
Proof.
  intros Hb. unfold Rel. destruct (negb _); [done|].
  destruct (stripCommon (cleanParts base) (cleanParts target)) as [b t] eqn:Hs. apply stripCommon_spec in Hs as (c & Hc & Ht).
  destruct b as [|x b].
  - intros _ _. exists t. by rewrite Hc, Ht, app_nil_r.
  - intros Hr Hcl. exfalso.
    assert (Hrel : rel = joinParts false (".." :: replicate (length b) ".." ++ t)).
    { revert Hr. repeat case_match; intros [= <-]; reflexivity. }
    unfold climbs in Hcl. rewrite Hrel in Hcl. destruct (joinParts_climbs (replicate (length b) "..") t) as [Hj|[r Hj]]; rewrite Hj in Hcl; [done|].
    unfold HasPrefix in Hcl. by rewrite prefix_app, orb_true_r in Hcl.
Qed.
