(* ===== verification/PathPolicy.v ===== *)
(** * The path policy of data sources ([internal/datasource/pathpolicy/pathpolicy.go], [fetch.go])

    Paths and URLs that an administrator gives a data source are admitted by an
    allow-list of glob patterns; remote hosts must be allow-listed exactly and must not
    name, or resolve to, an address that is not public; local paths are resolved and
    must lie below the fixed part of a pattern they match.

    [globMatch] is the third-party matcher ([None] for a malformed pattern), [parseURL]
    and [parseIP] are the parsers of [net/url] and [net], [evalSymlinks] is the file
    system and [cwd] the working directory. An address of type [net.IP] is its bytes. *)

From S2P Require Import Prelude GoText GoPath.

(** ** Addresses *)

Abbreviation IP := (list Z).

(** The number an address stands for, most significant byte first. *)
Definition num (ip : IP) : Z := foldl (fun acc b => acc * 256 + b) 0 ip.

Definition byteAt (ip : IP) (k : nat) : Z := default 0 (ip !! k).

(** The IPv4 address of a four-byte or of a mapped sixteen-byte slice. *)
Definition To4 (ip : IP) : option IP :=
  if Nat.eqb (length ip) 4 then Some ip
  else if Nat.eqb (length ip) 16 && forallb (fun b => b =? 0) (take 10 ip) && (byteAt ip 10 =? 255) && (byteAt ip 11 =? 255)
  then Some (drop 12 ip)
  else None.

Definition IsUnspecified (ip : IP) : bool :=
  match To4 ip with Some v => num v =? 0 | None => Nat.eqb (length ip) 16 && (num ip =? 0) end.

Definition IsLoopback (ip : IP) : bool :=
  match To4 ip with Some v => byteAt v 0 =? 127 | None => Nat.eqb (length ip) 16 && (num ip =? 1) end.

Definition IsPrivate (ip : IP) : bool :=
  match To4 ip with
  | Some v =>
      (byteAt v 0 =? 10) || ((byteAt v 0 =? 172) && (Z.land (byteAt v 1) 240 =? 16))
      || ((byteAt v 0 =? 192) && (byteAt v 1 =? 168))
  | None => Nat.eqb (length ip) 16 && (Z.land (byteAt ip 0) 254 =? 252)
  end.

Definition IsMulticast (ip : IP) : bool :=
  match To4 ip with
  | Some v => Z.land (byteAt v 0) 240 =? 224
  | None => Nat.eqb (length ip) 16 && (byteAt ip 0 =? 255)
  end.

Definition IsLinkLocalMulticast (ip : IP) : bool :=
  match To4 ip with
  | Some v => (byteAt v 0 =? 224) && (byteAt v 1 =? 0) && (byteAt v 2 =? 0)
  | None => Nat.eqb (length ip) 16 && (byteAt ip 0 =? 255) && (Z.land (byteAt ip 1) 15 =? 2)
  end.

Definition IsLinkLocalUnicast (ip : IP) : bool :=
  match To4 ip with
  | Some v => (byteAt v 0 =? 169) && (byteAt v 1 =? 254)
  | None => Nat.eqb (length ip) 16 && (byteAt ip 0 =? 254) && (Z.land (byteAt ip 1) 192 =? 128)
  end.

(** [netip.Prefix]: the address and the number of leading bits. *)
Record Prefix : Type := mkPrefix { prefixAddr : IP; prefixBits : Z }.

(** [Contains]: the families agree and the leading bits are equal. *)
Definition PrefixContains (p : Prefix) (ip : IP) : bool :=
  Nat.eqb (length (prefixAddr p)) (length ip)
  && (let rest := 8 * Z.of_nat (length ip) - prefixBits p in
      Z.shiftr (num ip) rest =? Z.shiftr (num (prefixAddr p)) rest).

(** An IPv6 address from its leading bytes. *)
Definition v6 (leading : list Z) : IP := leading ++ replicate (16 - length leading) 0.

Definition blockedPrefixes : list Prefix :=
  [mkPrefix [0; 0; 0; 0] 8; mkPrefix [100; 64; 0; 0] 10; mkPrefix [192; 0; 0; 0] 24; mkPrefix [192; 0; 2; 0] 24;
   mkPrefix [198; 18; 0; 0] 15; mkPrefix [198; 51; 100; 0] 24; mkPrefix [203; 0; 113; 0] 24; mkPrefix [240; 0; 0; 0] 4;
   mkPrefix (v6 []) 96; mkPrefix (v6 [1; 0]) 64; mkPrefix (v6 [32; 1]) 32; mkPrefix (v6 [32; 1; 13; 184]) 32;
   mkPrefix (v6 [254; 192]) 10].

Definition nat64Prefixes : list Prefix :=
  [mkPrefix (v6 [0; 100; 255; 155]) 96; mkPrefix (v6 [0; 100; 255; 155; 0; 1]) 48].

Definition sixToFourPrefix : Prefix := mkPrefix (v6 [32; 2]) 16.

(** [netip.AddrFromSlice] and [Unmap]. *)
Definition AddrFromSlice (ip : IP) : option IP :=
  if Nat.eqb (length ip) 4 || Nat.eqb (length ip) 16 then Some ip else None.

Definition Unmap (ip : IP) : IP := default ip (To4 ip).

Definition embeddedIPv4 (addr : IP) : option IP :=
  if existsb (fun p => PrefixContains p addr) nat64Prefixes
  then Some [byteAt addr 12; byteAt addr 13; byteAt addr 14; byteAt addr 15]
  else if PrefixContains sixToFourPrefix addr
  then Some [byteAt addr 2; byteAt addr 3; byteAt addr 4; byteAt addr 5]
  else None.

(** The recursion goes from an IPv6 address to an IPv4 address, once. *)
Fixpoint isBlocked (fuel : nat) (ip : IP) : bool :=
  if IsLoopback ip || IsLinkLocalUnicast ip || IsLinkLocalMulticast ip || IsMulticast ip || IsPrivate ip || IsUnspecified ip
  then true
  else
    match AddrFromSlice ip with
    | None => true
    | Some addr =>
        let addr := Unmap addr in
        if existsb (fun p => PrefixContains p addr) blockedPrefixes then true
        else
          match embeddedIPv4 addr, fuel with
          | Some e, S fuel => isBlocked fuel e
          | Some _, O => true
          | None, _ => false
          end
    end.

Definition isBlockedIP (ip : IP) : bool := isBlocked 1 ip.

(** [SafeDialContext], after the resolver: the address that is dialled. *)
Inductive dialError : Type := NoAddresses | AddressBlocked.

Definition SafeDial (addresses : list IP) : dialError + IP :=
  match addresses with
  | [] => inl NoAddresses
  | a :: _ => if existsb isBlockedIP addresses then inl AddressBlocked else inr a
  end.

(** ** Paths *)

Record URL : Type := mkURL { Scheme : string; Hostname : string; Port : string; HasUser : bool }.

Definition remoteSchemes : list string :=
  ["http://"; "https://"; "s3://"; "gs://"; "gcs://"; "azure://"; "az://"; "r2://"].

Definition IsRemote (path : string) : bool := existsb (fun s => HasPrefix (ToLower path) s) remoteSchemes.

Inductive policyError : Type :=
| EmptyPath
| Traversal
| InvalidURL
| LocalhostDenied
| AddressDenied
| InvalidPattern (p : string)
| NotPermitted
| RequiresHTTPS
| HostNotExact
| BucketNotExact
| ResolveFailed
| Escapes
| FetchFailed.

(** The part of a pattern before its first metacharacter. *)
Fixpoint fixedPart (s : string) : string :=
  match s with
  | EmptyString => ""
  | String c s' => if Ascii.eqb c "*" || Ascii.eqb c "?" || Ascii.eqb c "[" then "" else String c (fixedPart s')
  end.

(** The metacharacters of the working directory are escaped. *)
Fixpoint escapeGlob (s : string) : string :=
  match s with
  | EmptyString => ""
  | String c s' =>
      if Ascii.eqb c "\" || Ascii.eqb c "*" || Ascii.eqb c "?" || Ascii.eqb c "[" || Ascii.eqb c "{"
      then String "\" (String c (escapeGlob s')) else String c (escapeGlob s')
  end.

Section Policy.
Context (globMatch : string -> string -> option bool).
Context (parseURL : string -> option URL) (parseIP : string -> option IP).
Context (evalSymlinks : string -> option string) (cwd : string).

Definition absolutePattern (pattern : string) : string :=
  if IsAbs pattern then Clean pattern else escapeGlob (Clean cwd) +:+ "/" +:+ Clean pattern.

Definition matchPattern (pattern path : string) : option bool :=
  match globMatch pattern path with
  | None => None
  | Some ok =>
      if ok || IsRemote pattern || IsRemote path then Some ok
      else globMatch (absolutePattern pattern) (Abs cwd path)
  end.

Definition checkRemoteHost (raw : string) : option policyError :=
  match parseURL raw with
  | None => Some InvalidURL
  | Some u =>
      if String.eqb (Hostname u) "" then None
      else if EqualFold (Hostname u) "localhost" then Some LocalhostDenied
      else if negb (String.eqb (ToLower (Scheme u)) "http") && negb (String.eqb (ToLower (Scheme u)) "https") then None
      else match parseIP (Hostname u) with
           | Some ip => if isBlockedIP ip then Some AddressDenied else None
           | None => None
           end
  end.

Fixpoint allowedBy (allowed : list string) (path : string) : option policyError :=
  match allowed with
  | [] => Some NotPermitted
  | pat :: rest =>
      match matchPattern pat path with
      | None => Some (InvalidPattern pat)
      | Some true => None
      | Some false => allowedBy rest path
      end
  end.

Definition AllowPath (path : string) (allowed : list string) : option policyError :=
  let path := TrimSpace path in
  if String.eqb path "" then Some EmptyPath
  else if Contains path ".." then Some Traversal
  else match (if IsRemote path then checkRemoteHost path else None) with
       | Some e => Some e
       | None => allowedBy allowed path
       end.

Definition exactRemoteAuthorityAllowed (target : option URL) (allowed : list string) : bool :=
  match target with
  | None => false
  | Some t =>
      if String.eqb (Hostname t) "" || HasUser t then false
      else existsb (fun pattern =>
             match parseURL (fixedPart pattern) with
             | Some u => EqualFold (Scheme u) (Scheme t) && EqualFold (Hostname u) (Hostname t) && String.eqb (Port u) (Port t)
             | None => false
             end) allowed
  end.

(** [CheckRedirect] of the client that downloads: [via] counts the requests made so far. *)
Definition CheckRedirect (via : nat) (target : URL) (allowed : list string) : bool :=
  Nat.ltb via 3 && String.eqb (Scheme target) "https" && exactRemoteAuthorityAllowed (Some target) allowed.

(** The directory that bounds what a pattern admits. *)
Definition rootPattern (pattern : string) : string :=
  let root := trimRightBy (fun c => Ascii.eqb c "/") (fixedPart pattern) in
  if String.eqb root "" then "/" else root.

(** The containment test of one pattern. *)
Definition contains (path real pattern : string) : bool :=
  negb (IsRemote pattern)
  && (match matchPattern pattern path with Some ok => ok | None => false end)
  && match evalSymlinks (Abs cwd (rootPattern pattern)) with
     | None => false
     | Some rootReal =>
         match Rel rootReal real with
         | None => false
         | Some rel => negb (String.eqb rel "..") && negb (IsAbs rel) && negb (HasPrefix rel "../")
         end
     end.

Definition canonicalLocalPath (path : string) (allowed : list string) : policyError + string :=
  match evalSymlinks (Abs cwd path) with
  | None => inl ResolveFailed
  | Some real => if existsb (contains path real) allowed then inr real else inl Escapes
  end.

(** What a lease is for: a local file, an object of a store, or a downloaded copy. *)
Inductive lease : Type :=
| LocalFile (path : string)
| ObjectURL (path : string)
| CachedDownload (u : URL).

(** [fetchOK]: whether the download of the URL succeeds. *)
Definition Acquire (fetchOK : URL -> bool) (path : string) (allowed : list string) : policyError + lease :=
  match AllowPath path allowed with
  | Some e => inl e
  | None =>
      let u := parseURL path in
      let schemeIs s := match u with Some u => EqualFold (Scheme u) s | None => false end in
      if schemeIs "http" then inl RequiresHTTPS
      else if schemeIs "https" then
        match u with
        | Some t =>
            if negb (exactRemoteAuthorityAllowed u allowed) then inl HostNotExact
            else if fetchOK t then inr (CachedDownload t) else inl FetchFailed
        | None => inl HostNotExact
        end
      else if IsRemote path then
        if exactRemoteAuthorityAllowed u allowed then inr (ObjectURL path) else inl BucketNotExact
      else match canonicalLocalPath path allowed with
           | inl e => inl e
           | inr real => inr (LocalFile real)
           end
  end.
End Policy.

(** ** The address filter is exact *)

Definition ip4 (a b c d : Z) : Z := ((a * 256 + b) * 256 + c) * 256 + d.

(** The IPv4 ranges that are not public. *)
Definition v4Reserved : list (Z * Z) :=
  [(ip4 0 0 0 0, ip4 0 255 255 255); (ip4 10 0 0 0, ip4 10 255 255 255); (ip4 100 64 0 0, ip4 100 127 255 255);
   (ip4 127 0 0 0, ip4 127 255 255 255); (ip4 169 254 0 0, ip4 169 254 255 255); (ip4 172 16 0 0, ip4 172 31 255 255);
   (ip4 192 0 0 0, ip4 192 0 0 255); (ip4 192 0 2 0, ip4 192 0 2 255); (ip4 192 168 0 0, ip4 192 168 255 255);
   (ip4 198 18 0 0, ip4 198 19 255 255); (ip4 198 51 100 0, ip4 198 51 100 255); (ip4 203 0 113 0, ip4 203 0 113 255);
   (ip4 224 0 0 0, ip4 255 255 255 255)].

(** The IPv6 ranges that are not public, by their leading bits. *)
Definition v6Reserved : list (Z * Z) :=
  [(0, 2 ^ 32 - 1);
   (256 * 2 ^ 112, 256 * 2 ^ 112 + 2 ^ 64 - 1);
   (8193 * 2 ^ 112, 8193 * 2 ^ 112 + 2 ^ 96 - 1);
   (536939960 * 2 ^ 96, 536939960 * 2 ^ 96 + 2 ^ 96 - 1);
   (252 * 2 ^ 120, 254 * 2 ^ 120 - 1);
   (65152 * 2 ^ 112, 65280 * 2 ^ 112 - 1);
   (255 * 2 ^ 120, 2 ^ 128 - 1)].

Definition outside (ranges : list (Z * Z)) (n : Z) : Prop := Forall (fun r => n < r.1 \/ r.2 < n) ranges.

(** The IPv4 address that traffic for an IPv6 address is translated to: mapped addresses, the two
    NAT64 prefixes, 6to4. *)
Definition translated (n : Z) : option Z :=
  if (65535 * 2 ^ 32 <=? n) && (n <? 65536 * 2 ^ 32) then Some (n mod 2 ^ 32)
  else if ((6619035 * 2 ^ 96 <=? n) && (n <? 6619035 * 2 ^ 96 + 2 ^ 32))
          || ((433785077761 * 2 ^ 80 <=? n) && (n <? 433785077762 * 2 ^ 80)) then Some (n mod 2 ^ 32)
  else if (8194 * 2 ^ 112 <=? n) && (n <? 8195 * 2 ^ 112) then Some ((n / 2 ^ 80) mod 2 ^ 32)
  else None.

Definition public (ip : IP) : Prop :=
  if Nat.eqb (length ip) 4 then outside v4Reserved (num ip)
  else if Nat.eqb (length ip) 16 then
    match translated (num ip) with
    | Some v => outside v4Reserved v
    | None => outside v6Reserved (num ip)
    end
  else False.

Definition isBytes (ip : IP) : Prop := Forall (fun b => 0 <= b < 256) ip.

Lemma byte_land (mask value lo hi b : Z) :
  forallb (fun x => Bool.eqb (Z.land x mask =? value) ((lo <=? x) && (x <=? hi))) (seqZ 0 256) = true ->
  0 <= b < 256 -> (Z.land b mask =? value) = ((lo <=? b) && (b <=? hi)).
Proof.
  intros H Hb. rewrite forallb_forall in H. specialize (H b).
  apply Bool.eqb_prop, H, list_elem_of_In, elem_of_seqZ. lia.
Qed.

Lemma shiftr_eq (x k p : Z) : 0 <= k -> (Z.shiftr x k =? p) = ((p * 2 ^ k <=? x) && (x <? (p + 1) * 2 ^ k)).
Proof.
  intros Hk. rewrite Z.shiftr_div_pow2 by done. pose proof (Z.pow_pos_nonneg 2 k ltac:(lia) Hk) as Hp.
  pose proof (Z.div_mod x (2 ^ k) ltac:(lia)). pose proof (Z.mod_pos_bound x (2 ^ k) Hp).
  apply Bool.eq_true_iff_eq. rewrite andb_true_iff, Z.eqb_eq, Z.leb_le, Z.ltb_lt. split; [intros <-; nia|].
  intros [? ?]. symmetry. apply (Z.div_unique x (2 ^ k) p (x - 2 ^ k * p)); [left|]; lia.
Qed.

(** IPv4: a byte of a range at a time. *)
Lemma PrefixContains_4 addr bits a b c d lo size :
  length addr = 4%nat -> 0 <= bits <= 32 -> size = 2 ^ (32 - bits) -> lo = Z.shiftr (num addr) (32 - bits) * size ->
  PrefixContains (mkPrefix addr bits) [a; b; c; d] = ((lo <=? ip4 a b c d) && (ip4 a b c d <? lo + size)).
Proof.
  intros Hl Hb -> ->. unfold PrefixContains. cbn [prefixAddr prefixBits length]. rewrite Hl. cbn [Nat.eqb andb].
  change (8 * Z.of_nat 4) with 32. rewrite shiftr_eq by lia.
  assert (num [a; b; c; d] = ip4 a b c d) as -> by (unfold num, ip4; cbn [foldl]; lia). do 2 f_equal. lia.
Qed.

Lemma PrefixContains_family p ip : length (prefixAddr p) <> length ip -> PrefixContains p ip = false.
Proof. intros H. unfold PrefixContains. by apply Nat.eqb_neq in H as ->. Qed.

Lemma isBlocked_4 fuel a b c d :
  isBytes [a; b; c; d] -> (isBlocked fuel [a; b; c; d] = false <-> outside v4Reserved (ip4 a b c d)).
Proof.
  intros H. unfold isBytes in H. rewrite !Forall_cons in H. destruct H as (Ha & Hb & Hc & Hd & _).
  assert (He : embeddedIPv4 [a; b; c; d] = None).
  { unfold embeddedIPv4, nat64Prefixes, sixToFourPrefix. cbn [existsb]. rewrite !PrefixContains_family by (cbn; lia). done. }
  assert (Hu : isBlocked fuel [a; b; c; d] = IsLoopback [a; b; c; d] || IsLinkLocalUnicast [a; b; c; d]
      || IsLinkLocalMulticast [a; b; c; d] || IsMulticast [a; b; c; d] || IsPrivate [a; b; c; d] || IsUnspecified [a; b; c; d]
      || existsb (fun p => PrefixContains p [a; b; c; d]) blockedPrefixes).
  { destruct fuel; unfold isBlocked; fold isBlocked;
      destruct (IsLoopback _ || _ || _ || _ || _ || _); [done| |done|]; cbn [orb AddrFromSlice Nat.eqb length];
      change (Unmap [a; b; c; d]) with [a; b; c; d]; rewrite He; by destruct (existsb _ _). }
  rewrite Hu. unfold blockedPrefixes. cbn [existsb].
  rewrite (PrefixContains_4 [0; 0; 0; 0] 8 a b c d 0 16777216), (PrefixContains_4 [100; 64; 0; 0] 10 a b c d 1681915904 4194304),
    (PrefixContains_4 [192; 0; 0; 0] 24 a b c d 3221225472 256), (PrefixContains_4 [192; 0; 2; 0] 24 a b c d 3221225984 256),
    (PrefixContains_4 [198; 18; 0; 0] 15 a b c d 3323068416 131072), (PrefixContains_4 [198; 51; 100; 0] 24 a b c d 3325256704 256),
    (PrefixContains_4 [203; 0; 113; 0] 24 a b c d 3405803776 256), (PrefixContains_4 [240; 0; 0; 0] 4 a b c d 4026531840 268435456)
    by (try reflexivity; lia).
  rewrite !PrefixContains_family by (cbn; lia).
  unfold IsLoopback, IsLinkLocalUnicast, IsLinkLocalMulticast, IsMulticast, IsPrivate, IsUnspecified.
  change (To4 [a; b; c; d]) with (Some [a; b; c; d]). cbv beta iota.
  change (byteAt [a; b; c; d] 0) with a. change (byteAt [a; b; c; d] 1) with b. change (byteAt [a; b; c; d] 2) with c.
  rewrite (byte_land 240 16 16 31 b), (byte_land 240 224 224 239 a) by first [reflexivity|done].
  unfold outside, v4Reserved, num, ip4. rewrite !Forall_cons, Forall_nil. cbn [fst snd foldl].
  split; intros Hf; [repeat split|]; lia.
Qed.

(** A mapped address is treated as the IPv4 address it carries. *)
Lemma isBlocked_mapped fuel ip v : length ip = 16%nat -> To4 ip = Some v -> To4 v = Some v -> isBlocked fuel ip = isBlocked fuel v.
Proof.
  intros Hl Hm Hv.
  assert (Hlv : length v = 4%nat).
  { unfold To4 in Hm. rewrite Hl in Hm. cbn [Nat.eqb] in Hm. case_match; [|done]. injection Hm as <-. rewrite length_drop. lia. }
  assert (AddrFromSlice ip = Some ip /\ AddrFromSlice v = Some v) as [Ha Ha'] by (unfold AddrFromSlice; by rewrite Hl, Hlv).
  assert (Unmap ip = v /\ Unmap v = v) as [Hu Hu'] by (unfold Unmap; by rewrite Hm, Hv).
  destruct fuel; unfold isBlocked; fold isBlocked; rewrite Ha, Ha', Hu, Hu';
    unfold IsLoopback, IsLinkLocalUnicast, IsLinkLocalMulticast, IsMulticast, IsPrivate, IsUnspecified; by rewrite Hm, Hv.
Qed.

(** The classifiers and prefixes of an address of sixteen bytes, as ranges of its number [n];
    [b0] and [b1] are its first bytes and [r] is the rest. *)
Lemma PrefixContains_16 addr bits ip lo size :
  length addr = 16%nat -> length ip = 16%nat -> 0 <= bits <= 128 -> size = 2 ^ (128 - bits) ->
  lo = Z.shiftr (num addr) (128 - bits) * size ->
  PrefixContains (mkPrefix addr bits) ip = ((lo <=? num ip) && (num ip <? lo + size)).
Proof.
  intros Hl Hi Hb -> ->. unfold PrefixContains. cbn [prefixAddr prefixBits]. rewrite Hl, Hi. cbn [Nat.eqb andb].
  change (8 * Z.of_nat 16) with 128. rewrite shiftr_eq by lia. do 2 f_equal. lia.
Qed.

Lemma num_app a b : num (a ++ b) = num a * 256 ^ Z.of_nat (length b) + num b.
Proof.
  unfold num. rewrite foldl_app. generalize (foldl (fun acc b => acc * 256 + b) 0 a) as x. induction b as [|y b IH] using rev_ind; intros x; cbn [foldl length].
  - rewrite Z.pow_0_r. lia.
  - rewrite !foldl_app. cbn [foldl]. rewrite IH, length_app. cbn [length]. rewrite Nat2Z.inj_add, Z.pow_add_r by lia. change (256 ^ Z.of_nat 1) with 256. lia.
Qed.

Lemma num_bound ip : isBytes ip -> 0 <= num ip < 256 ^ Z.of_nat (length ip).
Proof.
  induction ip as [|x ip IH] using rev_ind; intros H; [by cbn; lia|].
  apply Forall_app in H as [H Hx]. apply Forall_cons in Hx as [Hx _]. specialize (IH H).
  rewrite num_app, length_app, Nat2Z.inj_add, Z.pow_add_r by lia. cbn [length]. change (256 ^ Z.of_nat 1) with 256.
  assert (num [x] = x) as -> by (unfold num; cbn [foldl]; lia). nia.
Qed.

Lemma num_split k ip : isBytes ip -> length ip = 16%nat -> (k <= 16)%nat ->
  num ip = num (take k ip) * 256 ^ Z.of_nat (16 - k) + num (drop k ip) /\ 0 <= num (drop k ip) < 256 ^ Z.of_nat (16 - k).
Proof.
  intros Hb Hl Hk. split.
  - rewrite <- (take_drop k ip) at 1. rewrite num_app, length_drop, Hl. done.
  - rewrite <- Hl, <- length_drop. by apply num_bound, Forall_drop.
Qed.

(** The bytes of an address whose bytes are variables. *)
Ltac bytes := unfold byteAt, num, ip4; simpl lookup; simpl default; unfold id; cbn [take drop foldl]; rewrite ?take_0; cbn [foldl].

Lemma num_zero ip : isBytes ip -> forallb (fun b => b =? 0) ip = (num ip =? 0).
Proof.
  induction ip as [|x ip IH] using rev_ind; intros H; [done|]. apply Forall_app in H as [H Hx]. apply Forall_cons in Hx as [Hx _].
  rewrite forallb_app, IH, num_app by done. cbn [forallb length]. change (256 ^ Z.of_nat 1) with 256. pose proof (num_bound ip H).
  assert (num [x] = x) as -> by (unfold num; cbn [foldl]; lia). lia.
Qed.

Lemma byteAt_bound ip k : isBytes ip -> 0 <= byteAt ip k < 256.
Proof.
  intros H. unfold byteAt. destruct (ip !! k) as [b|] eqn:Hk; cbn [default]; [|cbn; lia]. by eapply Forall_lookup in H.
Qed.

Lemma To4_16 ip : isBytes ip -> length ip = 16%nat ->
  To4 ip = if (281470681743360 <=? num ip) && (num ip <? 281474976710656) then Some (drop 12 ip) else None.
Proof.
  intros Hb Hl. destruct (num_split 12 ip Hb Hl ltac:(lia)) as [Hn Hr]. change (256 ^ Z.of_nat (16 - 12)) with 4294967296 in *.
  unfold To4. rewrite Hl. cbn [Nat.eqb andb]. rewrite num_zero by by apply Forall_take.
  assert (Ht : num (take 12 ip) = num (take 10 ip) * 65536 + byteAt ip 10 * 256 + byteAt ip 11).
  { do 12 (destruct ip as [|? ip]; [done|]). bytes. lia. }
  pose proof (byteAt_bound ip 10 Hb). pose proof (byteAt_bound ip 11 Hb). pose proof (num_bound (take 10 ip) ltac:(by apply Forall_take)).
  replace ((num (take 10 ip) =? 0) && (byteAt ip 10 =? 255) && (byteAt ip 11 =? 255))
    with ((281470681743360 <=? num ip) && (num ip <? 281474976710656)); [done|]. lia.
Qed.

(** The first two bytes of an address. *)
Lemma num_16_high ip : isBytes ip -> length ip = 16%nat ->
  exists r, num ip = (byteAt ip 0 * 256 + byteAt ip 1) * 5192296858534827628530496329220096 + r
    /\ 0 <= r < 5192296858534827628530496329220096 /\ 0 <= byteAt ip 0 < 256 /\ 0 <= byteAt ip 1 < 256.
Proof.
  intros Hb Hl. destruct (num_split 2 ip Hb Hl ltac:(lia)) as [Hn Hr].
  change (256 ^ Z.of_nat (16 - 2)) with 5192296858534827628530496329220096 in *. exists (num (drop 2 ip)).
  assert (num (take 2 ip) = byteAt ip 0 * 256 + byteAt ip 1) as <- by (do 2 (destruct ip as [|? ip]; [done|]); bytes; lia).
  auto using byteAt_bound.
Qed.

(** The IPv4 addresses that are embedded. *)
Lemma num_16_embedded ip : isBytes ip -> length ip = 16%nat ->
  ip4 (byteAt ip 12) (byteAt ip 13) (byteAt ip 14) (byteAt ip 15) = num ip mod 4294967296
  /\ ip4 (byteAt ip 2) (byteAt ip 3) (byteAt ip 4) (byteAt ip 5) = (num ip / 1208925819614629174706176) mod 4294967296
  /\ isBytes [byteAt ip 12; byteAt ip 13; byteAt ip 14; byteAt ip 15] /\ isBytes [byteAt ip 2; byteAt ip 3; byteAt ip 4; byteAt ip 5]
  /\ drop 12 ip = [byteAt ip 12; byteAt ip 13; byteAt ip 14; byteAt ip 15].
Proof.
  intros Hb Hl. destruct (num_split 12 ip Hb Hl ltac:(lia)) as [Hn Hr], (num_split 6 ip Hb Hl ltac:(lia)) as [Hn6 Hr6].
  change (256 ^ Z.of_nat (16 - 12)) with 4294967296 in *. change (256 ^ Z.of_nat (16 - 6)) with 1208925819614629174706176 in *.
  split_and!.
  - rewrite Hn, Z.add_comm, Z_mod_plus_full, Z.mod_small by lia. do 16 (destruct ip as [|? ip]; [done|]). destruct ip; [|done].
    bytes. lia.
  - rewrite Hn6, Z.add_comm, Z_div_plus_full, Z.div_small by lia. rewrite Z.add_0_l.
    do 6 (destruct ip as [|? ip]; [done|]). unfold isBytes in Hb. rewrite !Forall_cons in Hb. bytes.
    match goal with |- ?x = ?y mod _ => apply (Z.mod_unique y 4294967296 ((0 * 256 + z) * 256 + z0) x) end; lia.
  - repeat constructor; by apply byteAt_bound.
  - repeat constructor; by apply byteAt_bound.
  - do 16 (destruct ip as [|? ip]; [done|]). by destruct ip.
Qed.

(** An IPv6 address that is not mapped, by its number. *)
Lemma isBlocked_16 ip : isBytes ip -> length ip = 16%nat -> To4 ip = None ->
  (isBlockedIP ip = false <->
   outside v6Reserved (num ip) /\ match embeddedIPv4 ip with Some e => isBlocked 0 e = false | None => True end).
Proof.
  intros Hb Hl H4. destruct (num_16_high ip Hb Hl) as (r & Hn & Hr & H0 & H1).
  assert (Ha : AddrFromSlice ip = Some ip) by (unfold AddrFromSlice; by rewrite Hl).
  assert (Hu : Unmap ip = ip) by (unfold Unmap; by rewrite H4).
  unfold isBlockedIP, isBlocked; fold isBlocked. rewrite Ha, Hu.
  set (low := IsLoopback ip || _ || _ || _ || _ || _). set (pre := existsb _ blockedPrefixes).
  assert (Hlow : low || pre = false <-> outside v6Reserved (num ip)).
  { subst low pre. unfold IsLoopback, IsLinkLocalUnicast, IsLinkLocalMulticast, IsMulticast, IsPrivate, IsUnspecified.
    rewrite H4, Hl. cbn [Nat.eqb andb]. unfold blockedPrefixes. cbn [existsb].
    rewrite (PrefixContains_16 (v6 []) 96 ip 0 4294967296), (PrefixContains_16 (v6 [1; 0]) 64 ip (256 * 2 ^ 112) (2 ^ 64)),
      (PrefixContains_16 (v6 [32; 1]) 32 ip (8193 * 2 ^ 112) (2 ^ 96)), (PrefixContains_16 (v6 [32; 1; 13; 184]) 32 ip (536939960 * 2 ^ 96) (2 ^ 96)),
      (PrefixContains_16 (v6 [254; 192]) 10 ip (65216 * 2 ^ 112) (2 ^ 118)) by (first [reflexivity|done|lia]).
    rewrite !PrefixContains_family by (rewrite Hl; cbn; lia).
    rewrite (byte_land 254 252 252 253 (byteAt ip 0)), (byte_land 192 128 128 191 (byteAt ip 1)) by first [reflexivity|done].
    unfold outside, v6Reserved. rewrite !Forall_cons, Forall_nil. cbn [fst snd].
    split; intros Hf; [repeat split|]; lia. }
  rewrite <- Hlow. destruct low, pre; cbn [orb]; try (split; [done|by intros [? _]]).
  destruct (embeddedIPv4 ip); intuition.
Qed.

Lemma embeddedIPv4_ranges ip : length ip = 16%nat ->
  embeddedIPv4 ip =
    if ((6619035 * 2 ^ 96 <=? num ip) && (num ip <? 6619035 * 2 ^ 96 + 2 ^ 32))
       || ((433785077761 * 2 ^ 80 <=? num ip) && (num ip <? 433785077762 * 2 ^ 80))
    then Some [byteAt ip 12; byteAt ip 13; byteAt ip 14; byteAt ip 15]
    else if (8194 * 2 ^ 112 <=? num ip) && (num ip <? 8195 * 2 ^ 112)
    then Some [byteAt ip 2; byteAt ip 3; byteAt ip 4; byteAt ip 5] else None.
Proof.
  intros Hl. unfold embeddedIPv4, nat64Prefixes, sixToFourPrefix. cbn [existsb]. rewrite orb_false_r.
  rewrite (PrefixContains_16 (v6 [0; 100; 255; 155]) 96 ip (6619035 * 2 ^ 96) (2 ^ 32)),
    (PrefixContains_16 (v6 [0; 100; 255; 155; 0; 1]) 48 ip (433785077761 * 2 ^ 80) (2 ^ 80)),
    (PrefixContains_16 (v6 [32; 2]) 16 ip (8194 * 2 ^ 112) (2 ^ 112)) by (first [reflexivity|done|lia]). done.
Qed.

Lemma isBlocked_exact_16 ip : isBytes ip -> length ip = 16%nat ->
  (isBlockedIP ip = false <->
   match translated (num ip) with Some v => outside v4Reserved v | None => outside v6Reserved (num ip) end).
Proof.
  intros Hb Hl. destruct (num_16_embedded ip Hb Hl) as (He1 & He2 & Hb1 & Hb2 & Hd).
  pose proof (To4_16 ip Hb Hl) as H4. unfold translated.
  change (65535 * 2 ^ 32) with 281470681743360. change (65536 * 2 ^ 32) with 281474976710656.
  destruct ((281470681743360 <=? num ip) && (num ip <? 281474976710656)) eqn:Hm.
  { unfold isBlockedIP. rewrite Hd in H4. rewrite (isBlocked_mapped 1 ip _ Hl H4) by done. rewrite isBlocked_4 by done. by rewrite He1. }
  rewrite (isBlocked_16 ip Hb Hl H4), (embeddedIPv4_ranges ip Hl). pose proof (num_bound ip Hb).
  change (2 ^ 32) with 4294967296. change (2 ^ 80) with 1208925819614629174706176.
  destruct (_ || _) eqn:Hn.
  { rewrite isBlocked_4, He1 by done. split; [by intros [_ ?]|]. intros Ho. split; [|done].
    unfold outside, v6Reserved. rewrite !Forall_cons, Forall_nil. cbn [fst snd]. lia. }
  destruct ((8194 * 2 ^ 112 <=? num ip) && _) eqn:H6; [|by intuition].
  rewrite isBlocked_4, He2 by done. split; [by intros [_ ?]|]. intros Ho. split; [|done].
  unfold outside, v6Reserved. rewrite !Forall_cons, Forall_nil. cbn [fst snd]. lia.
Qed.

(** C29: the address filter of the datasource fetcher is exact: an address passes
    [isBlockedIP] exactly when it is public, where IPv4 addresses must lie outside the
    reserved ranges, IPv6 addresses that are mapped or translated (NAT64, 6to4) stand for
    the IPv4 address they carry, and other IPv6 addresses must lie outside the reserved
    IPv6 ranges; slices of another length never pass. Hence the dialler only ever
    connects to a public address. *)
Theorem isBlockedIP_exact ip : isBytes ip ->
  (isBlockedIP ip = false <-> public ip)
  /\ forall addresses target, ip ∈ addresses -> SafeDial addresses = inr target -> public ip.
Proof.
  intros Hb. assert (Hexact : isBlockedIP ip = false <-> public ip).
  { unfold public. destruct (Nat.eqb_spec (length ip) 4) as [Hl|Hl4].
    { destruct ip as [|a [|b [|c [|d [|]]]]]; try done. rewrite (isBlocked_4 1 a b c d Hb).
      replace (num [a; b; c; d]) with (ip4 a b c d); [done|]. unfold num, ip4. cbn [foldl]. lia. }
    destruct (Nat.eqb_spec (length ip) 16) as [Hl|Hl16]; [by apply isBlocked_exact_16|].
    split; [|done]. unfold isBlockedIP, isBlocked, AddrFromSlice. apply Nat.eqb_neq in Hl4 as ->, Hl16 as ->. cbn [orb]. by case_match. }
  split; [done|]. intros addresses target Hi Hd. apply Hexact. unfold SafeDial in Hd. destruct addresses as [|a rest]; [done|].
  destruct (existsb isBlockedIP (a :: rest)) eqn:He; [done|]. destruct (isBlockedIP ip) eqn:Hx; [|done].
  rewrite (proj2 (existsb_exists isBlockedIP (a :: rest))) in He; [done|]. exists ip. split; [by apply list_elem_of_In|done].
Qed.

(** The cloud metadata address, as IPv4, mapped and behind NAT64, is refused; a public host is dialled. *)
Lemma isBlockedIP_exact_witness :
  isBlockedIP [169; 254; 169; 254] = true /\ isBlockedIP (replicate 10 0 ++ [255; 255; 169; 254; 169; 254]) = true
  /\ isBlockedIP ([0; 100; 255; 155] ++ replicate 8 0 ++ [169; 254; 169; 254]) = true
  /\ SafeDial [[93; 184; 216; 34]; [10; 0; 0; 1]] = inl AddressBlocked
  /\ SafeDial [[93; 184; 216; 34]] = inr [93; 184; 216; 34] /\ public [93; 184; 216; 34].
Proof.
  split_and!; try reflexivity.
  apply (proj1 (isBlockedIP_exact [93; 184; 216; 34] ltac:(repeat constructor; lia))). reflexivity.
Defined.

(** ** What may be opened *)

Lemma IsAbs_Clean p : IsAbs p = true -> IsAbs (Clean p) = true.
Proof. intros H. unfold Clean. rewrite H. apply prefix_app. Qed.

Lemma IsAbs_app p q : IsAbs p = true -> IsAbs (p +:+ q) = true.
Proof. intros (r & ->)%HasPrefix_split. unfold IsAbs, HasPrefix. rewrite sapp_assoc. apply prefix_app. Qed.

Lemma IsAbs_Abs cwd p : IsAbs cwd = true -> IsAbs (Abs cwd p) = true.
Proof.
  intros Hc. unfold Abs. destruct (IsAbs p) eqn:Hp; [by apply IsAbs_Clean|].
  unfold JoinPath. destruct cwd as [|c cwd]; [done|]. cbn [String.eqb]. destruct (String.eqb p ""); [by apply IsAbs_Clean|].
  apply IsAbs_Clean. by apply IsAbs_app.
Qed.

Section Confinement.
Context (globMatch : string -> string -> option bool) (parseURL : string -> option URL) (parseIP : string -> option IP).
Context (evalSymlinks : string -> option string) (cwd : string).

(** [target] has the authority of a pattern: the same scheme, host and port, and no credentials. *)
Definition exactAuthority (target : URL) (allowed : list string) : Prop :=
  Hostname target <> "" /\ HasUser target = false
  /\ exists pattern u, pattern ∈ allowed /\ parseURL (fixedPart pattern) = Some u
       /\ ToLower (Scheme u) = ToLower (Scheme target) /\ ToLower (Hostname u) = ToLower (Hostname target) /\ Port u = Port target.

Lemma exactRemoteAuthorityAllowed_spec u allowed :
  exactRemoteAuthorityAllowed parseURL u allowed = true -> exists t, u = Some t /\ exactAuthority t allowed.
Proof.
  unfold exactRemoteAuthorityAllowed. destruct u as [t|]; [|done]. destruct (_ || _) eqn:Hh; [done|].
  apply orb_false_iff in Hh as [Hh Hu]. apply String.eqb_neq in Hh. intros (pattern & Hin & Hp)%existsb_exists.
  exists t. split; [done|]. split_and!; [done..|]. exists pattern. apply list_elem_of_In in Hin.
  destruct (parseURL (fixedPart pattern)) as [u|]; [|done]. exists u. rewrite !andb_true_iff in Hp. destruct Hp as [[H1 H2] H3].
  unfold EqualFold in *. apply String.eqb_eq in H1, H2, H3. done.
Qed.

(** [real] lies below the directory [root]. *)
Definition below (root real : string) : Prop := exists rest, cleanParts real = cleanParts root ++ rest.

Lemma canonicalLocalPath_below path allowed real :
  IsAbs cwd = true -> (forall p r, IsAbs p = true -> evalSymlinks p = Some r -> IsAbs r = true) ->
  canonicalLocalPath globMatch evalSymlinks cwd path allowed = inr real ->
  evalSymlinks (Abs cwd path) = Some real
  /\ exists pattern root, pattern ∈ allowed /\ IsRemote pattern = false /\ matchPattern globMatch cwd pattern path = Some true
       /\ evalSymlinks (Abs cwd (rootPattern pattern)) = Some root /\ below root real.
Proof.
  intros Hc Hs. unfold canonicalLocalPath. destruct (evalSymlinks (Abs cwd path)) as [r|]; [|done].
  destruct (existsb _ allowed) eqn:He; [|done]. intros [= <-]. split; [done|].
  apply existsb_exists in He as (pattern & Hin & Hp). apply list_elem_of_In in Hin. unfold contains in Hp.
  rewrite !andb_true_iff, negb_true_iff in Hp. destruct Hp as [[Hr Hm] Hp].
  destruct (matchPattern _ _ _ _) as [[]|] eqn:Hm'; try done.
  destruct (evalSymlinks (Abs cwd (rootPattern pattern))) as [root|] eqn:Hroot; [|done].
  destruct (Rel root r) as [rel|] eqn:Hrel; [|done]. rewrite !andb_true_iff, !negb_true_iff in Hp. destruct Hp as [[H1 _] H2].
  exists pattern, root. split_and!; try done.
  apply (Rel_below root r rel); [|done|unfold climbs; by rewrite H1, H2]. eapply Hs, Hroot. by apply IsAbs_Abs.
Qed.

(** What [AllowPath] has checked of a host. *)
Lemma AllowPath_host path allowed t :
  AllowPath globMatch parseURL parseIP cwd path allowed = None -> TrimSpace path = path -> IsRemote path = true ->
  parseURL path = Some t -> Hostname t <> "" -> ToLower (Scheme t) = "https" ->
  ToLower (Hostname t) <> "localhost" /\ forall ip, parseIP (Hostname t) = Some ip -> isBlockedIP ip = false.
Proof.
  unfold AllowPath. intros Ha Ht Hr Hu Hh Hs. rewrite Ht, Hr in Ha. destruct (String.eqb path ""); [done|].
  destruct (Contains path ".."); [done|]. destruct (checkRemoteHost parseURL parseIP path) eqn:Hc; [done|].
  unfold checkRemoteHost in Hc. rewrite Hu in Hc. apply String.eqb_neq in Hh. rewrite Hh, Hs in Hc.
  destruct (EqualFold (Hostname t) "localhost") eqn:Hl; [done|]. split; [by apply String.eqb_neq in Hl|].
  intros ip Hi. rewrite Hi in Hc. by destruct (isBlockedIP ip); [vm_compute in Hc|].
Qed.

(** C18: a lease never reaches beyond the allow-list. A local file that is opened is the
    resolved (symbolic links followed) path of the request and lies, component by
    component, below the resolved fixed directory of a local pattern that the request
    matches; a remote object and a download have exactly the scheme, host and port of a
    pattern and carry no credentials; a download uses HTTPS, and its host is neither
    localhost nor a literal address that is not public. *)
Theorem Acquire_confined fetchOK path allowed l :
  IsAbs cwd = true -> (forall p r, IsAbs p = true -> evalSymlinks p = Some r -> IsAbs r = true) ->
  Acquire globMatch parseURL parseIP evalSymlinks cwd fetchOK path allowed = inr l ->
  match l with
  | LocalFile real =>
      evalSymlinks (Abs cwd path) = Some real
      /\ exists pattern root, pattern ∈ allowed /\ IsRemote pattern = false /\ matchPattern globMatch cwd pattern path = Some true
           /\ evalSymlinks (Abs cwd (rootPattern pattern)) = Some root /\ below root real
  | ObjectURL p => p = path /\ exists t, parseURL path = Some t /\ exactAuthority t allowed
  | CachedDownload t =>
      parseURL path = Some t /\ exactAuthority t allowed /\ ToLower (Scheme t) = "https"
      /\ (TrimSpace path = path -> IsRemote path = true ->
          ToLower (Hostname t) <> "localhost" /\ forall ip, parseIP (Hostname t) = Some ip -> isBlockedIP ip = false)
  end.
Proof.
  intros Hc Hs. unfold Acquire. destruct (AllowPath _ _ _ _ _ _) eqn:Ha; [done|].
  destruct (match parseURL path with Some u => EqualFold (Scheme u) "http" | None => false end); [done|].
  destruct (match parseURL path with Some u => EqualFold (Scheme u) "https" | None => false end) eqn:Hh.
  - destruct (parseURL path) as [t|] eqn:Hu; [|done]. destruct (exactRemoteAuthorityAllowed parseURL (Some t) allowed) eqn:He; [|done]. cbn [negb].
    destruct (fetchOK t); [|done]. intros [= <-]. apply exactRemoteAuthorityAllowed_spec in He as (? & [= <-] & He).
    unfold EqualFold in Hh. apply String.eqb_eq in Hh. split_and!; try done. intros Ht Hr. destruct He as [He _]. by eapply AllowPath_host.
  - destruct (IsRemote path).
    + destruct (exactRemoteAuthorityAllowed _ _ _) eqn:He; [|done]. intros [= <-]. split; [done|].
      by apply exactRemoteAuthorityAllowed_spec in He.
    + destruct (canonicalLocalPath _ _ _ _ _) eqn:Hl; [done|]. intros [= <-]. by apply canonicalLocalPath_below in Hl.
Qed.
End Confinement.

(** A small world: [/srv/data/link] points to [/etc]; the pattern is [/srv/data/**]. *)
Definition demoGlob (pattern path : string) : option bool := Some (HasPrefix path (fixedPart pattern)).
Definition demoLinks (p : string) : option string :=
  Some (if String.eqb p "/srv/data/link/passwd" then "/etc/passwd" else p).
Definition demoURL (raw : string) : option URL :=
  if HasPrefix raw "https://tiles.example.org" then Some (mkURL "https" "tiles.example.org" "" false)
  else if HasPrefix raw "https://" then Some (mkURL "https" (sdrop 8 raw) "" false) else Some (mkURL "" "" "" false).

Abbreviation demoAcquire :=
  (fun path => Acquire demoGlob demoURL (fun _ => None) demoLinks "/srv" (fun _ => true) path ["/srv/data/**"; "https://tiles.example.org/**"]).

Lemma Acquire_confined_witness :
  demoAcquire "data/a.gpkg" = inr (LocalFile "/srv/data/a.gpkg")
  /\ below "/srv/data" "/srv/data/a.gpkg"
  /\ demoAcquire "/srv/data/link/passwd" = inl Escapes
  /\ demoAcquire "/srv/data/../secret" = inl Traversal
  /\ demoAcquire "https://tiles.example.org/x.parquet" = inr (CachedDownload (mkURL "https" "tiles.example.org" "" false))
  /\ demoAcquire "https://other.example.org" = inl NotPermitted.
Proof.
  split; [vm_compute; reflexivity|]. split; [|split_and!; vm_compute; reflexivity].
  destruct (Acquire_confined demoGlob demoURL (fun _ => None) demoLinks "/srv" (fun _ => true) "data/a.gpkg"
    ["/srv/data/**"; "https://tiles.example.org/**"] (LocalFile "/srv/data/a.gpkg")) as (_ & pattern & root & Hin & Hr & _ & Hs & Hb).
  - reflexivity.
  - unfold demoLinks. intros p r Hp Hs. apply (inj Some) in Hs as <-. by destruct (String.eqb _ _).
  - vm_compute. reflexivity.
  - rewrite !elem_of_cons in Hin. destruct Hin as [->|[->|Hin]]; [|by vm_compute in Hr|by apply not_elem_of_nil in Hin].
    assert (root = "/srv/data") as -> by (vm_compute in Hs; by injection Hs). exact Hb.
Defined.
