(* ===== verification/CatalogStore.v ===== *)
(** * Recursive deletions in the catalog ([internal/store/store_deletion.go], [dataset_map.go])

    The tables a deletion touches, as lists of rows; the plan of a deletion with the
    closure over layer groups; the operations that begin, advance and commit it; and
    the guards that hide a target and refuse group changes meanwhile. A statement or
    transaction that fails is a boolean argument and changes nothing. *)

From stdpp Require Import sorting.
From S2P Require Import Prelude GoText.

(** ** Rows *)

Record WorkspaceRow : Type := mkWorkspaceRow {
  wsID : string; wsName : string; datasetMapLayerGroupID : string; capabilitiesRevision : Z }.
Record ServiceRow : Type := mkServiceRow { svcID : string; svcWorkspace : string; svcName : string }.
Record LayerRow : Type := mkLayerRow { layID : string; layService : string; layPublicID : string }.
Record CoverageRow : Type := mkCoverageRow {
  covID : string; covWorkspace : string; covService : string; covPublicID : string }.
Record GroupRow : Type := mkGroupRow {
  grpID : string; grpWorkspace : string; grpPublicID : string; grpMembers : list string }.
Record QueryRow : Type := mkQueryRow {
  qryID : string; qryWorkspace : string; qryQueryID : string; qryReturnTypes : list string; qryExpression : string }.
Record RuleRow : Type := mkRuleRow { rulID : string; rulPtype : string; rulV0 : string; rulV1 : string; rulV2 : string }.
Record ClaimRow : Type := mkClaimRow { clmID : string; clmName : string; clmValue : string; clmWorkspace : string }.
(** A style, a style asset or an API key. *)
Record OwnedRow : Type := mkOwnedRow { ownID : string; ownName : string; ownWorkspace : string }.

(** ** Plans and operations *)

Inductive DeletionScope : Type := DeletionScopeWorkspace | DeletionScopeService.

Inductive DeletionStatus : Type := DeletionPending | DeletionRunning | DeletionFailed | DeletionCompleted.

Inductive DeletionPhase : Type :=
| DeletionPhasePlanned
| DeletionPhaseTombstoned
| DeletionPhaseJobsQuiesced
| DeletionPhaseAuxiliaryRemoved
| DeletionPhaseCatalogCommitted
| DeletionPhaseRuntimeCleared
| DeletionPhaseCompleted.

#[export] Instance DeletionScope_eq : EqDecision DeletionScope. Proof. solve_decision. Defined.
#[export] Instance DeletionStatus_eq : EqDecision DeletionStatus. Proof. solve_decision. Defined.
#[export] Instance DeletionPhase_eq : EqDecision DeletionPhase. Proof. solve_decision. Defined.

Record DeletionRef : Type := mkRef { refID : string; refName : string; refKind : string; refReason : string }.

(** The counts that the coordinator adds. *)
Record DeletionAuxiliary : Type := mkAuxiliary {
  STACCollections : Z; STACItems : Z; TileEntries : Z; TileBytes : Z; TileJobs : Z;
  MosaicGranules : Z; MosaicJobs : Z; MosaicServices : Z; ManagedAssets : Z }.

Record DeletionPlan : Type := mkPlan {
  Blockers : list DeletionRef; Scope : DeletionScope; planWorkspace : string; Target : DeletionRef;
  Services : list DeletionRef; Layers : list DeletionRef; Coverages : list DeletionRef; LayerGroups : list DeletionRef;
  Styles : list DeletionRef; StyleAssets : list DeletionRef; APIKeys : list DeletionRef; StoredQueries : list DeletionRef;
  ClaimMappings : list DeletionRef; Policies : list DeletionRef; Auxiliary : DeletionAuxiliary }.

Definition noAuxiliary : DeletionAuxiliary := mkAuxiliary 0 0 0 0 0 0 0 0 0.

Definition nonEmpty {A} (l : list A) : bool := match l with [] => false | _ => true end.

Definition HasDependencies (p : DeletionPlan) : bool :=
  nonEmpty (Blockers p) || nonEmpty (Services p) || nonEmpty (Layers p) || nonEmpty (Coverages p) || nonEmpty (LayerGroups p)
  || nonEmpty (Styles p) || nonEmpty (StyleAssets p) || nonEmpty (APIKeys p) || nonEmpty (StoredQueries p)
  || nonEmpty (ClaimMappings p) || nonEmpty (Policies p)
  || (0 <? STACCollections (Auxiliary p)) || (0 <? STACItems (Auxiliary p)) || (0 <? TileEntries (Auxiliary p))
  || (0 <? TileJobs (Auxiliary p)) || (0 <? MosaicGranules (Auxiliary p)) || (0 <? MosaicJobs (Auxiliary p))
  || (0 <? MosaicServices (Auxiliary p)) || (0 <? ManagedAssets (Auxiliary p)).

(** The order of a report: by kind, name and identifier. *)
Definition refBefore (a b : DeletionRef) : Prop :=
  if String.eqb (refKind a) (refKind b) then
    if String.eqb (refName a) (refName b) then String.leb (refID a) (refID b) = true
    else String.leb (refName a) (refName b) = true
  else String.leb (refKind a) (refKind b) = true.

#[export] Instance refBefore_dec : RelDecision refBefore.
Proof. intros a b. unfold refBefore. repeat case_match; apply _. Defined.

Definition sortRefs (l : list DeletionRef) : list DeletionRef := merge_sort refBefore l.

Definition sortPlan (p : DeletionPlan) : DeletionPlan :=
  mkPlan (sortRefs (Blockers p)) (Scope p) (planWorkspace p) (Target p) (sortRefs (Services p)) (sortRefs (Layers p))
    (sortRefs (Coverages p)) (sortRefs (LayerGroups p)) (sortRefs (Styles p)) (sortRefs (StyleAssets p)) (sortRefs (APIKeys p))
    (sortRefs (StoredQueries p)) (sortRefs (ClaimMappings p)) (sortRefs (Policies p)) (Auxiliary p).

(** [opActive]: the column [active_target], scope and target, is not null. *)
Record DeletionOperation : Type := mkOperation {
  opID : string; opScope : DeletionScope; opWorkspace : string; opTarget : string; opTargetName : string; opActive : bool;
  opStatus : DeletionStatus; opPhase : DeletionPhase; opPlan : DeletionPlan; opLastError : string; opAttempts : Z;
  opCreatedAt : Z; opUpdatedAt : Z; opCompletedAt : option Z }.

Record catalog : Type := mkCatalog {
  workspaces : list WorkspaceRow; services : list ServiceRow; layers : list LayerRow; coverages : list CoverageRow;
  layer_groups : list GroupRow; wfs_stored_queries : list QueryRow; casbin_rules : list RuleRow;
  styles : list OwnedRow; style_assets : list OwnedRow; api_keys : list OwnedRow; claim_role_mappings : list ClaimRow;
  workspace_data_revisions : list string; catalog_deletions : list DeletionOperation }.

Inductive storeError : Type :=
| ErrNotFound
| ErrDatasetMapInUse
| ErrGroupResourceDeleting
| ErrResourceNotEmpty (p : DeletionPlan)
| PlanTargetRequired
| StatementFailed.

(** [status IN ('pending','running','failed')]. *)
Definition unfinished (o : DeletionOperation) : bool := negb (bool_decide (opStatus o = DeletionCompleted)).

(** ** Reading *)

Definition beingDeleted (c : catalog) (scope : DeletionScope) (id : string) : bool :=
  existsb (fun d => bool_decide (opScope d = scope) && String.eqb (opTarget d) id && unfinished d) (catalog_deletions c).

Definition GetWorkspace (c : catalog) (id : string) : option WorkspaceRow :=
  find (fun w => String.eqb (wsID w) id && negb (beingDeleted c DeletionScopeWorkspace (wsID w))) (workspaces c).

Definition GetService (c : catalog) (id : string) : option ServiceRow :=
  find (fun s => String.eqb (svcID s) id && negb (beingDeleted c DeletionScopeService (svcID s))
                 && negb (beingDeleted c DeletionScopeWorkspace (svcWorkspace s))) (services c).

(** The newest of the operations that satisfy [f]. *)
Definition newest (f : DeletionOperation -> bool) (l : list DeletionOperation) : option DeletionOperation :=
  foldr (fun o best =>
    if f o then match best with
                | Some b => if opCreatedAt o <? opCreatedAt b then Some b else Some o
                | None => Some o
                end
    else best) None l.

Definition findActiveCatalogDeletion (c : catalog) (scope : DeletionScope) (target : string) : option DeletionOperation :=
  newest (fun o => bool_decide (opScope o = scope) && String.eqb (opTarget o) target && unfinished o) (catalog_deletions c).

Definition GetCatalogDeletion (c : catalog) (id : string) : option DeletionOperation :=
  find (fun o => String.eqb (opID o) id) (catalog_deletions c).

Definition createdBefore (a b : DeletionOperation) : Prop := opCreatedAt a <= opCreatedAt b.
#[export] Instance createdBefore_dec : RelDecision createdBefore. Proof. intros a b. unfold createdBefore. apply _. Defined.

Definition ListPendingCatalogDeletions (c : catalog) : list DeletionOperation :=
  merge_sort createdBefore (List.filter unfinished (catalog_deletions c)).

(** ** Plans *)

Definition refOf (kind reason id name : string) : DeletionRef := mkRef id name kind reason.

Definition ownedRefs (kind reason workspaceID : string) (rows : list OwnedRow) : list DeletionRef :=
  (fun r => refOf kind reason (ownID r) (ownName r)) <$> List.filter (fun r => String.eqb (ownWorkspace r) workspaceID) rows.

Definition ruleName (r : RuleRow) : string := rulPtype r +:+ ":" +:+ rulV0 r +:+ ":" +:+ rulV2 r.

Definition policyRefs (reason workspaceID : string) (c : catalog) : list DeletionRef :=
  (fun r => refOf "rbac_policy" reason (rulID r) (ruleName r)) <$> List.filter (fun r => String.eqb (rulV1 r) workspaceID) (casbin_rules c).

Definition ownsService (c : catalog) (workspaceID service : string) : bool :=
  existsb (fun s => String.eqb (svcID s) service && String.eqb (svcWorkspace s) workspaceID) (services c).

Definition PlanWorkspaceDeletion (c : catalog) (workspaceID : string) : storeError + DeletionPlan :=
  match GetWorkspace c workspaceID with
  | None => inl ErrNotFound
  | Some w =>
      inr (sortPlan (mkPlan [] DeletionScopeWorkspace workspaceID (refOf "workspace" "" (wsID w) (wsName w))
        ((fun s => refOf "service" "owned by workspace" (svcID s) (svcName s)) <$>
           List.filter (fun s => String.eqb (svcWorkspace s) workspaceID) (services c))
        ((fun l => refOf "layer" "owned by workspace service" (layID l) (layPublicID l)) <$>
           List.filter (fun l => ownsService c workspaceID (layService l)) (layers c))
        ((fun k => refOf "coverage" "owned by workspace" (covID k) (covPublicID k)) <$>
           List.filter (fun k => String.eqb (covWorkspace k) workspaceID) (coverages c))
        ((fun g => refOf "layer_group" "owned by workspace" (grpID g) (grpPublicID g)) <$>
           List.filter (fun g => String.eqb (grpWorkspace g) workspaceID) (layer_groups c))
        (ownedRefs "style" "owned by workspace" workspaceID (styles c))
        (ownedRefs "style_asset" "owned by workspace" workspaceID (style_assets c))
        (ownedRefs "api_key" "scoped to workspace" workspaceID (api_keys c))
        ((fun q => refOf "stored_query" "scoped to workspace" (qryID q) (qryQueryID q)) <$>
           List.filter (fun q => String.eqb (qryWorkspace q) workspaceID) (wfs_stored_queries c))
        ((fun m => refOf "claim_mapping" "scoped to workspace" (clmID m) (clmName m +:+ "=" +:+ clmValue m)) <$>
           List.filter (fun m => String.eqb (clmWorkspace m) workspaceID) (claim_role_mappings c))
        (policyRefs "scoped to workspace" workspaceID c) noAuxiliary))
  end.

(** One pass over the groups: a group that has a member among the deleted names is added. *)
Fixpoint closurePass (groups : list GroupRow) (targetNames : list string) (planned : list DeletionRef) (changed : bool)
    : list string * list DeletionRef * bool :=
  match groups with
  | [] => (targetNames, planned, changed)
  | g :: rest =>
      if bool_decide (grpPublicID g ∈ targetNames) then closurePass rest targetNames planned changed
      else if existsb (fun m => bool_decide (m ∈ targetNames)) (grpMembers g)
      then closurePass rest (grpPublicID g :: targetNames)
             (planned ++ [refOf "layer_group" "depends on deleted service resource" (grpID g) (grpPublicID g)]) true
      else closurePass rest targetNames planned changed
  end.

(** Passes until nothing changes. *)
Fixpoint closureLoop (fuel : nat) (groups : list GroupRow) (targetNames : list string) (planned : list DeletionRef)
    : option (list string * list DeletionRef) :=
  match fuel with
  | O => None
  | S fuel =>
      match closurePass groups targetNames planned false with
      | (targetNames, planned, true) => closureLoop fuel groups targetNames planned
      | (targetNames, planned, false) => Some (targetNames, planned)
      end
  end.

(** [encoding/json] of a text and of a list of texts; bytes beyond ASCII are kept. *)
Definition hexDigit (n : nat) : ascii := ascii_of_nat (if Nat.ltb n 10 then 48 + n else 87 + n).

Definition jsonByte (c : ascii) : string :=
  let n := nat_of_ascii c in
  if Ascii.eqb c (ascii_of_nat 34) || Ascii.eqb c "\" then String "\" (String c "")
  else if Nat.eqb n 8 then "\b" else if Nat.eqb n 12 then "\f" else if Nat.eqb n 10 then "\n" else if Nat.eqb n 13 then "\r"
  else if Nat.eqb n 9 then "\t"
  else if Nat.ltb n 32 || Ascii.eqb c "<" || Ascii.eqb c ">" || Ascii.eqb c "&"
  then "\u00" +:+ String (hexDigit (n / 16)) (String (hexDigit (n mod 16)) "")
  else String c "".

Fixpoint jsonBytes (s : string) : string :=
  match s with EmptyString => "" | String c s => jsonByte c +:+ jsonBytes s end.

Definition quoteMark : string := String (ascii_of_nat 34) "".

Definition MarshalStrings (l : list string) : string :=
  "[" +:+ Join "," ((fun s => quoteMark +:+ jsonBytes s +:+ quoteMark) <$> l) +:+ "]".

Definition queryHaystack (q : QueryRow) : string :=
  MarshalStrings (qryReturnTypes q) +:+ String (ascii_of_nat 10) (qryExpression q).

(** The message of [ErrDatasetMapInUse]. *)
Definition datasetMapInUse : string :=
  "clear or change the workspace map selection before deleting its layer group or a service containing its members".

Definition addDatasetMapDeletionBlocker (c : catalog) (p : DeletionPlan) : storeError + DeletionPlan :=
  match find (fun w => String.eqb (wsID w) (planWorkspace p)) (workspaces c) with
  | None => inl ErrNotFound
  | Some w =>
      let blocking := List.filter (fun g => String.eqb (refID g) (datasetMapLayerGroupID w)) (LayerGroups p) in
      let reason g := datasetMapInUse +:+ " (" +:+ refName g +:+ ")" in
      inr (mkPlan (Blockers p ++ ((fun g => refOf "dataset_map" (reason g) (refID g) "Workspace map") <$> blocking))
        (Scope p) (planWorkspace p) (Target p) (Services p) (Layers p) (Coverages p) (LayerGroups p) (Styles p) (StyleAssets p)
        (APIKeys p) (StoredQueries p) (ClaimMappings p) (Policies p) (Auxiliary p))
  end.

(** The names a deletion of the service removes at first: its layers and coverages. *)
Definition serviceLayers (c : catalog) (serviceID : string) : list DeletionRef :=
  (fun l => refOf "layer" "owned by service" (layID l) (layPublicID l)) <$>
    List.filter (fun l => String.eqb (layService l) serviceID) (layers c).

Definition serviceCoverages (c : catalog) (serviceID : string) : list DeletionRef :=
  (fun k => refOf "coverage" "owned by service" (covID k) (covPublicID k)) <$>
    List.filter (fun k => String.eqb (covService k) serviceID) (coverages c).

Definition byPublicID (a b : GroupRow) : Prop := String.leb (grpPublicID a) (grpPublicID b) = true.
#[export] Instance byPublicID_dec : RelDecision byPublicID. Proof. intros a b. unfold byPublicID. apply _. Defined.

Definition ListLayerGroups (c : catalog) (workspaceID : string) : list GroupRow :=
  merge_sort byPublicID (List.filter (fun g => String.eqb (grpWorkspace g) workspaceID) (layer_groups c)).

Inductive planned : Type := Planned (p : DeletionPlan) | PlanFailed (e : storeError) | PlanLoops.

Definition PlanServiceDeletion (c : catalog) (workspaceID serviceID : string) : planned :=
  match GetService c serviceID with
  | None => PlanFailed ErrNotFound
  | Some s =>
      if negb (String.eqb (svcWorkspace s) workspaceID) then PlanFailed ErrNotFound
      else
        let lays := serviceLayers c serviceID in
        let covs := serviceCoverages c serviceID in
        let groups := ListLayerGroups c workspaceID in
        match closureLoop (S (length groups)) groups (refName <$> (lays ++ covs)) [] with
        | None => PlanLoops
        | Some (targetNames, deleted) =>
            let queries :=
              (fun q => refOf "stored_query" "references deleted service resource" (qryID q) (qryQueryID q)) <$>
                List.filter (fun q => existsb (Contains (queryHaystack q)) targetNames)
                  (List.filter (fun q => String.eqb (qryWorkspace q) workspaceID) (wfs_stored_queries c)) in
            let policies :=
              List.filter (fun r => existsb (fun n => HasSuffix (refName r) (":" +:+ n)) targetNames)
                (policyRefs "references deleted service resource" workspaceID c) in
            let p := mkPlan [] DeletionScopeService workspaceID (refOf "service" "" (svcID s) (svcName s))
                       [] lays covs deleted [] [] [] queries [] policies noAuxiliary in
            match addDatasetMapDeletionBlocker c p with
            | inl e => PlanFailed e
            | inr p => Planned (sortPlan p)
            end
        end
  end.

(** ** Writing *)

Definition set_deletions (c : catalog) (d : list DeletionOperation) : catalog :=
  mkCatalog (workspaces c) (services c) (layers c) (coverages c) (layer_groups c) (wfs_stored_queries c) (casbin_rules c)
    (styles c) (style_assets c) (api_keys c) (claim_role_mappings c) (workspace_data_revisions c) d.

Definition set_groups (c : catalog) (g : list GroupRow) : catalog :=
  mkCatalog (workspaces c) (services c) (layers c) (coverages c) g (wfs_stored_queries c) (casbin_rules c)
    (styles c) (style_assets c) (api_keys c) (claim_role_mappings c) (workspace_data_revisions c) (catalog_deletions c).

Definition set_layers (c : catalog) (l : list LayerRow) : catalog :=
  mkCatalog (workspaces c) (services c) l (coverages c) (layer_groups c) (wfs_stored_queries c) (casbin_rules c)
    (styles c) (style_assets c) (api_keys c) (claim_role_mappings c) (workspace_data_revisions c) (catalog_deletions c).

Definition set_coverages (c : catalog) (k : list CoverageRow) : catalog :=
  mkCatalog (workspaces c) (services c) (layers c) k (layer_groups c) (wfs_stored_queries c) (casbin_rules c)
    (styles c) (style_assets c) (api_keys c) (claim_role_mappings c) (workspace_data_revisions c) (catalog_deletions c).

Definition set_workspaces (c : catalog) (w : list WorkspaceRow) : catalog :=
  mkCatalog w (services c) (layers c) (coverages c) (layer_groups c) (wfs_stored_queries c) (casbin_rules c)
    (styles c) (style_assets c) (api_keys c) (claim_role_mappings c) (workspace_data_revisions c) (catalog_deletions c).

Definition withAuxiliary (p : DeletionPlan) (a : DeletionAuxiliary) : DeletionPlan :=
  mkPlan (Blockers p) (Scope p) (planWorkspace p) (Target p) (Services p) (Layers p) (Coverages p) (LayerGroups p) (Styles p)
    (StyleAssets p) (APIKeys p) (StoredQueries p) (ClaimMappings p) (Policies p) a.

(** The current plan of a service, checked again under the lock that group writes take. *)
Definition currentPlan (c : catalog) (plan : DeletionPlan) : storeError + DeletionPlan :=
  match Scope plan with
  | DeletionScopeWorkspace => inr plan
  | DeletionScopeService =>
      match PlanServiceDeletion c (planWorkspace plan) (refID (Target plan)) with
      | Planned current => if nonEmpty (Blockers current) then inl ErrDatasetMapInUse else inr (withAuxiliary current (Auxiliary plan))
      | PlanFailed e => inl e
      | PlanLoops => inl StatementFailed
      end
  end.

Definition newOperation (now : Z) (id : string) (plan : DeletionPlan) : DeletionOperation :=
  mkOperation id (Scope plan) (planWorkspace plan) (refID (Target plan)) (refName (Target plan)) true DeletionPending
    DeletionPhasePlanned plan "" 0 now now None.

Definition sameTarget (scope : DeletionScope) (target : string) (o : DeletionOperation) : bool :=
  bool_decide (opScope o = scope) && String.eqb (opTarget o) target.

(** [fails]: the insertion fails. The UNIQUE constraint on the active target fails it, too. *)
Definition BeginCatalogDeletion (now : Z) (id : string) (fails : bool) (c : catalog) (plan : DeletionPlan)
    : (storeError + DeletionOperation * bool) * catalog :=
  if String.eqb (refID (Target plan)) "" || String.eqb (planWorkspace plan) "" then (inl PlanTargetRequired, c)
  else
    match findActiveCatalogDeletion c (Scope plan) (refID (Target plan)) with
    | Some existing => (inr (existing, false), c)
    | None =>
        match currentPlan c plan with
        | inl e => (inl e, c)
        | inr plan =>
            let o := newOperation now id (sortPlan plan) in
            if fails || existsb (fun d => opActive d && sameTarget (Scope plan) (refID (Target plan)) d) (catalog_deletions c)
            then
              match findActiveCatalogDeletion c (Scope plan) (refID (Target plan)) with
              | Some existing => (inr (existing, false), c)
              | None => (inl StatementFailed, c)
              end
            else (inr (o, true), set_deletions c (catalog_deletions c ++ [o]))
        end
    end.

Definition updateOperation (now : Z) (status : DeletionStatus) (phase : DeletionPhase) (lastError : string) (o : DeletionOperation)
    : DeletionOperation :=
  mkOperation (opID o) (opScope o) (opWorkspace o) (opTarget o) (opTargetName o)
    (if bool_decide (status = DeletionCompleted) then false else opActive o) status phase (opPlan o) lastError
    (opAttempts o + (if bool_decide (status = DeletionRunning) && negb (bool_decide (opStatus o = DeletionRunning)) then 1 else 0))
    (opCreatedAt o) now (if bool_decide (status = DeletionCompleted) then Some now else opCompletedAt o).

Definition onOperation (f : DeletionOperation -> DeletionOperation) (id : string) (l : list DeletionOperation) : list DeletionOperation :=
  (fun o => if String.eqb (opID o) id then f o else o) <$> l.

Definition UpdateCatalogDeletion (now : Z) (fails : bool) (c : catalog) (id : string) (status : DeletionStatus) (phase : DeletionPhase)
    (lastError : string) : option storeError * catalog :=
  if fails then (Some StatementFailed, c)
  else match GetCatalogDeletion c id with
       | None => (Some ErrNotFound, c)
       | Some _ => (None, set_deletions c (onOperation (updateOperation now status phase lastError) id (catalog_deletions c)))
       end.

Definition keep {A} (p : A -> bool) (l : list A) : list A := List.filter (fun x => negb (p x)) l.

Definition deleteWorkspaceCatalog (c : catalog) (workspaceID : string) : catalog :=
  let inService id := ownsService c workspaceID id in
  mkCatalog
    (keep (fun w => String.eqb (wsID w) workspaceID) (workspaces c))
    (keep (fun s => String.eqb (svcWorkspace s) workspaceID) (services c))
    (keep (fun l => inService (layService l)) (layers c))
    (keep (fun k => String.eqb (covWorkspace k) workspaceID || inService (covService k)) (coverages c))
    (keep (fun g => String.eqb (grpWorkspace g) workspaceID) (layer_groups c))
    (keep (fun q => String.eqb (qryWorkspace q) workspaceID) (wfs_stored_queries c))
    (keep (fun r => String.eqb (rulV1 r) workspaceID) (casbin_rules c))
    (keep (fun o => String.eqb (ownWorkspace o) workspaceID) (styles c))
    (keep (fun o => String.eqb (ownWorkspace o) workspaceID) (style_assets c))
    (keep (fun o => String.eqb (ownWorkspace o) workspaceID) (api_keys c))
    (keep (fun m => String.eqb (clmWorkspace m) workspaceID) (claim_role_mappings c))
    (keep (fun w => String.eqb w workspaceID) (workspace_data_revisions c))
    (catalog_deletions c).

Definition planNames (p : DeletionPlan) : list string := refName <$> (Layers p ++ Coverages p ++ LayerGroups p).

Definition inRefs (refs : list DeletionRef) (id : string) : bool := existsb (fun r => String.eqb (refID r) id) refs.

Definition deleteServiceCatalog (c : catalog) (o : DeletionOperation) : catalog :=
  let p := opPlan o in
  mkCatalog (workspaces c)
    (keep (fun s => String.eqb (svcID s) (opTarget o) && String.eqb (svcWorkspace s) (opWorkspace o)) (services c))
    (keep (fun l => String.eqb (layService l) (opTarget o)) (layers c))
    (keep (fun k => String.eqb (covService k) (opTarget o)) (coverages c))
    (keep (fun g => inRefs (LayerGroups p) (grpID g)) (layer_groups c))
    (keep (fun q => inRefs (StoredQueries p) (qryID q)) (wfs_stored_queries c))
    (keep (fun r => String.eqb (rulV1 r) (opWorkspace o) && bool_decide (rulV2 r ∈ planNames p)) (casbin_rules c))
    (styles c) (style_assets c) (api_keys c) (claim_role_mappings c) (workspace_data_revisions c) (catalog_deletions c).

Definition bumpRevision (workspaceID : string) (w : WorkspaceRow) : WorkspaceRow :=
  if String.eqb (wsID w) workspaceID
  then mkWorkspaceRow (wsID w) (wsName w) (datasetMapLayerGroupID w) (capabilitiesRevision w + 1) else w.

Definition committedOperation (now : Z) (o : DeletionOperation) : DeletionOperation :=
  mkOperation (opID o) (opScope o) (opWorkspace o) (opTarget o) (opTargetName o) (opActive o) DeletionRunning
    DeletionPhaseCatalogCommitted (opPlan o) "" (opAttempts o) (opCreatedAt o) now (opCompletedAt o).

(** One transaction: the rows, the phase and the revision change together. *)
Definition CommitCatalogDeletion (now : Z) (fails : bool) (c : catalog) (id : string) : option storeError * catalog :=
  match GetCatalogDeletion c id with
  | None => (Some ErrNotFound, c)
  | Some o =>
      if bool_decide (opStatus o = DeletionCompleted) || bool_decide (opPhase o = DeletionPhaseCatalogCommitted)
         || bool_decide (opPhase o = DeletionPhaseRuntimeCleared) then (None, c)
      else if fails then (Some StatementFailed, c)
      else
        let c := match opScope o with
                 | DeletionScopeWorkspace => deleteWorkspaceCatalog c (opWorkspace o)
                 | DeletionScopeService => deleteServiceCatalog c o
                 end in
        let c := set_deletions c (onOperation (committedOperation now) id (catalog_deletions c)) in
        (None, set_workspaces c (bumpRevision (opWorkspace o) <$> workspaces c))
  end.

(** ** Group writes and the map of a workspace

    They take the lock under which a deletion is registered. *)

Definition deletionTouches (groupID publicID : string) (members : list string) (r : DeletionRef) : bool :=
  String.eqb (refName r) publicID || (negb (String.eqb groupID "") && String.eqb (refID r) groupID)
  || existsb (fun m => String.eqb (refName r) m) members.

Definition operationForbids (workspaceID groupID publicID : string) (members : list string) (o : DeletionOperation) : bool :=
  String.eqb (opWorkspace o) workspaceID
  && (bool_decide (opScope o = DeletionScopeWorkspace)
      || existsb (deletionTouches groupID publicID members)
           (LayerGroups (opPlan o) ++ Layers (opPlan o) ++ Coverages (opPlan o))).

Definition validateGroupDeletionState (c : catalog) (workspaceID groupID publicID : string) (members : list string) : option storeError :=
  if existsb (operationForbids workspaceID groupID publicID members) (ListPendingCatalogDeletions c)
  then Some ErrGroupResourceDeleting else None.

(** A statement with the new revision of the workspace, in one transaction. *)
Definition execCapabilitiesMutation (fails : bool) (workspaceID : string) (change : catalog -> catalog) (c : catalog)
    : option storeError * catalog :=
  if fails then (Some StatementFailed, c)
  else let c := change c in (None, set_workspaces c (bumpRevision workspaceID <$> workspaces c)).

(** The UNIQUE constraint on workspace and public identifier, apart from the row [id]. *)
Definition publicIDTaken (c : catalog) (id workspaceID publicID : string) : bool :=
  existsb (fun g => negb (String.eqb (grpID g) id) && String.eqb (grpWorkspace g) workspaceID && String.eqb (grpPublicID g) publicID)
    (layer_groups c).

Definition CreateLayerGroup (id : string) (fails : bool) (c : catalog) (workspaceID publicID : string) (members : list string)
    : option storeError * catalog :=
  match validateGroupDeletionState c workspaceID "" publicID members with
  | Some e => (Some e, c)
  | None =>
      if negb (existsb (fun w => String.eqb (wsID w) workspaceID) (workspaces c)) then (Some ErrNotFound, c)
      else execCapabilitiesMutation (fails || publicIDTaken c id workspaceID publicID) workspaceID
             (fun c => set_groups c (layer_groups c ++ [mkGroupRow id workspaceID publicID members])) c
  end.

Definition UpdateLayerGroup (fails : bool) (c : catalog) (id : string) (newPublicID : option string) (newMembers : option (list string))
    : option storeError * catalog :=
  match find (fun g => String.eqb (grpID g) id) (layer_groups c) with
  | None => (Some ErrNotFound, c)
  | Some g =>
      let value := mkGroupRow (grpID g) (grpWorkspace g) (default (grpPublicID g) newPublicID) (default (grpMembers g) newMembers) in
      match validateGroupDeletionState c (grpWorkspace value) (grpID value) (grpPublicID value) (grpMembers value) with
      | Some e => (Some e, c)
      | None =>
          if negb (existsb (fun w => String.eqb (wsID w) (grpWorkspace value)) (workspaces c)) then (Some ErrNotFound, c)
          else execCapabilitiesMutation (fails || publicIDTaken c id (grpWorkspace value) (grpPublicID value)) (grpWorkspace value)
                 (fun c => set_groups c ((fun g => if String.eqb (grpID g) id then value else g) <$> layer_groups c)) c
      end
  end.

Definition DeleteLayerGroup (fails : bool) (c : catalog) (id : string) : option storeError * catalog :=
  if existsb (fun w => String.eqb (datasetMapLayerGroupID w) id) (workspaces c) then (Some ErrDatasetMapInUse, c)
  else
    match find (fun g => String.eqb (grpID g) id) (layer_groups c) with
    | None => (Some ErrNotFound, c)
    | Some g =>
        execCapabilitiesMutation fails (grpWorkspace g)
          (fun c => set_groups c (keep (fun g => String.eqb (grpID g) id) (layer_groups c))) c
    end.

(** [store_layer.go], [store_coverage.go]: the row of one resource. *)
Definition DeleteLayer (fails : bool) (c : catalog) (id : string) : option storeError * catalog :=
  match find (fun l => String.eqb (layID l) id) (layers c) ≫= fun l => find (fun s => String.eqb (svcID s) (layService l)) (services c) with
  | None => (Some ErrNotFound, c)
  | Some s => execCapabilitiesMutation fails (svcWorkspace s) (fun c => set_layers c (keep (fun l => String.eqb (layID l) id) (layers c))) c
  end.

Definition DeleteCoverage (fails : bool) (c : catalog) (id : string) : option storeError * catalog :=
  match find (fun k => String.eqb (covID k) id) (coverages c) with
  | None => (Some ErrNotFound, c)
  | Some k => execCapabilitiesMutation fails (covWorkspace k) (fun c => set_coverages c (keep (fun k => String.eqb (covID k) id) (coverages c))) c
  end.

Inductive selectionError : Type := ErrInvalidDatasetMap | SelectionFailed (e : storeError).

Definition validateDatasetMapSelection (c : catalog) (workspaceID groupID : string) : option selectionError :=
  if String.eqb groupID "" then None
  else match find (fun g => String.eqb (grpID g) groupID) (layer_groups c) with
       | None => Some ErrInvalidDatasetMap
       | Some g =>
           if negb (String.eqb (grpWorkspace g) workspaceID) then Some ErrInvalidDatasetMap
           else match validateGroupDeletionState c workspaceID (grpID g) (grpPublicID g) (grpMembers g) with
                | Some _ => Some ErrInvalidDatasetMap
                | None => None
                end
       end.

Definition selectMap (workspaceID groupID : string) (w : WorkspaceRow) : WorkspaceRow :=
  if String.eqb (wsID w) workspaceID then mkWorkspaceRow (wsID w) (wsName w) groupID (capabilitiesRevision w + 1) else w.

Definition UpdateOGCTilesAPISettings (fails : bool) (c : catalog) (workspaceID groupID : string) : option selectionError * catalog :=
  match validateDatasetMapSelection c workspaceID groupID with
  | Some e => (Some e, c)
  | None =>
      if fails then (Some (SelectionFailed StatementFailed), c)
      else if negb (existsb (fun w => String.eqb (wsID w) workspaceID) (workspaces c)) then (Some (SelectionFailed ErrNotFound), c)
      else (None, set_workspaces c (selectMap workspaceID groupID <$> workspaces c))
  end.

(** ** Deletions that are not recursive *)

Definition set_services (c : catalog) (s : list ServiceRow) : catalog :=
  mkCatalog (workspaces c) s (layers c) (coverages c) (layer_groups c) (wfs_stored_queries c) (casbin_rules c)
    (styles c) (style_assets c) (api_keys c) (claim_role_mappings c) (workspace_data_revisions c) (catalog_deletions c).

Definition DeleteService (fails : bool) (c : catalog) (id : string) : option storeError * catalog :=
  match GetService c id with
  | None => (Some ErrNotFound, c)
  | Some s =>
      match PlanServiceDeletion c (svcWorkspace s) id with
      | PlanFailed e => (Some e, c)
      | PlanLoops => (Some StatementFailed, c)
      | Planned p =>
          if nonEmpty (Blockers p) then (Some ErrDatasetMapInUse, c)
          else if HasDependencies p then (Some (ErrResourceNotEmpty p), c)
          else execCapabilitiesMutation fails (svcWorkspace s)
                 (fun c => set_services c (keep (fun s => String.eqb (svcID s) id) (services c))) c
      end
  end.

(** Two statements; the second may fail alone. *)
Definition DeleteWorkspace (fails failsLater : bool) (c : catalog) (id : string) : option storeError * catalog :=
  match PlanWorkspaceDeletion c id with
  | inl e => (Some e, c)
  | inr p =>
      if HasDependencies p then (Some (ErrResourceNotEmpty p), c)
      else if fails then (Some StatementFailed, c)
      else
        let c := set_workspaces c (keep (fun w => String.eqb (wsID w) id) (workspaces c)) in
        if failsLater then (Some StatementFailed, c)
        else (None, mkCatalog (workspaces c) (services c) (layers c) (coverages c) (layer_groups c) (wfs_stored_queries c)
                      (casbin_rules c) (styles c) (style_assets c) (api_keys c) (claim_role_mappings c)
                      (keep (fun w => String.eqb w id) (workspace_data_revisions c)) (catalog_deletions c))
  end.
