(* ===== verification/CatalogDeletion.v ===== *)
(** * Deletions keep the catalog consistent

    The plan of a service deletion is the exact closure of what depends on the
    service, and whatever deletions, group changes and map selections interleave, no
    group is left with a member that does not exist. *)

From stdpp Require Import sorting.
From S2P Require Import Prelude GoText CatalogStore.

(** ** Lists *)

Lemma elem_of_keep {A} (p : A -> bool) l x : x ∈ keep p l <-> x ∈ l /\ p x = false.
Proof. unfold keep. by rewrite elem_of_Lfilter, negb_true_iff. Qed.

Lemma existsb_spec {A} (f : A -> bool) l : existsb f l = true <-> exists x, x ∈ l /\ f x = true.
Proof. rewrite existsb_exists. by setoid_rewrite list_elem_of_In. Qed.

Lemma existsb_none {A} (f : A -> bool) l : existsb f l = false <-> forall x, x ∈ l -> f x = false.
Proof.
  rewrite <- not_true_iff_false, existsb_spec. split.
  - intros H x Hx. destruct (f x) eqn:Hf; [|done]. exfalso. eauto.
  - intros H (x & Hx & Hf). by rewrite H in Hf.
Qed.

Lemma elem_of_sortRefs r l : r ∈ sortRefs l <-> r ∈ l.
Proof. unfold sortRefs. by rewrite (merge_sort_Permutation refBefore l). Qed.

Lemma elem_of_groups c ws g : g ∈ ListLayerGroups c ws <-> g ∈ layer_groups c /\ grpWorkspace g = ws.
Proof. unfold ListLayerGroups. rewrite merge_sort_Permutation, elem_of_Lfilter, String.eqb_eq. done. Qed.

Lemma elem_of_pending c o : o ∈ ListPendingCatalogDeletions c <-> o ∈ catalog_deletions c /\ unfinished o = true.
Proof. unfold ListPendingCatalogDeletions. by rewrite merge_sort_Permutation, elem_of_Lfilter. Qed.

(** ** The closure *)

Definition groupRef (g : GroupRow) : DeletionRef :=
  refOf "layer_group" "depends on deleted service resource" (grpID g) (grpPublicID g).

(** A name is removed if it is one of the first names, or a group with a removed member. *)
Inductive removed (groups : list GroupRow) (names : list string) : string -> Prop :=
| removed_name n : n ∈ names -> removed groups names n
| removed_group g m : g ∈ groups -> m ∈ grpMembers g -> removed groups names m -> removed groups names (grpPublicID g).

Section Closure.
Context (groups : list GroupRow) (names : list string).

(** What the loop knows: the names so far are removed, and those beyond the first are planned. *)
Definition closing (T : list string) (P : list DeletionRef) : Prop :=
  (forall n, n ∈ T <-> n ∈ names \/ n ∈ refName <$> P) /\
  (forall n, n ∈ T -> removed groups names n) /\
  (forall r, r ∈ P -> exists g, g ∈ groups /\ r = groupRef g /\ exists m, m ∈ grpMembers g /\ removed groups names m).

Definition missing (T : list string) : nat := length (List.filter (fun g => negb (bool_decide (grpPublicID g ∈ T))) groups).

Lemma missing_le (l : list GroupRow) (T T' : list string) : (forall n, n ∈ T -> n ∈ T') ->
  (length (List.filter (fun g => negb (bool_decide (grpPublicID g ∈ T'))) l)
   <= length (List.filter (fun g => negb (bool_decide (grpPublicID g ∈ T))) l))%nat.
Proof.
  intros H. induction l as [|g l IH]; [done|]. cbn [List.filter].
  destruct (bool_decide (grpPublicID g ∈ T)) eqn:H1; destruct (bool_decide (grpPublicID g ∈ T')) eqn:H2; cbn [negb length]; try lia.
  apply bool_decide_eq_true in H1. apply bool_decide_eq_false in H2. by destruct H2; apply H.
Qed.

Lemma missing_lt (T T' : list string) g : (forall n, n ∈ T -> n ∈ T') -> g ∈ groups -> grpPublicID g ∉ T -> grpPublicID g ∈ T' ->
  (missing T' < missing T)%nat.
Proof.
  intros H Hg Hn Hy. unfold missing. apply list_elem_of_In, in_split in Hg as (l1 & l2 & ->).
  rewrite !List.filter_app. cbn [List.filter]. rewrite (bool_decide_false _ Hn), (bool_decide_true _ Hy). cbn [negb].
  rewrite !length_app. cbn [length]. pose proof (missing_le l1 T T' H). pose proof (missing_le l2 T T' H). lia.
Qed.

Lemma closurePass_changed l T P T' P' ch' : closurePass l T P true = (T', P', ch') -> ch' = true.
Proof.
  revert T P. induction l as [|g l IH]; intros T P; cbn [closurePass]; [by intros [= _ _ <-]|]. repeat case_match; apply IH.
Qed.

(** One pass: it only adds; if it changes nothing, no group is left to add. *)
Lemma closurePass_spec l T P ch T' P' ch' :
  (forall g, g ∈ l -> g ∈ groups) -> closing T P -> closurePass l T P ch = (T', P', ch') ->
  closing T' P' /\ (forall n, n ∈ T -> n ∈ T') /\ (missing T' <= missing T)%nat
  /\ (ch' = true -> ch = true \/ (missing T' < missing T)%nat)
  /\ (ch' = false -> T' = T /\ P' = P /\ forall g, g ∈ l -> grpPublicID g ∈ T \/ forall m, m ∈ grpMembers g -> m ∉ T).
Proof.
  revert T P ch. induction l as [|g l IH]; intros T P ch Hl Hc Hp; cbn [closurePass] in Hp.
  { injection Hp as <- <- <-. split_and!; auto; try lia. intros _. split_and!; auto. by intros g ?%not_elem_of_nil. }
  assert (Hl' : forall g, g ∈ l -> g ∈ groups) by (intros; apply Hl; by right).
  destruct (bool_decide (grpPublicID g ∈ T)) eqn:H1.
  { apply bool_decide_eq_true in H1. destruct (IH T P ch Hl' Hc Hp) as (A & B & C & D & E). split_and!; auto.
    intros Hf. destruct (E Hf) as (-> & -> & E'). split_and!; auto. intros g' [->|Hg']%elem_of_cons; auto. }
  apply bool_decide_eq_false in H1. destruct (existsb _ (grpMembers g)) eqn:H2.
  - apply existsb_spec in H2 as (m & Hm & Hmt%bool_decide_eq_true). destruct Hc as (A & B & C).
    assert (Hg : g ∈ groups) by (apply Hl; by left).
    assert (Hc' : closing (grpPublicID g :: T) (P ++ [groupRef g])).
    { split_and!.
      - intros n. rewrite elem_of_cons, A, fmap_app, elem_of_app. cbn. rewrite list_elem_of_singleton. tauto.
      - intros n [->|Hn]%elem_of_cons; [|auto]. eapply removed_group; eauto.
      - intros r [Hr|Hr%list_elem_of_singleton]%elem_of_app; [auto|]. subst r. exists g. split_and!; auto. exists m. auto. }
    destruct (IH _ _ _ Hl' Hc' Hp) as (A' & B' & C' & D' & E').
    assert (Hlt : (missing (grpPublicID g :: T) < missing T)%nat) by (apply (missing_lt _ _ g); auto; [by right|by left]).
    split_and!; auto; [|lia|intros _; right; lia|].
    + intros n Hn. apply B'. by right.
    + intros ->. by apply closurePass_changed in Hp.
  - destruct (IH T P ch Hl' Hc Hp) as (A & B & C & D & E). split_and!; auto.
    intros Hf. destruct (E Hf) as (-> & -> & E'). split_and!; auto. intros g' [->|Hg']%elem_of_cons; auto. right.
    intros m Hm Ht. rewrite existsb_none in H2. specialize (H2 m Hm). by apply bool_decide_eq_false in H2.
Qed.

(** The loop ends with the whole closure. *)
Lemma closureLoop_spec fuel T P :
  closing T P -> (missing T < fuel)%nat ->
  exists T' P', closureLoop fuel groups T P = Some (T', P') /\ closing T' P'
    /\ (forall n, n ∈ T' <-> removed groups names n).
Proof.
  revert T P. induction fuel as [|fuel IH]; intros T P Hc Hf; [lia|]. cbn [closureLoop].
  destruct (closurePass groups T P false) as [[T1 P1] ch] eqn:Hp.
  destruct (closurePass_spec _ _ _ _ _ _ _ (fun g H => H) Hc Hp) as (A & B & C & D & E). destruct ch.
  - destruct (D eq_refl) as [|Hlt]; [done|]. apply IH; [done|lia].
  - destruct (E eq_refl) as (-> & -> & E'). exists T, P. split_and!; auto. destruct Hc as (Ht & Hr & _).
    intros n. split; [apply Hr|]. induction 1 as [n Hn|g m Hg Hm _ IHm]; [apply Ht; by left|].
    destruct (E' g Hg) as [|Hno]; [done|]. by destruct (Hno m Hm).
Qed.
End Closure.

(** ** Well-formed catalogs *)

Lemma NoDup_fmap_eq {A B} (f : A -> B) l x y : NoDup (f <$> l) -> x ∈ l -> y ∈ l -> f x = f y -> x = y.
Proof.
  intros Hn Hx Hy He. apply list_elem_of_lookup in Hx as [i Hi], Hy as [j Hj].
  assert (i = j) as ->; [|congruence]. eapply (NoDup_lookup (f <$> l)); [done|rewrite list_lookup_fmap, Hi; done|].
  rewrite list_lookup_fmap, Hj. cbn. by rewrite He.
Qed.

(** What a workspace publishes: layers of its services, coverages, groups. *)
Definition layerNames (c : catalog) (ws : string) : list string :=
  layPublicID <$> List.filter (fun l => ownsService c ws (layService l)) (layers c).
Definition coverageNames (c : catalog) (ws : string) : list string :=
  covPublicID <$> List.filter (fun k => String.eqb (covWorkspace k) ws) (coverages c).
Definition groupNames (c : catalog) (ws : string) : list string :=
  grpPublicID <$> List.filter (fun g => String.eqb (grpWorkspace g) ws) (layer_groups c).
Definition resourceNames (c : catalog) (ws : string) : list string := layerNames c ws ++ coverageNames c ws ++ groupNames c ws.

Record wfCatalog (c : catalog) : Prop := {
  wf_workspaces : NoDup (wsID <$> workspaces c);
  wf_services : NoDup (svcID <$> services c);
  wf_groups : NoDup (grpID <$> layer_groups c);
  wf_operations : NoDup (opID <$> catalog_deletions c);
  wf_coverages : forall k, k ∈ coverages c -> ownsService c (covWorkspace k) (covService k) = true;
  wf_names : forall ws, NoDup (resourceNames c ws) }.

Lemma ownsService_spec c ws id : ownsService c ws id = true <-> exists s, s ∈ services c /\ svcID s = id /\ svcWorkspace s = ws.
Proof. unfold ownsService. rewrite existsb_spec. by setoid_rewrite andb_true_iff; setoid_rewrite String.eqb_eq. Qed.

Lemma ownsService_unique c ws ws' id : wfCatalog c -> ownsService c ws id = true -> ownsService c ws' id = true -> ws = ws'.
Proof.
  intros Hw (s & Hs & Hi & <-)%ownsService_spec (s' & Hs' & Hi' & <-)%ownsService_spec.
  assert (s = s') as -> by (eapply NoDup_fmap_eq; [apply wf_services, Hw|done..|congruence]). done.
Qed.

Lemma elem_layerNames c ws n :
  n ∈ layerNames c ws <-> exists l, l ∈ layers c /\ ownsService c ws (layService l) = true /\ layPublicID l = n.
Proof. unfold layerNames. rewrite list_elem_of_fmap. setoid_rewrite elem_of_Lfilter. split; intros (x & H); exists x; intuition. Qed.

Lemma elem_coverageNames c ws n :
  n ∈ coverageNames c ws <-> exists k, k ∈ coverages c /\ covWorkspace k = ws /\ covPublicID k = n.
Proof. unfold coverageNames. rewrite list_elem_of_fmap. setoid_rewrite elem_of_Lfilter. setoid_rewrite String.eqb_eq. split; intros (x & H); exists x; intuition. Qed.

Lemma elem_groupNames c ws n :
  n ∈ groupNames c ws <-> exists g, g ∈ layer_groups c /\ grpWorkspace g = ws /\ grpPublicID g = n.
Proof. unfold groupNames. rewrite list_elem_of_fmap. setoid_rewrite elem_of_Lfilter. setoid_rewrite String.eqb_eq. split; intros (x & H); exists x; intuition. Qed.

Lemma elem_resourceNames c ws n :
  n ∈ resourceNames c ws <-> n ∈ layerNames c ws \/ n ∈ coverageNames c ws \/ n ∈ groupNames c ws.
Proof. unfold resourceNames. by rewrite !elem_of_app. Qed.

Lemma group_name_unique c g g' : wfCatalog c -> g ∈ layer_groups c -> g' ∈ layer_groups c ->
  grpWorkspace g = grpWorkspace g' -> grpPublicID g = grpPublicID g' -> g = g'.
Proof.
  intros Hw Hg Hg' Hws Hn. pose proof (wf_names c Hw (grpWorkspace g)) as H. unfold resourceNames in H.
  apply NoDup_app in H as (_ & _ & H). apply NoDup_app in H as (_ & _ & H).
  eapply NoDup_fmap_eq; [exact H|..|done]; apply elem_of_Lfilter; rewrite String.eqb_eq; auto.
Qed.

Lemma group_name_fresh c g n : wfCatalog c -> g ∈ layer_groups c -> grpPublicID g = n ->
  n ∈ layerNames c (grpWorkspace g) \/ n ∈ coverageNames c (grpWorkspace g) -> False.
Proof.
  intros Hw Hg Hn H. pose proof (wf_names c Hw (grpWorkspace g)) as Hd. unfold resourceNames in Hd.
  apply NoDup_app in Hd as (_ & H1 & H2). apply NoDup_app in H2 as (_ & H2 & _).
  assert (n ∈ groupNames c (grpWorkspace g)) by (apply elem_groupNames; eauto).
  destruct H as [H|H]; [by apply (H1 n H), elem_of_app; right|by apply (H2 n H)].
Qed.

Lemma find_Some_elem {A} (f : A -> bool) l x : List.find f l = Some x -> x ∈ l /\ f x = true.
Proof. intros H. apply find_some in H as [? ?]. by rewrite list_elem_of_In. Qed.

Lemma GetService_Some c id s : GetService c id = Some s ->
  s ∈ services c /\ svcID s = id /\ beingDeleted c DeletionScopeService id = false.
Proof.
  intros (Hs & H)%find_Some_elem. rewrite !andb_true_iff, !negb_true_iff, String.eqb_eq in H.
  destruct H as [[<- H] _]. auto.
Qed.

(** ** What a plan contains *)

Record servicePlan (c : catalog) (ws sid : string) (p : DeletionPlan) : Prop := {
  sp_scope : Scope p = DeletionScopeService;
  sp_workspace : planWorkspace p = ws;
  sp_target : refID (Target p) = sid;
  sp_service : exists s, GetService c sid = Some s /\ svcWorkspace s = ws;
  sp_layers : forall r, r ∈ Layers p <-> r ∈ serviceLayers c sid;
  sp_coverages : forall r, r ∈ Coverages p <-> r ∈ serviceCoverages c sid;
  sp_names : forall n, n ∈ planNames p <->
    removed (ListLayerGroups c ws) (refName <$> (serviceLayers c sid ++ serviceCoverages c sid)) n;
  sp_groups : forall r, r ∈ LayerGroups p -> exists g, g ∈ ListLayerGroups c ws /\ r = groupRef g;
  sp_blockers : nonEmpty (Blockers p) = false -> forall w, List.find (fun w => String.eqb (wsID w) ws) (workspaces c) = Some w ->
    inRefs (LayerGroups p) (datasetMapLayerGroupID w) = false }.

Lemma nonEmpty_sort l : nonEmpty (sortRefs l) = nonEmpty l.
Proof.
  pose proof (merge_sort_Permutation refBefore l) as H. unfold sortRefs. destruct l as [|x l], (merge_sort _ _) as [|y k]; try done.
  - by apply Permutation_nil_r in H.
  - by apply Permutation_nil_l in H.
Qed.

Lemma inRefs_spec refs id : inRefs refs id = true <-> exists r, r ∈ refs /\ refID r = id.
Proof. unfold inRefs. rewrite existsb_spec. by setoid_rewrite String.eqb_eq. Qed.

Lemma inRefs_sort refs id : inRefs (sortRefs refs) id = inRefs refs id.
Proof. apply Bool.eq_true_iff_eq. rewrite !inRefs_spec. by setoid_rewrite elem_of_sortRefs. Qed.

Lemma PlanServiceDeletion_spec c ws sid :
  PlanServiceDeletion c ws sid <> PlanLoops /\ forall p, PlanServiceDeletion c ws sid = Planned p -> servicePlan c ws sid p.
Proof.
  unfold PlanServiceDeletion. destruct (GetService c sid) as [s|] eqn:Hs; [|done].
  destruct (String.eqb_spec (svcWorkspace s) ws) as [Hws|]; [|done]. cbn [negb].
  set (names := refName <$> (serviceLayers c sid ++ serviceCoverages c sid)).
  destruct (closureLoop_spec (ListLayerGroups c ws) names (S (length (ListLayerGroups c ws))) names []) as (T & P & -> & Hc & Ht).
  { split_and!; [|by constructor|by intros r ?%not_elem_of_nil]. intros n. cbn. rewrite elem_of_nil. tauto. }
  { unfold missing. apply Nat.lt_succ_r. apply List.filter_length_le. }
  unfold addDatasetMapDeletionBlocker. cbn [planWorkspace]. destruct (List.find _ (workspaces c)) as [w|] eqn:Hw; [|done].
  split; [done|]. intros p [= <-]. destruct Hc as (Hn & _ & Hg). split; cbn [sortPlan Scope planWorkspace Target Layers Coverages LayerGroups Blockers planNames refID refOf app]; try done.
  - by apply GetService_Some in Hs as (_ & ? & _).
  - exists s. done.
  - intros r. apply elem_of_sortRefs.
  - intros r. apply elem_of_sortRefs.
  - intros n. fold names. rewrite <- Ht, Hn. unfold planNames, names. cbn [sortPlan Layers Coverages LayerGroups]. rewrite !fmap_app, !elem_of_app, !list_elem_of_fmap.
    setoid_rewrite elem_of_sortRefs. tauto.
  - intros r (g & Hgin & -> & _)%elem_of_sortRefs%Hg. eauto.
  - rewrite nonEmpty_sort. intros Hb w' Hw'. rewrite Hw in Hw'. injection Hw' as <-. rewrite inRefs_sort. destruct (inRefs P _) eqn:Hi; [|done].
    apply inRefs_spec in Hi as (r & Hr & Hid). exfalso.
    assert (Hf : r ∈ List.filter (fun g => String.eqb (refID g) (datasetMapLayerGroupID w)) P)
      by (apply elem_of_Lfilter; by rewrite String.eqb_eq).
    destruct (List.filter _ P); [by apply not_elem_of_nil in Hf|done].
Qed.

(** The first names of a plan are names of layers and coverages of the workspace. *)
Lemma service_names c ws sid p n : wfCatalog c -> servicePlan c ws sid p ->
  n ∈ refName <$> (serviceLayers c sid ++ serviceCoverages c sid) -> n ∈ layerNames c ws \/ n ∈ coverageNames c ws.
Proof.
  intros Hw Hp. destruct (sp_service _ _ _ _ Hp) as (s & (Hs & Hid & _)%GetService_Some & Hws).
  assert (Ho : ownsService c ws sid = true) by (apply ownsService_spec; eauto).
  rewrite fmap_app, elem_of_app, !list_elem_of_fmap. intros [(r & -> & Hr)|(r & -> & Hr)].
  - left. unfold serviceLayers in Hr. apply list_elem_of_fmap in Hr as (l & -> & Hl).
    apply elem_of_Lfilter in Hl as [Hl He%String.eqb_eq]. apply elem_layerNames. exists l. split_and!; [done|congruence|done].
  - right. unfold serviceCoverages in Hr. apply list_elem_of_fmap in Hr as (k & -> & Hk).
    apply elem_of_Lfilter in Hk as [Hk He%String.eqb_eq]. apply elem_coverageNames. exists k. split_and!; [done| |done].
    eapply ownsService_unique; [done|by apply wf_coverages|congruence].
Qed.

(** The groups of a plan are those with a removed member. *)
Lemma servicePlan_groups c ws sid p g : wfCatalog c -> servicePlan c ws sid p -> g ∈ layer_groups c -> grpWorkspace g = ws ->
  (inRefs (LayerGroups p) (grpID g) = true <-> exists m, m ∈ grpMembers g /\ m ∈ planNames p)
  /\ (inRefs (LayerGroups p) (grpID g) = true <-> grpPublicID g ∈ planNames p).
Proof.
  intros Hw Hp Hg Hws. assert (Hgin : g ∈ ListLayerGroups c ws) by by apply elem_of_groups.
  assert (Hfresh : grpPublicID g ∉ refName <$> (serviceLayers c sid ++ serviceCoverages c sid)).
  { intros Hn. apply (service_names c ws sid p _ Hw Hp) in Hn. subst ws. by eapply group_name_fresh. }
  assert (Hname : inRefs (LayerGroups p) (grpID g) = true <-> grpPublicID g ∈ planNames p).
  { rewrite inRefs_spec. split.
    - intros (r & Hr & Hid). destruct (sp_groups _ _ _ _ Hp r Hr) as (g' & (Hg' & _)%elem_of_groups & ->).
      cbn in Hid. assert (g' = g) as -> by (eapply NoDup_fmap_eq; [apply wf_groups, Hw|..]; done).
      unfold planNames. rewrite !fmap_app, !elem_of_app. right. right. apply list_elem_of_fmap. by exists (groupRef g).
    - unfold planNames. rewrite app_assoc, fmap_app, elem_of_app. intros [Hn|Hn]; apply list_elem_of_fmap in Hn as (r & Hn & Hr).
      + destruct Hfresh. rewrite Hn. apply list_elem_of_fmap. exists r. split; [done|].
        rewrite elem_of_app, (sp_layers _ _ _ _ Hp), (sp_coverages _ _ _ _ Hp) in Hr. by apply elem_of_app.
      + destruct (sp_groups _ _ _ _ Hp r Hr) as (g' & (Hg' & Hws')%elem_of_groups & ->). cbn in Hn.
        assert (g' = g) as -> by (apply (group_name_unique c g' g Hw Hg' Hg); congruence). by exists (groupRef g). }
  split; [|done]. rewrite Hname. setoid_rewrite (sp_names _ _ _ _ Hp). split.
  - intros Hr. remember (grpPublicID g) as n eqn:Hn. destruct Hr as [n Hr|g' m Hg' Hm Hr]; [by destruct Hfresh|].
    apply elem_of_groups in Hg' as [Hg' Hws']. assert (g' = g) as -> by (apply (group_name_unique c g' g Hw Hg' Hg); congruence). eauto.
  - intros (m & Hm & Hr). eapply removed_group; eauto.
Qed.

(** ** The invariant *)

(** Every member of a group is a resource of its workspace. *)
Definition membersExist (c : catalog) : Prop :=
  forall g m, g ∈ layer_groups c -> m ∈ grpMembers g -> m ∈ resourceNames c (grpWorkspace g).

(** The map of a workspace is one of its groups. *)
Definition mapsExist (c : catalog) : Prop :=
  forall w, w ∈ workspaces c -> datasetMapLayerGroupID w <> "" ->
  exists g, g ∈ layer_groups c /\ grpID g = datasetMapLayerGroupID w /\ grpWorkspace g = wsID w.

(** What an unfinished deletion of a service knows of the rows. *)
Record operationInv (c : catalog) (o : DeletionOperation) : Prop := {
  oi_service : forall s, s ∈ services c -> svcID s = opTarget o -> svcWorkspace s = opWorkspace o;
  oi_layers : forall l, l ∈ layers c -> layService l = opTarget o -> layPublicID l ∈ planNames (opPlan o);
  oi_coverages : forall k, k ∈ coverages c -> covService k = opTarget o -> covPublicID k ∈ planNames (opPlan o);
  oi_members : forall g m, g ∈ layer_groups c -> grpWorkspace g = opWorkspace o -> m ∈ grpMembers g ->
    m ∈ planNames (opPlan o) -> inRefs (LayerGroups (opPlan o)) (grpID g) = true;
  oi_groups : forall g, g ∈ layer_groups c -> inRefs (LayerGroups (opPlan o)) (grpID g) = true ->
    grpWorkspace g = opWorkspace o /\ grpPublicID g ∈ planNames (opPlan o);
  oi_maps : forall w, w ∈ workspaces c -> datasetMapLayerGroupID w <> "" ->
    inRefs (LayerGroups (opPlan o)) (datasetMapLayerGroupID w) = false }.

Record catInv (c : catalog) : Prop := {
  ci_wf : wfCatalog c;
  ci_members : membersExist c;
  ci_maps : mapsExist c;
  ci_operations : forall o, o ∈ catalog_deletions c -> unfinished o = true -> opScope o = DeletionScopeService -> operationInv c o }.

(** A catalog with fewer rows and the same operations, up to their progress. *)
Definition mapOf (w : WorkspaceRow) : string * string := (wsID w, datasetMapLayerGroupID w).

Definition sameDeletion (o o' : DeletionOperation) : Prop :=
  opID o' = opID o /\ opScope o' = opScope o /\ opWorkspace o' = opWorkspace o /\ opTarget o' = opTarget o /\ opPlan o' = opPlan o
  /\ (unfinished o' = true -> unfinished o = true).

Record shrinks (c c' : catalog) : Prop := {
  sh_workspaces : (mapOf <$> workspaces c') `sublist_of` (mapOf <$> workspaces c);
  sh_services : services c' `sublist_of` services c;
  sh_layers : layers c' `sublist_of` layers c;
  sh_coverages : coverages c' `sublist_of` coverages c;
  sh_groups : layer_groups c' `sublist_of` layer_groups c;
  sh_operations : Forall2 sameDeletion (catalog_deletions c) (catalog_deletions c') }.

Lemma Lfilter_sublist {A} (f g : A -> bool) l l' :
  l' `sublist_of` l -> (forall x, f x = true -> g x = true) -> List.filter f l' `sublist_of` List.filter g l.
Proof.
  intros Hs Hfg. induction Hs as [|x l' l Hs IH|x l' l Hs IH]; cbn [List.filter]; [done|..].
  - destruct (f x) eqn:Hf; [rewrite (Hfg x Hf); by constructor|]. destruct (g x); [by constructor|done].
  - destruct (g x); [by constructor|done].
Qed.

Lemma keep_sublist {A} (p : A -> bool) l : keep p l `sublist_of` l.
Proof. induction l as [|x l IH]; cbn; [done|]. destruct (p x); cbn; by constructor. Qed.

Lemma shrinks_owns c c' ws id : shrinks c c' -> ownsService c' ws id = true -> ownsService c ws id = true.
Proof.
  intros H (s & Hs & ?)%ownsService_spec. apply ownsService_spec. exists s. split; [|done]. eapply elem_of_sublist, sh_services; done.
Qed.

Lemma shrinks_wf c c' : wfCatalog c -> shrinks c c' ->
  (forall k, k ∈ coverages c' -> ownsService c' (covWorkspace k) (covService k) = true) -> wfCatalog c'.
Proof.
  intros Hw Hs Hk. split; [..|done|].
  - apply (sublist_NoDup _ (wsID <$> workspaces c)); [apply wf_workspaces, Hw|].
    assert (He : forall l, wsID <$> l = fst <$> (mapOf <$> l)) by (intros l; by rewrite <- list_fmap_compose).
    rewrite !He. apply fmap_sublist, (sh_workspaces c c' Hs).
  - eapply sublist_NoDup; [apply wf_services, Hw|]. apply fmap_sublist, (sh_services c c' Hs).
  - eapply sublist_NoDup; [apply wf_groups, Hw|]. apply fmap_sublist, (sh_groups c c' Hs).
  - replace (opID <$> catalog_deletions c') with (opID <$> catalog_deletions c); [apply wf_operations, Hw|].
    induction (sh_operations c c' Hs) as [|o o' l l' Ho _ IH]; [done|]. cbn. f_equal; [|done]. by destruct Ho as [-> _].
  - intros ws. eapply sublist_NoDup; [apply (wf_names c Hw ws)|]. unfold resourceNames.
    repeat apply sublist_app; apply fmap_sublist; apply Lfilter_sublist;
      try (apply (sh_layers c c' Hs) || apply (sh_coverages c c' Hs) || apply (sh_groups c c' Hs)); try done.
    intros l. by apply shrinks_owns.
Qed.

Lemma operationInv_shrinks c c' o o' : operationInv c o -> shrinks c c' -> sameDeletion o o' -> operationInv c' o'.
Proof.
  intros Ho Hs (_ & _ & Hw & Ht & Hp & _).
  pose proof (fun s H => elem_of_sublist _ _ s H (sh_services c c' Hs)) as H1.
  pose proof (fun l H => elem_of_sublist _ _ l H (sh_layers c c' Hs)) as H2.
  pose proof (fun k H => elem_of_sublist _ _ k H (sh_coverages c c' Hs)) as H3.
  pose proof (fun g H => elem_of_sublist _ _ g H (sh_groups c c' Hs)) as H4.
  split; rewrite ?Hw, ?Ht, ?Hp.
  - intros s Hin. apply (oi_service c o Ho s), H1, Hin.
  - intros l Hin. apply (oi_layers c o Ho l), H2, Hin.
  - intros k Hin. apply (oi_coverages c o Ho k), H3, Hin.
  - intros g m Hin. apply (oi_members c o Ho g m), H4, Hin.
  - intros g Hin. apply (oi_groups c o Ho g), H4, Hin.
  - intros w Hin Hd. assert (Hm : mapOf w ∈ mapOf <$> workspaces c).
    { eapply elem_of_sublist; [|apply (sh_workspaces c c' Hs)]. by apply list_elem_of_fmap_2. }
    apply list_elem_of_fmap in Hm as (w0 & He & Hin0). injection He as _ He. rewrite He in *. by apply (oi_maps c o Ho).
Qed.

Lemma shrinks_inv c c' : catInv c -> shrinks c c' ->
  (forall k, k ∈ coverages c' -> ownsService c' (covWorkspace k) (covService k) = true) ->
  membersExist c' -> mapsExist c' -> catInv c'.
Proof.
  intros Hi Hs Hk Hm Hd. split; [by apply (shrinks_wf c); [apply Hi|..]|done|done|].
  intros o' Ho' Hu Hsc. apply list_elem_of_lookup in Ho' as [i Hi'].
  destruct (Forall2_lookup_r _ _ _ _ _ (sh_operations c c' Hs) Hi') as (o & Hol & Hsame).
  pose proof Hsame as (_ & Hsc' & _ & _ & _ & Hu'). eapply operationInv_shrinks; [|done|done].
  apply (ci_operations c Hi); [by eapply list_elem_of_lookup_2|auto|congruence].
Qed.

(** ** Progress and commits *)

Lemma mapOf_bump ws (l : list WorkspaceRow) : mapOf <$> (bumpRevision ws <$> l) = mapOf <$> l.
Proof. rewrite <- list_fmap_compose. apply list_fmap_ext. intros i w _. cbn. unfold bumpRevision. by case_match. Qed.

Lemma sameDeletion_refl o : sameDeletion o o.
Proof. done. Qed.

Lemma operations_same l : Forall2 sameDeletion l l.
Proof. apply Forall_Forall2_diag, Forall_forall. intros o _. apply sameDeletion_refl. Qed.

Lemma progress_inv c d w : catInv c -> Forall2 sameDeletion (catalog_deletions c) d -> mapOf <$> w = mapOf <$> workspaces c ->
  catInv (set_workspaces (set_deletions c d) w).
Proof.
  intros Hi Hd Hw. apply (shrinks_inv c); [done| |apply (wf_coverages c (ci_wf c Hi))|apply (ci_members c Hi)|].
  - split; cbn; try done. by rewrite Hw.
  - intros x Hx Hm. cbn in *. assert (Hin : mapOf x ∈ mapOf <$> workspaces c) by (rewrite <- Hw; by apply list_elem_of_fmap_2).
    apply list_elem_of_fmap in Hin as (x0 & He & Hin). injection He as He1 He2. rewrite He1, He2 in *. by apply (ci_maps c Hi).
Qed.

Lemma bump_inv c ws : catInv c -> catInv (set_workspaces c (bumpRevision ws <$> workspaces c)).
Proof.
  intros Hi. apply (progress_inv c (catalog_deletions c)); [done| |apply mapOf_bump]. apply operations_same.
Qed.

Lemma onOperation_same f id l : (forall o, o ∈ l -> opID o = id -> sameDeletion o (f o)) -> Forall2 sameDeletion l (onOperation f id l).
Proof.
  unfold onOperation. induction l as [|o l IH]; intros H; [done|]. rewrite fmap_cons. constructor.
  - destruct (String.eqb_spec (opID o) id) as [He|_]; [|apply sameDeletion_refl]. apply H; [by left|done].
  - apply IH. intros o' Ho'. apply H. by right.
Qed.

Lemma GetCatalogDeletion_Some c id o : GetCatalogDeletion c id = Some o -> o ∈ catalog_deletions c /\ opID o = id.
Proof. intros (Ho & Hid%String.eqb_eq)%find_Some_elem. done. Qed.

Lemma operation_unique c o o' : wfCatalog c -> o ∈ catalog_deletions c -> o' ∈ catalog_deletions c -> opID o' = opID o -> o' = o.
Proof. intros Hw Ho Ho' He. eapply NoDup_fmap_eq; [apply wf_operations, Hw|done..]. Qed.

Lemma owns_keep c c' ws id (p : ServiceRow -> bool) : services c' = keep p (services c) -> ownsService c ws id = true ->
  (forall s, s ∈ services c -> svcID s = id -> svcWorkspace s = ws -> p s = false) -> ownsService c' ws id = true.
Proof.
  intros He (s & Hs & Hi & Hws)%ownsService_spec Hp. apply ownsService_spec. exists s. rewrite He, elem_of_keep. auto.
Qed.

Section CommitService.
Context (c : catalog) (o : DeletionOperation).
Hypothesis Hi : catInv c.
Hypothesis Ho : operationInv c o.
Local Abbreviation c' := (deleteServiceCatalog c o).

Lemma service_survives ws id : id <> opTarget o -> ownsService c ws id = true -> ownsService c' ws id = true.
Proof.
  intros Hne Hs. eapply owns_keep; [reflexivity|done|]. intros s _ <- _. apply String.eqb_neq in Hne. by rewrite Hne.
Qed.

Lemma target_workspace ws : ownsService c ws (opTarget o) = true -> ws = opWorkspace o.
Proof. intros (s & Hs & Hid & <-)%ownsService_spec. by apply (oi_service c o Ho). Qed.

Lemma name_survives ws m : m ∈ resourceNames c ws -> (ws = opWorkspace o -> m ∉ planNames (opPlan o)) -> m ∈ resourceNames c' ws.
Proof.
  rewrite !elem_resourceNames, !elem_layerNames, !elem_coverageNames, !elem_groupNames. cbn [layers coverages layer_groups deleteServiceCatalog].
  setoid_rewrite elem_of_keep. intros [(l & Hl & Hs & Hn)|[(k & Hk & Hw & Hn)|(g & Hg & Hw & Hn)]] Hm; subst m.
  - left. exists l. assert (layService l <> opTarget o).
    { intros He. apply Hm; [by apply target_workspace; rewrite <- He|by apply (oi_layers c o Ho)]. }
    split_and!; [done|by apply String.eqb_neq|by apply service_survives|done].
  - right. left. exists k. assert (covService k <> opTarget o).
    { intros He. apply Hm; [|by apply (oi_coverages c o Ho)]. apply target_workspace. rewrite <- He, <- Hw. by apply (wf_coverages c (ci_wf c Hi)). }
    split_and!; [done|by apply String.eqb_neq|done..].
  - right. right. exists g. destruct (inRefs (LayerGroups (opPlan o)) (grpID g)) eqn:He; [|done].
    destruct (oi_groups c o Ho g Hg He) as [Hw' Hin]. destruct Hm; [congruence|done].
Qed.

Lemma deleteServiceCatalog_inv : catInv c'.
Proof.
  apply (shrinks_inv c); [done|..].
  - split; cbn; try apply keep_sublist; [done|]. apply operations_same.
  - cbn. intros k [Hk Hne%String.eqb_neq]%elem_of_keep. apply service_survives; [done|]. by apply (wf_coverages c (ci_wf c Hi)).
  - cbn. intros g m [Hg Hr]%elem_of_keep Hm. apply name_survives; [by apply (ci_members c Hi)|].
    intros Hw Hp. by rewrite (oi_members c o Ho g m) in Hr.
  - cbn. intros w Hw Hd. destruct (ci_maps c Hi w Hw Hd) as (g & Hg & Hid & Hws). exists g. split; [|done].
    apply elem_of_keep. split; [done|]. rewrite Hid. by apply (oi_maps c o Ho).
Qed.
End CommitService.

Lemma deleteWorkspaceCatalog_inv c ws : catInv c -> catInv (deleteWorkspaceCatalog c ws).
Proof.
  intros Hi. pose proof (ci_wf c Hi) as Hwf.
  assert (Hown : forall ws' id, ws' <> ws -> ownsService c ws' id = true ->
    ownsService c ws id = false /\ ownsService (deleteWorkspaceCatalog c ws) ws' id = true).
  { intros ws' id Hne Hs. split.
    - destruct (ownsService c ws id) eqn:He; [|done]. destruct Hne. by eapply ownsService_unique.
    - eapply owns_keep; [reflexivity|done|]. intros s _ _ <-. by apply String.eqb_neq. }
  apply (shrinks_inv c); [done|..].
  - split; cbn; try apply keep_sublist; [apply fmap_sublist, keep_sublist|]. apply operations_same.
  - cbn. intros k [Hk [Hne%String.eqb_neq _]%orb_false_iff]%elem_of_keep. apply Hown; [done|]. by apply (wf_coverages c Hwf).
  - cbn. intros g m [Hg Hne%String.eqb_neq]%elem_of_keep Hm. pose proof (ci_members c Hi g m Hg Hm) as Hin. revert Hin.
    rewrite !elem_resourceNames, !elem_layerNames, !elem_coverageNames, !elem_groupNames. cbn [layers coverages layer_groups deleteWorkspaceCatalog].
    setoid_rewrite elem_of_keep. intros [(l & Hl & Hs & Hn)|[(k & Hk & Hw & Hn)|(g' & Hg' & Hw & Hn)]].
    + left. exists l. destruct (Hown _ _ Hne Hs). auto.
    + right. left. exists k. split_and!; try done. apply orb_false_iff. split; [apply String.eqb_neq; congruence|].
      apply (Hown _ _ Hne). rewrite <- Hw. by apply (wf_coverages c Hwf).
    + right. right. exists g'. split_and!; try done. apply String.eqb_neq. congruence.
  - cbn. intros w [Hw Hne%String.eqb_neq]%elem_of_keep Hd. destruct (ci_maps c Hi w Hw Hd) as (g & Hg & Hid & Hws). exists g.
    split; [|done]. apply elem_of_keep. split; [done|]. apply String.eqb_neq. congruence.
Qed.

(** ** Beginning *)

Lemma find_unique {A} (key : A -> string) l x id : NoDup (key <$> l) -> x ∈ l -> key x = id ->
  List.find (fun y => String.eqb (key y) id) l = Some x.
Proof.
  intros Hn Hx He. destruct (List.find _ l) as [y|] eqn:Hf.
  - apply find_Some_elem in Hf as [Hy Hk%String.eqb_eq]. f_equal. eapply NoDup_fmap_eq; [done..|congruence].
  - exfalso. apply list_elem_of_In in Hx. apply (find_none _ _ Hf x) in Hx. by apply String.eqb_neq in Hx.
Qed.

Lemma serviceLayers_name c sid l : l ∈ layers c -> layService l = sid -> layPublicID l ∈ refName <$> serviceLayers c sid.
Proof.
  intros Hl He. unfold serviceLayers. rewrite <- list_fmap_compose. apply list_elem_of_fmap. exists l. split; [done|].
  apply elem_of_Lfilter. by rewrite String.eqb_eq.
Qed.

Lemma serviceCoverages_name c sid k : k ∈ coverages c -> covService k = sid -> covPublicID k ∈ refName <$> serviceCoverages c sid.
Proof.
  intros Hl He. unfold serviceCoverages. rewrite <- list_fmap_compose. apply list_elem_of_fmap. exists k. split; [done|].
  apply elem_of_Lfilter. by rewrite String.eqb_eq.
Qed.

Lemma servicePlan_operation c ws sid p o : catInv c -> servicePlan c ws sid p -> nonEmpty (Blockers p) = false ->
  opWorkspace o = ws -> opTarget o = sid -> (forall n, n ∈ planNames (opPlan o) <-> n ∈ planNames p) ->
  (forall id, inRefs (LayerGroups (opPlan o)) id = inRefs (LayerGroups p) id) -> operationInv c o.
Proof.
  intros Hi Hp Hb Hw Ht Hnames Hrefs. pose proof (ci_wf c Hi) as Hwf.
  destruct (sp_service _ _ _ _ Hp) as (s & (Hs & Hid & _)%GetService_Some & Hws).
  assert (Hfirst : forall n, n ∈ refName <$> (serviceLayers c sid ++ serviceCoverages c sid) -> n ∈ planNames (opPlan o)).
  { intros n Hn. apply Hnames, (sp_names _ _ _ _ Hp). by apply removed_name. }
  assert (Hgrp : forall id, inRefs (LayerGroups p) id = true -> exists g, g ∈ layer_groups c /\ grpWorkspace g = ws /\ grpID g = id).
  { intros id (r & Hr & Hre)%inRefs_spec. destruct (sp_groups _ _ _ _ Hp r Hr) as (g & (Hg & Hgw)%elem_of_groups & ->). eauto. }
  split; rewrite ?Hw, ?Ht.
  - intros s' Hs' He. assert (s' = s) as -> by (eapply NoDup_fmap_eq; [apply wf_services, Hwf|done..|congruence]). done.
  - intros l Hl He. apply Hfirst. rewrite fmap_app, elem_of_app. left. by apply serviceLayers_name.
  - intros k Hk He. apply Hfirst. rewrite fmap_app, elem_of_app. right. by apply serviceCoverages_name.
  - intros g m Hg Hgw Hm Hn. rewrite Hrefs. apply (proj1 (servicePlan_groups c ws sid p g Hwf Hp Hg Hgw)). exists m. split; [done|by apply Hnames].
  - intros g Hg Hr. rewrite Hrefs in Hr. destruct (Hgrp _ Hr) as (g' & Hg' & Hgw & He).
    assert (g' = g) as -> by (eapply NoDup_fmap_eq; [apply wf_groups, Hwf|done..]). split; [done|].
    apply Hnames. by apply (proj2 (servicePlan_groups c ws sid p g Hwf Hp Hg Hgw)).
  - intros w Hwin Hd. rewrite Hrefs. destruct (String.eqb_spec (wsID w) ws) as [He|Hne].
    + apply (sp_blockers _ _ _ _ Hp Hb). apply (find_unique wsID); [apply wf_workspaces, Hwf|done..].
    + destruct (inRefs (LayerGroups p) _) eqn:Hr; [|done]. destruct (Hgrp _ Hr) as (g' & Hg' & Hgw & He).
      destruct (ci_maps c Hi w Hwin Hd) as (g & Hg & Hgid & Hgws).
      assert (g' = g) as -> by (eapply NoDup_fmap_eq; [apply wf_groups, Hwf|done..|congruence]). congruence.
Qed.

Lemma planNames_sort p n : n ∈ planNames (sortPlan p) <-> n ∈ planNames p.
Proof. unfold planNames. cbn. rewrite !fmap_app, !elem_of_app, !list_elem_of_fmap. by setoid_rewrite elem_of_sortRefs. Qed.

Lemma operationInv_set c d o : operationInv c o -> operationInv (set_deletions c d) o.
Proof. intros [A B C D E F]. by split. Qed.

Lemma add_operation_inv c o : catInv c -> opID o ∉ opID <$> catalog_deletions c ->
  (unfinished o = true -> opScope o = DeletionScopeService -> operationInv c o) ->
  catInv (set_deletions c (catalog_deletions c ++ [o])).
Proof.
  intros Hi Hf Ho. destruct (ci_wf c Hi) as [A B C D E F]. split; [split; try done|apply (ci_members c Hi)|apply (ci_maps c Hi)|].
  - cbn. rewrite fmap_app. apply NoDup_app. split; [done|]. split; [|cbn; apply NoDup_singleton].
    intros x Hx Hy%list_elem_of_singleton. by subst.
  - intros o' [Ho'|Ho'%list_elem_of_singleton]%elem_of_app; [|subst o'; intros; apply operationInv_set; auto].
    intros. apply operationInv_set. by apply (ci_operations c Hi).
Qed.

Lemma BeginCatalogDeletion_inv now id fails c plan : catInv c -> id ∉ opID <$> catalog_deletions c ->
  catInv (BeginCatalogDeletion now id fails c plan).2.
Proof.
  intros Hi Hf. unfold BeginCatalogDeletion. destruct (_ || _); [done|]. destruct (findActiveCatalogDeletion _ _ _); [done|].
  destruct (currentPlan c plan) as [e|plan'] eqn:Hp; [done|]. destruct (_ || _); [by case_match|]. cbn [snd].
  apply add_operation_inv; [done|done|]. intros _ Hs. cbn in Hs. unfold currentPlan in Hp.
  destruct (Scope plan) eqn:Hsc; [injection Hp as <-; congruence|].
  destruct (PlanServiceDeletion c _ _) as [current| |] eqn:Hpl; try done.
  destruct (nonEmpty (Blockers current)) eqn:Hb; [done|]. injection Hp as <-. apply PlanServiceDeletion_spec in Hpl.
  eapply servicePlan_operation; [done|exact Hpl|done|apply (sp_workspace _ _ _ _ Hpl)|apply (sp_target _ _ _ _ Hpl)|..].
  - intros n. apply (planNames_sort (withAuxiliary current (Auxiliary plan))).
  - intros x. apply inRefs_sort.
Qed.

Lemma UpdateCatalogDeletion_inv now fails c id status phase msg : catInv c ->
  (forall o, GetCatalogDeletion c id = Some o -> unfinished o = true) ->
  catInv (UpdateCatalogDeletion now fails c id status phase msg).2.
Proof.
  intros Hi Hu. unfold UpdateCatalogDeletion. destruct fails; [done|]. destruct (GetCatalogDeletion c id) as [o|] eqn:Ho; [|done].
  apply GetCatalogDeletion_Some in Ho as [Ho Hid]. cbn [snd].
  apply (progress_inv c _ (workspaces c)); [done| |done]. apply onOperation_same. intros o' Ho' Hid'.
  assert (o' = o) as -> by (apply (operation_unique c); [apply Hi|done|done|congruence]). repeat split. intros _. by apply Hu.
Qed.

Lemma CommitCatalogDeletion_inv now fails c id : catInv c -> catInv (CommitCatalogDeletion now fails c id).2.
Proof.
  intros Hi. unfold CommitCatalogDeletion. destruct (GetCatalogDeletion c id) as [o|] eqn:Hg; [|done].
  destruct (bool_decide (opStatus o = DeletionCompleted) || _ || _) eqn:Hd; [done|]. destruct fails; [done|]. cbn [snd].
  apply GetCatalogDeletion_Some in Hg as [Ho Hid]. rewrite !orb_false_iff in Hd. destruct Hd as [[Hd _] _].
  assert (Hu : unfinished o = true) by (unfold unfinished; by rewrite Hd).
  set (c' := match opScope o with
             | DeletionScopeWorkspace => deleteWorkspaceCatalog c (opWorkspace o)
             | DeletionScopeService => deleteServiceCatalog c o
             end).
  assert (catInv c' /\ catalog_deletions c' = catalog_deletions c) as [Hi' He].
  { subst c'. destruct (opScope o) eqn:Hs; split; [by apply deleteWorkspaceCatalog_inv|done| |done].
    apply deleteServiceCatalog_inv; [done|]. by apply (ci_operations c Hi). }
  apply progress_inv; [done| |apply mapOf_bump]. rewrite He. apply onOperation_same. intros o' Ho' Hid'.
  assert (o' = o) as -> by (apply (operation_unique c); [apply Hi|done|done|congruence]). by repeat split.
Qed.

(** ** Group writes *)

Lemma validateGroup_None c ws gid pub members o :
  validateGroupDeletionState c ws gid pub members = None -> o ∈ catalog_deletions c -> unfinished o = true -> opWorkspace o = ws ->
  opScope o = DeletionScopeService /\ (forall m, m ∈ members -> m ∉ planNames (opPlan o))
  /\ (gid <> "" -> inRefs (LayerGroups (opPlan o)) gid = false).
Proof.
  unfold validateGroupDeletionState. destruct (existsb _ _) eqn:He; [done|]. intros _ Ho Hu Hw.
  rewrite existsb_none in He. specialize (He o ltac:(by apply elem_of_pending)). unfold operationForbids in He.
  rewrite Hw, String.eqb_refl in He. cbn [andb] in He. apply orb_false_iff in He as [Hs%bool_decide_eq_false Ht].
  rewrite existsb_none in Ht. split_and!.
  - by destruct (opScope o).
  - intros m Hm Hp. unfold planNames in Hp. apply list_elem_of_fmap in Hp as (r & -> & Hr).
    specialize (Ht r ltac:(rewrite !elem_of_app in *; tauto)). unfold deletionTouches in Ht. rewrite !orb_false_iff in Ht.
    destruct Ht as [_ Ht]. rewrite existsb_none in Ht. specialize (Ht _ Hm). by rewrite String.eqb_refl in Ht.
  - intros Hne. destruct (inRefs _ _) eqn:Hr; [|done]. apply inRefs_spec in Hr as (r & Hr & Hid).
    specialize (Ht r ltac:(rewrite !elem_of_app in *; tauto)). unfold deletionTouches in Ht. rewrite !orb_false_iff in Ht.
    destruct Ht as [[_ Ht] _]. apply String.eqb_neq in Hne. rewrite Hne, Hid, String.eqb_refl in Ht. done.
Qed.

(** A name that the caller may know: a resource, or one that an unfinished deletion removes. *)
Definition known (c : catalog) (ws m : string) : Prop :=
  m ∈ resourceNames c ws \/
  exists o, o ∈ catalog_deletions c /\ unfinished o = true /\ opWorkspace o = ws
    /\ (opScope o = DeletionScopeWorkspace \/ m ∈ planNames (opPlan o)).

Lemma known_exists c ws gid pub members m : validateGroupDeletionState c ws gid pub members = None -> m ∈ members ->
  known c ws m -> m ∈ resourceNames c ws.
Proof.
  intros Hv Hm [?|(o & Ho & Hu & Hw & H)]; [done|]. exfalso.
  destruct (validateGroup_None c ws gid pub members o Hv Ho Hu Hw) as (Hs & Hn & _). destruct H; [congruence|by apply (Hn m)].
Qed.

Lemma groupNames_snoc c g ws :
  groupNames (set_groups c (layer_groups c ++ [g])) ws
  = groupNames c ws ++ (if String.eqb (grpWorkspace g) ws then [grpPublicID g] else []).
Proof. unfold groupNames. cbn. rewrite List.filter_app, fmap_app. f_equal. cbn. by destruct (String.eqb _ _). Qed.

Lemma NoDup_snoc {A} (l : list A) x : NoDup l -> x ∉ l -> NoDup (l ++ [x]).
Proof.
  intros Hl Hx. apply NoDup_app. split; [done|]. split; [|apply NoDup_singleton]. intros y Hy Hy'%list_elem_of_singleton. by subst.
Qed.

Lemma add_group_inv c g : catInv c -> grpID g ∉ grpID <$> layer_groups c -> grpPublicID g ∉ resourceNames c (grpWorkspace g) ->
  (forall m, m ∈ grpMembers g -> m ∈ resourceNames c (grpWorkspace g)) ->
  (forall o, o ∈ catalog_deletions c -> inRefs (LayerGroups (opPlan o)) (grpID g) = false) ->
  (forall o m, o ∈ catalog_deletions c -> unfinished o = true -> opWorkspace o = grpWorkspace g -> m ∈ grpMembers g ->
     m ∉ planNames (opPlan o)) ->
  catInv (set_groups c (layer_groups c ++ [g])).
Proof.
  intros Hi Hid Hn Hm Hr Hp. destruct (ci_wf c Hi) as [A B C D E F].
  assert (Hmono : forall ws n, n ∈ resourceNames c ws -> n ∈ resourceNames (set_groups c (layer_groups c ++ [g])) ws).
  { intros ws n. unfold resourceNames. rewrite groupNames_snoc, !elem_of_app. intros [?|[?|?]]; tauto. }
  split; [split; try done| | |].
  - cbn. rewrite fmap_app. by apply NoDup_snoc.
  - intros ws. unfold resourceNames. rewrite groupNames_snoc. destruct (String.eqb_spec (grpWorkspace g) ws) as [<-|]; [|by rewrite app_nil_r; apply F].
    rewrite !app_assoc. apply NoDup_snoc; rewrite <- app_assoc; [apply F|done].
  - intros g' m [Hg'|Hg'%list_elem_of_singleton]%elem_of_app Hin; apply Hmono; [by apply (ci_members c Hi)|]. subst g'. by apply Hm.
  - intros w Hw Hd. destruct (ci_maps c Hi w Hw Hd) as (g' & Hg' & ?). exists g'. split; [|done]. apply elem_of_app. by left.
  - intros o Ho Hu Hs. destruct (ci_operations c Hi o Ho Hu Hs) as [O1 O2 O3 O4 O5 O6]. split; try done.
    + intros g' m [Hg'|Hg'%list_elem_of_singleton]%elem_of_app; [by apply O4|]. subst g'. intros Hw Hin Hpl. by destruct (Hp o m).
    + intros g' [Hg'|Hg'%list_elem_of_singleton]%elem_of_app; [by apply O5|]. subst g'. by rewrite (Hr o Ho).
Qed.

(** A group [g] becomes [v], which keeps its identifier and workspace. *)
Definition becomes (g v x : GroupRow) : GroupRow := if String.eqb (grpID x) (grpID g) then v else x.

Section ReplaceGroup.
Context (c : catalog) (g v : GroupRow).
Hypothesis Hi : catInv c.
Hypothesis Hg : g ∈ layer_groups c.
Hypothesis Hid : grpID v = grpID g.
Hypothesis Hws : grpWorkspace v = grpWorkspace g.
(** The name stays, or is new and nothing refers to the old one. *)
Hypothesis Hname : grpPublicID v = grpPublicID g \/
  grpPublicID v ∉ resourceNames c (grpWorkspace g) /\
  (forall g', g' ∈ layer_groups c -> grpWorkspace g' = grpWorkspace g -> grpPublicID g ∉ grpMembers g') /\ grpPublicID g ∉ grpMembers v.
Hypothesis Hmem : forall m, m ∈ grpMembers v -> m ∈ resourceNames c (grpWorkspace g).
Hypothesis Hops : forall o, o ∈ catalog_deletions c -> unfinished o = true -> opWorkspace o = grpWorkspace g ->
  inRefs (LayerGroups (opPlan o)) (grpID g) = false /\ forall m, m ∈ grpMembers v -> m ∉ planNames (opPlan o).
Local Abbreviation c' := (set_groups c (becomes g v <$> layer_groups c)).

Lemma becomes_elem x : x ∈ becomes g v <$> layer_groups c <-> x = v \/ (x ∈ layer_groups c /\ grpID x <> grpID g).
Proof.
  rewrite list_elem_of_fmap. split.
  - intros (y & -> & Hy). unfold becomes. destruct (String.eqb_spec (grpID y) (grpID g)); auto.
  - intros [->|[Hx Hne]].
    + exists g. split; [|done]. unfold becomes. by rewrite String.eqb_refl.
    + exists x. split; [|done]. unfold becomes. by apply String.eqb_neq in Hne as ->.
Qed.

Lemma other_group x : x ∈ layer_groups c -> x <> g -> grpID x <> grpID g.
Proof. intros Hx Hne He. apply Hne. eapply NoDup_fmap_eq; [apply wf_groups, (ci_wf c Hi)|done..]. Qed.

Lemma ids_kept : grpID <$> (becomes g v <$> layer_groups c) = grpID <$> layer_groups c.
Proof.
  rewrite <- list_fmap_compose. apply list_fmap_ext. intros i x _. cbn. unfold becomes.
  destruct (String.eqb_spec (grpID x) (grpID g)); congruence.
Qed.

Lemma elem_replaced ws n : n ∈ groupNames c' ws -> n ∈ groupNames c ws \/ (ws = grpWorkspace g /\ n = grpPublicID v).
Proof.
  rewrite !elem_groupNames. cbn [layer_groups set_groups]. intros (x & Hx & Hw & Hn). apply becomes_elem in Hx as [->|[Hx _]]; [|eauto].
  right. split; congruence.
Qed.

(** Names other than the old one of [g] remain. *)
Lemma replaced_elem ws n : n ∈ groupNames c ws -> (ws = grpWorkspace g -> n = grpPublicID g -> grpPublicID v = grpPublicID g) ->
  n ∈ groupNames c' ws.
Proof.
  rewrite !elem_groupNames. cbn [layer_groups set_groups]. intros (x & Hx & Hw & Hn) Hold.
  destruct (String.eqb_spec (grpID x) (grpID g)) as [He|Hne].
  - assert (x = g) as -> by (eapply NoDup_fmap_eq; [apply wf_groups, (ci_wf c Hi)|done..]). exists v.
    split; [by apply becomes_elem; left|]. rewrite Hold by congruence. split; congruence.
  - exists x. split; [apply becomes_elem; auto|done].
Qed.

Lemma new_name_free : grpPublicID v ∉ layerNames c (grpWorkspace g) ++ coverageNames c (grpWorkspace g).
Proof.
  rewrite elem_of_app. intros H. destruct Hname as [He|[Hf _]].
  - rewrite He in H. eapply group_name_fresh; [apply Hi|exact Hg|reflexivity|exact H].
  - apply Hf. apply elem_resourceNames. tauto.
Qed.

Lemma replaced_unique x y : x ∈ becomes g v <$> layer_groups c -> y ∈ becomes g v <$> layer_groups c ->
  grpWorkspace x = grpWorkspace y -> grpPublicID x = grpPublicID y -> x = y.
Proof.
  assert (Hv : forall y, y ∈ layer_groups c -> grpID y <> grpID g -> grpWorkspace y = grpWorkspace g -> grpPublicID y <> grpPublicID v).
  { intros z Hz Hne Hzw He. destruct Hname as [Hs|[Hf _]].
    - apply Hne. f_equal. apply (group_name_unique c); [apply Hi|done|done|done|congruence].
    - apply Hf. apply elem_resourceNames. right. right. apply elem_groupNames. eauto. }
  intros [->|[Hx Hxn]]%becomes_elem [->|[Hy Hyn]]%becomes_elem Hw Hn; [done|..].
  - exfalso. apply (Hv y); congruence.
  - exfalso. apply (Hv x); congruence.
  - by apply (group_name_unique c); [apply Hi|..].
Qed.

Lemma replaced_wf : wfCatalog c'.
Proof.
  destruct (ci_wf c Hi) as [A B C D E F]. split; try done; [by cbn; rewrite ids_kept|].
  assert (Hnd : NoDup (becomes g v <$> layer_groups c)) by (apply (NoDup_fmap_1 grpID); by rewrite ids_kept).
  intros ws. specialize (F ws). unfold resourceNames in F |- *. rewrite app_assoc in F |- *.
  apply NoDup_app in F as (F1 & F2 & _). apply NoDup_app. split; [done|]. split.
  - intros n Hn [Hg'|[-> ->]]%elem_replaced; [by apply (F2 n)|by apply new_name_free].
  - unfold groupNames. cbn. apply NoDup_fmap_2_strong; [|apply NoDup_ListNoDup, List.NoDup_filter, NoDup_ListNoDup, Hnd].
    intros x y [Hx Hxw%String.eqb_eq]%elem_of_Lfilter [Hy Hyw%String.eqb_eq]%elem_of_Lfilter Hn.
    apply replaced_unique; congruence.
Qed.

Lemma replace_group_inv : catInv c'.
Proof.
  assert (Hkeep : forall ws n, n ∈ resourceNames c ws ->
    (ws = grpWorkspace g -> n = grpPublicID g -> grpPublicID v = grpPublicID g) -> n ∈ resourceNames c' ws).
  { intros ws n. rewrite !elem_resourceNames. intros [?|[?|?]] Ho; [by left|right; by left|right; right; by apply replaced_elem]. }
  split; [apply replaced_wf|..].
  - intros x m Hx Hm. cbn in Hx. apply becomes_elem in Hx as [->|[Hx Hne]].
    + rewrite Hws. apply Hkeep; [by apply Hmem|]. intros _ ->. destruct Hname as [|(_ & _ & Hno)]; [done|by destruct Hno].
    + apply Hkeep; [by apply (ci_members c Hi)|]. intros Hw ->. destruct Hname as [|(_ & Hno & _)]; [done|by destruct (Hno x)].
  - intros w Hw Hd. destruct (ci_maps c Hi w Hw Hd) as (x & Hx & Hxi & Hxw).
    destruct (String.eqb_spec (grpID x) (grpID g)) as [He|Hne].
    + assert (x = g) as -> by (eapply NoDup_fmap_eq; [apply wf_groups, (ci_wf c Hi)|done..]). exists v. split; [by apply becomes_elem; left|].
      split; congruence.
    + exists x. split; [apply becomes_elem; auto|done].
  - intros o Ho Hu Hs. destruct (ci_operations c Hi o Ho Hu Hs) as [O1 O2 O3 O4 O5 O6]. split; try done.
    + intros x m Hx Hw Hm Hp. cbn in Hx. apply becomes_elem in Hx as [->|[Hx _]]; [|by eapply O4].
      destruct (Hops o Ho Hu) as [_ Hno]; [congruence|]. by destruct (Hno m Hm).
    + intros x Hx Hr. cbn in Hx. apply becomes_elem in Hx as [->|[Hx _]]; [|by apply O5]. rewrite Hid in Hr.
      destruct (O5 g Hg Hr) as [Hgw _]. destruct (Hops o Ho Hu) as [Hno _]; congruence.
Qed.
End ReplaceGroup.

Lemma CreateLayerGroup_inv id fails c ws pub members : catInv c -> id ∉ grpID <$> layer_groups c ->
  (forall o, o ∈ catalog_deletions c -> inRefs (LayerGroups (opPlan o)) id = false) ->
  pub ∉ resourceNames c ws -> (forall m, m ∈ members -> known c ws m) ->
  catInv (CreateLayerGroup id fails c ws pub members).2.
Proof.
  intros Hi Hid Hr Hn Hk. unfold CreateLayerGroup, execCapabilitiesMutation. destruct (validateGroupDeletionState _ _ _ _ _) eqn:Hv; [done|].
  destruct (negb _); [done|]. destruct (_ || _); [done|]. cbn [snd]. apply bump_inv, add_group_inv; try done.
  - intros m Hm. by eapply known_exists; [exact Hv|..|apply Hk].
  - intros o m Ho Hu Hw Hm. by apply (validateGroup_None c ws "" pub members o Hv Ho Hu Hw).
Qed.

Lemma UpdateLayerGroup_inv fails c id newPublicID newMembers : catInv c -> id <> "" ->
  (forall g pub, g ∈ layer_groups c -> grpID g = id -> newPublicID = Some pub -> pub <> grpPublicID g ->
     pub ∉ resourceNames c (grpWorkspace g) /\
     (forall g', g' ∈ layer_groups c -> grpWorkspace g' = grpWorkspace g -> grpPublicID g ∉ grpMembers g') /\
     forall members, newMembers = Some members -> grpPublicID g ∉ members) ->
  (forall g members m, g ∈ layer_groups c -> grpID g = id -> newMembers = Some members -> m ∈ members -> known c (grpWorkspace g) m) ->
  catInv (UpdateLayerGroup fails c id newPublicID newMembers).2.
Proof.
  intros Hi Hne Hpub Hmem. unfold UpdateLayerGroup, execCapabilitiesMutation.
  destruct (List.find _ (layer_groups c)) as [g|] eqn:Hf; [|done]. apply find_Some_elem in Hf as [Hg Hid%String.eqb_eq].
  set (v := mkGroupRow _ _ _ _). destruct (validateGroupDeletionState _ _ _ _ _) eqn:Hv; [done|].
  destruct (negb _); [done|]. destruct (_ || _); [done|]. cbn [snd]. apply bump_inv. subst id.
  apply (replace_group_inv c g v); try done.
  - destruct newPublicID as [pub|]; [|by left]. destruct (String.eqb_spec pub (grpPublicID g)) as [->|Hd]; [by left|].
    destruct (Hpub g pub Hg eq_refl eq_refl Hd) as (H1 & H2 & H3). right. split; [done|]. split; [done|].
    destruct newMembers as [members|]; [exact (H3 members eq_refl)|exact (H2 g Hg eq_refl)].
  - intros m Hm. destruct newMembers as [members|]; [|by apply (ci_members c Hi)].
    eapply known_exists; [exact Hv|done|]. by apply (Hmem g members).
  - intros o Ho Hu Hw. destruct (validateGroup_None c _ _ _ _ o Hv Ho Hu Hw) as (_ & H1 & H2). split; [by apply H2|done].
Qed.

Lemma DeleteLayerGroup_inv fails c id : catInv c ->
  (forall g g', g ∈ layer_groups c -> grpID g = id -> g' ∈ layer_groups c -> grpWorkspace g' = grpWorkspace g ->
     grpPublicID g ∉ grpMembers g') ->
  catInv (DeleteLayerGroup fails c id).2.
Proof.
  intros Hi Href. unfold DeleteLayerGroup, execCapabilitiesMutation. destruct (existsb _ _) eqn:Hm; [done|].
  destruct (List.find _ _) as [g|] eqn:Hf; [|done]. apply find_Some_elem in Hf as [Hg Hid%String.eqb_eq].
  destruct fails; [done|]. cbn [snd]. apply bump_inv. apply (shrinks_inv c); [done|..|].
  - split; cbn; try done; [apply keep_sublist|apply operations_same].
  - apply (wf_coverages c (ci_wf c Hi)).
  - intros x m Hx Hm'. cbn in Hx. apply elem_of_keep in Hx as [Hx Hxi%String.eqb_neq].
    pose proof (ci_members c Hi x m Hx Hm') as Hin. rewrite elem_resourceNames in Hin |- *. destruct Hin as [?|[?|Hin]]; [by left|right; by left|].
    right. right. rewrite elem_groupNames in Hin |- *. destruct Hin as (y & Hy & Hyw & Hyn). exists y. split; [|done].
    apply elem_of_keep. split; [done|]. apply String.eqb_neq. intros He. destruct (Href y x); congruence.
  - intros w Hw Hd. destruct (ci_maps c Hi w Hw Hd) as (y & Hy & Hyi & Hyw). exists y. split; [|done].
    apply elem_of_keep. split; [done|]. rewrite Hyi. rewrite existsb_none in Hm. by apply Hm.
Qed.

Lemma UpdateOGCTilesAPISettings_inv fails c ws gid : catInv c -> catInv (UpdateOGCTilesAPISettings fails c ws gid).2.
Proof.
  intros Hi. unfold UpdateOGCTilesAPISettings. destruct (validateDatasetMapSelection c ws gid) eqn:Hv; [done|].
  destruct fails; [done|]. destruct (negb _); [done|]. cbn [snd].
  assert (Hsel : forall w, w ∈ selectMap ws gid <$> workspaces c -> datasetMapLayerGroupID w <> "" ->
    (wsID w = ws /\ datasetMapLayerGroupID w = gid) \/ w ∈ workspaces c).
  { intros w (w0 & -> & Hw0)%list_elem_of_fmap. unfold selectMap. destruct (String.eqb_spec (wsID w0) ws); auto. }
  assert (Hgid : gid <> "" -> exists g, g ∈ layer_groups c /\ grpID g = gid /\ grpWorkspace g = ws /\
    forall o, o ∈ catalog_deletions c -> unfinished o = true -> opWorkspace o = ws -> inRefs (LayerGroups (opPlan o)) gid = false).
  { intros Hne. unfold validateDatasetMapSelection in Hv. apply String.eqb_neq in Hne as Hne'. rewrite Hne' in Hv.
    destruct (List.find _ _) as [g|] eqn:Hf; [|done]. apply find_Some_elem in Hf as [Hg Hid%String.eqb_eq].
    destruct (String.eqb_spec (grpWorkspace g) ws) as [Hw|]; [|done]. cbn [negb] in Hv.
    destruct (validateGroupDeletionState _ _ _ _ _) eqn:Hg'; [done|]. exists g. split_and!; [done..|]. intros o Ho Hu How.
    rewrite <- Hid. apply (validateGroup_None c _ _ _ _ o Hg' Ho Hu How). congruence. }
  destruct (ci_wf c Hi) as [A B C D E F]. split; [split; try done|apply (ci_members c Hi)|..].
  - cbn. replace (wsID <$> (selectMap ws gid <$> workspaces c)) with (wsID <$> workspaces c); [done|].
    rewrite <- list_fmap_compose. apply list_fmap_ext. intros i w _. cbn. unfold selectMap. by case_match.
  - intros w Hw Hd. destruct (Hsel w Hw Hd) as [[<- He]|Hw']; [|by apply (ci_maps c Hi)].
    rewrite He in *. destruct (Hgid Hd) as (g & ? & ? & ? & _). eauto.
  - intros o Ho Hu Hs. destruct (ci_operations c Hi o Ho Hu Hs) as [O1 O2 O3 O4 O5 O6]. split; try done.
    intros w Hw Hd. destruct (Hsel w Hw Hd) as [[Hws He]|Hw']; [|by apply O6]. rewrite He in *.
    destruct (Hgid Hd) as (g & Hg & Hid & Hgw & Hno). destruct (inRefs _ gid) eqn:Hr; [|done].
    rewrite <- Hid in Hr. destruct (O5 g Hg Hr) as [Hgo _]. rewrite <- Hr, Hid. apply (Hno o Ho Hu). congruence.
Qed.
