(* ===== verification/CatalogTheorems.v ===== *)
(** * Theorems on recursive deletions

    The plan of a deletion is an exact closure, and references in the catalog stay
    valid under every interleaving of the operations that read and write them. *)

From stdpp Require Import sorting.
From S2P Require Import Prelude GoText CatalogStore CatalogDeletion.

(** ** New rows *)

Lemma not_being_deleted c scope id o : beingDeleted c scope id = false -> o ∈ catalog_deletions c -> unfinished o = true ->
  opScope o = scope -> opTarget o <> id.
Proof.
  unfold beingDeleted. rewrite existsb_none. intros H Ho Hu Hs He. specialize (H o Ho).
  by rewrite Hu, He, String.eqb_refl, bool_decide_true in H.
Qed.

Lemma add_workspace_inv c w : catInv c -> wsID w ∉ wsID <$> workspaces c -> datasetMapLayerGroupID w = "" ->
  catInv (set_workspaces c (workspaces c ++ [w])).
Proof.
  intros Hi Hw Hd. destruct (ci_wf c Hi) as [A B C D E F]. split; [split; try done|apply (ci_members c Hi)|..].
  - cbn. rewrite fmap_app. by apply NoDup_snoc.
  - intros x [Hx|Hx%list_elem_of_singleton]%elem_of_app Hm; [by apply (ci_maps c Hi)|congruence].
  - intros o Ho Hu Hs. destruct (ci_operations c Hi o Ho Hu Hs) as [O1 O2 O3 O4 O5 O6]. split; try done.
    intros x [Hx|Hx%list_elem_of_singleton]%elem_of_app Hm; [by apply O6|congruence].
Qed.

Lemma owns_snoc c s ws id : ownsService (set_services c (services c ++ [s])) ws id
  = ownsService c ws id || (String.eqb (svcID s) id && String.eqb (svcWorkspace s) ws).
Proof. unfold ownsService. cbn. rewrite existsb_app. cbn. by rewrite orb_false_r. Qed.

Lemma add_service_inv c s : catInv c -> svcID s ∉ svcID <$> services c -> (forall l, l ∈ layers c -> layService l <> svcID s) ->
  (forall o, o ∈ catalog_deletions c -> opTarget o <> svcID s) -> catInv (set_services c (services c ++ [s])).
Proof.
  intros Hi Hs Hl Ho. destruct (ci_wf c Hi) as [A B C D E F].
  assert (Hn : forall ws, resourceNames (set_services c (services c ++ [s])) ws = resourceNames c ws).
  { intros ws. unfold resourceNames. f_equal. unfold layerNames. f_equal. cbn [layers set_services].
    apply List.filter_ext_in. intros l Hin%list_elem_of_In. rewrite owns_snoc.
    specialize (Hl l Hin). destruct (String.eqb_spec (svcID s) (layService l)); [congruence|]. by rewrite orb_false_r. }
  split; [split; try done|..].
  - cbn. rewrite fmap_app. by apply NoDup_snoc.
  - intros k Hk. rewrite owns_snoc. by rewrite E.
  - intros ws. by rewrite Hn.
  - intros g m Hg Hm. rewrite Hn. by apply (ci_members c Hi).
  - apply (ci_maps c Hi).
  - intros o Hin Hu Hsc. destruct (ci_operations c Hi o Hin Hu Hsc) as [O1 O2 O3 O4 O5 O6]. split; try done.
    intros x [Hx|Hx%list_elem_of_singleton]%elem_of_app He; [by apply O1|]. subst x. by destruct (Ho o Hin).
Qed.

(** A resource is added to a service that is not being deleted. *)
Lemma add_layer_inv c l s : catInv c -> GetService c (layService l) = Some s -> layPublicID l ∉ resourceNames c (svcWorkspace s) ->
  catInv (set_layers c (layers c ++ [l])).
Proof.
  intros Hi (Hs & Hid & Hd)%GetService_Some Hn. destruct (ci_wf c Hi) as [A B C D E F].
  assert (Hown : ownsService c (svcWorkspace s) (layService l) = true) by (apply ownsService_spec; eauto).
  assert (Hl : forall ws, layerNames (set_layers c (layers c ++ [l])) ws
    = layerNames c ws ++ (if ownsService c ws (layService l) then [layPublicID l] else [])).
  { intros ws. unfold layerNames. cbn [layers set_layers]. rewrite List.filter_app, fmap_app. f_equal. cbn [List.filter].
    change (ownsService (set_layers _ _) ws (layService l)) with (ownsService c ws (layService l)). by destruct (ownsService c ws (layService l)). }
  assert (Hmono : forall ws n, n ∈ resourceNames c ws -> n ∈ resourceNames (set_layers c (layers c ++ [l])) ws).
  { intros ws n. unfold resourceNames. rewrite Hl, !elem_of_app. intros [?|[?|?]]; tauto. }
  split; [split; try done|..].
  - intros ws. unfold resourceNames. rewrite Hl. destruct (ownsService c ws (layService l)) eqn:Ho; [|rewrite app_nil_r; apply F].
    assert (ws = svcWorkspace s) as -> by (eapply ownsService_unique; [apply Hi|done..]).
    rewrite <- app_assoc. rewrite (Permutation_app_comm [layPublicID l]), app_assoc. apply NoDup_snoc; [apply F|done].
  - intros g m Hg Hm. by apply Hmono, (ci_members c Hi).
  - apply (ci_maps c Hi).
  - intros o Hin Hu Hsc. destruct (ci_operations c Hi o Hin Hu Hsc) as [O1 O2 O3 O4 O5 O6]. split; try done.
    intros x [Hx|Hx%list_elem_of_singleton]%elem_of_app He; [by apply O2|]. subst x.
    exfalso. by apply (not_being_deleted c _ _ o Hd Hin Hu Hsc).
Qed.

Lemma add_coverage_inv c k s : catInv c -> GetService c (covService k) = Some s -> covWorkspace k = svcWorkspace s ->
  covPublicID k ∉ resourceNames c (svcWorkspace s) -> catInv (set_coverages c (coverages c ++ [k])).
Proof.
  intros Hi (Hs & Hid & Hd)%GetService_Some Hw Hn. destruct (ci_wf c Hi) as [A B C D E F].
  assert (Hl : forall ws, coverageNames (set_coverages c (coverages c ++ [k])) ws
    = coverageNames c ws ++ (if String.eqb (covWorkspace k) ws then [covPublicID k] else [])).
  { intros ws. unfold coverageNames. cbn. rewrite List.filter_app, fmap_app. f_equal. cbn. by destruct (String.eqb _ _). }
  assert (Hmono : forall ws n, n ∈ resourceNames c ws -> n ∈ resourceNames (set_coverages c (coverages c ++ [k])) ws).
  { intros ws n. unfold resourceNames. rewrite Hl, !elem_of_app. intros [?|[?|?]]; tauto. }
  split; [split; try done|..].
  - intros x [Hx|Hx%list_elem_of_singleton]%elem_of_app; [by apply E|]. subst x. apply ownsService_spec. exists s. split_and!; [done|congruence..].
  - intros ws. unfold resourceNames. rewrite Hl. destruct (String.eqb_spec (covWorkspace k) ws) as [He|]; [|rewrite app_nil_r; apply F].
    assert (ws = svcWorkspace s) as -> by congruence. rewrite <- app_assoc, (Permutation_app_comm [covPublicID k]), !app_assoc.
    apply NoDup_snoc; rewrite <- app_assoc; [apply F|exact Hn].
  - intros g m Hg Hm. by apply Hmono, (ci_members c Hi).
  - apply (ci_maps c Hi).
  - intros o Hin Hu Hsc. destruct (ci_operations c Hi o Hin Hu Hsc) as [O1 O2 O3 O4 O5 O6]. split; try done.
    intros x [Hx|Hx%list_elem_of_singleton]%elem_of_app He; [by apply O3|]. subst x.
    exfalso. by apply (not_being_deleted c _ _ o Hd Hin Hu Hsc).
Qed.

(** ** Deletions that are not recursive *)

Lemma nonEmpty_false {A} (l : list A) : nonEmpty l = false -> l = [].
Proof. by destruct l. Qed.

Lemma DeleteService_inv fails c id : catInv c -> catInv (DeleteService fails c id).2.
Proof.
  intros Hi. unfold DeleteService, execCapabilitiesMutation. destruct (GetService c id) as [s|] eqn:Hs; [|done].
  destruct (PlanServiceDeletion c (svcWorkspace s) id) as [p| |] eqn:Hp; try done. apply PlanServiceDeletion_spec in Hp.
  destruct (nonEmpty (Blockers p)); [done|]. destruct (HasDependencies p) eqn:Hd; [done|]. destruct fails; [done|]. cbn [snd].
  unfold HasDependencies in Hd. rewrite !orb_false_iff in Hd.
  assert (Layers p = [] /\ Coverages p = []) as [Hl Hk] by (split; apply nonEmpty_false; tauto). clear Hd.
  assert (Hlay : forall l, l ∈ layers c -> layService l <> id).
  { intros l Hin He. destruct (not_elem_of_nil (refOf "layer" "owned by service" (layID l) (layPublicID l))).
    rewrite <- Hl. apply (sp_layers _ _ _ _ Hp). unfold serviceLayers. apply list_elem_of_fmap. exists l. split; [done|].
    apply elem_of_Lfilter. by rewrite String.eqb_eq. }
  assert (Hcov : forall k, k ∈ coverages c -> covService k <> id).
  { intros k Hin He. destruct (not_elem_of_nil (refOf "coverage" "owned by service" (covID k) (covPublicID k))).
    rewrite <- Hk. apply (sp_coverages _ _ _ _ Hp). unfold serviceCoverages. apply list_elem_of_fmap. exists k. split; [done|].
    apply elem_of_Lfilter. by rewrite String.eqb_eq. }
  set (c' := set_services c (keep (fun s => String.eqb (svcID s) id) (services c))).
  assert (Hown : forall ws sid, sid <> id -> ownsService c ws sid = true -> ownsService c' ws sid = true).
  { intros ws sid Hne Ho. eapply owns_keep; [reflexivity|done|]. intros x _ <- _. by apply String.eqb_neq. }
  apply (bump_inv c'), (shrinks_inv c); [done|..].
  - split; cbn; try done; [apply keep_sublist|apply operations_same].
  - intros k Hin. apply Hown; [by apply Hcov|]. by apply (wf_coverages c (ci_wf c Hi)).
  - intros g m Hg Hm. pose proof (ci_members c Hi g m Hg Hm) as Hin. rewrite elem_resourceNames in Hin |- *.
    destruct Hin as [Hin|?]; [|by right]. left. rewrite elem_layerNames in Hin |- *. destruct Hin as (l & Hin & Ho & Hn).
    exists l. split_and!; [done|apply Hown; [by apply Hlay|done]|done].
  - apply (ci_maps c Hi).
Qed.

(** A resource that no group of its workspace contains. *)
Lemma DeleteLayer_inv fails c id : catInv c ->
  (forall l g, l ∈ layers c -> layID l = id -> g ∈ layer_groups c -> ownsService c (grpWorkspace g) (layService l) = true ->
     layPublicID l ∉ grpMembers g) ->
  catInv (DeleteLayer fails c id).2.
Proof.
  intros Hi Hfree. unfold DeleteLayer, execCapabilitiesMutation. destruct (_ ≫= _) as [s|]; [|done]. destruct fails; [done|].
  cbn [snd]. set (c' := set_layers c (keep (fun l => String.eqb (layID l) id) (layers c))). apply (bump_inv c'), (shrinks_inv c); [done|..].
  - split; cbn; try done; [apply keep_sublist|apply operations_same].
  - apply (wf_coverages c (ci_wf c Hi)).
  - intros g m Hg Hm. pose proof (ci_members c Hi g m Hg Hm) as Hin. rewrite elem_resourceNames in Hin |- *.
    destruct Hin as [Hin|?]; [|by right]. left. rewrite elem_layerNames in Hin |- *. destruct Hin as (l & Hin & Ho & Hn).
    exists l. split_and!; [|done|done]. apply elem_of_keep. split; [done|]. apply String.eqb_neq. intros Hid.
    apply (Hfree l g); [done|done|done|done|]. by rewrite Hn.
  - apply (ci_maps c Hi).
Qed.

Lemma DeleteCoverage_inv fails c id : catInv c ->
  (forall k g, k ∈ coverages c -> covID k = id -> g ∈ layer_groups c -> grpWorkspace g = covWorkspace k -> covPublicID k ∉ grpMembers g) ->
  catInv (DeleteCoverage fails c id).2.
Proof.
  intros Hi Hfree. unfold DeleteCoverage, execCapabilitiesMutation. destruct (List.find _ _) as [k0|]; [|done]. destruct fails; [done|].
  cbn [snd]. set (c' := set_coverages c (keep (fun k => String.eqb (covID k) id) (coverages c))). apply (bump_inv c'), (shrinks_inv c); [done|..].
  - split; cbn; try done; [apply keep_sublist|apply operations_same].
  - intros k [Hk _]%elem_of_keep. by apply (wf_coverages c (ci_wf c Hi)).
  - intros g m Hg Hm. pose proof (ci_members c Hi g m Hg Hm) as Hin. rewrite elem_resourceNames in Hin |- *.
    destruct Hin as [?|[Hin|?]]; [by left| |by right; right]. right. left. rewrite elem_coverageNames in Hin |- *. destruct Hin as (k & Hin & Ho & Hn).
    exists k. split_and!; [|done|done]. apply elem_of_keep. split; [done|]. apply String.eqb_neq. intros Hid.
    apply (Hfree k g); [done|done|done|done|]. by rewrite Hn.
  - apply (ci_maps c Hi).
Qed.

Lemma remove_workspace_inv c (p : WorkspaceRow -> bool) : catInv c -> catInv (set_workspaces c (keep p (workspaces c))).
Proof.
  intros Hi. apply (shrinks_inv c); [done|..].
  - split; cbn; try done; [apply fmap_sublist, keep_sublist|apply operations_same].
  - apply (wf_coverages c (ci_wf c Hi)).
  - apply (ci_members c Hi).
  - intros w [Hw _]%elem_of_keep Hd. by apply (ci_maps c Hi).
Qed.

Lemma DeleteWorkspace_inv fails failsLater c id : catInv c -> catInv (DeleteWorkspace fails failsLater c id).2.
Proof.
  intros Hi. unfold DeleteWorkspace. destruct (PlanWorkspaceDeletion c id); [done|]. destruct (HasDependencies _); [done|].
  destruct fails; [done|]. pose proof (remove_workspace_inv c (fun w => String.eqb (wsID w) id) Hi) as [A B C D].
  destruct failsLater; cbn [snd]; [done|]. split; [by destruct A|done|done|].
  intros o Ho Hu Hs. destruct (D o Ho Hu Hs). done.
Qed.

(** ** Every interleaving *)

(** What the callers check, in memory and before the statements, is part of a step: new identifiers
    are new, a group's new name is free, its old name is not used by a group, and its members are
    names the registry knows, or its own name from before a renaming, which the registry does not
    look up. The registry writes a group under its lock, but looks at the names and groups of a layer
    or coverage before the statement, without the lock. [strict] excludes the renamings that keep the
    old name as a member, and the layers and coverages for which what the registry saw no longer holds
    at the statement. The renaming of a layer or coverage is its removal and its addition. *)
Inductive catStep (strict : bool) (c : catalog) : catalog -> Prop :=
| step_begin now id fails plan : id ∉ opID <$> catalog_deletions c -> catStep strict c (BeginCatalogDeletion now id fails c plan).2
| step_update now fails id status phase msg : (forall o, GetCatalogDeletion c id = Some o -> unfinished o = true) ->
    catStep strict c (UpdateCatalogDeletion now fails c id status phase msg).2
| step_commit now fails id : catStep strict c (CommitCatalogDeletion now fails c id).2
| step_create_group id fails ws pub members : id ∉ grpID <$> layer_groups c ->
    (forall o, o ∈ catalog_deletions c -> inRefs (LayerGroups (opPlan o)) id = false) ->
    pub ∉ resourceNames c ws -> (forall m, m ∈ members -> known c ws m) ->
    catStep strict c (CreateLayerGroup id fails c ws pub members).2
| step_update_group fails id newPublicID newMembers : id <> "" ->
    (forall g pub, g ∈ layer_groups c -> grpID g = id -> newPublicID = Some pub -> pub <> grpPublicID g ->
       pub ∉ resourceNames c (grpWorkspace g) /\
       (forall g', g' ∈ layer_groups c -> grpWorkspace g' = grpWorkspace g -> grpPublicID g ∉ grpMembers g') /\
       (strict = true -> forall members, newMembers = Some members -> grpPublicID g ∉ members)) ->
    (forall g members m, g ∈ layer_groups c -> grpID g = id -> newMembers = Some members -> m ∈ members ->
       known c (grpWorkspace g) m) ->
    catStep strict c (UpdateLayerGroup fails c id newPublicID newMembers).2
| step_delete_group fails id :
    (forall g g', g ∈ layer_groups c -> grpID g = id -> g' ∈ layer_groups c -> grpWorkspace g' = grpWorkspace g ->
       grpPublicID g ∉ grpMembers g') ->
    catStep strict c (DeleteLayerGroup fails c id).2
| step_select_map fails ws gid : catStep strict c (UpdateOGCTilesAPISettings fails c ws gid).2
| step_delete_service fails id : catStep strict c (DeleteService fails c id).2
| step_delete_workspace fails failsLater id : catStep strict c (DeleteWorkspace fails failsLater c id).2
| step_add_workspace w : wsID w ∉ wsID <$> workspaces c -> datasetMapLayerGroupID w = "" ->
    catStep strict c (set_workspaces c (workspaces c ++ [w]))
| step_add_service s : svcID s ∉ svcID <$> services c -> (forall l, l ∈ layers c -> layService l <> svcID s) ->
    (forall o, o ∈ catalog_deletions c -> opTarget o <> svcID s) -> catStep strict c (set_services c (services c ++ [s]))
| step_add_layer l s : GetService c (layService l) = Some s -> (strict = true -> layPublicID l ∉ resourceNames c (svcWorkspace s)) ->
    catStep strict c (set_layers c (layers c ++ [l]))
| step_add_coverage k s : GetService c (covService k) = Some s -> covWorkspace k = svcWorkspace s ->
    (strict = true -> covPublicID k ∉ resourceNames c (svcWorkspace s)) -> catStep strict c (set_coverages c (coverages c ++ [k]))
| step_delete_layer fails id :
    (strict = true -> forall l g, l ∈ layers c -> layID l = id -> g ∈ layer_groups c ->
       ownsService c (grpWorkspace g) (layService l) = true -> layPublicID l ∉ grpMembers g) ->
    catStep strict c (DeleteLayer fails c id).2
| step_delete_coverage fails id :
    (strict = true -> forall k g, k ∈ coverages c -> covID k = id -> g ∈ layer_groups c ->
       grpWorkspace g = covWorkspace k -> covPublicID k ∉ grpMembers g) ->
    catStep strict c (DeleteCoverage fails c id).2.

Lemma catStep_inv c c' : catInv c -> catStep true c c' -> catInv c'.
Proof.
  intros Hi Hs. inversion Hs; subst; eauto using BeginCatalogDeletion_inv, UpdateCatalogDeletion_inv, CommitCatalogDeletion_inv, CreateLayerGroup_inv,
    DeleteLayerGroup_inv, UpdateOGCTilesAPISettings_inv, DeleteService_inv, DeleteWorkspace_inv,
    add_workspace_inv, add_service_inv, add_layer_inv, add_coverage_inv, DeleteLayer_inv, DeleteCoverage_inv.
  apply UpdateLayerGroup_inv; [done|done| |done]. intros g pub Hg Hid Hpub Hne.
  match goal with H : forall g pub, g ∈ _ -> _ |- _ => destruct (H g pub Hg Hid Hpub Hne) as (? & ? & ?) end. auto.
Qed.

Lemma catSteps_inv c c' : catInv c -> rtc (catStep true) c c' -> catInv c'.
Proof. intros Hi H. induction H as [|c1 c2 c3 Hs _ IH]; [done|]. by apply IH, (catStep_inv c1). Qed.


(** The plan of a service deletion is the exact closure. Planning ends, also when groups
    contain each other; the plan names precisely the layers and coverages of the service
    and every group that directly or through other groups contains one of them, and a
    group is planned exactly when one of its members is removed. *)
Theorem service_plan_closure c ws sid :
  wfCatalog c -> PlanServiceDeletion c ws sid <> PlanLoops /\
  forall p, PlanServiceDeletion c ws sid = Planned p ->
    (forall n, n ∈ planNames p <->
       removed (ListLayerGroups c ws) (refName <$> (serviceLayers c sid ++ serviceCoverages c sid)) n) /\
    (forall g, g ∈ layer_groups c -> grpWorkspace g = ws ->
       (inRefs (LayerGroups p) (grpID g) = true <-> exists m, m ∈ grpMembers g /\ m ∈ planNames p)).
Proof.
  intros Hw. destruct (PlanServiceDeletion_spec c ws sid) as [Hl Hp]. split; [done|]. intros p Hpl. apply Hp in Hpl.
  split; [apply (sp_names _ _ _ _ Hpl)|]. intros g Hg Hws. apply (servicePlan_groups c ws sid p g Hw Hpl Hg Hws).
Qed.

(** ** An example: a service with a layer, a group around it, and a group around the group *)

Definition demoCatalog : catalog :=
  mkCatalog [mkWorkspaceRow "w" "city" "" 0] [mkServiceRow "s" "w" "db"] [mkLayerRow "l" "s" "roads"] []
    [mkGroupRow "g1" "w" "base" ["roads"]; mkGroupRow "g2" "w" "all" ["base"]] [] [mkRuleRow "1" "p" "viewer" "w" "roads"]
    [] [] [] [] ["w"] [].

Lemma demoCatalog_wf : wfCatalog demoCatalog.
Proof.
  split; try (apply (bool_decide_unpack _); vm_compute; exact I); [by intros k ?%not_elem_of_nil|].
  intros ws. destruct (decide (ws = "w")) as [->|Hne]; [apply (bool_decide_unpack _); vm_compute; exact I|].
  assert (resourceNames demoCatalog ws = []) as ->; [|constructor]. apply elem_of_nil_inv. intros n.
  rewrite elem_resourceNames, elem_layerNames, elem_coverageNames, elem_groupNames. intros [(l & _ & Ho & _)|[(k & Hk & _)|(g & Hg & Hw & _)]].
  - apply ownsService_spec in Ho as (x & Hx & _ & Hw). apply list_elem_of_singleton in Hx as ->. by destruct Hne.
  - by apply not_elem_of_nil in Hk.
  - apply elem_of_cons in Hg as [->|Hg]; [by destruct Hne|]. apply list_elem_of_singleton in Hg as ->. by destruct Hne.
Qed.

Lemma demoCatalog_inv : catInv demoCatalog.
Proof.
  split; [apply demoCatalog_wf|..|by intros o ?%not_elem_of_nil].
  - intros g m [->|[->|?%not_elem_of_nil]%elem_of_cons]%elem_of_cons Hm; [..|done];
      apply list_elem_of_singleton in Hm as ->; apply (bool_decide_unpack _); vm_compute; exact I.
  - intros w Hw Hd. apply list_elem_of_singleton in Hw as ->. by destruct Hd.
Qed.

Definition demoPlan : DeletionPlan :=
  match PlanServiceDeletion demoCatalog "w" "s" with
  | Planned p => p
  | _ => mkPlan [] DeletionScopeService "" (refOf "" "" "" "") [] [] [] [] [] [] [] [] [] [] noAuxiliary
  end.

Definition demoBegun : catalog := (BeginCatalogDeletion 1 "op" false demoCatalog demoPlan).2.
Definition demoCommitted : catalog := (CommitCatalogDeletion 2 false demoBegun "op").2.


(** A group that is renamed and keeps its old name as a member: the member no longer exists. *)
Definition renamed : catalog := (UpdateLayerGroup false demoCatalog "g2" (Some "every") (Some ["all"])).2.

Example rename_keeps_old_name : catStep false demoCatalog renamed /\ ~ membersExist renamed.
Proof.
  split.
  - apply (step_update_group false demoCatalog); [done|..].
    + intros g pub Hg Hid [= <-] _. apply elem_of_cons in Hg as [->|Hg]; [done|]. apply list_elem_of_singleton in Hg as ->.
      split_and!; [apply (bool_decide_unpack _); vm_compute; exact I| |done].
      intros g' [->|[->|?%not_elem_of_nil]%elem_of_cons]%elem_of_cons _; [..|done]; apply (bool_decide_unpack _); vm_compute; exact I.
    + intros g members m Hg Hid [= <-] Hm. apply elem_of_cons in Hg as [->|Hg]; [done|]. apply list_elem_of_singleton in Hg as ->.
      apply list_elem_of_singleton in Hm as ->. left. apply (bool_decide_unpack _). vm_compute. exact I.
  - intros Hm. specialize (Hm (mkGroupRow "g2" "w" "every" ["all"]) "all"). revert Hm. cbn -[renamed resourceNames]. intros Hm.
    assert (Hin : "all" ∈ resourceNames renamed "w") by (apply Hm; [apply list_elem_of_In; vm_compute; auto|by left]).
    revert Hin. apply (bool_decide_unpack _). vm_compute. exact I.
Qed.

(** A group takes up a layer that was not in use when its removal was checked. *)
Definition twoLayers : catalog := set_layers demoCatalog (layers demoCatalog ++ [mkLayerRow "l2" "s" "rivers"]).
Definition overtaken : catalog :=
  (DeleteLayer false (CreateLayerGroup "g3" false twoLayers "w" "water" ["rivers"]).2 "l2").2.

Example removal_overtaken :
  catInv twoLayers /\ rtc (catStep false) twoLayers overtaken /\ "rivers" ∈ concat (grpMembers <$> layer_groups overtaken)
  /\ "rivers" ∉ resourceNames overtaken "w".
Proof.
  split_and!.
  - eapply add_layer_inv; [apply demoCatalog_inv|vm_compute; reflexivity|]. apply (bool_decide_unpack _). vm_compute. exact I.
  - eapply rtc_l; [|apply rtc_once, (step_delete_layer false _ false "l2"); done].
    apply step_create_group; [apply (bool_decide_unpack _); vm_compute; exact I|by intros o ?%not_elem_of_nil|
      apply (bool_decide_unpack _); vm_compute; exact I|].
    intros m ->%list_elem_of_singleton. left. apply (bool_decide_unpack _). vm_compute. exact I.
  - apply (bool_decide_unpack _). vm_compute. exact I.
  - apply (bool_decide_unpack _). vm_compute. exact I.
Qed.

Lemma service_plan_closure_witness :
  removed (ListLayerGroups demoCatalog "w") ["roads"] "all" /\ inRefs (LayerGroups demoPlan) "g2" = true.
Proof.
  destruct (service_plan_closure demoCatalog "w" "s" demoCatalog_wf) as [_ H].
  destruct (H demoPlan) as [Hn Hg]; [vm_compute; reflexivity|]. split.
  - apply (Hn "all"). apply (bool_decide_unpack _). vm_compute. exact I.
  - vm_compute. reflexivity.
Defined.
