(* ===== verification/DeletionCoordinator.v ===== *)
(** * The coordinator of catalog deletions ([internal/cataloglifecycle/coordinator.go], [assets.go])

    A deletion removes state of the tile jobs, the STAC and mosaic catalogs, the tile
    cache, two directory trees, the catalog and the running process. Each call to one
    of them takes its fate from a list: it works, it fails, or the process dies before
    it. The four auxiliary stores are known by the class [Lifecycle] only. *)

From S2P Require Import Prelude GoText GoPath CatalogStore.

(** ** What the coordinator expects of an auxiliary store

    [lcRemove workspace ids]: [QuiesceLifecycle], [QuiesceAndDeleteLifecycle] or
    [PurgeLifecycle]; no identifiers stand for the whole workspace. *)
Class Lifecycle (S : Type) := {
  lcRemove : string -> list string -> S -> option string * S;
  lcOwned : string -> list string -> S -> Prop;
  lcInv : S -> Prop;
  lcScope : string -> Prop
}.

Class LifecycleLaws (S : Type) `{Lifecycle S} := {
  lc_inv workspace ids s : lcScope workspace -> lcInv s -> lcInv (lcRemove workspace ids s).2;
  lc_removed workspace ids s s' : lcScope workspace -> lcInv s -> lcRemove workspace ids s = (None, s') -> ~ lcOwned workspace ids s'
}.

(** A dependency that is [nil]. *)
#[export] Instance absentLifecycle : Lifecycle unit :=
  {| lcRemove _ _ s := (None, s); lcOwned _ _ _ := False; lcInv _ := True; lcScope _ := True |}.
#[export] Instance absentLaws : LifecycleLaws unit.
Proof. split; [done|]. intros ws ids s s' _ _ _ Ho. exact Ho. Qed.

(** ** State *)

Record ManagedAsset : Type := mkAsset { ImportID : string; assetWorkspace : string; assetService : string; Path : string }.

#[export] Instance ManagedAsset_eq : EqDecision ManagedAsset. Proof. solve_decision. Defined.

Inductive fileKind : Type := Directory | OtherFile.
#[export] Instance fileKind_eq : EqDecision fileKind. Proof. solve_decision. Defined.

(** What requests see: the services of the live workspaces, the WFS state and the cached
    responses by workspace, the policies of the enforcer. *)
Record runtime : Type := mkRuntime {
  registry : gmap string (gset string); wfsWorkspaces : gset string; cachedWorkspaces : gset string; livePolicies : list RuleRow }.

Inductive fate : Type := Works | Fails | Dies.

Record world {J S M T : Type} : Type := mkWorld {
  cat : catalog; managed_assets : list ManagedAsset; importFiles : gset string; styleDirs : gmap string fileKind;
  tileJobs : J; stac : S; mosaic : M; tileCache : T; live : runtime; fates : list fate }.
Arguments world : clear implicits.
Arguments mkWorld {J S M T}.

Inductive assetError : Type := InvalidIdentifier | LstatFailed | NotADirectory | BothExist | MkdirFailed | RenameFailed.

Inductive lifecycleError : Type :=
| QuiesceTileJobs (e : string)
| RemoveSTAC (e : string)
| RemoveMosaic (e : string)
| RemoveTileCache (e : string)
| StageStyleAssets (e : assetError)
| InspectManagedImport
| StageManagedImport
| StatManagedImport
| CatalogFailed (e : storeError)
| CommitFailed (e : storeError)
| RemoveManagedImport
| RemoveManagedMetadata
| RemoveStagedAssets.

(** A call returns, fails with its error, or the process ends. *)
Inductive result (A : Type) : Type :=
| Done (a : A)
| Failed (e : lifecycleError)
| Died.
Arguments Done {A} a.
Arguments Failed {A} e.
Arguments Died {A}.

(** ** Plans *)

Definition planResources (p : DeletionPlan) : list DeletionRef := Layers p ++ Coverages p ++ LayerGroups p.
Definition deletionResourceIDs (p : DeletionPlan) : list string := refID <$> planResources p.
Definition deletionResourceNames (p : DeletionPlan) : list string := refName <$> planResources p.

Definition deletionServiceIDs (p : DeletionPlan) : list string :=
  match Scope p with
  | DeletionScopeService => [refID (Target p)]
  | DeletionScopeWorkspace => refID <$> Services p
  end.

Definition resourceIDsForScope (p : DeletionPlan) (ids : list string) : list string :=
  match Scope p with DeletionScopeWorkspace => [] | DeletionScopeService => ids end.
Definition servicesForScope (p : DeletionPlan) (ids : list string) : list string :=
  match Scope p with DeletionScopeWorkspace => [] | DeletionScopeService => ids end.

(** ** The running process *)

(** [Registry.Remove]; it invalidates the responses of the workspace, too. *)
Definition registryRemove (workspaceID : string) (r : runtime) : runtime :=
  mkRuntime (delete workspaceID (registry r)) (wfsWorkspaces r) (cachedWorkspaces r ∖ {[workspaceID]}) (livePolicies r).

(** [Registry.QuiesceService]; an unknown workspace or service is no failure here. *)
Definition QuiesceService (workspaceID serviceID : string) (r : runtime) : runtime :=
  match registry r !! workspaceID with
  | None => r
  | Some services =>
      if bool_decide (serviceID ∈ services)
      then mkRuntime (<[workspaceID := services ∖ {[serviceID]}]> (registry r)) (wfsWorkspaces r)
             (cachedWorkspaces r ∖ {[workspaceID]}) (livePolicies r)
      else r
  end.

Definition quiesceRuntime (p : DeletionPlan) (r : runtime) : runtime :=
  match Scope p with
  | DeletionScopeWorkspace => registryRemove (planWorkspace p) r
  | DeletionScopeService => QuiesceService (planWorkspace p) (refID (Target p)) r
  end.

(** The policies that the enforcer drops. *)
Definition planPolicy (p : DeletionPlan) (rule : RuleRow) : bool :=
  String.eqb (rulV1 rule) (planWorkspace p)
  && match Scope p with
     | DeletionScopeWorkspace => true
     | DeletionScopeService => bool_decide (rulV2 rule ∈ deletionResourceNames p)
     end.

Section Coordinator.
Context {J S M T : Type} `{Lifecycle J} `{Lifecycle S} `{Lifecycle M} `{Lifecycle T}.
(** The directory of style assets (absolute), the text of an error. *)
Context (StyleAssetRoot : string) (message : lifecycleError -> string).

Local Abbreviation world := (world J S M T).

Definition job (A : Type) : Type := world -> result A * world.

#[export] Instance job_ret : MRet job := fun A a w => (Done a, w).

#[export] Instance job_bind : MBind job := fun A B k c w =>
  match c w with
  | (Done a, w') => k a w'
  | (Failed e, w') => (Failed e, w')
  | (Died, w') => (Died, w')
  end.

Definition fails {A} (e : lifecycleError) : job A := fun w => (Failed e, w).
Definition reads {A} (f : world -> A) : job A := fun w => (Done (f w), w).
Definition modify (f : world -> world) : job unit := fun w => (Done tt, f w).

Definition set_cat (c : catalog) (w : world) : world :=
  mkWorld c (managed_assets w) (importFiles w) (styleDirs w) (tileJobs w) (stac w) (mosaic w) (tileCache w) (live w) (fates w).
Definition set_managed (a : list ManagedAsset) (w : world) : world :=
  mkWorld (cat w) a (importFiles w) (styleDirs w) (tileJobs w) (stac w) (mosaic w) (tileCache w) (live w) (fates w).
Definition set_files (f : gset string) (w : world) : world :=
  mkWorld (cat w) (managed_assets w) f (styleDirs w) (tileJobs w) (stac w) (mosaic w) (tileCache w) (live w) (fates w).
Definition set_dirs (d : gmap string fileKind) (w : world) : world :=
  mkWorld (cat w) (managed_assets w) (importFiles w) d (tileJobs w) (stac w) (mosaic w) (tileCache w) (live w) (fates w).
Definition set_tileJobs (j : J) (w : world) : world :=
  mkWorld (cat w) (managed_assets w) (importFiles w) (styleDirs w) j (stac w) (mosaic w) (tileCache w) (live w) (fates w).
Definition set_stac (s : S) (w : world) : world :=
  mkWorld (cat w) (managed_assets w) (importFiles w) (styleDirs w) (tileJobs w) s (mosaic w) (tileCache w) (live w) (fates w).
Definition set_mosaic (m : M) (w : world) : world :=
  mkWorld (cat w) (managed_assets w) (importFiles w) (styleDirs w) (tileJobs w) (stac w) m (tileCache w) (live w) (fates w).
Definition set_tileCache (t : T) (w : world) : world :=
  mkWorld (cat w) (managed_assets w) (importFiles w) (styleDirs w) (tileJobs w) (stac w) (mosaic w) t (live w) (fates w).
Definition set_live (r : runtime) (w : world) : world :=
  mkWorld (cat w) (managed_assets w) (importFiles w) (styleDirs w) (tileJobs w) (stac w) (mosaic w) (tileCache w) r (fates w).
Definition set_fates (f : list fate) (w : world) : world :=
  mkWorld (cat w) (managed_assets w) (importFiles w) (styleDirs w) (tileJobs w) (stac w) (mosaic w) (tileCache w) (live w) f.

(** The fate of the next call: [true] when it fails. *)
Definition nextFate : job bool := fun w =>
  match fates w with
  | [] => (Done false, w)
  | Works :: rest => (Done false, set_fates rest w)
  | Fails :: rest => (Done true, set_fates rest w)
  | Dies :: rest => (Died, set_fates rest w)
  end.

(** A continuation that looks at the whole state. *)
Definition inWorld {A} (k : world -> result A * world) : job A := k.

(** *** Calls *)

(** A statement of the catalog: [c] gets whether it fails. *)
Definition statement (wrap : storeError -> lifecycleError) (c : bool -> catalog -> option storeError * catalog) : job unit :=
  nextFate ≫= fun f : bool => inWorld (fun w =>
  match c f (cat w) with
  | (None, k) => (Done tt, set_cat k w)
  | (Some e, k) => (Failed (wrap e), set_cat k w)
  end).

Definition progress (now : Z) (id : string) (status : DeletionStatus) (phase : DeletionPhase) (text : string) : job unit :=
  statement CatalogFailed (fun f c => UpdateCatalogDeletion now f c id status phase text).

Definition commit (now : Z) (id : string) : job unit :=
  statement CommitFailed (fun f c => CommitCatalogDeletion now f c id).

(** A call to an auxiliary store. *)
Definition removeFrom {X} `{Lifecycle X} (get : world -> X) (set : X -> world -> world) (wrap : string -> lifecycleError)
    (workspaceID : string) (ids : list string) : job unit := fun w =>
  match lcRemove workspaceID ids (get w) with
  | (None, x) => (Done tt, set x w)
  | (Some e, x) => (Failed (wrap e), set x w)
  end.

(** *** Style assets *)

Definition hasSeparator (s : string) : bool := has_byte "/" s || has_byte "\" s.

Definition paths (operationID workspaceID : string) : assetError + string * string :=
  if hasSeparator workspaceID || hasSeparator operationID then inl InvalidIdentifier
  else inr (JoinPath StyleAssetRoot workspaceID, JoinPath (JoinPath StyleAssetRoot ".deleting") operationID).

Definition assetFailure {A} (e : assetError) : job A := fails (StageStyleAssets e).

(** [os.Lstat]: the error that is not [ErrNotExist], or what is there. *)
Definition lstat (path : string) : job (option (option fileKind)) :=
  nextFate ≫= fun f : bool => if f then mret None else reads (fun w => Some (styleDirs w !! path)).

Definition Stage (operationID workspaceID : string) : job unit :=
  match paths operationID workspaceID with
  | inl e => assetFailure e
  | inr (source, staged) =>
      lstat source ≫= fun sourceInfo => lstat staged ≫= fun stagedInfo =>
      match sourceInfo, stagedInfo with
      | Some None, Some _ => mret tt
      | Some None, None => assetFailure LstatFailed
      | None, _ => assetFailure LstatFailed
      | Some (Some OtherFile), _ => assetFailure NotADirectory
      | Some (Some Directory), Some (Some _) => assetFailure BothExist
      | Some (Some Directory), None => assetFailure LstatFailed
      | Some (Some Directory), Some None =>
          nextFate ≫= fun f : bool => if f then assetFailure MkdirFailed else
          nextFate ≫= fun f : bool => if f then assetFailure RenameFailed else
          modify (fun w => set_dirs (<[staged := Directory]> (delete source (styleDirs w))) w)
      end
  end.

(** [os.RemoveAll]. *)
Definition RemoveStaged (operationID : string) : job unit :=
  match paths operationID "unused" with
  | inl _ => fails RemoveStagedAssets
  | inr (_, staged) =>
      nextFate ≫= fun f : bool => if f then fails RemoveStagedAssets else
      modify (fun w => set_dirs (delete staged (styleDirs w)) w)
  end.

(** *** Managed import files *)

Definition stagedPath (operationID : string) (a : ManagedAsset) : string := Path a +:+ ".deleting-" +:+ operationID.

Definition GetManagedAssetByService (serviceID : string) : job (option ManagedAsset) :=
  nextFate ≫= fun f : bool => if f then fails InspectManagedImport
  else reads (fun w => find (fun a => String.eqb (assetService a) serviceID) (managed_assets w)).

(** [os.Rename] of a file that exists. *)
Definition moveFile (from to : string) (w : world) : world := set_files ({[to]} ∪ importFiles w ∖ {[from]}) w.

Fixpoint restoreManagedImports (operationID : string) (assets : list ManagedAsset) : job unit :=
  match assets with
  | [] => mret tt
  | a :: rest =>
      nextFate ≫= fun f : bool =>
      (if f then mret tt
       else modify (fun w => if bool_decide (stagedPath operationID a ∈ importFiles w)
                             then moveFile (stagedPath operationID a) (Path a) w else w)) ≫= fun _ =>
      restoreManagedImports operationID rest
  end.

Definition restoring {A} (operationID : string) (assets : list ManagedAsset) (e : lifecycleError) : job A :=
  restoreManagedImports operationID assets ≫= fun _ => fails e.

(** The file of one asset is under its staged name, or gone after a commit. *)
Definition stageOne (operationID : string) (catalogCommitted : bool) (assets : list ManagedAsset) (a : ManagedAsset) : job unit :=
  nextFate ≫= fun statFails : bool =>
  if statFails then restoring operationID assets StatManagedImport
  else
    reads (fun w => bool_decide (stagedPath operationID a ∈ importFiles w)) ≫= fun there : bool =>
    if there then mret tt
    else
      nextFate ≫= fun renameFails : bool =>
      if renameFails then restoring operationID assets StageManagedImport
      else
        reads (fun w => bool_decide (Path a ∈ importFiles w)) ≫= fun present : bool =>
        if present then modify (moveFile (Path a) (stagedPath operationID a))
        else if catalogCommitted then mret tt
        else restoring operationID assets StageManagedImport.

Fixpoint stageManagedImports (operationID : string) (serviceIDs : list string) (catalogCommitted : bool) (assets : list ManagedAsset)
    : job (list ManagedAsset) :=
  match serviceIDs with
  | [] => mret assets
  | serviceID :: rest =>
      GetManagedAssetByService serviceID ≫= fun found =>
      match found with
      | None => stageManagedImports operationID rest catalogCommitted assets
      | Some a =>
          stageOne operationID catalogCommitted assets a ≫= fun _ =>
          stageManagedImports operationID rest catalogCommitted (assets ++ [a])
      end
  end.

Fixpoint removeManagedImports (operationID : string) (assets : list ManagedAsset) : job unit :=
  match assets with
  | [] => mret tt
  | a :: rest =>
      nextFate ≫= fun f : bool => if f then fails RemoveManagedImport else
      modify (fun w => set_files (importFiles w ∖ {[stagedPath operationID a]}) w) ≫= fun _ =>
      nextFate ≫= fun f : bool => if f then fails RemoveManagedMetadata else
      modify (fun w => set_managed (keep (fun b => String.eqb (ImportID b) (ImportID a)) (managed_assets w)) w) ≫= fun _ =>
      removeManagedImports operationID rest
  end.

(** *** The deletion *)

(** The enforcer's error is only logged. *)
Definition clearRuntime (p : DeletionPlan) : job unit :=
  modify (fun w => set_live (quiesceRuntime p (live w)) w) ≫= fun _ =>
  modify (fun w => let r := live w in
    set_live (mkRuntime (registry r) (wfsWorkspaces r ∖ {[planWorkspace p]}) (cachedWorkspaces r ∖ {[planWorkspace p]})
                (livePolicies r)) w) ≫= fun _ =>
  nextFate ≫= fun f : bool =>
  if f then mret tt
  else modify (fun w => let r := live w in
         set_live (mkRuntime (registry r) (wfsWorkspaces r) (cachedWorkspaces r) (keep (planPolicy p) (livePolicies r))) w).

Definition onlyWorkspace (p : DeletionPlan) (c : job unit) : job unit :=
  match Scope p with DeletionScopeWorkspace => c | DeletionScopeService => mret tt end.

Definition committedPhase (phase : DeletionPhase) : bool :=
  bool_decide (phase = DeletionPhaseCatalogCommitted) || bool_decide (phase = DeletionPhaseRuntimeCleared).

(** The part of [execute] before the managed files. *)
Definition removeAuxiliary (now : Z) (operation : DeletionOperation) : job unit :=
  let p := opPlan operation in
  let resources := resourceIDsForScope p (deletionResourceIDs p) in
  let services := servicesForScope p (deletionServiceIDs p) in
  modify (fun w => set_live (quiesceRuntime p (live w)) w) ≫= fun _ =>
  removeFrom tileJobs set_tileJobs QuiesceTileJobs (planWorkspace p) resources ≫= fun _ =>
  progress now (opID operation) DeletionRunning DeletionPhaseJobsQuiesced "" ≫= fun _ =>
  removeFrom stac set_stac RemoveSTAC (planWorkspace p) services ≫= fun _ =>
  removeFrom mosaic set_mosaic RemoveMosaic (planWorkspace p) services ≫= fun _ =>
  removeFrom tileCache set_tileCache RemoveTileCache (planWorkspace p) resources ≫= fun _ =>
  onlyWorkspace p (Stage (opID operation) (planWorkspace p)).

(** A failed commit puts the staged files back. *)
Definition commitOrRestore (now : Z) (id : string) (assets : list ManagedAsset) : job unit := fun w =>
  match commit now id w with
  | (Failed e, w') => restoring id assets e w'
  | r => r
  end.

Definition finish (now : Z) (operation : DeletionOperation) (assets : list ManagedAsset) : job unit :=
  removeManagedImports (opID operation) assets ≫= fun _ =>
  onlyWorkspace (opPlan operation) (RemoveStaged (opID operation)) ≫= fun _ =>
  clearRuntime (opPlan operation) ≫= fun _ =>
  progress now (opID operation) DeletionRunning DeletionPhaseRuntimeCleared "" ≫= fun _ =>
  progress now (opID operation) DeletionCompleted DeletionPhaseCompleted "".

Definition execute (now : Z) (operation : DeletionOperation) : job unit :=
  removeAuxiliary now operation ≫= fun _ =>
  stageManagedImports (opID operation) (deletionServiceIDs (opPlan operation)) (committedPhase (opPhase operation)) [] ≫= fun assets =>
  progress now (opID operation) DeletionRunning DeletionPhaseAuxiliaryRemoved "" ≫= fun _ =>
  commitOrRestore now (opID operation) assets ≫= fun _ =>
  finish now operation assets.

Definition truncated (text : string) : string := stake 2048 text.

(** The goroutine of [start]: a failure is recorded with the phase that was reached. *)
Definition recordFailure (now : Z) (operation : DeletionOperation) (e : lifecycleError) : job unit :=
  nextFate ≫= fun f : bool =>
  reads (fun w => match GetCatalogDeletion (cat w) (opID operation) with
                  | Some current => if f then opPhase operation else opPhase current
                  | None => opPhase operation
                  end) ≫= fun phase => inWorld (fun w =>
  match progress now (opID operation) DeletionFailed phase (truncated (message e)) w with
  | (Failed _, w') => (Done tt, w')
  | r => r
  end).

Definition attempt (now : Z) (operation : DeletionOperation) : job unit := fun w =>
  match execute now operation w with
  | (Failed e, w') => recordFailure now operation e w'
  | r => r
  end.

Definition withProgress (status : DeletionStatus) (phase : DeletionPhase) (o : DeletionOperation) : DeletionOperation :=
  mkOperation (opID o) (opScope o) (opWorkspace o) (opTarget o) (opTargetName o) (opActive o) status phase (opPlan o)
    "" (opAttempts o) (opCreatedAt o) (opUpdatedAt o) (opCompletedAt o).

(** [begin], with the attempt it starts. *)
Definition begin (now : Z) (id : string) (p : DeletionPlan) : job unit :=
  nextFate ≫= fun f : bool => inWorld (fun w =>
  match BeginCatalogDeletion now id f (cat w) p with
  | (inl e, c) => (Failed (CatalogFailed e), set_cat c w)
  | (inr (op, _), c) =>
      (modify (fun w => set_live (quiesceRuntime (opPlan op) (live w)) w) ≫= fun _ =>
       progress now (opID op) DeletionRunning DeletionPhaseTombstoned "" ≫= fun _ =>
       attempt now (withProgress DeletionRunning DeletionPhaseTombstoned op)) (set_cat c w)
  end).

Definition Retry (now : Z) (operationID : string) : job unit :=
  nextFate ≫= fun f : bool =>
  if f then fails (CatalogFailed StatementFailed) else
  reads (fun w => GetCatalogDeletion (cat w) operationID) ≫= fun found =>
  match found with
  | None => fails (CatalogFailed ErrNotFound)
  | Some op =>
      if bool_decide (opStatus op = DeletionCompleted) then mret tt
      else progress now (opID op) DeletionRunning (opPhase op) "" ≫= fun _ =>
           attempt now (withProgress DeletionRunning (opPhase op) op)
  end.

(** The attempts that [Recover] starts, one after the other. *)
Fixpoint resume (now : Z) (operations : list DeletionOperation) : job unit :=
  match operations with
  | [] => mret tt
  | op :: rest =>
      modify (fun w => set_live (quiesceRuntime (opPlan op) (live w)) w) ≫= fun _ =>
      attempt now op ≫= fun _ => resume now rest
  end.

Definition Recover (now : Z) : job unit :=
  nextFate ≫= fun f : bool =>
  if f then fails (CatalogFailed StatementFailed)
  else reads (fun w => ListPendingCatalogDeletions (cat w)) ≫= resume now.

End Coordinator.
