(* ===== verification/DeletionCorrect.v ===== *)
(** * Correctness of the deletion coordinator: the parts

    Rules for the coordinator's monad, and what each part of an attempt does to the
    catalog, the files and the stores, on every fate of its calls. *)

From stdpp Require Import relations.
From S2P Require Import Prelude GoText GoPath CatalogStore CatalogDeletion CatalogTheorems DeletionCoordinator.

(** ** Operations in the table *)

Definition follows (o cur : DeletionOperation) : Prop :=
  opScope cur = Scope (opPlan o) /\ opWorkspace cur = planWorkspace (opPlan o) /\ opTarget cur = refID (Target (opPlan o))
  /\ opPlan cur = opPlan o.

(** The row of [o] is unfinished and in a phase of [P]. *)
Definition tracked (o : DeletionOperation) (P : DeletionPhase -> Prop) (c : catalog) : Prop :=
  exists cur, GetCatalogDeletion c (opID o) = Some cur /\ unfinished cur = true /\ P (opPhase cur) /\ follows o cur.

Definition completed (o : DeletionOperation) (c : catalog) : Prop :=
  exists cur, GetCatalogDeletion c (opID o) = Some cur /\ opStatus cur = DeletionCompleted /\ opActive cur = false /\ follows o cur.

Lemma tracked_mono o (P P' : DeletionPhase -> Prop) c : tracked o P c -> (forall ph, P ph -> P' ph) -> tracked o P' c.
Proof. intros (cur & Hg & Hu & Hp & Hf) Hm. exists cur. auto. Qed.

Lemma Get_onOperation f id c : (forall x, opID (f x) = opID x) ->
  GetCatalogDeletion (set_deletions c (onOperation f id (catalog_deletions c))) id = f <$> GetCatalogDeletion c id.
Proof.
  intros Hf. unfold GetCatalogDeletion, onOperation. cbn [catalog_deletions set_deletions].
  induction (catalog_deletions c) as [|x l IH]; [done|]. rewrite fmap_cons. cbn [List.find].
  destruct (String.eqb (opID x) id) eqn:Hx; [by rewrite Hf, Hx|]. by rewrite Hx.
Qed.

Lemma update_found now c id status phase text cur : GetCatalogDeletion c id = Some cur ->
  UpdateCatalogDeletion now false c id status phase text
  = (None, set_deletions c (onOperation (updateOperation now status phase text) id (catalog_deletions c))).
Proof. intros H. unfold UpdateCatalogDeletion. by rewrite H. Qed.

Lemma update_tracked o P now c status phase text : tracked o P c -> status <> DeletionCompleted ->
  tracked o (eq phase) (set_deletions c (onOperation (updateOperation now status phase text) (opID o) (catalog_deletions c))).
Proof.
  intros (cur & Hg & Hu & _ & Hf) Hs. exists (updateOperation now status phase text cur).
  rewrite Get_onOperation, Hg by done. split; [done|]. split; [|done].
  unfold unfinished. cbn. by rewrite bool_decide_false.
Qed.

(** The rows that belong to the target are gone. *)
Definition none {A} (p : A -> bool) (l : list A) : Prop := forall x, x ∈ l -> p x = false.

Definition catalogGone (p : DeletionPlan) (c : catalog) : Prop :=
  match Scope p with
  | DeletionScopeService =>
      none (fun s => String.eqb (svcID s) (refID (Target p)) && String.eqb (svcWorkspace s) (planWorkspace p)) (services c)
      /\ none (fun l => String.eqb (layService l) (refID (Target p))) (layers c)
      /\ none (fun k => String.eqb (covService k) (refID (Target p))) (coverages c)
      /\ none (fun g => inRefs (LayerGroups p) (grpID g)) (layer_groups c)
      /\ none (fun q => inRefs (StoredQueries p) (qryID q)) (wfs_stored_queries c)
      /\ none (fun r => String.eqb (rulV1 r) (planWorkspace p) && bool_decide (rulV2 r ∈ planNames p)) (casbin_rules c)
  | DeletionScopeWorkspace =>
      none (fun w => String.eqb (wsID w) (planWorkspace p)) (workspaces c)
      /\ none (fun s => String.eqb (svcWorkspace s) (planWorkspace p)) (services c)
      /\ none (fun k => String.eqb (covWorkspace k) (planWorkspace p)) (coverages c)
      /\ none (fun g => String.eqb (grpWorkspace g) (planWorkspace p)) (layer_groups c)
      /\ none (fun q => String.eqb (qryWorkspace q) (planWorkspace p)) (wfs_stored_queries c)
      /\ none (fun r => String.eqb (rulV1 r) (planWorkspace p)) (casbin_rules c)
      /\ none (fun x => String.eqb (ownWorkspace x) (planWorkspace p)) (styles c ++ style_assets c ++ api_keys c)
      /\ none (fun m => String.eqb (clmWorkspace m) (planWorkspace p)) (claim_role_mappings c)
      /\ planWorkspace p ∉ workspace_data_revisions c
  end.

Lemma none_keep {A} (p : A -> bool) l : none p (keep p l).
Proof. intros x Hx. apply elem_of_keep in Hx. tauto. Qed.

Lemma none_keep_or {A} (p q : A -> bool) l : none p (keep (fun x => p x || q x) l).
Proof. intros x Hx. apply elem_of_keep in Hx as [_ Hx]. by apply orb_false_iff in Hx as [Hx _]. Qed.

(** The rows that do not belong to the target are still there. *)
Definition stays {A} (p : A -> bool) (l l' : list A) : Prop := forall x, x ∈ l -> p x = false -> x ∈ l'.

Definition catalogKept (p : DeletionPlan) (c c' : catalog) : Prop :=
  (forall s, s ∈ services c' -> s ∈ services c) /\
  match Scope p with
  | DeletionScopeService =>
      stays (fun s => String.eqb (svcID s) (refID (Target p)) && String.eqb (svcWorkspace s) (planWorkspace p)) (services c) (services c')
      /\ stays (fun l => String.eqb (layService l) (refID (Target p))) (layers c) (layers c')
      /\ stays (fun k => String.eqb (covService k) (refID (Target p))) (coverages c) (coverages c')
      /\ stays (fun g => inRefs (LayerGroups p) (grpID g)) (layer_groups c) (layer_groups c')
      /\ stays (fun q => inRefs (StoredQueries p) (qryID q)) (wfs_stored_queries c) (wfs_stored_queries c')
      /\ stays (fun r => String.eqb (rulV1 r) (planWorkspace p) && bool_decide (rulV2 r ∈ planNames p)) (casbin_rules c) (casbin_rules c')
  | DeletionScopeWorkspace =>
      stays (fun s => String.eqb (svcWorkspace s) (planWorkspace p)) (services c) (services c')
      /\ stays (fun l => ownsService c (planWorkspace p) (layService l)) (layers c) (layers c')
      /\ stays (fun k => String.eqb (covWorkspace k) (planWorkspace p) || ownsService c (planWorkspace p) (covService k)) (coverages c) (coverages c')
      /\ stays (fun g => String.eqb (grpWorkspace g) (planWorkspace p)) (layer_groups c) (layer_groups c')
      /\ stays (fun q => String.eqb (qryWorkspace q) (planWorkspace p)) (wfs_stored_queries c) (wfs_stored_queries c')
      /\ stays (fun r => String.eqb (rulV1 r) (planWorkspace p)) (casbin_rules c) (casbin_rules c')
  end.

Lemma stays_keep {A} (p : A -> bool) l : stays p l (keep p l).
Proof. intros x Hx Hp. by apply elem_of_keep. Qed.

Lemma stays_trans {A} (p p' : A -> bool) l1 l2 l3 :
  (forall x, p x = false -> p' x = false) -> stays p l1 l2 -> stays p' l2 l3 -> stays p l1 l3.
Proof. intros Hp H1 H2 x Hx Hpx. apply H2; [by apply H1|by apply Hp]. Qed.

Lemma catalogKept_same p c c' : set_deletions c' [] = set_deletions c [] -> catalogKept p c c'.
Proof.
  intros He. assert (services c' = services c /\ layers c' = layers c /\ coverages c' = coverages c /\ layer_groups c' = layer_groups c
    /\ wfs_stored_queries c' = wfs_stored_queries c /\ casbin_rules c' = casbin_rules c) as (E1 & E2 & E3 & E4 & E5 & E6)
    by (destruct c, c'; injection He as _; naive_solver).
  split; [by rewrite E1|]. rewrite E1, E2, E3, E4, E5, E6. destruct (Scope p); split_and!; by intros x.
Qed.

Lemma ownsService_fewer c c' ws id :
  (forall s, s ∈ services c' -> s ∈ services c) -> ownsService c ws id = false -> ownsService c' ws id = false.
Proof.
  intros Hs Ho. apply not_true_iff_false. intros (x & Hx & Hid & Hw)%ownsService_spec. apply not_true_iff_false in Ho. apply Ho, ownsService_spec. eauto.
Qed.

Lemma catalogKept_trans p c1 c2 c3 : catalogKept p c1 c2 -> catalogKept p c2 c3 -> catalogKept p c1 c3.
Proof.
  intros [S1 H1] [S2 H2]. split; [auto|]. pose proof (ownsService_fewer c1 c2 (planWorkspace p)) as Hown.
  destruct (Scope p); destruct H1 as (A1 & A2 & A3 & A4 & A5 & A6), H2 as (B1 & B2 & B3 & B4 & B5 & B6);
    split_and!; (eapply stays_trans; [|eassumption|eassumption]); try done; cbn; [intros l; by apply Hown|].
  intros k [Hk Ho]%orb_false_iff. apply orb_false_iff. split; [done|by apply Hown].
Qed.

(** A step of the coordinator on its operation. *)
Definition ownStep (o : DeletionOperation) (c c' : catalog) : Prop := catStep true c c' /\ catalogKept (opPlan o) c c'.

Lemma ownSteps o c c' : rtc (ownStep o) c c' -> rtc (catStep true) c c' /\ catalogKept (opPlan o) c c'.
Proof.
  intros H. induction H as [c|c1 c2 c3 [Hs Hk] _ [IHs IHk]]; [split; [done|by apply catalogKept_same]|].
  split; [by eapply rtc_l|by eapply catalogKept_trans].
Qed.

Lemma update_step o P now c status phase text f : tracked o P c ->
  ownStep o c (UpdateCatalogDeletion now f c (opID o) status phase text).2.
Proof.
  intros (cur & Hg & Hu & _). split; [apply step_update; intros x Hx; congruence|]. apply catalogKept_same.
  unfold UpdateCatalogDeletion. by destruct (GetCatalogDeletion c (opID o)), f.
Qed.

Lemma none_bump ws l : none (fun w => String.eqb (wsID w) ws) l -> none (fun w => String.eqb (wsID w) ws) (bumpRevision ws <$> l).
Proof.
  intros H w Hw. apply list_elem_of_fmap in Hw as (x & -> & Hx). specialize (H x Hx). unfold bumpRevision. by rewrite H.
Qed.

Lemma commit_effect o now c : tracked o (eq DeletionPhaseAuxiliaryRemoved) c ->
  exists c', CommitCatalogDeletion now false c (opID o) = (None, c') /\ tracked o (eq DeletionPhaseCatalogCommitted) c'
             /\ catalogGone (opPlan o) c' /\ catalogKept (opPlan o) c c'.
Proof.
  intros (cur & Hg & Hu & Hph & Hs & Hw & Ht & Hp). unfold CommitCatalogDeletion. rewrite Hg, <- Hph.
  assert (bool_decide (opStatus cur = DeletionCompleted) = false) as ->.
  { unfold unfinished in Hu. by apply negb_true_iff in Hu. }
  cbn [orb bool_decide]. rewrite !bool_decide_false by done. cbn [orb].
  eexists. split; [reflexivity|]. split_and!.
  - exists (committedOperation now cur). split; [|done].
    set (c1 := match opScope cur with DeletionScopeWorkspace => _ | DeletionScopeService => _ end).
    assert (Hc1 : catalog_deletions c1 = catalog_deletions c) by (unfold c1; by destruct (opScope cur)).
    assert (Hgc : GetCatalogDeletion c1 (opID o) = Some cur) by (unfold GetCatalogDeletion; by rewrite Hc1).
    pose proof (Get_onOperation (committedOperation now) (opID o) c1 ltac:(done)) as Hgo. rewrite Hgc in Hgo. exact Hgo.
  - unfold catalogGone. rewrite Hs. destruct (Scope (opPlan o)) eqn:Hsc; cbn; rewrite Hw.
    + repeat split; try apply none_keep; try apply none_keep_or; [apply none_bump, none_keep|..].
      * intros x Hx. rewrite !elem_of_app in Hx. destruct Hx as [Hx|[Hx|Hx]]; by apply elem_of_keep in Hx as [_ Hx].
      * intros Hx. apply elem_of_keep in Hx as [_ Hx]. by rewrite String.eqb_refl in Hx.
    + rewrite <- Ht, <- Hp. repeat split; rewrite ?Hp, <- ?Hw; try apply none_keep.
  - unfold catalogKept. rewrite Hs. destruct (Scope (opPlan o)) eqn:Hsc; cbn; rewrite ?Hw, ?Ht, ?Hp; split;
      try (intros s; by intros [? _]%elem_of_keep); split_and!; apply stays_keep.
Qed.

(** ** Rules *)

(** How many of the calls do not work. *)
Definition faulty (l : list fate) : nat := length (List.filter (fun f => match f with Works => false | _ => true end) l).

Section Rules.
Context {J S M T : Type}.
Local Abbreviation world := (world J S M T).
Local Abbreviation job := (@job J S M T).

(** [Q] for a value, [E] for an error, [X] when the process dies. *)
Definition jwp {A} (c : job A) (Q : A -> world -> Prop) (E X : world -> Prop) (w : world) : Prop :=
  match c w with
  | (Done a, w') => Q a w'
  | (Failed _, w') => E w'
  | (Died, w') => X w'
  end.

Lemma jwp_ret {A} (a : A) Q E X w : Q a w -> jwp (mret a) Q E X w.
Proof. done. Qed.

Lemma jwp_fails {A} e (Q : A -> world -> Prop) E X w : E w -> jwp (fails e) Q E X w.
Proof. done. Qed.

Lemma jwp_reads {A} (f : world -> A) Q E X w : Q (f w) w -> jwp (reads f) Q E X w.
Proof. done. Qed.

Lemma jwp_modify f Q E X w : Q tt (f w) -> jwp (modify f) Q E X w.
Proof. done. Qed.

Lemma jwp_bind {A B} (c : job A) (k : A -> job B) Q E X w : jwp c (fun a w' => jwp (k a) Q E X w') E X w -> jwp (c ≫= k) Q E X w.
Proof. unfold jwp, mbind, job_bind. by destruct (c w) as [[a|e|] w']. Qed.

Lemma jwp_mono {A} (c : job A) (Q Q' : A -> world -> Prop) (E E' X X' : world -> Prop) w :
  jwp c Q E X w -> (forall a w', Q a w' -> Q' a w') -> (forall w', E w' -> E' w') -> (forall w', X w' -> X' w') -> jwp c Q' E' X' w.
Proof. unfold jwp. destruct (c w) as [[a|e|] w']; auto. Qed.

(** A call that fails has used up a fault. *)
Lemma jwp_nextFate (Q : bool -> world -> Prop) E X w :
  (forall l, (faulty l <= faulty (fates w))%nat -> Q false (set_fates l w)) ->
  (forall l, (faulty l < faulty (fates w))%nat -> Q true (set_fates l w)) ->
  (forall l, X (set_fates l w)) -> jwp nextFate Q E X w.
Proof.
  intros Hf Ht Hx. unfold jwp, nextFate. destruct (fates w) as [|[] l] eqn:Hl.
  - destruct w; cbn in Hl; subst. by apply (Hf []).
  - by apply Hf.
  - apply Ht. unfold faulty. cbn. lia.
  - apply Hx.
Qed.

(** Without faults a call works. *)
Lemma jwp_works (Q : bool -> world -> Prop) E X w : fates w = [] -> Q false w -> jwp nextFate Q E X w.
Proof. intros Hl. unfold jwp, nextFate. by rewrite Hl. Qed.

Lemma jwp_progress o P now status phase text Q E X w : tracked o P (cat w) ->
  (forall l c, (faulty l <= faulty (fates w))%nat -> ownStep o (cat w) c ->
     c = set_deletions (cat w) (onOperation (updateOperation now status phase text) (opID o) (catalog_deletions (cat w))) ->
     Q tt (set_cat c (set_fates l w))) ->
  (forall l, (faulty l < faulty (fates w))%nat -> E (set_fates l w)) -> (forall l, X (set_fates l w)) ->
  jwp (progress now (opID o) status phase text) Q E X w.
Proof.
  intros Ht Hq He Hx. pose proof (update_step o P now (cat w) status phase text false Ht) as Hstep.
  destruct Ht as (cur & Hg & _). pose proof (update_found now (cat w) (opID o) status phase text cur Hg) as Hu.
  apply jwp_bind, jwp_nextFate; [intros l Hl|intros l Hl|done]; unfold jwp, inWorld; change (cat (set_fates l w)) with (cat w).
  - rewrite Hu in *. by apply Hq.
  - by apply He.
Qed.

Lemma jwp_commit o now Q E X w : tracked o (eq DeletionPhaseAuxiliaryRemoved) (cat w) ->
  (forall l c, (faulty l <= faulty (fates w))%nat -> ownStep o (cat w) c -> tracked o (eq DeletionPhaseCatalogCommitted) c ->
     catalogGone (opPlan o) c -> Q tt (set_cat c (set_fates l w))) ->
  (forall l, (faulty l < faulty (fates w))%nat -> E (set_fates l w)) -> (forall l, X (set_fates l w)) ->
  jwp (commit now (opID o)) Q E X w.
Proof.
  intros Ht Hq He Hx. destruct (commit_effect o now (cat w) Ht) as (c' & Hc & Ht' & Hgone & Hkept).
  pose proof (step_commit true (cat w) now false (opID o)) as Hstep. rewrite Hc in Hstep.
  assert (Hown : ownStep o (cat w) c') by by split.
  assert (Hfail : CommitCatalogDeletion now true (cat w) (opID o) = (Some StatementFailed, cat w)).
  { destruct Ht as (cur & Hg & Hu & Hph & _). unfold CommitCatalogDeletion. rewrite Hg, <- Hph.
    unfold unfinished in Hu. apply negb_true_iff in Hu. by rewrite Hu. }
  apply jwp_bind, jwp_nextFate; [intros l Hl|intros l Hl|done]; unfold jwp, inWorld; change (cat (set_fates l w)) with (cat w).
  - rewrite Hc. by apply Hq.
  - rewrite Hfail. by apply He.
Qed.

End Rules.

(** ** The files of managed imports *)

(** The rows of the table: an import, a service that is being deleted and a path have one row
    each, and no file has the staged name of another. *)
Record managedWf (o : DeletionOperation) (rows : list ManagedAsset) : Prop := {
  mw_import : forall a b, a ∈ rows -> b ∈ rows -> ImportID a = ImportID b -> a = b;
  mw_service : forall a b, a ∈ rows -> b ∈ rows -> assetService a ∈ deletionServiceIDs (opPlan o) ->
    assetService a = assetService b -> a = b;
  mw_path : forall a b, a ∈ rows -> b ∈ rows -> Path a = Path b -> a = b;
  mw_staged : forall a b, a ∈ rows -> b ∈ rows -> stagedPath (opID o) a <> Path b }.

Lemma managedWf_subset o rows rows' : managedWf o rows -> (forall a, a ∈ rows' -> a ∈ rows) -> managedWf o rows'.
Proof. intros [A B C D] Hs. split; intros a b Ha%Hs Hb%Hs; eauto. Qed.

Definition concerns (o : DeletionOperation) (rows : list ManagedAsset) (a : ManagedAsset) : Prop :=
  a ∈ rows /\ assetService a ∈ deletionServiceIDs (opPlan o).

Definition hasFile (o : DeletionOperation) (F : gset string) (a : ManagedAsset) : Prop := Path a ∈ F \/ stagedPath (opID o) a ∈ F.

Definition hasBoth (o : DeletionOperation) (F : gset string) (a : ManagedAsset) : Prop := Path a ∈ F /\ stagedPath (opID o) a ∈ F.

(** Files only change their names, and only those of the deletion. *)
Definition moved (o : DeletionOperation) (rows : list ManagedAsset) (F F' : gset string) : Prop :=
  (forall a, concerns o rows a -> (hasFile o F a <-> hasFile o F' a) /\ (hasBoth o F' a -> hasBoth o F a)) /\
  forall f, (forall a, concerns o rows a -> f <> Path a /\ f <> stagedPath (opID o) a) -> (f ∈ F <-> f ∈ F').

Lemma moved_refl o rows F : moved o rows F F.
Proof. done. Qed.

Lemma moved_trans o rows F F' F'' : moved o rows F F' -> moved o rows F' F'' -> moved o rows F F''.
Proof.
  intros [A B] [A' B']. split; intros x Hx; [|rewrite (B x Hx); auto].
  destruct (A x Hx) as [H1 H2], (A' x Hx) as [H3 H4]. rewrite H1. auto.
Qed.

Lemma stagedPath_inj id a b : stagedPath id a = stagedPath id b -> Path a = Path b.
Proof.
  unfold stagedPath. generalize (Path a) (Path b) (".deleting-" +:+ id). intros x y s He.
  apply (f_equal String.length) in He as Hl. rewrite !length_sapp in Hl.
  assert (Hlen : String.length x = String.length y) by lia. clear Hl. revert y He Hlen.
  induction x as [|c x IH]; intros [|d y] He Hlen; try done. rewrite !sapp_cons in He. injection He as -> He.
  f_equal. apply IH; [done|]. by injection Hlen.
Qed.

Section Renames.
Context (o : DeletionOperation) (rows : list ManagedAsset) (Hw : managedWf o rows).

Lemma rename_moved a F from to : concerns o rows a -> from ∈ F ->
  (from = Path a /\ to = stagedPath (opID o) a) \/ (from = stagedPath (opID o) a /\ to = Path a) ->
  moved o rows F ({[to]} ∪ F ∖ {[from]}).
Proof using Hw.
  intros [Ha Hsvc] Hf Hcase. split.
  - intros b [Hb _]. unfold hasFile, hasBoth. destruct (decide (a = b)) as [<-|Hne].
    + pose proof (mw_staged o rows Hw a a Ha Ha). destruct Hcase as [[-> ->]|[-> ->]]; set_solver.
    + assert (Path b <> Path a) by (intros He; by destruct Hne; apply (mw_path o rows Hw)).
      assert (stagedPath (opID o) b <> stagedPath (opID o) a).
      { intros He%stagedPath_inj. destruct Hne. by apply (mw_path o rows Hw). }
      pose proof (mw_staged o rows Hw a b Ha Hb). pose proof (mw_staged o rows Hw b a Hb Ha).
      destruct Hcase as [[-> ->]|[-> ->]]; set_solver.
  - intros f Hout. destruct (Hout a (conj Ha Hsvc)) as [H1 H2]. destruct Hcase as [[-> ->]|[-> ->]]; set_solver.
Qed.

Lemma path_not_staged a b : concerns o rows a -> concerns o rows b -> Path b <> stagedPath (opID o) a.
Proof using Hw. intros [Ha _] [Hb _] He. by apply (mw_staged o rows Hw a b). Qed.
End Renames.

Section Files.
Context {J S M T : Type}.
Local Abbreviation world := (world J S M T).
Context (o : DeletionOperation).

(** Only the names of the deletion's files and the list of fates changed. *)
Definition renamed (rows : list ManagedAsset) (w w' : world) : Prop :=
  exists F l, w' = set_files F (set_fates l w) /\ moved o rows (importFiles w) F /\ (faulty l <= faulty (fates w))%nat.

Definition renamedDown (rows : list ManagedAsset) (w w' : world) : Prop :=
  exists F l, w' = set_files F (set_fates l w) /\ moved o rows (importFiles w) F.

Lemma renamed_fates rows (w : world) l : (faulty l <= faulty (fates w))%nat -> renamed rows w (set_fates l w).
Proof. intros Hl. exists (importFiles w), l. by destruct w. Qed.

Lemma renamed_trans rows (w w1 w2 : world) : renamed rows w w1 -> renamed rows w1 w2 -> renamed rows w w2.
Proof.
  intros (F & l & -> & Hm & Hl) (F' & l' & -> & Hm' & Hl'). exists F', l'. split; [done|]. split; [|cbn [fates set_files set_fates] in Hl'; lia].
  by eapply moved_trans.
Qed.

Lemma renamed_down rows (w w' : world) : renamed rows w w' -> renamedDown rows w w'.
Proof. intros (F & l & He & Hm & _). by exists F, l. Qed.

Lemma down_trans rows (w w1 w2 : world) : renamed rows w w1 -> renamedDown rows w1 w2 -> renamedDown rows w w2.
Proof. intros (F & l & -> & Hm & Hl) (F' & l' & -> & Hm'). exists F', l'. split; [done|]. by eapply moved_trans. Qed.

Lemma renamed_rows rows (w w' : world) : renamedDown rows w w' -> managed_assets w' = managed_assets w.
Proof. by intros (F & l & -> & _). Qed.

(** Removal: staged files and rows go, in order. *)
Lemma remove_spec assets (w : world) :
  jwp (removeManagedImports (opID o) assets)
    (fun _ w' => exists F rs l, w' = set_managed rs (set_files F (set_fates l w)) /\ (faulty l <= faulty (fates w))%nat
       /\ (forall f, f ∈ F <-> f ∈ importFiles w /\ forall a, a ∈ assets -> f <> stagedPath (opID o) a)
       /\ (forall b, b ∈ rs <-> b ∈ managed_assets w /\ forall a, a ∈ assets -> ImportID b <> ImportID a))
    (fun w' => exists F rs l, w' = set_managed rs (set_files F (set_fates l w)) /\ (faulty l < faulty (fates w))%nat
       /\ F ⊆ importFiles w /\ (forall b, b ∈ rs -> b ∈ managed_assets w))
    (fun w' => exists F rs l, w' = set_managed rs (set_files F (set_fates l w)) /\ F ⊆ importFiles w
       /\ (forall b, b ∈ rs -> b ∈ managed_assets w)) w.
Proof.
  revert w. induction assets as [|a assets IH]; intros w; cbn [removeManagedImports].
  { apply jwp_ret. exists (importFiles w), (managed_assets w), (fates w). split; [by destruct w|]. split; [done|].
    split; intros x; (split; [|by intros []]); intros Hx; (split; [done|]); by intros ? ?%not_elem_of_nil. }
  apply jwp_bind, jwp_nextFate; [intros l Hl|intros l Hl|intros l].
  2,3: exists (importFiles w), (managed_assets w), l; by destruct w.
  apply jwp_bind, jwp_modify. cbn [importFiles set_fates].
  set (F1 := importFiles w ∖ {[stagedPath (opID o) a]}). assert (HF1 : F1 ⊆ importFiles w) by (by apply subseteq_difference_l).
  apply jwp_bind, jwp_nextFate; [intros l1 Hl1|intros l1 Hl1|intros l1]; cbn [fates set_files set_fates] in *.
  2:{ exists F1, (managed_assets w), l1. split; [done|]. split; [lia|]. done. }
  2:{ by exists F1, (managed_assets w), l1. }
  apply jwp_bind, jwp_modify. cbn [managed_assets set_files set_fates].
  set (rs1 := keep (fun b => String.eqb (ImportID b) (ImportID a)) (managed_assets w)).
  assert (Hrs1 : forall b, b ∈ rs1 <-> b ∈ managed_assets w /\ ImportID b <> ImportID a).
  { intros b. unfold rs1. by rewrite elem_of_keep, String.eqb_neq. }
  eapply jwp_mono; [apply IH|..]; clear IH; cbn [importFiles managed_assets fates set_files set_fates set_managed].
  - intros [] w' (F & rs & l' & -> & Hl' & HF & Hrs). exists F, rs, l'. split; [done|]. split; [lia|]. split.
    + intros f. rewrite HF. unfold F1. rewrite elem_of_difference, elem_of_singleton. setoid_rewrite elem_of_cons. naive_solver.
    + intros b. rewrite Hrs, Hrs1. setoid_rewrite elem_of_cons. naive_solver.
  - intros w' (F & rs & l' & -> & Hl' & HF & Hrs). exists F, rs, l'. split; [done|]. split; [lia|]. split; [by transitivity F1|].
    intros b Hb. by apply Hrs, Hrs1 in Hb as [Hb _].
  - intros w' (F & rs & l' & -> & HF & Hrs). exists F, rs, l'. split; [done|]. split; [by transitivity F1|].
    intros b Hb. by apply Hrs, Hrs1 in Hb as [Hb _].
Qed.
Context (rows : list ManagedAsset) (Hw : managedWf o rows).

Lemma moveFile_renamed a from to (w : world) : concerns o rows a -> from ∈ importFiles w ->
  (from = Path a /\ to = stagedPath (opID o) a) \/ (from = stagedPath (opID o) a /\ to = Path a) ->
  renamed rows w (moveFile from to w).
Proof using Hw.
  intros Ha Hf Hc. exists ({[to]} ∪ importFiles w ∖ {[from]}), (fates w). split; [by destruct w|]. split; [|done].
  by apply (rename_moved o rows Hw a).
Qed.

Lemma restoreImports_spec assets (w : world) : Forall (concerns o rows) assets ->
  jwp (restoreManagedImports (opID o) assets) (fun _ => renamed rows w) (fun _ => False) (renamedDown rows w) w.
Proof using Hw.
  intros Ha. revert w. induction Ha as [|a assets Ha _ IH]; intros w; cbn [restoreManagedImports].
  { apply jwp_ret. exists (importFiles w), (fates w). by destruct w. }
  apply jwp_bind, jwp_nextFate; intros l.
  - intros Hl. apply jwp_bind, jwp_modify. set (w1 := set_fates l w).
    assert (Hr : renamed rows w (if bool_decide (stagedPath (opID o) a ∈ importFiles w1)
                            then moveFile (stagedPath (opID o) a) (Path a) w1 else w1)).
    { eapply renamed_trans; [by apply (renamed_fates rows w l)|]. case_bool_decide as Hin.
      - apply (moveFile_renamed a); [done|done|by right].
      - apply (renamed_fates rows w1 l). done. }
    eapply jwp_mono; [apply IH| |done|]; cbn beta; intros; [by eapply renamed_trans|by eapply down_trans].
  - intros Hl. apply jwp_bind, jwp_ret. assert (Hr : renamed rows w (set_fates l w)) by (apply renamed_fates; lia).
    eapply jwp_mono; [apply IH| |done|]; cbn beta; intros; [by eapply renamed_trans|by eapply down_trans].
  - by exists (importFiles w), l; destruct w.
Qed.

Lemma restoring_spec {A} assets e Q E X (w : world) : Forall (concerns o rows) assets ->
  (forall w', renamed rows w w' -> E w') -> (forall w', renamedDown rows w w' -> X w') ->
  jwp (restoring (A := A) (opID o) assets e) Q E X w.
Proof using Hw.
  intros Ha He Hx. apply jwp_bind. eapply jwp_mono; [by apply restoreImports_spec| |done|exact Hx].
  intros [] w' Hr. by apply jwp_fails, He.
Qed.

Lemma stageOne_spec committed assets a (w : world) : Forall (concerns o rows) assets -> concerns o rows a ->
  jwp (stageOne (opID o) committed assets a)
    (fun _ w' => renamed rows w w' /\ (stagedPath (opID o) a ∈ importFiles w -> importFiles w' = importFiles w)
       /\ (stagedPath (opID o) a ∉ importFiles w -> Path a ∉ importFiles w')
       /\ (committed = false -> hasFile o (importFiles w) a)
       /\ forall b, concerns o rows b -> Path b ∉ importFiles w -> Path b ∉ importFiles w')
    (renamed rows w) (renamedDown rows w) w.
Proof using Hw.
  intros Has Ha. unfold stageOne.
  assert (Hfate : forall l, renamedDown rows w (set_fates l w)) by (intros l; exists (importFiles w), l; by destruct w).
  assert (Hrestore : forall (l : list fate) e, (faulty l <= faulty (fates w))%nat -> jwp (restoring (A := unit) (opID o) assets e)
            (fun _ _ => False) (renamed rows w) (renamedDown rows w) (set_fates l w)).
  { intros l e Hl. apply restoring_spec; [done|..]; intros w' Hr; [eapply renamed_trans|eapply down_trans]; try done;
      by apply renamed_fates. }
  apply jwp_bind, jwp_nextFate; [intros l Hl|intros l Hl|done].
  2:{ eapply jwp_mono; [apply Hrestore; lia|done|done|done]. }
  apply jwp_bind, jwp_reads. change (importFiles (set_fates l w)) with (importFiles w). case_bool_decide as Hst.
  { apply jwp_ret. split; [by apply renamed_fates|]. split; [done|]. split; [done|]. split; [by right|done]. }
  apply jwp_bind, jwp_nextFate; [intros l' Hl'|intros l' Hl'|intros l'; apply Hfate]; cbn [fates set_fates] in Hl'.
  2:{ eapply jwp_mono; [apply (Hrestore l'); lia|done|done|done]. }
  apply jwp_bind, jwp_reads. change (importFiles (set_fates l' (set_fates l w))) with (importFiles w). case_bool_decide as Hp.
  - apply jwp_modify. split.
    { eapply renamed_trans; [apply (renamed_fates rows w l'); lia|]. apply (moveFile_renamed a); [done|done|by left]. }
    split; [done|]. cbn. split; [|split; [by left|]].
    + intros _. pose proof (path_not_staged o rows Hw a a Ha Ha). set_solver.
    + intros b Hb Hnb. pose proof (path_not_staged o rows Hw a b Ha Hb). set_solver.
  - destruct committed.
    + apply jwp_ret. split; [apply (renamed_fates rows w l'); lia|]. done.
    + eapply jwp_mono; [apply (Hrestore l'); lia|done|done|done].
Qed.

Lemma find_asset_Some s l a : find (fun a => String.eqb (assetService a) s) l = Some a -> a ∈ l /\ assetService a = s.
Proof. intros (Ha & He%String.eqb_eq)%find_Some_elem. done. Qed.

Lemma find_asset_None s l a : find (fun a => String.eqb (assetService a) s) l = None -> a ∈ l -> assetService a <> s.
Proof. intros Hn Ha He. apply list_elem_of_In in Ha. apply (List.find_none _ _ Hn) in Ha. by rewrite He, String.eqb_refl in Ha. Qed.

Lemma renamed_files (w w' : world) : renamedDown rows w w' -> moved o rows (importFiles w) (importFiles w').
Proof. by intros (F & l & -> & Hm). Qed.

Lemma stage_spec ids committed assets (w : world) :
  managed_assets w = rows -> (forall s, s ∈ ids -> s ∈ deletionServiceIDs (opPlan o)) -> Forall (concerns o rows) assets ->
  (forall a, concerns o rows a -> ~ hasBoth o (importFiles w) a) -> (forall a, a ∈ assets -> Path a ∉ importFiles w) ->
  jwp (stageManagedImports (opID o) ids committed assets)
    (fun out w' => renamed rows w w' /\ Forall (concerns o rows) out
       /\ (forall a, a ∈ assets -> a ∈ out) /\ (forall a, a ∈ rows -> assetService a ∈ ids -> a ∈ out)
       /\ (forall a, a ∈ out -> Path a ∉ importFiles w')
       /\ (committed = false -> forall a, a ∈ rows -> assetService a ∈ ids -> hasFile o (importFiles w) a))
    (renamed rows w) (renamedDown rows w) w.
Proof using Hw.
  revert assets w. induction ids as [|s ids IH]; intros assets w Hrows Hids Has Hnb Hp; cbn [stageManagedImports].
  { apply jwp_ret. split; [exists (importFiles w), (fates w); by destruct w|]. repeat (split; [done|]).
    split; [by intros a _ ?%not_elem_of_nil|]. split; [done|]. by intros _ a _ ?%not_elem_of_nil. }
  apply jwp_bind, jwp_bind, jwp_nextFate; [intros l Hl|intros l Hl|intros l; by exists (importFiles w), l; destruct w].
  2:{ apply jwp_fails. apply renamed_fates. lia. }
  apply jwp_reads. change (managed_assets (set_fates l w)) with (managed_assets w). rewrite Hrows.
  assert (Hr0 : renamed rows w (set_fates l w)) by by apply renamed_fates.
  destruct (List.find _ rows) as [a|] eqn:Hf.
  - apply find_asset_Some in Hf as [Ha Hsvc].
    assert (Hc : concerns o rows a) by (split; [done|]; rewrite Hsvc; apply Hids; by left).
    apply jwp_bind. eapply jwp_mono; [by apply stageOne_spec| |intros; by eapply renamed_trans|intros; by eapply down_trans].
    intros [] w1 (Hr1 & Hsame & Hgone & Hhas & Hother). change (importFiles (set_fates l w)) with (importFiles w) in *.
    pose proof (renamed_trans rows _ _ _ Hr0 Hr1) as Hr. pose proof (renamed_files _ _ (renamed_down rows _ _ Hr)) as [Hm _].
    assert (Hpa : Path a ∉ importFiles w1).
    { destruct (decide (stagedPath (opID o) a ∈ importFiles w)) as [Hin|Hin]; [|by apply Hgone].
      rewrite (Hsame Hin). intros Hpin. by apply (Hnb a Hc). }
    eapply jwp_mono; [apply (IH (assets ++ [a]) w1)| |intros; by eapply renamed_trans|intros; by eapply down_trans].
    + by rewrite (renamed_rows rows w w1 (renamed_down rows _ _ Hr)).
    + intros x Hx. apply Hids. by right.
    + apply Forall_app. by split; [|constructor].
    + intros b Hb Hboth. apply (Hnb b Hb). by apply (Hm b Hb).
    + intros b [Hb| ->%list_elem_of_singleton]%elem_of_app; [|done].
      apply Hother; [by eapply Forall_forall in Has|by apply Hp].
    + intros out w2 (Hr2 & Hout & Hin1 & Hin2 & Hpo & Hhas2). split; [by eapply renamed_trans|]. split; [done|].
      split; [intros b Hb; apply Hin1, elem_of_app; by left|].
      assert (Hcase : forall b, b ∈ rows -> assetService b ∈ s :: ids -> b = a \/ assetService b ∈ ids).
      { intros b Hb [He|He]%elem_of_cons; [left|by right]. apply (mw_service o rows Hw); [done|done| |congruence].
        rewrite He. apply Hids. by left. }
      split.
      { intros b Hb Hs. destruct (Hcase b Hb Hs) as [->|Hs']; [|by apply Hin2]. apply Hin1, elem_of_app. right. by left. }
      split; [done|]. intros Hco b Hb Hs. destruct (Hcase b Hb Hs) as [->|Hs']; [by apply Hhas|].
      assert (Hcb : concerns o rows b) by (split; [done|]; apply Hids; by right). apply (Hm b Hcb). by apply Hhas2.
  - eapply jwp_mono; [apply (IH assets (set_fates l w)); try done| |intros; by eapply renamed_trans|intros; by eapply down_trans].
    + intros x Hx. apply Hids. by right.
    + intros out w2 (Hr2 & Hout & Hin1 & Hin2 & Hpo & Hhas2).
      assert (Hcase : forall b, b ∈ rows -> assetService b ∈ s :: ids -> assetService b ∈ ids).
      { intros b Hb [He|He]%elem_of_cons; [|done]. by destruct (find_asset_None _ _ _ Hf Hb). }
      split; [by eapply renamed_trans|]. repeat (split; [by eauto|]). eauto.
Qed.

End Files.
