(* ===== verification/DeletionAttempt.v ===== *)
(** * One attempt of a deletion: what it leaves when it ends, fails or dies *)

From stdpp Require Import relations.
From S2P Require Import Prelude GoText GoPath CatalogStore CatalogDeletion CatalogTheorems DeletionCoordinator DeletionCorrect.

Section Attempts.
Context {J S M T : Type} `{LifecycleLaws J} `{LifecycleLaws S} `{LifecycleLaws M} `{LifecycleLaws T}.
Context (root : string) (message : lifecycleError -> string).
Local Abbreviation world := (world J S M T).
Context (o : DeletionOperation).
Local Abbreviation plan := (opPlan o).
Local Abbreviation workspaceID := (planWorkspace (opPlan o)).
Local Abbreviation resources := (resourceIDsForScope (opPlan o) (deletionResourceIDs (opPlan o))).
Local Abbreviation serviceScope := (servicesForScope (opPlan o) (deletionServiceIDs (opPlan o))).

(** ** What is known between the calls *)

Definition auxInv (w : world) : Prop := lcInv (tileJobs w) /\ lcInv (stac w) /\ lcInv (mosaic w) /\ lcInv (tileCache w).

Definition auxScope : Prop :=
  lcScope (S := J) workspaceID /\ lcScope (S := S) workspaceID /\ lcScope (S := M) workspaceID /\ lcScope (S := T) workspaceID.

Definition auxGone (w : world) : Prop :=
  ~ lcOwned workspaceID resources (tileJobs w) /\ ~ lcOwned workspaceID serviceScope (stac w)
  /\ ~ lcOwned workspaceID serviceScope (mosaic w) /\ ~ lcOwned workspaceID resources (tileCache w).

(** The style assets of the workspace are a directory, if anything, and not staged as well. *)
Definition styleReady (d : gmap string fileKind) : Prop :=
  forall source staged, paths root (opID o) workspaceID = inr (source, staged) ->
  d !! source <> Some OtherFile /\ (d !! source = None \/ d !! staged = None).

Definition filesReady (w : world) : Prop := forall a, concerns o (managed_assets w) a -> hasFile o (importFiles w) a.
Definition notBoth (w : world) : Prop := forall a, concerns o (managed_assets w) a -> ~ hasBoth o (importFiles w) a.

Definition committed (ph : DeletionPhase) : Prop := committedPhase ph = true.

Definition served (r : runtime) : Prop :=
  match Scope plan with
  | DeletionScopeWorkspace => is_Some (registry r !! workspaceID)
  | DeletionScopeService => exists services, registry r !! workspaceID = Some services /\ refID (Target plan) ∈ services
  end.

Lemma quiesced_not_served r : ~ served (quiesceRuntime plan r).
Proof.
  unfold served, quiesceRuntime. destruct (Scope plan); cbn.
  - rewrite lookup_delete_eq. by intros [? ?].
  - intros (services & Hl & Hin). revert Hl. unfold QuiesceService. destruct (registry r !! _) as [old|] eqn:Ho; [|congruence].
    case_bool_decide as Hd; [|congruence]. cbn. rewrite lookup_insert_eq. intros [= <-]. set_solver.
Qed.

(** *** Style assets *)

Definition sourceGone (d : gmap string fileKind) : Prop :=
  exists source staged, paths root (opID o) workspaceID = inr (source, staged) /\ d !! source = None.

Lemma Stage_spec (w : world) :
  jwp (Stage root (opID o) workspaceID)
    (fun _ w' => exists d l, w' = set_dirs d (set_fates l w) /\ (faulty l <= faulty (fates w))%nat
       /\ (styleReady (styleDirs w) -> styleReady d)
       /\ sourceGone d)
    (fun w' => exists l, w' = set_fates l w /\ (faulty l <= faulty (fates w))%nat) (fun w' => exists l, w' = set_fates l w) w.
Proof.
  unfold Stage, styleReady, sourceGone. destruct (paths root (opID o) workspaceID) as [e|[source staged]].
  { apply jwp_fails. exists (fates w). by destruct w. }
  assert (Hstat : forall (w : world) path Q X (E : world -> Prop), (forall l, (faulty l <= faulty (fates w))%nat -> Q (Some (styleDirs w !! path)) (set_fates l w)) ->
     (forall l, (faulty l <= faulty (fates w))%nat -> Q None (set_fates l w)) -> (forall l, X (set_fates l w)) -> jwp (lstat path) Q E X w).
  { clear w. intros w path Q X E Hs Hn Hx. apply jwp_bind, jwp_nextFate; [intros l Hl|intros l Hl|done].
    - by apply Hs.
    - apply Hn. lia. }
  apply jwp_bind, Hstat; [intros l Hl|intros l Hl|by eauto]; apply jwp_bind, Hstat; cbn [styleDirs set_fates fates];
    try (intros l'; exists l'; by destruct w); intros l' Hl';
    try (apply jwp_fails; exists l'; split; [done|lia]).
  2:{ destruct (styleDirs w !! source) as [[]|]; apply jwp_fails; exists l'; (split; [done|lia]). }
  destruct (styleDirs w !! source) as [[]|] eqn:Hsrc.
  - destruct (styleDirs w !! staged) as [k|] eqn:Hstg; [apply jwp_fails; exists l'; split; [done|lia]|].
    assert (Hne : staged <> source) by congruence.
    apply jwp_bind, jwp_nextFate; [intros l1 Hl1|intros l1 Hl1|intros l1; by exists l1]; cbn [fates set_fates] in *.
    2:{ apply jwp_fails. exists l1. split; [done|lia]. }
    apply jwp_bind, jwp_nextFate; [intros l2 Hl2|intros l2 Hl2|intros l2; by exists l2]; cbn [fates set_fates] in *.
    2:{ apply jwp_fails. exists l2. split; [done|lia]. }
    apply jwp_modify. exists (<[staged := Directory]> (delete source (styleDirs w))), l2. split; [done|]. split; [lia|].
    assert (Hno : <[staged := Directory]> (delete source (styleDirs w)) !! source = None).
    { rewrite lookup_insert_ne by done. apply lookup_delete_eq. }
    split; [|by exists source, staged]. intros _ ? ? [= <- <-]. rewrite Hno. split; [done|by left].
  - apply jwp_fails. exists l'. split; [done|lia].
  - apply jwp_ret. exists (styleDirs w), l'. split; [done|]. split; [lia|]. split; [done|]. by exists source, staged.
Qed.

(** *** The auxiliary stores *)

Lemma jwp_removeFrom {X} `{Lifecycle X} (get : world -> X) set wrap ids Q E D w :
  (forall x, lcRemove workspaceID ids (get w) = (None, x) -> Q tt (set x w)) ->
  (forall e x, lcRemove workspaceID ids (get w) = (Some e, x) -> E (set x w)) ->
  jwp (removeFrom get set wrap workspaceID ids) Q E D w.
Proof. intros Hq He. unfold jwp, removeFrom. destruct (lcRemove _ _ _) as [[e|] x]; [by eapply He|by apply Hq]. Qed.

Lemma lc_keeps {X} `{LifecycleLaws X} ids (x x' : X) e : lcScope (S := X) workspaceID -> lcInv x ->
  lcRemove workspaceID ids x = (e, x') -> lcInv x'.
Proof. intros Hs Hi He. pose proof (lc_inv workspaceID ids x Hs Hi) as Hl. by rewrite He in Hl. Qed.

(** Rows and files are untouched; the catalog's rows as well. *)
Record beforeFiles (P : DeletionPhase -> Prop) (w w' : world) : Prop := {
  bf_steps : rtc (ownStep o) (cat w) (cat w');
  bf_same : set_deletions (cat w') [] = set_deletions (cat w) [];
  bf_tracked : tracked o P (cat w');
  bf_rows : managed_assets w' = managed_assets w;
  bf_files : importFiles w' = importFiles w;
  bf_aux : auxInv w';
  bf_styles : styleReady (styleDirs w) -> styleReady (styleDirs w') }.

Lemma beforeFiles_progress P now status phase text (w : world) c : tracked o P (cat w) -> status <> DeletionCompleted ->
  ownStep o (cat w) c ->
  c = set_deletions (cat w) (onOperation (updateOperation now status phase text) (opID o) (catalog_deletions (cat w))) ->
  rtc (ownStep o) (cat w) c /\ set_deletions c [] = set_deletions (cat w) [] /\ tracked o (eq phase) c.
Proof. intros Ht Hs Hstep ->. split; [by apply rtc_once|]. split; [done|]. by eapply update_tracked. Qed.

Lemma removeAuxiliary_spec P now (w : world) : P DeletionPhaseJobsQuiesced -> tracked o P (cat w) -> auxInv w -> auxScope ->
  jwp (removeAuxiliary root now o)
    (fun _ w' => beforeFiles (eq DeletionPhaseJobsQuiesced) w w' /\ auxGone w' /\ (faulty (fates w') <= faulty (fates w))%nat
       /\ live w' = quiesceRuntime plan (live w)
       /\ (Scope plan = DeletionScopeWorkspace -> sourceGone (styleDirs w')))
    (beforeFiles P w) (beforeFiles P w) w.
Proof.
  intros HP Ht (Hj & Hs & Hm & Htc) (Oj & Os & Om & Ot). unfold removeAuxiliary.
  apply jwp_bind, jwp_modify, jwp_bind, jwp_removeFrom; cbn [tileJobs set_live].
  2:{ intros e j Ej. split; try done. split; [by eapply lc_keeps|done]. }
  intros j Ej. apply jwp_bind, (jwp_progress o P); [done|intros l c Hl Hstep Hc|intros l Hl|intros l].
  2,3: split; try done; split; [by eapply lc_keeps|done].
  destruct (beforeFiles_progress P now DeletionRunning _ _ w c Ht ltac:(done) Hstep Hc) as (Hrtc & Hsame & Htr).
  assert (HtrP : tracked o P c) by (eapply tracked_mono; [exact Htr|]; by intros ? <-).
  assert (Hj' : lcInv j) by by eapply lc_keeps.
  apply jwp_bind, jwp_removeFrom; cbn [stac set_cat set_fates set_tileJobs set_live].
  2:{ intros e s Es. split; try done. split; [done|]. split; [by eapply lc_keeps|done]. }
  intros s Es. assert (Hs' : lcInv s) by by eapply lc_keeps.
  apply jwp_bind, jwp_removeFrom; cbn [mosaic set_stac set_cat set_fates set_tileJobs set_live].
  2:{ intros e m Em. split; try done. repeat (split; [done|]). split; [by eapply lc_keeps|done]. }
  intros m Em. assert (Hm' : lcInv m) by by eapply lc_keeps.
  apply jwp_bind, jwp_removeFrom; cbn [tileCache set_mosaic set_stac set_cat set_fates set_tileJobs set_live].
  2:{ intros e t Et. split; try done. repeat (split; [done|]). by eapply lc_keeps. }
  intros t Et. assert (Ht' : lcInv t) by by eapply lc_keeps.
  assert (Hgone : auxGone (set_tileCache t (set_mosaic m (set_stac s (set_cat c (set_fates l (set_tileJobs j w))))))).
  { split; [exact (lc_removed _ _ _ _ Oj Hj Ej)|]. split; [exact (lc_removed _ _ _ _ Os Hs Es)|].
    split; [exact (lc_removed _ _ _ _ Om Hm Em)|exact (lc_removed _ _ _ _ Ot Htc Et)]. }
  unfold onlyWorkspace. destruct (Scope plan) eqn:Hsc.
  - eapply jwp_mono; [apply Stage_spec|..].
    + intros [] w' (d & l' & -> & Hl' & Hsty & Hno). split; [by split|]. split; [done|].
      split; [exact (Nat.le_trans _ _ _ Hl' Hl)|]. by split.
    + intros w' (l' & -> & _). by split.
    + intros w' (l' & ->). by split.
  - apply jwp_ret. split; [by split|]. done.
Qed.

(** *** After the commit *)

Lemma RemoveStaged_spec (w : world) : sourceGone (styleDirs w) ->
  jwp (RemoveStaged root (opID o))
    (fun _ w' => exists d l, w' = set_dirs d (set_fates l w) /\ (faulty l <= faulty (fates w))%nat /\ (styleReady (styleDirs w) -> styleReady d)
       /\ forall source staged, paths root (opID o) workspaceID = inr (source, staged) -> d !! source = None /\ d !! staged = None)
    (fun w' => exists l, w' = set_fates l w /\ (faulty l < faulty (fates w))%nat) (fun w' => exists l, w' = set_fates l w) w.
Proof.
  intros (source & staged & Hp & Hsrc). unfold RemoveStaged, styleReady. rewrite Hp. revert Hp. unfold paths.
  change (hasSeparator "unused") with false. destruct (hasSeparator workspaceID); [done|]. destruct (hasSeparator (opID o)); [done|].
  cbn [orb]. intros [= <- <-]. apply jwp_bind, jwp_nextFate; [intros l Hl|intros l Hl|intros l; by exists l].
  2:{ apply jwp_fails. by exists l. }
  set (stg := JoinPath (JoinPath root ".deleting") (opID o)) in *. set (src := JoinPath root workspaceID) in *.
  apply jwp_modify. exists (delete stg (styleDirs w)), l. split; [done|]. split; [done|]. split.
  - intros _ ? ? [= <- <-]. rewrite lookup_delete_None. destruct (decide (stg = src)) as [Heq|Hne].
    + rewrite Heq. rewrite !lookup_delete_eq. auto.
    + rewrite lookup_delete_ne, Hsrc by done. auto.
  - intros ? ? [= <- <-]. split; [|apply lookup_delete_eq]. apply lookup_delete_None. by right.
Qed.

Record afterCommit (w w' : world) : Prop := {
  ac_steps : rtc (ownStep o) (cat w) (cat w');
  ac_gone : catalogGone plan (cat w');
  ac_tracked : tracked o committed (cat w');
  ac_rows : forall a, a ∈ managed_assets w' -> a ∈ managed_assets w;
  ac_files : importFiles w' ⊆ importFiles w;
  ac_aux : auxInv w';
  ac_styles : styleReady (styleDirs w) -> styleReady (styleDirs w') }.

Lemma clearRuntime_spec Q E X (w : world) :
  (forall r l, (faulty l <= faulty (fates w))%nat -> ~ served r -> workspaceID ∉ wfsWorkspaces r -> workspaceID ∉ cachedWorkspaces r ->
     Q tt (set_live r (set_fates l w))) ->
  (forall r l, X (set_live r (set_fates l w))) -> jwp (clearRuntime plan) Q E X w.
Proof.
  intros Hq Hx. apply jwp_bind, jwp_modify, jwp_bind, jwp_modify, jwp_bind, jwp_nextFate; [intros l Hl|intros l Hl|intros l; apply Hx];
    [apply jwp_modify|apply jwp_ret]; apply Hq; cbn [fates set_live] in Hl; try lia; try (cbn; set_solver);
    apply (quiesced_not_served (live w)).
Qed.

Lemma finish_spec now assets (w : world) : tracked o (eq DeletionPhaseCatalogCommitted) (cat w) -> catalogGone plan (cat w) -> auxInv w ->
  (Scope plan = DeletionScopeWorkspace -> sourceGone (styleDirs w)) ->
  jwp (finish root now o assets)
    (fun _ w' => rtc (ownStep o) (cat w) (cat w') /\ completed o (cat w') /\ catalogGone plan (cat w')
       /\ (tileJobs w', stac w', mosaic w', tileCache w') = (tileJobs w, stac w, mosaic w, tileCache w)
       /\ (forall f, f ∈ importFiles w' <-> f ∈ importFiles w /\ forall a, a ∈ assets -> f <> stagedPath (opID o) a)
       /\ (forall b, b ∈ managed_assets w' <-> b ∈ managed_assets w /\ forall a, a ∈ assets -> ImportID b <> ImportID a)
       /\ (Scope plan = DeletionScopeWorkspace -> forall source staged, paths root (opID o) workspaceID = inr (source, staged) ->
             styleDirs w' !! source = None /\ styleDirs w' !! staged = None)
       /\ ~ served (live w') /\ workspaceID ∉ wfsWorkspaces (live w') /\ workspaceID ∉ cachedWorkspaces (live w'))
    (fun w' => afterCommit w w' /\ (faulty (fates w') < faulty (fates w))%nat) (afterCommit w) w.
Proof.
  intros Ht Hgone Haux Hsrc. assert (Htc : tracked o committed (cat w)) by (eapply tracked_mono; [exact Ht|]; by intros ? <-).
  unfold finish. apply jwp_bind. eapply jwp_mono; [apply remove_spec| |intros w1 (F & rs & l & -> & Hl & HF & Hrs); by split; [split|]|
    intros w1 (F & rs & l & -> & HF & Hrs); by split].
  intros [] w1 (F & rs & l & -> & Hl & HF & Hrs).
  assert (HF' : F ⊆ importFiles w) by (intros f Hf; by apply HF in Hf as [Hf _]).
  assert (Hrs' : forall b, b ∈ rs -> b ∈ managed_assets w) by (intros b Hb; by apply Hrs in Hb as [Hb _]).
  apply jwp_bind. eapply (jwp_mono _ (fun _ w' => exists d l', w' = set_dirs d (set_managed rs (set_files F (set_fates l' w)))
     /\ (faulty l' <= faulty l)%nat /\ (styleReady (styleDirs w) -> styleReady d)
     /\ (Scope plan = DeletionScopeWorkspace -> forall source staged, paths root (opID o) workspaceID = inr (source, staged) ->
             d !! source = None /\ d !! staged = None))
     _ (fun w' => afterCommit w w' /\ (faulty (fates w') < faulty (fates w))%nat) _ _ (afterCommit w)); [|..|done|done].
  { unfold onlyWorkspace. destruct (Scope plan); [|apply jwp_ret; by exists (styleDirs w), l].
    eapply jwp_mono; [by apply RemoveStaged_spec, Hsrc|..].
    - intros [] w1 (d & l' & -> & Hl' & Hsty & Hno). by exists d, l'.
    - intros w1 (l' & -> & Hl'). split; [by split|]. exact (Nat.lt_le_trans _ _ _ Hl' Hl).
    - intros w1 (l' & ->). by split. }
  intros [] w1 (d & l1 & -> & Hl1 & Hsty & Hno). apply jwp_bind, clearRuntime_spec; [|intros r l2; by split].
  intros r l2 Hl2 Hserved Hwfs Hcache. change (faulty l2 <= faulty l1)%nat in Hl2.
  apply jwp_bind, (jwp_progress o committed); [done|intros l3 c Hl3 Hstep Hc|intros l3 Hl3|intros l3; by split].
  2:{ change (faulty l3 < faulty l2)%nat in Hl3. split; [by split|]. change (faulty l3 < faulty (fates w))%nat. lia. }
  change (faulty l3 <= faulty l2)%nat in Hl3. change (ownStep o (cat w) c) in Hstep.
  assert (Htr : tracked o (eq DeletionPhaseRuntimeCleared) c) by (rewrite Hc; by eapply update_tracked).
  assert (Htr' : tracked o committed c) by (eapply tracked_mono; [exact Htr|]; by intros ? <-).
  assert (Hgc : catalogGone plan c) by by rewrite Hc.
  assert (Hrtc : rtc (ownStep o) (cat w) c) by by apply rtc_once.
  apply (jwp_progress o committed); [done|intros l4 c' Hl4 Hstep' Hc'|intros l4 Hl4|intros l4; by split].
  2:{ change (faulty l4 < faulty l3)%nat in Hl4. split; [by split|]. change (faulty l4 < faulty (fates w))%nat. lia. }
  change (ownStep o c c') in Hstep'. split; [by eapply rtc_r|]. split.
  { destruct Htr' as (cur & Hg & Hu & _ & Hf). exists (updateOperation now DeletionCompleted DeletionPhaseCompleted "" cur).
    cbn [cat set_cat]. rewrite Hc', Get_onOperation by done. change (GetCatalogDeletion (cat _) (opID o)) with (GetCatalogDeletion c (opID o)).
    rewrite Hg. done. }
  split; [by cbn [cat set_cat]; rewrite Hc'|]. split; [done|]. split; [exact HF|]. split; [exact Hrs|]. split; [exact Hno|]. done.
Qed.

(** ** A whole attempt *)

(** Everything of the target is gone. *)
Record finished (w w' : world) : Prop := {
  fi_steps : rtc (ownStep o) (cat w) (cat w');
  fi_completed : completed o (cat w');
  fi_gone : catalogGone plan (cat w');
  fi_aux : auxGone w';
  fi_rows : forall b, b ∈ managed_assets w' <-> b ∈ managed_assets w /\ assetService b ∉ deletionServiceIDs plan;
  fi_files : forall f, f ∈ importFiles w' <->
    f ∈ importFiles w /\ forall a, concerns o (managed_assets w) a -> f <> Path a /\ f <> stagedPath (opID o) a;
  fi_styles : Scope plan = DeletionScopeWorkspace -> forall source staged, paths root (opID o) workspaceID = inr (source, staged) ->
    styleDirs w' !! source = None /\ styleDirs w' !! staged = None;
  fi_runtime : ~ served (live w') /\ workspaceID ∉ wfsWorkspaces (live w') /\ workspaceID ∉ cachedWorkspaces (live w') }.

(** The operation is unfinished, the rows of the catalog are all there or all gone, and files are
    missing only after the commit. *)
Record interrupted (w w' : world) : Prop := {
  it_steps : rtc (ownStep o) (cat w) (cat w');
  it_tracked : tracked o (fun _ => True) (cat w');
  it_atomic : set_deletions (cat w') [] = set_deletions (cat w) [] \/ catalogGone plan (cat w');
  it_rows : forall a, a ∈ managed_assets w' -> a ∈ managed_assets w;
  it_both : notBoth w';
  it_aux : auxInv w';
  it_styles : styleReady (styleDirs w) -> styleReady (styleDirs w') }.

Definition resumable (w : world) : Prop := filesReady w \/ tracked o committed (cat w).

Lemma notBoth_moved (w w' : world) : notBoth w -> managed_assets w' = managed_assets w ->
  moved o (managed_assets w) (importFiles w) (importFiles w') -> notBoth w'.
Proof. intros Hnb Hr [Hm _] a Ha Hb. rewrite Hr in Ha. apply (Hnb a Ha). by apply (Hm a Ha). Qed.

Lemma filesReady_moved (w w' : world) : filesReady w -> managed_assets w' = managed_assets w ->
  moved o (managed_assets w) (importFiles w) (importFiles w') -> filesReady w'.
Proof. intros Hf Hr [Hm _] a Ha. rewrite Hr in Ha. apply (Hm a Ha). by apply Hf. Qed.

(** An attempt that ends before the commit: the files may have other names. *)
Lemma interrupted_before P (w w1 w2 : world) : beforeFiles P w w1 -> notBoth w -> renamedDown o (managed_assets w) w1 w2 ->
  interrupted w w2 /\ (filesReady w -> filesReady w2).
Proof.
  intros Hb Hnb (F & l & -> & Hm). rewrite (bf_files P w w1 Hb) in Hm.
  assert (Hr : managed_assets (set_files F (set_fates l w1)) = managed_assets w) by apply (bf_rows P w w1 Hb).
  split; [|intros Hf; by eapply filesReady_moved]. destruct Hb as [A B C D E F' G]. split; try done.
  - eapply tracked_mono; [exact C|done].
  - by left.
  - intros a Ha. by rewrite Hr in Ha.
  - by eapply notBoth_moved.
Qed.

Lemma notBoth_subset (w w' : world) : notBoth w -> (forall a, a ∈ managed_assets w' -> a ∈ managed_assets w) ->
  importFiles w' ⊆ importFiles w -> notBoth w'.
Proof. intros Hnb Hr Hf a [Ha Hs] [Hp Hst]. apply (Hnb a); [split; [by apply Hr|done]|]. split; by apply Hf. Qed.

Lemma commitOrRestore_spec now rows out Q E X (w : world) : managedWf o rows -> tracked o (eq DeletionPhaseAuxiliaryRemoved) (cat w) ->
  Forall (concerns o rows) out ->
  (forall l c, (faulty l <= faulty (fates w))%nat -> ownStep o (cat w) c -> tracked o (eq DeletionPhaseCatalogCommitted) c ->
     catalogGone plan c -> Q tt (set_cat c (set_fates l w))) ->
  (forall w', renamedDown o rows w w' -> E w' /\ X w') -> jwp (commitOrRestore now (opID o) out) Q E X w.
Proof.
  intros Hw Ht Hout Hq Hend.
  pose proof (jwp_commit o now Q (fun w' => exists l, w' = set_fates l w) (fun w' => exists l, w' = set_fates l w) w Ht Hq) as Hc.
  unfold jwp, commitOrRestore in *. destruct (commit now (opID o) w) as [[[]|e|] w1].
  - apply Hc; eauto.
  - destruct Hc as [l ->]; [by eauto..|]. apply (restoring_spec o rows Hw); [done|..].
    all: intros w' Hr; try apply renamed_down in Hr; destruct Hr as (F & l' & -> & Hm); apply Hend; by exists F, l'.
  - destruct Hc as [l ->]; [by eauto..|]. apply Hend. exists (importFiles w), l. split; [by destruct w|apply moved_refl].
Qed.

(** The state after the commit, with the files under their staged names. *)
Record staged (w w3 : world) (out : list ManagedAsset) : Prop := {
  sg_steps : rtc (ownStep o) (cat w) (cat w3);
  sg_tracked : tracked o (eq DeletionPhaseCatalogCommitted) (cat w3);
  sg_gone : catalogGone plan (cat w3);
  sg_rows : managed_assets w3 = managed_assets w;
  sg_moved : moved o (managed_assets w) (importFiles w) (importFiles w3);
  sg_out : forall a, a ∈ out <-> concerns o (managed_assets w) a;
  sg_paths : forall a, a ∈ out -> Path a ∉ importFiles w3;
  sg_aux : auxInv w3;
  sg_auxGone : auxGone w3;
  sg_source : Scope plan = DeletionScopeWorkspace -> sourceGone (styleDirs w3);
  sg_styles : styleReady (styleDirs w) -> styleReady (styleDirs w3) }.

Lemma interrupted_after (w w3 w4 : world) out : staged w w3 out -> notBoth w -> afterCommit w3 w4 ->
  interrupted w w4 /\ tracked o committed (cat w4).
Proof.
  intros [A B C D E F G H7 I K L] Hnb [A' B' C' D' E' F' G']. split; [|done]. split; try done.
  - by etrans.
  - eapply tracked_mono; [exact C'|done].
  - by right.
  - intros a Ha. rewrite <- D. by apply D'.
  - apply (notBoth_subset w3); [|done|done]. by eapply notBoth_moved.
  - auto.
Qed.

Lemma finished_after now (w w3 : world) out : managedWf o (managed_assets w) -> staged w w3 out -> notBoth w ->
  jwp (finish root now o out) (fun _ => finished w)
    (fun w4 => interrupted w w4 /\ tracked o committed (cat w4) /\ (faulty (fates w4) < faulty (fates w3))%nat)
    (fun w4 => interrupted w w4 /\ tracked o committed (cat w4)) w3.
Proof.
  intros Hw Hs Hnb. pose proof Hs as [A B C D E F G H7 I K L].
  eapply jwp_mono; [by apply finish_spec|..].
  2:{ intros w4 [Ha Hl]. destruct (interrupted_after w w3 w4 out Hs Hnb Ha). done. }
  2:{ intros w4 Ha. by apply (interrupted_after w w3 w4 out). }
  intros [] w4 (Hrtc & Hco & Hgo & [= E1 E2 E3 E4] & Hf & Hr & Hsty & Hrun).
  split; try done.
  - by etrans.
  - unfold auxGone. by rewrite E1, E2, E3, E4.
  - intros b. rewrite Hr, D. split; intros [Hb Hx]; (split; [done|]).
    + intros Hsvc. apply (Hx b); [|done]. by apply F.
    + intros a Ha%F He. destruct Ha as [Ha Hsvc]. apply Hx. by rewrite <- (mw_import o _ Hw a b Ha Hb ltac:(done)).
  - intros f. rewrite Hf. split.
    + intros [Hin Hn]. assert (Hall : forall a, concerns o (managed_assets w) a -> f <> Path a /\ f <> stagedPath (opID o) a).
      { intros a Ha. pose proof (proj2 (F a) Ha) as Hout. split; [|by apply Hn]. intros ->. by apply (G a). }
      split; [|done]. by apply (proj2 E f Hall).
    + intros [Hin Hn]. split; [by apply (proj2 E f Hn)|]. intros a Ha%F. by apply Hn.
Qed.

Lemma execute_spec now (w : world) : tracked o (fun _ => True) (cat w) -> auxInv w -> auxScope ->
  managedWf o (managed_assets w) -> notBoth w ->
  jwp (execute root now o) (fun _ => finished w)
    (fun w' => interrupted w w' /\ (filesReady w -> (faulty (fates w) <= 1)%nat ->
                 filesReady w' \/ tracked o committed (cat w') /\ faulty (fates w') = 0%nat))
    (fun w' => interrupted w w' /\ (filesReady w -> resumable w')) w.
Proof.
  intros Ht Haux Hsc Hw Hnb. set (rows := managed_assets w) in *. unfold execute, resumable.
  assert (Hdown : forall P w1 w2, beforeFiles P w w1 -> renamedDown o rows w1 w2 -> interrupted w w2 /\ (filesReady w -> filesReady w2)).
  { intros P w1 w2 Hb Hr. by eapply interrupted_before. }
  assert (Hself : forall P w1, beforeFiles P w w1 -> interrupted w w1 /\ (filesReady w -> filesReady w1)).
  { intros P w1 Hb. apply (Hdown P w1); [done|]. exists (importFiles w1), (fates w1). split; [by destruct w1|apply moved_refl]. }
  apply jwp_bind. eapply jwp_mono; [by apply (removeAuxiliary_spec (fun _ => True))| |
    intros w1 Hb; destruct (Hself _ _ Hb); tauto | intros w1 Hb; destruct (Hself _ _ Hb); tauto].
  intros [] w1 (Hb & Hag & Hl1 & Hlive & Hsrc). pose proof (bf_rows _ _ _ Hb) as Hr1. pose proof (bf_files _ _ _ Hb) as Hf1.
  apply jwp_bind. eapply jwp_mono; [apply (stage_spec o rows Hw); [done|done|by constructor|by rewrite Hf1|by intros a ?%not_elem_of_nil]
    | |intros w2 Hr%renamed_down; destruct (Hdown _ _ _ Hb Hr); tauto|intros w2 Hr; destruct (Hdown _ _ _ Hb Hr); tauto].
  intros out w2 (Hren & Hout & _ & Hin & Hpo & _). destruct Hren as (F & l & -> & Hm & Hl).
  assert (Hmid : forall l', interrupted w (set_files F (set_fates l' w1)) /\ (filesReady w -> filesReady (set_files F (set_fates l' w1)))).
  { intros l'. apply (Hdown _ w1 _ Hb). by exists F, l'. }
  apply jwp_bind, (jwp_progress o (eq DeletionPhaseJobsQuiesced)); [exact (bf_tracked _ _ _ Hb)|intros l2 c Hl2 Hstep Hc|intros l2 Hl2|intros l2];
    try (destruct (Hmid l2); tauto).
  change (ownStep o (cat w1) c) in Hstep. change (faulty l2 <= faulty l)%nat in Hl2.
  assert (Htr : tracked o (eq DeletionPhaseAuxiliaryRemoved) c) by (rewrite Hc; eapply update_tracked; [exact (bf_tracked _ _ _ Hb)|done]).
  assert (Hbc : beforeFiles (eq DeletionPhaseAuxiliaryRemoved) w (set_cat c w1)).
  { destruct Hb as [A B C D E F' G]. split; try done; cbn [cat set_cat]; [by eapply rtc_r|by rewrite Hc]. }
  apply jwp_bind, (commitOrRestore_spec now rows); [done|exact Htr|done| |].
  - intros l3 c3 Hl3 Hstep3 Htr3 Hgone3. change (faulty l3 <= faulty l2)%nat in Hl3.
    eapply jwp_mono; [apply (finished_after now w); [done| |done]|done|intros w4 (Hi & Hco & Hlt)|intros w4 (Hi & Hco)].
    + split; try done.
      * eapply rtc_r; [exact (bf_steps _ _ _ Hbc)|done].
      * cbn [importFiles set_cat set_files set_fates]. by rewrite <- Hf1.
      * intros a. split; [intros Ha; by eapply Forall_forall in Hout|]. intros [Ha Hs]. by apply Hin.
      * exact (bf_aux _ _ _ Hb).
      * exact (bf_styles _ _ _ Hb).
    + split; [done|]. intros _ Hone. right. split; [done|]. change (faulty (fates w4) < faulty l3)%nat in Hlt. lia.
    + tauto.
  - intros w4 (F' & l' & -> & Hm'). destruct (Hdown _ _ (set_cat c (set_files F' (set_fates l' w1))) Hbc) as [Hi Hf]; [|tauto].
    exists F', l'. split; [done|]. cbn [importFiles set_cat]. by eapply moved_trans.
Qed.

Definition recoverable (w w' : world) : Prop :=
  interrupted w w' /\ (filesReady w -> (faulty (fates w) <= 1)%nat -> resumable w').

Lemma recordFailure_spec now e (w w1 : world) : interrupted w w1 ->
  (filesReady w -> (faulty (fates w) <= 1)%nat -> filesReady w1 \/ tracked o committed (cat w1) /\ faulty (fates w1) = 0%nat) ->
  jwp (recordFailure message now o e) (fun _ => recoverable w) (fun _ => False) (recoverable w) w1.
Proof.
  intros Hi Hres. pose proof Hi as [A B C D E F G].
  assert (Hstay : forall l, recoverable w (set_fates l w1)).
  { intros l. split; [by split|]. unfold resumable. intros Hf Hl. destruct (Hres Hf Hl) as [?|[? _]]; [by left|by right]. }
  unfold recordFailure. apply jwp_bind, jwp_nextFate; [intros l Hl|intros l Hl|done]; apply jwp_bind, jwp_reads;
    match goal with |- jwp (inWorld (fun w => match progress _ _ _ ?ph ?t w with _ => _ end)) _ _ _ _ => set (phase := ph); set (text := t) end;
    pose proof (jwp_progress o (fun _ => True) now DeletionFailed phase text
      (fun _ w2 => exists l2 c, ownStep o (cat w1) c /\ c = set_deletions (cat w1) (onOperation (updateOperation now DeletionFailed phase text) (opID o)
                     (catalog_deletions (cat w1))) /\ w2 = set_cat c (set_fates l2 w1))
      (fun w2 => exists l2, w2 = set_fates l2 w1) (fun w2 => exists l2, w2 = set_fates l2 w1) (set_fates l w1) B) as Hp;
    unfold jwp, inWorld in *; destruct (progress _ _ _ _ _ _) as [[[]|e'|] w2];
    (destruct Hp as [l2 Hp]; [naive_solver..|]); try (subst w2; apply Hstay).
  all: destruct Hp as (c & Hstep & Hc & ->); (assert (Ht : tracked o (eq phase) c) by (rewrite Hc; by eapply update_tracked));
    split; [split; try done; cbn [cat set_cat]; [by eapply rtc_r|by eapply tracked_mono|by rewrite Hc]|].
  all: intros Hf Hone; destruct (Hres Hf Hone) as [Hfr|[Hco Hz]]; [by left|].
  - right. eapply tracked_mono; [exact Ht|]. intros ? <-. destruct Hco as (cur & Hg & _ & Hcm & _). unfold phase.
    change (cat (set_fates l w1)) with (cat w1). by rewrite Hg.
  - lia.
Qed.

Lemma attempt_spec now (w : world) : tracked o (fun _ => True) (cat w) -> auxInv w -> auxScope ->
  managedWf o (managed_assets w) -> notBoth w ->
  jwp (attempt root message now o) (fun _ w' => finished w w' \/ recoverable w w') (fun _ => False) (recoverable w) w.
Proof.
  intros Ht Haux Hsc Hw Hnb. pose proof (execute_spec now w Ht Haux Hsc Hw Hnb) as He. unfold jwp, attempt in *.
  destruct (execute root now o w) as [[[]|e|] w1]; [by left| |].
  - destruct He as [Hi Hr]. pose proof (recordFailure_spec now e w w1 Hi Hr) as Hp. unfold jwp in Hp.
    destruct (recordFailure message now o e w1) as [[[]|e'|] w2]; [by right|done|done].
  - destruct He as [Hi Hr]. split; [done|]. auto.
Qed.

(** ** Without faults *)

Definition auxSucceeds (w : world) : Prop :=
  (lcRemove workspaceID resources (tileJobs w)).1 = None /\ (lcRemove workspaceID serviceScope (stac w)).1 = None
  /\ (lcRemove workspaceID serviceScope (mosaic w)).1 = None /\ (lcRemove workspaceID resources (tileCache w)).1 = None.

Definition never : world -> Prop := fun _ => False.

Lemma progress_runs P now status phase text (Q : unit -> world -> Prop) (w : world) : fates w = [] -> tracked o P (cat w) ->
  Q tt (set_cat (set_deletions (cat w) (onOperation (updateOperation now status phase text) (opID o) (catalog_deletions (cat w)))) w) ->
  jwp (progress now (opID o) status phase text) Q never never w.
Proof.
  intros Hl (cur & Hg & _) Hq. apply jwp_bind, jwp_works; [done|]. unfold jwp, inWorld. by rewrite (update_found _ _ _ _ _ _ cur Hg).
Qed.

Lemma removeFrom_runs {X} `{Lifecycle X} (get : world -> X) set wrap ids (Q : unit -> world -> Prop) w :
  (lcRemove workspaceID ids (get w)).1 = None -> (forall x, Q tt (set x w)) -> jwp (removeFrom get set wrap workspaceID ids) Q never never w.
Proof. intros Hn Hq. apply jwp_removeFrom; [by intros|]. intros e x He. by rewrite He in Hn. Qed.

Lemma Stage_runs (w : world) : fates w = [] -> styleReady (styleDirs w) -> hasSeparator (opID o) || hasSeparator workspaceID = false ->
  jwp (Stage root (opID o) workspaceID) (fun _ w' => exists d, w' = set_dirs d w) never never w.
Proof.
  intros Hl Hs Hsep. unfold Stage, styleReady in *. unfold paths in *. rewrite orb_comm in Hsep. rewrite Hsep in *.
  destruct (Hs _ _ eq_refl) as [Hkind Hone]. clear Hs.
  set (source := JoinPath root workspaceID) in *. set (stg := JoinPath (JoinPath root ".deleting") (opID o)) in *.
  unfold lstat. do 2 (apply jwp_bind, jwp_bind, jwp_works; [done|]; apply jwp_reads).
  destruct (styleDirs w !! source) as [[]|] eqn:Hsrc; [|done|apply jwp_ret; exists (styleDirs w); by destruct w].
  destruct Hone as [|Hst]; [done|]. rewrite Hst. do 2 (apply jwp_bind, jwp_works; [done|]). apply jwp_modify. eauto.
Qed.

Lemma stageOne_runs rows isCommitted assets a (w : world) : managedWf o rows -> concerns o rows a -> fates w = [] ->
  hasFile o (importFiles w) a \/ isCommitted = true ->
  jwp (stageOne (opID o) isCommitted assets a) (fun _ w' => exists F, w' = set_files F w /\ moved o rows (importFiles w) F) never never w.
Proof.
  intros Hw Ha Hl Hf. unfold stageOne. apply jwp_bind, jwp_works; [done|]. apply jwp_bind, jwp_reads.
  assert (Hsame : exists F, w = set_files F w /\ moved o rows (importFiles w) F) by (exists (importFiles w); by destruct w).
  case_bool_decide as Hst; [done|]. apply jwp_bind, jwp_works; [done|]. apply jwp_bind, jwp_reads. case_bool_decide as Hp.
  - apply jwp_modify. eexists. split; [reflexivity|]. apply (rename_moved o rows Hw a); [done|done|by left].
  - destruct Hf as [[?|?]|Hc]; [done|done|]. rewrite Hc. by apply jwp_ret.
Qed.

Lemma stage_runs rows isCommitted ids assets (w : world) : managedWf o rows -> managed_assets w = rows -> fates w = [] ->
  (forall s, s ∈ ids -> s ∈ deletionServiceIDs plan) ->
  (forall a, concerns o rows a -> hasFile o (importFiles w) a \/ isCommitted = true) ->
  jwp (stageManagedImports (opID o) ids isCommitted assets) (fun _ w' => exists F, w' = set_files F w) never never w.
Proof.
  intros Hw. revert assets w. induction ids as [|s ids IH]; intros assets w Hr Hl Hids Hf; cbn [stageManagedImports].
  { apply jwp_ret. exists (importFiles w). by destruct w. }
  apply jwp_bind, jwp_bind, jwp_works; [done|]. apply jwp_reads. rewrite Hr. destruct (List.find _ rows) as [a|] eqn:Hfind.
  - apply find_asset_Some in Hfind as [Ha Hs].
    assert (Hc : concerns o rows a) by (split; [done|]; rewrite Hs; apply Hids; by left).
    apply jwp_bind. eapply jwp_mono; [apply (stageOne_runs rows); [done|done|done|by apply Hf]| |done|done].
    intros [] w1 (F & -> & [Hm _]). eapply jwp_mono; [apply IH; [done|done|intros x Hx; apply Hids; by right|]| |done|done].
    + intros b Hb. destruct (Hf b Hb) as [Hb'|]; [left; by apply (Hm b Hb)|by right].
    + intros out w2 [F' ->]. by exists F'.
  - apply IH; [done|done|intros x Hx; apply Hids; by right|done].
Qed.

Lemma removeManaged_runs assets (w : world) : fates w = [] ->
  jwp (removeManagedImports (opID o) assets) (fun _ w' => exists F rs, w' = set_managed rs (set_files F w)) never never w.
Proof.
  revert w. induction assets as [|a assets IH]; intros w Hl; cbn [removeManagedImports].
  { apply jwp_ret. exists (importFiles w), (managed_assets w). by destruct w. }
  apply jwp_bind, jwp_works; [done|]. apply jwp_bind, jwp_modify, jwp_bind, jwp_works; [done|]. apply jwp_bind, jwp_modify.
  eapply jwp_mono; [by apply IH| |done|done]. intros [] w1 (F & rs & ->). by exists F, rs.
Qed.

Lemma finish_runs now assets (w : world) : fates w = [] -> tracked o committed (cat w) ->
  (Scope plan = DeletionScopeWorkspace -> hasSeparator (opID o) || hasSeparator workspaceID = false) ->
  jwp (finish root now o assets) (fun _ _ => True) never never w.
Proof.
  intros Hl Ht Hsep. apply jwp_bind. eapply jwp_mono; [by apply removeManaged_runs| |done|done]. intros [] w1 (F & rs & ->).
  apply jwp_bind. eapply (jwp_mono _ (fun _ w' => exists d, w' = set_dirs d (set_managed rs (set_files F w)))); [|..|intros w' Hx; exact Hx|
    intros w' Hx; exact Hx].
  { unfold onlyWorkspace. destruct (Scope plan).
    - unfold RemoveStaged, paths. specialize (Hsep eq_refl). apply orb_false_iff in Hsep as [-> _].
      change (hasSeparator "unused") with false. apply jwp_bind, jwp_works; [done|]. apply jwp_modify. eauto.
    - apply jwp_ret. exists (styleDirs w). by destruct w. }
  intros [] w1 [d ->]. apply jwp_bind, jwp_bind, jwp_modify, jwp_bind, jwp_modify, jwp_bind, jwp_works; [done|]. apply jwp_modify.
  apply jwp_bind, (progress_runs committed); [done|done|]. apply (progress_runs (eq DeletionPhaseRuntimeCleared)); [done| |done].
  by eapply update_tracked.
Qed.

Lemma execute_runs now (w : world) : fates w = [] -> tracked o (fun _ => True) (cat w) -> auxSucceeds w ->
  managedWf o (managed_assets w) -> filesReady w \/ committed (opPhase o) ->
  (Scope plan = DeletionScopeWorkspace -> styleReady (styleDirs w) /\ hasSeparator (opID o) || hasSeparator workspaceID = false) ->
  jwp (execute root now o) (fun _ _ => True) never never w.
Proof.
  intros Hl Ht (Sj & Ss & Sm & St) Hw Hf Hsty. unfold execute. apply jwp_bind.
  eapply (jwp_mono _ (fun _ w' => exists c d j s m t r, w' = mkWorld c (managed_assets w) (importFiles w) d j s m t r []
            /\ tracked o (eq DeletionPhaseJobsQuiesced) c)); [|..|intros w' Hx; exact Hx|intros w' Hx; exact Hx].
  { unfold removeAuxiliary. apply jwp_bind, jwp_modify, jwp_bind, removeFrom_runs; [done|]. intros j.
    apply jwp_bind, (progress_runs (fun _ => True)); [done|done|]. apply jwp_bind, removeFrom_runs; [done|]. intros s.
    apply jwp_bind, removeFrom_runs; [done|]. intros m. apply jwp_bind, removeFrom_runs; [done|]. intros t.
    pose proof (update_tracked o _ now (cat w) DeletionRunning DeletionPhaseJobsQuiesced "" Ht ltac:(done)) as Htr.
    unfold onlyWorkspace. destruct (Scope plan).
    - destruct (Hsty eq_refl) as [Hs1 Hs2]. eapply jwp_mono; [by apply Stage_runs| |done|done]. intros [] w' [d ->].
      do 7 eexists. split; [unfold set_dirs; cbn; by rewrite Hl|exact Htr].
    - apply jwp_ret. do 7 eexists. split; [unfold set_tileCache; cbn; by rewrite Hl|exact Htr]. }
  intros [] w1 (c & d & j & s & m & t & r & -> & Htr). apply jwp_bind.
  eapply jwp_mono; [apply (stage_runs (managed_assets w)); [done|done|done|done|]| |done|done].
  { intros a Ha. destruct Hf as [Hf|Hf]; [left; by apply Hf|by right]. }
  intros out w2 [F ->]. apply jwp_bind, (progress_runs (eq DeletionPhaseJobsQuiesced)); [done|done|].
  set (w3 := set_cat _ _). assert (Htr3 : tracked o (eq DeletionPhaseAuxiliaryRemoved) (cat w3)) by by eapply update_tracked.
  destruct (commit_effect o now (cat w3) Htr3) as (c' & Hc & Htc & _).
  apply jwp_bind. unfold jwp, commitOrRestore, commit, statement, mbind, job_bind.
  change (nextFate w3) with (Done false, w3). unfold inWorld. rewrite Hc. apply finish_runs; [done| |intros Hx; by destruct (Hsty Hx)].
  eapply tracked_mono; [exact Htc|]. by intros ? <-.
Qed.

(** ** A lost file

    The row of an import is there, its file is not, and the recorded phase is before the commit. *)
Definition uncommitted (ph : DeletionPhase) : Prop := committedPhase ph = false.

Record lost (w : world) : Prop := {
  lo_tracked : tracked o uncommitted (cat w);
  lo_aux : auxInv w;
  lo_wf : managedWf o (managed_assets w);
  lo_both : notBoth w;
  lo_file : exists a, concerns o (managed_assets w) a /\ ~ hasFile o (importFiles w) a }.

Lemma lost_renamed P (w w1 w2 : world) : (forall ph, P ph -> uncommitted ph) -> lost w -> beforeFiles P w w1 ->
  renamedDown o (managed_assets w) w1 w2 -> lost w2.
Proof.
  intros HP [A B C D (a & Ha & Hn)] Hb Hr. destruct (interrupted_before P w w1 w2 Hb D Hr) as [[_ _ _ _ Hnb Hi _] _].
  destruct Hr as (F & l & -> & Hm). pose proof (bf_rows _ _ _ Hb) as Hrows. rewrite (bf_files _ _ _ Hb) in Hm.
  split; try done.
  - eapply tracked_mono; [exact (bf_tracked _ _ _ Hb)|done].
  - cbn [managed_assets set_files set_fates]. by rewrite Hrows.
  - exists a. cbn [managed_assets importFiles set_files set_fates]. rewrite Hrows. split; [done|].
    intros Hf. apply Hn. by apply (proj1 Hm a Ha).
Qed.

Lemma lost_execute now (w : world) : uncommitted (opPhase o) -> auxScope -> lost w ->
  jwp (execute root now o) (fun _ _ => False) lost lost w.
Proof.
  intros Hph Hsc Hlost. pose proof Hlost as [A B C D (a & Ha & Hn)]. unfold execute. apply jwp_bind.
  assert (Hself : forall w1, beforeFiles uncommitted w w1 -> lost w1).
  { intros w1 Hb. eapply (lost_renamed uncommitted); [done|exact Hlost|exact Hb|]. exists (importFiles w1), (fates w1).
    split; [by destruct w1|apply moved_refl]. }
  eapply jwp_mono; [by apply (removeAuxiliary_spec uncommitted)| |exact Hself|exact Hself].
  intros [] w1 (Hb & _). pose proof (bf_rows _ _ _ Hb) as Hr1. pose proof (bf_files _ _ _ Hb) as Hf1.
  assert (Hdown : forall w2, renamedDown o (managed_assets w) w1 w2 -> lost w2).
  { intros w2 Hr. eapply lost_renamed; [|done|exact Hb|exact Hr]. by intros ? <-. }
  rewrite Hph. apply jwp_bind. eapply jwp_mono; [apply (stage_spec o (managed_assets w) C); [done|done|by constructor|by rewrite Hf1|by intros x ?%not_elem_of_nil]
    | |intros w2 Hr%renamed_down; by apply Hdown|exact Hdown].
  intros out w2 (_ & _ & _ & _ & _ & Hhas). exfalso. apply Hn. rewrite <- Hf1. destruct Ha as [Ha Hs]. by apply Hhas.
Qed.

Lemma lost_progress now status phase text (w : world) l c : lost w -> status <> DeletionCompleted -> uncommitted phase ->
  c = set_deletions (cat w) (onOperation (updateOperation now status phase text) (opID o) (catalog_deletions (cat w))) ->
  lost (set_cat c (set_fates l w)).
Proof.
  intros [A B C D E] Hs Hp ->. split; try done. eapply tracked_mono; [by eapply update_tracked|]. by intros ? <-.
Qed.

Lemma lost_fates l (w : world) : lost w -> lost (set_fates l w).
Proof. by intros [A B C D E]. Qed.

Lemma lost_attempt now (w : world) : uncommitted (opPhase o) -> auxScope -> lost w ->
  jwp (attempt root message now o) (fun _ => lost) (fun _ => False) lost w.
Proof.
  intros Hph Hsc Hlost. pose proof (lost_execute now w Hph Hsc Hlost) as He. unfold jwp, attempt in *.
  destruct (execute root now o w) as [[[]|e|] w1]; [done| |done]. change (jwp (recordFailure message now o e) (fun _ => lost) (fun _ => False) lost w1).
  unfold recordFailure. apply jwp_bind, jwp_nextFate; [intros l Hl|intros l Hl|intros l; by apply lost_fates]; apply jwp_bind, jwp_reads.
  all: match goal with |- jwp (inWorld (fun w => match progress _ _ _ ?ph ?t w with _ => _ end)) _ _ _ _ =>
         assert (Hp : uncommitted ph); [|set (phase := ph) in *; set (text := t)] end.
  1,3: pose proof (lo_tracked w1 He) as (cur & Hg & _ & Hc & _); change (cat (set_fates l w1)) with (cat w1); by rewrite Hg.
  all: pose proof (jwp_progress o uncommitted now DeletionFailed phase text (fun _ => lost) lost lost (set_fates l w1) (lo_tracked w1 He)) as Hq;
    unfold jwp, inWorld in *; destruct (progress _ _ _ _ _ _) as [[[]|e'|] w2]; apply Hq; intros;
    try (by apply (lost_progress now DeletionFailed phase text w1)); by apply (lost_fates _ w1).
Qed.
End Attempts.
