(* ===== verification/DeletionTheorems.v ===== *)
(** * Catalog deletions: completeness, recovery, and an operation that no retry ends *)

From stdpp Require Import relations.
From S2P Require Import Prelude GoText GoPath CatalogStore CatalogDeletion CatalogTheorems DeletionCoordinator DeletionCorrect DeletionAttempt.

(** ** The same task read again from the table *)

Definition sameTask (o o' : DeletionOperation) : Prop := opID o' = opID o /\ opPlan o' = opPlan o.

Section Tasks.
Context {J S M T : Type} `{LifecycleLaws J} `{LifecycleLaws S} `{LifecycleLaws M} `{LifecycleLaws T}.
Context (root : string) (message : lifecycleError -> string).
Local Abbreviation world := (world J S M T).
Context (o o' : DeletionOperation) (Hsame : sameTask o o').

Lemma tracked_task P c : tracked o P c -> tracked o' P c.
Proof using Hsame. destruct Hsame as [Hid Hplan]. unfold tracked, follows. by rewrite Hid, Hplan. Qed.

Lemma managedWf_task rows : managedWf o rows -> managedWf o' rows.
Proof using Hsame. destruct Hsame as [Hid Hplan]. intros [A B C D]. split; rewrite ?Hid, ?Hplan; done. Qed.

Lemma notBoth_task (w : world) : notBoth o w -> notBoth o' w.
Proof using Hsame. destruct Hsame as [Hid Hplan]. unfold notBoth, concerns, hasBoth. by rewrite Hid, Hplan. Qed.

Lemma filesReady_task (w : world) : filesReady o w -> filesReady o' w.
Proof using Hsame. destruct Hsame as [Hid Hplan]. unfold filesReady, concerns, hasFile. by rewrite Hid, Hplan. Qed.

Lemma auxScope_task : auxScope (J := J) (S := S) (M := M) (T := T) o -> auxScope (J := J) (S := S) (M := M) (T := T) o'.
Proof using Hsame. destruct Hsame as [_ Hplan]. unfold auxScope. by rewrite Hplan. Qed.

Lemma auxSucceeds_task (w : world) : auxSucceeds o w -> auxSucceeds o' w.
Proof using Hsame. destruct Hsame as [_ Hplan]. unfold auxSucceeds. by rewrite Hplan. Qed.

Lemma styleReady_task d : styleReady root o d -> styleReady root o' d.
Proof using Hsame. destruct Hsame as [Hid Hplan]. unfold styleReady. by rewrite Hid, Hplan. Qed.

Lemma lost_task (w : world) : lost o w -> lost o' w.
Proof using Hsame.
  intros [A B C D (a & Ha & Hn)]. split; [by apply tracked_task|done|by apply managedWf_task|by apply notBoth_task|].
  exists a. destruct Hsame as [Hid Hplan]. unfold concerns, hasFile in *. by rewrite Hid, Hplan.
Qed.
End Tasks.

(** What a retry reads. *)
Lemma reread_same o cur : follows o cur -> opID cur = opID o -> sameTask o (withProgress DeletionRunning (opPhase cur) cur).
Proof. intros (_ & _ & _ & Hp) Hid. by split. Qed.

Section Theorems.
Context {J S M T : Type} `{LifecycleLaws J} `{LifecycleLaws S} `{LifecycleLaws M} `{LifecycleLaws T}.
Context (root : string) (message : lifecycleError -> string).
Local Abbreviation world := (world J S M T).

(** What holds when an attempt begins: the operation is in the table and unfinished, the auxiliary
    stores are consistent, and the imports have their rows and paths. *)
Record startable (o : DeletionOperation) (w : world) : Prop := {
  st_tracked : tracked o (fun _ => True) (cat w);
  st_aux : auxInv w;
  st_scope : auxScope (J := J) (S := S) (M := M) (T := T) o;
  st_wf : managedWf o (managed_assets w);
  st_both : notBoth o w }.

(** For the deletion of a workspace: its style assets can be moved. *)
Definition stylesMovable (o : DeletionOperation) (d : gmap string fileKind) : Prop :=
  Scope (opPlan o) = DeletionScopeWorkspace ->
  styleReady root o d /\ hasSeparator (opID o) || hasSeparator (planWorkspace (opPlan o)) = false.

(** The target and everything that belongs to it is gone. *)
Definition removed (o : DeletionOperation) (w : world) : Prop :=
  completed o (cat w) /\ catalogGone (opPlan o) (cat w) /\ auxGone o w
  /\ forall a, a ∈ managed_assets w -> assetService a ∉ deletionServiceIDs (opPlan o).

Lemma finished_removed o (w w' : world) : finished root o w w' -> removed o w'.
Proof. intros [A B C D E F G K]. split; [done|]. split; [done|]. split; [done|]. by intros a [_ Ha]%E. Qed.

Lemma removed_task o o' (w : world) : sameTask o o' -> removed o' w -> removed o w.
Proof. intros [Hid Hplan]. unfold removed, completed, follows, auxGone. by rewrite Hid, Hplan. Qed.

(** A retry without faults. *)
Lemma Retry_completes o now (w : world) : fates w = [] -> startable o w -> resumable o w -> auxSucceeds o w ->
  stylesMovable o (styleDirs w) -> exists w', Retry root message now (opID o) w = (Done tt, w') /\ removed o w'.
Proof.
  intros Hl [Ht Haux Hsc Hw Hnb] Hres Hsucc Hsty.
  assert (exists cur, GetCatalogDeletion (cat w) (opID o) = Some cur /\ unfinished cur = true /\ follows o cur
            /\ (filesReady o w \/ committed (opPhase cur))) as (cur & Hg & Hu & Hf & Hr).
  { destruct Ht as (cur & Hg & Hu & _ & Hf). exists cur. repeat (split; [done|]). destruct Hres as [?|(cur' & Hg' & _ & Hc & _)]; [by left|].
    right. congruence. }
  pose proof (GetCatalogDeletion_Some _ _ _ Hg) as [_ Hid]. pose proof (reread_same o cur Hf Hid) as Hsame.
  set (o' := withProgress DeletionRunning (opPhase cur) cur) in *.
  pose proof (update_tracked o _ now (cat w) DeletionRunning (opPhase cur) "" Ht ltac:(done)) as Ht1.
  set (w1 := set_cat (set_deletions (cat w) (onOperation (updateOperation now DeletionRunning (opPhase cur) "") (opID o)
                        (catalog_deletions (cat w)))) w).
  assert (Ht1' : tracked o' (fun _ => True) (cat w1)) by (eapply tracked_mono; [by apply (tracked_task o o' Hsame)|done]).
  pose proof (execute_runs root o' now w1 Hl Ht1' (auxSucceeds_task o o' Hsame w Hsucc) (managedWf_task o o' Hsame _ Hw)) as Hrun.
  pose proof (execute_spec root o' now w1 Ht1' Haux (auxScope_task o o' Hsame Hsc) (managedWf_task o o' Hsame _ Hw)
                (notBoth_task o o' Hsame w Hnb)) as Hspec.
  assert (Hok : jwp (execute root now o') (fun _ _ => True) never never w1).
  { apply Hrun.
    - destruct Hr as [Hr|Hr]; [left; by apply (filesReady_task o o' Hsame w)|by right].
    - destruct Hsame as [Hi Hp]. rewrite Hi, Hp. intros Hs. destruct (Hsty Hs) as [Hs1 Hs2]. split; [|done].
      by apply (styleReady_task root o o' (conj Hi Hp)). }
  unfold jwp in *. unfold Retry, mbind, job_bind. unfold nextFate at 1. rewrite Hl. unfold reads at 1. rewrite Hg.
  assert (bool_decide (opStatus cur = DeletionCompleted) = false) as -> by (unfold unfinished in Hu; by apply negb_true_iff in Hu).
  unfold progress, statement, mbind, job_bind, nextFate at 1. rewrite Hl. unfold inWorld. rewrite Hid.
  rewrite (update_found _ _ _ _ _ _ cur Hg). fold w1. fold o'. unfold attempt.
  destruct (execute root now o' w1) as [[[]|e|] w2]; [|by destruct Hok..].
  exists w2. split; [done|]. apply (removed_task o o' w2 Hsame). by eapply finished_removed.
Qed.

(** C7: an attempt of a deletion is all or nothing. Whatever calls fail and wherever the
    process dies, it either ends with the operation completed and the target gone from
    the catalog, the tile jobs, the STAC and mosaic catalogs, the tile cache, the style
    assets, the managed imports and the running process, or the operation stays
    unfinished, so that the target is hidden and can be retried, with the rows of the
    catalog untouched or all gone. In both cases the references of the catalog stay
    intact, and the services, layers and coverages that do not belong to the target and
    the groups, stored queries and rules that the plan does not name are still in the
    catalog; a completed attempt has removed exactly the rows and files of the managed
    imports of the planned services. (What the tile jobs, the STAC and mosaic catalogs
    and the tile cache remove besides the target is not covered.) *)
Theorem deletion_all_or_nothing o now (w w' : world) r :
  startable o w -> catInv (cat w) -> attempt root message now o w = (r, w') ->
  catInv (cat w') /\ catalogKept (opPlan o) (cat w) (cat w') /\ (finished root o w w' \/ interrupted root o w w').
Proof.
  intros [Ht Haux Hsc Hw Hnb] Hi He. pose proof (attempt_spec root message o now w Ht Haux Hsc Hw Hnb) as Hs.
  unfold jwp in Hs. rewrite He in Hs.
  assert (Hor : finished root o w w' \/ interrupted root o w w').
  { destruct r as [[]|e|]; [|done|]; [destruct Hs as [Hs|[Hs _]]|destruct Hs as [Hs _]]; auto. }
  assert (Hsteps : rtc (ownStep o) (cat w) (cat w')) by (destruct Hor as [Hf|Hf]; apply Hf).
  apply ownSteps in Hsteps as [Hsteps Hkept]. split; [by apply (catSteps_inv (cat w))|done].
Qed.

(** C14: one fault never loses a deletion. When at most one call of an attempt fails or the
    process dies at it, or an auxiliary store reports errors, then a retry in which the calls
    work (in the same process or in a new one) completes the operation and leaves nothing
    of the target. *)
Theorem single_fault_recovers o now (w w1 : world) r :
  startable o w -> filesReady o w -> stylesMovable o (styleDirs w) -> (faulty (fates w) <= 1)%nat ->
  attempt root message now o w = (r, w1) -> auxSucceeds o w1 ->
  forall now' running, exists w2,
    Retry root message now' (opID o) (set_live running (set_fates [] w1)) = (Done tt, w2) /\ removed o w2.
Proof.
  intros Hst Hfr Hsty Hone He Hsucc now' running. pose proof Hst as [Ht Haux Hsc Hw Hnb].
  pose proof (attempt_spec root message o now w Ht Haux Hsc Hw Hnb) as Hs. unfold jwp in Hs. rewrite He in Hs.
  assert (Hor : finished root o w w1 \/ recoverable root o w w1) by (destruct r as [[]|e|]; [done|done|by right]).
  destruct Hor as [Hf|[[A B C D E F G] Hr]].
  - apply finished_removed in Hf as (Hc & Hrest). pose proof Hc as (cur & Hg & Hst' & _).
    exists (set_live running (set_fates [] w1)). split; [|done]. unfold Retry, mbind, job_bind. cbn [nextFate fates set_live set_fates reads cat].
    rewrite Hg. by rewrite bool_decide_true.
  - apply Retry_completes; [done| |by apply Hr|done|].
    + split; try done. by eapply managedWf_subset.
    + intros Hscope. destruct (Hsty Hscope) as [Hs1 Hs2]. split; [by apply G|done].
Qed.

(** Retries by any number of processes. *)
Definition retryAll (id : string) (w : world) (attempts : list (Z * list fate * runtime)) : world :=
  foldl (fun w '(now, f, running) => (Retry root message now id (set_live running (set_fates f w))).2) w attempts.

Lemma lost_retry o now (w : world) : auxScope (J := J) (S := S) (M := M) (T := T) o -> lost o w -> lost o (Retry root message now (opID o) w).2.
Proof.
  intros Hsc Hlost. assert (Hall : jwp (Retry root message now (opID o)) (fun _ => lost o) (lost o) (lost o) w).
  2:{ unfold jwp in Hall. by destruct (Retry root message now (opID o) w) as [[[]|e|] w']. }
  apply jwp_bind, jwp_nextFate; [intros l Hl|intros l Hl|intros l; by apply lost_fates]; [|apply jwp_fails; by apply lost_fates].
  apply jwp_bind, jwp_reads. change (cat (set_fates l w)) with (cat w).
  destruct (lo_tracked o w Hlost) as (cur & Hg & Hu & Hp & Hf). rewrite Hg. pose proof (GetCatalogDeletion_Some _ _ _ Hg) as [_ Hid].
  pose proof (reread_same o cur Hf Hid) as Hsame. set (o' := withProgress DeletionRunning (opPhase cur) cur) in *.
  case_bool_decide; [apply jwp_ret; by apply lost_fates|]. rewrite Hid. apply jwp_bind, (jwp_progress o uncommitted); [exact (lo_tracked o w Hlost)|..].
  2,3: intros; by apply (lost_fates o _ (set_fates l w)), lost_fates.
  intros l' c Hl' Hstep Hc. eapply jwp_mono; [apply (lost_attempt root message o'); [done|by apply (auxScope_task o o' Hsame)|]|..].
  - apply (lost_task o o' Hsame). by apply (lost_progress o now DeletionRunning (opPhase cur) "" w).
  - intros [] w1. apply lost_task. destruct Hsame. by split.
  - done.
  - intros w1. apply lost_task. destruct Hsame. by split.
Qed.

(** A deletion whose import file is gone while the recorded phase is before the commit
    never ends: no sequence of retries, in whatever processes and also without any further
    fault, completes it. (Two failed attempts lead there: see [twice_failed_is_lost].) *)
Theorem lost_file_never_completes o (w : world) attempts :
  auxScope (J := J) (S := S) (M := M) (T := T) o -> lost o w -> ~ completed o (cat (retryAll (opID o) w attempts)).
Proof.
  intros Hsc Hlost. assert (Hl : lost o (retryAll (opID o) w attempts)).
  { revert w Hlost. induction attempts as [|[[now f] r] l IH]; intros w Hlost; [done|]. cbn [retryAll foldl]. apply IH.
    apply lost_retry; [done|]. by destruct Hlost. }
  intros (cur & Hg & Hc & _). destruct (lo_tracked _ _ Hl) as (cur' & Hg' & Hu & _). assert (cur' = cur) as -> by congruence.
  unfold unfinished in Hu. by rewrite Hc in Hu.
Qed.
End Theorems.

(** ** An example: a service whose layer was imported from a file *)

Definition demoAsset : ManagedAsset := mkAsset "i" "w" "s" "/data/i.gpkg".

Definition demoTombstoned : catalog := (UpdateCatalogDeletion 2 false demoBegun "op" DeletionRunning DeletionPhaseTombstoned "").2.

Definition demoOperation : DeletionOperation :=
  match GetCatalogDeletion demoTombstoned "op" with Some o => o | None => newOperation 0 "" demoPlan end.

Definition demoWorld (f : list fate) : world unit unit unit unit :=
  mkWorld demoTombstoned [demoAsset] {["/data/i.gpkg"; "/data/other.gpkg"]} ∅ tt tt tt tt (mkRuntime {["w" := {["s"; "t"]}]} {["w"]} {["w"]} []) f.

Definition demoMessage (e : lifecycleError) : string := match e with CatalogFailed _ => "catalog" | _ => "other" end.

Definition demoAttempt (f : list fate) := attempt "/assets" demoMessage 3 demoOperation (demoWorld f).

Lemma demoAttempt_pair f : attempt "/assets" demoMessage 3 demoOperation (demoWorld f) = ((demoAttempt f).1, (demoAttempt f).2).
Proof. unfold demoAttempt. by destruct (attempt "/assets" demoMessage 3 demoOperation (demoWorld f)). Qed.

(** The statement that removes the row of the import fails. *)
Definition rowFails : list fate := [Works; Works; Works; Works; Works; Works; Works; Fails].

Lemma demo_concerns a : concerns demoOperation [demoAsset] a -> a = demoAsset.
Proof. by intros [->%list_elem_of_singleton _]. Qed.

Lemma demo_wf : managedWf demoOperation [demoAsset].
Proof.
  split; intros a b ->%list_elem_of_singleton ->%list_elem_of_singleton; done.
Qed.

Lemma demo_tracked : tracked demoOperation (fun _ => True) demoTombstoned.
Proof. exists demoOperation. vm_compute. done. Qed.

Lemma demo_startable f : startable demoOperation (demoWorld f).
Proof.
  split; [apply demo_tracked|done|done|apply demo_wf|]. intros a ->%demo_concerns [_ Hs]. revert Hs.
  apply (bool_decide_unpack _). vm_compute. exact I.
Qed.

Lemma demo_filesReady f : filesReady demoOperation (demoWorld f).
Proof. intros a ->%demo_concerns. left. apply (bool_decide_unpack _). vm_compute. exact I. Qed.

Lemma demoTombstoned_inv : catInv demoTombstoned.
Proof.
  apply (catSteps_inv demoCatalog); [apply demoCatalog_inv|]. eapply rtc_l; [apply (step_begin _ _ 1 "op" false demoPlan); by intros ?%not_elem_of_nil|].
  apply rtc_once, (step_update _ _ 2 false "op"). intros o Ho. vm_compute in Ho. by injection Ho as <-.
Qed.

Lemma deletion_all_or_nothing_witness :
  importFiles (demoAttempt []).2 = {["/data/other.gpkg"]} /\ services (cat (demoAttempt []).2) = []
  /\ catInv (cat (demoAttempt []).2) /\ catalogKept (opPlan demoOperation) demoTombstoned (cat (demoAttempt []).2)
  /\ (finished "/assets" demoOperation (demoWorld []) (demoAttempt []).2
      \/ interrupted "/assets" demoOperation (demoWorld []) (demoAttempt []).2).
Proof.
  split; [vm_compute; reflexivity|]. split; [vm_compute; reflexivity|].
  exact (deletion_all_or_nothing "/assets" demoMessage demoOperation 3 (demoWorld []) (demoAttempt []).2 (demoAttempt []).1
           (demo_startable []) demoTombstoned_inv (demoAttempt_pair [])).
Defined.

Lemma single_fault_recovers_witness :
  opPhase <$> GetCatalogDeletion (cat (demoAttempt rowFails).2) "op" = Some DeletionPhaseCatalogCommitted /\
  exists w2, Retry "/assets" demoMessage 4 "op" (set_live (mkRuntime ∅ ∅ ∅ []) (set_fates [] (demoAttempt rowFails).2)) = (Done tt, w2)
             /\ removed demoOperation w2.
Proof.
  split; [vm_compute; reflexivity|].
  refine (single_fault_recovers "/assets" demoMessage demoOperation 3 (demoWorld rowFails) (demoAttempt rowFails).2 (demoAttempt rowFails).1
            (demo_startable rowFails) (demo_filesReady rowFails) _ _ (demoAttempt_pair rowFails) _ 4 _);
    [|vm_compute; lia|]; done.
Defined.

(** A second attempt that fails before the commit records an earlier phase. *)
Definition twiceFailed : world unit unit unit unit :=
  (Retry "/assets" demoMessage 4 "op" (set_fates [Works; Works; Works; Works; Works; Works; Fails] (demoAttempt rowFails).2)).2.

Lemma twice_failed_is_lost : lost demoOperation twiceFailed.
Proof.
  assert (Hrows : managed_assets twiceFailed = [demoAsset]) by (vm_compute; reflexivity).
  split; [|exact (conj I (conj I (conj I I)))|rewrite Hrows; apply demo_wf|intros a; rewrite Hrows; intros ->%demo_concerns [Hp _]|].
  - assert (Hcur : (fun c => (unfinished c, opPhase c, opScope c, opWorkspace c, opTarget c, opPlan c)) <$> GetCatalogDeletion (cat twiceFailed) "op"
       = Some (true, DeletionPhaseJobsQuiesced, DeletionScopeService, "w", "s", opPlan demoOperation)) by (vm_compute; reflexivity).
    change (opID demoOperation) with "op". unfold tracked, follows. change (opID demoOperation) with "op".
    destruct (GetCatalogDeletion (cat twiceFailed) "op") as [cur|]; [|discriminate Hcur]. injection Hcur as E1 E2 E3 E4 E5 E6.
    exists cur. rewrite E1, E2, E3, E4, E5, E6. repeat split.
  - revert Hp. apply (bool_decide_unpack _). vm_compute. exact I.
  - exists demoAsset. rewrite Hrows. split; [split; apply (bool_decide_unpack _); vm_compute; exact I|].
    intros Hf. destruct Hf as [Hf|Hf]; revert Hf; apply (bool_decide_unpack _); vm_compute; exact I.
Qed.

Lemma lost_file_never_completes_witness :
  opStatus <$> GetCatalogDeletion (cat (retryAll "/assets" demoMessage "op" twiceFailed [(5, [], live twiceFailed)])) "op" = Some DeletionFailed
  /\ ~ completed demoOperation (cat (retryAll "/assets" demoMessage "op" twiceFailed [(5, [], live twiceFailed)])).
Proof.
  split; [vm_compute; reflexivity|].
  apply (lost_file_never_completes "/assets" demoMessage demoOperation twiceFailed); [done|apply twice_failed_is_lost].
Defined.

(** The names of a service without layers, coverages and groups are the empty list, which means the whole
    workspace to the tile jobs and the tile cache. *)
Example empty_service_is_whole_workspace p :
  Scope p = DeletionScopeService -> Layers p = [] -> Coverages p = [] -> LayerGroups p = [] ->
  resourceIDsForScope p (deletionResourceIDs p) = resourceIDsForScope (mkPlan [] DeletionScopeWorkspace (planWorkspace p) (Target p)
    [] [] [] [] [] [] [] [] [] [] noAuxiliary) [].
Proof. unfold resourceIDsForScope, deletionResourceIDs, planResources. by intros -> -> -> ->. Qed.

(** A stored query goes with a service when its text contains the name of a deleted layer, also inside another name. *)
Example stored_query_of_another_layer :
  let c := mkCatalog [mkWorkspaceRow "w" "city" "" 0] [mkServiceRow "s" "w" "db"; mkServiceRow "t" "w" "db2"]
             [mkLayerRow "l" "s" "roads"; mkLayerRow "k" "t" "railroads"] [] []
             [mkQueryRow "q" "w" "rails" ["railroads"] "<wfs:Query typeNames='railroads'/>"] [] [] [] [] [] [] [] in
  match PlanServiceDeletion c "w" "s" with Planned p => refName <$> StoredQueries p | _ => [] end = ["rails"].
Proof. vm_compute. reflexivity. Qed.
