(* ===== verification/TileLifecycle.v ===== *)
(** * The tile cache keeps the coordinator's contract

    [TileCacheLifecycle] of [cataloglifecycle/coordinator.go] is implemented by the tile
    cache: a purge that succeeds leaves no tile of its scope. *)

From S2P Require Import Prelude TileIndex TileIndexCorrect TileManager TileManagerCorrect TileCacheTheorems CatalogStore DeletionCoordinator DeletionCorrect DeletionAttempt DeletionTheorems.

Section TileLifecycle.
Context (MaxBytes : Z) (H : list (Identity * string)).

Definition purgeError (e : cacheError) : string := match e with OwnershipLost => "ownership lost" | _ => "tile cache failure" end.

#[export] Instance tileLifecycle : Lifecycle Manager := {|
  lcRemove workspaceID ids m :=
    match PurgeLifecycle workspaceID ids m with
    | (Ok (_, _, None), m') => (None, m')
    | (Ok (_, _, Some e), m') => (Some (purgeError e), m')
    | (Err e, m') => (Some (purgeError e), m')
    | (NoFuel, m') => (Some "", m')
    end;
  lcOwned workspaceID ids m := exists k e, tile_entries (index m) !! k = Some (mkRow e ready)
    /\ WorkspaceID (entIdentity e) = workspaceID /\ (ids = [] \/ ResourceID (entIdentity e) ∈ ids);
  lcInv := cacheInv H MaxBytes;
  lcScope workspaceID := has_byte ":" workspaceID = false |}.

Lemma purged_not_owned w ids rows k e : purged w ids rows -> rows !! k = Some (mkRow e ready) ->
  WorkspaceID (entIdentity e) = w -> ids = [] \/ ResourceID (entIdentity e) ∈ ids -> False.
Proof.
  intros Hp Hk Hw Hor. destruct ids as [|r ids]; cbn [purged] in Hp.
  - specialize (Hp k e Hk). by rewrite lifecycle_selects in Hp by auto.
  - destruct Hor as [|Hin]; [done|]. apply Forall_forall with (x := ResourceID (entIdentity e)) in Hp; [|done].
    specialize (Hp k e Hk). by rewrite lifecycle_selects in Hp by auto.
Qed.

#[export] Instance tileLifecycle_laws : LifecycleLaws Manager.
Proof.
  split.
  - intros w ids m Hs Hi. pose proof (PurgeLifecycle_inv H MaxBytes w ids m Hs Hi) as Hp.
    unfold awp in Hp. cbn [lcRemove tileLifecycle]. destruct (PurgeLifecycle w ids m) as [[[[d n] [e|]]|e|] m']; by destruct Hp.
  - intros w ids m m' Hs Hi. pose proof (PurgeLifecycle_inv H MaxBytes w ids m Hs Hi) as Hp.
    unfold awp in Hp. cbn [lcRemove lcOwned tileLifecycle]. destruct (PurgeLifecycle w ids m) as [[[[d n] [e|]]|e|] m1]; try done.
    intros [= ->]. destruct Hp as [_ Hp]. specialize (Hp eq_refl). intros (k & e & Hk & Hw & Hor). by eapply purged_not_owned.
Qed.

Context {J S M : Type} `{LifecycleLaws J} `{LifecycleLaws S} `{LifecycleLaws M}.
Context (root : string) (message : lifecycleError -> string).

(** A tile of the workspace, of one of the resources if any are named. *)
Definition tileOf (workspaceID : string) (ids : list string) (m : Manager) : Prop :=
  exists k e, tile_entries (index m) !! k = Some (mkRow e ready)
    /\ WorkspaceID (entIdentity e) = workspaceID /\ (ids = [] \/ ResourceID (entIdentity e) ∈ ids).

Lemma finished_no_tiles o (w w' : world J S M Manager) : finished root o w w' ->
  ~ tileOf (planWorkspace (opPlan o)) (resourceIDsForScope (opPlan o) (deletionResourceIDs (opPlan o))) (tileCache w').
Proof. intros Hf. by destruct (fi_aux _ _ _ _ Hf) as (_ & _ & _ & Ht). Qed.

(** The deletion of a service without layers, coverages and groups removes the tiles of every other service
    of the workspace. *)
Lemma empty_service_removes_all_tiles o (w w' : world J S M Manager) : finished root o w w' ->
  Scope (opPlan o) = DeletionScopeService -> Layers (opPlan o) = [] -> Coverages (opPlan o) = [] -> LayerGroups (opPlan o) = [] ->
  forall k e, tile_entries (index (tileCache w')) !! k = Some (mkRow e ready) -> WorkspaceID (entIdentity e) <> planWorkspace (opPlan o).
Proof.
  intros Hf Hs Hl Hc Hg k e Hk Hw. apply (finished_no_tiles o w w' Hf). exists k, e. split; [done|]. split; [done|]. left.
  unfold resourceIDsForScope, deletionResourceIDs, planResources. by rewrite Hs, Hl, Hc, Hg.
Qed.
End TileLifecycle.
