(* ===== verification/Mosaic.v ===== *)
(** * Managed raster mosaics ([internal/mosaiccatalog/catalog.go], [jobs.go], [manager.go])

    The tables of services, granules and harvest jobs, and the jobs that build a new
    generation of granules and publish it. A granule is a row under its service and
    generation; each statement takes its fate from a list, in which requests to cancel
    and lifecycle blocks by other goroutines may come before it. Reading a raster file
    is an argument. *)

From stdpp Require Import sorting.
From Stdlib Require Import PrimFloat.
From S2P Require Import Prelude GoText GoPath.

(** ** Data *)

Record Granule : Type := mkGranule {
  granuleID : string; granuleWorkspace : string; SourceURI : string; SRID : Z; BandCount : Z; DataType : string;
  MinX : float; MinY : float; MaxX : float; MaxY : float; granuleTime : string; Elevation : option float; Priority : Z }.

Record GranuleFilter : Type := mkGranuleFilter {
  filterBBox : option (float * float * float * float); filterTime : string; filterElevation : option float; Limit : Z; Offset : Z }.

Definition HarvestAppend : string := "append".
Definition HarvestSynchronize : string := "synchronize".

Record HarvestGranule : Type := mkHarvestGranule {
  harvestPath : string; harvestTime : string; harvestElevation : option float; harvestPriority : Z }.

Record HarvestRequest : Type := mkHarvestRequest {
  Mode : string; Directory : string; Pattern : string; Granules : list HarvestGranule }.

Inductive JobStatus : Type := JobQueued | JobRunning | JobCancelling | JobCancelled | JobSucceeded | JobFailed.
#[export] Instance JobStatus_eq : EqDecision JobStatus. Proof. solve_decision. Defined.

Record Job : Type := mkJob {
  JobID : string; JobWorkspace : string; JobService : string; Request : HarvestRequest; Status : JobStatus; TotalGranules : Z;
  Processed : Z; Succeeded : Z; FailedGranules : Z; Generation : Z; CancelRequested : bool; ErrorMessage : string; CreatedBy : string;
  CreatedAt : Z; StartedAt : option Z; CompletedAt : option Z; UpdatedAt : Z }.

(** The raster mosaic of a service's connection. *)
Record RasterMosaicConnectionInfo : Type := mkMosaicInfo { infoDirectory : string; infoPattern : string; infoGranules : list HarvestGranule }.

Record serviceRow : Type := mkServiceRow { rowWorkspace : string; activeGeneration : Z }.

Inductive event : Type :=
| CancelRequest (id : string)
| Block (workspaceID : string) (serviceIDs : list string)
| ReadGeneration (serviceID : string).
Inductive fate : Type := Works | Fails | Dies | Meanwhile (e : event).

Record mosaics : Type := mkMosaics {
  mosaic_services : gmap string serviceRow;
  mosaic_granules : gmap (string * Z) (gmap string Granule);
  mosaic_harvest_jobs : gmap string Job;
  blockedWorkspaces : gset string;
  blockedServices : gset string;
  fates : list fate;
  (** Services and the generations that requests have read for them and whose rows they select next. *)
  readers : list (string * Z) }.

Definition set_mosaic_services (v : gmap string serviceRow) (m : mosaics) : mosaics :=
  mkMosaics v (mosaic_granules m) (mosaic_harvest_jobs m) (blockedWorkspaces m) (blockedServices m) (fates m) (readers m).
Definition set_mosaic_granules (v : gmap (string * Z) (gmap string Granule)) (m : mosaics) : mosaics :=
  mkMosaics (mosaic_services m) v (mosaic_harvest_jobs m) (blockedWorkspaces m) (blockedServices m) (fates m) (readers m).
Definition set_mosaic_jobs (v : gmap string Job) (m : mosaics) : mosaics :=
  mkMosaics (mosaic_services m) (mosaic_granules m) v (blockedWorkspaces m) (blockedServices m) (fates m) (readers m).
Definition set_blocked (ws svc : gset string) (m : mosaics) : mosaics :=
  mkMosaics (mosaic_services m) (mosaic_granules m) (mosaic_harvest_jobs m) ws svc (fates m) (readers m).
Definition set_mosaic_fates (v : list fate) (m : mosaics) : mosaics :=
  mkMosaics (mosaic_services m) (mosaic_granules m) (mosaic_harvest_jobs m) (blockedWorkspaces m) (blockedServices m) v (readers m).

(** ** Statements on granules *)

Definition active (m : mosaics) (serviceID : string) : Z :=
  match mosaic_services m !! serviceID with Some r => activeGeneration r | None => 0 end.

Definition rowsOf (m : mosaics) (serviceID : string) (generation : Z) : gmap string Granule :=
  default ∅ (mosaic_granules m !! (serviceID, generation)).

Definition inFilter (f : GranuleFilter) (g : Granule) : bool :=
  match filterBBox f with
  | Some (x1, y1, x2, y2) => PrimFloat.leb x1 (MaxX g) && PrimFloat.leb (MinX g) x2 && PrimFloat.leb y1 (MaxY g) && PrimFloat.leb (MinY g) y2
  | None => true
  end
  && (String.eqb (filterTime f) "" || String.eqb (granuleTime g) (filterTime f))
  && match filterElevation f with
     | Some v => match Elevation g with Some e => PrimFloat.eqb e v | None => false end
     | None => true
     end.

Definition granuleBefore (a b : Granule) : Prop :=
  Priority a < Priority b \/ Priority a = Priority b /\ String.leb (SourceURI a) (SourceURI b) = true.
#[export] Instance granuleBefore_dec : RelDecision granuleBefore. Proof. intros a b. unfold granuleBefore. apply _. Defined.

(** The second statement of [listGranules], for the generation that the first one read. *)
Definition selectGranules (m : mosaics) (workspaceID serviceID : string) (generation : Z) (f : GranuleFilter) : list Granule :=
  let limit := if (Limit f <=? 0) || (1000000 <? Limit f) then 1000 else Limit f in
  let offset := Z.max 0 (Offset f) in
  take (Z.to_nat limit) (drop (Z.to_nat offset) (merge_sort granuleBefore
    (List.filter (fun g => String.eqb (granuleWorkspace g) workspaceID && inFilter f g) ((map_to_list (rowsOf m serviceID generation)).*2)))).

Definition listGranules (m : mosaics) (workspaceID serviceID : string) (f : GranuleFilter) : list Granule :=
  if active m serviceID =? 0 then [] else selectGranules m workspaceID serviceID (active m serviceID) f.

Definition getGranule (m : mosaics) (workspaceID serviceID id : string) : option Granule :=
  find (fun g => String.eqb (granuleID g) id && String.eqb (granuleWorkspace g) workspaceID)
    ((map_to_list (rowsOf m serviceID (active m serviceID))).*2).

(** [INSERT ... SELECT uuid(), ...]. *)
Definition copyRow (newID : string -> string) (g : Granule) : Granule :=
  mkGranule (newID (SourceURI g)) (granuleWorkspace g) (SourceURI g) (SRID g) (BandCount g) (DataType g) (MinX g) (MinY g) (MaxX g)
    (MaxY g) (granuleTime g) (Elevation g) (Priority g).

(** One transaction. *)
Definition beginGeneration (newID : string -> string) (workspaceID serviceID : string) (preserve : bool) (m : mosaics) : Z * mosaics :=
  let m := match mosaic_services m !! serviceID with
           | Some _ => m
           | None => set_mosaic_services (<[serviceID := mkServiceRow workspaceID 0]> (mosaic_services m)) m
           end in
  let next := active m serviceID + 1 in
  let granules := delete (serviceID, next) (mosaic_granules m) in
  let granules := if preserve && (0 <? active m serviceID)
                  then <[(serviceID, next) := copyRow newID <$> rowsOf m serviceID (active m serviceID)]> granules else granules in
  (next, set_mosaic_granules granules m).

(** [INSERT ... ON CONFLICT DO UPDATE]: identifier and workspace of a row stay. *)
Definition upserted (old : option Granule) (g : Granule) : Granule :=
  match old with
  | None => g
  | Some o => mkGranule (granuleID o) (granuleWorkspace o) (SourceURI g) (SRID g) (BandCount g) (DataType g) (MinX g) (MinY g) (MaxX g)
                (MaxY g) (granuleTime g) (Elevation g) (Priority g)
  end.

Definition upsertGranule (serviceID : string) (generation : Z) (g : Granule) (m : mosaics) : mosaics :=
  let rows := rowsOf m serviceID generation in
  set_mosaic_granules (<[(serviceID, generation) := <[SourceURI g := upserted (rows !! SourceURI g) g]> rows]> (mosaic_granules m)) m.

Definition discardGeneration (serviceID : string) (generation : Z) (m : mosaics) : mosaics :=
  set_mosaic_granules (delete (serviceID, generation) (mosaic_granules m)) m.

Definition pruneInactiveGenerations (serviceID : string) (generation : Z) (m : mosaics) : mosaics :=
  set_mosaic_granules (filter (fun kv => kv.1.1 <> serviceID \/ kv.1.2 = generation) (mosaic_granules m)) m.

Inductive mosaicError : Type :=
| ErrNotFound
| ErrHarvestCancelled
| NoServiceRow
| NoGranules
| GenerationChanged
| ActivationCommitted
| LifecycleQuiesced
| DatabaseError
| HarvestError (text : string).

Definition countGranules (m : mosaics) (workspaceID serviceID : string) (generation : Z) : nat :=
  length (List.filter (fun g => String.eqb (granuleWorkspace g) workspaceID) ((map_to_list (rowsOf m serviceID generation)).*2)).

(** Under the writer gate: the check of the job and the transaction. [None]: no job. *)
Definition activateJobGeneration (workspaceID serviceID : string) (generation : Z) (jobID : option string) (m : mosaics)
    : (mosaicError + Z) * mosaics :=
  let allowed := match jobID with
                 | None => None
                 | Some id =>
                     match mosaic_harvest_jobs m !! id with
                     | None => Some ErrNotFound
                     | Some j => if CancelRequested j || negb (bool_decide (Status j = JobRunning)) then Some ErrHarvestCancelled else None
                     end
                 end in
  match allowed with
  | Some e => (inl e, m)
  | None =>
      match mosaic_services m !! serviceID with
      | Some r =>
          if negb (String.eqb (rowWorkspace r) workspaceID) then (inl NoServiceRow, m)
          else if Nat.eqb (countGranules m workspaceID serviceID generation) 0 then (inl NoGranules, m)
          else (inr (activeGeneration r), set_mosaic_services (<[serviceID := mkServiceRow workspaceID generation]> (mosaic_services m)) m)
      | None => (inl NoServiceRow, m)
      end
  end.

Definition restoreGeneration (serviceID : string) (failed previous : Z) (m : mosaics) : option mosaicError * mosaics :=
  match mosaic_services m !! serviceID with
  | Some r => if activeGeneration r =? failed
              then (None, set_mosaic_services (<[serviceID := mkServiceRow (rowWorkspace r) previous]> (mosaic_services m)) m)
              else (Some GenerationChanged, m)
  | None => (Some GenerationChanged, m)
  end.

(** ** Statements on jobs *)

Definition pending (s : JobStatus) : bool :=
  match s with JobQueued | JobRunning | JobCancelling => true | _ => false end.

Definition updateRow (now : Z) (job row : Job) : Job :=
  if pending (Status row) then
    mkJob (JobID row) (JobWorkspace row) (JobService row) (Request row)
      (if CancelRequested row && negb (bool_decide (Status job = JobCancelled)) then JobCancelling else Status job)
      (TotalGranules job) (Processed job) (Succeeded job) (FailedGranules job) (Generation job)
      (CancelRequested row || CancelRequested job) (ErrorMessage job) (CreatedBy row) (CreatedAt row) (StartedAt job) (CompletedAt job) now
  else row.

Definition updateJob (now : Z) (job : Job) (m : mosaics) : mosaics :=
  set_mosaic_jobs (alter (updateRow now job) (JobID job) (mosaic_harvest_jobs m)) m.

Definition withStatus (status : JobStatus) (cancel : bool) (completedAt : option Z) (now : Z) (j : Job) : Job :=
  mkJob (JobID j) (JobWorkspace j) (JobService j) (Request j) status (TotalGranules j) (Processed j) (Succeeded j) (FailedGranules j)
    (Generation j) cancel (ErrorMessage j) (CreatedBy j) (CreatedAt j) (StartedAt j) completedAt now.

Definition cancelRow (now : Z) (j : Job) : Job :=
  match Status j with
  | JobQueued => withStatus JobCancelled true (Some now) now j
  | JobRunning => withStatus JobCancelling true (CompletedAt j) now j
  | JobCancelling => withStatus JobCancelling true (CompletedAt j) now j
  | _ => j
  end.

(** Under the writer gate. *)
Definition requestCancel (now : Z) (id : string) (m : mosaics) : option mosaicError * mosaics :=
  match mosaic_harvest_jobs m !! id with
  | None => (Some ErrNotFound, m)
  | Some j =>
      if (0 <? Generation j) && match Status j with JobRunning | JobCancelling => true | _ => false end
         && (active m (JobService j) =? Generation j)
      then (Some ActivationCommitted, m)
      else (None, set_mosaic_jobs (<[id := cancelRow now j]> (mosaic_harvest_jobs m)) m)
  end.

Definition resetRow (now : Z) (j : Job) : Job :=
  if CancelRequested j then
    if pending (Status j) then withStatus JobCancelled true (Some now) now j else j
  else match Status j with
       | JobRunning | JobCancelling =>
           mkJob (JobID j) (JobWorkspace j) (JobService j) (Request j) JobQueued (TotalGranules j) (Processed j) (Succeeded j)
             (FailedGranules j) (Generation j) false "" (CreatedBy j) (CreatedAt j) None (CompletedAt j) now
       | _ => j
       end.

Definition resetInterrupted (now : Z) (m : mosaics) : mosaics := set_mosaic_jobs (resetRow now <$> mosaic_harvest_jobs m) m.

(** The oldest queued job of a service with no running one. *)
Definition claimable (jobs : gmap string Job) (j : Job) : bool :=
  bool_decide (Status j = JobQueued) && negb (CancelRequested j)
  && negb (existsb (fun x => String.eqb (JobService x) (JobService j)
                             && match Status x with JobRunning | JobCancelling => true | _ => false end) ((map_to_list jobs).*2)).

Definition oldestJob (l : list Job) : option Job :=
  foldr (fun j best => match best with
                       | Some b => if CreatedAt b <? CreatedAt j then Some b else Some j
                       | None => Some j
                       end) None l.

Definition lifecycleBlocked (m : mosaics) (workspaceID serviceID : string) : bool :=
  bool_decide (workspaceID ∈ blockedWorkspaces m) || bool_decide (serviceID ∈ blockedServices m).

Definition markRunning (now : Z) (j : Job) (m : mosaics) : option Job * mosaics :=
  match mosaic_harvest_jobs m !! JobID j with
  | Some row =>
      if bool_decide (Status row = JobQueued) && negb (CancelRequested row) then
        let running x := mkJob (JobID x) (JobWorkspace x) (JobService x) (Request x) JobRunning (TotalGranules x) (Processed x) (Succeeded x)
                           (FailedGranules x) (Generation x) (CancelRequested x) (ErrorMessage x) (CreatedBy x) (CreatedAt x) (Some now)
                           (CompletedAt x) now in
        (Some (running j), set_mosaic_jobs (<[JobID j := running row]> (mosaic_harvest_jobs m)) m)
      else (None, m)
  | None => (None, m)
  end.

Definition claimNext (now : Z) (m : mosaics) : option Job * mosaics :=
  match oldestJob (List.filter (claimable (mosaic_harvest_jobs m)) ((map_to_list (mosaic_harvest_jobs m)).*2)) with
  | None => (None, m)
  | Some j =>
      if lifecycleBlocked m (JobWorkspace j) (JobService j) then (None, (requestCancel now (JobID j) m).2)
      else markRunning now j m
  end.

Definition createJob (now : Z) (id workspaceID serviceID createdBy : string) (request : HarvestRequest) (m : mosaics) : mosaics :=
  let j := mkJob id workspaceID serviceID request JobQueued 0 0 0 0 0 false "" createdBy now None None now in
  set_mosaic_jobs (<[id := j]> (mosaic_harvest_jobs m)) m.

(** [validate]: [validateService]; [badPattern]: the pattern of the request is malformed. *)
Definition CreateJob (MaxGranulesPerJob : Z) (validate : option string) (badPattern : bool) (now : Z) (id workspaceID serviceID createdBy : string)
    (request : HarvestRequest) (m : mosaics) : option mosaicError * mosaics :=
  if lifecycleBlocked m workspaceID serviceID then (Some LifecycleQuiesced, m)
  else match validate with
       | Some e => (Some (HarvestError e), m)
       | None =>
           let mode := if String.eqb (Mode request) "" then HarvestSynchronize else Mode request in
           let request := mkHarvestRequest mode (Directory request) (Pattern request) (Granules request) in
           if negb (String.eqb mode HarvestAppend) && negb (String.eqb mode HarvestSynchronize)
           then (Some (HarvestError "mode must be append or synchronize"), m)
           else if negb (String.eqb (Pattern request) "") && badPattern then (Some (HarvestError "invalid harvest pattern"), m)
           else if MaxGranulesPerJob <? Z.of_nat (length (Granules request)) then (Some (HarvestError "harvest request exceeds granules"), m)
           else (None, createJob now id workspaceID serviceID createdBy request m)
       end.

(** ** Candidates of a harvest *)

Definition firstNonEmpty (values : list string) : string :=
  default "" (find (fun v => negb (String.eqb (TrimSpace v) "")) values).

(** Trimmed, without blanks and duplicates; the first path that is not allowed is an error. *)
Fixpoint distinctPaths (check : string -> option string) (seen : list string) (items : list HarvestGranule)
    : mosaicError + list HarvestGranule :=
  match items with
  | [] => inr []
  | item :: rest =>
      let path := TrimSpace (harvestPath item) in
      if String.eqb path "" || bool_decide (path ∈ seen) then distinctPaths check seen rest
      else match check path with
           | Some e => inl (HarvestError e)
           | None =>
               match distinctPaths check (path :: seen) rest with
               | inl e => inl e
               | inr l => inr (mkHarvestGranule path (harvestTime item) (harvestElevation item) (harvestPriority item) :: l)
               end
           end
  end.

Definition byPath (a b : HarvestGranule) : Prop := String.leb (harvestPath a) (harvestPath b) = true.
#[export] Instance byPath_dec : RelDecision byPath. Proof. intros a b. unfold byPath. apply _. Defined.

(** [check]: [pathpolicy.Check]; [glob]: the files that match a pattern. *)
Definition harvestCandidates (check : string -> option string) (glob : string -> string + list string)
    (config : RasterMosaicConnectionInfo) (r : HarvestRequest) : mosaicError + list HarvestGranule :=
  let items := match Granules r with [] => infoGranules config | l => l end in
  let directory := firstNonEmpty [Directory r; infoDirectory config] in
  let pattern := firstNonEmpty [Pattern r; infoPattern config; "*.tif"] in
  let found :=
    if String.eqb directory "" then inr []
    else match check (JoinPath directory pattern) with
         | Some e => inl (HarvestError e)
         | None => match glob (JoinPath directory pattern) with
                   | inl e => inl (HarvestError e)
                   | inr paths => inr ((fun p => mkHarvestGranule p "" None 0) <$> paths)
                   end
         end in
  match found with
  | inl e => inl e
  | inr more => match distinctPaths check [] (items ++ more) with
                | inl e => inl e
                | inr l => inr (merge_sort byPath l)
                end
  end.

Definition compatibleGranule (reference : option Granule) (g : Granule) : bool :=
  match reference with
  | None => true
  | Some r => (SRID r =? SRID g) && (BandCount r =? BandCount g) && String.eqb (DataType r) (DataType g)
  end.

(** ** A harvest *)

Inductive ran (A : Type) : Type := Done (a : A) | Died.
Arguments Done {A} a.
Arguments Died {A}.

Definition mos (A : Type) : Type := mosaics -> ran A * mosaics.

#[export] Instance mos_ret : MRet mos := fun A a m => (Done a, m).
#[export] Instance mos_bind : MBind mos := fun A B k c m =>
  match c m with
  | (Done a, m') => k a m'
  | (Died, m') => (Died, m')
  end.

Definition looks {A} (f : mosaics -> A) : mos A := fun m => (Done (f m), m).

(** The first part of [QuiesceAndDeleteLifecycle]. *)
Definition block (workspaceID : string) (serviceIDs : list string) (m : mosaics) : mosaics :=
  match serviceIDs with
  | [] => set_blocked ({[workspaceID]} ∪ blockedWorkspaces m) (blockedServices m) m
  | _ => set_blocked (blockedWorkspaces m) (list_to_set serviceIDs ∪ blockedServices m) m
  end.

(** The first statement of [listGranules]. *)
Definition readGeneration (serviceID : string) (m : mosaics) : mosaics :=
  mkMosaics (mosaic_services m) (mosaic_granules m) (mosaic_harvest_jobs m) (blockedWorkspaces m) (blockedServices m) (fates m)
    ((serviceID, active m serviceID) :: readers m).

Definition happen (now : Z) (e : event) (m : mosaics) : mosaics :=
  match e with
  | CancelRequest id => (requestCancel now id m).2
  | Block workspaceID serviceIDs => block workspaceID serviceIDs m
  | ReadGeneration serviceID => readGeneration serviceID m
  end.

(** What happens before the next call, and whether it fails. *)
Fixpoint settle (now : Z) (l : list fate) (m : mosaics) : ran bool * mosaics :=
  match l with
  | [] => (Done false, set_mosaic_fates [] m)
  | Meanwhile e :: rest => settle now rest (happen now e m)
  | Works :: rest => (Done false, set_mosaic_fates rest m)
  | Fails :: rest => (Done true, set_mosaic_fates rest m)
  | Dies :: rest => (Died, set_mosaic_fates rest m)
  end.

Definition nextFate (now : Z) : mos bool := fun m => settle now (fates m) m.

(** A statement or transaction. *)
Definition db {A} (now : Z) (f : mosaics -> (mosaicError + A) * mosaics) : mos (mosaicError + A) :=
  nextFate now ≫= fun fails : bool =>
  if fails then mret (inl DatabaseError) else (fun m => let '(r, m) := f m in (Done r, m)) : mos _.

Definition exec (now : Z) (f : mosaics -> mosaics) : mos (mosaicError + unit) := db now (fun m => (inr tt, f m)).

Definition orError {A} (r : option mosaicError * A) : (mosaicError + unit) * A :=
  match r with (Some e, a) => (inl e, a) | (None, a) => (inr tt, a) end.

Definition getJob (now : Z) (id : string) : mos (mosaicError + Job) :=
  db now (fun m => (match mosaic_harvest_jobs m !! id with Some j => inr j | None => inl ErrNotFound end, m)).

Definition cancelJob (now : Z) (job : Job) : mos unit :=
  exec now (updateJob now (withStatus JobCancelled true (Some now) now job)) ≫= fun _ => mret tt.

Definition failed (now : Z) (e : mosaicError) (text : mosaicError -> string) (j : Job) : Job :=
  mkJob (JobID j) (JobWorkspace j) (JobService j) (Request j) JobFailed (TotalGranules j) (Processed j) (Succeeded j) (FailedGranules j)
    (Generation j) (CancelRequested j) (text e) (CreatedBy j) (CreatedAt j) (StartedAt j) (Some now) now.

Section Harvest.
(** Configuration; the registry with its refresh; reading rasters, globs, the path policy, UUIDs, error texts. *)
Context (MaxGranulesPerJob BatchSize : Z) (MaxRetries : nat).
Context (config : string -> string -> mosaicError + RasterMosaicConnectionInfo).
Context (raster : nat -> HarvestGranule -> mosaicError + Granule) (glob : string -> string + list string) (check : string -> option string).
Context (newID : string -> string) (text : mosaicError -> string).

Definition failJob (now : Z) (job : Job) (e : mosaicError) : mos unit :=
  getJob now (JobID job) ≫= fun current =>
  match current with
  | inr j => if CancelRequested j then cancelJob now job
             else exec now (updateJob now (failed now e text job)) ≫= fun _ => mret tt
  | inl _ => exec now (updateJob now (failed now e text job)) ≫= fun _ => mret tt
  end.

Definition cancelled (now : Z) (job : Job) : mos bool :=
  looks (fun m => lifecycleBlocked m (JobWorkspace job) (JobService job)) ≫= fun blocked : bool =>
  if blocked then mret true
  else getJob now (JobID job) ≫= fun current => mret (match current with inr j => CancelRequested j | inl _ => true end).

(** [attempt <= MaxRetries]; what [inspectGranule] takes from the candidate. *)
Fixpoint inspectGranule (retries attempt : nat) (workspaceID : string) (c : HarvestGranule) : mosaicError + Granule :=
  match raster attempt c with
  | inr g => inr (mkGranule (newID (harvestPath c)) workspaceID (harvestPath c) (SRID g) (BandCount g) (DataType g) (MinX g) (MinY g) (MaxX g)
                    (MaxY g) (granuleTime g) (harvestElevation c) (harvestPriority c))
  | inl e => match retries with O => inl e | Datatypes.S r => inspectGranule r (Datatypes.S attempt) workspaceID c end
  end.

(** The counters of a job after a granule. *)
Definition counted (j : Job) (e : option mosaicError) : Job :=
  mkJob (JobID j) (JobWorkspace j) (JobService j) (Request j) (Status j) (TotalGranules j) (Processed j + 1)
    (Succeeded j + (match e with None => 1 | _ => 0 end)) (FailedGranules j + (match e with None => 0 | _ => 1 end)) (Generation j)
    (CancelRequested j) (match e with Some e => text e | None => ErrorMessage j end) (CreatedBy j) (CreatedAt j) (StartedAt j) (CompletedAt j)
    (UpdatedAt j).

Inductive harvestEnd : Type := Harvested (j : Job) | HarvestCancelled (j : Job) | HarvestFailed (j : Job) (e : mosaicError).

Definition incompatible : mosaicError := HarvestError "granule is incompatible with the mosaic CRS/band schema".

(** Inspection, compatibility and insertion of one candidate. *)
Definition harvestOne (now : Z) (job : Job) (reference : option Granule) (c : HarvestGranule) : mos (mosaicError + Granule) :=
  match inspectGranule MaxRetries 0 (JobWorkspace job) c with
  | inl e => mret (inl e)
  | inr g =>
      if negb (compatibleGranule reference g) then mret (inl incompatible)
      else exec now (upsertGranule (JobService job) (Generation job) g) ≫= fun r =>
           mret (match r with inl e => inl e | inr _ => inr g end)
  end.

Fixpoint harvestLoop (now : Z) (candidates : list HarvestGranule) (job : Job) (reference : option Granule) : mos harvestEnd :=
  match candidates with
  | [] => mret (Harvested job)
  | c :: rest =>
      cancelled now job ≫= fun stop : bool =>
      if stop then mret (HarvestCancelled job)
      else
        harvestOne now job reference c ≫= fun r =>
        let job := counted job (match r with inl e => Some e | inr _ => None end) in
        let reference := match r, reference with inr g, None => Some g | _, _ => reference end in
        (if (Z.rem (Processed job) (Z.max 1 BatchSize) =? 0) || (Processed job =? TotalGranules job)
         then exec now (updateJob now job) else mret (inr tt)) ≫= fun saved =>
        match saved, r with
        | inl e, _ => mret (HarvestFailed job e)
        | inr _, inl e => mret (HarvestFailed job e)
        | inr _, inr _ => harvestLoop now rest job reference
        end
  end.

Definition discardThen (now : Z) (job : Job) (k : mos unit) : mos unit :=
  exec now (discardGeneration (JobService job) (Generation job)) ≫= fun _ => k.

(** The part of [run] after the granules: activation, refresh of the registry, clean-up. *)
Definition publish (now : Z) (job : Job) : mos unit :=
  db now (activateJobGeneration (JobWorkspace job) (JobService job) (Generation job) (Some (JobID job))) ≫= fun r =>
  match r with
  | inl ErrHarvestCancelled => discardThen now job (cancelJob now job)
  | inl e => discardThen now job (failJob now job e)
  | inr previous =>
      nextFate now ≫= fun refreshFails : bool =>
      if refreshFails then
        db now (fun m => orError (restoreGeneration (JobService job) (Generation job) previous m)) ≫= fun restored =>
        match restored with
        | inl e => failJob now job e
        | inr _ => discardThen now job (failJob now job (HarvestError "activate harvested mosaic"))
        end
      else
        exec now (pruneInactiveGenerations (JobService job) (Generation job)) ≫= fun _ =>
        let done := mkJob (JobID job) (JobWorkspace job) (JobService job) (Request job) JobSucceeded (TotalGranules job) (Processed job)
                      (Succeeded job) (FailedGranules job) (Generation job) (CancelRequested job) "" (CreatedBy job) (CreatedAt job)
                      (StartedAt job) (Some now) now in
        exec now (updateJob now done) ≫= fun _ => mret tt
  end.

Definition withCounts (total generation : Z) (j : Job) : Job :=
  mkJob (JobID j) (JobWorkspace j) (JobService j) (Request j) (Status j) total (Processed j) (Succeeded j) (FailedGranules j) generation
    (CancelRequested j) (ErrorMessage j) (CreatedBy j) (CreatedAt j) (StartedAt j) (CompletedAt j) (UpdatedAt j).

(** The reference of an append; the error of the query is dropped. *)
Definition appendReference (now : Z) (preserve : bool) (job : Job) : mos (option Granule) :=
  if preserve
  then db now (fun m => (inr (listGranules m (JobWorkspace job) (JobService job) (mkGranuleFilter None "" None 1 0)), m)) ≫= fun r =>
       mret (match r with inr l => head l | inl _ => None end)
  else mret None.

(** Under the lock of the service. *)
Definition run (now : Z) (job : Job) : mos unit :=
  looks (fun m => lifecycleBlocked m (JobWorkspace job) (JobService job)) ≫= fun blocked : bool =>
  if blocked then cancelJob now job
  else
    match (match config (JobWorkspace job) (JobService job) with
           | inl e => inl e
           | inr info => harvestCandidates check glob info (Request job)
           end) with
    | inl e => failJob now job e
    | inr candidates =>
        let total := Z.of_nat (length candidates) in
        let job := withCounts total (Generation job) job in
        if total =? 0 then failJob now job (HarvestError "harvest found no granules")
        else if MaxGranulesPerJob <? total then failJob now job (HarvestError "harvest contains too many granules")
        else
          let preserve := String.eqb (Mode (Request job)) HarvestAppend in
          db now (fun m => let '(g, m) := beginGeneration newID (JobWorkspace job) (JobService job) preserve m in (inr g, m)) ≫= fun begun =>
          match begun with
          | inl e => failJob now job e
          | inr generation =>
              let job := withCounts total generation job in
              exec now (updateJob now job) ≫= fun saved =>
              match saved with
              | inl e => discardThen now job (failJob now job e)
              | inr _ =>
                  appendReference now preserve job ≫= fun reference =>
                  harvestLoop now candidates job reference ≫= fun out =>
                  match out with
                  | HarvestCancelled job => discardThen now job (cancelJob now job)
                  | HarvestFailed job e => discardThen now job (failJob now job e)
                  | Harvested job => publish now job
                  end
              end
          end
    end.

End Harvest.

(** ** Deletion of a granule

    Under the lock of the service; the result is the error, if any. *)

Definition dropGranule (serviceID : string) (generation : Z) (uri : string) (m : mosaics) : mosaics :=
  set_mosaic_granules (<[(serviceID, generation) := delete uri (rowsOf m serviceID generation)]> (mosaic_granules m)) m.

Definition deleteGranule (now : Z) (newID : string -> string) (workspaceID serviceID id : string) : mos (mosaicError + Z * Z) :=
  db now (fun m => (match getGranule m workspaceID serviceID id with Some g => inr g | None => inl ErrNotFound end, m)) ≫= fun found =>
  match found with
  | inl e => mret (inl e)
  | inr g =>
      db now (fun m => let '(n, m) := beginGeneration newID workspaceID serviceID true m in (inr n, m)) ≫= fun begun =>
      match begun with
      | inl e => mret (inl e)
      | inr next =>
          exec now (dropGranule serviceID next (SourceURI g)) ≫= fun dropped =>
          match dropped with
          | inl e => exec now (discardGeneration serviceID next) ≫= fun _ => mret (inl e)
          | inr _ =>
              db now (activateJobGeneration workspaceID serviceID next None) ≫= fun r =>
              match r with
              | inl e => exec now (discardGeneration serviceID next) ≫= fun _ => mret (inl e)
              | inr previous => mret (inr (next, previous))
              end
          end
      end
  end.

Definition DeleteGranule (now : Z) (newID : string -> string) (validate : option mosaicError) (workspaceID serviceID id : string)
    : mos (option mosaicError) :=
  match validate with
  | Some e => mret (Some e)
  | None =>
      deleteGranule now newID workspaceID serviceID id ≫= fun r =>
      match r with
      | inl e => mret (Some e)
      | inr (generation, previous) =>
          nextFate now ≫= fun refreshFails : bool =>
          if refreshFails then
            db now (fun m => orError (restoreGeneration serviceID generation previous m)) ≫= fun restored =>
            match restored with
            | inl e => mret (Some e)
            | inr _ => exec now (discardGeneration serviceID generation) ≫= fun _ => mret (Some (HarvestError "refresh service"))
            end
          else exec now (pruneInactiveGenerations serviceID generation) ≫= fun _ => mret None
      end
  end.

(** ** Lifecycle of services and workspaces *)

Definition inLifecycle (workspaceID : string) (serviceIDs : list string) (rowWorkspaceID rowServiceID : string) : bool :=
  String.eqb rowWorkspaceID workspaceID
  && match serviceIDs with [] => true | _ => bool_decide (rowServiceID ∈ serviceIDs) end.

(** The rows of [mosaic_services], [mosaic_granules] and [mosaic_harvest_jobs] in the scope. *)
Definition LifecycleStats (workspaceID : string) (serviceIDs : list string) (m : mosaics) : nat * nat * nat :=
  (size (filter (fun kv => inLifecycle workspaceID serviceIDs (rowWorkspace kv.2) kv.1 = true) (mosaic_services m)),
   list_sum ((fun kv => length (List.filter (fun g => inLifecycle workspaceID serviceIDs (granuleWorkspace g) kv.1.1) ((map_to_list kv.2).*2)))
               <$> map_to_list (mosaic_granules m)),
   size (filter (fun kv => inLifecycle workspaceID serviceIDs (JobWorkspace kv.2) (JobService kv.2) = true) (mosaic_harvest_jobs m))).

(** The transaction of [deleteLifecycleRows]. *)
Definition deleteRows (workspaceID : string) (serviceIDs : list string) (m : mosaics) : mosaics :=
  let scope := inLifecycle workspaceID serviceIDs in
  mkMosaics (filter (fun kv => scope (rowWorkspace kv.2) kv.1 = false) (mosaic_services m))
    (map_imap (fun k rows => Some (filter (fun kv => scope (granuleWorkspace kv.2) k.1 = false) rows)) (mosaic_granules m))
    (filter (fun kv => scope (JobWorkspace kv.2) (JobService kv.2) = false) (mosaic_harvest_jobs m))
    (blockedWorkspaces m) (blockedServices m) (fates m) (readers m).

(** How a transaction ends: an optimistic conflict is tried again. *)
Inductive txEnd : Type := Committed | Conflicted | Aborted.

Fixpoint deleteLifecycleRows (attempts : nat) (ends : list txEnd) (workspaceID : string) (serviceIDs : list string) (m : mosaics)
    : option mosaicError * mosaics :=
  match attempts with
  | O => (Some (HarvestError "mosaic lifecycle deletion remained conflicted after retries"), m)
  | Datatypes.S attempts =>
      match ends with
      | Conflicted :: ends => deleteLifecycleRows attempts ends workspaceID serviceIDs m
      | Aborted :: _ => (Some DatabaseError, m)
      | Committed :: _ | [] => (None, deleteRows workspaceID serviceIDs m)
      end
  end.

Definition cancelScope (now : Z) (workspaceID : string) (serviceIDs : list string) (j : Job) : Job :=
  if inLifecycle workspaceID serviceIDs (JobWorkspace j) (JobService j) && pending (Status j)
  then withStatus JobCancelled true (Some (default now (CompletedAt j))) now j else j.

(** Under the claim lock and the locks of the services. [queryFails], [updateFails]: the statements before the deletion. *)
Definition QuiesceAndDeleteLifecycle (now : Z) (queryFails updateFails : bool) (ends : list txEnd) (workspaceID : string)
    (serviceIDs : list string) (m : mosaics) : option mosaicError * mosaics :=
  let m := block workspaceID serviceIDs m in
  if match serviceIDs with [] => queryFails | _ => false end then (Some DatabaseError, m)
  else if updateFails then (Some DatabaseError, m)
  else deleteLifecycleRows 5 ends workspaceID serviceIDs
         (set_mosaic_jobs (cancelScope now workspaceID serviceIDs <$> mosaic_harvest_jobs m) m).
