(* ===== verification/MosaicTheorems.v ===== *)
(** * Mosaics: harvests publish whole generations, cancellation and activation exclude each other,
    a lifecycle deletion leaves nothing *)

From stdpp Require Import sorting.
From Stdlib Require Import PrimFloat.
From S2P Require Import Prelude GoText GoPath Mosaic.

(** ** Rules *)

Definition mwp {A} (c : mos A) (Q : A -> mosaics -> Prop) (X : mosaics -> Prop) (m : mosaics) : Prop :=
  match c m with
  | (Done a, m') => Q a m'
  | (Died, m') => X m'
  end.

Lemma mwp_ret {A} (a : A) Q X m : Q a m -> mwp (mret a) Q X m.
Proof. done. Qed.

Lemma mwp_looks {A} (f : mosaics -> A) Q X m : Q (f m) m -> mwp (looks f) Q X m.
Proof. done. Qed.

Lemma mwp_bind {A B} (c : mos A) (k : A -> mos B) Q X m : mwp c (fun a m' => mwp (k a) Q X m') X m -> mwp (c ≫= k) Q X m.
Proof. unfold mwp, mbind, mos_bind. by destruct (c m) as [[a|] m']. Qed.

Lemma mwp_mono {A} (c : mos A) (Q Q' : A -> mosaics -> Prop) (X X' : mosaics -> Prop) m :
  mwp c Q X m -> (forall a m', Q a m' -> Q' a m') -> (forall m', X m' -> X' m') -> mwp c Q' X' m.
Proof. unfold mwp. destruct (c m) as [[a|] m']; auto. Qed.

(** The job [id] did not succeed, and no call fails. *)
Definition unsucceeded (id : string) (m : mosaics) : Prop := forall j, mosaic_harvest_jobs m !! id = Some j -> Status j <> JobSucceeded.
Definition noFailure (m : mosaics) : Prop := Fails ∉ fates m.

(** Services and granules are untouched. *)
Record quiet (id : string) (m m' : mosaics) : Prop := {
  qu_services : mosaic_services m' = mosaic_services m;
  qu_granules : mosaic_granules m' = mosaic_granules m;
  qu_succeeded : unsucceeded id m -> unsucceeded id m';
  qu_fates : noFailure m -> noFailure m';
  qu_readers : forall x, x ∈ readers m' -> x ∈ readers m \/ x.2 = active m x.1 }.

(** A change of the jobs or of the blocked scopes. *)
Lemma quiet_same id m m' :
  mosaic_services m' = mosaic_services m -> mosaic_granules m' = mosaic_granules m -> (unsucceeded id m -> unsucceeded id m') ->
  fates m' = fates m -> readers m' = readers m -> quiet id m m'.
Proof. intros A B C D E. split; try done; [unfold noFailure; by rewrite D|]. rewrite E. by left. Qed.

Lemma quiet_refl id m : quiet id m m.
Proof. by apply quiet_same. Qed.
#[local] Hint Resolve quiet_refl : core.

Lemma quiet_trans id m1 m2 m3 : quiet id m1 m2 -> quiet id m2 m3 -> quiet id m1 m3.
Proof.
  intros [A B C D E] [A' B' C' D' E']. split; [congruence|congruence|auto|auto|]. intros x [Hx|Hx]%E'; [by apply E|right].
  unfold active in *. by rewrite <- A.
Qed.

Lemma cancelRow_status now j : Status j <> JobSucceeded -> Status (cancelRow now j) <> JobSucceeded.
Proof. unfold cancelRow. by destruct (Status j) eqn:E; cbn; rewrite ?E. Qed.

Lemma quiet_happen id now e m : quiet id m (happen now e m).
Proof.
  destruct e as [x|ws svcs|x]; cbn [happen].
  - unfold requestCancel. destruct (mosaic_harvest_jobs m !! x) as [j|] eqn:Hj; [|done].
    destruct (_ && _ && _); [done|]. apply quiet_same; try done. intros Hu y. cbn.
    destruct (decide (x = id)) as [->|Hne]; [rewrite lookup_insert_eq|rewrite lookup_insert_ne by done; apply Hu].
    intros [= <-]. apply cancelRow_status. by apply Hu.
  - unfold block. destruct svcs; by apply quiet_same.
  - split; try done. intros y [->|Hy]%elem_of_cons; [by right|by left].
Qed.

Lemma quiet_tail id m f l m1 : quiet id m (set_mosaic_fates (f :: l) m1) -> quiet id m (set_mosaic_fates l m1).
Proof. intros [A B C D E]. split; try done. intros Hn Hin. apply (D Hn). by right. Qed.

Lemma settle_quiet id now l m m1 : quiet id m (set_mosaic_fates l m1) ->
  match settle now l m1 with
  | (Done true, m2) => quiet id m m2 /\ ~ noFailure m
  | (_, m2) => quiet id m m2
  end.
Proof.
  revert m1. induction l as [|f l IH]; intros m1 Hq; cbn [settle]; [done|]. pose proof (quiet_tail _ _ _ _ _ Hq) as Ht. destruct f as [| | |e].
  - done.
  - split; [done|]. intros Hn. apply (qu_fates _ _ _ Hq Hn). by left.
  - done.
  - apply IH. pose proof (quiet_happen id now e m1) as [A B C D E]. destruct Ht as [A' B' C' D' E'].
    split; cbn in *; [congruence|congruence|auto|auto|]. intros x [Hx|Hx]%E; [by apply E'|right]. rewrite Hx. unfold active. by rewrite <- A'.
Qed.

Lemma mwp_nextFate id now (Q : bool -> mosaics -> Prop) X m :
  (forall m1, quiet id m m1 -> Q false m1) -> (forall m1, quiet id m m1 -> ~ noFailure m -> Q true m1) ->
  (forall m1, quiet id m m1 -> X m1) -> mwp (nextFate now) Q X m.
Proof.
  intros Hf Ht Hx. unfold mwp, nextFate. pose proof (settle_quiet id now (fates m) m m) as Hs.
  destruct (settle now (fates m) m) as [[[]|] m2]; [destruct Hs; [by destruct m|by apply Ht]|apply Hf, Hs|apply Hx, Hs]; by destruct m.
Qed.

Lemma mwp_db id {A} now (f : mosaics -> (mosaicError + A) * mosaics) Q X m :
  (forall m1, quiet id m m1 -> Q (f m1).1 (f m1).2) -> (forall m1, quiet id m m1 -> ~ noFailure m -> Q (inl DatabaseError) m1) ->
  (forall m1, quiet id m m1 -> X m1) -> mwp (db now f) Q X m.
Proof.
  intros Hf Ht Hx. apply mwp_bind, (mwp_nextFate id); [|by intros; apply mwp_ret, Ht|done].
  intros m1 Hq. specialize (Hf m1 Hq). unfold mwp. by destruct (f m1).
Qed.

Lemma mwp_exec id now f Q X m :
  (forall m1, quiet id m m1 -> Q (inr tt) (f m1)) -> (forall m1, quiet id m m1 -> ~ noFailure m -> Q (inl DatabaseError) m1) ->
  (forall m1, quiet id m m1 -> X m1) -> mwp (exec now f) Q X m.
Proof. apply (mwp_db id now (fun m => (inr tt, f m))). Qed.

(** ** Jobs leave the granules alone *)

Lemma updateRow_status now job row : Status job <> JobSucceeded -> Status row <> JobSucceeded -> Status (updateRow now job row) <> JobSucceeded.
Proof. intros Hj Hr. unfold updateRow. destruct (pending (Status row)); [|done]. cbn. by destruct (_ && _). Qed.

Lemma quiet_updateJob id now job m : Status job <> JobSucceeded -> quiet id m (updateJob now job m).
Proof.
  intros Hj. apply quiet_same; try done. intros Hu j. cbn. destruct (decide (JobID job = id)) as [->|Hne].
  - rewrite lookup_alter_eq. destruct (mosaic_harvest_jobs m !! id) as [row|] eqn:Hr; [|done]. intros [= <-].
    apply updateRow_status; [done|]. by apply Hu.
  - rewrite lookup_alter_ne by done. apply Hu.
Qed.

Lemma quiet_cancelJob id now job m : mwp (cancelJob now job) (fun _ => quiet id m) (quiet id m) m.
Proof.
  apply mwp_bind, (mwp_exec id); [|done|done]. intros m1 Hq. apply mwp_ret. eapply quiet_trans; [exact Hq|by apply quiet_updateJob].
Qed.

Lemma quiet_failJob id text now job e m : mwp (failJob text now job e) (fun _ => quiet id m) (quiet id m) m.
Proof.
  assert (Hupd : forall m1, quiet id m m1 -> mwp (exec now (updateJob now (failed now e text job)) ≫= fun _ => mret tt) (fun _ => quiet id m) (quiet id m) m1).
  { intros m1 Hq. apply mwp_bind, (mwp_exec id); intros m2 Hq2; [apply mwp_ret|intros _; apply mwp_ret|]; (eapply quiet_trans; [exact Hq|]); [|done|done].
    eapply quiet_trans; [exact Hq2|by apply quiet_updateJob]. }
  apply mwp_bind, (mwp_db id); [|intros m1 Hq _; by apply Hupd|done]. intros m1 Hq. cbn [fst snd].
  destruct (mosaic_harvest_jobs m1 !! JobID job) as [j|]; [|by apply Hupd]. destruct (CancelRequested j); [|by apply Hupd].
  eapply mwp_mono; [apply (quiet_cancelJob id)|..]; cbn; intros; by eapply quiet_trans.
Qed.

Lemma mwp_cancelled id now job (Q : bool -> mosaics -> Prop) X m :
  (forall b m1, quiet id m m1 -> Q b m1) -> (forall m1, quiet id m m1 -> X m1) -> mwp (cancelled now job) Q X m.
Proof.
  intros Hq Hx. apply mwp_bind, mwp_looks. destruct (lifecycleBlocked _ _ _); [by apply mwp_ret, Hq|].
  apply mwp_bind, (mwp_db id); [|intros m1 Hm _|done]; [|by apply mwp_ret, Hq]. intros m1 Hm. by apply mwp_ret, Hq.
Qed.

(** ** One harvest *)

Definition put (rows : gmap string Granule) (g : Granule) : gmap string Granule :=
  <[SourceURI g := upserted (rows !! SourceURI g) g]> rows.

Section Building.
Context (m0 : mosaics) (s id : string).
Local Abbreviation a0 := (active m0 s).

(** A request has read one of these generations. *)
Definition readersIn (gens : list Z) (m : mosaics) : Prop := forall g, (s, g) ∈ readers m -> (s, g) ∈ readers m0 \/ g ∈ gens.

(** Readers see what they saw; the next generation holds [R]. It has been the active one
    if [shown]. *)
Record building (shown : bool) (R : gmap string Granule) (m : mosaics) : Prop := {
  bu_active : forall s', active m s' = active m0 s';
  bu_rows : forall s' n, (s', n) <> (s, a0 + 1) -> rowsOf m s' n = rowsOf m0 s' n;
  bu_next : rowsOf m s (a0 + 1) = R;
  bu_unsucceeded : unsucceeded id m0 -> unsucceeded id m;
  bu_fates : noFailure m0 -> noFailure m;
  bu_readers : readersIn (a0 :: if shown then [a0 + 1] else []) m }.

Record activated (R : gmap string Granule) (m : mosaics) : Prop := {
  ac_active : active m s = a0 + 1;
  ac_others : forall s', s' <> s -> active m s' = active m0 s';
  ac_rows : forall s' n, (s', n) <> (s, a0 + 1) -> rowsOf m s' n = rowsOf m0 s' n;
  ac_next : rowsOf m s (a0 + 1) = R;
  ac_unsucceeded : unsucceeded id m0 -> unsucceeded id m;
  ac_fates : noFailure m0 -> noFailure m;
  ac_readers : readersIn [a0; a0 + 1] m }.

Record published (R : gmap string Granule) (m : mosaics) : Prop := {
  pu_active : active m s = a0 + 1;
  pu_others : forall s', s' <> s -> active m s' = active m0 s';
  pu_rows : forall s' n, s' <> s -> rowsOf m s' n = rowsOf m0 s' n;
  pu_next : rowsOf m s (a0 + 1) = R;
  pu_old : rowsOf m s a0 = rowsOf m0 s a0 \/ rowsOf m s a0 = ∅;
  pu_readers : readersIn [a0; a0 + 1] m }.

Lemma readersIn_quiet gens m m1 : active m s ∈ gens -> readersIn gens m -> quiet id m m1 -> readersIn gens m1.
Proof. intros Ha Hr [_ _ _ _ Hq] g [Hg|Hg]%Hq; [by apply Hr|right]. cbn in Hg. by rewrite Hg. Qed.

Lemma building_start : building false (rowsOf m0 s (a0 + 1)) m0.
Proof. split; try done. by left. Qed.

Lemma building_quiet b R m m1 : building b R m -> quiet id m m1 -> building b R m1.
Proof.
  intros [A B C D E F] Hq. assert (F' : readersIn (a0 :: if b then [a0 + 1] else []) m1) by (eapply readersIn_quiet; [|exact F|exact Hq]; rewrite A; left).
  destruct Hq as [Hs Hg Hu Hf _]. split; unfold active, rowsOf in *; rewrite ?Hs, ?Hg; auto.
Qed.

Lemma activated_quiet R m m1 : activated R m -> quiet id m m1 -> activated R m1.
Proof.
  intros [A A' B C D E F] Hq. assert (F' : readersIn [a0; a0 + 1] m1) by (eapply readersIn_quiet; [|exact F|exact Hq]; rewrite A; right; left).
  destruct Hq as [Hs Hg Hu Hf _]. split; unfold active, rowsOf in *; rewrite ?Hs, ?Hg; auto.
Qed.

Lemma published_quiet R m m1 : published R m -> quiet id m m1 -> published R m1.
Proof.
  intros [A A' B C D F] Hq. assert (F' : readersIn [a0; a0 + 1] m1) by (eapply readersIn_quiet; [|exact F|exact Hq]; rewrite A; right; left).
  destruct Hq as [Hs Hg Hu Hf _]. split; unfold active, rowsOf in *; rewrite ?Hs, ?Hg; auto.
Qed.

Lemma activated_published R m : activated R m -> published R m.
Proof.
  intros [A A' B C D E F]. split; try done; [intros s' n Hne; apply B; congruence|]. left. apply B. intros [=]. lia.
Qed.

Lemma published_updateJob R m now j : published R m -> published R (updateJob now j m).
Proof. by intros [A A' B C D F]. Qed.

(** What the next generation starts with. *)
Definition base (newID : string -> string) (preserve : bool) : gmap string Granule :=
  if preserve && (0 <? a0) then copyRow newID <$> rowsOf m0 s a0 else ∅.

Lemma building_begin newID ws preserve b R m : building b R m ->
  (beginGeneration newID ws s preserve m).1 = a0 + 1 /\ building b (base newID preserve) (beginGeneration newID ws s preserve m).2.
Proof.
  intros [A B C D E F]. unfold beginGeneration.
  set (m1 := match mosaic_services m !! s with Some _ => m | None => _ end).
  assert (Ha : forall s', active m1 s' = active m0 s').
  { intros s'. rewrite <- A. unfold m1, active. destruct (mosaic_services m !! s) eqn:Hs; [done|]. cbn.
    destruct (decide (s = s')) as [<-|Hne]; [by rewrite lookup_insert_eq, Hs|by rewrite lookup_insert_ne]. }
  assert (Hg : mosaic_granules m1 = mosaic_granules m) by (unfold m1; by destruct (mosaic_services m !! s)).
  assert (Hj : mosaic_harvest_jobs m1 = mosaic_harvest_jobs m) by (unfold m1; by destruct (mosaic_services m !! s)).
  assert (Hf : fates m1 = fates m) by (unfold m1; by destruct (mosaic_services m !! s)).
  assert (Hr : readers m1 = readers m) by (unfold m1; by destruct (mosaic_services m !! s)).
  cbn [fst snd]. rewrite !Ha. split; [done|].
  assert (Hold : rowsOf m1 s a0 = rowsOf m0 s a0).
  { unfold rowsOf at 1. rewrite Hg. apply (B s a0). intros [=]. lia. }
  split; [done|..|unfold unsucceeded; cbn; rewrite Hj; apply D|unfold noFailure; cbn; rewrite Hf; apply E|unfold readersIn; cbn; rewrite Hr; apply F].
  - intros s' n Hne. rewrite <- (B s' n Hne). unfold rowsOf. cbn. rewrite Hg.
    destruct (preserve && (0 <? a0)); rewrite ?lookup_insert_ne, ?lookup_delete_ne by done; done.
  - unfold base, rowsOf at 1. cbn. rewrite Hold. destruct (preserve && (0 <? a0)); [by rewrite lookup_insert_eq|by rewrite lookup_delete_eq].
Qed.

Lemma building_upsert b R m g : building b R m -> building b (put R g) (upsertGranule s (a0 + 1) g m).
Proof.
  intros [A B C D E F]. split; try done.
  - intros s' n Hne. rewrite <- (B s' n Hne). unfold rowsOf at 1. cbn. by rewrite lookup_insert_ne.
  - unfold rowsOf at 1. cbn. rewrite lookup_insert_eq. cbn. by rewrite C.
Qed.

Lemma building_discard b R m : building b R m -> building b ∅ (discardGeneration s (a0 + 1) m).
Proof.
  intros [A B C D E F]. split; try done.
  - intros s' n Hne. rewrite <- (B s' n Hne). unfold rowsOf at 1. cbn. by rewrite lookup_delete_ne.
  - unfold rowsOf. cbn. by rewrite lookup_delete_eq.
Qed.

Lemma building_activate R m ws r m' job : building false R m -> activateJobGeneration ws s (a0 + 1) job m = (r, m') ->
  match r with inl _ => m' = m | inr previous => previous = a0 /\ activated R m' end.
Proof.
  intros [A B C D E F]. unfold activateJobGeneration. destruct (match job with None => None | _ => _ end); [by intros [= <- <-]|].
  destruct (mosaic_services m !! s) as [row|] eqn:Hs; [|by intros [= <- <-]]. destruct (negb _); [by intros [= <- <-]|].
  destruct (Nat.eqb _ 0); [by intros [= <- <-]|]. intros [= <- <-]. split.
  { rewrite <- A. unfold active. by rewrite Hs. }
  split; try done.
  - unfold active at 1. cbn. by rewrite lookup_insert_eq.
  - intros s' Hne. rewrite <- (A s'). unfold active. cbn. by rewrite lookup_insert_ne by congruence.
  - intros g [Hg|Hg]%F; [by left|right]. set_solver.
Qed.

Lemma activated_restore R m m' : activated R m -> restoreGeneration s (a0 + 1) a0 m = (None, m') -> building true R m'.
Proof.
  intros [A A' B C D E F]. unfold restoreGeneration. destruct (mosaic_services m !! s) as [row|] eqn:Hs; [|done].
  destruct (activeGeneration row =? a0 + 1); [|done]. intros [= <-]. split; try done. intros s'. unfold active at 1. cbn.
  destruct (decide (s = s')) as [<-|Hne]; [by rewrite lookup_insert_eq|]. rewrite lookup_insert_ne by done. by apply A'.
Qed.

Lemma restore_unchanged m r m' : restoreGeneration s (a0 + 1) a0 m = (Some r, m') -> m' = m.
Proof. unfold restoreGeneration. destruct (mosaic_services m !! s) as [row|]; [destruct (_ =? _)|]; by intros [= <- <-]. Qed.

Lemma published_prune R m : published R m -> published R (pruneInactiveGenerations s (a0 + 1) m).
Proof.
  intros [A A' B C D F]. split; try done.
  - intros s' n Hne. rewrite <- (B s' n Hne). unfold rowsOf. cbn. f_equal. destruct (mosaic_granules m !! (s', n)) eqn:Hk.
    + apply map_lookup_filter_Some. split; [done|]. by left.
    + apply map_lookup_filter_None. by left.
  - unfold rowsOf in *. rewrite <- C. cbn. f_equal. destruct (mosaic_granules m !! (s, a0 + 1)) eqn:Hk.
    + apply map_lookup_filter_Some. split; [done|]. by right.
    + apply map_lookup_filter_None. by left.
  - right. unfold rowsOf. cbn. assert (filter (fun kv => kv.1.1 <> s \/ kv.1.2 = a0 + 1) (mosaic_granules m) !! (s, a0) = None) as ->; [|done].
    apply map_lookup_filter_None. right. cbn. intros rows _ [?|?]; [done|lia].
Qed.
End Building.

(** *** Schemas *)

Definition schema (g : Granule) : Z * Z * string := (SRID g, BandCount g, DataType g).

(** All granules have one reference system, band count and data type. *)
Definition uniform (rows : gmap string Granule) : Prop :=
  forall u v g h, rows !! u = Some g -> rows !! v = Some h -> schema g = schema h.

Lemma compatible_schema r g : compatibleGranule (Some r) g = true <-> schema r = schema g.
Proof.
  unfold compatibleGranule, schema. rewrite !andb_true_iff, !Z.eqb_eq, String.eqb_eq. split; [by intros [[-> ->] ->]|by intros [= -> -> ->]].
Qed.

Lemma put_schema t rows gs : (forall u g, rows !! u = Some g -> schema g = t) -> Forall (fun g => schema g = t) gs ->
  forall u g, foldl put rows gs !! u = Some g -> schema g = t.
Proof.
  intros Hr Hg. revert rows Hr. induction Hg as [|g gs Hg _ IH]; intros rows Hr; [done|]. cbn [foldl]. apply IH. intros u h.
  unfold put. destruct (decide (SourceURI g = u)) as [->|Hne]; [|rewrite lookup_insert_ne by done; apply Hr].
  rewrite lookup_insert_eq. intros [= <-]. rewrite <- Hg. by destruct (rows !! u).
Qed.

Section Harvests.
Context (MaxGranulesPerJob BatchSize : Z) (MaxRetries : nat).
Context (config : string -> string -> mosaicError + RasterMosaicConnectionInfo).
Context (raster : nat -> HarvestGranule -> mosaicError + Granule) (glob : string -> string + list string) (check : string -> option string).
Context (newID : string -> string) (text : mosaicError -> string).
Context (m0 : mosaics) (s id ws : string).
Local Abbreviation a0 := (active m0 s).
Local Abbreviation shownBuilding := (building m0 s id true).
Local Abbreviation building := (building m0 s id false).
Local Abbreviation activated := (activated m0 s id).
Local Abbreviation published := (published m0 s).
Local Abbreviation run := (Mosaic.run MaxGranulesPerJob BatchSize MaxRetries config raster glob check newID text).
Local Abbreviation harvestLoop := (Mosaic.harvestLoop BatchSize MaxRetries raster newID text).
Local Abbreviation inspected := (Mosaic.inspectGranule raster newID MaxRetries 0 ws).

(** The job of this harvest, with its generation. *)
Definition own (j : Job) : Prop :=
  JobID j = id /\ JobWorkspace j = ws /\ JobService j = s /\ Generation j = a0 + 1 /\ Status j <> JobSucceeded.

Definition unpublished (m : mosaics) : Prop := exists R, building R m.

Lemma unpublished_quiet m m1 : unpublished m -> quiet id m m1 -> unpublished m1.
Proof. intros [R Hb] Hq. exists R. by eapply building_quiet. Qed.

Lemma ends_unpublished (c : mos unit) m : unpublished m -> mwp c (fun _ => quiet id m) (quiet id m) m -> mwp c (fun _ => unpublished) unpublished m.
Proof. intros Hu Hc. eapply mwp_mono; [exact Hc|..]; cbn; intros; by eapply unpublished_quiet. Qed.

(** What is harvested is discarded; the job is recorded. *)
Lemma discardThen_keeps (I : mosaics -> Prop) now j k m :
  (forall m m1, I m -> quiet id m m1 -> I m1) -> (forall m, I m -> I (discardGeneration s (a0 + 1) m)) -> own j -> I m ->
  (forall m1, mwp k (fun _ => quiet id m1) (quiet id m1) m1) -> mwp (discardThen now j k) (fun _ => I) I m.
Proof.
  intros Hquiet Hdisc (_ & _ & Hs & Hg & _) Hi Hk. unfold discardThen. rewrite Hs, Hg.
  assert (Hend : forall m1, I m1 -> mwp k (fun _ => I) I m1).
  { intros m1 Hm1. eapply mwp_mono; [apply Hk|..]; cbn; intros; by eapply Hquiet. }
  apply mwp_bind, (mwp_exec id).
  - intros m1 Hq. apply Hend, Hdisc. by eapply Hquiet.
  - intros m1 Hq _. apply Hend. by eapply Hquiet.
  - intros m1 Hq. by eapply Hquiet.
Qed.

Lemma discardThen_spec now j k m : own j -> unpublished m ->
  (forall m1, mwp k (fun _ => quiet id m1) (quiet id m1) m1) -> mwp (discardThen now j k) (fun _ => unpublished) unpublished m.
Proof.
  intros Hj Hu Hk. apply discardThen_keeps; [apply unpublished_quiet| |done|done|done].
  intros m1 [R Hb]. exists ∅. by eapply building_discard.
Qed.

(** A generation that was active for a moment and was taken back. *)
Definition withdrawn (R : gmap string Granule) (m : mosaics) : Prop := exists R', shownBuilding R' m /\ (R' = R \/ R' = ∅).

Lemma withdrawn_discardThen R now j k m : own j -> withdrawn R m ->
  (forall m1, mwp k (fun _ => quiet id m1) (quiet id m1) m1) -> mwp (discardThen now j k) (fun _ => withdrawn R) (withdrawn R) m.
Proof.
  intros Hj Hw Hk. apply discardThen_keeps; [| |done|done|done].
  - intros m1 m2 (R' & Hb & Hor) Hq. exists R'. split; [by eapply building_quiet|done].
  - intros m1 (R' & Hb & Hor). exists ∅. split; [by eapply building_discard|by right].
Qed.

(** The granules of the candidates, all compatible with one of them. *)
Definition harvest (reference : option Granule) (candidates : list HarvestGranule) (gs : list Granule) : Prop :=
  Forall2 (fun c g => inspected c = inr g) candidates gs /\
  exists ref', Forall (fun g => compatibleGranule ref' g = true) gs /\ (if reference is Some r then ref' = Some r else ref' = head gs).

Lemma inspected_uri retries attempt c g : Mosaic.inspectGranule raster newID retries attempt ws c = inr g -> granuleWorkspace g = ws /\ SourceURI g = harvestPath c.
Proof.
  revert attempt. induction retries as [|n IH]; intros attempt; cbn; destruct (raster attempt c); try done; [by intros [= <-]|apply IH|by intros [= <-]].
Qed.

Lemma compatible_refl g : compatibleGranule (Some g) g = true.
Proof. cbn. by rewrite !Z.eqb_refl, String.eqb_refl. Qed.

Lemma own_counted j e : own j -> own (counted text j e).
Proof. by intros (A & B & C & D & E). Qed.

Lemma harvestOne_spec now j reference c R m : own j -> building R m ->
  mwp (harvestOne MaxRetries raster newID now j reference c)
    (fun r m' => match r with
                 | inr g => building (put R g) m' /\ inspected c = inr g /\ compatibleGranule reference g = true
                 | inl _ => building R m'
                 end) unpublished m.
Proof.
  intros (_ & Hw & Hs & Hg & _) Hb. unfold harvestOne. rewrite Hw. destruct (Mosaic.inspectGranule raster newID MaxRetries 0 ws c) as [e|g] eqn:Hi; [done|].
  destruct (compatibleGranule reference g) eqn:Hc; [|done]. cbn [negb]. rewrite Hs, Hg. apply mwp_bind, (mwp_exec id).
  - intros m1 Hq. apply mwp_ret. split; [|done]. apply building_upsert. by eapply building_quiet.
  - intros m1 Hq _. apply mwp_ret. by eapply building_quiet.
  - intros m1 Hq. exists R. by eapply building_quiet.
Qed.

Lemma harvestLoop_spec now candidates j reference R m : own j -> building R m ->
  mwp (harvestLoop now candidates j reference)
    (fun out m' => match out with
                   | Harvested j' => own j' /\ exists gs, harvest reference candidates gs /\ building (foldl put R gs) m'
                   | HarvestCancelled j' | HarvestFailed j' _ => own j' /\ unpublished m'
                   end) unpublished m.
Proof.
  revert j reference R m. induction candidates as [|c rest IH]; intros j reference R m Hj Hb; cbn [Mosaic.harvestLoop].
  { apply mwp_ret. split; [done|]. exists []. split; [|done]. split; [constructor|]. destruct reference as [r|]; [by exists (Some r)|by exists None]. }
  apply mwp_bind, (mwp_cancelled id); [|intros m1 Hq; exists R; by eapply building_quiet].
  intros [] m1 Hq; [apply mwp_ret; split; [done|]; exists R; by eapply building_quiet|].
  apply mwp_bind. eapply mwp_mono; [apply harvestOne_spec; [done|by eapply building_quiet]| |done].
  intros r m2 Hr. set (j' := counted text j _). assert (Hj' : own j') by by apply own_counted. clearbody j'.
  apply mwp_bind. eapply (mwp_mono _ (fun _ m3 => match r with
      | inr g => building (put R g) m3 /\ inspected c = inr g /\ compatibleGranule reference g = true | inl _ => building R m3 end) _ unpublished); [|..|done].
  { assert (Hkeep : forall m3, quiet id m2 m3 -> match r with
       | inr g => building (put R g) m3 /\ inspected c = inr g /\ compatibleGranule reference g = true | inl _ => building R m3 end).
    { intros m3 Hq3. destruct r as [e|g]; [by eapply building_quiet|]. destruct Hr as (Hbb & Hrest). split; [by eapply building_quiet|done]. }
    destruct (_ || _); [|by apply mwp_ret, Hkeep]. apply (mwp_exec id).
    - intros m3 Hq3. apply Hkeep. eapply quiet_trans; [exact Hq3|]. apply quiet_updateJob. apply Hj'.
    - intros m3 Hq3 _. by apply Hkeep.
    - intros m3 Hq3. specialize (Hkeep m3 Hq3). destruct r as [e|g]; [by exists R|]. destruct Hkeep as [Hk _]. by eexists. }
  intros saved m3 Hr3. assert (Hu : unpublished m3) by (destruct r as [e|g]; [by exists R|destruct Hr3 as [Hk _]; by eexists]).
  destruct saved as [e|u]; [by apply mwp_ret|]. destruct r as [e|g]; [by apply mwp_ret|]. destruct Hr3 as (Hb3 & Hi & Hc).
  eapply mwp_mono; [by apply IH| |done]. intros [j3|j3|j3 e3] m4; [|done|done]. intros (Hj3 & gs & [Hf (ref' & Hcs & Href)] & Hb4).
  split; [done|]. exists (g :: gs). split; [|done]. split; [by constructor|]. destruct reference as [r|].
  - exists ref'. split; [|done]. constructor; [by rewrite Href|done].
  - exists ref'. split; [|done]. constructor; [|done]. rewrite Href. apply compatible_refl.
Qed.

(** What a reader finds afterwards. *)
Definition outcome (P : gmap string Granule -> Prop) (m : mosaics) : Prop :=
  unpublished m \/ exists R, P R /\ (withdrawn R m \/ published R m).

Lemma publish_spec now j R m (P : gmap string Granule -> Prop) : own j -> building R m -> P R ->
  mwp (publish text now j) (fun _ => outcome P) (outcome P) m.
Proof.
  intros Hj Hb HP. pose proof Hj as (Hid & Hw & Hs & Hg & Hst).
  assert (Hdisc : forall k m1, unpublished m1 -> (forall m2, mwp k (fun _ => quiet id m2) (quiet id m2) m2) ->
            mwp (discardThen now j k) (fun _ => outcome P) (outcome P) m1).
  { intros k m1 Hu Hk. eapply mwp_mono; [by apply discardThen_spec|..]; intros; by left. }
  assert (Hpub : forall m1 m2, activated R m1 -> quiet id m1 m2 -> outcome P m2).
  { intros m1 m2 Ha Hq. right. exists R. split; [done|]. right. eapply activated_published. by eapply activated_quiet. }
  unfold publish. rewrite Hw, Hs, Hg. apply mwp_bind, (mwp_db id).
  2:{ intros m1 Hq _. apply Hdisc; [exists R; by eapply building_quiet|]. intros; apply quiet_failJob. }
  2:{ intros m1 Hq. left. exists R. by eapply building_quiet. }
  intros m1 Hq. destruct (activateJobGeneration _ _ _ _ m1) as [r m2] eqn:He. cbn [fst snd].
  eapply building_activate in He; [|by eapply building_quiet]. destruct r as [e|previous].
  { subst m2. assert (Hu : unpublished m1) by (exists R; by eapply building_quiet).
    destruct e; apply Hdisc; try done; intros; first [apply quiet_failJob|apply quiet_cancelJob]. }
  destruct He as [-> Ha]. apply mwp_bind, (mwp_nextFate id); [intros m3 Hq3|intros m3 Hq3 _|intros m3 Hq3; by eapply Hpub].
  - assert (Ha3 : activated R m3) by by eapply activated_quiet.
    assert (Hend : forall m4, published R m4 -> outcome P m4) by (intros m4 Hp; right; exists R; auto).
    apply mwp_bind, (mwp_exec id); [intros m4 Hq4|intros m4 Hq4 _|intros m4 Hq4; by eapply Hpub];
      (assert (Hp4 : published R m4) by (apply (activated_published _ _ id), (activated_quiet _ _ _ _ m3); done));
      [apply published_prune in Hp4|]; (apply mwp_bind, (mwp_exec id);
        [intros m5 Hq5; apply mwp_ret, Hend, published_updateJob|intros m5 Hq5 _; apply mwp_ret, Hend|intros m5 Hq5; apply Hend]);
      by eapply (published_quiet _ _ id).
  - assert (Ha3 : activated R m3) by by eapply activated_quiet.
    assert (Hfail : forall e m4 m5, activated R m4 -> quiet id m4 m5 -> mwp (failJob text now j e) (fun _ => outcome P) (outcome P) m5).
    { intros e m4 m5 Ha4 Hq5. eapply mwp_mono; [apply (quiet_failJob id)|..]; cbn; intros; eapply Hpub; try done; by eapply quiet_trans. }
    apply mwp_bind, (mwp_db id); [intros m4 Hq4|intros m4 Hq4 _; by eapply Hfail|intros m4 Hq4; by eapply Hpub].
    assert (Ha4 : activated R m4) by by eapply activated_quiet.
    destruct (restoreGeneration s (a0 + 1) a0 m4) as [[e|] m5] eqn:Hr; cbn [orError fst snd].
    + apply restore_unchanged in Hr as ->. by eapply Hfail.
    + eapply mwp_mono; [apply (withdrawn_discardThen R); [done| |intros; apply quiet_failJob]|..];
        [|intros; right; exists R; auto..]. exists R. split; [by eapply activated_restore|by left].
Qed.

(** The granules that readers see. *)
Definition visible (m : mosaics) : gmap string Granule := if active m s =? 0 then ∅ else rowsOf m s (active m s).

Definition ownGranules : Prop := forall u g, rowsOf m0 s a0 !! u = Some g -> granuleWorkspace g = ws.

Lemma head_granule m : active m s = a0 -> rowsOf m s a0 = rowsOf m0 s a0 ->
  match head (listGranules m ws s (mkGranuleFilter None "" None 1 0)) with
  | Some r => exists u, rowsOf m0 s a0 !! u = Some r
  | None => a0 = 0 \/ (ownGranules -> rowsOf m0 s a0 = ∅)
  end.
Proof.
  intros Ha Hr. unfold listGranules. rewrite Ha. destruct (Z.eqb_spec a0 0) as [|Hne]; [by left|].
  unfold selectGranules. cbn [Limit Offset]. change (Z.to_nat (Z.max 0 0)) with 0%nat. rewrite Hr, drop_0.
  change (Z.to_nat (if (1 <=? 0) || (1000000 <? 1) then 1000 else 1)) with 1%nat.
  set (l := List.filter _ _). pose proof (merge_sort_Permutation granuleBefore l) as Hp.
  destruct (merge_sort granuleBefore l) as [|r rest]; cbn.
  - right. intros Hown. apply map_empty. intros u. apply eq_None_not_Some. intros [g Hg].
    assert (Hin : g ∈ l); [|rewrite <- Hp in Hin; by apply not_elem_of_nil in Hin].
    apply list_elem_of_In, filter_In. split; [apply list_elem_of_In, list_elem_of_fmap; exists (u, g); split; [done|by apply elem_of_map_to_list]|].
    by rewrite (Hown u g Hg), String.eqb_refl.
  - assert (Hin : r ∈ l) by (rewrite <- Hp; by left). apply list_elem_of_In, filter_In in Hin as [Hin _].
    apply list_elem_of_In, list_elem_of_fmap in Hin as ([u g] & -> & Hg). exists u. by apply elem_of_map_to_list.
Qed.

Lemma base_schema t preserve : (forall u g, rowsOf m0 s a0 !! u = Some g -> schema g = t) ->
  forall u g, base m0 s newID preserve !! u = Some g -> schema g = t.
Proof.
  intros Hr u g. unfold base. destruct (_ && _); [|by rewrite lookup_empty]. rewrite lookup_fmap. destruct (rowsOf m0 s a0 !! u) as [h|] eqn:Hh; [|done].
  intros [= <-]. by rewrite <- (Hr u h Hh).
Qed.

(** The generation of a job is uniform when the old one was, and its reference was read. *)
Lemma harvest_uniform preserve reference candidates gs : harvest reference candidates gs ->
  (preserve = true -> match reference with
                      | Some r => exists u, rowsOf m0 s a0 !! u = Some r
                      | None => a0 <= 0 \/ rowsOf m0 s a0 = ∅
                      end) ->
  (preserve = false -> reference = None) -> uniform (rowsOf m0 s a0) -> uniform (foldl put (base m0 s newID preserve) gs).
Proof.
  intros [_ (ref' & Hc & Href)] Hp Hn Hu.
  assert (Hbase : forall t, (forall u g, base m0 s newID preserve !! u = Some g -> schema g = t) -> Forall (fun g => schema g = t) gs ->
            uniform (foldl put (base m0 s newID preserve) gs)).
  { intros t Hb Hg u v g h Hu1 Hv1. pose proof (put_schema t _ _ Hb Hg) as Hs. by rewrite (Hs u g Hu1), (Hs v h Hv1). }
  destruct reference as [r|].
  - apply (Hbase (schema r)).
    + apply base_schema. destruct preserve; [|by specialize (Hn eq_refl)]. destruct (Hp eq_refl) as [v Hv]. intros u g Hg. by apply (Hu u v).
    + eapply Forall_impl; [exact Hc|]. intros g. rewrite Href, compatible_schema. done.
  - assert (Hempty : base m0 s newID preserve = ∅).
    { unfold base. destruct preserve; [|done]. destruct (Hp eq_refl) as [Hz|Hz]; [by replace (0 <? a0) with false by lia|].
      rewrite Hz, fmap_empty. by destruct (true && (0 <? a0)). }
    destruct gs as [|g gs]; [cbn; rewrite Hempty; by intros u v g h Hg; rewrite lookup_empty in Hg|].
    apply (Hbase (schema g)); [rewrite Hempty; by intros u h; rewrite lookup_empty|].
    eapply Forall_impl; [exact Hc|]. intros h. rewrite Href. cbn [head]. by rewrite compatible_schema.
Qed.

(** The rows that [R] may hold: every candidate of the request, over the old rows for an append. *)
Definition complete (r : HarvestRequest) (R : gmap string Granule) : Prop :=
  exists info candidates gs reference, config ws s = inr info /\ harvestCandidates check glob info r = inr candidates /\ candidates <> []
    /\ harvest reference candidates gs /\ R = foldl put (base m0 s newID (String.eqb (Mode r) HarvestAppend)) gs
    /\ (noFailure m0 -> 0 <= a0 -> ownGranules -> uniform (rowsOf m0 s a0) -> uniform R).

Lemma appendReference_spec now preserve j R m : own j -> building R m ->
  mwp (appendReference now preserve j)
    (fun reference m' => building R m' /\ (preserve = false -> reference = None) /\
       (preserve = true -> noFailure m0 -> 0 <= a0 -> ownGranules ->
        match reference with Some r => exists u, rowsOf m0 s a0 !! u = Some r | None => a0 <= 0 \/ rowsOf m0 s a0 = ∅ end))
    unpublished m.
Proof.
  intros (_ & Hw & Hs & _) Hb. unfold appendReference. destruct preserve; [|by apply mwp_ret]. rewrite Hw, Hs.
  apply mwp_bind, (mwp_db id); [intros m1 Hq|intros m1 Hq Hf|intros m1 Hq; exists R; by eapply building_quiet];
    (assert (Hb1 : building R m1) by by eapply building_quiet); apply mwp_ret; (split; [done|]); (split; [done|]).
  - intros _ _ Ha Hown. assert (Hne : (s, a0) <> (s, a0 + 1)) by (intros [=]; lia).
    pose proof (head_granule m1 (bu_active _ _ _ _ _ _ Hb1 s) (bu_rows _ _ _ _ _ _ Hb1 s a0 Hne)) as Hh. cbn [fst].
    destruct (head _) as [r|]; [exact Hh|]. destruct Hh as [Hh|Hh]; [left; lia|right; by apply Hh].
  - intros _ Hn. exfalso. apply Hf. by apply (bu_fates _ _ _ _ _ _ Hb).
Qed.

Lemma run_spec now job : JobID job = id -> JobWorkspace job = ws -> JobService job = s -> Status job <> JobSucceeded ->
  mwp (run now job) (fun _ => outcome (complete (Request job))) (outcome (complete (Request job))) m0.
Proof.
  intros Hid Hw Hs Hst. assert (Hstart : unpublished m0) by (eexists; apply building_start).
  assert (Hleft : forall (c : mos unit) m, unpublished m -> mwp c (fun _ => quiet id m) (quiet id m) m ->
            mwp c (fun _ => outcome (complete (Request job))) (outcome (complete (Request job))) m).
  { intros c m Hu Hc. eapply mwp_mono; [by apply ends_unpublished|..]; intros; by left. }
  assert (Hdisc : forall j k m, own j -> unpublished m -> (forall m1, mwp k (fun _ => quiet id m1) (quiet id m1) m1) ->
            mwp (discardThen now j k) (fun _ => outcome (complete (Request job))) (outcome (complete (Request job))) m).
  { intros j k m Hj Hu Hk. eapply mwp_mono; [by apply discardThen_spec|..]; intros; by left. }
  assert (Hfail : forall j e m, unpublished m -> mwp (failJob text now j e) (fun _ => outcome (complete (Request job))) (outcome (complete (Request job))) m)
    by (intros; apply Hleft; [done|apply quiet_failJob]).
  unfold Mosaic.run. apply mwp_bind, mwp_looks. destruct (lifecycleBlocked _ _ _); [apply Hleft; [done|apply quiet_cancelJob]|].
  rewrite Hw, Hs. destruct (config ws s) as [e|info] eqn:Hcfg; [by apply Hfail|].
  destruct (harvestCandidates check glob info (Request job)) as [e|candidates] eqn:Hcand; [by apply Hfail|].
  destruct (Z.eqb_spec (Z.of_nat (length candidates)) 0) as [Hz|Hz]; [by apply Hfail|]. destruct (_ <? _); [by apply Hfail|].
  cbn [Request JobWorkspace JobService withCounts]. rewrite Hw, Hs.
  apply mwp_bind, (mwp_db id); [intros m1 Hq|intros m1 Hq _; apply Hfail|intros m1 Hq; left]; [|by eapply unpublished_quiet..].
  destruct (building_begin m0 s id newID ws (String.eqb (Mode (Request job)) HarvestAppend) false _ m1 (building_quiet _ _ _ _ _ _ _ (building_start m0 s id) Hq)) as [Hg Hb].
  destruct (beginGeneration _ _ _ _ m1) as [generation m2]. cbn [fst snd] in *. subst generation.
  set (j := withCounts _ (a0 + 1) _). assert (Hj : own j) by done.
  apply mwp_bind, (mwp_exec id); [intros m3 Hq3|intros m3 Hq3 _|intros m3 Hq3; left; eexists; by eapply building_quiet].
  2:{ apply Hdisc; [done|eexists; by eapply building_quiet|intros; apply quiet_failJob]. }
  assert (Hb3 : building (base m0 s newID (String.eqb (Mode (Request job)) HarvestAppend)) (updateJob now j m3)).
  { eapply building_quiet; [|apply quiet_updateJob; apply Hj]. by eapply building_quiet. }
  apply mwp_bind. eapply mwp_mono; [by apply appendReference_spec| |intros m4 Hu; by left].
  intros reference m4 (Hb4 & Hnone & Hsome). apply mwp_bind. eapply mwp_mono; [by apply harvestLoop_spec| |intros m5 Hu; by left].
  intros [j5|j5|j5 e5] m5 Hout; [|apply Hdisc; [apply Hout..|intros; apply quiet_cancelJob]|apply Hdisc; [apply Hout..|intros; apply quiet_failJob]].
  destruct Hout as (Hj5 & gs & Hgs & Hb5). eapply publish_spec; [done|exact Hb5|].
  exists info, candidates, gs, reference. split; [done|]. split; [done|]. split; [by destruct candidates|]. split; [done|]. split; [done|].
  intros Hn Ha Hown Hu. eapply harvest_uniform; [exact Hgs|intros Hp; by apply Hsome|done|done].
Qed.
End Harvests.

(** The granules that a request finds that has read the generation [g]. *)
Definition seen (s : string) (g : Z) (m : mosaics) : gmap string Granule := if g =? 0 then ∅ else rowsOf m s g.

(** C9: a harvest publishes a whole generation or nothing. Whatever statements fail, whatever
    requests to cancel and lifecycle blocks arrive in between, and wherever the process dies,
    the granules of the active generation are exactly those of before, or the complete set of
    the request: every candidate, over the old granules for an append; never a part. A request
    for granules reads the active generation and then its rows: one that read the generation at
    any point of the harvest and reads the rows at the end, or where the process dies, finds the
    granules of before, the complete set, or none at all, because that generation has been
    replaced or taken back in between; never a part. A job that is recorded as succeeded has
    published. When no statement failed and the old granules had one reference system, band
    count and data type, so have the new ones. Other services are untouched. *)
Theorem harvest_all_or_nothing MaxGranulesPerJob BatchSize MaxRetries config raster glob check newID text now job m r m' :
  0 <= active m (JobService job) -> Status job <> JobSucceeded -> unsucceeded (JobID job) m ->
  (forall g, (JobService job, g) ∉ readers m) ->
  run MaxGranulesPerJob BatchSize MaxRetries config raster glob check newID text now job m = (r, m') ->
  let full := complete MaxRetries config raster glob check newID m (JobService job) (JobWorkspace job) (Request job) in
  (visible (JobService job) m' = visible (JobService job) m /\ unsucceeded (JobID job) m' \/ full (visible (JobService job) m'))
  /\ (forall g, (JobService job, g) ∈ readers m' ->
        seen (JobService job) g m' = visible (JobService job) m \/ full (seen (JobService job) g m') \/ seen (JobService job) g m' = ∅)
  /\ forall s', s' <> JobService job -> visible s' m' = visible s' m.
Proof.
  intros Ha Hst Hu Hread He full. set (s := JobService job) in *.
  pose proof (run_spec MaxGranulesPerJob BatchSize MaxRetries config raster glob check newID text m s (JobID job) (JobWorkspace job) now job
                eq_refl eq_refl eq_refl Hst) as Hr.
  assert (Ho : outcome m s (JobID job) full m') by (unfold mwp in Hr; rewrite He in Hr; by destruct r as [[]|]). clear Hr He.
  assert (Hold : forall b R, building m s (JobID job) b R m' ->
     (visible s m' = visible s m /\ unsucceeded (JobID job) m') /\ (forall s', s' <> s -> visible s' m' = visible s' m) /\
     seen s (active m s) m' = visible s m).
  { intros b R [A B C D E F]. split_and!; [|by apply D|intros s' Hne|]; unfold visible, seen; rewrite ?A; destruct (_ =? 0); try done;
      apply B; intros [=]; (congruence || lia). }
  assert (Hin : forall gens, readersIn m s gens m' -> forall g, (s, g) ∈ readers m' -> g ∈ gens).
  { intros gens HF g Hg. destruct (HF g Hg) as [Hx|]; [by apply Hread in Hx|done]. }
  assert (Hnext : forall R, rowsOf m' s (active m s + 1) = R -> seen s (active m s + 1) m' = R).
  { intros R HR. unfold seen. by replace (active m s + 1 =? 0) with false by lia. }
  destruct Ho as [[R Hb]|(R & HR & [(R' & Hb & Hor)|[A A' B C D F]])].
  - destruct (Hold false R Hb) as (H1 & H2 & H3). split_and!; [by left| |done].
    intros g Hg%(Hin _ (bu_readers _ _ _ _ _ _ Hb)). apply list_elem_of_singleton in Hg as ->. by left.
  - destruct (Hold true R' Hb) as (H1 & H2 & H3). split_and!; [by left| |done].
    intros g [->|Hg]%(Hin _ (bu_readers _ _ _ _ _ _ Hb))%elem_of_cons; [by left|]. apply list_elem_of_singleton in Hg as ->.
    rewrite (Hnext R' (bu_next _ _ _ _ _ _ Hb)). destruct Hor as [->| ->]; auto.
  - split_and!.
    + right. unfold visible. rewrite A. replace (active m s + 1 =? 0) with false by lia. by rewrite C.
    + intros g [->|Hg]%(Hin _ F)%elem_of_cons.
      * unfold seen, visible. destruct (_ =? 0); [by left|]. destruct D as [->| ->]; auto.
      * apply list_elem_of_singleton in Hg as ->. rewrite (Hnext R C). auto.
    + intros s' Hne. unfold visible. rewrite A' by done. destruct (_ =? 0); [done|by apply B].
Qed.

(** ** Cancellation and activation *)

(** Cancellation and activation exclude each other. After the activation of a job's
    generation has committed a request to cancel the job is refused and changes nothing; after
    an accepted request the generation is never activated. *)
Theorem cancel_or_activate now ws s g id m :
  (forall previous m' j, activateJobGeneration ws s g (Some id) m = (inr previous, m') -> mosaic_harvest_jobs m !! id = Some j ->
     JobService j = s -> Generation j = g -> 0 < g -> requestCancel now id m' = (Some ActivationCommitted, m')) /\
  (forall m', requestCancel now id m = (None, m') -> activateJobGeneration ws s g (Some id) m' = (inl ErrHarvestCancelled, m')).
Proof.
  split.
  - intros previous m' j Ha Hj Hs Hg Hpos. unfold activateJobGeneration in Ha. rewrite Hj in Ha.
    destruct (CancelRequested j); [done|]. destruct (bool_decide (Status j = JobRunning)) eqn:Hst; [|done]. apply bool_decide_eq_true in Hst.
    cbn [orb negb] in Ha. destruct (mosaic_services m !! s) as [row|]; [|done]. destruct (negb _); [done|]. destruct (Nat.eqb _ 0); [done|].
    injection Ha as _ <-. unfold requestCancel. cbn [mosaic_harvest_jobs set_mosaic_services]. rewrite Hj, Hst, Hs, Hg.
    unfold active. cbn. rewrite lookup_insert_eq. cbn. by rewrite Z.eqb_refl, (proj2 (Z.ltb_lt 0 g) Hpos).
  - intros m'. unfold requestCancel. destruct (mosaic_harvest_jobs m !! id) as [j|] eqn:Hj; [|done]. destruct (_ && _ && _); [done|].
    intros [= <-]. unfold activateJobGeneration. cbn [mosaic_harvest_jobs set_mosaic_jobs]. rewrite lookup_insert_eq.
    assert (CancelRequested (cancelRow now j) || negb (bool_decide (Status (cancelRow now j) = JobRunning)) = true) as ->; [|done].
    unfold cancelRow. destruct (Status j) eqn:E; cbn; rewrite ?E; by rewrite ?orb_true_r.
Qed.

(** ** One job per service *)

Definition busy (st : JobStatus) : bool := match st with JobRunning | JobCancelling => true | _ => false end.

Definition exclusive (jobs : gmap string Job) : Prop :=
  forall a b x y, jobs !! a = Some x -> jobs !! b = Some y -> busy (Status x) = true -> busy (Status y) = true ->
  JobService x = JobService y -> a = b.

(** The tables of jobs of any number of workers and requests. *)
Inductive jobStep (m : mosaics) : mosaics -> Prop :=
| step_create now id ws s by_ request : mosaic_harvest_jobs m !! id = None -> jobStep m (createJob now id ws s by_ request m)
| step_claim now : jobStep m (claimNext now m).2
| step_cancel now id : jobStep m (requestCancel now id m).2
| step_update now job : (forall row, mosaic_harvest_jobs m !! JobID job = Some row -> Status row <> JobQueued) -> jobStep m (updateJob now job m)
| step_restart now : jobStep m (resetInterrupted now m)
| step_delete now qf uf ends ws ids : jobStep m (QuiesceAndDeleteLifecycle now qf uf ends ws ids m).2.

(** A row changes into one that is busy only if it was. *)
Lemma exclusive_change jobs id f : exclusive jobs -> (forall j, jobs !! id = Some j -> busy (Status (f j)) = true -> busy (Status j) = true) ->
  (forall j, JobService (f j) = JobService j) -> exclusive (alter f id jobs).
Proof.
  intros He Hb Hs a b x y Ha Hb' Hx Hy Hsvc.
  assert (Hget : forall k z, alter f id jobs !! k = Some z -> busy (Status z) = true ->
            exists z', jobs !! k = Some z' /\ busy (Status z') = true /\ JobService z' = JobService z).
  { intros k z. destruct (decide (id = k)) as [<-|Hne]; [rewrite lookup_alter_eq|rewrite lookup_alter_ne by done; by eauto].
    destruct (jobs !! id) as [j|] eqn:Hj; [|done]. intros [= <-] Hz. exists j. split; [done|]. split; [by apply Hb|by rewrite Hs]. }
  destruct (Hget a x Ha Hx) as (x' & Hx1 & Hx2 & Hx3), (Hget b y Hb' Hy) as (y' & Hy1 & Hy2 & Hy3). by eapply He; [exact Hx1|exact Hy1|..|congruence].
Qed.

Lemma exclusive_fmap jobs f : exclusive jobs -> (forall j, busy (Status (f j)) = true -> busy (Status j) = true) ->
  (forall j, JobService (f j) = JobService j) -> exclusive (f <$> jobs).
Proof.
  intros He Hb Hs a b x y. rewrite !lookup_fmap. intros Hx Hy. destruct (jobs !! a) as [x'|] eqn:Ha; [|done]. destruct (jobs !! b) as [y'|] eqn:Hb'; [|done].
  injection Hx as <-. injection Hy as <-. rewrite !Hs. intros H1%Hb H2%Hb. by eapply He.
Qed.

Lemma exclusive_subset jobs jobs' : jobs' ⊆ jobs -> exclusive jobs -> exclusive jobs'.
Proof. intros Hs He a b x y Ha Hb. eapply He; by eapply lookup_weaken. Qed.

Lemma exclusive_cancel now id m : exclusive (mosaic_harvest_jobs m) -> exclusive (mosaic_harvest_jobs (requestCancel now id m).2).
Proof.
  intros He. unfold requestCancel. destruct (mosaic_harvest_jobs m !! id) as [j|] eqn:Hj; [|done]. destruct (_ && _ && _); [done|].
  cbn. replace (<[id := cancelRow now j]> (mosaic_harvest_jobs m)) with (alter (cancelRow now) id (mosaic_harvest_jobs m)).
  - apply exclusive_change; [done|..]; [intros x _|intros x]; unfold cancelRow; by destruct (Status x) eqn:E; cbn; rewrite ?E.
  - apply map_eq. intros k. destruct (decide (id = k)) as [<-|Hne]; [by rewrite lookup_alter_eq, lookup_insert_eq, Hj|].
    by rewrite lookup_alter_ne, lookup_insert_ne.
Qed.

Lemma oldestJob_in l j : oldestJob l = Some j -> j ∈ l.
Proof.
  revert j. induction l as [|x l IH]; intros j; [done|].
  change (oldestJob (x :: l)) with (match oldestJob l with Some b => if CreatedAt b <? CreatedAt x then Some b else Some x | None => Some x end).
  destruct (oldestJob l) as [b|]; [destruct (_ <? _)|]; intros Hj; injection Hj as <-; [right; by apply IH|by left|by left].
Qed.

Lemma exclusive_claim now m : exclusive (mosaic_harvest_jobs m) -> (forall k x, mosaic_harvest_jobs m !! k = Some x -> JobID x = k) ->
  exclusive (mosaic_harvest_jobs (claimNext now m).2).
Proof.
  intros He Hid. unfold claimNext. destruct (oldestJob _) as [j|] eqn:Ho; [|done]. apply oldestJob_in, list_elem_of_In, filter_In in Ho as [Hin Hc].
  destruct (lifecycleBlocked _ _ _); [by apply exclusive_cancel|]. unfold markRunning.
  destruct (mosaic_harvest_jobs m !! JobID j) as [row|] eqn:Hr; [|done]. destruct (_ && _); [|done]. cbn.
  apply list_elem_of_In, list_elem_of_fmap in Hin as ([k x] & -> & Hk%elem_of_map_to_list). cbn [snd] in *. rewrite (Hid k x Hk) in *. rewrite Hk in Hr. injection Hr as <-.
  unfold claimable in Hc. rewrite !andb_true_iff, !negb_true_iff in Hc. destruct Hc as [_ Hnone].
  assert (Hfree : forall b y, mosaic_harvest_jobs m !! b = Some y -> busy (Status y) = true -> JobService y <> JobService x).
  { intros b y Hy Hb Hs. apply not_true_iff_false in Hnone. apply Hnone, existsb_exists. exists y. split.
    - apply list_elem_of_In, list_elem_of_fmap. exists (b, y). split; [done|by apply elem_of_map_to_list].
    - by rewrite Hs, String.eqb_refl. }
  intros a b y z. destruct (decide (k = a)) as [<-|Ha], (decide (k = b)) as [<-|Hb]; rewrite ?lookup_insert_eq, ?lookup_insert_ne by done; try done.
  - intros [= <-] Hz _ Hbz Hs. by destruct (Hfree b z Hz Hbz).
  - intros Hy [= <-] Hby _ Hs. by destruct (Hfree a y Hy Hby).
  - apply He.
Qed.

(** Rows are stored under their identifiers. *)
Definition keyed (jobs : gmap string Job) : Prop := forall k x, jobs !! k = Some x -> JobID x = k.

Lemma deleteLifecycleRows_jobs n ends ws ids m : mosaic_harvest_jobs (deleteLifecycleRows n ends ws ids m).2 ⊆ mosaic_harvest_jobs m.
Proof.
  revert ends. induction n as [|n IH]; intros ends; cbn; [done|]. destruct ends as [|[] ends]; cbn; try done; apply map_filter_subseteq.
Qed.

Lemma quiesced_jobs now qf uf ends ws ids m :
  exists jobs, mosaic_harvest_jobs (QuiesceAndDeleteLifecycle now qf uf ends ws ids m).2 ⊆ jobs /\
    (jobs = mosaic_harvest_jobs m \/ jobs = cancelScope now ws ids <$> mosaic_harvest_jobs m).
Proof.
  unfold QuiesceAndDeleteLifecycle. assert (Hb : mosaic_harvest_jobs (block ws ids m) = mosaic_harvest_jobs m) by (unfold block; by destruct ids).
  destruct (match ids with [] => qf | _ => false end); [exists (mosaic_harvest_jobs m); cbn; rewrite Hb; auto|].
  destruct uf; [exists (mosaic_harvest_jobs m); cbn [snd]; rewrite Hb; auto|].
  eexists. split; [apply deleteLifecycleRows_jobs|]. cbn. rewrite Hb. auto.
Qed.

Lemma jobStep_keyed m m' : jobStep m m' -> keyed (mosaic_harvest_jobs m) -> keyed (mosaic_harvest_jobs m').
Proof.
  assert (Hcancel : forall now id m, keyed (mosaic_harvest_jobs m) -> keyed (mosaic_harvest_jobs (requestCancel now id m).2)).
  { clear. intros now id m Hk. unfold requestCancel. destruct (mosaic_harvest_jobs m !! id) as [j|] eqn:Hj; [|done]. destruct (_ && _ && _); [done|].
    intros k x. cbn. destruct (decide (id = k)) as [<-|Hne]; [rewrite lookup_insert_eq|rewrite lookup_insert_ne by done; apply Hk].
    intros [= <-]. rewrite <- (Hk id j Hj). unfold cancelRow. by destruct (Status j). }
  intros Hs Hk. destruct Hs as [now id ws s by_ request Hn|now|now id|now job Hq|now|now qf uf ends ws ids].
  - intros k x. cbn. destruct (decide (id = k)) as [<-|Hne]; [rewrite lookup_insert_eq; by intros [= <-]|rewrite lookup_insert_ne by done; apply Hk].
  - unfold claimNext. destruct (oldestJob _) as [j|]; [|done]. destruct (lifecycleBlocked _ _ _); [by apply Hcancel|]. unfold markRunning.
    destruct (mosaic_harvest_jobs m !! JobID j) as [row|] eqn:Hr; [|done]. destruct (_ && _); [|done]. intros k x. cbn.
    destruct (decide (JobID j = k)) as [<-|Hne]; [rewrite lookup_insert_eq; intros [= <-]; exact (Hk _ _ Hr)|rewrite lookup_insert_ne by done; apply Hk].
  - by apply Hcancel.
  - intros k x. cbn. destruct (decide (JobID job = k)) as [<-|Hne]; [|rewrite lookup_alter_ne by done; apply Hk].
    rewrite lookup_alter_eq. destruct (mosaic_harvest_jobs m !! JobID job) as [row|] eqn:Hr; [|done]. intros [= <-]. rewrite <- (Hk _ _ Hr).
    unfold updateRow. by destruct (pending _).
  - intros k x. cbn. rewrite lookup_fmap. destruct (mosaic_harvest_jobs m !! k) as [j|] eqn:Hj; [|done]. intros [= <-]. rewrite <- (Hk k j Hj).
    unfold resetRow. destruct (CancelRequested j), (Status j); done.
  - destruct (quiesced_jobs now qf uf ends ws ids m) as (jobs & Hsub & Hjobs). intros k x Hx. apply (lookup_weaken _ jobs) in Hx; [|done].
    destruct Hjobs as [->| ->]; [by apply Hk|]. rewrite lookup_fmap in Hx. destruct (mosaic_harvest_jobs m !! k) as [j|] eqn:Hj; [|done].
    injection Hx as <-. rewrite <- (Hk k j Hj). unfold cancelScope. by destruct (_ && _).
Qed.

Lemma jobStep_exclusive m m' : jobStep m m' -> keyed (mosaic_harvest_jobs m) -> exclusive (mosaic_harvest_jobs m) -> exclusive (mosaic_harvest_jobs m').
Proof.
  intros Hs Hk He. destruct Hs as [now id ws s by_ request Hn|now|now id|now job Hq|now|now qf uf ends ws ids].
  - intros a b x y. cbn. destruct (decide (id = a)) as [<-|Ha]; [rewrite lookup_insert_eq; by intros [= <-]|].
    destruct (decide (id = b)) as [<-|Hb]; [rewrite lookup_insert_eq; by intros _ [= <-]|]. rewrite !lookup_insert_ne by done. apply He.
  - by apply exclusive_claim.
  - by apply exclusive_cancel.
  - apply exclusive_change; [done| |intros j; unfold updateRow; by destruct (pending _)]. intros j Hj. unfold updateRow.
    specialize (Hq j Hj). by destruct (Status j) eqn:E; cbn; rewrite ?E.
  - apply exclusive_fmap; [done|..]; intros j; unfold resetRow; by destruct (CancelRequested j), (Status j) eqn:E; cbn; rewrite ?E.
  - destruct (quiesced_jobs now qf uf ends ws ids m) as (jobs & Hsub & Hjobs). eapply exclusive_subset; [exact Hsub|].
    destruct Hjobs as [->| ->]; [done|]. apply exclusive_fmap; [done|..]; intros j; unfold cancelScope; by destruct (_ && _).
Qed.

(** At most one harvest of a service is in progress. However jobs are created, claimed by any
    number of workers, cancelled, updated by their worker, removed with their service and put
    back after a restart, two jobs that are running or being cancelled have different services. *)
Theorem one_harvest_per_service m m' :
  keyed (mosaic_harvest_jobs m) -> exclusive (mosaic_harvest_jobs m) -> rtc jobStep m m' -> exclusive (mosaic_harvest_jobs m').
Proof.
  intros Hk He Hs. induction Hs as [|m1 m2 m3 Hs _ IH]; [done|]. apply IH; [by eapply jobStep_keyed|by eapply jobStep_exclusive].
Qed.

(** ** Deletion of a scope *)

(** A row of the scope. *)
Definition owned (ws : string) (ids : list string) (m : mosaics) : Prop :=
  (exists s r, mosaic_services m !! s = Some r /\ inLifecycle ws ids (rowWorkspace r) s = true) \/
  (exists s n rows u g, mosaic_granules m !! (s, n) = Some rows /\ rows !! u = Some g /\ inLifecycle ws ids (granuleWorkspace g) s = true) \/
  (exists k j, mosaic_harvest_jobs m !! k = Some j /\ inLifecycle ws ids (JobWorkspace j) (JobService j) = true).

Lemma deleteRows_none ws ids m : ~ owned ws ids (deleteRows ws ids m).
Proof.
  intros [(s & r & Hr & Hs)|[(s & n & rows & u & g & Hr & Hg & Hs)|(k & j & Hj & Hs)]].
  - cbn in Hr. apply map_lookup_filter_Some in Hr as [_ Hr]. cbn in Hr. congruence.
  - cbn in Hr. rewrite map_lookup_imap in Hr. destruct (mosaic_granules m !! (s, n)) as [old|]; [|done]. injection Hr as <-.
    apply map_lookup_filter_Some in Hg as [_ Hg]. cbn in Hg. congruence.
  - cbn in Hj. apply map_lookup_filter_Some in Hj as [_ Hj]. cbn in Hj. congruence.
Qed.

Lemma deleteLifecycleRows_spec n ends ws ids m m' : deleteLifecycleRows n ends ws ids m = (None, m') -> m' = deleteRows ws ids m.
Proof. revert ends. induction n as [|n IH]; intros ends; cbn; [done|]. destruct ends as [|[] ends]; try done; [by intros [= <-]..|apply IH]. Qed.

Lemma blocked_scope ws ids m s : ids = [] \/ s ∈ ids -> lifecycleBlocked (block ws ids m) ws s = true.
Proof.
  intros Hs. unfold lifecycleBlocked, block. destruct ids as [|i ids]; cbn.
  - apply orb_true_iff. left. apply bool_decide_eq_true. set_solver.
  - apply orb_true_iff. right. apply bool_decide_eq_true. destruct Hs as [|Hs]; [done|]. set_solver.
Qed.

Lemma rows_frame n ends ws ids m :
  blockedWorkspaces (deleteLifecycleRows n ends ws ids m).2 = blockedWorkspaces m
  /\ blockedServices (deleteLifecycleRows n ends ws ids m).2 = blockedServices m
  /\ forall k j, mosaic_harvest_jobs m !! k = Some j -> inLifecycle ws ids (JobWorkspace j) (JobService j) = false ->
       mosaic_harvest_jobs (deleteLifecycleRows n ends ws ids m).2 !! k = Some j.
Proof.
  revert ends. induction n as [|n IH]; intros ends; cbn; [done|]. destruct ends as [|[] ends]; cbn; try done;
    (split; [done|]); (split; [done|]); intros k j Hj Hs; by apply map_lookup_filter_Some.
Qed.

(** The scope is blocked, and other jobs stay. *)
Lemma quiesce_frame now qf uf ends ws ids m : let m' := (QuiesceAndDeleteLifecycle now qf uf ends ws ids m).2 in
  blockedWorkspaces m' = blockedWorkspaces (block ws ids m) /\ blockedServices m' = blockedServices (block ws ids m)
  /\ forall k j, mosaic_harvest_jobs m !! k = Some j -> inLifecycle ws ids (JobWorkspace j) (JobService j) = false ->
       mosaic_harvest_jobs m' !! k = Some j.
Proof.
  assert (Hb : mosaic_harvest_jobs (block ws ids m) = mosaic_harvest_jobs m) by (unfold block; by destruct ids).
  unfold QuiesceAndDeleteLifecycle. destruct (match ids with [] => qf | _ => false end); [cbn; by rewrite Hb|]. destruct uf; [cbn [snd]; by rewrite Hb|].
  destruct (rows_frame 5 ends ws ids (set_mosaic_jobs (cancelScope now ws ids <$> mosaic_harvest_jobs (block ws ids m)) (block ws ids m)))
    as (Hw & Hs & Hj). split; [exact Hw|]. split; [exact Hs|]. intros k j Hk Hn. apply Hj; [|done]. cbn. rewrite Hb, lookup_fmap, Hk. cbn.
  unfold cancelScope. by rewrite Hn.
Qed.

Lemma quiesce_clears now qf uf ends ws ids m m' : QuiesceAndDeleteLifecycle now qf uf ends ws ids m = (None, m') -> ~ owned ws ids m'.
Proof.
  unfold QuiesceAndDeleteLifecycle. destruct (match ids with [] => qf | _ => false end); [done|]. destruct uf; [done|].
  intros ->%deleteLifecycleRows_spec. apply deleteRows_none.
Qed.

(** Deleting the mosaics of a workspace or of services leaves nothing of them: when it
    succeeds, also after conflicts, no service, granule or job of the scope is left, the rows of
    other scopes stay; and whether it succeeds or not, no job can be created for it any more. *)
Theorem mosaic_scope_deleted now qf uf ends ws ids m e m' :
  QuiesceAndDeleteLifecycle now qf uf ends ws ids m = (e, m') ->
  (e = None -> ~ owned ws ids m') /\
  (forall k j, mosaic_harvest_jobs m !! k = Some j -> inLifecycle ws ids (JobWorkspace j) (JobService j) = false -> mosaic_harvest_jobs m' !! k = Some j) /\
  (forall s, ids = [] \/ s ∈ ids -> forall max v bad now' id by_ request,
     CreateJob max v bad now' id ws s by_ request m' = (Some LifecycleQuiesced, m')).
Proof.
  intros He. destruct (quiesce_frame now qf uf ends ws ids m) as (Hw & Hsv & Hjobs). rewrite He in Hw, Hsv, Hjobs. cbn [snd] in *.
  split; [|split].
  - intros ->. by eapply quiesce_clears.
  - done.
  - intros s Hs max v bad now' id by_ request. unfold CreateJob.
    assert (lifecycleBlocked m' ws s = true) as ->; [|done]. rewrite <- (blocked_scope ws ids m s Hs). unfold lifecycleBlocked. by rewrite Hw, Hsv.
Qed.

(** ** Examples *)

Definition demoGranule (id uri : string) (srid : Z) : Granule :=
  mkGranule id "w" uri srid 3 "Byte" PrimFloat.zero PrimFloat.zero PrimFloat.one PrimFloat.one "" None 0.

Definition demoJob (id : string) (mode : string) (paths : list string) (st : JobStatus) : Job :=
  mkJob id "w" "m" (mkHarvestRequest mode "" "" ((fun p => mkHarvestGranule p "" None 0) <$> paths)) st 0 0 0 0 0 false "" "" 0 None None 0.

(** Rasters in two reference systems, by their names. *)
Definition demoRaster (attempt : nat) (c : HarvestGranule) : mosaicError + Granule :=
  if HasPrefix (harvestPath c) "utm" then inr (demoGranule "" "" 32632)
  else if HasPrefix (harvestPath c) "bad" then inl (HarvestError "unreadable") else inr (demoGranule "" "" 4326).

Definition demoRun (job : Job) : mos unit :=
  run 100 10 2 (fun _ _ => inr (mkMosaicInfo "" "" [])) demoRaster (fun _ => inr []) (fun _ => None) (fun uri => uri) (fun _ => "error") 7 job.

Definition demoMosaics (jobs : list Job) (f : list fate) : mosaics :=
  mkMosaics {["m" := mkServiceRow "w" 4]} {[("m", 4) := {["a.tif" := demoGranule "1" "a.tif" 4326]}]}
    (list_to_map ((fun j => (JobID j, j)) <$> jobs)) ∅ ∅ f [].

Definition appendJob : Job := demoJob "j" HarvestAppend ["b.tif"] JobRunning.
(** A request reads the active generation while the harvest begins. *)
Definition beforeAppend : mosaics := demoMosaics [appendJob] [Meanwhile (ReadGeneration "m")].
Definition appended : mosaics := (demoRun appendJob beforeAppend).2.

Lemma harvest_all_or_nothing_witness :
  (map_to_list (visible "m" appended)).*1 = ["a.tif"; "b.tif"] /\ Status <$> mosaic_harvest_jobs appended !! "j" = Some JobSucceeded /\
  readers appended = [("m", 4)] /\
  let full := complete 2 (fun _ _ => inr (mkMosaicInfo "" "" [])) demoRaster (fun _ => inr []) (fun _ => None) (fun uri => uri)
                beforeAppend "m" "w" (Request appendJob) in
  (visible "m" appended = visible "m" beforeAppend /\ unsucceeded "j" appended \/ full (visible "m" appended))
  /\ (forall g, ("m", g) ∈ readers appended ->
        seen "m" g appended = visible "m" beforeAppend \/ full (seen "m" g appended) \/ seen "m" g appended = ∅)
  /\ forall s', s' <> "m" -> visible s' appended = visible s' beforeAppend.
Proof.
  split; [vm_compute; reflexivity|]. split; [vm_compute; reflexivity|]. split; [vm_compute; reflexivity|].
  apply (harvest_all_or_nothing 100 10 2 (fun _ _ => inr (mkMosaicInfo "" "" [])) demoRaster (fun _ => inr []) (fun _ => None) (fun uri => uri)
           (fun _ => "error") 7 appendJob beforeAppend (Done tt) appended).
  - vm_compute. discriminate.
  - discriminate.
  - intros j Hj. vm_compute in Hj. injection Hj as <-. discriminate.
  - intros g Hg. by apply not_elem_of_nil in Hg.
  - vm_compute. reflexivity.
Defined.

Lemma one_harvest_per_service_witness :
  let m := demoMosaics [demoJob "j" HarvestAppend [] JobQueued; demoJob "k" HarvestAppend [] JobQueued] [] in
  (claimNext 8 (claimNext 7 m).2).1 = None /\ exclusive (mosaic_harvest_jobs (claimNext 8 (claimNext 7 m).2).2).
Proof.
  split; [vm_compute; reflexivity|].
  set (jobs := [demoJob "j" HarvestAppend [] JobQueued; demoJob "k" HarvestAppend [] JobQueued]).
  assert (Hk : forall k x, mosaic_harvest_jobs (demoMosaics jobs []) !! k = Some x -> x = demoJob k HarvestAppend [] JobQueued).
  { intros k x Hx. apply elem_of_list_to_map_2, list_elem_of_fmap in Hx as (j & [= -> ->] & Hj).
    apply elem_of_cons in Hj as [->|Hj]; [done|]. by apply list_elem_of_singleton in Hj as ->. }
  apply (one_harvest_per_service (demoMosaics jobs [])).
  - intros k x ->%Hk. done.
  - intros a b x y ->%Hk. done.
  - eapply rtc_l; [apply (step_claim _ 7)|]. apply rtc_once, (step_claim _ 8).
Defined.

Lemma mosaic_scope_deleted_witness :
  let m := demoMosaics [appendJob] [] in
  let r := QuiesceAndDeleteLifecycle 9 false false [Conflicted; Conflicted; Committed] "w" ["m"] m in
  r.1 = None /\ ~ owned "w" ["m"] r.2.
Proof.
  cbn zeta. split; [vm_compute; reflexivity|].
  destruct (mosaic_scope_deleted 9 false false [Conflicted; Conflicted; Committed] "w" ["m"] (demoMosaics [appendJob] []) None
    (QuiesceAndDeleteLifecycle 9 false false [Conflicted; Conflicted; Committed] "w" ["m"] (demoMosaics [appendJob] [])).2) as [H _];
    [vm_compute; reflexivity|by apply H].
Defined.

(** The query for the reference of an append fails, its error is dropped, and granules of another reference
    system are published with the old ones. *)
Definition mixedJob : Job := demoJob "j" HarvestAppend ["utm.tif"] JobRunning.
Definition mixed : mosaics := (demoRun mixedJob (demoMosaics [mixedJob] [Works; Works; Fails])).2.

Example append_without_reference_mixes :
  SRID <$> visible "m" mixed = {["a.tif" := 4326; "utm.tif" := 32632]} /\ ~ uniform (visible "m" mixed)
  /\ Status <$> mosaic_harvest_jobs mixed !! "j" = Some JobSucceeded
  /\ Status <$> mosaic_harvest_jobs (demoRun mixedJob (demoMosaics [mixedJob] [])).2 !! "j" = Some JobFailed.
Proof.
  split; [vm_compute; reflexivity|]. split; [|split; vm_compute; reflexivity]. intros Hu.
  assert (H1 : SRID <$> visible "m" mixed !! "a.tif" = Some 4326) by (vm_compute; reflexivity).
  assert (H2 : SRID <$> visible "m" mixed !! "utm.tif" = Some 32632) by (vm_compute; reflexivity).
  revert Hu H1 H2. generalize (visible "m" mixed). intros rows Hu H1 H2.
  destruct (rows !! "a.tif") as [g|] eqn:Hg; [|done]. destruct (rows !! "utm.tif") as [h|] eqn:Hh; [|done].
  pose proof (Hu _ _ g h Hg Hh) as [= Hs _ _]. injection H1 as H1. injection H2 as H2. rewrite H1, H2 in Hs. discriminate Hs.
Qed.

(** A request to cancel that arrives between the two statements of [failJob] leaves the job being cancelled, with no
    worker, and no other job of the service is claimed until the process restarts. *)
Definition unreadable : Job := demoJob "j" HarvestSynchronize ["bad.tif"] JobRunning.
Definition waiting : Job := demoJob "k" HarvestSynchronize ["b.tif"] JobQueued.
Definition stuck : mosaics :=
  (demoRun unreadable (demoMosaics [unreadable; waiting] [Works; Works; Works; Works; Works; Works; Meanwhile (CancelRequest "j"); Works])).2.

Example cancel_while_failing_blocks_service :
  Status <$> mosaic_harvest_jobs stuck !! "j" = Some JobCancelling /\ (claimNext 8 stuck).1 = None
  /\ JobID <$> (claimNext 9 (resetInterrupted 8 stuck)).1 = Some "k".
Proof. repeat split; vm_compute; reflexivity. Qed.

(** A reader asks for the active generation and then for its rows; a harvest that publishes in between removes them. *)
Example reader_between_generations :
  let m := beforeAppend in
  active m "m" = 4 /\ selectGranules appended "w" "m" 4 (mkGranuleFilter None "" None 10 0) = []
  /\ length (listGranules m "w" "m" (mkGranuleFilter None "" None 10 0)) = 1%nat
  /\ length (listGranules appended "w" "m" (mkGranuleFilter None "" None 10 0)) = 2%nat.
Proof. repeat split; vm_compute; reflexivity. Qed.

(** ** The coordinator's contract

    [MosaicLifecycle] of [cataloglifecycle/coordinator.go]: the state is the mosaic tables
    with the fates of the calls to come. *)

From S2P Require Import DeletionCoordinator.

(** What happens to one call: its clock, the two statements, the ends of the transactions. *)
Record call : Type := mkCall { callNow : Z; queryFails : bool; updateFails : bool; transactions : list txEnd }.

Definition mosaicText (e : mosaicError) : string := match e with HarvestError text => text | _ => "mosaic catalog failure" end.

#[export] Instance mosaicLifecycle : Lifecycle (list call * mosaics) := {|
  lcRemove workspaceID ids s :=
    let '(c, rest) := match s.1 with c :: rest => (c, rest) | [] => (mkCall 0 false false [], []) end in
    let '(e, m) := QuiesceAndDeleteLifecycle (callNow c) (queryFails c) (updateFails c) (transactions c) workspaceID ids s.2 in
    (mosaicText <$> e, (rest, m));
  lcOwned workspaceID ids s := owned workspaceID ids s.2;
  lcInv _ := True;
  lcScope _ := True |}.

#[export] Instance mosaicLifecycle_laws : LifecycleLaws (list call * mosaics).
Proof.
  split; [done|]. intros ws ids [calls m] [rest m'] _ _. cbn [lcRemove lcOwned mosaicLifecycle fst snd].
  destruct (match calls with [] => _ | _ => _ end) as [c rest']. destruct (QuiesceAndDeleteLifecycle _ _ _ _ _ _ _) as [e m1] eqn:He.
  intros Heq. injection Heq as Hn _ <-. destruct e as [e|]; [done|]. by apply (quiesce_clears _ _ _ _ _ _ _ _ He).
Qed.
