(* ===== verification/Base64.v ===== *)
(** * URL-safe base64 without padding ([encoding/base64], [RawURLEncoding])

    The part of the standard library that cache keys use: [EncodeToString], and
    [DecodeString], which ignores line breaks and the unused bits of the last
    character. *)

From S2P Require Import Prelude.

Local Open Scope N_scope.

Definition enc6 (n : N) : ascii :=
  ascii_of_N (if n <? 26 then n + 65
              else if n <? 52 then n - 26 + 97
              else if n <? 62 then n - 52 + 48
              else if n =? 62 then 45 else 95).

Definition dec6 (c : ascii) : option N :=
  let k := code c in
  if (65 <=? k) && (k <=? 90) then Some (k - 65)
  else if (97 <=? k) && (k <=? 122) then Some (k - 97 + 26)
  else if (48 <=? k) && (k <=? 57) then Some (k - 48 + 52)
  else if k =? 45 then Some 62
  else if k =? 95 then Some 63
  else None.

Fixpoint EncodeToString (s : string) : string :=
  match s with
  | EmptyString => EmptyString
  | String a EmptyString =>
      String (enc6 (code a / 4)) (String (enc6 (code a mod 4 * 16)) EmptyString)
  | String a (String b EmptyString) =>
      String (enc6 (code a / 4)) (String (enc6 (code a mod 4 * 16 + code b / 16))
        (String (enc6 (code b mod 16 * 4)) EmptyString))
  | String a (String b (String c r)) =>
      String (enc6 (code a / 4)) (String (enc6 (code a mod 4 * 16 + code b / 16))
        (String (enc6 (code b mod 16 * 4 + code c / 64)) (String (enc6 (code c mod 64)) (EncodeToString r))))
  end.

Fixpoint decodeQuads (s : string) : option string :=
  match s with
  | EmptyString => Some EmptyString
  | String _ EmptyString => None
  | String x (String y EmptyString) =>
      a ← dec6 x; b ← dec6 y;
      Some (String (ascii_of_N (a * 4 + b / 16)) EmptyString)
  | String x (String y (String z EmptyString)) =>
      a ← dec6 x; b ← dec6 y; c ← dec6 z;
      Some (String (ascii_of_N (a * 4 + b / 16)) (String (ascii_of_N (b mod 16 * 16 + c / 4)) EmptyString))
  | String x (String y (String z (String w r))) =>
      a ← dec6 x; b ← dec6 y; c ← dec6 z; d ← dec6 w; rest ← decodeQuads r;
      Some (String (ascii_of_N (a * 4 + b / 16)) (String (ascii_of_N (b mod 16 * 16 + c / 4))
        (String (ascii_of_N (c mod 4 * 64 + d)) rest)))
  end.

(** Line breaks are skipped. *)
Fixpoint dropBreaks (s : string) : string :=
  match s with
  | EmptyString => EmptyString
  | String c s' => if (code c =? 10) || (code c =? 13) then dropBreaks s' else String c (dropBreaks s')
  end.

Definition DecodeString (s : string) : option string := decodeQuads (dropBreaks s).

(** ** Round trip *)

Lemma code_bound c : code c < 256.
Proof. apply N_ascii_bounded. Qed.

Lemma code_ascii c : ascii_of_N (code c) = c.
Proof. apply ascii_N_embedding. Qed.

Lemma enc6_check :
  forallb (fun k => match dec6 (enc6 (N.of_nat k)) with Some m => m =? N.of_nat k | None => false end
                    && negb (code (enc6 (N.of_nat k)) =? 58) && negb (code (enc6 (N.of_nat k)) =? 10)
                    && negb (code (enc6 (N.of_nat k)) =? 13)) (seq 0 64) = true.
Proof. vm_compute. reflexivity. Qed.

Lemma enc6_spec n : n < 64 ->
  dec6 (enc6 n) = Some n /\ code (enc6 n) <> 58 /\ code (enc6 n) <> 10 /\ code (enc6 n) <> 13.
Proof.
  intros Hn. pose proof (proj1 (forallb_forall _ _) enc6_check (N.to_nat n)
    ltac:(apply in_seq; lia)) as H.
  cbv beta in H. rewrite !N2Nat.id in H. rewrite !andb_true_iff, !negb_true_iff, !N.eqb_neq in H.
  destruct H as [[[H A] B] C].
  split_and!; try done. destruct (dec6 (enc6 n)) as [m|]; [|done]. by apply N.eqb_eq in H as ->.
Qed.

(** Three at a time. *)
Lemma string_ind3 (P : string -> Prop) :
  P "" -> (forall a, P (String a "")) -> (forall a b, P (String a (String b ""))) ->
  (forall a b c r, P r -> P (String a (String b (String c r)))) -> forall s, P s.
Proof.
  intros H0 H1 H2 H3. assert (H : forall n s, (String.length s <= n)%nat -> P s); [|eauto].
  induction n as [|n IH]; intros [|a [|b [|c r]]]; simpl; intros Hl; auto; try lia.
  apply H3, IH. lia.
Qed.

Lemma divmod_pair x y k : y < k -> (x * k + y) / k = x /\ (x * k + y) mod k = y.
Proof.
  intros H. rewrite N.div_add_l, N.div_small, N.add_0_r by lia. split; [done|].
  rewrite N.add_comm, N.Div0.mod_add. by apply N.mod_small.
Qed.

(** The four digits of three bytes, and back. *)
Lemma digits_bound a b c : a < 256 -> b < 256 -> c < 256 ->
  a / 4 < 64 /\ a mod 4 * 16 + b / 16 < 64 /\ b mod 16 * 4 + c / 64 < 64 /\ c mod 64 < 64.
Proof.
  intros. pose proof (N.Div0.div_lt_upper_bound a 4 64). pose proof (N.Div0.div_lt_upper_bound b 16 16).
  pose proof (N.Div0.div_lt_upper_bound c 64 4). pose proof (N.mod_lt a 4). pose proof (N.mod_lt b 16).
  pose proof (N.mod_lt c 64). lia.
Qed.

Lemma digits_back a b c : a < 256 -> b < 256 -> c < 256 ->
  a / 4 * 4 + (a mod 4 * 16 + b / 16) / 16 = a
  /\ (a mod 4 * 16 + b / 16) mod 16 * 16 + (b mod 16 * 4 + c / 64) / 4 = b
  /\ (b mod 16 * 4 + c / 64) mod 4 * 64 + c mod 64 = c.
Proof.
  intros. pose proof (N.Div0.div_lt_upper_bound b 16 16). pose proof (N.Div0.div_lt_upper_bound c 64 4).
  destruct (divmod_pair (a mod 4) (b / 16) 16) as [-> ->]; [lia|].
  destruct (divmod_pair (b mod 16) (c / 64) 4) as [-> ->]; [lia|].
  pose proof (N.div_mod' a 4). pose proof (N.div_mod' b 16). pose proof (N.div_mod' c 64). lia.
Qed.

Lemma EncodeToString_alphabet s :
  all_bytes (fun c => negb (code c =? 58) && negb (code c =? 10) && negb (code c =? 13)) (EncodeToString s) = true.
Proof.
  assert (H : forall n, n < 64 ->
    negb (code (enc6 n) =? 58) && negb (code (enc6 n) =? 10) && negb (code (enc6 n) =? 13) = true).
  { intros n Hn. destruct (enc6_spec n Hn) as (_ & A & B & C).
    by rewrite (proj2 (N.eqb_neq _ _) A), (proj2 (N.eqb_neq _ _) B), (proj2 (N.eqb_neq _ _) C). }
  induction s as [|a|a b|a b c r IH] using string_ind3; cbn [EncodeToString all_bytes]; [done|..].
  - destruct (digits_bound (code a) 0 0 (code_bound a)) as (B1 & B2 & _); [lia..|].
    rewrite N.Div0.div_0_l, N.add_0_r in B2 by done. by rewrite !H.
  - destruct (digits_bound (code a) (code b) 0 (code_bound a) (code_bound b)) as (B1 & B2 & B3 & _); [lia..|].
    rewrite N.Div0.div_0_l, N.add_0_r in B3 by done. by rewrite !H.
  - destruct (digits_bound (code a) (code b) (code c) (code_bound a) (code_bound b) (code_bound c))
      as (B1 & B2 & B3 & B4). rewrite !H by done. by rewrite IH.
Qed.

Lemma dropBreaks_id s :
  all_bytes (fun c => negb (code c =? 58) && negb (code c =? 10) && negb (code c =? 13)) s = true ->
  dropBreaks s = s.
Proof.
  induction s as [|c s IH]; simpl; [done|]. intros [[[_ A]%andb_true_iff B]%andb_true_iff Hs]%andb_true_iff.
  apply negb_true_iff in A, B. by rewrite A, B, IH.
Qed.

Lemma decodeQuads_Encode s : decodeQuads (EncodeToString s) = Some s.
Proof.
  induction s as [|a|a b|a b c r IH] using string_ind3; cbn [EncodeToString decodeQuads]; [done|..].
  - pose proof (code_bound a) as Ha. destruct (digits_bound (code a) 0 0) as (B1 & B2 & _); [lia..|].
    destruct (digits_back (code a) 0 0) as (E1 & _); [lia..|].
    rewrite N.Div0.div_0_l, N.add_0_r in * by done.
    rewrite (proj1 (enc6_spec _ B1)), (proj1 (enc6_spec _ B2)). simpl. by rewrite E1, code_ascii.
  - pose proof (code_bound a) as Ha. pose proof (code_bound b) as Hb.
    destruct (digits_bound (code a) (code b) 0) as (B1 & B2 & B3 & _); [lia..|].
    destruct (digits_back (code a) (code b) 0) as (E1 & E2 & _); [lia..|].
    rewrite (N.Div0.div_0_l 64), N.add_0_r in * by done.
    rewrite (proj1 (enc6_spec _ B1)), (proj1 (enc6_spec _ B2)), (proj1 (enc6_spec _ B3)). simpl.
    by rewrite E1, E2, !code_ascii.
  - pose proof (code_bound a) as Ha. pose proof (code_bound b) as Hb. pose proof (code_bound c) as Hc.
    destruct (digits_bound (code a) (code b) (code c)) as (B1 & B2 & B3 & B4); [lia..|].
    destruct (digits_back (code a) (code b) (code c)) as (E1 & E2 & E3); [lia..|].
    rewrite (proj1 (enc6_spec _ B1)), (proj1 (enc6_spec _ B2)), (proj1 (enc6_spec _ B3)),
      (proj1 (enc6_spec _ B4)), IH. simpl. by rewrite E1, E2, E3, !code_ascii.
Qed.

Lemma DecodeString_Encode s : DecodeString (EncodeToString s) = Some s.
Proof. unfold DecodeString. by rewrite (dropBreaks_id _ (EncodeToString_alphabet s)), decodeQuads_Encode. Qed.

Lemma EncodeToString_no_colon s : has_byte ":" (EncodeToString s) = false.
Proof. by apply (all_bytes_has _ _ _ (EncodeToString_alphabet s)). Qed.
