(* ===== verification/Cache.v ===== *)
(** * The response cache: keys, fill epochs and invalidation ([internal/cache])

    A fill captures the epoch of its scope before it reads the source; an
    invalidation kills the epoch, so a value read before the invalidation can be
    neither stored nor served after it.

    The store itself (Ristretto) is third-party: the model keeps the entries ever
    handed to it ([written]), whether it accepts a write is an argument, and a
    lookup may return any entry that was written under the key, or none. The
    digest of a key (SHA-256 in hexadecimal) is a variable. *)

From S2P Require Import Prelude Base64.

(** ** Keys ([keys.go]) *)

(** [binary.BigEndian.PutUint64]. *)
Definition bigEndian64 (n : Z) : string :=
  foldr (fun i s => String (ascii_of_N (Z.to_N (Z.land (Z.shiftr n (8 * i)) 255))) s) ""
    [7; 6; 5; 4; 3; 2; 1; 0].

(** What [scopedKey] writes to the hash: every field after its length. *)
Definition fieldsPreimage (fields : list string) : string :=
  foldr (fun field s => bigEndian64 (Z.of_nat (String.length field)) +:+ field +:+ s) "" fields.

Record FeaturesParams : Type := mkFeaturesParams {
  fpWorkspace : string; fpCollection : string; fpLimit : Z; fpOffset : Z; fpBBox : string; fpBBoxCRS : string;
  fpFilter : string; fpFilterLang : string; fpFilterCRS : string; fpDateTime : string; fpCRS : string;
  fpSortBy : string; fpProperties : string }.

Record TileParams : Type := mkTileParams {
  tpWorkspace : string; tpLayers : string; tpCRS : string; tpBBox : string; tpWidth : Z; tpHeight : Z;
  tpFormat : string; tpStyles : string; tpTransparent : string; tpBgColor : string; tpTime : string;
  tpElevation : string }.

Record WFSGetFeatureParams : Type := mkWFSGetFeatureParams {
  gpWorkspace : string; gpTypeNames : string; gpCount : Z; gpStartIndex : Z; gpBBox : string; gpSRSName : string;
  gpFilter : string; gpSortBy : string; gpPropertyName : string; gpResourceID : string; gpOutputFormat : string;
  gpResultType : string }.

Section Keys.
Context (digest : string -> string).

Definition scopedKey (kind workspace : string) (fields : list string) : string :=
  "v2:" +:+ EncodeToString workspace +:+ ":" +:+ kind +:+ ":" +:+ digest (fieldsPreimage fields).

Definition CapabilitiesKey (workspace service : string) : string := scopedKey "capabilities" workspace [service].
Definition WMSCapabilitiesKey (workspace : string) : string := CapabilitiesKey workspace "wms".
Definition WFSCapabilitiesKey (workspace : string) : string := CapabilitiesKey workspace "wfs".
Definition WCSCapabilitiesKey (workspace : string) : string := CapabilitiesKey workspace "wcs".
Definition CollectionsKey (workspace : string) : string := scopedKey "collections" workspace [].
Definition ConformanceKey (workspace : string) : string := scopedKey "conformance" workspace [].
Definition CollectionKey (workspace collectionID : string) : string :=
  scopedKey "collection" workspace [collectionID].
Definition SingleFeatureKey (workspace collection featureID crs : string) : string :=
  scopedKey "feature" workspace [collection; featureID; crs].
Definition FeaturesKey (p : FeaturesParams) : string :=
  scopedKey "features" (fpWorkspace p) [fpCollection p; pretty (fpLimit p); pretty (fpOffset p); fpBBox p;
    fpBBoxCRS p; fpFilter p; fpFilterLang p; fpFilterCRS p; fpDateTime p; fpCRS p; fpSortBy p; fpProperties p].
Definition TileKey (p : TileParams) : string :=
  scopedKey "tiles" (tpWorkspace p) [tpLayers p; tpCRS p; tpBBox p; pretty (tpWidth p); pretty (tpHeight p);
    tpFormat p; tpStyles p; tpTransparent p; tpBgColor p; tpTime p; tpElevation p].
Definition WFSGetFeatureKey (p : WFSGetFeatureParams) : string :=
  scopedKey "wfs-features" (gpWorkspace p) [gpTypeNames p; pretty (gpCount p); pretty (gpStartIndex p); gpBBox p;
    gpSRSName p; gpFilter p; gpSortBy p; gpPropertyName p; gpResourceID p; gpOutputFormat p; gpResultType p].
Definition MVTTileKey (workspace collection tileMatrixSet : string) (z x y : Z) : string :=
  scopedKey "mvt" workspace [collection; tileMatrixSet; pretty z; pretty x; pretty y].
Definition MapTileKey (workspace collection tileMatrixSet : string) (z x y : Z) (style format : string) : string :=
  scopedKey "maptile" workspace [collection; tileMatrixSet; pretty z; pretty x; pretty y; style; format].
End Keys.

Definition legacyKinds : list string :=
  ["capabilities"; "collections"; "collection"; "features"; "feature"; "tiles"; "wfs-features"; "counts";
   "mvt"; "maptile"].

Definition cacheScope (key : string) : string :=
  let parts := Split ":" key in
  match parts with
  | "v2" :: scope :: _ :: _ :: _ => default "" (DecodeString scope)
  | first :: second :: _ => if existsb (String.eqb first) legacyKinds then second else first
  | [first] => first
  | [] => ""
  end.

(** ** The manager ([cache.go], [fill.go]) *)

Definition CacheTypeCapabilities : string := "capabilities".
Definition CacheTypeCollections : string := "collections".
Definition CacheTypeFeatures : string := "features".
Definition CacheTypeTiles : string := "tiles".
Definition CacheTypeCounts : string := "counts".

(** An epoch is identified by its number, taken from the generation counter. *)
Record CacheEntry : Type := mkEntry {
  eEpoch : N; eValue : string; eKind : string; eScope : string; eKey : string; eGeneration : N
}.

(** [tEpoch = None] is the zero token. *)
Record FillToken : Type := mkToken { tKind : string; tScope : string; tEpoch : option N }.

Record Manager : Type := mkManager {
  generation : N;
  epochs : gmap (string * string) N;
  invalidated : gset N;
  keys : gmap (string * string) (gmap string N);
  written : list CacheEntry
}.

Definition emptyManager : Manager := mkManager 0 ∅ ∅ ∅ [].

Definition BeginFill (m : Manager) (kind key : string) : FillToken * Manager :=
  let scope := cacheScope key in
  match epochs m !! (kind, scope) with
  | Some e => (mkToken kind scope (Some e), m)
  | None =>
      let e := N.succ (generation m) in
      (mkToken kind scope (Some e),
       mkManager e (<[(kind, scope) := e]> (epochs m)) (invalidated m) (keys m) (written m))
  end.

(** [fmt.Sprintf("%s:epoch=%d", key, t.epoch.id)]. *)
Definition CoalescingKey (t : FillToken) (key : string) : string :=
  match tEpoch t with
  | None => key
  | Some e => key +:+ ":epoch=" +:+ pretty e
  end.

Definition currentEntry (m : Manager) (e : CacheEntry) : bool := negb (bool_decide (eEpoch e ∈ invalidated m)).

Definition track (m : Manager) (e : CacheEntry) : Manager :=
  if String.eqb (eScope e) "" then m
  else mkManager (generation m) (epochs m) (invalidated m)
         (<[(eKind e, eScope e) := <[eKey e := eGeneration e]> (default ∅ (keys m !! (eKind e, eScope e)))]> (keys m))
         (written m).

Definition untrack (m : Manager) (e : CacheEntry) : Manager :=
  if String.eqb (eScope e) "" then m
  else
    let ks := default ∅ (keys m !! (eKind e, eScope e)) in
    if bool_decide (ks !! eKey e = Some (eGeneration e)) then
      let ks' := delete (eKey e) ks in
      mkManager (generation m) (epochs m) (invalidated m)
        (if bool_decide (ks' = ∅) then delete (eKind e, eScope e) (keys m)
         else <[(eKind e, eScope e) := ks']> (keys m)) (written m)
    else m.

(** [set] with a token; [accepted] is the answer of the store. *)
Definition set (m : Manager) (kind key value : string) (ttl maxEntrySize : Z) (token : FillToken) (accepted : bool)
    : bool * Manager :=
  if ttl <=? 0 then (false, m)
  else if (0 <? maxEntrySize) && (maxEntrySize <? Z.of_nat (String.length value)) then (false, m)
  else
    match tEpoch token with
    | None => (false, m)
    | Some e =>
        if negb (String.eqb (tKind token) kind) || negb (String.eqb (tScope token) (cacheScope key))
           || bool_decide (e ∈ invalidated m)
        then (false, m)
        else
          let g := N.succ (generation m) in
          let entry := mkEntry e value kind (cacheScope key) key g in
          let m' := track (mkManager g (epochs m) (invalidated m) (keys m) (written m)) entry in
          if accepted
          then (true, mkManager g (epochs m') (invalidated m') (keys m') (entry :: written m'))
          else (false, untrack m' entry)
    end.

(** [GetX]: [found] is what the store returns for the key. *)
Definition lookup_ (m : Manager) (found : option CacheEntry) : option string :=
  match found with
  | Some e => if currentEntry m e then Some (eValue e) else None
  | None => None
  end.

Definition invalidateEpoch (m : Manager) (kind scope : string) : Manager :=
  match epochs m !! (kind, scope) with
  | Some e => mkManager (generation m) (delete (kind, scope) (epochs m)) ({[e]} ∪ invalidated m) (keys m) (written m)
  | None => m
  end.

(** [invalidateScope]; the deletions in the store are best effort and not needed
    for what is served. *)
Definition invalidateScope (m : Manager) (kind scope : string) : Manager :=
  let m := invalidateEpoch m kind scope in
  mkManager (generation m) (epochs m) (invalidated m) (delete (kind, scope) (keys m)) (written m).

Definition InvalidateCapabilities (m : Manager) (prefix : string) := invalidateScope m CacheTypeCapabilities prefix.
Definition InvalidateCollections (m : Manager) (prefix : string) := invalidateScope m CacheTypeCollections prefix.
Definition InvalidateFeatures (m : Manager) (ws : string) := invalidateScope m CacheTypeFeatures ws.
Definition InvalidateTiles (m : Manager) (prefix : string) := invalidateScope m CacheTypeTiles prefix.

Definition InvalidateWorkspace (m : Manager) (ws : string) : Manager :=
  let m := InvalidateCapabilities m ws in
  let m := InvalidateCollections m ws in
  let m := InvalidateFeatures m ws in
  let m := InvalidateTiles m ws in
  invalidateScope m CacheTypeCounts ws.

Definition InvalidateLayer (m : Manager) (ws layerID : string) : Manager :=
  let m := InvalidateCapabilities m ws in
  let m := InvalidateCollections m ws in
  let m := InvalidateFeatures m ws in
  InvalidateTiles m ws.

(** Every epoch the predicate selects is killed and dropped. *)
Definition killEpochs (m : Manager) (P : string * string -> bool) : Manager :=
  let doomed := filter (fun kv => P kv.1 = true) (epochs m) in
  mkManager (generation m) (filter (fun kv => P kv.1 = false) (epochs m))
    (list_to_set (snd <$> map_to_list doomed) ∪ invalidated m) (keys m) (written m).

Definition ClearAll (m : Manager) : Manager :=
  let m := killEpochs m (fun _ => true) in
  mkManager (generation m) ∅ (invalidated m) ∅ (written m).

Definition ClearByType (m : Manager) (kind : string) : Manager :=
  let m := killEpochs m (fun ks => String.eqb ks.1 kind) in
  mkManager (generation m) (epochs m) (invalidated m) (filter (fun kv => kv.1.1 <> kind) (keys m)) (written m).

(** ** Runs *)

(** The manager with the fill tokens handed out so far. *)
Definition cacheState : Type := (Manager * list FillToken)%type.

(** Every operation runs under the epoch lock, so it is one step; [c_evict] is
    the store giving up an entry. *)
Inductive cacheStep : cacheState -> cacheState -> Prop :=
| c_begin m toks kind key t m' :
    BeginFill m kind key = (t, m') -> cacheStep (m, toks) (m', t :: toks)
| c_set m toks kind key value ttl maxEntrySize t accepted :
    t ∈ toks -> cacheStep (m, toks) ((set m kind key value ttl maxEntrySize t accepted).2, toks)
| c_invalidate m toks kind scope : cacheStep (m, toks) (invalidateScope m kind scope, toks)
| c_clear_all m toks : cacheStep (m, toks) (ClearAll m, toks)
| c_clear_type m toks kind : cacheStep (m, toks) (ClearByType m kind, toks)
| c_evict m toks e : e ∈ written m -> cacheStep (m, toks) (untrack m e, toks).

Inductive cacheSteps : cacheState -> cacheState -> Prop :=
| cs_refl s : cacheSteps s s
| cs_step s s' s'' : cacheStep s s' -> cacheSteps s' s'' -> cacheSteps s s''.

Definition cacheReachable (s : cacheState) : Prop := cacheSteps (emptyManager, []) s.

(** A token's epoch is the current one of its scope, or dead. *)
Definition tokenOk (m : Manager) (t : FillToken) : Prop :=
  exists e, tEpoch t = Some e /\ (epochs m !! (tKind t, tScope t) = Some e \/ e ∈ invalidated m).

Record cacheInv (s : cacheState) : Prop := mkCacheInv {
  ci_tok : forall t, t ∈ s.2 -> tokenOk s.1 t;
  ci_old : forall k e, epochs s.1 !! k = Some e -> (e <= generation s.1)%N;
  ci_dead : forall e, e ∈ invalidated s.1 -> (e <= generation s.1)%N
}.

(** The manager parts the invariant reads, for operations that leave them alone. *)
Lemma cacheInv_same m m' toks :
  cacheInv (m, toks) -> epochs m' = epochs m -> invalidated m' = invalidated m ->
  (generation m <= generation m')%N -> cacheInv (m', toks).
Proof.
  intros [Ht Ho Hd] He Hi Hg. split; simpl in *.
  - intros t Hin. unfold tokenOk. rewrite He, Hi. by apply Ht.
  - intros k e. rewrite He. intros Hk. specialize (Ho k e Hk). lia.
  - intros e. rewrite Hi. intros Hk. specialize (Hd e Hk). lia.
Qed.

Lemma track_same m e : epochs (track m e) = epochs m /\ invalidated (track m e) = invalidated m
  /\ generation (track m e) = generation m.
Proof. unfold track. by destruct (String.eqb _ _). Qed.

Lemma untrack_same m e : epochs (untrack m e) = epochs m /\ invalidated (untrack m e) = invalidated m
  /\ generation (untrack m e) = generation m.
Proof. unfold untrack. destruct (String.eqb _ _); [done|]. by destruct (bool_decide _). Qed.

Lemma set_same m kind key value ttl mx t acc :
  epochs (set m kind key value ttl mx t acc).2 = epochs m
  /\ invalidated (set m kind key value ttl mx t acc).2 = invalidated m
  /\ (generation m <= generation (set m kind key value ttl mx t acc).2)%N.
Proof.
  unfold set. destruct (ttl <=? 0); [done|]. destruct (_ && _); [done|]. destruct (tEpoch t) as [e|]; [|done].
  destruct (_ || _); [done|]. cbv zeta.
  match goal with |- context [track ?m0 ?e0] => destruct (track_same m0 e0) as (A & B & C) end.
  destruct acc; cbn [fst snd epochs invalidated generation]; [rewrite A, B; split_and!; [done|done|lia]|].
  match goal with |- context [untrack ?m0 ?e0] => destruct (untrack_same m0 e0) as (A' & B' & C') end.
  rewrite A', B', C', A, B, C. cbn [generation]. split_and!; [done|done|lia].
Qed.

(** Killing a set of epochs: what is dropped from the table is dead. *)
Lemma cacheInv_kill m m' toks :
  cacheInv (m, toks) -> epochs m' ⊆ epochs m -> invalidated m ⊆ invalidated m' -> generation m' = generation m ->
  (forall k e, epochs m !! k = Some e -> epochs m' !! k = Some e \/ e ∈ invalidated m') ->
  (forall e, e ∈ invalidated m' -> e ∈ invalidated m \/ exists k, epochs m !! k = Some e) ->
  cacheInv (m', toks).
Proof.
  intros [Ht Ho Hd] He Hi Hg Hk Hn. split; simpl in *.
  - intros t Hin. destruct (Ht t Hin) as (e & Hte & [Hc|Hc]); exists e; (split; [done|]); [by apply Hk|].
    right. by apply Hi.
  - intros k e Hke. rewrite Hg. apply (Ho k). by apply (lookup_weaken _ _ _ _ Hke).
  - intros e [Hin|[k Hke]]%Hn; rewrite Hg; eauto.
Qed.

Lemma invalidateScope_kill m kind scope :
  let m' := invalidateScope m kind scope in
  epochs m' ⊆ epochs m /\ invalidated m ⊆ invalidated m' /\ generation m' = generation m
  /\ (forall k e, epochs m !! k = Some e -> epochs m' !! k = Some e \/ e ∈ invalidated m')
  /\ (forall e, e ∈ invalidated m' -> e ∈ invalidated m \/ exists k, epochs m !! k = Some e)
  /\ epochs m' !! (kind, scope) = None.
Proof.
  unfold invalidateScope, invalidateEpoch. destruct (epochs m !! (kind, scope)) as [e0|] eqn:E; simpl.
  - split_and!; [apply delete_subseteq|set_solver|done| | |apply lookup_delete_eq].
    + intros k e Hk. destruct (decide (k = (kind, scope))) as [->|Hne].
      * right. rewrite E in Hk. injection Hk as ->. set_solver.
      * left. by rewrite lookup_delete_ne.
    + intros e [->%elem_of_singleton|He]%elem_of_union; eauto.
  - split_and!; eauto.
Qed.

Lemma killEpochs_kill m P :
  let m' := killEpochs m P in
  epochs m' ⊆ epochs m /\ invalidated m ⊆ invalidated m'
  /\ (forall k e, epochs m !! k = Some e -> (P k = false /\ epochs m' !! k = Some e) \/ e ∈ invalidated m')
  /\ (forall e, e ∈ invalidated m' -> e ∈ invalidated m \/ exists k, epochs m !! k = Some e).
Proof.
  unfold killEpochs. simpl. split_and!; [apply map_filter_subseteq|set_solver| |].
  - intros k e Hk. destruct (P k) eqn:E.
    + right. apply elem_of_union. left. apply elem_of_list_to_set, list_elem_of_fmap. exists (k, e).
      split; [done|]. apply elem_of_map_to_list, map_lookup_filter_Some. done.
    + left. split; [done|]. apply map_lookup_filter_Some. done.
  - intros e [He|He]%elem_of_union; [right|by left].
    apply elem_of_list_to_set, list_elem_of_fmap in He as ([k e'] & -> & Hin). exists k.
    by apply elem_of_map_to_list, map_lookup_filter_Some in Hin as [Hk _].
Qed.

Lemma cacheStep_inv s s' : cacheStep s s' -> cacheInv s -> cacheInv s'.
Proof.
  intros [m toks kind key t m' Hb|m toks kind key value ttl mx t acc _|m toks kind scope|m toks|m toks kind|
    m toks e _] Hi.
  - unfold BeginFill in Hb. destruct (epochs m !! (kind, cacheScope key)) as [e|] eqn:E; injection Hb as <- <-.
    + destruct Hi as [Ht Ho Hd]. split; simpl in *; [|done|done].
      intros t [->|Hin]%elem_of_cons; [|by apply Ht]. exists e. simpl. auto.
    + destruct Hi as [Ht Ho Hd]. split; simpl in *.
      * intros t [->|Hin]%elem_of_cons; [exists (N.succ (generation m)); simpl; rewrite lookup_insert_eq; auto|].
        destruct (Ht t Hin) as (e & Hte & [Hc|Hc]); exists e; (split; [done|]); simpl; [|by right].
        left. rewrite lookup_insert_ne; [done|]. intros Hk. rewrite <- Hk in Hc. congruence.
      * intros k e [[<- <-]|[_ Hk]]%lookup_insert_Some; [lia|]. specialize (Ho k e Hk). lia.
      * intros e He. specialize (Hd e He). lia.
  - destruct (set_same m kind key value ttl mx t acc) as (A & B & C). by apply (cacheInv_same m).
  - destruct (invalidateScope_kill m kind scope) as (A & B & C & D & E & _). by apply (cacheInv_kill m).
  - destruct (killEpochs_kill m (fun _ => true)) as (A & B & D & E). apply (cacheInv_kill m); simpl; try done.
    + apply map_empty_subseteq.
    + intros k e Hk. right. by destruct (D k e Hk) as [[? _]|].
  - destruct (killEpochs_kill m (fun ks => String.eqb ks.1 kind)) as (A & B & D & E).
    apply (cacheInv_kill m); simpl; try done. intros k e Hk. by destruct (D k e Hk) as [[_ ?]|]; [left|right].
  - destruct (untrack_same m e) as (A & B & C). apply (cacheInv_same m); try done. by rewrite C.
Qed.

Lemma cacheSteps_inv s s' : cacheSteps s s' -> cacheInv s -> cacheInv s'.
Proof. induction 1; [done|]. intros Hi. by apply IHcacheSteps, (cacheStep_inv s). Qed.

Lemma cacheReachable_inv s : cacheReachable s -> cacheInv s.
Proof.
  intros H. apply (cacheSteps_inv _ _ H). split; simpl; [|intros k e; by rewrite lookup_empty|set_solver].
  intros t Hin. by apply not_elem_of_nil in Hin.
Qed.

(** Dead epochs stay dead. *)
Lemma cacheStep_dead s s' : cacheStep s s' -> invalidated s.1 ⊆ invalidated s'.1.
Proof.
  intros [m toks kind key t m' Hb|m toks kind key value ttl mx t acc _|m toks kind scope|m toks|m toks kind|
    m toks e _]; simpl.
  - unfold BeginFill in Hb. destruct (epochs m !! _); by injection Hb as <- <-.
  - by destruct (set_same m kind key value ttl mx t acc) as (_ & -> & _).
  - apply (invalidateScope_kill m kind scope).
  - apply (killEpochs_kill m (fun _ => true)).
  - apply (killEpochs_kill m (fun ks => String.eqb ks.1 kind)).
  - by destruct (untrack_same m e) as (_ & -> & _).
Qed.

Lemma cacheSteps_dead s s' : cacheSteps s s' -> invalidated s.1 ⊆ invalidated s'.1.
Proof. induction 1 as [|s s' s'' Hs _ IH]; [done|]. etransitivity; [by apply cacheStep_dead|done]. Qed.

(** ** Theorems *)

Lemma set_dead m kind key value ttl mx t acc e :
  tEpoch t = Some e -> e ∈ invalidated m -> set m kind key value ttl mx t acc = (false, m).
Proof.
  intros Ht Hd. unfold set. destruct (ttl <=? 0); [done|]. destruct (_ && _); [done|].
  rewrite Ht, (bool_decide_eq_true_2 _ Hd), orb_true_r. done.
Qed.

Lemma CoalescingKey_inj t t' e e' key :
  tEpoch t = Some e -> tEpoch t' = Some e' -> CoalescingKey t key = CoalescingKey t' key -> e = e'.
Proof.
  unfold CoalescingKey. intros -> ->. induction key as [|c key IH].
  - rewrite !sapp_nil_l, !sapp_cons, !sapp_nil_l. intros H. injection H as H.
    by apply (inj (pretty : N -> string)).
  - rewrite !sapp_cons. intros H. injection H as H. by apply IH.
Qed.

(** C27: no stale fill. After [invalidateScope] returns, and whatever fills,
    invalidations, clears and evictions follow: a fill that began before it is
    refused; no entry stored by such a fill is served, whichever entry of the key
    the store returns; and a fill that begins right after it has an epoch of its
    own, shares no load with an earlier one, and is admitted. *)
Theorem no_stale_fill m1 toks1 kind scope m3 toks3 :
  let m2 := invalidateScope m1 kind scope in
  cacheReachable (m1, toks1) -> cacheSteps (m2, toks1) (m3, toks3) ->
  forall t, t ∈ toks1 -> tKind t = kind -> tScope t = scope ->
  (forall key value ttl mx acc, set m3 kind key value ttl mx t acc = (false, m3))
  /\ (forall entry, tEpoch t = Some (eEpoch entry) -> lookup_ m3 (Some entry) = None)
  /\ (forall key t' m', cacheScope key = scope -> BeginFill m2 kind key = (t', m') ->
        CoalescingKey t' key <> CoalescingKey t key
        /\ forall value ttl, 0 < ttl -> (set m' kind key value ttl 0 t' true).1 = true).
Proof.
  intros m2 Hr Hs t Hin Hk Hsc. pose proof (cacheReachable_inv _ Hr) as Hi.
  pose proof (invalidateScope_kill m1 kind scope) as HK. change (invalidateScope m1 kind scope) with m2 in HK.
  destruct HK as (_ & Hsub & Hgen & Hkill & Hold & Hnone).
  destruct (ci_tok _ Hi t Hin) as (e & Hte & Hcur).
  assert (Hdead : e ∈ invalidated m2).
  { destruct Hcur as [Hcur|Hcur]; simpl in Hcur; [|by apply Hsub]. rewrite Hk, Hsc in Hcur.
    destruct (Hkill _ _ Hcur) as [H|]; [congruence|done]. }
  assert (Hdead3 : e ∈ invalidated m3) by (by apply (cacheSteps_dead _ _ Hs)). split_and!.
  - intros. by apply (set_dead m3 kind key value ttl mx t acc e).
  - intros entry He. rewrite Hte in He. injection He as ->. unfold lookup_, currentEntry.
    by rewrite bool_decide_eq_true_2.
  - intros key t' m' Hks Hb. unfold BeginFill in Hb. rewrite Hks, Hnone in Hb. injection Hb as <- <-.
    assert (Hfresh : forall e', e' ∈ invalidated m2 -> (e' <= generation m2)%N).
    { intros e' [He'|[k He']]%Hold; rewrite Hgen; [by apply (ci_dead _ Hi)|by apply (ci_old _ Hi k)]. }
    split.
    + intros Hc. pose proof (CoalescingKey_inj (mkToken kind scope (Some (N.succ (generation m2)))) t
        (N.succ (generation m2)) e key eq_refl Hte Hc).
      specialize (Hfresh e Hdead). lia.
    + intros value ttl Httl. unfold set. rewrite (proj2 (Z.leb_gt _ _) Httl). cbn [andb Z.ltb Z.compare tEpoch tKind tScope].
      rewrite String.eqb_refl, Hks, String.eqb_refl. cbn [negb orb invalidated].
      rewrite bool_decide_eq_false_2; [done|]. intros Hf. apply Hfresh in Hf. change (N.succ (generation m2) <= generation m2)%N in Hf. lia.
Qed.

(** A fill of workspace "ws" that an invalidation overtakes. *)
Definition demoFill : FillToken * Manager := BeginFill emptyManager "features" "features:ws:x".

Lemma no_stale_fill_witness :
  let m2 := invalidateScope demoFill.2 "features" "ws" in
  set m2 "features" "features:ws:x" "stale" 60 0 demoFill.1 true = (false, m2).
Proof.
  intros m2.
  destruct (no_stale_fill demoFill.2 [demoFill.1] "features" "ws" m2 [demoFill.1]) with (t := demoFill.1) as [H _].
  - apply (cs_step _ (demoFill.2, [demoFill.1])); [apply (c_begin _ _ "features" "features:ws:x"); reflexivity|].
    apply cs_refl.
  - apply cs_refl.
  - apply list_elem_of_singleton. reflexivity.
  - reflexivity.
  - vm_compute. reflexivity.
  - apply H.
Defined.

Lemma cacheScope_scoped digest kind workspace fields :
  cacheScope (scopedKey digest kind workspace fields) = workspace.
Proof.
  unfold cacheScope, scopedKey.
  change ("v2:" +:+ ?x) with ("v2" +:+ String ":" x). rewrite Split_app by done.
  change (":" +:+ ?x) with (String ":" x). rewrite Split_app by apply EncodeToString_no_colon.
  change (":" +:+ ?x) with (String ":" x).
  assert (Hn : forall a b, exists x y l, Split ":" (a +:+ String ":" b) = x :: y :: l).
  { intros a b. induction a as [|c a (x & y & l & IH)].
    - rewrite sapp_nil_l. simpl. destruct (Split_nonempty ":" b) as (p & r & ->). eauto.
    - rewrite sapp_cons. simpl. rewrite IH. destruct (Ascii.eqb c ":"); eauto. }
  destruct (Hn kind (digest (fieldsPreimage fields))) as (x & y & l & ->). simpl.
  by rewrite DecodeString_Encode.
Qed.

(** A key names its workspace. The scope that invalidation derives from a
    key is the workspace the key was built for, whatever characters its name and
    the key's fields contain. *)
Theorem cacheScope_scopedKey digest kind workspace fields :
  cacheScope (scopedKey digest kind workspace fields) = workspace.
Proof. apply cacheScope_scoped. Qed.

(** ** Keys and collisions *)

Lemma bytes_inj (k : nat) n m :
  0 <= n < 256 ^ Z.of_nat k -> 0 <= m < 256 ^ Z.of_nat k ->
  (forall i, 0 <= i < Z.of_nat k -> (n / 256 ^ i) mod 256 = (m / 256 ^ i) mod 256) -> n = m.
Proof.
  revert n m. induction k as [|k IH]; intros n m Hn Hm Hb; [simpl in *; lia|].
  rewrite Nat2Z.inj_succ, Z.pow_succ_r in * by lia.
  pose proof (Hb 0 ltac:(lia)) as H0. rewrite Z.pow_0_r, !Z.div_1_r in H0.
  assert (n / 256 = m / 256) as Hd.
  { apply IH; [split; [apply Z.div_pos; lia|apply Z.div_lt_upper_bound; lia]..|].
    intros i Hi. specialize (Hb (Z.succ i) ltac:(lia)). rewrite Z.pow_succ_r in Hb by lia.
    rewrite <- !Z.div_div in Hb by lia. done. }
  rewrite (Z.div_mod n 256), (Z.div_mod m 256) by done. congruence.
Qed.

Lemma byte_inj a b : 0 <= a < 256 -> 0 <= b < 256 -> ascii_of_N (Z.to_N a) = ascii_of_N (Z.to_N b) -> a = b.
Proof.
  intros Ha Hb H. apply (f_equal N_of_ascii) in H. rewrite !N_ascii_embedding in H by lia. lia.
Qed.

Lemma String_cons_inj c d s t : String c s = String d t -> c = d /\ s = t.
Proof. intros [= -> ->]. done. Qed.

Lemma bigEndian64_inj n m :
  0 <= n < 2 ^ 64 -> 0 <= m < 2 ^ 64 -> bigEndian64 n = bigEndian64 m -> n = m.
Proof.
  intros Hn Hm H. apply (bytes_inj 8); [done..|].
  assert (Hbyte : forall x i, 0 <= i -> Z.land (Z.shiftr x (8 * i)) 255 = (x / 256 ^ i) mod 256).
  { intros x i Hi. change 255 with (Z.ones 8). rewrite Z.land_ones, Z.shiftr_div_pow2, Z.pow_mul_r by lia. done. }
  assert (Heq : forall i, 0 <= i -> ascii_of_N (Z.to_N (Z.land (Z.shiftr n (8 * i)) 255))
      = ascii_of_N (Z.to_N (Z.land (Z.shiftr m (8 * i)) 255)) -> (n / 256 ^ i) mod 256 = (m / 256 ^ i) mod 256).
  { intros i Hi He. rewrite !Hbyte in He by done. apply byte_inj in He; [done|apply Z.mod_pos_bound; lia..]. }
  unfold bigEndian64 in H. cbn [foldr] in H. 
  apply String_cons_inj in H as [E7 H]. apply String_cons_inj in H as [E6 H]. apply String_cons_inj in H as [E5 H].
  apply String_cons_inj in H as [E4 H]. apply String_cons_inj in H as [E3 H]. apply String_cons_inj in H as [E2 H].
  apply String_cons_inj in H as [E1 H]. apply String_cons_inj in H as [E0 _].
  intros i Hi. assert (i = 0 \/ i = 1 \/ i = 2 \/ i = 3 \/ i = 4 \/ i = 5 \/ i = 6 \/ i = 7) as Hc by lia.
  destruct Hc as [->|[->|[->|[->|[->|[->|[-> | ->]]]]]]]; apply Heq; (lia || assumption).
Qed.

Lemma sapp_inj a b x y : String.length a = String.length b -> a +:+ x = b +:+ y -> a = b /\ x = y.
Proof.
  revert b. induction a as [|c a IH]; intros [|d b] Hl H; simpl in Hl; try done.
  rewrite !sapp_cons in H. injection H as -> H. destruct (IH b) as [-> ->]; [congruence|done|done].
Qed.

(** Lengths that fit the 64-bit prefix. *)
Definition fieldsFit (fields : list string) : Prop :=
  Forall (fun f => Z.of_nat (String.length f) < 2 ^ 64) fields.

Lemma fieldsPreimage_inj f f' :
  fieldsFit f -> fieldsFit f' -> fieldsPreimage f = fieldsPreimage f' -> f = f'.
Proof.
  intros Hf. revert f'. induction Hf as [|x f Hx _ IH]; intros [|y f'] Hf' H; [done|..].
  - by apply (f_equal String.length) in H.
  - by apply (f_equal String.length) in H.
  - apply Forall_cons in Hf' as [Hy Hf']. cbn [fieldsPreimage foldr] in H.
    apply sapp_inj in H as [Hl H]; [|done].
    apply bigEndian64_inj in Hl; [|lia..]. apply sapp_inj in H as [-> H]; [|lia]. f_equal. by apply IH.
Qed.

(** Distinct requests have distinct keys. When two keys are equal, they name
    the same workspace and kind, and the same fields, unless the digest itself
    collides on two different inputs: no choice of delimiters inside the fields
    makes keys ambiguous. *)
Theorem scopedKey_unambiguous digest kind kind' ws ws' fields fields' :
  has_byte ":" kind = false -> has_byte ":" kind' = false -> fieldsFit fields -> fieldsFit fields' ->
  scopedKey digest kind ws fields = scopedKey digest kind' ws' fields' ->
  ws = ws' /\ kind = kind'
  /\ (fields = fields'
      \/ fieldsPreimage fields <> fieldsPreimage fields'
         /\ digest (fieldsPreimage fields) = digest (fieldsPreimage fields')).
Proof.
  intros Hk Hk' Hf Hf' H. assert (Hws : ws = ws').
  { apply (f_equal cacheScope) in H. revert H. clear.
    assert (Hs : forall k w f, cacheScope (scopedKey digest k w f) = w) by apply cacheScope_scoped.
    by rewrite !Hs. }
  subst ws'. unfold scopedKey in H. apply sapp_inj in H as [_ H]; [|done]. apply sapp_inj in H as [_ H]; [|done].
  apply sapp_inj in H as [_ H]; [|done]. assert (Hkind : kind = kind').
  { apply (f_equal (Split ":")) in H. change (":" +:+ ?x) with (String ":" x) in H.
    rewrite !Split_app in H by done. by injection H. }
  subst kind'. apply sapp_inj in H as [_ H]; [|done]. apply sapp_inj in H as [_ H]; [|done].
  split_and!; [done|done|]. destruct (decide (fieldsPreimage fields = fieldsPreimage fields')) as [Hp|Hp].
  - left. by apply fieldsPreimage_inj.
  - by right.
Qed.

Lemma scopedKey_unambiguous_witness :
  let f := ["a:b"; "c"] in
  ["a:b"; "c"] = f \/ fieldsPreimage ["a:b"; "c"] <> fieldsPreimage f
    /\ (fun x : string => x) (fieldsPreimage ["a:b"; "c"]) = fieldsPreimage f.
Proof.
  intros f.
  assert (Hf : fieldsFit f) by (repeat constructor).
  destruct (scopedKey_unambiguous (fun x => x) "tiles" "tiles" "ws" "ws" ["a:b"; "c"] f eq_refl eq_refl Hf Hf eq_refl)
    as (_ & _ & H). exact H.
Defined.

(** ** A limit of [InvalidateLayer] *)

(** Counts survive the invalidation of a layer, while [InvalidateWorkspace] drops them. *)
Lemma InvalidateLayer_keeps_counts :
  let '(t, m) := BeginFill emptyManager "counts" "counts:ws:q" in
  let m1 := (set m "counts" "counts:ws:q" "42" 60 0 t true).2 in
  let entry := mkEntry 1 "42" "counts" "ws" "counts:ws:q" 2 in
  written m1 = [entry] /\ lookup_ (InvalidateLayer m1 "ws" "roads") (Some entry) = Some "42"
  /\ lookup_ (InvalidateWorkspace m1 "ws") (Some entry) = None.
Proof. vm_compute. done. Qed.
