(* ===== verification/DataRevision.v ===== *)
(** * Data revisions ([internal/workspace/data_revision.go], [internal/store/store_data_revision.go])

    Every feature write of a workspace is bracketed by a dirty marker and a
    revision: [BeginDataWrite] marks the workspace pending and moves the revision
    on, [finish] moves it on again and clears the marker. A cache entry is filed
    under the revision its reader saw ([tiles/engine.go]: [Fetch] and
    [identity]), so an entry is served exactly while the revision stands.

    The in-memory state is read without a lock while a writer is between any two
    of its atomic operations, so the model is a step relation with one step per
    atomic load, store or statement, for one workspace: one writer at a time (the
    gate), any number of readers, failures of the catalog statement (applied or
    not), crashes and restarts. The source's content is any type [D]. The
    in-memory caches, which [invalidateWorkspaceCache] clears besides, are not
    part of this model. *)

From S2P Require Import Prelude.

(** A row of [workspace_data_revisions]: revision and pending. *)
Abbreviation revisionRow := (option (Z * bool)).

Definition GetDataRevision (row : revisionRow) : Z * bool :=
  match row with None => (1, false) | Some r => r end.

(** [INSERT ... VALUES (?,2,?) ON CONFLICT ... SET revision=revision+1 RETURNING revision]. *)
Definition SetDataWritePending (row : revisionRow) (pending : bool) : Z * revisionRow :=
  match row with
  | None => (2, Some (2, pending))
  | Some (revision, _) => (revision + 1, Some (revision + 1, pending))
  end.

(** [UPDATE ... SET revision=revision+1,pending=false WHERE pending=true]. *)
Definition RecoverDataWrites (row : revisionRow) : revisionRow :=
  match row with
  | Some (revision, true) => Some (revision + 1, false)
  | _ => row
  end.

(** What the holder of the gate does next. *)
Inductive writerAt : Type :=
| GateFree
| GateHeld                  (* the gate is taken *)
| MarkedPending             (* pending.Store(true) *)
| RevisionAdded             (* revision.Add(1) *)
| BeginRecorded (r : Z)     (* the statement returned r *)
| WriteOpen                 (* BeginDataWrite has returned *)
| EndRecorded (r : Z)       (* finish: the statement returned r *)
| RevisionStored            (* finish: the final revision is in memory *)
| PendingCleared.           (* finish: pending.Store(false) *)

(** [dataState]: the gate is represented by what its holder does. *)
Record dataState : Type := mkDataState { revision : Z; pending : bool; gate : writerAt }.

Definition newDataState (rev : Z) (p : bool) : dataState := mkDataState rev p GateFree.

Definition atGate (w : writerAt) (s : dataState) : dataState := mkDataState (revision s) (pending s) w.
Definition setPending (p : bool) (w : writerAt) (s : dataState) : dataState := mkDataState (revision s) p w.
Definition setRevision (r : Z) (w : writerAt) (s : dataState) : dataState := mkDataState r (pending s) w.

(** Where a reader is. [DataCacheState] loads the revision, loads pending, and
    loads the revision again; [ReadFirst k b]: the first load gave [b];
    [ReadBoth k b p]: the second gave [p]; [k] is the revision of an earlier call
    whose key is kept. [Keyed k p]: the calls are over. [Rendered k d]: the
    source was read for the key [k]. *)
Inductive readerAt (D : Type) : Type :=
| ReadFirst (key : option Z) (before : Z)
| ReadBoth (key : option Z) (before : Z) (p : bool)
| Keyed (key : Z) (p : bool)
| Rendered (key : Z) (d : D).
Arguments ReadFirst {D}. Arguments ReadBoth {D}. Arguments Keyed {D}. Arguments Rendered {D}.

Record world (D : Type) : Type := mkWorld {
  durable : bool;
  source : D;
  row : revisionRow;
  memory : dataState;
  beginFailed : bool;              (* history: some begin has failed *)
  readers : gmap nat (readerAt D);
  entries : list (Z * D)           (* tiles filed under a revision *)
}.
Arguments mkWorld {D}. Arguments durable {D}. Arguments source {D}. Arguments row {D}.
Arguments memory {D}. Arguments beginFailed {D}. Arguments readers {D}. Arguments entries {D}.

Section Steps.
Context {D : Type}.
Implicit Types w : world D.

Definition with_memory w (m : dataState) : world D :=
  mkWorld (durable w) (source w) (row w) m (beginFailed w) (readers w) (entries w).
Definition with_row w (r : revisionRow) (m : dataState) : world D :=
  mkWorld (durable w) (source w) r m (beginFailed w) (readers w) (entries w).
Definition with_reader w (i : nat) (r : readerAt D) : world D :=
  mkWorld (durable w) (source w) (row w) (memory w) (beginFailed w) (<[i := r]> (readers w)) (entries w).

(** ** The writer: [BeginDataWrite] and the [finish] it returns

    A statement succeeds, fails without effect, or fails after
    it took effect (a lost answer, a cancelled context). *)
Inductive statement : Type := Done | Failed | FailedApplied.

(** [SetDataWritePending(ctx, workspaceID, true)] and the error branch. *)
Definition beginRecord w (o : statement) : world D :=
  let '(r, row') := SetDataWritePending (row w) true in
  match o with
  | Done => with_row w row' (atGate (BeginRecorded r) (memory w))
  | Failed | FailedApplied =>
      mkWorld (durable w) (source w) (match o with FailedApplied => row' | _ => row w end)
        (atGate GateFree (memory w)) true (readers w) (entries w)
  end.

(** [SetDataWritePending(finishCtx, workspaceID, false)] and the error branch. *)
Definition finishRecord w (o : statement) : world D :=
  let '(r, row') := SetDataWritePending (row w) false in
  match o with
  | Done => with_row w row' (atGate (EndRecorded r) (memory w))
  | Failed => with_memory w (atGate GateFree (memory w))
  | FailedApplied => with_row w row' (atGate GateFree (memory w))
  end.

(** The writer's next atomic operation. [o] is the outcome of its statement,
    where it makes one. *)
Definition writerStep w (o : statement) : world D :=
  let m := memory w in
  match gate m with
  | GateFree => with_memory w (atGate GateHeld m)
  | GateHeld => with_memory w (setPending true MarkedPending m)
  | MarkedPending => with_memory w (setRevision (revision m + 1) RevisionAdded m)
  | RevisionAdded => if durable w then beginRecord w o else with_memory w (atGate WriteOpen m)
  | BeginRecorded r => with_memory w (setRevision r WriteOpen m)
  | WriteOpen =>
      if durable w then finishRecord w o
      else with_memory w (setRevision (revision m + 1) RevisionStored m)
  | EndRecorded r => with_memory w (setRevision r RevisionStored m)
  | RevisionStored => with_memory w (setPending false PendingCleared m)
  | PendingCleared => with_memory w (atGate GateFree m)
  end.

(** A change of the source inside the bracket. *)
Definition sourceWrite w (d : D) : world D :=
  match gate (memory w) with
  | WriteOpen => mkWorld (durable w) d (row w) (memory w) (beginFailed w) (readers w) (entries w)
  | _ => w
  end.

(** ** Readers: [DataCacheState], then reading the source and filing the tile *)

Definition startRead w (i : nat) : world D := with_reader w i (ReadFirst None (revision (memory w))).

(** The reader's next atomic operation; [again] makes another call of
    [DataCacheState] while keeping the key of the first ([Fetch] takes the
    revision from one call and the pending flag from the next). *)
Definition readerStep w (i : nat) (again : bool) : world D :=
  match readers w !! i with
  | None => w
  | Some (ReadFirst k b) => with_reader w i (ReadBoth k b (pending (memory w)))
  | Some (ReadBoth k b p) =>
      if b =? revision (memory w) then with_reader w i (Keyed (default b k) p)
      else with_reader w i (ReadFirst k (revision (memory w)))
  | Some (Keyed k p) =>
      if again then with_reader w i (ReadFirst (Some k) (revision (memory w)))
      else if p then w
      else with_reader w i (Rendered k (source w))
  | Some (Rendered k d) =>
      mkWorld (durable w) (source w) (row w) (memory w) (beginFailed w) (readers w) ((k, d) :: entries w)
  end.

(** What a request that sees revision [rev] is served from the tiles. *)
Definition served w (rev : Z) (d : D) : Prop := In (rev, d) (entries w).

(** ** Start of the process: [RecoverDataWrites], then the registry's load *)
Definition startup w : world D :=
  let row' := RecoverDataWrites (row w) in
  let '(r, p) := GetDataRevision row' in
  mkWorld (durable w) (source w) row' (newDataState r p) (beginFailed w) ∅ (entries w).

(** A restart keeps only what is durable: the row, the tiles and the source. It
    is not modelled for a store without [DataRevisionStore], whose revisions
    start over. *)
Inductive worldStep : world D -> world D -> Prop :=
| step_writer w o : worldStep w (writerStep w o)
| step_source w d : worldStep w (sourceWrite w d)
| step_start w i : worldStep w (startRead w i)
| step_reader w i again : worldStep w (readerStep w i again)
| step_restart w : durable w = true -> worldStep w (startup w).

Definition initialWorld (dur : bool) (d : D) : world D :=
  mkWorld dur d None (newDataState 1 false) false ∅ [].

Inductive reachableWorld : world D -> Prop :=
| reach_init dur d : reachableWorld (initialWorld dur d)
| reach_step w w' : reachableWorld w -> worldStep w w' -> reachableWorld w'.
End Steps.

(** ** The invariant *)
Section Invariant.
Context {D : Type}.
Implicit Types w : world D.

(** The revision on record, and whether the content may differ from it. *)
Definition recorded w : Z := if durable w then (GetDataRevision (row w)).1 else revision (memory w).
Definition dirty w : bool :=
  if durable w then (GetDataRevision (row w)).2
  else match gate (memory w) with RevisionAdded | WriteOpen => true | _ => false end.

(** The least revision a state that is not pending can have from now on. *)
Definition nextClean w : Z := if dirty w then recorded w + 1 else recorded w.

(** The in-memory state agrees with the record, by what the writer does. *)
Definition memoryOk w : Prop :=
  let m := memory w in
  match gate m with
  | GateFree | GateHeld | PendingCleared =>
      revision m <= recorded w /\ (pending m = false -> revision m = recorded w /\ dirty w = false)
  | MarkedPending => revision m <= recorded w /\ pending m = true
  | RevisionAdded => revision m <= recorded w + 1 /\ pending m = true
  | BeginRecorded r =>
      r = recorded w /\ revision m <= recorded w /\ dirty w = true /\ pending m = true /\ durable w = true
  | WriteOpen => revision m = recorded w /\ dirty w = true /\ pending m = true
  | EndRecorded r =>
      r = recorded w /\ revision m <= recorded w /\ dirty w = false /\ pending m = true /\ durable w = true
  | RevisionStored => revision m = recorded w /\ dirty w = false /\ pending m = true
  end.

(** A revision a reader may hold: on record already, or about to be. *)
Definition keyOk w (k : Z) : Prop :=
  k <= recorded w \/ (k = recorded w + 1 /\ gate (memory w) = RevisionAdded /\ durable w = true).

(** A tile that may be filed: it is the current content if its revision can
    still be served. *)
Definition fileOk w (k : Z) (d : D) : Prop :=
  k <= recorded w /\ (k = nextClean w -> d = source w).

Definition readerOk w (r : readerAt D) : Prop :=
  match r with
  | ReadFirst k b => keyOk w (default b k) /\ keyOk w b
  | ReadBoth k b p => keyOk w (default b k) /\ (p = false -> default b k <= recorded w)
  | Keyed k p => keyOk w k /\ (p = false -> k <= recorded w)
  | Rendered k d => fileOk w k d
  end.

Record worldOk w : Prop := {
  ok_memory : memoryOk w;
  ok_readers : forall i r, readers w !! i = Some r -> readerOk w r;
  ok_entries : forall k d, In (k, d) (entries w) -> fileOk w k d
}.

(** [w'] comes after [w]: what was on record stays below what is, and the content
    changes only while it is marked. *)
Definition later w w' : Prop :=
  recorded w <= recorded w' /\ nextClean w <= nextClean w' /\ (source w' = source w \/ dirty w' = true).

(** An announced revision is recorded or still announced. *)
Definition keysLater w w' : Prop :=
  gate (memory w) = RevisionAdded -> durable w = true ->
  recorded w < recorded w'
  \/ (recorded w' = recorded w /\ gate (memory w') = RevisionAdded /\ durable w' = true).

Lemma nextClean_recorded w : recorded w <= nextClean w.
Proof. unfold nextClean. destruct (dirty w); lia. Qed.

Lemma fileOk_later w w' k d : later w w' -> fileOk w k d -> fileOk w' k d.
Proof.
  intros (Hr & Hn & Hs) [Hk Hd]. split; [lia|]. intros ->.
  pose proof (nextClean_recorded w).
  destruct Hs as [-> | Hdirty]; [apply Hd; lia|].
  revert Hk. unfold nextClean. rewrite Hdirty. lia.
Qed.

Lemma keyOk_later w w' k : later w w' -> keysLater w w' -> keyOk w k -> keyOk w' k.
Proof.
  intros (Hr & _) Hl [Hk | (-> & Hg & Hdur)]; [left; lia|].
  destruct (Hl Hg Hdur) as [? | (? & ? & ?)]; [left; lia | right; split; [lia|done]].
Qed.

Lemma readerOk_later w w' r : later w w' -> keysLater w w' -> readerOk w r -> readerOk w' r.
Proof.
  intros Hl Hk. pose proof Hl as (Hr & _). destruct r; simpl.
  - intros [? ?]. eauto using keyOk_later.
  - intros [? H]. split; [by eapply keyOk_later|]. intros Hp; specialize (H Hp); lia.
  - intros [? H]. split; [by eapply keyOk_later|]. intros Hp; specialize (H Hp); lia.
  - by apply fileOk_later.
Qed.

Lemma worldOk_later w w' :
  later w w' -> keysLater w w' -> readers w' = readers w -> entries w' = entries w -> memoryOk w' ->
  worldOk w -> worldOk w'.
Proof.
  intros Hl Hk Er Ee Hm [_ HR HE]. split; [done| |].
  - intros i r. rewrite Er. eauto using readerOk_later.
  - intros k d. rewrite Ee. eauto using fileOk_later.
Qed.

(** A reader moves; nothing else does. *)
Lemma worldOk_reader w i r : readerOk w r -> worldOk w -> worldOk (with_reader w i r).
Proof.
  intros Hr [HM HR HE]. split; [exact HM| |exact HE].
  intros j r'. simpl. intros [[_ <-] | [_ Hj]]%lookup_insert_Some; [exact Hr | exact (HR j r' Hj)].
Qed.

Lemma SetDataWritePending_spec r p :
  SetDataWritePending r p = ((GetDataRevision r).1 + 1, Some ((GetDataRevision r).1 + 1, p)).
Proof. by destruct r as [[? ?]|]. Qed.

(** The writer's step keeps the invariant unless it is a begin that fails. *)
Lemma writerStep_ok w o :
  beginFailed (writerStep w o) = false -> worldOk w -> worldOk (writerStep w o).
Proof.
  intros Hbf Hok. pose proof (ok_memory _ Hok) as Hm. destruct w as [dur src rw [rev pen g] bf rds ens].
  revert Hbf Hm. unfold memoryOk, recorded, dirty, writerStep, beginRecord, finishRecord; simpl.
  rewrite !SetDataWritePending_spec.
  intros Hbf Hm. refine (worldOk_later _ _ _ _ _ _ _ Hok);
  unfold later, keysLater, memoryOk, nextClean, recorded, dirty;
  destruct g, dur; try destruct o; simpl in *; try done;
  try (destruct (GetDataRevision rw) as [R []] eqn:ER); simpl in *; rewrite ?ER; simpl; intuition (first [lia | congruence]).
Qed.

Lemma sourceWrite_ok w d : worldOk w -> worldOk (sourceWrite w d).
Proof.
  intros Hok. pose proof (ok_memory _ Hok) as Hm. destruct w as [dur src rw [rev pen g] bf rds ens].
  unfold sourceWrite; simpl. destruct g; try done.
  refine (worldOk_later _ _ _ _ _ _ _ Hok); try done.
  - unfold memoryOk, recorded, dirty in Hm. unfold later, nextClean, recorded, dirty. simpl in *.
    split; [lia|]. split; [lia|]. right. apply Hm.
Qed.

(** What is in memory may be loaded as a key; when nothing is pending it is the
    revision on record, and the content is the recorded one. *)
Lemma memory_revision_ok w :
  worldOk w -> keyOk w (revision (memory w))
  /\ (pending (memory w) = false -> revision (memory w) = recorded w /\ dirty w = false).
Proof.
  intros [Hm _ _]. unfold keyOk. revert Hm. unfold memoryOk.
  destruct (gate (memory w)) eqn:Eg; intros Hm; split; try (left; lia); try intuition congruence.
  destruct (decide (revision (memory w) <= recorded w)) as [|Hgt]; [by left|right].
  split; [lia|]. split; [done|]. unfold recorded in Hgt. destruct (durable w); [done|lia].
Qed.

(** While nothing is pending no announced revision is outstanding. *)
Lemma keyOk_recorded w k : worldOk w -> pending (memory w) = false -> keyOk w k -> k <= recorded w.
Proof.
  intros [Hm _ _] Hp [?|(_ & Hg & _)]; [done|]. unfold memoryOk in Hm. rewrite Hg in Hm.
  destruct Hm. congruence.
Qed.

(** A tile read from the source now may be filed under a recorded revision. *)
Lemma read_source_ok w k : k <= recorded w -> fileOk w k (source w).
Proof. by split. Qed.

Lemma readerStep_ok w i again : worldOk w -> worldOk (readerStep w i again).
Proof.
  intros Hok. unfold readerStep. destruct (readers w !! i) as [r|] eqn:Er; [|done].
  pose proof (ok_readers _ Hok _ _ Er) as Hr. destruct (memory_revision_ok w Hok) as [Hmk _].
  destruct r as [k b|k b p|k p|k d]; simpl in Hr.
  - apply worldOk_reader; [|done]. destruct Hr as [Hk _]. split; [done|]. eauto using keyOk_recorded.
  - destruct (b =? _).
    + by apply worldOk_reader.
    + apply worldOk_reader; [|done]. destruct Hr as [Hk _]. split; [by destruct k|done].
  - destruct again; [by apply worldOk_reader; [destruct Hr|]|].
    destruct p; [done|]. apply worldOk_reader; [|done]. apply read_source_ok, Hr. done.
  - destruct Hok as [HM HR HE]. split; [exact HM|exact HR|].
    intros k' d' [[= <- <-]|Hin]; [exact Hr|exact (HE _ _ Hin)].
Qed.

Lemma startup_ok w : durable w = true -> worldOk w -> worldOk (startup w).
Proof.
  intros Hd Hok. unfold startup.
  destruct (GetDataRevision (RecoverDataWrites (row w))) as [r p] eqn:Eg.
  assert (Hl : later w (mkWorld (durable w) (source w) (RecoverDataWrites (row w)) (newDataState r p)
                          (beginFailed w) ∅ (entries w))).
  { unfold later, nextClean, recorded, dirty. simpl. rewrite Hd, Eg.
    destruct (row w) as [[R []]|]; simpl in *; inversion Eg; subst; simpl; split_and!; try lia; by left. }
  split; [| done | intros k d Hin; exact (fileOk_later _ _ _ _ Hl (ok_entries _ Hok _ _ Hin))].
  unfold memoryOk, recorded, dirty. simpl. rewrite Hd, Eg. simpl.
  split; [lia|]. by intros ->.
Qed.

Lemma worldStep_failed w w' : worldStep w w' -> beginFailed w' = false -> beginFailed w = false.
Proof.
  destruct 1; simpl; try done.
  - unfold writerStep, beginRecord, finishRecord. rewrite !SetDataWritePending_spec.
    destruct (gate (memory w)), (durable w), o; simpl; done.
  - unfold sourceWrite. by destruct (gate (memory w)).
  - unfold readerStep. destruct (readers w !! i) as [[]|]; simpl; try done; repeat case_match; done.
  - unfold startup. by destruct (GetDataRevision _).
Qed.

Lemma reachable_ok w : reachableWorld w -> beginFailed w = false -> worldOk w.
Proof.
  induction 1 as [dur d|w w' _ IH Hs]; intros Hbf.
  - split; [|done|done]. unfold memoryOk, recorded, dirty. by destruct dur.
  - specialize (IH (worldStep_failed _ _ Hs Hbf)). destruct Hs.
    + by apply writerStep_ok.
    + by apply sourceWrite_ok.
    + apply worldOk_reader; [|done]. destruct (memory_revision_ok w IH). by split.
    + by apply readerStep_ok.
    + by apply startup_ok.
Qed.
End Invariant.

(** Concrete executions, as lists of steps. *)
Inductive action (D : Type) : Type :=
| Writer (o : statement)
| Source (d : D)
| Start (i : nat)
| Reader (i : nat) (again : bool)
| Restart.
Arguments Writer {D}. Arguments Source {D}. Arguments Start {D}. Arguments Reader {D}. Arguments Restart {D}.

Definition act {D} (w : world D) (a : action D) : world D :=
  match a with
  | Writer o => writerStep w o
  | Source d => sourceWrite w d
  | Start i => startRead w i
  | Reader i again => readerStep w i again
  | Restart => if durable w then startup w else w
  end.

Lemma reachable_run {D} (w : world D) acts : reachableWorld w -> reachableWorld (foldl act w acts).
Proof.
  revert w. induction acts as [|a acts IH]; intros w Hw; simpl; [done|]. apply IH.
  destruct a; simpl; [| | | |destruct (durable w) eqn:E; [|done]]; eapply reach_step; eauto using worldStep.
Qed.

Definition run {D} (d : D) (acts : list (action D)) : world D := foldl act (initialWorld true d) acts.

(** C22: a data revision identifies the content. Whatever writers, readers,
    failing finishes, crashes and restarts did so far, as long as no begin has
    failed: when nothing is pending, a tile filed under the current revision is
    what the source holds; and a request that took its key and saw nothing
    pending finds under that key the current content, unless the revision has
    moved on since. *)
Theorem revision_identifies_content {D} (w : world D) :
  reachableWorld w -> beginFailed w = false ->
  (pending (memory w) = false -> forall d, served w (revision (memory w)) d -> d = source w)
  /\ (forall i k d, readers w !! i = Some (Keyed k false) -> served w k d ->
      d = source w \/ k < nextClean w).
Proof.
  intros Hr Hbf. pose proof (reachable_ok w Hr Hbf) as Hok. split.
  - intros Hp d Hin. destruct (memory_revision_ok w Hok) as [_ Hrev].
    destruct (Hrev Hp) as [Erev Hd]. destruct (ok_entries _ Hok _ _ Hin) as [_ Hfile].
    apply Hfile. unfold nextClean. by rewrite Hd.
  - intros i k d _ Hin. destruct (ok_entries _ Hok _ _ Hin) as [Hle Hfile].
    destruct (decide (k = nextClean w)) as [E|E]; [left; by apply Hfile|right].
    pose proof (nextClean_recorded w). lia.
Qed.

(** A write, a crash inside the next one, the restart, and a tile filed after it. *)
Definition demoRun : list (action Z) :=
  replicate 5 (Writer Done) ++ [Source 7] ++ replicate 4 (Writer Done)
  ++ replicate 5 (Writer Done) ++ [Source 8; Restart; Start 0; Reader 0 false; Reader 0 false;
       Reader 0 true; Reader 0 false; Reader 0 false; Reader 0 false; Reader 0 false].

Lemma revision_identifies_content_witness :
  let w := run 0 demoRun in
  pending (memory w) = false /\ revision (memory w) = 5 /\ served w 5 8 /\ 8 = source w.
Proof.
  intros w. split; [vm_compute; reflexivity|]. split; [vm_compute; reflexivity|].
  assert (Hs : served w 5 8) by (vm_compute; left; reflexivity). split; [exact Hs|].
  refine (proj1 (revision_identifies_content w _ _) _ 8 Hs);
    [apply reachable_run, reach_init | vm_compute; reflexivity | vm_compute; reflexivity].
Defined.

(** A begin that fails leaves the in-memory revision ahead of the recorded one, so
    a revision can be announced twice: four begins fail, a slow reader takes the
    announced revision 5 as its key, a write completes as revision 3, the reader
    files the tile of revision 3 under 5, and the next write completes as
    revision 5, where that tile is served. *)
Definition driftRun : list (action Z) :=
  concat (replicate 4 (replicate 4 (Writer Failed)))
  ++ [Start 0] ++ replicate 5 (Writer Done) ++ [Source 7] ++ replicate 4 (Writer Done)
  ++ [Reader 0 false] ++ concat (replicate 2 (replicate 4 (Writer Failed)))
  ++ replicate 3 (Reader 0 false)
  ++ replicate 5 (Writer Done) ++ [Source 8] ++ replicate 4 (Writer Done).

Lemma failed_begins_reuse_revision :
  let w := run 0 driftRun in
  reachableWorld w /\ pending (memory w) = false /\ served w (revision (memory w)) 7 /\ source w = 8.
Proof.
  intros w. split; [apply reachable_run, reach_init|].
  split; [vm_compute; reflexivity|]. split; [|vm_compute; reflexivity].
  vm_compute. left. reflexivity.
Qed.
