(* ===== verification/Transaction.v ===== *)
(** * WFS transactions: decoding and execution order
      ([internal/wfs/transaction.go], [transaction_order.go], [transaction_values.go])

    The actions of a transaction are decoded into one slice per kind, with an
    ordered index over them; execution walks the index. The XML decoder is what
    [encoding/xml] delivers: the tokens inside the root element, where the start
    tag of an action comes with the content of its element ([None] when that is
    not well formed). The inner XML that the code keeps as text is kept as the
    tree that text encodes. White space is trimmed in the ASCII range, and a
    processing instruction inside an action is not an XML declaration.

    What one action does to the source is a parameter of the executor: the
    theorem on the order holds for all of them. *)

From S2P Require Import Prelude GoText ProtocolRequest XmlTree.

Inductive decodeErr : Type :=
| NotATransaction
| SyntaxError
| XmlDirective
| UnsupportedChild (space local : string)
| BadBool
| BadActionNamespace (space : string)
| UnsupportedNative
| UnsupportedAction (local : string).

(** ** Inner XML ([transaction_values.go]) *)

Definition cleanXMLStart (start : xmlElement) : xmlElement :=
  mkElement (elemSpace start) (elemLocal start)
    (List.filter (fun a => negb (String.eqb (attrSpace a) "xmlns") && negb (String.eqb (attrLocal a) "xmlns"))
       (elemAttr start)).

(** A directive anywhere inside is an error; namespace declarations are dropped. *)
Fixpoint resolveNode (n : xmlNode) : decodeErr + xmlNode :=
  match n with
  | Elem e children =>
      match mapErr resolveNode children with
      | inl err => inl err
      | inr r => inr (Elem (cleanXMLStart e) r)
      end
  | DirectiveNode => inl XmlDirective
  | _ => inr n
  end.

Definition resolvedInnerXML (c : content) : decodeErr + list xmlNode :=
  match c with None => inl SyntaxError | Some l => mapErr resolveNode l end.

(** ** The actions ([transaction.go]) *)

Record XMLFeature : Type := mkXMLFeature {
  FeatureSpace : string; FeatureLocal : string; GmlId : string; FeatureProperties : list xmlNode }.

Record WFSValue : Type := mkWFSValue { ValueNil : string; RawXML : list xmlNode }.

Record WFSProperty : Type := mkWFSProperty {
  ValueReference : string; ReferenceAction : string; PropertyValue : option WFSValue }.

Record WFSInsert : Type := mkWFSInsert {
  InsertHandle : string; InputFormat : string; InsertSrsName : string; Features : list XMLFeature }.

Record WFSUpdate : Type := mkWFSUpdate {
  UpdateHandle : string; UpdateTypeName : string; UpdateSrsName : string;
  Properties : list WFSProperty; UpdateFilterRaw : list xmlNode }.

Record WFSDelete : Type := mkWFSDelete {
  DeleteHandle : string; DeleteTypeName : string; DeleteFilterRaw : list xmlNode }.

Record WFSReplace : Type := mkWFSReplace {
  ReplaceHandle : string; ReplaceSrsName : string; InnerXML : list xmlNode }.

Record WFSNativeElement : Type := mkWFSNativeElement {
  VendorId : string; SafeToIgnore : bool; NativeContent : list xmlNode }.

Record transactionOperation : Type := mkOperation { kind : string; index : nat }.

Record WFSTransaction : Type := mkWFSTransaction {
  XMLName : string * string;
  Version : string; TxService : string; Handle : string; LockId : string; ReleaseAction : string;
  SrsName : string;
  Inserts : list WFSInsert;
  Updates : list WFSUpdate;
  Deletes : list WFSDelete;
  Replaces : list WFSReplace;
  NativeElements : list WFSNativeElement;
  operations : option (list transactionOperation)
}.

(** [XMLFeature.UnmarshalXML]. *)
Definition featureUnmarshalXML (e : xmlElement) (c : content) : decodeErr + XMLFeature :=
  match resolvedInnerXML c with
  | inl err => inl err
  | inr inner => inr (mkXMLFeature (elemSpace e) (elemLocal e) (attrOf "id" e) inner)
  end.

(** [Insert] has no method of its own: its attributes by local name, and every
    child element as a feature. *)
Definition decodeInsert (e : xmlElement) (c : content) : decodeErr + WFSInsert :=
  match c with
  | None => inl SyntaxError
  | Some l =>
      let features := flat_map (fun n => match n with Elem f fc => [(f, fc)] | _ => [] end) l in
      match mapErr (fun '(f, fc) => featureUnmarshalXML f (Some fc)) features with
      | inl err => inl err
      | inr fs => inr (mkWFSInsert (attrOf "handle" e) (attrOf "inputFormat" e) (attrOf "srsName" e) fs)
      end
  end.

(** [WFSValue.UnmarshalXML] into [v]; [inner] is resolved already. *)
Definition valueUnmarshalXML (v : WFSValue) (e : xmlElement) (inner : list xmlNode) : WFSValue :=
  mkWFSValue
    (foldl (fun acc a => if String.eqb (attrLocal a) "nil" && String.eqb (attrSpace a) NSXsi
                         then attrValue a else acc) (ValueNil v) (elemAttr e))
    inner.

(** A [Property] element: its [ValueReference] and [Value] children. *)
Definition propertyChild (p : WFSProperty) (n : xmlNode) : WFSProperty :=
  match n with
  | Elem e c =>
      if String.eqb (elemLocal e) "ValueReference"
      then mkWFSProperty (charData c) (lastAttr "action" (elemAttr e) (ReferenceAction p)) (PropertyValue p)
      else if String.eqb (elemLocal e) "Value"
      then mkWFSProperty (ValueReference p) (ReferenceAction p)
             (Some (valueUnmarshalXML (default (mkWFSValue "" []) (PropertyValue p)) e c))
      else p
  | _ => p
  end.

Definition decodeProperty (c : list xmlNode) : WFSProperty :=
  foldl propertyChild (mkWFSProperty "" "" None) c.

Definition inNamespace (space ns : string) : bool := String.eqb space "" || String.eqb space ns.

(** Only [Property] (of an update) and [Filter] may stand inside the action. *)
Fixpoint validateMutationChildren (inner : list xmlNode) (properties : bool) : option decodeErr :=
  match inner with
  | [] => None
  | Elem e _ :: rest =>
      if (String.eqb (elemLocal e) "Property" && properties && inNamespace (elemSpace e) NSWfs)
         || (String.eqb (elemLocal e) "Filter" && inNamespace (elemSpace e) NSFes)
      then validateMutationChildren rest properties
      else Some (UnsupportedChild (elemSpace e) (elemLocal e))
  | _ :: rest => validateMutationChildren rest properties
  end.

(** [WFSUpdate.UnmarshalXML]. *)
Definition decodeUpdate (e : xmlElement) (c : content) : decodeErr + WFSUpdate :=
  match resolvedInnerXML c with
  | inl err => inl err
  | inr inner =>
      match validateMutationChildren inner true with
      | Some err => inl err
      | None =>
          let props := flat_map (fun n => match n with
            | Elem p pc => if String.eqb (elemLocal p) "Property" then [decodeProperty pc] else []
            | _ => [] end) inner in
          inr (mkWFSUpdate (attrOf "handle" e) (attrOf "typeName" e) (attrOf "srsName" e) props inner)
      end
  end.

(** [WFSDelete.UnmarshalXML]. *)
Definition decodeDelete (e : xmlElement) (c : content) : decodeErr + WFSDelete :=
  match resolvedInnerXML c with
  | inl err => inl err
  | inr inner =>
      match validateMutationChildren inner false with
      | Some err => inl err
      | None => inr (mkWFSDelete (attrOf "handle" e) (attrOf "typeName" e) inner)
      end
  end.

(** [WFSReplace.UnmarshalXML]. *)
Definition decodeReplace (e : xmlElement) (c : content) : decodeErr + WFSReplace :=
  match resolvedInnerXML c with
  | inl err => inl err
  | inr inner => inr (mkWFSReplace (attrOf "handle" e) (attrOf "srsName" e) inner)
  end.

(** A boolean attribute: empty is false, otherwise [strconv.ParseBool] of the
    trimmed text. *)
Definition ParseBool (s : string) : option bool :=
  if existsb (String.eqb s) ["1"; "t"; "T"; "TRUE"; "true"; "True"] then Some true
  else if existsb (String.eqb s) ["0"; "f"; "F"; "FALSE"; "false"; "False"] then Some false
  else None.

(** Every occurrence of the attribute is parsed; the last one counts. *)
Fixpoint boolAttr (local : string) (attrs : list xmlAttr) (acc : bool) : option bool :=
  match attrs with
  | [] => Some acc
  | a :: rest =>
      if String.eqb (attrLocal a) local
      then if String.eqb (attrValue a) "" then boolAttr local rest false
           else match ParseBool (TrimSpace (attrValue a)) with
                | Some b => boolAttr local rest b
                | None => None
                end
      else boolAttr local rest acc
  end.

Definition decodeNative (e : xmlElement) (c : content) : decodeErr + WFSNativeElement :=
  match boolAttr "safeToIgnore" (elemAttr e) false, c with
  | None, _ => inl BadBool
  | Some _, None => inl SyntaxError
  | Some b, Some inner => inr (mkWFSNativeElement (attrOf "vendorId" e) b inner)
  end.

(** ** Decoding a transaction ([transaction_order.go]) *)

Inductive txToken : Type :=
| ActionStart (e : xmlElement) (c : content)
| TxEnd (space local : string)
| TxOther.

Definition emptyTransaction (start : xmlElement) : WFSTransaction :=
  mkWFSTransaction (elemSpace start, elemLocal start)
    (attrOf "version" start) (attrOf "service" start) (attrOf "handle" start) (attrOf "lockId" start)
    (attrOf "releaseAction" start) (attrOf "srsName" start) [] [] [] [] [] (Some []).

(** [tx.operations = append(tx.operations, op)] beside the append to a slice. *)
Definition addOperation (tx : WFSTransaction) (op : transactionOperation)
    (ins : list WFSInsert) (upd : list WFSUpdate) (del : list WFSDelete) (rep : list WFSReplace)
    : WFSTransaction :=
  mkWFSTransaction (XMLName tx) (Version tx) (TxService tx) (Handle tx) (LockId tx) (ReleaseAction tx)
    (SrsName tx) ins upd del rep (NativeElements tx)
    (Some (default [] (operations tx) ++ [op])).

(** One action element. *)
Definition decodeAction (tx : WFSTransaction) (e : xmlElement) (c : content) : decodeErr + WFSTransaction :=
  let ins := Inserts tx in let upd := Updates tx in let del := Deletes tx in let rep := Replaces tx in
  if negb (inNamespace (elemSpace e) NSWfs) then inl (BadActionNamespace (elemSpace e))
  else if String.eqb (elemLocal e) "Insert" then
    match decodeInsert e c with
    | inl err => inl err
    | inr v => inr (addOperation tx (mkOperation "Insert" (length ins)) (ins ++ [v]) upd del rep)
    end
  else if String.eqb (elemLocal e) "Update" then
    match decodeUpdate e c with
    | inl err => inl err
    | inr v => inr (addOperation tx (mkOperation "Update" (length upd)) ins (upd ++ [v]) del rep)
    end
  else if String.eqb (elemLocal e) "Delete" then
    match decodeDelete e c with
    | inl err => inl err
    | inr v => inr (addOperation tx (mkOperation "Delete" (length del)) ins upd (del ++ [v]) rep)
    end
  else if String.eqb (elemLocal e) "Replace" then
    match decodeReplace e c with
    | inl err => inl err
    | inr v => inr (addOperation tx (mkOperation "Replace" (length rep)) ins upd del (rep ++ [v]))
    end
  else if String.eqb (elemLocal e) "Native" then
    match decodeNative e c with
    | inl err => inl err
    | inr v => if SafeToIgnore v then inr tx else inl UnsupportedNative
    end
  else inl (UnsupportedAction (elemLocal e)).

(** The token loop. *)
Fixpoint decodeActions (start : xmlElement) (tx : WFSTransaction) (toks : list txToken)
    : decodeErr + WFSTransaction :=
  match toks with
  | [] => inl SyntaxError
  | ActionStart e c :: rest =>
      match decodeAction tx e c with
      | inl err => inl err
      | inr tx' => decodeActions start tx' rest
      end
  | TxEnd space local :: rest =>
      if String.eqb space (elemSpace start) && String.eqb local (elemLocal start)
      then inr tx else decodeActions start tx rest
  | TxOther :: rest => decodeActions start tx rest
  end.

Definition UnmarshalXML (start : xmlElement) (toks : list txToken) : decodeErr + WFSTransaction :=
  if negb (String.eqb (elemLocal start) "Transaction") || negb (inNamespace (elemSpace start) NSWfs)
  then inl NotATransaction
  else decodeActions start (emptyTransaction start) toks.

(** The order in which a transaction is executed: that of the document, or for a
    struct literal that of the slices. *)
Definition orderedOperations (tx : WFSTransaction) : list transactionOperation :=
  match operations tx with
  | Some ops => ops
  | None =>
      flat_map (fun '(name, size) => map (mkOperation name) (seq 0 size))
        [("Insert", length (Inserts tx)); ("Update", length (Updates tx));
         ("Delete", length (Deletes tx)); ("Replace", length (Replaces tx))]
  end.

(** [ParseTransactionRequest]: the exception it answers with, by code and
    locator. [None]: the body has no root element. *)
Inductive requestErr : Type :=
| OperationParsingFailed (cause : option decodeErr)
| InvalidService
| InvalidVersion.

Definition ParseTransactionRequest (body : option (xmlElement * list txToken))
    : requestErr + WFSTransaction :=
  match body with
  | None => inl (OperationParsingFailed None)
  | Some (start, toks) =>
      match UnmarshalXML start toks with
      | inl err => inl (OperationParsingFailed (Some err))
      | inr tx =>
          if negb (String.eqb (TxService tx) "") && negb (String.eqb (ToUpper (TxService tx)) "WFS")
          then inl InvalidService
          else if negb (String.eqb (Version tx) "") && negb (String.eqb (Version tx) "2.0.0")
                  && negb (String.eqb (Version tx) "2.0.2")
          then inl InvalidVersion
          else inr tx
      end
  end.

(** ** Execution ([executeTransactionWithWriter]) *)

Record versionEvent : Type := mkVersionEvent { action : string; layerName : string; featureID : string }.

Record Feature : Type := mkFeature { FeatureHandle : string; ResourceIds : list string }.

Record TransactionResponse : Type := mkTransactionResponse {
  ResponseVersion : string;
  TotalInserted : Z;
  TotalUpdated : Z;
  TotalReplaced : Z;
  TotalDeleted : Z;
  InsertResults : list Feature;
  UpdateResults : list Feature;
  ReplaceResults : list Feature;
  versionEvents : list versionEvent
}.

(** An action as the document has it. *)
Inductive txAction : Type :=
| DoInsert (v : WFSInsert)
| DoUpdate (v : WFSUpdate)
| DoDelete (v : WFSDelete)
| DoReplace (v : WFSReplace).

(** The cases of the executor's switch; another kind is passed over. *)
Definition knownKind (k : string) : bool :=
  existsb (String.eqb k) ["Insert"; "Update"; "Delete"; "Replace"].

(** [tx.<Kind>s[op.index]]; [None] where Go panics. *)
Definition actionAt (tx : WFSTransaction) (op : transactionOperation) : option txAction :=
  if String.eqb (kind op) "Insert" then DoInsert <$> Inserts tx !! index op
  else if String.eqb (kind op) "Update" then DoUpdate <$> Updates tx !! index op
  else if String.eqb (kind op) "Delete" then DoDelete <$> Deletes tx !! index op
  else if String.eqb (kind op) "Replace" then DoReplace <$> Replaces tx !! index op
  else None.

Definition inherit (srs inherited : string) : string := if String.eqb srs "" then inherited else srs.

(** [if len(ids) > 0] the results list is extended. *)
Definition addResult (results : list Feature) (handle : string) (ids : list string) : list Feature :=
  match ids with [] => results | _ => results ++ [mkFeature handle ids] end.

Inductive execErr (E : Type) : Type :=
| ActionFailed (e : E)
| IndexOutOfRange.
Arguments ActionFailed {E}. Arguments IndexOutOfRange {E}.

Section Execute.
(** [S] is the state of the source inside its transaction. A processor returns
    the identifiers of the affected features and the events it appends, or fails;
    the lock identifier of the transaction is passed on. *)
Context {S E : Type}.
Context (processInsert : WFSInsert -> M S E (list string * list versionEvent)).
Context (processUpdate : WFSUpdate -> string -> M S E (list string * list versionEvent)).
Context (processDelete : WFSDelete -> string -> M S E (Z * list versionEvent)).
Context (processReplace : WFSReplace -> string -> M S E (list string * list versionEvent)).

Definition lift {A} (m : M S E A) : M S (execErr E) A := fun s =>
  match m s with Ok r => Ok r | Err e => Err (ActionFailed e) | NoFuel => NoFuel end.

Definition process (tx : WFSTransaction) (r : TransactionResponse) (a : txAction)
    : M S (execErr E) TransactionResponse :=
  match a with
  | DoInsert v =>
      let v := mkWFSInsert (InsertHandle v) (InputFormat v) (inherit (InsertSrsName v) (SrsName tx)) (Features v) in
      '(ids, events) ← lift (processInsert v);
      mret (mkTransactionResponse (ResponseVersion r) (TotalInserted r + Z.of_nat (length ids)) (TotalUpdated r)
        (TotalReplaced r) (TotalDeleted r) (addResult (InsertResults r) (InsertHandle v) ids) (UpdateResults r)
        (ReplaceResults r) (versionEvents r ++ events))
  | DoUpdate v =>
      let v := mkWFSUpdate (UpdateHandle v) (UpdateTypeName v) (inherit (UpdateSrsName v) (SrsName tx))
                 (Properties v) (UpdateFilterRaw v) in
      '(ids, events) ← lift (processUpdate v (LockId tx));
      mret (mkTransactionResponse (ResponseVersion r) (TotalInserted r) (TotalUpdated r + Z.of_nat (length ids))
        (TotalReplaced r) (TotalDeleted r) (InsertResults r) (addResult (UpdateResults r) (UpdateHandle v) ids)
        (ReplaceResults r) (versionEvents r ++ events))
  | DoDelete v =>
      '(count, events) ← lift (processDelete v (LockId tx));
      mret (mkTransactionResponse (ResponseVersion r) (TotalInserted r) (TotalUpdated r) (TotalReplaced r)
        (TotalDeleted r + count) (InsertResults r) (UpdateResults r) (ReplaceResults r)
        (versionEvents r ++ events))
  | DoReplace v =>
      let v := mkWFSReplace (ReplaceHandle v) (inherit (ReplaceSrsName v) (SrsName tx)) (InnerXML v) in
      '(ids, events) ← lift (processReplace v (LockId tx));
      mret (mkTransactionResponse (ResponseVersion r) (TotalInserted r) (TotalUpdated r)
        (TotalReplaced r + Z.of_nat (length ids)) (TotalDeleted r) (InsertResults r) (UpdateResults r)
        (addResult (ReplaceResults r) (ReplaceHandle v) ids) (versionEvents r ++ events))
  end.

Definition emptyResponse (tx : WFSTransaction) : TransactionResponse :=
  mkTransactionResponse (if String.eqb (Version tx) "2.0.2" then Version tx else "2.0.0") 0 0 0 0 [] [] [] [].

Fixpoint executeOperations (tx : WFSTransaction) (r : TransactionResponse) (ops : list transactionOperation)
    : M S (execErr E) TransactionResponse :=
  match ops with
  | [] => mret r
  | op :: rest =>
      if knownKind (kind op) then
        match actionAt tx op with
        | None => mfail IndexOutOfRange
        | Some a => r' ← process tx r a; executeOperations tx r' rest
        end
      else executeOperations tx r rest
  end.

Definition executeTransactionWithWriter (tx : WFSTransaction) : M S (execErr E) TransactionResponse :=
  executeOperations tx (emptyResponse tx) (orderedOperations tx).

(** ** Specification: run the actions of the document one after the other *)
Fixpoint runActions (tx : WFSTransaction) (r : TransactionResponse) (acts : list txAction)
    : M S (execErr E) TransactionResponse :=
  match acts with
  | [] => mret r
  | a :: rest => r' ← process tx r a; runActions tx r' rest
  end.

Lemma actionAt_known tx op a : actionAt tx op = Some a -> knownKind (kind op) = true.
Proof.
  unfold actionAt, knownKind, existsb.
  repeat (destruct (String.eqb (kind op) _); [done|]). done.
Qed.

Lemma executeOperations_runActions tx acts r ops s :
  map (actionAt tx) ops = map Some acts -> executeOperations tx r ops s = runActions tx r acts s.
Proof.
  revert r acts s. induction ops as [|op ops IH]; intros r [|a acts] s; simpl; try done.
  intros [= Ha Hrest]. rewrite (actionAt_known _ _ _ Ha), Ha.
  unfold mbind, M_bind. destruct (process tx r a s) as [[r' s']| |]; try done. by apply IH.
Qed.
End Execute.

(** The action an element stands for, read on its own. *)
Definition elementAction (e : xmlElement) (c : content) : option txAction :=
  if String.eqb (elemLocal e) "Insert"
  then match decodeInsert e c with inr v => Some (DoInsert v) | inl _ => None end
  else if String.eqb (elemLocal e) "Update"
  then match decodeUpdate e c with inr v => Some (DoUpdate v) | inl _ => None end
  else if String.eqb (elemLocal e) "Delete"
  then match decodeDelete e c with inr v => Some (DoDelete v) | inl _ => None end
  else if String.eqb (elemLocal e) "Replace"
  then match decodeReplace e c with inr v => Some (DoReplace v) | inl _ => None end
  else None.

(** The actions of a document, in its order, up to the end tag of its root. *)
Fixpoint documentActions (start : xmlElement) (toks : list txToken) : list txAction :=
  match toks with
  | [] => []
  | ActionStart e c :: rest => option_list (elementAction e c) ++ documentActions start rest
  | TxEnd space local :: rest =>
      if String.eqb space (elemSpace start) && String.eqb local (elemLocal start)
      then [] else documentActions start rest
  | TxOther :: rest => documentActions start rest
  end.

(** The index of [tx] lists exactly [acts]. *)
Definition indexed (tx : WFSTransaction) (acts : list txAction) : Prop :=
  map (actionAt tx) (orderedOperations tx) = map Some acts /\ is_Some (operations tx).

(** [tx'] has the slices of [tx], extended. *)
Definition extends (tx tx' : WFSTransaction) : Prop :=
  Inserts tx `prefix_of` Inserts tx' /\ Updates tx `prefix_of` Updates tx'
  /\ Deletes tx `prefix_of` Deletes tx' /\ Replaces tx `prefix_of` Replaces tx'.

Lemma fmap_lookup_prefix {A} (f : A -> txAction) (l l' : list A) i a :
  l `prefix_of` l' -> f <$> l !! i = Some a -> f <$> l' !! i = Some a.
Proof.
  intros [k ->] H. apply fmap_Some in H as (x & Hx & ->). by rewrite (lookup_app_l_Some _ _ _ _ Hx).
Qed.

Lemma actionAt_extends tx tx' op a : extends tx tx' -> actionAt tx op = Some a -> actionAt tx' op = Some a.
Proof.
  intros (? & ? & ? & ?). unfold actionAt.
  repeat (destruct (String.eqb (kind op) _); [by apply fmap_lookup_prefix|]). done.
Qed.

Lemma indexed_extend tx tx' acts op a :
  indexed tx acts -> extends tx tx' -> operations tx' = Some (default [] (operations tx) ++ [op]) ->
  actionAt tx' op = Some a -> indexed tx' (acts ++ [a]).
Proof.
  unfold indexed, orderedOperations. intros [Hi [ops Eo]] Hx Eops Ha. rewrite Eops, Eo in *. simpl.
  split; [|done]. rewrite !map_app. f_equal; [|simpl; by rewrite Ha].
  rewrite <- Hi. apply map_ext_in. intros o Hin.
  assert (Hs : In (actionAt tx o) (map (actionAt tx) ops)) by (by apply in_map).
  rewrite Hi, in_map_iff in Hs. destruct Hs as (b & Hb & _). rewrite <- Hb.
  eauto using actionAt_extends.
Qed.

(** Appending one slice keeps the others. *)
Ltac tx_extends := by repeat split; simpl; first [apply prefix_app_r; reflexivity | reflexivity].

Lemma lookup_append {A} (f : A -> txAction) l x : f <$> (l ++ [x]) !! length l = Some (f x).
Proof. by rewrite list_lookup_middle. Qed.

Ltac tx_appended :=
  intros [= <-]; eapply indexed_extend; [done | tx_extends | done | apply lookup_append].

Lemma decodeAction_indexed tx e c tx' acts :
  decodeAction tx e c = inr tx' -> indexed tx acts ->
  indexed tx' (acts ++ option_list (elementAction e c)).
Proof.
  unfold decodeAction, elementAction. destruct (negb _); [done|]. intros Hd Hi. revert Hd.
  destruct (String.eqb (elemLocal e) "Insert"); [destruct (decodeInsert e c); [done|]; tx_appended|].
  destruct (String.eqb (elemLocal e) "Update"); [destruct (decodeUpdate e c); [done|]; tx_appended|].
  destruct (String.eqb (elemLocal e) "Delete"); [destruct (decodeDelete e c); [done|]; tx_appended|].
  destruct (String.eqb (elemLocal e) "Replace"); [destruct (decodeReplace e c); [done|]; tx_appended|].
  destruct (String.eqb (elemLocal e) "Native"); [|done].
  destruct (decodeNative e c) as [|v]; [done|]. destruct (SafeToIgnore v); [|done].
  intros [= <-]. simpl. by rewrite app_nil_r.
Qed.

Lemma decodeActions_indexed start toks tx tx' acts :
  decodeActions start tx toks = inr tx' -> indexed tx acts ->
  indexed tx' (acts ++ documentActions start toks).
Proof.
  revert tx acts. induction toks as [|[e c|space local|] toks IH]; intros tx acts; simpl; [done| | |].
  - destruct (decodeAction tx e c) as [|tx1] eqn:Ed; [done|]. intros Hd Hi. rewrite app_assoc.
    eapply IH; eauto using decodeAction_indexed.
  - destruct (_ && _); [|by apply IH]. intros [= <-]. by rewrite app_nil_r.
  - by apply IH.
Qed.

Lemma UnmarshalXML_indexed start toks tx :
  UnmarshalXML start toks = inr tx -> indexed tx (documentActions start toks).
Proof.
  unfold UnmarshalXML. destruct (_ || _); [done|]. intros Hd.
  apply (decodeActions_indexed _ _ _ _ [] Hd). by split.
Qed.

(** C31: a decoded transaction is executed in the order of its document. Whatever
    the processors of the actions do, executing the transaction that
    [UnmarshalXML] gives is running the actions of the document one after the
    other, ignorable [Native] elements left out: no index is out of range, each
    action is run once, and the first failure ends the execution with its error. *)
Theorem transaction_document_order {S E}
    (pi : WFSInsert -> M S E (list string * list versionEvent))
    (pu : WFSUpdate -> string -> M S E (list string * list versionEvent))
    (pd : WFSDelete -> string -> M S E (Z * list versionEvent))
    (pr : WFSReplace -> string -> M S E (list string * list versionEvent)) start toks tx s :
  UnmarshalXML start toks = inr tx ->
  executeTransactionWithWriter pi pu pd pr tx s
  = runActions pi pu pd pr tx (emptyResponse tx) (documentActions start toks) s.
Proof.
  intros Hu. apply executeOperations_runActions. by apply UnmarshalXML_indexed.
Qed.

(** The order of a struct literal: inserts, updates, deletes, replaces. *)
Lemma literal_order tx :
  operations tx = None ->
  map (actionAt tx) (orderedOperations tx)
  = map Some (map DoInsert (Inserts tx) ++ map DoUpdate (Updates tx) ++ map DoDelete (Deletes tx)
              ++ map DoReplace (Replaces tx)).
Proof.
  assert (Hseq : forall {A} (f : A -> txAction) (l : list A),
             map (fun i => f <$> l !! i) (seq 0 (length l)) = map Some (map f l)).
  { intros A f l. induction l as [|x l IH]; [done|]. simpl. f_equal.
    rewrite <- seq_shift, map_map. exact IH. }
  intros E. unfold orderedOperations. rewrite E. simpl.
  rewrite app_nil_r, !map_app, <- !Hseq. by rewrite !(map_map (mkOperation _)).
Qed.

(** A processor that records what it did. *)
Definition demoIds (name : string) : M (list string) string (list string * list versionEvent) :=
  fun s => Ok (([name], [mkVersionEvent name name name]), s ++ [name]).

Definition demoDelete : WFSDelete -> string -> M (list string) string (Z * list versionEvent) :=
  fun v _ s => Ok ((1, []), s ++ ["delete " +:+ DeleteTypeName v]).

Definition demoStart : xmlElement := mkElement NSWfs "Transaction" [mkAttr "" "version" "2.0.2"].

(** A delete, an ignorable native element, an insert, and a second delete. *)
Definition demoTokens : list txToken :=
  [ActionStart (mkElement NSWfs "Delete" [mkAttr "" "typeName" "roads"]) (Some [Elem (mkElement NSFes "Filter" []) []]);
   ActionStart (mkElement NSWfs "Native" [mkAttr "" "safeToIgnore" " true "]) (Some []);
   TxOther;
   ActionStart (mkElement NSWfs "Insert" []) (Some [Elem (mkElement "" "roads" []) [CharData "x"]]);
   ActionStart (mkElement "" "Delete" [mkAttr "" "typeName" "rails"]) (Some []);
   TxEnd NSWfs "Transaction"].

Lemma transaction_document_order_witness :
  let tx := match UnmarshalXML demoStart demoTokens with inr tx => tx | inl _ => emptyTransaction demoStart end in
  UnmarshalXML demoStart demoTokens = inr tx
  /\ match executeTransactionWithWriter (fun _ => demoIds "insert") (fun _ _ => demoIds "update")
            demoDelete (fun _ _ => demoIds "replace") tx [] with
     | Ok (r, s) => s = ["delete roads"; "insert"; "delete rails"] /\ TotalDeleted r = 2 /\ TotalInserted r = 1
     | _ => False
     end.
Proof.
  intros tx. assert (Hu : UnmarshalXML demoStart demoTokens = inr tx) by (vm_compute; reflexivity).
  split; [exact Hu|].
  rewrite (transaction_document_order _ _ _ _ demoStart demoTokens tx [] Hu).
  vm_compute. repeat split.
Defined.
