(* ===== verification/FeatureVersions.v ===== *)
(** * WFS feature versions
      ([internal/wfs/versioning.go], [version_batch.go], [internal/store/store_wfs_versions.go],
      [store_wfs_version_batch.go])

    The version history of each feature is kept in memory, bounded per workspace and
    per feature, and written through to a catalog table. A transaction's events are
    recorded under one lock; their table changes are collected and applied in one
    catalog transaction, with the upserts coalesced.

    Times are those of the catalog column. The loop over a Go map takes the order of
    [map_to_list]. *)

From S2P Require Import Prelude GoText Transaction.

Definition VersionStateValid : string := "valid".
Definition VersionStateSuperseded : string := "superseded".
Definition VersionStateRetired : string := "retired".

(** [FeatureVersion], and its row [store.WFSFeatureVersionRecord]. *)
Record FeatureVersion : Type := mkVersion {
  fvWorkspace : string; fvLayer : string; fvFeature : string;
  fvVersion : Z;
  fvPreviousRid : string;
  fvState : string;
  fvCreatedAt : Z;
  fvModifiedBy : string
}.

#[export] Instance FeatureVersion_eq_dec : EqDecision FeatureVersion.
Proof. solve_decision. Defined.

Definition set_state (v : FeatureVersion) (s : string) : FeatureVersion :=
  mkVersion (fvWorkspace v) (fvLayer v) (fvFeature v) (fvVersion v) (fvPreviousRid v) s (fvCreatedAt v) (fvModifiedBy v).

Definition isValid (v : FeatureVersion) : bool := String.eqb (fvState v) VersionStateValid.

(** ** The table *)

Abbreviation rowKey := (string * string * string * Z)%type.
Abbreviation table := (gmap rowKey FeatureVersion).

Definition keyOf (v : FeatureVersion) : rowKey := (fvWorkspace v, fvLayer v, fvFeature v, fvVersion v).

Record WFSVersionChange : Type := mkChange { chRecord : FeatureVersion; DeleteAll : bool; MinVersion : Z }.

Definition sameFeature (ws layer feature : string) (k : rowKey) : bool :=
  let '(w, l, f, _) := k in String.eqb w ws && String.eqb l layer && String.eqb f feature.

Definition PutWFSFeatureVersion (t : table) (v : FeatureVersion) : table := <[keyOf v := v]> t.

Definition DeleteWFSFeatureVersions (t : table) (ws layer feature : string) : table :=
  filter (fun kv => sameFeature ws layer feature kv.1 = false) t.

Definition DeleteWFSFeatureVersionsBelow (t : table) (ws layer feature : string) (minVersion : Z) : table :=
  filter (fun kv => sameFeature ws layer feature kv.1 && (kv.1.2 <? minVersion) = false) t.

Definition DeleteWorkspaceWFSFeatureVersions (t : table) (ws : string) : table :=
  filter (fun kv => kv.1.1.1.1 <> ws) t.

(** One change on its own. *)
Definition applyChange (t : table) (c : WFSVersionChange) : table :=
  let r := chRecord c in
  if DeleteAll c then DeleteWFSFeatureVersions t (fvWorkspace r) (fvLayer r) (fvFeature r)
  else if 0 <? MinVersion c then DeleteWFSFeatureVersionsBelow t (fvWorkspace r) (fvLayer r) (fvFeature r) (MinVersion c)
  else PutWFSFeatureVersion t r.

(** ** The batch ([ApplyWFSVersionChanges])

    [fails n] is the failure of the [n]-th statement of the catalog transaction. *)

Record batch : Type := mkBatch {
  bTable : table;
  pending : list FeatureVersion;
  indices : gmap rowKey nat;
  statements : nat
}.

Section Batch.
Context (fails : nat -> bool).

(** A statement of the transaction. *)
Definition exec (b : batch) (t : table) : option batch :=
  if fails (statements b) then None else Some (mkBatch t (pending b) (indices b) (S (statements b))).

Definition flush (b : batch) : option batch :=
  match pending b with
  | [] => Some b
  | _ =>
      b' ← exec b (foldl PutWFSFeatureVersion (bTable b) (pending b));
      Some (mkBatch (bTable b') [] ∅ (statements b'))
  end.

Definition batchStep (b : batch) (c : WFSVersionChange) : option batch :=
  let rec := chRecord c in
  if DeleteAll c || (0 <? MinVersion c) then
    b ← flush b;
    exec b (if DeleteAll c then DeleteWFSFeatureVersions (bTable b) (fvWorkspace rec) (fvLayer rec) (fvFeature rec)
            else DeleteWFSFeatureVersionsBelow (bTable b) (fvWorkspace rec) (fvLayer rec) (fvFeature rec) (MinVersion c))
  else
    let b :=
      match indices b !! keyOf rec with
      | Some index => mkBatch (bTable b) (<[index := rec]> (pending b)) (indices b) (statements b)
      | None =>
          mkBatch (bTable b) (pending b ++ [rec]) (<[keyOf rec := length (pending b)]> (indices b)) (statements b)
      end in
    if Nat.leb 2048 (length (pending b)) then flush b else Some b.

Fixpoint batchLoop (b : batch) (changes : list WFSVersionChange) : option batch :=
  match changes with
  | [] => flush b
  | c :: rest => b' ← batchStep b c; batchLoop b' rest
  end.

(** The table after the call: unchanged when a statement fails. *)
Definition ApplyWFSVersionChanges (t : table) (changes : list WFSVersionChange) : bool * table :=
  match batchLoop (mkBatch t [] ∅ 0) changes with
  | Some b => (true, bTable b)
  | None => (false, t)
  end.
End Batch.

(** ** The history in memory ([versioning.go])

    The methods run under the store's mutex; the changes they write through are
    returned in order. *)

Abbreviation history := (gmap string (list FeatureVersion)).

Record VersionStore : Type := mkVersionStore {
  versions : gmap string history;
  maxFeatures : nat;
  maxVersions : nat
}.

Definition NewVersionStore (maxFeatures maxVersions : Z) : VersionStore :=
  mkVersionStore ∅ (Z.to_nat (if maxFeatures <=? 0 then 100000 else maxFeatures))
    (Z.to_nat (if maxVersions <=? 0 then 100 else maxVersions)).

Definition featureKey (layerID featureID : string) : string := layerID +:+ ":" +:+ featureID.

Definition featuresOf (vs : VersionStore) (ws : string) : history := default ∅ (versions vs !! ws).

Definition put (v : FeatureVersion) : WFSVersionChange := mkChange v false 0.

Definition emptyRecord (ws layer feature : string) : FeatureVersion := mkVersion ws layer feature 0 "" "" 0 "".

Definition deleteAll (ws layer feature : string) : WFSVersionChange := mkChange (emptyRecord ws layer feature) true 0.
Definition deleteBelow (ws layer feature : string) (min : Z) : WFSVersionChange :=
  mkChange (emptyRecord ws layer feature) false min.

(** The loop that looks for the feature whose last version is the oldest. *)
Fixpoint findOldest (l : list (string * list FeatureVersion)) (oldestKey : string) (oldest : Z) : string :=
  match l with
  | [] => oldestKey
  | (candidate, vs) :: rest =>
      match last vs with
      | None => candidate
      | Some v =>
          if String.eqb oldestKey "" || (fvCreatedAt v <? oldest)
          then findOldest rest candidate (fvCreatedAt v)
          else findOldest rest oldestKey oldest
      end
  end.

Definition ensureFeatureCapacityLocked (maxFeatures : nat) (features : history) (key : string)
    : history * list WFSVersionChange :=
  if bool_decide (is_Some (features !! key)) || Nat.ltb (size features) maxFeatures then (features, [])
  else
    let oldestKey := findOldest (map_to_list features) "" 0 in
    let changes :=
      match features !! oldestKey with
      | Some (v :: _) => [deleteAll (fvWorkspace v) (fvLayer v) (fvFeature v)]
      | _ => []
      end in
    (delete oldestKey features, changes).

Definition with_features (vs : VersionStore) (ws : string) (features : history) : VersionStore :=
  mkVersionStore (<[ws := features]> (versions vs)) (maxFeatures vs) (maxVersions vs).

Definition recordInsertLocked (vs : VersionStore) (now : Z) (ws layer feature modifiedBy : string)
    : VersionStore * list WFSVersionChange :=
  let key := featureKey layer feature in
  let '(features, evicted) := ensureFeatureCapacityLocked (maxFeatures vs) (featuresOf vs ws) key in
  let version := mkVersion ws layer feature 1 "" VersionStateValid now modifiedBy in
  (with_features vs ws (<[key := [version]]> features), evicted ++ [put version]).

(** From the end: the last valid version becomes superseded. *)
Fixpoint supersedeLast (l : list FeatureVersion) : option (FeatureVersion * list FeatureVersion) :=
  match l with
  | [] => None
  | v :: rest =>
      match supersedeLast rest with
      | Some (s, rest') => Some (s, v :: rest')
      | None => if isValid v then let s := set_state v VersionStateSuperseded in Some (s, s :: rest) else None
      end
  end.

Definition recordUpdateLocked (vs : VersionStore) (now : Z) (ws layer feature modifiedBy : string)
    : VersionStore * list WFSVersionChange :=
  let key := featureKey layer feature in
  let '(features, evicted) := ensureFeatureCapacityLocked (maxFeatures vs) (featuresOf vs ws) key in
  let old := default [] (features !! key) in
  let '(old', number, previousRid, superseded) :=
    match supersedeLast old with
    | Some (s, old') =>
        (old', fvVersion s + 1, layer +:+ "." +:+ feature +:+ "@" +:+ pretty (fvVersion s), [put s])
    | None => (old, 0, "", [])
    end in
  let version :=
    mkVersion ws layer feature (if number =? 0 then 1 else number) previousRid VersionStateValid now modifiedBy in
  let all := old' ++ [version] in
  let kept := if Nat.ltb (maxVersions vs) (length all) then drop (length all - maxVersions vs) all else all in
  let trimmed :=
    if Nat.ltb (maxVersions vs) (length all)
    then match kept with first :: _ => [deleteBelow ws layer feature (fvVersion first)] | [] => [] end
    else [] in
  (with_features vs ws (<[key := kept]> features), evicted ++ superseded ++ trimmed ++ [put version]).

Definition retire (v : FeatureVersion) : FeatureVersion :=
  if isValid v then set_state v VersionStateRetired else v.

Definition recordDeleteLocked (vs : VersionStore) (ws layer feature : string) : VersionStore * list WFSVersionChange :=
  match versions vs !! ws with
  | None => (vs, [])
  | Some features =>
      let key := featureKey layer feature in
      match features !! key with
      | None => (vs, [])
      | Some l => (with_features vs ws (<[key := map retire l]> features), map (put ∘ retire) (List.filter isValid l))
      end
  end.

(** One event of a committed transaction, at its time. *)
Definition recordEvent (vs : VersionStore) (ws owner : string) (en : versionEvent * Z)
    : VersionStore * list WFSVersionChange :=
  let '(event, now) := en in
  if String.eqb (action event) "insert" then recordInsertLocked vs now ws (layerName event) (featureID event) owner
  else if String.eqb (action event) "update" then recordUpdateLocked vs now ws (layerName event) (featureID event) owner
  else if String.eqb (action event) "delete" then recordDeleteLocked vs ws (layerName event) (featureID event)
  else (vs, []).

Fixpoint recordAll (vs : VersionStore) (ws owner : string) (events : list (versionEvent * Z))
    : VersionStore * list WFSVersionChange :=
  match events with
  | [] => (vs, [])
  | e :: rest =>
      let '(vs1, c1) := recordEvent vs ws owner e in
      let '(vs2, c2) := recordAll vs1 ws owner rest in (vs2, c1 ++ c2)
  end.

(** The whole call with a catalog that takes batches. *)
Definition recordEvents (fails : nat -> bool) (vs : VersionStore) (t : table) (ws owner : string)
    (events : list (versionEvent * Z)) : VersionStore * table :=
  let '(vs', changes) := recordAll vs ws owner events in
  (vs', match changes with [] => t | _ => (ApplyWFSVersionChanges fails t changes).2 end).

Definition Clear (vs : VersionStore) (ws : string) : VersionStore :=
  mkVersionStore (delete ws (versions vs)) (maxFeatures vs) (maxVersions vs).

Definition restoreRecord (vs : VersionStore) (rec : FeatureVersion) : VersionStore :=
  let features := featuresOf vs (fvWorkspace rec) in
  let key := featureKey (fvLayer rec) (fvFeature rec) in
  with_features vs (fvWorkspace rec) (<[key := default [] (features !! key) ++ [rec]]> features).

Definition restore (vs : VersionStore) (records : list FeatureVersion) : VersionStore := foldl restoreRecord vs records.

(** ** Reading *)

Definition GetAllVersions (vs : VersionStore) (ws layer feature : string) : list FeatureVersion :=
  default [] (featuresOf vs ws !! featureKey layer feature).

(** [fmt.Sscanf(s, "%d", ...)]: leading blanks, a sign, the digits; what follows is
    ignored. *)
Definition scanInt (s : string) : option Z :=
  let s := sdrop (span_len (fun b => Ascii.eqb b " " || Ascii.eqb b "009") s) s in
  let sign := head_is "-" s || head_is "+" s in
  let digits := if sign then sdrop 1 s else s in
  Atoi ((if sign then stake 1 s else "") +:+ stake (span_len digit digits) digits).

Fixpoint lastValid (l : list FeatureVersion) : option FeatureVersion :=
  match l with
  | [] => None
  | v :: rest => match lastValid rest with Some w => Some w | None => if isValid v then Some v else None end
  end.

Definition GetVersion (vs : VersionStore) (ws layer feature versionSpec : string) : option FeatureVersion :=
  match GetAllVersions vs ws layer feature with
  | [] => None
  | l =>
      if String.eqb versionSpec "LAST" || String.eqb versionSpec "" then
        match lastValid l with Some v => Some v | None => last l end
      else if String.eqb versionSpec "FIRST" then head l
      else if String.eqb versionSpec "ALL" then None
      else n ← scanInt versionSpec; List.find (fun v => fvVersion v =? n) l
  end.

Definition GetValidVersion (vs : VersionStore) (ws layer feature : string) : option FeatureVersion :=
  GetVersion vs ws layer feature "LAST".

Record ResourceIdWithVersion : Type := mkRid { ridTypeName : string; ridLocalID : string; ridVersion : string }.

Definition ParseResourceIdWithVersion (rid : string) : option ResourceIdWithVersion :=
  let '(baseRid, version) :=
    match cutLast "@" rid with
    | Some (String b base, v) => (String b base, v)
    | _ => (rid, "LAST")
    end in
  match cut "." baseRid with
  | Some (String b typeName, localID) => Some (mkRid (String b typeName) localID version)
  | _ => None
  end.
