(* ===== verification/FeatureVersionsCorrect.v ===== *)
(** * Feature versions: the batch, the bounds and the restart

    The coalescing batch is equivalent to its changes one by one. Over histories in
    which features are inserted when they have no history and updated while they have
    a valid version, the table mirrors the memory, so a restart restores it. *)

From S2P Require Import Prelude GoText Transaction FeatureVersions.
From Stdlib Require Import Sorted.

(** ** The batch and its changes one by one *)

(** What the table holds once the pending upserts are in. *)
Definition effective (b : batch) : table := foldl PutWFSFeatureVersion (bTable b) (pending b).

(** [indices] finds the pending row of each key; the keys of one statement are
    distinct. *)
Definition batchInv (b : batch) : Prop :=
  NoDup (keyOf <$> pending b)
  /\ forall k i, indices b !! k = Some i <-> keyOf <$> pending b !! i = Some k.

Lemma foldl_put_fresh l t r :
  keyOf r ∉ keyOf <$> l ->
  foldl PutWFSFeatureVersion (PutWFSFeatureVersion t r) l = PutWFSFeatureVersion (foldl PutWFSFeatureVersion t l) r.
Proof.
  revert t. induction l as [|x l IH]; intros t Hk; [done|]. rewrite fmap_cons in Hk.
  apply not_elem_of_cons in Hk as [Hne Hk]. cbn [foldl]. rewrite <- IH by done. f_equal.
  unfold PutWFSFeatureVersion. by rewrite insert_insert_ne by congruence.
Qed.

Lemma put_put t x r : keyOf x = keyOf r -> PutWFSFeatureVersion (PutWFSFeatureVersion t x) r = PutWFSFeatureVersion t r.
Proof. intros E. unfold PutWFSFeatureVersion. rewrite E. apply insert_insert_eq. Qed.

Lemma foldl_put_replace l t i r :
  NoDup (keyOf <$> l) -> keyOf <$> l !! i = Some (keyOf r) ->
  foldl PutWFSFeatureVersion t (<[i := r]> l) = PutWFSFeatureVersion (foldl PutWFSFeatureVersion t l) r.
Proof.
  revert t i. induction l as [|x l IH]; intros t i Hnd Hi; [by rewrite lookup_nil in Hi|].
  rewrite fmap_cons in Hnd. apply NoDup_cons in Hnd as [Hx Hnd]. destruct i as [|i].
  - assert (Hk : keyOf x = keyOf r) by (cbn in Hi; congruence). cbn [insert list_insert foldl].
    rewrite !foldl_put_fresh by (by rewrite <- ?Hk). by rewrite put_put.
  - cbn. by apply IH.
Qed.

Lemma batchInv_empty t n : batchInv (mkBatch t [] ∅ n).
Proof.
  split; [constructor|]. intros k i. cbn. rewrite lookup_empty, lookup_nil. done.
Qed.

Section BatchCorrect.
Context (fails : nat -> bool).

Lemma flush_spec b b' :
  batchInv b -> flush fails b = Some b' ->
  batchInv b' /\ pending b' = [] /\ bTable b' = effective b.
Proof.
  intros Hb. unfold flush, effective. destruct (pending b) as [|r l] eqn:E.
  - intros [= <-]. by rewrite E.
  - unfold exec. destruct (fails _); [done|]. intros [= <-]. split; [apply batchInv_empty|done].
Qed.

Lemma batchInv_put b r :
  batchInv b -> indices b !! keyOf r = None ->
  batchInv (mkBatch (bTable b) (pending b ++ [r]) (<[keyOf r := length (pending b)]> (indices b)) (statements b)).
Proof.
  intros [Hnd Hix] Hr. split; cbn.
  - rewrite fmap_app. apply NoDup_app. split_and!; [done| |apply NoDup_singleton].
    intros k Hk Hs. apply list_elem_of_singleton in Hs as ->. apply list_elem_of_lookup in Hk as [i Hi].
    rewrite list_lookup_fmap in Hi. apply Hix in Hi. congruence.
  - intros k i. destruct (decide (k = keyOf r)) as [->|Hne].
    + rewrite lookup_insert_eq. split.
      * intros [= <-]. by rewrite list_lookup_middle.
      * destruct (decide (i < length (pending b))%nat) as [Hlt|Hge].
        -- rewrite lookup_app_l by done. rewrite <- Hix. congruence.
        -- destruct (decide (i = length (pending b))) as [->|Hgt]; [done|].
           rewrite lookup_ge_None_2 by (rewrite length_app; simpl; lia). done.
    + rewrite lookup_insert_ne by done. rewrite Hix.
      destruct (decide (i < length (pending b))%nat) as [Hlt|Hge]; [by rewrite lookup_app_l|].
      rewrite (lookup_ge_None_2 (pending b)) by lia. rewrite lookup_app_r by lia.
      destruct (i - length (pending b))%nat; [|done]. simpl. split; [done|]. congruence.
Qed.

Lemma batchStep_spec b c b' :
  batchInv b -> batchStep fails b c = Some b' ->
  batchInv b' /\ effective b' = applyChange (effective b) c.
Proof.
  intros Hb. unfold batchStep, applyChange.
  assert (Hdel : forall f : table -> table,
    (b1 ← flush fails b; exec fails b1 (f (bTable b1))) = Some b' -> batchInv b' /\ effective b' = f (effective b)).
  { intros f. destruct (flush fails b) as [b1|] eqn:E; [|done]. cbn. destruct (flush_spec b b1 Hb E) as (H1 & H2 & H3).
    unfold exec. destruct (fails _); [done|]. intros [= <-]. rewrite H3. split; [|unfold effective; cbn; by rewrite H2].
    destruct H1. by split. }
  destruct (DeleteAll c); cbn [orb].
  { apply (Hdel (fun t => DeleteWFSFeatureVersions t _ _ _)). }
  destruct (0 <? MinVersion c).
  { apply (Hdel (fun t => DeleteWFSFeatureVersionsBelow t _ _ _ _)). }
  set (b1 := match indices b !! keyOf (chRecord c) with Some _ => _ | None => _ end).
  assert (H1 : batchInv b1 /\ effective b1 = PutWFSFeatureVersion (effective b) (chRecord c)).
  { subst b1. destruct Hb as [Hnd Hix]. destruct (indices b !! keyOf (chRecord c)) as [i|] eqn:Ei.
    - apply Hix in Ei. split; [|by apply foldl_put_replace]. 
      assert (Hk : keyOf <$> <[i:=chRecord c]> (pending b) = keyOf <$> pending b).
      { rewrite list_fmap_insert. apply list_insert_id. by rewrite list_lookup_fmap. }
      split; cbn; [by rewrite Hk|]. intros k j. rewrite Hix, <- !list_lookup_fmap. by rewrite Hk.
    - split; [by apply batchInv_put|]. unfold effective. cbn. by rewrite foldl_app. }
  destruct H1 as [Hi He]. destruct (Nat.leb _ _).
  - intros Hf. destruct (flush_spec b1 b' Hi Hf) as (H1 & H2 & H3). split; [done|].
    rewrite <- He, <- H3. unfold effective. by rewrite H2.
  - by intros [= <-].
Qed.

Lemma batchLoop_spec cs b b' :
  batchInv b -> batchLoop fails b cs = Some b' -> bTable b' = foldl applyChange (effective b) cs.
Proof.
  revert b. induction cs as [|c cs IH]; intros b Hb; cbn [batchLoop foldl].
  - intros Hf. by destruct (flush_spec b b' Hb Hf) as (_ & _ & ->).
  - destruct (batchStep fails b c) as [b1|] eqn:E; [|done]. cbn. destruct (batchStep_spec b c b1 Hb E) as [H1 H2].
    intros Hl. rewrite <- H2. by apply IH.
Qed.

Lemma Apply_spec t cs ok t' :
  ApplyWFSVersionChanges fails t cs = (ok, t') -> t' = if ok then foldl applyChange t cs else t.
Proof.
  unfold ApplyWFSVersionChanges. destruct (batchLoop _ _ cs) as [b|] eqn:E; intros [= <- <-]; [|done].
  by apply (batchLoop_spec cs _ _ (batchInv_empty t 0)) in E.
Qed.
End BatchCorrect.

Lemma batch_total fails cs b : (forall n, fails n = false) -> exists b', batchLoop fails b cs = Some b'.
Proof.
  intros Hn.
  assert (Hf : forall b, exists b', flush fails b = Some b').
  { intros b0. unfold flush, exec. rewrite Hn. destruct (pending b0); eauto. }
  revert b. induction cs as [|c cs IH]; intros b; cbn [batchLoop]; [apply Hf|].
  assert (exists b1, batchStep fails b c = Some b1) as [b1 ->]; [|apply IH].
  unfold batchStep. destruct (DeleteAll c || _).
  - destruct (Hf b) as [b1 ->]. cbn. unfold exec. rewrite Hn. eauto.
  - destruct (Nat.leb _ _); eauto.
Qed.

(** C32: a batch of version changes is all or nothing and equivalent to its changes
    one by one, in their order: coalescing the upserts of a key and writing up to 2048
    of them in one statement changes nothing. Without a failing statement it is
    applied. *)
Theorem version_batch_equivalent fails t cs ok t' :
  ApplyWFSVersionChanges fails t cs = (ok, t') ->
  t' = (if ok then foldl applyChange t cs else t) /\ ((forall n, fails n = false) -> ok = true).
Proof.
  intros H. split; [by eapply Apply_spec|]. intros Hf.
  destruct (batch_total fails cs (mkBatch t [] ∅ 0) Hf) as [b' Hb']. unfold ApplyWFSVersionChanges in H.
  rewrite Hb' in H. by injection H as <-.
Qed.

Definition exVersion (n : Z) (state : string) : FeatureVersion := mkVersion "w" "roads" "7" n "" state n "ann".

(** Two upserts of one key around a trim. *)
Definition exChanges : list WFSVersionChange :=
  [put (exVersion 1 "valid"); put (exVersion 1 "superseded"); put (exVersion 2 "valid");
   deleteBelow "w" "roads" "7" 2; put (exVersion 3 "valid")].

Lemma version_batch_equivalent_witness :
  (ApplyWFSVersionChanges (fun _ => false) ∅ exChanges).2 = foldl applyChange ∅ exChanges
  /\ (ApplyWFSVersionChanges (fun _ => false) ∅ exChanges).1 = true.
Proof.
  destruct (ApplyWFSVersionChanges (fun _ => false) ∅ exChanges) as [ok t] eqn:E.
  destruct (version_batch_equivalent (fun _ => false) ∅ exChanges ok t E) as [Ht Hok].
  rewrite (Hok (fun _ => eq_refl)) in Ht. split; [exact Ht|exact (Hok (fun _ => eq_refl))].
Defined.

(** ** Histories *)

(** The versions of one feature, oldest first: numbered upwards, only the last one
    may be valid. *)
Definition before (a b : FeatureVersion) : Prop := fvVersion a < fvVersion b.

Record goodHistory (ws layer feature : string) (l : list FeatureVersion) : Prop := {
  gh_ident : Forall (fun v => fvWorkspace v = ws /\ fvLayer v = layer /\ fvFeature v = feature) l;
  gh_sorted : StronglySorted before l;
  gh_pos : Forall (fun v => 1 <= fvVersion v) l;
  gh_valid : Forall (fun v => isValid v = false) (removelast l)
}.

Definition versionAt (n : Z) (l : list FeatureVersion) : option FeatureVersion :=
  List.find (fun v => fvVersion v =? n) l.

Lemma sorted_lt l v w : StronglySorted before (l ++ [v]) -> w ∈ l -> fvVersion w < fvVersion v.
Proof.
  induction l as [|x l IH]; intros Hs Hw; [by apply elem_of_nil in Hw|].
  apply StronglySorted_inv in Hs as [Hs Hf]. apply elem_of_cons in Hw as [->|Hw]; [|by apply IH].
  rewrite Forall_forall in Hf. apply Hf, elem_of_app. right. by apply list_elem_of_singleton.
Qed.

Lemma sorted_snoc l v :
  StronglySorted before l -> (forall w, w ∈ l -> fvVersion w < fvVersion v) -> StronglySorted before (l ++ [v]).
Proof.
  induction 1 as [|x l Hs IH Hf]; intros Hv; [by repeat constructor|]. cbn. constructor.
  - apply IH. intros w Hw. apply Hv. by right.
  - apply Forall_app. split; [done|]. apply Forall_singleton, Hv. by left.
Qed.

Lemma sorted_app_inv l1 l2 : StronglySorted before (l1 ++ l2) ->
  StronglySorted before l1 /\ StronglySorted before l2 /\ forall a b, a ∈ l1 -> b ∈ l2 -> fvVersion a < fvVersion b.
Proof.
  induction l1 as [|x l1 IH]; cbn; intros Hs; [split_and!; [constructor|done|intros a b ?%elem_of_nil; done]|].
  apply StronglySorted_inv in Hs as [Hs Hf]. destruct (IH Hs) as (H1 & H2 & H3).
  apply Forall_app in Hf as [Hf1 Hf2]. split_and!; [by constructor|done|].
  intros a b [->|Ha]%elem_of_cons Hb; [|by apply H3]. by eapply Forall_forall in Hf2.
Qed.

Lemma versionAt_elem l n v : versionAt n l = Some v -> v ∈ l /\ fvVersion v = n.
Proof. intros [H1 H2%Z.eqb_eq]%List.find_some. by rewrite <- list_elem_of_In in H1. Qed.

Lemma versionAt_in l v : StronglySorted before l -> v ∈ l -> versionAt (fvVersion v) l = Some v.
Proof.
  induction 1 as [|x l Hs IH Hf]; [by intros ?%elem_of_nil|]. intros [->|Hv]%elem_of_cons; cbn; [by rewrite Z.eqb_refl|].
  eapply Forall_forall in Hf; [|done]. unfold before in Hf.
  destruct (Z.eqb_spec (fvVersion x) (fvVersion v)); [lia|]. by apply IH.
Qed.

Lemma versionAt_app l1 l2 n :
  versionAt n (l1 ++ l2) = match versionAt n l1 with Some v => Some v | None => versionAt n l2 end.
Proof. induction l1 as [|x l1 IH]; cbn; [done|]. by destruct (fvVersion x =? n). Qed.

Lemma versionAt_none l n : (forall v, v ∈ l -> fvVersion v <> n) -> versionAt n l = None.
Proof.
  intros H. destruct (versionAt n l) as [v|] eqn:E; [|done]. apply versionAt_elem in E as [Hv E]. by destruct (H v Hv).
Qed.

(** Two histories with the same versions are equal. *)
Lemma sorted_ext l l' :
  StronglySorted before l -> StronglySorted before l' -> (forall v, v ∈ l <-> v ∈ l') -> l = l'.
Proof.
  intros Hs. revert l'. induction Hs as [|x l Hs IH Hf]; intros l' Hs' H.
  - destruct l' as [|y l']; [done|]. exfalso. apply (not_elem_of_nil y), H. by left.
  - destruct l' as [|y l']; [exfalso; apply (not_elem_of_nil x), H; by left|].
    apply StronglySorted_inv in Hs' as [Hs' Hf']. rewrite Forall_forall in Hf, Hf'. unfold before in *.
    assert (x = y) as <-.
    { assert (x ∈ y :: l') as [E|Hx]%elem_of_cons by (apply H; by left); [done|].
      assert (y ∈ x :: l) as [E|Hy]%elem_of_cons by (apply H; by left); [done|]. specialize (Hf _ Hy). specialize (Hf' _ Hx). lia. }
    f_equal. apply IH; [done|]. intros v. specialize (H v). rewrite !elem_of_cons in H. split; intros Hv.
    + destruct (proj1 H) as [->|]; [by right| |done]. specialize (Hf _ Hv). lia.
    + destruct (proj2 H) as [->|]; [by right| |done]. specialize (Hf' _ Hv). lia.
Qed.

Lemma sorted_filter (R R' : relation FeatureVersion) (f : FeatureVersion -> bool) l :
  StronglySorted R l -> NoDup l ->
  (forall a b, a ∈ l -> b ∈ l -> f a = true -> f b = true -> a <> b -> R a b -> R' a b) ->
  StronglySorted R' (List.filter f l).
Proof.
  induction 1 as [|x l Hs IH Hf]; intros Hnd HR; [constructor|]. apply NoDup_cons in Hnd as [Hx Hnd].
  assert (IH' : StronglySorted R' (List.filter f l)) by (apply IH; [done|]; intros; apply HR; try done; by right).
  cbn. destruct (f x) eqn:Ex; [|done]. constructor; [done|]. apply Forall_forall. intros y Hy.
  rewrite list_elem_of_In, filter_In, <- list_elem_of_In in Hy. destruct Hy as [Hy Ey]. rewrite Forall_forall in Hf.
  apply HR; [by left|by right|done|done|by intros ->|by apply Hf].
Qed.

(** ** Keys *)

Lemma featureKey_inj layer feature layer' feature' :
  has_byte ":" feature = false -> has_byte ":" feature' = false ->
  featureKey layer feature = featureKey layer' feature' -> layer = layer' /\ feature = feature'.
Proof.
  intros H H' E. unfold featureKey in E. rewrite !sapp_cons, !sapp_nil_l in E.
  apply (f_equal (cutLast ":")) in E. rewrite !cutLast_app in E by done. by injection E as -> ->.
Qed.

(** ** The mirror *)

(** The keys of a workspace are those of its features, whose identifiers have no
    colon, and each has a history. *)
Definition goodStore (vs : VersionStore) : Prop := forall ws key l,
  featuresOf vs ws !! key = Some l ->
  exists layer feature, key = featureKey layer feature /\ has_byte ":" feature = false
    /\ goodHistory ws layer feature l /\ l <> [].

Definition mirrors (vs : VersionStore) (t : table) : Prop := forall ws layer feature n,
  t !! (ws, layer, feature, n)
  = if has_byte ":" feature then None else versionAt n (GetAllVersions vs ws layer feature).

(** Changes that touch one feature only. *)
Definition onFeature (ws layer feature : string) (c : WFSVersionChange) : Prop :=
  fvWorkspace (chRecord c) = ws /\ fvLayer (chRecord c) = layer /\ fvFeature (chRecord c) = feature.

Lemma sameFeature_spec ws l f w l' f' n :
  sameFeature ws l f (w, l', f', n) = true <-> (w, l', f') = (ws, l, f).
Proof.
  unfold sameFeature. rewrite !andb_true_iff, !String.eqb_eq. split; [by intros [[-> ->] ->]|by intros [= -> -> ->]].
Qed.

(** The row of a feature after a change. *)
Definition rowAfter (c : WFSVersionChange) (n : Z) (old : option FeatureVersion) : option FeatureVersion :=
  if DeleteAll c then None
  else if 0 <? MinVersion c then (if n <? MinVersion c then None else old)
  else if fvVersion (chRecord c) =? n then Some (chRecord c) else old.

Lemma applyChange_row ws l f c t n :
  onFeature ws l f c -> applyChange t c !! (ws, l, f, n) = rowAfter c n (t !! (ws, l, f, n)).
Proof.
  intros (Ew & El & Ef). unfold applyChange, rowAfter. rewrite Ew, El, Ef.
  assert (Hsame : sameFeature ws l f (ws, l, f, n) = true) by (by apply sameFeature_spec).
  destruct (DeleteAll c); [|destruct (0 <? MinVersion c)].
  - apply map_lookup_filter_None. right. intros v _. cbn [fst snd]. by rewrite Hsame.
  - unfold DeleteWFSFeatureVersionsBelow. destruct (n <? MinVersion c) eqn:En.
    + apply map_lookup_filter_None. right. intros v _. cbn [fst snd]. by rewrite Hsame, En.
    + destruct (t !! (ws, l, f, n)) as [v|] eqn:Et.
      * apply map_lookup_filter_Some. split; [done|]. cbn [fst snd]. by rewrite Hsame, En.
      * apply map_lookup_filter_None. by left.
  - unfold PutWFSFeatureVersion, keyOf. rewrite Ew, El, Ef. destruct (Z.eqb_spec (fvVersion (chRecord c)) n) as [->|Hne].
    + apply lookup_insert_eq.
    + apply lookup_insert_ne. congruence.
Qed.

Lemma applyChange_other ws l f c t k :
  onFeature ws l f c -> k.1 <> (ws, l, f) -> applyChange t c !! k = t !! k.
Proof.
  intros (Ew & El & Ef) Hk. destruct k as [[[w l'] f'] n]. cbn in Hk. unfold applyChange. rewrite Ew, El, Ef.
  assert (Hdiff : sameFeature ws l f (w, l', f', n) = false)
    by (apply not_true_iff_false; rewrite sameFeature_spec; congruence).
  destruct (DeleteAll c); [|destruct (0 <? MinVersion c)].
  - unfold DeleteWFSFeatureVersions. apply option_eq. intros v. rewrite map_lookup_filter_Some. cbn [fst snd]. rewrite Hdiff. tauto.
  - unfold DeleteWFSFeatureVersionsBelow. apply option_eq. intros v. rewrite map_lookup_filter_Some. cbn [fst snd].
    rewrite Hdiff. cbn [andb]. tauto.
  - unfold PutWFSFeatureVersion, keyOf. apply lookup_insert_ne. congruence.
Qed.

Lemma applyChanges_row ws l f cs t n :
  Forall (onFeature ws l f) cs ->
  foldl applyChange t cs !! (ws, l, f, n) = foldl (fun old c => rowAfter c n old) (t !! (ws, l, f, n)) cs.
Proof.
  intros H. revert t. induction H as [|c cs Hc _ IH]; intros t; [done|]. cbn. by rewrite IH, (applyChange_row _ _ _ _ _ _ Hc).
Qed.

Lemma applyChanges_other ws l f cs t k :
  Forall (onFeature ws l f) cs -> k.1 <> (ws, l, f) -> foldl applyChange t cs !! k = t !! k.
Proof.
  intros H Hk. revert t. induction H as [|c cs Hc _ IH]; intros t; [done|]. cbn. by rewrite IH, (applyChange_other _ _ _ _ _ _ Hc).
Qed.

(** ** The operations keep the mirror *)

Lemma featuresOf_with vs ws F w :
  featuresOf (with_features vs ws F) w = if decide (w = ws) then F else featuresOf vs w.
Proof.
  unfold featuresOf, with_features. cbn. destruct (decide (w = ws)) as [->|Hne].
  - by rewrite lookup_insert_eq.
  - by rewrite lookup_insert_ne.
Qed.

Lemma all_with vs ws F w layer feature :
  GetAllVersions (with_features vs ws F) w layer feature
  = if decide (w = ws) then default [] (F !! featureKey layer feature) else GetAllVersions vs w layer feature.
Proof. unfold GetAllVersions. rewrite featuresOf_with. by destruct (decide (w = ws)). Qed.

Lemma good_all vs ws layer feature :
  goodStore vs -> has_byte ":" feature = false -> goodHistory ws layer feature (GetAllVersions vs ws layer feature).
Proof.
  intros Hg Hf. unfold GetAllVersions. destruct (featuresOf vs ws !! _) as [l|] eqn:E; [|by repeat constructor].
  destruct (Hg _ _ _ E) as (layer' & feature' & Ek & Hf' & Hl & _). by destruct (featureKey_inj _ _ _ _ Hf Hf' Ek) as [-> ->].
Qed.

Definition good (vs : VersionStore) (t : table) : Prop := goodStore vs /\ mirrors vs t.

(** A new history of one feature, with the changes that lead to it. *)
Lemma good_set vs t ws layer feature new cs :
  good vs t -> has_byte ":" feature = false -> new <> [] -> goodHistory ws layer feature new ->
  Forall (onFeature ws layer feature) cs ->
  (forall n, foldl (fun old c => rowAfter c n old) (versionAt n (GetAllVersions vs ws layer feature)) cs = versionAt n new) ->
  good (with_features vs ws (<[featureKey layer feature := new]> (featuresOf vs ws))) (foldl applyChange t cs).
Proof.
  intros [Hg Hm] Hf Hne Hnew Hcs Hrow. split.
  - intros w key l. rewrite featuresOf_with. destruct (decide (w = ws)) as [->|]; [|apply Hg].
    destruct (decide (key = featureKey layer feature)) as [->|Hk].
    + rewrite lookup_insert_eq. intros [= <-]. by exists layer, feature.
    + rewrite lookup_insert_ne by done. apply Hg.
  - intros w layer' feature' n. destruct (decide ((w, layer', feature') = (ws, layer, feature))) as [[= -> -> ->]|Hne'].
    + rewrite (applyChanges_row _ _ _ _ _ _ Hcs), Hm, Hf, Hrow, all_with, decide_True by done. by rewrite lookup_insert_eq.
    + rewrite (applyChanges_other _ _ _ _ _ _ Hcs) by done. rewrite Hm. destruct (has_byte ":" feature') eqn:Hf'; [done|].
      rewrite all_with. destruct (decide (w = ws)) as [->|]; [|done]. rewrite lookup_insert_ne; [done|].
      intros E. apply featureKey_inj in E as [-> ->]; done.
Qed.

(** Making room. *)
Lemma good_capacity vs t ws maxF key F cs :
  good vs t -> ensureFeatureCapacityLocked maxF (featuresOf vs ws) key = (F, cs) ->
  good (with_features vs ws F) (foldl applyChange t cs)
  /\ (is_Some (featuresOf vs ws !! key) -> F = featuresOf vs ws)
  /\ (featuresOf vs ws !! key = None -> F !! key = None).
Proof.
  intros [Hg Hm]. unfold ensureFeatureCapacityLocked.
  assert (Hsame : good (with_features vs ws (featuresOf vs ws)) t).
  { split.
    - intros w k l. rewrite featuresOf_with. destruct (decide (w = ws)) as [->|]; apply Hg.
    - intros w l f n. rewrite Hm, all_with. by destruct (decide (w = ws)) as [->|]. }
  destruct (_ || _) eqn:E; [by intros [= <- <-]|]. apply orb_false_iff in E as [Ek _].
  apply bool_decide_eq_false in Ek. set (old := findOldest _ _ _). intros [= <- <-]. split_and!; [|done|].
  2:{ intros H. destruct (decide (old = key)) as [->|]; [apply lookup_delete_eq|by rewrite lookup_delete_ne]. }
  destruct (featuresOf vs ws !! old) as [l|] eqn:Eo.
  2:{ by rewrite delete_id. }
  destruct (Hg _ _ _ Eo) as (layer & feature & -> & Hf & Hl & Hne). destruct l as [|v l]; [done|].
  pose proof (gh_ident _ _ _ _ Hl) as Hid. apply Forall_cons in Hid as [(Ew & El & Ef) _]. rewrite Ew, El, Ef. split.
  - intros w k l'. rewrite featuresOf_with. destruct (decide (w = ws)) as [->|]; [|apply Hg].
    intros [_ H]%lookup_delete_Some. by apply Hg.
  - assert (Hc : Forall (onFeature ws layer feature) [deleteAll ws layer feature]) by (by apply Forall_singleton).
    intros w layer' feature' n. destruct (decide ((w, layer', feature') = (ws, layer, feature))) as [[= -> -> ->]|Hne'].
    + rewrite (applyChanges_row _ _ _ _ _ _ Hc), Hf, all_with, decide_True by done. by rewrite lookup_delete_eq.
    + rewrite (applyChanges_other _ _ _ _ _ _ Hc) by done. rewrite Hm. destruct (has_byte ":" feature') eqn:Hf'; [done|].
      rewrite all_with. destruct (decide (w = ws)) as [->|]; [|done]. rewrite lookup_delete_ne; [done|].
      intros E. apply featureKey_inj in E as [-> ->]; done.
Qed.

Lemma with_with vs ws F F' : with_features (with_features vs ws F) ws F' = with_features vs ws F'.
Proof. unfold with_features. cbn. by rewrite insert_insert_eq. Qed.

(** Making room and then setting a history. *)
Lemma good_after_capacity vs t ws layer feature F cs1 new cs2 :
  good vs t -> has_byte ":" feature = false -> new <> [] -> goodHistory ws layer feature new ->
  ensureFeatureCapacityLocked (maxFeatures vs) (featuresOf vs ws) (featureKey layer feature) = (F, cs1) ->
  Forall (onFeature ws layer feature) cs2 ->
  (forall n, foldl (fun old c => rowAfter c n old) (versionAt n (GetAllVersions vs ws layer feature)) cs2 = versionAt n new) ->
  good (with_features vs ws (<[featureKey layer feature := new]> F)) (foldl applyChange t (cs1 ++ cs2)).
Proof.
  intros Hgood Hf Hne Hnew Hcap Hcs Hrow. destruct (good_capacity _ _ _ _ _ _ _ Hgood Hcap) as (H1 & Hold & Hnone).
  assert (Hall : default [] (F !! featureKey layer feature) = GetAllVersions vs ws layer feature).
  { unfold GetAllVersions. destruct (featuresOf vs ws !! _) as [l|] eqn:E.
    - rewrite Hold, E by eauto. done.
    - by rewrite Hnone. }
  rewrite foldl_app, <- (with_with vs ws F). rewrite <- (decide_True (P := ws = ws) F (featuresOf vs ws)) at 2 by done.
  rewrite <- featuresOf_with. apply good_set; try done.
  intros n. rewrite all_with, decide_True, Hall by done. apply Hrow.
Qed.

Lemma versionAt_snoc l v n :
  StronglySorted before (l ++ [v]) -> versionAt n (l ++ [v]) = if fvVersion v =? n then Some v else versionAt n l.
Proof.
  intros Hs. rewrite versionAt_app. cbn. destruct (Z.eqb_spec (fvVersion v) n) as [<-|]; [|by destruct (versionAt n l)].
  rewrite versionAt_none; [done|]. intros w Hw. pose proof (sorted_lt _ _ _ Hs Hw). lia.
Qed.

Lemma supersedeLast_snoc l v :
  isValid v = true ->
  supersedeLast (l ++ [v]) = Some (set_state v VersionStateSuperseded, l ++ [set_state v VersionStateSuperseded]).
Proof. intros Hv. induction l as [|x l IH]; cbn; [by rewrite Hv|]. by rewrite IH. Qed.

Lemma goodHistory_snoc ws layer feature l v :
  Forall (fun x => fvWorkspace x = ws /\ fvLayer x = layer /\ fvFeature x = feature) (l ++ [v]) ->
  StronglySorted before (l ++ [v]) -> Forall (fun x => 1 <= fvVersion x) (l ++ [v]) ->
  Forall (fun x => isValid x = false) l -> goodHistory ws layer feature (l ++ [v]).
Proof. intros. split; [done..|]. by rewrite removelast_last. Qed.

(** A suffix of a history. *)
Lemma goodHistory_suffix ws layer feature d first rest :
  goodHistory ws layer feature (d ++ first :: rest) ->
  goodHistory ws layer feature (first :: rest)
  /\ forall n, versionAt n (first :: rest) = if n <? fvVersion first then None else versionAt n (d ++ first :: rest).
Proof.
  intros [Hid Hs Hp Hv]. apply Forall_app in Hid as [_ Hid], Hp as [_ Hp].
  pose proof (sorted_app_inv _ _ Hs) as (_ & Hs2 & Hlt). rewrite removelast_app in Hv by done.
  apply Forall_app in Hv as [_ Hv]. split; [by split|]. intros n.
  pose proof (StronglySorted_inv Hs2) as [_ Hf]. rewrite Forall_forall in Hf. unfold before in Hf.
  destruct (Z.ltb_spec n (fvVersion first)).
  - apply versionAt_none. intros v [->|Hin]%elem_of_cons; [lia|]. specialize (Hf _ Hin). lia.
  - rewrite versionAt_app, (versionAt_none d); [done|]. intros v Hin.
    pose proof (Hlt v first Hin ltac:(by left)). lia.
Qed.

(** The shape of a history that has a valid version. *)
Lemma goodHistory_valid ws layer feature l v :
  goodHistory ws layer feature l -> last l = Some v ->
  exists init, l = init ++ [v] /\ Forall (fun x => isValid x = false) init.
Proof.
  intros Hl Hlast. apply last_Some in Hlast as [init ->]. exists init. split; [done|].
  destruct Hl as [_ _ _ Hv]. by rewrite removelast_last in Hv.
Qed.

Section Operations.
Context (vs : VersionStore) (t : table) (ws layer feature owner : string) (now : Z).
Context (Hgood : good vs t) (Hcolon : has_byte ":" feature = false) (HmaxV : (0 < maxVersions vs)%nat).
Abbreviation key := (featureKey layer feature).

Definition firstVersion : FeatureVersion := mkVersion ws layer feature 1 "" VersionStateValid now owner.

Lemma first_good : goodHistory ws layer feature [firstVersion].
Proof. by split; repeat constructor. Qed.

Lemma absent_all : featuresOf vs ws !! key = None -> GetAllVersions vs ws layer feature = [].
Proof. intros E. unfold GetAllVersions. by rewrite E. Qed.

Lemma good_first F cs :
  featuresOf vs ws !! key = None -> ensureFeatureCapacityLocked (maxFeatures vs) (featuresOf vs ws) key = (F, cs) ->
  good (with_features vs ws (<[key := [firstVersion]]> F)) (foldl applyChange t (cs ++ [put firstVersion])).
Proof.
  intros Ha Hcap. eapply good_after_capacity; [done..|apply first_good|done|by apply Forall_singleton|].
  intros n. rewrite absent_all by done. done.
Qed.

Lemma good_insert :
  featuresOf vs ws !! key = None ->
  let r := recordInsertLocked vs now ws layer feature owner in good r.1 (foldl applyChange t r.2).
Proof.
  intros Ha. unfold recordInsertLocked. destruct (ensureFeatureCapacityLocked _ _ _) as [F cs] eqn:E. by apply good_first.
Qed.

(** An update of the history [init ++ [x]] whose last version is valid. *)
Section Update.
Context (init : list FeatureVersion) (x : FeatureVersion).
Context (Hold : GetAllVersions vs ws layer feature = init ++ [x]).

Definition superseded : FeatureVersion := set_state x VersionStateSuperseded.
Definition nextVersion : FeatureVersion :=
  mkVersion ws layer feature (fvVersion x + 1) (layer +:+ "." +:+ feature +:+ "@" +:+ pretty (fvVersion x))
    VersionStateValid now owner.
Definition appended : list FeatureVersion := (init ++ [superseded]) ++ [nextVersion].

Lemma appended_good :
  goodHistory ws layer feature appended
  /\ (forall n, rowAfter (put superseded) n (versionAt n (init ++ [x])) = versionAt n (init ++ [superseded]))
  /\ onFeature ws layer feature (put superseded) /\ 1 <= fvVersion x.
Proof.
  pose proof (good_all vs ws layer feature (proj1 Hgood) Hcolon) as Hl. rewrite Hold in Hl.
  destruct Hl as [Hid Hs Hp Hv]. rewrite removelast_last in Hv.
  apply Forall_app in Hid as [Hid0 [Hid1 _]%Forall_cons], Hp as [Hp0 [Hp1 _]%Forall_cons].
  assert (Hs1 : StronglySorted before (init ++ [superseded])).
  { apply sorted_snoc; [by destruct (sorted_app_inv _ _ Hs)|]. intros w Hw. by apply (sorted_lt _ _ _ Hs). }
  assert (Hs2 : StronglySorted before appended).
  { apply sorted_snoc; [done|]. intros w [Hw|Hw]%elem_of_app.
    - pose proof (sorted_lt _ _ _ Hs1 Hw). cbn in *. lia.
    - apply list_elem_of_singleton in Hw as ->. cbn. lia. }
  split_and!; [|..|exact Hp1]; [|intros n|exact Hid1].
  - apply goodHistory_snoc; [|done| |].
    + repeat (apply Forall_app; split); [done|apply Forall_singleton; exact Hid1|by apply Forall_singleton].
    + repeat (apply Forall_app; split); [done|apply Forall_singleton; exact Hp1|apply Forall_singleton; cbn; lia].
    + apply Forall_app. split; [done|by apply Forall_singleton].
  - rewrite !versionAt_snoc by done. unfold rowAfter. cbn. by destruct (fvVersion x =? n).
Qed.

Lemma onFeature_next : onFeature ws layer feature (put nextVersion).
Proof. done. Qed.

(** The rows of the new history, where [first] is the first version kept. *)
Lemma trimmed_rows d first rest :
  appended = d ++ first :: rest ->
  goodHistory ws layer feature (first :: rest)
  /\ forall n, foldl (fun old c => rowAfter c n old) (versionAt n (init ++ [x]))
                 [put superseded; deleteBelow ws layer feature (fvVersion first); put nextVersion]
               = versionAt n (first :: rest).
Proof.
  intros Eall. destruct appended_good as (Hall & Hput & _ & _). pose proof (gh_sorted _ _ _ _ Hall) as Hs.
  pose proof Hall as Hall'. rewrite Eall in Hall'. destruct (goodHistory_suffix _ _ _ _ _ _ Hall') as [Hk Hat].
  split; [done|]. intros n. cbn [foldl]. rewrite Hput, Hat, <- Eall. unfold appended in *. rewrite (versionAt_snoc _ nextVersion) by done.
  unfold rowAfter at 1 2. cbn [put deleteBelow DeleteAll MinVersion chRecord Z.ltb Z.compare].
  pose proof (gh_pos _ _ _ _ Hk) as [Hpos _]%Forall_cons. rewrite (proj2 (Z.ltb_lt 0 (fvVersion first))) by lia.
  destruct (Z.eqb_spec (fvVersion nextVersion) n) as [<-|]; [|done].
  assert (Hin : nextVersion ∈ first :: rest).
  { apply (f_equal last) in Eall. rewrite last_snoc, last_app_cons in Eall.
    by apply last_Some_elem_of. }
  destruct (Z.ltb_spec (fvVersion nextVersion) (fvVersion first)); [|done]. exfalso.
  apply elem_of_cons in Hin as [E|Hin]; [rewrite E in *; lia|].
  pose proof (StronglySorted_inv (gh_sorted _ _ _ _ Hk)) as [_ Hf]. rewrite Forall_forall in Hf.
  specialize (Hf _ Hin). unfold before in Hf. lia.
Qed.

Lemma good_update_valid F cs :
  ensureFeatureCapacityLocked (maxFeatures vs) (featuresOf vs ws) key = (F, cs) ->
  let kept := if Nat.ltb (maxVersions vs) (length appended)
              then drop (length appended - maxVersions vs) appended else appended in
  let trimmed := if Nat.ltb (maxVersions vs) (length appended)
                 then match kept with v :: _ => [deleteBelow ws layer feature (fvVersion v)] | [] => [] end else [] in
  good (with_features vs ws (<[key := kept]> F))
    (foldl applyChange t (cs ++ [put superseded] ++ trimmed ++ [put nextVersion])).
Proof.
  intros Hcap kept trimmed. destruct appended_good as (Hall & Hput & Hs & Hpos).
  subst kept trimmed. destruct (Nat.ltb_spec (maxVersions vs) (length appended)) as [Hlt|_].
  - destruct (drop _ appended) as [|first rest] eqn:Ek.
    { apply (f_equal length) in Ek. rewrite length_drop in Ek. simpl in Ek. lia. }
    destruct (trimmed_rows (take (length appended - maxVersions vs) appended) first rest) as [Hk Hrows];
      [by rewrite <- Ek, take_drop|].
    eapply good_after_capacity; [done..| |].
    + by repeat (apply Forall_cons_2; [done|]); apply Forall_nil_2.
    + intros n. rewrite Hold. apply Hrows.
  - eapply good_after_capacity; [done|done|by unfold appended; destruct init|done|done| |].
    + by repeat (apply Forall_cons_2; [done|]); apply Forall_nil_2.
    + intros n. rewrite Hold. cbn [app foldl]. rewrite Hput. unfold appended.
      by rewrite (versionAt_snoc _ nextVersion) by apply Hall.
Qed.
End Update.
End Operations.

(** ** Regular histories and the restart *)

(** An event that follows the life of a feature: inserted without a history, updated
    with a valid version or without a history. *)
Definition regular (vs : VersionStore) (ws : string) (e : versionEvent) : Prop :=
  has_byte ":" (featureID e) = false
  /\ (action e = "insert" -> featuresOf vs ws !! featureKey (layerName e) (featureID e) = None)
  /\ (action e = "update" -> forall l, featuresOf vs ws !! featureKey (layerName e) (featureID e) = Some l ->
        exists v, last l = Some v /\ isValid v = true).

Lemma good_update vs t ws layer feature owner now :
  good vs t -> has_byte ":" feature = false -> (0 < maxVersions vs)%nat ->
  (forall l, featuresOf vs ws !! featureKey layer feature = Some l -> exists v, last l = Some v /\ isValid v = true) ->
  let r := recordUpdateLocked vs now ws layer feature owner in good r.1 (foldl applyChange t r.2).
Proof.
  intros Hgood Hf HmaxV Hreg. unfold recordUpdateLocked.
  destruct (ensureFeatureCapacityLocked _ _ _) as [F cs] eqn:Ecap.
  destruct (good_capacity _ _ _ _ _ _ _ Hgood Ecap) as (_ & Hsome & Hnone).
  destruct (featuresOf vs ws !! featureKey layer feature) as [l|] eqn:El.
  - destruct (Hreg l eq_refl) as (x & Hlast & Hx). rewrite Hsome, El in * by eauto.
    pose proof (good_all vs ws layer feature (proj1 Hgood) Hf) as Hl.
    assert (Hall : GetAllVersions vs ws layer feature = l) by (unfold GetAllVersions; by rewrite El). rewrite Hall in Hl.
    destruct (goodHistory_valid _ _ _ _ _ Hl Hlast) as (init & -> & _).
    cbn [default from_option id]. rewrite supersedeLast_snoc by done.
    pose proof (good_update_valid vs t ws layer feature owner now Hgood Hf HmaxV init x Hall _ _ Ecap) as Hres.
    destruct (appended_good vs t ws layer feature owner now Hgood Hf HmaxV init x Hall) as (_ & _ & _ & Hpos).
    cbn [fvVersion set_state]. rewrite (proj2 (Z.eqb_neq (fvVersion x + 1) 0)) by lia. exact Hres.
  - rewrite Hnone by done. assert (Nat.ltb (maxVersions vs) 1 = false) as Hlt by (apply Nat.ltb_ge; lia).
    cbn [default from_option id supersedeLast app length Z.eqb fst snd]. rewrite Hlt. cbn [app]. by apply (good_first vs t ws layer feature owner now Hgood Hf).
Qed.

Lemma retire_invalid l : Forall (fun v => isValid v = false) l -> map retire l = l /\ List.filter isValid l = [].
Proof.
  induction 1 as [|v l Hv _ [IH1 IH2]]; [done|]. cbn. unfold retire at 1. by rewrite Hv, IH1, IH2.
Qed.

Lemma good_delete vs t ws layer feature :
  good vs t -> has_byte ":" feature = false ->
  let r := recordDeleteLocked vs ws layer feature in good r.1 (foldl applyChange t r.2).
Proof.
  intros Hgood Hf. unfold recordDeleteLocked. destruct (versions vs !! ws) as [F|] eqn:EF; [|done].
  assert (HF : featuresOf vs ws = F) by (unfold featuresOf; by rewrite EF).
  destruct (F !! featureKey layer feature) as [l|] eqn:El; [|done]. cbn.
  assert (Hall : GetAllVersions vs ws layer feature = l) by (unfold GetAllVersions; by rewrite HF, El).
  pose proof (good_all vs ws layer feature (proj1 Hgood) Hf) as Hl. rewrite Hall in Hl.
  destruct (proj1 Hgood ws (featureKey layer feature) l) as (_ & _ & _ & _ & _ & Hne); [by rewrite HF|].
  destruct (last l) as [x|] eqn:Elast; [|by apply last_None in Elast].
  destruct (goodHistory_valid _ _ _ _ _ Hl Elast) as (init & -> & Hinit).
  destruct (retire_invalid init Hinit) as [E1 E2]. rewrite map_app, List.filter_app, E1, E2. cbn [map app List.filter].
  destruct Hl as [Hid Hs Hp _]. apply Forall_app in Hid as [Hid0 [Hid1 _]%Forall_cons], Hp as [Hp0 [Hp1 _]%Forall_cons].
  assert (Hr : fvWorkspace (retire x) = ws /\ fvLayer (retire x) = layer /\ fvFeature (retire x) = feature
               /\ fvVersion (retire x) = fvVersion x) by (destruct Hid1 as (? & ? & ?); unfold retire; by destruct (isValid x)).
  destruct Hr as (R1 & R2 & R3 & R4).
  assert (Hs' : StronglySorted before (init ++ [retire x])).
  { apply sorted_snoc; [by destruct (sorted_app_inv _ _ Hs)|]. intros w Hw. rewrite R4. by apply (sorted_lt _ _ _ Hs). }
  rewrite <- HF. apply good_set; [done|done|by destruct init| | |].
  - apply goodHistory_snoc; [|done| |done]; apply Forall_app; (split; [done|]); apply Forall_singleton; [done|lia].
  - destruct (isValid x); [by apply Forall_singleton|apply Forall_nil_2].
  - intros n. rewrite Hall, !versionAt_snoc by done. rewrite R4. destruct (isValid x) eqn:Hx; cbn [map foldl].
    + unfold rowAfter. cbn. rewrite R4. by destruct (fvVersion x =? n).
    + unfold retire. by rewrite Hx.
Qed.

Lemma good_event vs t ws owner e now :
  good vs t -> (0 < maxVersions vs)%nat -> regular vs ws e ->
  let r := recordEvent vs ws owner (e, now) in good r.1 (foldl applyChange t r.2) /\ maxVersions r.1 = maxVersions vs.
Proof.
  intros Hgood HmaxV (Hf & Hins & Hupd). cbn. destruct (String.eqb_spec (action e) "insert") as [E|_].
  { split; [by apply good_insert; auto|]. unfold recordInsertLocked. by destruct (ensureFeatureCapacityLocked _ _ _). }
  destruct (String.eqb_spec (action e) "update") as [E|_].
  { split; [by apply good_update; auto|]. unfold recordUpdateLocked. destruct (ensureFeatureCapacityLocked _ _ _).
    by destruct (supersedeLast _) as [[]|]. }
  destruct (String.eqb_spec (action e) "delete") as [E|_]; [|done].
  split; [by apply good_delete|]. unfold recordDeleteLocked. by repeat case_match.
Qed.

Fixpoint regularAll (vs : VersionStore) (ws owner : string) (events : list (versionEvent * Z)) : Prop :=
  match events with
  | [] => True
  | e :: rest => regular vs ws e.1 /\ regularAll (recordEvent vs ws owner e).1 ws owner rest
  end.

Lemma good_all_events vs t ws owner events :
  good vs t -> (0 < maxVersions vs)%nat -> regularAll vs ws owner events ->
  let r := recordAll vs ws owner events in good r.1 (foldl applyChange t r.2) /\ maxVersions r.1 = maxVersions vs.
Proof.
  revert vs t. induction events as [|[e now] events IH]; intros vs t Hgood HmaxV; [done|]. intros [He Hrest].
  destruct (good_event vs t ws owner e now Hgood HmaxV He) as [H1 H2]. cbn [recordAll].
  cbn [fst] in Hrest. destruct (recordEvent vs ws owner (e, now)) as [vs1 c1]. cbn [fst snd] in *.
  specialize (IH vs1 (foldl applyChange t c1) H1 ltac:(lia) Hrest).
  destruct (recordAll vs1 ws owner events) as [vs2 c2]. cbn [fst snd] in *. rewrite foldl_app, H2 in *. done.
Qed.

(** The states reached by transactions whose events are regular and whose catalog
    writes succeed, and by clearing workspaces. *)
Inductive reachable (maxF maxV : Z) : VersionStore -> table -> Prop :=
| reach_new : reachable maxF maxV (NewVersionStore maxF maxV) ∅
| reach_record vs t ws owner events vs' t' :
    reachable maxF maxV vs t -> regularAll vs ws owner events ->
    recordEvents (fun _ => false) vs t ws owner events = (vs', t') -> reachable maxF maxV vs' t'
| reach_clear vs t ws :
    reachable maxF maxV vs t -> reachable maxF maxV (Clear vs ws) (DeleteWorkspaceWFSFeatureVersions t ws).

Lemma good_clear vs t ws : good vs t -> good (Clear vs ws) (DeleteWorkspaceWFSFeatureVersions t ws).
Proof.
  assert (HF : forall w, featuresOf (Clear vs ws) w = if decide (w = ws) then ∅ else featuresOf vs w).
  { intros w. unfold featuresOf, Clear. cbn. destruct (decide (w = ws)) as [->|]; [by rewrite lookup_delete_eq|].
    by rewrite lookup_delete_ne. }
  intros [Hg Hm]. split.
  - intros w key l. rewrite HF. destruct (decide (w = ws)); [by rewrite lookup_empty|apply Hg].
  - intros w layer feature n. unfold DeleteWorkspaceWFSFeatureVersions, GetAllVersions. rewrite HF.
    destruct (decide (w = ws)) as [->|Hne].
    + rewrite lookup_empty. cbn. destruct (has_byte _ _); apply map_lookup_filter_None; right; intros v _; cbn; tauto.
    + fold (GetAllVersions vs w layer feature). rewrite <- Hm. apply option_eq. intros v.
      rewrite map_lookup_filter_Some. cbn. tauto.
Qed.

Lemma reachable_good maxF maxV vs t : reachable maxF maxV vs t -> good vs t /\ (0 < maxVersions vs)%nat.
Proof.
  induction 1 as [|vs t ws owner events vs' t' _ [IH1 IH2] Hreg Hrec|vs t ws _ [IH1 IH2]].
  - split; [split|].
    + intros ws key l. unfold featuresOf. cbn. rewrite lookup_empty. cbn. by rewrite lookup_empty.
    + intros ws layer feature n. unfold GetAllVersions, featuresOf. cbn. rewrite !lookup_empty. cbn.
      rewrite lookup_empty. by destruct (has_byte _ _).
    + cbn. destruct (Z.leb_spec maxV 0); lia.
  - unfold recordEvents in Hrec. destruct (good_all_events vs t ws owner events IH1 IH2 Hreg) as [H1 H2].
    destruct (recordAll vs ws owner events) as [vs1 cs]. cbn [fst snd] in *. injection Hrec as <- <-.
    rewrite H2. split; [|done]. destruct cs as [|c cs]; [done|].
    destruct (batch_total (fun _ => false) (c :: cs) (mkBatch t [] ∅ 0) (fun _ => eq_refl)) as [b Hb].
    unfold ApplyWFSVersionChanges. rewrite Hb. cbn [snd].
    by rewrite (batchLoop_spec _ _ _ _ (batchInv_empty t 0) Hb).
  - split; [by apply good_clear|done].
Qed.

(** [ListWFSFeatureVersions]: the rows, the versions of one feature in order. *)
Definition rowLe (a b : FeatureVersion) : Prop :=
  (fvWorkspace a, fvLayer a, fvFeature a) = (fvWorkspace b, fvLayer b, fvFeature b) -> fvVersion a <= fvVersion b.

Definition listing (t : table) (records : list FeatureVersion) : Prop :=
  records ≡ₚ (map_to_list t).*2 /\ StronglySorted rowLe records.

Definition ofKey (ws key : string) (r : FeatureVersion) : bool :=
  String.eqb (fvWorkspace r) ws && String.eqb (featureKey (fvLayer r) (fvFeature r)) key.

Lemma restore_spec maxF maxV records ws key :
  featuresOf (restore (NewVersionStore maxF maxV) records) ws !! key
  = match List.filter (ofKey ws key) records with [] => None | l => Some l end.
Proof.
  induction records as [|r records IH] using rev_ind.
  - unfold featuresOf. cbn. rewrite lookup_empty. cbn. by rewrite lookup_empty.
  - unfold restore in *. rewrite foldl_app, List.filter_app. cbn [foldl List.filter]. unfold restoreRecord at 1. cbn zeta.
    set (vs := foldl restoreRecord _ records) in *. rewrite featuresOf_with. unfold ofKey at 2.
    destruct (decide (ws = fvWorkspace r)) as [->|Hne].
    + rewrite String.eqb_refl. cbn [andb]. destruct (String.eqb_spec (featureKey (fvLayer r) (fvFeature r)) key) as [<-|Hk].
      * rewrite lookup_insert_eq, IH. by destruct (List.filter _ records).
      * rewrite lookup_insert_ne by done. by rewrite IH, app_nil_r.
    + apply not_eq_sym, String.eqb_neq in Hne. rewrite Hne. cbn [andb]. by rewrite IH, app_nil_r.
Qed.

Section Restart.
Context (vs : VersionStore) (t : table) (records : list FeatureVersion).
Context (Hgood : good vs t) (Hlist : listing t records).

(** A row is a version of the feature it names. *)
Lemma row_version r : r ∈ records ->
  has_byte ":" (fvFeature r) = false /\ r ∈ GetAllVersions vs (fvWorkspace r) (fvLayer r) (fvFeature r).
Proof.
  intros Hr. destruct Hlist as [Hp _]. rewrite Hp in Hr. apply list_elem_of_fmap in Hr as ([k v] & -> & Hkv). cbn.
  apply elem_of_map_to_list in Hkv. destruct k as [[[w l] f] n]. destruct Hgood as [Hg Hm]. rewrite Hm in Hkv.
  destruct (has_byte ":" f) eqn:Hf; [done|]. pose proof (good_all vs w l f Hg Hf) as Hh.
  apply versionAt_elem in Hkv as [Hin _]. pose proof (gh_ident _ _ _ _ Hh) as Hid. rewrite Forall_forall in Hid.
  by destruct (Hid _ Hin) as (-> & -> & ->).
Qed.

Lemma version_row ws layer feature v : has_byte ":" feature = false ->
  v ∈ GetAllVersions vs ws layer feature -> v ∈ records.
Proof.
  intros Hf Hv. destruct Hgood as [Hg Hm], Hlist as [Hp _]. rewrite Hp. apply list_elem_of_fmap.
  pose proof (good_all vs ws layer feature Hg Hf) as Hh.
  exists ((ws, layer, feature, fvVersion v), v). split; [done|]. apply elem_of_map_to_list. rewrite Hm, Hf.
  apply versionAt_in; [apply Hh|done].
Qed.

Lemma records_nodup : NoDup records.
Proof.
  destruct Hlist as [Hp _]. rewrite Hp. apply NoDup_fmap_2_strong; [|apply NoDup_map_to_list].
  intros [k v] [k' v'] Hk Hk' E. cbn in E. subst v'. f_equal.
  assert (Hkey : forall k, (k, v) ∈ map_to_list t -> k = keyOf v).
  { clear k k' Hk Hk'. intros k Hk%elem_of_map_to_list. destruct k as [[[w l] f] n]. destruct Hgood as [Hg Hm].
    rewrite Hm in Hk. destruct (has_byte ":" f) eqn:Hf; [done|]. apply versionAt_elem in Hk as [Hin <-].
    pose proof (gh_ident _ _ _ _ (good_all vs w l f Hg Hf)) as Hid. rewrite Forall_forall in Hid.
    destruct (Hid _ Hin) as (<- & <- & <-). done. }
  by rewrite (Hkey k Hk), (Hkey k' Hk').
Qed.

(** The rows of one feature, in order. *)
Lemma filtered_sorted ws layer feature :
  has_byte ":" feature = false -> StronglySorted before (List.filter (ofKey ws (featureKey layer feature)) records).
Proof.
  intros Hf. destruct Hlist as [_ Hs]. apply (sorted_filter rowLe); [done|apply records_nodup|].
  intros a b Ha Hb [Ea1%String.eqb_eq Ea2%String.eqb_eq]%andb_true_iff [Eb1%String.eqb_eq Eb2%String.eqb_eq]%andb_true_iff Hne Hle.
  destruct (row_version a Ha) as [Ca Va], (row_version b Hb) as [Cb Vb].
  apply featureKey_inj in Ea2 as [La Fa], Eb2 as [Lb Fb]; [|done..].
  assert (fvVersion a <= fvVersion b) by (apply Hle; congruence). unfold before.
  destruct (Z.eq_dec (fvVersion a) (fvVersion b)) as [E|]; [|lia]. exfalso. apply Hne.
  rewrite Ea1, La, Fa in Va. rewrite Eb1, Lb, Fb in Vb.
  pose proof (gh_sorted _ _ _ _ (good_all vs ws layer feature (proj1 Hgood) Hf)) as Hss.
  pose proof (versionAt_in _ _ Hss Va) as V1. pose proof (versionAt_in _ _ Hss Vb) as V2. congruence.
Qed.

Lemma restored maxF maxV ws key :
  featuresOf (restore (NewVersionStore maxF maxV) records) ws !! key = featuresOf vs ws !! key.
Proof.
  rewrite restore_spec. destruct (featuresOf vs ws !! key) as [l|] eqn:E.
  - destruct (proj1 Hgood _ _ _ E) as (layer & feature & -> & Hf & Hl & Hne).
    assert (Hall : GetAllVersions vs ws layer feature = l) by (unfold GetAllVersions; by rewrite E).
    assert (List.filter (ofKey ws (featureKey layer feature)) records = l) as ->; [|by destruct l].
    apply sorted_ext; [by apply filtered_sorted|apply Hl|]. intros v.
    rewrite list_elem_of_In, filter_In, <- list_elem_of_In. split.
    + intros [Hv [E1%String.eqb_eq E2%String.eqb_eq]%andb_true_iff]. destruct (row_version v Hv) as [Hc Hin].
      apply featureKey_inj in E2 as [E2 E3]; [|done..]. by rewrite E1, E2, E3, Hall in Hin.
    + intros Hv. split; [apply (version_row ws layer feature); [done|by rewrite Hall]|].
      pose proof (gh_ident _ _ _ _ Hl) as Hid. rewrite Forall_forall in Hid. destruct (Hid _ Hv) as (<- & <- & <-).
      unfold ofKey. by rewrite !String.eqb_refl.
  - destruct (List.filter (ofKey ws key) records) as [|r l] eqn:Ef; [done|]. exfalso.
    assert (Hr : r ∈ List.filter (ofKey ws key) records) by (rewrite Ef; by left).
    rewrite list_elem_of_In, filter_In, <- list_elem_of_In in Hr.
    destruct Hr as [Hr [E1%String.eqb_eq E2%String.eqb_eq]%andb_true_iff]. destruct (row_version r Hr) as [_ Hin].
    unfold GetAllVersions in Hin. rewrite E1, E2, E in Hin. by apply elem_of_nil in Hin.
Qed.
End Restart.

(** After any regular transactions and clearings the catalog table holds exactly
    the histories in memory, so a new process that reads it back has, for every
    workspace and feature, the history the old one had. *)
Theorem version_restart maxF maxV vs t records ws key :
  reachable maxF maxV vs t -> listing t records ->
  featuresOf (restore (NewVersionStore maxF maxV) records) ws !! key = featuresOf vs ws !! key.
Proof. intros [Hgood _]%reachable_good Hlist. by apply (restored vs t). Qed.

Definition exEvents : list (versionEvent * Z) :=
  [(mkVersionEvent "insert" "app:roads" "7", 10); (mkVersionEvent "update" "app:roads" "7", 20);
   (mkVersionEvent "delete" "app:roads" "9", 30)].

Definition exHistory : list FeatureVersion :=
  [mkVersion "w" "app:roads" "7" 1 "" "superseded" 10 "ann";
   mkVersion "w" "app:roads" "7" 2 "app:roads.7@1" "valid" 20 "ann"].

Definition exRecorded : VersionStore * table :=
  recordEvents (fun _ => false) (NewVersionStore 5 5) ∅ "w" "ann" exEvents.

Lemma version_restart_witness :
  featuresOf (restore (NewVersionStore 5 5) exHistory) "w" !! "app:roads:7" = Some exHistory.
Proof.
  rewrite (version_restart 5 5 exRecorded.1 exRecorded.2).
  - vm_compute. reflexivity.
  - apply (reach_record 5 5 (NewVersionStore 5 5) ∅ "w" "ann" exEvents); [apply reach_new| |apply surjective_pairing].
    split; [|split; [|split; [|exact I]]]; (split; [reflexivity|]); split; try discriminate.
    + intros _. vm_compute. reflexivity.
    + intros _ l Hl. vm_compute in Hl. injection Hl as <-. eexists. split; reflexivity.
  - split; [vm_compute; apply perm_swap || reflexivity|].
    repeat constructor; unfold rowLe; cbn; lia.
Defined.

(** ** Bounds, for all events *)

(** A workspace has at most [maxFeatures] histories, each with at most
    [maxVersions] versions of which only the last may be valid. *)
Definition bounded (vs : VersionStore) : Prop := forall ws,
  (size (featuresOf vs ws) <= maxFeatures vs)%nat
  /\ forall key l, featuresOf vs ws !! key = Some l ->
       key <> "" /\ l <> [] /\ (length l <= maxVersions vs)%nat /\ Forall (fun v => isValid v = false) (removelast l).

Lemma findOldest_in l ok old :
  Forall (fun kv => kv.1 <> "") l -> findOldest l ok old = ok /\ (ok = "" -> l = []) \/ findOldest l ok old ∈ l.*1.
Proof.
  intros H. revert ok old. induction H as [|[k v] l Hk _ IH]; intros ok old; [by left|]. cbn [findOldest].
  destruct (last v) as [x|]; [|right; by left]. destruct (String.eqb_spec ok "") as [->|Hne]; cbn [orb].
  - right. cbn. destruct (IH k (fvCreatedAt x)) as [[-> _]|Hin]; [by left|by right].
  - destruct (_ <? old).
    + right. cbn. destruct (IH k (fvCreatedAt x)) as [[-> _]|Hin]; [by left|by right].
    + destruct (IH ok old) as [[-> _]|Hin]; [by left|right; by right].
Qed.

Lemma capacity_size maxF (F0 : history) key F cs :
  (0 < maxF)%nat -> (size F0 <= maxF)%nat -> (forall k l, F0 !! k = Some l -> k <> "") ->
  ensureFeatureCapacityLocked maxF F0 key = (F, cs) ->
  (forall l, (size (<[key := l]> F) <= maxF)%nat) /\ forall k l, F !! k = Some l -> F0 !! k = Some l.
Proof.
  intros Hpos Hsize Hkeys. unfold ensureFeatureCapacityLocked.
  destruct (bool_decide (is_Some (F0 !! key))) eqn:Ek; cbn [orb].
  { intros [= <- <-]. split; [|done]. intros l. apply bool_decide_eq_true in Ek. by rewrite map_size_insert_Some. }
  apply bool_decide_eq_false, eq_None_not_Some in Ek. destruct (Nat.ltb_spec (size F0) maxF) as [Hlt|Hge].
  { intros [= <- <-]. split; [|done]. intros l. rewrite map_size_insert_None by done. lia. }
  intros [= <- <-]. set (old := findOldest _ _ _). split; [|by intros k l [_ H]%lookup_delete_Some].
  assert (Hin : is_Some (F0 !! old)).
  { assert (HF : Forall (fun kv => kv.1 <> "") (map_to_list F0)).
    { apply Forall_forall. intros [k l] Hkl%elem_of_map_to_list. by apply (Hkeys k l). }
    destruct (findOldest_in (map_to_list F0) "" 0 HF) as [[_ E]|Hin].
    - specialize (E eq_refl). apply map_to_list_empty_iff in E. rewrite E, map_size_empty in Hge. lia.
    - apply list_elem_of_fmap in Hin as ([k l] & E & Hkl%elem_of_map_to_list). subst old. rewrite E. eauto. }
  intros l. rewrite map_size_insert_None.
  - rewrite map_size_delete_Some by done. lia.
  - destruct (decide (old = key)) as [->|]; [apply lookup_delete_eq|by rewrite lookup_delete_ne].
Qed.

Lemma bounded_set vs ws key new F :
  bounded vs -> (size (<[key := new]> F) <= maxFeatures vs)%nat ->
  (forall k l, F !! k = Some l -> featuresOf vs ws !! k = Some l) ->
  key <> "" -> new <> [] -> (length new <= maxVersions vs)%nat -> Forall (fun v => isValid v = false) (removelast new) ->
  bounded (with_features vs ws (<[key := new]> F)).
Proof.
  intros Hb Hs Hsub Hk Hne Hlen Hv w. rewrite featuresOf_with. destruct (decide (w = ws)) as [->|]; [|apply Hb].
  split; [done|]. intros k l. destruct (decide (k = key)) as [->|]; [rewrite lookup_insert_eq; by intros [= <-]|].
  rewrite lookup_insert_ne by done. intros Hl%Hsub. by apply (Hb ws).
Qed.

Lemma featureKey_ne layer feature : featureKey layer feature <> "".
Proof. unfold featureKey. by destruct layer. Qed.

Lemma removelast_drop {A} (P : A -> Prop) n (l : list A) : Forall P (removelast l) -> Forall P (removelast (drop n l)).
Proof.
  revert l. induction n as [|n IH]; intros l Hl; [done|]. destruct l as [|x l]; [done|]. cbn. apply IH.
  destruct l; [constructor|]. by apply Forall_cons in Hl as [_ Hl].
Qed.

Lemma superseded_invalid l s l' :
  Forall (fun v => isValid v = false) (removelast l) -> supersedeLast l = Some (s, l') ->
  Forall (fun v => isValid v = false) l'.
Proof.
  revert s l'. induction l as [|v l IH]; intros s l'; [done|]. cbn [supersedeLast].
  destruct l as [|w l].
  - cbn. destruct (isValid v) eqn:Ev; [|done]. intros _ [= <- <-]. by apply Forall_singleton.
  - change (removelast (v :: w :: l)) with (v :: removelast (w :: l)). intros [Hv Hl]%Forall_cons.
    destruct (supersedeLast (w :: l)) as [[s' l1]|] eqn:E; [|by rewrite Hv]. intros [= <- <-].
    constructor; [done|by eapply IH].
Qed.

Lemma none_valid l : supersedeLast l = None -> Forall (fun v => isValid v = false) l.
Proof.
  induction l as [|v l IH]; [constructor|]. cbn. destruct (supersedeLast l) as [[]|]; [done|].
  destruct (isValid v) eqn:Ev; [done|]. intros _. constructor; [done|by apply IH].
Qed.

Section BoundedEvents.
Context (vs : VersionStore) (ws : string).
Context (Hb : bounded vs) (HF : (0 < maxFeatures vs)%nat) (HV : (0 < maxVersions vs)%nat).

Lemma bounded_keys k l : featuresOf vs ws !! k = Some l -> k <> "".
Proof. intros H. by destruct (proj2 (Hb ws) _ _ H). Qed.

Lemma bounded_insert now layer feature owner : bounded (recordInsertLocked vs now ws layer feature owner).1.
Proof.
  unfold recordInsertLocked. destruct (ensureFeatureCapacityLocked _ _ _) as [F cs] eqn:Ec.
  destruct (capacity_size _ _ _ _ _ HF (proj1 (Hb ws)) bounded_keys Ec) as [Hs Hsub].
  by apply bounded_set; [..|apply featureKey_ne| |cbn; lia|].
Qed.

(** What is kept of a history and a new version. *)
Lemma kept_bounded (l : list FeatureVersion) v :
  Forall (fun x => isValid x = false) l ->
  let all := l ++ [v] in
  let kept := if Nat.ltb (maxVersions vs) (length all) then drop (length all - maxVersions vs) all else all in
  kept <> [] /\ (length kept <= maxVersions vs)%nat /\ Forall (fun x => isValid x = false) (removelast kept).
Proof.
  intros Hl all kept. subst kept. assert (Hr : Forall (fun x => isValid x = false) (removelast all))
    by (subst all; by rewrite removelast_last).
  destruct (Nat.ltb_spec (maxVersions vs) (length all)).
  - split_and!; [|rewrite length_drop; lia|by apply removelast_drop].
    intros E%(f_equal length). rewrite length_drop in E. simpl in E. lia.
  - split_and!; [subst all; by destruct l|done|done].
Qed.

Lemma bounded_update now layer feature owner : bounded (recordUpdateLocked vs now ws layer feature owner).1.
Proof.
  unfold recordUpdateLocked. destruct (ensureFeatureCapacityLocked _ _ _) as [F cs] eqn:Ec.
  destruct (capacity_size _ _ _ _ _ HF (proj1 (Hb ws)) bounded_keys Ec) as [Hs Hsub].
  set (old := default [] (F !! _)).
  assert (Hold : Forall (fun v => isValid v = false) (removelast old)).
  { subst old. destruct (F !! _) as [l|] eqn:El; [|constructor]. by destruct (proj2 (Hb ws) _ _ (Hsub _ _ El)) as (_ & _ & _ & ?). }
  set (r := match supersedeLast old with Some (s, old') => _ | None => _ end).
  assert (Hr : Forall (fun v => isValid v = false) r.1.1.1).
  { subst r. destruct (supersedeLast old) as [[s old']|] eqn:Es; [by eapply superseded_invalid|by apply none_valid]. }
  destruct r as [[[old' number] previousRid] superseded]. cbn [fst snd] in *.
  match goal with |- context [old' ++ [?v]] => destruct (kept_bounded old' v Hr) as (K1 & K2 & K3) end.
  apply bounded_set; [done|apply Hs|done|apply featureKey_ne|done..].
Qed.

Lemma retired_invalid l : Forall (fun v => isValid v = false) (removelast (map retire l)).
Proof.
  apply Forall_forall. intros v Hv. assert (Hin : In v (map retire l)).
  { rewrite list_elem_of_In in Hv. destruct (map retire l) as [|x l'] eqn:E; [done|].
    rewrite (app_removelast_last x (l := x :: l')) by done. apply in_or_app. by left. }
  apply in_map_iff in Hin as (w & <- & _). unfold retire. destruct (isValid w) eqn:Ew; [done|exact Ew].
Qed.

Lemma bounded_delete layer feature : bounded (recordDeleteLocked vs ws layer feature).1.
Proof.
  unfold recordDeleteLocked. destruct (versions vs !! ws) as [F|] eqn:EF; [|done].
  assert (HF' : featuresOf vs ws = F) by (unfold featuresOf; by rewrite EF).
  destruct (F !! _) as [l|] eqn:El; [|done]. rewrite <- HF' in *.
  destruct (proj2 (Hb ws) _ _ El) as (Hk & Hne & Hlen & _). apply bounded_set; try done.
  - rewrite map_size_insert_Some by eauto. apply Hb.
  - by destruct l.
  - by rewrite length_map.
  - apply retired_invalid.
Qed.

Lemma bounded_event owner e :
  let vs' := (recordEvent vs ws owner e).1 in
  bounded vs' /\ maxFeatures vs' = maxFeatures vs /\ maxVersions vs' = maxVersions vs.
Proof.
  destruct e as [e now]. cbn. destruct (String.eqb (action e) "insert").
  { split; [apply bounded_insert|]. unfold recordInsertLocked. by destruct (ensureFeatureCapacityLocked _ _ _). }
  destruct (String.eqb (action e) "update").
  { split; [apply bounded_update|]. unfold recordUpdateLocked. destruct (ensureFeatureCapacityLocked _ _ _).
    by destruct (supersedeLast _) as [[]|]. }
  destruct (String.eqb (action e) "delete"); [|done].
  split; [apply bounded_delete|]. unfold recordDeleteLocked. by repeat case_match.
Qed.
End BoundedEvents.

(** A sequence of transactions with their workspace and author. *)
Fixpoint recordCalls (vs : VersionStore) (calls : list (string * string * list (versionEvent * Z))) : VersionStore :=
  match calls with
  | [] => vs
  | (ws, owner, events) :: rest => recordCalls (recordAll vs ws owner events).1 rest
  end.

(** Whatever events are recorded, a workspace keeps at most [maxFeatures]
    histories and a feature at most [maxVersions] versions (the oldest are given up);
    no history is empty, and no version but the last one of a feature is valid. *)
Theorem version_store_bounded maxF maxV calls : bounded (recordCalls (NewVersionStore maxF maxV) calls).
Proof.
  assert (H0 : bounded (NewVersionStore maxF maxV)).
  { intros ws. unfold featuresOf. cbn. rewrite lookup_empty. cbn. rewrite map_size_empty. split; [lia|].
    intros key l. by rewrite lookup_empty. }
  assert (HF : (0 < maxFeatures (NewVersionStore maxF maxV))%nat) by (cbn; destruct (Z.leb_spec maxF 0); lia).
  assert (HV : (0 < maxVersions (NewVersionStore maxF maxV))%nat) by (cbn; destruct (Z.leb_spec maxV 0); lia).
  revert H0 HF HV. generalize (NewVersionStore maxF maxV). induction calls as [|[[ws owner] events] calls IH]; [done|].
  intros vs Hb HF HV. cbn [recordCalls].
  assert (H : forall evs vs, bounded vs -> (0 < maxFeatures vs)%nat -> (0 < maxVersions vs)%nat ->
    let vs' := (recordAll vs ws owner evs).1 in
    bounded vs' /\ (0 < maxFeatures vs')%nat /\ (0 < maxVersions vs')%nat).
  { clear. induction evs as [|e evs IH]; intros vs Hb HF HV; [done|]. cbn [recordAll].
    destruct (bounded_event vs ws Hb HF HV owner e) as (H1 & H2 & H3).
    destruct (recordEvent vs ws owner e) as [vs1 c1]. cbn [fst] in *. specialize (IH vs1 H1 ltac:(lia) ltac:(lia)).
    by destruct (recordAll vs1 ws owner evs). }
  destruct (H events vs Hb HF HV) as (H1 & H2 & H3). by apply IH.
Qed.

(** ** Irregular histories *)

Definition exReinsert : list (versionEvent * Z) :=
  [(mkVersionEvent "insert" "roads" "7", 1); (mkVersionEvent "update" "roads" "7", 2);
   (mkVersionEvent "delete" "roads" "7", 3); (mkVersionEvent "insert" "roads" "7", 4)].

(** Inserting a feature again starts a new history in memory and leaves the rows of
    the old one in the table: a restart brings them back. *)
Example reinsert_leaves_rows :
  let r := recordAll (NewVersionStore 5 5) "w" "ann" exReinsert in
  (fvVersion <$> GetAllVersions r.1 "w" "roads" "7") = [1]
  /\ (map (fun v => (fvVersion v, fvState v)) (map_to_list (foldl applyChange ∅ r.2)).*2)
     ≡ₚ [(1, "valid"); (2, "retired")].
Proof. split; vm_compute; [reflexivity|]. apply perm_swap || reflexivity. Qed.

(** An update of a feature that has no valid version starts at version 1 again: the
    history is not sorted by its version numbers. *)
Example update_after_delete_restarts :
  let r := recordAll (NewVersionStore 5 5) "w" "ann"
             [(mkVersionEvent "insert" "roads" "7", 1); (mkVersionEvent "update" "roads" "7", 2);
              (mkVersionEvent "delete" "roads" "7", 3); (mkVersionEvent "update" "roads" "7", 4)] in
  (fun v => (fvVersion v, fvState v)) <$> GetAllVersions r.1 "w" "roads" "7"
  = [(1, "superseded"); (2, "retired"); (1, "valid")].
Proof. vm_compute. reflexivity. Qed.
