(* ===== verification/FeatureNames.v ===== *)
(** * Names of published feature types
      ([internal/wfs/feature_names.go], [models_helpers.go], [gml.go], [internal/workspace/workspace.go])

    A publication is advertised under a qualified XML name; requests name it by
    its public identifier, by that qualified name or by its local part. The
    transaction processors take the publication from the name in the request, and
    the lock check of the mutation takes it again from the local part of the
    advertised name ([checkMutationLocks] in [transaction_values.go]).

    A Go map is visited in any order: what is proved does not depend on it. The
    digest and the encoding inside a lock key are variables. *)

From S2P Require Import Prelude GoText LockStore.

Definition NSCite : string := "http://cite.opengeospatial.org/gmlsf".
Definition NSGml : string := "http://www.opengis.net/gml/3.2".
Definition NSWfs : string := "http://www.opengis.net/wfs/2.0".
Definition NSFes : string := "http://www.opengis.net/fes/2.0".
Definition NSOws : string := "http://www.opengis.net/ows/1.1".
Definition NSXlink : string := "http://www.w3.org/1999/xlink".
Definition NSDefault : string := "http://neoserver/app".

(** ** Names *)

Record QName : Type := mkQName { Prefix : string; Local : string; Namespace : string }.

Definition GetNamespaceForPrefix (prefix : string) : string :=
  let p := ToLower prefix in
  if String.eqb p "cite" then NSCite
  else if String.eqb p "gml" then NSGml
  else if String.eqb p "wfs" then NSWfs
  else if String.eqb p "fes" then NSFes
  else if String.eqb p "ows" then NSOws
  else if String.eqb p "xlink" then NSXlink
  else NSDefault.

Definition ParseQName (name : string) : QName :=
  match cut ":" name with
  | Some (prefix, localPart) => mkQName prefix localPart (GetNamespaceForPrefix prefix)
  | None => mkQName "" name NSDefault
  end.

Definition asciiLetter (c : ascii) : bool :=
  ((65 <=? code c) && (code c <=? 90) || (97 <=? code c) && (code c <=? 122))%N.
Definition asciiDigit (c : ascii) : bool := ((48 <=? code c) && (code c <=? 57))%N.

Definition nameStart (c : ascii) : bool := asciiLetter c || Ascii.eqb c "_".
Definition nameByte (c : ascii) : bool :=
  asciiLetter c || asciiDigit c || Ascii.eqb c "_" || Ascii.eqb c "." || Ascii.eqb c "-".

Definition validASCIIXMLName (name : string) : bool :=
  match name with
  | EmptyString => false
  | String c s => nameStart c && all_bytes nameByte s
  end.

Definition sanitizeXMLName (name : string) : string :=
  if validASCIIXMLName name then name
  else
    let name := ReplaceByte ":" "_" name in
    let name := ReplaceByte " " "_" name in
    let name := smap (fun c => if nameByte c then c else "_"%char) name in
    match name with
    | EmptyString => EmptyString
    | String first _ =>
        if asciiDigit first || Ascii.eqb first "-" || Ascii.eqb first "." then "_" +:+ name else name
    end.

Definition publishedFeatureTypeName (publicID appPrefix : string) : string :=
  let qn := ParseQName publicID in
  if negb (String.eqb (Prefix qn) "") && negb (String.eqb (Namespace qn) NSDefault)
     && validASCIIXMLName (Prefix qn) && validASCIIXMLName (Local qn)
  then publicID
  else appPrefix +:+ ":" +:+ sanitizeXMLName publicID.

(** ** Workspaces *)

Record Layer : Type := mkLayer {
  SourceLayer : string;
  PublicID : string;
  LayerEnabled : bool;
  Public : bool;
  AllowedRoles : list string;
  IsSQLView : bool;
  SQLViewReadOnly : bool          (* SQLViewConfig != nil && SQLViewConfig.ReadOnly *)
}.

Record Service : Type := mkService {
  ServiceID : string;
  ServiceEnabled : bool;
  Layers : gmap string Layer;
  FeatureLockSource : option (string -> string)   (* the data source's own, where it has one *)
}.

Record Workspace : Type := mkWorkspace { WsID : string; Services : gmap string Service }.

Definition services (ws : Workspace) : list Service := snd <$> map_to_list (Services ws).

(** The enabled layer with this identifier in an enabled service. *)
Definition layerOf (publicID : string) (svc : Service) : option (Layer * Service) :=
  if ServiceEnabled svc then
    match Layers svc !! publicID with
    | Some layer => if LayerEnabled layer then Some (layer, svc) else None
    | None => None
    end
  else None.

(** The first element for which [f] answers. *)
Fixpoint firstSome {A B} (f : A -> option B) (l : list A) : option B :=
  match l with
  | [] => None
  | a :: rest => match f a with Some b => Some b | None => firstSome f rest end
  end.

Definition GetLayer (ws : Workspace) (publicID : string) : option (Layer * Service) :=
  firstSome (layerOf publicID) (services ws).

Definition VisibleToRole (l : Layer) (role : string) : bool :=
  Public l || String.eqb role "super_admin" || Nat.eqb (length (AllowedRoles l)) 0
  || existsb (String.eqb role) (AllowedRoles l).

Definition enabledLayers (svc : Service) : list Layer :=
  if ServiceEnabled svc then List.filter LayerEnabled (snd <$> map_to_list (Layers svc)) else [].

(** [sort.Slice] by public identifier: an insertion sort, as the order of equal
    identifiers is open. *)
Definition idBefore (a b : Layer) : bool := bool_decide (String.leb (PublicID a) (PublicID b) = true).

Fixpoint insertLayer (l : Layer) (sorted : list Layer) : list Layer :=
  match sorted with
  | [] => [l]
  | x :: rest => if idBefore l x then l :: sorted else x :: insertLayer l rest
  end.

Definition GetAllLayers (ws : Workspace) : list Layer :=
  foldr insertLayer [] (flat_map enabledLayers (services ws)).

Definition VisibleLayers (ws : Workspace) (role : string) : list Layer :=
  List.filter (fun l => VisibleToRole l role) (GetAllLayers ws).

(** ** Resolution *)

(** Whether a publication answers to the name in the fallback of
    [resolveFeatureLayer]. *)
Definition answersTo (appPrefix typeName localName : string) (candidate : Layer) : bool :=
  let published := publishedFeatureTypeName (PublicID candidate) appPrefix in
  String.eqb published typeName || String.eqb (Local (ParseQName published)) localName
  || String.eqb (sanitizeXMLName (PublicID candidate)) localName.

(** The loop over the candidates: [None] when two publications answer. *)
Fixpoint matchLoop (appPrefix typeName localName : string) (candidates : list Layer) (matched : option Layer)
    : option Layer :=
  match candidates with
  | [] => matched
  | c :: rest =>
      if answersTo appPrefix typeName localName c then
        match matched with
        | Some m =>
            if String.eqb (PublicID m) (PublicID c) then matchLoop appPrefix typeName localName rest (Some c)
            else None
        | None => matchLoop appPrefix typeName localName rest (Some c)
        end
      else matchLoop appPrefix typeName localName rest matched
  end.

Definition localOf (typeName : string) : string :=
  match cut ":" typeName with Some (_, local) => local | None => typeName end.

(** The direct lookups: the name itself, then without the application prefix. *)
Definition directLayer (ws : Workspace) (typeName appPrefix : string) : option (Layer * Service) :=
  match GetLayer ws typeName with
  | Some r => Some r
  | None =>
      match cut ":" typeName with
      | Some (prefix, local) => if String.eqb prefix appPrefix then GetLayer ws local else None
      | None => None
      end
  end.

Definition resolveFeatureLayer (ws : Workspace) (typeName appPrefix : string) : option (Layer * Service) :=
  if String.eqb typeName "" then None
  else
    match directLayer ws typeName appPrefix with
    | Some r => Some r
    | None =>
        match matchLoop appPrefix typeName (localOf typeName) (VisibleLayers ws "super_admin") None with
        | Some m => GetLayer ws (PublicID m)
        | None => None
        end
    end.

(** ** The lock check of a mutation *)

Section MutationLocks.
Context (digest : string -> string) (encodeLockKey : lockIdentity -> string).
Context (decodeLockKey : string -> option lockIdentity).

Definition lockSource (service : Service) (layer : Layer) : string :=
  match FeatureLockSource service with
  | Some source => source (SourceLayer layer)
  | None => ServiceID service +:+ "/" +:+ SourceLayer layer
  end.

Definition sourceLockKey (service : Service) (layer : Layer) (name : string) : string :=
  encodeLockKey (mkLockIdentity (digest (lockSource service layer)) name).

Inductive mutationErr : Type := UnresolvedLockIdentity | LockRefused (e : lockErr).

(** [locks = None]: a handler without runtime state. *)
Definition checkMutationLocks (locks : option LockStore) (now : Z) (ws : Workspace) (appPrefix layer lockID : string)
    (ids : list string) : option mutationErr :=
  match locks with
  | None => None
  | Some ls =>
      match resolveFeatureLayer ws layer appPrefix with
      | None => Some UnresolvedLockIdentity
      | Some (publication, service) =>
          LockRefused <$> CheckFeatureLocks decodeLockKey ls now (WsID ws) (sourceLockKey service publication layer)
                            ids lockID
      end
  end.
End MutationLocks.

(** The name a processor keeps of the publication it resolved. *)
Definition layerName (appPrefix : string) (l : Layer) : string :=
  Local (ParseQName (publishedFeatureTypeName (PublicID l) appPrefix)).

(** ** Publications *)

Definition published (ws : Workspace) (l : Layer) (svc : Service) : Prop :=
  In svc (services ws) /\ ServiceEnabled svc = true /\ Layers svc !! PublicID l = Some l /\ LayerEnabled l = true.

(** Layers are filed under their identifier. *)
Definition wellKeyed (ws : Workspace) : Prop :=
  forall svc k l, In svc (services ws) -> Layers svc !! k = Some l -> PublicID l = k.

Definition uniqueIDs (ws : Workspace) : Prop :=
  forall l svc l' svc', published ws l svc -> published ws l' svc' -> PublicID l = PublicID l' ->
  l = l' /\ svc = svc'.

(** Another publication answers to the name. *)
Definition clashes (appPrefix name : string) (l : Layer) : bool :=
  String.eqb (PublicID l) name || String.eqb (PublicID l) (localOf name)
  || answersTo appPrefix name (localOf name) l.

Definition onlyName (ws : Workspace) (appPrefix name : string) (l : Layer) : Prop :=
  forall l' svc', published ws l' svc' -> PublicID l' <> PublicID l -> clashes appPrefix name l' = false.

Section Resolution.
Context (ws : Workspace) (Hkeyed : wellKeyed ws).

Lemma layerOf_Some id svc l s :
  In svc (services ws) -> layerOf id svc = Some (l, s) -> s = svc /\ PublicID l = id /\ published ws l svc.
Proof.
  intros Hin. unfold layerOf. destruct (ServiceEnabled svc) eqn:Es; [|done].
  destruct (Layers svc !! id) as [l'|] eqn:El; [|done]. destruct (LayerEnabled l') eqn:Ee; [|done].
  intros [= <- <-]. pose proof (Hkeyed _ _ _ Hin El) as Hid. split; [done|]. split; [done|].
  split; [done|]. split; [done|]. by rewrite Hid.
Qed.

Lemma firstSome_Some {A B} (f : A -> option B) l b :
  firstSome f l = Some b -> exists a, In a l /\ f a = Some b.
Proof.
  induction l as [|a l IH]; simpl; [done|]. destruct (f a) eqn:E.
  - intros [= <-]. eauto.
  - intros H. destruct (IH H) as (a' & ? & ?). eauto.
Qed.

Lemma firstSome_None {A B} (f : A -> option B) l a : firstSome f l = None -> In a l -> f a = None.
Proof.
  induction l as [|x l IH]; simpl; [done|]. destruct (f x) eqn:E; [done|]. intros H [<-|Hin]; eauto.
Qed.

Lemma GetLayer_Some id l svc : GetLayer ws id = Some (l, svc) -> PublicID l = id /\ published ws l svc.
Proof.
  intros (s & Hin & Hl)%firstSome_Some. by destruct (layerOf_Some _ _ _ _ Hin Hl) as (-> & ? & ?).
Qed.

Lemma GetLayer_published (Hu : uniqueIDs ws) l svc : published ws l svc -> GetLayer ws (PublicID l) = Some (l, svc).
Proof.
  intros Hp. destruct (GetLayer ws (PublicID l)) as [[l' svc']|] eqn:E.
  - apply GetLayer_Some in E as [Eid Hp']. by destruct (Hu _ _ _ _ Hp' Hp Eid) as [-> ->].
  - destruct Hp as (Hin & Hs & Hl & He). pose proof (firstSome_None _ _ _ E Hin) as Hn.
    unfold layerOf in Hn. by rewrite Hs, Hl, He in Hn.
Qed.

Lemma insertLayer_In x l sorted : In x (insertLayer l sorted) <-> x = l \/ In x sorted.
Proof.
  induction sorted as [|y sorted IH]; simpl; [intuition congruence|].
  destruct (idBefore l y); simpl; [intuition congruence|]. rewrite IH. intuition congruence.
Qed.

Lemma VisibleLayers_In l : In l (VisibleLayers ws "super_admin") <-> exists svc, published ws l svc.
Proof.
  unfold VisibleLayers, GetAllLayers. rewrite filter_In.
  assert (Hv : VisibleToRole l "super_admin" = true) by (unfold VisibleToRole; by rewrite orb_true_r).
  assert (Hsort : forall ls, In l (foldr insertLayer [] ls) <-> In l ls).
  { induction ls as [|x ls IH]; simpl; [done|]. rewrite insertLayer_In, IH. intuition congruence. }
  rewrite Hv, Hsort, in_flat_map. unfold enabledLayers, published.
  split.
  - intros [(svc & Hin & Hl) _]. exists svc. destruct (ServiceEnabled svc) eqn:Es; [|done].
    apply filter_In in Hl as [Hl He]. apply list_elem_of_In, list_elem_of_fmap in Hl as ([k x] & -> & Hk).
    apply elem_of_map_to_list in Hk. simpl in *. by rewrite (Hkeyed _ _ _ Hin Hk).
  - intros (svc & Hin & Hs & Hl & He). split; [|done]. exists svc. split; [done|]. rewrite Hs.
    apply filter_In. split; [|done]. apply list_elem_of_In, list_elem_of_fmap.
    exists (PublicID l, l). split; [done|]. by apply elem_of_map_to_list.
Qed.

(** The loop returns a candidate when every candidate that answers has its identifier. *)
Lemma matchLoop_only app t n id candidates matched :
  (forall c, In c candidates -> answersTo app t n c = true -> PublicID c = id) ->
  (forall m, matched = Some m -> PublicID m = id) ->
  (exists c, In c candidates /\ answersTo app t n c = true) \/ is_Some matched ->
  exists m, matchLoop app t n candidates matched = Some m /\ PublicID m = id.
Proof.
  revert matched. induction candidates as [|c rest IH]; intros matched Hc Hm Hex; simpl.
  - destruct Hex as [(c & [] & _)|[m ->]]. eauto.
  - destruct (answersTo app t n c) eqn:Ea.
    + assert (Hid : PublicID c = id) by (apply Hc; [by left|done]).
      assert (Hnext : exists m, matchLoop app t n rest (Some c) = Some m /\ PublicID m = id).
      { apply IH; [intros; apply Hc; [by right|done]|by intros m [= <-]|by right; eauto]. }
      destruct matched as [m|]; [|done]. rewrite (Hm m eq_refl), <- Hid, String.eqb_refl. by rewrite Hid.
    + apply IH; [intros; apply Hc; [by right|done]|done|].
      destruct Hex as [(c' & [<-|Hin] & Ha)|Hs]; [congruence|left; eauto|by right].
Qed.

(** A name that a publication answers to, and no other, resolves to it. *)
Lemma resolve_only (Hu : uniqueIDs ws) app name l svc :
  name <> "" -> published ws l svc -> answersTo app name (localOf name) l = true -> onlyName ws app name l ->
  resolveFeatureLayer ws name app = Some (l, svc).
Proof.
  intros Hne Hp Ha Hall. unfold resolveFeatureLayer. destruct (String.eqb_spec name "") as [|_]; [done|].
  assert (Hfound : forall id r, GetLayer ws id = Some r -> id = name \/ id = localOf name -> r = (l, svc)).
  { intros id [l' svc'] E Hid. apply GetLayer_Some in E as [Eid Hp'].
    destruct (decide (PublicID l' = PublicID l)) as [Eq|Hneq].
    - by destruct (Hu _ _ _ _ Hp' Hp Eq) as [-> ->].
    - specialize (Hall _ _ Hp' Hneq). unfold clashes in Hall. apply orb_false_iff in Hall as [Hall _].
      apply orb_false_iff in Hall as [H1%String.eqb_neq H2%String.eqb_neq]. destruct Hid; congruence. }
  unfold directLayer. destruct (GetLayer ws name) as [r|] eqn:E1.
  { by rewrite (Hfound _ _ E1 (or_introl eq_refl)). }
  assert (Hloop : match matchLoop app name (localOf name) (VisibleLayers ws "super_admin") None with
                  | Some m => GetLayer ws (PublicID m) | None => None end = Some (l, svc)).
  { destruct (matchLoop_only app name (localOf name) (PublicID l) (VisibleLayers ws "super_admin") None)
      as (m & -> & Hid).
    - intros c Hc Hac. apply VisibleLayers_In in Hc as [svc' Hp'].
      destruct (decide (PublicID c = PublicID l)) as [|Hneq]; [done|].
      specialize (Hall _ _ Hp' Hneq). unfold clashes in Hall. by rewrite Hac, orb_true_r in Hall.
    - done.
    - left. exists l. split; [apply VisibleLayers_In; eauto|done].
    - rewrite Hid. by apply GetLayer_published. }
  destruct (cut ":" name) as [[prefix local]|] eqn:Ec; [|exact Hloop].
  destruct (String.eqb prefix app); [|exact Hloop].
  destruct (GetLayer ws local) as [r|] eqn:E2; [|exact Hloop].
  rewrite (Hfound local r E2); [done|]. right. unfold localOf. by rewrite Ec.
Qed.

(** What a name resolves to is a publication. *)
Lemma resolve_published app name l svc :
  resolveFeatureLayer ws name app = Some (l, svc) -> published ws l svc.
Proof.
  unfold resolveFeatureLayer, directLayer. destruct (String.eqb name ""); [done|].
  assert (H : forall id, GetLayer ws id = Some (l, svc) -> published ws l svc)
    by (intros id E; by apply GetLayer_Some in E as [_ E]).
  destruct (GetLayer ws name) eqn:E1; [intros [= ->]; eauto|].
  destruct (match cut ":" name with Some _ => _ | None => None end) eqn:E2.
  - intros [= ->]. destruct (cut ":" name) as [[prefix local]|]; [|done]. destruct (String.eqb prefix app); eauto.
    done.
  - destruct (matchLoop _ _ _ _ _); eauto. done.
Qed.
End Resolution.

(** ** Advertised names *)

Lemma valid_no_colon s : validASCIIXMLName s = true -> has_byte ":" s = false /\ s <> "".
Proof.
  destruct s as [|c s]; [done|]. cbn [validASCIIXMLName]. intros [Hc Hs]%andb_true_iff. split; [|done].
  cbn [has_byte]. rewrite (all_bytes_has nameByte _ _ Hs), orb_false_r by done.
  destruct (Ascii.eqb_spec ":" c) as [<-|]; done.
Qed.

Lemma all_bytes_smap f g s : (forall c, g (f c) = true) -> all_bytes g (smap f s) = true.
Proof. intros H. induction s as [|c s IH]; simpl; [done|]. by rewrite H, IH. Qed.

Lemma smap_nonempty f s : s <> "" -> smap f s <> "".
Proof. by destruct s. Qed.

Lemma ReplaceByte_nonempty c d s : s <> "" -> ReplaceByte c (String d "") s <> "".
Proof. destruct s as [|x s]; [done|]. cbn [ReplaceByte]. by destruct (Ascii.eqb c x). Qed.

Lemma sanitize_name s : s <> "" -> has_byte ":" (sanitizeXMLName s) = false /\ sanitizeXMLName s <> "".
Proof.
  intros Hne. unfold sanitizeXMLName. destruct (validASCIIXMLName s) eqn:Ev; [by apply valid_no_colon|].
  set (t := smap _ _).
  assert (Ht : t <> "") by (unfold t; by repeat apply smap_nonempty || apply ReplaceByte_nonempty).
  assert (Hb : all_bytes nameByte t = true).
  { apply all_bytes_smap. intros c. destruct (nameByte c) eqn:E; [exact E|done]. }
  assert (Hc : has_byte ":" t = false) by (by apply (all_bytes_has nameByte)).
  destruct t as [|c t]; [done|]. destruct (_ || _); [|done]. split; [exact Hc|done].
Qed.

(** The local part of an advertised name is an XML name without a colon. *)
Lemma layerName_local app l :
  has_byte ":" app = false -> PublicID l <> "" ->
  has_byte ":" (layerName app l) = false /\ layerName app l <> "".
Proof.
  intros Happ Hne. unfold layerName, publishedFeatureTypeName.
  destruct (_ && _) eqn:E.
  - apply andb_true_iff in E as [_ E]. by apply valid_no_colon.
  - unfold ParseQName. change (app +:+ ":" +:+ ?x) with (app +:+ String ":" x).
    rewrite cut_app by done. by apply sanitize_name.
Qed.

Lemma layerName_resolves ws app l svc :
  wellKeyed ws -> uniqueIDs ws -> has_byte ":" app = false -> published ws l svc -> PublicID l <> "" ->
  onlyName ws app (layerName app l) l -> resolveFeatureLayer ws (layerName app l) app = Some (l, svc).
Proof.
  intros Hk Hu Happ Hp Hne Ho. destruct (layerName_local app l Happ Hne) as [Hc Hn].
  apply resolve_only; try done. unfold answersTo, localOf. rewrite cut_none by done.
  fold (layerName app l). by rewrite String.eqb_refl, orb_true_r.
Qed.

Lemma advertised_resolves ws app l svc :
  wellKeyed ws -> uniqueIDs ws -> published ws l svc ->
  let name := publishedFeatureTypeName (PublicID l) app in
  name <> "" -> onlyName ws app name l -> resolveFeatureLayer ws name app = Some (l, svc).
Proof.
  intros Hk Hu Hp name Hne Ho. apply resolve_only; try done. unfold answersTo. fold name. by rewrite String.eqb_refl.
Qed.

Lemma advertised_nonempty p app : p <> "" -> publishedFeatureTypeName p app <> "".
Proof. intros Hp. unfold publishedFeatureTypeName. destruct (_ && _); [done|]. by destruct app. Qed.

(** C40: the names of a publication lead back to it. In a workspace whose
    identifiers are unique, a publication whose advertised name no other one
    answers to is what that name resolves to; and when no other one answers to
    the local part either, the lock check of its mutations is the check of its
    own source, so that a mutation of locked features is refused. *)
Theorem advertised_names_and_locks digest encode decode ws app l svc ls now lockID ids :
  wellKeyed ws -> uniqueIDs ws -> has_byte ":" app = false -> published ws l svc -> PublicID l <> "" ->
  (onlyName ws app (publishedFeatureTypeName (PublicID l) app) l ->
   resolveFeatureLayer ws (publishedFeatureTypeName (PublicID l) app) app = Some (l, svc))
  /\ (onlyName ws app (layerName app l) l ->
      checkMutationLocks digest encode decode (Some ls) now ws app (layerName app l) lockID ids
      = LockRefused <$> CheckFeatureLocks decode ls now (WsID ws)
          (sourceLockKey digest encode svc l (layerName app l)) ids lockID).
Proof.
  intros Hk Hu Happ Hp Hne. split; intros Ho.
  - apply advertised_resolves; try done. by apply advertised_nonempty.
  - unfold checkMutationLocks. by rewrite (layerName_resolves ws app l svc).
Qed.

(** ** A workspace with two publications *)

Definition demoLayer (src id : string) : Layer := mkLayer src id true false [] false false.
Definition demoService (ls : list Layer) : Service :=
  mkService "svc" true (list_to_map (map (fun l => (PublicID l, l)) ls)) None.
Definition demoWorkspace (ls : list Layer) : Workspace :=
  mkWorkspace "ws" {["svc" := demoService ls]}.

Definition demoEncode (i : lockIdentity) : string := Source i +:+ String "|" (Name i).
Definition demoDecode (key : string) : option lockIdentity :=
  match cut "|" key with Some (s, n) => Some (mkLockIdentity s n) | None => None end.

(** A lock on feature 1 of [cite:Roads], held by someone else. *)
Definition demoLocks (key : string) : LockStore :=
  mkLockStore {["lock" := mkLock "lock" "ws" {[key := ["1"]]} 100 "other" 0]} ∅ 3600 10 10 10 None.

Lemma demo_published a b l svc :
  PublicID a <> PublicID b -> published (demoWorkspace [a; b]) l svc ->
  svc = demoService [a; b] /\ (l = a \/ l = b).
Proof.
  intros Hne (Hin & _ & Hl & _). unfold services, demoWorkspace in Hin. simpl in Hin.
  rewrite map_to_list_singleton in Hin. destruct Hin as [<-|[]]. split; [done|].
  unfold demoService in Hl. simpl in Hl. apply lookup_insert_Some in Hl as [[_ <-]|[_ Hl]]; [by left|].
  apply lookup_insert_Some in Hl as [[_ <-]|[_ Hl]]; [by right|]. by rewrite lookup_empty in Hl.
Qed.

Lemma demo_wellKeyed a b : PublicID a <> PublicID b -> wellKeyed (demoWorkspace [a; b]).
Proof.
  intros Hne svc k l Hin Hl. unfold services, demoWorkspace in Hin. simpl in Hin.
  rewrite map_to_list_singleton in Hin. destruct Hin as [<-|[]].
  unfold demoService in Hl. simpl in Hl. apply lookup_insert_Some in Hl as [[<- <-]|[_ Hl]]; [done|].
  apply lookup_insert_Some in Hl as [[<- <-]|[_ Hl]]; [done|]. by rewrite lookup_empty in Hl.
Qed.

Lemma demo_unique a b : PublicID a <> PublicID b -> uniqueIDs (demoWorkspace [a; b]).
Proof.
  intros Hne l svc l' svc' Hp Hp' He.
  destruct (demo_published _ _ _ _ Hne Hp) as [-> Hl]. destruct (demo_published _ _ _ _ Hne Hp') as [-> Hl'].
  split; [|done]. destruct Hl, Hl'; subst; congruence.
Qed.

Lemma demo_onlyName a b app name :
  PublicID a <> PublicID b -> clashes app name b = false -> onlyName (demoWorkspace [a; b]) app name a.
Proof.
  intros Hne Hc l svc Hp Hneq. destruct (demo_published _ _ _ _ Hne Hp) as [_ [->| ->]]; [done|exact Hc].
Qed.

Lemma demo_head_published a b :
  PublicID a <> PublicID b -> LayerEnabled a = true -> published (demoWorkspace [a; b]) a (demoService [a; b]).
Proof.
  intros Hne He. unfold published, services, demoWorkspace. simpl. rewrite map_to_list_singleton.
  split; [by left|]. split; [done|]. split; [|done]. simpl. by rewrite lookup_insert_eq.
Qed.

Lemma advertised_names_and_locks_witness :
  let roads := demoLayer "t_roads" "cite:Roads" in
  let rails := demoLayer "t_rails" "Rails" in
  let ws := demoWorkspace [roads; rails] in
  let key := demoEncode (mkLockIdentity "svc/t_roads" "cite:Roads") in
  resolveFeatureLayer ws "cite:Roads" "app" = Some (roads, demoService [roads; rails])
  /\ checkMutationLocks (fun x => x) demoEncode demoDecode (Some (demoLocks key)) 50 ws "app" "Roads" "" ["1"]
     = Some (LockRefused MissingParameterValue).
Proof.
  intros roads rails ws key. assert (Hne : PublicID roads <> PublicID rails) by done.
  destruct (advertised_names_and_locks (fun x => x) demoEncode demoDecode ws "app" roads (demoService [roads; rails])
              (demoLocks key) 50 "" ["1"] (demo_wellKeyed _ _ Hne) (demo_unique _ _ Hne) eq_refl
              (demo_head_published _ _ Hne eq_refl)) as [H1 H2]; [done|].
  split.
  - apply H1, demo_onlyName; [done|vm_compute; reflexivity].
  - etransitivity; [apply H2, demo_onlyName; [done|vm_compute; reflexivity]|vm_compute; reflexivity].
Defined.

(** When another publication has the local part as its identifier, the lock check
    of a mutation goes to that one: feature 1 of [cite:Roads] is locked by someone
    else, the check with its own key refuses the mutation, and the check the
    processors make, by the local part, lets it pass. *)
Lemma homonym_bypasses_lock :
  let roads := demoLayer "t_roads" "cite:Roads" in
  let other := demoLayer "t_other" "Roads" in
  let ws := demoWorkspace [roads; other] in
  let key := demoEncode (mkLockIdentity "svc/t_roads" "cite:Roads") in
  resolveFeatureLayer ws "cite:Roads" "app" = Some (roads, demoService [roads; other])
  /\ layerName "app" roads = "Roads"
  /\ CheckFeatureLocks demoDecode (demoLocks key) 50 "ws"
       (sourceLockKey (fun x => x) demoEncode (demoService [roads; other]) roads "Roads") ["1"] ""
     = Some MissingParameterValue
  /\ checkMutationLocks (fun x => x) demoEncode demoDecode (Some (demoLocks key)) 50 ws "app"
       (layerName "app" roads) "" ["1"] = None.
Proof. vm_compute. done. Qed.
