(* ===== verification/FesModels.v ===== *)
(** * FES filters: the parsed model, its decoding and its validation
      ([internal/wfs/fes_models.go])

    A filter document is the tree of its elements ([XmlTree]). [validateFilterStructure]
    walks its tokens with a stack of open elements; [xml.Unmarshal] then reads it
    into structures with one field per predicate type.

    The structures [FESFilter], [FESAnd], [FESOr] and [FESNot] have the same 36
    fields, as slices in [FESAnd] and [FESOr] and as pointers in the other two.
    [fesGroup] stands for all four: its nested groups, the predicates in the order of
    the fields (by document order within one field), and the resource identifiers.
    [encoding/xml] merges repeated elements of a pointer field; the validation rules
    them out, and the decoder reports [DuplicateField] in their place, which
    [ParseFESFilter] never returns. The decoder's limit on the nesting of elements is
    not part of the model. *)

From S2P Require Import Prelude GoText ProtocolRequest XmlTree.

(** ** The structures *)

Record FESComparison : Type := mkComparison {
  cmpMatchCase : string; cmpValueReference : string; cmpLiteral : string }.

Record FESPropertyIsLike : Type := mkLike {
  WildCard : string; SingleChar : string; EscapeChar : string; likeMatchCase : string;
  likeValueReference : string; likeLiteral : string }.

Record FESPropertyIsBetween : Type := mkBetween {
  btwValueReference : string; LowerBoundary : string; UpperBoundary : string }.

Record FESEnvelope : Type := mkEnvelope { envSrsName : string; LowerCorner : string; UpperCorner : string }.

Record FESBBOX : Type := mkBBOX { bboxValueReference : string; bboxEnvelope : FESEnvelope }.

Record FESPoint : Type := mkPoint { pointSrsName : string; Pos : string }.

(** A polygon is the position list of its exterior ring. *)
Record FESPolygon : Type := mkPolygon { polySrsName : string; ringPosList : string }.

Record FESLineString : Type := mkLineString { lineSrsName : string; linePosList : string }.

Record FESSpatial : Type := mkSpatial {
  spValueReference : string;
  spPoint : option FESPoint;
  spPolygon : option FESPolygon;
  spLineString : option FESLineString;
  spEnvelope : option FESEnvelope }.

Record FESDWithin : Type := mkDWithin {
  dwValueReference : string; dwPoint : option FESPoint; DistanceUOM : string; DistanceValue : string }.

Record GMLTimePeriod : Type := mkPeriod { BeginPosition : string; EndPosition : string }.

(** The fourteen temporal structures; the period-only ones have no instant. *)
Record FESTemporal : Type := mkTemporal {
  tmpValueReference : string;
  TimeInstant : option string;      (* its timePosition *)
  TimePeriod : option GMLTimePeriod }.

Inductive comparisonOp : Type :=
| IsEqualTo | IsNotEqualTo | IsLessThan | IsGreaterThan | IsLessThanOrEqualTo | IsGreaterThanOrEqualTo.

Inductive spatialOp : Type := Intersects | Within | SContains | Disjoint | Touches | Crosses | Overlaps.

Inductive temporalOp : Type :=
| After | Before | During | Begins | BegunBy | TContains | TEquals | TOverlaps | Meets | OverlappedBy
| MetBy | Ends | EndedBy | AnyInteracts.

Inductive fesPredicate : Type :=
| PropertyIs (op : comparisonOp) (c : FESComparison)
| PropertyIsLike (l : FESPropertyIsLike)
| PropertyIsNull (valueReference : string)
| PropertyIsNil (valueReference : string)
| PropertyIsBetween (b : FESPropertyIsBetween)
| BBOX (b : FESBBOX)
| Spatial (op : spatialOp) (s : FESSpatial)
| DWithin (d : FESDWithin)
| Temporal (op : temporalOp) (t : FESTemporal).

#[warnings="-register-all"]
Inductive fesGroup : Type :=
| Group (And Or Not : list fesGroup) (predicates : list fesPredicate) (ResourceId : list string).

(** ** The fields *)

Definition comparisonNames : list (string * comparisonOp) :=
  [("PropertyIsEqualTo", IsEqualTo); ("PropertyIsNotEqualTo", IsNotEqualTo); ("PropertyIsLessThan", IsLessThan);
   ("PropertyIsGreaterThan", IsGreaterThan); ("PropertyIsLessThanOrEqualTo", IsLessThanOrEqualTo);
   ("PropertyIsGreaterThanOrEqualTo", IsGreaterThanOrEqualTo)].

Definition spatialNames : list (string * spatialOp) :=
  [("Intersects", Intersects); ("Within", Within); ("Contains", SContains); ("Disjoint", Disjoint);
   ("Touches", Touches); ("Crosses", Crosses); ("Overlaps", Overlaps)].

Definition temporalNames : list (string * temporalOp) :=
  [("After", After); ("Before", Before); ("During", During); ("Begins", Begins); ("BegunBy", BegunBy);
   ("TContains", TContains); ("TEquals", TEquals); ("TOverlaps", TOverlaps); ("Meets", Meets);
   ("OverlappedBy", OverlappedBy); ("MetBy", MetBy); ("Ends", Ends); ("EndedBy", EndedBy);
   ("AnyInteracts", AnyInteracts)].

(** The predicate fields in the order of the structures. *)
Definition predicateFields : list string :=
  map fst comparisonNames ++ ["PropertyIsLike"; "PropertyIsNull"; "PropertyIsNil"; "PropertyIsBetween"; "BBOX"]
  ++ map fst spatialNames ++ ["DWithin"] ++ map fst temporalNames.

Definition logicFields : list string := ["And"; "Or"; "Not"].

(** [reflect.TypeFor[FESFilter]().FieldByName], without [XMLName]. *)
Definition filterFields : list string := logicFields ++ predicateFields ++ ["ResourceId"].

(** The temporal structures that have a [TimeInstant]. *)
Definition hasInstant (op : temporalOp) : bool :=
  match op with After | Before | TContains | TEquals | AnyInteracts => true | _ => false end.

(** ** Decoding ([xml.Unmarshal])

    A text field takes the character data of the last child with its name, an
    attribute the last one with its local name; repeated children that are decoded
    into one structure add to it. *)

Definition childrenNamed (local : string) (l : list xmlNode) : list (xmlElement * list xmlNode) :=
  omap (fun n => match n with Elem e ch => if String.eqb (elemLocal e) local then Some (e, ch) else None | _ => None end) l.

Definition childText (local : string) (l : list xmlNode) : string :=
  match last (childrenNamed local l) with Some (_, ch) => charData ch | None => "" end.

(** The attributes and the children of all the elements with this name. *)
Definition merged (local : string) (l : list xmlNode) : option (list xmlAttr * list xmlNode) :=
  match childrenNamed local l with
  | [] => None
  | es => Some (concat (map (fun ec => elemAttr ec.1) es), concat (map snd es))
  end.

Definition mergedChildren (local : string) (l : list xmlNode) : list xmlNode :=
  match merged local l with Some (_, ch) => ch | None => [] end.

Definition decodeEnvelope (ac : list xmlAttr * list xmlNode) : FESEnvelope :=
  mkEnvelope (lastAttr "srsName" ac.1 "") (childText "lowerCorner" ac.2) (childText "upperCorner" ac.2).

Definition decodePoint (ac : list xmlAttr * list xmlNode) : FESPoint :=
  mkPoint (lastAttr "srsName" ac.1 "") (childText "pos" ac.2).

Definition decodePolygon (ac : list xmlAttr * list xmlNode) : FESPolygon :=
  mkPolygon (lastAttr "srsName" ac.1 "")
    (childText "posList" (mergedChildren "LinearRing" (mergedChildren "exterior" ac.2))).

Definition decodeLineString (ac : list xmlAttr * list xmlNode) : FESLineString :=
  mkLineString (lastAttr "srsName" ac.1 "") (childText "posList" ac.2).

Definition decodePeriod (ac : list xmlAttr * list xmlNode) : GMLTimePeriod :=
  mkPeriod (childText "beginPosition" ac.2) (childText "endPosition" ac.2).

Definition decodeTemporal (op : temporalOp) (ch : list xmlNode) : FESTemporal :=
  mkTemporal (childText "ValueReference" ch)
    (if hasInstant op then (fun ac => childText "timePosition" ac.2) <$> merged "TimeInstant" ch else None)
    (decodePeriod <$> merged "TimePeriod" ch).

(** The value of a predicate element; [None] for another name. *)
Definition decodePredicate (e : xmlElement) (ch : list xmlNode) : option fesPredicate :=
  let attr name := lastAttr name (elemAttr e) "" in
  let ref := childText "ValueReference" ch in
  let name := elemLocal e in
  match assoc name comparisonNames, assoc name spatialNames, assoc name temporalNames with
  | Some op, _, _ => Some (PropertyIs op (mkComparison (attr "matchCase") ref (childText "Literal" ch)))
  | _, Some op, _ =>
      Some (Spatial op (mkSpatial ref (decodePoint <$> merged "Point" ch) (decodePolygon <$> merged "Polygon" ch)
                          (decodeLineString <$> merged "LineString" ch) (decodeEnvelope <$> merged "Envelope" ch)))
  | _, _, Some op => Some (Temporal op (decodeTemporal op ch))
  | _, _, _ =>
      if String.eqb name "PropertyIsLike" then
        Some (PropertyIsLike (mkLike (attr "wildCard") (attr "singleChar") (attr "escapeChar") (attr "matchCase")
                                ref (childText "Literal" ch)))
      else if String.eqb name "PropertyIsNull" then Some (PropertyIsNull ref)
      else if String.eqb name "PropertyIsNil" then Some (PropertyIsNil ref)
      else if String.eqb name "PropertyIsBetween" then
        Some (PropertyIsBetween (mkBetween ref (childText "Literal" (mergedChildren "LowerBoundary" ch))
                                   (childText "Literal" (mergedChildren "UpperBoundary" ch))))
      else if String.eqb name "BBOX" then
        Some (BBOX (mkBBOX ref (decodeEnvelope (default ([], []) (merged "Envelope" ch)))))
      else if String.eqb name "DWithin" then
        Some (DWithin (mkDWithin ref (decodePoint <$> merged "Point" ch)
                         (match merged "Distance" ch with Some (a, _) => lastAttr "uom" a "" | None => "" end)
                         (childText "Distance" ch)))
      else None
  end.

(** A decoded child: its field and its value. *)
Inductive fesNode : Type :=
| NAnd (g : fesGroup)
| NOr (g : fesGroup)
| NNot (g : fesGroup)
| NPred (field : string) (p : fesPredicate)
| NRid (rid : string).

Definition ands (l : list fesNode) : list fesGroup := omap (fun n => match n with NAnd g => Some g | _ => None end) l.
Definition ors (l : list fesNode) : list fesGroup := omap (fun n => match n with NOr g => Some g | _ => None end) l.
Definition nots (l : list fesNode) : list fesGroup := omap (fun n => match n with NNot g => Some g | _ => None end) l.
Definition rids (l : list fesNode) : list string := omap (fun n => match n with NRid r => Some r | _ => None end) l.
Definition field (name : string) (l : list fesNode) : list fesPredicate :=
  omap (fun n => match n with NPred f p => if String.eqb f name then Some p else None | _ => None end) l.

Definition assemble (l : list fesNode) : fesGroup :=
  Group (ands l) (ors l) (nots l) (concat (map (fun f => field f l) predicateFields)) (rids l).

(** Each pointer field is set at most once. *)
Definition uniqueFields (l : list fesNode) : bool :=
  Nat.leb (length (ands l)) 1 && Nat.leb (length (ors l)) 1 && Nat.leb (length (nots l)) 1
  && forallb (fun f => Nat.leb (length (field f l)) 1) predicateFields.

Inductive fesParseErr : Type :=
| MalformedXML
| NotSingleFilterRoot
| PredicateNamespace (space : string)
| UnsupportedPredicate (local : string)
| AmbiguousPredicates (parent : string)
| UnexpectedEnd
| EmptyPredicate (name : string)
| DirectivesUnsupported
| MissingFilter
| UnexpectedRoot (local : string)
| DuplicateField.

Fixpoint decodeNode (n : xmlNode) : fesParseErr + list fesNode :=
  match n with
  | Elem e ch =>
      let name := elemLocal e in
      if existsb (String.eqb name) logicFields then
        match mapErr decodeNode ch with
        | inl err => inl err
        | inr ns =>
            let nodes := concat ns in
            if String.eqb name "And" then inr [NAnd (assemble nodes)]
            else if String.eqb name "Or" then inr [NOr (assemble nodes)]
            else if uniqueFields nodes then inr [NNot (assemble nodes)]
            else inl DuplicateField
        end
      else if String.eqb name "ResourceId" then inr [NRid (lastAttr "rid" (elemAttr e) "")]
      else match decodePredicate e ch with Some p => inr [NPred name p] | None => inr [] end
  | _ => inr []
  end.

Definition decodeFilter (ch : list xmlNode) : fesParseErr + fesGroup :=
  match mapErr decodeNode ch with
  | inl err => inl err
  | inr ns => if uniqueFields (concat ns) then inr (assemble (concat ns)) else inl DuplicateField
  end.

(** ** Validation *)

Record container : Type := mkContainer { cname : string; children : nat; resources : bool }.

Definition isContainer (name : string) : bool :=
  existsb (String.eqb name) ["Filter"; "And"; "Or"; "Not"].

Definition predicateNamespace (space : string) : bool :=
  existsb (String.eqb space) [""; NSFes; "fes"].

(** A predicate element under the open element [parent]. *)
Definition enterPredicate (parent : container) (e : xmlElement) : fesParseErr + container :=
  let name := elemLocal e in
  if negb (predicateNamespace (elemSpace e)) then inl (PredicateNamespace (elemSpace e))
  else if negb (existsb (String.eqb name) filterFields) then inl (UnsupportedPredicate name)
  else
    let resource := String.eqb name "ResourceId" in
    if (String.eqb (cname parent) "Filter" && Nat.ltb 0 (children parent) && (negb resource || negb (resources parent)))
       || (String.eqb (cname parent) "Not" && Nat.ltb 0 (children parent))
    then inl (AmbiguousPredicates (cname parent))
    else inr (mkContainer (cname parent) (S (children parent)) resource).

Definition enterElement (parent : container) (e : xmlElement) : fesParseErr + container :=
  if isContainer (cname parent) then enterPredicate parent e else inr parent.

Definition leaveElement (c : container) : fesParseErr + unit :=
  if isContainer (cname c) && Nat.eqb (children c) 0 then inl (EmptyPredicate (cname c)) else inr tt.

(** The loop over the tokens; the innermost open element comes first. *)
Fixpoint validateTokens (ts : list xmlToken) (stack : list container) (roots : nat) : fesParseErr + unit :=
  match ts with
  | [] => if Nat.eqb roots 1 then inr tt else inl MissingFilter
  | StartElement e :: ts' =>
      match stack with
      | [] =>
          if negb (Nat.eqb (S roots) 1) || negb (String.eqb (elemLocal e) "Filter") then inl NotSingleFilterRoot
          else if negb (predicateNamespace (elemSpace e)) then inl (PredicateNamespace (elemSpace e))
          else validateTokens ts' [mkContainer (elemLocal e) 0 false] (S roots)
      | parent :: rest =>
          match enterElement parent e with
          | inl err => inl err
          | inr parent' => validateTokens ts' (mkContainer (elemLocal e) 0 false :: parent' :: rest) roots
          end
      end
  | EndElement :: ts' =>
      match stack with
      | [] => inl UnexpectedEnd
      | last :: rest =>
          match leaveElement last with
          | inl err => inl err
          | inr _ => validateTokens ts' rest roots
          end
      end
  | Directive :: _ => inl DirectivesUnsupported
  | _ :: ts' => validateTokens ts' stack roots
  end.

(** The document; [None] when the decoder fails inside it (an earlier error of the
    validation may be reported in its place). *)
Definition validateFilterStructure (raw : option (list xmlNode)) : fesParseErr + unit :=
  match raw with
  | None => inl MalformedXML
  | Some l => validateTokens (tokensOf l) [] 0
  end.

(** The first element of a document. *)
Fixpoint rootElement (l : list xmlNode) : option (xmlElement * list xmlNode) :=
  match l with
  | [] => None
  | Elem e ch :: _ => Some (e, ch)
  | _ :: l' => rootElement l'
  end.

Definition ParseFESFilter (filterXML : option (list xmlNode)) : fesParseErr + fesGroup :=
  match validateFilterStructure filterXML with
  | inl err => inl err
  | inr _ =>
      match filterXML with
      | None => inl MalformedXML
      | Some l =>
          match rootElement l with
          | None => inl MalformedXML
          | Some (e, ch) =>
              match decodeFilter ch with
              | inl err => inl err
              | inr filter =>
                  if String.eqb (ToLower (elemLocal e)) "filter" then inr filter
                  else inl (UnexpectedRoot (elemLocal e))
              end
          end
      end
  end.
