(* ===== verification/FesCompiler.v ===== *)
(** * The FES filter compiler
      ([internal/wfs/fes_compiler.go], [fes_predicates.go], [fes_dialect.go], [feature_names.go])

    A parsed filter becomes one parameterized SQL condition. The compiler's state is
    the next parameter index and the arguments so far; its methods are computations
    in the error monad over that state.

    The axis order of an authority is looked up in PROJ: [AuthorityAxisSwap] is a
    variable. *)

From S2P Require Import Prelude GoNum GoText SqlUtil Crs FesModels.

(** ** Options, state and errors *)

Inductive SQLDialect : Type := SQLPostGIS | SQLDuckDB.

Record FESCompileOptions : Type := mkOptions {
  Dialect : SQLDialect;
  TableAlias : string;
  GeometryExpression : string;
  StartParamIndex : Z;
  SourceSRID : Z;
  GeometryProperty : string;
  AllowedProperties : option (gset string);    (* None is the nil map *)
  CollectionID : string;
  IDColumn : string
}.

(** The fields of the compiler that do not change. *)
Record fesConfig : Type := mkConfig {
  dialect : SQLDialect;
  tableAlias : string;
  geometryExpression : string;
  sourceSRID : Z;
  geomProp : string;
  allowedProperties : option (gset string);
  collectionID : string;
  idColumn : string
}.

Inductive fesArg : Type := ArgText (s : string) | ArgFloat (f : float64).

Record fesState : Type := mkState { paramIdx : Z; args : list fesArg }.

Inductive fesErr : Type :=
| RequestError (code locator message : string)
| PlainError (message : string).

Abbreviation F := (M fesState fesErr).

Definition ExceptionInvalidParameterValue : string := "InvalidParameterValue".
Definition ExceptionOperationProcessingFailed : string := "OperationProcessingFailed".

(** [c.args = append(c.args, ...)] with the index moved on by as many: the text is
    built from the index before. *)
Definition bind (values : list fesArg) (sql : Z -> string) : F string := fun st =>
  Ok (sql (paramIdx st), mkState (paramIdx st + Z.of_nat (length values)) (args st ++ values)).

Definition ph (k : Z) : string := "$" +:+ pretty k.

(** ** Names ([feature_names.go], [fes_predicates.go]) *)

Definition stripNSPrefix (name : string) : string :=
  match cutLast ":" name with Some (_, local) => local | None => name end.

Definition dropPrefix (prefix id : string) : option string :=
  if HasPrefix id prefix then Some (sdrop (String.length prefix) id) else None.

Definition featureIDForType (id typeName : string) : option string :=
  let try prefix := if String.eqb prefix "" then None else dropPrefix (prefix +:+ ".") id in
  match try typeName, try (stripNSPrefix typeName) with
  | Some local, _ => Some local
  | None, Some local => Some local
  | None, None =>
      match cut ":" id with
      | Some (_, rest) =>
          if String.eqb typeName "" then None else dropPrefix (stripNSPrefix typeName +:+ ".") rest
      | None => None
      end
  end.

Section Compiler.
Context (AuthorityAxisSwap : Z -> option bool) (c : fesConfig).

(** ** SQL fragments ([fes_dialect.go]) *)

Definition column (name : string) : string :=
  if String.eqb name (geomProp c) && negb (String.eqb (geometryExpression c) "") then geometryExpression c
  else
    let alias := if String.eqb (tableAlias c) "" then "t" else tableAlias c in
    let alias := if negb (String.eqb alias "t") && negb (String.eqb alias "v") then QuoteIdent alias else alias in
    alias +:+ "." +:+ QuoteIdent name.

Definition transformGeometry (expr : string) (srid : Z) : string :=
  if srid =? sourceSRID c then expr
  else
    match dialect c with
    | SQLDuckDB =>
        "ST_Transform(" +:+ expr +:+ ", 'EPSG:" +:+ pretty srid +:+ "', 'EPSG:" +:+ pretty (sourceSRID c)
        +:+ "', always_xy := true)"
    | SQLPostGIS => "ST_Transform(" +:+ expr +:+ ", " +:+ pretty (sourceSRID c) +:+ ")"
    end.

Definition geometryLiteral (index srid : Z) : string :=
  transformGeometry
    (match dialect c with
     | SQLDuckDB => "ST_GeomFromText(" +:+ ph index +:+ "::VARCHAR)"
     | SQLPostGIS => "ST_GeomFromText(" +:+ ph index +:+ ", " +:+ pretty srid +:+ ")"
     end) srid.

(** ** Properties ([fes_predicates.go])

    The two markers of [validateProperty] and its other results, in the order of the
    callers' tests. *)

Definition gmlPropertyNotMapped : string := "__GML_NOT_MAPPED__".
Definition gmlGeometryProperty : string := "__GML_GEOMETRY__".

Definition Title (s : string) : string :=
  match s with "" => "" | String b s' => String (up_byte b) s' end.

Definition validateProperty (prop : string) : string :=
  let prop := stripNSPrefix prop in
  if String.eqb prop "boundedBy" && negb (String.eqb (geomProp c) "") then gmlGeometryProperty
  else if negb (String.eqb (geomProp c) "") && String.eqb prop (geomProp c) then gmlGeometryProperty
  else if String.eqb prop "name" || String.eqb prop "description" then
    match allowedProperties c with
    | Some allowed =>
        if decide (prop ∈ allowed) then prop
        else if decide (ToUpper prop ∈ allowed) then ToUpper prop
        else if decide (Title prop ∈ allowed) then Title prop
        else gmlPropertyNotMapped
    | None => prop
    end
  else
    match allowedProperties c with
    | Some allowed => if decide (prop ∈ allowed) then prop else ""
    | None => prop
    end.

Definition validateGeometryProperty (prop : string) : string :=
  let prop := stripNSPrefix prop in
  if String.eqb prop "boundedBy" && negb (String.eqb (geomProp c) "") then geomProp c
  else if negb (String.eqb (geomProp c) "") && String.eqb prop (geomProp c) then geomProp c
  else "".

Definition unknownProperty {A} (ref : string) : F A :=
  mfail (RequestError ExceptionInvalidParameterValue "filter" ("Unknown property: " +:+ ref)).

Definition geometryOperand {A} (ref operators : string) : F A :=
  mfail (RequestError ExceptionOperationProcessingFailed ""
           ("invalid operand: property '" +:+ stripNSPrefix ref +:+ "' is a geometry and cannot be used in " +:+ operators)).

(** ** Comparisons *)

Definition sqlOp (op : comparisonOp) : string :=
  match op with
  | IsEqualTo => "=" | IsNotEqualTo => "<>" | IsLessThan => "<" | IsGreaterThan => ">"
  | IsLessThanOrEqualTo => "<=" | IsGreaterThanOrEqualTo => ">="
  end.

Definition compileComparison (comp : FESComparison) (op : string) : F string :=
  let valueReference := TrimSpace (cmpValueReference comp) in
  if EqualFold valueReference "@gml:id" || EqualFold valueReference "gml:id" then
    let featureID := TrimSpace (cmpLiteral comp) in
    let by_id id := bind [ArgText id] (fun k => column (idColumn c) +:+ "::text " +:+ op +:+ " " +:+ ph k) in
    match featureIDForType featureID (collectionID c) with
    | Some local => by_id local
    | None =>
        match cutLast "." featureID with
        | Some (identifierType, local) =>
            if negb (String.eqb (collectionID c) "")
               && negb (EqualFold (stripNSPrefix identifierType) (stripNSPrefix (collectionID c)))
            then mfail (RequestError ExceptionInvalidParameterValue "filter"
                          ("Feature identifier type '" +:+ identifierType +:+ "' does not match requested type '"
                           +:+ collectionID c +:+ "'"))
            else by_id local
        | None => by_id featureID
        end
    end
  else
    let prop := validateProperty (cmpValueReference comp) in
    if String.eqb prop "" then unknownProperty (cmpValueReference comp)
    else if String.eqb prop gmlPropertyNotMapped then mret "FALSE"
    else if String.eqb prop gmlGeometryProperty then geometryOperand (cmpValueReference comp) "comparison operators"
    else bind [ArgText (cmpLiteral comp)] (fun k => column prop +:+ " " +:+ op +:+ " " +:+ ph k).

Definition compileLike (like : FESPropertyIsLike) : F string :=
  let prop := validateProperty (likeValueReference like) in
  if String.eqb prop "" then unknownProperty (likeValueReference like)
  else if String.eqb prop gmlPropertyNotMapped then mret "FALSE"
  else if String.eqb prop gmlGeometryProperty then geometryOperand (likeValueReference like) "LIKE comparisons"
  else
    let wildCard := if String.eqb (WildCard like) "" then "*" else WildCard like in
    let singleChar := if String.eqb (SingleChar like) "" then "?" else SingleChar like in
    let pattern := ReplaceAll (ReplaceAll (likeLiteral like) wildCard "%") singleChar "_" in
    if String.eqb (likeMatchCase like) "false"
    then bind [ArgText pattern] (fun k => column prop +:+ " ILIKE " +:+ ph k)
    else bind [ArgText pattern] (fun k => column prop +:+ " LIKE " +:+ ph k).

(** [compileIsNull] and [compileIsNil]. *)
Definition compileIsNull (ref : string) : F string :=
  let prop := validateProperty ref in
  if String.eqb prop "" then unknownProperty ref
  else if String.eqb prop gmlPropertyNotMapped then mret "TRUE"
  else if String.eqb prop gmlGeometryProperty then mret (column (geomProp c) +:+ " IS NULL")
  else mret (column prop +:+ " IS NULL").

Definition compileIsNil (ref : string) : F string := compileIsNull ref.

Definition compileBetween (between : FESPropertyIsBetween) : F string :=
  let prop := validateProperty (btwValueReference between) in
  if String.eqb prop "" then unknownProperty (btwValueReference between)
  else if String.eqb prop gmlPropertyNotMapped then mret "FALSE"
  else if String.eqb prop gmlGeometryProperty then geometryOperand (btwValueReference between) "BETWEEN comparisons"
  else bind [ArgText (LowerBoundary between); ArgText (UpperBoundary between)]
         (fun k => column prop +:+ " BETWEEN " +:+ ph k +:+ " AND " +:+ ph (k + 1)).

(** ** Spatial predicates *)

(** The geometry column of a reference; without one it is the collection's. *)
Definition geometryColumn {A} (ref : string) (k : string -> F A) : F A :=
  if String.eqb ref "" then k (geomProp c)
  else
    let geomCol := validateGeometryProperty ref in
    if String.eqb geomCol "" then
      mfail (RequestError ExceptionInvalidParameterValue "filter"
               ("invalid geometry operand: property '" +:+ stripNSPrefix ref +:+ "' is not a geometry"))
    else k geomCol.

Definition inputCRS (value : string) : option (Z * bool) := inputGeometryCRS AuthorityAxisSwap value (sourceSRID c).

Definition finiteFloat (s : string) : option float64 :=
  f ← ParseFloat s; if is_finite_float f then Some f else None.

Definition compileBBOX (bbox : FESBBOX) : F string :=
  match Fields (LowerCorner (bboxEnvelope bbox)), Fields (UpperCorner (bboxEnvelope bbox)) with
  | l0 :: l1 :: _, u0 :: u1 :: _ =>
      match inputCRS (envSrsName (bboxEnvelope bbox)) with
      | None => mfail (PlainError "unsupported input CRS")
      | Some (srid, swap) =>
          geometryColumn (bboxValueReference bbox) (fun geomCol =>
          match finiteFloat l0, finiteFloat l1, finiteFloat u0, finiteFloat u1 with
          | Some a, Some b, Some x, Some y =>
              if float_gtb a x || float_gtb b y then mfail (PlainError "invalid BBOX envelope bounds")
              else
                let coordinates := if swap then [b; a; y; x] else [a; b; x; y] in
                bind (map ArgFloat coordinates) (fun k =>
                  let corners := ph k +:+ ", " +:+ ph (k + 1) +:+ ", " +:+ ph (k + 2) +:+ ", " +:+ ph (k + 3) in
                  let envelope :=
                    match dialect c with
                    | SQLDuckDB => "ST_MakeEnvelope(" +:+ corners +:+ ")"
                    | SQLPostGIS => "ST_MakeEnvelope(" +:+ corners +:+ ", " +:+ pretty srid +:+ ")"
                    end in
                  "ST_Intersects(" +:+ column geomCol +:+ ", " +:+ transformGeometry envelope srid +:+ ")")
          | _, _, _, _ => mfail (PlainError "invalid BBOX coordinate")
          end)
      end
  | _, _ => mfail (PlainError "invalid BBOX envelope")
  end.

Definition isNumber (s : string) : bool := match ParseFloat s with Some _ => true | None => false end.

Definition validateNumericCoords (coords : list string) : bool := forallb isNumber coords.

(** The pairs of a position list; [None] when a coordinate is not a number. A last
    odd field is ignored. *)
Fixpoint coordPairs (swap : bool) (fields : list string) : option (list string) :=
  match fields with
  | a :: b :: rest =>
      if isNumber a && isNumber b then
        cons (if swap then b +:+ " " +:+ a else a +:+ " " +:+ b) <$> coordPairs swap rest
      else None
  | _ => Some []
  end.

Definition posListToWKTCoords (posList : string) (closeRing swap : bool) : string :=
  match coordPairs swap (Fields posList) with
  | None => ""
  | Some coords =>
      let coords :=
        match coords with
        | first :: _ =>
            if closeRing && negb (String.eqb first (lastOr "" coords)) then coords ++ [first] else coords
        | [] => coords
        end in
      Join ", " coords
  end.

Definition geometrySrsName (s : FESSpatial) : string :=
  match spPoint s, spLineString s, spPolygon s, spEnvelope s with
  | Some p, _, _, _ => pointSrsName p
  | _, Some l, _, _ => lineSrsName l
  | _, _, Some p, _ => polySrsName p
  | _, _, _, Some e => envSrsName e
  | _, _, _, _ => ""
  end.

Definition pointWKT (swap : bool) (p : FESPoint) : fesErr + string :=
  match Fields (Pos p) with
  | a :: b :: _ =>
      if validateNumericCoords [a; b]
      then inr ("POINT(" +:+ (if swap then b +:+ " " +:+ a else a +:+ " " +:+ b) +:+ ")")
      else inl (PlainError "invalid Point: non-numeric coordinates")
  | _ => inl (PlainError "invalid Point: requires 2 coordinates")
  end.

Definition lineStringWKT (swap : bool) (l : FESLineString) : fesErr + string :=
  let posList := TrimSpace (linePosList l) in
  if String.eqb posList "" then inl (PlainError "invalid LineString: empty posList")
  else if Nat.ltb (length (Fields posList)) 4
  then inl (PlainError "invalid LineString: requires at least 2 points")
  else
    let coords := posListToWKTCoords posList false swap in
    if String.eqb coords "" then inl (PlainError "invalid LineString: could not parse coordinates")
    else inr ("LINESTRING(" +:+ coords +:+ ")").

Definition polygonWKT (swap : bool) (p : FESPolygon) : fesErr + string :=
  let posList := TrimSpace (ringPosList p) in
  if String.eqb posList "" then inl (PlainError "invalid Polygon: empty posList")
  else if Nat.ltb (length (Fields posList)) 6
  then inl (PlainError "invalid Polygon: requires at least 3 points")
  else
    let coords := posListToWKTCoords posList true swap in
    if String.eqb coords "" then inl (PlainError "invalid Polygon: could not parse coordinates")
    else inr ("POLYGON((" +:+ coords +:+ "))").

Definition envelopeWKT (swap : bool) (e : FESEnvelope) : fesErr + string :=
  match Fields (LowerCorner e), Fields (UpperCorner e) with
  | a :: b :: _, x :: y :: _ =>
      if negb (validateNumericCoords [a; b]) || negb (validateNumericCoords [x; y])
      then inl (PlainError "invalid Envelope: non-numeric coordinates")
      else
        let '(l0, l1, u0, u1) := if swap then (b, a, y, x) else (a, b, x, y) in
        inr ("POLYGON((" +:+ Join ", " [l0 +:+ " " +:+ l1; u0 +:+ " " +:+ l1; u0 +:+ " " +:+ u1; l0 +:+ " " +:+ u1;
                                        l0 +:+ " " +:+ l1] +:+ "))")
  | _, _ => inl (PlainError "invalid Envelope: requires 2 coordinates for each corner")
  end.

Definition buildGeometry (s : FESSpatial) : fesErr + string * Z :=
  match inputCRS (geometrySrsName s) with
  | None => inl (PlainError "unsupported input CRS")
  | Some (srid, swap) =>
      match
        match spPoint s, spLineString s, spPolygon s, spEnvelope s with
        | Some p, _, _, _ => pointWKT swap p
        | _, Some l, _, _ => lineStringWKT swap l
        | _, _, Some p, _ => polygonWKT swap p
        | _, _, _, Some e => envelopeWKT swap e
        | _, _, _, _ => inl (PlainError "unsupported geometry type in spatial filter")
        end
      with
      | inl err => inl err
      | inr wkt => inr (wkt, srid)
      end
  end.

Definition spatialFunction (op : spatialOp) : string :=
  match op with
  | Intersects => "ST_Intersects" | Within => "ST_Within" | SContains => "ST_Contains" | Disjoint => "ST_Disjoint"
  | Touches => "ST_Touches" | Crosses => "ST_Crosses" | Overlaps => "ST_Overlaps"
  end.

Definition compileSpatial (spatial : FESSpatial) (function : string) : F string :=
  geometryColumn (spValueReference spatial) (fun geomCol =>
  match buildGeometry spatial with
  | inl err => mfail err
  | inr (geomWKT, geomSRID) =>
      bind [ArgText geomWKT] (fun k =>
        function +:+ "(" +:+ column geomCol +:+ ", " +:+ geometryLiteral k geomSRID +:+ ")")
  end).

Definition compileDWithin (dwithin : FESDWithin) : F string :=
  geometryColumn (dwValueReference dwithin) (fun geomCol =>
  match dwPoint dwithin with
  | None => mfail (PlainError "DWithin requires a Point geometry")
  | Some point =>
      match buildGeometry (mkSpatial "" (Some point) None None None) with
      | inl err => mfail err
      | inr (wkt, srid) =>
          bind [ArgText wkt; ArgText (DistanceValue dwithin)] (fun k =>
            "ST_DWithin(" +:+ column geomCol +:+ ", " +:+ geometryLiteral k srid +:+ ", " +:+ ph (k + 1) +:+ ")")
      end
  end).

(** ** Temporal predicates *)

Definition validateTemporalProperty {A} (valueRef : string) (k : string -> F A) : F A :=
  let prop := validateProperty valueRef in
  if String.eqb prop "" then unknownProperty valueRef
  else if String.eqb prop gmlPropertyNotMapped then
    mfail (RequestError ExceptionInvalidParameterValue "filter" ("Property '" +:+ valueRef +:+ "' is not mapped to a column"))
  else if String.eqb prop gmlGeometryProperty then geometryOperand valueRef "temporal operators"
  else k prop.

Definition getTimeValue (instant : option string) (period : option GMLTimePeriod) (start : bool) : string :=
  match instant, period with
  | Some t, _ => t
  | None, Some p => if start then BeginPosition p else EndPosition p
  | None, None => ""
  end.

Definition timeRequired {A} (message : string) : F A :=
  mfail (RequestError ExceptionInvalidParameterValue "filter" message).

(** [column op $k::timestamptz]. *)
Definition timeCompare (prop op value : string) : F string :=
  bind [ArgText value] (fun k => column prop +:+ " " +:+ op +:+ " " +:+ ph k +:+ "::timestamptz").

Definition timeBetween (prop lowOp highOp low high : string) : F string :=
  bind [ArgText low; ArgText high] (fun k =>
    "(" +:+ column prop +:+ " " +:+ lowOp +:+ " " +:+ ph k +:+ "::timestamptz AND " +:+ column prop +:+ " " +:+ highOp
    +:+ " " +:+ ph (k + 1) +:+ "::timestamptz)").

Definition compileInstant (t : FESTemporal) (op : string) (start : bool) (message : string) : F string :=
  validateTemporalProperty (tmpValueReference t) (fun prop =>
    let timeValue := getTimeValue (TimeInstant t) (TimePeriod t) start in
    if String.eqb timeValue "" then timeRequired message else timeCompare prop op timeValue).

Definition compilePeriod (t : FESTemporal) (message : string) (k : string -> GMLTimePeriod -> F string) : F string :=
  validateTemporalProperty (tmpValueReference t) (fun prop =>
    match TimePeriod t with None => timeRequired message | Some p => k prop p end).

Definition compileInstantOrPeriod (t : FESTemporal) (message : string) : F string :=
  validateTemporalProperty (tmpValueReference t) (fun prop =>
    match TimeInstant t, TimePeriod t with
    | Some i, _ => timeCompare prop "=" i
    | None, Some p => timeBetween prop ">=" "<=" (BeginPosition p) (EndPosition p)
    | None, None => timeRequired message
    end).

Definition compileAfter t := compileInstant t ">" false "After requires TimeInstant or TimePeriod".
Definition compileBefore t := compileInstant t "<" true "Before requires TimeInstant or TimePeriod".
Definition compileTEquals t := compileInstant t "=" true "TEquals requires TimeInstant or TimePeriod".
Definition compileDuring t :=
  compilePeriod t "During requires TimePeriod" (fun prop p => timeBetween prop ">" "<" (BeginPosition p) (EndPosition p)).
Definition compileBegins t :=
  compilePeriod t "Begins requires TimePeriod" (fun prop p => timeCompare prop "=" (BeginPosition p)).
Definition compileBegunBy t :=
  compilePeriod t "BegunBy requires TimePeriod" (fun prop p => timeCompare prop "=" (BeginPosition p)).
Definition compileTContains t := compileInstantOrPeriod t "TContains requires TimeInstant or TimePeriod".
Definition compileTOverlaps t :=
  compilePeriod t "TOverlaps requires TimePeriod" (fun prop p => timeBetween prop ">=" "<=" (BeginPosition p) (EndPosition p)).
Definition compileMeets t :=
  compilePeriod t "Meets requires TimePeriod" (fun prop p => timeCompare prop "=" (BeginPosition p)).
Definition compileOverlappedBy t :=
  compilePeriod t "OverlappedBy requires TimePeriod" (fun prop p => timeBetween prop ">=" "<=" (BeginPosition p) (EndPosition p)).
Definition compileMetBy t :=
  compilePeriod t "MetBy requires TimePeriod" (fun prop p => timeCompare prop "=" (EndPosition p)).
Definition compileEnds t :=
  compilePeriod t "Ends requires TimePeriod" (fun prop p => timeCompare prop "=" (EndPosition p)).
Definition compileEndedBy t :=
  compilePeriod t "EndedBy requires TimePeriod" (fun prop p => timeCompare prop "=" (EndPosition p)).
Definition compileAnyInteracts t := compileInstantOrPeriod t "AnyInteracts requires TimeInstant or TimePeriod".

Definition compileTemporal (op : temporalOp) (t : FESTemporal) : F string :=
  match op with
  | After => compileAfter t | Before => compileBefore t | During => compileDuring t | Begins => compileBegins t
  | BegunBy => compileBegunBy t | TContains => compileTContains t | TEquals => compileTEquals t
  | TOverlaps => compileTOverlaps t | Meets => compileMeets t | OverlappedBy => compileOverlappedBy t
  | MetBy => compileMetBy t | Ends => compileEnds t | EndedBy => compileEndedBy t | AnyInteracts => compileAnyInteracts t
  end.

(** ** Resource identifiers *)

(** The collection an identifier names (empty when it names none) and its local
    part. *)
Definition splitRid (rid : string) : string * string :=
  match featureIDForType rid (collectionID c) with
  | Some local => (collectionID c, local)
  | None =>
      let dotted :=
        match Split "." rid with
        | p0 :: p1 :: p2 :: rest => (p0 +:+ "." +:+ p1, Join "." (p2 :: rest))
        | [p0; p1] => (p0, p1)
        | _ => ("", rid)
        end in
      match cut "_" rid with
      | Some (prefix, rest) =>
          if negb (String.eqb prefix "")
             && (String.eqb prefix "cite" || String.eqb prefix "app" || HasPrefix (collectionID c) (prefix +:+ ":"))
          then match cutLast "." rest with
               | Some (typePart, local) => (prefix +:+ ":" +:+ typePart, local)
               | None => ("", rid)
               end
          else dotted
      | None => dotted
      end
  end.

Definition ridMismatch (rid : string) : bool :=
  let ridCollectionID := (splitRid rid).1 in
  negb (String.eqb (collectionID c) "") && negb (String.eqb ridCollectionID "")
  && negb (EqualFold (stripNSPrefix ridCollectionID) (stripNSPrefix (collectionID c))).

(** The loop over the identifiers: one argument and one placeholder each. *)
Fixpoint bindRids (ids : list string) : F (list string) :=
  match ids with
  | [] => mret []
  | rid :: rest =>
      if ridMismatch rid then
        mfail (RequestError ExceptionInvalidParameterValue "RESOURCEID"
                 ("ResourceId type '" +:+ (splitRid rid).1 +:+ "' does not match requested type '" +:+ collectionID c +:+ "'"))
      else
        placeholder ← bind [ArgText (splitRid rid).2] ph;
        placeholders ← bindRids rest;
        mret (placeholder :: placeholders)
  end.

Definition compileResourceIds (ids : list string) : F string :=
  match ids with
  | [] => mret ""
  | _ =>
      placeholders ← bindRids ids;
      match placeholders with
      | [] => mret "FALSE"
      | _ => mret (column (idColumn c) +:+ "::text IN (" +:+ Join ", " placeholders +:+ ")")
      end
  end.

(** ** Operators *)

Definition compilePredicate (p : fesPredicate) : F string :=
  match p with
  | PropertyIs op comp => compileComparison comp (sqlOp op)
  | PropertyIsLike l => compileLike l
  | PropertyIsNull ref => compileIsNull ref
  | PropertyIsNil ref => compileIsNil ref
  | PropertyIsBetween b => compileBetween b
  | BBOX b => compileBBOX b
  | Spatial op s => compileSpatial s (spatialFunction op)
  | DWithin d => compileDWithin d
  | Temporal op t => compileTemporal op t
  end.

(** A loop that appends the texts of its elements. *)
Section Loop.
Context {A B : Type} (f : A -> F B).
Fixpoint loop (l : list A) : F (list B) :=
  match l with
  | [] => mret []
  | a :: l' => x ← f a; xs ← loop l'; mret (x :: xs)
  end.
End Loop.

Definition nonEmpty (parts : list string) : list string := List.filter (fun s => negb (String.eqb s "")) parts.

Inductive logicOp : Type := LAnd | LOr | LNot.

Definition separator (op : logicOp) : string := match op with LOr => " OR " | _ => " AND " end.

Definition joined (op : logicOp) (parts : list string) : string :=
  match parts with [] => "" | _ => "(" +:+ Join (separator op) parts +:+ ")" end.

Definition ridParts (ids : list string) : F (list string) :=
  match ids with [] => mret [] | _ => sql ← compileResourceIds ids; mret [sql] end.

(** [compileAnd], [compileOr] and [compileNot]. *)
Fixpoint compileGroup (op : logicOp) (g : fesGroup) : F string :=
  match g with
  | Group And Or Not predicates ResourceId =>
      match op with
      | LNot =>
          sql ← match And, Or, Not, predicates with
                | a :: _, _, _, _ => compileGroup LAnd a
                | [], o :: _, _, _ => compileGroup LOr o
                | [], [], n :: _, _ => compileGroup LNot n
                | [], [], [], p :: _ => compilePredicate p
                | [], [], [], [] => compileResourceIds ResourceId
                end;
          mret (if String.eqb sql "" then "" else "NOT " +:+ sql)
      | _ =>
          a ← loop (compileGroup LAnd) And;
          o ← loop (compileGroup LOr) Or;
          n ← loop (compileGroup LNot) Not;
          p ← loop compilePredicate predicates;
          r ← ridParts ResourceId;
          mret (joined op (nonEmpty a ++ nonEmpty o ++ nonEmpty n ++ p ++ r))
      end
  end.

Definition compileAnd : fesGroup -> F string := compileGroup LAnd.
Definition compileOr : fesGroup -> F string := compileGroup LOr.
Definition compileNot : fesGroup -> F string := compileGroup LNot.

(** [compile] on [FESFilter]: the nested operators are appended even when empty. *)
Definition compile (g : fesGroup) : F string :=
  match g with
  | Group And Or Not predicates ResourceId =>
      a ← loop compileAnd And;
      o ← loop compileOr Or;
      n ← loop compileNot Not;
      p ← loop compilePredicate predicates;
      r ← ridParts ResourceId;
      mret (joined LAnd (a ++ o ++ n ++ p ++ r))
  end.
End Compiler.

Definition configOf (opts : FESCompileOptions) : fesConfig :=
  mkConfig (Dialect opts)
    (if String.eqb (TableAlias opts) "" then "t" else TableAlias opts)
    (GeometryExpression opts)
    (if SourceSRID opts =? 0 then 4326 else SourceSRID opts)
    (GeometryProperty opts) (AllowedProperties opts) (CollectionID opts)
    (if String.eqb (IDColumn opts) "" then "id" else IDColumn opts).

Definition startIndex (opts : FESCompileOptions) : Z :=
  if StartParamIndex opts <=? 0 then 1 else StartParamIndex opts.

(** The condition, its arguments and the next index. *)
Definition CompileFES (AuthorityAxisSwap : Z -> option bool) (filter : fesGroup) (opts : FESCompileOptions)
    : fesErr + string * list fesArg * Z :=
  match compile AuthorityAxisSwap (configOf opts) filter (mkState (startIndex opts) []) with
  | Ok (sql, st) => inr (sql, args st, paramIdx st)
  | Err err => inl err
  | NoFuel => inl (PlainError "")
  end.
