(* ===== verification/FesSafety.v ===== *)
(** * The SQL of a compiled FES filter

    The text of every condition is read by the scanner of [SqlScan]: its identifiers
    are columns the caller allowed, its parameters are the consecutive indices of the
    arguments, and nothing else of the document is in it. *)

From S2P Require Import Prelude GoNum GoText SqlUtil SqlScan Crs FesModels FesCompiler.

(** The pieces of a condition. *)
Definition fesPiece (c : fesConfig) (allowed : gset string) (p : sqlPiece) : Prop :=
  match p with
  | SqlIdent name => name ∈ allowed \/ name = geomProp c \/ name = idColumn c \/ name = tableAlias c
  | SqlLiteral v => exists srid : Z, v = "EPSG:" +:+ pretty srid
  | SqlParam _ => True
  | SqlCode b => codeByte b = true
  end.

Definition indices (k : Z) (n : nat) : list string := prettys (seqZ k (Z.of_nat n)).

Lemma indices_app k m n : indices k (m + n) = indices k m ++ indices (k + Z.of_nat m) n.
Proof. unfold indices. rewrite Nat2Z.inj_add, seqZ_app by lia. apply prettys_app. Qed.

Lemma indices_cons k n : indices k (S n) = pretty k :: indices (k + 1) n.
Proof. exact (indices_app k 1 n). Qed.

Lemma indices_two k : indices k 2 = [pretty k; pretty (k + 1)].
Proof. by rewrite !indices_cons. Qed.

Lemma indices_four k : indices k 4 = [pretty k; pretty (k + 1); pretty (k + 2); pretty (k + 3)].
Proof. rewrite !indices_cons. by rewrite <- !Z.add_assoc. Qed.

Lemma sf_empty Q ks : safeFrag Q "" ks -> ks = [].
Proof.
  intros (ps & _ & <- & Hs). specialize (Hs "" eq_refl). simpl in Hs. injection Hs as Hs.
  rewrite app_nil_r in Hs. by rewrite <- Hs.
Qed.

Lemma sf_join {Q} (Hcode : forall c, codeByte c = true -> Q (SqlCode c)) sep parts kss :
  boundary sep = true -> sep <> "" -> all_bytes codeByte sep = true ->
  Forall2 (safeFrag Q) parts kss -> safeFrag Q (Join sep parts) (concat kss).
Proof.
  intros Hb Hne Hc. induction 1 as [|p ks parts kss Hp Hps IH]; [apply sf_nil|].
  destruct parts as [|q parts]; [inversion Hps; subst; simpl; by rewrite app_nil_r|].
  change (Join sep (p :: q :: parts)) with (p +:+ sep +:+ Join sep (q :: parts)). cbn [concat].
  apply sf_app; [done| |by apply sf_code]. destruct sep; [done|done].
Qed.

(** The recursion of the operators. *)
Fixpoint groupSize (g : fesGroup) : nat :=
  match g with
  | Group And Or Not _ _ => S (list_sum (map groupSize And) + list_sum (map groupSize Or) + list_sum (map groupSize Not))
  end.

Lemma groupSize_in l g : g ∈ l -> (groupSize g <= list_sum (map groupSize l))%nat.
Proof.
  induction l as [|x l IHl]; intros Hg; [by apply elem_of_nil in Hg|].
  apply elem_of_cons in Hg as [->|Hg]; simpl; [lia|]. specialize (IHl Hg). lia.
Qed.

Section Safety.
Context (swap : Z -> option bool) (c : fesConfig) (allowed : gset string).
Context (Hallowed : allowedProperties c = Some allowed).
Abbreviation Q := (fesPiece c allowed).
Abbreviation sf := (safeFrag Q).
Context (Hexpr : geometryExpression c = "" \/ sf (geometryExpression c) []).

Lemma fes_code b : codeByte b = true -> Q (SqlCode b).
Proof. done. Qed.

Ltac piece :=
  match goal with
  | H : sf ?s _ |- sf ?s _ => exact H
  | |- sf ("" +:+ _) _ => rewrite sapp_nil_l
  | |- sf (_ +:+ _) _ => first [ apply (sf_code fes_code); [done|] | eapply sf_app; [|done|] ]
  | |- sf _ _ => apply (sf_text fes_code); done
  end.
Ltac pieces := eapply sf_eq; [repeat piece | rewrite ?app_nil_r; cbn [app length]; rewrite ?app_nil_r, ?indices_two, ?indices_four; try done].

Lemma sf_ph k : 0 <= k -> sf (ph k) [pretty k].
Proof. intros. by apply sf_param. Qed.

Lemma sf_column name :
  name ∈ allowed \/ name = geomProp c \/ name = idColumn c -> sf (column c name) [].
Proof.
  intros Hname. assert (Hi : sf (QuoteIdent name) []) by (apply sf_ident; simpl; tauto).
  unfold column. destruct (String.eqb name _ && _) eqn:E.
  - apply andb_true_iff in E as [_ E%negb_true_iff%String.eqb_neq]. by destruct Hexpr.
  - set (alias := if String.eqb (tableAlias c) "" then "t" else tableAlias c).
    destruct (String.eqb_spec alias "t") as [->|Ht]; [simpl; pieces|].
    destruct (String.eqb_spec alias "v") as [->|Hv]; [simpl; pieces|]. simpl.
    assert (Ha : sf (QuoteIdent alias) []).
    { apply sf_ident. simpl. subst alias. destruct (String.eqb (tableAlias c) ""); tauto. }
    pieces.
Qed.

Lemma sf_epsg (srid : Z) : sf (String squote ("EPSG:" +:+ pretty srid) +:+ String squote "") [].
Proof. apply sf_literal; [apply EPSG_piece|by exists srid]. Qed.

Lemma sf_transform expr srid ks : sf expr ks -> sf (transformGeometry c expr srid) ks.
Proof.
  intros He. unfold transformGeometry. destruct (srid =? sourceSRID c); [done|]. destruct (dialect c).
  - apply (sf_code fes_code); [done|]. eapply sf_eq; [eapply sf_app; [exact He|done|]|apply app_nil_r].
    apply (sf_code fes_code); [done|]. apply (sf_code fes_code); [apply code_number|pieces].
  - pose proof (sf_epsg srid) as H1. pose proof (sf_epsg (sourceSRID c)) as H2.
    assert (E : "ST_Transform(" +:+ expr +:+ ", 'EPSG:" +:+ pretty srid +:+ "', 'EPSG:"
       +:+ pretty (sourceSRID c) +:+ "', always_xy := true)"
       = "ST_Transform(" +:+ expr +:+ ", " +:+ (String squote ("EPSG:" +:+ pretty srid) +:+ String squote "") +:+ ", "
         +:+ (String squote ("EPSG:" +:+ pretty (sourceSRID c)) +:+ String squote "") +:+ ", always_xy := true)").
    { unfold squote. rewrite ?sapp_cons, ?sapp_nil_l, ?sapp_assoc, ?sapp_cons, ?sapp_nil_l. done. }
    rewrite E. pieces.
Qed.

Lemma sf_number_then s ks (k : Z) : sf s ks -> sf (pretty k +:+ s) ks.
Proof. apply (sf_code fes_code), code_number. Qed.

Lemma sf_geometryLiteral k srid : 0 <= k -> sf (geometryLiteral c k srid) [pretty k].
Proof.
  intros Hk. pose proof (sf_ph k Hk) as Hp. apply sf_transform. destruct (dialect c); [|pieces].
  apply (sf_code fes_code); [done|]. eapply sf_eq; [eapply sf_app; [exact Hp|done|]|apply app_nil_r].
  apply (sf_code fes_code); [done|]. apply sf_number_then. pieces.
Qed.

(** ** Computations that emit a safe fragment *)

(** From any index [k] on: the text is safe, its parameters are those of the
    arguments it adds. *)
Definition emits (m : F string) : Prop := forall st, 0 <= paramIdx st ->
  wp m (fun sql st' => exists vs, args st' = args st ++ vs /\ paramIdx st' = paramIdx st + Z.of_nat (length vs)
                       /\ sf sql (indices (paramIdx st) (length vs))) st.

Lemma emits_ret sql : sf sql [] -> emits (mret sql).
Proof. intros H st Hk. exists []. split_and!; [by rewrite app_nil_r|simpl; lia|done]. Qed.

Lemma emits_fail err : emits (mfail err).
Proof. done. Qed.

Lemma emits_bind vs f :
  (forall k, 0 <= k -> sf (f k) (indices k (length vs))) -> emits (bind vs f).
Proof. intros H st Hk. exists vs. split_and!; [done..|by apply H]. Qed.

#[local] Hint Resolve emits_fail : core.

(** The property names that reach a column. *)
Lemma validateProperty_safe prop :
  validateProperty c prop <> "" -> validateProperty c prop <> gmlPropertyNotMapped ->
  validateProperty c prop <> gmlGeometryProperty -> sf (column c (validateProperty c prop)) [].
Proof.
  intros H1 H2 H3. apply sf_column. left. revert H1 H2 H3. unfold validateProperty. rewrite Hallowed.
  repeat case_match; try done.
Qed.

(** The four outcomes of the property reference in the goal. *)
Ltac property_cases Hcol :=
  match goal with
  | |- context [validateProperty c ?ref] =>
      let H1 := fresh in let H2 := fresh in let H3 := fresh in
      destruct (String.eqb_spec (validateProperty c ref) "") as [|H1];
      [|destruct (String.eqb_spec (validateProperty c ref) gmlPropertyNotMapped) as [|H2];
        [|destruct (String.eqb_spec (validateProperty c ref) gmlGeometryProperty) as [|H3];
          [|pose proof (validateProperty_safe ref H1 H2 H3) as Hcol]]]
  end; try apply emits_fail.

Lemma code_op op : all_bytes codeByte (sqlOp op) = true.
Proof. by destruct op. Qed.

Lemma emits_text sql : all_bytes codeByte sql = true -> emits (mret sql).
Proof. intros. by apply emits_ret, (sf_text fes_code). Qed.

Lemma emits_comparison comp op : emits (compileComparison c comp (sqlOp op)).
Proof.
  pose proof (code_op op) as Hop. unfold compileComparison. destruct (_ || _).
  - assert (Hc : sf (column c (idColumn c)) []) by (apply sf_column; auto).
    assert (Hid : forall id, emits (bind [ArgText id]
              (fun k => column c (idColumn c) +:+ "::text " +:+ sqlOp op +:+ " " +:+ ph k))).
    { intros id. apply emits_bind. intros k Hk. pose proof (sf_ph k Hk).
      eapply sf_eq; [eapply sf_app; [exact Hc|done|]|reflexivity].
      apply (sf_code fes_code); [done|]. by apply (sf_code fes_code); [|pieces]. }
    repeat case_match; auto.
  - property_cases Hc; [by apply emits_text|]. apply emits_bind. intros k Hk. pose proof (sf_ph k Hk).
    eapply sf_eq; [eapply sf_app; [exact Hc|done|]|reflexivity].
    apply (sf_code fes_code); [done|]. by apply (sf_code fes_code); [|pieces].
Qed.

Lemma emits_like like : emits (compileLike c like).
Proof.
  unfold compileLike. property_cases Hc; [by apply emits_text|].
  case_match; apply emits_bind; intros k Hk; pose proof (sf_ph k Hk); pieces.
Qed.

Lemma emits_isNull ref : emits (compileIsNull c ref).
Proof.
  unfold compileIsNull. property_cases Hc; [by apply emits_text| |].
  - assert (Hg : sf (column c (geomProp c)) []) by (apply sf_column; auto). apply emits_ret. pieces.
  - apply emits_ret. pieces.
Qed.

Lemma emits_between b : emits (compileBetween c b).
Proof.
  unfold compileBetween. property_cases Hc; [by apply emits_text|].
  apply emits_bind. intros k Hk. pose proof (sf_ph k Hk). pose proof (sf_ph (k + 1) ltac:(lia)). pieces.
Qed.

Lemma emits_geometryColumn ref k :
  (forall g, sf (column c g) [] -> emits (k g)) -> emits (geometryColumn c ref k).
Proof.
  intros Hk. unfold geometryColumn, validateGeometryProperty.
  assert (Hg : sf (column c (geomProp c)) []) by (apply sf_column; auto).
  repeat case_match; auto using emits_fail; done.
Qed.

Lemma emits_bbox b : emits (compileBBOX swap c b).
Proof.
  unfold compileBBOX. destruct (Fields _) as [|l0 [|l1 ?]]; try apply emits_fail.
  destruct (Fields _) as [|u0 [|u1 ?]]; try apply emits_fail.
  destruct (inputCRS _ _ _) as [[srid sw]|]; [|apply emits_fail]. apply emits_geometryColumn. intros g Hg.
  do 4 (destruct (finiteFloat _); [|apply emits_fail]). destruct (_ || _); [apply emits_fail|].
  apply emits_bind. intros k Hk. rewrite length_map.
  replace (length _) with 4%nat by (by destruct sw).
  pose proof (sf_ph k Hk). pose proof (sf_ph (k + 1) ltac:(lia)).
  pose proof (sf_ph (k + 2) ltac:(lia)). pose proof (sf_ph (k + 3) ltac:(lia)).
  set (corners := ph k +:+ _).
  assert (Hc : sf corners (indices k 4)) by (subst corners; pieces).
  set (envelope := match dialect c with SQLPostGIS => _ | SQLDuckDB => _ end).
  assert (He : sf (transformGeometry c envelope srid) (indices k 4)).
  { apply sf_transform. subst envelope. destruct (dialect c); [|pieces].
    apply (sf_code fes_code); [done|]. eapply sf_eq; [eapply sf_app; [exact Hc|done|]|apply app_nil_r].
    apply (sf_code fes_code); [done|]. apply sf_number_then. pieces. }
  pieces.
Qed.

Lemma fes_code_function op : all_bytes codeByte (spatialFunction op) = true.
Proof. by destruct op. Qed.

Lemma emits_spatial s op : emits (compileSpatial swap c s (spatialFunction op)).
Proof.
  apply emits_geometryColumn. intros g Hg. destruct (buildGeometry _ _ _) as [|[wkt srid]]; [apply emits_fail|].
  apply emits_bind. intros k Hk. pose proof (sf_geometryLiteral k srid Hk).
  apply (sf_code fes_code); [apply fes_code_function|]. pieces.
Qed.

Lemma emits_dwithin d : emits (compileDWithin swap c d).
Proof.
  apply emits_geometryColumn. intros g Hg. destruct (dwPoint d) as [point|]; [|apply emits_fail].
  destruct (buildGeometry _ _ _) as [|[wkt srid]]; [apply emits_fail|].
  apply emits_bind. intros k Hk. pose proof (sf_geometryLiteral k srid Hk).
  pose proof (sf_ph (k + 1) ltac:(lia)). pieces.
Qed.

Lemma emits_temporal op t : emits (compileTemporal c op t).
Proof.
  assert (Hcmp : forall p o v, sf (column c p) [] -> all_bytes codeByte o = true -> emits (timeCompare c p o v)).
  { intros p o v Hp Ho. apply emits_bind. intros k Hk. pose proof (sf_ph k Hk).
    eapply sf_eq; [eapply sf_app; [exact Hp|done|]|reflexivity].
    apply (sf_code fes_code); [done|]. apply (sf_code fes_code); [done|pieces]. }
  assert (Hbtw : forall p o1 o2 v1 v2, sf (column c p) [] -> all_bytes codeByte o1 = true -> all_bytes codeByte o2 = true ->
            emits (timeBetween c p o1 o2 v1 v2)).
  { intros p o1 o2 v1 v2 Hp H1 H2. apply emits_bind. intros k Hk. pose proof (sf_ph k Hk).
    pose proof (sf_ph (k + 1) ltac:(lia)). apply (sf_code fes_code); [done|].
    eapply sf_eq; [eapply sf_app; [exact Hp|done|]|].
    - apply (sf_code fes_code); [done|]. apply (sf_code fes_code); [exact H1|]. apply (sf_code fes_code); [done|].
      eapply sf_app; [done|done|]. apply (sf_code fes_code); [done|]. eapply sf_app; [exact Hp|done|].
      apply (sf_code fes_code); [done|]. apply (sf_code fes_code); [exact H2|pieces].
    - symmetry. apply indices_two. }
  assert (Hval : forall ref k, (forall p, sf (column c p) [] -> emits (k p)) -> emits (validateTemporalProperty c ref k)).
  { intros ref k Hk. unfold validateTemporalProperty. property_cases Hc. by apply Hk. }
  destruct op; apply Hval; intros p Hp; cbn beta zeta; repeat case_match;
    first [by apply Hcmp | by apply Hbtw | apply emits_fail].
Qed.

Lemma emits_predicate p : emits (compilePredicate swap c p).
Proof.
  destruct p; simpl; auto using emits_comparison, emits_like, emits_isNull, emits_between, emits_bbox, emits_spatial,
    emits_dwithin, emits_temporal.
Qed.

(** ** Lists of fragments and the operators *)

(** What was emitted since [st0]: the arguments and the safe parts. *)
Definition grown (st0 st : fesState) (parts : list string) : Prop :=
  exists vs kss, args st = args st0 ++ vs /\ paramIdx st = paramIdx st0 + Z.of_nat (length vs)
    /\ Forall2 sf parts kss /\ concat kss = indices (paramIdx st0) (length vs).

Definition emitsAll (m : F (list string)) : Prop := forall st, 0 <= paramIdx st ->
  wp m (fun parts st' => grown st st' parts) st.

Lemma grown_nil st : grown st st [].
Proof. exists [], []. split_and!; [by rewrite app_nil_r|simpl; lia|constructor|done]. Qed.

Lemma grown_app st0 st st' a b : grown st0 st a -> grown st st' b -> grown st0 st' (a ++ b).
Proof.
  intros (vs1 & ks1 & A1 & I1 & S1 & C1) (vs2 & ks2 & A2 & I2 & S2 & C2). exists (vs1 ++ vs2), (ks1 ++ ks2).
  rewrite A2, A1, I2, I1, length_app, indices_app, app_assoc, concat_app, C1, C2 in *.
  split_and!; [done|lia|by apply Forall2_app|done].
Qed.

(** Empty parts have no parameters. *)
Lemma grown_nonEmpty st0 st parts : grown st0 st parts -> grown st0 st (nonEmpty parts).
Proof.
  intros (vs & kss & A & I & S & C). exists vs. rewrite <- C. clear C. cut (exists kss',
    Forall2 sf (nonEmpty parts) kss' /\ concat kss' = concat kss); [intros (kss' & H & E); eauto|].
  induction S as [|p ks parts kss Hp HS (kss' & IH & E)]; [by exists []|]. simpl.
  destruct (String.eqb_spec p "") as [->|Hne]; simpl.
  - exists kss'. apply sf_empty in Hp as ->. done.
  - exists (ks :: kss'). simpl. rewrite E. split; [by constructor|done].
Qed.

Lemma grown_idx st0 st parts : grown st0 st parts -> 0 <= paramIdx st0 -> 0 <= paramIdx st.
Proof. intros (vs & kss & A & I & S & C) H. lia. Qed.

Lemma emits_grown (m : F string) st (P : string -> fesState -> Prop) :
  0 <= paramIdx st -> emits m -> (forall sql st', grown st st' [sql] -> P sql st') -> wp m P st.
Proof.
  intros Hk Hm HP. eapply wp_mono; [by apply Hm|]. intros sql st' (vs & A & I & S). apply HP.
  exists vs, [indices (paramIdx st) (length vs)]. split_and!; [done..|by constructor|]. simpl. apply app_nil_r.
Qed.

Lemma emitsAll_loop {A} (f : A -> F string) l : (forall a, a ∈ l -> emits (f a)) -> emitsAll (loop f l).
Proof.
  induction l as [|a l IH]; intros H st Hk; [apply grown_nil|]. cbn [loop]. apply wp_bind.
  apply emits_grown; [done|apply H; left|]. intros sql st1 H1. apply wp_bind.
  eapply wp_mono; [apply IH; [intros; apply H; by right|by eapply grown_idx]|]. intros parts st2 H2.
  apply wp_ret. by apply (grown_app st st1 st2 [sql] parts).
Qed.

(** One more loop of an operator; its empty parts may be dropped. *)
Lemma wp_more m st0 st acc (P : list string -> fesState -> Prop) :
  0 <= paramIdx st0 -> grown st0 st acc -> emitsAll m ->
  (forall x st', grown st0 st' (acc ++ x) -> grown st0 st' (acc ++ nonEmpty x) -> P x st') -> wp m P st.
Proof.
  intros Hk Hg Hm HP. eapply wp_mono; [apply Hm; by eapply grown_idx|]. intros x st' Hx.
  apply HP; eauto using grown_app, grown_nonEmpty.
Qed.

Lemma emits_joined op st0 st parts :
  grown st0 st parts ->
  exists vs, args st = args st0 ++ vs /\ paramIdx st = paramIdx st0 + Z.of_nat (length vs)
    /\ sf (joined op parts) (indices (paramIdx st0) (length vs)).
Proof.
  intros (vs & kss & A & I & S & C). exists vs. split_and!; [done..|]. rewrite <- C.
  destruct parts as [|p parts]; [inversion S; apply sf_nil|].
  assert (Hj : sf (Join (separator op) (p :: parts)) (concat kss)) by (apply (sf_join fes_code); by destruct op).
  unfold joined. pieces.
Qed.

Lemma emits_rids ids : emits (compileResourceIds c ids).
Proof.
  assert (Hb : emitsAll (bindRids c ids)).
  { induction ids as [|rid ids IH]; intros st Hk; [apply grown_nil|]. cbn [bindRids].
    destruct (ridMismatch c rid); [done|]. apply wp_bind. apply emits_grown; [done| |].
    - apply emits_bind. intros k Hk'. by apply sf_ph.
    - intros sql st1 H1. apply wp_bind. eapply wp_mono; [apply IH; by eapply grown_idx|]. intros parts st2 H2.
      apply wp_ret. by apply (grown_app st st1 st2 [sql] parts). }
  unfold compileResourceIds. destruct ids as [|rid ids]; [apply emits_ret, sf_nil|]. intros st Hk.
  apply wp_bind. eapply wp_mono; [by apply Hb|]. intros parts st' (vs & kss & A & I & S & C).
  assert (Hc : sf (column c (idColumn c)) []) by (apply sf_column; auto).
  destruct parts as [|p parts]; apply wp_ret; exists vs; split_and!; try done; rewrite <- C.
  - inversion S. by apply (sf_text fes_code).
  - assert (Hj : sf (Join ", " (p :: parts)) (concat kss)) by by apply (sf_join fes_code). pieces.
Qed.

Lemma emitsAll_rids ids : emitsAll (ridParts c ids).
Proof.
  intros st Hk. destruct ids as [|rid ids]; [apply grown_nil|]. unfold ridParts. apply wp_bind.
  apply emits_grown; [done|apply emits_rids|]. intros sql st' H. by apply wp_ret.
Qed.

Lemma emits_not m : emits m -> emits (sql ← m; mret (if String.eqb sql "" then "" else "NOT " +:+ sql)).
Proof.
  intros Hm st Hk. apply wp_bind. eapply wp_mono; [by apply Hm|]. intros sql st' (vs & A & I & S).
  apply wp_ret. exists vs. split_and!; [done..|]. destruct (String.eqb_spec sql "") as [->|]; [done|pieces].
Qed.

Lemma emits_group n op g : (groupSize g < n)%nat -> emits (compileGroup swap c op g).
Proof.
  revert op g. induction n as [|n IH]; intros op [And Or Not preds ids] Hn; [lia|]. cbn [groupSize] in Hn.
  assert (HA : forall g o, g ∈ And -> emits (compileGroup swap c o g)) by (intros g o Hg%groupSize_in; apply IH; lia).
  assert (HO : forall g o, g ∈ Or -> emits (compileGroup swap c o g)) by (intros g o Hg%groupSize_in; apply IH; lia).
  assert (HN : forall g o, g ∈ Not -> emits (compileGroup swap c o g)) by (intros g o Hg%groupSize_in; apply IH; lia).
  assert (Hparts : op <> LNot -> emits (compileGroup swap c op (Group And Or Not preds ids))).
  { intros Hop st Hk. destruct op; [..|done]; cbn [compileGroup];
    (apply wp_bind; eapply wp_more; [done|apply grown_nil|by apply emitsAll_loop; auto|]; intros a st1 _ H1; cbn [app] in H1;
     apply wp_bind; eapply wp_more; [done|exact H1|by apply emitsAll_loop; auto|]; intros o st2 _ H2;
     apply wp_bind; eapply wp_more; [done|exact H2|by apply emitsAll_loop; auto|]; intros x st3 _ H3;
     apply wp_bind; eapply wp_more; [done|exact H3|apply emitsAll_loop; intros; apply emits_predicate|]; intros p st4 H4 _;
     apply wp_bind; eapply wp_more; [done|exact H4|apply emitsAll_rids|]; intros r st5 H5 _;
     apply wp_ret; apply emits_joined; rewrite <- ?app_assoc in H5; exact H5). }
  destruct op; [by apply Hparts..|]. cbn [compileGroup]. apply emits_not.
  destruct And as [|a And]; [|apply HA; left]. destruct Or as [|o Or]; [|apply HO; left].
  destruct Not as [|x Not]; [|apply HN; left]. destruct preds as [|p preds]; [apply emits_rids|apply emits_predicate].
Qed.

Lemma emits_operator op g : emits (compileGroup swap c op g).
Proof. apply (emits_group (S (groupSize g))). lia. Qed.

Lemma emits_compile g : emits (compile swap c g).
Proof.
  destruct g as [And Or Not preds ids]. intros st Hk. unfold compile.
  apply wp_bind; eapply wp_more;
    [done|apply grown_nil|apply emitsAll_loop; intros; apply emits_operator|]; intros a st1 H1 _; cbn [app] in H1.
  apply wp_bind; eapply wp_more; [done|exact H1|apply emitsAll_loop; intros; apply emits_operator|]; intros o st2 H2 _.
  apply wp_bind; eapply wp_more; [done|exact H2|apply emitsAll_loop; intros; apply emits_operator|]; intros x st3 H3 _.
  apply wp_bind; eapply wp_more; [done|exact H3|apply emitsAll_loop; intros; apply emits_predicate|]; intros p st4 H4 _.
  apply wp_bind; eapply wp_more; [done|exact H4|apply emitsAll_rids|]; intros r st5 H5 _.
  apply wp_ret, emits_joined. by rewrite <- ?app_assoc in H5.
Qed.
End Safety.

(** C2: whatever the document, a compiled FES filter is scanned without an open
    quote; its identifiers are allowed properties or the geometry column, the
    identifier column and the table alias of the caller, its literals name coordinate
    systems, and its parameters are exactly the indices of its arguments, in order.
    (A geometry expression is trusted as far as it is such a fragment itself.) *)
Theorem CompileFES_safe swap filter opts allowed sql vs next :
  AllowedProperties opts = Some allowed ->
  GeometryExpression opts = "" \/ safeFrag (fesPiece (configOf opts) allowed) (GeometryExpression opts) [] ->
  CompileFES swap filter opts = inr (sql, vs, next) ->
  next = startIndex opts + Z.of_nat (length vs)
  /\ exists ps, sqlScan sql = Some ps /\ Forall (fesPiece (configOf opts) allowed) ps
              /\ params ps = indices (startIndex opts) (length vs).
Proof.
  intros Ha Hg. unfold CompileFES.
  assert (Hi : 0 <= startIndex opts) by (unfold startIndex; destruct (Z.leb_spec (StartParamIndex opts) 0); lia).
  pose proof (emits_compile swap (configOf opts) allowed Ha Hg filter (mkState (startIndex opts) []) Hi) as H.
  unfold wp in H. destruct (compile _ _ _ _) as [[sql' st]|err|]; [|done..]. intros [= -> <- <-].
  destruct H as (vs & A & I & S). simpl in *. rewrite A. split; [done|]. by apply sf_scan in S.
Qed.

Definition exampleOptions : FESCompileOptions :=
  mkOptions SQLPostGIS "" "" 3 0 "geom" (Some {["height"; "name"]}) "app:roads" "".

(** The identifiers are two, the comparison is negated. *)
Definition exampleFilter : fesGroup :=
  Group [] [] [Group [] [] [] [PropertyIs IsEqualTo (mkComparison "" "app:height" "1' OR '1")] []] []
    ["roads.7"; "app:roads.8"].

Definition exampleSQL : string :=
  "(NOT t." +:+ QuoteIdent "height" +:+ " = $3 AND t." +:+ QuoteIdent "id" +:+ "::text IN ($4, $5))".

Lemma CompileFES_safe_witness :
  CompileFES (fun _ => None) exampleFilter exampleOptions
    = inr (exampleSQL, [ArgText "1' OR '1"; ArgText "7"; ArgText "8"], 6)
  /\ exists ps, sqlScan exampleSQL = Some ps /\ params ps = ["3"; "4"; "5"].
Proof.
  assert (E : CompileFES (fun _ => None) exampleFilter exampleOptions
    = inr (exampleSQL, [ArgText "1' OR '1"; ArgText "7"; ArgText "8"], 6)) by (vm_compute; reflexivity).
  destruct (CompileFES_safe (fun _ => None) exampleFilter exampleOptions {["height"; "name"]} _ _ _
    eq_refl (or_introl eq_refl) E) as (_ & ps & Hs & _ & Hp).
  split; [exact E|]. exists ps. split; [exact Hs|exact Hp].
Defined.
