(* ===== verification/FesMeaning.v ===== *)
(** * The meaning of a compiled FES filter

    What a filter document means, over any truth values of its predicates in the
    three-valued logic of SQL, is read off its elements in document order
    ([docMeaning]). Validation, decoding into fields and compilation keep it: the
    emitted text reads as a condition with that truth value ([reads]), except that
    several resource identifiers in one [And] become alternatives. Without the
    validation it would not: empty operators vanish from the text and a decoder drops
    elements it does not know. *)

From S2P Require Import Prelude GoText SqlUtil ProtocolRequest XmlTree Crs FesModels FesCompiler FesSafety.

(** ** Three-valued logic; [None] is unknown *)

Abbreviation tri := (option bool).

Definition not3 (a : tri) : tri := negb <$> a.

Definition and3 (a b : tri) : tri :=
  match a, b with
  | Some false, _ | _, Some false => Some false
  | Some true, x | x, Some true => x
  | None, None => None
  end.

Definition or3 (a b : tri) : tri := not3 (and3 (not3 a) (not3 b)).

Definition all3 (l : list tri) : tri := foldr and3 (Some true) l.
Definition any3 (l : list tri) : tri := foldr or3 (Some false) l.

Lemma and3_one a : and3 a (Some true) = a.
Proof. by destruct a as [[]|]. Qed.

#[export] Instance all3_perm : Proper ((≡ₚ) ==> (=)) all3.
Proof.
  intros l l'. induction 1 as [| x l l' _ IH | x y l | ]; [done|simpl; by rewrite IH| |congruence].
  simpl. generalize (all3 l). by intros [[]|]; destruct x as [[]|], y as [[]|].
Qed.

#[export] Instance any3_perm : Proper ((≡ₚ) ==> (=)) any3.
Proof.
  intros l l'. induction 1 as [| x l l' _ IH | x y l | ]; [done|simpl; by rewrite IH| |congruence].
  simpl. generalize (any3 l). by intros [[]|]; destruct x as [[]|], y as [[]|].
Qed.

(** The term of the resource identifiers of one operator: any of them. *)
Definition ridTerm (ridVal : string -> tri) (ids : list string) : list tri :=
  match ids with [] => [] | _ => [any3 (map ridVal ids)] end.

(** The connective of an operator. *)
Definition connect (op : logicOp) (l : list tri) : tri :=
  match op with LAnd => all3 l | LOr => any3 l | LNot => not3 (all3 l) end.

#[export] Instance connect_perm op : Proper ((≡ₚ) ==> (=)) (connect op).
Proof. intros l l' H. destruct op; simpl; by rewrite H. Qed.

Section Meaning.
Context (swap : Z -> option bool) (c : fesConfig).
Context (val : fesPredicate -> tri) (ridVal : string -> tri).

(** ** Documents *)

Definition values (l : list (string + tri)) : list tri := omap (fun x => match x with inr v => Some v | inl _ => None end) l.
Definition ridsOf (l : list (string + tri)) : list string := omap (fun x => match x with inl r => Some r | inr _ => None end) l.

Definition combine3 (op : logicOp) (l : list (string + tri)) : tri :=
  connect op (values l ++ ridTerm ridVal (ridsOf l)).

Definition operatorOf (name : string) : option logicOp :=
  assoc name [("And", LAnd); ("Or", LOr); ("Not", LNot)].

(** What the fields of the decoded structures say: the identifiers of one operator are one term. *)
Fixpoint fieldMeaning (n : xmlNode) : option (string + tri) :=
  match n with
  | Elem e ch =>
      let name := elemLocal e in
      match operatorOf name with
      | Some op => Some (inr (combine3 op (omap fieldMeaning ch)))
      | None =>
          if String.eqb name "ResourceId" then Some (inl (lastAttr "rid" (elemAttr e) ""))
          else inr ∘ val <$> decodePredicate e ch
      end
  | _ => None
  end.

(** What the document says: every child of an operator is an operand of its own. *)
Definition operand (x : string + tri) : tri := match x with inl r => ridVal r | inr v => v end.

(** An element is a resource identifier or has a truth value. *)
Fixpoint nodeMeaning (n : xmlNode) : option (string + tri) :=
  match n with
  | Elem e ch =>
      let name := elemLocal e in
      match operatorOf name with
      | Some op => Some (inr (connect op (map operand (omap nodeMeaning ch))))
      | None =>
          if String.eqb name "ResourceId" then Some (inl (lastAttr "rid" (elemAttr e) ""))
          else inr ∘ val <$> decodePredicate e ch
      end
  | _ => None
  end.

(** The [Filter] element holds when its predicate does; its resource identifiers are a list of the
    features to select, any of them. *)
Definition docMeaning (l : list xmlNode) : tri :=
  match rootElement l with
  | Some (_, ch) => combine3 LAnd (omap nodeMeaning ch)
  | None => None
  end.

Definition isResourceId (n : xmlNode) : bool :=
  match n with Elem e _ => String.eqb (elemLocal e) "ResourceId" | _ => false end.

(** No operator but [Or] has several resource identifiers among its operands; a [Not] that had would
    not pass the validation. *)
Fixpoint idsApart (n : xmlNode) : bool :=
  match n with
  | Elem e ch =>
      match operatorOf (elemLocal e) with
      | None => true
      | Some LOr => forallb idsApart ch
      | Some _ => (length (filter (fun x => isResourceId x = true) ch) <=? 1)%nat && forallb idsApart ch
      end
  | _ => true
  end.

Definition docIdsApart (l : list xmlNode) : bool :=
  match rootElement l with Some (_, ch) => forallb idsApart ch | None => true end.

Lemma operands_perm l : map operand l ≡ₚ values l ++ map ridVal (ridsOf l).
Proof.
  induction l as [|[r|v] l IH]; [done| |].
  - change (ridVal r :: map operand l ≡ₚ values l ++ ridVal r :: map ridVal (ridsOf l)). by rewrite IH, Permutation_middle.
  - change (v :: map operand l ≡ₚ v :: values l ++ map ridVal (ridsOf l)). by rewrite IH.
Qed.

Lemma or3_facts a b d : or3 a (Some false) = a /\ or3 (Some false) a = a /\ or3 (or3 a b) d = or3 a (or3 b d).
Proof. by destruct a as [[]|], b as [[]|], d as [[]|]. Qed.

Lemma any3_app l l' : any3 (l ++ l') = or3 (any3 l) (any3 l').
Proof.
  induction l as [|a l IH]; [symmetry; by apply (or3_facts _ None None)|]. change (any3 ((a :: l) ++ l')) with (or3 a (any3 (l ++ l'))).
  rewrite IH. change (any3 (a :: l)) with (or3 a (any3 l)). by destruct (or3_facts a (any3 l) (any3 l')) as (_ & _ & ->).
Qed.

(** The two readings of an operator agree but on several identifiers of one conjunction. *)
Lemma connect_operands op l : op = LOr \/ (length (ridsOf l) <= 1)%nat -> connect op (map operand l) = combine3 op l.
Proof.
  intros Hop. unfold combine3. rewrite operands_perm. destruct Hop as [->|Hlen].
  - cbn [connect]. rewrite !any3_app. f_equal. destruct (ridsOf l) as [|r rs]; [done|]. cbn [ridTerm].
    change (any3 (map ridVal (r :: rs)) = or3 (any3 (map ridVal (r :: rs))) (Some false)). symmetry. by apply (or3_facts _ None None).
  - destruct (ridsOf l) as [|r [|]]; [done| |simpl in Hlen; lia]. cbn [map ridTerm].
    assert (any3 [ridVal r] = ridVal r) as ->; [|done]. by apply (or3_facts (ridVal r) None None).
Qed.

Lemma ridsOf_count (f : xmlNode -> option (string + tri)) ch :
  (forall n r, f n = Some (inl r) -> isResourceId n = true) ->
  (length (ridsOf (omap f ch)) <= length (filter (fun x => isResourceId x = true) ch))%nat.
Proof.
  intros Hf. induction ch as [|n ch IH]; [done|]. cbn [omap list_omap]. rewrite filter_cons.
  destruct (f n) as [[r|v]|] eqn:E.
  - rewrite decide_True by (by eapply Hf). change (ridsOf (inl r :: omap f ch)) with (r :: ridsOf (omap f ch)). cbn [length]. lia.
  - change (ridsOf (inr v :: omap f ch)) with (ridsOf (omap f ch)). destruct (decide _); cbn [length]; lia.
  - destruct (decide _); cbn [length]; lia.
Qed.

Lemma fieldMeaning_rid n r : fieldMeaning n = Some (inl r) -> isResourceId n = true.
Proof.
  destruct n as [e ch|t| |]; try done. cbn [fieldMeaning isResourceId]. destruct (operatorOf _); [done|]. destruct (String.eqb _ _); [done|].
  by destruct (decodePredicate e ch).
Qed.

Lemma omap_apart ch :
  Forall (fun n => idsApart n = true -> nodeMeaning n = fieldMeaning n) ch -> forallb idsApart ch = true ->
  omap nodeMeaning ch = omap fieldMeaning ch.
Proof.
  induction 1 as [|n ch Hn _ IH]; [done|]. cbn [forallb]. intros [H1 H2]%andb_true_iff. cbn [omap list_omap].
  by rewrite Hn, IH.
Qed.

Lemma nodeMeaning_apart n : idsApart n = true -> nodeMeaning n = fieldMeaning n.
Proof.
  induction n as [e ch IH|t| |] using xmlNode_rect'; try done. cbn [idsApart nodeMeaning fieldMeaning].
  destruct (operatorOf (elemLocal e)) as [op|]; [|done]. intros Hop. do 2 f_equal.
  assert (Hch : forallb idsApart ch = true) by (destruct op; [by apply andb_true_iff in Hop as [_ ?]|done|by apply andb_true_iff in Hop as [_ ?]]).
  rewrite (omap_apart ch IH Hch). apply connect_operands. pose proof (ridsOf_count fieldMeaning ch fieldMeaning_rid).
  destruct op; [right|by left|right]; apply andb_true_iff in Hop as [?%Nat.leb_le _]; lia.
Qed.

(** Up to that, the document means what its fields do. *)
Definition fieldDocMeaning (l : list xmlNode) : tri :=
  match rootElement l with
  | Some (_, ch) => combine3 LAnd (omap fieldMeaning ch)
  | None => None
  end.

Lemma docMeaning_apart l : docIdsApart l = true -> docMeaning l = fieldDocMeaning l.
Proof.
  unfold docIdsApart, docMeaning, fieldDocMeaning. destruct (rootElement l) as [[e ch]|]; [|done]. intros H.
  rewrite omap_apart; [done| |done]. apply Forall_true. intros n. apply nodeMeaning_apart.
Qed.

(** ** Texts *)

(** [reads sql v]: the text is a condition made of compiled predicates, and its
    value is [v]. *)
#[warnings="-register-all"]
Inductive reads : string -> tri -> Prop :=
| reads_predicate p st sql st' : compilePredicate swap c p st = Ok (sql, st') -> reads sql (val p)
| reads_rids ids st sql st' : compileResourceIds c ids st = Ok (sql, st') -> reads sql (any3 (map ridVal ids))
| reads_all parts vs : parts <> [] -> Forall2 reads parts vs -> reads ("(" +:+ Join " AND " parts +:+ ")") (all3 vs)
| reads_any parts vs : parts <> [] -> Forall2 reads parts vs -> reads ("(" +:+ Join " OR " parts +:+ ")") (any3 vs)
| reads_not sql v : reads sql v -> reads ("NOT " +:+ sql) (not3 v).

(** ** Parsed filters *)

Fixpoint groupMeaning (op : logicOp) (g : fesGroup) : tri :=
  match g with
  | Group And Or Not predicates ResourceId =>
      connect op (map (groupMeaning LAnd) And ++ map (groupMeaning LOr) Or ++ map (groupMeaning LNot) Not
                  ++ map val predicates ++ ridTerm ridVal ResourceId)
  end.

(** Every operator has something to combine, [Not] exactly one. *)
Definition countOK (op : logicOp) (n : nat) : bool :=
  match op with LNot => Nat.eqb n 1 | _ => Nat.ltb 0 n end.

Fixpoint full (op : logicOp) (g : fesGroup) : bool :=
  match g with
  | Group And Or Not predicates ResourceId =>
      forallb (full LAnd) And && forallb (full LOr) Or && forallb (full LNot) Not
      && countOK op (length And + length Or + length Not + length predicates + length (ridTerm ridVal ResourceId))
  end.

(** ** Compilation keeps the meaning *)

Lemma sapp_ne a b : b <> "" -> a +:+ b <> "".
Proof. destruct a; [done|by rewrite sapp_cons]. Qed.

Definition answers (m : F string) : Prop := forall st, wp m (fun sql _ => sql <> "") st.

Lemma answers_fail err : answers (mfail err).
Proof. done. Qed.

Lemma answers_ret sql : sql <> "" -> answers (mret sql).
Proof. intros H st. by apply wp_ret. Qed.

Lemma answers_bind vs f : (forall k, f k <> "") -> answers (bind vs f).
Proof. intros H st. apply H. Qed.

Ltac not_empty := repeat first [done | apply sapp_ne].

Ltac answer :=
  repeat case_match;
  first [apply answers_fail | apply answers_bind; intros k; not_empty | apply answers_ret; not_empty].

Lemma answers_predicate p : answers (compilePredicate swap c p).
Proof.
  destruct p as [op comp|l|ref|ref|b|b|op s|d|op t]; simpl.
  - unfold compileComparison. cbn zeta. answer.
  - unfold compileLike. cbn zeta. answer.
  - unfold compileIsNull. cbn zeta. answer.
  - unfold compileIsNil, compileIsNull. cbn zeta. answer.
  - unfold compileBetween. cbn zeta. answer.
  - unfold compileBBOX, geometryColumn. answer.
  - unfold compileSpatial, geometryColumn. cbn zeta. answer.
  - unfold compileDWithin, geometryColumn. cbn zeta. answer.
  - destruct op; unfold compileTemporal, compileAfter, compileBefore, compileTEquals, compileDuring, compileBegins,
      compileBegunBy, compileTContains, compileTOverlaps, compileMeets, compileOverlappedBy, compileMetBy, compileEnds,
      compileEndedBy, compileAnyInteracts, compileInstant, compilePeriod, compileInstantOrPeriod,
      validateTemporalProperty, timeCompare, timeBetween, timeRequired; cbn zeta; answer.
Qed.

Lemma answers_rids ids : ids <> [] -> answers (compileResourceIds c ids).
Proof.
  intros Hne st. unfold compileResourceIds. destruct ids as [|rid ids]; [done|]. apply wp_bind.
  assert (H : forall l st, wp (bindRids c l) (fun _ _ => True) st).
  { induction l as [|r l IH]; intros st'; [done|]. cbn [bindRids]. destruct (ridMismatch c r); [done|].
    apply wp_bind. apply wp_bind. eapply wp_mono; [apply IH|done]. }
  eapply wp_mono; [apply H|]. intros parts st' _. destruct parts; apply wp_ret; not_empty.
Qed.

(** [m] emits a text that is not empty and reads as [v]. *)
Definition yields (m : F string) (v : tri) : Prop := forall st, wp m (fun sql _ => reads sql v /\ sql <> "") st.

Lemma yields_answers m v :
  answers m -> (forall st sql st', m st = Ok (sql, st') -> reads sql v) -> yields m v.
Proof.
  intros Ha Hr st. specialize (Ha st). unfold wp in *. destruct (m st) as [[sql st']|e|] eqn:E; [|done..].
  split; [by eapply Hr|done].
Qed.

Lemma yields_predicate p : yields (compilePredicate swap c p) (val p).
Proof. apply yields_answers; [apply answers_predicate|]. intros. by eapply reads_predicate. Qed.

Lemma yields_rids ids : ids <> [] -> yields (compileResourceIds c ids) (any3 (map ridVal ids)).
Proof. intros H. apply yields_answers; [by apply answers_rids|]. intros. by eapply reads_rids. Qed.

Definition yieldsAll (m : F (list string)) (vs : list tri) : Prop := forall st,
  wp m (fun parts _ => Forall2 reads parts vs /\ Forall (fun s => s <> "") parts) st.

Lemma yieldsAll_loop {A} (f : A -> F string) (v : A -> tri) l :
  (forall a, a ∈ l -> yields (f a) (v a)) -> yieldsAll (loop f l) (map v l).
Proof.
  induction l as [|a l IH]; intros H st; [done|]. cbn [loop map]. apply wp_bind.
  eapply wp_mono; [apply H; left|]. intros sql st1 [R N]. apply wp_bind.
  eapply wp_mono; [apply IH; intros; apply H; by right|]. intros parts st2 [R' N']. apply wp_ret. by split; constructor.
Qed.

Lemma yieldsAll_rids ids : yieldsAll (ridParts c ids) (ridTerm ridVal ids).
Proof.
  intros st. destruct ids as [|rid ids]; [done|]. unfold ridParts. apply wp_bind.
  eapply wp_mono; [by apply yields_rids|]. intros sql st' [R N]. apply wp_ret. by split; repeat constructor.
Qed.

Lemma nonEmpty_id parts : Forall (fun s => s <> "") parts -> nonEmpty parts = parts.
Proof.
  induction 1 as [|s parts Hs _ IH]; [done|]. simpl. apply String.eqb_neq in Hs. by rewrite Hs, IH.
Qed.

(** The parts of an operator, joined. *)
Lemma reads_joined op parts vs :
  op <> LNot -> parts <> [] -> Forall2 reads parts vs -> reads (joined op parts) (connect op vs) /\ joined op parts <> "".
Proof.
  intros Hop Hne H. destruct parts as [|p parts]; [done|].
  destruct op; [| |done]; (split; [by constructor|done]).
Qed.

Lemma yields_not m v : yields m v -> yields (sql ← m; mret (if String.eqb sql "" then "" else "NOT " +:+ sql)) (not3 v).
Proof.
  intros Hm st. apply wp_bind. eapply wp_mono; [apply Hm|]. intros sql st' [R N]. apply wp_ret.
  apply String.eqb_neq in N as E. rewrite E. split; [by constructor|done].
Qed.

Lemma full_group op And Or Not preds ids :
  full op (Group And Or Not preds ids) = true ->
  (forall g, g ∈ And -> full LAnd g = true) /\ (forall g, g ∈ Or -> full LOr g = true)
  /\ (forall g, g ∈ Not -> full LNot g = true)
  /\ countOK op (length And + length Or + length Not + length preds + length (ridTerm ridVal ids)) = true.
Proof.
  cbn [full]. intros [[[HA HO]%andb_true_iff HN]%andb_true_iff HC]%andb_true_iff.
  rewrite forallb_forall in HA, HO, HN. split_and!; [intros g Hg%list_elem_of_In; auto..|done].
Qed.

(** The five loops of [compileAnd], [compileOr] and [compile]. *)
Lemma yields_parts op And Or Not preds ids (m : F string) (keep : list string -> list string) :
  op <> LNot ->
  (forall l, Forall (fun s => s <> "") l -> keep l = l) ->
  (0 < length And + length Or + length Not + length preds + length (ridTerm ridVal ids))%nat ->
  (forall g, g ∈ And -> yields (compileGroup swap c LAnd g) (groupMeaning LAnd g)) ->
  (forall g, g ∈ Or -> yields (compileGroup swap c LOr g) (groupMeaning LOr g)) ->
  (forall g, g ∈ Not -> yields (compileGroup swap c LNot g) (groupMeaning LNot g)) ->
  m = (a ← loop (compileGroup swap c LAnd) And; o ← loop (compileGroup swap c LOr) Or;
       n ← loop (compileGroup swap c LNot) Not; p ← loop (compilePredicate swap c) preds; r ← ridParts c ids;
       mret (joined op (keep a ++ keep o ++ keep n ++ p ++ r))) ->
  yields m (groupMeaning op (Group And Or Not preds ids)).
Proof.
  intros Hop Hkeep Hc HA HO HN -> st.
  apply wp_bind. eapply wp_mono; [by apply yieldsAll_loop|]. intros a st1 [Ra Na].
  apply wp_bind. eapply wp_mono; [by apply yieldsAll_loop|]. intros o st2 [Ro No].
  apply wp_bind. eapply wp_mono; [by apply yieldsAll_loop|]. intros n st3 [Rn Nn].
  apply wp_bind. eapply wp_mono; [apply (yieldsAll_loop _ val); intros; apply yields_predicate|]. intros p st4 [Rp _].
  apply wp_bind. eapply wp_mono; [apply yieldsAll_rids|]. intros r st5 [Rr _].
  apply wp_ret. rewrite !Hkeep by done. cbn [groupMeaning]. apply reads_joined; [done| |by repeat apply Forall2_app].
  apply Forall2_length in Ra, Ro, Rn, Rp, Rr. rewrite length_map in *. intros E%(f_equal length).
  rewrite !length_app in E. simpl in E. lia.
Qed.

Lemma yields_group n op g :
  (groupSize g < n)%nat -> full op g = true -> yields (compileGroup swap c op g) (groupMeaning op g).
Proof.
  revert op g. induction n as [|n IH]; intros op [And Or Not preds ids] Hn Hf; [lia|]. cbn [groupSize] in Hn.
  apply full_group in Hf as (FA & FO & FN & FC).
  assert (HA : forall g, g ∈ And -> yields (compileGroup swap c LAnd g) (groupMeaning LAnd g))
    by (intros g Hg; apply IH; [apply groupSize_in in Hg; lia|auto]).
  assert (HO : forall g, g ∈ Or -> yields (compileGroup swap c LOr g) (groupMeaning LOr g))
    by (intros g Hg; apply IH; [apply groupSize_in in Hg; lia|auto]).
  assert (HN : forall g, g ∈ Not -> yields (compileGroup swap c LNot g) (groupMeaning LNot g))
    by (intros g Hg; apply IH; [apply groupSize_in in Hg; lia|auto]).
  destruct op.
  - apply (yields_parts LAnd And Or Not preds ids _ nonEmpty); auto using nonEmpty_id. by apply Nat.ltb_lt in FC.
  - apply (yields_parts LOr And Or Not preds ids _ nonEmpty); auto using nonEmpty_id. by apply Nat.ltb_lt in FC.
  - apply Nat.eqb_eq in FC. cbn [compileGroup groupMeaning connect]. apply yields_not.
    destruct And as [|a [|]], Or as [|o [|]], Not as [|x [|]], preds as [|p [|]], ids as [|r ids]; simpl in FC; try lia;
      simpl; rewrite and3_one.
    + by apply (yields_rids (r :: ids)).
    + apply yields_predicate.
    + apply HN; left.
    + apply HO; left.
    + apply HA; left.
Qed.

Lemma yields_compile g : full LAnd g = true -> yields (compile swap c g) (groupMeaning LAnd g).
Proof.
  destruct g as [And Or Not preds ids]. intros (FA & FO & FN & FC)%full_group. apply Nat.ltb_lt in FC.
  apply (yields_parts LAnd And Or Not preds ids _ id); auto; intros g Hg;
    (apply (yields_group (S (groupSize g))); [lia|auto]).
Qed.
End Meaning.
