(* ===== verification/FesTheorems.v ===== *)
(** * From the document to the condition

    The validation of a filter, structurally: what the token loop accepts is a tree in
    which every operator has a child, [Not] exactly one, and every child is a field of
    the model. Decoding keeps every child, and the condition means what the document
    does. *)

From S2P Require Import Prelude GoText ProtocolRequest XmlTree Crs FesModels FesCompiler FesSafety FesMeaning.

(** ** The validation as a recursion over the tree *)

Section FoldErr.
Context {A B E : Type} (f : B -> A -> E + B).
Fixpoint foldErr (b : B) (l : list A) : E + B :=
  match l with
  | [] => inr b
  | a :: l' => match f b a with inl err => inl err | inr b' => foldErr b' l' end
  end.
End FoldErr.

Fixpoint checkNode (parent : container) (n : xmlNode) : fesParseErr + container :=
  match n with
  | Elem e ch =>
      match enterElement parent e with
      | inl err => inl err
      | inr parent' =>
          match foldErr checkNode (mkContainer (elemLocal e) 0 false) ch with
          | inl err => inl err
          | inr c => match leaveElement c with inl err => inl err | inr _ => inr parent' end
          end
      end
  | DirectiveNode => inl DirectivesUnsupported
  | _ => inr parent
  end.

Definition checkNodes := foldErr checkNode.

(** What is left to do after a checked part. *)
Definition continue (r : fesParseErr + container) (k : container -> fesParseErr + unit) : fesParseErr + unit :=
  match r with inl err => inl err | inr c => k c end.

Lemma validate_nodes l ts c st roots :
  Forall (fun n => forall ts c st, validateTokens (nodeTokens n ++ ts) (c :: st) roots
                   = continue (checkNode c n) (fun c' => validateTokens ts (c' :: st) roots)) l ->
  validateTokens (tokensOf l ++ ts) (c :: st) roots
  = continue (checkNodes c l) (fun c' => validateTokens ts (c' :: st) roots).
Proof.
  intros H. revert c. induction H as [|n l Hn _ IH]; intros c; [done|]. unfold tokensOf, checkNodes. cbn [map concat foldErr].
  rewrite <- app_assoc, Hn. destruct (checkNode c n) as [err|c']; [done|]. apply IH.
Qed.

Lemma validate_node n roots ts c st :
  validateTokens (nodeTokens n ++ ts) (c :: st) roots
  = continue (checkNode c n) (fun c' => validateTokens ts (c' :: st) roots).
Proof.
  revert ts c st. induction n as [e ch IH|t| |] using xmlNode_rect'; intros ts c st; try done.
  cbn [nodeTokens app validateTokens checkNode]. destruct (enterElement c e) as [err|c']; [done|].
  rewrite <- app_assoc. fold (tokensOf ch). rewrite (validate_nodes ch _ _ _ _ IH).
  unfold checkNodes. destruct (foldErr checkNode _ ch) as [err|d]; [done|].
  cbn [continue app validateTokens]. by destruct (leaveElement d).
Qed.

(** An accepted document has one [Filter] element, and it is checked. *)
Lemma validate_root l :
  validateTokens (tokensOf l) [] 0 = inr tt ->
  exists e ch c, rootElement l = Some (e, ch) /\ elemLocal e = "Filter"
    /\ checkNodes (mkContainer "Filter" 0 false) ch = inr c /\ leaveElement c = inr tt.
Proof.
  induction l as [|n l IH]; [done|]. destruct n as [e ch|t| |]; try done.
  unfold tokensOf. cbn [map concat nodeTokens app validateTokens].
  destruct (String.eqb_spec (elemLocal e) "Filter") as [He|]; [|done]. cbn [Nat.eqb negb orb].
  destruct (predicateNamespace _); [|done]. cbn [negb]. rewrite <- app_assoc, He. fold (tokensOf ch).
  rewrite validate_nodes by (apply Forall_true; intros; apply validate_node).
  destruct (checkNodes _ ch) as [err|c] eqn:Ec; [done|]. cbn [continue app validateTokens].
  destruct (leaveElement c) as [err|[]] eqn:El; [done|]. intros _. by exists e, ch, c.
Qed.

(** ** Decoding *)

Section Decoding.
Context (val : fesPredicate -> option bool) (ridVal : string -> option bool).
Abbreviation gm := (groupMeaning val ridVal).

Definition valueOf (x : fesNode) : string + option bool :=
  match x with
  | NAnd g => inr (gm LAnd g)
  | NOr g => inr (gm LOr g)
  | NNot g => inr (gm LNot g)
  | NPred _ p => inr (val p)
  | NRid r => inl r
  end.

Definition goodNode (x : fesNode) : Prop :=
  match x with
  | NAnd g => full ridVal LAnd g = true
  | NOr g => full ridVal LOr g = true
  | NNot g => full ridVal LNot g = true
  | NPred f _ => f ∈ predicateFields
  | NRid _ => True
  end.

Definition isRid (x : fesNode) : bool := match x with NRid _ => true | _ => false end.

Lemma field_cons f0 p l fs :
  NoDup fs -> f0 ∈ fs ->
  concat (map (fun f => field f (NPred f0 p :: l)) fs) ≡ₚ p :: concat (map (fun f => field f l) fs).
Proof.
  intros Hnd. induction Hnd as [|f fs Hf Hnd IH]; [by intros ?%elem_of_nil|].
  intros Hin%elem_of_cons. cbn [map concat]. unfold field at 1. cbn [omap list_omap].
  destruct (String.eqb_spec f0 f) as [->|Hne].
  - cbn [app]. apply Permutation_cons; [done|]. apply Permutation_app_head.
    assert (E : forall gs, f ∉ gs -> map (fun f' => field f' (NPred f p :: l)) gs = map (fun f' => field f' l) gs).
    { induction gs as [|g gs IHg]; intros Hg; [done|]. apply not_elem_of_cons in Hg as [Hfg Hg]. cbn [map].
      rewrite IHg by done. f_equal. unfold field. cbn [omap list_omap]. by apply String.eqb_neq in Hfg as ->. }
    by rewrite E.
  - destruct Hin as [->|Hin]; [done|]. rewrite (IH Hin). fold (field f l).
    by rewrite Permutation_middle.
Qed.

Lemma predicateFields_nodup : NoDup predicateFields.
Proof. by apply (bool_decide_unpack _); vm_compute. Qed.

(** The fields of a structure hold exactly its children. *)
Lemma assemble_values l :
  Forall goodNode l ->
  values (map valueOf l)
  ≡ₚ map (gm LAnd) (ands l) ++ map (gm LOr) (ors l) ++ map (gm LNot) (nots l)
     ++ map val (concat (map (fun f => field f l) predicateFields)).
Proof.
  induction 1 as [|x l Hx _ IH]; [done|].
  destruct x as [g|g|g|f p|r]; cbn [map valueOf].
  - change (gm LAnd g :: values (map valueOf l) ≡ₚ gm LAnd g :: (map (gm LAnd) (ands l) ++ map (gm LOr) (ors l)
      ++ map (gm LNot) (nots l) ++ map val (concat (map (fun f => field f l) predicateFields)))).
    by apply Permutation_cons.
  - change (gm LOr g :: values (map valueOf l) ≡ₚ map (gm LAnd) (ands l) ++ (gm LOr g :: map (gm LOr) (ors l))
      ++ map (gm LNot) (nots l) ++ map val (concat (map (fun f => field f l) predicateFields))).
    cbn [app]. rewrite <- Permutation_middle. by apply Permutation_cons.
  - change (gm LNot g :: values (map valueOf l) ≡ₚ map (gm LAnd) (ands l) ++ map (gm LOr) (ors l)
      ++ (gm LNot g :: map (gm LNot) (nots l)) ++ map val (concat (map (fun f => field f l) predicateFields))).
    cbn [app]. rewrite <- !Permutation_middle. by apply Permutation_cons.
  - rewrite (field_cons f p l predicateFields predicateFields_nodup Hx).
    change (val p :: values (map valueOf l) ≡ₚ map (gm LAnd) (ands l) ++ map (gm LOr) (ors l)
      ++ map (gm LNot) (nots l) ++ val p :: map val (concat (map (fun f => field f l) predicateFields))).
    rewrite <- !Permutation_middle. by apply Permutation_cons.
  - exact IH.
Qed.

Lemma assemble_rids l : ridsOf (map valueOf l) = rids l.
Proof. induction l as [|x l IH]; [done|]. destruct x; [exact IH..|]. cbn. f_equal. exact IH. Qed.

Lemma assemble_meaning op l :
  Forall goodNode l -> gm op (assemble l) = combine3 ridVal op (map valueOf l).
Proof.
  intros Hl. unfold combine3. rewrite assemble_rids, (assemble_values l Hl). unfold assemble. cbn [groupMeaning].
  by rewrite <- !app_assoc.
Qed.

(** How many terms a structure has. *)
Definition terms (l : list fesNode) : nat := length (values (map valueOf l)) + length (ridTerm ridVal (rids l)).

Lemma assemble_full op l : Forall goodNode l -> countOK op (terms l) = true -> full ridVal op (assemble l) = true.
Proof.
  intros Hl Hc. unfold assemble. cbn [full].
  assert (Hsub : forall o (f : fesNode -> option fesGroup),
    (forall x g, f x = Some g -> goodNode x -> full ridVal o g = true) ->
    forallb (full ridVal o) (omap f l) = true).
  { intros o f Hf. apply forallb_forall. intros g Hg%list_elem_of_In. apply list_elem_of_omap in Hg as (x & Hx & E).
    eapply Hf; [exact E|]. by eapply Forall_forall in Hl. }
  assert (forallb (full ridVal LAnd) (ands l) = true) as -> by (apply Hsub; intros [] ? [= <-]; done).
  assert (forallb (full ridVal LOr) (ors l) = true) as -> by (apply Hsub; intros [] ? [= <-]; done).
  assert (forallb (full ridVal LNot) (nots l) = true) as -> by (apply Hsub; intros [] ? [= <-]; done).
  unfold terms in Hc. rewrite (Permutation_length (assemble_values l Hl)) in Hc.
  rewrite !length_app, !length_map in Hc. by rewrite !Nat.add_assoc in *.
Qed.

Lemma terms_pos l : l <> [] -> (0 < terms l)%nat.
Proof.
  destruct l as [|x l]; [done|]. intros _. unfold terms. destruct x; cbn; lia.
Qed.

(** ** What the validation gives *)

Lemma enter_spec parent e c1 :
  isContainer (cname parent) = true -> enterElement parent e = inr c1 ->
  existsb (String.eqb (elemLocal e)) filterFields = true
  /\ c1 = mkContainer (cname parent) (S (children parent)) (String.eqb (elemLocal e) "ResourceId")
  /\ (cname parent = "Filter" -> (0 < children parent)%nat -> elemLocal e = "ResourceId" /\ resources parent = true)
  /\ (cname parent = "Not" -> ~ (0 < children parent)%nat).
Proof.
  intros Hc. unfold enterElement, enterPredicate. rewrite Hc.
  destruct (negb (predicateNamespace _)); [done|]. destruct (existsb _ filterFields); [|done]. cbn [negb].
  destruct (_ || _) eqn:Eamb; [done|]. apply orb_false_iff in Eamb as [E1 E2]. intros [= <-].
  split_and!; [done..| |].
  - intros HF Hpos%Nat.ltb_lt. rewrite HF, Hpos in E1. apply orb_false_iff in E1 as [E%negb_false_iff ?%negb_false_iff].
    by apply String.eqb_eq in E.
  - intros HF Hpos%Nat.ltb_lt. by rewrite HF, Hpos in E2.
Qed.

Lemma check_elem parent e ch c1 :
  checkNode parent (Elem e ch) = inr c1 ->
  enterElement parent e = inr c1
  /\ exists c, checkNodes (mkContainer (elemLocal e) 0 false) ch = inr c /\ leaveElement c = inr tt.
Proof.
  cbn [checkNode]. destruct (enterElement parent e) as [|p1]; [done|]. unfold checkNodes.
  destruct (foldErr _ _ _) as [|c]; [done|]. destruct (leaveElement c) as [|[]] eqn:E; [done|]. intros [= <-]. eauto.
Qed.

(** A node under an operator: it is decoded to one good child with its meaning, or
    it is not an element. *)
Definition decodesTo (n : xmlNode) (xs : list fesNode) : Prop :=
  decodeNode n = inr xs /\ option_list (fieldMeaning val ridVal n) = map valueOf xs /\ Forall goodNode xs
  /\ match n with Elem e _ => exists x, xs = [x] /\ isRid x = String.eqb (elemLocal e) "ResourceId" | _ => xs = [] end.

Definition nodeSound (n : xmlNode) : Prop := forall parent c,
  isContainer (cname parent) = true -> checkNode parent n = inr c -> exists xs, decodesTo n xs.

Lemma decoded_nodes l c c' :
  Forall nodeSound l -> isContainer (cname c) = true -> checkNodes c l = inr c' ->
  exists xss, Forall2 decodesTo l xss /\ cname c' = cname c
    /\ children c' = (children c + length (concat xss))%nat
    /\ (cname c = "Not" -> concat xss = [] \/ (children c' <= 1)%nat)
    /\ (cname c = "Filter" -> concat xss = [] \/ (children c' <= 1)%nat
         \/ ((0 < children c)%nat -> resources c = true) /\ Forall (fun x => isRid x = true) (concat xss)).
Proof.
  intros Hl. revert c. induction Hl as [|n l Hn Hl IH]; intros c Hc; unfold checkNodes; cbn [foldErr].
  - intros [= <-]. exists []. split_and!; [constructor|done|simpl; lia|by left..].
  - destruct (checkNode c n) as [err|c1] eqn:En; [done|]. intros Hrest.
    destruct (Hn c c1 Hc En) as [xs Hxs].
    assert (Hname : cname c1 = cname c).
    { destruct n as [e ch|t| |]; [|by injection En as <-|done|by injection En as <-].
      apply check_elem in En as [He _]. by apply (enter_spec c e c1 Hc) in He as (_ & -> & _). }
    destruct (IH c1) as (xss & Hd & Hn1 & Hch & Hnot & Hfil); [by rewrite Hname|done|].
    exists (xs :: xss). rewrite Hname in *. cbn [concat].
    destruct n as [e ch|t| |].
    2-4: simpl in En; try done; injection En as <-; pose proof Hxs as (_ & _ & _ & ->); by split_and!; [constructor|..].
    apply check_elem in En as [He _]. apply (enter_spec c e c1 Hc) in He as (_ & -> & HF & HN).
    cbn [children resources cname] in *.
    pose proof Hxs as (_ & _ & _ & x & -> & Hx). cbn [app length] in *. split_and!.
    + by constructor.
    + done.
    + lia.
    + intros E. right. specialize (HN E). destruct (Hnot E) as [E'|]; [|done]. rewrite E' in *. simpl in *. lia.
    + intros E. right. destruct (Nat.eq_dec (children c) 0%nat) as [H0|H0].
      * destruct (Hfil E) as [E'|[Hle|[Hr Hrids]]]; [rewrite E' in *; simpl in *; left; lia|by left|right].
        split; [lia|]. constructor; [|done]. rewrite Hx. apply Hr. lia.
      * destruct (HF E) as [Hrid Hr]; [lia|]. right. split; [done|]. constructor; [by rewrite Hx, Hrid|].
        destruct (Hfil E) as [->|[Hle|[_ ?]]]; [constructor|exfalso; lia|done].
Qed.

Lemma mapErr_decoded l xss :
  Forall2 decodesTo l xss ->
  mapErr decodeNode l = inr xss /\ omap (fieldMeaning val ridVal) l = map valueOf (concat xss)
  /\ Forall goodNode (concat xss).
Proof.
  induction 1 as [|n xs l xss (D & M & G & _) _ (E & V & F)]; [done|]. cbn [mapErr concat]. rewrite D, E.
  rewrite map_app, <- M, <- V. split_and!; [done| |by apply Forall_app].
  cbn [omap list_omap]. by destruct (fieldMeaning val ridVal n).
Qed.

Lemma unique_one x : uniqueFields [x] = true.
Proof.
  unfold uniqueFields. rewrite !andb_true_iff, forallb_forall. split_and!; try by destruct x.
  intros f _. destruct x; cbn; try done. by destruct (String.eqb _ f).
Qed.

Lemma unique_rids l : Forall (fun x => isRid x = true) l -> uniqueFields l = true.
Proof.
  intros H. assert (E : ands l = [] /\ ors l = [] /\ nots l = [] /\ forall f, field f l = []).
  { induction H as [|[] l Hx _ IH]; done. }
  destruct E as (Ea & Eo & En & Ef). unfold uniqueFields. rewrite Ea, Eo, En. apply forallb_forall. intros f _. by rewrite Ef.
Qed.

(** The children of an operator that was left: decoded, and not none. *)
Lemma checked_children name ch c :
  isContainer name = true -> Forall nodeSound ch ->
  checkNodes (mkContainer name 0 false) ch = inr c -> leaveElement c = inr tt ->
  exists xss, mapErr decodeNode ch = inr xss
    /\ omap (fieldMeaning val ridVal) ch = map valueOf (concat xss)
    /\ Forall goodNode (concat xss) /\ concat xss <> []
    /\ (name = "Not" -> exists x, concat xss = [x])
    /\ (name = "Filter" -> uniqueFields (concat xss) = true).
Proof.
  intros Hc Hs Hcheck Hleave. destruct (decoded_nodes ch (mkContainer name 0 false) c Hs Hc Hcheck) as (xss & Hd & Hn & Hch & Hnot & Hfil).
  destruct (mapErr_decoded ch xss Hd) as (Hm & Hv & Hg). exists xss. cbn [cname children plus] in *.
  assert (Hne : concat xss <> []).
  { intros E. unfold leaveElement in Hleave. rewrite Hn, Hc, Hch, E in Hleave. done. }
  split_and!; [done..| |].
  - intros E. destruct (Hnot E) as [?|Hle]; [done|]. destruct (concat xss) as [|x [|]]; simpl in *; [done|eauto|lia].
  - intros E. destruct (Hfil E) as [?|[Hle|[_ Hrids]]]; [done| |by apply unique_rids].
    destruct (concat xss) as [|x [|]]; simpl in *; [done|apply unique_one|lia].
Qed.

Lemma predicate_decoded e ch :
  existsb (String.eqb (elemLocal e)) filterFields = true -> operatorOf (elemLocal e) = None ->
  elemLocal e <> "ResourceId" -> elemLocal e ∈ predicateFields /\ exists p, decodePredicate e ch = Some p.
Proof.
  intros H Ho Hr. apply existsb_exists in H as (f & Hf & E%String.eqb_eq). revert Ho Hr.
  unfold decodePredicate. rewrite E. clear E. intros Ho Hr.
  assert (Hp : f ∈ predicateFields).
  { apply list_elem_of_In in Hf. unfold filterFields in Hf.
    apply elem_of_app in Hf as [Hf|[Hf|Hf]%elem_of_app]; [exfalso|done|exfalso].
    - unfold logicFields in Hf. revert Ho. by repeat (apply elem_of_cons in Hf as [->|Hf]); [..|apply elem_of_nil in Hf].
    - apply list_elem_of_singleton in Hf. done. }
  split; [done|]. apply list_elem_of_In in Hp. clear Hf Ho Hr. unfold predicateFields in Hp. simpl in Hp.
  repeat destruct Hp as [<-|Hp]; try (eexists; reflexivity). done.
Qed.

Lemma operator_cases name :
  operatorOf name = None /\ existsb (String.eqb name) logicFields = false
  \/ name = "And" \/ name = "Or" \/ name = "Not".
Proof.
  unfold operatorOf, logicFields. simpl.
  destruct (String.eqb_spec name "And"); [auto|]. destruct (String.eqb_spec name "Or"); [auto|].
  destruct (String.eqb_spec name "Not"); [auto|]. by left.
Qed.

(** A node that the validation accepts under an operator keeps its meaning. *)
Lemma node_sound n : nodeSound n.
Proof.
  induction n as [e ch IH|t| |] using xmlNode_rect'; intros parent c1 Hc Hcheck; [|by exists []|done|by exists []].
  apply check_elem in Hcheck as (Henter & c & Hch & Hleave).
  apply (enter_spec parent e c1 Hc) in Henter as (Hfield & _).
  destruct (operator_cases (elemLocal e)) as [[Ho Hl]|Hop].
  - destruct (String.eqb_spec (elemLocal e) "ResourceId") as [Hr|Hr].
    + exists [NRid (lastAttr "rid" (elemAttr e) "")]. unfold decodesTo. cbn [decodeNode fieldMeaning].
      rewrite Hl, Ho, Hr. split_and!; [done..|by apply Forall_singleton|eauto].
    + destruct (predicate_decoded e ch Hfield Ho Hr) as (Hp & p & Ep). exists [NPred (elemLocal e) p].
      unfold decodesTo. cbn [decodeNode fieldMeaning]. rewrite Hl, Ho, Ep. apply String.eqb_neq in Hr. rewrite Hr.
      split_and!; [done..|by apply Forall_singleton|eauto].
  - assert (Hcont : isContainer (elemLocal e) = true) by (by destruct Hop as [-> |[-> | ->]]).
    destruct (checked_children _ ch c Hcont IH Hch Hleave) as (xss & Hm & Hv & Hg & Hne & Hnot & _).
    unfold decodesTo. cbn [decodeNode fieldMeaning]. rewrite Hm, Hv.
    pose proof (terms_pos _ Hne) as Hpos%Nat.ltb_lt.
    destruct Hop as [E|[E|E]]; rewrite E; cbn -[assemble uniqueFields combine3].
    + exists [NAnd (assemble (concat xss))]. split_and!; [done| | |eauto].
      * cbn -[assemble combine3]. by rewrite assemble_meaning.
      * apply Forall_singleton. by apply assemble_full.
    + exists [NOr (assemble (concat xss))]. split_and!; [done| | |eauto].
      * cbn -[assemble combine3]. by rewrite assemble_meaning.
      * apply Forall_singleton. by apply assemble_full.
    + destruct (Hnot E) as [x Ex]. rewrite Ex, unique_one in *. exists [NNot (assemble [x])].
      split_and!; [done| | |eauto].
      * cbn -[assemble combine3]. by rewrite assemble_meaning.
      * apply Forall_singleton. apply assemble_full; [done|]. by destruct x.
Qed.

(** An accepted document is decoded, to a filter with its meaning. *)
Lemma ParseFESFilter_sound doc :
  validateFilterStructure (Some doc) = inr tt ->
  exists g, ParseFESFilter (Some doc) = inr g /\ full ridVal LAnd g = true
    /\ gm LAnd g = fieldDocMeaning val ridVal doc.
Proof.
  intros Hv. destruct (validate_root doc Hv) as (e & ch & c & Hroot & He & Hch & Hleave).
  destruct (checked_children "Filter" ch c eq_refl) as (xss & Hm & Hvv & Hg & Hne & _ & Hu); [|done..|].
  { apply Forall_true. intros. apply node_sound. }
  exists (assemble (concat xss)). unfold ParseFESFilter, fieldDocMeaning, decodeFilter.
  rewrite Hv, Hroot, Hm, He, Hu, Hvv by done. split_and!; [done| |by apply assemble_meaning].
  apply assemble_full; [done|]. by apply Nat.ltb_lt, terms_pos.
Qed.
End Decoding.

(** C16: a filter document that the validation accepts is always decoded, and if it
    compiles, the emitted text is not empty and reads as a condition with exactly the
    truth value that the document has, for every assignment of truth values (true,
    false or unknown) to its predicates and identifiers, where every child of [And],
    [Or] and [Not] is an operand of its own and the identifiers directly in the
    [Filter] element are alternatives. The document must not have several resource
    identifiers in one [And], which are compiled as alternatives too. No predicate,
    operator or negation is lost on the way. *)
Theorem FES_meaning_preserved swap doc opts val ridVal :
  validateFilterStructure (Some doc) = inr tt -> docIdsApart doc = true ->
  exists g, ParseFESFilter (Some doc) = inr g
    /\ forall sql vs next, CompileFES swap g opts = inr (sql, vs, next) ->
         sql <> "" /\ reads swap (configOf opts) val ridVal sql (docMeaning val ridVal doc).
Proof.
  intros Hv Hids. destruct (ParseFESFilter_sound val ridVal doc Hv) as (g & Hp & Hf & Hm). exists g. split; [done|].
  intros sql vs next Hc. pose proof (yields_compile swap (configOf opts) val ridVal g Hf (mkState (startIndex opts) [])) as Hy.
  unfold CompileFES in Hc. unfold wp in Hy. destruct (compile _ _ _ _) as [[sql' st]|err|]; [|done..].
  injection Hc as -> <- <-. rewrite docMeaning_apart, <- Hm by done. tauto.
Qed.

Definition exElem (name : string) (attrs : list xmlAttr) (ch : list xmlNode) : xmlNode :=
  Elem (mkElement NSFes name attrs) ch.

(** [Not] of a comparison and one of two identifiers, given as alternatives. *)
Definition exampleDoc : list xmlNode :=
  [exElem "Filter" []
     [exElem "And" []
        [exElem "Not" [] [exElem "PropertyIsEqualTo" []
           [exElem "ValueReference" [] [CharData "app:height"]; exElem "Literal" [] [CharData "7"]]];
         exElem "Or" [] [exElem "ResourceId" [mkAttr "" "rid" "roads.7"] []; exElem "ResourceId" [mkAttr "" "rid" "roads.8"] []]]]].

Lemma FES_meaning_preserved_witness :
  validateFilterStructure (Some exampleDoc) = inr tt
  /\ exists g sql vs next, ParseFESFilter (Some exampleDoc) = inr g
    /\ CompileFES (fun _ => None) g exampleOptions = inr (sql, vs, next)
    /\ reads (fun _ => None) (configOf exampleOptions) (fun _ => Some false)
         (fun r => Some (String.eqb r "roads.7")) sql (Some true).
Proof.
  assert (Hv : validateFilterStructure (Some exampleDoc) = inr tt) by (vm_compute; reflexivity).
  split; [exact Hv|].
  destruct (FES_meaning_preserved (fun _ => None) exampleDoc exampleOptions (fun _ => Some false)
    (fun r => Some (String.eqb r "roads.7")) Hv eq_refl) as (g & Hp & Hc).
  exists g. assert (E : ParseFESFilter (Some exampleDoc) = inr (Group [Group [] [Group [] [] [] [] ["roads.7"; "roads.8"]]
     [Group [] [] [] [PropertyIs IsEqualTo (mkComparison "" "app:height" "7")] []] [] []] [] [] [] []))
    by (vm_compute; reflexivity).
  rewrite E in Hp. injection Hp as <-. eexists _, _, _. split; [exact E|].
  split; [vm_compute; reflexivity|]. eapply Hc. vm_compute. reflexivity.
Defined.

(** ** Two behaviours that differ from the standard *)

(** Two identifiers under one [And] select the features that have either of them:
    they are one [IN] condition, as they are at the top of a filter, although no
    feature has both. *)
Definition conflictingDoc : list xmlNode :=
  [exElem "Filter" []
     [exElem "And" [] [exElem "ResourceId" [mkAttr "" "rid" "roads.7"] []; exElem "ResourceId" [mkAttr "" "rid" "roads.8"] []]]].

Example and_of_identifiers :
  ParseFESFilter (Some conflictingDoc) = inr (Group [Group [] [] [] [] ["roads.7"; "roads.8"]] [] [] [] [])
  /\ CompileFES (fun _ => None) (Group [Group [] [] [] [] ["roads.7"; "roads.8"]] [] [] [] []) exampleOptions
     = inr ("((t." +:+ SqlUtil.QuoteIdent "id" +:+ "::text IN ($3, $4)))", [ArgText "7"; ArgText "8"], 5)
  /\ docIdsApart conflictingDoc = false
  /\ docMeaning (fun _ => None) (fun r => Some (String.eqb r "roads.7")) conflictingDoc = Some false.
Proof. vm_compute. done. Qed.

(** The escape character of a pattern is not used, and the wildcards of SQL in the
    text of a pattern stay wildcards. *)
Example like_pattern_not_escaped :
  CompileFES (fun _ => None)
    (Group [] [] [] [PropertyIsLike (mkLike "*" "?" "!" "" "height" "100%!*_a")] []) exampleOptions
  = inr ("(t." +:+ SqlUtil.QuoteIdent "height" +:+ " LIKE $3)", [ArgText "100%!%_a"], 4).
Proof. vm_compute. reflexivity. Qed.
