(* ===== verification/QueryPredicate.v ===== *)
(** * Predicates of a feature query ([internal/datasource/query_predicate.go], [internal/wfs/fes_dialect.go])

    A query builder of a data source collects conditions and their arguments. A
    predicate that is compiled late takes the next parameter index from the builder;
    one that was compiled before is renumbered. Both must leave the conditions and
    the arguments numbered alike. *)

From S2P Require Import Prelude GoText SqlUtil SqlScan FesModels FesCompiler FesSafety.

(** ** Renumbering *)

(** How many bytes of [s] the quoted piece still has, after its opening quote [ch]. *)
Fixpoint quotedLen (ch : ascii) (s : string) : nat :=
  match s with
  | "" => 0
  | String d s' =>
      if Ascii.eqb d ch then
        match s' with
        | String d' s'' => if Ascii.eqb d' ch then S (S (quotedLen ch s'')) else 1
        | "" => 1
        end
      else S (quotedLen ch s')
  end%nat.

Section Rebase.
Context (from to : Z) (count : nat).

(** The new number of a parameter; [None] when it is none of the predicate's. *)
Definition rebaseNumber (digits : string) : option Z :=
  number ← Atoi digits;
  if (number <? from) || (Z.of_nat count <=? number - from) then None else Some (to + number - from).

(** The loop, with the number of bytes left as its bound. *)
Fixpoint rebaseFrom (fuel : nat) (sql : string) : option string :=
  match fuel with
  | O => match sql with "" => Some "" | _ => None end
  | S fuel' =>
      match sql with
      | "" => Some ""
      | String ch rest =>
          if Ascii.eqb ch squote || Ascii.eqb ch dquote then
            let n := quotedLen ch rest in
            (fun r => String ch (stake n rest +:+ r)) <$> rebaseFrom fuel' (sdrop n rest)
          else
            let n := span_len digit rest in
            if Ascii.eqb ch "$" && Nat.ltb 0 n then
              m ← rebaseNumber (stake n rest);
              (fun r => "$" +:+ pretty m +:+ r) <$> rebaseFrom fuel' (sdrop n rest)
            else String ch <$> rebaseFrom fuel' rest
      end
  end.
End Rebase.

Definition rebaseParameters (sql : string) (from to : Z) (count : nat) : option string :=
  rebaseFrom (if from <=? 0 then 1 else from) to count (String.length sql) sql.

(** ** The predicates of a query *)

Record PredicateOptions : Type := mkPredicateOptions {
  poDialect : SQLDialect; poTableAlias : string; poGeometryExpression : string; poStartParamIndex : Z }.

Section Query.
Context {A E : Type}.

(** The interface [SQLPredicate]: compilation with the builder's options. *)
Abbreviation SQLPredicate := (PredicateOptions -> E + string * list A * Z).

Record QueryParams : Type := mkQueryParams {
  Predicate : option SQLPredicate;
  CompiledFilter : string;
  CompiledFilterArgs : list A;
  CompiledFilterParamOffset : Z
}.

Record builder : Type := mkBuilder { where_ : list string; bargs : list A; next : Z }.

Inductive appendErr : Type := CompileFailed (err : E) | InvalidReference.

Definition HasCompiledPredicate (p : QueryParams) : bool :=
  match Predicate p with Some _ => true | None => negb (isBlank (CompiledFilter p)) end.

(** The conditions grow only when the text is not empty. *)
Definition appendSQL (b : builder) (sql : string) (values : list A) (endIdx : Z) : builder :=
  if String.eqb sql "" then b else mkBuilder (where_ b ++ [sql]) (bargs b ++ values) endIdx.

Definition AppendQueryPredicate (p : QueryParams) (opts : PredicateOptions) (b : builder) : appendErr + builder :=
  let opts := mkPredicateOptions (poDialect opts) (poTableAlias opts) (poGeometryExpression opts) (next b) in
  match Predicate p with
  | Some compilePredicate =>
      match compilePredicate opts with
      | inl err => inl (CompileFailed err)
      | inr (sql, values, endIdx) => inr (appendSQL b sql values endIdx)
      end
  | None =>
      if isBlank (CompiledFilter p) then inr b
      else
        match rebaseParameters (CompiledFilter p) (CompiledFilterParamOffset p) (next b) (length (CompiledFilterArgs p)) with
        | None => inl InvalidReference
        | Some sql =>
            inr (appendSQL b sql (CompiledFilterArgs p) (next b + Z.of_nat (length (CompiledFilterArgs p))))
        end
  end.
End Query.
Arguments QueryParams : clear implicits.
Arguments builder : clear implicits.
Arguments appendErr : clear implicits.

(** [featurePredicate.CompilePredicate]. *)
Definition CompilePredicate (swap : Z -> option bool) (filter : fesGroup) (options : FESCompileOptions)
    (opts : PredicateOptions) : fesErr + string * list fesArg * Z :=
  CompileFES swap filter
    (mkOptions (poDialect opts) (poTableAlias opts) (poGeometryExpression opts) (poStartParamIndex opts)
       (SourceSRID options) (GeometryProperty options) (AllowedProperties options) (CollectionID options) (IDColumn options)).

(** ** What the scanner reads in a renumbered text *)

Definition shiftPiece (from to : Z) (p : sqlPiece) : sqlPiece :=
  match p with
  | SqlParam d => SqlParam (pretty (to + default 0 (Atoi d) - from))
  | _ => p
  end.

Lemma stake_sdrop n s : stake n s +:+ sdrop n s = s.
Proof. revert s. induction n as [|n IH]; intros [|c s]; try done. cbn [stake sdrop]. by rewrite sapp_cons, IH. Qed.

Lemma scan_cons m b s : scan m (String b s) = app (scanStep m b).1 <$> scan (scanStep m b).2 s.
Proof. cbn [scan]. by destruct (scanStep m b). Qed.

Lemma fmap_app_nil (x : option (list sqlPiece)) : app [] <$> x = x.
Proof. by destruct x. Qed.

(** A quoted piece, with whatever follows it that does not continue it. *)
Lemma scan_quoted (mk : string -> sqlPiece) (inside closing : string -> scanMode) (q : ascii) :
  (forall a b, scanStep (inside a) b = ([], if Ascii.eqb b q then closing a else inside (snoc a b))) ->
  (forall a b, scanStep (closing a) b
     = if Ascii.eqb b q then ([], inside (snoc a b)) else (mk a :: (plainStep b).1, (plainStep b).2)) ->
  (forall a, scanEnd (inside a) = None) -> (forall a, scanEnd (closing a) = Some [mk a]) ->
  forall n s acc ps, (String.length s <= n)%nat -> scan (inside acc) s = Some ps ->
  exists name, head_is q (sdrop (quotedLen q s) s) = false
    /\ forall tl, head_is q tl = false ->
         scan (inside acc) (stake (quotedLen q s) s +:+ tl) = cons (mk name) <$> scan Plain tl.
Proof.
  intros Hin Hcl Hei Hec.
  assert (Hclose : forall a tl, head_is q tl = false -> scan (closing a) tl = cons (mk a) <$> scan Plain tl).
  { intros a [|b tl] Htl; [simpl; by rewrite Hec|]. rewrite !scan_cons, Hcl. simpl in Htl.
    rewrite Ascii.eqb_sym, Htl. cbn [fst snd scanStep]. by destruct (scan (plainStep b).2 tl). }
  induction n as [|n IH]; intros s acc ps Hn Hs.
  - destruct s; [|simpl in Hn; lia]. simpl in Hs. by rewrite Hei in Hs.
  - destruct s as [|d s]; [simpl in Hs; by rewrite Hei in Hs|]. rewrite scan_cons, Hin in Hs. cbn [fst snd] in Hs.
    rewrite fmap_app_nil in Hs. cbn [quotedLen]. simpl in Hn. destruct (Ascii.eqb d q) eqn:Ed.
    + destruct s as [|d' s'].
      * exists acc. split; [done|]. intros tl Htl. cbn [stake]. rewrite sapp_cons, sapp_nil_l, scan_cons, Hin, Ed.
        cbn [fst snd]. rewrite fmap_app_nil. by apply Hclose.
      * rewrite scan_cons, Hcl in Hs. destruct (Ascii.eqb d' q) eqn:Ed'.
        -- cbn [fst snd] in Hs. rewrite fmap_app_nil in Hs. simpl in Hn.
           destruct (IH s' (snoc acc d') ps) as (name & Hh & Ht); [lia|done|]. exists name.
           split; [done|]. intros tl Htl. cbn [stake]. rewrite !sapp_cons, scan_cons, Hin, Ed. cbn [fst snd].
           rewrite fmap_app_nil, scan_cons, Hcl, Ed'. cbn [fst snd]. rewrite fmap_app_nil. by apply Ht.
        -- exists acc. split; [simpl; by rewrite Ascii.eqb_sym|]. intros tl Htl. cbn [stake].
           rewrite sapp_cons, sapp_nil_l, scan_cons, Hin, Ed.
           cbn [fst snd]. rewrite fmap_app_nil. by apply Hclose.
    + destruct (IH s (snoc acc d) ps) as (name & Hh & Ht); [lia|done|]. exists name. split; [done|].
      intros tl Htl. cbn [stake]. rewrite sapp_cons, scan_cons, Hin, Ed. cbn [fst snd]. rewrite fmap_app_nil. by apply Ht.
Qed.

(** A parameter, with what follows its digits. *)
Lemma scan_digits acc s :
  scan (InParam acc) s = cons (SqlParam (acc +:+ stake (span_len digit s) s)) <$> scan Plain (sdrop (span_len digit s) s).
Proof.
  revert acc. induction s as [|b s IH]; intros acc; cbn [span_len stake sdrop].
  - simpl. by rewrite sapp_nil_r.
  - rewrite scan_cons. cbn [scanStep]. change (FilterLexer.isDigit b) with (digit b). destruct (digit b) eqn:Eb.
    + cbn [fst snd stake sdrop]. rewrite fmap_app_nil, IH, snoc_app. done.
    + cbn [fst snd stake sdrop]. rewrite sapp_nil_r, scan_cons. cbn [scanStep].
      by destruct (scan (plainStep b).2 s).
Qed.

Definition headOf (s : string) : option ascii := match s with "" => None | String b _ => Some b end.

Lemma span_sdrop f s s' : headOf s' = headOf (sdrop (span_len f s) s) -> span_len f s' = 0%nat.
Proof.
  induction s as [|b s IH]; cbn [span_len sdrop].
  - by destruct s'.
  - destruct (f b) eqn:Eb; [exact IH|]. cbn [sdrop headOf]. destruct s' as [|b' s']; [done|]. intros [= ->].
    cbn [span_len]. by rewrite Eb.
Qed.

Section Rebased.
Context (from to : Z) (count : nat) (Hto : 0 <= to).

Definition ownParam (d : string) : Prop :=
  exists number, Atoi d = Some number /\ from <= number < from + Z.of_nat count.

Definition rebased (n : nat) (sql : string) (ps : list sqlPiece) : Prop :=
  exists sql', rebaseFrom from to count n sql = Some sql' /\ scan Plain sql' = Some (map (shiftPiece from to) ps)
    /\ headOf sql' = headOf sql.

Lemma rebaseNumber_own d : ownParam d ->
  exists m, rebaseNumber from to count d = Some m /\ 0 <= m /\ shiftPiece from to (SqlParam d) = SqlParam (pretty m).
Proof.
  intros (number & Ha & Hr). exists (to + number - from). unfold rebaseNumber, shiftPiece. rewrite Ha. simpl.
  rewrite (proj2 (Z.ltb_ge _ _)), (proj2 (Z.leb_gt _ _)) by lia. split_and!; [done|lia|done].
Qed.

Lemma rebase_quoted (mk : string -> sqlPiece) q n rest name ps tl :
  (Ascii.eqb q squote || Ascii.eqb q dquote = true) ->
  (forall d, shiftPiece from to (mk d) = mk d) ->
  head_is q (sdrop (quotedLen q rest) rest) = false ->
  (forall t, head_is q t = false ->
     scan Plain (String q (stake (quotedLen q rest) rest +:+ t)) = cons (mk name) <$> scan Plain t) ->
  rebased n (sdrop (quotedLen q rest) rest) tl -> ps = mk name :: tl -> rebased (S n) (String q rest) ps.
Proof.
  intros Hq Hmk Hh Hs (sql' & Er & Es & Eh) ->. exists (String q (stake (quotedLen q rest) rest +:+ sql')).
  cbn [rebaseFrom]. rewrite Hq, Er. split_and!; [done| |done]. rewrite Hs, Es.
  - simpl. by rewrite Hmk.
  - destruct sql', (sdrop _ rest); try done. simpl in Eh. by injection Eh as ->.
Qed.

Lemma rebase_scan n : forall sql ps,
  (String.length sql <= n)%nat -> scan Plain sql = Some ps -> Forall ownParam (params ps) -> rebased n sql ps.
Proof.
  induction n as [|n IH]; intros sql ps Hn Hs Ho.
  - destruct sql; [|simpl in Hn; lia]. injection Hs as <-. by exists "".
  - destruct sql as [|b sql]; [injection Hs as <-; by exists ""|]. simpl in Hn.
    assert (Hlen : forall k, (String.length (sdrop k sql) <= n)%nat) by (intros; rewrite length_sdrop; lia).
    destruct (Ascii.eqb_spec b dquote) as [->|Hd]; [|destruct (Ascii.eqb_spec b squote) as [->|Hsq]].
    + change (scan Plain (String dquote sql)) with (app [] <$> scan (InIdent "") sql) in Hs. rewrite fmap_app_nil in Hs.
      destruct (scan_quoted SqlIdent InIdent IdentQuote dquote) with (n := n) (s := sql) (acc := "") (ps := ps)
        as (name & Hh & Ht); try done; [lia|].
      assert (Et : scan (InIdent "") sql = cons (SqlIdent name) <$> scan Plain (sdrop (quotedLen dquote sql) sql))
        by (rewrite <- Ht, stake_sdrop by done; done).
      rewrite Et in Hs. destruct (scan Plain (sdrop _ sql)) as [tl|] eqn:Etl; [|done]. injection Hs as <-.
      eapply (rebase_quoted SqlIdent); [done..| |by apply IH|done].
      intros t Htl. rewrite scan_cons. cbn [scanStep]. change (plainStep dquote) with (@nil sqlPiece, InIdent "").
      cbn [fst snd]. rewrite fmap_app_nil. by apply Ht.
    + change (scan Plain (String squote sql)) with (app [] <$> scan (InLiteral "") sql) in Hs. rewrite fmap_app_nil in Hs.
      destruct (scan_quoted SqlLiteral InLiteral LiteralQuote squote) with (n := n) (s := sql) (acc := "") (ps := ps)
        as (name & Hh & Ht); try done; [lia|].
      assert (Et : scan (InLiteral "") sql = cons (SqlLiteral name) <$> scan Plain (sdrop (quotedLen squote sql) sql))
        by (rewrite <- Ht, stake_sdrop by done; done).
      rewrite Et in Hs. destruct (scan Plain (sdrop _ sql)) as [tl|] eqn:Etl; [|done]. injection Hs as <-.
      eapply (rebase_quoted SqlLiteral); [done..| |by apply IH|done].
      intros t Htl. rewrite scan_cons. cbn [scanStep]. change (plainStep squote) with (@nil sqlPiece, InLiteral "").
      cbn [fst snd]. rewrite fmap_app_nil. by apply Ht.
    + apply Ascii.eqb_neq in Hd, Hsq. unfold rebased. cbn [rebaseFrom]. rewrite Hsq, Hd. cbn [orb].
      destruct (Ascii.eqb_spec b "$") as [->|Hdl]; cbn [andb].
      * change (scan Plain (String "$" sql)) with (app [] <$> scan (InParam "") sql) in Hs.
        rewrite fmap_app_nil, scan_digits, sapp_nil_l in Hs.
        destruct (scan Plain (sdrop _ sql)) as [tl|] eqn:Etl; [|done]. injection Hs as <-.
        apply Forall_cons in Ho as [Hown Ho]. destruct (rebaseNumber_own _ Hown) as (m & Em & Hm & Esh).
        assert (Hpos : (0 < span_len digit sql)%nat).
        { destruct (span_len digit sql); [|lia]. by destruct Hown as (? & ? & _). }
        apply Nat.ltb_lt in Hpos. rewrite Hpos, Em.
        destruct (IH _ _ (Hlen _) Etl Ho) as (sql' & Er & Es & Eh). rewrite Er.
        eexists. split_and!; [done| |done]. cbn [map]. rewrite Esh, sapp_cons, sapp_nil_l.
        change (scan Plain (String "$" ?x)) with (app [] <$> scan (InParam "") x).
        rewrite fmap_app_nil, scan_param, scan_digits, (span_sdrop digit sql sql' Eh) by (by apply pretty_digits).
        cbn [stake sdrop]. by rewrite sapp_nil_l, sapp_nil_r, Es.
      * assert (Hplain : forall t, scan Plain (String b t) = cons (SqlCode b) <$> scan Plain t).
        { intros t. rewrite scan_cons. cbn [scanStep]. unfold plainStep. apply Ascii.eqb_neq in Hdl.
          rewrite Hd, Hsq, Hdl. cbn [fst snd]. by destruct (scan Plain t). }
        rewrite Hplain in Hs. destruct (scan Plain sql) as [tl|] eqn:Etl; [|done]. injection Hs as <-.
        destruct (IH sql tl ltac:(lia) Etl Ho) as (sql' & Er & Es & Eh). rewrite Er.
        exists (String b sql'). split_and!; [done| |done]. by rewrite Hplain, Es.
Qed.
End Rebased.

(** ** The builder *)

(** The parameters of the conditions are those of the arguments, one after another
    from the index [start]. *)
Definition numbered {A} (start : Z) (b : builder A) : Prop :=
  next b = start + Z.of_nat (length (bargs b))
  /\ exists pss, Forall2 (fun sql ps => sqlScan sql = Some ps) (where_ b) pss
       /\ concat (map params pss) = indices start (length (bargs b)).

(** What the builder relies on of an implementation of [SQLPredicate], given options
    it can trust: with the builder's start index, the parameters of the text are those
    of its arguments. *)
Class PredicateLaws {A E} (trusted : PredicateOptions -> Prop)
    (compile : PredicateOptions -> E + string * list A * Z) : Prop :=
  predicate_numbered : forall opts sql vs endIdx,
    trusted opts -> 0 < poStartParamIndex opts -> compile opts = inr (sql, vs, endIdx) ->
    endIdx = poStartParamIndex opts + Z.of_nat (length vs)
    /\ exists ps, sqlScan sql = Some ps /\ params ps = indices (poStartParamIndex opts) (length vs).

(** The FES predicate, for adapters whose geometry expression is a fragment of its
    kind. *)
Section FeaturePredicate.
Context (swap : Z -> option bool) (filter : fesGroup) (options : FESCompileOptions) (allowed : gset string).
Context (Hallowed : AllowedProperties options = Some allowed).

(** The configuration with the builder's part of the options. *)
Definition builderConfig (opts : PredicateOptions) : fesConfig :=
  configOf (mkOptions (poDialect opts) (poTableAlias opts) (poGeometryExpression opts) (poStartParamIndex opts)
    (SourceSRID options) (GeometryProperty options) (AllowedProperties options) (CollectionID options) (IDColumn options)).

Definition trustedExpression (opts : PredicateOptions) : Prop :=
  poGeometryExpression opts = "" \/ safeFrag (fesPiece (builderConfig opts) allowed) (poGeometryExpression opts) [].

Lemma featurePredicate_laws : PredicateLaws trustedExpression (CompilePredicate swap filter options).
Proof.
  intros opts sql vs endIdx Ht Hi Hc. unfold CompilePredicate, CompileFES in Hc.
  pose proof (emits_compile swap (builderConfig opts) allowed Hallowed Ht filter) as He.
  fold (builderConfig opts) in Hc. unfold startIndex in Hc. cbn [StartParamIndex] in Hc.
  rewrite (proj2 (Z.leb_gt _ _)) in Hc by done.
  specialize (He (mkState (poStartParamIndex opts) []) ltac:(simpl; lia)). unfold wp in He.
  destruct (compile _ _ _ _) as [[sql' st]|err|]; [|done..]. injection Hc as -> <- <-.
  destruct He as (vs & A & I & S). simpl in *. rewrite A. split; [done|].
  apply sf_scan in S as (ps & Hs & _ & Hp). by exists ps.
Qed.
End FeaturePredicate.

Lemma indices_own from count : 0 <= from -> from + Z.of_nat count <= 2 ^ 63 ->
  Forall (ownParam from count) (indices from count).
Proof.
  intros Hf Hb. apply Forall_forall. intros d Hd. unfold indices, prettys in Hd.
  apply list_elem_of_In, in_map_iff in Hd as (n & <- & Hn%list_elem_of_In%elem_of_seqZ).
  exists n. split; [|lia]. apply Atoi_pretty. unfold inInt64. lia.
Qed.

Lemma params_shift from to ps count :
  params ps = indices from count -> 0 <= from -> from + Z.of_nat count <= 2 ^ 63 ->
  params (map (shiftPiece from to) ps) = indices to count.
Proof.
  intros Hp Hf Hb. assert (E : params (map (shiftPiece from to) ps)
    = map (fun d => pretty (to + default 0 (Atoi d) - from)) (params ps)).
  { clear Hp. induction ps as [|[] ps IH]; simpl; by rewrite ?IH. }
  rewrite E, Hp. unfold indices, prettys. rewrite map_map. clear -Hf Hb.
  assert (H : seqZ to (Z.of_nat count) = map (fun n => to + n - from) (seqZ from (Z.of_nat count))).
  { replace to with (to - from + from) at 1 by lia. rewrite <- fmap_add_seqZ. apply map_ext. intros. lia. }
  rewrite H, map_map. apply map_ext_in. intros n Hn%list_elem_of_In%elem_of_seqZ.
  rewrite Atoi_pretty by (unfold inInt64; lia). done.
Qed.

Lemma rebased_numbered sql from to count ps :
  sqlScan sql = Some ps -> params ps = indices from count -> 0 < from -> from + Z.of_nat count <= 2 ^ 63 -> 0 <= to ->
  exists sql' ps', rebaseParameters sql from to count = Some sql' /\ sqlScan sql' = Some ps' /\ params ps' = indices to count.
Proof.
  intros Hs Hp Hf Hb Ht. unfold rebaseParameters. rewrite (proj2 (Z.leb_gt _ _)) by done.
  destruct (rebase_scan from to count Ht (String.length sql) sql ps) as (sql' & Er & Es & _); [done..| |].
  - rewrite Hp. apply indices_own; lia.
  - exists sql', (map (shiftPiece from to) ps). split_and!; [done..|]. apply params_shift; [done|lia|done].
Qed.

Lemma appendSQL_numbered {A} start (b : builder A) sql vs endIdx ps :
  numbered start b -> sqlScan sql = Some ps -> params ps = indices (next b) (length vs) ->
  endIdx = next b + Z.of_nat (length vs) -> (sql = "" -> vs = []) -> numbered start (appendSQL b sql vs endIdx).
Proof.
  intros (Hn & pss & HF & HP) Hs Hp -> He. unfold appendSQL. destruct (String.eqb_spec sql "") as [->|].
  - split; [done|]. by exists pss.
  - split; cbn [next bargs where_]; [rewrite length_app; lia|]. exists (pss ++ [ps]). split.
    + apply Forall2_app; [done|by repeat constructor].
    + rewrite map_app, concat_app, HP, length_app, indices_app. f_equal. simpl. by rewrite app_nil_r, Hp, Hn.
Qed.

Lemma empty_no_args sql ps k (n : nat) : sqlScan sql = Some ps -> params ps = indices k n -> sql = "" -> n = 0%nat.
Proof. intros Hs Hp ->. injection Hs as <-. destruct n; [done|]. by rewrite indices_cons in Hp. Qed.

(** Adding a predicate to a query keeps its conditions and arguments numbered
    alike, for every implementation of the interface that follows its laws and for a
    filter compiled before, which is always renumbered successfully. *)
Theorem AppendQueryPredicate_numbered {A E} (p : QueryParams A E) opts (b : builder A) start trusted :
  0 < start -> numbered start b ->
  (forall compile, Predicate p = Some compile ->
     PredicateLaws trusted compile /\ trusted (mkPredicateOptions (poDialect opts) (poTableAlias opts)
                                                (poGeometryExpression opts) (next b))) ->
  (exists ps, sqlScan (CompiledFilter p) = Some ps
     /\ params ps = indices (CompiledFilterParamOffset p) (length (CompiledFilterArgs p))) ->
  0 < CompiledFilterParamOffset p ->
  CompiledFilterParamOffset p + Z.of_nat (length (CompiledFilterArgs p)) <= 2 ^ 63 ->
  match AppendQueryPredicate p opts b with
  | inr b' => numbered start b'
  | inl InvalidReference => False
  | inl (CompileFailed _) => exists compile, Predicate p = Some compile
  end.
Proof.
  intros Hpos Hb Hl (ps & Hs & Hp) Hf Hbd. unfold AppendQueryPredicate.
  assert (Hnext : 0 < next b) by (destruct Hb as [-> _]; lia).
  destruct (Predicate p) as [compile|].
  - destruct (Hl compile eq_refl) as [L T]. destruct (compile _) as [err|[[sql vs] endIdx]] eqn:Ec; [eauto|].
    apply (L _ _ _ _ T Hnext) in Ec as (He & ps' & Hs' & Hp').
    apply (appendSQL_numbered _ _ _ _ _ ps'); try done.
    intros E0. by apply length_zero_iff_nil, (empty_no_args sql ps' (next b)).
  - destruct (isBlank (CompiledFilter p)); [done|].
    destruct (rebased_numbered _ _ (next b) _ _ Hs Hp Hf Hbd) as (sql' & ps' & -> & Hs' & Hp'); [lia|].
    apply (appendSQL_numbered _ _ _ _ _ ps'); try done.
    intros E0. by apply length_zero_iff_nil, (empty_no_args sql' ps' (next b)).
Qed.

(** A filter compiled from index 1, put after two arguments. *)
Definition exampleParams : QueryParams string unit :=
  mkQueryParams None ("(" +:+ QuoteIdent "$1" +:+ " = $1 OR a IN ($2,$3))") ["x"; "y"; "z"] 1.
Definition exampleBuilder : builder string := mkBuilder ["b = $1"; "c < $2"] ["u"; "v"] 3.
Definition exampleBuilt : builder string :=
  mkBuilder ["b = $1"; "c < $2"; "(" +:+ QuoteIdent "$1" +:+ " = $3 OR a IN ($4,$5))"] ["u"; "v"; "x"; "y"; "z"] 6.

Lemma AppendQueryPredicate_numbered_witness :
  AppendQueryPredicate exampleParams (mkPredicateOptions SQLPostGIS "" "" 0) exampleBuilder = inr exampleBuilt
  /\ numbered 1 exampleBuilt.
Proof.
  assert (E : AppendQueryPredicate exampleParams (mkPredicateOptions SQLPostGIS "" "" 0) exampleBuilder = inr exampleBuilt)
    by (vm_compute; reflexivity).
  split; [exact E|].
  pose proof (AppendQueryPredicate_numbered exampleParams (mkPredicateOptions SQLPostGIS "" "" 0) exampleBuilder 1
    (fun _ => True)) as H.
  rewrite E in H. apply H; [lia| |discriminate| |simpl; lia|simpl; lia].
  - split; [reflexivity|]. eexists [_; _]. split; [repeat constructor; vm_compute; reflexivity|vm_compute; reflexivity].
  - eexists. split; vm_compute; reflexivity.
Defined.
