(* ===== verification/DataSourceSql.v ===== *)
(** * Statements of the data sources ([internal/datasource])

    The statements that list, render, count and change features: the conditions from
    identifiers, a bounding box, a compiled predicate or a CQL filter, the sort order and
    the page, with their arguments. The adapters are tables of PostGIS and DuckDB, Parquet
    and vector files, and SQL views of both dialects.

    Parameters: [timestamp] prints a time in RFC 3339, [formatG] and [formatF] are the
    verbs [%.12g] and [%f], [validateSQL] is the PostgreSQL parser's check of a view. *)

From stdpp Require Import sorting.
From S2P Require Import Prelude SqlUtil GoNum GoText Crs FilterLexer FilterParser FilterPostGIS FilterDuckDB FilterSpec SqlScan FilterCorrect FesModels FesCompiler FesSafety QueryPredicate.

(** ** Layers and queries *)

Record LayerInfo : Type := mkLayerInfo {
  lName : string; lSchema : string; lGeometryColumn : string; lSRID : Z; lIDColumn : string; lProperties : list string;
  lPGTypes : gmap string string }.

Record SortField : Type := mkSortField { sortName : string; sortDesc : bool }.

Record DateTimeFilter : Type := mkDateTime {
  SourceProperty : string; EndProperty : string; dtStart : option Z; dtEnd : option Z; dtInstant : bool }.

(** An argument of a statement, as the part that binds it has it. *)
Inductive queryArg (A : Type) : Type := CoordinateArg (f : float64) | FilterArg (a : arg) | PredicateArg (a : A) | CountArg (n : Z) | IdentifierArg (id : string).
Arguments CoordinateArg {A}.
Arguments FilterArg {A}.
Arguments PredicateArg {A}.
Arguments CountArg {A}.
Arguments IdentifierArg {A}.

Record featureQuery (A E : Type) : Type := mkFeatureQuery {
  qPredicate : QueryParams (queryArg A) E; qLimit : Z; qOffset : Z; qBBox : option BBox; qBBoxSRID : Z; qOutputSRID : Z;
  qFilter : string; qFilterSRID : Z; qSortBy : list SortField; qProperties : list string; qSimplify : float64;
  qDateTime : option DateTimeFilter; qFeatureIDs : list string }.
Arguments mkFeatureQuery {A E}.
Arguments qPredicate {A E}.
Arguments qLimit {A E}.
Arguments qOffset {A E}.
Arguments qBBox {A E}.
Arguments qBBoxSRID {A E}.
Arguments qOutputSRID {A E}.
Arguments qFilter {A E}.
Arguments qFilterSRID {A E}.
Arguments qSortBy {A E}.
Arguments qProperties {A E}.
Arguments qSimplify {A E}.
Arguments qDateTime {A E}.
Arguments qFeatureIDs {A E}.

Inductive sqlErr (E : Type) : Type := NameOutOfRange | PredicateFailed (e : appendErr E) | FilterFailed (e : option perr) | NoIdentifier | ViewRefused.
Arguments NameOutOfRange {E}.
Arguments PredicateFailed {E}.
Arguments FilterFailed {E}.
Arguments NoIdentifier {E}.
Arguments ViewRefused {E}.

Definition nonZero (v def : Z) : Z := if v =? 0 then def else v.

(** ** Clauses *)

Definition WhereClause (predicates : list string) : string :=
  match predicates with [] => "" | _ => "WHERE " +:+ Join " AND " predicates end.

(** Without a test, any name may be sorted by. *)
Definition OrderByClause (alias : string) (sortBy : list SortField) (sortable : option (string -> bool)) (idColumn : string) : string :=
  match sortBy with
  | [] => if String.eqb idColumn "" then "" else "ORDER BY " +:+ alias +:+ "." +:+ QuoteIdent idColumn
  | _ =>
      let item (f : SortField) := alias +:+ "." +:+ QuoteIdent (sortName f) +:+ " " +:+ (if sortDesc f then "DESC" else "ASC") in
      match map item (List.filter (fun f => negb (String.eqb (sortName f) "" || match sortable with Some t => negb (t (sortName f)) | None => false end)) sortBy) with
      | [] => ""
      | items => "ORDER BY " +:+ Join ", " items
      end
  end.

Definition LayerSortable (info : LayerInfo) (name : string) : bool :=
  bool_decide (is_Some (lPGTypes info !! name)) || String.eqb name (lIDColumn info).

(** [LIMIT] and [OFFSET] are bound after the arguments there are. *)
Definition LimitOffsetClause (argPos : Z) : string := "LIMIT " +:+ placeholder argPos +:+ " OFFSET " +:+ placeholder (argPos + 1).

Definition StableSort (fields : list SortField) (idProperty : string) : list SortField :=
  match fields with
  | [] => fields
  | _ => if String.eqb idProperty "" || existsb (fun f => String.eqb (sortName f) idProperty) fields then fields
         else fields ++ [mkSortField idProperty false]
  end.

Definition PropertySelected (name : string) (requested : list string) : bool :=
  match requested with [] => true | _ => existsb (fun c => String.eqb c name) requested end.

(** ** Bounding boxes *)

Definition float180 : float64 := decimal_to_float false 180 0.
Definition floatMinus180 : float64 := decimal_to_float true 180 0.

Definition Parts (srid : Z) (b : BBox) : list BBox :=
  if (srid =? 4326) && float_gtb (MinX b) (MaxX b)
  then [mkBBox (MinX b) (MinY b) float180 (MaxY b); mkBBox floatMinus180 (MinY b) (MaxX b) (MaxY b)]
  else [b].

Definition bboxArgs {A} (b : BBox) : list (queryArg A) := map CoordinateArg [MinX b; MinY b; MaxX b; MaxY b].

(** The four coordinates from an index on. *)
Definition corners (sep : string) (argPos : Z) : string := Join sep (map placeholder [argPos; argPos + 1; argPos + 2; argPos + 3]).

(** One condition for each part; the next free index follows from their number. *)
Fixpoint bboxClauses (clause : Z -> string) (argPos : Z) (parts : list BBox) : list string :=
  match parts with
  | [] => []
  | _ :: rest => clause argPos :: bboxClauses clause (argPos + 4) rest
  end.

Definition postgisEnvelope (geomExpr : string) (sourceSRID bboxSRID argPos : Z) : string :=
  let envelope := "ST_MakeEnvelope(" +:+ corners "," argPos +:+ "," +:+ pretty bboxSRID +:+ ")" in
  let envelope := if sourceSRID =? bboxSRID then envelope else "ST_Transform(" +:+ envelope +:+ ", " +:+ pretty sourceSRID +:+ ")" in
  "ST_Intersects(" +:+ geomExpr +:+ ", " +:+ envelope +:+ ")".

Definition buildBBoxPredicate {A} (geomExpr : string) (sourceSRID bboxSRID argPos : Z) (bbox : BBox) : string * list (queryArg A) * Z :=
  let bboxSRID := nonZero bboxSRID 4326 in
  let parts := Parts bboxSRID bbox in
  (match bboxClauses (postgisEnvelope geomExpr (nonZero sourceSRID 4326) bboxSRID) argPos parts with
   | [clause] => clause
   | clauses => "(" +:+ Join " OR " clauses +:+ ")"
   end,
   concat (map bboxArgs parts), argPos + 4 * Z.of_nat (length parts)).

Definition epsgLiteral (srid : Z) : string := QuoteLiteral ("EPSG:" +:+ pretty srid).

Definition duckdbEnvelope (geomExpr : string) (sourceSRID bboxSRID argPos : Z) : string :=
  let envelope := "ST_MakeEnvelope(" +:+ corners ", " argPos +:+ ")" in
  let envelope := if (sourceSRID =? 0) || (sourceSRID =? bboxSRID) then envelope
                  else "ST_Transform(" +:+ envelope +:+ ", " +:+ epsgLiteral bboxSRID +:+ ", " +:+ epsgLiteral sourceSRID +:+ ", always_xy := true)" in
  "ST_Intersects(" +:+ geomExpr +:+ ", " +:+ envelope +:+ ")".

Definition DuckDBBBoxPredicate {A} (geomExpr : string) (sourceSRID bboxSRID argPos : Z) (bbox : BBox) : string * list (queryArg A) * Z :=
  let bboxSRID := nonZero bboxSRID 4326 in
  let parts := Parts bboxSRID bbox in
  ("(" +:+ Join " OR " (bboxClauses (duckdbEnvelope geomExpr sourceSRID bboxSRID) argPos parts) +:+ ")",
   concat (map bboxArgs parts), argPos + 4 * Z.of_nat (length parts)).

Section Statements.
Context {A E : Type} (timestamp : Z -> string) (formatG formatF : float64 -> string) (validateSQL : string -> bool).
Local Abbreviation query := (featureQuery A E).

(** ** The temporal selection *)

(** [DateTimeFilter.CQL2]; an instant has a start, an interval at least one end. *)
Definition dateTimeCQL2 (f : DateTimeFilter) : string :=
  if isBlank (SourceProperty f) then ""
  else
    let source := QuoteIdent (SourceProperty f) in
    let endProperty := QuoteIdent (EndProperty f) in
    let stamp (t : option Z) := match t with Some t => timestamp t | None => "" end in
    let matches :=
      if String.eqb (EndProperty f) "" then
        if dtInstant f then source +:+ " = " +:+ stamp (dtStart f)
        else match dtStart f, dtEnd f with
             | Some _, Some _ => source +:+ " >= " +:+ stamp (dtStart f) +:+ " AND " +:+ source +:+ " <= " +:+ stamp (dtEnd f)
             | Some _, None => source +:+ " >= " +:+ stamp (dtStart f)
             | None, _ => source +:+ " <= " +:+ stamp (dtEnd f)
             end
      else
        let startMatch := "(" +:+ endProperty +:+ " >= " +:+ stamp (dtStart f) +:+ " OR (" +:+ endProperty +:+ " IS NULL AND " +:+ source +:+ " >= "
                          +:+ stamp (dtStart f) +:+ "))" in
        let endMatch := source +:+ " <= " +:+ stamp (dtEnd f) in
        match dtStart f, dtEnd f with
        | Some _, Some _ => endMatch +:+ " AND " +:+ startMatch
        | Some _, None => startMatch
        | None, Some _ => endMatch
        | None, None => ""
        end in
    "(" +:+ source +:+ " IS NULL OR (" +:+ matches +:+ "))".

Definition WithDateTimeFilter (p : query) : string :=
  let temporal := match qDateTime p with Some f => dateTimeCQL2 f | None => "" end in
  if String.eqb temporal "" then qFilter p
  else if isBlank (qFilter p) then temporal
  else "(" +:+ qFilter p +:+ ") AND (" +:+ temporal +:+ ")".

(** ** The conditions of a query *)

(** What the conditions of an adapter are about: the dialect, the name of the relation, its
    geometry and its geometry in filters, the reference system filters are brought to,
    the condition for a box from an index on, when a filter is none, and whether
    identifiers select rows. *)
Record queryRelation : Type := mkRelation {
  rDialect : SQLDialect; rAlias : string; rGeometry : string; rFilterGeometry : string; rFilterSource : Z;
  rBox : Z -> Z -> BBox -> string * list (queryArg A) * Z; rNoFilter : string -> bool; rSelectsIDs : bool }.

Definition allowedProperties (info : LayerInfo) : gset string :=
  list_to_set (lProperties info) ∪ (if String.eqb (lIDColumn info) "" then ∅ else {[lIDColumn info]}).

Definition column (alias : string) (info : LayerInfo) : string := alias +:+ "." +:+ QuoteIdent (lGeometryColumn info).

Definition geometryOf (info : LayerInfo) : string := column "t" info.

Definition compileCQL (r : queryRelation) (info : LayerInfo) (filterSRID argPos : Z) (cql : string) : outcome perr (string * list arg * Z) :=
  match rDialect r with
  | SQLPostGIS => Compile cql (FilterPostGIS.mkOptions argPos (nonZero filterSRID 4326) (rFilterSource r) (allowedProperties info) (lGeometryColumn info))
  | SQLDuckDB =>
      CompileForDuckDB cql (mkDuckDBOptions argPos (nonZero filterSRID 4326) (rFilterSource r) (allowedProperties info) (lGeometryColumn info) (rFilterGeometry r))
  end.

Definition FeatureIDPredicate (ids : list string) (column : string) (start : Z) : string * list (queryArg A) * Z :=
  ("CAST(" +:+ column +:+ " AS VARCHAR) IN (" +:+ Join ", " (map placeholder (seqZ start (Z.of_nat (length ids)))) +:+ ")",
   map IdentifierArg ids, start + Z.of_nat (length ids)).

Definition emptyBuilder : builder (queryArg A) := mkBuilder [] [] 1.

Definition withIdentifiers (r : queryRelation) (info : LayerInfo) (p : query) : sqlErr E + builder (queryArg A) :=
  if negb (rSelectsIDs r) || bool_decide (qFeatureIDs p = []) then inr emptyBuilder
  else if String.eqb (lIDColumn info) "" then inl NoIdentifier
  else let '(sql, values, next) := FeatureIDPredicate (qFeatureIDs p) (rAlias r +:+ "." +:+ QuoteIdent (lIDColumn info)) 1 in inr (mkBuilder [sql] values next).

Definition withBox (r : queryRelation) (p : query) (b : builder (queryArg A)) : builder (queryArg A) :=
  match qBBox p with
  | Some bbox => let '(sql, values, endIdx) := rBox r (qBBoxSRID p) (next b) bbox in mkBuilder (where_ b ++ [sql]) (bargs b ++ values) endIdx
  | None => b
  end.

(** The part the builders have in common: identifiers, bounding box, predicate, filter. *)
Definition conditions (r : queryRelation) (info : LayerInfo) (p : query) : sqlErr E + builder (queryArg A) :=
  match withIdentifiers r info p with
  | inl e => inl e
  | inr b =>
      match AppendQueryPredicate (qPredicate p) (mkPredicateOptions (rDialect r) (rAlias r) (rGeometry r) 0) (withBox r p b) with
      | inl e => inl (PredicateFailed e)
      | inr b =>
          let cql := WithDateTimeFilter p in
          if HasCompiledPredicate (qPredicate p) || rNoFilter r cql then inr b
          else match compileCQL r info (qFilterSRID p) (next b) cql with
               | Ok (sql, values, endIdx) => inr (appendSQL b sql (map FilterArg values) endIdx)
               | Err e => inl (FilterFailed (Some e))
               | NoFuel => inl (FilterFailed None)
               end
      end
  end.

(** ** Parts of statements *)

Definition identifierOr (before after none : string) (info : LayerInfo) : string :=
  if String.eqb (lIDColumn info) "" then none else before +:+ QuoteIdent (lIDColumn info) +:+ after.

Definition tableOrder (info : LayerInfo) (p : query) : string :=
  OrderByClause "t" (StableSort (qSortBy p) (lIDColumn info)) (Some (LayerSortable info)) (lIDColumn info).

Definition simplified (tolerance : float64) (geomExpr : string) : string :=
  if float_gtb tolerance (decimal_to_float false 0 0)
  then "ST_SimplifyPreserveTopology(" +:+ geomExpr +:+ ", " +:+ formatG tolerance +:+ ")" else geomExpr.

Definition limitText (limit : Z) : string := if 0 <? limit then "LIMIT " +:+ pretty limit else "".

(** Runs a builder on the conditions of a query. *)
Definition onConditions (r : queryRelation) (info : LayerInfo) (p : query) (k : builder (queryArg A) -> string * list (queryArg A)) : sqlErr E + string * list (queryArg A) :=
  match conditions r info p with inl e => inl e | inr b => inr (k b) end.

(** ** PostGIS *)

(** [info.Name[len(info.Schema)+1:]], which panics on a shorter name. *)
Definition postgisTable (info : LayerInfo) : option string :=
  let n := S (String.length (lSchema info)) in
  if (String.length (lName info) <? n)%nat then None
  else Some (QuoteIdent (lSchema info) +:+ "." +:+ QuoteIdent (sdrop n (lName info))).

Definition postgisRelation (info : LayerInfo) : queryRelation :=
  mkRelation SQLPostGIS "t" (geometryOf info) "" (lSRID info) (buildBBoxPredicate (geometryOf info) (lSRID info)) isBlank false.

Definition postgisGeometry (info : LayerInfo) (outSRID : Z) : string :=
  let geomExpr := "(t." +:+ QuoteIdent (lGeometryColumn info) +:+ ")::geometry" in
  if lSRID info =? outSRID then geomExpr else "ST_Transform(" +:+ geomExpr +:+ ", " +:+ pretty outSRID +:+ ")".

Definition buildProjectedProperties (info : LayerInfo) (requested : list string) : string :=
  match requested with
  | [] => if String.eqb (lIDColumn info) "" then "(to_jsonb(t) - " +:+ QuoteLiteral (lGeometryColumn info) +:+ ")"
          else "(to_jsonb(t) - " +:+ QuoteLiteral (lGeometryColumn info) +:+ " - " +:+ QuoteLiteral (lIDColumn info) +:+ ")"
  | _ =>
      match List.filter (fun n => negb (String.eqb n (lIDColumn info)) && PropertySelected n requested) (lProperties info) with
      | [] => QuoteLiteral "{}" +:+ "::jsonb"
      | names => "jsonb_build_object(" +:+ Join "," (concat (map (fun n => [QuoteLiteral n; "t." +:+ QuoteIdent n]) names)) +:+ ")"
      end
  end.

Definition postgisFeature (idExpr geomOut propExpr : string) : string :=
  "jsonb_build_object(" +:+ QuoteLiteral "type" +:+ "," +:+ QuoteLiteral "Feature" +:+ "," +:+ QuoteLiteral "id" +:+ "," +:+ idExpr
  +:+ "," +:+ QuoteLiteral "geometry" +:+ ",ST_AsGeoJSON(" +:+ geomOut +:+ ")::jsonb," +:+ QuoteLiteral "properties" +:+ "," +:+ propExpr +:+ ")".

Definition onTable (info : LayerInfo) (k : string -> sqlErr E + string * list (queryArg A)) : sqlErr E + string * list (queryArg A) :=
  match postgisTable info with Some table => k table | None => inl NameOutOfRange end.

Definition postgisBuildListSQL (info : LayerInfo) (p : query) : sqlErr E + string * list (queryArg A) :=
  onTable info (fun table => onConditions (postgisRelation info) info p (fun b =>
    let feature := postgisFeature (identifierOr "t." "" "NULL" info) (postgisGeometry info (nonZero (qOutputSRID p) 4326)) (buildProjectedProperties info (qProperties p)) in
    ("SELECT " +:+ feature +:+ " AS feature FROM " +:+ table +:+ " t " +:+ WhereClause (where_ b) +:+ " " +:+ tableOrder info p +:+ " " +:+ LimitOffsetClause (next b),
     bargs b ++ [CountArg (qLimit p); CountArg (qOffset p)]))).

Definition postgisBuildWKBSQL (info : LayerInfo) (p : query) : sqlErr E + string * list (queryArg A) :=
  onTable info (fun table => onConditions (postgisRelation info) info p (fun b =>
    let geomOut := simplified (qSimplify p) (postgisGeometry info (nonZero (qOutputSRID p) (lSRID info))) in
    ("SELECT ST_AsBinary(" +:+ geomOut +:+ ") AS geom, " +:+ buildProjectedProperties info (qProperties p) +:+ " AS props, " +:+ identifierOr "t." "::text" "NULL::text" info
     +:+ " AS feature_id FROM " +:+ table +:+ " t " +:+ WhereClause (where_ b) +:+ " " +:+ limitText (qLimit p), bargs b))).

Definition postgisBuildCountSQL (info : LayerInfo) (p : query) : sqlErr E + string * list (queryArg A) :=
  onTable info (fun table => onConditions (postgisRelation info) info p (fun b =>
    ("SELECT COUNT(*) FROM " +:+ table +:+ " t " +:+ WhereClause (where_ b), bargs b))).

Definition postgisBuildFeatureByIDSQL (info : LayerInfo) (outSRID : Z) : option string :=
  table ← postgisTable info;
  let propExpr := "(to_jsonb(t) - " +:+ QuoteLiteral (lGeometryColumn info) +:+ " - " +:+ QuoteLiteral (lIDColumn info) +:+ ")" in
  Some ("SELECT " +:+ postgisFeature ("t." +:+ QuoteIdent (lIDColumn info)) (postgisGeometry info outSRID) propExpr +:+ " AS feature FROM " +:+ table
        +:+ " t WHERE t." +:+ QuoteIdent (lIDColumn info) +:+ " = " +:+ placeholder 1 +:+ " LIMIT 1").

(** ** DuckDB *)

Definition duckdbRelation (info : LayerInfo) (noFilter : string -> bool) : queryRelation :=
  mkRelation SQLDuckDB "t" (geometryOf info) "" (lSRID info) (DuckDBBBoxPredicate (geometryOf info) (lSRID info)) noFilter false.

Definition noText (s : string) : bool := String.eqb s "".

Definition duckdbTransform (geomExpr : string) (sourceSRID outSRID : Z) : string :=
  "ST_Transform(" +:+ geomExpr +:+ ", " +:+ epsgLiteral sourceSRID +:+ ", " +:+ epsgLiteral outSRID +:+ ", always_xy := true)".

Definition propertyItems (alias : string) (names : list string) : list string :=
  map (fun n => QuoteLiteral n +:+ ", " +:+ alias +:+ "." +:+ QuoteIdent n) names.

Definition jsonObject (items : list string) : string :=
  match items with [] => QuoteLiteral "{}" +:+ "::JSON" | _ => "json_object(" +:+ Join ", " items +:+ ")" end.

(** A text with double quotes, which are written as back quotes here. *)
Definition jsonText (s : string) : string := smap (fun c => if Ascii.eqb c "`" then dquote else c) s.

Definition DuckDBFeatureJSONExpression (id geometry properties : string) : string :=
  "concat(" +:+ QuoteLiteral (jsonText "{`type`:`Feature`,`id`:") +:+ ", coalesce(to_json(" +:+ id
  +:+ ")::VARCHAR, " +:+ QuoteLiteral "null" +:+ "), " +:+ QuoteLiteral (jsonText ",`geometry`:")
  +:+ ", coalesce(ST_AsGeoJSON(" +:+ geometry +:+ ")::VARCHAR, " +:+ QuoteLiteral "null" +:+ "), "
  +:+ QuoteLiteral (jsonText ",`properties`:") +:+ ", (" +:+ properties +:+ ")::VARCHAR, " +:+ QuoteLiteral "}" +:+ ")".

(** The geometry as a list gives it: a layer of unknown reference system is left as it is. *)
Definition listGeometry (geomExpr : string) (sourceSRID outSRID : Z) : string :=
  if (sourceSRID =? outSRID) || (sourceSRID =? 0) then geomExpr else duckdbTransform geomExpr sourceSRID outSRID.

(** The geometry as a rendering gives it. *)
Definition renderGeometry (geomExpr : string) (sourceSRID outSRID : Z) : string :=
  if sourceSRID =? outSRID then geomExpr else duckdbTransform geomExpr sourceSRID outSRID.

(** The forms the statements of DuckDB share. *)
Definition duckdbList (alias table feature orderSQL : string) (p : query) (b : builder (queryArg A)) : string * list (queryArg A) :=
  ("SELECT CAST(" +:+ feature +:+ " AS VARCHAR) AS feature FROM " +:+ table +:+ " " +:+ alias +:+ " " +:+ WhereClause (where_ b) +:+ " " +:+ orderSQL
   +:+ " " +:+ LimitOffsetClause (next b), bargs b ++ [CountArg (qLimit p); CountArg (qOffset p)]).

Definition duckdbRender (alias table geomOut propExpr idExpr : string) (p : query) (b : builder (queryArg A)) : string * list (queryArg A) :=
  ("SELECT ST_AsWKB(" +:+ geomOut +:+ ") AS geom, " +:+ propExpr +:+ " AS props, " +:+ idExpr +:+ " AS feature_id FROM "
   +:+ table +:+ " " +:+ alias +:+ " " +:+ WhereClause (where_ b) +:+ " " +:+ limitText (qLimit p), bargs b).

Definition duckdbCount (alias table : string) (b : builder (queryArg A)) : string * list (queryArg A) :=
  ("SELECT COUNT(*) FROM " +:+ table +:+ " " +:+ alias +:+ " " +:+ WhereClause (where_ b), bargs b).

Definition duckdbOne (table feature : string) (info : LayerInfo) : string :=
  "SELECT CAST(" +:+ feature +:+ " AS VARCHAR) AS feature FROM " +:+ table +:+ " t WHERE t." +:+ QuoteIdent (lIDColumn info) +:+ " = " +:+ placeholder 1 +:+ " LIMIT 1".

(** The properties a list shows: the requested ones without the identifier. *)
Definition listedProperties (info : LayerInfo) (p : query) : list string :=
  List.filter (fun n => negb (String.eqb n (lIDColumn info)) && PropertySelected n (qProperties p)) (lProperties info).

Definition otherProperties (info : LayerInfo) : list string := List.filter (fun n => negb (String.eqb n (lIDColumn info))) (lProperties info).

(** *** Tables *)

Definition duckdbBuildListSQL (info : LayerInfo) (p : query) : sqlErr E + string * list (queryArg A) :=
  onConditions (duckdbRelation info noText) info p
    (duckdbList "t" (QuoteIdent (lName info))
       (DuckDBFeatureJSONExpression (identifierOr "t." "" "NULL" info) (listGeometry (geometryOf info) (lSRID info) (nonZero (qOutputSRID p) 4326))
          (jsonObject (propertyItems "t" (listedProperties info p)))) (tableOrder info p) p).

(** No guard for a layer whose reference system is unknown. *)
Definition duckdbBuildWKBSQL (info : LayerInfo) (p : query) : sqlErr E + string * list (queryArg A) :=
  let props := propertyItems "t" (List.filter (fun n => negb (String.eqb n (lGeometryColumn info)) && PropertySelected n (qProperties p)) (lProperties info)) in
  onConditions (duckdbRelation info isBlank) info p
    (duckdbRender "t" (QuoteIdent (lName info))
       (simplified (qSimplify p) (renderGeometry (geometryOf info) (lSRID info) (nonZero (qOutputSRID p) (lSRID info))))
       ("json_object(" +:+ Join ", " props +:+ ")") (identifierOr "CAST(t." " AS VARCHAR)" "NULL" info) p).

Definition duckdbBuildCountSQL (info : LayerInfo) (p : query) : sqlErr E + string * list (queryArg A) :=
  onConditions (duckdbRelation info noText) info p (duckdbCount "t" (QuoteIdent (lName info))).

Definition duckdbBuildFeatureByIDSQL (info : LayerInfo) (outSRID : Z) : string :=
  duckdbOne (QuoteIdent (lName info))
    (DuckDBFeatureJSONExpression ("t." +:+ QuoteIdent (lIDColumn info)) (listGeometry (geometryOf info) (lSRID info) (nonZero outSRID 4326))
       (jsonObject (propertyItems "t" (otherProperties info)))) info.

(** *** Parquet files *)

Definition parquetGeometry (info : LayerInfo) : string :=
  if HasPrefix (ToUpper (default "" (lPGTypes info !! lGeometryColumn info))) "GEOMETRY" then geometryOf info else "ST_GeomFromWKB(" +:+ geometryOf info +:+ ")".

Definition readParquet (path : string) : string := "read_parquet(" +:+ QuoteLiteral path +:+ ")".

(** A text between quotes, as it is. *)
Definition rawLiteral (s : string) : string := "'" +:+ s +:+ "'".

Definition boxText (b : BBox) : string :=
  let point x y := formatF x +:+ " " +:+ formatF y in
  "POLYGON((" +:+ Join ", " [point (MinX b) (MinY b); point (MaxX b) (MinY b); point (MaxX b) (MaxY b); point (MinX b) (MaxY b); point (MinX b) (MinY b)] +:+ "))".

(** The rendering writes the box into the text of its statement. *)
Definition parquetBox (info : LayerInfo) (bboxSRID argPos : Z) (bbox : BBox) : string * list (queryArg A) * Z :=
  let bboxSRID := nonZero bboxSRID 4326 in
  let clause part :=
    let envelope := "ST_GeomFromText(" +:+ rawLiteral (boxText part) +:+ ")" in
    "ST_Intersects(" +:+ parquetGeometry info +:+ ", " +:+ (if bboxSRID =? lSRID info then envelope else duckdbTransform envelope bboxSRID (lSRID info)) +:+ ")" in
  ("(" +:+ Join " OR " (map clause (Parts bboxSRID bbox)) +:+ ")", [], argPos).

Definition parquetRelation (info : LayerInfo) (box : Z -> Z -> BBox -> string * list (queryArg A) * Z) : queryRelation :=
  mkRelation SQLDuckDB "t" (parquetGeometry info) (parquetGeometry info) (lSRID info) box noText false.

Definition parquetRows (info : LayerInfo) : queryRelation := parquetRelation info (DuckDBBBoxPredicate (parquetGeometry info) (lSRID info)).

Definition parquetBuildListSQL (path : string) (info : LayerInfo) (p : query) : sqlErr E + string * list (queryArg A) :=
  onConditions (parquetRows info) info p
    (duckdbList "t" (readParquet path)
       (DuckDBFeatureJSONExpression (identifierOr "t." "" "NULL" info) (listGeometry (parquetGeometry info) (lSRID info) (nonZero (qOutputSRID p) 4326))
          (jsonObject (propertyItems "t" (listedProperties info p)))) (tableOrder info p) p).

Definition parquetBuildWKBSQL (path : string) (info : LayerInfo) (p : query) : sqlErr E + string * list (queryArg A) :=
  let props := propertyItems "t" (List.filter (fun n => negb (String.eqb n (lGeometryColumn info)) && PropertySelected n (qProperties p)) (lProperties info)) in
  onConditions (parquetRelation info (parquetBox info)) info p
    (duckdbRender "t" (readParquet path)
       (simplified (qSimplify p) (renderGeometry (parquetGeometry info) (lSRID info) (nonZero (qOutputSRID p) (lSRID info))))
       ("json_object(" +:+ Join ", " props +:+ ")") (identifierOr "CAST(t." " AS VARCHAR)" "NULL" info) p).

Definition parquetBuildCountSQL (path : string) (info : LayerInfo) (p : query) : sqlErr E + string * list (queryArg A) :=
  onConditions (parquetRows info) info p (duckdbCount "t" (readParquet path)).

Definition parquetBuildFeatureByIDSQL (path : string) (info : LayerInfo) (outSRID : Z) : string :=
  duckdbOne (readParquet path)
    (DuckDBFeatureJSONExpression ("t." +:+ QuoteIdent (lIDColumn info)) (listGeometry (parquetGeometry info) (lSRID info) (nonZero outSRID 4326))
       (jsonObject (propertyItems "t" (otherProperties info)))) info.

(** *** Vector files *)

Record vectorFile : Type := mkVectorFile { vfPath : string; vfLayer : string; vfFormat : string; vfOpenOptions : list (string * string) }.

Definition openOptionNames : list string :=
  ["FLATTEN_NESTED_ATTRIBUTES"; "NESTED_ATTRIBUTE_SEPARATOR"; "ARRAY_AS_STRING"; "DATE_AS_STRING"; "ADJUST_GEOM_TYPE"; "ADJUST_TYPE"; "LIST_ALL_TABLES"].

(** [None]: an option that is not supported. *)
Definition readOptions (options : list (string * string)) : option string :=
  if forallb (fun o => bool_decide (o.1 ∈ openOptionNames)) options then
    match merge_sort (fun a b => Is_true (String.leb a b)) (map (fun o => QuoteLiteral (o.1 +:+ "=" +:+ o.2)) options) with
    | [] => Some ""
    | values => Some (", open_options=[" +:+ Join "," values +:+ "]")
    end
  else None.

Definition isMultiLayerFormat (f : vectorFile) : bool := String.eqb (vfFormat f) "geopackage" || String.eqb (vfFormat f) "gml".

Definition buildReadExpression (f : vectorFile) (layer : string) : string :=
  let openOpts := default "" (readOptions (vfOpenOptions f)) +:+ ReadPolicySQL in
  let layerName := if String.eqb (vfLayer f) "" && negb (String.eqb layer "") && isMultiLayerFormat f then layer else vfLayer f in
  if String.eqb layerName "" then "ST_Read(" +:+ QuoteLiteral (vfPath f) +:+ openOpts +:+ ")"
  else "ST_Read(" +:+ QuoteLiteral (vfPath f) +:+ ", layer=" +:+ QuoteLiteral layerName +:+ openOpts +:+ ")".

Definition isNativeGeometry (colType : string) : bool := HasPrefix (ToLower colType) "geometry" && negb (Contains (ToLower colType) "blob").

Definition filterGeometry (info : LayerInfo) : string :=
  if isNativeGeometry (default "" (lPGTypes info !! lGeometryColumn info)) then geometryOf info else "ST_GeomFromWKB(" +:+ geometryOf info +:+ ")".

(** Filters are given the bare column. *)
Definition vectorRelation (info : LayerInfo) : queryRelation :=
  mkRelation SQLDuckDB "t" (filterGeometry info) "" (lSRID info) (DuckDBBBoxPredicate (filterGeometry info) (lSRID info)) noText false.

Definition vectorBuildListSQL (f : vectorFile) (layer : string) (info : LayerInfo) (p : query) : sqlErr E + string * list (queryArg A) :=
  onConditions (vectorRelation info) info p
    (duckdbList "t" (buildReadExpression f layer)
       (DuckDBFeatureJSONExpression (identifierOr "t." "" "NULL" info) (listGeometry (filterGeometry info) (lSRID info) (nonZero (qOutputSRID p) 4326))
          (jsonObject (propertyItems "t" (listedProperties info p)))) (tableOrder info p) p).

Definition vectorBuildWKBSQL (f : vectorFile) (layer : string) (info : LayerInfo) (p : query) : sqlErr E + string * list (queryArg A) :=
  let props := propertyItems "t" (List.filter (fun n => PropertySelected n (qProperties p)) (lProperties info)) in
  onConditions (vectorRelation info) info p
    (duckdbRender "t" (buildReadExpression f layer)
       (simplified (qSimplify p) (listGeometry (filterGeometry info) (lSRID info) (nonZero (qOutputSRID p) 4326)))
       (jsonObject props) (identifierOr "CAST(t." " AS VARCHAR)" "NULL" info) p).

Definition vectorBuildCountSQL (f : vectorFile) (layer : string) (info : LayerInfo) (p : query) : sqlErr E + string * list (queryArg A) :=
  onConditions (vectorRelation info) info p (duckdbCount "t" (buildReadExpression f layer)).

Definition vectorBuildFeatureByIDSQL (f : vectorFile) (layer : string) (info : LayerInfo) (outSRID : Z) : string :=
  duckdbOne (buildReadExpression f layer)
    (DuckDBFeatureJSONExpression ("t." +:+ QuoteIdent (lIDColumn info)) (listGeometry (filterGeometry info) (lSRID info) (nonZero outSRID 4326))
       (jsonObject (propertyItems "t" (otherProperties info)))) info.

(** ** SQL views *)

Record SQLViewConfig : Type := mkView { vSQL : string; vGeometryColumn : string; vSRID : Z; vIDColumn : string; vProperties : list string }.

(** The relation of a view: no table, no catalogued types. *)
Definition viewInfo (c : SQLViewConfig) : LayerInfo := mkLayerInfo "" "" (vGeometryColumn c) (vSRID c) (vIDColumn c) (vProperties c) ∅.

(** The properties of a view are its columns without geometry and identifier. *)
Definition viewColumns (c : SQLViewConfig) : list string :=
  List.filter (fun n => negb (String.eqb n (vGeometryColumn c)) && negb (String.eqb n (vIDColumn c))) (vProperties c).

Definition viewSelected (c : SQLViewConfig) (p : query) : list string := List.filter (fun n => PropertySelected n (qProperties p)) (viewColumns c).

Definition viewOrder (c : SQLViewConfig) (p : query) : string := OrderByClause "v" (StableSort (qSortBy p) (vIDColumn c)) None (vIDColumn c).

(** *** PostGIS *)

Definition postgisView (c : SQLViewConfig) : queryRelation :=
  mkRelation SQLPostGIS "v" (column "v" (viewInfo c)) "" (nonZero (vSRID c) 4326) (buildBBoxPredicate (column "v" (viewInfo c)) (vSRID c)) isBlank true.

Definition postgisViewGeometry (c : SQLViewConfig) (outSRID : Z) : string :=
  if negb (vSRID c =? 0) && negb (vSRID c =? outSRID) then "ST_Transform(" +:+ column "v" (viewInfo c) +:+ ", " +:+ pretty outSRID +:+ ")"
  else column "v" (viewInfo c).

Definition jsonbObject (items : list string) : string :=
  match items with [] => QuoteLiteral "{}" +:+ "::jsonb" | _ => "jsonb_build_object(" +:+ Join ", " items +:+ ")" end.

Definition ifValid (c : SQLViewConfig) (r : sqlErr E + string * list (queryArg A)) : sqlErr E + string * list (queryArg A) :=
  if validateSQL (vSQL c) then r else inl ViewRefused.

Definition postgisBuildSQLViewListSQL (c : SQLViewConfig) (p : query) : sqlErr E + string * list (queryArg A) :=
  ifValid c (onConditions (postgisView c) (viewInfo c) p (fun b =>
    let feature := postgisFeature (identifierOr "v." "" "NULL" (viewInfo c)) (simplified (qSimplify p) (postgisViewGeometry c (nonZero (qOutputSRID p) 4326)))
                     (jsonbObject (propertyItems "v" (viewSelected c p))) in
    ("SELECT " +:+ feature +:+ " AS feature FROM (" +:+ vSQL c +:+ ") v " +:+ WhereClause (where_ b) +:+ " " +:+ viewOrder c p +:+ " " +:+ LimitOffsetClause (next b),
     bargs b ++ [CountArg (qLimit p); CountArg (qOffset p)]))).

Definition postgisBuildSQLViewWKBSQL (c : SQLViewConfig) (p : query) : sqlErr E + string * list (queryArg A) :=
  ifValid c (onConditions (postgisView c) (viewInfo c) p (fun b =>
    ("SELECT ST_AsBinary(" +:+ postgisViewGeometry c (nonZero (nonZero (qOutputSRID p) (vSRID c)) 4326) +:+ ") AS geom, " +:+ jsonbObject (propertyItems "v" (viewColumns c))
     +:+ " AS props, " +:+ identifierOr "v." "::text" "NULL::text" (viewInfo c) +:+ " AS feature_id FROM (" +:+ vSQL c +:+ ") v " +:+ WhereClause (where_ b)
     +:+ " " +:+ limitText (qLimit p), bargs b))).

Definition postgisBuildSQLViewCountSQL (c : SQLViewConfig) (p : query) : sqlErr E + string * list (queryArg A) :=
  ifValid c (onConditions (postgisView c) (viewInfo c) p (fun b => ("SELECT COUNT(*) FROM (" +:+ vSQL c +:+ ") v " +:+ WhereClause (where_ b), bargs b))).

(** *** DuckDB *)

Definition newline : string := String "010" "".

(** On lines of its own, so that a comment at its end does not reach the parenthesis. *)
Definition subquery (sql : string) : string := "(" +:+ newline +:+ sql +:+ newline +:+ ")".

Definition viewSource (c : SQLViewConfig) : Z := nonZero (vSRID c) 4326.

Definition duckdbView (c : SQLViewConfig) : queryRelation :=
  mkRelation SQLDuckDB "v" (column "v" (viewInfo c)) "" (viewSource c) (DuckDBBBoxPredicate (column "v" (viewInfo c)) (viewSource c)) noText true.

Definition duckdbBuildSQLViewListSQL (c : SQLViewConfig) (p : query) : sqlErr E + string * list (queryArg A) :=
  onConditions (duckdbView c) (viewInfo c) p
    (duckdbList "v" (subquery (vSQL c))
       (DuckDBFeatureJSONExpression (identifierOr "v." "" "NULL" (viewInfo c))
          (simplified (qSimplify p) (renderGeometry (column "v" (viewInfo c)) (viewSource c) (nonZero (qOutputSRID p) 4326)))
          (jsonObject (propertyItems "v" (viewSelected c p)))) (viewOrder c p) p).

(** The names are between quotes, but quotes in them are not doubled. *)
Definition duckdbBuildSQLViewWKBSQL (c : SQLViewConfig) (p : query) : sqlErr E + string * list (queryArg A) :=
  let props := map (fun n => rawLiteral n +:+ ", v." +:+ QuoteIdent n) (viewColumns c) in
  onConditions (duckdbView c) (viewInfo c) p
    (duckdbRender "v" (subquery (vSQL c)) (renderGeometry (column "v" (viewInfo c)) (viewSource c) (nonZero (nonZero (qOutputSRID p) (vSRID c)) 4326))
       (jsonObject props) (identifierOr "CAST(v." " AS VARCHAR)" "NULL" (viewInfo c)) p).

Definition duckdbBuildSQLViewCountSQL (c : SQLViewConfig) (p : query) : sqlErr E + string * list (queryArg A) :=
  onConditions (duckdbView c) (viewInfo c) p (duckdbCount "v" (subquery (vSQL c))).

(** ** All adapters *)

Inductive adapter : Type :=
| PostGISTable (info : LayerInfo)
| DuckDBTable (info : LayerInfo)
| ParquetFile (path : string) (info : LayerInfo)
| VectorFile (f : vectorFile) (layer : string) (info : LayerInfo)
| PostGISView (c : SQLViewConfig)
| DuckDBView (c : SQLViewConfig).

Definition listSQL (a : adapter) : query -> sqlErr E + string * list (queryArg A) :=
  match a with
  | PostGISTable info => postgisBuildListSQL info
  | DuckDBTable info => duckdbBuildListSQL info
  | ParquetFile path info => parquetBuildListSQL path info
  | VectorFile f layer info => vectorBuildListSQL f layer info
  | PostGISView c => postgisBuildSQLViewListSQL c
  | DuckDBView c => duckdbBuildSQLViewListSQL c
  end.

Definition renderSQL (a : adapter) : query -> sqlErr E + string * list (queryArg A) :=
  match a with
  | PostGISTable info => postgisBuildWKBSQL info
  | DuckDBTable info => duckdbBuildWKBSQL info
  | ParquetFile path info => parquetBuildWKBSQL path info
  | VectorFile f layer info => vectorBuildWKBSQL f layer info
  | PostGISView c => postgisBuildSQLViewWKBSQL c
  | DuckDBView c => duckdbBuildSQLViewWKBSQL c
  end.

Definition countSQL (a : adapter) : query -> sqlErr E + string * list (queryArg A) :=
  match a with
  | PostGISTable info => postgisBuildCountSQL info
  | DuckDBTable info => duckdbBuildCountSQL info
  | ParquetFile path info => parquetBuildCountSQL path info
  | VectorFile f layer info => vectorBuildCountSQL f layer info
  | PostGISView c => postgisBuildSQLViewCountSQL c
  | DuckDBView c => duckdbBuildSQLViewCountSQL c
  end.
End Statements.

(** ** Changes of features in PostGIS *)

(** A value of a property: [nil], validated GML with its reference system, or another value. *)
Inductive propertyValue (V : Type) : Type := NilValue | GeometryValue (gml : string) (srid : Z) | PlainValue (v : V).
Arguments NilValue {V}.
Arguments GeometryValue {V}.
Arguments PlainValue {V}.

(** An argument of a change: a property's value, a geometry, or an argument of the filter. *)
Inductive writeArg (V A : Type) : Type := ValueArg (v : propertyValue V) | GMLArg (gml : string) | ConditionArg (a : A).
Arguments ValueArg {V A}.
Arguments GMLArg {V A}.
Arguments ConditionArg {V A}.

(** The properties are in the order in which the loop over the map visits them. *)
Record FeatureData (V : Type) : Type := mkFeature { fdID : string; fdProperties : list (string * propertyValue V); fdGeometry : string; fdSRID : Z }.
Arguments mkFeature {V}.
Arguments fdID {V}.
Arguments fdProperties {V}.
Arguments fdGeometry {V}.
Arguments fdSRID {V}.

Inductive writeErr : Type := WriteName | Immutable | GeometryInput | NoProperties | NoStableID.

Definition geometryExpression (parameter inputSRID targetSRID : Z) : string :=
  "ST_Transform(ST_GeomFromGML(" +:+ placeholder parameter +:+ ", " +:+ pretty (nonZero inputSRID targetSRID) +:+ "), " +:+ pretty targetSRID +:+ ")".

(** [paramPattern.ReplaceAllStringFunc]: every [$] with digits, also inside quotes. *)
Fixpoint adjustFrom (offset : Z) (fuel : nat) (s : string) : string :=
  match fuel, s with
  | S fuel, String c rest =>
      let n := span_len digit rest in
      if Ascii.eqb c "$" && Nat.ltb 0 n then
        match Atoi (stake n rest) with
        | Some number => placeholder (number + offset) +:+ adjustFrom offset fuel (sdrop n rest)
        | None => "$" +:+ stake n rest +:+ adjustFrom offset fuel (sdrop n rest)
        end
      else String c (adjustFrom offset fuel rest)
  | _, _ => s
  end.

Definition adjustFilterParams (filter : string) (offset : Z) : string :=
  if (offset =? 0) || String.eqb filter "" then filter else adjustFrom offset (String.length filter) filter.

Section Writes.
Context {V A : Type}.
Local Abbreviation value := (propertyValue V).
Local Abbreviation warg := (writeArg V A).

(** Assignments, their arguments, and the next index. *)
Definition assignments : Type := list string * list warg * Z.

Definition known (info : LayerInfo) (name : string) : bool := bool_decide (is_Some (lPGTypes info !! name)).

(** The loop over the properties of an update. *)
Fixpoint updateClauses (info : LayerInfo) (properties : list (string * value)) (acc : assignments) : writeErr + assignments :=
  match properties with
  | [] => inr acc
  | (name, v) :: rest =>
      let '(set, args, k) := acc in
      if String.eqb name (lIDColumn info) then inl Immutable
      else if String.eqb name (lGeometryColumn info) then
        match v with
        | NilValue => updateClauses info rest (set ++ [QuoteIdent name +:+ " = NULL"], args, k)
        | GeometryValue gml srid =>
            updateClauses info rest (set ++ [QuoteIdent name +:+ " = " +:+ geometryExpression k srid (lSRID info)], args ++ [GMLArg gml], k + 1)
        | PlainValue _ => inl GeometryInput
        end
      else if known info name then updateClauses info rest (set ++ [QuoteIdent name +:+ " = " +:+ placeholder k], args ++ [ValueArg v], k + 1)
      else updateClauses info rest acc
  end.

(** The condition behind the assignments, renumbered. *)
Definition whereAfter (filter : string) (filterArgs : list A) (args : list warg) (k : Z) : string * list warg :=
  if String.eqb filter "" then ("", args) else ("WHERE " +:+ adjustFilterParams filter (k - 1), args ++ map ConditionArg filterArgs).

(** [mutationIDs]: the identifiers of the changed rows. *)
Definition returning (info : LayerInfo) (sql : string) : string := sql +:+ " RETURNING " +:+ QuoteIdent (lIDColumn info) +:+ "::text".

Definition updateStatement (info : LayerInfo) (properties : list (string * value)) (filter : string) (filterArgs : list A) : writeErr + string * list warg :=
  match postgisTable info with
  | None => inl WriteName
  | Some table =>
      match updateClauses info properties ([], [], 1) with
      | inl e => inl e
      | inr (set, args, k) =>
          if bool_decide (set = []) then inl NoProperties
          else
            let '(whereSQL, args) := whereAfter filter filterArgs args k in
            if String.eqb (lIDColumn info) "" then inl NoStableID
            else inr (returning info ("UPDATE " +:+ table +:+ " t SET " +:+ Join ", " set +:+ " " +:+ whereSQL), args)
      end
  end.

(** The filter is taken as it is: its arguments are the first. *)
Definition deleteStatement (info : LayerInfo) (filter : string) (filterArgs : list A) : writeErr + string * list warg :=
  match postgisTable info with
  | None => inl WriteName
  | Some table =>
      if String.eqb (lIDColumn info) "" then inl NoStableID
      else inr (returning info ("DELETE FROM " +:+ table +:+ " t " +:+ (if String.eqb filter "" then "" else "WHERE " +:+ filter)), map ConditionArg filterArgs)
  end.

(** The loop of an insertion or of a replacement, which keeps the identifier. *)
Fixpoint propertyColumns (info : LayerInfo) (skipID : bool) (properties : list (string * value)) (k : Z) : list (string * string) * list warg :=
  match properties with
  | [] => ([], [])
  | (name, v) :: rest =>
      if (skipID && String.eqb name (lIDColumn info)) || negb (known info name) then propertyColumns info skipID rest k
      else let '(columns, args) := propertyColumns info skipID rest (k + 1) in
           ((QuoteIdent name, placeholder k) :: columns, ValueArg v :: args)
  end.

(** Columns with their expressions: the properties, then the geometry. *)
Definition featureColumns (info : LayerInfo) (skipID : bool) (f : FeatureData V) : list (string * string) * list warg :=
  let '(columns, args) := propertyColumns info skipID (fdProperties f) 1 in
  if String.eqb (fdGeometry f) "" then (columns, args)
  else (columns ++ [(QuoteIdent (lGeometryColumn info), geometryExpression (1 + Z.of_nat (length args)) (fdSRID f) (lSRID info))], args ++ [GMLArg (fdGeometry f)]).

Definition replaceStatement (info : LayerInfo) (f : FeatureData V) (filter : string) (filterArgs : list A) : writeErr + string * list warg :=
  match postgisTable info with
  | None => inl WriteName
  | Some table =>
      let '(columns, args) := featureColumns info true f in
      if bool_decide (columns = []) then inl NoProperties
      else
        let '(whereSQL, all) := whereAfter filter filterArgs args (1 + Z.of_nat (length args)) in
        let sql := "UPDATE " +:+ table +:+ " t SET " +:+ Join ", " (map (fun '(c, e) => c +:+ " = " +:+ e) columns) +:+ " " +:+ whereSQL in
        inr (if String.eqb (lIDColumn info) "" then sql else returning info sql, all)
  end.

(** [None]: a feature with nothing to insert is skipped. *)
Definition insertStatement (info : LayerInfo) (f : FeatureData V) : option (writeErr + string * list warg) :=
  match postgisTable info with
  | None => Some (inl WriteName)
  | Some table =>
      let '(columns, args) := featureColumns info false f in
      match columns with
      | [] => None
      | _ =>
          let sql := "INSERT INTO " +:+ table +:+ " (" +:+ Join ", " (map fst columns) +:+ ") VALUES (" +:+ Join ", " (map snd columns) +:+ ")" in
          Some (inr (if String.eqb (lIDColumn info) "" then sql else returning info sql, args))
      end
  end.
End Writes.
