(* ===== verification/DataSourceSafe.v ===== *)
(** * The statements of the data sources are the intended ones

    Read by the lexical rules of SQL, a statement has no open quote; its identifiers are
    those of the layer, its literals fixed texts, names of the layer or reference
    systems, and its parameters exactly the indices of its arguments, in order. An adapter
    adds pieces of its own: the name of a file, the text of a view. *)

From stdpp Require Import sorting.
From S2P Require Import Prelude SqlUtil GoNum GoText Crs FilterLexer FilterParser FilterPostGIS FilterDuckDB FilterSpec SqlScan FilterCorrect FesModels FesCompiler FesSafety QueryPredicate DataSourceSql.

(** ** Fragments *)

(** What is scanned on its own is scanned alike in front of other text. *)
Lemma scan_before m s ps tl : scan m s = Some ps -> boundary tl = true -> scan m (s +:+ tl) = app ps <$> scan Plain tl.
Proof.
  intros Hs Hb. revert m ps Hs. induction s as [|c s IH]; intros m ps Hs.
  - rewrite sapp_nil_l. cbn [scan] in Hs. destruct m; cbn in Hs; try done; injection Hs as <-.
    + by destruct (scan Plain tl).
    + rewrite (boundary_ends _ (SqlIdent acc)) by done. by destruct (scan Plain tl).
    + rewrite (boundary_ends _ (SqlLiteral acc)) by done. by destruct (scan Plain tl).
    + rewrite (boundary_ends _ (SqlParam acc)) by done. by destruct (scan Plain tl).
  - rewrite sapp_cons. cbn [scan] in *. destruct (scanStep m c) as [qs m']. destruct (scan m' s) as [rest|] eqn:Hr; [|done].
    injection Hs as <-. rewrite (IH m' rest Hr). destruct (scan Plain tl); cbn; [by rewrite app_assoc|done].
Qed.

Lemma scan_safe Q s ps : sqlScan s = Some ps -> Forall Q ps -> safeFrag Q s (params ps).
Proof. intros Hs HQ. exists ps. split_and!; [done|done|]. intros tl Ht. by apply scan_before. Qed.

Lemma sf_quoted Q v : Q (SqlLiteral v) -> safeFrag Q (QuoteLiteral v) [].
Proof.
  intros HQ. exists [SqlLiteral v]. split_and!; [by repeat constructor|done|].
  intros tl Htl. unfold QuoteLiteral. rewrite !sapp_cons, !sapp_nil_l, sapp_assoc, sapp_cons, sapp_nil_l.
  change (scan Plain (String squote ?x)) with (app [] <$> scan (InLiteral "") x).
  rewrite scan_escaped, (boundary_ends _ (SqlLiteral v)) by done. by destruct (scan Plain tl).
Qed.

(** ** Renumbering by a pattern *)

(** No [$] inside quotes. *)
Definition quotedMode (m : scanMode) : bool := match m with InIdent _ | InLiteral _ => true | _ => false end.

Fixpoint dollarFree (m : scanMode) (s : string) : bool :=
  match s with
  | "" => true
  | String c s' => negb (Ascii.eqb c "$" && quotedMode m) && dollarFree (scanStep m c).2 s'
  end.

Definition inParam (m : scanMode) : bool := match m with InParam _ => true | _ => false end.

Lemma dollarFree_digits acc s : dollarFree (InParam acc) s = true -> dollarFree Plain (sdrop (span_len digit s) s) = true.
Proof.
  revert acc. induction s as [|c s IH]; intros acc; [done|]. cbn [dollarFree span_len scanStep quotedMode]. rewrite andb_false_r. cbn [negb andb].
  change (FilterLexer.isDigit c) with (digit c). destruct (digit c) eqn:Hd; cbn [snd sdrop]; [apply IH|]. cbn [dollarFree quotedMode scanStep]. by rewrite andb_false_r.
Qed.

Lemma adjust_head offset n s : headOf (adjustFrom offset n s) = headOf s.
Proof.
  destruct n, s as [|c s]; try done. cbn [adjustFrom]. destruct (Ascii.eqb_spec c "$") as [->|]; cbn [andb]; [|done].
  destruct (0 <? span_len digit s)%nat; [|done]. by destruct (Atoi _).
Qed.

Lemma step_pieces m c : inParam m = false -> Ascii.eqb c "$" = false \/ quotedMode m = true ->
  inParam (scanStep m c).2 = false /\ forall from to, map (shiftPiece from to) (scanStep m c).1 = (scanStep m c).1.
Proof.
  intros Hm Hc. assert (Hplain : Ascii.eqb c "$" = false -> inParam (plainStep c).2 = false /\ forall from to, map (shiftPiece from to) (plainStep c).1 = (plainStep c).1).
  { intros H. unfold plainStep. rewrite H. by destruct (Ascii.eqb c dquote), (Ascii.eqb c squote). }
  destruct m; try done; cbn [scanStep].
  - destruct Hc as [Hc|Hc]; [by apply Hplain|done].
  - by destruct (Ascii.eqb c dquote).
  - destruct (Ascii.eqb c dquote); [done|]. destruct Hc as [Hc|Hc]; [|done]. destruct (Hplain Hc) as [H1 H2]. split; [done|]. intros from to. cbn. by rewrite H2.
  - by destruct (Ascii.eqb c squote).
  - destruct (Ascii.eqb c squote); [done|]. destruct Hc as [Hc|Hc]; [|done]. destruct (Hplain Hc) as [H1 H2]. split; [done|]. intros from to. cbn. by rewrite H2.
Qed.

(** A parameter ends what was read before it. *)
Lemma step_dollar m : inParam m = false -> quotedMode m = false ->
  (scanStep m "$").2 = InParam "" /\ params (scanStep m "$").1 = [] /\ forall from to, map (shiftPiece from to) (scanStep m "$").1 = (scanStep m "$").1.
Proof. by destruct m. Qed.

Lemma adjust_scan offset count n m s ps : 0 <= offset -> (String.length s <= n)%nat -> inParam m = false -> scan m s = Some ps -> dollarFree m s = true ->
  Forall (ownParam 1 count) (params ps) -> scan m (adjustFrom offset n s) = Some (map (shiftPiece 1 (1 + offset)) ps).
Proof.
  intros Ho. revert m s ps. induction n as [|n IH]; intros m s ps Hn Hm Hs Hd Hown.
  { destruct s; [|cbn in Hn; lia]. cbn in *. destruct m; try done; by injection Hs as <-. }
  destruct s as [|c s]; [cbn in *; destruct m; try done; by injection Hs as <-|]. cbn in Hn. cbn [dollarFree] in Hd. apply andb_true_iff in Hd as [Hq%negb_true_iff Hd].
  rewrite scan_cons in Hs. cbn [adjustFrom]. destruct (scan (scanStep m c).2 s) as [rest|] eqn:Hr; [|done]. injection Hs as <-. rewrite params_app, Forall_app in Hown.
  destruct Hown as [_ Hown]. destruct (Ascii.eqb c "$") eqn:Hc; cbn [andb] in *.
  - apply Ascii.eqb_eq in Hc as ->. destruct (step_dollar m Hm Hq) as (E1 & E2 & E3). rewrite E1 in Hr, Hd. rewrite scan_digits, sapp_nil_l in Hr.
    destruct (scan Plain (sdrop (span_len digit s) s)) as [tl|] eqn:Htl; [|done]. injection Hr as <-. cbn [params] in Hown. apply Forall_cons in Hown as [(number & Ha & Hnum) Hown].
    assert (Hpos : (0 < span_len digit s)%nat) by (destruct (span_len digit s); [done|lia]). rewrite (proj2 (Nat.ltb_lt _ _) Hpos), Ha.
    apply dollarFree_digits in Hd. assert (Hrest := IH Plain (sdrop (span_len digit s) s) tl ltac:(rewrite length_sdrop; lia) eq_refl Htl Hd Hown).
    unfold placeholder. rewrite sapp_assoc, sapp_cons, sapp_nil_l, scan_cons, E1, scan_param by (apply pretty_digits; lia). rewrite sapp_nil_l, scan_digits.
    rewrite (span_sdrop digit s _ (adjust_head _ _ _)). cbn [stake sdrop]. rewrite sapp_nil_r, Hrest. cbn. rewrite map_app, E3. cbn. rewrite Ha. cbn.
    by replace (1 + offset + number - 1) with (number + offset) by lia.
  - destruct (step_pieces m c Hm (or_introl Hc)) as [E1 E2]. rewrite scan_cons, (IH (scanStep m c).2 s rest ltac:(lia) E1 Hr Hd Hown). cbn. by rewrite map_app, E2.
Qed.

Lemma adjustFilterParams_scan filter ps offset count : 0 <= offset -> 1 + Z.of_nat count <= 2 ^ 63 -> sqlScan filter = Some ps -> dollarFree Plain filter = true ->
  params ps = indices 1 count ->
  exists ps', sqlScan (adjustFilterParams filter offset) = Some ps' /\ (ps' = ps \/ ps' = map (shiftPiece 1 (1 + offset)) ps) /\ params ps' = indices (1 + offset) count.
Proof.
  intros Ho Hb Hs Hd Hp. unfold adjustFilterParams. destruct (Z.eqb_spec offset 0) as [->|]; cbn [orb]; [exists ps; auto|].
  assert (Hshift := params_shift 1 (1 + offset) ps count Hp ltac:(lia) ltac:(lia)). exists (map (shiftPiece 1 (1 + offset)) ps). split_and!; [|auto|done].
  destruct (String.eqb_spec filter "") as [->|]; [by injection Hs as <-|]. apply (adjust_scan offset count); [done|done|done|done|done|].
  rewrite Hp. apply indices_own; lia.
Qed.

(** ** The pieces of a statement *)

Definition fixedLiterals : list string :=
  ["type"; "Feature"; "id"; "geometry"; "properties"; "{}"; "null"; "}"; jsonText "{`type`:`Feature`,`id`:"; jsonText ",`geometry`:"; jsonText ",`properties`:"].

(** The names of a layer: its table, its columns and those it may be sorted by; the names
    the compilers of filters take by default. *)
Definition layerName (info : LayerInfo) (name : string) : Prop :=
  name ∈ [lSchema info; lName info; sdrop (S (String.length (lSchema info))) (lName info); lGeometryColumn info; lIDColumn info; "geom"; "id"; "t"; "v"]
  \/ name ∈ lProperties info \/ is_Some (lPGTypes info !! name).

Definition layerPiece (info : LayerInfo) (p : sqlPiece) : Prop :=
  match p with
  | SqlIdent name => layerName info name
  | SqlLiteral v => v ∈ fixedLiterals \/ layerName info v \/ exists srid : Z, v = "EPSG:" +:+ pretty srid
  | SqlParam _ => True
  | SqlCode c => codeByte c = true
  end.

(** The pieces of a statement: those of its layer and what the adapter adds. *)
Definition statementPiece (info : LayerInfo) (extra : sqlPiece -> Prop) (p : sqlPiece) : Prop := layerPiece info p \/ extra p.

Section Layer.
Context (info : LayerInfo) (extra : sqlPiece -> Prop).
Local Abbreviation Q := (statementPiece info extra).
Local Abbreviation sf := (safeFrag Q).

Lemma layer_code c : codeByte c = true -> Q (SqlCode c).
Proof. by left. Qed.

Lemma layer_param d : Q (SqlParam d).
Proof. by left. Qed.

(** Reads off a statement: fixed text, fragments that are known, and the rest. *)
Local Ltac piece :=
  match goal with
  | H : safeFrag ?Q ?s _ |- safeFrag ?Q ?s _ => exact H
  | |- safeFrag _ ("" +:+ _) _ => rewrite sapp_nil_l
  | |- safeFrag _ ((_ +:+ _) +:+ _) _ => rewrite sapp_assoc
  | |- safeFrag _ (_ +:+ _) _ => first [ apply (sf_code layer_code); [reflexivity|] | eapply sf_app; [|reflexivity|] ]
  | |- safeFrag _ (QuoteIdent _) _ => apply sf_ident
  | |- safeFrag _ (QuoteLiteral _) _ => apply sf_quoted
  | |- safeFrag _ (placeholder _) _ => apply sf_param; [lia|apply layer_param]
  | |- safeFrag _ (pretty _) _ => apply (sf_text layer_code), code_number
  | |- safeFrag _ _ _ => apply (sf_text layer_code); reflexivity
  end.

Local Ltac pieces := eapply sf_eq; [repeat piece | rewrite ?app_nil_r; cbn; rewrite ?app_nil_r; try done].

Lemma geom_name : layerName info (lGeometryColumn info).
Proof. left. set_solver. Qed.
Lemma id_name : layerName info (lIDColumn info).
Proof. left. set_solver. Qed.
#[local] Hint Resolve geom_name id_name : core.

Lemma property_name n : n ∈ lProperties info -> layerName info n.
Proof. intros H. right. by left. Qed.

Lemma fixed_literal v : v ∈ fixedLiterals -> Q (SqlLiteral v).
Proof. intros H. left. by left. Qed.
Lemma name_ident n : layerName info n -> Q (SqlIdent n).
Proof. by left. Qed.
Lemma name_literal n : layerName info n -> Q (SqlLiteral n).
Proof. intros H. left. right. by left. Qed.
#[local] Hint Resolve name_ident name_literal : core.
Lemma epsg_literal srid : sf (epsgLiteral srid) [].
Proof. apply sf_quoted. left. right. right. by exists srid. Qed.

Lemma column_frag alias : all_bytes codeByte alias = true -> sf (column alias info) [].
Proof. intros Ha. unfold column. apply (sf_code layer_code); [done|]. pieces. auto. Qed.

Lemma geometryOf_frag : sf (geometryOf info) [].
Proof. by apply column_frag. Qed.

(** ** Bounding boxes *)

Lemma corners_frag sep k : sep = "," \/ sep = ", " -> 0 <= k -> sf (corners sep k) (indices k 4).
Proof.
  intros Hs Hk. rewrite indices_four. apply (sf_join layer_code sep _ [[_]; [_]; [_]; [_]]); [by destruct Hs as [-> | ->]..|].
  repeat constructor; apply sf_param; (lia || apply layer_param).
Qed.

Section Box.
Context (geomExpr : string) (Hgeom : sf geomExpr []).

Lemma postgisEnvelope_frag src bbox k : 0 <= k -> sf (postgisEnvelope geomExpr src bbox k) (indices k 4).
Proof using Hgeom.
  intros Hk. pose proof (corners_frag "," k (or_introl eq_refl) Hk) as Hc. unfold postgisEnvelope. destruct (src =? bbox); pieces.
Qed.

Lemma duckdbEnvelope_frag src bbox k : 0 <= k -> sf (duckdbEnvelope geomExpr src bbox k) (indices k 4).
Proof using Hgeom.
  intros Hk. pose proof (corners_frag ", " k (or_intror eq_refl) Hk) as Hc.
  pose proof (epsg_literal src) as Hs. pose proof (epsg_literal bbox) as Hb. unfold duckdbEnvelope. destruct (_ || _); pieces.
Qed.

Lemma bboxClauses_frag clause parts k : (forall j, k <= j -> sf (clause j) (indices j 4)) ->
  exists kss, Forall2 sf (bboxClauses clause k parts) kss /\ concat kss = indices k (4 * length parts).
Proof.
  revert k. induction parts as [|b parts IH]; intros k H; [by exists []|]. destruct (IH (k + 4)) as (kss & HF & HC); [intros; apply H; lia|].
  exists (indices k 4 :: kss). split; [constructor; [apply H; lia|done]|]. cbn [concat]. rewrite HC.
  replace (4 * length (b :: parts))%nat with (4 + 4 * length parts)%nat by (cbn; lia). by rewrite indices_app.
Qed.

Lemma bboxArgs_length {A} parts : length (concat (map (@bboxArgs A) parts)) = (4 * length parts)%nat.
Proof. induction parts as [|b parts IH]; [done|]. cbn [map concat]. rewrite length_app, IH. cbn. lia. Qed.

(** A condition for a box, from an index on. *)
Definition boxFrag {A} (box : Z -> Z -> BBox -> string * list (queryArg A) * Z) : Prop :=
  forall bboxSRID k bbox, 0 <= k ->
  let '(sql, values, endIdx) := box bboxSRID k bbox in sf sql (indices k (length values)) /\ endIdx = k + Z.of_nat (length values).

Lemma postgisBox_frag {A} src : @boxFrag A (buildBBoxPredicate geomExpr src).
Proof using Hgeom.
  intros bboxSRID k bbox Hk. unfold buildBBoxPredicate. cbv zeta. set (parts := Parts _ bbox). rewrite bboxArgs_length.
  destruct (bboxClauses_frag (postgisEnvelope geomExpr (nonZero src 4326) (nonZero bboxSRID 4326)) parts k) as (kss & HF & HC);
    [intros; apply postgisEnvelope_frag; lia|].
  split; [|lia]. pose proof (sf_join layer_code " OR " _ _ eq_refl ltac:(done) eq_refl HF) as Hj. rewrite HC in Hj.
  destruct (bboxClauses _ k parts) as [|c [|c' l]]; [|done|pieces]. apply Forall2_nil_inv_l in HF as ->. rewrite <- HC. pieces.
Qed.

Lemma duckdbBox_frag {A} src : @boxFrag A (DuckDBBBoxPredicate geomExpr src).
Proof using Hgeom.
  intros bboxSRID k bbox Hk. unfold DuckDBBBoxPredicate. cbv zeta. set (parts := Parts _ bbox). rewrite bboxArgs_length.
  destruct (bboxClauses_frag (duckdbEnvelope geomExpr src (nonZero bboxSRID 4326)) parts k) as (kss & HF & HC); [intros; apply duckdbEnvelope_frag; lia|].
  pose proof (sf_join layer_code " OR " _ _ eq_refl ltac:(done) eq_refl HF) as Hj. rewrite HC in Hj. split; [pieces|lia].
Qed.
End Box.

(** ** Predicates and filters *)

(** The conditions collected so far: fragments of the layer's kind, numbered like the arguments. *)
Definition collected {A} (b : builder A) : Prop :=
  next b = 1 + Z.of_nat (length (bargs b)) /\ exists kss, Forall2 sf (where_ b) kss /\ concat kss = indices 1 (length (bargs b)).

Lemma appendSQL_collected {A} (b : builder A) sql vs endIdx :
  collected b -> sf sql (indices (next b) (length vs)) -> endIdx = next b + Z.of_nat (length vs) -> collected (appendSQL b sql vs endIdx).
Proof.
  intros (Hn & kss & HF & HC) Hs ->. unfold appendSQL. destruct (String.eqb_spec sql "") as [->|Hne]; [split; [done|by exists kss]|].
  split; cbn [next bargs where_]; [rewrite length_app; lia|]. exists (kss ++ [indices (next b) (length vs)]). split.
  - apply Forall2_app; [done|by repeat constructor].
  - rewrite concat_app, HC, length_app, indices_app. cbn. by rewrite app_nil_r, Hn.
Qed.

(** What the builders rely on of the predicate of a query: with trusted options it
    compiles to a fragment of the layer's kind that is numbered like its arguments. *)
Class SafePredicate {A E} (trusted : PredicateOptions -> Prop) (compile : PredicateOptions -> E + string * list A * Z) : Prop :=
  predicate_safe : forall opts sql vs endIdx, trusted opts -> 0 < poStartParamIndex opts -> compile opts = inr (sql, vs, endIdx) ->
    endIdx = poStartParamIndex opts + Z.of_nat (length vs)
    /\ exists ps, sqlScan sql = Some ps /\ Forall Q ps /\ params ps = indices (poStartParamIndex opts) (length vs).

(** A query whose predicate keeps these rules, compiled late or before. *)
Record predicateOk {A E} (dialect : SQLDialect) (alias geomExpr : string) (p : QueryParams A E) : Prop := {
  po_late : forall compile, Predicate p = Some compile -> exists trusted, SafePredicate trusted compile
    /\ forall k, trusted (mkPredicateOptions dialect alias geomExpr k);
  po_compiled : exists ps, sqlScan (CompiledFilter p) = Some ps /\ Forall Q ps
    /\ params ps = indices (CompiledFilterParamOffset p) (length (CompiledFilterArgs p));
  po_offset : 0 < CompiledFilterParamOffset p /\ CompiledFilterParamOffset p + Z.of_nat (length (CompiledFilterArgs p)) <= 2 ^ 63 }.

Lemma shift_pieces from to ps : Forall Q ps -> Forall Q (map (shiftPiece from to) ps).
Proof. intros H. apply Forall_forall. intros p (q & -> & Hq)%list_elem_of_fmap. rewrite Forall_forall in H. specialize (H q Hq). destruct q; [done|done|apply layer_param|done]. Qed.

Lemma AppendQueryPredicate_collected {A E} dialect alias geomExpr (p : QueryParams A E) b :
  collected b -> predicateOk dialect alias geomExpr p ->
  match AppendQueryPredicate p (mkPredicateOptions dialect alias geomExpr 0) b with inr b' => collected b' | inl _ => True end.
Proof.
  intros Hb [Hl (ps & Hs & HQ & Hp) [Hf Hbd]]. assert (Hnext : 0 < next b) by (destruct Hb as [-> _]; lia). unfold AppendQueryPredicate.
  destruct (Predicate p) as [compile|].
  - destruct (Hl compile eq_refl) as (trusted & Hsafe & Ht). cbn [poDialect poTableAlias poGeometryExpression].
    destruct (compile _) as [err|[[sql vs] endIdx]] eqn:Ec; [done|].
    destruct (Hsafe _ _ _ _ (Ht (next b)) Hnext Ec) as (He & ps' & Hs' & HQ' & Hp'). cbn in He, Hp'.
    apply appendSQL_collected; [done| |done]. rewrite <- Hp'. by apply scan_safe.
  - destruct (isBlank (CompiledFilter p)); [done|]. unfold rebaseParameters. rewrite (proj2 (Z.leb_gt _ _)) by done.
    destruct (rebase_scan (CompiledFilterParamOffset p) (next b) (length (CompiledFilterArgs p)) ltac:(lia) (String.length (CompiledFilter p)) (CompiledFilter p) ps)
      as (sql' & -> & Es & _); [done|exact Hs|rewrite Hp; apply indices_own; lia|].
    apply appendSQL_collected; [done| |done]. rewrite <- (params_shift _ (next b) ps _ Hp) by (lia || done). apply scan_safe; [done|]. by apply shift_pieces.
Qed.

Lemma dialect_piece D p : (forall n, n ∈ @d_allowed D \/ n = @d_geomProperty D -> layerName info n) -> dialectPiece D p -> Q p.
Proof. intros H. destruct p; cbn; [intros ?; left; by apply H|intros ?; left; right; by right|by left|by left]. Qed.

Lemma range_indices k (n : nat) : prettys (range k (k + Z.of_nat n)) = indices k n.
Proof. unfold indices, range. by replace (k + Z.of_nat n - k) with (Z.of_nat n) by lia. Qed.

Lemma allowed_names n : n ∈ allowedProperties info \/ n = (if String.eqb (lGeometryColumn info) "" then "geom" else lGeometryColumn info) -> layerName info n.
Proof.
  unfold allowedProperties. intros [[H%elem_of_list_to_set|H]%elem_of_union| ->]; [by apply property_name| |].
  - destruct (String.eqb (lIDColumn info) ""); [set_solver|]. apply elem_of_singleton in H as ->. auto.
  - destruct (String.eqb _ _); [|auto]. left. set_solver.
Qed.

Lemma runParser_frag D cql k sql vs endIdx : SafeDialect D -> 0 < k -> runParser D cql k = Ok (sql, vs, endIdx) ->
  (forall n, n ∈ @d_allowed D \/ n = @d_geomProperty D -> layerName info n) -> endIdx = k + Z.of_nat (length vs) /\ sf sql (indices k (length vs)).
Proof.
  intros HD Hk Hr Hn. pose proof (runParser_spec D cql k) as H. rewrite Hr in H. destruct H as [-> H]. split; [done|].
  destruct (isBlank cql); [destruct H as [-> ->]; apply sf_nil|]. destruct H as (e & He & ->).
  destruct (pred_scan D e k _ ltac:(lia) He) as (ps & Hs & HQ & Hp). rewrite <- range_indices, <- Hp. apply scan_safe; [done|].
  eapply Forall_impl; [exact HQ|]. intros q Hq. by apply (dialect_piece D).
Qed.

(** What the conditions rely on of a relation: its name is plain text, its condition for a
    box a fragment, and its geometry in filters none or one of the geometry column. *)
Record relationOk {A} (r : queryRelation (A := A)) : Prop := {
  ro_alias : all_bytes codeByte (rAlias r) = true;
  ro_box : boxFrag (rBox r);
  ro_filter : rFilterGeometry r = "" \/ lGeometryColumn info <> "" /\ forall allowed, safeFrag (okPiece allowed (lGeometryColumn info)) (rFilterGeometry r) [] }.

Lemma compileCQL_frag {A} (r : queryRelation (A := A)) srid k cql sql vs endIdx : relationOk r -> 0 < k -> compileCQL r info srid k cql = Ok (sql, vs, endIdx) ->
  endIdx = k + Z.of_nat (length vs) /\ sf sql (indices k (length vs)).
Proof.
  intros Hr Hk. unfold compileCQL. destruct (rDialect r); unfold Compile, CompileForDuckDB; intros H.
  - eapply (runParser_frag (postgis _) _ k); [apply _|done| |].
    + cbn [FilterPostGIS.StartParamIndex newParserOptions] in H. rewrite (proj2 (Z.leb_gt _ _)) in H by done. exact H.
    + apply allowed_names.
  - match type of H with runParser ?D _ _ = _ => eapply (runParser_frag D _ k) end; [apply duckdb_safe|done| |].
    + cbn. destruct (ro_filter r Hr) as [->|[Hne Hf]]; [apply sf_nil|]. unfold dialectPiece. cbn. destruct (String.eqb_spec (lGeometryColumn info) ""); [done|]. apply Hf.
    + cbn [dk_StartParamIndex newDuckDBParserOptions] in H. rewrite (proj2 (Z.leb_gt _ _)) in H by done. exact H.
    + apply allowed_names.
Qed.

(** A statement and its arguments are what they should be. *)
Definition intended {T} (sql : string) (args : list T) : Prop :=
  exists ps, sqlScan sql = Some ps /\ Forall Q ps /\ params ps = indices 1 (length args).

Lemma intended_of {T} sql (args : list T) : sf sql (indices 1 (length args)) -> intended sql args.
Proof. apply sf_scan. Qed.

Lemma quiet_join sep items : sep = "," \/ sep = ", " -> Forall (fun s => sf s []) items -> sf (Join sep items) [].
Proof.
  intros Hs Hf. eapply sf_eq; [apply (sf_join layer_code sep items (map (fun _ => []) items)); [by destruct Hs as [-> | ->]..|]|].
  - induction Hf; constructor; auto.
  - clear. by induction items.
Qed.

Lemma postgisTable_frag table : postgisTable info = Some table -> sf table [].
Proof. unfold postgisTable. destruct (_ <? _)%nat; [done|]. intros [= <-]. pieces; apply name_ident; left; set_solver. Qed.

Section Queries.
Context {A E : Type} (timestamp : Z -> string) (formatG : float64 -> string).
Local Abbreviation query := (featureQuery A E).
Local Abbreviation rel := (queryRelation (A := A)).

Lemma placeholders_frag k n : 0 <= k -> sf (Join ", " (map placeholder (seqZ k (Z.of_nat n)))) (indices k n).
Proof.
  intros Hk. eapply sf_eq; [apply (sf_join layer_code ", " _ (map (fun i => [pretty i]) (seqZ k (Z.of_nat n)))); [done..|]|].
  - assert (H : Forall (fun i => 0 <= i) (seqZ k (Z.of_nat n))) by (apply Forall_forall; intros i Hi%elem_of_seqZ; lia).
    induction H; constructor; [apply sf_param; [done|apply layer_param]|done].
  - unfold indices, prettys. generalize (seqZ k (Z.of_nat n)). intros l. induction l as [|i l IH]; cbn; [done|by rewrite IH].
Qed.

Lemma withIdentifiers_collected (r : rel) (p : query) b : relationOk r -> withIdentifiers r info p = inr b -> collected b.
Proof.
  intros Hr. unfold withIdentifiers. assert (He : collected (emptyBuilder (A := A))) by (split; [done|by exists []]).
  destruct (_ || _); [by intros [= <-]|]. destruct (String.eqb _ _); [done|]. cbn [FeatureIDPredicate]. intros [= <-].
  split; cbn; rewrite length_map; [done|]. exists [indices 1 (length (qFeatureIDs p))]. split; [|by cbn; rewrite ?app_nil_r]. constructor; [|constructor].
  pose proof (placeholders_frag 1 (length (qFeatureIDs p)) ltac:(lia)) as Hp. pose proof (sf_text layer_code _ (ro_alias r Hr)) as Ha. pieces. auto.
Qed.

Lemma withBox_collected (r : rel) (p : query) b : relationOk r -> collected b -> collected (withBox r p b).
Proof.
  intros Hr Hb. unfold withBox. destruct (qBBox p) as [bbox|]; [|done]. assert (Hn : 0 <= next b) by (destruct Hb as [-> _]; lia).
  pose proof (ro_box r Hr (qBBoxSRID p) (next b) bbox Hn) as H. destruct (rBox _ _ _ _) as [[sql vs] e]. destruct H as [Hs ->].
  destruct Hb as (Hk & kss & HF & HC). split; cbn; [rewrite length_app; lia|]. exists (kss ++ [indices (next b) (length vs)]). split.
  - apply Forall2_app; [done|by repeat constructor].
  - rewrite concat_app, HC, length_app, indices_app. cbn. by rewrite app_nil_r, Hk.
Qed.

Lemma conditions_collected (r : rel) (p : query) b : relationOk r -> predicateOk (rDialect r) (rAlias r) (rGeometry r) (qPredicate p) ->
  conditions timestamp r info p = inr b -> collected b.
Proof.
  intros Hr Hp. unfold conditions. destruct (withIdentifiers r info p) as [e|b0] eqn:Hi; [done|]. apply (withIdentifiers_collected r p b0 Hr) in Hi.
  pose proof (AppendQueryPredicate_collected _ _ _ (qPredicate p) _ (withBox_collected r p b0 Hr Hi) Hp) as Hap.
  destruct (AppendQueryPredicate _ _ _) as [e|b1]; [done|]. cbv zeta. destruct (_ || rNoFilter _ _); [by intros [= <-]|].
  assert (Hnext : 0 < next b1) by (destruct Hap as [-> _]; lia). destruct (compileCQL _ _ _ _ _) as [[[sql vs] endIdx]|e|] eqn:Hc; [|done..]. intros [= <-].
  destruct (compileCQL_frag _ _ _ _ _ _ _ Hr Hnext Hc) as [-> Hs]. apply appendSQL_collected; [done|by rewrite length_map|by rewrite length_map].
Qed.

Lemma WhereClause_frag (b : builder (queryArg A)) : collected b -> sf (WhereClause (where_ b)) (indices 1 (length (bargs b))).
Proof.
  intros (_ & kss & HF & HC). pose proof (sf_join layer_code " AND " _ _ eq_refl ltac:(done) eq_refl HF) as Hj. rewrite HC in Hj.
  unfold WhereClause. destruct (where_ b); [|pieces]. apply Forall2_nil_inv_l in HF as ->. cbn in HC. rewrite <- HC. apply sf_nil.
Qed.

(** ** Columns and order *)

Lemma OrderByClause_frag alias sortBy sortable : all_bytes codeByte alias = true ->
  (forall f, f ∈ sortBy -> (forall t, sortable = Some t -> t (sortName f) = true) -> Q (SqlIdent (sortName f))) ->
  sf (OrderByClause alias sortBy sortable (lIDColumn info)) [].
Proof.
  intros Ha HQ. pose proof (sf_text layer_code _ Ha) as Hal. unfold OrderByClause.
  destruct sortBy as [|f fields]; [destruct (String.eqb _ _); [apply sf_nil|pieces; auto]|]. set (l := List.filter _ (f :: fields)).
  assert (Hl : forall x, x ∈ l -> Q (SqlIdent (sortName x))).
  { intros x [Hx H]%elem_of_Lfilter. apply negb_true_iff, orb_false_iff in H as [_ H]. apply HQ; [done|]. intros t ->. by apply negb_false_iff. }
  assert (Hj : sf (Join ", " (map (fun x => alias +:+ "." +:+ QuoteIdent (sortName x) +:+ " " +:+ (if sortDesc x then "DESC" else "ASC")) l)) []).
  { apply quiet_join; [by right|]. apply Forall_forall. intros s (x & -> & Hx)%list_elem_of_fmap. specialize (Hl x Hx). destruct (sortDesc x); pieces; done. }
  destruct (map _ l) eqn:Hm; [apply sf_nil|]. rewrite <- Hm in *. pieces.
Qed.

Lemma tableOrder_frag (p : query) : sf (tableOrder info p) [].
Proof.
  apply OrderByClause_frag; [done|]. intros f _ H. apply name_ident. specialize (H _ eq_refl). unfold LayerSortable in H.
  apply orb_true_iff in H as [H%bool_decide_eq_true| ->%String.eqb_eq]; [by right; right|auto].
Qed.

Lemma LimitOffset_frag k : 0 <= k -> sf (LimitOffsetClause k) (indices k 2).
Proof. intros Hk. rewrite indices_two. unfold LimitOffsetClause. pieces. Qed.

Lemma limitText_frag n : sf (limitText n) [].
Proof. unfold limitText. destruct (0 <? n); [|apply sf_nil]. pieces. Qed.

Lemma postgisGeometry_frag out : sf (postgisGeometry info out) [].
Proof. unfold postgisGeometry. destruct (_ =? _); pieces; auto. Qed.

Lemma buildProjectedProperties_frag requested : sf (buildProjectedProperties info requested) [].
Proof.
  unfold buildProjectedProperties. destruct requested as [|r requested].
  { destruct (String.eqb _ _); pieces; apply name_literal; auto. }
  set (l := List.filter _ _). assert (Hl : forall x, x ∈ l -> layerName info x) by (intros x [H _]%elem_of_Lfilter; by apply property_name).
  assert (Hj : sf (Join "," (concat (map (fun n => [QuoteLiteral n; "t." +:+ QuoteIdent n]) l))) []).
  { apply quiet_join; [by left|]. clearbody l. induction l as [|n l IH]; [constructor|]. cbn. constructor; [|constructor; [|apply IH; set_solver]].
    - apply sf_quoted, name_literal, Hl. left.
    - pieces. apply name_ident, Hl. left. }
  destruct l; [|pieces]. pieces. apply fixed_literal. vm_compute. set_solver.
Qed.

Lemma postgisFeature_frag id geom props : sf id [] -> sf geom [] -> sf props [] -> sf (postgisFeature id geom props) [].
Proof. intros Hi Hg Hp. unfold postgisFeature. pieces; apply fixed_literal; vm_compute; set_solver. Qed.

Lemma duckdbTransform_frag geom src out : sf geom [] -> sf (duckdbTransform geom src out) [].
Proof. intros Hg. pose proof (epsg_literal src). pose proof (epsg_literal out). unfold duckdbTransform. pieces. Qed.

Lemma listGeometry_frag geom src out : sf geom [] -> sf (listGeometry geom src out) [].
Proof. intros Hg. unfold listGeometry. destruct (_ || _); [done|by apply duckdbTransform_frag]. Qed.

Lemma renderGeometry_frag geom src out : sf geom [] -> sf (renderGeometry geom src out) [].
Proof. intros Hg. unfold renderGeometry. destruct (_ =? _); [done|by apply duckdbTransform_frag]. Qed.

Lemma propertyItems_frag alias names : all_bytes codeByte alias = true -> (forall n, n ∈ names -> n ∈ lProperties info) -> sf (Join ", " (propertyItems alias names)) [].
Proof.
  intros Ha Hn. pose proof (sf_text layer_code _ Ha) as Hal. apply quiet_join; [by right|]. apply Forall_forall. intros s (n & -> & Hi)%list_elem_of_fmap.
  apply Hn, property_name in Hi. pieces; auto.
Qed.

Lemma object_frag empty name items : sf (QuoteLiteral "{}" +:+ empty) [] -> sf (name +:+ Join ", " items +:+ ")") [] ->
  sf (match items with [] => QuoteLiteral "{}" +:+ empty | _ => name +:+ Join ", " items +:+ ")" end) [].
Proof. by destruct items. Qed.

Lemma jsonObject_frag items : sf (Join ", " items) [] -> sf (jsonObject items) [].
Proof. intros H. apply object_frag; pieces. apply fixed_literal. vm_compute. set_solver. Qed.

Lemma jsonbObject_frag items : sf (Join ", " items) [] -> sf (jsonbObject items) [].
Proof. intros H. apply object_frag; pieces. apply fixed_literal. vm_compute. set_solver. Qed.

Lemma featureJSON_frag id geom props : sf id [] -> sf geom [] -> sf props [] -> sf (DuckDBFeatureJSONExpression id geom props) [].
Proof. intros Hi Hg Hp. unfold DuckDBFeatureJSONExpression. pieces; apply fixed_literal; vm_compute; set_solver. Qed.

Lemma identifierOr_frag before after none : all_bytes codeByte before = true -> all_bytes codeByte after = true -> boundary after = true ->
  all_bytes codeByte none = true -> sf (identifierOr before after none info) [].
Proof.
  intros Hb Ha Hd Hn. unfold identifierOr. destruct (String.eqb _ _); [by apply (sf_text layer_code)|].
  apply (sf_code layer_code); [done|]. apply (sf_app _ _ [] []); [apply sf_ident; auto|done|by apply (sf_text layer_code)].
Qed.

Hypothesis formatG_text : forall f, all_bytes codeByte (formatG f) = true.

Lemma simplified_frag t geom : sf geom [] -> sf (simplified formatG t geom) [].
Proof using formatG_text.
  intros Hg. unfold simplified. destruct (float_gtb _ _); [|done]. pose proof (sf_text layer_code _ (formatG_text t)) as Ht. pieces.
Qed.

(** ** Statements *)

Definition safeResult (r : sqlErr E + string * list (queryArg A)) : Prop := match r with inr (sql, args) => intended sql args | inl _ => True end.

Lemma onConditions_safe (r : rel) p k : relationOk r -> predicateOk (rDialect r) (rAlias r) (rGeometry r) (qPredicate p) ->
  (forall b, collected b -> sf (k b).1 (indices 1 (length (k b).2))) -> safeResult (onConditions timestamp r info p k).
Proof.
  intros Hr Hp Hk. unfold onConditions. destruct (conditions timestamp r info p) as [e|b] eqn:Hc; [done|]. apply conditions_collected in Hc; [|done..].
  specialize (Hk b Hc). cbn. destruct (k b). by apply intended_of.
Qed.

(** The ends of the statements: conditions, and the order and the page or a limit. *)
Lemma list_tail (p : query) (b : builder (queryArg A)) order : sf order [] -> collected b ->
  sf (WhereClause (where_ b) +:+ " " +:+ order +:+ " " +:+ LimitOffsetClause (next b)) (indices 1 (length (bargs b ++ [CountArg (qLimit p); CountArg (qOffset p)]))).
Proof.
  intros Ho Hb. pose proof (WhereClause_frag b Hb) as Hw. pose proof (LimitOffset_frag (next b) ltac:(destruct Hb as [-> _]; lia)) as Hl.
  destruct Hb as [Hn _]. rewrite length_app, indices_app. rewrite Hn in Hl |- *. pieces.
Qed.

Lemma render_tail n (b : builder (queryArg A)) : collected b -> sf (WhereClause (where_ b) +:+ " " +:+ limitText n) (indices 1 (length (bargs b))).
Proof. intros Hb. pose proof (WhereClause_frag b Hb) as Hw. pose proof (limitText_frag n) as Hl. pieces. Qed.

Section Relation.
Context (r : rel) (Hr : relationOk r) (p : query) (Hp : predicateOk (rDialect r) (rAlias r) (rGeometry r) (qPredicate p)).

Section Table.
Context (alias table : string) (Ha : all_bytes codeByte alias = true) (Ht : sf table []).

Lemma duckdbList_safe feature order : sf feature [] -> sf order [] -> safeResult (onConditions timestamp r info p (duckdbList alias table feature order p)).
Proof using Hr Hp Ha Ht.
  intros Hf Ho. apply onConditions_safe; [done..|]. intros b Hb. pose proof (list_tail p b order Ho Hb) as Htail. pose proof (sf_text layer_code _ Ha) as Hal.
  cbn [duckdbList fst snd]. pieces.
Qed.

Lemma duckdbRender_safe geom props id : sf geom [] -> sf props [] -> sf id [] -> safeResult (onConditions timestamp r info p (duckdbRender alias table geom props id p)).
Proof using Hr Hp Ha Ht.
  intros Hg Hprops Hi. apply onConditions_safe; [done..|]. intros b Hb. pose proof (render_tail (qLimit p) b Hb) as Htail. pose proof (sf_text layer_code _ Ha) as Hal.
  cbn [duckdbRender fst snd]. pieces.
Qed.

Lemma duckdbCount_safe : safeResult (onConditions timestamp r info p (duckdbCount alias table)).
Proof using Hr Hp Ha Ht.
  apply onConditions_safe; [done..|]. intros b Hb. pose proof (WhereClause_frag b Hb) as Hw. pose proof (sf_text layer_code _ Ha) as Hal. cbn [duckdbCount fst snd]. pieces.
Qed.
End Table.
End Relation.

Lemma listedProperties_names (p : query) n : n ∈ listedProperties info p -> n ∈ lProperties info.
Proof. by intros [H _]%elem_of_Lfilter. Qed.

Lemma filtered_names (f : string -> bool) n : n ∈ List.filter f (lProperties info) -> n ∈ lProperties info.
Proof. by intros [H _]%elem_of_Lfilter. Qed.

Lemma plain_relation r : all_bytes codeByte (rAlias r) = true -> boxFrag (rBox r) -> rFilterGeometry r = "" -> relationOk (A := A) r.
Proof. intros Ha Hb Hf. split; auto. Qed.

Lemma postgis_statements p : predicateOk SQLPostGIS "t" (geometryOf info) (qPredicate p) ->
  safeResult (postgisBuildListSQL timestamp info p) /\ safeResult (postgisBuildWKBSQL timestamp formatG info p) /\ safeResult (postgisBuildCountSQL timestamp info p).
Proof using formatG_text.
  intros Hp. unfold postgisBuildListSQL, postgisBuildWKBSQL, postgisBuildCountSQL, onTable. destruct (postgisTable info) as [table|] eqn:Ht; [|done].
  apply postgisTable_frag in Ht. pose proof (buildProjectedProperties_frag (qProperties p)) as Hprops.
  assert (Hr : relationOk (A := A) (postgisRelation info)) by (apply plain_relation; [done|apply postgisBox_frag, geometryOf_frag|done]).
  split_and!; apply onConditions_safe; try done; intros b Hb; cbv zeta; cbn [fst snd].
  - pose proof (list_tail p b _ (tableOrder_frag p) Hb) as Htail.
    pose proof (postgisFeature_frag _ _ _ (identifierOr_frag "t." "" "NULL" eq_refl eq_refl eq_refl eq_refl) (postgisGeometry_frag (nonZero (qOutputSRID p) 4326)) Hprops) as Hf. pieces.
  - pose proof (render_tail (qLimit p) b Hb) as Htail. pose proof (simplified_frag (qSimplify p) _ (postgisGeometry_frag (nonZero (qOutputSRID p) (lSRID info)))) as Hg.
    pose proof (identifierOr_frag "t." "::text" "NULL::text" eq_refl eq_refl eq_refl eq_refl) as Hi. pieces.
  - pose proof (WhereClause_frag b Hb) as Hw. pieces.
Qed.

Section DuckDBFamily.
Context (geom : string) (Hgeom : sf geom []).

Lemma listFeature_frag (p : query) : sf (DuckDBFeatureJSONExpression (identifierOr "t." "" "NULL" info) (listGeometry geom (lSRID info) (nonZero (qOutputSRID p) 4326))
  (jsonObject (propertyItems "t" (listedProperties info p)))) [].
Proof using Hgeom.
  apply featureJSON_frag; [by apply identifierOr_frag|by apply listGeometry_frag|]. apply jsonObject_frag, propertyItems_frag; [done|apply listedProperties_names].
Qed.

Lemma renderProperties_frag (f : string -> bool) : sf ("json_object(" +:+ Join ", " (propertyItems "t" (List.filter f (lProperties info))) +:+ ")") [].
Proof. pose proof (propertyItems_frag "t" _ eq_refl (filtered_names f)) as H. pieces. Qed.
End DuckDBFamily.

Lemma duckdb_statements p : predicateOk SQLDuckDB "t" (geometryOf info) (qPredicate p) ->
  safeResult (duckdbBuildListSQL timestamp info p) /\ safeResult (duckdbBuildWKBSQL timestamp formatG info p) /\ safeResult (duckdbBuildCountSQL timestamp info p).
Proof using formatG_text.
  intros Hp. pose proof geometryOf_frag as Hg.
  assert (Hr : forall f, relationOk (A := A) (duckdbRelation info f)) by (intros f; apply plain_relation; [done|by apply duckdbBox_frag|done]).
  assert (Ht : sf (QuoteIdent (lName info)) []) by (apply sf_ident, name_ident; left; set_solver).
  split_and!; [apply duckdbList_safe|apply duckdbRender_safe|apply duckdbCount_safe]; try done.
  - by apply listFeature_frag.
  - apply tableOrder_frag.
  - by apply simplified_frag, renderGeometry_frag.
  - apply renderProperties_frag.
  - by apply identifierOr_frag.
Qed.
End Queries.

(** ** Changes *)

Section Writes.
Context {V A : Type}.
Local Abbreviation warg := (writeArg V A).

Lemma geometryExpression_frag k src target : 0 <= k -> sf (geometryExpression k src target) [pretty k].
Proof. intros Hk. unfold geometryExpression. pieces. Qed.

Lemma known_name n : known info n = true -> layerName info n.
Proof. intros H%bool_decide_eq_true. by right; right. Qed.

(** One more assignment. *)
Lemma collected_snoc set (args : list warg) k s vs :
  collected (mkBuilder set args k) -> sf s (indices k (length vs)) -> s <> "" -> collected (mkBuilder (set ++ [s]) (args ++ vs) (k + Z.of_nat (length vs))).
Proof.
  intros Hb Hs Hne. pose proof (appendSQL_collected _ s vs _ Hb Hs eq_refl) as H. unfold appendSQL in H. by destruct (String.eqb_spec s "").
Qed.

Lemma updateClauses_collected properties set (args : list warg) k set' args' k' :
  collected (mkBuilder set args k) -> updateClauses info properties (set, args, k) = inr (set', args', k') -> collected (mkBuilder set' args' k').
Proof.
  revert set args k. induction properties as [|[name v] rest IH]; intros set args k Hb; cbn [updateClauses]; [by intros [= <- <- <-]|].
  assert (Hk : 0 <= k) by (destruct Hb as [Hk _]; cbn in Hk; lia). destruct (String.eqb name (lIDColumn info)); [done|].
  destruct (String.eqb_spec name (lGeometryColumn info)) as [->|].
  - destruct v as [|gml srid|v]; [| |done]; apply IH.
    + rewrite <- (app_nil_r args). replace k with (k + Z.of_nat (length (@nil warg))) by (cbn; lia). apply collected_snoc; [done| |done]. cbn. pieces. auto.
    + change 1 with (Z.of_nat (length [@GMLArg V A gml])). apply collected_snoc; [done| |done]. pose proof (geometryExpression_frag k srid (lSRID info) Hk) as Hg.
      pieces. auto.
  - destruct (known info name) eqn:Hn; [|by apply IH]. apply IH. apply known_name in Hn.
    change 1 with (Z.of_nat (length [@ValueArg V A v])). apply collected_snoc; [done| |done]. pieces. auto.
Qed.

(** A condition of the caller: of the layer's kind, numbered from one, no [$] in quotes. *)
Definition filterOk (filter : string) (n : nat) : Prop :=
  dollarFree Plain filter = true /\ 1 + Z.of_nat n <= 2 ^ 63 /\ exists ps, sqlScan filter = Some ps /\ Forall Q ps /\ params ps = indices 1 n.

Lemma whereAfter_frag filter (filterArgs : list A) (args : list warg) k whereSQL all : filterOk filter (length filterArgs) -> k = 1 + Z.of_nat (length args) ->
  whereAfter filter filterArgs args k = (whereSQL, all) -> exists n, length all = (length args + n)%nat /\ sf whereSQL (indices k n).
Proof.
  intros (Hd & Hb & ps & Hs & HQ & Hp) -> H. unfold whereAfter in H. destruct (String.eqb filter ""); injection H as <- <-.
  - exists 0%nat. split; [lia|apply sf_nil].
  - exists (length filterArgs). split; [by rewrite length_app, length_map|].
    destruct (adjustFilterParams_scan filter ps (1 + Z.of_nat (length args) - 1) (length filterArgs)) as (ps' & Hs' & Hor & Hp'); [lia|done..|].
    assert (HQ' : Forall Q ps') by (destruct Hor as [-> | ->]; [done|by apply shift_pieces]).
    pose proof (scan_safe Q _ _ Hs' HQ') as Hf. rewrite Hp' in Hf. replace (1 + (1 + Z.of_nat (length args) - 1)) with (1 + Z.of_nat (length args)) in Hf by lia. pieces.
Qed.

(** The columns of a feature with their expressions. *)
Definition columnsOk (columns : list (string * string)) (k : Z) (n : nat) : Prop :=
  Forall (fun c => sf c []) (map fst columns) /\ exists kss, Forall2 sf (map snd columns) kss /\ concat kss = indices k n.

Lemma propertyColumns_ok skip properties k columns (args : list warg) : 0 <= k -> propertyColumns info skip properties k = (columns, args) -> columnsOk columns k (length args).
Proof.
  revert k columns args. induction properties as [|[name v] rest IH]; intros k columns args Hk; cbn [propertyColumns].
  - intros [= <- <-]. split; [constructor|by exists []].
  - destruct (_ || negb (known info name)) eqn:Hor; [by apply IH|]. apply orb_false_iff in Hor as [_ Hn%negb_false_iff%known_name].
    destruct (propertyColumns info skip rest (k + 1)) as [cs vs] eqn:Hr. intros [= <- <-]. apply IH in Hr as [Hc (kss & HF & HC)]; [|lia]. split; cbn.
    + constructor; [apply sf_ident; auto|done].
    + exists ([pretty k] :: kss). split; [constructor; [apply sf_param; [lia|apply layer_param]|done]|]. cbn. by rewrite HC, indices_cons.
Qed.

Lemma featureColumns_ok skip f columns (args : list warg) : featureColumns info skip f = (columns, args) -> columnsOk columns 1 (length args).
Proof.
  unfold featureColumns. destruct (propertyColumns info skip (fdProperties f) 1) as [cs vs] eqn:Hp. apply propertyColumns_ok in Hp as [Hc (kss & HF & HC)]; [|lia].
  destruct (String.eqb _ _); intros [= <- <-]; [split; [done|by exists kss]|]. split; rewrite ?map_app; cbn.
  - apply Forall_app. split; [done|]. constructor; [apply sf_ident; auto|constructor].
  - exists (kss ++ [[pretty (1 + Z.of_nat (length vs))]]). split; [apply Forall2_app; [done|constructor; [apply geometryExpression_frag; lia|constructor]]|].
    rewrite concat_app, HC, length_app, indices_app. done.
Qed.

Lemma returning_frag sql ks : sf sql ks -> sf (returning info sql) ks.
Proof. intros H. unfold returning. pieces. auto. Qed.

Lemma maybe_returning sql ks : sf sql ks -> sf (if String.eqb (lIDColumn info) "" then sql else returning info sql) ks.
Proof. intros H. destruct (String.eqb _ _); [done|by apply returning_frag]. Qed.

Definition safeWrite (r : writeErr + string * list warg) : Prop := match r with inr (sql, args) => intended sql args | inl _ => True end.

Lemma set_clause_frag table sets ks whereSQL k n (l : nat) : sf table [] -> sf (Join ", " sets) ks -> ks = indices 1 l -> k = 1 + Z.of_nat l -> sf whereSQL (indices k n) ->
  sf ("UPDATE " +:+ table +:+ " t SET " +:+ Join ", " sets +:+ " " +:+ whereSQL) (indices 1 (l + n)).
Proof. intros Ht Hs -> -> Hw. rewrite indices_app. pieces. Qed.

Lemma update_safe properties filter (filterArgs : list A) : filterOk filter (length filterArgs) -> safeWrite (updateStatement info properties filter filterArgs).
Proof.
  intros Hf. unfold safeWrite, updateStatement. destruct (postgisTable info) as [table|] eqn:Ht; [|done]. apply postgisTable_frag in Ht.
  destruct (updateClauses info properties ([], [], 1)) as [e|[[sets args] k]] eqn:Hu; [done|]. apply updateClauses_collected in Hu as (Hk & kss & HF & HC); [|split; [done|by exists []]].
  cbn in Hk, HF, HC. destruct (bool_decide _); [done|]. destruct (whereAfter filter filterArgs args k) as [whereSQL all] eqn:Hw.
  apply whereAfter_frag in Hw as (n & Hall & Hw); [|done|done]. destruct (String.eqb _ _); [done|]. apply intended_of, returning_frag. rewrite Hall.
  eapply set_clause_frag; [done|apply (sf_join layer_code ", " _ kss); [done..|exact HF]|exact HC|done|done].
Qed.

Lemma replace_safe f filter (filterArgs : list A) : filterOk filter (length filterArgs) -> safeWrite (replaceStatement info f filter filterArgs).
Proof.
  intros Hf. unfold safeWrite, replaceStatement. destruct (postgisTable info) as [table|] eqn:Ht; [|done]. apply postgisTable_frag in Ht.
  destruct (featureColumns info true f) as [columns args] eqn:Hc. apply featureColumns_ok in Hc as (Hc & kss & HF & HC). destruct (bool_decide _); [done|].
  destruct (whereAfter filter filterArgs args _) as [whereSQL all] eqn:Hw. apply whereAfter_frag in Hw as (n & Hall & Hw); [|done|done].
  apply intended_of, maybe_returning. rewrite Hall. eapply set_clause_frag; [done|apply (sf_join layer_code ", " _ kss); [done..|]|exact HC|done|done].
  clear -Hc HF. revert kss HF. induction columns as [|[c e] columns IH]; intros kss HF; cbn in *; [by apply Forall2_nil_inv_l in HF as ->|].
  apply Forall2_cons_inv_l in HF as (ks & kss' & He & HF & ->). apply Forall_cons in Hc as [Hc Hcs]. constructor; [pieces|by apply IH].
Qed.

Lemma insert_safe f : match insertStatement (A := A) info f with Some r => safeWrite r | None => True end.
Proof.
  unfold insertStatement. destruct (postgisTable info) as [table|] eqn:Ht; [|done]. apply postgisTable_frag in Ht.
  destruct (featureColumns info false f) as [columns args] eqn:Hc. apply featureColumns_ok in Hc as (Hc & kss & HF & HC). destruct columns as [|col columns]; [done|].
  set (all := col :: columns) in *. apply intended_of, maybe_returning. pose proof (quiet_join ", " _ (or_intror eq_refl) Hc) as Hn.
  pose proof (sf_join layer_code ", " _ kss eq_refl ltac:(done) eq_refl HF) as Hv. rewrite HC in Hv. pieces.
Qed.

Lemma delete_safe filter (filterArgs : list A) : filterOk filter (length filterArgs) -> filter <> "" -> safeWrite (deleteStatement (V := V) info filter filterArgs).
Proof.
  intros (Hd & Hb & ps & Hs & HQ & Hp) Hne. unfold safeWrite, deleteStatement. destruct (postgisTable info) as [table|] eqn:Ht; [|done]. apply postgisTable_frag in Ht.
  destruct (String.eqb (lIDColumn info) ""); [done|]. apply intended_of, returning_frag. destruct (String.eqb_spec filter ""); [done|]. rewrite length_map, <- Hp.
  pose proof (scan_safe Q _ _ Hs HQ) as Hf. pieces.
Qed.
End Writes.
End Layer.

(** ** Geometry expressions *)

(** An expression of fixed text and the geometry column. *)
Definition columnExpr (info : LayerInfo) (g : string) : Prop :=
  forall Q : sqlPiece -> Prop, (forall c, codeByte c = true -> Q (SqlCode c)) -> Q (SqlIdent (lGeometryColumn info)) -> safeFrag Q g [].

Lemma column_expr info alias : all_bytes codeByte alias = true -> columnExpr info (column alias info).
Proof. intros Ha Q Hc Hi. unfold column. apply (sf_code Hc); [done|]. apply (sf_code Hc); [done|]. by apply sf_ident. Qed.

Lemma wkb_expr info g : columnExpr info g -> columnExpr info ("ST_GeomFromWKB(" +:+ g +:+ ")").
Proof. intros Hg Q Hc Hi. apply (sf_code Hc); [done|]. apply (sf_then Hc); [by apply Hg|done|done]. Qed.

Lemma parquet_expr info : columnExpr info (parquetGeometry info).
Proof. unfold parquetGeometry. destruct (HasPrefix _ _); [|apply wkb_expr]; by apply column_expr. Qed.

Lemma filter_expr info : columnExpr info (filterGeometry info).
Proof. unfold filterGeometry. destruct (isNativeGeometry _); [|apply wkb_expr]; by apply column_expr. Qed.

Lemma expr_frag info extra g : columnExpr info g -> safeFrag (statementPiece info extra) g [].
Proof. intros Hg. apply Hg; [apply layer_code|apply name_ident, geom_name]. Qed.

(** ** The FES predicate *)

(** [featurePredicate], with its arguments among those of the query. *)
Definition fesPredicate (swap : Z -> option bool) (filter : fesGroup) (options : FESCompileOptions) (opts : PredicateOptions)
    : fesErr + string * list (queryArg fesArg) * Z :=
  match CompilePredicate swap filter options opts with
  | inl e => inl e
  | inr (sql, vs, endIdx) => inr (sql, map PredicateArg vs, endIdx)
  end.

Section Fes.
Context (info : LayerInfo) (extra : sqlPiece -> Prop) (swap : Z -> option bool) (filter : fesGroup) (options : FESCompileOptions) (allowed : gset string).
Hypothesis Hallowed : FesCompiler.AllowedProperties options = Some allowed.
Hypothesis Hnames : forall n, n ∈ allowed -> n ∈ lProperties info \/ n = lIDColumn info.
Hypothesis Hgeom : FesCompiler.GeometryProperty options = lGeometryColumn info.
Hypothesis Hid : IDColumn options = lIDColumn info.

Definition adapterOptions (opts : PredicateOptions) : Prop := (poTableAlias opts = "t" \/ poTableAlias opts = "v") /\ columnExpr info (poGeometryExpression opts).

#[export] Instance fes_safe_predicate : SafePredicate info extra adapterOptions (fesPredicate swap filter options).
Proof using Hallowed Hnames Hgeom Hid.
  intros opts sql vs endIdx [Ht Hg] Hi. unfold fesPredicate, CompilePredicate, CompileFES.
  pose proof (emits_compile swap (builderConfig options opts) allowed Hallowed) as He. unfold builderConfig in He.
  set (c := configOf _) in *. unfold startIndex. cbn [FesCompiler.StartParamIndex]. rewrite (proj2 (Z.leb_gt _ _)) by done.
  assert (Hexpr : safeFrag (fesPiece c allowed) (poGeometryExpression opts) []).
  { apply Hg; [done|]. right. left. unfold c. cbn. done. }
  specialize (He (or_intror Hexpr) filter (mkState (poStartParamIndex opts) []) ltac:(cbn; lia)). unfold wp in He.
  destruct (compile _ _ _ _) as [[sql' st]|err|]; [|done..]. intros [= -> <- <-]. destruct He as (vs' & HA & HI & HS). cbn in HA, HI, HS. rewrite length_map, HA. split; [done|].
  apply sf_scan in HS as (ps & Hs & HQ & Hp). exists ps. split_and!; [done| |done]. eapply Forall_impl; [exact HQ|].
  intros [n|v|d|b]; cbn; [|intros ?; left; by right; right|by left|by left]. unfold c. cbn. rewrite Hgeom, Hid. intros [H|[->|[->| ->]]]; left; cbn.
  - destruct (Hnames n H) as [?| ->]; [by right; left|left; set_solver].
  - left. set_solver.
  - left. destruct (String.eqb (lIDColumn info) ""); set_solver.
  - left. destruct Ht as [-> | ->]; set_solver.
Qed.

Lemma fes_predicateOk dialect alias geomExpr : alias = "t" \/ alias = "v" -> columnExpr info geomExpr ->
  predicateOk info extra dialect alias geomExpr (mkQueryParams (Some (fesPredicate swap filter options)) "" [] 1).
Proof using Hallowed Hnames Hgeom Hid.
  intros Ha Hg. split; cbn; [|exists []; split_and!; [done|constructor|done]|lia]. intros compile [= <-]. exists adapterOptions. split; [apply _|done].
Qed.
End Fes.

(** ** Files and views *)

(** Any byte that is neither a quote nor a dollar sign is read as code. *)
Lemma sf_byte (Q : sqlPiece -> Prop) c s ks : Ascii.eqb c dquote = false -> Ascii.eqb c squote = false -> Ascii.eqb c "$" = false -> Q (SqlCode c) ->
  safeFrag Q s ks -> safeFrag Q (String c s) ks.
Proof.
  intros H1 H2 H3 Hc (ps & HQ & Hp & Hs). exists (SqlCode c :: ps). split_and!; [by constructor|done|]. intros tl Htl.
  rewrite sapp_cons. cbn [scan scanStep]. unfold plainStep. rewrite H1, H2, H3, Hs by done. by destruct (scan Plain tl).
Qed.

Lemma raw_frag (Q : sqlPiece -> Prop) v : has_byte squote v = false -> Q (SqlLiteral v) -> safeFrag Q (rawLiteral v) [].
Proof. intros Hv HQ. by apply sf_literal. Qed.

Section Files.
Context (info : LayerInfo) (extra : sqlPiece -> Prop).
Local Abbreviation Q := (statementPiece info extra).
Local Abbreviation sf := (safeFrag Q).

Lemma readParquet_frag path : extra (SqlLiteral path) -> sf (readParquet path) [].
Proof.
  intros He. unfold readParquet. apply (sf_code (layer_code info extra)); [done|]. apply (sf_then (layer_code info extra)); [|done|done]. apply sf_quoted. by right.
Qed.

Lemma boxText_code formatF b : (forall f, all_bytes codeByte (formatF f) = true) -> all_bytes codeByte (boxText formatF b) = true.
Proof. intros H. unfold boxText. cbn [Join]. rewrite !all_bytes_app, !H. reflexivity. Qed.
End Files.

Section Adapters.
Context {A E : Type} (timestamp : Z -> string) (formatG formatF : float64 -> string) (validateSQL : string -> bool).
Local Abbreviation query := (featureQuery A E).

Definition adapterInfo (a : adapter) : LayerInfo :=
  match a with PostGISTable i | DuckDBTable i | ParquetFile _ i | VectorFile _ _ i => i | PostGISView c | DuckDBView c => viewInfo c end.

Definition adapterDialect (a : adapter) : SQLDialect := match a with PostGISTable _ | PostGISView _ => SQLPostGIS | _ => SQLDuckDB end.

Definition adapterAlias (a : adapter) : string := match a with PostGISView _ | DuckDBView _ => "v" | _ => "t" end.

Definition adapterGeometry (a : adapter) : string :=
  match a with
  | PostGISTable i | DuckDBTable i => geometryOf i
  | ParquetFile _ i => parquetGeometry i
  | VectorFile _ _ i => filterGeometry i
  | PostGISView c | DuckDBView c => column "v" (viewInfo c)
  end.

(** The pieces of the text of a view, the names a request sorts it by, and new lines. *)
Definition viewPiece (c : SQLViewConfig) (p : query) (q : sqlPiece) : Prop :=
  (exists ps, sqlScan (vSQL c) = Some ps /\ q ∈ ps) \/ (exists f, f ∈ qSortBy p /\ q = SqlIdent (sortName f)) \/ q = SqlCode "010".

(** The texts that name a file, its layer, its options and the drivers. *)
Definition fileTexts (f : vectorFile) (layer : string) : list string :=
  [vfPath f; vfLayer f; layer; "GeoJSON"; "GPKG"; "ESRI Shapefile"; "FlatGeobuf"] ++ map (fun o => o.1 +:+ "=" +:+ o.2) (vfOpenOptions f).

Definition extraPiece (a : adapter) (p : query) (q : sqlPiece) : Prop :=
  match a with
  | PostGISTable _ | DuckDBTable _ => False
  | ParquetFile path _ => q = SqlLiteral path \/ exists b, q = SqlLiteral (boxText formatF b)
  | VectorFile f layer _ => (exists v, q = SqlLiteral v /\ v ∈ fileTexts f layer) \/ q = SqlCode "[" \/ q = SqlCode "]"
  | PostGISView c | DuckDBView c => viewPiece c p q
  end.

(** The text of a view has no open quote and no parameters. *)
Definition viewText (c : SQLViewConfig) : Prop := exists ps, sqlScan (vSQL c) = Some ps /\ params ps = [].

Definition adapterOk (a : adapter) : Prop :=
  match a with
  | PostGISTable _ | DuckDBTable _ | VectorFile _ _ _ => True
  | ParquetFile _ info => lGeometryColumn info <> ""
  | PostGISView c => viewText c
  | DuckDBView c => viewText c /\ Forall (fun n : string => has_byte squote n = false) (vProperties c)
  end.

Hypothesis formatG_text : forall f, all_bytes codeByte (formatG f) = true.
Hypothesis formatF_text : forall f, all_bytes codeByte (formatF f) = true.

Definition adapterSafe (a : adapter) (p : query) : Prop :=
  let safe := safeResult (adapterInfo a) (extraPiece a p) in
  safe (listSQL timestamp formatG validateSQL a p) /\ safe (renderSQL timestamp formatG formatF validateSQL a p) /\ safe (countSQL timestamp validateSQL a p).

Definition predicateFor (a : adapter) (p : query) : Prop :=
  predicateOk (adapterInfo a) (extraPiece a p) (adapterDialect a) (adapterAlias a) (adapterGeometry a) (qPredicate p).

(** *** Parquet files *)

Section Parquet.
Context (path : string) (info : LayerInfo) (p : query).
Local Abbreviation extra := (extraPiece (ParquetFile path info) p).
Local Abbreviation sf := (safeFrag (statementPiece info extra)).
Local Abbreviation code := (layer_code info extra).

Lemma boxClause_frag b : sf ("ST_GeomFromText(" +:+ rawLiteral (boxText formatF b) +:+ ")") [].
Proof using formatF_text.
  apply (sf_code code); [done|]. apply (sf_then code); [|done|done]. apply raw_frag; [|by right; right; exists b].
  apply (all_bytes_has codeByte); [apply boxText_code, formatF_text|reflexivity].
Qed.

Lemma parquetBox_frag : boxFrag (A := A) info extra (parquetBox formatF info).
Proof using formatF_text.
  intros bboxSRID k bbox Hk. unfold parquetBox. cbv zeta. split; [|cbn; lia]. apply (sf_code code); [done|]. apply (sf_then code); [|done|done].
  eapply sf_eq; [apply (sf_join code " OR " _ (map (fun _ => []) (Parts (nonZero bboxSRID 4326) bbox))); [done..|]|by induction (Parts _ _)].
  induction (Parts _ _) as [|b parts IH]; constructor; [|exact IH]. apply (sf_code code); [done|]. apply (sf_app _ _ [] []); [apply expr_frag, parquet_expr|done|].
  apply (sf_code code); [done|]. apply (sf_then code); [|done|done]. pose proof (boxClause_frag b) as Hb. destruct (_ =? _); [done|by apply duckdbTransform_frag].
Qed.

Lemma parquet_statements : adapterOk (ParquetFile path info) -> predicateFor (ParquetFile path info) p -> adapterSafe (ParquetFile path info) p.
Proof using formatG_text formatF_text.
  intros Hne Hp. pose proof (expr_frag info extra _ (parquet_expr info)) as Hg.
  assert (Hr : forall box, boxFrag info extra box -> relationOk (A := A) info extra (parquetRelation info box)).
  { intros box Hb. split; [done|done|]. right. split; [done|]. intros allowed. apply parquet_expr; [done|by right]. }
  assert (Ht : sf (readParquet path) []) by (apply readParquet_frag; by left).
  split_and!; [apply duckdbList_safe|apply duckdbRender_safe|apply duckdbCount_safe]; try done.
  - by apply Hr, duckdbBox_frag.
  - by apply listFeature_frag.
  - apply tableOrder_frag.
  - apply Hr, parquetBox_frag.
  - by apply simplified_frag, renderGeometry_frag.
  - apply renderProperties_frag.
  - by apply identifierOr_frag.
  - by apply Hr, duckdbBox_frag.
Qed.
End Parquet.

(** *** Vector files *)

Section Vector.
Context (f : vectorFile) (layer : string) (info : LayerInfo) (p : query).
Local Abbreviation extra := (extraPiece (VectorFile f layer info) p).
Local Abbreviation sf := (safeFrag (statementPiece info extra)).
Local Abbreviation code := (layer_code info extra).

Lemma fileText_frag v : v ∈ fileTexts f layer -> sf (QuoteLiteral v) [].
Proof. intros Hv. apply sf_quoted. right. left. by exists v. Qed.

Lemma bracket_open s ks : sf s ks -> sf (String "[" s) ks.
Proof. apply sf_byte; try done. right. right. by left. Qed.

Lemma bracket_close s ks : sf s ks -> sf (String "]" s) ks.
Proof. apply sf_byte; try done. right. right. by right. Qed.

Lemma readOptions_frag : sf (default "" (readOptions (vfOpenOptions f))) [].
Proof.
  unfold readOptions. destruct (forallb _ _); [|apply sf_nil]. set (l := merge_sort _ _).
  assert (Hl : sf (Join "," l) []).
  { apply (quiet_join info extra); [by left|]. apply Forall_forall. intros v Hv. unfold l in Hv. rewrite merge_sort_Permutation in Hv.
    apply list_elem_of_fmap in Hv as (o & -> & Ho). apply fileText_frag. unfold fileTexts. apply elem_of_app. right. apply list_elem_of_fmap. by exists o. }
  destruct l as [|v l]; [apply sf_nil|]. cbn [default]. change (", open_options=[" +:+ ?x) with (", open_options=" +:+ String "[" x).
  apply (sf_code code); [done|]. apply bracket_open, (sf_app _ _ [] []); [done|done|]. apply bracket_close, sf_nil.
Qed.

Lemma policy_frag : sf ReadPolicySQL [].
Proof.
  change ReadPolicySQL with (", allowed_drivers=" +:+ String "[" (QuoteLiteral "GeoJSON" +:+ "," +:+ QuoteLiteral "GPKG" +:+ "," +:+ QuoteLiteral "ESRI Shapefile"
    +:+ "," +:+ QuoteLiteral "FlatGeobuf" +:+ String "]" "")).
  apply (sf_code code); [done|]. apply bracket_open. repeat (apply (sf_app _ _ [] []); [apply fileText_frag; unfold fileTexts; set_solver|done|]; try (apply (sf_code code); [done|])).
  apply bracket_close, sf_nil.
Qed.

Lemma openOptions_frag : sf (default "" (readOptions (vfOpenOptions f)) +:+ ReadPolicySQL) [].
Proof. apply (sf_app _ _ [] []); [apply readOptions_frag|done|apply policy_frag]. Qed.

Lemma readExpression_frag : sf (buildReadExpression f layer) [].
Proof.
  unfold buildReadExpression. cbv zeta. pose proof openOptions_frag as Ho. set (openOpts := default "" _ +:+ _) in *.
  assert (Hb : boundary (openOpts +:+ ")") = true).
  { unfold openOpts, readOptions. destruct (forallb _ _); [|done]. by destruct (merge_sort _ _). }
  assert (Htail : sf (openOpts +:+ ")") []) by (apply (sf_then code); done).
  set (name := if _ : bool then layer else vfLayer f). assert (Hname : name ∈ fileTexts f layer) by (unfold name, fileTexts; destruct (_ && _ && _); set_solver).
  assert (Hpath : sf (QuoteLiteral (vfPath f)) []) by (apply fileText_frag; unfold fileTexts; set_solver).
  clearbody name openOpts. destruct (String.eqb name ""); apply (sf_code code); try done; apply (sf_app _ _ [] []); try done. apply (sf_code code); [done|].
  apply (sf_app _ _ [] []); [by apply fileText_frag|done|done].
Qed.

Lemma vector_statements : predicateFor (VectorFile f layer info) p -> adapterSafe (VectorFile f layer info) p.
Proof using formatG_text formatF_text.
  intros Hp. pose proof (expr_frag info extra _ (filter_expr info)) as Hg. pose proof readExpression_frag as Ht.
  assert (Hr : relationOk (A := A) info extra (vectorRelation info)) by (apply plain_relation; [done|by apply duckdbBox_frag|done]).
  split_and!; [apply duckdbList_safe|apply duckdbRender_safe|apply duckdbCount_safe]; try done.
  - by apply listFeature_frag.
  - apply tableOrder_frag.
  - by apply simplified_frag, listGeometry_frag.
  - apply jsonObject_frag, propertyItems_frag; [done|apply filtered_names].
  - by apply identifierOr_frag.
Qed.
End Vector.

(** *** Views *)

Section View.
Context (c : SQLViewConfig) (p : query) (Htext : viewText c).
Local Abbreviation extra := (viewPiece c p).
Local Abbreviation sf := (safeFrag (statementPiece (viewInfo c) extra)).
Local Abbreviation code := (layer_code (viewInfo c) extra).

Lemma viewSQL_frag : sf (vSQL c) [].
Proof using Htext.
  destruct Htext as (ps & Hs & Hp). rewrite <- Hp. apply scan_safe; [done|]. apply Forall_forall. intros q Hq. right. left. by exists ps.
Qed.

Lemma subquery_frag : sf (subquery (vSQL c)) [].
Proof using Htext.
  unfold subquery. apply (sf_code code); [done|]. assert (Hn : statementPiece (viewInfo c) extra (SqlCode "010")) by (right; by right; right).
  change (sf (String "010" (vSQL c +:+ String "010" ")")) []). apply sf_byte; [done..|]. apply (sf_app _ _ [] []); [apply viewSQL_frag|done|].
  apply sf_byte; [done..|]. by apply (sf_text code).
Qed.

Lemma viewOrder_frag : sf (viewOrder c p) [].
Proof.
  apply (OrderByClause_frag (viewInfo c) extra "v" _ None); [done|]. intros f Hf _. unfold StableSort in Hf. destruct (qSortBy p) as [|g l] eqn:Hs; [by apply elem_of_nil in Hf|].
  assert (Hin : f ∈ qSortBy p \/ sortName f = vIDColumn c).
  { destruct (_ || _); [left; by rewrite Hs|]. apply elem_of_app in Hf as [?| ->%list_elem_of_singleton]; [left; by rewrite Hs|by right]. }
  destruct Hin as [Hin|Hin]; [right; right; left; by exists f|]. left. rewrite Hin. left. cbn. set_solver.
Qed.

Lemma viewColumn_names n : n ∈ viewColumns c -> n ∈ lProperties (viewInfo c).
Proof. by intros [H _]%elem_of_Lfilter. Qed.

Lemma viewSelected_names n : n ∈ viewSelected c p -> n ∈ lProperties (viewInfo c).
Proof. intros [H _]%elem_of_Lfilter. by apply viewColumn_names. Qed.

Lemma postgisViewGeometry_frag out : sf (postgisViewGeometry c out) [].
Proof.
  pose proof (column_frag (viewInfo c) extra "v" eq_refl) as Hg. unfold postgisViewGeometry. destruct (_ && _); [|done].
  apply (sf_code code); [done|]. apply (sf_app _ _ [] []); [done|done|]. apply (sf_code code); [done|]. apply (sf_then code); [apply (sf_text code), code_number|done|done].
Qed.

(** The end of a statement on a view of PostGIS. *)
Lemma fromView_frag before tail ks : all_bytes codeByte before = true -> sf tail ks -> sf (before +:+ vSQL c +:+ ") v " +:+ tail) ks.
Proof using Htext.
  intros Hb Ht. apply (sf_code code); [done|]. apply (sf_app _ _ [] ks); [apply viewSQL_frag|done|]. by apply (sf_code code).
Qed.

Lemma postgisView_statements : predicateFor (PostGISView c) p -> adapterSafe (PostGISView c) p.
Proof using formatG_text formatF_text Htext.
  intros Hp. pose proof (column_frag (viewInfo c) extra "v" eq_refl) as Hg.
  assert (Hr : relationOk (A := A) (viewInfo c) extra (postgisView c)) by (apply plain_relation; [done|by apply postgisBox_frag|done]).
  unfold adapterSafe. cbn [listSQL renderSQL countSQL]. unfold postgisBuildSQLViewListSQL, postgisBuildSQLViewWKBSQL, postgisBuildSQLViewCountSQL, ifValid.
  destruct (validateSQL (vSQL c)); [|done]. split_and!; apply onConditions_safe; try done; intros b Hb; cbv zeta; cbn [fst snd]; apply (sf_code code); try done.
  - apply (sf_app _ _ []); [|done|apply fromView_frag; [done|]; apply list_tail; [apply viewOrder_frag|done]].
    apply postgisFeature_frag; [by apply identifierOr_frag|by apply simplified_frag, postgisViewGeometry_frag|].
    apply jsonbObject_frag, propertyItems_frag; [done|apply viewSelected_names].
  - apply (sf_app _ _ []); [apply postgisViewGeometry_frag|done|]. apply (sf_code code); [done|].
    apply (sf_app _ _ []); [apply jsonbObject_frag, propertyItems_frag; [done|apply viewColumn_names]|done|]. apply (sf_code code); [done|].
    apply (sf_app _ _ []); [by apply identifierOr_frag|done|]. apply fromView_frag; [done|]. by apply render_tail.
  - apply (fromView_frag ""); [done|]. by apply WhereClause_frag.
Qed.

Lemma rawNames_frag : Forall (fun n : string => has_byte squote n = false) (vProperties c) -> sf (Join ", " (map (fun n => rawLiteral n +:+ ", v." +:+ QuoteIdent n) (viewColumns c))) [].
Proof.
  intros Hn. apply (quiet_join (viewInfo c) extra); [by right|]. apply Forall_forall. intros s (n & -> & Hi%viewColumn_names)%list_elem_of_fmap.
  rewrite Forall_forall in Hn. apply (sf_app _ _ [] []); [apply raw_frag; [by apply Hn|apply name_literal, property_name; done]|done|].
  apply (sf_code code); [done|]. apply sf_ident, name_ident, property_name. done.
Qed.

Lemma duckdbView_statements : Forall (fun n : string => has_byte squote n = false) (vProperties c) -> predicateFor (DuckDBView c) p -> adapterSafe (DuckDBView c) p.
Proof using formatG_text formatF_text Htext.
  intros Hn Hp. pose proof (column_frag (viewInfo c) extra "v" eq_refl) as Hg. pose proof subquery_frag as Ht.
  assert (Hr : relationOk (A := A) (viewInfo c) extra (duckdbView c)) by (apply plain_relation; [done|by apply duckdbBox_frag|done]).
  split_and!; [apply duckdbList_safe|apply duckdbRender_safe|apply duckdbCount_safe]; try done.
  - apply featureJSON_frag; [by apply identifierOr_frag|by apply simplified_frag, renderGeometry_frag|]. apply jsonObject_frag, propertyItems_frag; [done|apply viewSelected_names].
  - apply viewOrder_frag.
  - by apply renderGeometry_frag.
  - by apply jsonObject_frag, rawNames_frag.
  - by apply identifierOr_frag.
Qed.
End View.
End Adapters.

(** ** The theorems *)


(** The statements that change features in PostGIS are the intended ones, too, in
    whatever order the properties are visited: columns are columns of the layer, and the
    parameters of the assignments and of the renumbered filter are the indices of the
    arguments, in their order. *)
Theorem feature_changes_intended {V A} info (properties : list (string * propertyValue V)) (f : FeatureData V) filter (filterArgs : list A) :
  let noExtra (_ : sqlPiece) := False in
  filterOk info noExtra filter (length filterArgs) -> filter <> "" ->
  safeWrite info noExtra (updateStatement info properties filter filterArgs) /\ safeWrite info noExtra (replaceStatement info f filter filterArgs)
  /\ safeWrite (V := V) info noExtra (deleteStatement info filter filterArgs)
  /\ match insertStatement (A := A) info f with Some r => safeWrite info noExtra r | None => True end.
Proof. intros noExtra Hf Hne. split_and!; [by apply update_safe|by apply replace_safe|by apply delete_safe|apply insert_safe]. Qed.

(** ** Examples *)

Definition exampleLayer : LayerInfo :=
  mkLayerInfo "public.roads" "public" "geom" 3857 "id" ["id"; "height"; "name"] {["id" := "int8"; "height" := "int4"; "name" := "text"]}.

Definition exampleQuery {A E} (predicate : QueryParams (queryArg A) E) (filter : string) (dateTime : option DateTimeFilter) : featureQuery A E :=
  mkFeatureQuery predicate 10 0 None 0 0 filter 0 [mkSortField "name" true; mkSortField "no such column" false] ["height"] (decimal_to_float false 0 0) dateTime ["7"].

Definition noPredicate {A E} : QueryParams (queryArg A) E := mkQueryParams None "" [] 1.

Definition roadsOptions : FESCompileOptions := mkOptions SQLPostGIS "" "" 1 0 "geom" (Some {["height"; "name"]}) "app:roads" "id".

Definition examplePredicate : QueryParams (queryArg fesArg) fesErr := mkQueryParams (Some (fesPredicate (fun _ => None) exampleFilter roadsOptions)) "" [] 1.

Definition exampleView : SQLViewConfig :=
  mkView (jsonText "SELECT `geom`, id, height, name FROM roads WHERE kind = 'main'") "geom" 3857 "id" ["id"; "height"; "name"].

(** Double quotes are written as back quotes. *)
Definition exampleListSQL : string :=
  jsonText "SELECT jsonb_build_object('type','Feature','id',v.`id`,'geometry',ST_AsGeoJSON(ST_Transform(v.`geom`, 4326))::jsonb,'properties',jsonb_build_object('height', v.`height`)) AS feature FROM (SELECT `geom`, id, height, name FROM roads WHERE kind = 'main') v WHERE CAST(v.`id` AS VARCHAR) IN ($1) AND (NOT v.`height` = $2 AND v.`id`::text IN ($3, $4)) ORDER BY v.`name` DESC, v.`no such column` ASC, v.`id` ASC LIMIT $5 OFFSET $6".


(** A temporal selection is joined to the filter as text: parentheses of the filter
    that do not match on their own match in the joined text, and the selection is bound
    to one branch of a disjunction only. *)
Definition since2020 : DateTimeFilter := mkDateTime "name" "" (Some 0) None false.

Example selection_escaped :
  let p selection := exampleQuery (A := string) (E := string) noPredicate "height = 1) OR (height = 1" selection in
  let count selection := postgisBuildCountSQL (fun _ => "2020") exampleLayer (p selection) in
  match count None, count (Some since2020) with inl (FilterFailed (Some _)), inr (sql, args) => (sql, length args) | _, _ => ("", O) end
  = (jsonText "SELECT COUNT(*) FROM `public`.`roads` t WHERE ((`height` = $1) OR ((`height` = $2) AND (((`name` IS NULL OR (`name` >= $3))))))", 3%nat).
Proof. vm_compute. reflexivity. Qed.

(** A column whose name has a dollar sign with digits is renamed with the parameters;
    [rebaseParameters] keeps it. *)
Example column_renumbered :
  adjustFilterParams (QuoteIdent "a$1" +:+ " = $1") 2 = QuoteIdent "a$3" +:+ " = $3"
  /\ rebaseParameters (QuoteIdent "a$1" +:+ " = $1") 1 3 1 = Some (QuoteIdent "a$1" +:+ " = $3").
Proof. split; vm_compute; reflexivity. Qed.

(** For a layer of unknown reference system the list leaves the geometry as it is, the
    rendering transforms it from a system that does not exist. *)
Example unknown_system_transformed geom :
  listGeometry geom 0 4326 = geom
  /\ renderGeometry geom 0 4326 = "ST_Transform(" +:+ geom +:+ ", 'EPSG:0', 'EPSG:4326', always_xy := true)".
Proof. by split. Qed.

(** The rendering of a DuckDB view ends the literal of a name at the quote of the name, so
    that the rest of the name is SQL. *)
Example column_name_is_code :
  let c := mkView "SELECT 1" "geom" 4326 "" ["a', (SELECT secret FROM keys), '"] in
  let p := mkFeatureQuery (A := string) (E := string) noPredicate 0 0 None 0 0 "" 0 [] [] (decimal_to_float false 0 0) None [] in
  duckdbBuildSQLViewWKBSQL (fun _ => "") c p
    = inr (jsonText "SELECT ST_AsWKB(v.`geom`) AS geom, json_object('a', (SELECT secret FROM keys), '', v.`a', (SELECT secret FROM keys), '`) AS props, NULL AS feature_id FROM "
           +:+ subquery "SELECT 1" +:+ " v  ", []).
Proof. vm_compute. reflexivity. Qed.

(** A spatial filter on a vector file whose geometry is stored as bytes is about the bytes;
    the same filter on a Parquet file is about the geometry. *)
Example filter_on_bytes :
  let info := mkLayerInfo "roads" "" "geom" 4326 "" ["height"] {["geom" := "BLOB"]} in
  let sql r := match compileCQL (A := string) r info 0 1 "S_INTERSECTS(geom, POINT(1 2))" with Ok (sql, _, _) => sql | _ => "" end in
  sql (vectorRelation info) = jsonText "ST_Intersects(`geom`, ST_GeomFromText(CAST($1 AS VARCHAR)))"
  /\ sql (parquetRows info) = jsonText "ST_Intersects(ST_GeomFromWKB(t.`geom`), ST_GeomFromText(CAST($1 AS VARCHAR)))".
Proof. split; vm_compute; reflexivity. Qed.
