(* ===== verification/ImportPlan.v ===== *)
(** * Import plans ([internal/importer/manager.go], [internal/store/store_import.go])

    The plan of a managed import: its validation against what was discovered in the
    source, and the statement that copies one layer into the managed database. The
    text of the statement is compared with the tokens it is meant to have. *)

From S2P Require Import Prelude GoText GoPath SqlUtil SqlScan.

(** ** Names *)

(** [strings.TrimSpace], with the white space of Unicode. *)
Fixpoint trimLeftSpace (s : string) : string :=
  match s with
  | EmptyString => ""
  | String a r =>
      if ((9 <=? code a) && (code a <=? 13) || (code a =? 32))%N then trimLeftSpace r
      else
        match r with
        | String b r2 =>
            if utf8_space2 a b then trimLeftSpace r2
            else
              match r2 with
              | String c r3 => if utf8_space3 a b c then trimLeftSpace r3 else s
              | EmptyString => s
              end
        | EmptyString => s
        end
  end.

Fixpoint trimRightSpace (s : string) : string :=
  if isBlank s then "" else match s with String c r => String c (trimRightSpace r) | EmptyString => "" end.

Definition TrimUnicode (s : string) : string := trimRightSpace (trimLeftSpace s).

(** The loop over runes: every byte of a rune above 127 is above 127. *)
Definition safeByte (c : ascii) : bool :=
  existsb (Ascii.eqb c) ["_"; "-"; ":"; "."]%char || (127 <? code c)%N
  || ((97 <=? code c) && (code c <=? 122))%N || ((65 <=? code c) && (code c <=? 90))%N || ((48 <=? code c) && (code c <=? 57))%N.

Definition safeName (value : string) : bool :=
  let value := TrimUnicode value in
  if String.eqb value "" || (128 <? Z.of_nat (String.length value)) then false else all_bytes safeByte value.

(** [filepath.Base] and [filepath.Ext]. *)
Definition Base (path : string) : string :=
  if String.eqb path "" then "."
  else let path := trimRightBy (Ascii.eqb "/") path in
       let base := match cutLast "/" path with Some (_, b) => b | None => path end in
       if String.eqb base "" then "/" else base.

Definition Ext (path : string) : string :=
  let base := match cutLast "/" path with Some (_, b) => b | None => path end in
  match cutLast "." base with Some (_, e) => "." +:+ e | None => "" end.

Definition sourceBaseName (value : string) : string :=
  let base := Base value in stake (String.length base - String.length (Ext base)) base.

Definition supportedSource (path : string) : bool :=
  existsb (String.eqb (ToLower (Ext path))) [".gpkg"; ".geojson"; ".json"; ".fgb"; ".parquet"; ".shp"].

Definition sanitizeError (value : string) : string := stake 1024 (ReplaceByte "010" " " value).

Definition castType (value : string) : option string :=
  assoc (ToLower (TrimUnicode value))
    [("", ""); ("string", "VARCHAR"); ("varchar", "VARCHAR"); ("integer", "BIGINT"); ("bigint", "BIGINT"); ("number", "DOUBLE");
     ("double", "DOUBLE"); ("boolean", "BOOLEAN"); ("date", "DATE"); ("timestamp", "TIMESTAMP")].

(** ** Plans *)

Record ImportProperty : Type := mkProperty { propName : string; propType : string }.

Record ImportDiscoveredLayer : Type := mkDiscovered {
  discName : string; discTitle : string; discDescription : string; discGeometryType : string; discIDColumn : string; discGeometryColumn : string; discSRID : Z; discFeatureCount : Z; discProperties : list ImportProperty }.

Record ImportFieldMapping : Type := mkField { fldSource : string; fldTarget : string; fldType : string; fldInclude : bool }.

Record ImportLayerPlan : Type := mkLayerPlan {
  SourceLayer : string; PublicID : string; Title : string; Description : string; Enabled : bool; Public : bool;
  AllowedRoles : list string; Fields : list ImportFieldMapping; GeometryColumn : string; TargetGeometry : string;
  IDColumn : string; SourceSRID : Z; TargetSRID : Z }.

Record ImportPlan : Type := mkPlan { ServiceName : string; PlanLayers : list ImportLayerPlan }.

#[export] Instance ImportProperty_eq : EqDecision ImportProperty. Proof. solve_decision. Defined.
#[export] Instance ImportDiscoveredLayer_eq : EqDecision ImportDiscoveredLayer. Proof. solve_decision. Defined.
#[export] Instance ImportFieldMapping_eq : EqDecision ImportFieldMapping. Proof. solve_decision. Defined.
#[export] Instance ImportLayerPlan_eq : EqDecision ImportLayerPlan. Proof. solve_decision. Defined.
#[export] Instance ImportPlan_eq : EqDecision ImportPlan. Proof. solve_decision. Defined.

Inductive planError : Type :=
| DiscoveryNotComplete
| BadServiceName
| BadLayerCount
| UnknownSourceLayer (name : string)
| BadPublicID (name : string)
| BadCRS (name : string)
| UnknownField (name : string)
| BadTargetField (name : string)
| UnsupportedType (name : string)
| BadIDColumn (name : string).

Definition orDefault (value other : string) : string := if String.eqb value "" then other else value.

Definition targetOf (field : ImportFieldMapping) : string := orDefault (fldTarget field) (fldSource field).

(** The loop over the fields of a layer. *)
Fixpoint validateFields (properties : list string) (targets : gset string) (fields : list ImportFieldMapping) : option planError :=
  match fields with
  | [] => None
  | field :: rest =>
      if negb (bool_decide (fldSource field ∈ properties)) then Some (UnknownField (fldSource field))
      else if fldInclude field then
        let target := targetOf field in
        if negb (safeName target) || bool_decide (target ∈ targets) then Some (BadTargetField target)
        else if castType (fldType field) is None then Some (UnsupportedType (fldType field))
        else validateFields properties ({[target]} ∪ targets) rest
      else validateFields properties targets rest
  end.

(** The defaults that the validation fills in. *)
Definition withDefaults (source : ImportDiscoveredLayer) (item : ImportLayerPlan) : ImportLayerPlan :=
  let geometry := orDefault (GeometryColumn item) (discGeometryColumn source) in
  let srid := if SourceSRID item =? 0 then discSRID source else SourceSRID item in
  mkLayerPlan (SourceLayer item) (PublicID item) (Title item) (Description item) (Enabled item) (Public item) (AllowedRoles item)
    (Fields item) geometry (orDefault (TargetGeometry item) geometry) (IDColumn item)
    srid (if TargetSRID item =? 0 then srid else TargetSRID item).

Definition sourcesOf (layers : list ImportDiscoveredLayer) : gmap string ImportDiscoveredLayer :=
  foldl (fun m item => <[discName item := item]> m) ∅ layers.

(** The loop over the layers of a plan. *)
Fixpoint validateLayers (sources : gmap string ImportDiscoveredLayer) (publicIDs : gset string) (items : list ImportLayerPlan)
    : planError + list ImportLayerPlan :=
  match items with
  | [] => inr []
  | item :: rest =>
      match sources !! SourceLayer item with
      | None => inl (UnknownSourceLayer (SourceLayer item))
      | Some source =>
          if negb (safeName (PublicID item)) || bool_decide (PublicID item ∈ publicIDs) then inl (BadPublicID (PublicID item))
          else
            let item := withDefaults source item in
            if (SourceSRID item <=? 0) || (TargetSRID item <=? 0) then inl (BadCRS (SourceLayer item))
            else match validateFields (propName <$> discProperties source) ∅ (Fields item) with
                 | Some e => inl e
                 | None =>
                     match validateLayers sources ({[PublicID item]} ∪ publicIDs) rest with
                     | inl e => inl e
                     | inr rest => inr (item :: rest)
                     end
                 end
      end
  end.

Definition validatePlan (maxLayers : Z) (discovery : option (list ImportDiscoveredLayer)) (plan : option ImportPlan)
    : planError + ImportPlan :=
  match discovery, plan with
  | None, _ => inl DiscoveryNotComplete
  | Some _, None => inl BadServiceName
  | Some layers, Some plan =>
      if negb (safeName (ServiceName plan)) then inl BadServiceName
      else if Nat.eqb (length (PlanLayers plan)) 0 || (maxLayers <? Z.of_nat (length (PlanLayers plan))) then inl BadLayerCount
      else match validateLayers (sourcesOf layers) ∅ (PlanLayers plan) with
           | inl e => inl e
           | inr items => inr (mkPlan (ServiceName plan) items)
           end
  end.

(** ** The statement of a layer *)

Definition isParquet (path : string) : bool := EqualFold (Ext path) ".parquet".

Definition readSource (path : string) (source : ImportDiscoveredLayer) : string :=
  if isParquet path then "read_parquet(" +:+ QuoteLiteral path +:+ ")"
  else "ST_Read(" +:+ QuoteLiteral path
       +:+ (if negb (String.eqb (discName source) "") && EqualFold (Ext path) ".gpkg"
            then ", layer=" +:+ QuoteLiteral (discName source) else "")
       +:+ ReadPolicySQL +:+ ")".

Definition included (plan : ImportLayerPlan) : list ImportFieldMapping := List.filter fldInclude (Fields plan).

(** The columns the source keeps when the plan names none. *)
Definition keptProperties (source : ImportDiscoveredLayer) : list string :=
  List.filter (fun name => negb (String.eqb name (discGeometryColumn source))) (propName <$> discProperties source).

Definition fieldExpression (field : ImportFieldMapping) : string :=
  let expression := "src." +:+ QuoteIdent (fldSource field) in
  let expression := match castType (fldType field) with
                    | Some sqlType => if String.eqb sqlType "" then expression else "CAST(" +:+ expression +:+ " AS " +:+ sqlType +:+ ")"
                    | None => expression
                    end in
  expression +:+ " AS " +:+ QuoteIdent (targetOf field).

Definition fieldColumns (source : ImportDiscoveredLayer) (plan : ImportLayerPlan) : list string :=
  match Fields plan with
  | [] => (fun name => "src." +:+ QuoteIdent name) <$> keptProperties source
  | _ => fieldExpression <$> included plan
  end.

Definition targetNames (source : ImportDiscoveredLayer) (plan : ImportLayerPlan) : list string :=
  match Fields plan with
  | [] => keptProperties source
  | _ => targetOf <$> included plan
  end.

Definition nativeGeometry (source : ImportDiscoveredLayer) : bool :=
  existsb (fun p => String.eqb (propName p) (discGeometryColumn source) && HasPrefix (ToUpper (propType p)) "GEOMETRY")
    (discProperties source).

Definition geometryColumnSQL (path : string) (source : ImportDiscoveredLayer) (plan : ImportLayerPlan) : string :=
  let geom := "src." +:+ QuoteIdent (discGeometryColumn source) in
  let geom := if isParquet path && negb (nativeGeometry source) then "ST_GeomFromWKB(" +:+ geom +:+ ")" else geom in
  let geom := if SourceSRID plan =? TargetSRID plan then geom
              else "ST_Transform(" +:+ geom +:+ ", 'EPSG:" +:+ pretty (SourceSRID plan) +:+ "', 'EPSG:" +:+ pretty (TargetSRID plan)
                   +:+ "', always_xy := true)" in
  geom +:+ " AS " +:+ QuoteIdent (TargetGeometry plan).

Definition buildTransformSQL (path : string) (source : ImportDiscoveredLayer) (plan : ImportLayerPlan)
    : planError + (string * string) :=
  let fields := fieldColumns source plan ++ [geometryColumnSQL path source plan] in
  let statement fields := "CREATE TABLE managed." +:+ QuoteIdent (PublicID plan) +:+ " AS SELECT " +:+ Join "," fields
                          +:+ " FROM " +:+ readSource path source +:+ " AS src" in
  if String.eqb (IDColumn plan) "" then
    inr (statement (("row_number() OVER ()::BIGINT AS " +:+ QuoteIdent "__neoserver_id") :: fields), "__neoserver_id")
  else if bool_decide (IDColumn plan ∈ targetNames source plan) then inr (statement fields, IDColumn plan)
  else inl (BadIDColumn (IDColumn plan)).

(** ** What the validation promises *)

(** A layer of a plan that fits the source. *)
Record layerFits (source : ImportDiscoveredLayer) (item : ImportLayerPlan) : Prop := {
  lf_name : safeName (PublicID item) = true;
  lf_srid : 0 < SourceSRID (withDefaults source item) /\ 0 < TargetSRID (withDefaults source item);
  lf_known : forall f, f ∈ Fields item -> fldSource f ∈ propName <$> discProperties source;
  lf_safe : forall f, f ∈ included item -> safeName (targetOf f) = true /\ castType (fldType f) <> None;
  lf_distinct : NoDup (targetOf <$> included item) }.

Definition planFits (maxLayers : Z) (layers : list ImportDiscoveredLayer) (plan : ImportPlan) : Prop :=
  safeName (ServiceName plan) = true
  /\ 1 <= Z.of_nat (length (PlanLayers plan)) <= maxLayers
  /\ NoDup (PublicID <$> PlanLayers plan)
  /\ Forall (fun item => exists source, sourcesOf layers !! SourceLayer item = Some source /\ layerFits source item) (PlanLayers plan).

(** The plan with the defaults of its layers. *)
Definition defaulted (layers : list ImportDiscoveredLayer) (plan : ImportPlan) : ImportPlan :=
  mkPlan (ServiceName plan)
    ((fun item => match sourcesOf layers !! SourceLayer item with Some source => withDefaults source item | None => item end)
     <$> PlanLayers plan).

Lemma validateFields_ok properties targets fields :
  validateFields properties targets fields = None <->
  (forall f, f ∈ fields -> fldSource f ∈ properties)
  /\ (forall f, f ∈ List.filter fldInclude fields -> safeName (targetOf f) = true /\ castType (fldType f) <> None)
  /\ NoDup (targetOf <$> List.filter fldInclude fields)
  /\ (forall f, f ∈ List.filter fldInclude fields -> targetOf f ∉ targets).
Proof.
  revert targets. induction fields as [|f fields IH]; intros targets; simpl.
  { split; [|done]. intros _. split_and!; try (intros ? []%not_elem_of_nil). apply NoDup_nil_2. }
  destruct (decide (fldSource f ∈ properties)) as [Hs|Hs]; [rewrite bool_decide_true by done|rewrite bool_decide_false by done]; simpl.
  2:{ split; [done|]. intros [Hk _]. destruct Hs. apply Hk. left. }
  destruct (fldInclude f); simpl.
  2:{ rewrite IH. setoid_rewrite elem_of_cons. naive_solver. }
  destruct (safeName (targetOf f)) eqn:Hsafe; simpl.
  2:{ split; [done|]. intros (_ & Hk & _). destruct (Hk f) as [? _]; [left|congruence]. }
  destruct (decide (targetOf f ∈ targets)) as [Ht|Ht]; [rewrite bool_decide_true by done|rewrite bool_decide_false by done].
  { split; [done|]. intros (_ & _ & _ & Hk). destruct (Hk f); [left|done]. }
  destruct (castType (fldType f)) eqn:Hc.
  2:{ split; [done|]. intros (_ & Hk & _). destruct (Hk f) as [_ ?]; [left|congruence]. }
  rewrite IH, NoDup_cons. setoid_rewrite elem_of_cons. setoid_rewrite not_elem_of_union. setoid_rewrite not_elem_of_singleton.
  assert (targetOf f ∉ targetOf <$> List.filter fldInclude fields
          <-> forall g, g ∈ List.filter fldInclude fields -> targetOf g <> targetOf f) as -> by set_solver.
  assert (castType (fldType f) <> None) by congruence.
  split; intros Hall; split_and!; intros; naive_solver.
Qed.

Lemma withDefaults_fields source item :
  PublicID (withDefaults source item) = PublicID item /\ Fields (withDefaults source item) = Fields item
  /\ SourceLayer (withDefaults source item) = SourceLayer item.
Proof. done. Qed.

Lemma validateLayers_ok sources ids items out :
  validateLayers sources ids items = inr out <->
  NoDup (PublicID <$> items) /\ (forall item, item ∈ items -> PublicID item ∉ ids)
  /\ Forall (fun item => exists source, sources !! SourceLayer item = Some source /\ layerFits source item) items
  /\ out = (fun item => match sources !! SourceLayer item with Some source => withDefaults source item | None => item end) <$> items.
Proof.
  revert ids out. induction items as [|item items IH]; intros ids out; cbn [validateLayers]; rewrite ?fmap_cons.
  { split; [intros [= <-]|by intros (_ & _ & _ & ->)]. split_and!; [apply NoDup_nil_2|by intros ? ?%not_elem_of_nil|constructor|done]. }
  rewrite NoDup_cons, Forall_cons. setoid_rewrite elem_of_cons.
  destruct (sources !! SourceLayer item) as [source|] eqn:Hsrc; [|split; [done|naive_solver]].
  cbv zeta. destruct (withDefaults_fields source item) as (-> & -> & ->).
  set (fields := validateFields _ _ _). assert (Hf := validateFields_ok (propName <$> discProperties source) ∅ (Fields item)).
  fold fields in Hf.
  destruct (safeName (PublicID item)) eqn:Hsafe; cbn [negb orb].
  2:{ split; [done|]. intros (_ & _ & [(s & [= <-] & []) _] & _). congruence. }
  destruct (decide (PublicID item ∈ ids)) as [Hin|Hin]; [rewrite bool_decide_true by done|rewrite bool_decide_false by done].
  { split; [done|]. intros (_ & Hk & _). destruct (Hk item); auto. }
  destruct (_ || _) eqn:Hsr.
  { split; [done|]. intros (_ & _ & [(s & [= <-] & [_ [? ?] _ _ _]) _] & _). apply orb_true_iff in Hsr as [?%Z.leb_le|?%Z.leb_le]; lia. }
  apply orb_false_iff in Hsr as [?%Z.leb_gt ?%Z.leb_gt].
  destruct fields as [e|].
  { split; [done|]. intros (_ & _ & [(s & [= <-] & [_ _ Hk Hs Hd]) _] & _). enough (Some e = None) by done. apply Hf.
    split_and!; [done..|]. set_solver. }
  destruct (proj1 Hf eq_refl) as (F1 & F2 & F3 & F4).
  assert (layerFits source item) by (split; done).
  destruct (validateLayers sources _ items) as [e|rest] eqn:Hrest.
  - split; [done|]. intros ((Hni & Hnd) & Hids & (_ & Hall) & _).
    enough (inl e = inr ((fun item => match sources !! SourceLayer item with Some s => withDefaults s item | None => item end) <$> items)) by done.
    rewrite <- Hrest. apply IH. split_and!; [done| |done|done]. intros it Hit. apply not_elem_of_union. split; [|by auto].
    apply not_elem_of_singleton. intros Heq. apply Hni, list_elem_of_fmap. by exists it.
  - destruct (proj1 (IH _ _) Hrest) as (Hnd & Hids & Hall & ->). split.
    + intros [= <-]. split_and!; [|done| |by exists source|done|done].
      * intros (it & Heq & Hit)%list_elem_of_fmap. apply (Hids it Hit). set_solver.
      * intros it [->|Hit]; [done|]. specialize (Hids it Hit). set_solver.
    + by intros (_ & _ & _ & ->).
Qed.

(** The validation of an import plan is exact. It accepts exactly the plans with a
    safe service name and one to [maxLayers] layers whose public identifiers are safe
    and distinct, each of which selects a discovered layer, has positive coordinate
    systems after the defaults, maps known fields only, and gives the included ones
    safe, distinct targets of supported types; and what it returns is the plan with the
    defaults filled in. *)
Theorem validatePlan_exact maxLayers layers plan out :
  validatePlan maxLayers (Some layers) (Some plan) = inr out <-> planFits maxLayers layers plan /\ out = defaulted layers plan.
Proof.
  unfold validatePlan, planFits, defaulted.
  destruct (safeName (ServiceName plan)); simpl; [|naive_solver].
  destruct (_ || _) eqn:Hn.
  { split; [done|]. intros [(_ & ? & _) _]. apply orb_true_iff in Hn as [?%Nat.eqb_eq|?%Z.ltb_lt]; lia. }
  apply orb_false_iff in Hn as [?%Nat.eqb_neq ?%Z.ltb_ge].
  destruct (validateLayers _ _ _) as [e|items] eqn:Hv.
  - split; [done|]. intros [(_ & _ & Hnd & Hall) _].
    enough (inl e = inr (PlanLayers (defaulted layers plan))) by done. rewrite <- Hv. apply validateLayers_ok. set_solver.
  - apply validateLayers_ok in Hv as (Hnd & _ & Hall & ->). split; [intros [= <-]|intros [_ ->]; done].
    split; [|done]. split_and!; try done; lia.
Qed.

(** ** The tokens of a statement *)

Inductive sqlTok : Type := Text (s : string) | Ident (name : string) | Lit (value : string).

Definition tokText (t : sqlTok) : string :=
  match t with Text s => s | Ident name => QuoteIdent name | Lit value => QuoteLiteral value end.

Definition tokPieces (t : sqlTok) : list sqlPiece :=
  match t with Text s => SqlCode <$> String.list_ascii_of_string s | Ident name => [SqlIdent name] | Lit value => [SqlLiteral value] end.

Fixpoint render (ts : list sqlTok) : string := match ts with [] => "" | t :: rest => tokText t +:+ render rest end.

Definition pieces (ts : list sqlTok) : list sqlPiece := ts ≫= tokPieces.

Definition textByte (c : ascii) : bool := negb (Ascii.eqb c dquote) && negb (Ascii.eqb c squote) && negb (Ascii.eqb c "$").

Definition startsText (ts : list sqlTok) : bool :=
  match ts with [] => true | Text (String c _) :: _ => boundary (String c "") | _ => false end.

(** Quoted tokens are separated by text, which has no quotes. *)
Fixpoint tidy (ts : list sqlTok) : bool :=
  match ts with
  | [] => true
  | Text s :: rest => all_bytes textByte s && tidy rest
  | _ :: rest => startsText rest && tidy rest
  end.

Lemma startsText_boundary ts : startsText ts = true -> boundary (render ts) = true.
Proof. destruct ts as [|[[|c s]| |] rest]; try done. Qed.

Lemma scan_text s tl : all_bytes textByte s = true ->
  scan Plain (s +:+ tl) = app (SqlCode <$> String.list_ascii_of_string s) <$> scan Plain tl.
Proof.
  induction s as [|c s IH]; cbn [all_bytes]; [intros _; rewrite sapp_nil_l; by destruct (scan Plain tl)|].
  intros [Hc Hs]%andb_true_iff. rewrite sapp_cons. cbn [scan scanStep]. unfold plainStep, textByte in *.
  apply andb_true_iff in Hc as [[H1%negb_true_iff H2%negb_true_iff]%andb_true_iff H3%negb_true_iff].
  rewrite H1, H2, H3, IH by done. by destruct (scan Plain tl).
Qed.

Lemma scan_render ts : tidy ts = true -> sqlScan (render ts) = Some (pieces ts).
Proof.
  unfold sqlScan, pieces. induction ts as [|t ts IH]; [done|].
  destruct t as [s|name|v]; cbn [tidy render tokText]; intros [Ht Hr]%andb_true_iff; rewrite bind_cons; cbn [tokPieces].
  - rewrite scan_text, IH by done. done.
  - unfold QuoteIdent. rewrite !sapp_assoc, !sapp_cons, !sapp_nil_l.
    change (scan Plain (String dquote ?x)) with (app [] <$> scan (InIdent "") x).
    rewrite scan_ident, (boundary_ends _ (SqlIdent name)), IH by auto using startsText_boundary. done.
  - unfold QuoteLiteral. rewrite !sapp_assoc, !sapp_cons, !sapp_nil_l.
    change (scan Plain (String squote ?x)) with (app [] <$> scan (InLiteral "") x).
    rewrite scan_escaped, (boundary_ends _ (SqlLiteral v)), IH by auto using startsText_boundary. done.
Qed.

Lemma render_app a b : render (a ++ b) = render a +:+ render b.
Proof. induction a as [|t a IH]; cbn [render app]; [done|]. by rewrite IH, sapp_assoc. Qed.

(** What a statement is meant to be. *)
Definition fieldTokens (f : ImportFieldMapping) : list sqlTok :=
  match castType (fldType f) with
  | None | Some "" => [Text "src."; Ident (fldSource f); Text " AS "; Ident (targetOf f)]
  | Some sqlType => [Text "CAST(src."; Ident (fldSource f); Text (" AS " +:+ sqlType +:+ ") AS "); Ident (targetOf f)]
  end.

Definition fieldsTokens (source : ImportDiscoveredLayer) (plan : ImportLayerPlan) : list (list sqlTok) :=
  match Fields plan with
  | [] => (fun name => [Text "src."; Ident name]) <$> keptProperties source
  | _ => fieldTokens <$> included plan
  end.

Definition geometryTokens (path : string) (source : ImportDiscoveredLayer) (plan : ImportLayerPlan) : list sqlTok :=
  let geom := [Text "src."; Ident (discGeometryColumn source)] in
  let geom := if isParquet path && negb (nativeGeometry source) then Text "ST_GeomFromWKB(" :: geom ++ [Text ")"] else geom in
  let geom := if SourceSRID plan =? TargetSRID plan then geom
              else Text "ST_Transform(" :: geom ++ [Text ", "; Lit ("EPSG:" +:+ pretty (SourceSRID plan)); Text ", ";
                                                    Lit ("EPSG:" +:+ pretty (TargetSRID plan)); Text ", always_xy := true)"] in
  geom ++ [Text " AS "; Ident (TargetGeometry plan)].

Definition driverTokens : list sqlTok :=
  [Text ", allowed_drivers=["; Lit "GeoJSON"; Text ","; Lit "GPKG"; Text ","; Lit "ESRI Shapefile"; Text ","; Lit "FlatGeobuf"; Text "]"].

Definition sourceTokens (path : string) (source : ImportDiscoveredLayer) : list sqlTok :=
  if isParquet path then [Text "read_parquet("; Lit path; Text ")"]
  else [Text "ST_Read("; Lit path]
       ++ (if negb (String.eqb (discName source) "") && EqualFold (Ext path) ".gpkg" then [Text ", layer="; Lit (discName source)] else [])
       ++ driverTokens ++ [Text ")"].

Fixpoint commas (columns : list (list sqlTok)) : list sqlTok :=
  match columns with
  | [] => []
  | [c] => c
  | c :: rest => c ++ Text "," :: commas rest
  end.

Definition columnTokens (path : string) (source : ImportDiscoveredLayer) (plan : ImportLayerPlan) : list (list sqlTok) :=
  (if String.eqb (IDColumn plan) "" then [[Text "row_number() OVER ()::BIGINT AS "; Ident "__neoserver_id"]] else [])
  ++ fieldsTokens source plan ++ [geometryTokens path source plan].

Definition transformTokens (path : string) (source : ImportDiscoveredLayer) (plan : ImportLayerPlan) : list sqlTok :=
  [Text "CREATE TABLE managed."; Ident (PublicID plan); Text " AS SELECT "] ++ commas (columnTokens path source plan)
  ++ [Text " FROM "] ++ sourceTokens path source ++ [Text " AS src"].

(** The names of the columns, in order. *)
Definition columnNames (source : ImportDiscoveredLayer) (plan : ImportLayerPlan) : list string :=
  (if String.eqb (IDColumn plan) "" then ["__neoserver_id"] else []) ++ targetNames source plan ++ [TargetGeometry plan].

(** A part of a statement: it is tidy and starts with text. *)
Definition part (ts : list sqlTok) : Prop := tidy ts = true /\ startsText ts = true.

Lemma tidy_app a b : tidy a = true -> part b -> tidy (a ++ b) = true.
Proof.
  intros Ha [Hb Hs]. induction a as [|t a IH]; [done|].
  destruct t; cbn [tidy app] in *; apply andb_true_iff in Ha as [H1 H2]; apply andb_true_iff; (split; [|by apply IH]);
    [done|destruct a; [done|by destruct s]..].
Qed.

Lemma part_app a b : part a -> part b -> part (a ++ b).
Proof. intros [Ha Hs] Hb. split; [by apply tidy_app|]. destruct a; [by destruct Hb|done]. Qed.

Lemma part_commas cs : Forall part cs -> part (commas cs).
Proof.
  induction 1 as [|c cs Hc Hall IH]; [done|]. destruct cs as [|d cs]; [done|]. cbn [commas].
  apply part_app; [done|]. destruct IH as [IH _]. by split.
Qed.

Lemma pretty_text (n : Z) : has_byte squote ("EPSG:" +:+ pretty n) = false.
Proof. apply EPSG_piece. Qed.

Lemma QuoteLiteral_plain v : has_byte squote v = false -> QuoteLiteral v = "'" +:+ v +:+ "'".
Proof.
  intros Hv. unfold QuoteLiteral, EscapeLiteral. enough (ReplaceByte squote (String squote (String squote "")) v = v) as -> by done.
  induction v as [|c v IH]; [done|]. cbn [ReplaceByte has_byte] in *. apply orb_false_iff in Hv as [-> Hv]. by rewrite IH.
Qed.

Lemma castType_text value t : castType value = Some t -> all_bytes textByte t = true.
Proof.
  unfold castType. cbn [assoc]. intros Hc.
  repeat (destruct (String.eqb _ _); [injection Hc as <-; reflexivity|]). done.
Qed.

Lemma all_bytes_sapp f a b : all_bytes f (a +:+ b) = all_bytes f a && all_bytes f b.
Proof. apply all_bytes_app. Qed.

Lemma part_field f : part (fieldTokens f).
Proof.
  unfold fieldTokens. destruct (castType (fldType f)) as [t|] eqn:Ht; [|done]. destruct t as [|c t]; [done|].
  apply castType_text in Ht. split; [|done]. cbn [tidy startsText]. rewrite !all_bytes_sapp, Ht. done.
Qed.

Lemma part_column path source plan : Forall part (columnTokens path source plan).
Proof.
  unfold columnTokens. apply Forall_app. split; [destruct (String.eqb _ _); repeat constructor|].
  apply Forall_app. split; [|constructor; [|constructor]].
  - unfold fieldsTokens. destruct (Fields plan); apply Forall_fmap, Forall_true; [done|intros; apply part_field].
  - unfold geometryTokens. by destruct (_ && _), (_ =? _).
Qed.

Lemma part_source path source : part (sourceTokens path source).
Proof. unfold sourceTokens. destruct (isParquet path); [done|]. by destruct (_ && _). Qed.

Lemma render_commas cs : render (commas cs) = Join "," (render <$> cs).
Proof.
  induction cs as [|c cs IH]; [done|]. destruct cs as [|d cs]; [done|].
  change (commas (c :: d :: cs)) with (c ++ Text "," :: commas (d :: cs)). by rewrite render_app; cbn [render tokText]; rewrite IH.
Qed.

Lemma render_field f : render (fieldTokens f) = fieldExpression f.
Proof.
  unfold fieldTokens, fieldExpression. destruct (castType (fldType f)) as [t|]; [destruct t as [|c t]|]; cbn [render tokText String.eqb];
    rewrite ?sapp_nil_r, ?sapp_assoc; done.
Qed.

Lemma render_geometry path source plan : render (geometryTokens path source plan) = geometryColumnSQL path source plan.
Proof.
  unfold geometryTokens, geometryColumnSQL. rewrite render_app. cbn [render tokText]. rewrite sapp_nil_r. f_equal.
  destruct (isParquet path && negb (nativeGeometry source)), (SourceSRID plan =? TargetSRID plan); cbn [render tokText app];
    rewrite ?QuoteLiteral_plain, ?sapp_nil_r, ?sapp_assoc by apply pretty_text; done.
Qed.

Lemma render_source path source : render (sourceTokens path source) = readSource path source.
Proof.
  unfold sourceTokens, readSource. destruct (isParquet path); [cbn [render tokText]; by rewrite sapp_nil_r|].
  assert (Hd : render driverTokens = ReadPolicySQL) by reflexivity.
  rewrite !render_app, Hd. destruct (_ && _); cbn [render tokText]; rewrite ?sapp_nil_r, ?sapp_assoc; done.
Qed.

Lemma render_columns path source plan :
  render <$> columnTokens path source plan
  = (if String.eqb (IDColumn plan) "" then ["row_number() OVER ()::BIGINT AS " +:+ QuoteIdent "__neoserver_id"] else [])
    ++ fieldColumns source plan ++ [geometryColumnSQL path source plan].
Proof.
  unfold columnTokens. rewrite !fmap_app. cbn [fmap list_fmap]. rewrite render_geometry. f_equal; [by destruct (String.eqb _ _)|].
  f_equal. unfold fieldsTokens, fieldColumns. destruct (Fields plan); rewrite <- list_fmap_compose; apply list_fmap_ext; intros _ x _.
  - cbn. by rewrite sapp_nil_r.
  - apply render_field.
Qed.

(** C4: the statement that copies a layer of an import says what the plan says whatever
    the names are. Read by the lexical rules of SQL, its text consists of exactly the
    tokens of the intended statement: names of columns and of the table only inside
    quoted identifiers, the path and the layer of the source only inside literals,
    types from the closed list of casts, and the drivers that may open the file; and
    the identifier column is one of the columns it creates. *)
Theorem transform_statement_exact path source plan sql idColumn :
  buildTransformSQL path source plan = inr (sql, idColumn) ->
  sqlScan sql = Some (pieces (transformTokens path source plan))
  /\ idColumn ∈ columnNames source plan.
Proof.
  intros Hb.
  assert (sql = render (transformTokens path source plan) /\ idColumn ∈ columnNames source plan) as [-> Hid].
  { unfold transformTokens. rewrite !render_app, render_commas, render_source, render_columns. cbn [render tokText].
    rewrite !sapp_nil_r, !sapp_assoc. unfold buildTransformSQL, columnNames in *.
    destruct (String.eqb (IDColumn plan) "").
    - injection Hb as <- <-. split; [done|left].
    - destruct (decide (IDColumn plan ∈ targetNames source plan)) as [Hin|Hin];
        [rewrite bool_decide_true in Hb by done|rewrite bool_decide_false in Hb by done; done].
      injection Hb as <- <-. split; [done|]. set_solver. }
  split; [|done]. apply scan_render. unfold transformTokens. apply tidy_app; [done|].
  apply part_app; [apply part_commas, part_column|]. apply part_app; [done|]. apply part_app; [apply part_source|done].
Qed.

(** ** An example *)

Definition exampleLayer : ImportDiscoveredLayer :=
  mkDiscovered "roads" "" "" "LineString" "fid" "geom" 4326 3 [mkProperty "fid" "BIGINT"; mkProperty "o'name" "VARCHAR"; mkProperty "geom" "GEOMETRY"].

Definition examplePlan (geometry : string) : ImportLayerPlan :=
  mkLayerPlan "roads" "streets" "" "" true true []
    [mkField "fid" "" "integer" true; mkField "o'name" "name" "" true; mkField "geom" "" "" false] geometry "shape" "fid" 0 3857.

Lemma transform_statement_exact_witness :
  sqlScan ("CREATE TABLE managed." +:+ QuoteIdent "streets" +:+ " AS SELECT CAST(src." +:+ QuoteIdent "fid" +:+ " AS BIGINT) AS "
           +:+ QuoteIdent "fid" +:+ ",src." +:+ QuoteIdent "o'name" +:+ " AS " +:+ QuoteIdent "name" +:+ ",ST_Transform(src."
           +:+ QuoteIdent "geom" +:+ ", 'EPSG:4326', 'EPSG:3857', always_xy := true) AS " +:+ QuoteIdent "shape"
           +:+ " FROM ST_Read('/d/it''s.gpkg', layer='roads', allowed_drivers=['GeoJSON','GPKG','ESRI Shapefile','FlatGeobuf']) AS src")
  = Some (pieces (transformTokens "/d/it's.gpkg" exampleLayer (withDefaults exampleLayer (examplePlan ""))))
  /\ "fid" ∈ columnNames exampleLayer (withDefaults exampleLayer (examplePlan "")).
Proof. apply transform_statement_exact. vm_compute. reflexivity. Defined.

(** The geometry column that a plan names is checked nowhere and used nowhere: the
    geometry is always read from the column of the discovered layer. *)
Example geometry_column_ignored :
  sum_map id (fun p => PublicID <$> PlanLayers p) (validatePlan 5 (Some [exampleLayer]) (Some (mkPlan "s" [examplePlan "missing"])))
  = inr ["streets"]
  /\ buildTransformSQL "/d/r.gpkg" exampleLayer (withDefaults exampleLayer (examplePlan "missing"))
     = buildTransformSQL "/d/r.gpkg" exampleLayer (withDefaults exampleLayer (examplePlan "geom")).
Proof. vm_compute. done. Qed.

(** White space around a name is ignored by the check and kept in the name. *)
Example blank_names_accepted :
  safeName " roads" = true
  /\ sum_map id (fun p => PublicID <$> PlanLayers p)
       (validatePlan 5 (Some [exampleLayer])
          (Some (mkPlan "s" [mkLayerPlan "roads" "roads" "" "" true true [] [] "" "" "" 0 0;
                             mkLayerPlan "roads" " roads" "" "" true true [] [] "" "" "" 0 0])))
     = inr ["roads"; " roads"].
Proof. vm_compute. done. Qed.
