(* ===== verification/Faults.v ===== *)
(** * Operations whose calls may fail

    A Go function that calls a database or the file system is a computation over the
    state of the world in which each call takes its fate from a list: it works, fails,
    or the process dies before it; what other goroutines do in between is part of the
    list as well. The rules quantify over all fates. *)

From stdpp Require Import relations.
From S2P Require Import Prelude.

Inductive result (E A : Type) : Type := Done (a : A) | Failed (e : E) | Died.
Arguments Done {E A} a.
Arguments Failed {E A} e.
Arguments Died {E A}.

Inductive fate (V : Type) : Type := Works | Fails | Dies | Before (v : V).
Arguments Works {V}.
Arguments Fails {V}.
Arguments Dies {V}.
Arguments Before {V} v.

Definition op (W V E A : Type) : Type := W * list (fate V) -> result E A * (W * list (fate V)).

#[export] Instance op_ret W V E : MRet (op W V E) := fun A a s => (Done a, s).

#[export] Instance op_bind W V E : MBind (op W V E) := fun A B k c s =>
  match c s with
  | (Done a, s') => k a s'
  | (Failed e, s') => (Failed e, s')
  | (Died, s') => (Died, s')
  end.

Section Operations.
Context {W V E : Type} (happen : V -> W -> W).

Definition ofail {A} (e : E) : op W V E A := fun s => (Failed e, s).
Definition oget {A} (f : W -> A) : op W V E A := fun s => (Done (f s.1), s).
Definition omod (f : W -> W) : op W V E unit := fun s => (Done tt, (f s.1, s.2)).

(** A computation that looks at the whole state. *)
Definition direct {A} (c : W * list (fate V) -> result E A * (W * list (fate V))) : op W V E A := c.

(** A function of Go whose error the caller looks at. *)
Definition try {A} (c : op W V E A) : op W V E (E + A) := fun s =>
  match c s with
  | (Done a, s') => (Done (inr a), s')
  | (Failed e, s') => (Done (inl e), s')
  | (Died, s') => (Died, s')
  end.

(** The fate of the next call: [true] when it fails. *)
Fixpoint takeFate (w : W) (l : list (fate V)) : result E bool * (W * list (fate V)) :=
  match l with
  | [] => (Done false, (w, []))
  | Works :: rest => (Done false, (w, rest))
  | Fails :: rest => (Done true, (w, rest))
  | Dies :: rest => (Died, (w, rest))
  | Before v :: rest => takeFate (happen v w) rest
  end.

Definition nextFate : op W V E bool := fun s => takeFate s.1 s.2.

(** A deferred function runs on success and on error. *)
Definition finally {A} (c : op W V E A) (after : op W V E unit) : op W V E A :=
  try c ≫= fun r => after ≫= fun _ => match r with inr a => mret a | inl e => ofail e end.

(** ** Rules *)

(** The fates that are considered. *)
Context (ok : fate V -> Prop).

(** What others may do. *)
Definition meanwhile : relation W := rtc (fun w w' => exists v, ok (Before v) /\ w' = happen v w).

(** [Q] for a value, [R] for an error, [X] when the process dies. *)
Definition owp {A} (c : op W V E A) (Q : A -> W -> Prop) (R : E -> W -> Prop) (X : W -> Prop) (w : W) : Prop :=
  forall l, Forall ok l ->
  match c (w, l) with
  | (Done a, (w', l')) => Forall ok l' /\ Q a w'
  | (Failed e, (w', l')) => Forall ok l' /\ R e w'
  | (Died, (w', _)) => X w'
  end.

Lemma owp_ret {A} (a : A) (Q : A -> W -> Prop) R X w : Q a w -> owp (mret a) Q R X w.
Proof. by intros H l. Qed.

Lemma owp_fail {A} (e : E) (Q : A -> W -> Prop) R (X : W -> Prop) w : R e w -> owp (ofail e) Q R X w.
Proof. by intros H l. Qed.

Lemma owp_get {A} (f : W -> A) (Q : A -> W -> Prop) R (X : W -> Prop) w : Q (f w) w -> owp (oget f) Q R X w.
Proof. by intros H l. Qed.

Lemma owp_mod (f : W -> W) (Q : unit -> W -> Prop) R (X : W -> Prop) w : Q tt (f w) -> owp (omod f) Q R X w.
Proof. by intros H l. Qed.

Lemma owp_bind {A B} (c : op W V E A) (k : A -> op W V E B) Q R X w :
  owp c (fun a => owp (k a) Q R X) R X w -> owp (c ≫= k) Q R X w.
Proof.
  intros H l Hl. specialize (H l Hl). unfold mbind, op_bind.
  destruct (c (w, l)) as [[a|e|] [w' l']]; [destruct H as [Hl' H]; by apply H|done..].
Qed.

Lemma owp_try {A} (c : op W V E A) (Q : E + A -> W -> Prop) R X w :
  owp c (fun a => Q (inr a)) (fun e => Q (inl e)) X w -> owp (try c) Q R X w.
Proof. intros H l Hl. specialize (H l Hl). unfold try. by destruct (c (w, l)) as [[a|e|] [w' l']]. Qed.

Lemma owp_mono {A} (c : op W V E A) (Q Q' : A -> W -> Prop) (R R' : E -> W -> Prop) (X X' : W -> Prop) w :
  owp c Q R X w -> (forall a w', Q a w' -> Q' a w') -> (forall e w', R e w' -> R' e w') -> (forall w', X w' -> X' w') ->
  owp c Q' R' X' w.
Proof. intros H HQ HR HX l Hl. specialize (H l Hl). destruct (c (w, l)) as [[a|e|] [w1 l1]]; [destruct H as [Hl1 H]; split; by auto..|by auto]. Qed.

Lemma owp_and {A} (c : op W V E A) (Q Q' : A -> W -> Prop) (R R' : E -> W -> Prop) (X X' : W -> Prop) w :
  owp c Q R X w -> owp c Q' R' X' w ->
  owp c (fun a w => Q a w /\ Q' a w) (fun e w => R e w /\ R' e w) (fun w => X w /\ X' w) w.
Proof.
  intros H1 H2 l Hl. specialize (H1 l Hl). specialize (H2 l Hl). destruct (c (w, l)) as [[a|e|] [w1 l1]]; [|by destruct H1, H2|done].
  destruct H1, H2. by split_and!.
Qed.

Lemma owp_fate (Q : bool -> W -> Prop) R (X : W -> Prop) w :
  (forall w', meanwhile w w' -> Q false w' /\ (ok Fails -> Q true w') /\ (ok Dies -> X w')) -> owp nextFate Q R X w.
Proof.
  intros H l Hl. unfold nextFate. cbn [fst snd]. revert w H. induction Hl as [|f l Hf Hl IH]; intros w H.
  { split; [constructor|]. by apply H, rtc_refl. }
  destruct f as [| | |v]; cbn [takeFate].
  1,2: split; [done|]; by apply H; [apply rtc_refl|..].
  - by apply H; [apply rtc_refl|].
  - apply IH. intros w' Hw. apply H. eapply rtc_l; [by exists v|done].
Qed.

Lemma owp_finally {A} (c : op W V E A) after Q R X w :
  owp c (fun a => owp after (fun _ => Q a) R X) (fun e => owp after (fun _ => R e) R X) X w ->
  owp (finally c after) Q R X w.
Proof.
  intros H. unfold finally. apply owp_bind, owp_try. eapply owp_mono; [exact H|..]; cbn; [..|done]; intros r w' Hw;
    (apply owp_bind; eapply owp_mono; [exact Hw|..]; cbn; auto using owp_ret, owp_fail).
Qed.

(** Facts that events do not change. *)
Definition stable (I : W -> Prop) : Prop := forall v w, ok (Before v) -> I w -> I (happen v w).

Lemma meanwhile_stable (I : W -> Prop) w w' : stable I -> meanwhile w w' -> I w -> I w'.
Proof. intros Hs. induction 1 as [|w w1 w2 (v & Hv & ->) _ IH]; auto. Qed.

(** An invariant that every call keeps. *)
Definition keeps {A} (I : W -> Prop) (c : op W V E A) : Prop :=
  forall w, I w -> owp c (fun _ => I) (fun _ => I) I w.

Section Keeps.
Context (I : W -> Prop).

Lemma keeps_ret {A} (a : A) : keeps I (mret a).
Proof. intros w Hw. by apply owp_ret. Qed.
Lemma keeps_fail {A} (e : E) : keeps I (ofail (A := A) e).
Proof. intros w Hw. by apply owp_fail. Qed.
Lemma keeps_get {A} (f : W -> A) : keeps I (oget f).
Proof. intros w Hw. by apply owp_get. Qed.
Lemma keeps_mod (f : W -> W) : (forall w, I w -> I (f w)) -> keeps I (omod f).
Proof. intros Hf w Hw. by apply owp_mod, Hf. Qed.
Lemma keeps_bind {A B} (c : op W V E A) (k : A -> op W V E B) : keeps I c -> (forall a, keeps I (k a)) -> keeps I (c ≫= k).
Proof. intros Hc Hk w Hw. apply owp_bind. eapply owp_mono; [by apply Hc|..]; cbn; auto. Qed.
Lemma keeps_try {A} (c : op W V E A) : keeps I c -> keeps I (try c).
Proof. intros Hc w Hw. apply owp_try. by apply Hc. Qed.
Lemma keeps_fate : stable I -> keeps I nextFate.
Proof. intros Hs w Hw. apply owp_fate. intros w' Hm. pose proof (meanwhile_stable _ _ _ Hs Hm Hw). auto. Qed.
End Keeps.

(** A run of a computation. *)
Lemma owp_run {A} (c : op W V E A) Q R X w l r w' l' : owp c Q R X w -> Forall ok l -> c (w, l) = (r, (w', l')) ->
  match r with Done a => Q a w' | Failed e => R e w' | Died => X w' end.
Proof. intros H Hl Hc. specialize (H l Hl). rewrite Hc in H. by destruct r as [a|e|]; [destruct H..|]. Qed.
End Operations.

(** All fates, and those without a fault. *)
Definition anyFate {V} (f : fate V) : Prop := True.
Definition calm {V} (f : fate V) : Prop := match f with Fails | Dies => False | _ => True end.

Lemma anyFate_all {V} (l : list (fate V)) : Forall anyFate l.
Proof. by apply Forall_true. Qed.
