(* ===== verification/ImportStore.v ===== *)
(** * The tables of managed imports ([internal/store/store_import.go], [store_import_transform.go])

    Import jobs, their events, the managed databases and the services that are
    published from them, with every statement on them. The state of the importer holds
    these tables together with the files of its two directories; a path is the list of
    its components. *)

From stdpp Require Import sorting.
From S2P Require Import Prelude ImportPlan.

Definition path : Type := list string.

Inductive ImportStatus : Type :=
| ImportQueued | ImportRunning | ImportAwaitingPlan | ImportReadyToPublish | ImportPublishing | ImportPublished
| ImportCancelling | ImportCancelled | ImportFailed | ImportRollingBack | ImportRolledBack.
#[export] Instance ImportStatus_eq : EqDecision ImportStatus. Proof. solve_decision. Defined.

Inductive ImportPhase : Type :=
| ImportPhaseAcquire | ImportPhaseDiscover | ImportPhaseValidate | ImportPhaseTransform | ImportPhasePreview
| ImportPhasePublish | ImportPhaseRollback.
#[export] Instance ImportPhase_eq : EqDecision ImportPhase. Proof. solve_decision. Defined.

Record ImportJob : Type := mkJob {
  ID : string; WorkspaceID : string; Name : string; SourceKind : string; SourceLocator : string; SourcePath : string;
  SourceRelativePath : string; SourceFilename : string; Status : ImportStatus; Phase : ImportPhase; Plan : option ImportPlan;
  Discovery : option (list ImportDiscoveredLayer); ServiceID : string; ManagedPath : path; RollbackOperationID : string;
  ProcessedBytes : Z; ProcessedFeatures : Z; ProcessedLayers : Z; TotalLayers : Z; RetryCount : Z; CancelRequested : bool;
  ErrorMessage : string; CreatedBy : string; CreatedAt : Z; StartedAt : option Z; CompletedAt : option Z; UpdatedAt : Z }.

(** Fields that are absent stay as they are. *)
Record ImportJobUpdate : Type := mkUpdate {
  uSourcePath : option string; uSourceRelativePath : option string; uStatus : option ImportStatus; uPhase : option ImportPhase;
  uPlan : option ImportPlan; uDiscovery : option (list ImportDiscoveredLayer); uServiceID : option string; uManagedPath : option
  path; uRollbackOperationID : option string; uProcessedBytes : option Z; uProcessedFeatures : option Z; uProcessedLayers : option
  Z; uTotalLayers : option Z; uRetryCount : option Z; uCancelRequested : option bool; uErrorMessage : option string; uStartedAt :
  option Z; uCompletedAt : option Z; uClearCompletedAt : bool }.

Definition noUpdate : ImportJobUpdate :=
  mkUpdate None None None None None None None None None None None None None None None None None None false.

Definition withSourcePath (v : string) (u : ImportJobUpdate) : ImportJobUpdate :=
  mkUpdate (Some v) (uSourceRelativePath u) (uStatus u) (uPhase u) (uPlan u) (uDiscovery u) (uServiceID u) (uManagedPath u)
    (uRollbackOperationID u) (uProcessedBytes u) (uProcessedFeatures u) (uProcessedLayers u) (uTotalLayers u) (uRetryCount u)
    (uCancelRequested u) (uErrorMessage u) (uStartedAt u) (uCompletedAt u) (uClearCompletedAt u).
Definition withSourceRelativePath (v : string) (u : ImportJobUpdate) : ImportJobUpdate :=
  mkUpdate (uSourcePath u) (Some v) (uStatus u) (uPhase u) (uPlan u) (uDiscovery u) (uServiceID u) (uManagedPath u)
    (uRollbackOperationID u) (uProcessedBytes u) (uProcessedFeatures u) (uProcessedLayers u) (uTotalLayers u) (uRetryCount u)
    (uCancelRequested u) (uErrorMessage u) (uStartedAt u) (uCompletedAt u) (uClearCompletedAt u).
Definition withStatus (v : ImportStatus) (u : ImportJobUpdate) : ImportJobUpdate :=
  mkUpdate (uSourcePath u) (uSourceRelativePath u) (Some v) (uPhase u) (uPlan u) (uDiscovery u) (uServiceID u) (uManagedPath u)
    (uRollbackOperationID u) (uProcessedBytes u) (uProcessedFeatures u) (uProcessedLayers u) (uTotalLayers u) (uRetryCount u)
    (uCancelRequested u) (uErrorMessage u) (uStartedAt u) (uCompletedAt u) (uClearCompletedAt u).
Definition withPhase (v : ImportPhase) (u : ImportJobUpdate) : ImportJobUpdate :=
  mkUpdate (uSourcePath u) (uSourceRelativePath u) (uStatus u) (Some v) (uPlan u) (uDiscovery u) (uServiceID u) (uManagedPath u)
    (uRollbackOperationID u) (uProcessedBytes u) (uProcessedFeatures u) (uProcessedLayers u) (uTotalLayers u) (uRetryCount u)
    (uCancelRequested u) (uErrorMessage u) (uStartedAt u) (uCompletedAt u) (uClearCompletedAt u).
Definition withPlan (v : ImportPlan) (u : ImportJobUpdate) : ImportJobUpdate :=
  mkUpdate (uSourcePath u) (uSourceRelativePath u) (uStatus u) (uPhase u) (Some v) (uDiscovery u) (uServiceID u) (uManagedPath u)
    (uRollbackOperationID u) (uProcessedBytes u) (uProcessedFeatures u) (uProcessedLayers u) (uTotalLayers u) (uRetryCount u)
    (uCancelRequested u) (uErrorMessage u) (uStartedAt u) (uCompletedAt u) (uClearCompletedAt u).
Definition withDiscovery (v : list ImportDiscoveredLayer) (u : ImportJobUpdate) : ImportJobUpdate :=
  mkUpdate (uSourcePath u) (uSourceRelativePath u) (uStatus u) (uPhase u) (uPlan u) (Some v) (uServiceID u) (uManagedPath u)
    (uRollbackOperationID u) (uProcessedBytes u) (uProcessedFeatures u) (uProcessedLayers u) (uTotalLayers u) (uRetryCount u)
    (uCancelRequested u) (uErrorMessage u) (uStartedAt u) (uCompletedAt u) (uClearCompletedAt u).
Definition withServiceID (v : string) (u : ImportJobUpdate) : ImportJobUpdate :=
  mkUpdate (uSourcePath u) (uSourceRelativePath u) (uStatus u) (uPhase u) (uPlan u) (uDiscovery u) (Some v) (uManagedPath u)
    (uRollbackOperationID u) (uProcessedBytes u) (uProcessedFeatures u) (uProcessedLayers u) (uTotalLayers u) (uRetryCount u)
    (uCancelRequested u) (uErrorMessage u) (uStartedAt u) (uCompletedAt u) (uClearCompletedAt u).
Definition withManagedPath (v : path) (u : ImportJobUpdate) : ImportJobUpdate :=
  mkUpdate (uSourcePath u) (uSourceRelativePath u) (uStatus u) (uPhase u) (uPlan u) (uDiscovery u) (uServiceID u) (Some v)
    (uRollbackOperationID u) (uProcessedBytes u) (uProcessedFeatures u) (uProcessedLayers u) (uTotalLayers u) (uRetryCount u)
    (uCancelRequested u) (uErrorMessage u) (uStartedAt u) (uCompletedAt u) (uClearCompletedAt u).
Definition withRollbackOperationID (v : string) (u : ImportJobUpdate) : ImportJobUpdate :=
  mkUpdate (uSourcePath u) (uSourceRelativePath u) (uStatus u) (uPhase u) (uPlan u) (uDiscovery u) (uServiceID u) (uManagedPath u)
    (Some v) (uProcessedBytes u) (uProcessedFeatures u) (uProcessedLayers u) (uTotalLayers u) (uRetryCount u) (uCancelRequested u)
    (uErrorMessage u) (uStartedAt u) (uCompletedAt u) (uClearCompletedAt u).
Definition withProcessedBytes (v : Z) (u : ImportJobUpdate) : ImportJobUpdate :=
  mkUpdate (uSourcePath u) (uSourceRelativePath u) (uStatus u) (uPhase u) (uPlan u) (uDiscovery u) (uServiceID u) (uManagedPath u)
    (uRollbackOperationID u) (Some v) (uProcessedFeatures u) (uProcessedLayers u) (uTotalLayers u) (uRetryCount u)
    (uCancelRequested u) (uErrorMessage u) (uStartedAt u) (uCompletedAt u) (uClearCompletedAt u).
Definition withProcessedFeatures (v : Z) (u : ImportJobUpdate) : ImportJobUpdate :=
  mkUpdate (uSourcePath u) (uSourceRelativePath u) (uStatus u) (uPhase u) (uPlan u) (uDiscovery u) (uServiceID u) (uManagedPath u)
    (uRollbackOperationID u) (uProcessedBytes u) (Some v) (uProcessedLayers u) (uTotalLayers u) (uRetryCount u) (uCancelRequested
    u) (uErrorMessage u) (uStartedAt u) (uCompletedAt u) (uClearCompletedAt u).
Definition withProcessedLayers (v : Z) (u : ImportJobUpdate) : ImportJobUpdate :=
  mkUpdate (uSourcePath u) (uSourceRelativePath u) (uStatus u) (uPhase u) (uPlan u) (uDiscovery u) (uServiceID u) (uManagedPath u)
    (uRollbackOperationID u) (uProcessedBytes u) (uProcessedFeatures u) (Some v) (uTotalLayers u) (uRetryCount u)
    (uCancelRequested u) (uErrorMessage u) (uStartedAt u) (uCompletedAt u) (uClearCompletedAt u).
Definition withTotalLayers (v : Z) (u : ImportJobUpdate) : ImportJobUpdate :=
  mkUpdate (uSourcePath u) (uSourceRelativePath u) (uStatus u) (uPhase u) (uPlan u) (uDiscovery u) (uServiceID u) (uManagedPath u)
    (uRollbackOperationID u) (uProcessedBytes u) (uProcessedFeatures u) (uProcessedLayers u) (Some v) (uRetryCount u)
    (uCancelRequested u) (uErrorMessage u) (uStartedAt u) (uCompletedAt u) (uClearCompletedAt u).
Definition withRetryCount (v : Z) (u : ImportJobUpdate) : ImportJobUpdate :=
  mkUpdate (uSourcePath u) (uSourceRelativePath u) (uStatus u) (uPhase u) (uPlan u) (uDiscovery u) (uServiceID u) (uManagedPath u)
    (uRollbackOperationID u) (uProcessedBytes u) (uProcessedFeatures u) (uProcessedLayers u) (uTotalLayers u) (Some v)
    (uCancelRequested u) (uErrorMessage u) (uStartedAt u) (uCompletedAt u) (uClearCompletedAt u).
Definition withCancelRequested (v : bool) (u : ImportJobUpdate) : ImportJobUpdate :=
  mkUpdate (uSourcePath u) (uSourceRelativePath u) (uStatus u) (uPhase u) (uPlan u) (uDiscovery u) (uServiceID u) (uManagedPath u)
    (uRollbackOperationID u) (uProcessedBytes u) (uProcessedFeatures u) (uProcessedLayers u) (uTotalLayers u) (uRetryCount u)
    (Some v) (uErrorMessage u) (uStartedAt u) (uCompletedAt u) (uClearCompletedAt u).
Definition withErrorMessage (v : string) (u : ImportJobUpdate) : ImportJobUpdate :=
  mkUpdate (uSourcePath u) (uSourceRelativePath u) (uStatus u) (uPhase u) (uPlan u) (uDiscovery u) (uServiceID u) (uManagedPath u)
    (uRollbackOperationID u) (uProcessedBytes u) (uProcessedFeatures u) (uProcessedLayers u) (uTotalLayers u) (uRetryCount u)
    (uCancelRequested u) (Some v) (uStartedAt u) (uCompletedAt u) (uClearCompletedAt u).
Definition withStartedAt (v : Z) (u : ImportJobUpdate) : ImportJobUpdate :=
  mkUpdate (uSourcePath u) (uSourceRelativePath u) (uStatus u) (uPhase u) (uPlan u) (uDiscovery u) (uServiceID u) (uManagedPath u)
    (uRollbackOperationID u) (uProcessedBytes u) (uProcessedFeatures u) (uProcessedLayers u) (uTotalLayers u) (uRetryCount u)
    (uCancelRequested u) (uErrorMessage u) (Some v) (uCompletedAt u) (uClearCompletedAt u).
Definition withCompletedAt (v : Z) (u : ImportJobUpdate) : ImportJobUpdate :=
  mkUpdate (uSourcePath u) (uSourceRelativePath u) (uStatus u) (uPhase u) (uPlan u) (uDiscovery u) (uServiceID u) (uManagedPath u)
    (uRollbackOperationID u) (uProcessedBytes u) (uProcessedFeatures u) (uProcessedLayers u) (uTotalLayers u) (uRetryCount u)
    (uCancelRequested u) (uErrorMessage u) (uStartedAt u) (Some v) (uClearCompletedAt u).
Definition clearingCompletedAt (u : ImportJobUpdate) : ImportJobUpdate :=
  mkUpdate (uSourcePath u) (uSourceRelativePath u) (uStatus u) (uPhase u) (uPlan u) (uDiscovery u) (uServiceID u) (uManagedPath u)
    (uRollbackOperationID u) (uProcessedBytes u) (uProcessedFeatures u) (uProcessedLayers u) (uTotalLayers u) (uRetryCount u)
    (uCancelRequested u) (uErrorMessage u) (uStartedAt u) (uCompletedAt u) true.

Definition orOld {A} (new old : option A) : option A := match new with Some _ => new | None => old end.

Definition applyUpdate (now : Z) (u : ImportJobUpdate) (job : ImportJob) : ImportJob :=
  mkJob (ID job) (WorkspaceID job) (Name job) (SourceKind job) (SourceLocator job) (default (SourcePath job) (uSourcePath u))
    (default (SourceRelativePath job) (uSourceRelativePath u)) (SourceFilename job) (default (Status job) (uStatus u)) (default
    (Phase job) (uPhase u)) (orOld (uPlan u) (Plan job)) (orOld (uDiscovery u) (Discovery job)) (default (ServiceID job)
    (uServiceID u)) (default (ManagedPath job) (uManagedPath u)) (default (RollbackOperationID job) (uRollbackOperationID u))
    (default (ProcessedBytes job) (uProcessedBytes u)) (default (ProcessedFeatures job) (uProcessedFeatures u)) (default
    (ProcessedLayers job) (uProcessedLayers u)) (default (TotalLayers job) (uTotalLayers u)) (default (RetryCount job)
    (uRetryCount u)) (default (CancelRequested job) (uCancelRequested u)) (default (ErrorMessage job) (uErrorMessage u))
    (CreatedBy job) (CreatedAt job) (orOld (uStartedAt u) (StartedAt job)) (if uClearCompletedAt u then None else orOld
    (uCompletedAt u) (CompletedAt job)) now.

(** A snapshot of a job. *)
Record ImportJobEvent : Type := mkEvent {
  evImport : string; evWorkspace : string; evStatus : ImportStatus; evPhase : ImportPhase; evError : string; evBytes : Z;
  evFeatures : Z; evLayers : Z; evCreated : Z }.

Record ManagedAsset : Type := mkAsset {
  assetImport : string; assetWorkspace : string; assetService : string; assetPath : path; EncryptionKey : string; assetCreated : Z }.

Record LayerRow : Type := mkLayerRow {
  layerSource : string; layerPublicID : string; layerTitle : string; layerDescription : string; layerEnabled : bool;
  crsDefault : Z; layerPublic : bool; layerRoles : list string }.

(** A service of the type DuckDB, by the import whose database it opens. *)
Record ServiceRow : Type := mkServiceRow {
  svcWorkspace : string; svcName : string; managedImportID : string; svcLayers : list LayerRow }.

(** What the rollback coordinator tells of a deletion. *)
Inductive DeletionStatus : Type := DeletionRunning | DeletionCompleted | DeletionFailed (lastError : string).
Record Deletion : Type := mkDeletion { deletedService : string; deletionStatus : DeletionStatus }.

(** [gone]: the context of the operation that runs is done. *)
Record imports : Type := mkImports {
  import_jobs : gmap string ImportJob; import_job_events : list ImportJobEvent; managed_assets : gmap string ManagedAsset;
  services : gmap string ServiceRow; capabilitiesRevision : gmap string Z; files : gmap path Z; dirs : gset path; active : gset
  string; deletions : gmap string Deletion; gone : bool }.

Definition set_import_jobs (v : gmap string ImportJob) (w : imports) : imports :=
  mkImports v (import_job_events w) (managed_assets w) (services w) (capabilitiesRevision w) (files w) (dirs w) (active w)
    (deletions w) (gone w).
Definition set_import_job_events (v : list ImportJobEvent) (w : imports) : imports :=
  mkImports (import_jobs w) v (managed_assets w) (services w) (capabilitiesRevision w) (files w) (dirs w) (active w) (deletions w)
    (gone w).
Definition set_managed_assets (v : gmap string ManagedAsset) (w : imports) : imports :=
  mkImports (import_jobs w) (import_job_events w) v (services w) (capabilitiesRevision w) (files w) (dirs w) (active w) (deletions
    w) (gone w).
Definition set_services (v : gmap string ServiceRow) (w : imports) : imports :=
  mkImports (import_jobs w) (import_job_events w) (managed_assets w) v (capabilitiesRevision w) (files w) (dirs w) (active w)
    (deletions w) (gone w).
Definition set_capabilitiesRevision (v : gmap string Z) (w : imports) : imports :=
  mkImports (import_jobs w) (import_job_events w) (managed_assets w) (services w) v (files w) (dirs w) (active w) (deletions w)
    (gone w).
Definition set_files (v : gmap path Z) (w : imports) : imports :=
  mkImports (import_jobs w) (import_job_events w) (managed_assets w) (services w) (capabilitiesRevision w) v (dirs w) (active w)
    (deletions w) (gone w).
Definition set_dirs (v : gset path) (w : imports) : imports :=
  mkImports (import_jobs w) (import_job_events w) (managed_assets w) (services w) (capabilitiesRevision w) (files w) v (active w)
    (deletions w) (gone w).
Definition set_active (v : gset string) (w : imports) : imports :=
  mkImports (import_jobs w) (import_job_events w) (managed_assets w) (services w) (capabilitiesRevision w) (files w) (dirs w) v
    (deletions w) (gone w).
Definition set_deletions (v : gmap string Deletion) (w : imports) : imports :=
  mkImports (import_jobs w) (import_job_events w) (managed_assets w) (services w) (capabilitiesRevision w) (files w) (dirs w)
    (active w) v (gone w).
Definition set_gone (v : bool) (w : imports) : imports :=
  mkImports (import_jobs w) (import_job_events w) (managed_assets w) (services w) (capabilitiesRevision w) (files w) (dirs w)
    (active w) (deletions w) v.

Inductive importError : Type :=
| ErrCanceled
| ErrNotFound
| ErrDuplicateKey
| ErrStore
| ErrFile
| ErrSource
| ErrWorkspaceNotFound
| ErrNoLongerAccepting
| InvalidPlan (e : planError)
| Refused (message : string).

(** A statement or transaction: its result and the new tables. *)
Definition statement (A : Type) : Type := imports -> (importError + A) * imports.

(** ** Jobs *)

Definition eventOf (now : Z) (job : ImportJob) : ImportJobEvent :=
  mkEvent (ID job) (WorkspaceID job) (Status job) (Phase job) (ErrorMessage job) (ProcessedBytes job) (ProcessedFeatures job)
    (ProcessedLayers job) now.

Definition insertImportEvent (now : Z) (job : ImportJob) (w : imports) : imports :=
  set_import_job_events (import_job_events w ++ [eventOf now job]) w.

Definition storeJob (job : ImportJob) (w : imports) : imports := set_import_jobs (<[ID job := job]> (import_jobs w)) w.

Record CreateImportJobInput : Type := mkInput {
  inWorkspace : string; inName : string; inKind : string; inLocator : string; inPath : string; inFilename : string;
  inCreatedBy : string; inRelativePath : string }.

Definition newJob (now : Z) (id : string) (input : CreateImportJobInput) : ImportJob :=
  mkJob id (inWorkspace input) (inName input) (inKind input) (inLocator input) (inPath input) (inRelativePath input)
    (inFilename input) ImportQueued ImportPhaseAcquire None None "" [] "" 0 0 0 0 0 false "" (inCreatedBy input) now None None now.

(** The identifier is a new UUID. *)
Definition CreateImportJob (now : Z) (id : string) (input : CreateImportJobInput) : statement ImportJob := fun w =>
  match import_jobs w !! id with
  | Some _ => (inl ErrStore, w)
  | None => let job := newJob now id input in (inr job, insertImportEvent now job (storeJob job w))
  end.

Definition GetImportJob (id : string) : statement ImportJob := fun w =>
  match import_jobs w !! id with Some job => (inr job, w) | None => (inl ErrNotFound, w) end.

Definition olderJob (a b : ImportJob) : Prop := CreatedAt a <= CreatedAt b.
#[export] Instance olderJob_dec : RelDecision olderJob. Proof. intros a b. unfold olderJob. apply _. Defined.

Definition jobsWith (f : ImportJob -> bool) (w : imports) : list ImportJob :=
  merge_sort olderJob (List.filter f ((map_to_list (import_jobs w)).*2)).

Definition ListRunnableImportJobs : statement (list ImportJob) := fun w =>
  (inr (take 100 (jobsWith (fun j => bool_decide (Status j = ImportQueued)) w)), w).

Definition interrupted (j : ImportJob) : bool :=
  match Status j with
  | ImportPublishing | ImportPublished | ImportRollingBack | ImportCancelling | ImportCancelled => true
  | _ => false
  end.

Definition ListInterruptedImportJobs : statement (list ImportJob) := fun w => (inr (jobsWith interrupted w), w).

(** Warnings of a discovery are never set, so they do not differ. *)
Definition sameEvent (a b : ImportJob) : bool :=
  bool_decide (Status a = Status b) && bool_decide (Phase a = Phase b) && String.eqb (ErrorMessage a) (ErrorMessage b).

Definition UpdateImportJob (now : Z) (id : string) (u : ImportJobUpdate) : statement ImportJob := fun w =>
  match import_jobs w !! id with
  | None => (inl ErrNotFound, w)
  | Some old =>
      if CancelRequested old
         && match uStatus u with None | Some ImportCancelled | Some ImportCancelling => false | Some _ => true end
      then (inl ErrCanceled, w)
      else let job := applyUpdate now u old in
           (inr job, if sameEvent old job then storeJob job w else insertImportEvent now job (storeJob job w))
  end.

Definition cancellable (s : ImportStatus) : bool :=
  match s with
  | ImportQueued | ImportRunning | ImportCancelling | ImportAwaitingPlan | ImportReadyToPublish | ImportFailed | ImportCancelled => true
  | _ => false
  end.

Definition cancelUpdate : ImportJobUpdate := clearingCompletedAt (withCancelRequested true (withStatus ImportCancelling noUpdate)).

Definition RequestImportCancel (now : Z) (id : string) : statement unit := fun w =>
  match import_jobs w !! id with
  | Some old =>
      if cancellable (Status old)
      then let job := applyUpdate now cancelUpdate old in (inr tt, insertImportEvent now job (storeJob job w))
      else (inl ErrNotFound, w)
  | None => (inl ErrNotFound, w)
  end.

Definition resetJob (now : Z) (j : ImportJob) : ImportJob :=
  match Status j with
  | ImportRunning =>
      applyUpdate now (withStatus (if CancelRequested j then ImportCancelling else ImportQueued)
                         (withErrorMessage (if String.eqb (ErrorMessage j) "" then "resumed after restart" else ErrorMessage j) noUpdate)) j
  | _ => j
  end.

Definition ResetInterruptedImportJobs (now : Z) : statement unit := fun w =>
  (inr tt, set_import_jobs (resetJob now <$> import_jobs w) w).

(** ** Managed databases *)

Definition GetManagedAssetByImport (id : string) : statement ManagedAsset := fun w =>
  match managed_assets w !! id with Some a => (inr a, w) | None => (inl ErrNotFound, w) end.

Definition assetBefore (a b : ManagedAsset) : Prop :=
  assetCreated a < assetCreated b \/ assetCreated a = assetCreated b /\ String.leb (assetImport a) (assetImport b) = true.
#[export] Instance assetBefore_dec : RelDecision assetBefore. Proof. intros a b. unfold assetBefore. apply _. Defined.

Definition ListManagedAssets : statement (list ManagedAsset) := fun w =>
  (inr (merge_sort assetBefore ((map_to_list (managed_assets w)).*2)), w).

(** The unique columns of the table. *)
Definition pathTaken (id : string) (p : path) (w : imports) : bool :=
  existsb (fun kv => negb (String.eqb kv.1 id) && bool_decide (assetPath kv.2 = p)) (map_to_list (managed_assets w)).

Definition storeAsset (a : ManagedAsset) (w : imports) : imports := set_managed_assets (<[assetImport a := a]> (managed_assets w)) w.

(** [ON CONFLICT(import_id) DO UPDATE SET path, encryption_key]. *)
Definition upsertAsset (now : Z) (a : ManagedAsset) (old : option ManagedAsset) : ManagedAsset :=
  match old with
  | Some o => mkAsset (assetImport o) (assetWorkspace o) (assetService o) (assetPath a) (EncryptionKey a) (assetCreated o)
  | None => mkAsset (assetImport a) (assetWorkspace a) "" (assetPath a) (EncryptionKey a) now
  end.

Definition UpsertStagedManagedAsset (now : Z) (a : ManagedAsset) : statement unit := fun w =>
  if pathTaken (assetImport a) (assetPath a) w then (inl ErrStore, w)
  else let created := match managed_assets w !! assetImport a with Some o => assetCreated o | None => now end in
       (inr tt, storeAsset (mkAsset (assetImport a) (assetWorkspace a) "" (assetPath a) (EncryptionKey a) created) w).

Definition acceptsTransform (a : ManagedAsset) (j : ImportJob) : bool :=
  String.eqb (WorkspaceID j) (assetWorkspace a)
  && match Status j with ImportRunning | ImportQueued => true | _ => false end
  && negb (CancelRequested j).

Definition transformedUpdate (p : path) : ImportJobUpdate :=
  clearingCompletedAt (withStatus ImportReadyToPublish (withPhase ImportPhasePreview (withManagedPath p (withErrorMessage "" noUpdate)))).

Definition CompleteImportTransform (now : Z) (a : ManagedAsset) : statement unit := fun w =>
  match import_jobs w !! assetImport a with
  | None => (inl ErrNoLongerAccepting, w)
  | Some j =>
      if negb (acceptsTransform a j) then (inl ErrNoLongerAccepting, w)
      else if pathTaken (assetImport a) (assetPath a) w then (inl ErrStore, w)
      else let job := applyUpdate now (transformedUpdate (assetPath a)) j in
           (inr tt, insertImportEvent now job
                      (storeAsset (upsertAsset now a (managed_assets w !! assetImport a)) (storeJob job w)))
  end.

Definition UpdateManagedAssetPath (now : Z) (id : string) (p : path) : statement unit := fun w =>
  match managed_assets w !! id with
  | None => (inl ErrNotFound, w)
  | Some a =>
      if pathTaken id p w then (inl ErrStore, w)
      else let w := storeAsset (mkAsset (assetImport a) (assetWorkspace a) (assetService a) p (EncryptionKey a) (assetCreated a)) w in
           (inr tt, match import_jobs w !! id with
                    | Some j => storeJob (applyUpdate now (withManagedPath p noUpdate) j) w
                    | None => w
                    end)
  end.

Definition DeleteManagedAsset (id : string) : statement unit := fun w =>
  (inr tt, set_managed_assets (delete id (managed_assets w)) w).

(** ** Publication *)

Record PublishImportInput : Type := mkPublish {
  pubImport : string; pubWorkspace : string; pubPath : path; pubKey : string; pubService : string; pubLayers : list LayerRow }.

Definition nameTaken (workspaceID name : string) (w : imports) : bool :=
  existsb (fun s => String.eqb (svcWorkspace s) workspaceID && String.eqb (svcName s) name) ((map_to_list (services w)).*2).

Definition withDefaultCRS (l : LayerRow) : LayerRow :=
  mkLayerRow (layerSource l) (layerPublicID l) (layerTitle l) (layerDescription l) (layerEnabled l)
    (if crsDefault l =? 0 then 4326 else crsDefault l) (layerPublic l) (layerRoles l).

Definition publishedUpdate (now : Z) (serviceID : string) (p : path) : ImportJobUpdate :=
  withStatus ImportPublished (withPhase ImportPhasePublish (withServiceID serviceID (withManagedPath p
    (withCompletedAt now (withErrorMessage "" noUpdate))))).

(** The identifier of the service is a new UUID. *)
Definition PublishImport (now : Z) (serviceID : string) (input : PublishImportInput) : statement unit := fun w =>
  match import_jobs w !! pubImport input with
  | None => (inl ErrNotFound, w)
  | Some existing =>
      if bool_decide (Status existing = ImportPublished) && negb (String.eqb (ServiceID existing) "")
      then match services w !! ServiceID existing with Some _ => (inr tt, w) | None => (inl ErrNotFound, w) end
      else
        match services w !! serviceID with
        | Some _ => (inl ErrDuplicateKey, w)
        | None =>
            if nameTaken (pubWorkspace input) (pubService input) w then (inl ErrDuplicateKey, w)
            else if negb (bool_decide (NoDup (layerPublicID <$> pubLayers input))) then (inl ErrStore, w)
            else if pathTaken (pubImport input) (pubPath input) w then (inl ErrStore, w)
            else
              let created := match managed_assets w !! pubImport input with Some o => assetCreated o | None => now end in
              let job := applyUpdate now (publishedUpdate now serviceID (pubPath input)) existing in
              let w := set_services (<[serviceID := mkServiceRow (pubWorkspace input) (pubService input) (pubImport input)
                                                       (withDefaultCRS <$> pubLayers input)]> (services w)) w in
              let w := storeAsset (mkAsset (pubImport input) (pubWorkspace input) serviceID (pubPath input) (pubKey input) created) w in
              let w := insertImportEvent now job (storeJob job w) in
              (inr tt, set_capabilitiesRevision (alter (Z.add 1) (pubWorkspace input) (capabilitiesRevision w)) w)
        end
  end.
