(* ===== verification/ImportFiles.v ===== *)
(** * The files of managed imports ([internal/importer/manager.go], [recovery.go])

    Uploads, copies of remote sources and extracted archives below the temporary
    directory, with the byte budget they share; removal of a source. Each call of the
    operating system may fail, and the process may die before it. *)

From stdpp Require Import sorting.
From S2P Require Import Prelude GoText GoPath ImportPlan Faults ImportStore.

(** ** Operations of the importer *)

(** What happens while an operation runs: another goroutine asks to cancel a job that a
    worker processes, which only marks the job; the context of the operation ends. *)
Inductive event : Type := CancelRequest (now : Z) (id : string) | ContextDone.

Definition processed (j : ImportJob) : bool :=
  match Status j with ImportRunning | ImportCancelling => true | _ => false end
  && String.eqb (ServiceID j) "" && negb (bool_decide (Phase j = ImportPhaseRollback)).

Definition happen (v : event) (w : imports) : imports :=
  match v with
  | CancelRequest now id =>
      match import_jobs w !! id with
      | Some j => if processed j then (RequestImportCancel now id w).2 else w
      | None => w
      end
  | ContextDone => set_gone true w
  end.

Abbreviation imp := (op imports event importError).
Definition fateOf : imp bool := nextFate happen.

(** A statement; [bound] when it runs in the context of the operation. *)
Definition db {A} (bound : bool) (c : statement A) : imp A :=
  fateOf ≫= fun f : bool => direct (fun s =>
  if bound && gone s.1 then (Failed ErrCanceled, s)
  else if f then (Failed ErrStore, s)
  else match c s.1 with
       | (inr a, w) => (Done a, (w, s.2))
       | (inl e, w) => (Failed e, (w, s.2))
       end).

(** A call of the operating system: [None] when it reports an error. *)
Definition io (c : imports -> option imports) : imp unit :=
  fateOf ≫= fun f : bool => direct (fun s =>
  if f then (Failed ErrFile, s)
  else match c s.1 with Some w => (Done tt, (w, s.2)) | None => (Failed ErrFile, s) end).

(** [ctx.Err()]. *)
Definition checkContext : imp unit :=
  fateOf ≫= fun _ => oget gone ≫= fun g : bool => if g then ofail ErrCanceled else mret tt.

(** [_ = f()]. *)
Definition ignoring {A} (c : imp A) : imp unit := try c ≫= fun _ => mret tt.

(** ** Paths and files *)

Definition pathString (p : path) : string := joinParts true p.

(** [filepath.Join] to a directory. *)
Definition joinTo (dir : path) (name : string) : path := rev (cleanFold true (rev dir) (Split "/" name)).

Definition below (dir p : path) : bool := bool_decide (dir `prefix_of` p).

Definition ancestors (p : path) : list path := (fun n => take n p) <$> seq 1 (length p).

Definition regularFile (p : path) (w : imports) : bool := bool_decide (is_Some (files w !! p)).

Definition MkdirAll (p : path) (w : imports) : option imports :=
  if existsb (fun a => regularFile a w) (ancestors p) then None
  else Some (set_dirs (list_to_set (ancestors p) ∪ dirs w) w).

Definition RemoveAll (p : path) (w : imports) : option imports :=
  Some (set_dirs (filter (fun d => below p d = false) (dirs w))
          (set_files (filter (fun kv => below p kv.1 = false) (files w)) w)).

(** [os.OpenFile(p, O_CREATE|O_EXCL|O_WRONLY)]. *)
Definition createFile (p : path) (w : imports) : option imports :=
  if regularFile p w || bool_decide (p ∈ dirs w) || negb (bool_decide (removelast p ∈ dirs w)) then None
  else Some (set_files (<[p := 0]> (files w)) w).

Definition writeFile (p : path) (size : Z) (w : imports) : option imports := Some (set_files (<[p := size]> (files w)) w).

(** A directory of the temporary root with a name of its own. *)
Definition MkdirTemp (p : path) (w : imports) : option imports :=
  if regularFile p w || bool_decide (p ∈ dirs w) || negb (bool_decide (removelast p ∈ dirs w)) then None
  else Some (set_dirs ({[p]} ∪ dirs w) w).

Definition removeOwnedFile (p : path) : imp unit :=
  io (fun w => if bool_decide (p ∈ dirs w) then None else Some (set_files (delete p (files w)) w)).

Definition Rename (from to : path) (w : imports) : option imports :=
  match files w !! from with
  | Some size => if bool_decide (to ∈ dirs w) then None else Some (set_files (<[to := size]> (delete from (files w))) w)
  | None => None
  end.

(** ** Configuration *)

Record config : Type := mkConfig {
  Root : path; TemporaryDirectory : path; MaxUploadBytes : Z; MaxRetainedSourceBytes : Z; MaxSourceBytes : Z; MaxExpandedBytes : Z;
  MaxArchiveFiles : Z; MaxLayers : Z; MaxFeatures : Z; MaxRetries : Z }.

(** The sum of a map of sizes. *)
Definition total (m : gmap path Z) : Z := map_fold (fun _ size acc => size + acc) 0 m.

Section Files.
(** The configuration, the working directory, the workspaces that the registry knows. *)
Context (cfg : config) (cwd : string) (registered : string -> bool).

Definition retainedLimit : Z := if MaxRetainedSourceBytes cfg =? 0 then 10 * 2 ^ 30 else MaxRetainedSourceBytes cfg.

Definition usedBytes (w : imports) : Z := total (filter (fun kv => below (TemporaryDirectory cfg) kv.1 = true) (files w)).

Definition remainingSourceBytes : imp Z :=
  io Some ≫= fun _ => oget usedBytes ≫= fun used : Z =>
  if retainedLimit <? used then ofail (Refused "retained import sources exceed the byte budget") else mret (retainedLimit - used).

Definition cleanupTemporarySource (source : string) : imp unit :=
  match Rel (pathString (TemporaryDirectory cfg)) (Abs cwd source) with
  | None => mret tt
  | Some relative =>
      if String.eqb relative "." || String.eqb relative ".." || HasPrefix relative "../" then mret tt
      else let first := default "" (head (Split "/" relative)) in
           if HasPrefix first "upload-" || HasPrefix first "extract-"
           then io (RemoveAll (joinTo (TemporaryDirectory cfg) first)) else mret tt
  end.

(** ** Archives *)

Record zipEntry : Type := mkEntry {
  entryName : string; entryIsDir : bool; UncompressedSize64 : Z;
  (** the bytes that decompression yields *)
  entryBytes : Z }.

Definition unsafePath (clean : string) : bool := String.eqb clean "." || IsAbs clean || HasPrefix clean "../".

Definition maxInt64 : Z := 2 ^ 63 - 1.

(** A copy of at most [limit] of [size] bytes into a file that was just created. *)
Definition copyLimited (p : path) (size limit : Z) : imp Z :=
  let written := Z.max 0 (Z.min size limit) in io (writeFile p written) ≫= fun _ => mret written.

Definition tooLarge : importError := Refused "archive exceeds available retained-source budget or expanded-byte limit".

(** One file of an archive: the bytes written. *)
Definition extractFile (destination : path) (entry : zipEntry) (remaining : Z) : imp Z :=
  if (remaining <? 0) || (remaining <? UncompressedSize64 entry) then ofail tooLarge
  else
    io (MkdirAll (removelast destination)) ≫= fun _ =>
    io Some ≫= fun _ =>
    io (createFile destination) ≫= fun _ =>
    copyLimited destination (entryBytes entry) (if remaining <? maxInt64 then remaining + 1 else remaining) ≫= fun written : Z =>
    if remaining <? written then ofail tooLarge else io Some ≫= fun _ => mret written.

Fixpoint extractEntries (root : path) (expandedLimit expanded : Z) (candidates : list path) (entries : list zipEntry)
    : imp (list path) :=
  match entries with
  | [] => mret candidates
  | entry :: rest =>
      checkContext ≫= fun _ =>
      let clean := Clean (entryName entry) in
      if unsafePath clean then ofail (Refused "archive contains unsafe path")
      else
        let destination := joinTo root clean in
        if entryIsDir entry then
          io (MkdirAll destination) ≫= fun _ => extractEntries root expandedLimit expanded candidates rest
        else
          extractFile destination entry (expandedLimit - expanded) ≫= fun written =>
          extractEntries root expandedLimit (expanded + written)
            (if supportedSource (pathString destination) then candidates ++ [destination] else candidates) rest
  end.

Definition pathBefore (a b : path) : Prop := String.leb (pathString a) (pathString b) = true.
#[export] Instance pathBefore_dec : RelDecision pathBefore. Proof. intros a b. unfold pathBefore. apply _. Defined.

Definition chooseCandidate (candidates : list path) : importError + path :=
  let candidates := merge_sort pathBefore candidates in
  match List.find (fun c => EqualFold (Ext (pathString c)) ".shp") candidates with
  | Some c => inr c
  | None =>
      match candidates with
      | [c] => inr c
      | [] => inl (Refused "archive contains no supported vector source")
      | _ => inl (Refused "archive contains multiple vector sources; package one dataset per upload")
      end
  end.

Definition extractRoot (jobID : string) : path := TemporaryDirectory cfg ++ ["extract-" +:+ jobID].

(** On an error the deferred function removes what was extracted. *)
Definition cleaningUp {A} (dir : path) (c : imp A) : imp A :=
  try c ≫= fun r => match r with
                    | inr a => mret a
                    | inl e => ignoring (io (RemoveAll dir)) ≫= fun _ => ofail e
                    end.

Definition extractArchive (jobID : string) (entries : list zipEntry) : imp path :=
  io Some ≫= fun _ =>
  if MaxArchiveFiles cfg <? Z.of_nat (length entries) then ofail (Refused "archive exceeds file limit")
  else
    let root := extractRoot jobID in
    ignoring (io (RemoveAll root)) ≫= fun _ =>
    io (MkdirAll root) ≫= fun _ =>
    cleaningUp root (
      remainingSourceBytes ≫= fun remaining =>
      extractEntries root (Z.min (MaxExpandedBytes cfg) remaining) 0 [] entries ≫= fun candidates =>
      match chooseCandidate candidates with inr c => mret c | inl e => ofail e end).

(** ** Uploads and remote sources *)

Definition int64 (z : Z) : Z := (z + 2 ^ 63) mod 2 ^ 64 - 2 ^ 63.

Definition acceptedFile (filename : string) : bool := supportedSource filename || EqualFold (Ext filename) ".zip".

(** The directory has a random [suffix], the body has [size] bytes,
    and the job gets the identifier [id]. *)
Definition CreateUpload (now : Z) (suffix id workspaceID name filename createdBy : string) (size : Z) : imp ImportJob :=
  if negb (registered workspaceID) then ofail ErrWorkspaceNotFound
  else
  let filename := Base (TrimUnicode filename) in
  if String.eqb filename "." || String.eqb filename "" then ofail (Refused "filename is required")
  else if negb (acceptedFile filename) then ofail (Refused "unsupported vector import format")
  else
    let directory := "upload-" +:+ suffix in
    let jobDir := TemporaryDirectory cfg ++ [directory] in
    io (MkdirTemp jobDir) ≫= fun _ =>
    cleaningUp jobDir (
      io Some ≫= fun _ =>
      let file := joinTo jobDir filename in
      io (createFile file) ≫= fun _ =>
      remainingSourceBytes ≫= fun remaining =>
      let limit := Z.min (MaxUploadBytes cfg) remaining in
      copyLimited file size (int64 (limit + 1)) ≫= fun written : Z =>
      io Some ≫= fun _ =>
      if limit <? written then ofail (Refused "upload exceeds available retained-source budget or upload limit")
      else
        db true (CreateImportJob now id
          (mkInput workspaceID (if String.eqb name "" then sourceBaseName filename else name) "upload" filename (pathString file)
             filename createdBy (directory +:+ "/" +:+ filename)))).

Definition copyFile (destination : path) (size : Z) : imp unit :=
  io (createFile destination) ≫= fun _ => io (writeFile destination size).

(** [size]: what [os.Stat] tells of the cached file; [cachedName] is its base name. *)
Definition adoptRemoteSource (suffix sourceFilename cachedName : string) (size : Z) : imp (string * string) :=
  io Some ≫= fun _ =>
  remainingSourceBytes ≫= fun remaining =>
  if remaining <? size then ofail (Refused "remote source exceeds the available retained-source budget")
  else
    let directory := "upload-" +:+ suffix in
    let jobDir := TemporaryDirectory cfg ++ [directory] in
    io (MkdirTemp jobDir) ≫= fun _ =>
    cleaningUp jobDir (
      let name := Base sourceFilename in
      let name := if acceptedFile name then name else cachedName in
      let file := joinTo jobDir name in
      io Some ≫= fun _ =>
      try (io (fun w => match createFile file w with Some w => writeFile file size w | None => None end)) ≫= fun linked =>
      (match linked with
       | inr _ => mret tt
       | inl _ => copyFile file size
       end) ≫= fun _ =>
      mret (pathString file, directory +:+ "/" +:+ name)).
End Files.
