(* ===== verification/ImportFilesCorrect.v ===== *)
(** * Correctness of the files of managed imports

    Where an archive may write, and the byte budget that uploads, remote sources and
    archives share, on every fate of their calls. *)

From stdpp Require Import sorting relations.
From S2P Require Import Prelude GoText GoPath ImportPlan Faults ImportStore ImportFiles.

(** ** Sums of sizes *)

Definition sized (m : gmap path Z) : Prop := map_Forall (fun _ size => 0 <= size) m.

Lemma total_insert_new p n m : m !! p = None -> total (<[p := n]> m) = n + total m.
Proof. intros H. unfold total. rewrite map_fold_insert_L; [done|intros; lia|done]. Qed.

Lemma sizes_delete p m : total (delete p m) = total m - default 0 (m !! p).
Proof.
  destruct (m !! p) as [v|] eqn:Hp; [|rewrite delete_id by done; simpl; lia].
  rewrite <- (insert_delete_id m p v) at 2 by done. rewrite total_insert_new by apply lookup_delete_eq. simpl. lia.
Qed.

Lemma total_insert p n m : total (<[p := n]> m) = total m + n - default 0 (m !! p).
Proof.
  rewrite <- insert_delete_eq, total_insert_new by apply lookup_delete_eq. rewrite sizes_delete. lia.
Qed.

Lemma total_nonneg m : sized m -> 0 <= total m.
Proof.
  induction m as [|p n m Hp IH] using map_ind; intros Hs; [done|].
  rewrite total_insert_new by done. apply map_Forall_insert in Hs as [Hn Hs]; [|done]. specialize (IH Hs). lia.
Qed.

Lemma sized_filter (P : path * Z -> Prop) `{!forall x, Decision (P x)} m : sized m -> sized (filter P m).
Proof. intros Hs p n Hp. apply map_lookup_filter_Some in Hp as [Hp _]. by apply (Hs p). Qed.

Lemma total_filter (P : path * Z -> Prop) `{!forall x, Decision (P x)} m : sized m -> total (filter P m) <= total m.
Proof.
  induction m as [|p n m Hp IH] using map_ind; intros Hs; [by rewrite map_filter_empty|].
  apply map_Forall_insert in Hs as [Hn Hs]; [|done]. specialize (IH Hs). rewrite (total_insert_new p n m) by done.
  destruct (decide (P (p, n))).
  - rewrite map_filter_insert_True, total_insert_new by (done || (apply map_lookup_filter_None; by left)). lia.
  - rewrite map_filter_insert_False, delete_id by done. lia.
Qed.

Lemma sized_insert p n m : 0 <= n -> sized m -> sized (<[p := n]> m).
Proof. intros. by apply map_Forall_insert_2. Qed.

(** ** Calls *)

Lemma happen_files v w : files (happen v w) = files w /\ dirs (happen v w) = dirs w.
Proof.
  destruct v as [now id|]; [|done]. cbn. unfold RequestImportCancel. destruct (import_jobs w !! id) as [j|]; [|done].
  by destruct (processed j), (cancellable (Status j)).
Qed.

Lemma meanwhile_files ok w w' : meanwhile happen ok w w' -> files w' = files w /\ dirs w' = dirs w.
Proof.
  induction 1 as [|w w1 w2 (v & _ & ->) _ IH]; [done|]. destruct (happen_files v w) as [H1 H2]. by rewrite H1, H2 in IH.
Qed.

Section Rules.
Context (ok : fate event -> Prop).

(** A call of the operating system in a state with the same files. *)
Lemma owp_io c Q R X w :
  (forall w', files w' = files w -> dirs w' = dirs w ->
     match c w' with Some w1 => Q tt w1 | None => R ErrFile w' end /\ (ok Fails -> R ErrFile w') /\ (ok Dies -> X w')) ->
  owp ok (io c) Q R X w.
Proof.
  intros H. apply owp_bind, owp_fate. intros w' Hm. destruct (meanwhile_files _ _ _ Hm) as [Hf Hd]. destruct (H w' Hf Hd) as (Hc & Hr & Hx).
  split; [|split; [|done]].
  - intros l Hl. unfold direct. simpl. by destruct (c w').
  - intros Hf' l Hl. by split; [|apply Hr].
Qed.

(** A predicate on the files. *)
Definition onFiles (P : gmap path Z -> gset path -> Prop) (w : imports) : Prop := P (files w) (dirs w).

Lemma stable_files P : stable happen ok (onFiles P).
Proof. intros v w _. unfold onFiles. by destruct (happen_files v w) as [-> ->]. Qed.

Lemma keeps_io P c : (forall w w', onFiles P w -> c w = Some w' -> onFiles P w') -> keeps ok (onFiles P) (io c).
Proof.
  intros Hc w Hw. apply owp_io. intros w' Hf Hd. assert (onFiles P w') by (unfold onFiles; by rewrite Hf, Hd).
  split; [|done]. destruct (c w') as [w1|] eqn:H1; [by apply (Hc w')|done].
Qed.

Lemma keeps_check P : keeps ok (onFiles P) checkContext.
Proof.
  apply keeps_bind; [apply keeps_fate, stable_files|]. intros _. apply keeps_bind; [apply keeps_get|].
  intros [|]; [apply keeps_fail|apply keeps_ret].
Qed.
End Rules.

(** ** Paths of an archive *)

(** What [Clean] leaves of a relative path: steps up, then proper components. *)
Lemma cleanFold_relative k acc parts : Forall (fun p => properPart p = true) acc -> Forall (fun p => has_byte "/" p = false) parts ->
  exists k' acc', cleanFold false (acc ++ replicate k "..") parts = acc' ++ replicate k' ".." /\ Forall (fun p => properPart p = true) acc'.
Proof.
  revert k acc. induction parts as [|p parts IH]; intros k acc Ha Hp; cbn [cleanFold]; [by exists k, acc|].
  apply Forall_cons in Hp as [Hp Hr]. destruct (String.eqb p "" || String.eqb p ".") eqn:He; [by apply IH|].
  apply orb_false_iff in He as [H1 H2]. destruct (String.eqb p "..") eqn:H3.
  - destruct acc as [|q acc]; cbn [app].
    + destruct k as [|k]; cbn [replicate].
      * apply (IH 1%nat []); done.
      * apply (IH (S (S k)) []); done.
    + apply Forall_cons in Ha as [Hq Ha]. unfold properPart in Hq.
      destruct (String.eqb q ".."); [by rewrite andb_false_r in Hq|]. by apply IH.
  - apply (IH k (p :: acc)); [|done]. constructor; [|done]. unfold properPart. by rewrite H1, H2, H3, Hp.
Qed.

Lemma IsAbs_joinParts parts : IsAbs (joinParts true parts) = true.
Proof. apply prefix_app. Qed.

Lemma Split_single s : has_byte "/" s = false -> Split "/" s = [s].
Proof.
  induction s as [|c s IH]; [done|]. cbn [has_byte Split]. intros [Hc Hs]%orb_false_iff. rewrite IH by done.
  rewrite Ascii.eqb_sym in Hc. by rewrite Hc.
Qed.

(** A path that passes the check stays below the directory, or is its parent. *)
Lemma joinTo_safe root name : Forall (fun p => properPart p = true) root -> unsafePath (Clean name) = false ->
  joinTo root (Clean name) = removelast root \/
  exists parts, parts <> [] /\ joinTo root (Clean name) = root ++ parts.
Proof.
  intros Hroot Hs. unfold unsafePath in Hs. apply orb_false_iff in Hs as [[Hdot Habs]%orb_false_iff Hup].
  destruct (IsAbs name) eqn:Hn; [unfold Clean in Habs; rewrite Hn in Habs; by rewrite IsAbs_joinParts in Habs|].
  unfold Clean in *. rewrite Hn in *. unfold cleanParts in *. rewrite Hn in *.
  destruct (cleanFold_relative 0 [] (Split "/" name)) as (k & acc & Hc & Ha); [constructor|apply Split_parts|].
  cbn [replicate app] in Hc. rewrite Hc in *. rewrite rev_app_distr in *.
  assert (Hrep : rev (replicate k "..") = replicate k "..") by (rewrite rev_alt; apply reverse_replicate).
  rewrite Hrep in *. destruct k as [|k]; cbn [replicate app] in *.
  - right. destruct (rev acc) as [|x l] eqn:Hr; [done|]. exists (x :: l). split; [done|].
    assert (Hx : Forall (fun p => properPart p = true) (x :: l)) by (rewrite <- Hr; by apply Forall_rev).
    unfold joinTo, joinParts. rewrite (Split_Join "/") by (done || by apply proper_no_slash).
    rewrite cleanFold_proper by done. by rewrite rev_app_distr, !rev_involutive.
  - destruct (replicate k ".." ++ rev acc) as [|x l] eqn:Hr.
    + left. unfold joinTo. cbn [joinParts Join]. rewrite Split_single by done. cbn [cleanFold orb String.eqb].
      destruct (rev root) as [|q acc'] eqn:Hq; [by rewrite <- (rev_involutive root), Hq|].
      assert (String.eqb q ".." = false) as Hq'.
      { assert (Hin : properPart q = true).
        { apply (Forall_forall _ _) with (x := q) in Hroot; [done|]. apply list_elem_of_In, in_rev. rewrite Hq. by left. }
        unfold properPart in Hin. rewrite !andb_true_iff, !negb_true_iff in Hin. tauto. }
      cbn. rewrite Hq'. rewrite <- (rev_involutive root), Hq. cbn [rev]. by rewrite removelast_last.
    + exfalso. assert (Hj : HasPrefix (joinParts false (".." :: x :: l)) "../" = true) ; [|congruence].
      change (joinParts false (".." :: x :: l)) with ("../" +:+ Join "/" (x :: l)). apply prefix_app.
Qed.

(** ** Growth of a directory *)

Section Growth.
Context (cfg : config) (root : path) (Hroot : TemporaryDirectory cfg `prefix_of` root).

Lemma usedBytes_same w w' : files w' = files w -> usedBytes cfg w' = usedBytes cfg w.
Proof using. unfold usedBytes. by intros ->. Qed.

Lemma usedBytes_insert p n w : below (TemporaryDirectory cfg) p = true ->
  usedBytes cfg (set_files (<[p := n]> (files w)) w) = usedBytes cfg w + n - default 0 (files w !! p).
Proof using.
  intros Hb. unfold usedBytes. cbn [files set_files]. rewrite map_filter_insert_True by done. rewrite total_insert. do 2 f_equal.
  destruct (files w !! p) as [v|] eqn:Hv.
  - by assert (filter (fun kv => below (TemporaryDirectory cfg) kv.1 = true) (files w) !! p = Some v) as -> by (by apply map_lookup_filter_Some).
  - by assert (filter (fun kv => below (TemporaryDirectory cfg) kv.1 = true) (files w) !! p = None) as -> by (apply map_lookup_filter_None; by left).
Qed.

(** From [w] to [w']: files appear below [root] only, of at most [n] bytes. *)
Record grown (w : imports) (n : Z) (w' : imports) : Prop := {
  gr_outside : forall p, below root p = false -> files w' !! p = files w !! p;
  gr_dirs : dirs w ⊆ dirs w';
  gr_used : usedBytes cfg w' <= usedBytes cfg w + n;
  gr_sized : sized (files w) -> sized (files w');
  gr_kept : forall p, is_Some (files w !! p) -> is_Some (files w' !! p) }.

Lemma grown_same w w' : files w' = files w -> dirs w' = dirs w -> grown w 0 w'.
Proof using. intros Hf Hd. split; rewrite ?Hf, ?Hd; try done. rewrite (usedBytes_same w w') by done. lia. Qed.

Lemma grown_trans w1 n1 w2 n2 w3 : grown w1 n1 w2 -> grown w2 n2 w3 -> grown w1 (n1 + n2) w3.
Proof using.
  intros [A1 A2 A3 A4 A5] [B1 B2 B3 B4 B5]. split; [|by transitivity (dirs w2)|lia|auto|auto]. intros p Hp. rewrite B1, A1; done.
Qed.

Lemma grown_more w n m w' : grown w n w' -> n <= m -> grown w m w'.
Proof using. intros [A1 A2 A3 A4 A5] Hm. split; try done. lia. Qed.

Lemma grown_mkdir p w w1 w2 : files w1 = files w -> dirs w1 = dirs w -> MkdirAll p w1 = Some w2 -> grown w 0 w2.
Proof using.
  intros Hf Hd. unfold MkdirAll. destruct (existsb _ _); [done|]. intros [= <-]. split; cbn [files dirs set_dirs]; rewrite ?Hf, ?Hd; try done.
  - apply union_subseteq_r.
  - rewrite (usedBytes_same w _) by (by rewrite <- Hf). lia.
Qed.

Lemma below_temp p : below root p = true -> below (TemporaryDirectory cfg) p = true.
Proof using Hroot. unfold below. rewrite !bool_decide_eq_true. intros. by transitivity root. Qed.

Lemma below_other p q : below root p = true -> below root q = false -> p <> q.
Proof using. congruence. Qed.

Lemma grown_create p w w1 w2 : files w1 = files w -> dirs w1 = dirs w -> below root p = true -> createFile p w1 = Some w2 ->
  grown w 0 w2 /\ files w2 !! p = Some 0.
Proof using Hroot.
  intros Hf Hd Hb. unfold createFile. destruct (_ || _) eqn:Hc; [done|]. intros [= <-].
  apply orb_false_iff in Hc as [[Hr _]%orb_false_iff _]. unfold regularFile in Hr. apply bool_decide_eq_false in Hr.
  split; [|apply lookup_insert_eq]. split; cbn [files dirs set_files].
  - intros q Hq. rewrite lookup_insert_ne by (by apply (below_other p q)). by rewrite Hf.
  - by rewrite Hd.
  - rewrite usedBytes_insert, (usedBytes_same w w1) by (done || by apply below_temp).
    destruct (files w1 !! p); simpl; [by destruct Hr|lia].
  - intros Hs. apply sized_insert; [lia|]. by rewrite Hf.
  - intros q Hq. rewrite Hf. destruct (decide (p = q)) as [->|]; [by rewrite lookup_insert_eq|by rewrite lookup_insert_ne].
Qed.

Lemma grown_write p n w w1 w2 : files w1 = files w -> dirs w1 = dirs w -> below root p = true -> files w !! p = Some 0 -> 0 <= n ->
  writeFile p n w1 = Some w2 -> grown w n w2.
Proof using Hroot.
  intros Hf Hd Hb H0 Hn [= <-]. split; cbn [files dirs set_files].
  - intros q Hq. rewrite lookup_insert_ne by (by apply (below_other p q)). by rewrite Hf.
  - by rewrite Hd.
  - rewrite usedBytes_insert, (usedBytes_same w w1), Hf, H0 by (done || by apply below_temp). simpl. lia.
  - intros Hs. apply sized_insert; [lia|]. by rewrite Hf.
  - intros q Hq. rewrite Hf. destruct (decide (p = q)) as [->|]; [by rewrite lookup_insert_eq|by rewrite lookup_insert_ne].
Qed.

Context (ok : fate event -> Prop).

(** A call that keeps the files or makes one change of the kinds above. *)
Lemma owp_io_grown c w n Q R X :
  (forall w1 w2, files w1 = files w -> dirs w1 = dirs w -> c w1 = Some w2 -> grown w n w2 /\ (grown w n w2 -> Q tt w2)) ->
  (forall w', grown w 0 w' -> R ErrFile w' /\ X w') -> owp ok (io c) Q R X w.
Proof using.
  intros Hc Hr. apply owp_io. intros w1 Hf Hd. destruct (Hr w1 (grown_same _ _ Hf Hd)) as [H1 H2].
  split; [|done]. destruct (c w1) as [w2|] eqn:H; [|done]. destruct (Hc w1 w2 Hf Hd H) as [Hg Hq]. auto.
Qed.

(** An error, or the end of the process, after at most [n] bytes. *)
Definition upTo (w : imports) (n : Z) (w' : imports) : Prop := exists m, m <= n /\ grown w m w'.

Lemma upTo_grown w m w1 n w' : grown w m w1 -> upTo w1 n w' -> upTo w (m + n) w'.
Proof using. intros Hg (k & Hk & Hg'). exists (m + k). split; [lia|]. by eapply grown_trans. Qed.

Lemma upTo_weak w n n' w' : upTo w n w' -> n <= n' -> upTo w n' w'.
Proof using. intros (m & Hm & Hg) Hn. exists m. split; [lia|done]. Qed.

Lemma extractFile_spec destination entry remaining w :
  below root destination = true \/ (destination ∈ dirs w) ->
  owp ok (extractFile destination entry remaining)
    (fun written w' => 0 <= written <= remaining /\ grown w written w' /\ is_Some (files w' !! destination)
                       /\ below root destination = true)
    (fun _ => upTo w (Z.max 0 remaining + 1)) (upTo w (Z.max 0 remaining + 1)) w.
Proof using Hroot.
  intros Hd. unfold extractFile. destruct (_ || _) eqn:Hrem.
  { apply owp_fail. exists 0. split; [lia|by apply grown_same]. }
  apply orb_false_iff in Hrem as [Hrem%Z.ltb_ge _].
  assert (Hweak : forall w', grown w 0 w' -> upTo w (Z.max 0 remaining + 1) w').
  { intros w' Hg. exists 0. split; [lia|done]. }
  apply owp_bind, (owp_io_grown _ _ 0); [|auto]. intros v w1 Hf1 Hd1 H1. split; [by eapply grown_mkdir|]. intros G1.
  apply owp_bind, (owp_io_grown _ _ 0). 2:{ intros w' G. split; apply Hweak; by apply (grown_trans w 0 w1 0). }
  intros v2 w2 Hf2 Hd2 [= <-]. split; [by apply grown_same|]. intros G2. pose proof (grown_trans _ _ _ _ _ G1 G2) as G12. cbn in G12.
  apply owp_bind, owp_io. intros w3 Hf3 Hd3.
  assert (G3 : grown w 0 w3) by (apply (grown_trans w 0 v2 0); [done|by apply grown_same]).
  split; [|by auto]. destruct (createFile destination w3) as [w4|] eqn:H4; [|by auto].
  assert (Hb : below root destination = true).
  { destruct Hd as [Hd|Hd]; [done|]. exfalso. unfold createFile in H4.
    rewrite (bool_decide_true (destination ∈ dirs w3)), orb_true_r in H4 by (apply (gr_dirs _ _ _ G3), Hd). done. }
  destruct (grown_create destination w3 w3 w4 eq_refl eq_refl Hb H4) as [G4 H0].
  pose proof (grown_trans _ _ _ _ _ G3 G4) as G. cbn in G. clear G1 G2 G12 G3 G4 H4.
  unfold copyLimited. apply owp_bind, owp_bind.
  set (limit := if remaining <? maxInt64 then remaining + 1 else remaining).
  set (written := Z.max 0 (Z.min (entryBytes entry) limit)).
  assert (Hw : 0 <= written <= remaining + 1) by (unfold written, limit; destruct (_ <? _) eqn:?; lia).
  apply (owp_io_grown _ _ written). 2:{ intros w' G'. pose proof (grown_trans _ _ _ _ _ G G') as ?. by auto. }
  intros v5 w5 Hf5 Hd5 H5. split; [eapply grown_write; try done; lia|]. intros G5.
  assert (Hin : is_Some (files w5 !! destination)) by (apply (gr_kept _ _ _ G5); by rewrite H0).
  pose proof (grown_trans _ _ _ _ _ G G5) as G6. clear G G5.
  apply owp_ret. destruct (Z.ltb_spec remaining written).
  { apply owp_fail. exists (0 + written). split; [lia|done]. }
  apply owp_bind, (owp_io_grown _ _ 0).
  2:{ intros w' G'. pose proof (grown_trans _ _ _ _ _ G6 G') as G7. split; (eexists; split; [|exact G7]; lia). }
  intros v8 w8 Hf8 Hd8 [= <-]. split; [by apply grown_same|]. intros G8. apply owp_ret.
  pose proof (grown_trans _ _ _ _ _ G6 G8) as G9.
  split; [lia|]. split; [eapply grown_more; [exact G9|lia]|]. split; [|done]. by rewrite Hf8.
Qed.
End Growth.

(** ** Archives *)

Section Archive.
Context (cfg : config) (root : path) (Hroot : TemporaryDirectory cfg `prefix_of` root) (ok : fate event -> Prop).
Context (Hproper : Forall (fun p => properPart p = true) root).

(** What an archive gives: supported files that exist below the directory. *)
Definition candidatesIn (cs : list path) (w : imports) : Prop :=
  Forall (fun c => below root c = true /\ is_Some (files w !! c) /\ supportedSource (pathString c) = true) cs.

Lemma candidates_grown w n w' cs : grown cfg root w n w' -> candidatesIn cs w -> candidatesIn cs w'.
Proof using. intros Hg Hcs. eapply Forall_impl; [exact Hcs|]. intros c (H1 & H2 & H3). split_and!; try done. by apply (gr_kept _ _ _ _ _ Hg). Qed.

Lemma destination_ok name w : removelast root ∈ dirs w -> unsafePath (Clean name) = false ->
  below root (joinTo root (Clean name)) = true \/ joinTo root (Clean name) ∈ dirs w.
Proof using Hproper.
  intros Hd Hs. destruct (joinTo_safe root name Hproper Hs) as [->|(parts & _ & ->)]; [by right|left].
  unfold below. apply bool_decide_true. by exists parts.
Qed.

Lemma extractEntries_spec entries limit expanded cs w : removelast root ∈ dirs w -> candidatesIn cs w ->
  owp ok (extractEntries root limit expanded cs entries)
    (fun out w' => upTo cfg root w (Z.max 0 (limit - expanded)) w' /\ candidatesIn out w')
    (fun _ => upTo cfg root w (Z.max 0 (limit - expanded) + 1)) (upTo cfg root w (Z.max 0 (limit - expanded) + 1)) w.
Proof using Hroot Hproper.
  revert expanded cs w. induction entries as [|entry entries IH]; intros expanded cs w Hd Hcs; cbn [extractEntries].
  { apply owp_ret. split; [|done]. exists 0. split; [lia|]. by apply grown_same. }
  assert (Hstart : forall w', onFiles (fun f d => f = files w /\ d = dirs w) w' -> grown cfg root w 0 w')
    by (intros w' [? ?]; by apply grown_same).
  assert (Hearly : forall w', grown cfg root w 0 w' -> upTo cfg root w (Z.max 0 (limit - expanded) + 1) w')
    by (intros w' G; exists 0; split; [lia|done]).
  apply owp_bind. eapply owp_mono; [by apply keeps_check with (P := fun f d => f = files w /\ d = dirs w)|..]; cbn; [|by auto..].
  intros _ w1 G1%Hstart. destruct (unsafePath _) eqn:Hs; [by apply owp_fail; auto|].
  assert (Hd1 : removelast root ∈ dirs w1) by (by apply (gr_dirs _ _ _ _ _ G1)).
  set (destination := joinTo root (Clean (entryName entry))).
  destruct (entryIsDir entry).
  - apply owp_bind, (owp_io_grown cfg root ok _ _ 0).
    + intros v w2 Hf2 Hd2 H2. split; [by eapply grown_mkdir|]. intros G2. pose proof (grown_trans _ _ _ _ _ _ _ G1 G2) as G.
      eapply owp_mono; [apply (IH expanded cs w2); [by apply (gr_dirs _ _ _ _ _ G2)|by eapply candidates_grown]|..]; cbn;
        [intros out w' [Hu Hc]; split; [|done]|intros _ w' Hu|intros w' Hu]; eapply upTo_weak; try (by eapply upTo_grown); lia.
    + intros w' G. pose proof (grown_trans _ _ _ _ _ _ _ G1 G). by auto.
  - apply owp_bind. eapply owp_mono.
    { apply (extractFile_spec cfg root Hroot ok destination entry (limit - expanded) w1), destination_ok; done. }
    2:{ cbn; intros e w' Hu. eapply upTo_weak; [exact (upTo_grown _ _ _ _ _ _ _ G1 Hu)|lia]. }
    2:{ cbn; intros w' Hu. eapply upTo_weak; [exact (upTo_grown _ _ _ _ _ _ _ G1 Hu)|lia]. }
    intros written w2 (Hw & G2 & Hin & Hb). pose proof (grown_trans _ _ _ _ _ _ _ G1 G2) as G.
    assert (Hcs2 : candidatesIn (if supportedSource (pathString destination) then cs ++ [destination] else cs) w2).
    { pose proof (candidates_grown _ _ _ _ G Hcs). destruct (supportedSource (pathString destination)) eqn:Hsup; [|done].
      apply Forall_app. split; [done|]. repeat constructor; done. }
    eapply owp_mono; [apply (IH (expanded + written)); [by apply (gr_dirs _ _ _ _ _ G2)|exact Hcs2]|..]; cbn;
      [intros out w' [Hu Hc]; split; [|done]|intros _ w' Hu|intros w' Hu]; (eapply upTo_weak; [by eapply upTo_grown|lia]).
Qed.

Lemma chooseCandidate_in cs c : chooseCandidate cs = inr c -> c ∈ cs.
Proof using.
  unfold chooseCandidate. pose proof (merge_sort_Permutation pathBefore cs) as Hp.
  destruct (List.find _ _) as [x|] eqn:Hf.
  - intros [= <-]. apply List.find_some in Hf as [Hf _]. rewrite <- Hp. by apply list_elem_of_In.
  - destruct (merge_sort _ cs) as [|x [|]]; [done| |done]. intros [= <-]. rewrite <- Hp. left.
Qed.

(** ** Removal *)

Lemma RemoveAll_outside p w w' q : RemoveAll p w = Some w' -> below p q = false -> files w' !! q = files w !! q.
Proof using.
  intros [= <-] Hq. cbn. destruct (files w !! q) as [v|] eqn:Hv.
  - by apply map_lookup_filter_Some.
  - apply map_lookup_filter_None. by left.
Qed.

Lemma RemoveAll_inside p w w' q : RemoveAll p w = Some w' -> below p q = true -> files w' !! q = None.
Proof using. intros [= <-] Hq. cbn. apply map_lookup_filter_None. right. intros v _ H. simpl in H. congruence. Qed.

Lemma RemoveAll_used p w w' : RemoveAll p w = Some w' -> sized (files w) ->
  sized (files w') /\ usedBytes cfg w' <= usedBytes cfg w.
Proof using.
  intros [= <-] Hs. cbn [files set_dirs set_files]. split; [by apply sized_filter|].
  unfold usedBytes. cbn [files set_dirs set_files]. rewrite map_filter_comm. apply total_filter. by apply sized_filter.
Qed.

(** Changes below [root] only, of at most [n] bytes more. *)
Definition confined (w : imports) (n : Z) (w' : imports) : Prop :=
  (forall p, below root p = false -> files w' !! p = files w !! p)
  /\ sized (files w') /\ usedBytes cfg w' <= usedBytes cfg w + n.

Definition emptied (w : imports) : Prop := forall p, below root p = true -> files w !! p = None.

Lemma confined_grown w n w1 m w' : confined w n w1 -> upTo cfg root w1 m w' -> confined w (n + m) w'.
Proof using.
  intros (H1 & H2 & H3) (k & Hk & [G1 G2 G3 G4 G5]). split_and!; [|by auto|lia]. intros p Hp. rewrite G1, H1; done.
Qed.

Lemma confined_same w n w1 w' : confined w n w1 -> files w' = files w1 -> confined w n w'.
Proof using. intros (H1 & H2 & H3) Hf. unfold confined. by rewrite (usedBytes_same cfg w1 w'), Hf. Qed.

Lemma confined_removed w n w1 w2 : confined w n w1 -> RemoveAll root w1 = Some w2 -> confined w n w2 /\ emptied w2.
Proof using.
  intros (H1 & H2 & H3) Hr. destruct (RemoveAll_used _ _ _ Hr H2) as [Hs Hu]. split.
  - split_and!; [|done|lia]. intros p Hp. by rewrite (RemoveAll_outside _ _ _ _ Hr Hp), H1.
  - intros p Hp. by apply (RemoveAll_inside root w1).
Qed.

(** The removal whose error is ignored. *)
Lemma owp_discard w n w1 Q R X : confined w n w1 ->
  (forall w', confined w n w' -> (ok Fails \/ emptied w') -> Q tt w') -> (forall w', confined w n w' -> X w') ->
  owp ok (ignoring (io (RemoveAll root))) Q R X w1.
Proof using.
  intros Hc HQ HX. apply owp_bind, owp_try, owp_io. intros w2 Hf Hd. pose proof (confined_same _ _ _ _ Hc Hf) as Hc2.
  destruct (RemoveAll root w2) as [w3|] eqn:H3; [|done]. destruct (confined_removed _ _ _ _ Hc2 H3) as [Hc3 He].
  split; [apply owp_ret; auto|]. split; [intros Ho; apply owp_ret; auto|by auto].
Qed.

Lemma owp_cleaningUp {A} (c : imp A) w n w1 Q R X :
  owp ok c Q (fun _ => confined w n) (confined w n) w1 ->
  (forall e w', confined w n w' -> (ok Fails \/ emptied w') -> R e w') -> (forall w', confined w n w' -> X w') ->
  owp ok (cleaningUp root c) Q R X w1.
Proof using.
  intros Hc HR HX. apply owp_bind, owp_try. eapply owp_mono; [exact Hc|..]; cbn; [intros a w2; apply owp_ret| |done].
  intros e w2 H2. apply owp_bind. apply (owp_discard w n); [done| |done]. intros w3 H3 He. apply owp_fail. auto.
Qed.
End Archive.

(** ** The budget *)

Lemma remainingSourceBytes_spec cfg ok w :
  owp ok (remainingSourceBytes cfg)
    (fun n w' => (files w' = files w /\ dirs w' = dirs w) /\ n = retainedLimit cfg - usedBytes cfg w /\ usedBytes cfg w <= retainedLimit cfg)
    (fun _ w' => files w' = files w /\ dirs w' = dirs w) (fun w' => files w' = files w /\ dirs w' = dirs w) w.
Proof.
  apply owp_bind, owp_io. intros w1 Hf Hd. split; [|done]. apply owp_bind, owp_get.
  rewrite (usedBytes_same cfg w w1) by done. destruct (Z.ltb_spec (retainedLimit cfg) (usedBytes cfg w)); [by apply owp_fail|].
  apply owp_ret. split; [done|]. lia.
Qed.

(** How much an operation may add: up to the budget and one byte. *)
Definition slack (cfg : config) (w : imports) : Z := Z.max 0 (retainedLimit cfg + 1 - usedBytes cfg w).

Lemma ancestor_parent (p : path) (x : string) : p <> [] -> p ∈ ancestors (p ++ [x]).
Proof.
  intros Hp. unfold ancestors. apply list_elem_of_fmap. exists (length p). split; [by rewrite take_app_length|].
  apply elem_of_seq. rewrite length_app. simpl. destruct p; [done|]. simpl. lia.
Qed.

Section Extraction.
Context (cfg : config) (jobID : string) (ok : fate event -> Prop).
Context (Htemp : TemporaryDirectory cfg <> []).
Context (Hproper : Forall (fun p => properPart p = true) (extractRoot cfg jobID)).
Local Abbreviation root := (extractRoot cfg jobID).

Lemma root_below : TemporaryDirectory cfg `prefix_of` root.
Proof using. by exists ["extract-" +:+ jobID]. Qed.

(** What is extracted once the directory exists. *)
Lemma extracting_spec entries w w1 : confined cfg root w 0 w1 -> removelast root ∈ dirs w1 ->
  owp ok (remainingSourceBytes cfg ≫= fun remaining =>
          extractEntries root (Z.min (MaxExpandedBytes cfg) remaining) 0 [] entries ≫= fun candidates =>
          match chooseCandidate candidates with inr c => mret c | inl e => ofail e end)
    (fun c w' => confined cfg root w (Z.max 0 (MaxExpandedBytes cfg)) w' /\ usedBytes cfg w' <= retainedLimit cfg
                 /\ below root c = true /\ is_Some (files w' !! c) /\ supportedSource (pathString c) = true)
    (fun _ => confined cfg root w (slack cfg w)) (confined cfg root w (slack cfg w)) w1.
Proof using Hproper.
  intros Hc Hd. assert (Hearly : forall w', files w' = files w1 -> confined cfg root w (slack cfg w) w').
  { intros w' Hf. apply (confined_same cfg root w _ w1); [|done]. destruct Hc as (H1 & H2 & H3). split_and!; [done..|]. unfold slack. lia. }
  apply owp_bind. eapply owp_mono; [apply remainingSourceBytes_spec|..]; cbn beta; [|intros ? w' [? ?]; by auto|intros w' [? ?]; by auto].
  intros remaining w2 ((Hf2 & Hd2) & -> & Hle).
  pose proof (confined_same _ _ _ _ _ _ Hc Hf2) as Hc2. rewrite <- (usedBytes_same cfg _ _ Hf2) in *. rewrite <- Hd2 in Hd. clear Hc Hf2 Hd2 w1 Hearly.
  set (limit := Z.min _ _). assert (Hl : Z.max 0 (limit - 0) <= Z.max 0 (MaxExpandedBytes cfg)) by lia.
  assert (Hl2 : usedBytes cfg w2 + Z.max 0 (limit - 0) <= retainedLimit cfg) by (unfold limit; lia).
  assert (Hbad : forall w', upTo cfg root w2 (Z.max 0 (limit - 0) + 1) w' -> confined cfg root w (slack cfg w) w').
  { intros w' Hu. destruct (confined_grown _ _ _ _ _ _ _ Hc2 Hu) as (A & B & _). split_and!; [done..|].
    destruct Hu as (m & Hm & G). apply gr_used in G. unfold slack. lia. }
  apply owp_bind. eapply owp_mono; [apply (extractEntries_spec cfg root root_below ok Hproper); [done|constructor]|..]; cbn beta; [|by auto..].
  intros cs w3 [Hu Hcs]. destruct (chooseCandidate cs) as [e|c] eqn:Hch.
  - apply owp_fail, Hbad. eapply upTo_weak; [exact Hu|lia].
  - apply owp_ret. apply chooseCandidate_in in Hch. unfold candidatesIn in Hcs. rewrite Forall_forall in Hcs. specialize (Hcs c Hch).
    pose proof (confined_grown _ _ _ _ _ _ _ Hc2 Hu) as (A & B & _). destruct Hu as (m & Hm & G%gr_used). destruct Hc2 as (_ & _ & Hu0).
    split; [split_and!; [done..|lia]|]. split; [lia|done].
Qed.

Lemma extractArchive_spec entries w : sized (files w) ->
  owp ok (extractArchive cfg jobID entries)
    (fun c w' => confined cfg root w (Z.max 0 (MaxExpandedBytes cfg)) w' /\ usedBytes cfg w' <= retainedLimit cfg
                 /\ below root c = true /\ is_Some (files w' !! c) /\ supportedSource (pathString c) = true)
    (fun _ w' => confined cfg root w (slack cfg w) w' /\ (ok Fails \/ emptied root w' \/ files w' = files w))
    (confined cfg root w (slack cfg w)) w.
Proof using Hproper Htemp.
  intros Hs. assert (Hmore : forall w', confined cfg root w 0 w' -> confined cfg root w (slack cfg w) w').
  { intros w' (A & B & C). split_and!; [done..|]. unfold slack. lia. }
  assert (Hsame : forall w', files w' = files w -> confined cfg root w 0 w').
  { intros w' Hf. split_and!; [by rewrite Hf|by rewrite Hf|]. rewrite (usedBytes_same cfg w w') by done. lia. }
  apply owp_bind, owp_io. intros w1 Hf1 Hd1. specialize (Hsame w1 Hf1). split; [|by auto 10].
  destruct (Z.ltb_spec (MaxArchiveFiles cfg) (Z.of_nat (length entries))); [apply owp_fail; by auto|].
  apply owp_bind, (owp_discard cfg root ok w 0); [done| |by auto]. intros w2 Hc2 He2.
  assert (He2' : ok Fails \/ emptied root w2 \/ files w2 = files w) by tauto.
  apply owp_bind, owp_io. intros w3 Hf3 Hd3. pose proof (confined_same _ _ _ _ _ _ Hc2 Hf3) as Hc3.
  assert (He3 : ok Fails \/ emptied root w3) by (unfold emptied; by rewrite Hf3).
  split; [|split; [|by auto]; intros; split; [by auto|tauto]].
  destruct (MkdirAll root w3) as [w4|] eqn:H4; [|split; [by auto|tauto]].
  assert (Hf4 : files w4 = files w3) by (unfold MkdirAll in H4; destruct (existsb _ _); [done|by injection H4 as <-]).
  assert (Hd4 : removelast root ∈ dirs w4).
  { unfold MkdirAll in H4. destruct (existsb _ _); [done|]. injection H4 as <-. cbn [dirs set_dirs]. unfold extractRoot.
    rewrite removelast_last. apply elem_of_union_l, elem_of_list_to_set. by apply ancestor_parent. }
  apply (owp_cleaningUp cfg root ok _ w (slack cfg w)); [|intros; split; [done|tauto]|done].
  apply extracting_spec; [by eapply confined_same|done].
Qed.
End Extraction.

(** C19: an archive of an import writes below its own directory only. Whatever the names
    and sizes of its entries, whichever calls fail and wherever the process dies, every
    file outside the extraction directory of the job is as before, and the sources never
    exceed their budget, or what they occupied before, by more than the one byte that
    detects the excess. When a source is returned, it is a supported file below that
    directory, and the archive has added no more than the expanded-byte limit and left the
    retained sources within their budget. When the archive is refused although no call
    failed, there is no file below that directory, or the files are exactly those of
    before. *)
Theorem archive_confined cfg jobID entries w l r w' l' :
  TemporaryDirectory cfg <> [] -> Forall (fun p => properPart p = true) (extractRoot cfg jobID) -> sized (files w) ->
  extractArchive cfg jobID entries (w, l) = (r, (w', l')) ->
  (forall p, below (extractRoot cfg jobID) p = false -> files w' !! p = files w !! p)
  /\ usedBytes cfg w' <= Z.max (usedBytes cfg w) (retainedLimit cfg + 1)
  /\ match r with
     | Done c => below (extractRoot cfg jobID) c = true /\ is_Some (files w' !! c) /\ supportedSource (pathString c) = true
                 /\ usedBytes cfg w' <= retainedLimit cfg
                 /\ usedBytes cfg w' <= usedBytes cfg w + Z.max 0 (MaxExpandedBytes cfg)
     | Failed _ => Forall calm l -> emptied (extractRoot cfg jobID) w' \/ files w' = files w
     | Died => True
     end.
Proof.
  intros Ht Hp Hs Hrun. pose proof (owp_run _ _ _ _ _ _ _ _ _ _ (extractArchive_spec cfg jobID anyFate Ht Hp entries w Hs) (anyFate_all l) Hrun) as H.
  destruct r as [c|e|].
  - destruct H as ((A & B & C) & D & E). split; [done|]. split; [lia|]. tauto.
  - destruct H as ((A & B & C) & _). split; [done|]. split; [unfold slack in C; lia|]. intros Hl.
    pose proof (owp_run _ _ _ _ _ _ _ _ _ _ (extractArchive_spec cfg jobID calm Ht Hp entries w Hs) Hl Hrun) as (_ & H). cbn in H. tauto.
  - destruct H as (A & B & C). split; [done|]. split; [unfold slack in C; lia|done].
Qed.

(** ** Uploads and remote sources *)

Lemma emptied_used cfg root w n w' : confined cfg root w n w' -> emptied root w' -> sized (files w) -> usedBytes cfg w' <= usedBytes cfg w.
Proof.
  intros (Ho & _) He Hs. assert (Hf : files w' = filter (fun kv => below root kv.1 = false) (files w)).
  { apply map_eq. intros p. destruct (below root p) eqn:Hb.
    - rewrite He by done. symmetry. apply map_lookup_filter_None. right. intros v _ H. simpl in H. congruence.
    - rewrite Ho by done. symmetry. destruct (files w !! p) eqn:Hp; [by apply map_lookup_filter_Some|apply map_lookup_filter_None; by left]. }
  unfold usedBytes. rewrite Hf, map_filter_comm. apply total_filter. by apply sized_filter.
Qed.

Lemma cutLast_after c s a b : cutLast c s = Some (a, b) -> has_byte c b = false.
Proof.
  revert a b. induction s as [|d s IH]; intros a b; cbn [cutLast]; [done|].
  destruct (cutLast c s) as [[x y]|] eqn:Hc; [intros [= <- <-]; by eapply IH|].
  destruct (Ascii.eqb d c) eqn:Hd; [|done]. intros [= <- <-]. clear IH Hd.
  induction s as [|e s IHs]; [done|]. cbn [cutLast] in Hc. cbn [has_byte].
  destruct (cutLast c s) as [[]|]; [done|]. destruct (Ascii.eqb e c) eqn:He; [done|]. rewrite Ascii.eqb_sym, He. by apply IHs.
Qed.

Lemma cutLast_absent c s : cutLast c s = None -> has_byte c s = false.
Proof.
  induction s as [|d s IH]; cbn [cutLast has_byte]; [done|]. destruct (cutLast c s) as [[]|]; [done|].
  destruct (Ascii.eqb d c) eqn:Hd; [done|]. intros _. rewrite Ascii.eqb_sym, Hd. by apply IH.
Qed.

(** The base name of a file that may be imported is one component. *)
Lemma Base_proper s : acceptedFile (Base s) = true -> properPart (Base s) = true.
Proof.
  intros Ha. unfold properPart.
  assert (H1 : String.eqb (Base s) "" = false) by (apply String.eqb_neq; intros He; by rewrite He in Ha).
  assert (H2 : String.eqb (Base s) "." = false) by (apply String.eqb_neq; intros He; by rewrite He in Ha).
  assert (H3 : String.eqb (Base s) ".." = false) by (apply String.eqb_neq; intros He; by rewrite He in Ha).
  rewrite H1, H2, H3. cbn [negb andb]. apply negb_true_iff. unfold Base in *. destruct (String.eqb s ""); [done|].
  set (t := trimRightBy _ _) in *. destruct (cutLast "/" t) as [[x y]|] eqn:Hc.
  - destruct (String.eqb y ""); [by cbn in Ha|]. by eapply cutLast_after.
  - destruct (String.eqb t ""); [by cbn in Ha|]. by apply cutLast_absent.
Qed.

Lemma joinTo_proper dir name : properPart name = true -> joinTo dir name = dir ++ [name].
Proof.
  intros Hp. unfold joinTo. rewrite Split_single by (by apply (Forall_inv (proper_no_slash [name] ltac:(by constructor)))).
  rewrite cleanFold_proper by (by constructor). cbn. by rewrite rev_involutive.
Qed.

(** A statement that leaves the files alone. *)
Definition filesKept {A} (c : statement A) : Prop := forall w, files (c w).2 = files w /\ dirs (c w).2 = dirs w.

Lemma owp_db_files {A} ok bound (c : statement A) P Q R X w : filesKept c -> onFiles P w ->
  (forall w1, onFiles P w1 -> (forall a, (c w1).1 = inr a -> Q a (c w1).2) /\ (forall e w', onFiles P w' -> R e w') /\ X w1) ->
  owp ok (db bound c) Q R X w.
Proof.
  intros Hk HP H. apply owp_bind, owp_fate. intros w1 Hm. destruct (meanwhile_files _ _ _ Hm) as [Hf Hd].
  assert (H1 : onFiles P w1) by (unfold onFiles; by rewrite Hf, Hd). destruct (H w1 H1) as (HQ & HR & HX).
  split; [|split; [|done]]; intros; intros l Hl; unfold direct; cbn [fst snd].
  - destruct (bound && gone w1); [by split; [|apply HR]|]. destruct (Hk w1) as [Hf1 Hd1]. destruct (c w1) as [[e|a] w2]; cbn in *.
    + split; [done|]. apply HR. unfold onFiles. by rewrite Hf1, Hd1.
    + split; [done|]. by apply HQ.
  - destruct (bound && gone w1); by split; [|apply HR].
Qed.

Lemma CreateImportJob_files now id input : filesKept (CreateImportJob now id input).
Proof. intros w. unfold CreateImportJob. by destruct (import_jobs w !! id). Qed.

Section Uploads.
Context (cfg : config) (ok : fate event -> Prop) (directory : string).
Local Abbreviation dir := (TemporaryDirectory cfg ++ [directory]).

Lemma dir_below : TemporaryDirectory cfg `prefix_of` dir.
Proof using. by exists [directory]. Qed.

Lemma below_dir name : below dir (dir ++ [name]) = true.
Proof using. unfold below. apply bool_decide_true. by exists [name]. Qed.

(** What an operation on one directory leaves, by how it ends. *)
Definition stored (w w' : imports) : Prop := (exists n, confined cfg dir w n w') /\ usedBytes cfg w' <= Z.max (usedBytes cfg w) (retainedLimit cfg).
Definition spoiled (w w' : imports) : Prop := confined cfg dir w (slack cfg w) w' /\ (ok Fails \/ usedBytes cfg w' <= usedBytes cfg w).

Lemma confined_start w w' : sized (files w) -> files w' = files w -> confined cfg dir w 0 w'.
Proof using. intros Hs Hf. split_and!; [by rewrite Hf|by rewrite Hf|]. rewrite (usedBytes_same cfg w w') by done. lia. Qed.

Lemma confined_slack w w' : confined cfg dir w 0 w' -> confined cfg dir w (slack cfg w) w'.
Proof using. intros (A & B & C). split_and!; [done..|]. unfold slack. lia. Qed.

Lemma spoiled_start w w' : confined cfg dir w 0 w' -> spoiled w w'.
Proof using. intros H. split; [by apply confined_slack|]. right. destruct H as (_ & _ & H). lia. Qed.

(** The deferred removal of the directory. *)
Lemma owp_cleaningDir {A} (c : imp A) w w1 Q : sized (files w) ->
  owp ok c Q (fun _ => confined cfg dir w (slack cfg w)) (confined cfg dir w (slack cfg w)) w1 ->
  owp ok (cleaningUp dir c) Q (fun _ => spoiled w) (confined cfg dir w (slack cfg w)) w1.
Proof using.
  intros Hs Hc. eapply owp_cleaningUp; [exact Hc| |done]. intros e w' H [Ho|He]; (split; [done|]); [by left|].
  right. by eapply emptied_used.
Qed.

Lemma owp_mkdirTemp w Q R X : sized (files w) ->
  (forall w', confined cfg dir w 0 w' -> Q tt w') -> (forall w', confined cfg dir w 0 w' -> R ErrFile w' /\ X w') ->
  owp ok (io (MkdirTemp dir)) Q R X w.
Proof using.
  intros Hs HQ HR. apply owp_io. intros w1 Hf Hd. pose proof (confined_start w w1 Hs Hf) as Hc. destruct (HR w1 Hc).
  split; [|done]. unfold MkdirTemp. destruct (_ || _); [done|]. apply HQ. by eapply confined_same.
Qed.

Lemma owp_confined_io w n w1 c Q R X : confined cfg dir w n w1 -> (forall v, c v = Some v) ->
  (forall w', confined cfg dir w n w' -> files w' = files w1 -> Q tt w' /\ R ErrFile w' /\ X w') -> owp ok (io c) Q R X w1.
Proof using.
  intros Hc Hid H. apply owp_io. intros w2 Hf Hd. pose proof (confined_same _ _ _ _ _ _ Hc Hf) as Hc2. destruct (H w2 Hc2 Hf) as (A & B & C).
  rewrite Hid. done.
Qed.

Lemma owp_confined_create w n w1 name Q R X : confined cfg dir w n w1 ->
  (forall w', confined cfg dir w n w' -> files w' !! (dir ++ [name]) = Some 0 -> Q tt w') ->
  (forall w', confined cfg dir w n w' -> R ErrFile w' /\ X w') -> owp ok (io (createFile (dir ++ [name]))) Q R X w1.
Proof using.
  intros Hc HQ HR. apply owp_io. intros w2 Hf Hd. pose proof (confined_same _ _ _ _ _ _ Hc Hf) as Hc2. destruct (HR w2 Hc2).
  split; [|done]. destruct (createFile _ w2) as [w3|] eqn:H3; [|done].
  destruct (grown_create cfg dir dir_below _ w2 w2 w3 eq_refl eq_refl (below_dir name) H3) as [G Hz].
  apply HQ; [|done]. replace n with (n + 0) by lia. eapply confined_grown; [done|]. by exists 0.
Qed.

Lemma owp_confined_write w w1 n name size Q R X : confined cfg dir w n w1 -> files w1 !! (dir ++ [name]) = Some 0 -> 0 <= size ->
  (forall w', confined cfg dir w (n + size) w' -> usedBytes cfg w' <= usedBytes cfg w1 + size -> Q tt w') ->
  (forall w', confined cfg dir w n w' -> R ErrFile w' /\ X w') -> owp ok (io (writeFile (dir ++ [name]) size)) Q R X w1.
Proof using.
  intros Hc H0 Hsz HQ HR. apply owp_io. intros w2 Hf Hd. pose proof (confined_same _ _ _ _ _ _ Hc Hf) as Hc2. destruct (HR w2 Hc2).
  split; [|done]. destruct (writeFile _ _ w2) as [w3|] eqn:H3; [|done].
  pose proof (grown_write cfg dir dir_below _ size w1 w2 w3 Hf Hd (below_dir name) H0 Hsz H3) as G.
  apply HQ; [eapply confined_grown; [exact Hc|exists size; split; [lia|done]]|]. by apply (gr_used _ _ _ _ _ G).
Qed.

Lemma copyFile_spec w w1 name size : confined cfg dir w 0 w1 -> 0 <= size ->
  owp ok (copyFile (dir ++ [name]) size) (fun _ => confined cfg dir w size) (fun _ => confined cfg dir w 0) (confined cfg dir w 0) w1.
Proof using.
  intros Hc Hsz. apply owp_bind, (owp_confined_create w 0); [done| |done]. intros w2 H2 Hz.
  by apply (owp_confined_write w w2 0).
Qed.
End Uploads.

Section UploadSpecs.
Context (cfg : config) (ok : fate event -> Prop) (registered : string -> bool).

Lemma CreateUpload_spec now suffix id workspaceID name filename createdBy size w : sized (files w) -> 0 <= MaxUploadBytes cfg ->
  owp ok (CreateUpload cfg registered now suffix id workspaceID name filename createdBy size)
    (fun _ => stored cfg ("upload-" +:+ suffix) w) (fun _ => spoiled cfg ok ("upload-" +:+ suffix) w)
    (confined cfg (TemporaryDirectory cfg ++ ["upload-" +:+ suffix]) w (slack cfg w)) w.
Proof using.
  intros Hs Hmax. set (directory := "upload-" +:+ suffix). unfold CreateUpload.
  pose proof (confined_start cfg directory w w Hs eq_refl) as Hc0.
  pose proof (spoiled_start cfg ok directory w) as Hsp. pose proof (confined_slack cfg directory w) as Hsl.
  destruct (registered workspaceID); cbn [negb]; [|apply owp_fail; by auto].
  set (file := Base _). destruct (_ || _); [apply owp_fail; by auto|].
  destruct (acceptedFile file) eqn:Ha; cbn [negb]; [|apply owp_fail; by auto].
  apply Base_proper in Ha. fold directory. rewrite joinTo_proper by done.
  apply owp_bind, owp_mkdirTemp; [done| |by auto]. intros w1 H1. apply owp_cleaningDir; [done|].
  apply owp_bind, (owp_confined_io cfg ok directory w 0); [done|done|]. intros w2 H2 _. split; [|by auto].
  apply owp_bind, (owp_confined_create cfg ok directory w 0); [done| |by auto]. intros w3 H3 Hz.
  apply owp_bind. eapply owp_mono; [apply remainingSourceBytes_spec|..]; cbn beta.
  2:{ intros _ w' [Hf _]. apply Hsl. by eapply confined_same. }
  2:{ intros w' [Hf _]. apply Hsl. by eapply confined_same. }
  intros remaining w4 ((Hf4 & _) & -> & Hle). pose proof (confined_same _ _ _ _ _ _ H3 Hf4) as H4.
  set (limit := Z.min _ _). set (written := Z.max 0 (Z.min size (int64 (limit + 1)))).
  assert (Hw : 0 <= written <= Z.max 0 (limit + 1)).
  { unfold written. split; [lia|]. assert (0 <= limit) by (unfold limit; lia).
    assert (int64 (limit + 1) <= limit + 1); [|lia]. unfold int64. pose proof (Z.mod_le (limit + 1 + 2 ^ 63) (2 ^ 64)). lia. }
  apply owp_bind. apply owp_bind.
  apply (owp_confined_write cfg ok directory w w4 0); [done|by rewrite Hf4|lia| |by auto]. intros w5 H5 Hu5. apply owp_ret.
  assert (Hu : usedBytes cfg w5 <= usedBytes cfg w3 + written) by (rewrite <- (usedBytes_same cfg w3 w4) by done; lia).
  assert (H5' : confined cfg (TemporaryDirectory cfg ++ [directory]) w (slack cfg w) w5).
  { destruct H5 as (A & B & _). split_and!; [done..|]. unfold slack. unfold limit in Hw. destruct H3 as (_ & _ & ?). lia. }
  apply owp_bind, (owp_confined_io cfg ok directory w (slack cfg w)); [done|done|]. intros w6 H6 Hf6. split; [|by auto].
  change (Z.max 0 (Z.min size (int64 (limit + 1)))) with written. destruct (Z.ltb_spec limit written); [by apply owp_fail|].
  eapply (owp_db_files _ _ _ (fun f _ => f = files w6)); [apply CreateImportJob_files|done|]. intros w7 H7. unfold onFiles in H7.
  split; [|split; [intros e w' Hw'; by eapply confined_same|by eapply confined_same]].
  intros job _. set (input := mkInput _ _ _ _ _ _ _ _). destruct (CreateImportJob_files now id input w7) as [Hfj _]. rewrite H7 in Hfj.
  split; [exists (slack cfg w); eapply confined_same; [exact H6|exact Hfj]|]. rewrite (usedBytes_same cfg w5 _) by (by rewrite Hfj). lia.
Qed.

Lemma adoptRemoteSource_spec suffix sourceFilename cachedName size w : sized (files w) -> 0 <= size -> properPart cachedName = true ->
  owp ok (adoptRemoteSource cfg suffix sourceFilename cachedName size)
    (fun _ => stored cfg ("upload-" +:+ suffix) w) (fun _ => spoiled cfg ok ("upload-" +:+ suffix) w)
    (confined cfg (TemporaryDirectory cfg ++ ["upload-" +:+ suffix]) w (slack cfg w)) w.
Proof using.
  intros Hs Hsz Hname. set (directory := "upload-" +:+ suffix). unfold adoptRemoteSource.
  pose proof (spoiled_start cfg ok directory w) as Hsp. pose proof (confined_slack cfg directory w) as Hsl.
  apply owp_bind, (owp_confined_io cfg ok directory w 0); [by apply confined_start|done|]. intros w1 H1 Hf1. split; [|by auto].
  apply owp_bind. eapply owp_mono; [apply remainingSourceBytes_spec|..]; cbn beta.
  2:{ intros _ w' [Hf _]. apply Hsp. by eapply confined_same. }
  2:{ intros w' [Hf _]. apply Hsl. by eapply confined_same. }
  intros remaining w2 ((Hf2 & _) & -> & Hle). pose proof (confined_same _ _ _ _ _ _ H1 Hf2) as H2.
  assert (Hu2 : usedBytes cfg w2 = usedBytes cfg w) by (apply usedBytes_same; congruence).
  rewrite (usedBytes_same cfg w w1) in * by done.
  destruct (Z.ltb_spec (retainedLimit cfg - usedBytes cfg w) size); [apply owp_fail; by auto|].
  fold directory. set (file := if acceptedFile (Base sourceFilename) then _ else _).
  assert (Hp : properPart file = true) by (unfold file; destruct (acceptedFile _) eqn:Ha; [by apply Base_proper|done]).
  rewrite joinTo_proper by done.
  assert (Hs2 : sized (files w2)) by apply H2.
  apply owp_bind. apply owp_io. intros w3 Hf3 Hd3. pose proof (confined_same _ _ _ _ _ _ H2 Hf3) as H3.
  split; [|by auto]. destruct (MkdirTemp _ w3) as [w4|] eqn:H4; [|by auto].
  assert (Hf4 : files w4 = files w3) by (unfold MkdirTemp in H4; destruct (_ || _); [done|by injection H4 as <-]).
  pose proof (confined_same _ _ _ _ _ _ H3 Hf4) as H4'. clear H4. apply owp_cleaningDir; [done|].
  apply owp_bind, (owp_confined_io cfg ok directory w 0); [done|done|]. intros w5 H5 _. split; [|by auto].
  assert (Hdone : forall w', confined cfg (TemporaryDirectory cfg ++ [directory]) w size w' -> stored cfg directory w w').
  { intros w' Hc. split; [by exists size|]. destruct Hc as (_ & _ & Hc). lia. }
  apply owp_bind, owp_try, owp_io. intros w6 Hf6 Hd6. pose proof (confined_same _ _ _ _ _ _ H5 Hf6) as H6.
  assert (Hfall : owp ok (copyFile ((TemporaryDirectory cfg ++ [directory]) ++ [file]) size)
    (fun _ => stored cfg directory w) (fun _ => confined cfg (TemporaryDirectory cfg ++ [directory]) w (slack cfg w))
    (confined cfg (TemporaryDirectory cfg ++ [directory]) w (slack cfg w)) w6).
  { eapply owp_mono; [by apply (copyFile_spec cfg ok directory w)|..]; auto. }
  split; [|split; [|by auto]].
  - destruct (createFile _ w6) as [w7|] eqn:H7.
    + destruct (grown_create cfg _ (dir_below cfg directory) _ w6 w6 w7 eq_refl eq_refl (below_dir cfg directory file) H7) as [G Hz].
      cbn [writeFile]. apply owp_bind, owp_ret, owp_ret, Hdone.
      pose proof (grown_write cfg _ (dir_below cfg directory) _ size w7 w7 _ eq_refl eq_refl (below_dir cfg directory file) Hz Hsz eq_refl) as G2.
      pose proof (grown_trans _ _ _ _ _ _ _ G G2) as G3. apply (confined_grown _ _ w 0 w6 size); [done|]. by exists (0 + size).
    + apply owp_bind. eapply owp_mono; [exact Hfall|..]; auto. intros. by apply owp_ret.
  - intros _. apply owp_bind. eapply owp_mono; [exact Hfall|..]; auto. intros. by apply owp_ret.
Qed.
End UploadSpecs.

(** ** Sequences of operations *)

Lemma cleanupTemporarySource_spec cfg cwd ok source w : sized (files w) ->
  let shrunk w' := sized (files w') /\ usedBytes cfg w' <= usedBytes cfg w in
  owp ok (cleanupTemporarySource cfg cwd source) (fun _ => shrunk) (fun _ => shrunk) shrunk w.
Proof.
  intros Hs shrunk. assert (H0 : forall w', files w' = files w -> shrunk w').
  { intros w' Hf. unfold shrunk. rewrite (usedBytes_same cfg w w'), Hf by done. done. }
  unfold cleanupTemporarySource. destruct (Rel _ _) as [relative|]; [|by apply owp_ret; auto].
  destruct (_ || _); [by apply owp_ret; auto|]. destruct (_ || _); [|by apply owp_ret; auto].
  apply owp_io. intros w1 Hf _. split; [|by auto]. rewrite <- Hf in Hs. unfold shrunk. rewrite <- (usedBytes_same cfg w w1) by done.
  by eapply RemoveAll_used.
Qed.

Section Budget.
Context (cfg : config) (cwd : string) (registered : string -> bool).

(** The operations on retained sources, each with the fates of its calls. Those that
    write hold the importer's storage mutex from beginning to end. *)
Inductive storageStep (ok : fate event -> Prop) (w : imports) : imports -> Prop :=
| step_upload now suffix id workspaceID name filename createdBy size l r w' l' : Forall ok l -> (r = Died -> ok Dies) ->
    CreateUpload cfg registered now suffix id workspaceID name filename createdBy size (w, l) = (r, (w', l')) -> storageStep ok w w'
| step_remote suffix sourceFilename cachedName size l r w' l' : Forall ok l -> (r = Died -> ok Dies) ->
    0 <= size -> properPart cachedName = true ->
    adoptRemoteSource cfg suffix sourceFilename cachedName size (w, l) = (r, (w', l')) -> storageStep ok w w'
| step_extract jobID entries l r w' l' : Forall ok l -> (r = Died -> ok Dies) ->
    Forall (fun p => properPart p = true) (extractRoot cfg jobID) ->
    extractArchive cfg jobID entries (w, l) = (r, (w', l')) -> storageStep ok w w'
| step_cleanup source l (r : result importError unit) w' l' : Forall ok l -> (r = Died -> ok Dies) ->
    cleanupTemporarySource cfg cwd source (w, l) = (r, (w', l')) -> storageStep ok w w'.

Context (Htemp : TemporaryDirectory cfg <> []) (Hmax : 0 <= MaxUploadBytes cfg).

(** What one operation does to the budget. *)
Definition budgeted (ok : fate event -> Prop) (w w' : imports) : Prop :=
  sized (files w') /\ usedBytes cfg w' <= Z.max (usedBytes cfg w) (retainedLimit cfg + 1)
  /\ (ok Fails \/ ok Dies \/ usedBytes cfg w' <= Z.max (usedBytes cfg w) (retainedLimit cfg)).

Lemma stored_budgeted ok d w w' : stored cfg d w w' -> budgeted ok w w'.
Proof using. intros [(n & _ & Hs & _) Hu]. split; [done|]. split; [lia|]. by right; right. Qed.

Lemma spoiled_budgeted ok d w w' : spoiled cfg ok d w w' -> budgeted ok w w'.
Proof using. intros [(_ & Hs & Hu) Ho]. split; [done|]. split; [unfold slack in Hu; lia|]. destruct Ho; [by left|right; right; lia]. Qed.

Lemma slack_budgeted ok root w w' : confined cfg root w (slack cfg w) w' -> ok Dies -> budgeted ok w w'.
Proof using. intros (_ & Hs & Hu) Ho. split; [done|]. split; [unfold slack in Hu; lia|]. by right; left. Qed.

Lemma storageStep_budget ok w w' : storageStep ok w w' -> sized (files w) -> budgeted ok w w'.
Proof using Htemp Hmax.
  intros [now suffix id ws name fn by' size l r w1 l' Hl Hd Hrun|suffix fn cn size l r w1 l' Hl Hd Hsz Hcn Hrun
         |jobID entries l r w1 l' Hl Hd Hp Hrun|source l r w1 l' Hl Hd Hrun] Hs.
  - pose proof (owp_run _ _ _ _ _ _ _ _ _ _ (CreateUpload_spec cfg ok registered now suffix id ws name fn by' size w Hs Hmax) Hl Hrun) as H.
    destruct r; [by eapply stored_budgeted|by eapply spoiled_budgeted|eapply slack_budgeted; [exact H|by apply Hd]].
  - pose proof (owp_run _ _ _ _ _ _ _ _ _ _ (adoptRemoteSource_spec cfg ok suffix fn cn size w Hs Hsz Hcn) Hl Hrun) as H.
    destruct r; [by eapply stored_budgeted|by eapply spoiled_budgeted|eapply slack_budgeted; [exact H|by apply Hd]].
  - pose proof (owp_run _ _ _ _ _ _ _ _ _ _ (extractArchive_spec cfg jobID ok Htemp Hp entries w Hs) Hl Hrun) as H.
    destruct r as [c|e|]; [|destruct H as [Hc Ho]|eapply slack_budgeted; [exact H|by apply Hd]].
    + destruct H as ((_ & Hs1 & _) & Hu & _). split; [done|]. split; [lia|right; right; lia].
    + pose proof Hc as (_ & B & C). split; [done|]. split; [unfold slack in C; lia|].
      destruct Ho as [Ho|[Ho|Ho]]; [by left|right; right|right; right; by rewrite (usedBytes_same cfg w w1); [lia|]].
      pose proof (emptied_used _ _ _ _ _ Hc Ho Hs). lia.
  - pose proof (owp_run _ _ _ _ _ _ _ _ _ _ (cleanupTemporarySource_spec cfg cwd ok source w Hs) Hl Hrun) as H.
    assert (sized (files w1) /\ usedBytes cfg w1 <= usedBytes cfg w) as [Hs1 Hu] by (by destruct r).
    split; [done|]. split; [lia|right; right; lia].
Qed.

(** The sources that the importer retains stay within their byte budget. Over any
    sequence of uploads, copies of remote sources, extractions of archives and removals,
    of any sizes and whichever calls fail or process ends, the bytes below the temporary
    directory never exceed the budget by more than the one byte that detects the excess;
    and when no call fails they never exceed it. *)
Theorem retained_sources_bounded w w' : sized (files w) ->
  (rtc (storageStep anyFate) w w' -> usedBytes cfg w <= retainedLimit cfg + 1 -> usedBytes cfg w' <= retainedLimit cfg + 1)
  /\ (rtc (storageStep calm) w w' -> usedBytes cfg w <= retainedLimit cfg -> usedBytes cfg w' <= retainedLimit cfg).
Proof using Htemp Hmax.
  intros Hs. split; intros Hsteps; revert Hs; induction Hsteps as [|x y z Hstep _ IH]; intros Hs Hu; [done| |done|];
    destruct (storageStep_budget _ _ _ Hstep Hs) as (Hs1 & H1 & H2); (apply IH; [done|]); [lia|].
  cbn in H2. destruct H2 as [[]|[[]|H2]]. lia.
Qed.
End Budget.

(** ** Examples *)

Definition exampleConfig : config := mkConfig ["srv"; "imports"] ["srv"; "tmp"] 100 10 100 8 5 5 1000 3.

Definition noImports : imports := mkImports ∅ [] ∅ ∅ ∅ ∅ {[["srv"]; ["srv"; "tmp"]]} ∅ ∅ false.

Definition exampleArchive : list zipEntry := [mkEntry ".." true 0 0; mkEntry "data/./roads.shp" false 5 5; mkEntry "readme" false 1 1].

Lemma archive_confined_witness :
  (extractArchive exampleConfig "j" exampleArchive (noImports, [])).1 = Done ["srv"; "tmp"; "extract-j"; "data"; "roads.shp"]
  /\ usedBytes exampleConfig (extractArchive exampleConfig "j" exampleArchive (noImports, [])).2.1 <= 10.
Proof.
  set (run := extractArchive exampleConfig "j" exampleArchive (noImports, [])).
  assert (Hr : run.1 = Done ["srv"; "tmp"; "extract-j"; "data"; "roads.shp"]) by (vm_compute; reflexivity).
  split; [exact Hr|].
  assert (Hrun : extractArchive exampleConfig "j" exampleArchive (noImports, []) = (run.1, (run.2.1, run.2.2)))
    by (fold run; by destruct run as [? []]).
  rewrite Hr in Hrun.
  destruct (archive_confined exampleConfig "j" exampleArchive noImports [] _ _ _ ltac:(done) ltac:(by repeat constructor)
              ltac:(apply map_Forall_empty) Hrun) as (_ & _ & _ & _ & _ & H & _).
  exact H.
Defined.

Definition uploadOf (id : string) (size : Z) : imp ImportJob := CreateUpload exampleConfig (fun _ => true) 0 id id "w" "" "roads.gpkg" "" size.

Lemma retained_sources_bounded_witness :
  usedBytes exampleConfig (uploadOf "1" 7 (noImports, [])).2.1 = 7
  /\ usedBytes exampleConfig (uploadOf "2" 5 (uploadOf "1" 7 (noImports, [])).2).2.1 <= 10.
Proof.
  split; [vm_compute; reflexivity|].
  set (first := uploadOf "1" 7 (noImports, [])).
  assert (Hl : first.2.2 = []) by (vm_compute; reflexivity).
  assert (Hd1 : first.1 = Died -> False) by (vm_compute; discriminate).
  set (second := uploadOf "2" 5 first.2). assert (Hd2 : second.1 = Died -> False) by (vm_compute; discriminate).
  apply (retained_sources_bounded exampleConfig "/" (fun _ => true) ltac:(done) ltac:(done) noImports second.2.1 (map_Forall_empty _));
    [|vm_compute; discriminate].
  eapply rtc_l; [|eapply rtc_l; [|apply rtc_refl]].
  - eapply (step_upload _ _ _ calm noImports 0 "1" "1" "w" "" "roads.gpkg" "" 7 [] first.1 first.2.1 first.2.2); [constructor|done|].
    change (first = (first.1, (first.2.1, first.2.2))). by destruct first as [? []].
  - eapply (step_upload _ _ _ calm first.2.1 0 "2" "2" "w" "" "roads.gpkg" "" 5 [] second.1 second.2.1 second.2.2); [constructor|done|].
    change (uploadOf "2" 5 (first.2.1, []) = (second.1, (second.2.1, second.2.2))). rewrite <- Hl.
    assert (uploadOf "2" 5 (first.2.1, first.2.2) = second) as -> by (unfold second; by destruct first as [? []]).
    by destruct second as [? []].
Defined.

(** A process that dies between the copy of an upload and its job leaves bytes that no
    job owns and nothing removes; they count against the budget, so that later uploads
    are refused. *)
Example orphaned_upload_blocks_uploads :
  let died := (uploadOf "1" 50 (noImports, [Works; Works; Works; Works; Works; Dies])).2 in
  (uploadOf "1" 50 (noImports, [Works; Works; Works; Works; Works; Dies])).1 = Died
  /\ import_jobs died.1 = ∅
  /\ usedBytes exampleConfig died.1 = 11
  /\ (uploadOf "2" 1 (died.1, [])).1 = Failed (Refused "retained import sources exceed the byte budget").
Proof. vm_compute. done. Qed.
