(* ===== verification/Importer.v ===== *)
(** * Managed imports ([internal/importer/manager.go], [recovery.go])

    The manager of import jobs: their API operations, the worker that discovers and
    transforms a source, publication, rollback, cancellation, and recovery at the start
    of the process. Operations under the claim mutex are one computation each; a request
    to cancel and the end of the context may come before any of their calls. The
    coordinator of deletions is known by the operations it has accepted. *)

From stdpp Require Import sorting.
From S2P Require Import Prelude GoText GoPath ImportPlan Faults ImportStore ImportFiles.

(** ** What is not the importer's *)

(** The path policy, the reader of archives and sources, the database. *)
Record environment : Type := mkEnvironment {
  (** [pathpolicy.Check] *)
  pathAllowed : string -> bool;
  (** [pathpolicy.Acquire]: the path, and the name and size of a cached download *)
  acquire : string -> option (string * option (string * Z));
  (** the entries of an archive *)
  zipEntries : string -> option (list zipEntry);
  (** the layers of a source with their properties and counts *)
  discoverLayers : string -> option (list ImportDiscoveredLayer);
  (** [os.Stat] of a path that is not the importer's *)
  foreignSize : string -> option Z;
  (** the type of a Parquet geometry column *)
  parquetType : string -> string -> string;
  (** rows, non-null and distinct identifiers of a transformed layer *)
  layerCounts : string -> ImportLayerPlan -> Z * Z * Z;
  errorText : importError -> string }.

Section Manager.
Context (cfg : config) (cwd : string) (registered : string -> bool) (env : environment).

(** ** Paths *)

Definition stagingDir : path := Root cfg ++ [".staging"].
Definition finalPath (workspaceID id : string) : path := Root cfg ++ [workspaceID; id +:+ ".duckdb"].
Definition stagePath (id revision : string) : path := stagingDir ++ [id +:+ ".revision-" +:+ revision +:+ ".duckdb"].
Definition walOf (p : path) : path := removelast p ++ [lastOr "" p +:+ ".wal"].

(** ** Cancellation and failure *)

Definition cancelled (bound : bool) (id : string) : imp bool :=
  try (db bound (GetImportJob id)) ≫= fun r => mret (match r with inr j => CancelRequested j | inl _ => false end).

Definition nameBefore (a b : string) : Prop := String.leb a b = true.
#[export] Instance nameBefore_dec : RelDecision nameBefore. Proof. intros a b. unfold nameBefore. apply _. Defined.

(** The names in the staging directory ([os.ReadDir]). *)
Definition stagingNames (w : imports) : list string :=
  merge_sort nameBefore
    (omap (fun p => if bool_decide (removelast p = stagingDir) then last p else None) ((map_to_list (files w)).*1)).

Definition revisionOf (id name : string) : bool :=
  HasPrefix name (id +:+ ".revision-") || String.eqb name (id +:+ ".duckdb") || String.eqb name (id +:+ ".duckdb.wal").

Definition isSelected (selected : option path) (p : path) : bool :=
  match selected with Some s => bool_decide (p = s) || bool_decide (p = walOf s) | None => false end.

Fixpoint removeRevisions (id : string) (selected : option path) (names : list string) : imp unit :=
  match names with
  | [] => mret tt
  | name :: rest =>
      let p := stagingDir ++ [name] in
      (if revisionOf id name && negb (isSelected selected p) then removeOwnedFile p else mret tt) ≫= fun _ =>
      removeRevisions id selected rest
  end.

Definition removeUnselectedRevisions (id : string) (selected : option path) : imp unit :=
  io Some ≫= fun _ => oget stagingNames ≫= fun names => removeRevisions id selected names.

(** [store.ErrNotFound] is no error here. *)
Definition findAsset (bound : bool) (id : string) : imp (option ManagedAsset) :=
  try (db bound (GetManagedAssetByImport id)) ≫= fun r =>
  match r with inr a => mret (Some a) | inl ErrNotFound => mret None | inl e => ofail e end.

Definition cancelledUpdate (now : Z) : ImportJobUpdate :=
  withStatus ImportCancelled (withCompletedAt now (withManagedPath [] (withErrorMessage "" noUpdate))).

Definition cleanupCancelled (now : Z) (bound : bool) (job : ImportJob) : imp unit :=
  db bound (GetImportJob (ID job)) ≫= fun current =>
  if negb (String.eqb (ServiceID current) "") then ofail (Refused "cannot clean a cancelled import that still owns a published service")
  else
    cleanupTemporarySource cfg cwd (SourcePath current) ≫= fun _ =>
    findAsset bound (ID job) ≫= fun asset =>
    (match asset with
     | Some a => removeOwnedFile (assetPath a) ≫= fun _ => removeOwnedFile (walOf (assetPath a))
     | None => mret tt
     end) ≫= fun _ =>
    removeOwnedFile (finalPath (WorkspaceID job) (ID job)) ≫= fun _ =>
    removeUnselectedRevisions (ID job) None ≫= fun _ =>
    db bound (DeleteManagedAsset (ID job)) ≫= fun _ =>
    db bound (UpdateImportJob now (ID job) (cancelledUpdate now)) ≫= fun _ => mret tt.

(** The error that [markCancelled] returns. *)
Definition markCancelled (now : Z) (job : ImportJob) : imp importError :=
  try (cleanupCancelled now false job) ≫= fun r => mret (match r with inl e => e | inr _ => ErrCanceled end).

Definition failedUpdate (now : Z) (message : string) : ImportJobUpdate :=
  withStatus ImportFailed (withCompletedAt now (withErrorMessage message noUpdate)).

(** [fail]: the error that its caller returns. *)
Definition fail (now : Z) (bound : bool) (job : ImportJob) (cause : importError) : imp importError :=
  cancelled bound (ID job) ≫= fun c : bool =>
  if c then markCancelled now job ≫= fun _ => mret cause
  else
    try (db bound (UpdateImportJob now (ID job) (failedUpdate now (sanitizeError (errorText env cause))))) ≫= fun r =>
    match r with
    | inl ErrCanceled => markCancelled now job
    | _ => mret cause
    end.

Definition failing {A} (now : Z) (bound : bool) (job : ImportJob) (cause : importError) : imp A :=
  fail now bound job cause ≫= fun e => ofail e.

(** ** API operations under the claim mutex *)

(** The URL is given by what [url.Parse] tells of it. *)
Record sourceURL : Type := mkURL { urlScheme : string; urlPath : string; hasUser : bool; RawQuery : string; Fragment : string; urlText : string }.

Definition CreateURI (now : Z) (id workspaceID name rawURI createdBy : string) (parsed : option sourceURL) : imp ImportJob :=
  if negb (registered workspaceID) then ofail ErrWorkspaceNotFound
  else match parsed with
       | None => ofail (Refused "invalid source_uri")
       | Some u =>
           if hasUser u || negb (String.eqb (RawQuery u) "") || negb (String.eqb (Fragment u) "")
           then ofail (Refused "source_uri must not contain credentials, query parameters, or fragments")
           else if negb (String.eqb (urlScheme u) "") && negb (EqualFold (urlScheme u) "https")
           then ofail (Refused "managed imports support local allowlisted paths and HTTPS sources")
           else if negb (pathAllowed env rawURI) then ofail ErrSource
           else db true (CreateImportJob now id
                  (mkInput workspaceID (if String.eqb name "" then sourceBaseName (urlPath u) else name) "uri" (urlText u) rawURI
                     (Base (urlPath u)) createdBy ""))
       end.

Definition planUpdate (plan : ImportPlan) : ImportJobUpdate :=
  clearingCompletedAt (withPlan plan (withStatus ImportQueued (withPhase ImportPhaseValidate
    (withCancelRequested false (withErrorMessage "" noUpdate))))).

(** Whether a source path is a regular file: one of the importer's, or of the operating system. *)
Definition sourceThere (source : string) (w : imports) : bool :=
  regularFile (cleanParts (Abs cwd source)) w || bool_decide (is_Some (foreignSize env source)).

Definition SetPlan (now : Z) (id : string) (plan : ImportPlan) : imp ImportJob :=
  db true (GetImportJob id) ≫= fun job =>
  if negb (match Status job with ImportAwaitingPlan | ImportReadyToPublish | ImportFailed => true | _ => false end)
  then ofail (Refused "import is not accepting a plan")
  else if negb (String.eqb (ServiceID job) "") || bool_decide (Phase job = ImportPhaseRollback)
  then ofail (Refused "publication recovery must finish before changing the import plan")
  else match validatePlan (MaxLayers cfg) (Discovery job) (Some plan) with
       | inl e => ofail (InvalidPlan e)
       | inr plan =>
           oget (sourceThere (SourcePath job)) ≫= fun there : bool =>
           if negb there then ofail (Refused "import source is no longer available; upload the dataset again")
           else db true (UpdateImportJob now id (planUpdate plan))
       end.

Definition Cancel (now : Z) (id : string) : imp unit :=
  db true (GetImportJob id) ≫= fun job =>
  if negb (String.eqb (ServiceID job) "") || bool_decide (Phase job = ImportPhaseRollback)
  then ofail (Refused "published imports must be removed through publication rollback")
  else
    db true (RequestImportCancel now id) ≫= fun _ =>
    oget (fun w => bool_decide (id ∈ active w)) ≫= fun isActive : bool =>
    match Status job with
    | ImportRunning => mret tt
    | ImportCancelling => if isActive then mret tt else cleanupCancelled now true job
    | _ => cleanupCancelled now true job
    end.

(** A call of the deletion coordinator. *)
Definition coordinate {A} (c : imports -> option (A * imports)) : imp A :=
  fateOf ≫= fun f : bool => direct (fun s =>
  if f then (Failed ErrStore, s)
  else match c s.1 with Some (a, w) => (Done a, (w, s.2)) | None => (Failed ErrNotFound, s) end).

(** [Retry] of the coordinator restarts an operation that failed. *)
Definition retryDeletion (operationID : string) (w : imports) : option (unit * imports) :=
  match deletions w !! operationID with
  | Some (mkDeletion s (DeletionFailed _)) => Some (tt, set_deletions (<[operationID := mkDeletion s DeletionRunning]> (deletions w)) w)
  | _ => None
  end.

Definition Retry (now : Z) (hasRollback : bool) (id : string) : imp ImportJob :=
  db true (GetImportJob id) ≫= fun job =>
  if negb (bool_decide (Status job = ImportFailed)) then ofail (Refused "only failed imports can be retried")
  else if MaxRetries cfg <=? RetryCount job then ofail (Refused "import retry limit reached")
  else if bool_decide (Phase job = ImportPhaseRollback) && negb (String.eqb (RollbackOperationID job) "") then
    if negb hasRollback then ofail (Refused "catalog lifecycle is unavailable")
    else
      coordinate (retryDeletion (RollbackOperationID job)) ≫= fun _ =>
      db true (UpdateImportJob now id (clearingCompletedAt (withRetryCount (RetryCount job + 1)
        (withStatus ImportRollingBack (withErrorMessage "" noUpdate)))))
  else
    db true (UpdateImportJob now id (withRetryCount (RetryCount job + 1) (withStatus ImportQueued
      (withCancelRequested false (withErrorMessage "" noUpdate))))).

(** ** Publication *)

(** The promotion of the managed database; a missing source is recovered when the target is there. *)
Definition promote (from to : path) : imp unit :=
  fateOf ≫= fun f : bool => direct (fun s =>
  if f then (Failed ErrFile, s)
  else match files s.1 !! from with
       | Some _ => match Rename from to s.1 with Some w => (Done tt, (w, s.2)) | None => (Failed ErrFile, s) end
       | None => if regularFile to s.1 then (Done tt, s) else (Failed ErrFile, s)
       end).

Definition layerRows (plan : ImportPlan) : list LayerRow :=
  (fun item => mkLayerRow (PublicID item) (PublicID item) (Title item) (Description item) (Enabled item)
                 (if TargetSRID item =? 0 then SourceSRID item else TargetSRID item) (Public item) (AllowedRoles item))
  <$> PlanLayers plan.

(** The errors of the source's removal and of the refresh of the runtime are only logged. *)
Definition finishPublish (now : Z) (serviceID : string) (job : ImportJob) (plan : ImportPlan) : imp unit :=
  try (db true (GetManagedAssetByImport (ID job))) ≫= fun r =>
  match r with
  | inl e => failing now true job e
  | inr asset =>
      let final := finalPath (WorkspaceID job) (ID job) in
      try (io (MkdirAll (removelast final))) ≫= fun made =>
      match made with
      | inl e => failing now true job e
      | inr _ =>
          try (if bool_decide (assetPath asset = final) then mret tt else promote (assetPath asset) final) ≫= fun promoted =>
          match promoted with
          | inl e => failing now true job e
          | inr _ =>
              try (db true (PublishImport now serviceID
                     (mkPublish (ID job) (WorkspaceID job) final (EncryptionKey asset) (ServiceName plan) (layerRows plan)))) ≫= fun done =>
              match done with
              | inl e =>
                  (if bool_decide (assetPath asset = final) then mret tt else ignoring (io (Rename final (assetPath asset)))) ≫= fun _ =>
                  failing now true job e
              | inr _ =>
                  ignoring (db true (GetImportJob (ID job))) ≫= fun _ =>
                  ignoring (cleanupTemporarySource cfg cwd (SourcePath job))
              end
          end
      end
  end.

Definition publishingUpdate : ImportJobUpdate := withStatus ImportPublishing (withPhase ImportPhasePublish noUpdate).

Definition Publish (now : Z) (serviceID id : string) : imp unit :=
  db true (GetImportJob id) ≫= fun job =>
  if negb (bool_decide (Status job = ImportReadyToPublish)) then ofail (Refused "import is not ready to publish")
  else match Plan job with
       | None => ofail (Refused "import plan is missing")
       | Some plan =>
           db true (UpdateImportJob now id publishingUpdate) ≫= fun _ => finishPublish now serviceID job plan
       end.

(** ** Rollback *)

(** The coordinator accepts the deletion of a service under a new identifier. *)
Definition startDeletion (operationID serviceID : string) (w : imports) : option (string * imports) :=
  match services w !! serviceID, deletions w !! operationID with
  | Some _, None => Some (operationID, set_deletions (<[operationID := mkDeletion serviceID DeletionRunning]> (deletions w)) w)
  | _, _ => None
  end.

Definition findDeletion (serviceID : string) (w : imports) : option string :=
  fst <$> List.find (fun kv => String.eqb (deletedService kv.2) serviceID) (map_to_list (deletions w)).

Definition Rollback (now : Z) (hasRollback : bool) (operationID id : string) : imp ImportJob :=
  db true (GetImportJob id) ≫= fun job =>
  if negb (bool_decide (Status job = ImportPublished)) then ofail (Refused "only published imports can be rolled back")
  else if negb hasRollback then ofail (Refused "catalog lifecycle is unavailable")
  else
    db true (UpdateImportJob now id (withStatus ImportRollingBack (withPhase ImportPhaseRollback noUpdate))) ≫= fun job =>
    try (coordinate (startDeletion operationID (ServiceID job))) ≫= fun r =>
    match r with
    | inl e => failing now true job e
    | inr op => db true (UpdateImportJob now id (withRollbackOperationID op noUpdate))
    end.

Definition recoverRollback (now : Z) (hasRollback : bool) (operationID : string) (job : ImportJob) : imp unit :=
  if negb hasRollback then ofail (Refused "catalog lifecycle is unavailable")
  else if String.eqb (RollbackOperationID job) "" then
    fateOf ≫= fun f : bool => if f then ofail ErrStore
    else
      oget (findDeletion (ServiceID job)) ≫= fun found =>
      (match found with
       | Some op => mret op
       | None => coordinate (startDeletion operationID (ServiceID job))
       end) ≫= fun op =>
      db true (UpdateImportJob now (ID job) (withRollbackOperationID op noUpdate)) ≫= fun _ => mret tt
  else mret tt.

Definition rolledBackUpdate (now : Z) : ImportJobUpdate :=
  withStatus ImportRolledBack (withPhase ImportPhaseRollback (withCompletedAt now noUpdate)).

(** One tick of [finishRollback]: whether the goroutine ends. *)
Definition watchTick (now : Z) (job : ImportJob) (operationID : string) : imp bool :=
  fateOf ≫= fun f : bool => if f then mret false
  else
    oget (fun w => deletions w !! operationID) ≫= fun op =>
    match deletionStatus <$> op with
    | Some DeletionCompleted => ignoring (db true (UpdateImportJob now (ID job) (rolledBackUpdate now))) ≫= fun _ => mret true
    | Some (DeletionFailed text) => fail now true job (Refused text) ≫= fun _ => mret true
    | _ => mret false
    end.

(** ** The worker *)

Definition claim (now : Z) : imp (option ImportJob) :=
  db true ListRunnableImportJobs ≫= fun jobs =>
  match jobs with
  | [] => mret None
  | job :: _ =>
      db true (UpdateImportJob now (ID job) (withStatus ImportRunning (withStartedAt now noUpdate))) ≫= fun job =>
      omod (fun w => set_active ({[ID job]} ∪ active w) w) ≫= fun _ => mret (Some job)
  end.

(** [_, _ = m.store.UpdateImportJob(...)]. *)
Definition progress (now : Z) (id : string) (u : ImportJobUpdate) : imp unit := ignoring (db true (UpdateImportJob now id u)).

(** The source of a job of the kind [uri] that has not been acquired: its path. *)
Definition acquireSource (now : Z) (suffix : string) (job : ImportJob) : imp string :=
  if String.eqb (SourceKind job) "uri" && String.eqb (SourceRelativePath job) "" then
    fateOf ≫= fun f : bool => if f then ofail ErrSource
    else match acquire env (SourcePath job) with
         | None => ofail ErrSource
         | Some (source, None) =>
             db true (UpdateImportJob now (ID job) (withSourcePath source noUpdate)) ≫= fun _ => mret source
         | Some (_, Some (cachedName, size)) =>
             adoptRemoteSource cfg suffix (SourceFilename job) cachedName size ≫= fun '(source, relative) =>
             db true (UpdateImportJob now (ID job) (withSourcePath source (withSourceRelativePath relative noUpdate))) ≫= fun _ =>
             mret source
         end
  else mret (SourcePath job).

(** An archive is replaced by the source in it. *)
Definition openArchive (now : Z) (job : ImportJob) (source : string) : imp string :=
  if EqualFold (Ext source) ".zip" then
    match zipEntries env source with
    | None => ofail ErrSource
    | Some entries =>
        extractArchive cfg (ID job) entries ≫= fun extracted =>
        let path := pathString extracted in
        match Rel (pathString (TemporaryDirectory cfg)) path with
        | None => ofail ErrFile
        | Some relative =>
            db true (UpdateImportJob now (ID job) (withSourcePath path (withSourceRelativePath relative noUpdate))) ≫= fun _ =>
            cleanupTemporarySource cfg cwd source ≫= fun _ => mret path
        end
    end
  else mret source.

Definition sourceSize (source : string) (w : imports) : option Z :=
  match files w !! cleanParts (Abs cwd source) with Some n => Some n | None => foreignSize env source end.

(** The loop over the layers: cancellation, their counts against the limit. *)
Fixpoint inspectLayers (id : string) (total : Z) (layers : list ImportDiscoveredLayer) : imp Z :=
  match layers with
  | [] => mret total
  | layer :: rest =>
      cancelled true id ≫= fun c : bool => if c then ofail ErrCanceled
      else
        fateOf ≫= fun f : bool => if f then ofail ErrSource
        else
          let total := total + discFeatureCount layer in
          if MaxFeatures cfg <? total then ofail (Refused "source exceeds feature limit") else inspectLayers id total rest
  end.

Definition discover (now : Z) (suffix : string) (job : ImportJob) : imp unit :=
  progress now (ID job) (withPhase ImportPhaseAcquire noUpdate) ≫= fun _ =>
  acquireSource now suffix job ≫= fun source =>
  openArchive now job source ≫= fun source =>
  oget (sourceSize source) ≫= fun size =>
  (match size with
   | Some n => if MaxSourceBytes cfg <? n then ofail (Refused "source exceeds byte limit")
               else progress now (ID job) (withProcessedBytes n noUpdate)
   | None => mret tt
   end) ≫= fun _ =>
  cancelled true (ID job) ≫= fun c : bool => if c then ofail ErrCanceled
  else
    progress now (ID job) (withPhase ImportPhaseDiscover noUpdate) ≫= fun _ =>
    match discoverLayers env source with
    | None => ofail ErrSource
    | Some [] => ofail (Refused "source contains no vector layers")
    | Some layers =>
        if MaxLayers cfg <? Z.of_nat (length layers) then ofail (Refused "source exceeds layer limit")
        else
          inspectLayers (ID job) 0 layers ≫= fun total =>
          cancelled true (ID job) ≫= fun c : bool => if c then ofail ErrCanceled
          else
            db true (UpdateImportJob now (ID job) (withDiscovery layers (withStatus ImportAwaitingPlan
              (withTotalLayers (Z.of_nat (length layers)) (withProcessedFeatures total noUpdate))))) ≫= fun _ => mret tt
    end.

(** A statement on the managed database that is being built. *)
Definition exec : imp unit := fateOf ≫= fun f : bool => if f then ofail ErrSource else mret tt.

(** The layer as the statement sees it. *)
Definition statementSource (source : string) (layer : ImportDiscoveredLayer) : ImportDiscoveredLayer :=
  if isParquet source
  then mkDiscovered (discName layer) (discTitle layer) (discDescription layer) (discGeometryType layer) (discIDColumn layer)
         (discGeometryColumn layer) (discSRID layer) (discFeatureCount layer)
         (discProperties layer ++ [mkProperty (discGeometryColumn layer) (parquetType env source (discGeometryColumn layer))])
  else layer.

Definition emptyLayer : ImportDiscoveredLayer := mkDiscovered "" "" "" "" "" "" 0 0 [].

Fixpoint transformLayers (now : Z) (id source : string) (layers : gmap string ImportDiscoveredLayer) (processed features : Z)
    (plans : list ImportLayerPlan) : imp unit :=
  match plans with
  | [] => mret tt
  | plan :: rest =>
      cancelled true id ≫= fun c : bool => if c then ofail ErrCanceled
      else
        (if isParquet source then exec else mret tt) ≫= fun _ =>
        match buildTransformSQL source (statementSource source (default emptyLayer (layers !! SourceLayer plan))) plan with
        | inl e => ofail (InvalidPlan e)
        | inr (_, idColumn) =>
            exec ≫= fun _ => exec ≫= fun _ =>
            let '(total, nonNull, distinct) := layerCounts env source plan in
            if negb (total =? nonNull) || negb (total =? distinct) then ofail (Refused "id column must be non-null and unique")
            else
              exec ≫= fun _ => exec ≫= fun _ =>
              progress now id (withProcessedLayers (processed + 1) (withProcessedFeatures (features + total) noUpdate)) ≫= fun _ =>
              transformLayers now id source layers (processed + 1) (features + total) rest
        end
  end.

(** The last section, under the claim mutex: the candidate replaces the previous revision. *)
Definition selectRevision (now : Z) (job : ImportJob) (stage : path) (key : string) : imp unit :=
  cancelled true (ID job) ≫= fun c : bool => if c then ofail ErrCanceled
  else
    findAsset true (ID job) ≫= fun previous =>
    db true (CompleteImportTransform now (mkAsset (ID job) (WorkspaceID job) "" stage key now)) ≫= fun _ =>
    match previous with
    | Some a => ignoring (removeOwnedFile (assetPath a))
    | None => mret tt
    end.

(** The candidate and its log are removed unless it was selected. *)
Definition unlessSelected (stage : path) (c : imp unit) : imp unit :=
  try c ≫= fun r => match r with
                    | inr _ => mret tt
                    | inl e => ignoring (removeOwnedFile stage) ≫= fun _ => ignoring (removeOwnedFile (walOf stage)) ≫= fun _ => ofail e
                    end.

Definition transform (now : Z) (revision key : string) (job : ImportJob) : imp unit :=
  match validatePlan (MaxLayers cfg) (Discovery job) (Plan job) with
  | inl e => ofail (InvalidPlan e)
  | inr plan =>
      progress now (ID job) (withPhase ImportPhaseTransform (withProcessedLayers 0 (withProcessedFeatures 0 noUpdate))) ≫= fun _ =>
      let stage := stagePath (ID job) revision in
      unlessSelected stage (
        io (writeFile stage 0) ≫= fun _ =>
        exec ≫= fun _ =>
        transformLayers now (ID job) (SourcePath job) (sourcesOf (default [] (Discovery job))) 0 0 (PlanLayers plan) ≫= fun _ =>
        exec ≫= fun _ => exec ≫= fun _ =>
        selectRevision now job stage key)
  end.

Definition run (now : Z) (suffix revision key : string) (job : ImportJob) : imp unit :=
  try (match Discovery job, Plan job with
       | None, _ => discover now suffix job
       | Some _, Some _ => transform now revision key job
       | Some _, None => db true (UpdateImportJob now (ID job) (withStatus ImportAwaitingPlan noUpdate)) ≫= fun _ => mret tt
       end) ≫= fun r =>
  cancelled false (ID job) ≫= fun c : bool =>
  (match (if c then inl ErrCanceled else r) with
   | inl e => fail now false job e ≫= fun _ => mret tt
   | inr _ => mret tt
   end) ≫= fun _ =>
  omod (fun w => set_active (active w ∖ {[ID job]}) w).

(** A round of [worker] that holds a slot. *)
Definition work (now : Z) (suffix revision key : string) : imp unit :=
  try (claim now) ≫= fun r =>
  match r with inr (Some job) => run now suffix revision key job | _ => mret tt end.

(** ** The start of the process *)

Definition recoverJob (now : Z) (hasRollback : bool) (serviceID operationID : string) (job : ImportJob) : imp unit :=
  match Status job with
  | ImportPublished => ignoring (cleanupTemporarySource cfg cwd (SourcePath job))
  | ImportCancelling | ImportCancelled => cleanupCancelled now true job
  | ImportPublishing =>
      match Plan job with
      | Some plan => ignoring (finishPublish now serviceID job plan)
      | None => mret tt
      end
  | ImportRollingBack =>
      try (recoverRollback now hasRollback operationID job) ≫= fun r =>
      match r with inl e => fail now false job e ≫= fun _ => mret tt | inr _ => mret tt end
  | _ => mret tt
  end.

(** New identifiers for each job. *)
Fixpoint recoverJobs (now : Z) (hasRollback : bool) (newID : string -> string) (jobs : list ImportJob) : imp unit :=
  match jobs with
  | [] => mret tt
  | job :: rest =>
      recoverJob now hasRollback (newID (ID job)) (newID (ID job)) job ≫= fun _ => recoverJobs now hasRollback newID rest
  end.

Definition recoverInterrupted (now : Z) (hasRollback : bool) (newID : string -> string) : imp unit :=
  db true ListInterruptedImportJobs ≫= fun jobs => recoverJobs now hasRollback newID jobs.

(** [strings.Cut(name, sep)]: what is before the first [sep]. *)
Fixpoint cutBefore (sep s : string) : option string :=
  if HasPrefix s sep then Some ""
  else match s with EmptyString => None | String c r => String c <$> cutBefore sep r end.

Fixpoint cleanupRevisions (seen : gset string) (names : list string) : imp unit :=
  match names with
  | [] => mret tt
  | name :: rest =>
      match cutBefore ".revision-" name with
      | None => cleanupRevisions seen rest
      | Some id =>
          if bool_decide (id ∈ seen) then cleanupRevisions seen rest
          else
            try (db true (GetImportJob id)) ≫= fun r =>
            match r with
            | inl ErrNotFound => cleanupRevisions ({[id]} ∪ seen) rest
            | inl e => ofail e
            | inr _ =>
                findAsset true id ≫= fun asset =>
                removeUnselectedRevisions id (assetPath <$> asset) ≫= fun _ => cleanupRevisions ({[id]} ∪ seen) rest
            end
      end
  end.

Definition cleanupAbandonedRevisions : imp unit :=
  io Some ≫= fun _ => oget stagingNames ≫= fun names => cleanupRevisions ∅ names.

(** The worker pool and the directories apart. *)
Definition New (now : Z) (hasRollback : bool) (newID : string -> string) : imp unit :=
  db true (ResetInterruptedImportJobs now) ≫= fun _ =>
  omod (set_active ∅) ≫= fun _ =>
  recoverInterrupted now hasRollback newID ≫= fun _ =>
  cleanupAbandonedRevisions.

(** *** Relocation of managed databases *)

Definition suffixed (p : path) (suffix : string) : path := removelast p ++ [lastOr "" p +:+ suffix].

(** Where the database of an asset is found. *)
Definition relocated (job : ImportJob) (asset : ManagedAsset) (w : imports) : option path :=
  let base := lastOr "" (assetPath asset) in
  let stage := if HasPrefix base (ID job +:+ ".revision-") then stagingDir ++ [base] else stagingDir ++ [ID job +:+ ".duckdb"] in
  let final := finalPath (WorkspaceID job) (ID job) in
  let promoted := match Status job with
                  | ImportPublished | ImportPublishing | ImportRollingBack =>
                      regularFile final w || (negb (String.eqb (RollbackOperationID job) "")
                                              && regularFile (suffixed final (".deleting-" +:+ RollbackOperationID job)) w)
                  | _ => false
                  end in
  if promoted then Some final
  else if regularFile stage w then Some stage
  else if regularFile final w then Some final
  else None.

Fixpoint relocateAssets (now : Z) (assets : list ManagedAsset) : imp unit :=
  match assets with
  | [] => mret tt
  | asset :: rest =>
      db true (GetImportJob (assetImport asset)) ≫= fun job =>
      oget (relocated job asset) ≫= fun candidate =>
      (match candidate with
       | Some p => if bool_decide (p = assetPath asset) then mret tt else db true (UpdateManagedAssetPath now (ID job) p)
       | None => mret tt
       end) ≫= fun _ =>
      relocateAssets now rest
  end.

(** [ReconcileManagedPaths] after the retained sources. *)
Definition ReconcileManagedPaths (now : Z) : imp unit :=
  db true ListManagedAssets ≫= fun assets => relocateAssets now assets.
End Manager.
