(* ===== verification/ImportCorrect.v ===== *)
(** * Correctness of the importer: the invariant

    Which files belong to which import, what holds of the tables and the files together
    in every state of the importer, and which changes keep it. *)

From stdpp Require Import relations.
From S2P Require Import Prelude GoText GoPath ImportPlan Faults ImportStore ImportFiles ImportFilesCorrect Importer.

(** ** Fates in which no context ends *)

Definition attended (f : fate event) : Prop := match f with Before ContextDone => False | _ => True end.

Lemma has_byte_app c a b : has_byte c (a +:+ b) = has_byte c a || has_byte c b.
Proof. induction a as [|d a IH]; [done|]. rewrite sapp_cons. cbn [has_byte]. by rewrite IH, orb_assoc. Qed.

Section Invariant.
Context (cfg : config).

(** ** Owners of files *)

(** Identifiers of imports are UUIDs: no dots and no separators. *)
Definition plain (id : string) : Prop := has_byte "." id = false /\ has_byte "/" id = false.

(** A file of the import [id]: its name is the identifier, a dot and more. *)
Definition owned (id : string) (p : path) : Prop := exists dir rest, p = Root cfg ++ [dir; id +:+ String "." rest].

Lemma owned_unique id id' p : plain id -> plain id' -> owned id p -> owned id' p -> id = id'.
Proof.
  intros [H _] [H' _] (d & r & ->) (d' & r' & He). apply app_inv_head in He. injection He as _ He.
  pose proof (cut_app "." id r H) as Hc. rewrite He in Hc. rewrite (cut_app "." id' r' H') in Hc. by injection Hc as ->.
Qed.

Lemma owned_final ws id : owned id (finalPath cfg ws id).
Proof. by exists ws, "duckdb". Qed.

Lemma owned_stage id revision : owned id (stagePath cfg id revision).
Proof. exists ".staging", ("revision-" +:+ revision +:+ ".duckdb"). unfold stagePath, stagingDir. by rewrite <- app_assoc. Qed.

Lemma owned_revision id name : revisionOf id name = true -> owned id (stagingDir cfg ++ [name]).
Proof.
  unfold revisionOf. intros H. unfold stagingDir. rewrite <- app_assoc. cbn [app].
  apply orb_true_iff in H as [[H|H%String.eqb_eq]%orb_true_iff|H%String.eqb_eq].
  - apply HasPrefix_split in H as [r ->]. exists ".staging", ("revision-" +:+ r). by rewrite sapp_assoc.
  - exists ".staging", "duckdb". by rewrite H.
  - exists ".staging", "duckdb.wal". by rewrite H.
Qed.

Lemma owned_wal id p : owned id p -> owned id (walOf p).
Proof.
  intros (d & r & ->). exists d, (r +:+ ".wal"). unfold walOf. change [d; ?x] with ([d] ++ [x]). rewrite app_assoc, removelast_last.
  unfold lastOr. rewrite last_snoc. simpl. by rewrite <- app_assoc, sapp_assoc.
Qed.

Lemma owned_root id p : owned id p -> below (Root cfg) p = true.
Proof. intros (d & r & ->). unfold below. apply bool_decide_true. by eexists. Qed.

(** ** The invariant *)

(** The service of a job is being kept or removed through the coordinator. *)
Definition settled (j : ImportJob) : Prop :=
  match Status j with
  | ImportPublished => True
  | ImportRollingBack | ImportRolledBack | ImportFailed => Phase j = ImportPhaseRollback
  | _ => False
  end.

Definition ending (s : ImportStatus) : bool := match s with ImportCancelling | ImportCancelled => true | _ => false end.

Record jobOk (id : string) (j : ImportJob) : Prop := {
  jo_id : ID j = id;
  jo_plain : plain id;
  jo_workspace : WorkspaceID j <> ".staging";
  jo_cancel : CancelRequested j = true -> ending (Status j) = true;
  jo_service : ServiceID j <> "" -> settled j }.

Record assetOk (id : string) (a : ManagedAsset) : Prop := { ao_id : assetImport a = id; ao_path : owned id (assetPath a) }.

(** No deletion of the service has begun. *)
Definition undeleted (s : string) (w : imports) : Prop := forall op d, deletions w !! op = Some d -> deletedService d <> s.

(** A published service has its database. *)
Definition serviceOk (s : string) (row : ServiceRow) (w : imports) : Prop :=
  exists j a, import_jobs w !! managedImportID row = Some j /\ ServiceID j = s
    /\ managed_assets w !! managedImportID row = Some a /\ assetService a = s
    /\ assetPath a = finalPath cfg (svcWorkspace row) (managedImportID row) /\ is_Some (files w !! assetPath a).

(** An import that may be published has its database. *)
Definition readyOk (id : string) (j : ImportJob) (w : imports) : Prop :=
  match Status j with
  | ImportReadyToPublish => exists a, managed_assets w !! id = Some a /\ is_Some (files w !! assetPath a)
  | ImportPublishing =>
      exists a, managed_assets w !! id = Some a
        /\ (is_Some (files w !! assetPath a) \/ is_Some (files w !! finalPath cfg (WorkspaceID j) id))
  | _ => True
  end.

Record inv (w : imports) : Prop := {
  i_gone : gone w = false;
  i_sized : sized (files w);
  i_jobs : forall id j, import_jobs w !! id = Some j -> jobOk id j;
  i_assets : forall id a, managed_assets w !! id = Some a -> assetOk id a /\ exists j, import_jobs w !! id = Some j
               /\ (ServiceID j = "" -> assetService a = "");
  i_services : forall s row, services w !! s = Some row -> s <> "" /\ (undeleted s w -> serviceOk s row w);
  i_ready : forall id j, import_jobs w !! id = Some j -> readyOk id j w }.

(** What an operation on the job [id] knows of it. *)
Definition jobIs (P : ImportJob -> Prop) (id : string) (w : imports) : Prop := exists j, import_jobs w !! id = Some j /\ P j.

Definition unpublished (j : ImportJob) : Prop := ServiceID j = "".

(** ** Changes of files *)

(** The invariant looks at databases and at their final places only. *)
Lemma inv_needed w f d : inv w -> sized f ->
  (forall id a, managed_assets w !! id = Some a -> is_Some (files w !! assetPath a) -> is_Some (f !! assetPath a)) ->
  (forall id j, import_jobs w !! id = Some j -> is_Some (files w !! finalPath cfg (WorkspaceID j) id) ->
                is_Some (f !! finalPath cfg (WorkspaceID j) id)) ->
  inv (set_dirs d (set_files f w)).
Proof.
  intros [A Z B C D E] Hz Ha Hf. split; [done|done|done|done|..]; cbn.
  - intros s row Hs. destruct (D s row Hs) as [Hne Hok]. split; [done|]. intros Hu.
    destruct (Hok Hu) as (j & a & H1 & H2 & H3 & H4 & H5 & H6). exists j, a. split_and!; try done. by eapply Ha.
  - intros id j Hj. specialize (E id j Hj). unfold readyOk in *. cbn. destruct (Status j); try done.
    + destruct E as (a & Hl & Hp). exists a. eauto.
    + destruct E as (a & Hl & Hp). exists a. split; [done|]. destruct Hp; [left; by eapply Ha|right; by apply Hf].
Qed.

Lemma inv_files w f d : inv w -> sized f -> (forall id j p, import_jobs w !! id = Some j -> owned id p -> is_Some (files w !! p) -> is_Some (f !! p)) ->
  inv (set_dirs d (set_files f w)).
Proof.
  intros Hi Hz Hf. apply inv_needed; [done|done|..].
  - intros id a Ha. destruct (i_assets _ Hi id a Ha) as ([_ Ho] & j & Hj & _). by apply (Hf id j).
  - intros id j Hj. apply (Hf id j); [done|apply owned_final].
Qed.

Lemma inv_dirs w d : inv w -> inv (set_dirs d w).
Proof. intros [A Z B C D E]. by split. Qed.

(** More files do no harm. *)
Lemma inv_more w f d : inv w -> sized f -> (forall p, is_Some (files w !! p) -> is_Some (f !! p)) -> inv (set_dirs d (set_files f w)).
Proof. intros Hi Hz Hf. apply inv_files; [done|done|]. auto. Qed.

(** A file that belongs to an import without a service and without a database to publish may go. *)
Definition idle (j : ImportJob) : Prop :=
  ServiceID j = "" /\ match Status j with ImportReadyToPublish | ImportPublishing => False | _ => True end.

(** Changes of the files of an import without a service. *)
Lemma inv_own w id j f : inv w -> import_jobs w !! id = Some j -> ServiceID j = "" -> sized f ->
  (forall p, ~ owned id p -> f !! p = files w !! p) -> readyOk id j (set_files f w) -> inv (set_files f w).
Proof.
  intros Hi Hj Hserv Hz Hf Hr. pose proof Hi as [A Z B C D E].
  assert (Hother : forall id', plain id' -> id' <> id -> forall q, owned id' q -> f !! q = files w !! q).
  { intros id' Hpl Hne q Hq. apply Hf. intros Ho. destruct Hne. apply (owned_unique id' id q); [done|by apply (B id j)|done|done]. }
  split; [done|done|done|done|..]; cbn.
  - intros s row Hs. destruct (D s row Hs) as [Hne Hok]. split; [done|]. intros Hu.
    destruct (Hok Hu) as (j' & a & H1 & H2 & H3 & H4 & H5 & H6). exists j', a. split_and!; try done.
    destruct (decide (managedImportID row = id)) as [He|He]; [rewrite He in H1; congruence|].
    cbn. rewrite (Hother (managedImportID row)); [done|by apply (B _ j')|done|]. rewrite H5. apply owned_final.
  - intros id' j' Hj'. specialize (E id' j' Hj'). destruct (decide (id' = id)) as [->|Hne].
    + assert (j' = j) as -> by congruence. done.
    + unfold readyOk in *. cbn in *. specialize (Hother id' (jo_plain _ _ (B id' j' Hj')) Hne). destruct (Status j'); try done.
      * destruct E as (a & Ha & Hf'). exists a. split; [done|]. rewrite Hother; [done|by apply (C id' a Ha)].
      * destruct E as (a & Ha & Hf'). exists a. split; [done|]. rewrite !Hother; [done|apply owned_final|by apply (C id' a Ha)].
Qed.

Lemma inv_remove w p id : inv w -> jobIs idle id w -> owned id p -> inv (set_files (delete p (files w)) w).
Proof.
  intros Hi (j & Hj & Hserv & Hst) Hp. apply (inv_own w id j); [done|done|done|by apply map_Forall_delete, i_sized| |].
  - intros q Hq. apply lookup_delete_ne. by intros ->.
  - unfold readyOk. by destruct (Status j).
Qed.

(** A file of any import that is neither its database nor at its final place may go. *)
Lemma inv_unselected w p id j : inv w -> import_jobs w !! id = Some j -> owned id p -> p <> finalPath cfg (WorkspaceID j) id ->
  (forall a, managed_assets w !! id = Some a -> p <> assetPath a) -> inv (set_files (delete p (files w)) w).
Proof.
  intros Hi Hj Hp Hfin Ha.
  replace (set_files _ w) with (set_dirs (dirs w) (set_files (delete p (files w)) w)) by (by destruct w).
  apply inv_needed; [done|by apply map_Forall_delete, i_sized|..].
  - intros k a Hk Hs. rewrite lookup_delete_ne; [done|]. intros Heq. destruct (decide (k = id)) as [->|Hne]; [by apply (Ha a)|].
    destruct (i_assets _ Hi k a Hk) as ([_ Ho] & x & Hx & _). destruct Hne. apply (owned_unique k id p); [by apply (i_jobs _ Hi k x)|by apply (i_jobs _ Hi id j)| |done].
    by rewrite Heq.
  - intros k x Hx Hs. rewrite lookup_delete_ne; [done|]. intros Heq. destruct (decide (k = id)) as [->|Hne]; [congruence|].
    destruct Hne. apply (owned_unique k id p); [by apply (i_jobs _ Hi k x)|by apply (i_jobs _ Hi id j)| |done]. rewrite Heq. apply owned_final.
Qed.

(** ** Changes of tables *)

Lemma inv_forget w id : inv w -> jobIs idle id w -> inv (set_managed_assets (delete id (managed_assets w)) w).
Proof.
  intros [A Z B C D E] (j & Hj & Hs & Hst). split; [done|done|done|..]; cbn.
  - intros k a [_ Ha]%lookup_delete_Some. by apply C.
  - intros s row Hr. destruct (D s row Hr) as [Hne Hok]. split; [done|]. intros Hu. destruct (Hok Hu) as (x & a & H1 & H2 & H3 & H4).
    exists x, a. cbn. split_and!; try tauto. apply lookup_delete_Some. split; [|done]. intros He. rewrite <- He in H1. congruence.
  - intros k x Hx. specialize (E k x Hx). unfold readyOk in *. cbn. destruct (decide (k = id)) as [->|Hne].
    + assert (x = j) as -> by congruence. by destruct (Status j).
    + by rewrite lookup_delete_ne by done.
Qed.

Lemma inv_event now j w : inv w -> inv (insertImportEvent now j w).
Proof. intros [A Z B C D E]. by split. Qed.

Lemma inv_job w id j j' : inv w -> import_jobs w !! id = Some j -> jobOk id j' -> ServiceID j' = ServiceID j -> readyOk id j' w ->
  inv (storeJob j' w).
Proof.
  intros [A Z B C D E] Hj Hok Hs Hr. pose proof (jo_id _ _ Hok) as Hid. split; [done|done|..]; unfold storeJob; cbn; rewrite Hid.
  - intros k x. destruct (decide (k = id)) as [->|]; [rewrite lookup_insert_eq; by intros [= <-]|rewrite lookup_insert_ne by done; apply B].
  - intros k a Ha. destruct (C k a Ha) as (H1 & x & H2 & H3). split; [done|]. destruct (decide (k = id)) as [->|].
    + exists j'. rewrite lookup_insert_eq. split; [done|]. assert (x = j) as -> by congruence. by rewrite Hs.
    + exists x. by rewrite lookup_insert_ne.
  - intros s row Hrow. destruct (D s row Hrow) as [Hne Hk]. split; [done|]. intros Hu. destruct (Hk Hu) as (x & a & H1 & H2 & H3).
    destruct (decide (managedImportID row = id)) as [He|].
    + exists j', a. unfold serviceOk in *. cbn. rewrite He in *. rewrite lookup_insert_eq. split; [done|]. split; [congruence|done].
    + exists x, a. cbn. by rewrite lookup_insert_ne by done.
  - intros k x. destruct (decide (k = id)) as [->|].
    + rewrite lookup_insert_eq. by intros [= <-].
    + rewrite lookup_insert_ne by done. apply E.
Qed.

(** An update that leaves the service alone and no job half published. *)
Definition quietUpdate (now : Z) (u : ImportJobUpdate) (j : ImportJob) : Prop :=
  uServiceID u = None /\ uCancelRequested u <> Some true
  /\ (ServiceID j <> "" -> settled (applyUpdate now u j))
  /\ match uStatus u with
     | Some ImportReadyToPublish => False
     | Some ImportPublishing => Status j = ImportReadyToPublish
     | _ => True
     end.

Lemma update_guard u j : CancelRequested j && match uStatus u with None | Some ImportCancelled | Some ImportCancelling => false | Some _ => true end = false ->
  jobOk (ID j) j -> uCancelRequested u <> Some true -> forall now,
  CancelRequested (applyUpdate now u j) = true -> ending (Status (applyUpdate now u j)) = true.
Proof.
  intros Hg [_ _ _ Hc _] Hu now. unfold applyUpdate. cbn. intros Hcr.
  destruct (uCancelRequested u) as [[]|]; [done|done|]. cbn in Hcr. specialize (Hc Hcr). rewrite Hcr in Hg.
  destruct (uStatus u) as [[]|]; cbn in *; done.
Qed.

Lemma UpdateImportJob_inv now id u w : inv w -> (forall j, import_jobs w !! id = Some j -> quietUpdate now u j) ->
  inv (UpdateImportJob now id u w).2.
Proof.
  intros Hi Hq. pose proof Hi as [A Z B C D E]. unfold UpdateImportJob. destruct (import_jobs w !! id) as [j|] eqn:Hj; [|done].
  destruct (Hq j eq_refl) as (Hu1 & Hu2 & Hu3 & Hu4). pose proof (B id j Hj) as Hok. pose proof Hok as [O1 O2 O3 O4 O5].
  destruct (CancelRequested j && _) eqn:Hg; [done|].
  assert (Hs : ServiceID (applyUpdate now u j) = ServiceID j) by (unfold applyUpdate; cbn; by rewrite Hu1).
  assert (Hok' : jobOk id (applyUpdate now u j)).
  { split; [done|done|done| |by rewrite Hs]. rewrite <- O1 in Hok. by apply update_guard. }
  assert (inv (storeJob (applyUpdate now u j) w)).
  { apply (inv_job w id j); try done. specialize (E id j Hj). unfold readyOk in *. cbn.
    destruct (uStatus u) as [[]|]; cbn; try done. rewrite Hu4 in E. destruct E as (a & Ha & Hf). exists a. auto. }
  cbn [snd]. destruct (sameEvent j _); [done|by apply inv_event].
Qed.

Lemma RequestImportCancel_inv now id w : inv w -> jobIs unpublished id w -> inv (RequestImportCancel now id w).2.
Proof.
  intros Hi (j & Hj & Hs). unfold RequestImportCancel. rewrite Hj. destruct (cancellable (Status j)); [|done].
  apply inv_event, (inv_job w id j); try done. destruct (i_jobs _ Hi id j Hj). by split.
Qed.

Lemma happen_inv v w : attended (Before v) -> inv w -> inv (happen v w).
Proof.
  destruct v as [now id|]; [|done]. intros _ Hi. cbn. destruct (import_jobs w !! id) as [j|] eqn:Hj; [|done].
  destruct (processed j) eqn:Hp; [|done]. apply RequestImportCancel_inv; [done|]. exists j. split; [done|].
  unfold processed in Hp. rewrite !andb_true_iff in Hp. by apply String.eqb_eq, Hp.
Qed.

(** Facts about a job that a request to cancel does not change. *)
Definition cancelClosed (P : ImportJob -> Prop) : Prop := forall now j, P j -> processed j = true -> P (applyUpdate now cancelUpdate j).

Lemma happen_jobIs P id v w : cancelClosed P -> inv w -> jobIs P id w -> jobIs P id (happen v w).
Proof.
  intros Hc Hi (j & Hj & HP). destruct v as [now k|]; [|by exists j]. cbn. destruct (import_jobs w !! k) as [x|] eqn:Hk; [|by exists j].
  destruct (processed x) eqn:Hp; [|by exists j]. unfold RequestImportCancel. rewrite Hk.
  destruct (cancellable (Status x)); [|by exists j]. pose proof (jo_id _ _ (i_jobs _ Hi k x Hk)) as Hid.
  unfold jobIs, storeJob. cbn. rewrite Hid. destruct (decide (k = id)) as [->|Hne].
  - rewrite lookup_insert_eq. eexists. split; [done|]. assert (x = j) as -> by congruence. by apply Hc.
  - exists j. by rewrite lookup_insert_ne.
Qed.

(** The invariant with a fact about one job. *)
Definition invJob (P : ImportJob -> Prop) (id : string) (w : imports) : Prop := inv w /\ jobIs P id w.

Lemma invJob_stable P id : cancelClosed P -> stable happen attended (invJob P id).
Proof. intros Hc v w Hv [Hi Hj]. split; [by apply happen_inv|by apply happen_jobIs]. Qed.

Lemma importInv_stable : stable happen attended inv.
Proof. intros v w. apply happen_inv. Qed.

Lemma jobIs_mono (P Q : ImportJob -> Prop) id w : (forall j, P j -> Q j) -> jobIs P id w -> jobIs Q id w.
Proof. intros H (j & Hj & HP). exists j. auto. Qed.

Lemma invJob_mono (P Q : ImportJob -> Prop) id w : (forall j, P j -> Q j) -> invJob P id w -> invJob Q id w.
Proof. intros H [Hi Hj]. split; [done|by eapply jobIs_mono]. Qed.

(** An update of the job. *)
Lemma UpdateImportJob_jobIs (P Q : ImportJob -> Prop) now id u w : inv w -> jobIs P id w ->
  (forall j, P j -> Q j) -> (forall j, P j -> Q (applyUpdate now u j)) -> jobIs Q id (UpdateImportJob now id u w).2.
Proof.
  intros Hi (j & Hj & HP) H1 H2. unfold UpdateImportJob. rewrite Hj. destruct (CancelRequested j && _); [exists j; by auto|].
  pose proof (jo_id _ _ (i_jobs _ Hi id j Hj)) as Hid. exists (applyUpdate now u j). split; [|by auto].
  cbn [snd]. destruct (sameEvent j _); unfold storeJob; cbn; rewrite Hid; apply lookup_insert_eq.
Qed.

(** More deletions, or the same in another state. *)
Lemma inv_deletions w d : inv w -> (forall s, undeleted s (set_deletions d w) -> undeleted s w) -> inv (set_deletions d w).
Proof.
  intros [A Z B C D E] Hd. split; try done. cbn. intros s row Hs. destruct (D s row Hs) as [Hne Hok]. split; [done|].
  intros Hu. by apply Hok, Hd.
Qed.

(** A transformed revision is selected. *)
Lemma CompleteImportTransform_inv now id ws stage key w : inv w -> jobIs (fun j => ServiceID j = "") id w -> owned id stage ->
  is_Some (files w !! stage) -> inv (CompleteImportTransform now (mkAsset id ws "" stage key now) w).2.
Proof.
  intros Hi (j & Hj & Hs) Ho Hf. unfold CompleteImportTransform. cbn [assetImport assetPath]. rewrite Hj.
  destruct (acceptsTransform _ j) eqn:Hacc; cbn [negb]; [|done]. destruct (pathTaken id stage w); [done|]. cbn [snd]. apply inv_event.
  pose proof Hi as [A Z B C D E]. pose proof (B id j Hj) as [O1 O2 O3 O4 O5].
  assert (Hcr : CancelRequested j = false).
  { unfold acceptsTransform in Hacc. apply andb_true_iff in Hacc as [_ H]. by destruct (CancelRequested j). }
  assert (Hup : assetImport (upsertAsset now (mkAsset id ws "" stage key now) (managed_assets w !! id)) = id
                /\ assetPath (upsertAsset now (mkAsset id ws "" stage key now) (managed_assets w !! id)) = stage
                /\ assetService (upsertAsset now (mkAsset id ws "" stage key now) (managed_assets w !! id)) = "").
  { destruct (managed_assets w !! id) as [a|] eqn:Ha; cbn; [|done]. destruct (C id a Ha) as ([Hai _] & x & Hx & Hsv).
    assert (x = j) as -> by congruence. auto. }
  set (a := upsertAsset _ _ _) in *. clearbody a. destruct Hup as (U1 & U2 & U3).
  split; [done|done|..]; unfold storeAsset, storeJob; cbn; rewrite ?U1, ?O1.
  - intros k x. destruct (decide (k = id)) as [->|]; [rewrite lookup_insert_eq; intros [= <-]|rewrite lookup_insert_ne by done; apply B].
    split; [done|done|done|by cbn; rewrite Hcr|by cbn; rewrite Hs].
  - intros k x. destruct (decide (k = id)) as [->|].
    + rewrite lookup_insert_eq. intros [= <-]. split; [split; [done|by rewrite U2]|]. eexists. by rewrite lookup_insert_eq.
    + rewrite lookup_insert_ne by done. intros Hx. destruct (C k x Hx) as (H1 & y & H2 & H3). split; [done|]. exists y. by rewrite lookup_insert_ne.
  - intros s row Hr. destruct (D s row Hr) as [Hne Hok]. split; [done|]. intros Hu. destruct (Hok Hu) as (x & b & H1 & H2 & H3 & H4).
    destruct (decide (managedImportID row = id)) as [He|He]; [rewrite He in H1; congruence|].
    exists x, b. cbn. rewrite !lookup_insert_ne by done. done.
  - intros k x. destruct (decide (k = id)) as [->|].
    + rewrite lookup_insert_eq. intros [= <-]. cbn. exists a. cbn. rewrite lookup_insert_eq, U2. done.
    + rewrite lookup_insert_ne by done. intros Hx. specialize (E k x Hx). unfold readyOk in *. cbn. by rewrite lookup_insert_ne by done.
Qed.

(** A database at its final place is published. *)
Lemma PublishImport_inv now s id ws key name rows w : inv w -> s <> "" ->
  jobIs (fun j => Status j = ImportPublishing /\ WorkspaceID j = ws) id w -> is_Some (files w !! finalPath cfg ws id) ->
  inv (PublishImport now s (mkPublish id ws (finalPath cfg ws id) key name rows) w).2.
Proof.
  intros Hi Hs (j & Hj & Hst & Hws) Hf. unfold PublishImport. cbn [pubImport pubWorkspace pubPath pubService pubLayers pubKey].
  rewrite Hj, Hst. cbn [andb bool_decide]. rewrite bool_decide_false by done. cbn [andb].
  destruct (services w !! s) eqn:Hnew; [done|]. destruct (nameTaken _ _ w); [done|]. destruct (negb _); [done|].
  destruct (pathTaken _ _ w); [done|]. cbn [snd]. pose proof Hi as [A Z B C D E]. pose proof (B id j Hj) as [O1 O2 O3 O4 O5].
  assert (Hsv : ServiceID j = "") by (destruct (decide (ServiceID j = "")) as [|Hne]; [done|specialize (O5 Hne); unfold settled in O5; by rewrite Hst in O5]).
  assert (Hcr : CancelRequested j = false) by (destruct (CancelRequested j) eqn:Hc; [specialize (O4 eq_refl); by rewrite Hst in O4|done]).
  unfold set_capabilitiesRevision, insertImportEvent, storeJob, storeAsset. cbn. rewrite O1. split; cbn; [done|done|..].
  - intros k x. destruct (decide (k = id)) as [->|]; [rewrite lookup_insert_eq; intros [= <-]|rewrite lookup_insert_ne by done; apply B].
    split; [done|done|done|by cbn; rewrite Hcr|done].
  - intros k x. destruct (decide (k = id)) as [->|].
    + rewrite lookup_insert_eq. intros [= <-]. split; [split; [done|apply owned_final]|]. eexists. rewrite lookup_insert_eq. by split.
    + rewrite lookup_insert_ne by done. intros Hx. destruct (C k x Hx) as (H1 & y & H2 & H3). split; [done|]. exists y. by rewrite lookup_insert_ne.
  - intros t row. destruct (decide (t = s)) as [->|Hne'].
    + rewrite lookup_insert_eq. intros [= <-]. split; [done|]. intros _. eexists _, _. cbn. rewrite !lookup_insert_eq. by split_and!.
    + rewrite lookup_insert_ne by done. intros Hr. destruct (D t row Hr) as [Hne Hok]. split; [done|]. intros Hu.
      destruct (Hok Hu) as (x & b & H1 & H2 & H3 & H4).
      destruct (decide (managedImportID row = id)) as [He|He]; [rewrite He in H1; congruence|].
      exists x, b. cbn. rewrite !lookup_insert_ne by done. done.
  - intros k x. destruct (decide (k = id)) as [->|]; [rewrite lookup_insert_eq; by intros [= <-]|].
    rewrite lookup_insert_ne by done. intros Hx. specialize (E k x Hx). unfold readyOk in *. cbn. by rewrite lookup_insert_ne by done.
Qed.

(** ** Rules *)

Lemma owp_db {A} (I : imports -> Prop) bound (c : statement A) Q R X w : stable happen attended I -> (forall w', I w' -> gone w' = false) -> I w ->
  (forall w', I w' -> match c w' with (inr a, w1) => Q a w1 | (inl e, w1) => R e w1 end /\ R ErrStore w' /\ X w') ->
  owp attended (db bound c) Q R X w.
Proof.
  intros Hs Hg Hw H. apply owp_bind, owp_fate. intros w' Hm. pose proof (meanwhile_stable _ _ _ _ _ Hs Hm Hw) as Hw'.
  destruct (H w' Hw') as (Hc & HR & HX). pose proof (Hg w' Hw') as Hgone.
  split; [|split; [|done]]; intros; intros l Hl; unfold direct; cbn [fst snd]; rewrite Hgone, andb_false_r.
  - by destruct (c w') as [[e|a] w1].
  - done.
Qed.

Lemma keeps_db {A} (I : imports -> Prop) bound (c : statement A) : stable happen attended I -> (forall w, I w -> I (c w).2) ->
  keeps attended I (db bound c).
Proof.
  intros Hs Hc w Hw. apply owp_bind, owp_fate. intros w' Hm. pose proof (meanwhile_stable _ _ _ _ _ Hs Hm Hw) as Hw'.
  split; [|split; [|done]]; intros; intros l Hl; unfold direct; cbn [fst snd].
  - destruct (bound && gone w'); [done|]. specialize (Hc w' Hw'). by destruct (c w') as [[e|a] w1].
  - by destruct (bound && gone w').
Qed.

Lemma keeps_ioI (I : imports -> Prop) c : stable happen attended I -> (forall w w', I w -> c w = Some w' -> I w') -> keeps attended I (io c).
Proof.
  intros Hs Hc w Hw. apply owp_bind, owp_fate. intros w' Hm. pose proof (meanwhile_stable _ _ _ _ _ Hs Hm Hw) as Hw'.
  split; [|split; [|done]]; intros; intros l Hl; unfold direct; cbn [fst snd]; [|done].
  destruct (c w') as [w1|] eqn:H1; [|done]. split; [done|]. by apply (Hc w').
Qed.

Lemma keeps_ignoring {A} (I : imports -> Prop) (c : imp A) : keeps attended I c -> keeps attended I (ignoring c).
Proof. intros Hc. apply keeps_bind; [by apply keeps_try|]. intros _. apply keeps_ret. Qed.

(** A computation that keeps [I], after which [I] is all that is known. *)
Lemma owp_keeps {A} (I : imports -> Prop) (c : imp A) (Q : A -> imports -> Prop) (R : importError -> imports -> Prop) (X : imports -> Prop) w :
  keeps attended I c -> I w -> (forall a w', I w' -> Q a w') -> (forall e w', I w' -> R e w') -> (forall w', I w' -> X w') ->
  owp attended c Q R X w.
Proof. intros Hk Hw HQ HR HX. eapply owp_mono; [by apply Hk|..]; cbn; auto. Qed.
End Invariant.

(** One step of a proof that a computation keeps a predicate. *)
Ltac keep := first
  [ apply keeps_ret | apply keeps_fail | apply keeps_get | apply keeps_try | apply keeps_ignoring
  | apply keeps_bind; [|intros ?]
  | match goal with |- keeps _ _ (if ?b then _ else _) => destruct b end
  | match goal with |- keeps _ _ (match ?x with _ => _ end) => destruct x end
  | done ].
