(* ===== verification/ImportOperations.v ===== *)
(** * Correctness of the importer: the operations

    Every operation keeps the invariant of [ImportCorrect] at each of its calls,
    whichever of them fail and wherever the process dies. *)

From stdpp Require Import relations.
From S2P Require Import Prelude GoText GoPath ImportPlan Faults ImportStore ImportFiles ImportFilesCorrect Importer ImportCorrect.

Create HintDb keeps.

Section Operations.
Context (cfg : config) (cwd : string) (registered : string -> bool) (env : environment).

(** The two directories are apart, and the configuration and the environment are sensible. *)
Record sane : Prop := {
  sn_apart : forall p, below (Root cfg) p = true -> below (TemporaryDirectory cfg) p = false;
  sn_temp : TemporaryDirectory cfg <> [];
  sn_proper : Forall (fun p => properPart p = true) (TemporaryDirectory cfg);
  sn_upload : 0 <= MaxUploadBytes cfg;
  sn_cached : forall source p name size, acquire env source = Some (p, Some (name, size)) -> 0 <= size /\ properPart name = true;
  sn_workspace : registered ".staging" = false }.
Context (Hsane : sane).

Local Abbreviation inv := (inv cfg).
Local Abbreviation invJob := (invJob cfg).
Local Abbreviation keepsA := (keeps attended).

(** ** Files that are not of imports *)

(** A predicate that looks at the files of imports only. *)
Definition indifferent (I : imports -> Prop) : Prop :=
  forall w f d, I w -> sized f -> (forall id p, owned cfg id p -> f !! p = files w !! p) -> I (set_dirs d (set_files f w)).

Lemma inv_indifferent : indifferent inv.
Proof using. intros w f d Hi Hz Hf. apply inv_files; [done|done|]. intros id j p _ Hp. by rewrite (Hf id p Hp). Qed.

Lemma invJob_indifferent P id : indifferent (invJob P id).
Proof using. intros w f d [Hi Hj] Hz Hf. split; [by apply inv_indifferent|done]. Qed.

(** Operations that change files only. *)
Definition filesOnly (c : imports -> option imports) : Prop := forall w w', c w = Some w' -> exists f d, w' = set_dirs d (set_files f w).

(** [I] of the tables with the files as they were. *)
Definition frozen (w0 : imports) (I : imports -> Prop) (w : imports) : Prop := I (set_dirs (dirs w0) (set_files (files w0) w)).

Lemma happen_frozen v w f d : happen v (set_dirs d (set_files f w)) = set_dirs d (set_files f (happen v w)).
Proof using.
  destruct v as [now id|]; [|done]. unfold happen, RequestImportCancel. cbn. destruct (import_jobs w !! id) as [j|]; [|done].
  by destruct (processed j), (cancellable (Status j)).
Qed.

Lemma frozen_stable w0 I : stable happen attended I -> stable happen attended (frozen w0 I).
Proof using. intros Hs v w Hv H. unfold frozen. rewrite <- happen_frozen. by apply Hs. Qed.

Lemma keeps_frozen w0 I c : stable happen attended I -> filesOnly c -> keepsA (frozen w0 I) (io c).
Proof using.
  intros Hs Hc. apply keeps_ioI; [by apply frozen_stable|]. intros w w' H Hw. destruct (Hc w w' Hw) as (f & d & ->). exact H.
Qed.

Lemma filesOnly_id : filesOnly Some.
Proof using. intros w w' [= <-]. exists (files w), (dirs w). by destruct w. Qed.
Lemma filesOnly_mkdir p : filesOnly (MkdirAll p).
Proof using. intros w w'. unfold MkdirAll. destruct (existsb _ _); [done|]. intros [= <-]. exists (files w), (list_to_set (ancestors p) ∪ dirs w). by destruct w. Qed.
Lemma filesOnly_temp p : filesOnly (MkdirTemp p).
Proof using. intros w w'. unfold MkdirTemp. destruct (_ || _); [done|]. intros [= <-]. exists (files w), ({[p]} ∪ dirs w). by destruct w. Qed.
Lemma filesOnly_remove p : filesOnly (RemoveAll p).
Proof using. intros w w' [= <-]. by do 2 eexists. Qed.
Lemma filesOnly_create p : filesOnly (createFile p).
Proof using. intros w w'. unfold createFile. destruct (_ || _); [done|]. intros [= <-]. exists (<[p := 0]> (files w)), (dirs w). by destruct w. Qed.
Lemma filesOnly_write p n : filesOnly (writeFile p n).
Proof using. intros w w' [= <-]. exists (<[p := n]> (files w)), (dirs w). by destruct w. Qed.
Lemma filesOnly_both p n : filesOnly (fun w => match createFile p w with Some w => writeFile p n w | None => None end).
Proof using.
  intros w w'. destruct (createFile p w) as [w1|] eqn:H; [|done]. intros [= <-]. destruct (filesOnly_create p w w1 H) as (f & d & ->).
  eexists. exists d. reflexivity.
Qed.

Hint Resolve filesOnly_id filesOnly_mkdir filesOnly_temp filesOnly_remove filesOnly_create filesOnly_write filesOnly_both : keeps.

(** One step of a proof about files that are frozen. *)
Local Ltac keepFiles := first [ apply keeps_frozen; [done|eauto with keeps] | keep ].

Section Frozen.
Context (w0 : imports) (I : imports -> Prop) (Hs : stable happen attended I).
Local Abbreviation J := (frozen w0 I).

Lemma frozen_check : keepsA J checkContext.
Proof using Hs. apply keeps_bind; [by apply keeps_fate, frozen_stable|]. intros _. repeat keepFiles. Qed.

Lemma frozen_remaining : keepsA J (remainingSourceBytes cfg).
Proof using Hs. unfold remainingSourceBytes. repeat keepFiles. Qed.

Lemma frozen_cleaningUp {A} dir (c : imp A) : keepsA J c -> keepsA J (cleaningUp dir c).
Proof using Hs. intros Hc. unfold cleaningUp. repeat keepFiles. Qed.

Lemma frozen_extractFile d e n : keepsA J (extractFile d e n).
Proof using Hs. unfold extractFile, copyLimited. repeat keepFiles. Qed.

Lemma frozen_extractEntries root limit expanded cs entries : keepsA J (extractEntries root limit expanded cs entries).
Proof using Hs.
  revert expanded cs. induction entries as [|e entries IH]; intros expanded cs; cbn [extractEntries]; [repeat keepFiles|].
  apply keeps_bind; [apply frozen_check|]. intros _. cbv zeta. repeat first [apply IH | apply frozen_extractFile | keepFiles].
Qed.

Lemma frozen_extractArchive jobID entries : keepsA J (extractArchive cfg jobID entries).
Proof using Hs.
  unfold extractArchive. cbv zeta. repeat first [apply frozen_cleaningUp | apply frozen_remaining | apply frozen_extractEntries | keepFiles].
Qed.

Lemma frozen_adopt suffix fn cn size : keepsA J (adoptRemoteSource cfg suffix fn cn size).
Proof using Hs. unfold adoptRemoteSource, copyFile. cbv zeta. repeat first [apply frozen_cleaningUp | apply frozen_remaining | keepFiles]. Qed.
End Frozen.

(** An operation on the temporary directory keeps every predicate of imports. *)
Lemma keeps_temporary {A} I (c : imp A) root : stable happen attended I -> indifferent I -> (forall w, I w -> sized (files w)) ->
  TemporaryDirectory cfg `prefix_of` root -> (forall w0, keepsA (frozen w0 I) c) ->
  (forall w, sized (files w) -> exists n, owp attended c (fun _ w' => exists n, confined cfg root w n w')
     (fun _ => confined cfg root w n) (confined cfg root w n) w) ->
  keepsA I c.
Proof using Hsane.
  intros Hs Hi Hz Hroot Hf Hspec w Hw. pose proof (Hz w Hw) as Hzw. destruct (Hspec w Hzw) as (n & Hn).
  assert (H0 : frozen w I w) by (unfold frozen; destruct w; exact Hw).
  assert (Hback : forall m w', frozen w I w' -> confined cfg root w m w' -> I w').
  { intros m w' HJ (Ho & Hz' & _). pose proof (Hi _ (files w') (dirs w') HJ Hz') as H.
    replace w' with (set_dirs (dirs w') (set_files (files w') (set_dirs (dirs w) (set_files (files w) w')))) by (by destruct w').
    apply H. intros id p Hp. cbn. apply Ho. apply owned_root in Hp. apply (sn_apart Hsane) in Hp. unfold below in *.
    apply bool_decide_eq_false. apply bool_decide_eq_false in Hp. intros Hr. apply Hp. by transitivity root. }
  intros l Hl. pose proof (Hf w w H0 l Hl) as H1. pose proof (Hn l Hl) as H2.
  destruct (c (w, l)) as [[a|e|] [w' l']]; cbn in *.
  - destruct H1 as [? H1], H2 as [_ (m & H2)]. split; [done|]. by eapply Hback.
  - destruct H1 as [? H1], H2 as [_ H2]. split; [done|]. by eapply Hback.
  - by eapply Hback.
Qed.

Lemma invJob_sized P id w : invJob P id w -> sized (files w).
Proof using. intros [Hi _]. by apply (i_sized cfg). Qed.

Lemma first_proper relative prefix : (prefix = "upload-" \/ prefix = "extract-") ->
  HasPrefix (default "" (head (Split "/" relative))) prefix = true -> properPart (default "" (head (Split "/" relative))) = true.
Proof using.
  intros Hp H. pose proof (Split_parts "/" relative) as Hs. destruct (Split "/" relative) as [|x l]; cbn in *; [by destruct Hp as [-> | ->]|].
  apply Forall_inv in Hs. apply HasPrefix_split in H as [r ->]. unfold properPart. rewrite Hs. by destruct Hp as [-> | ->].
Qed.

Lemma keeps_cleanupSource I source : stable happen attended I -> indifferent I -> (forall w, I w -> sized (files w)) ->
  keepsA I (cleanupTemporarySource cfg cwd source).
Proof using Hsane.
  intros Hs Hi Hz. unfold cleanupTemporarySource. destruct (Rel _ _) as [relative|]; [|keep]. destruct (_ || _); [keep|].
  set (first := default "" (head (Split "/" relative))).
  destruct (HasPrefix first "upload-" || HasPrefix first "extract-") eqn:Hpre; [|keep].
  assert (Hp : properPart first = true) by (apply orb_true_iff in Hpre as [Hp|Hp]; [apply (first_proper _ "upload-")|apply (first_proper _ "extract-")]; auto).
  rewrite joinTo_proper by done. apply keeps_ioI; [done|]. intros w w' Hw Hr.
  pose proof Hr as Hr'. injection Hr' as <-. apply Hi; [done|by apply sized_filter, Hz|].
  intros id p Ho. pose proof (RemoveAll_outside _ w _ p Hr) as H. cbn in H. apply H. clear H Hr.
  apply owned_root in Ho. apply (sn_apart Hsane) in Ho. unfold below in *. apply bool_decide_eq_false. apply bool_decide_eq_false in Ho.
  intros Hq. apply Ho. etrans; [|exact Hq]. by eexists.
Qed.

Lemma keeps_adopt I suffix fn cn size : stable happen attended I -> indifferent I -> (forall w, I w -> sized (files w)) ->
  0 <= size -> properPart cn = true -> keepsA I (adoptRemoteSource cfg suffix fn cn size).
Proof using Hsane.
  intros Hs Hi Hz Hsz Hcn. apply (keeps_temporary I _ (TemporaryDirectory cfg ++ ["upload-" +:+ suffix])); [done|done|done|by eexists|..].
  - intros w0. by apply frozen_adopt.
  - intros w Hw. exists (slack cfg w). eapply owp_mono; [by apply adoptRemoteSource_spec|..]; cbn; [intros r w' []; done|intros e w' []; done|done].
Qed.

Lemma extractRoot_proper id : plain id -> Forall (fun p => properPart p = true) (extractRoot cfg id).
Proof using Hsane.
  intros [_ Hp]. unfold extractRoot. apply Forall_app. split; [apply (sn_proper Hsane)|]. repeat constructor.
  unfold properPart. by rewrite (has_byte_app "/"), Hp.
Qed.

Lemma keeps_extract I jobID entries : stable happen attended I -> indifferent I -> (forall w, I w -> sized (files w)) ->
  plain jobID -> keepsA I (extractArchive cfg jobID entries).
Proof using Hsane.
  intros Hs Hi Hz Hp. apply (keeps_temporary I _ (extractRoot cfg jobID)); [done|done|done|apply root_below|..].
  - intros w0. by apply frozen_extractArchive.
  - intros w Hw. exists (slack cfg w).
    eapply owp_mono; [apply extractArchive_spec; [apply (sn_temp Hsane)|by apply extractRoot_proper|done]|..]; cbn;
      [intros c w' [Hc _]; by eexists|by intros e w' []|done].
Qed.

(** ** Cancellation *)

Lemma keeps_removeOwned P id p : cancelClosed P -> (forall j, P j -> idle j) -> owned cfg id p -> keepsA (invJob P id) (removeOwnedFile p).
Proof using.
  intros Hc HP Hp. apply keeps_ioI; [by apply invJob_stable|]. intros w w' [Hi Hj]. destruct (bool_decide _); [done|]. intros [= <-].
  split; [|done]. eapply inv_remove; [done|by eapply jobIs_mono|done].
Qed.

Lemma findAsset_spec P bound id w : cancelClosed P -> invJob P id w ->
  owp attended (findAsset bound id) (fun r w' => invJob P id w' /\ forall a, r = Some a -> owned cfg id (assetPath a))
    (fun _ => invJob P id) (invJob P id) w.
Proof using.
  intros Hc Hw. apply owp_bind, owp_try. apply (owp_db (invJob P id)); [by apply invJob_stable|by intros w' [[] _]|done|].
  intros w' Hw'. unfold GetManagedAssetByImport. destruct (managed_assets w' !! id) as [a|] eqn:Ha.
  - split; [|split; [by apply owp_fail|done]]. apply owp_ret. split; [done|]. intros b [= <-]. destruct Hw' as [Hi _].
    by apply (i_assets cfg w' Hi id a Ha).
  - split; [by apply owp_ret|]. split; [by apply owp_fail|done].
Qed.

Definition ended (j : ImportJob) : Prop := ending (Status j) = true.
Definition endedIdle (j : ImportJob) : Prop := ServiceID j = "" /\ ending (Status j) = true.

Lemma ended_closed : cancelClosed ended.
Proof using. by intros now j _ _. Qed.
Lemma endedIdle_closed : cancelClosed endedIdle.
Proof using. intros now j [H _] _. by split. Qed.
Lemma endedIdle_idle j : endedIdle j -> idle j.
Proof using. intros [H1 H2]. split; [done|]. by destruct (Status j). Qed.

Lemma keeps_read {A} I bound (c : statement A) : stable happen attended I -> (forall w, (c w).2 = w) -> keepsA I (db bound c).
Proof using. intros Hs Hc. apply keeps_db; [done|]. intros w. by rewrite Hc. Qed.

Lemma GetImportJob_read id w : (GetImportJob id w).2 = w.
Proof using. unfold GetImportJob. by destruct (import_jobs w !! id). Qed.
Lemma GetAsset_read id w : (GetManagedAssetByImport id w).2 = w.
Proof using. unfold GetManagedAssetByImport. by destruct (managed_assets w !! id). Qed.

Lemma keeps_revisions P id selected names : cancelClosed P -> (forall j, P j -> idle j) ->
  keepsA (invJob P id) (removeRevisions cfg id selected names).
Proof using.
  intros Hc HP. induction names as [|name names IH]; cbn [removeRevisions]; [keep|]. apply keeps_bind; [|intros _; apply IH].
  destruct (revisionOf id name) eqn:Hr; cbn [andb]; [|keep]. destruct (negb _); [|keep].
  apply keeps_removeOwned; [done|done|by apply owned_revision].
Qed.

Lemma keeps_update (P : ImportJob -> Prop) now bound id u : cancelClosed P -> (forall j, P j -> P (applyUpdate now u j)) ->
  (forall j, jobOk id j -> P j -> quietUpdate now u j) -> keepsA (invJob P id) (db bound (UpdateImportJob now id u)).
Proof using.
  intros Hc HP Hq. apply keeps_db; [by apply invJob_stable|]. intros w [Hi Hj]. split.
  - apply UpdateImportJob_inv; [done|]. intros j Hlj. destruct Hj as (x & Hx & HPx). assert (x = j) as -> by congruence.
    apply Hq; [by apply (i_jobs cfg w Hi)|done].
  - by eapply UpdateImportJob_jobIs.
Qed.

Lemma keeps_cleanupCancelled now bound job : keepsA (invJob ended (ID job)) (cleanupCancelled cfg cwd now bound job).
Proof using Hsane.
  intros w Hw. unfold cleanupCancelled. apply owp_bind. apply (owp_db (invJob ended (ID job)));
    [apply invJob_stable, ended_closed|by intros w' [[] _]|done|]. intros w1 [Hi1 (j & Hj & He)].
  unfold GetImportJob. rewrite Hj. split; [|split; (split; [done|by exists j])].
  destruct (String.eqb_spec (ServiceID j) "") as [Hs|Hs]; cbn [negb]; [|apply owp_fail; by split; [|exists j]].
  assert (Hk : keepsA (invJob endedIdle (ID job)) (cleanupTemporarySource cfg cwd (SourcePath j))).
  { apply keeps_cleanupSource; [apply invJob_stable, endedIdle_closed|apply invJob_indifferent|apply invJob_sized]. }
  assert (Hfin : forall w', invJob endedIdle (ID job) w' -> invJob ended (ID job) w') by (intros w'; apply invJob_mono; by intros x []).
  assert (Hrem : forall p, owned cfg (ID job) p -> keepsA (invJob endedIdle (ID job)) (removeOwnedFile p))
    by (intros p; apply keeps_removeOwned; [apply endedIdle_closed|apply endedIdle_idle]).
  apply owp_bind. apply (owp_keeps (invJob endedIdle (ID job))); [done|split; [done|by exists j]| |by auto..]. intros _ w2 H2.
  apply owp_bind. eapply owp_mono; [apply (findAsset_spec endedIdle); [apply endedIdle_closed|done]|..]; cbn beta; [|by auto..].
  intros asset w3 [H3 Ha]. apply (owp_keeps (invJob endedIdle (ID job))); [|done|by auto..].
  apply keeps_bind.
  { destruct asset as [a|]; [|keep]. specialize (Ha a eq_refl). apply keeps_bind; [by apply Hrem|]. intros _. by apply Hrem, owned_wal. }
  intros _. apply keeps_bind; [apply Hrem, owned_final|]. intros _. apply keeps_bind.
  { unfold removeUnselectedRevisions. apply keeps_bind; [|intros _; apply keeps_bind; [keep|intros names]].
    - apply keeps_ioI; [apply invJob_stable, endedIdle_closed|by intros x y Hx [= <-]].
    - apply keeps_revisions; [apply endedIdle_closed|apply endedIdle_idle]. }
  intros _. apply keeps_bind; [|intros _; apply keeps_bind; [|intros; keep]].
  - apply keeps_db; [apply invJob_stable, endedIdle_closed|]. intros x [Hi Hx]. split; [|done].
    apply inv_forget; [done|]. by eapply jobIs_mono; [apply endedIdle_idle|].
  - apply keeps_update; [apply endedIdle_closed|by intros x [H _]|]. intros x _ [H _]. by split_and!.
Qed.

(** ** Failure *)

Lemma invJob_gone P id w : invJob P id w -> gone w = false.
Proof using. by intros [[] _]. Qed.

Lemma cancelled_spec P bound id w : cancelClosed P -> invJob P id w ->
  owp attended (cancelled bound id) (fun c w' => invJob P id w' /\ (c = true -> jobIs ended id w')) (fun _ _ => False) (invJob P id) w.
Proof using.
  intros Hc Hw. apply owp_bind, owp_try. apply (owp_db (invJob P id)); [by apply invJob_stable|apply invJob_gone|done|].
  intros w' Hw'. unfold GetImportJob. pose proof Hw' as [Hi (j & Hj & _)]. rewrite Hj. split; [|split; [by apply owp_ret|done]].
  apply owp_ret. split; [done|]. intros He. exists j. split; [done|]. by apply (jo_cancel id j (i_jobs cfg w' Hi id j Hj)).
Qed.

Lemma markCancelled_spec now job w : invJob ended (ID job) w ->
  owp attended (markCancelled cfg cwd now job) (fun _ => inv) (fun _ => inv) inv w.
Proof using Hsane.
  intros Hw. apply owp_bind, owp_try. eapply owp_mono; [by apply keeps_cleanupCancelled|..]; cbn; [intros ? w' [? _]; by apply owp_ret..|by intros w' []].
Qed.

(** A job that may fail without leaving its service behind. *)
Definition failable (j : ImportJob) : Prop := ServiceID j = "" \/ Phase j = ImportPhaseRollback.

Lemma failable_closed : cancelClosed failable.
Proof using. by intros now j [H|H] _; [left|right]. Qed.
Lemma unpublished_closed : cancelClosed unpublished.
Proof using. by intros now j H _. Qed.
Lemma unpublished_failable j : unpublished j -> failable j.
Proof using. by left. Qed.

Lemma fail_spec now bound job cause w : invJob failable (ID job) w ->
  owp attended (fail cfg cwd env now bound job cause) (fun _ => inv) (fun _ => inv) inv w.
Proof using Hsane.
  intros Hw. apply owp_bind. eapply owp_mono; [apply (cancelled_spec failable); [apply failable_closed|done]|..]; cbn beta; [|done|by intros w' []].
  intros c w1 [H1 He]. destruct c.
  { apply owp_bind. eapply owp_mono; [apply markCancelled_spec; split; [apply H1|by apply He]|..]; cbn; [intros; by apply owp_ret|done|done]. }
  apply owp_bind, owp_try. apply (owp_db (invJob failable (ID job))); [apply invJob_stable, failable_closed|apply invJob_gone|done|].
  intros w2 H2. set (u := failedUpdate _ _). pose proof H2 as [Hi2 (j & Hj & Hf)].
  split; [|split; [apply owp_ret; by apply H2|by apply H2]].
  assert (Hq : quietUpdate now u j) by (split_and!; try done; intros Hs; by destruct Hf).
  pose proof (UpdateImportJob_inv cfg now (ID job) u w2 Hi2) as Hinv. unfold UpdateImportJob in *. rewrite Hj in *.
  destruct (CancelRequested j && _) eqn:Hg; cbn [fst snd] in *.
  - apply markCancelled_spec. split; [done|]. exists j. split; [done|]. apply andb_true_iff in Hg as [Hg _].
    by apply (jo_cancel _ _ (i_jobs cfg w2 Hi2 _ j Hj)).
  - apply owp_ret, Hinv. by intros x [= <-].
Qed.

Lemma failing_spec {A} now bound job cause (Q : A -> imports -> Prop) w : invJob failable (ID job) w ->
  owp attended (failing cfg cwd env now bound job cause) Q (fun _ => inv) inv w.
Proof using Hsane. intros Hw. apply owp_bind. eapply owp_mono; [by apply fail_spec|..]; cbn; [intros; by apply owp_fail|done|done]. Qed.

(** ** Publication *)

Definition publishingIn (ws : string) (j : ImportJob) : Prop := Status j = ImportPublishing /\ WorkspaceID j = ws.

Lemma publishingIn_closed ws : cancelClosed (publishingIn ws).
Proof using. intros now j [H _] Hp. unfold processed in Hp. by rewrite H in Hp. Qed.

Lemma publishing_unpublished id j : jobOk id j -> Status j = ImportPublishing -> ServiceID j = "".
Proof using.
  intros [_ _ _ _ H] Hs. destruct (decide (ServiceID j = "")) as [|Hne]; [done|]. specialize (H Hne). unfold settled in H. by rewrite Hs in H.
Qed.

Lemma publishing_failable ws id w : invJob (publishingIn ws) id w -> invJob failable id w.
Proof using.
  intros [Hi (j & Hj & Hs & _)]. split; [done|]. exists j. split; [done|]. left. by eapply publishing_unpublished; [apply (i_jobs cfg w Hi)|].
Qed.

(** A job that is being published, with its database's row. *)
Definition promoting (ws id : string) (asset : ManagedAsset) (w : imports) : Prop :=
  invJob (publishingIn ws) id w /\ managed_assets w !! id = Some asset.

Lemma happen_assets v w : managed_assets (happen v w) = managed_assets w.
Proof using.
  destruct v as [now id|]; [|done]. cbn. unfold RequestImportCancel. destruct (import_jobs w !! id) as [j|]; [|done].
  by destruct (processed j), (cancellable (Status j)).
Qed.

Lemma promoting_stable ws id asset : stable happen attended (promoting ws id asset).
Proof using. intros v w Hv [Hw Ha]. split; [by apply invJob_stable; [apply publishingIn_closed|..]|by rewrite happen_assets]. Qed.

Definition promoted (ws id : string) (asset : ManagedAsset) (w : imports) : Prop :=
  promoting ws id asset w /\ is_Some (files w !! finalPath cfg ws id).

Lemma promoted_stable ws id asset : stable happen attended (promoted ws id asset).
Proof using. intros v w Hv [Hw Hf]. split; [by apply promoting_stable|]. by destruct (happen_files v w) as [-> _]. Qed.

Lemma promoting_files ws id asset f w : promoting ws id asset w -> sized f -> (forall p, ~ owned cfg id p -> f !! p = files w !! p) ->
  (is_Some (f !! assetPath asset) \/ is_Some (f !! finalPath cfg ws id)) -> promoting ws id asset (set_files f w).
Proof using.
  intros [[Hi (j & Hj & Hs & Hws)] Ha] Hz Hf Hr. split; [split; [|by exists j]|done].
  apply (inv_own cfg w id j); try done; [by eapply publishing_unpublished; [apply (i_jobs cfg w Hi)|]|].
  unfold readyOk. rewrite Hs, Hws. exists asset. done.
Qed.

Lemma promoting_gone ws id asset w : promoting ws id asset w -> gone w = false.
Proof using. intros [H _]. by eapply invJob_gone. Qed.

Lemma promoting_owned ws id asset w : promoting ws id asset w -> owned cfg id (assetPath asset).
Proof using. intros [[Hi _] Ha]. by apply (i_assets cfg w Hi id asset Ha). Qed.

(** Moving a file of the import to another place of it. *)
Lemma promoting_rename ws id asset from to w w' : promoting ws id asset w -> owned cfg id from -> owned cfg id to ->
  (to = assetPath asset \/ to = finalPath cfg ws id) -> Rename from to w = Some w' ->
  promoting ws id asset w' /\ is_Some (files w' !! to).
Proof using.
  intros Hw Hfrom Hto Ht. unfold Rename. destruct (files w !! from) as [n|] eqn:Hn; [|done]. destruct (bool_decide _); [done|]. intros [= <-].
  assert (Hin : is_Some (<[to := n]> (delete from (files w)) !! to)) by (by rewrite lookup_insert_eq).
  split; [|done]. apply promoting_files; [done| | |].
  - apply sized_insert; [|apply map_Forall_delete; by destruct Hw as [[[] _] _]]. destruct Hw as [[Hi _] _]. by apply (i_sized cfg w Hi from).
  - intros p Hp. rewrite lookup_insert_ne, lookup_delete_ne; [done|by intros ->|by intros ->].
  - destruct Ht as [-> | ->]; [by left|by right].
Qed.

Lemma promote_spec ws id asset w : promoting ws id asset w ->
  owp attended (promote (assetPath asset) (finalPath cfg ws id))
    (fun _ => promoted ws id asset) (fun _ => promoting ws id asset) (promoting ws id asset) w.
Proof using.
  intros Hw. apply owp_bind, owp_fate. intros w1 Hm. pose proof (meanwhile_stable _ _ _ _ _ (promoting_stable ws id asset) Hm Hw) as H1.
  split; [|split; [|done]]; intros; intros l Hl; unfold direct; cbn [fst snd]; [|done].
  destruct (files w1 !! assetPath asset) eqn:Hf.
  - destruct (Rename _ _ w1) as [w2|] eqn:Hr; [|done]. split; [done|].
    destruct (promoting_rename _ _ _ _ _ _ _ H1 (promoting_owned _ _ _ _ H1) (owned_final cfg ws id) (or_intror eq_refl) Hr). by split.
  - unfold regularFile. case_bool_decide; by split.
Qed.

Lemma finishPublish_spec now serviceID job plan w : serviceID <> "" -> invJob (publishingIn (WorkspaceID job)) (ID job) w ->
  owp attended (finishPublish cfg cwd env now serviceID job plan) (fun _ => inv) (fun _ => inv) inv w.
Proof using Hsane.
  intros Hs Hw. set (ws := WorkspaceID job) in *. set (id := ID job) in *.
  assert (Hfail : forall A e w' (Q : A -> imports -> Prop), invJob (publishingIn ws) id w' ->
            owp attended (failing cfg cwd env now true job e) Q (fun _ => inv) inv w').
  { intros A e w' Q H. apply failing_spec. by eapply publishing_failable. }
  unfold finishPublish. fold id ws. apply owp_bind, owp_try.
  apply (owp_db (invJob (publishingIn ws) id)); [apply invJob_stable, publishingIn_closed|apply invJob_gone|done|].
  intros w1 H1. unfold GetManagedAssetByImport. destruct (managed_assets w1 !! id) as [asset|] eqn:Ha.
  2:{ split; [by apply Hfail|]. split; [by apply Hfail|by destruct H1]. }
  split; [|split; [by apply Hfail|by destruct H1]].
  assert (HI : promoting ws id asset w1) by done. clear H1 Ha Hw w. cbv zeta.
  apply owp_bind, owp_try. eapply (owp_keeps (promoting ws id asset)); [|done| |intros e w2 [H2 _]; by apply Hfail|by intros w2 [[]]].
  { apply keeps_ioI; [apply promoting_stable|]. intros x y Hx. unfold MkdirAll. destruct (existsb _ _); [done|]. intros [= <-].
    destruct Hx as [[Hi Hj] Hx]. split; [split; [by apply inv_dirs|done]|done]. }
  intros _ w2 H2. apply owp_bind, owp_try.
  eapply owp_mono; [instantiate (1 := promoting ws id asset); instantiate (1 := fun _ => promoting ws id asset);
                    instantiate (1 := fun _ => promoted ws id asset)|..]; cbn beta; [|..|by intros w3 [[]]].
  { case_bool_decide as He; [|by apply promote_spec]. apply owp_ret. split; [done|]. destruct H2 as [[Hi (j & Hj & Hst & Hws)] Ha].
    pose proof (i_ready cfg w2 Hi id j Hj) as Hr. unfold readyOk in Hr. rewrite Hst, Hws in Hr. destruct Hr as (a & Ha' & Hr).
    assert (a = asset) as -> by congruence. rewrite He in Hr. tauto. }
  2:{ intros e w3 [H3 _]. by apply Hfail. }
  intros _ w3 H3. apply owp_bind, owp_try. apply (owp_db (promoted ws id asset)); [apply promoted_stable|intros x [Hx _]; by eapply promoting_gone|done|].
  intros w4 H4.
  assert (Hback : forall e, owp attended ((if bool_decide (assetPath asset = finalPath cfg ws id) then mret tt
      else ignoring (io (Rename (finalPath cfg ws id) (assetPath asset)))) ≫= fun _ => failing cfg cwd env now true job e) (fun _ : unit => inv) (fun _ => inv) inv w4).
  { intros e. apply owp_bind. eapply (owp_keeps (promoting ws id asset)); [|apply H4|intros _ w5 [H5 _]; by apply Hfail|by intros ? w5 [[]]|by intros w5 [[]]].
    keep; [keep|]. apply keeps_ignoring, keeps_ioI; [apply promoting_stable|]. intros x y Hx Hr.
    by eapply promoting_rename; [exact Hx|apply owned_final|by eapply promoting_owned|by left|exact Hr]. }
  pose proof H4 as [[[Hi4 Hj4] _] Hf4]. split; [|split; [apply Hback|done]].
  pose proof (PublishImport_inv cfg now serviceID id ws (EncryptionKey asset) (ServiceName plan) (layerRows plan) w4 Hi4 Hs Hj4 Hf4) as Hpub.
  set (input := mkPublish _ _ _ _ _ _) in *. destruct (PublishImport now serviceID input w4) as [[e|[]] w5] eqn:Hrun.
  - assert (w5 = w4) as ->; [|apply Hback]. unfold PublishImport in Hrun. repeat case_match; by simplify_eq.
  - cbn [snd] in Hpub. apply (owp_keeps inv); [|done|done|done|done].
    apply keeps_bind; [apply keeps_ignoring, keeps_read; [apply importInv_stable|apply GetImportJob_read]|]. intros _.
    apply keeps_ignoring, keeps_cleanupSource; [apply importInv_stable|apply inv_indifferent|by intros x []].
Qed.

(** ** API operations *)

Definition keepsInv {A} (c : imp A) (w : imports) : Prop := owp attended c (fun _ => inv) (fun _ => inv) inv w.

Lemma importInv_gone w : inv w -> gone w = false.
Proof using. by intros []. Qed.

(** Reading a job, with a fact about it that lasts. *)
Lemma owp_getJob {A} (k : ImportJob -> imp A) (P : ImportJob -> Prop) id w : cancelClosed P ->
  (inv w /\ forall j, import_jobs w !! id = Some j -> P j) ->
  (forall j w', inv w' -> import_jobs w' !! id = Some j -> P j -> keepsInv (k j) w') ->
  keepsInv (db true (GetImportJob id) ≫= k) w.
Proof using.
  intros Hc [Hi Hp] Hk. destruct (import_jobs w !! id) as [j0|] eqn:Hj0.
  - apply owp_bind. apply (owp_db (invJob P id)); [by apply invJob_stable|apply invJob_gone|split; [done|exists j0; by auto]|].
    intros w' [Hi' (j & Hj & HP)]. unfold GetImportJob. rewrite Hj. split; [by apply Hk|done].
  - apply owp_bind. assert (Hst : stable happen attended (fun w => inv w /\ import_jobs w !! id = None)).
    { intros v x Hv [Hx Hn]. split; [by apply happen_inv|]. destruct v as [now k'|]; [|done]. cbn. destruct (import_jobs x !! k') as [y|] eqn:Hy; [|done].
      destruct (processed y); [|done]. unfold RequestImportCancel. rewrite Hy. destruct (cancellable _); [|done]. unfold storeJob. cbn.
      rewrite (jo_id _ _ (i_jobs cfg x Hx k' y Hy)). rewrite lookup_insert_ne; [done|congruence]. }
    apply (owp_db (fun w => inv w /\ import_jobs w !! id = None)); [done|by intros x [[] _]|done|].
    intros w' [Hi' Hn]. unfold GetImportJob. by rewrite Hn.
Qed.

Lemma always_closed : cancelClosed (fun _ => True).
Proof using. done. Qed.

(** The last statement of an operation. *)
Lemma owp_lastUpdate (P : ImportJob -> Prop) now id u w : cancelClosed P -> invJob P id w ->
  (forall j, jobOk id j -> P j -> quietUpdate now u j) -> keepsInv (db true (UpdateImportJob now id u)) w.
Proof using.
  intros Hc Hw Hq. apply (owp_db (invJob P id)); [by apply invJob_stable|apply invJob_gone|done|]. intros w' [Hi (j & Hj & HP)].
  assert (H : inv (UpdateImportJob now id u w').2).
  { apply UpdateImportJob_inv; [done|]. intros x Hx. assert (x = j) as -> by congruence. apply Hq; [by apply (i_jobs cfg w' Hi)|done]. }
  split; [|done]. by destruct (UpdateImportJob now id u w') as [[e|a] w1].
Qed.

(** A statement on the job, and what comes after it. *)
Lemma owp_updateJob {A} (P Q : ImportJob -> Prop) now id u (k : ImportJob -> imp A) w : cancelClosed P -> invJob P id w ->
  (forall j, jobOk id j -> P j -> quietUpdate now u j) -> (forall j, P j -> Q (applyUpdate now u j)) ->
  (forall j' w', inv w' -> import_jobs w' !! id = Some j' -> Q j' -> keepsInv (k j') w') ->
  keepsInv (db true (UpdateImportJob now id u) ≫= k) w.
Proof using.
  intros Hc Hw Hq HQ Hk. apply owp_bind. apply (owp_db (invJob P id)); [by apply invJob_stable|apply invJob_gone|done|].
  intros w2 [H2 (x & Hx & HP)]. pose proof (i_jobs cfg w2 H2 id x Hx) as Hok. pose proof (Hq x Hok HP) as Hqx.
  assert (H3 : inv (UpdateImportJob now id u w2).2) by (apply UpdateImportJob_inv; [done|]; intros y Hy; by simplify_eq).
  split; [|done]. unfold UpdateImportJob in *. rewrite Hx in *. destruct (CancelRequested x && _); [done|]. cbn [fst snd] in *.
  apply Hk; [done| |by apply HQ]. destruct (sameEvent x _); unfold storeJob; cbn; rewrite (jo_id _ _ Hok); apply lookup_insert_eq.
Qed.

Lemma SetPlan_inv now id plan w : inv w -> keepsInv (SetPlan cfg cwd env now id plan) w.
Proof using.
  intros Hi. apply (owp_getJob _ (fun _ => True)); [apply always_closed|done|]. intros j w1 H1 Hj _.
  destruct (negb _); [by apply owp_fail|]. destruct (_ || _) eqn:Hs; [by apply owp_fail|].
  apply orb_false_iff in Hs as [Hs%negb_false_iff%String.eqb_eq _].
  destruct (validatePlan _ _ _); [by apply owp_fail|]. apply owp_bind, owp_get. destruct (negb _); [by apply owp_fail|].
  apply (owp_lastUpdate unpublished); [apply unpublished_closed|split; [done|by exists j]|].
  intros x _ Hx. split_and!; try done.
Qed.

Lemma Cancel_inv now id w : inv w -> keepsInv (Cancel cfg cwd now id) w.
Proof using Hsane.
  intros Hi. apply (owp_getJob _ (fun _ => True)); [apply always_closed|done|]. intros j w1 H1 Hj _.
  destruct (_ || _) eqn:Hs; [by apply owp_fail|]. apply orb_false_iff in Hs as [Hs%negb_false_iff%String.eqb_eq _].
  pose proof (jo_id _ _ (i_jobs cfg w1 H1 id j Hj)) as Hid.
  apply owp_bind. apply (owp_db (invJob unpublished id)); [apply invJob_stable, unpublished_closed|apply invJob_gone|split; [done|by exists j]|].
  intros w2 [H2 (x & Hx & Hxs)]. assert (Hr : inv (RequestImportCancel now id w2).2) by (apply RequestImportCancel_inv; [done|by exists x]).
  split; [|done]. unfold RequestImportCancel in *. rewrite Hx in *. destruct (cancellable (Status x)); [|done]. cbn [fst snd] in *.
  set (w3 := insertImportEvent _ _ _) in *.
  assert (He : invJob ended (ID j) w3).
  { split; [done|]. exists (applyUpdate now cancelUpdate x). split; [|done]. unfold w3, storeJob. cbn.
    rewrite (jo_id _ _ (i_jobs cfg w2 H2 id x Hx)), Hid. apply lookup_insert_eq. }
  apply owp_bind, owp_get.
  assert (Hc : keepsInv (cleanupCancelled cfg cwd now true j) w3).
  { eapply owp_mono; [by apply keeps_cleanupCancelled|..]; cbn; [by intros ? ? []..|by intros ? []]. }
  destruct (Status j); try done; try (by apply owp_ret). by destruct (bool_decide _); [apply owp_ret|].
Qed.

(** Retrying a rollback that never became an operation of the coordinator is left out. *)
Definition retriable (j : ImportJob) : Prop := Phase j = ImportPhaseRollback -> RollbackOperationID j <> "".

Lemma retriable_closed : cancelClosed retriable.
Proof using. by intros now j H _. Qed.

Lemma retryDeletion_inv op w r w' : inv w -> retryDeletion op w = Some (r, w') -> inv w'.
Proof using.
  intros Hi. unfold retryDeletion. destruct (deletions w !! op) as [[s [| |text]]|] eqn:Hd; try done. intros [= _ <-].
  apply inv_deletions; [done|]. intros t Hu k d Hk. unfold undeleted in Hu. cbn in Hu. destruct (decide (k = op)) as [->|Hne].
  - specialize (Hu op (mkDeletion s DeletionRunning)). rewrite lookup_insert_eq in Hu. assert (d = mkDeletion s (DeletionFailed text)) as -> by congruence.
    by apply Hu.
  - apply (Hu k). by rewrite lookup_insert_ne.
Qed.

Lemma keeps_coordinate {A} I (c : imports -> option (A * imports)) : stable happen attended I ->
  (forall w a w', I w -> c w = Some (a, w') -> I w') -> keepsA I (coordinate c).
Proof using.
  intros Hs Hc w Hw. apply owp_bind, owp_fate. intros w' Hm. pose proof (meanwhile_stable _ _ _ _ _ Hs Hm Hw) as Hw'.
  split; [|split; [|done]]; intros; intros l Hl; unfold direct; cbn [fst snd]; [|done].
  destruct (c w') as [[a w1]|] eqn:H1; [|done]. split; [done|]. by apply (Hc w' a).
Qed.

(** A job whose service is being removed. *)
Definition rolling (j : ImportJob) : Prop := match Status j with ImportRollingBack | ImportFailed => Phase j = ImportPhaseRollback | _ => False end.

Lemma rolling_closed : cancelClosed rolling.
Proof using. intros now j H Hp. unfold rolling, processed in *. by destruct (Status j). Qed.
Lemma rolling_failable j : rolling j -> failable j.
Proof using. unfold rolling. right. by destruct (Status j). Qed.

Lemma retryDeletion_jobs op w r w' : retryDeletion op w = Some (r, w') -> import_jobs w' = import_jobs w.
Proof using. unfold retryDeletion. destruct (deletions w !! op) as [[s [| |text]]|]; try done. by intros [= _ <-]. Qed.

Lemma Retry_inv now hasRollback id w : inv w -> (forall j, import_jobs w !! id = Some j -> retriable j) -> keepsInv (Retry cfg now hasRollback id) w.
Proof using.
  intros Hi Hret. apply (owp_getJob _ retriable); [apply retriable_closed|done|]. intros j w1 H1 Hj Hrt.
  destruct (decide (Status j = ImportFailed)) as [Hst|Hst]; [rewrite bool_decide_true by done|rewrite bool_decide_false by done; by apply owp_fail].
  cbn [negb]. destruct (_ <=? _); [by apply owp_fail|]. destruct (bool_decide _ && _) eqn:Hb.
  - apply andb_true_iff in Hb as [Hph%bool_decide_eq_true _]. destruct (negb _); [by apply owp_fail|].
    apply owp_bind. eapply (owp_keeps (invJob rolling id)); [|split; [done|exists j; unfold rolling; by rewrite Hst]| |by intros ? ? []|by intros ? []].
    { apply keeps_coordinate; [apply invJob_stable, rolling_closed|]. intros x a y [Hx (z & Hz & Hr)] Hc. split; [by eapply retryDeletion_inv|].
      exists z. by rewrite (retryDeletion_jobs _ _ _ _ Hc). }
    intros _ w2 H2. apply (owp_lastUpdate rolling); [apply rolling_closed|done|]. intros x _ Hx. split_and!; try done. intros _.
    unfold rolling in Hx. cbn. by destruct (Status x).
  - apply (owp_lastUpdate unpublished); [apply unpublished_closed|split; [done|exists j; split; [done|]]|].
    + destruct (decide (ServiceID j = "")) as [|Hne]; [done|]. pose proof (jo_service _ _ (i_jobs cfg w1 H1 id j Hj) Hne) as Hset.
      unfold settled in Hset. rewrite Hst in Hset. rewrite bool_decide_true in Hb by done. cbn in Hb. apply negb_false_iff, String.eqb_eq in Hb.
      by destruct (Hrt Hset).
    + intros x _ Hx. split_and!; try done.
Qed.

Definition readyIn (ws : string) (j : ImportJob) : Prop := Status j = ImportReadyToPublish /\ WorkspaceID j = ws.

Lemma readyIn_closed ws : cancelClosed (readyIn ws).
Proof using. intros now j [H _] Hp. unfold processed in Hp. by rewrite H in Hp. Qed.

Lemma Publish_inv now serviceID id w : inv w -> serviceID <> "" -> keepsInv (Publish cfg cwd env now serviceID id) w.
Proof using Hsane.
  intros Hi Hs. apply (owp_getJob _ (fun _ => True)); [apply always_closed|done|]. intros j w1 H1 Hj _.
  destruct (decide (Status j = ImportReadyToPublish)) as [Hst|Hst]; [rewrite bool_decide_true by done|rewrite bool_decide_false by done; by apply owp_fail].
  cbn [negb]. destruct (Plan j) as [plan|]; [|by apply owp_fail].
  pose proof (jo_id _ _ (i_jobs cfg w1 H1 id j Hj)) as Hid.
  apply (owp_updateJob (readyIn (WorkspaceID j)) (publishingIn (WorkspaceID j))); [apply readyIn_closed|split; [done|by exists j]|..].
  - intros x Hx [Hxs _]. split_and!; try done. intros Hne. pose proof (jo_service _ _ Hx Hne) as Hset. unfold settled in Hset. by rewrite Hxs in Hset.
  - intros x [_ Hw]. by split.
  - intros x w2 H2 Hx Hp. apply finishPublish_spec; [done|]. split; [done|]. rewrite Hid. by exists x.
Qed.
End Operations.
