(* ===== verification/ImportWorker.v ===== *)
(** * Correctness of the importer: worker, rollback and creation

    The worker's rounds, the rollback of a publication with its watcher, and the
    creation of jobs keep the invariant of [ImportCorrect]. *)

From stdpp Require Import relations sorting.
From S2P Require Import Prelude GoText GoPath ImportPlan Faults ImportStore ImportFiles ImportFilesCorrect Importer ImportCorrect ImportOperations.

Section Worker.
Context (cfg : config) (cwd : string) (registered : string -> bool) (env : environment) (Hsane : sane cfg registered env).

Local Abbreviation inv := (inv cfg).
Local Abbreviation invJob := (invJob cfg).
Local Abbreviation keepsInv := (keepsInv cfg).
Local Abbreviation keepsA := (keeps attended).

(** ** Rollback *)

Lemma startDeletion_inv op s w r w' : inv w -> startDeletion op s w = Some (r, w') -> inv w'.
Proof using.
  intros Hi. unfold startDeletion. destruct (services w !! s); [|done]. destruct (deletions w !! op) eqn:Hd; [done|]. intros [= _ <-].
  apply inv_deletions; [done|]. intros t Hu k d Hk. apply (Hu k). cbn. rewrite lookup_insert_ne; [done|congruence].
Qed.

Lemma startDeletion_jobs op s w r w' : startDeletion op s w = Some (r, w') -> import_jobs w' = import_jobs w.
Proof using. unfold startDeletion. destruct (services w !! s); [|done]. destruct (deletions w !! op); [done|]. by intros [= _ <-]. Qed.

Lemma keeps_startDeletion P id op s : cancelClosed P -> keepsA (invJob P id) (coordinate (startDeletion op s)).
Proof using.
  intros Hc. apply keeps_coordinate; [by apply invJob_stable|]. intros w a w' [Hi Hj] Hr. split; [by eapply startDeletion_inv|].
  unfold jobIs. by rewrite (startDeletion_jobs _ _ _ _ _ Hr).
Qed.

Definition published (j : ImportJob) : Prop := Status j = ImportPublished.
Lemma published_closed : cancelClosed published.
Proof using. intros now j H Hp. unfold published, processed in *. by rewrite H in Hp. Qed.

Lemma rolling_quiet now op j : rolling j -> quietUpdate now (withRollbackOperationID op noUpdate) j.
Proof using. intros H. split_and!; try done. intros _. unfold rolling, settled in *. cbn. by destruct (Status j). Qed.

Lemma invJob_failable id w : invJob rolling id w -> invJob failable id w.
Proof using. apply invJob_mono, rolling_failable. Qed.

Lemma Rollback_inv now hasRollback op id w : inv w -> keepsInv (Rollback cfg cwd env now hasRollback op id) w.
Proof using Hsane.
  intros Hi. apply (owp_getJob _ _ (fun _ => True)); [apply always_closed|done|]. intros j w1 H1 Hj _.
  destruct (decide (Status j = ImportPublished)) as [Hst|Hst]; [rewrite bool_decide_true by done|rewrite bool_decide_false by done; by apply owp_fail].
  cbn [negb]. destruct (negb _); [by apply owp_fail|].
  apply (owp_updateJob _ published rolling); [apply published_closed|split; [done|by exists j]|by intros x _ _; split_and!|done|].
  intros x w2 H2 Hx Hr. pose proof (jo_id _ _ (i_jobs cfg w2 H2 id x Hx)) as Hid.
  apply owp_bind, owp_try. eapply (owp_keeps (invJob rolling id)); [apply keeps_startDeletion, rolling_closed|split; [done|by exists x]|..].
  - intros o w3 H3. apply (owp_lastUpdate _ rolling); [apply rolling_closed|done|]. intros y _. apply rolling_quiet.
  - intros e w3 H3. eapply failing_spec; [done|]. rewrite Hid. by apply invJob_failable.
  - by intros w3 [].
Qed.

(** A watcher runs for a job whose rollback has begun. *)
Definition rollbackPhase (j : ImportJob) : Prop := Phase j = ImportPhaseRollback.
Lemma rollbackPhase_closed : cancelClosed rollbackPhase.
Proof using. by intros now j H _. Qed.

Lemma watchTick_inv now job op w : invJob rollbackPhase (ID job) w -> keepsInv (watchTick cfg cwd env now job op) w.
Proof using Hsane.
  intros Hw. apply owp_bind, owp_fate. intros w1 Hm.
  pose proof (meanwhile_stable _ _ _ _ _ (invJob_stable cfg rollbackPhase (ID job) rollbackPhase_closed) Hm Hw) as H1.
  split; [|split; [intros _; apply owp_ret|intros _]]; [|apply H1..].
  apply owp_bind, owp_get. destruct (deletionStatus <$> _) as [[| |text]|]; try (apply owp_ret, H1).
  - apply owp_bind. apply (owp_keeps (invJob rollbackPhase (ID job))); [|done|intros ? ? []; by apply owp_ret|by intros ? ? []|by intros ? []].
    apply keeps_ignoring, keeps_update; [apply rollbackPhase_closed|done|]. intros x _ Hx. by split_and!.
  - apply owp_bind. eapply owp_mono; [eapply fail_spec; [done|]|..]; cbn; [|intros; by apply owp_ret|done|done].
    eapply invJob_mono; [|exact H1]. by right.
Qed.

(** ** The worker *)

Definition working (j : ImportJob) : Prop := ServiceID j = "" /\ match Status j with ImportRunning | ImportCancelling => True | _ => False end.
Lemma working_closed : cancelClosed working.
Proof using. intros now j [H _] _. by split. Qed.
Lemma working_idle j : working j -> idle j.
Proof using. intros [H1 H2]. split; [done|]. by destruct (Status j). Qed.
Lemma working_unpublished j : working j -> unpublished j.
Proof using. by intros []. Qed.

Definition queued (j : ImportJob) : Prop := Status j = ImportQueued.
Lemma queued_closed : cancelClosed queued.
Proof using. intros now j H Hp. unfold queued, processed in *. by rewrite H in Hp. Qed.

Lemma jobsWith_stored f j w : inv w -> j ∈ jobsWith f w -> import_jobs w !! ID j = Some j /\ f j = true.
Proof using.
  intros Hi. unfold jobsWith. rewrite merge_sort_Permutation. intros Hj%list_elem_of_In%List.filter_In. destruct Hj as [Hj Hf].
  split; [|done]. apply list_elem_of_In, list_elem_of_fmap in Hj as ([k x] & -> & Hk). apply elem_of_map_to_list in Hk. cbn.
  by rewrite (jo_id _ _ (i_jobs cfg w Hi k x Hk)).
Qed.

Lemma queued_unpublished id j : jobOk id j -> queued j -> ServiceID j = "".
Proof using.
  intros [_ _ _ _ H] Hs. destruct (decide (ServiceID j = "")) as [|Hne]; [done|]. specialize (H Hne). unfold settled in H. by rewrite Hs in H.
Qed.

Lemma inv_active w s : inv w -> inv (set_active s w).
Proof using. intros [A Z B C D E]. by split. Qed.

Lemma claim_spec now w : inv w ->
  owp attended (claim now) (fun r w' => match r with Some job => invJob working (ID job) w' | None => inv w' end) (fun _ => inv) inv w.
Proof using.
  intros Hi. apply owp_bind. apply (owp_db inv); [apply importInv_stable|apply importInv_gone|done|]. intros w1 H1. split; [|done].
  unfold ListRunnableImportJobs. set (q := fun j => bool_decide (Status j = ImportQueued)).
  destruct (take 100 (jobsWith q w1)) as [|job rest] eqn:Hl; [by apply owp_ret|].
  assert (Hin : job ∈ jobsWith q w1) by (apply (subseteq_take 100 (jobsWith q w1)); rewrite Hl; left).
  destruct (jobsWith_stored _ _ _ H1 Hin) as [Hj Hq%bool_decide_eq_true].
  apply owp_bind. apply (owp_db (invJob queued (ID job))); [apply invJob_stable, queued_closed|apply invJob_gone|split; [done|by exists job]|].
  intros w2 [H2 (x & Hx & Hxq)]. pose proof (i_jobs cfg w2 H2 _ x Hx) as Hok. pose proof (queued_unpublished _ _ Hok Hxq) as Hun.
  set (u := withStatus _ _).
  assert (H3 : inv (UpdateImportJob now (ID job) u w2).2).
  { apply UpdateImportJob_inv; [done|]. intros y Hy. assert (y = x) as -> by congruence. by split_and!. }
  split; [|done]. unfold UpdateImportJob in *. rewrite Hx in *. destruct (CancelRequested x && _); [done|]. cbn [fst snd] in *.
  apply owp_bind, owp_mod, owp_ret. split; [by apply inv_active|]. exists (applyUpdate now u x). split; [|by split].
  change (ID (applyUpdate now u x)) with (ID x). cbn [import_jobs set_active].
  destruct (sameEvent x _); unfold storeJob; cbn; apply lookup_insert_eq.
Qed.

Lemma keeps_cancelled I bound id : stable happen attended I -> keepsA I (cancelled bound id).
Proof using. intros Hs. apply keeps_bind; [apply keeps_try, keeps_read; [done|apply GetImportJob_read]|intros; apply keeps_ret]. Qed.

Lemma keeps_exec I : stable happen attended I -> keepsA I exec.
Proof using. intros Hs. apply keeps_bind; [by apply keeps_fate|]. intros []; [apply keeps_fail|apply keeps_ret]. Qed.

(** An update of a job without a service. *)
Lemma keeps_unpublished now bound id u : uServiceID u = None -> uCancelRequested u <> Some true ->
  match uStatus u with Some ImportReadyToPublish | Some ImportPublishing => False | _ => True end ->
  keepsA (invJob unpublished id) (db bound (UpdateImportJob now id u)).
Proof using.
  intros Hs Hc Hst. apply keeps_update; [apply unpublished_closed|..].
  - intros j Hj. unfold unpublished, applyUpdate in *. cbn. by rewrite Hs.
  - intros j _ Hj. split_and!; [done|done|by intros []|]. by destruct (uStatus u) as [[]|].
Qed.

Section Discovery.
Context (job : ImportJob) (Hplain : plain (ID job)).
Local Abbreviation I := (invJob unpublished (ID job)).
Let Hst : stable happen attended I := invJob_stable cfg unpublished (ID job) unpublished_closed.
Let Hind : indifferent cfg I := invJob_indifferent cfg unpublished (ID job).
Let Hsz : forall w, I w -> sized (files w) := invJob_sized cfg unpublished (ID job).
Local Ltac step := first [apply keeps_unpublished; done | apply keeps_cancelled; exact Hst | keep].

Lemma keeps_acquire now suffix : keepsA I (acquireSource cfg env now suffix job).
Proof using Hsane.
  unfold acquireSource. destruct (_ && _); [|keep]. apply keeps_bind; [by apply keeps_fate|]. intros []; [keep|].
  destruct (acquire env (SourcePath job)) as [[source [[cached size]|]]|] eqn:Ha; [|repeat step..].
  destruct (sn_cached _ _ _ Hsane _ _ _ _ Ha). apply keeps_bind; [by eapply keeps_adopt|]. intros [p r]. repeat step.
Qed.

Lemma keeps_archive now source : keepsA I (openArchive cfg cwd env now job source).
Proof using Hsane Hplain.
  unfold openArchive. destruct (EqualFold _ _); [|keep]. destruct (zipEntries env source) as [entries|]; [|keep].
  apply keeps_bind; [by eapply keeps_extract|]. intros c. cbv zeta. destruct (Rel _ _); [|keep].
  apply keeps_bind; [step|]. intros _. apply keeps_bind; [by eapply keeps_cleanupSource|]. intros _. keep.
Qed.

Lemma keeps_inspect total layers : keepsA I (inspectLayers cfg (ID job) total layers).
Proof using.
  revert total. induction layers as [|l layers IH]; intros total; cbn [inspectLayers]; [keep|].
  apply keeps_bind; [step|]. intros []; [keep|]. apply keeps_bind; [by apply keeps_fate|]. intros []; [keep|]. cbv zeta.
  destruct (_ <? _); [keep|apply IH].
Qed.

Lemma keeps_discover now suffix : keepsA I (discover cfg cwd env now suffix job).
Proof using Hsane Hplain.
  unfold discover, progress. repeat first [apply keeps_acquire | apply keeps_archive | apply keeps_inspect | step].
Qed.
End Discovery.

(** ** Transformation *)

Section Transformation.
Context (id : string) (stage : path) (Hown : owned cfg id stage).

(** The database that is being built is not the one that is selected. *)
Definition building (w : imports) : Prop :=
  invJob working id w /\ forall a, managed_assets w !! id = Some a -> assetPath a <> stage.

Definition built (w : imports) : Prop := building w /\ is_Some (files w !! stage).

Lemma building_stable : stable happen attended building.
Proof using. intros v w Hv [Hw Ha]. split; [by apply invJob_stable; [apply working_closed|..]|by rewrite happen_assets]. Qed.

Lemma built_stable : stable happen attended built.
Proof using. intros v w Hv [Hw Hf]. split; [by apply building_stable|]. by destruct (happen_files v w) as [-> _]. Qed.

Lemma building_gone w : building w -> gone w = false.
Proof using. intros [Hw _]. by eapply invJob_gone. Qed.

Lemma UpdateImportJob_rest now k u w : managed_assets (UpdateImportJob now k u w).2 = managed_assets w
  /\ files (UpdateImportJob now k u w).2 = files w.
Proof using. unfold UpdateImportJob. destruct (import_jobs w !! k) as [j|]; [|done]. destruct (_ && _); [done|]. cbn [snd]. by destruct (sameEvent _ _). Qed.

Lemma building_update now u w : uServiceID u = None -> uCancelRequested u <> Some true -> uStatus u = None -> building w ->
  building (UpdateImportJob now id u w).2.
Proof using.
  intros Hs Hc Hu [[Hi Hj] Ha]. destruct (UpdateImportJob_rest now id u w) as [Hr _]. split; [split|by rewrite Hr].
  - apply UpdateImportJob_inv; [done|]. intros x Hx. destruct Hj as (y & Hy & Hw & _). assert (x = y) as -> by congruence.
    split_and!; [done|done|by intros []|]. by rewrite Hu.
  - eapply UpdateImportJob_jobIs; [done|done|done|]. intros x [H1 H2]. unfold working, applyUpdate. cbn. by rewrite Hs, Hu.
Qed.

Lemma keeps_progress now u : uServiceID u = None -> uCancelRequested u <> Some true -> uStatus u = None -> keepsA built (progress now id u).
Proof using.
  intros Hs Hc Hu. apply keeps_ignoring, keeps_db; [apply built_stable|]. intros w [Hw Hf]. split; [by apply building_update|].
  by destruct (UpdateImportJob_rest now id u w) as [_ ->].
Qed.

Lemma keeps_layers now source layers processed features plans :
  keepsA built (transformLayers env now id source layers processed features plans).
Proof using.
  revert processed features. induction plans as [|plan plans IH]; intros processed features; cbn [transformLayers]; [keep|].
  apply keeps_bind; [apply keeps_cancelled, built_stable|]. intros []; [keep|].
  assert (He : keepsA built exec) by (apply keeps_exec, built_stable).
  apply keeps_bind; [destruct (isParquet source); [done|keep]|]. intros _. destruct (buildTransformSQL _ _ _) as [e|[sql col]]; [keep|].
  apply keeps_bind; [done|]. intros _. apply keeps_bind; [done|]. intros _. destruct (layerCounts env source plan) as [[total nonNull] distinct].
  destruct (_ || _); [keep|]. apply keeps_bind; [done|]. intros _. apply keeps_bind; [done|]. intros _.
  apply keeps_bind; [by apply keeps_progress|]. intros _. apply IH.
Qed.

(** The built database is selected. *)
Definition ready (j : ImportJob) : Prop := ServiceID j = "" /\ Status j = ImportReadyToPublish.
Lemma ready_closed : cancelClosed ready.
Proof using. intros now j [_ H] Hp. unfold processed in Hp. by rewrite H in Hp. Qed.

Definition selected (w : imports) : Prop :=
  invJob ready id w /\ exists a, managed_assets w !! id = Some a /\ assetPath a = stage /\ is_Some (files w !! stage).

Lemma selected_stable : stable happen attended selected.
Proof using.
  intros v w Hv [Hw Ha]. split; [by apply invJob_stable; [apply ready_closed|..]|]. rewrite happen_assets.
  by destruct (happen_files v w) as [-> _].
Qed.

Lemma keeps_previous p : owned cfg id p -> p <> stage -> keepsA selected (removeOwnedFile p).
Proof using.
  intros Hp Hne. apply keeps_ioI; [apply selected_stable|]. intros w w' [[Hi (j & Hj & Hs & Hr)] (a & Ha & Hpath & Hf)].
  destruct (bool_decide _); [done|]. intros [= <-].
  assert (Hf' : is_Some (delete p (files w) !! stage)) by (by rewrite lookup_delete_ne).
  split; [split; [|by exists j]|by exists a]. apply (inv_own cfg w id j); [done|done|done|by apply map_Forall_delete, (i_sized cfg)|..].
  - intros q Hq. apply lookup_delete_ne. by intros ->.
  - unfold readyOk. rewrite Hr. exists a. cbn. by rewrite Hpath.
Qed.

Lemma CompleteImportTransform_selected now ws key w : built w ->
  match CompleteImportTransform now (mkAsset id ws "" stage key now) w with (inl _, w') => w' = w | (inr _, w') => selected w' end.
Proof using Hown.
  intros [[[Hi (j & Hj & Hw)] Ha] Hf]. pose proof (jo_id _ _ (i_jobs cfg w Hi id j Hj)) as Hid.
  pose proof (CompleteImportTransform_inv cfg now id ws stage key w Hi) as Hinv. unfold CompleteImportTransform in *.
  cbn [assetImport assetPath] in *. rewrite Hj in *. destruct (negb _); [done|]. destruct (pathTaken id stage w); [done|]. cbn [snd] in *.
  split; [split; [apply Hinv; [by exists j; destruct Hw|done|done]|]|].
  - eexists. split; [unfold storeAsset, storeJob; cbn; rewrite Hid; apply lookup_insert_eq|]. destruct Hw as [Hw _]. by split.
  - unfold storeAsset, storeJob. cbn. destruct (managed_assets w !! id) as [a|] eqn:Hold; cbn.
    + destruct (i_assets cfg w Hi id a Hold) as ([-> _] & _). eexists. by rewrite lookup_insert_eq.
    + eexists. by rewrite lookup_insert_eq.
Qed.

Lemma selectRevision_spec now job key w : ID job = id -> built w ->
  owp attended (selectRevision now job stage key) (fun _ => selected) (fun _ => invJob working id) inv w.
Proof using Hown.
  intros Hid Hw. unfold selectRevision. rewrite Hid.
  assert (Hfail : forall w', built w' -> invJob working id w') by (by intros w' [[]]).
  assert (Hdie : forall w', built w' -> inv w') by (by intros w' [[[]]]).
  apply owp_bind. apply (owp_keeps built); [apply keeps_cancelled, built_stable|done| |by auto..]. intros c w1 H1. destruct c; [by apply owp_fail, Hfail|].
  apply owp_bind, owp_bind, owp_try. apply (owp_db built); [apply built_stable|intros x [Hx _]; by eapply building_gone|done|].
  intros w2 H2. split; [|split; [by apply owp_fail; auto|by auto]].
  assert (Hgo : forall previous, (forall a, previous = Some a -> owned cfg id (assetPath a) /\ assetPath a <> stage) -> owp attended
    (db true (CompleteImportTransform now (mkAsset id (WorkspaceID job) "" stage key now)) ≫= fun _ =>
     match previous with Some a => ignoring (removeOwnedFile (assetPath a)) | None => mret tt end)
    (fun _ => selected) (fun _ => invJob working id) inv w2).
  { intros previous Hp. apply owp_bind. apply (owp_db built); [apply built_stable|intros x [Hx _]; by eapply building_gone|done|].
    intros w3 H3. pose proof (CompleteImportTransform_selected now (WorkspaceID job) key w3 H3) as Hc. split; [|by auto].
    destruct (CompleteImportTransform _ _ w3) as [[e|[]] w4]; [subst; by auto|].
    destruct previous as [a|]; [|by apply owp_ret]. destruct (Hp a eq_refl) as [Ho Hne].
    apply owp_bind, owp_try. by eapply owp_keeps; [apply (keeps_previous _ Ho Hne)|done|intros; by apply owp_ret..|intros x []; firstorder]. }
  unfold GetManagedAssetByImport. destruct (managed_assets w2 !! id) as [a|] eqn:Ha; [|by apply owp_ret, (Hgo None)].
  apply owp_ret, (Hgo (Some a)). intros b [= <-]. destruct H2 as [[[Hi _] Hn] _]. split; [by apply (i_assets cfg w2 Hi id a Ha)|by apply Hn].
Qed.

Lemma write_spec w : building w -> owp attended (io (writeFile stage 0)) (fun _ => built) (fun _ => building) building w.
Proof using.
  intros Hw. apply owp_bind, owp_fate. intros w2 Hm. pose proof (meanwhile_stable _ _ _ _ _ building_stable Hm Hw) as H2.
  split; [|split; [|done]]; intros; intros l Hl; unfold direct; cbn [fst snd]; [|done]. cbn. split; [done|].
  destruct H2 as [[Hi Hj] Hn]. split; [split; [split|done]|by cbn; rewrite lookup_insert_eq]; [|done].
  replace (set_files _ w2) with (set_dirs (dirs w2) (set_files (<[stage := 0]> (files w2)) w2)) by (by destruct w2).
  apply inv_more; [done|by apply sized_insert; [|apply (i_sized cfg)]|]. intros p Hp. destruct (decide (p = stage)) as [He|He];
    [by rewrite He, lookup_insert_eq|by rewrite lookup_insert_ne].
Qed.

(** The statements of [transform] from the first on its database. *)
Lemma build_spec now job key source layers plans w : ID job = id -> building w ->
  owp attended (io (writeFile stage 0) ≫= fun _ => exec ≫= fun _ => transformLayers env now id source layers 0 0 plans ≫= fun _ =>
    exec ≫= fun _ => exec ≫= fun _ => selectRevision now job stage key) (fun _ => selected) (fun _ => invJob working id) inv w.
Proof using Hown.
  intros Hid Hw. assert (He : keepsA built exec) by (apply keeps_exec, built_stable).
  assert (Hfail : forall w', built w' -> invJob working id w') by (by intros w' [[]]).
  assert (Hdie : forall w', built w' -> inv w') by (by intros w' [[[]]]).
  apply owp_bind. eapply owp_mono; [by apply write_spec|..]; cbn beta; [|by intros e w' []|by intros w' [[]]]. intros _ w1 H1.
  apply owp_bind. apply (owp_keeps built); [done|done| |by auto..]. intros _ w4 H4.
  apply owp_bind. apply (owp_keeps built); [apply keeps_layers|done| |by auto..]. intros _ w5 H5.
  apply owp_bind. apply (owp_keeps built); [done|done| |by auto..]. intros _ w6 H6.
  apply owp_bind. apply (owp_keeps built); [done|done| |by auto..]. intros _ w7 H7.
  by apply selectRevision_spec.
Qed.
End Transformation.

Lemma transform_spec now revision key job w : invJob working (ID job) w ->
  (forall a, managed_assets w !! ID job = Some a -> assetPath a <> stagePath cfg (ID job) revision) ->
  owp attended (transform cfg env now revision key job) (fun _ => invJob unpublished (ID job)) (fun _ => invJob unpublished (ID job)) inv w.
Proof using.
  intros Hw Ha. set (id := ID job) in *. set (stage := stagePath cfg id revision) in *.
  pose proof (owned_stage cfg id revision) as Hown. fold stage in Hown.
  assert (Hun : forall w', invJob working id w' -> invJob unpublished id w') by (intros w'; apply invJob_mono, working_unpublished).
  unfold transform. fold id stage. destruct (validatePlan _ _ _); [by apply owp_fail, Hun|].
  apply owp_bind. apply (owp_keeps (building id stage)); [|done| |by intros e w' [H _]; auto|by intros w' [[]]].
  { apply keeps_ignoring, keeps_db; [apply building_stable|]. intros x Hx. by apply building_update. }
  intros _ w1 H1. cbv zeta. apply owp_bind, owp_try. eapply owp_mono; [by apply build_spec|..]; cbn beta; [..|done].
  - intros _ w2 [H2 _]. apply owp_ret. eapply invJob_mono; [|exact H2]. by intros j [].
  - intros e w2 H2. assert (Hr : forall p, owned cfg id p -> keepsA (invJob working id) (ignoring (removeOwnedFile p))).
    { intros p Hp. apply keeps_ignoring, keeps_removeOwned; [apply working_closed|apply working_idle|done]. }
    apply (owp_keeps (invJob working id)); [|done|by auto|by auto|by intros ? []].
    apply keeps_bind; [by apply Hr|]. intros _. apply keeps_bind; [by apply Hr, owned_wal|]. intros _. keep.
Qed.

(** ** The worker's rounds *)

(** The revision's identifier is new: no database has its name. *)
Definition freshRevision (revision : string) (w : imports) : Prop :=
  forall id a, managed_assets w !! id = Some a -> assetPath a <> stagePath cfg id revision.

Lemma runJob_spec now suffix revision key job w : invJob working (ID job) w -> freshRevision revision w ->
  keepsInv (run cfg cwd env now suffix revision key job) w.
Proof using Hsane.
  intros Hw Hf. assert (Hun : invJob unpublished (ID job) w) by (eapply invJob_mono; [|exact Hw]; apply working_unpublished).
  assert (Hp : plain (ID job)) by (destruct Hw as [Hi (j & Hj & _)]; by apply (i_jobs cfg w Hi _ j)).
  apply owp_bind, owp_try. set (I := invJob unpublished (ID job)). assert (Hi : forall w', I w' -> inv w') by (by intros w' []).
  assert (Hend : forall (r : importError + unit) w', I w' -> keepsInv (cancelled false (ID job) ≫= fun c : bool =>
    (match (if c then inl ErrCanceled else r) with inl e => fail cfg cwd env now false job e ≫= fun _ => mret tt | inr _ => mret tt end) ≫= fun _ =>
    omod (fun w => set_active (active w ∖ {[ID job]}) w)) w').
  { intros r w1 H1. apply owp_bind. apply (owp_keeps I); [apply keeps_cancelled, invJob_stable, unpublished_closed|done| |by auto..].
    intros c w2 H2. apply owp_bind. apply (owp_mono _ _ (fun _ => inv) _ (fun _ => inv) _ inv); [|intros; by apply owp_mod, inv_active|done|done].
    destruct (if c then _ else _) as [e|[]]; [|by apply owp_ret; auto]. apply owp_bind.
    eapply owp_mono; [eapply fail_spec; [done|]|..]; cbn; [|intros; by apply owp_ret|done|done]. eapply invJob_mono; [|exact H2]. apply unpublished_failable. }
  destruct (Discovery job) as [d|] eqn:Hd; [destruct (Plan job) as [p|] eqn:Hpl|].
  - eapply owp_mono; [by apply transform_spec; [|intros; by apply Hf]|..]; cbn beta; [intros; by apply Hend..|done].
  - apply (owp_keeps I); [|done|intros; by apply Hend..|done]. apply keeps_bind; [by apply keeps_unpublished|]. intros _. keep.
  - apply (owp_keeps I); [by apply keeps_discover|done|intros; by apply Hend..|done].
Qed.

(** Nothing changes the databases while a job is claimed. *)
Lemma freshRevision_stable revision : stable happen attended (freshRevision revision).
Proof using. intros v w _ H. unfold freshRevision. by rewrite happen_assets. Qed.

Lemma work_inv now suffix revision key w : inv w -> freshRevision revision w -> keepsInv (work cfg cwd env now suffix revision key) w.
Proof using Hsane.
  intros Hi Hf. apply owp_bind, owp_try. eapply owp_mono; [apply owp_and; [by apply claim_spec|]|..]; cbn beta.
  - assert (Hk : keepsA (freshRevision revision) (claim now)); [|by apply Hk].
    unfold claim. apply keeps_bind; [by apply keeps_db; [apply freshRevision_stable|]|]. intros [|job rest]; [keep|].
    apply keeps_bind; [|intros x; repeat keep; by apply keeps_mod]. apply keeps_db; [apply freshRevision_stable|]. intros x Hx.
    unfold freshRevision. by destruct (UpdateImportJob_rest now (ID job) (withStatus ImportRunning (withStartedAt now noUpdate)) x) as [-> _].
  - intros [job|] w1 [H1 H2]; [by apply runJob_spec|by apply owp_ret].
  - intros e w1 [H1 _]. by apply owp_ret.
  - by intros w1 [].
Qed.

(** ** New jobs *)

Lemma CreateImportJob_inv now id input w : inv w -> plain id -> inWorkspace input <> ".staging" -> inv (CreateImportJob now id input w).2.
Proof using.
  intros Hi Hp Hw. unfold CreateImportJob. destruct (import_jobs w !! id) eqn:Hn; [done|]. apply inv_event. destruct Hi as [A Z B C D E].
  split; [done|done|..]; unfold storeJob; cbn.
  - intros k x. destruct (decide (k = id)) as [->|]; [rewrite lookup_insert_eq; by intros [= <-]|rewrite lookup_insert_ne by done; apply B].
  - intros k a Ha. destruct (C k a Ha) as (H1 & x & H2 & H3). split; [done|]. exists x. rewrite lookup_insert_ne; [done|congruence].
  - intros s row Hr. destruct (D s row Hr) as [Hne Hok]. split; [done|]. intros Hu. destruct (Hok Hu) as (x & a & H1 & H2).
    exists x, a. cbn. rewrite lookup_insert_ne; [done|congruence].
  - intros k x. destruct (decide (k = id)) as [->|]; [rewrite lookup_insert_eq; by intros [= <-]|rewrite lookup_insert_ne by done; apply E].
Qed.

Lemma registered_workspace ws : registered ws = true -> ws <> ".staging".
Proof using Hsane. intros H ->. by rewrite (sn_workspace _ _ _ Hsane) in H. Qed.

Lemma CreateURI_inv now id ws name raw by' parsed w : inv w -> plain id -> keepsInv (CreateURI registered env now id ws name raw by' parsed) w.
Proof using Hsane.
  intros Hi Hp. unfold CreateURI. destruct (registered ws) eqn:Hr; cbn [negb]; [|by apply owp_fail].
  destruct parsed as [u|]; [|by apply owp_fail]. destruct (_ || _); [by apply owp_fail|]. destruct (_ && _); [by apply owp_fail|].
  destruct (negb _); [by apply owp_fail|]. apply (owp_keeps inv); [|done..]. apply keeps_db; [apply importInv_stable|]. intros x Hx.
  apply CreateImportJob_inv; [done|done|by apply registered_workspace].
Qed.

Lemma CreateUpload_inv now suffix id ws name filename by' size w : inv w -> plain id ->
  keepsInv (CreateUpload cfg registered now suffix id ws name filename by' size) w.
Proof using Hsane.
  intros Hi Hp. eapply (owp_keeps inv); [|done..].
  eapply (keeps_temporary _ _ _ Hsane inv _ (TemporaryDirectory cfg ++ ["upload-" +:+ suffix])); [apply importInv_stable|apply inv_indifferent|by intros x []|by eexists|..].
  - intros w0. unfold CreateUpload. destruct (registered ws) eqn:Hr; cbn [negb]; [|keep]. cbv zeta.
    assert (Hio : forall c, filesOnly c -> keepsA (frozen w0 inv) (io c)) by (intros c; apply keeps_frozen, importInv_stable).
    assert (Hdb : forall input, inWorkspace input = ws -> keepsA (frozen w0 inv) (db true (CreateImportJob now id input))).
    { intros input Hin. apply keeps_db; [apply frozen_stable, importInv_stable|]. intros x Hx. unfold frozen in *.
      pose proof (CreateImportJob_inv now id input _ Hx Hp) as H. rewrite Hin in H. specialize (H (registered_workspace ws Hr)).
      unfold CreateImportJob in *. cbn in *. by destruct (import_jobs x !! id). }
    unfold copyLimited. repeat first [apply Hio; eauto using filesOnly_id, filesOnly_temp, filesOnly_create, filesOnly_write
      | apply Hdb; done | apply frozen_cleaningUp; [apply importInv_stable|] | apply frozen_remaining; apply importInv_stable | keep].
  - intros x Hx. exists (slack cfg x). eapply owp_mono; [apply CreateUpload_spec; [done|apply (sn_upload _ _ _ Hsane)]|..]; cbn;
      [by intros r w' []|by intros e w' []|done].
Qed.
End Worker.
