(* ===== verification/ImportRecovery.v ===== *)
(** * Correctness of the importer: the start of the process

    Recovery goes through a list of jobs that was read before: what is done for one job
    leaves the rows of the others alone, so the list stays true while it is worked off.
    The whole of [New] keeps the invariant of [ImportCorrect]. *)

From stdpp Require Import relations sorting.
From S2P Require Import Prelude GoText GoPath ImportPlan Faults ImportStore ImportFiles ImportFilesCorrect Importer ImportCorrect ImportOperations ImportWorker.

Section Recovery.
Context (cfg : config) (cwd : string) (registered : string -> bool) (env : environment) (Hsane : sane cfg registered env).

Local Abbreviation inv := (inv cfg).
Local Abbreviation invJob := (invJob cfg).
Local Abbreviation keepsInv := (keepsInv cfg).
Local Abbreviation keepsA := (keeps attended).

(** ** Rows of other jobs *)

Section Beside.
(** Facts about jobs other than [id]. *)
Context (id : string) (facts : list (string * (ImportJob -> Prop))).
Context (Hother : forall k P, (k, P) ∈ facts -> k <> id /\ cancelClosed P).

Definition keyed (w : imports) : Prop := forall k j, import_jobs w !! k = Some j -> ID j = k.

Definition beside (w : imports) : Prop := keyed w /\ forall k P, (k, P) ∈ facts -> jobIs P k w.

Lemma beside_same w w' : import_jobs w' = import_jobs w -> beside w -> beside w'.
Proof using. intros He [Hk Hf]. unfold beside, keyed, jobIs. rewrite He. by split. Qed.

Lemma keyed_insert k j j' w : import_jobs w !! k = Some j -> ID j' = ID j -> keyed w -> keyed (storeJob j' w).
Proof using.
  intros Hj He Hk x y. unfold storeJob. cbn. rewrite He, (Hk k j Hj). destruct (decide (x = k)) as [->|].
  - rewrite lookup_insert_eq. intros [= <-]. by rewrite He, (Hk k j Hj).
  - rewrite lookup_insert_ne by done. apply Hk.
Qed.

Lemma beside_store j j' w : import_jobs w !! id = Some j -> ID j' = ID j -> beside w -> beside (storeJob j' w).
Proof using Hother.
  intros Hj He [Hk Hf]. split; [by eapply keyed_insert|]. intros k P HP. destruct (Hf k P HP) as (x & Hx & HPx). exists x. split; [|done].
  unfold storeJob. cbn. rewrite He, (Hk id j Hj), lookup_insert_ne; [done|]. intros <-. by destruct (Hother id P HP).
Qed.

Lemma beside_stable : stable happen attended beside.
Proof using Hother.
  intros v w Hv [Hk Hf]. destruct v as [now k|]; [|by split]. cbn. destruct (import_jobs w !! k) as [x|] eqn:Hx; [|by split].
  destruct (processed x) eqn:Hp; [|by split]. unfold RequestImportCancel. rewrite Hx. destruct (cancellable _); [|by split]. cbn [snd].
  apply (beside_same (storeJob (applyUpdate now cancelUpdate x) w)); [done|]. split; [by eapply keyed_insert|].
  intros n P HP. destruct (Hf n P HP) as (y & Hy & HPy). unfold jobIs, storeJob. cbn. rewrite (Hk k x Hx). destruct (decide (k = n)) as [->|].
  - rewrite lookup_insert_eq. eexists. split; [done|]. assert (y = x) as -> by congruence. by apply (Hother n P).
  - exists y. by rewrite lookup_insert_ne.
Qed.

Lemma beside_UpdateImportJob now u w : beside w -> beside (UpdateImportJob now id u w).2.
Proof using Hother.
  intros Hb. unfold UpdateImportJob. destruct (import_jobs w !! id) as [j|] eqn:Hj; [|done]. destruct (_ && _); [done|]. cbn [snd].
  assert (beside (storeJob (applyUpdate now u j) w)) by (by eapply beside_store). by destruct (sameEvent _ _).
Qed.

Lemma beside_PublishImport now s ws p key name rows w : beside w -> beside (PublishImport now s (mkPublish id ws p key name rows) w).2.
Proof using Hother.
  intros Hb. unfold PublishImport. cbn [pubImport pubWorkspace pubService pubPath pubLayers pubKey].
  destruct (import_jobs w !! id) as [j|] eqn:Hj; [|done]. destruct (_ && _); [by destruct (services w !! _)|].
  destruct (services w !! s); [done|]. destruct (nameTaken _ _ _); [done|]. destruct (negb _); [done|]. destruct (pathTaken _ _ _); [done|]. cbn [snd].
  apply (beside_same (storeJob (applyUpdate now (publishedUpdate now s p) j) w)); [done|]. by eapply beside_store.
Qed.

(** Calls that leave the jobs alone. *)
Lemma beside_db {A} bound (c : statement A) : (forall w, beside w -> beside (c w).2) -> keepsA beside (db bound c).
Proof using Hother. apply keeps_db, beside_stable. Qed.

Lemma beside_read {A} bound (c : statement A) : (forall w, import_jobs (c w).2 = import_jobs w) -> keepsA beside (db bound c).
Proof using Hother. intros Hc. apply beside_db. intros w. by apply beside_same. Qed.

Lemma beside_io c : (forall w w', c w = Some w' -> import_jobs w' = import_jobs w) -> keepsA beside (io c).
Proof using Hother. intros Hc. apply keeps_ioI; [apply beside_stable|]. intros w w' Hw H. by apply (beside_same w); [apply Hc|]. Qed.

Lemma beside_coordinate {A} (c : imports -> option (A * imports)) : (forall w a w', c w = Some (a, w') -> import_jobs w' = import_jobs w) ->
  keepsA beside (coordinate c).
Proof using Hother. intros Hc. apply keeps_coordinate; [apply beside_stable|]. intros w a w' Hw H. by apply (beside_same w); [eapply Hc|]. Qed.

Lemma beside_removeOwned p : keepsA beside (removeOwnedFile p).
Proof using Hother. apply beside_io. intros w w'. destruct (bool_decide _); [done|]. by intros [= <-]. Qed.

Lemma beside_promote from to : keepsA beside (promote from to).
Proof using Hother.
  intros w Hw. apply owp_bind, owp_fate. intros w' Hm. pose proof (meanwhile_stable _ _ _ _ _ beside_stable Hm Hw) as Hw'.
  split; [|split; [|done]]; intros; intros l Hl; unfold direct; cbn [fst snd]; [|done].
  destruct (files w' !! from) eqn:Hf; [|by destruct (regularFile to w')]. unfold Rename. rewrite Hf. by destruct (bool_decide _).
Qed.

Lemma Rename_jobs from to w w' : Rename from to w = Some w' -> import_jobs w' = import_jobs w.
Proof using. unfold Rename. destruct (files w !! from); [|done]. destruct (bool_decide _); [done|]. by intros [= <-]. Qed.

Lemma MkdirAll_jobs p w w' : MkdirAll p w = Some w' -> import_jobs w' = import_jobs w.
Proof using. unfold MkdirAll. destruct (existsb _ _); [done|]. by intros [= <-]. Qed.

Lemma beside_cleanupSource source : keepsA beside (cleanupTemporarySource cfg cwd source).
Proof using Hother.
  unfold cleanupTemporarySource. destruct (Rel _ _); [|keep]. destruct (_ || _); [keep|]. destruct (_ || _); [|keep].
  apply beside_io. by intros w w' [= <-].
Qed.

Lemma beside_findAsset bound k : keepsA beside (findAsset bound k).
Proof using Hother. unfold findAsset. repeat first [apply beside_read; intros w; by rewrite GetAsset_read | keep]. Qed.

Lemma beside_revisions k selected : keepsA beside (removeUnselectedRevisions cfg k selected).
Proof using Hother.
  unfold removeUnselectedRevisions. apply keeps_bind; [apply beside_io; by intros w w' [= <-]|]. intros _. apply keeps_bind; [keep|]. intros names.
  induction names as [|n names IH]; cbn [removeRevisions]; [keep|]. apply keeps_bind; [|intros _; apply IH].
  destruct (_ && _); [apply beside_removeOwned|keep].
Qed.

Local Ltac beside := repeat first
  [ match goal with H : _ |- keepsA _ _ => apply H end
  | apply beside_cleanupSource | apply beside_findAsset | apply beside_revisions | apply beside_removeOwned | apply beside_promote
  | apply beside_read; intros w; by rewrite ?GetImportJob_read, ?GetAsset_read
  | apply beside_db; intros w; first [apply beside_UpdateImportJob | apply beside_PublishImport]
  | apply keeps_fate; exact beside_stable
  | apply beside_coordinate; intros w a w'; apply startDeletion_jobs
  | apply beside_io; intros w w'; first [apply Rename_jobs | apply MkdirAll_jobs]
  | keep ].

Section Job.
Context (job : ImportJob) (Hid : ID job = id).

Lemma beside_cleanupCancelled now bound : keepsA beside (cleanupCancelled cfg cwd now bound job).
Proof using Hother Hid. unfold cleanupCancelled. rewrite Hid. beside. Qed.

Lemma beside_fail now bound e : keepsA beside (fail cfg cwd env now bound job e).
Proof using Hother Hid.
  unfold fail, cancelled, markCancelled. pose proof (beside_cleanupCancelled now false) as Hc. rewrite Hid in *. beside.
Qed.

Lemma beside_finishPublish now s plan : keepsA beside (finishPublish cfg cwd env now s job plan).
Proof using Hother Hid.
  pose proof (beside_fail now true) as Hf. unfold finishPublish, failing. rewrite Hid in *. cbv zeta. beside.
Qed.

Lemma beside_recoverJob now hasRollback s op : keepsA beside (recoverJob cfg cwd env now hasRollback s op job).
Proof using Hother Hid.
  pose proof (beside_fail now false) as Hf. pose proof (beside_finishPublish now s) as Hp. pose proof (beside_cleanupCancelled now true) as Hc.
  unfold recoverJob, recoverRollback. rewrite Hid in *. destruct (Status job); beside.
Qed.
End Job.
End Beside.

(** ** Interrupted jobs *)

(** What recovery of a job needs to know of its row. *)
Definition recoverable (job j : ImportJob) : Prop :=
  match Status job with
  | ImportPublishing => publishingIn (WorkspaceID job) j
  | ImportCancelling | ImportCancelled => ended j
  | ImportRollingBack => failable j
  | _ => True
  end.

Lemma recoverable_closed job : cancelClosed (recoverable job).
Proof using.
  unfold recoverable. destruct (Status job); try apply always_closed; first [apply publishingIn_closed | apply ended_closed | apply failable_closed].
Qed.

Lemma recoverable_self id j : jobOk id j -> recoverable j j.
Proof using.
  intros [_ _ _ _ Hs]. unfold recoverable. destruct (Status j) eqn:Hst; try done; [by unfold ended; rewrite Hst..|].
  destruct (decide (ServiceID j = "")) as [He|Hne]; [by left|right]. specialize (Hs Hne). unfold settled in Hs. by rewrite Hst in Hs.
Qed.

Lemma recoverRollback_spec now hasRollback op job w : invJob failable (ID job) w ->
  owp attended (recoverRollback now hasRollback op job) (fun _ => invJob failable (ID job)) (fun _ => invJob failable (ID job)) (invJob failable (ID job)) w.
Proof using.
  intros Hw. assert (Hst : stable happen attended (invJob failable (ID job))) by (apply invJob_stable, failable_closed).
  apply (owp_keeps (invJob failable (ID job))); [|done..]. unfold recoverRollback. destruct (negb _); [keep|]. destruct (String.eqb _ _); [|keep].
  apply keeps_bind; [by apply keeps_fate|]. intros []; [keep|]. apply keeps_bind; [keep|]. intros found.
  apply keeps_bind; [destruct found; [keep|apply keeps_startDeletion, failable_closed]|]. intros o. apply keeps_bind; [|intros; keep].
  apply keeps_update; [apply failable_closed|done|]. intros j Hj Hf. split_and!; try done. intros Hne. exact (jo_service _ _ Hj Hne).
Qed.

Lemma recoverJob_spec now hasRollback s op job w : s <> "" -> inv w -> jobIs (recoverable job) (ID job) w ->
  keepsInv (recoverJob cfg cwd env now hasRollback s op job) w.
Proof using Hsane.
  intros Hs Hi Hj. unfold recoverJob, recoverable in *. destruct (Status job); try by apply owp_ret.
  3,4: eapply owp_mono; [eapply keeps_cleanupCancelled; [exact Hsane|by split]|..]; cbn; [by intros ? ? []..|by intros ? []].
  - destruct (Plan job); [|by apply owp_ret]. apply owp_bind, owp_try.
    eapply owp_mono; [apply (finishPublish_spec cfg cwd registered env Hsane now s job _ w Hs); by split|..]; cbn; [intros; by apply owp_ret..|done].
  - apply owp_bind, owp_try. apply (owp_keeps inv); [|done|intros; by apply owp_ret..|done].
    eapply keeps_cleanupSource; [done|apply importInv_stable|apply inv_indifferent|by intros x []].
  - apply owp_bind, owp_try. eapply owp_mono; [by apply recoverRollback_spec|..]; cbn beta; [by intros _ w1 []; apply owp_ret| |by intros w1 []].
    intros e w1 H1. apply owp_bind. eapply owp_mono; [by eapply fail_spec|..]; cbn; [intros; by apply owp_ret|done|done].
Qed.

Lemma inv_keyed w : inv w -> keyed w.
Proof using. intros Hi k j Hj. by apply (jo_id _ _ (i_jobs cfg w Hi k j Hj)). Qed.

Definition factsOf (jobs : list ImportJob) : list (string * (ImportJob -> Prop)) := (fun j => (ID j, recoverable j)) <$> jobs.

Lemma recoverJobs_inv now hasRollback newID jobs w : (forall id, newID id <> "") -> NoDup (ID <$> jobs) -> inv w -> beside (factsOf jobs) w ->
  keepsInv (recoverJobs cfg cwd env now hasRollback newID jobs) w.
Proof using Hsane.
  intros Hnew. revert w. induction jobs as [|job jobs IH]; intros w Hnd Hi Hb; cbn [recoverJobs]; [by apply owp_ret|].
  cbn [fmap list_fmap] in Hnd. apply NoDup_cons in Hnd as [Hnot Hnd]. destruct Hb as [Hk Hb].
  assert (Hjob : jobIs (recoverable job) (ID job) w) by (apply Hb; left).
  assert (Hrest : beside (factsOf jobs) w) by (split; [done|]; intros k P HP; apply Hb; by right).
  assert (Hother : forall k P, (k, P) ∈ factsOf jobs -> k <> ID job /\ cancelClosed P).
  { intros k P HP. unfold factsOf in HP. apply list_elem_of_fmap in HP as (x & [= -> ->] & Hx). split; [|apply recoverable_closed].
    intros He. apply Hnot. rewrite <- He. by apply list_elem_of_fmap_2. }
  apply owp_bind. eapply owp_mono; [apply owp_and; [apply (recoverJob_spec _ _ (newID (ID job)))|by eapply (beside_recoverJob (ID job))]|..]; [done..| |by intros ? ? []|by intros ? []].
  cbn beta. intros _ w1 [H1 H2]. by apply IH.
Qed.

Lemma jobsWith_distinct f w : inv w -> NoDup (ID <$> jobsWith f w).
Proof using.
  intros Hi. unfold jobsWith. rewrite merge_sort_Permutation.
  assert (Hk : ID <$> (map_to_list (import_jobs w)).*2 = (map_to_list (import_jobs w)).*1).
  { rewrite <- list_fmap_compose. apply list_fmap_ext. intros i [k j] Hl. apply list_elem_of_lookup_2, elem_of_map_to_list in Hl. exact (inv_keyed w Hi k j Hl). }
  assert (Hnd : NoDup (ID <$> (map_to_list (import_jobs w)).*2)) by (rewrite Hk; apply NoDup_fst_map_to_list).
  clear Hk. induction ((map_to_list (import_jobs w)).*2) as [|j l IH]; [constructor|]. cbn in *. apply NoDup_cons in Hnd as [H1 H2].
  destruct (f j); [|by apply IH]. cbn. constructor; [|by apply IH]. intros Hin. apply H1.
  apply list_elem_of_fmap in Hin as (x & Hx & Hin). apply list_elem_of_In, List.filter_In in Hin as [Hin _].
  rewrite Hx. by apply list_elem_of_fmap_2, list_elem_of_In.
Qed.

Lemma recoverInterrupted_inv now hasRollback newID w : (forall id, newID id <> "") -> inv w ->
  keepsInv (recoverInterrupted cfg cwd env now hasRollback newID) w.
Proof using Hsane.
  intros Hnew Hi. apply owp_bind. apply (owp_db inv); [apply importInv_stable|apply importInv_gone|done|]. intros w1 H1. split; [|done].
  cbn. apply recoverJobs_inv; [done|by apply jobsWith_distinct|done|]. split; [by apply inv_keyed|].
  intros k P HP. unfold factsOf in HP. apply list_elem_of_fmap in HP as (x & [= -> ->] & Hx). destruct (jobsWith_stored cfg _ _ _ H1 Hx) as [Hj _].
  exists x. split; [done|]. by eapply recoverable_self, (i_jobs cfg w1 H1).
Qed.

Lemma ResetInterruptedImportJobs_inv now w : inv w -> inv (ResetInterruptedImportJobs now w).2.
Proof using.
  intros [A Z B C D E].
  assert (Hreset : forall j, ID (resetJob now j) = ID j /\ WorkspaceID (resetJob now j) = WorkspaceID j /\ ServiceID (resetJob now j) = ServiceID j)
    by (intros j; unfold resetJob; by destruct (Status j)).
  unfold ResetInterruptedImportJobs. cbn [snd]. split; cbn; [done|done|..].
  - intros id j' (j & <- & Hj)%lookup_fmap_Some. destruct (Hreset j) as (R1 & R2 & R3). destruct (B id j Hj) as [O1 O2 O3 O4 O5].
    split; [by rewrite R1|done|by rewrite R2|..].
    + unfold resetJob. destruct (Status j) eqn:Hs; rewrite ?Hs; try done. cbn. by intros ->.
    + rewrite R3. intros Hne. specialize (O5 Hne). unfold settled, resetJob in *. by destruct (Status j) eqn:Hs; rewrite ?Hs.
  - intros id a Ha. destruct (C id a Ha) as (H1 & j & Hj & H2). split; [done|]. exists (resetJob now j). rewrite lookup_fmap, Hj.
    destruct (Hreset j) as (_ & _ & R). by rewrite R.
  - intros s row Hr. destruct (D s row Hr) as [Hne Hok]. split; [done|]. intros Hu. destruct (Hok Hu) as (j & a & H1 & H2 & H3).
    exists (resetJob now j), a. cbn. rewrite lookup_fmap, H1. destruct (Hreset j) as (_ & _ & R). by rewrite R.
  - intros id j' (j & <- & Hj)%lookup_fmap_Some. specialize (E id j Hj). destruct (Hreset j) as (_ & R & _). unfold readyOk in *. rewrite R. cbn.
    unfold resetJob in *. destruct (Status j) eqn:Hs; cbn; rewrite ?Hs; try done. by destruct (CancelRequested j).
Qed.

(** ** Abandoned revisions *)

Definition selects (id : string) (selected : option path) (w : imports) : Prop :=
  invJob (fun _ => True) id w /\ assetPath <$> (managed_assets w !! id) = selected.

Lemma selects_stable id selected : stable happen attended (selects id selected).
Proof using. intros v w Hv [Hw Ha]. split; [by apply invJob_stable; [apply always_closed|..]|by rewrite happen_assets]. Qed.

Lemma keeps_unselected id selected name : revisionOf id name = true -> isSelected selected (stagingDir cfg ++ [name]) = false ->
  keepsA (selects id selected) (removeOwnedFile (stagingDir cfg ++ [name])).
Proof using.
  intros Hr Hs. apply keeps_ioI; [apply selects_stable|]. intros w w' [[Hi (j & Hj & _)] Ha]. destruct (bool_decide _); [done|]. intros [= <-].
  split; [split; [|by exists j]|done]. apply (inv_unselected cfg w _ id j); [done|done|by apply owned_revision|..].
  - intros He. unfold stagingDir, finalPath in He. rewrite <- app_assoc in He. apply app_inv_head in He. injection He as He _.
    by destruct (jo_workspace _ _ (i_jobs cfg w Hi id j Hj)).
  - intros a Ha' He. rewrite Ha' in Ha. cbn in Ha. subst selected. unfold isSelected in Hs. rewrite He, bool_decide_true in Hs; done.
Qed.

Lemma keeps_abandoned id selected : keepsA (selects id selected) (removeUnselectedRevisions cfg id selected).
Proof using.
  unfold removeUnselectedRevisions. apply keeps_bind; [apply keeps_ioI; [apply selects_stable|by intros w w' Hw [= <-]]|]. intros _.
  apply keeps_bind; [keep|]. intros names. induction names as [|n names IH]; cbn [removeRevisions]; [keep|]. apply keeps_bind; [|intros _; apply IH].
  destruct (revisionOf id n) eqn:Hr; cbn [andb]; [|keep]. destruct (isSelected selected _) eqn:Hs; cbn [negb]; [keep|by apply keeps_unselected].
Qed.

Lemma keeps_cleanupRevisions seen names : keepsA inv (cleanupRevisions cfg seen names).
Proof using.
  revert seen. induction names as [|n names IH]; intros seen; cbn [cleanupRevisions]; [keep|]. destruct (cutBefore _ n) as [id|]; [|apply IH].
  destruct (bool_decide _); [apply IH|]. intros w Hw. apply owp_bind, owp_try.
  apply (owp_db inv); [apply importInv_stable|apply importInv_gone|done|]. intros w1 H1. unfold GetImportJob.
  destruct (import_jobs w1 !! id) as [j|] eqn:Hj; [|by split; [apply IH|split; [apply owp_fail|]]]. split; [|by split; [apply owp_fail|]].
  assert (Hs : invJob (fun _ => True) id w1) by (split; [done|by exists j]).
  apply owp_bind, owp_bind, owp_try. apply (owp_db (invJob (fun _ => True) id)); [apply invJob_stable, always_closed|apply invJob_gone|done|].
  intros w2 H2. split; [|by split; [apply owp_fail; apply H2|apply H2]].
  assert (Hgo : forall asset, managed_assets w2 !! id = asset -> owp attended
    (removeUnselectedRevisions cfg id (assetPath <$> asset) ≫= fun _ => cleanupRevisions cfg ({[id]} ∪ seen) names) (fun _ => inv) (fun _ => inv) inv w2).
  { intros asset <-. apply owp_bind. eapply (owp_keeps (selects id (assetPath <$> managed_assets w2 !! id))); [apply keeps_abandoned|done|..].
    - intros _ w3 [[H3 _] _]. by apply IH.
    - by intros ? w3 [[]].
    - by intros w3 [[]]. }
  unfold GetManagedAssetByImport. destruct (managed_assets w2 !! id) as [a|] eqn:Ha; apply owp_ret; [by apply (Hgo (Some a))|by apply (Hgo None)].
Qed.

(** ** The start *)

Theorem New_inv now hasRollback newID w : (forall id, newID id <> "") -> inv w -> keepsInv (New cfg cwd env now hasRollback newID) w.
Proof using Hsane.
  intros Hnew Hi. apply owp_bind. apply (owp_keeps inv); [|done| |done|done].
  { apply keeps_db; [apply importInv_stable|]. intros x. apply ResetInterruptedImportJobs_inv. }
  intros _ w1 H1. apply owp_bind, owp_mod, owp_bind. eapply owp_mono; [apply recoverInterrupted_inv; [done|by apply inv_active]|..]; [|done|done].
  cbn beta. intros _ w2 H2. apply (owp_keeps inv); [|done..]. unfold cleanupAbandonedRevisions.
  apply keeps_bind; [apply keeps_ioI; [apply importInv_stable|by intros x y Hx [= <-]]|]. intros _. apply keeps_bind; [keep|]. intros names.
  apply keeps_cleanupRevisions.
Qed.
End Recovery.
