(* ===== verification/ImportTheorems.v ===== *)
(** * Theorems about managed imports

    What holds in every state that the importer, the coordinator of deletions and
    restarts can reach, whichever calls fail and wherever the process dies; what a
    finished cancellation leaves behind; the end of a publication. *)

From stdpp Require Import relations sorting.
From S2P Require Import Prelude GoText GoPath ImportPlan Faults ImportStore ImportFiles ImportFilesCorrect Importer ImportCorrect ImportOperations ImportWorker ImportRecovery.

(** ** Steps *)

(** A computation ran, with any faults, requests to cancel in between, the end of the request it
    belongs to, or to its own death. When [tended] the request did not end before. *)
Definition ran (tended : bool) {A} (c : imp A) (w w' : imports) : Prop :=
  exists l r l', (tended = true -> Forall attended l) /\ c (w, l) = (r, (w', l')).

Section Steps.
Context (cfg : config) (cwd : string) (registered : string -> bool) (env : environment).

(** [GetManagedAssetByService]: a staged database has no service. *)
Definition assetOf (s id : string) (a : ManagedAsset) (w : imports) : Prop :=
  managed_assets w !! id = Some a /\ assetService a = s /\ s <> "".

(** What the coordinator does for the deletion [op] of a service, once accepted: it moves
    the database of the service aside or back, removes the row of the service, removes the
    database and its row, and records how far it is. *)
Inductive coordinatorStep (op s : string) : imports -> imports -> Prop :=
| coordinator_stage id a w w' : assetOf s id a w ->
    Rename (assetPath a) (suffixed (assetPath a) (".deleting-" +:+ op)) w = Some w' -> coordinatorStep op s w w'
| coordinator_restore id a w w' : assetOf s id a w ->
    Rename (suffixed (assetPath a) (".deleting-" +:+ op)) (assetPath a) w = Some w' -> coordinatorStep op s w w'
| coordinator_commit w : coordinatorStep op s w (set_services (delete s (services w)) w)
| coordinator_remove id a w : assetOf s id a w ->
    coordinatorStep op s w (set_files (delete (suffixed (assetPath a) (".deleting-" +:+ op)) (files w)) w)
| coordinator_forget id a w : assetOf s id a w ->
    coordinatorStep op s w (DeleteManagedAsset id w).2
| coordinator_record status w : coordinatorStep op s w (set_deletions (<[op := mkDeletion s status]> (deletions w)) w).

(** The identifiers are new. [tended] leaves out the retry of a rollback that never became an
    operation of the coordinator, and requests that end before their calls. *)
Inductive importStep (tended : bool) : imports -> imports -> Prop :=
| import_upload now suffix id ws name filename by' size w w' : plain id ->
    ran tended (CreateUpload cfg registered now suffix id ws name filename by' size) w w' -> importStep tended w w'
| import_uri now id ws name raw by' parsed w w' : plain id ->
    ran tended (CreateURI registered env now id ws name raw by' parsed) w w' -> importStep tended w w'
| import_plan now id plan w w' : ran tended (SetPlan cfg cwd env now id plan) w w' -> importStep tended w w'
| import_cancel now id w w' : ran tended (Cancel cfg cwd now id) w w' -> importStep tended w w'
| import_retry now hasRollback id w w' : (tended = true -> forall j, import_jobs w !! id = Some j -> retriable j) ->
    ran tended (Retry cfg now hasRollback id) w w' -> importStep tended w w'
| import_publish now s id w w' : s <> "" -> ran tended (Publish cfg cwd env now s id) w w' -> importStep tended w w'
| import_rollback now hasRollback op id w w' : ran tended (Rollback cfg cwd env now hasRollback op id) w w' -> importStep tended w w'
| import_watch now job op w w' : jobIs rollbackPhase (ID job) w -> ran tended (watchTick cfg cwd env now job op) w w' -> importStep tended w w'
| import_work now suffix revision key w w' : freshRevision cfg revision w ->
    ran tended (work cfg cwd env now suffix revision key) w w' -> importStep tended w w'
| import_start now hasRollback newID w w' : (forall id, newID id <> "") ->
    ran tended (New cfg cwd env now hasRollback newID) w w' -> importStep tended w w'
| import_delete op s r w w' : startDeletion op s w = Some (r, w') -> importStep tended w w'
| import_coordinator op d w w' : deletions w !! op = Some d -> coordinatorStep op (deletedService d) w w' -> importStep tended w w'.

Context (Hsane : sane cfg registered env).
Local Abbreviation inv := (inv cfg).

Lemma ran_inv {A} (c : imp A) w w' : keepsInv cfg c w -> ran true c w w' -> inv w'.
Proof using. intros H (l & r & l' & Hl & Hc). pose proof (owp_run _ _ _ _ _ _ _ _ _ _ H (Hl eq_refl) Hc) as Hr. by destruct r. Qed.

(** *** The coordinator *)

Lemma owned_suffixed id p s : owned cfg id p -> owned cfg id (suffixed p s).
Proof using.
  intros (d & r & ->). exists d, (r +:+ s). unfold suffixed. change [d; ?x] with ([d] ++ [x]). rewrite app_assoc, removelast_last.
  unfold lastOr. rewrite last_snoc. simpl. by rewrite <- app_assoc, sapp_assoc.
Qed.

(** The files of an import whose service is being deleted. *)
Lemma inv_deleted w id a op d f : inv w -> assetOf (deletedService d) id a w -> deletions w !! op = Some d ->
  sized f -> (forall p, ~ owned cfg id p -> f !! p = files w !! p) -> inv (set_files f w).
Proof using.
  intros [A Z B C D E] (Ha & Hs & Hne) Hd Hz Hf. destruct (C id a Ha) as ([Hid Ho] & j & Hj & Hun).
  assert (Hother : forall id', plain id' -> id' <> id -> forall q, owned cfg id' q -> f !! q = files w !! q).
  { intros id' Hp Hn q Hq. apply Hf. intros Hoq. destruct Hn. apply (owned_unique cfg id' id q); [done|by apply (B id j)|done|done]. }
  split; [done|done|done|done|..]; cbn.
  - intros s row Hr. destruct (D s row Hr) as [Hsne Hok]. split; [done|]. intros Hu. destruct (Hok Hu) as (x & b & H1 & H2 & H3 & H4 & H5 & H6).
    exists x, b. split_and!; try done. cbn. destruct (decide (managedImportID row = id)) as [He|He].
    + rewrite He in H3. assert (b = a) as -> by congruence. destruct (Hu op d Hd). congruence.
    + rewrite (Hother (managedImportID row)); [done|by apply (B _ x)|done|by apply (C _ b H3)].
  - intros k x Hx. specialize (E k x Hx). unfold readyOk in *. cbn in *. destruct (decide (k = id)) as [->|Hk].
    + assert (x = j) as -> by congruence. assert (Hset : settled j). { apply (jo_service _ _ (B id j Hj)). intros He. apply Hne. rewrite <- Hs. by apply Hun. }
      unfold settled in Hset. by destruct (Status j).
    + specialize (Hother k (jo_plain _ _ (B k x Hx)) Hk). destruct (Status x); try done.
      * destruct E as (b & Hb & Hfb). exists b. split; [done|]. rewrite Hother; [done|by apply (C k b Hb)].
      * destruct E as (b & Hb & Hfb). exists b. split; [done|]. rewrite !Hother; [done|apply owned_final|by apply (C k b Hb)].
Qed.

Lemma Rename_inv w w' id a op d from to : inv w -> assetOf (deletedService d) id a w -> deletions w !! op = Some d -> owned cfg id from -> owned cfg id to -> Rename from to w = Some w' -> inv w'.
Proof using.
  intros Hi Ha Hd Hfrom Hto. unfold Rename. destruct (files w !! from) as [n|] eqn:Hn; [|done]. destruct (bool_decide _); [done|]. intros [= <-].
  apply (inv_deleted w id a op d); try done.
  - apply sized_insert; [by apply (i_sized cfg w Hi from)|by apply map_Forall_delete, (i_sized cfg)].
  - intros p Hp. rewrite lookup_insert_ne, lookup_delete_ne; [done|by intros ->|by intros ->].
Qed.

Lemma coordinatorStep_inv w w' op d : inv w -> deletions w !! op = Some d -> coordinatorStep op (deletedService d) w w' -> inv w'.
Proof using.
  intros Hi Hd Hstep.
  assert (Ho : forall id a, assetOf (deletedService d) id a w -> owned cfg id (assetPath a)) by (intros id a (Ha & _); by apply (i_assets cfg w Hi id a Ha)).
  inversion Hstep as [id a x y Ha Hr|id a x y Ha Hr|x|id a x Ha|id a x Ha|st x]; subst.
  - eapply (Rename_inv w w' id a op d _ _ Hi Ha Hd); [ | |exact Hr]; [by apply Ho|by apply owned_suffixed, Ho].
  - eapply (Rename_inv w w' id a op d _ _ Hi Ha Hd); [ | |exact Hr]; [by apply owned_suffixed, Ho|by apply Ho].
  - destruct Hi as [A Z B C D E]. split; try done. cbn. intros t row [Hne Hr]%lookup_delete_Some. by apply D.
  - apply (inv_deleted w id a op d); [done|done|done|by apply map_Forall_delete, (i_sized cfg)|]. intros p Hp. apply lookup_delete_ne. intros <-.
    by apply Hp, owned_suffixed, Ho.
  - destruct Ha as (Ha & Hs & Hne). pose proof Hi as [A Z B C D E]. destruct (C id a Ha) as (_ & j & Hj & Hun).
    cbn [DeleteManagedAsset snd]. split; [done|done|done|..]; cbn.
    + intros k b [_ Hb]%lookup_delete_Some. by apply C.
    + intros t row Hr. destruct (D t row Hr) as [Htne Hok]. split; [done|]. intros Hu. destruct (Hok Hu) as (x & b & H1 & H2 & H3 & H4 & H5).
      exists x, b. cbn. split_and!; try tauto. apply lookup_delete_Some. split; [|done]. intros He. rewrite <- He in H3.
      destruct (Hu op d Hd). congruence.
    + intros k x Hx. specialize (E k x Hx). unfold readyOk in *. cbn. destruct (decide (k = id)) as [->|Hk]; [|by rewrite lookup_delete_ne].
      assert (x = j) as -> by congruence. assert (Hset : settled j).
      { apply (jo_service _ _ (B id j Hj)). intros He. apply Hne. rewrite <- Hs. by apply Hun. }
      unfold settled in Hset. by destruct (Status j).
  - apply inv_deletions; [done|]. intros t Hu k x Hx. unfold undeleted in Hu. cbn in Hu. destruct (decide (k = op)) as [->|Hk].
    + assert (x = d) as -> by congruence. apply (Hu op (mkDeletion (deletedService d) st)). by rewrite lookup_insert_eq.
    + apply (Hu k x). by rewrite lookup_insert_ne.
Qed.

Lemma importStep_inv w w' : inv w -> importStep true w w' -> inv w'.
Proof using Hsane.
  intros Hi Hstep. inversion Hstep; subst; try (by eapply coordinatorStep_inv); try (by eapply startDeletion_inv);
    (eapply ran_inv; [|eassumption]).
  - by eapply CreateUpload_inv.
  - by eapply CreateURI_inv.
  - by apply SetPlan_inv.
  - by eapply Cancel_inv.
  - apply Retry_inv; auto.
  - by eapply Publish_inv.
  - by eapply Rollback_inv.
  - by eapply watchTick_inv.
  - by eapply work_inv.
  - by eapply New_inv.
Qed.

Lemma importReachable_inv w w' : inv w -> rtc (importStep true) w w' -> inv w'.
Proof using Hsane. intros Hi Hr. induction Hr as [|x y z Hs _ IH]; [done|]. apply IH. by eapply importStep_inv. Qed.
End Steps.

(** ** Every published service has its database *)

(** A first start. *)
Definition pristine (w : imports) : Prop :=
  import_jobs w = ∅ /\ managed_assets w = ∅ /\ services w = ∅ /\ sized (files w) /\ gone w = false.

Lemma pristine_inv cfg w : pristine w -> inv cfg w.
Proof.
  intros (Hj & Ha & Hs & Hz & Hg). split; [done|done|..]; rewrite ?Hj, ?Ha, ?Hs; by intros ? ? ?%lookup_empty_Some.
Qed.

(** C10: In every state that uploads, plans, publications, rollbacks, retries, cancellations,
    the worker's rounds, restarts and the deletions of services can reach, whichever calls
    fail and wherever the process dies, as long as no rollback is retried that the
    coordinator had refused to start and no request is abandoned by its client before its
    calls have run: a service that no deletion was accepted for belongs to an import that
    names it, and its database is at its final place; an import that is ready to be
    published has its database; a request to cancel leaves only an import that is being
    cancelled or is cancelled; an import with a service is published or is being rolled
    back. (Without the first condition the database can be lost: see
    [retried_rollback_loses_database].) *)
Theorem published_database_kept cfg cwd registered env w0 w :
  sane cfg registered env -> pristine w0 -> rtc (importStep cfg cwd registered env true) w0 w ->
  (forall s row, services w !! s = Some row -> undeleted s w ->
     exists j, import_jobs w !! managedImportID row = Some j /\ ServiceID j = s
       /\ is_Some (files w !! finalPath cfg (svcWorkspace row) (managedImportID row)))
  /\ (forall id j, import_jobs w !! id = Some j ->
        (Status j = ImportReadyToPublish -> exists a, managed_assets w !! id = Some a /\ is_Some (files w !! assetPath a))
        /\ (CancelRequested j = true -> Status j = ImportCancelling \/ Status j = ImportCancelled)
        /\ (ServiceID j <> "" -> Status j = ImportPublished \/ Phase j = ImportPhaseRollback)).
Proof.
  intros Hsane Hp Hr. assert (Hi : inv cfg w) by (eapply importReachable_inv; [done|by apply pristine_inv|done]). split.
  - intros s row Hs Hu. destruct (i_services cfg w Hi s row Hs) as [_ Hok]. destruct (Hok Hu) as (j & a & H1 & H2 & _ & _ & Hpath & Hf).
    exists j. by rewrite <- Hpath.
  - intros id j Hj. pose proof (i_ready cfg w Hi id j Hj) as Hrd. destruct (i_jobs cfg w Hi id j Hj) as [_ _ _ Hc Hs]. split_and!.
    + intros Hst. unfold readyOk in Hrd. by rewrite Hst in Hrd.
    + intros H. specialize (Hc H). destruct (Status j); auto; done.
    + intros H. specialize (Hs H). unfold settled in Hs. destruct (Status j); auto; done.
Qed.

(** *** An import from its request to its service *)

Definition exampleEnv : environment := mkEnvironment (fun _ => true) (fun p => Some (p, None)) (fun _ => None)
  (fun _ => Some [exampleLayer]) (fun _ => Some 5) (fun _ _ => "") (fun _ _ => (3, 3, 3)) (fun _ => "error").
Definition anyWorkspace (ws : string) : bool := negb (String.eqb ws ".staging").
Definition streetsPlan : ImportPlan := mkPlan "streets" [mkLayerPlan "roads" "streets" "" "" true true [] [] "" "" "" 0 0].
Definition roadsURL : sourceURL := mkURL "" "/data/roads.gpkg" false "" "" "/data/roads.gpkg".

(** The state after a computation without faults. *)
Definition after {A} (c : imp A) (w : imports) : imports := (c (w, [])).2.1.

Lemma ran_after {A} (c : imp A) w : ran true c w (after c w).
Proof. exists [], (c (w, [])).1, (c (w, [])).2.2. split; [constructor|]. unfold after. by destruct (c (w, [])) as [? []]. Qed.

Abbreviation workOnce revision := (work exampleConfig "/" exampleEnv 3 "s" revision "key").
Definition requested : imports := after (CreateURI anyWorkspace exampleEnv 1 "j" "w" "" "/data/roads.gpkg" "" (Some roadsURL)) noImports.
Definition discovered : imports := after (workOnce "1") requested.
Definition planned : imports := after (SetPlan exampleConfig "/" exampleEnv 4 "j" streetsPlan) discovered.
Definition transformed : imports := after (workOnce "1") planned.
Definition servedImport : imports := after (Publish exampleConfig "/" exampleEnv 5 "svc" "j") transformed.

Lemma example_sane : sane exampleConfig anyWorkspace exampleEnv.
Proof.
  split; [|done|by repeat constructor|done|done|done]. intros p Hp. unfold below in *. apply bool_decide_eq_true in Hp as [k ->]. done.
Qed.

Lemma undeleted_none s w : deletions w = ∅ -> undeleted s w.
Proof. intros Hd op d. rewrite Hd. by intros ?%lookup_empty_Some. Qed.

Lemma freshRevision_none cfg revision w : managed_assets w = ∅ -> freshRevision cfg revision w.
Proof. intros Ha id a. rewrite Ha. by intros ?%lookup_empty_Some. Qed.

Lemma example_pristine : pristine noImports.
Proof. split_and!; [reflexivity..|apply map_Forall_empty|reflexivity]. Qed.

Abbreviation exampleStep := (importStep exampleConfig "/" anyWorkspace exampleEnv true).

Lemma step_requested w : exampleStep w (after (CreateURI anyWorkspace exampleEnv 1 "j" "w" "" "/data/roads.gpkg" "" (Some roadsURL)) w).
Proof. eapply import_uri; [|apply ran_after]. by split. Qed.

Lemma step_worked w : managed_assets w = ∅ -> exampleStep w (after (workOnce "1") w).
Proof. intros Ha. eapply import_work; [by apply freshRevision_none|]. apply ran_after. Qed.

Lemma step_planned w : exampleStep w (after (SetPlan exampleConfig "/" exampleEnv 4 "j" streetsPlan) w).
Proof. eapply import_plan, ran_after. Qed.

Lemma step_served w : exampleStep w (after (Publish exampleConfig "/" exampleEnv 5 "svc" "j") w).
Proof. eapply import_publish; [|apply ran_after]. done. Qed.

Lemma example_reached : rtc exampleStep noImports servedImport.
Proof.
  assert (Ha : managed_assets requested = ∅) by (vm_compute; reflexivity).
  assert (Hb : managed_assets planned = ∅) by (vm_compute; reflexivity).
  eapply rtc_l; [apply step_requested|]. eapply rtc_l; [apply step_worked; exact Ha|].
  eapply rtc_l; [apply step_planned|]. eapply rtc_l; [apply step_worked; exact Hb|].
  eapply rtc_l; [apply step_served|]. apply rtc_refl.
Qed.

Lemma published_database_kept_witness :
  exists row, services servedImport !! "svc" = Some row
    /\ is_Some (files servedImport !! finalPath exampleConfig (svcWorkspace row) (managedImportID row)).
Proof.
  destruct (published_database_kept exampleConfig "/" anyWorkspace exampleEnv noImports servedImport example_sane example_pristine example_reached)
    as [H _].
  assert (Hd : deletions servedImport = ∅) by (vm_compute; reflexivity).
  assert (Hs : exists row, services servedImport !! "svc" = Some row) by (vm_compute; eexists; reflexivity).
  destruct Hs as [row Hrow]. exists row. split; [exact Hrow|].
  destruct (H "svc" row Hrow (undeleted_none _ _ Hd)) as (j & _ & _ & Hf). exact Hf.
Defined.

(** ** A cancelled import leaves nothing behind

    When the cleanup of a cancelled import reports success, the row of its database, the
    database, every revision of it and their logs are gone, and the job is cancelled;
    and two ways in which an import is lost that nobody asked to cancel. *)

Section Cancel.
Context (cfg : config) (cwd : string).
Local Abbreviation keepsA := (keeps attended).

(** What a successful computation has reached, whatever happens on its other ends. *)
Definition reaches {A} (c : imp A) (Q : A -> imports -> Prop) (w : imports) : Prop := owp attended c Q (fun _ _ => True) (fun _ => True) w.

Lemma reaches_bind {A B} (c : imp A) (k : A -> imp B) (I J : imports -> Prop) Q w :
  keepsA I c -> I w -> (forall a w', I w' -> reaches (k a) Q w') -> reaches (c ≫= k) Q w.
Proof using. intros Hc Hw Hk. apply owp_bind. by eapply owp_keeps; [exact Hc|exact Hw|..]. Qed.

(** ** Files that are gone stay away *)

Definition nobody : list (string * (ImportJob -> Prop)) := [].

Lemma nobody_other id k P : (k, P) ∈ nobody -> k <> id /\ cancelClosed P.
Proof using. by intros ?%not_elem_of_nil. Qed.

Lemma keyed_nobody w : keyed w <-> beside nobody w.
Proof using. split; [|by intros []]. intros Hk. split; [done|]. by intros k P ?%not_elem_of_nil. Qed.

Definition absent (S : path -> Prop) (w : imports) : Prop := keyed w /\ forall p, S p -> files w !! p = None.

Lemma absent_stable S : stable happen attended (absent S).
Proof using.
  intros v w Hv [Hk Hf]. split; [|by destruct (happen_files v w) as [-> _]].
  apply keyed_nobody. apply (beside_stable "" nobody (nobody_other "")); [done|by apply keyed_nobody].
Qed.

(** A call that creates no file. *)
Lemma absent_io S c : (forall w w', c w = Some w' -> import_jobs w' = import_jobs w /\ files w' ⊆ files w) -> keepsA (absent S) (io c).
Proof using.
  intros Hc. apply keeps_ioI; [apply absent_stable|]. intros w w' [Hk Hf] H. destruct (Hc w w' H) as [Hj Hs]. split; [unfold keyed; by rewrite Hj|].
  intros p Hp. specialize (Hf p Hp). by eapply lookup_weaken_None.
Qed.

Lemma removeOwned_less p w w' : (if bool_decide (p ∈ dirs w) then None else Some (set_files (delete p (files w)) w)) = Some w' ->
  import_jobs w' = import_jobs w /\ files w' ⊆ files w.
Proof using. destruct (bool_decide _); [done|]. intros [= <-]. split; [done|apply delete_subseteq]. Qed.

Lemma absent_removeOwned S p : keepsA (absent S) (removeOwnedFile p).
Proof using. apply absent_io, removeOwned_less. Qed.

(** A file that was removed joins those that are gone. *)
Lemma removed_spec S p w : absent S w -> reaches (removeOwnedFile p) (fun _ => absent (fun q => S q \/ q = p)) w.
Proof using.
  intros Hw. apply owp_bind, owp_fate. intros w1 Hm. pose proof (meanwhile_stable _ _ _ _ _ (absent_stable S) Hm Hw) as [Hk Hf].
  split; [|split; [|done]]; intros; intros l Hl; unfold direct; cbn [fst snd]; [|done].
  destruct (bool_decide _); [done|]. split; [done|]. split; [done|]. intros q [Hq| ->]; cbn; [|apply lookup_delete_eq].
  apply lookup_delete_None. right. by apply Hf.
Qed.

Lemma reaches_removed {B} S p (k : unit -> imp B) Q w : absent S w ->
  (forall w', absent (fun q => S q \/ q = p) w' -> reaches (k tt) Q w') -> reaches (removeOwnedFile p ≫= k) Q w.
Proof using. intros Hw Hk. apply owp_bind. eapply owp_mono; [by apply removed_spec|..]; cbn beta; [|done|done]. intros [] w' H. by apply Hk. Qed.

Lemma absent_mono (S S' : path -> Prop) w : (forall p, S' p -> S p) -> absent S w -> absent S' w.
Proof using. intros H [Hk Hf]. split; [done|]. auto. Qed.

(** ** Revisions *)

Lemma stagingNames_complete name w : is_Some (files w !! (stagingDir cfg ++ [name])) -> name ∈ stagingNames cfg w.
Proof using.
  intros [n Hn]. unfold stagingNames. rewrite merge_sort_Permutation. apply list_elem_of_omap. exists (stagingDir cfg ++ [name]). split.
  - change (stagingDir cfg ++ [name]) with ((stagingDir cfg ++ [name], n).1). by apply list_elem_of_fmap_2, elem_of_map_to_list.
  - by rewrite removelast_last, bool_decide_true, last_snoc by done.
Qed.

Lemma removeRevisions_spec S id names w : absent S w ->
  reaches (removeRevisions cfg id None names)
    (fun _ => absent (fun p => S p \/ exists name, name ∈ names /\ revisionOf id name = true /\ p = stagingDir cfg ++ [name])) w.
Proof using.
  revert S w. induction names as [|name names IH]; intros S w Hw; cbn [removeRevisions].
  - apply owp_ret. eapply absent_mono; [|exact Hw]. intros p [Hp|(n & Hn & _)]; [done|by apply not_elem_of_nil in Hn].
  - destruct (revisionOf id name) eqn:Hr; cbn [andb negb isSelected].
    + apply (reaches_removed S); [done|]. intros w1 H1. eapply owp_mono; [apply IH; exact H1|..]; cbn beta; [|done|done].
      intros _ w2. apply absent_mono. intros p [Hp|(n & [->|Hn]%elem_of_cons & Hrn & ->)]; [by left; left|by left; right|].
      right. by exists n.
    + apply owp_bind, owp_ret. eapply owp_mono; [apply IH; exact Hw|..]; cbn beta; [|done|done].
      intros _ w2. apply absent_mono. intros p [Hp|(n & [->|Hn]%elem_of_cons & Hrn & ->)]; [by left|congruence|]. right. by exists n.
Qed.

Definition revisionPath (id : string) (p : path) : Prop := exists name, revisionOf id name = true /\ p = stagingDir cfg ++ [name].

Lemma removeUnselected_spec S id w : absent S w ->
  reaches (removeUnselectedRevisions cfg id None) (fun _ => absent (fun p => S p \/ revisionPath id p)) w.
Proof using.
  intros Hw. apply (reaches_bind _ _ (absent S) (absent S)); [apply absent_io; by intros x y [= <-]|done|]. intros _ w1 H1.
  apply owp_bind, owp_get. set (S' := fun p => S p \/ (revisionPath id p /\ files w1 !! p = None)).
  assert (H1' : absent S' w1) by (destruct H1 as [Hk Hf]; split; [done|]; intros p [Hp|[_ Hp]]; auto).
  eapply owp_mono; [by apply (removeRevisions_spec S')|..]; cbn beta; [|done|done]. intros _ w2. apply absent_mono.
  intros p [Hp|Hp]; [by left; left|]. destruct (files w1 !! p) eqn:Hpf; [|by left; right]. destruct Hp as (name & Hr & ->).
  right. exists name. split_and!; [|done|done]. apply stagingNames_complete. by eexists.
Qed.

(** ** The cleanup *)

Definition owns (id : string) (ws : string) (p : path) : Prop := revisionPath id p \/ p = finalPath cfg ws id.

Lemma absent_db {A} S bound (c : statement A) : (forall w, absent S w -> absent S (c w).2) -> keepsA (absent S) (db bound c).
Proof using. apply keeps_db, absent_stable. Qed.

Lemma absent_findAsset S bound id : keepsA (absent S) (findAsset bound id).
Proof using.
  unfold findAsset. apply keeps_bind; [apply keeps_try, absent_db; intros w; by rewrite GetAsset_read|]. intros r. repeat keep.
Qed.

(** No row of a database, no file, and an end. *)
Definition cleaned (job : ImportJob) (w : imports) : Prop :=
  absent (owns (ID job) (WorkspaceID job)) w /\ managed_assets w !! ID job = None
  /\ exists j, import_jobs w !! ID job = Some j /\ Status j = ImportCancelled.

Lemma forget_spec bound S id w : absent S w ->
  reaches (db bound (DeleteManagedAsset id)) (fun _ w' => absent S w' /\ managed_assets w' !! id = None) w.
Proof using.
  intros Hw. apply owp_bind, owp_fate. intros w1 Hm. pose proof (meanwhile_stable _ _ _ _ _ (absent_stable S) Hm Hw) as H1.
  split; [|split; [|done]]; intros; intros l Hl; unfold direct; cbn [fst snd]; (destruct (bound && gone w1); [done|]); [|done].
  cbn. split; [done|]. split; [exact H1|apply lookup_delete_eq].
Qed.

Lemma finishCancel_spec now bound S job w : absent S w -> managed_assets w !! ID job = None ->
  reaches (db bound (UpdateImportJob now (ID job) (cancelledUpdate now)))
    (fun _ w' => absent S w' /\ managed_assets w' !! ID job = None /\ exists j, import_jobs w' !! ID job = Some j /\ Status j = ImportCancelled) w.
Proof using.
  intros Hw Ha. apply owp_bind, owp_fate. intros w1 Hm.
  pose proof (meanwhile_stable _ _ _ _ _ (absent_stable S) Hm Hw) as H1.
  assert (Ha1 : managed_assets w1 !! ID job = None).
  { eapply (meanwhile_stable _ _ (fun w => managed_assets w !! ID job = None)); [|exact Hm|done]. intros v x _ Hx. by rewrite happen_assets. }
  split; [|split; [|done]]; intros; intros l Hl; unfold direct; cbn [fst snd]; (destruct (bound && gone w1); [done|]); [|done].
  destruct (UpdateImportJob_rest now (ID job) (cancelledUpdate now) w1) as [Hra Hrf].
  pose proof (beside_UpdateImportJob (ID job) nobody (nobody_other (ID job)) now (cancelledUpdate now) w1) as Hb.
  unfold UpdateImportJob in *. destruct H1 as [Hk Hf]. destruct (import_jobs w1 !! ID job) as [j|] eqn:Hj; [|done].
  destruct (CancelRequested j && _); [done|]. cbn [fst snd] in *. split; [done|]. split_and!; [split| |].
  - by apply keyed_nobody, Hb, keyed_nobody.
  - by rewrite Hrf.
  - by rewrite Hra.
  - exists (applyUpdate now (cancelledUpdate now) j). split; [|done].
    destruct (sameEvent j _); unfold storeJob; cbn; rewrite (Hk _ _ Hj); apply lookup_insert_eq.
Qed.

(** C11: When the cleanup of a cancelled import succeeds, whatever requests came in between:
    the job is cancelled, there is no row of a database for it, and neither its final
    database nor any revision of it, selected or not, nor a log of one is left. *)
Theorem cancelled_leaves_nothing now bound job w l w' l' : keyed w -> Forall attended l ->
  cleanupCancelled cfg cwd now bound job (w, l) = (Done tt, (w', l')) ->
  (exists j, import_jobs w' !! ID job = Some j /\ Status j = ImportCancelled)
  /\ managed_assets w' !! ID job = None
  /\ files w' !! finalPath cfg (WorkspaceID job) (ID job) = None
  /\ (forall name, revisionOf (ID job) name = true -> files w' !! (stagingDir cfg ++ [name]) = None).
Proof using.
  intros Hk Hl Hrun. assert (H : reaches (cleanupCancelled cfg cwd now bound job) (fun _ => cleaned job) w).
  2:{ pose proof (owp_run _ _ _ _ _ _ _ _ _ _ H Hl Hrun) as ([_ Hf] & Ha & Hj). split_and!; [done|done|by apply Hf; right|].
      intros name Hr. apply Hf. left. by exists name. }
  set (none := fun _ : path => False). assert (H0 : absent none w) by (split; [done|by intros p []]).
  apply (reaches_bind _ _ (absent none) (absent none)); [apply absent_db; intros x; by rewrite GetImportJob_read|done|]. intros current w1 H1.
  destruct (negb _); [by apply owp_fail|].
  apply (reaches_bind _ _ (absent none) (absent none)); [|done|].
  { intros x Hx. eapply owp_mono; [eapply (beside_cleanupSource cfg cwd "" nobody (nobody_other "")); by apply keyed_nobody, Hx|..]; cbn beta;
      intros; (split; [by apply keyed_nobody|by intros p []]). }
  intros _ w2 H2. apply (reaches_bind _ _ (absent none) (absent none)); [apply absent_findAsset|done|]. intros asset w3 H3.
  apply (reaches_bind _ _ (absent none) (absent none)); [|done|].
  { destruct asset; [|keep]. apply keeps_bind; [apply absent_removeOwned|]. intros _. apply absent_removeOwned. }
  intros _ w4 H4. apply (reaches_removed none); [done|]. intros w5 H5.
  apply owp_bind. eapply owp_mono; [apply (removeUnselected_spec _ (ID job) w5 H5)|..]; cbn beta; [|done|done]. intros _ w6 H6.
  apply owp_bind. eapply owp_mono; [apply (forget_spec bound _ (ID job) w6 H6)|..]; cbn beta; [|done|done]. intros _ w7 [H7 Ha].
  apply owp_bind. eapply owp_mono; [apply (finishCancel_spec now bound _ job w7 H7 Ha)|..]; cbn beta; [|done|done]. intros _ w8 (H8 & H9 & H10).
  apply owp_ret. split; [|by split]. eapply absent_mono; [|exact H8]. intros p [Hp|Hp]; [by right|by left; right].
Qed.
End Cancel.

(** The import of the example, cancelled before its publication. *)
Lemma cancelled_leaves_nothing_witness :
  let run := fun (c : option ImportJob) => match c with
             | Some job => cleanupCancelled exampleConfig "/" 9 true job ((RequestImportCancel 8 "j" transformed).2, [])
             | None => (Died, (transformed, []))
             end in
  let r := run (import_jobs transformed !! "j") in
  r.1 = Done tt /\ is_Some (files transformed !! ["srv"; "imports"; ".staging"; "j.revision-1.duckdb"])
  /\ files r.2.1 !! ["srv"; "imports"; ".staging"; "j.revision-1.duckdb"] = None.
Proof.
  cbv zeta. destruct (import_jobs transformed !! "j") as [job|] eqn:Hjob; [|vm_compute in Hjob; discriminate].
  set (c := cleanupCancelled exampleConfig "/" 9 true job ((RequestImportCancel 8 "j" transformed).2, [])).
  assert (Hid : ID job = "j") by (vm_compute in Hjob; injection Hjob as <-; reflexivity).
  assert (Hdone : c.1 = Done tt) by (subst c; vm_compute in Hjob; injection Hjob as <-; vm_compute; reflexivity).
  split; [exact Hdone|]. split; [vm_compute; eexists; reflexivity|].
  assert (Hk : keyed (RequestImportCancel 8 "j" transformed).2).
  { intros k j. assert (Hj : exists x, import_jobs (RequestImportCancel 8 "j" transformed).2 = {[ "j" := x ]} /\ ID x = "j")
      by (eexists; split; [vm_compute; reflexivity|reflexivity]).
    destruct Hj as (x & -> & Hx). intros [<- <-]%lookup_singleton_Some. exact Hx. }
  assert (Hc : c = (Done tt, (c.2.1, c.2.2))) by (rewrite <- Hdone; by destruct c as [? []]).
  destruct (cancelled_leaves_nothing exampleConfig "/" 9 true job _ [] c.2.1 c.2.2 Hk ltac:(constructor) Hc) as (_ & _ & _ & H).
  apply (H "j.revision-1.duckdb"). rewrite Hid. reflexivity.
Defined.

(** ** Findings *)

(** A rollback whose deletion was refused has no operation: its retry transforms the
    source again, the new revision replaces the published one, and the database that the
    service still names is gone. *)
Definition refusedRollback : imports :=
  (Rollback exampleConfig "/" exampleEnv 6 true "op" "j" (servedImport, [Works; Works; Fails])).2.1.
Definition retriedImport : imports := after (workOnce "2") (after (Retry exampleConfig 7 true "j") refusedRollback).

Example retried_rollback_loses_database :
  is_Some (services retriedImport !! "svc") /\ deletions retriedImport = ∅
  /\ is_Some (files servedImport !! ["srv"; "imports"; "w"; "j.duckdb"])
  /\ files retriedImport !! ["srv"; "imports"; "w"; "j.duckdb"] = None.
Proof. vm_compute. repeat split; try (eexists; reflexivity); discriminate. Qed.

(** A client that goes away while its import is published is taken for a request to
    cancel: the import and its database are deleted. *)
Definition abandonedPublish : imports :=
  (Publish exampleConfig "/" exampleEnv 5 "svc" "j" (transformed, [Works; Works; Works; Works; Works; Before ContextDone])).2.1.

Example disconnect_discards_import :
  (CancelRequested <$> import_jobs abandonedPublish !! "j") = Some false
  /\ (Status <$> import_jobs abandonedPublish !! "j") = Some ImportCancelled
  /\ is_Some (files transformed !! ["srv"; "imports"; ".staging"; "j.revision-1.duckdb"]) /\ files abandonedPublish = ∅.
Proof. vm_compute. repeat split; try (eexists; reflexivity); discriminate. Qed.
