(* ===== verification/AuthProviders.v ===== *)
(** * Authentication of a request ([identity/middleware.go] and the providers)

    API keys ([apikey.go], [staticapikey.go]), HTTP Basic ([basicauth.go]), tokens the
    server signs itself ([jwt.go]), tokens of an OIDC provider ([oidc.go],
    [oidc_recovery.go]) and browser sessions ([session.go]), in the order in which the
    middleware asks them, and what it answers. The digest, the verification of
    signatures, the decoding of JSON and the OIDC library are parameters. *)

From stdpp Require Import sorting.
From S2P Require Import Prelude GoText Base64 Identity ProtocolRequest RateLimit Sessions.

(** ** Requests and answers *)

Record Request : Type := mkRequest {
  Authorization : string;
  XAPIKey : string;
  (** [r.URL.Query().Get("apikey")] *)
  queryAPIKey : string;
  (** the header, and the session cookie in it *)
  CookieHeader : string;
  sessionCookie : cookie;
  CSRFToken : string;
  Method : string;
  urlPath : string;
  RemoteHost : string;
  descriptor : Descriptor }.

Record AuthError : Type := mkAuthError { Message : string; StatusCode : Z; RetryAfter : Z }.

Definition authError (message : string) : AuthError := mkAuthError message 0 0.

(** What a validator answers: [nil, nil], an error, or an identity. *)
Inductive verdict : Type := Absent | Refused (e : AuthError) | Identified (id : Identity).

(** ** The catalog *)

Record apiKeyRow : Type := mkKeyRow {
  keyID : string; keyHash : string; ownerName : string; keyWorkspace : option string; keyRole : string; keyExpires : option Z;
  keyRevoked : bool }.
Record mappingRow : Type := mkMapping { mapWorkspace : string; claimName : string; claimValue : string; mapRole : string; mapPriority : Z }.
Record signingRow : Type := mkSigning { signingID : string; publicKey : string; signingCreated : Z; isActive : bool }.

(** [down]: the statements fail. *)
Record authTables : Type := mkAuthTables {
  api_keys : list apiKeyRow; roles : gset string; claim_role_mappings : list mappingRow; signing_keys : list signingRow; down : bool }.

(** [None]: no such key, revoked, without a role, expired, or an error. *)
Definition GetAPIKeyByHash (w : authTables) (now : Z) (hash : string) : option apiKeyRow :=
  if down w then None
  else match List.find (fun k => String.eqb (keyHash k) hash && negb (keyRevoked k) && bool_decide (keyRole k ∈ roles w)) (api_keys w) with
       | Some k => match keyExpires k with
                   | Some e => if e <? now then None else Some k
                   | None => Some k
                   end
       | None => None
       end.

(** [ORDER BY created_at DESC LIMIT 1]. *)
Definition GetActiveSigningKey (w : authTables) : option signingRow :=
  if down w then None
  else foldl (fun best k => if isActive k
                            then match best with
                                 | Some b => if signingCreated b <? signingCreated k then Some k else best
                                 | None => Some k
                                 end
                            else best) None (signing_keys w).

Definition roleRank (role : string) : Z :=
  if String.eqb role "super_admin" then 4 else if String.eqb role "admin" then 3 else if String.eqb role "editor" then 2
  else if String.eqb role "viewer" then 1 else 0.

(** The order of the statement within a workspace. *)
Definition mappingBefore (a b : mappingRow) : Prop :=
  mapPriority b < mapPriority a \/ mapPriority a = mapPriority b /\
    (roleRank (mapRole b) < roleRank (mapRole a) \/ roleRank (mapRole a) = roleRank (mapRole b) /\ String.leb (mapRole a) (mapRole b) = true).
#[export] Instance mappingBefore_dec : RelDecision mappingBefore. Proof. intros a b. unfold mappingBefore. apply _. Defined.

Definition mappingApplies (w : authTables) (claims : gmap string (list string)) (m : mappingRow) : bool :=
  bool_decide (mapRole m ∈ roles w) && bool_decide (claimValue m ∈ default [] (claims !! claimName m)).

(** The first row of each workspace is taken. *)
Definition ResolveClaimsToRoles (w : authTables) (claims : gmap string (list string)) : option (gmap string string) :=
  if down w && existsb (fun kv => negb (bool_decide (kv.2 = []))) (map_to_list claims) then None
  else Some (foldl (fun acc m => match acc !! mapWorkspace m with
                                 | Some _ => acc
                                 | None => <[mapWorkspace m := mapRole m]> acc
                                 end) ∅
               (merge_sort mappingBefore (List.filter (mappingApplies w claims) (claim_role_mappings w)))).

(** ** Claims *)

Inductive json : Type := JNull | JBool (b : bool) | JNumber (text : string) | JString (s : string) | JArray (items : list json)
| JObject (fields : list (string * json)).

(** A decoded object as a Go map: the last of equal names counts. *)
Definition field (name : string) (fields : list (string * json)) : option json := assoc name (rev fields).

Definition stringOf (v : option json) : string := match v with Some (JString s) => s | _ => "" end.
Definition stringsOf (items : list json) : list string := omap (fun v => match v with JString s => Some s | _ => None end) items.

Definition extractStringSlice (v : option json) : list string :=
  match v with Some (JString s) => [s] | Some (JArray items) => stringsOf items | _ => [] end.

Fixpoint extractNested (claims : list (string * json)) (parts : list string) : list string :=
  match parts with
  | [] => []
  | [part] => extractStringSlice (field part claims)
  | part :: rest => match field part claims with Some (JObject nested) => extractNested nested rest | _ => [] end
  end.

Definition extractClaimValues (claims : list (string * json)) (path : string) : list string :=
  match field path claims with
  | Some exact => extractStringSlice (Some exact)
  | None => extractNested claims (Split "." path)
  end.

Definition mappableClaims : list string := ["groups"; "roles"; "group"; "role"; "realm_access.roles"; "cognito:groups"].

Definition extractMappableClaims (configured : list string) (claims : list (string * json)) : gmap string (list string) :=
  foldl (fun acc name => match extractClaimValues claims name with [] => acc | values => <[name := values]> acc end) ∅
    (match configured with [] => mappableClaims | names => names end).

(** The scopes a token presents: [None] when it has no claim of that form. *)
Definition presentedScopes (claims : list (string * json)) : option (list string) :=
  match field "scope" claims with
  | Some (JString s) => Some (Fields s)
  | _ =>
      match field "scopes" claims with
      | Some (JArray items) => Some (stringsOf items)
      | _ =>
          match field "scp" claims with
          | Some (JArray items) => Some (stringsOf items)
          | Some (JString s) => Some (Fields s)
          | _ => None
          end
      end
  end.

Definition validateScopes (required : list string) (claims : list (string * json)) : option string :=
  match presentedScopes claims with
  | None => match required with [] => None | _ => Some "required scope claim is missing or malformed" end
  | Some scopes =>
      match List.find (fun s => negb (bool_decide (s ∈ scopes))) required with
      | Some missing => Some ("missing required scope: " +:+ missing)
      | None => None
      end
  end.

(** ** Credentials in the headers *)

(** [base64.StdEncoding]: padded, with [+] and [/]. *)
Definition fromStd (c : ascii) : ascii := if Ascii.eqb c "+" then "-"%char else if Ascii.eqb c "/" then "_"%char else c.
Definition unpad (s : string) : string :=
  let n := String.length s in
  if String.eqb (sdrop (n - 2) s) "==" then stake (n - 2) s else if String.eqb (sdrop (n - 1) s) "=" then stake (n - 1) s else s.
Definition DecodeStd (s : string) : option string :=
  let t := dropBreaks s in
  if negb (Nat.eqb (String.length t mod 4) 0) || has_byte "-" t || has_byte "_" t then None
  else decodeQuads (smap fromStd (unpad t)).

(** [r.BasicAuth()]. *)
Definition BasicAuth (r : Request) : option (string * string) :=
  let auth := Authorization r in
  if (String.length auth <? 6)%nat || negb (EqualFold (stake 6 auth) "Basic ") then None
  else c ← DecodeStd (sdrop 6 auth); cut ":" c.

Definition apiKeyOf (allowQueryParam : bool) (r : Request) : string :=
  let key := XAPIKey r in
  let key := if String.eqb key "" then
               let auth := Authorization r in
               if HasPrefix auth "Bearer nsk_" then TrimPrefix auth "Bearer "
               else if HasPrefix auth "ApiKey " then TrimPrefix auth "ApiKey " else ""
             else key in
  if String.eqb key "" && allowQueryParam then queryAPIKey r else key.

Definition staticKeyOf (allowQueryParam : bool) (r : Request) : string :=
  let key := XAPIKey r in
  let key := if String.eqb key "" then
               let auth := Authorization r in
               if HasPrefix auth "ApiKey " then TrimPrefix auth "ApiKey "
               else if HasPrefix auth "Bearer " then TrimPrefix auth "Bearer " else ""
             else key in
  if String.eqb key "" && allowQueryParam then queryAPIKey r else key.

Definition hasExplicitCredential (r : Request) (allowQuery : bool) : bool :=
  negb (String.eqb (Authorization r) "") || negb (String.eqb (XAPIKey r) "") || allowQuery && negb (String.eqb (queryAPIKey r) "").

(** The token of a bearer that is no API key. *)
Definition bearerToken (r : Request) : option string :=
  if HasPrefix (Authorization r) "Bearer " then
    let token := TrimPrefix (Authorization r) "Bearer " in
    if String.eqb token "" || HasPrefix token "nsk_" then None else Some token
  else None.

(** ** The validators *)

Record jwtPayload : Type := mkPayload { Iss : string; Sub : string; PayloadRole : string; PayloadWorkspace : string; Iat : Z; Exp : Z }.
Record jwtToken : Type := mkToken { Alg : string; Payload : jwtPayload; Raw : string }.

Record OIDCConfig : Type := mkOIDC { RequiredScopes : list string; GroupClaims : list string }.

(** [RecoveringOIDCValidator]: whether discovery has succeeded, and when it may be tried again. *)
Record discovery : Type := mkDiscovery { discovered : bool; nextAttempt : Z; retryDelay : Z }.

Definition newDiscovery : discovery := mkDiscovery false zeroTime nsSecond.

Section Providers.
Context (HashSessionToken : string -> string).
(** [x509.ParsePKIXPublicKey] gives a key of the type [ecdsa.PublicKey]; [ecdsa.Verify]. *)
Context (parsesECDSA : string -> bool) (ecdsaVerify : string -> string -> string -> bool).
(** [json.Unmarshal] into a header (its [alg]), a payload, a map. *)
Context (unmarshalHeader : string -> option string) (unmarshalPayload : string -> option jwtPayload)
  (unmarshalMap : string -> option (list (string * json))).
(** The OIDC library: verification of a token, then its claims. *)
Context (verify : string -> option (option (list (string * json)))).

(** *** API keys *)

Definition apiKeyRoles (k : apiKeyRow) : gmap string string := {[default "*" (keyWorkspace k) := keyRole k]}.

Definition APIKeyValidate (w : authTables) (now : Z) (key : string) : verdict :=
  match GetAPIKeyByHash w now (HashSessionToken key) with
  | None => Refused (authError (if down w then "Failed to validate API key" else "Invalid API key"))
  | Some k => Identified (mkIdentity (ownerName k) "apikey" (apiKeyRoles k) (keyID k) "")
  end.

Definition APIKeyValidateRequest (w : authTables) (now : Z) (allowQueryParam : bool) (r : Request) : verdict :=
  let key := apiKeyOf allowQueryParam r in
  if String.eqb key "" then Absent
  else if negb (HasPrefix key "nsk_") then Refused (authError "Invalid API key format")
  else APIKeyValidate w now key.

Definition orSuperAdmin (role : string) : string := if String.eqb role "" then "super_admin" else role.

Definition StaticValidateRequest (key role : string) (allowQueryParam : bool) (r : Request) : verdict :=
  if String.eqb key "" then Absent
  else
    let presented := staticKeyOf allowQueryParam r in
    if String.eqb presented "" || HasPrefix presented "nsk_" || negb (String.eqb presented key) then Absent
    else Identified (mkIdentity "static-apikey" "apikey" {["*" := orSuperAdmin role]} "" "").

(** *** HTTP Basic *)

Definition BasicValidateRequest (users : gmap string string) (role : string) (now : Z) (l : FailureLimiter) (r : Request) : verdict * FailureLimiter :=
  if bool_decide (users = ∅) then (Absent, l)
  else match BasicAuth r with
       | None => (Absent, l)
       | Some (username, password) =>
           let keys := CredentialRateKeys HashSessionToken (RemoteHost r) username in
           let '(wait, l) := Wait l keys now in
           if 0 <? wait then (Refused (mkAuthError "Too many failed sign-in attempts" 429 wait), l)
           else if bool_decide (users !! username = Some password)
           then (Identified (mkIdentity username "basic" {["*" := orSuperAdmin role]} "" ""), Succeed l keys)
           else let '(retry, l) := Fail l keys now in (Refused (mkAuthError "Invalid credentials" 0 retry), l)
       end.

(** *** Tokens of the server *)

Definition parseJWT (token : string) : option jwtToken :=
  match Split "." token with
  | [h; p; _] =>
      header ← DecodeString h; payload ← DecodeString p;
      alg ← unmarshalHeader header; claims ← unmarshalPayload payload;
      Some (mkToken alg claims token)
  | _ => None
  end.

Definition Verify (t : jwtToken) (key : string) : bool :=
  match Split "." (Raw t) with
  | [h; p; sig] =>
      String.eqb (Alg t) "ES256"
      && match DecodeString sig with
         | Some bytes => Nat.eqb (String.length bytes) 64 && ecdsaVerify key (h +:+ "." +:+ p) bytes
         | None => false
         end
  | _ => false
  end.

(** The roles a payload grants, or the reason why it grants none. *)
Definition tokenRoles (p : jwtPayload) : string + gmap string string :=
  if String.eqb (PayloadRole p) "" then inr ∅
  else if String.eqb (PayloadRole p) "super_admin" then
    if String.eqb (PayloadWorkspace p) "" then inr {["*" := "super_admin"]} else inl "Invalid token scope"
  else if String.eqb (PayloadWorkspace p) "" || String.eqb (PayloadWorkspace p) "*"
  then inl "Token has no workspace scope; issue a new token with create-token --workspace"
  else inr {[PayloadWorkspace p := PayloadRole p]}.

Definition JWTValidate (w : authTables) (now : Z) (token : string) : verdict :=
  match parseJWT token with
  | None => Refused (authError "Invalid token format")
  | Some t =>
      if negb (String.eqb (Iss (Payload t)) "neoserver") then Absent
      else match GetActiveSigningKey w with
           | None => Refused (authError "Failed to get signing key")
           | Some k =>
               if negb (parsesECDSA (publicKey k)) then Refused (authError "Failed to parse signing key")
               else if negb (Verify t (publicKey k)) then Refused (authError "Invalid token signature")
               else if Exp (Payload t) <? now / nsSecond then Refused (authError "Token expired")
               else match tokenRoles (Payload t) with
                    | inl message => Refused (authError message)
                    | inr granted => Identified (mkIdentity (Sub (Payload t)) "jwt" granted "" "")
                    end
           end
  end.

Definition JWTValidateRequest (w : authTables) (now : Z) (r : Request) : verdict :=
  match bearerToken r with Some token => JWTValidate w now token | None => Absent end.

(** *** Tokens of the provider *)

Definition decodeJWTPayload (payload : string) : option (list (string * json)) := data ← DecodeString payload; unmarshalMap data.

(** Tokens of the server are left to their own validator. *)
Definition selfSigned (token : string) : bool :=
  match Split "." token with
  | [_; p; _] => match decodeJWTPayload p with Some claims => String.eqb (stringOf (field "iss" claims)) "neoserver" | None => false end
  | _ => false
  end.

Definition validateToken (w : authTables) (cfg : OIDCConfig) (requireScopes : bool) (token : string) : verdict :=
  match verify token with
  | None => Refused (authError "Token verification failed")
  | Some None => Refused (authError "Failed to parse claims")
  | Some (Some claims) =>
      match (if requireScopes && negb (bool_decide (RequiredScopes cfg = [])) then validateScopes (RequiredScopes cfg) claims else None) with
      | Some message => Refused (authError message)
      | None =>
          let subject := stringOf (field "sub" claims) in
          if String.eqb subject "" then Refused (authError "Token subject is missing")
          else
            let mapped := extractMappableClaims (GroupClaims cfg) claims in
            if bool_decide (is_Some (field "_claim_names" claims)) && bool_decide (default [] (mapped !! "groups") = [])
            then Refused (authError "Token group claims require provider overage resolution")
            else match ResolveClaimsToRoles w mapped with
                 | None => Refused (authError "Failed to resolve roles")
                 | Some granted => Identified (mkIdentity subject "oidc" granted "" "")
                 end
      end
  end.

Definition OIDCValidateRequest (w : authTables) (cfg : OIDCConfig) (r : Request) : verdict :=
  match bearerToken r with
  | Some token => if selfSigned token then Absent else validateToken w cfg true token
  | None => Absent
  end.

(** [get]: [free] when the gate is entered in time, [answers] when the provider's discovery would work, which ends at [later]. *)
Definition getValidator (free answers : bool) (now later : Z) (d : discovery) : bool * discovery :=
  if negb free then (false, d)
  else if discovered d then (true, d)
  else if now <? nextAttempt d then (false, d)
  else if answers then (true, mkDiscovery true (nextAttempt d) (retryDelay d))
  else (false, mkDiscovery false (later + retryDelay d) (Z.min (30 * nsSecond) (retryDelay d * 2))).

Definition RecoveringValidateRequest (w : authTables) (cfg : OIDCConfig) (free answers : bool) (now later : Z) (d : discovery) (r : Request)
    : verdict * discovery :=
  let auth := Authorization r in
  let token := TrimPrefix auth "Bearer " in
  if negb (HasPrefix auth "Bearer ") || HasPrefix token "nsk_" then (Absent, d)
  else if selfSigned token then (Absent, d)
  else
    let '(ready, d) := getValidator free answers now later d in
    (if ready then OIDCValidateRequest w cfg r else Refused (mkAuthError "OIDC authentication temporarily unavailable" 503 0), d).

(** ** The middleware *)

Context {Claims : Type}.

(** What the clock and the network do during a request. *)
Record moment : Type := mkMoment { now : Z; later : Z; gateFree : bool; providerAnswers : bool }.

Record MiddlewareConfig : Type := mkMiddleware {
  StaticAPIKey : string; BasicAuthUsers : gmap string string; cfgDefaultRole : string; AllowAPIKeyInQuery : bool;
  OIDC : option OIDCConfig; Session : option (SessionValidator Claims); RequireAuth : bool }.

Record authState : Type := mkAuthState { limiter : FailureLimiter; provider : discovery }.

Definition validator : Type := Request -> authState -> verdict * authState.

Definition pureValidator (f : Request -> verdict) : validator := fun r st => (f r, st).

(** The validators that are configured, in their order. *)
Definition validators (cfg : MiddlewareConfig) (w : authTables) (m : moment) : list validator :=
  [pureValidator (APIKeyValidateRequest w (now m) (AllowAPIKeyInQuery cfg))]
  ++ (if String.eqb (StaticAPIKey cfg) "" then []
      else [pureValidator (StaticValidateRequest (StaticAPIKey cfg) (cfgDefaultRole cfg) (AllowAPIKeyInQuery cfg))])
  ++ (if bool_decide (BasicAuthUsers cfg = ∅) then []
      else [fun r st => let '(v, l) := BasicValidateRequest (BasicAuthUsers cfg) (cfgDefaultRole cfg) (now m) (limiter st) r in
                        (v, mkAuthState l (provider st))])
  ++ [pureValidator (JWTValidateRequest w (now m))]
  ++ match OIDC cfg with
     | Some oidc => [fun r st => let '(v, d) := RecoveringValidateRequest w oidc (gateFree m) (providerAnswers m) (now m) (later m) (provider st) r in
                                 (v, mkAuthState (limiter st) d)]
     | None => []
     end.

(** The first identity wins; the last error is kept. *)
Fixpoint askAll (vs : list validator) (r : Request) (lastErr : option AuthError) (st : authState)
    : option Identity * option AuthError * authState :=
  match vs with
  | [] => (None, lastErr, st)
  | v :: rest =>
      match v r st with
      | (Absent, st) => askAll rest r lastErr st
      | (Refused e, st) => askAll rest r (Some e) st
      | (Identified id, st) => (Some id, lastErr, st)
      end
  end.

Definition sessionError (e : authErr) : AuthError :=
  match e with CSRFFailed => mkAuthError "CSRF validation failed" 403 0 | _ => authError "Invalid session" end.

Definition isSessionExemptPath (path : string) : bool := HasSuffix path "/auth/login" || HasSuffix path "/api/v1/console/config".

(** Safe methods of a protocol, and its read-only search by POST. *)
Definition staleSessionMayReadAnonymously (r : Request) : bool :=
  let d := descriptor r in
  negb (String.eqb (Service d) "")
  && (negb (isUnsafeMethod (Method r)) || String.eqb (Service d) "stac" && String.eqb (OpName d) "SEARCH" && String.eqb (Method r) "POST")
  && negb (Mutating d (Method r)).

(** What the client gets: the next handler with an identity, or a refusal. *)
Inductive answer : Type := Next (id : option Identity) | Deny (status : Z) (message : string) (retryAfter : option Z).

Definition denial (lastErr : option AuthError) : answer :=
  match lastErr with
  | Some e => Deny (if StatusCode e =? 0 then 401 else StatusCode e) (Message e)
                (if 0 <? RetryAfter e then Some (RetryAfter e / nsSecond + 1) else None)
  | None => Deny 401 "credentials were not accepted" None
  end.

(** The session is asked when nothing else was presented. *)
Definition askSession (cfg : MiddlewareConfig) (tbl : gmap string (BrowserSession Claims)) (m : moment) (r : Request)
    : option Identity * option AuthError :=
  match Session cfg with
  | Some sessions =>
      if hasExplicitCredential r (AllowAPIKeyInQuery cfg) || isSessionExemptPath (urlPath r) then (None, None)
      else match ValidateRequest HashSessionToken sessions tbl (now m) (later m) (sessionCookie r) (Method r) (CSRFToken r) (descriptor r) with
           | Accepted id _ _ => (Some id, None)
           | NoSession => (None, None)
           | Rejected e => (None, if staleSessionMayReadAnonymously r then None else Some (sessionError e))
           end
  | None => (None, None)
  end.

Record reply : Type := mkReply { replyAnswer : answer; noStore : bool }.

Definition Middleware (cfg : MiddlewareConfig) (w : authTables) (tbl : gmap string (BrowserSession Claims)) (m : moment) (r : Request) (st : authState)
    : reply * authState :=
  let explicit := hasExplicitCredential r (AllowAPIKeyInQuery cfg) in
  let private := explicit || negb (String.eqb (CookieHeader r) "") in
  let '(asked, lastErr, st) := askAll (validators cfg w m) r None st in
  let '(identity, lastErr) :=
    match asked, lastErr with
    | None, None => askSession cfg tbl m r
    | _, _ => (asked, lastErr)
    end in
  match identity with
  | Some id => (mkReply (Next (Some id)) true, st)
  | None =>
      if bool_decide (is_Some lastErr) || explicit then (mkReply (denial lastErr) private, st)
      else if RequireAuth cfg then (mkReply (Deny 401 "authentication required" None) private, st)
      else (mkReply (Next None) private, st)
  end.
End Providers.
