(* ===== verification/AuthTheorems.v ===== *)
(** * Theorems about authentication

    Which credential stands behind an identity that the middleware passes on, and that a
    request with a credential that nobody accepts is refused; the roles of tokens; the
    spacing of the discovery of the provider. *)

From stdpp Require Import sorting.
From S2P Require Import Prelude GoText Base64 Identity ProtocolRequest RateLimit Sessions AuthProviders.

Section Authentication.
Context (HashSessionToken : string -> string) (parsesECDSA : string -> bool) (ecdsaVerify : string -> string -> string -> bool).
Context (unmarshalHeader : string -> option string) (unmarshalPayload : string -> option jwtPayload) (unmarshalMap : string -> option (list (string * json))).
Context (verify : string -> option (option (list (string * json)))) {Claims : Type}.

Local Abbreviation Middleware := (Middleware HashSessionToken parsesECDSA ecdsaVerify unmarshalHeader unmarshalPayload unmarshalMap verify (Claims := Claims)).
Local Abbreviation validators := (validators HashSessionToken parsesECDSA ecdsaVerify unmarshalHeader unmarshalPayload unmarshalMap verify (Claims := Claims)).

(** ** What stands behind an identity *)

(** A token of the server: three parts, ES256, a signature of 64 bytes by the key over the
    first two parts. *)
Record signedToken (token key : string) (p : jwtPayload) : Prop := {
  st_parts : exists h body sig bytes, Split "." token = [h; body; sig] /\ DecodeString sig = Some bytes
    /\ String.length bytes = 64%nat /\ ecdsaVerify key (h +:+ "." +:+ body) bytes = true
    /\ (exists header, DecodeString h = Some header /\ unmarshalHeader header = Some "ES256")
    /\ (exists payload, DecodeString body = Some payload /\ unmarshalPayload payload = Some p) }.

(** The roles of a payload: none, the global administrator, or one role in one workspace. *)
Definition grants (p : jwtPayload) (granted : gmap string string) : Prop :=
  (PayloadRole p = "" /\ granted = ∅)
  \/ (PayloadRole p = "super_admin" /\ PayloadWorkspace p = "" /\ granted = {["*" := "super_admin"]})
  \/ (PayloadRole p <> "" /\ PayloadRole p <> "super_admin" /\ PayloadWorkspace p <> "" /\ PayloadWorkspace p <> "*"
      /\ granted = {[PayloadWorkspace p := PayloadRole p]}).

Inductive vouched (cfg : MiddlewareConfig) (w : authTables) (tbl : gmap string (BrowserSession Claims)) (m : moment) (r : Request) (l : FailureLimiter)
    : Identity -> Prop :=
| vouched_key k :
    HasPrefix (apiKeyOf (AllowAPIKeyInQuery cfg) r) "nsk_" = true -> k ∈ api_keys w ->
    keyHash k = HashSessionToken (apiKeyOf (AllowAPIKeyInQuery cfg) r) -> keyRevoked k = false -> keyRole k ∈ roles w ->
    (forall e, keyExpires k = Some e -> now m <= e) ->
    vouched cfg w tbl m r l (mkIdentity (ownerName k) "apikey" (apiKeyRoles k) (keyID k) "")
| vouched_static :
    StaticAPIKey cfg <> "" -> staticKeyOf (AllowAPIKeyInQuery cfg) r = StaticAPIKey cfg ->
    vouched cfg w tbl m r l (mkIdentity "static-apikey" "apikey" {["*" := orSuperAdmin (cfgDefaultRole cfg)]} "" "")
| vouched_basic username password :
    BasicAuth r = Some (username, password) -> BasicAuthUsers cfg !! username = Some password ->
    (Wait l (CredentialRateKeys HashSessionToken (RemoteHost r) username) (now m)).1 <= 0 ->
    vouched cfg w tbl m r l (mkIdentity username "basic" {["*" := orSuperAdmin (cfgDefaultRole cfg)]} "" "")
| vouched_token token k p granted :
    bearerToken r = Some token -> GetActiveSigningKey w = Some k -> signedToken token (publicKey k) p -> Iss p = "neoserver" ->
    now m / nsSecond <= Exp p -> grants p granted -> vouched cfg w tbl m r l (mkIdentity (Sub p) "jwt" granted "" "")
| vouched_oidc oidc token claims granted :
    OIDC cfg = Some oidc -> bearerToken r = Some token -> verify token = Some (Some claims) ->
    (forall s, s ∈ RequiredScopes oidc -> exists scopes, presentedScopes claims = Some scopes /\ s ∈ scopes) ->
    stringOf (field "sub" claims) <> "" -> ResolveClaimsToRoles w (extractMappableClaims (GroupClaims oidc) claims) = Some granted ->
    vouched cfg w tbl m r l (mkIdentity (stringOf (field "sub" claims)) "oidc" granted "" "")
| vouched_session sessions id hash previous :
    Session cfg = Some sessions -> hasExplicitCredential r (AllowAPIKeyInQuery cfg) = false ->
    ValidateRequest HashSessionToken sessions tbl (now m) (later m) (sessionCookie r) (Method r) (CSRFToken r) (descriptor r) = Accepted id hash previous ->
    vouched cfg w tbl m r l id.

(** ** The validators *)

Lemma GetAPIKeyByHash_found w t hash k : GetAPIKeyByHash w t hash = Some k ->
  k ∈ api_keys w /\ keyHash k = hash /\ keyRevoked k = false /\ keyRole k ∈ roles w /\ forall e, keyExpires k = Some e -> t <= e.
Proof.
  unfold GetAPIKeyByHash. destruct (down w); [done|]. destruct (List.find _ _) as [x|] eqn:Hf; [|done]. apply List.find_some in Hf as [Hin Hx].
  rewrite !andb_true_iff in Hx. destruct Hx as [[Hh%String.eqb_eq Hr%negb_true_iff] Hrole%bool_decide_eq_true].
  assert (Hall : forall y, x = y -> y ∈ api_keys w /\ keyHash y = hash /\ keyRevoked y = false /\ keyRole y ∈ roles w)
    by (intros y <-; split_and!; [by apply list_elem_of_In|done..]).
  destruct (keyExpires x) as [e|] eqn:He.
  - destruct (e <? t) eqn:Hlt; [done|]. intros [= <-]. destruct (Hall x eq_refl) as (A & B & C & D). split_and!; try done.
    rewrite He. intros ? [= <-]. lia.
  - intros [= <-]. destruct (Hall x eq_refl) as (A & B & C & D). split_and!; try done. by rewrite He.
Qed.

Lemma Verify_signed token t key : parseJWT unmarshalHeader unmarshalPayload token = Some t -> Verify ecdsaVerify t key = true ->
  signedToken token key (Payload t).
Proof.
  unfold parseJWT, Verify. destruct (Split "." token) as [|h [|b [|s [|]]]] eqn:Hs; try done.
  destruct (DecodeString h) as [header|] eqn:Hh; [|done]. destruct (DecodeString b) as [payload|] eqn:Hb; [|done]. cbn.
  destruct (unmarshalHeader header) as [alg|] eqn:Ha; [|done]. destruct (unmarshalPayload payload) as [claims|] eqn:Hp; [|done]. cbn.
  intros [= <-]. cbn. rewrite Hs. intros [Halg%String.eqb_eq Hsig]%andb_true_iff. destruct (DecodeString s) as [bytes|] eqn:Hd; [|done].
  apply andb_true_iff in Hsig as [Hlen%Nat.eqb_eq Hok]. split. exists h, b, s, bytes. split_and!; try done; [|by exists payload].
  exists header. by rewrite <- Halg.
Qed.

Lemma tokenRoles_grants p granted : tokenRoles p = inr granted -> grants p granted.
Proof.
  unfold tokenRoles, grants. destruct (String.eqb_spec (PayloadRole p) ""); [by intros [= <-]; left|].
  destruct (String.eqb_spec (PayloadRole p) "super_admin").
  - destruct (String.eqb_spec (PayloadWorkspace p) ""); [|done]. intros [= <-]. by right; left.
  - destruct (String.eqb_spec (PayloadWorkspace p) ""); [done|]. destruct (String.eqb_spec (PayloadWorkspace p) "*"); [done|].
    intros [= <-]. by right; right.
Qed.

Lemma validateScopes_sound required claims : required <> [] -> validateScopes required claims = None ->
  forall s, s ∈ required -> exists scopes, presentedScopes claims = Some scopes /\ s ∈ scopes.
Proof.
  unfold validateScopes. intros Hne. destruct (presentedScopes claims) as [scopes|]; [|by destruct required].
  destruct (List.find _ _) eqn:Hf; [done|]. intros _ s Hs. exists scopes. split; [done|].
  apply list_elem_of_In in Hs. pose proof (List.find_none _ _ Hf s Hs) as H. by apply negb_false_iff, bool_decide_eq_true in H.
Qed.

(** ** The order of the validators *)

(** The statuses of a refusal. *)
Definition statusOk (e : AuthError) : Prop := StatusCode e ∈ [0; 403; 429; 503].

Local Ltac status := unfold statusOk; apply list_elem_of_In; cbn; tauto.

Section Request.
Context (cfg : MiddlewareConfig (Claims := Claims)) (w : authTables) (tbl : gmap string (BrowserSession Claims)) (m : moment) (r : Request).
Local Abbreviation vouched := (vouched cfg w tbl m r).

Definition verdictOk (l : FailureLimiter) (v : verdict) : Prop :=
  match v with Identified id => vouched l id | Refused e => statusOk e | Absent => True end.

Definition askedOk (l : FailureLimiter) (o : option Identity * option AuthError) : Prop :=
  (forall id, o.1 = Some id -> vouched l id) /\ (forall e, o.2 = Some e -> statusOk e).

Lemma askAll_app vs vs' lastErr st : askAll (vs ++ vs') r lastErr st =
  match askAll vs r lastErr st with (Some id, e, st') => (Some id, e, st') | (None, e, st') => askAll vs' r e st' end.
Proof. revert lastErr st. induction vs as [|v vs IH]; intros lastErr st; [done|]. cbn. destruct (v r st) as [[] st']; auto. Qed.

(** Validators that keep [K] and are right where it holds. *)
Lemma askAll_ok (K : authState -> Prop) l vs lastErr st :
  (forall v st, v ∈ vs -> K st -> verdictOk l (v r st).1 /\ K (v r st).2) -> K st -> (forall e, lastErr = Some e -> statusOk e) ->
  askedOk l (askAll vs r lastErr st).1 /\ K (askAll vs r lastErr st).2.
Proof.
  intros Hv. revert lastErr st. induction vs as [|v vs IH]; intros lastErr st HK He; [by split|]. cbn [askAll].
  destruct (Hv v st ltac:(left) HK) as [H HK']. destruct (v r st) as [[|e|id] st1]; cbn in *.
  1,2: apply IH; [intros; apply Hv; [by right|done]|done|naive_solver].
  split; [split; cbn; [by intros ? [= <-]|done]|done].
Qed.

Lemma APIKey_ok l : verdictOk l (APIKeyValidateRequest HashSessionToken w (now m) (AllowAPIKeyInQuery cfg) r).
Proof.
  unfold APIKeyValidateRequest, APIKeyValidate. set (key := apiKeyOf _ r). destruct (String.eqb_spec key ""); [done|].
  destruct (HasPrefix key "nsk_") eqn:Hp; cbn [negb]; [|status].
  destruct (GetAPIKeyByHash w (now m) (HashSessionToken key)) as [k|] eqn:Hk; [|status].
  destruct (GetAPIKeyByHash_found _ _ _ _ Hk) as (A & B & C & D & E). by eapply vouched_key.
Qed.

Lemma Static_ok l : verdictOk l (StaticValidateRequest (StaticAPIKey cfg) (cfgDefaultRole cfg) (AllowAPIKeyInQuery cfg) r).
Proof.
  unfold StaticValidateRequest. destruct (String.eqb_spec (StaticAPIKey cfg) ""); [done|]. cbv zeta. destruct (_ || _ || _) eqn:H; [done|].
  apply orb_false_iff in H as [_ H%negb_false_iff%String.eqb_eq]. by apply vouched_static.
Qed.

Lemma Basic_ok l : verdictOk l (BasicValidateRequest HashSessionToken (BasicAuthUsers cfg) (cfgDefaultRole cfg) (now m) l r).1.
Proof.
  unfold BasicValidateRequest. destruct (bool_decide _); [done|]. destruct (BasicAuth r) as [[u p]|] eqn:Hb; [|done]. cbv zeta.
  destruct (Wait l _ (now m)) as [wait l1] eqn:Hw. destruct (0 <? wait) eqn:Hlt; [status|].
  destruct (decide (BasicAuthUsers cfg !! u = Some p)) as [Hu|Hu]; [rewrite bool_decide_true by done|rewrite bool_decide_false by done].
  - eapply vouched_basic; [done|done|]. rewrite Hw. cbn. lia.
  - destruct (Fail l1 _ (now m)). status.
Qed.

Lemma JWT_ok l : verdictOk l (JWTValidateRequest parsesECDSA ecdsaVerify unmarshalHeader unmarshalPayload w (now m) r).
Proof.
  unfold JWTValidateRequest, JWTValidate. destruct (bearerToken r) as [token|] eqn:Hb; [|done].
  destruct (parseJWT _ _ token) as [t|] eqn:Ht; [|status]. destruct (String.eqb_spec (Iss (Payload t)) "neoserver"); [|done]. cbn [negb].
  destruct (GetActiveSigningKey w) as [k|] eqn:Hk; [|status]. destruct (negb (parsesECDSA _)); [status|].
  destruct (Verify ecdsaVerify t (publicKey k)) eqn:Hv; cbn [negb]; [|status].
  destruct (Exp (Payload t) <? _) eqn:He; [status|]. destruct (tokenRoles (Payload t)) eqn:Hr; [status|].
  eapply vouched_token; [done|done|by eapply Verify_signed|done|lia|by apply tokenRoles_grants].
Qed.

Lemma OIDC_ok l oidc : OIDC cfg = Some oidc -> verdictOk l (OIDCValidateRequest unmarshalMap verify w oidc r).
Proof.
  intros Ho. unfold OIDCValidateRequest, validateToken. destruct (bearerToken r) as [token|] eqn:Hb; [|done]. destruct (selfSigned _ token); [done|].
  destruct (verify token) as [[claims|]|] eqn:Hv; [|status..]. destruct (if _ && _ then _ else _) eqn:Hs; [status|].
  cbv zeta. destruct (String.eqb_spec (stringOf (field "sub" claims)) ""); [status|].
  destruct (bool_decide (is_Some _) && _); [status|]. destruct (ResolveClaimsToRoles _ _) eqn:Hr; [|status]. eapply vouched_oidc; [done|done|done| |done|done].
  destruct (decide (RequiredScopes oidc = [])) as [He|Hne]; [rewrite He; set_solver|]. rewrite bool_decide_false in Hs by done. cbn in Hs.
  by apply validateScopes_sound.
Qed.

Lemma validators_ok st : askedOk (limiter st) (askAll (validators cfg w m) r None st).1.
Proof.
  unfold AuthProviders.validators. rewrite (app_assoc [_] (if String.eqb _ _ then _ else _)). set (l := limiter st). set (pre := [_] ++ _).
  rewrite askAll_app. destruct (askAll_ok (fun st => limiter st = l) l pre None st) as [Hpre Hk]; [|done|done|].
  { intros v x Hv Hx. unfold pre in Hv. apply elem_of_app in Hv as [->%list_elem_of_singleton|Hv]; [split; [apply APIKey_ok|done]|].
    destruct (String.eqb _ _); [by apply not_elem_of_nil in Hv|]. apply list_elem_of_singleton in Hv as ->. split; [apply Static_ok|done]. }
  destruct (askAll pre r None st) as [[[id|] e] st1]; cbn in Hpre, Hk; [done|]. rewrite askAll_app. set (basic := if bool_decide _ then _ else _).
  assert (Hb : askedOk l (askAll basic r e st1).1).
  { unfold basic. destruct (bool_decide _); [done|]. cbn [askAll]. pose proof (Basic_ok l) as H. rewrite Hk.
    destruct (BasicValidateRequest _ _ _ _ _ _) as [[|e'|id] l']; cbn in *; [done|split; cbn; naive_solver|split; cbn; [naive_solver|apply Hpre]]. }
  destruct (askAll basic r e st1) as [[[id|] e'] st2]; cbn in Hb; [done|].
  apply (askAll_ok (fun _ => True)); [|done|apply Hb]. intros v x Hv _. split; [|done].
  apply elem_of_app in Hv as [->%list_elem_of_singleton|Hv]; [apply JWT_ok|]. destruct (OIDC cfg) as [oidc|] eqn:Ho; [|by apply not_elem_of_nil in Hv].
  apply list_elem_of_singleton in Hv as ->. unfold RecoveringValidateRequest. destruct (_ || _); [done|]. destruct (selfSigned _ _); [done|].
  destruct (getValidator _ _ _ _ _) as [[] d]; cbn; [by apply OIDC_ok|status].
Qed.

Lemma askSession_ok l : askedOk l (askSession HashSessionToken cfg tbl m r).
Proof.
  unfold askSession. destruct (Session cfg) as [sessions|] eqn:Hs; [|done]. destruct (_ || _) eqn:He; [done|]. apply orb_false_iff in He as [He _].
  destruct (ValidateRequest _ _ _ _ _ _ _ _ _) as [|e|id hash previous] eqn:Hv; [done| |].
  - split; cbn; [done|]. destruct (staleSessionMayReadAnonymously r); [done|]. intros ? [= <-]. destruct e; cbn; status.
  - split; cbn; [|done]. intros ? [= <-]. by eapply vouched_session.
Qed.

(** C12: What the authentication middleware passes on is vouched for, and it fails closed.
    An identity stands on a credential of this request: an API key whose digest is in the
    catalog, not revoked, not expired and with a role that exists; the configured static
    key; the password of a configured user who is not blocked; an unexpired token of the
    server whose signature by the active key covers its header and payload under ES256,
    with no role outside the one it names; a token the provider's library verified with
    every required scope; or, without any other credential, a valid session. A request
    goes on without an identity only if it presents no explicit credential and none is
    required; a session cookie that was refused lets it go on only on the paths exempt from
    sessions and where a stale session may read anonymously. Everything else is refused, and
    no answer to a request with a credential or a cookie may be stored. *)
Theorem authentication_fails_closed st :
  let reply := (Middleware cfg w tbl m r st).1 in
  match replyAnswer reply with
  | Next (Some id) => vouched (limiter st) id
  | Next None =>
      hasExplicitCredential r (AllowAPIKeyInQuery cfg) = false /\ RequireAuth cfg = false
      /\ forall sessions e, Session cfg = Some sessions ->
           ValidateRequest HashSessionToken sessions tbl (now m) (later m) (sessionCookie r) (Method r) (CSRFToken r) (descriptor r) = Rejected e ->
           isSessionExemptPath (urlPath r) = true \/ staleSessionMayReadAnonymously r = true
  | Deny status _ _ => status ∈ [401; 403; 429; 503]
  end
  /\ (hasExplicitCredential r (AllowAPIKeyInQuery cfg) = true \/ CookieHeader r <> "" -> noStore reply = true).
Proof.
  cbv zeta. unfold AuthProviders.Middleware. pose proof (validators_ok st) as Ha. destruct (askAll _ r None st) as [[asked lastErr] st1]. cbn in Ha.
  pose proof (askSession_ok (limiter st)) as Hs. destruct (askSession HashSessionToken cfg tbl m r) as [sid serr] eqn:Hask.
  assert (Hboth : askedOk (limiter st) match asked, lastErr with None, None => (sid, serr) | _, _ => (asked, lastErr) end)
    by (destruct asked, lastErr; done).
  assert (Hpriv : forall b : bool, b = true \/ CookieHeader r <> "" -> b || negb (String.eqb (CookieHeader r) "") = true).
  { intros b [-> |Hc]; [done|]. destruct (String.eqb_spec (CookieHeader r) ""); [done|]. apply orb_true_r. }
  destruct (match asked, lastErr with None, None => _ | _, _ => _ end) as [identity err] eqn:Hend. destruct Hboth as [Hid Herr]. cbn in Hid, Herr.
  destruct identity as [id|]; cbn; [split; [by apply Hid|done]|].
  destruct err as [e|]; cbn.
  { split; [|apply Hpriv]. specialize (Herr e eq_refl). unfold statusOk in Herr. destruct (Z.eqb_spec (StatusCode e) 0) as [_|]; [left|].
    rewrite !elem_of_cons, elem_of_nil in Herr |- *. naive_solver. }
  destruct (hasExplicitCredential r (AllowAPIKeyInQuery cfg)) eqn:Hx; cbn; [split; [left|done]|].
  destruct (RequireAuth cfg); cbn; (split; [|apply (Hpriv false)]); [left|]. split_and!; [done|done|]. intros sessions e Hse Hv.
  destruct asked; [by destruct lastErr|]. destruct lastErr; [done|]. injection Hend as -> ->. unfold askSession in Hask. rewrite Hse, Hx, Hv in Hask. cbn in Hask.
  destruct (isSessionExemptPath (urlPath r)); [by left|right]. by destruct (staleSessionMayReadAnonymously r).
Qed.
End Request.
End Authentication.

(** ** Examples *)

(** A catalog with two keys, one of them revoked, and a server that asks for no credential. *)
Definition demoTables : authTables :=
  mkAuthTables [mkKeyRow "k1" "h:nsk_good" "ci" (Some "w1") "editor" None false; mkKeyRow "k2" "h:nsk_old" "ci" None "admin" None true]
    {["editor"; "admin"]} [] [] false.

Definition answerTo (authorization key : string) : answer :=
  replyAnswer (Middleware (Claims := unit) (String.append "h:") (fun _ => true) (fun _ _ _ => true) (fun _ => Some "none") (fun _ => None) (fun _ => None) (fun _ => None)
    (mkMiddleware "" ∅ "" false None None false) demoTables ∅ (mkMoment 5 5 true false)
    (mkRequest authorization key "" "" NoCookie "" "GET" "/" "host" (mkDescriptor "" "" "" "" "" None)) (mkAuthState NewFailureLimiter newDiscovery)).1.

(** Without a credential a request goes on; a key of the catalog is recognised; a revoked
    key, an unknown scheme and a token nobody verifies are refused, not ignored. *)
Example demo_answers :
  answerTo "" "" = Next None
  /\ answerTo "ApiKey nsk_good" "" = Next (Some (mkIdentity "ci" "apikey" {["w1" := "editor"]} "k1" ""))
  /\ answerTo "" "nsk_old" = Deny 401 "Invalid API key" None
  /\ answerTo "Digest x" "" = Deny 401 "credentials were not accepted" None
  /\ match answerTo "Bearer a.b.c" "" with Deny 401 _ _ => true | _ => false end = true.
Proof. split_and!; vm_compute; reflexivity. Qed.

(** ** Discovery of the provider *)

(** Requests that ask for the validator, in the order of the clock. *)
Inductive probes : discovery -> Z -> list Z -> discovery -> Prop :=
| probes_nil d t : probes d t [] d
| probes_ask d t free answers now later ready d1 attempts d2 : t <= now <= later ->
    getValidator free answers now later d = (ready, d1) -> probes d1 later attempts d2 ->
    probes d t (if free && negb (discovered d) && (nextAttempt d <=? now) then now :: attempts else attempts) d2.

(** The delay after a number of failures. *)
Definition discoveryDelay (failed : nat) : Z := Z.min (30 * nsSecond) (nsSecond * 2 ^ Z.of_nat failed).

(** Attempts are so far apart: the first at once, each further one after its delay. *)
Fixpoint spaced (failed : nat) (last : Z) (attempts : list Z) : Prop :=
  match attempts with
  | [] => True
  | t :: rest => last + discoveryDelay failed <= t /\ spaced (S failed) t rest
  end.

Definition waiting (failed : nat) (last : Z) (d : discovery) : Prop :=
  discovered d = true \/ last + discoveryDelay failed <= nextAttempt d /\ retryDelay d = discoveryDelay (S failed).

Lemma discoveryDelay_double n : Z.min (30 * nsSecond) (discoveryDelay n * 2) = discoveryDelay (S n).
Proof.
  unfold discoveryDelay, nsSecond. rewrite Nat2Z.inj_succ, Z.pow_succ_r by lia. pose proof (Z.pow_pos_nonneg 2 (Z.of_nat n)). lia.
Qed.

Lemma probes_spaced d t attempts d' failed last : probes d t attempts d' -> waiting failed last d -> spaced failed last attempts.
Proof.
  intros Hp. revert failed last. induction Hp as [|d t free answers now later ready d1 attempts d2 Ht Hg Hp IH]; intros failed last Hw; [done|].
  unfold getValidator in Hg. destruct free; cbn [negb andb] in *; [|injection Hg as <- <-; by apply IH].
  destruct (discovered d) eqn:Hd; cbn [negb andb]; [injection Hg as <- <-; by apply IH|]. destruct Hw as [Hw|[Hn Hr]]; [congruence|].
  destruct (now <? nextAttempt d) eqn:Hlt.
  { injection Hg as <- <-. rewrite (proj2 (Z.leb_gt _ _)) by lia. apply IH. by right. }
  rewrite (proj2 (Z.leb_le _ _)) by lia. cbn. split; [lia|]. destruct answers; injection Hg as <- <-.
  - apply IH. by left.
  - apply IH. right. cbn. rewrite Hr. split; [lia|apply discoveryDelay_double].
Qed.

(** Until the first attempt the state is the initial one. *)
Lemma probes_first d0 t attempts d : probes d0 t attempts d -> d0 = newDiscovery ->
  match attempts with [] => True | first :: rest => spaced 0 first rest end.
Proof.
  intros Hp. induction Hp as [|d t free answers now later ready d1 attempts d2 Ht Hg Hp IH]; intros ->; [done|].
  unfold getValidator in Hg. destruct free; cbn [negb andb newDiscovery discovered nextAttempt retryDelay] in *; [|injection Hg as <- <-; by apply IH].
  destruct (now <? zeroTime) eqn:Hlt.
  { injection Hg as <- <-. rewrite (proj2 (Z.leb_gt _ _)) by lia. by apply IH. }
  rewrite (proj2 (Z.leb_le _ _)) by lia. eapply probes_spaced; [done|]. destruct answers; injection Hg as <- <-; [by left|right].
  split; cbn [nextAttempt retryDelay]; [change (discoveryDelay 0) with nsSecond; lia|reflexivity].
Qed.

(** The server asks the provider for its discovery at most once per delay: in any
    sequence of requests, the second attempt comes a second after the first at the
    earliest, and each further one at twice the delay before, up to thirty seconds; a
    request that comes earlier does not reach the provider. *)
Theorem discovery_backs_off t attempts d : probes newDiscovery t attempts d ->
  match attempts with [] => True | first :: rest => spaced 0 first rest end.
Proof. intros Hp. by eapply probes_first. Qed.

(** Three requests while the provider is down: the second is too early to ask it. *)
Lemma discovery_backs_off_witness :
  probes newDiscovery 0 [10; 10 + 2 * nsSecond] (mkDiscovery false (10 + 4 * nsSecond) (4 * nsSecond)) /\ spaced 0 10 [10 + 2 * nsSecond].
Proof.
  assert (H : probes newDiscovery 0 [10; 10 + 2 * nsSecond] (mkDiscovery false (10 + 4 * nsSecond) (4 * nsSecond))).
  { eapply (probes_ask newDiscovery 0 true false 10 10 _ _ [10 + 2 * nsSecond]); [lia|reflexivity|].
    eapply (probes_ask (mkDiscovery false (10 + nsSecond) (2 * nsSecond)) 10 true false 20 20 _ _ [10 + 2 * nsSecond]); [lia|reflexivity|].
    eapply (probes_ask (mkDiscovery false (10 + nsSecond) (2 * nsSecond)) 20 true false (10 + 2 * nsSecond) (10 + 2 * nsSecond) _ _ []); [vm_compute; split; discriminate|reflexivity|]. apply probes_nil. }
  split; [exact H|]. exact (discovery_backs_off 0 [10; 10 + 2 * nsSecond] _ H).
Defined.
