(* ===== verification/Transport.v ===== *)
(** * Effective transport of a request ([identity/transport.go])

    Whether a request came encrypted and from which address, with the forwarding headers
    of trusted proxies, and the refusal of credentials over plain HTTP. The parser and
    the printer of addresses ([net.ParseIP], [IP.String]) and [net.ParseCIDR] are
    parameters. *)

From S2P Require Import Prelude GoText Identity ProtocolRequest RateLimit Sessions PathPolicy AuthProviders.

(** ** Addresses *)

(** [strings.Trim(s, "[]")]. *)
Definition isBracket (c : ascii) : bool := Ascii.eqb c "[" || Ascii.eqb c "]".
Definition TrimBrackets (s : string) : string := trimRightBy isBracket (sdrop (span_len isBracket s) s).

(** [net.SplitHostPort]: the host, or [None] for an error. *)
Definition SplitHostPort (hostport : string) : option string :=
  '(before, port) ← cutLast ":" hostport;
  if HasPrefix hostport "[" then
    '(inside, _) ← cut "]" hostport;
    let host := sdrop 1 inside in
    if negb (String.eqb before (inside +:+ "]")) then None
    else if has_byte "[" host || has_byte "[" port || has_byte "]" port then None
    else Some host
  else if has_byte ":" before || has_byte "[" hostport || has_byte "]" hostport then None
  else Some before.

(** [IPNet.Contains]: the address and the number of leading bits of the mask; both are
    compared as IPv4 where they are IPv4. *)
Definition IPNetContains (n : Prefix) (ip : IP) : bool :=
  match To4 (prefixAddr n) with
  | Some nn => PrefixContains (mkPrefix nn (prefixBits n - (8 * Z.of_nat (length (prefixAddr n)) - 32))) (Unmap ip)
  | None => PrefixContains n (Unmap ip)
  end.

Definition ipInNetworks (ip : IP) (networks : list Prefix) : bool := existsb (fun n => IPNetContains n ip) networks.

(** ** The middleware *)

Record TransportConfig : Type := mkTransport { RequireHTTPS : bool; TrustedProxyCIDRs : list string; TransportQueryKey : bool }.

Record transportDecision : Type := mkDecision { secure : bool; encrypted : bool }.

(** A request as it arrives: the lines of the forwarding headers are those of the request. *)
Record inbound : Type := mkInbound {
  RemoteAddr : string; TLS : bool; ForwardedProto : list string; ForwardedFor : list string; inboundRequest : Request }.

(** [Header.Get]: the first line. *)
Definition headerGet (lines : list string) : string := default "" (head lines).

(** The next handler with the address and the decision, or 426. *)
Inductive passage : Type := Pass (remoteAddr : string) (d : transportDecision) | UpgradeRequired.

Section Transport.
Context (parseIP : string -> option IP) (ipString : IP -> string) (parseCIDR : string -> option Prefix).

Definition parseTrustedProxyCIDRs (values : list string) : option (list Prefix) := mapM (fun v => parseCIDR (TrimSpace v)) values.

Definition remoteIP (addr : string) : option IP := parseIP (TrimBrackets (default addr (SplitHostPort addr))).

(** Loopback or in one of the networks. *)
Definition trustedPeer (trusted : list Prefix) (ip : IP) : bool := IsLoopback ip || ipInNetworks ip trusted.

(** The chain from its right end; [chain] is reversed. *)
Fixpoint walkChain (trusted : list Prefix) (chain : list string) (current : IP) : option IP :=
  match chain with
  | [] => Some current
  | entry :: rest =>
      if negb (trustedPeer trusted current) then Some current
      else match parseIP (TrimSpace entry) with
           | Some next => walkChain trusted rest next
           | None => None
           end
  end.

Definition forwardedClientIP (header : string) (peer : IP) (trusted : list Prefix) : option IP :=
  if String.eqb header "" then None else walkChain trusted (rev (Split "," header)) peer.

Definition requestHasCredentials (r : Request) (allowQuery : bool) : bool :=
  negb (String.eqb (Authorization r) "") || negb (String.eqb (XAPIKey r) "") || allowQuery && negb (String.eqb (queryAPIKey r) "").

Definition transportHandler (cfg : TransportConfig) (trusted : list Prefix) (i : inbound) : passage :=
  let peer := remoteIP (RemoteAddr i) in
  let peerTrusted := match peer with Some ip => trustedPeer trusted ip | None => false end in
  let '(encrypted, remoteAddr) :=
    if peerTrusted then
      (TLS i || EqualFold (TrimSpace (default "" (head (Split "," (headerGet (ForwardedProto i)))))) "https",
       match peer with
       | Some ip => match forwardedClientIP (headerGet (ForwardedFor i)) ip trusted with
                    | Some client => ipString client
                    | None => RemoteAddr i
                    end
       | None => RemoteAddr i
       end)
    else (TLS i, RemoteAddr i) in
  let secure := encrypted || match peer with Some ip => IsLoopback ip | None => false end in
  if RequireHTTPS cfg && negb secure && requestHasCredentials (inboundRequest i) (TransportQueryKey cfg) then UpgradeRequired
  else Pass remoteAddr (mkDecision secure encrypted).

(** [None]: a network of the configuration does not parse. *)
Definition TransportSecurity (cfg : TransportConfig) : option (inbound -> passage) :=
  trusted ← parseTrustedProxyCIDRs (TrustedProxyCIDRs cfg); Some (transportHandler cfg trusted).

(** [RequireSecureTransport]: the routes that never serve plain HTTP. *)
Definition RequireSecureTransport (enabled : bool) (remoteAddr : string) (d : transportDecision) : passage :=
  if enabled && negb (secure d) then UpgradeRequired else Pass remoteAddr d.

(** ** Trust *)

Lemma walkChain_trusted trusted proxies rest current next :
  trustedPeer trusted current = true ->
  Forall (fun e => exists ip, parseIP (TrimSpace e) = Some ip /\ trustedPeer trusted ip = true) proxies ->
  parseIP (TrimSpace next) = None \/ (exists client, parseIP (TrimSpace next) = Some client /\ trustedPeer trusted client = false) ->
  walkChain trusted (proxies ++ next :: rest) current = parseIP (TrimSpace next).
Proof.
  intros Hc Hp Hn. revert current Hc. induction Hp as [|e proxies (ip & He & Ht) _ IH]; intros current Hc; cbn; rewrite Hc; cbn [negb].
  - destruct Hn as [-> |(client & -> & Hu)]; [done|]. by destruct rest; cbn; rewrite ?Hu.
  - rewrite He. by apply IH.
Qed.

Lemma Split_last forged entries : entries <> [] -> Forall (fun e => has_byte "," e = false) entries ->
  Split "," (forged +:+ "," +:+ Join "," entries) = Split "," forged ++ entries.
Proof.
  intros Hne He. induction forged as [|c s IH].
  - change ("" +:+ "," +:+ Join "," entries) with ("" +:+ String "," (Join "," entries)). rewrite Split_app, (Split_Join ",") by done. done.
  - rewrite sapp_cons. cbn [Split]. rewrite IH. destruct (Split_nonempty "," s) as (part & more & ->). cbn. by destruct (Ascii.eqb c ",").
Qed.

End Transport.

(** ** Examples *)

Definition someAddresses (s : string) : option IP :=
  assoc s [("127.0.0.1", [127; 0; 0; 1]); ("10.0.0.1", [10; 0; 0; 1]); ("203.0.113.9", [203; 0; 113; 9]); ("6.6.6.6", [6; 6; 6; 6])].
Definition printed (ip : IP) : string := if bool_decide (ip = [203; 0; 113; 9]) then "203.0.113.9" else if bool_decide (ip = [6; 6; 6; 6]) then "6.6.6.6" else "proxy".
Definition internal : list Prefix := [mkPrefix [10; 0; 0; 0] 8].
Definition requestWith (key : string) : Request := mkRequest "" key "" "" NoCookie "" "GET" "/" "" (mkDescriptor "" "" "" "" "" None).
Abbreviation anonymous := (requestWith "").
Abbreviation keyed := (requestWith "nsk_1").

Abbreviation serve := (transportHandler someAddresses printed).

(** A proxy that appends to the line keeps the client's forgery out of the way. *)
Example appended_chain : serve (mkTransport true [] false) internal
    (mkInbound "10.0.0.1:4711" false ["http"] ["6.6.6.6, 203.0.113.9, 10.0.0.1"] anonymous)
  = Pass "203.0.113.9" (mkDecision false false).
Proof. vm_compute. reflexivity. Qed.

(** A proxy that adds a line of its own leaves the client's line first, and the code reads that. *)
Example separate_line_is_forged : serve (mkTransport true [] false) internal
    (mkInbound "10.0.0.1:4711" false ["http"] ["6.6.6.6"; "203.0.113.9"] anonymous)
  = Pass "6.6.6.6" (mkDecision false false).
Proof. vm_compute. reflexivity. Qed.

(** The first value of the protocol is the client's where proxies append to it: a
    credential sent over plain HTTP passes as encrypted. *)
Example forged_protocol : serve (mkTransport true [] false) internal
    (mkInbound "10.0.0.1:4711" false ["https, http"] ["203.0.113.9"] keyed) = Pass "203.0.113.9" (mkDecision true true)
  /\ serve (mkTransport true [] false) internal (mkInbound "10.0.0.1:4711" false ["http"] ["203.0.113.9"] keyed) = UpgradeRequired.
Proof. vm_compute. done. Qed.

Example hosts : SplitHostPort "10.0.0.1:4711" = Some "10.0.0.1" /\ SplitHostPort "[::1]:80" = Some "::1" /\ SplitHostPort "::1" = None
  /\ SplitHostPort "[::1]" = None /\ SplitHostPort "10.0.0.1" = None /\ SplitHostPort "[a]b:1" = None.
Proof. vm_compute. done. Qed.
