(* ===== verification/AuditLog.v ===== *)
(** * The audit log ([audit/audit.go], [store/store_audit_outbox.go])

    Events of requests go to a database of their own; while it does not take them they
    wait in a table of the catalog, the outbox, and a loop delivers them. [Record], the
    loop and [Close] share flags and counters without a common lock: here they are
    threads that take one atomic step at a time, and the environment decides whether a
    statement works, fails, or fails after it took effect. The queries over the log
    follow.

    Parameters: [marshal] and [unmarshal] are [encoding/json] on events, [dbTime] is the
    resolution of the database's timestamps, [marshalCursor] and [unmarshalCursor] are
    [encoding/json] on cursors. *)

From stdpp Require Import sorting.
From S2P Require Import Prelude GoText Base64 RateLimit ProtocolRequest.

(** ** Events *)

Record Event : Type := mkEvent {
  evID : string; evTime : Z; evRequestID : string; evPrincipal : string; evCredentialID : string; evAuthMethod : string;
  evWorkspace : string; evProtocol : string; evOperation : string; evAction : string; evMethod : string; evPath : string;
  evStatus : Z; evDuration : Z; evSecurity : bool }.
#[export] Instance Event_eq_dec : EqDecision Event. Proof. solve_decision. Defined.

Record AuditConfig : Type := mkAudit { MaxFieldBytes : Z; RetryBatchSize : Z; RetentionDays : Z; RecordReads : bool }.

(** [field]: the first bytes of a text. *)
Definition boundField (cfg : AuditConfig) (value : string) : string :=
  if (0 <? MaxFieldBytes cfg) && (MaxFieldBytes cfg <? Z.of_nat (String.length value)) then stake (Z.to_nat (MaxFieldBytes cfg)) value
  else value.

(** The beginning of [Record]: an identifier and a time where they are missing, bounded texts. *)
Definition prepareEvent (cfg : AuditConfig) (uuid : string) (now : Z) (e : Event) : Event :=
  mkEvent (if String.eqb (evID e) "" then uuid else evID e) (if evTime e =? zeroTime then now else evTime e)
    (boundField cfg (evRequestID e)) (boundField cfg (evPrincipal e)) (boundField cfg (evCredentialID e)) (boundField cfg (evAuthMethod e))
    (boundField cfg (evWorkspace e)) (boundField cfg (evProtocol e)) (boundField cfg (evOperation e)) (evAction e) (evMethod e)
    (boundField cfg (evPath e)) (evStatus e) (evDuration e) (evSecurity e).

(** The suffix of the path that names an operation of authentication. *)
Definition authOperation (path : string) : string :=
  default "" (List.find (fun name => HasSuffix path ("/auth/" +:+ name)) ["login"; "refresh"; "logout"; "oidc/callback"]).

(** [CaptureAuditPrincipal], [RecordAuditPrincipal]: who was recognised during the request. *)
Record AuditPrincipal : Type := mkPrincipal { auSubject : string; auMethod : string; auCredentialID : string }.

(** [Middleware], once the handler has answered: the event to record, if any. *)
Definition middlewareEvent (cfg : AuditConfig) (d : Descriptor) (method path requestID : string) (status now duration : Z) (who : AuditPrincipal)
    : option Event :=
  let mutation := Mutating d method in
  let auth := authOperation path in
  let securityEvent := (status =? 401) || (status =? 403) || negb (String.eqb auth "") in
  if negb (RecordReads cfg) && negb mutation && negb securityEvent then None
  else Some (mkEvent "" now requestID (auSubject who) (auCredentialID who) (auMethod who) (Workspace d)
               (if String.eqb (Service d) "" then "management" else Service d)
               (match DErr d with Some _ => "INVALID" | None => if String.eqb auth "" then OpName d else auth end)
               (if securityEvent then "security" else if mutation then "change" else "read") method path status duration securityEvent).

(** ** The tables and the flags *)

Section Log.
Context {Payload : Type} (marshal : Event -> Payload) (unmarshal : Payload -> option Event) (dbTime : Z -> Z).

Record AuditOutboxRecord : Type := mkRecord { recID : string; OccurredAt : Z; recPayload : Payload; AttemptCount : Z; LastError : string }.

(** The two tables are durable; the rest is memory. [draining] is [drainMu]. *)
Record shared : Type := mkShared {
  audit_events : gmap string Event; audit_outbox : gmap string AuditOutboxRecord;
  pending : Z; writeBad : bool; retainBad : bool; lost : bool; wake : bool; draining : bool; stopped : bool; closed : bool }.

(** How a statement ends: a failure may come after it took effect. *)
Inductive outcome : Type := Works | Breaks (applied : bool) (message : string).

(** A row as the database keeps it. *)
Definition dbRow (e : Event) : Event :=
  mkEvent (evID e) (dbTime (evTime e)) (evRequestID e) (evPrincipal e) (evCredentialID e) (evAuthMethod e) (evWorkspace e) (evProtocol e)
    (evOperation e) (evAction e) (evMethod e) (evPath e) (evStatus e) (evDuration e) (evSecurity e).

(** [ON CONFLICT(id) DO NOTHING]. *)
Definition insertNew {A} (id : string) (x : A) (table : gmap string A) : gmap string A :=
  match table !! id with Some _ => table | None => <[id := x]> table end.

Definition set_events (t : gmap string Event) (s : shared) : shared :=
  mkShared t (audit_outbox s) (pending s) (writeBad s) (retainBad s) (lost s) (wake s) (draining s) (stopped s) (closed s).
Definition set_outbox (t : gmap string AuditOutboxRecord) (s : shared) : shared :=
  mkShared (audit_events s) t (pending s) (writeBad s) (retainBad s) (lost s) (wake s) (draining s) (stopped s) (closed s).
Definition set_pending (n : Z) (s : shared) : shared :=
  mkShared (audit_events s) (audit_outbox s) n (writeBad s) (retainBad s) (lost s) (wake s) (draining s) (stopped s) (closed s).
Definition set_bad (b : bool) (s : shared) : shared :=
  mkShared (audit_events s) (audit_outbox s) (pending s) b (retainBad s) (lost s) (wake s) (draining s) (stopped s) (closed s).
Definition set_retain (b : bool) (s : shared) : shared :=
  mkShared (audit_events s) (audit_outbox s) (pending s) (writeBad s) b (lost s) (wake s) (draining s) (stopped s) (closed s).
Definition latch_lost (s : shared) : shared :=
  mkShared (audit_events s) (audit_outbox s) (pending s) (writeBad s) (retainBad s) true (wake s) (draining s) (stopped s) (closed s).
Definition set_wake (b : bool) (s : shared) : shared :=
  mkShared (audit_events s) (audit_outbox s) (pending s) (writeBad s) (retainBad s) (lost s) b (draining s) (stopped s) (closed s).
Definition set_draining (b : bool) (s : shared) : shared :=
  mkShared (audit_events s) (audit_outbox s) (pending s) (writeBad s) (retainBad s) (lost s) (wake s) b (stopped s) (closed s).
Definition cancel (s : shared) : shared :=
  mkShared (audit_events s) (audit_outbox s) (pending s) (writeBad s) (retainBad s) (lost s) (wake s) (draining s) true (closed s).
Definition closeDB (s : shared) : shared :=
  mkShared (audit_events s) (audit_outbox s) (pending s) (writeBad s) (retainBad s) (lost s) (wake s) (draining s) (stopped s) true.

(** Whether the statement took effect, and whether it reports success. *)
Definition applies (o : outcome) : bool := match o with Works => true | Breaks applied _ => applied end.
Definition works (o : outcome) : bool := match o with Works => true | Breaks _ _ => false end.

(** A closed database takes nothing. *)
Definition insertEvent (o : outcome) (e : Event) (s : shared) : bool * shared :=
  if closed s then (false, s) else (works o, if applies o then set_events (insertNew (evID e) (dbRow e) (audit_events s)) s else s).

Definition EnqueueAuditEvent (o : outcome) (id : string) (occurredAt : Z) (payload : Payload) (s : shared) : bool * shared :=
  if String.eqb id "" then (false, s)
  else (works o, if applies o then set_outbox (insertNew id (mkRecord id occurredAt payload 0 "") (audit_outbox s)) s else s).

(** [ORDER BY occurred_at,id]. *)
Definition occursBefore (a b : AuditOutboxRecord) : Prop :=
  OccurredAt a < OccurredAt b \/ OccurredAt a = OccurredAt b /\ String.leb (recID a) (recID b) = true.
#[export] Instance occursBefore_dec : RelDecision occursBefore. Proof. intros a b. unfold occursBefore. apply _. Defined.

Definition ListAuditOutbox (limit : Z) (s : shared) : list AuditOutboxRecord :=
  let limit := if (limit <=? 0) || (1000 <? limit) then 100 else limit in
  take (Z.to_nat limit) (merge_sort occursBefore (map snd (map_to_list (audit_outbox s)))).

Definition MarkAuditOutboxAttempt (o : outcome) (id message : string) (s : shared) : shared :=
  if applies o then
    set_outbox (alter (fun r => mkRecord (recID r) (OccurredAt r) (recPayload r) (AttemptCount r + 1) message) id (audit_outbox s)) s
  else s.

Definition DeleteAuditOutboxEvent (o : outcome) (id : string) (s : shared) : bool * shared :=
  (works o, if applies o then set_outbox (delete id (audit_outbox s)) s else s).

Definition CountAuditOutbox (s : shared) : Z := Z.of_nat (size (audit_outbox s)).

Definition boundedError (message : string) : string := if (2048 <? String.length message)%nat then stake 2048 message else message.

(** ** The threads *)

(** Who drains: the loop or [Close]. *)
Inductive drainer : Type := TheLoop | TheClose.

(** A thread and the atomic step it takes next. *)
Inductive thread : Type :=
| RecordBad (e : Event) | RecordPending (e : Event) | RecordWrite (e : Event)
| Enqueue (e : Event) | EnqueueAdd (e : Event) | EnqueueSwap (e : Event) | EnqueueWake (e : Event)
| LostLatch (e : Event) | LostBad (e : Event) | Returned (e : Event) (ok : bool)
| LoopWait | LoopCheck | LoopDone
| CloseCheck | CloseCancel | CloseDB | CloseDone
| DrainLock (k : drainer) | DrainList (k : drainer) | DrainNext (k : drainer) (items : list AuditOutboxRecord)
| DrainWrite (k : drainer) (item : AuditOutboxRecord) (e : Event) (rest : list AuditOutboxRecord)
| DrainMark (k : drainer) (item : AuditOutboxRecord) (message : string)
| DrainDelete (k : drainer) (item : AuditOutboxRecord) (rest : list AuditOutboxRecord)
| DrainSubtract (k : drainer) (rest : list AuditOutboxRecord)
| DrainCount (k : drainer) | DrainStore (k : drainer) (count : Z) | DrainLost (k : drainer) (count : Z) | DrainRecover (k : drainer)
| DrainDegrade (k : drainer) (failed : bool) | DrainUnlock (k : drainer) (failed : bool).

Definition messageOf (o : outcome) : string := match o with Works => "" | Breaks _ m => m end.

(** The atomic step of a thread; [None] where it waits or has ended. *)
Definition advance (cfg : AuditConfig) (o : outcome) (s : shared) (t : thread) : option (shared * thread) :=
  match t with
  (* Record *)
  | RecordBad e => Some (s, if writeBad s then Enqueue e else RecordPending e)
  | RecordPending e => Some (s, if 0 <? pending s then Enqueue e else RecordWrite e)
  | RecordWrite e => let '(ok, s) := insertEvent o e s in Some (s, if ok then Returned e true else Enqueue e)
  (* enqueue *)
  | Enqueue e => let '(ok, s) := EnqueueAuditEvent o (evID e) (evTime e) (marshal e) s in Some (s, if ok then EnqueueAdd e else LostLatch e)
  | EnqueueAdd e => Some (set_pending (pending s + 1) s, EnqueueSwap e)
  | EnqueueSwap e => Some (set_bad true s, EnqueueWake e)
  | EnqueueWake e => Some (set_wake true s, Returned e true)
  (* markLost *)
  | LostLatch e => Some (latch_lost s, LostBad e)
  | LostBad e => Some (set_bad true s, Returned e false)
  | Returned _ _ => None
  (* retryLoop: the select takes the wake-up, the tick or the end of the context *)
  | LoopWait => match o with
                | Works => if wake s then Some (set_wake false s, LoopCheck) else None
                | Breaks true _ => Some (s, LoopCheck)
                | Breaks false _ => if stopped s then Some (s, LoopDone) else None
                end
  | LoopCheck => Some (s, if pending s =? 0 then LoopWait else DrainLock TheLoop)
  | LoopDone => None
  (* Close *)
  | CloseCheck => Some (s, if 0 <? pending s then DrainLock TheClose else CloseCancel)
  | CloseCancel => Some (cancel s, CloseDB)
  | CloseDB => Some (closeDB s, CloseDone)
  | CloseDone => None
  (* drainBatch *)
  | DrainLock k => if draining s then None else Some (set_draining true s, DrainList k)
  | DrainList k => Some (s, if works o then DrainNext k (ListAuditOutbox (RetryBatchSize cfg) s) else DrainDegrade k true)
  | DrainNext k [] => Some (s, DrainCount k)
  | DrainNext k (item :: rest) =>
      Some (s, match unmarshal (recPayload item) with
               | Some e => DrainWrite k item e rest
               | None => DrainMark k item (messageOf o)
               end)
  | DrainWrite k item e rest =>
      let '(ok, s) := insertEvent o e s in Some (s, if ok then DrainDelete k item rest else DrainMark k item (messageOf o))
  | DrainMark k item message => Some (MarkAuditOutboxAttempt o (recID item) (boundedError message) s, DrainDegrade k true)
  | DrainDelete k item rest =>
      let '(ok, s) := DeleteAuditOutboxEvent o (recID item) s in Some (s, if ok then DrainSubtract k rest else DrainDegrade k true)
  | DrainSubtract k rest => Some (set_pending (pending s - 1) s, DrainNext k rest)
  | DrainCount k => Some (s, if works o then DrainStore k (CountAuditOutbox s) else DrainDegrade k true)
  | DrainStore k count => Some (set_pending count s, DrainLost k count)
  | DrainLost k count => Some (s, if (count =? 0) && negb (lost s) then DrainRecover k else DrainDegrade k false)
  | DrainRecover k => Some (set_bad false s, DrainUnlock k false)
  | DrainDegrade k failed => Some (set_bad true s, DrainUnlock k failed)
  | DrainUnlock k failed =>
      Some (set_draining false s,
            match k with
            | TheLoop => LoopWait
            (* after a failure [Close] waits and tries again, or its deadline has passed *)
            | TheClose => if failed && negb (works o) then CloseCancel else CloseCheck
            end)
  end.

(** ** Retention *)

Definition purgeEvents (o : outcome) (cfg : AuditConfig) (now : Z) (s : shared) : bool * shared :=
  if closed s then (false, s)
  else (works o, if applies o then set_events (filter (fun '(_, e) => ~ evTime e < dbTime (now - RetentionDays cfg * 86400 * nsSecond)) (audit_events s)) s
                 else s).

Definition Purge (o : outcome) (cfg : AuditConfig) (now : Z) (s : shared) : shared :=
  let '(ok, s) := purgeEvents o cfg now s in set_retain (negb ok) s.

(** ** Start and health *)

Definition OpenAudit (events : gmap string Event) (outbox : gmap string AuditOutboxRecord) : shared :=
  let pending := Z.of_nat (size outbox) in
  mkShared events outbox pending (0 <? pending) false false (0 <? pending) false false false.

(** The audit database answers a ping unless it is closed or [ping] says otherwise. *)
Definition Health (ping : bool) (s : shared) : bool :=
  negb (stopped s) && (ping && negb (closed s)) && negb (lost s) && negb (retainBad s) && negb ((0 <? pending s) || writeBad s).
End Log.

Arguments AuditOutboxRecord : clear implicits.
Arguments shared : clear implicits.
Arguments thread : clear implicits.

(** ** Queries *)

Record eventCursor : Type := mkCursor { curTime : Z; curID : string }.

Inductive outcomeFilter : Type := AnyOutcome | OutcomeFailed | OutcomeSucceeded.

Record Query : Type := mkQuery {
  qCursor : string; qSearch : string; qExtra : bool; qWorkspace : string; qPrincipal : string; qCredentialID : string; qSince : option Z;
  qOutcome : outcomeFilter; qLimit : Z }.

Section Queries.
Context (dbTime : Z -> Z) (marshalCursor : eventCursor -> string) (unmarshalCursor : string -> option eventCursor).

Definition decodeCursor (value : string) : option eventCursor :=
  if (2048 <? String.length value)%nat then None
  else body ← DecodeString value; c ← unmarshalCursor body;
       if (curTime c =? zeroTime) || String.eqb (curID c) "" || (256 <? String.length (curID c))%nat then None else Some c.

Definition encodeCursor (c : eventCursor) : string := EncodeToString (marshalCursor c).

(** The text that is searched. *)
Definition searchText (e : Event) : string :=
  Join " " [evPrincipal e; evCredentialID e; evAuthMethod e; evWorkspace e; evProtocol e; evOperation e; evAction e; evMethod e; evPath e;
            pretty (evStatus e)].

(** An empty text of a query asks for nothing. *)
Definition orEqual (asked actual : string) : bool := String.eqb asked "" || String.eqb actual asked.

Definition selects (q : Query) (e : Event) : bool :=
  orEqual (qWorkspace q) (evWorkspace e) && orEqual (qPrincipal q) (evPrincipal e) && orEqual (qCredentialID q) (evCredentialID e)
  && match qSince q with Some t => dbTime t <=? evTime e | None => true end
  && match qOutcome q with AnyOutcome => true | OutcomeFailed => 400 <=? evStatus e | OutcomeSucceeded => evStatus e <? 400 end
  && (String.eqb (qSearch q) "" || Contains (ToLower (searchText e)) (ToLower (qSearch q))).

(** [id<?] on texts is the order of their bytes. *)
Definition afterCursor (c : eventCursor) (e : Event) : bool :=
  (evTime e <? dbTime (curTime c)) || (evTime e =? dbTime (curTime c)) && String.ltb (evID e) (curID c).

(** [ORDER BY occurred_at DESC,id DESC]. *)
Definition newerFirst (a b : Event) : Prop := evTime b < evTime a \/ evTime a = evTime b /\ String.leb (evID b) (evID a) = true.
#[export] Instance newerFirst_dec : RelDecision newerFirst. Proof. intros a b. unfold newerFirst. apply _. Defined.

Definition pageLimit (limit : Z) : Z := if (limit <=? 0) || (1000 <? limit) then 100 else limit.

(** [None]: [ErrInvalidCursor]. *)
Definition ListEvents (table : gmap string Event) (q : Query) : option (list Event) :=
  let limit := pageLimit (qLimit q) + (if qExtra q then 1 else 0) in
  keep ← (if String.eqb (qCursor q) "" then Some (fun _ => true) else afterCursor <$> decodeCursor (qCursor q));
  Some (take (Z.to_nat limit) (merge_sort newerFirst (List.filter (fun e => selects q e && keep e) (map snd (map_to_list table))))).

Definition with_page (limit : Z) (q : Query) : Query :=
  mkQuery (qCursor q) (qSearch q) true (qWorkspace q) (qPrincipal q) (qCredentialID q) (qSince q) (qOutcome q) limit.
Definition with_cursor (cursor : string) (q : Query) : Query :=
  mkQuery cursor (qSearch q) (qExtra q) (qWorkspace q) (qPrincipal q) (qCredentialID q) (qSince q) (qOutcome q) (qLimit q).

Record Page : Type := mkPage { pageEvents : list Event; NextCursor : string }.

Definition ListPage (table : gmap string Event) (q : Query) : option Page :=
  let limit := pageLimit (qLimit q) in
  events ← ListEvents table (with_page limit q);
  if limit <? Z.of_nat (length events) then
    let shown := take (Z.to_nat limit) events in
    Some (mkPage shown (match last shown with Some e => encodeCursor (mkCursor (evTime e) (evID e)) | None => "" end))
  else Some (mkPage events "").
End Queries.
