(* ===== verification/AuditSteps.v ===== *)
(** * The audit log: no recorded event is lost

    All threads of the log in any order, with failures of either database at any
    statement, purges, and crashes after which the server starts again. Once the
    databases work again, the loop empties the outbox; but an event that is queued while
    a batch ends can be left behind with nobody to deliver it. *)

From stdpp Require Import sorting.
From S2P Require Import Prelude GoText Base64 RateLimit ProtocolRequest AuditLog.

Section System.
Context {Payload : Type} (marshal : Event -> Payload) (unmarshal : Payload -> option Event) (dbTime : Z -> Z) (cfg : AuditConfig).

Local Abbreviation shared := (shared Payload).
Local Abbreviation thread := (thread Payload).
Local Abbreviation dbRow := (dbRow dbTime).
Local Abbreviation advance := (advance marshal unmarshal dbTime cfg).

(** ** Schedules *)

(** The threads, with the events that were begun and acknowledged and the latest cut-off
    of a purge, which no code reads. *)
Record system : Type := mkSystem {
  mem : shared; threads : gmap nat thread; begun : gmap string Event; acked : list Event; cutoff : option Z }.

(** A request begins to record an event; a shutdown begins; a thread takes its step; old
    events are purged; the process dies and starts again. *)
Inductive action : Type :=
| Begin (pid : nat) (uuid : string) (now : Z) (e : Event) | Shutdown (pid : nat) | Step (pid : nat) (o : outcome) | Sweep (o : outcome) (now : Z) | Crash.

(** [uuid.NewString] gives an identifier that was never used; [None] is an action that is
    not possible. *)
Definition act (a : action) (y : system) : option system :=
  match a with
  | Begin pid uuid now e =>
      let e := prepareEvent cfg uuid now e in
      match begun y !! evID e, threads y !! pid with
      | None, None => Some (mkSystem (mem y) (<[pid := RecordBad e]> (threads y)) (<[evID e := e]> (begun y)) (acked y) (cutoff y))
      | _, _ => None
      end
  | Shutdown pid =>
      match threads y !! pid with
      | None => Some (mkSystem (mem y) (<[pid := CloseCheck]> (threads y)) (begun y) (acked y) (cutoff y))
      | Some _ => None
      end
  | Step pid o =>
      t ← threads y !! pid; '(s, t') ← advance o (mem y) t;
      Some (mkSystem s (<[pid := t']> (threads y)) (begun y) (match t' with Returned e true => e :: acked y | _ => acked y end) (cutoff y))
  | Sweep o now =>
      let c := dbTime (now - RetentionDays cfg * 86400 * nsSecond) in
      Some (mkSystem (Purge dbTime o cfg now (mem y)) (threads y) (begun y) (acked y)
              (Some (match cutoff y with Some c' => Z.max c' c | None => c end)))
  | Crash => Some (mkSystem (OpenAudit (audit_events (mem y)) (audit_outbox (mem y))) {[0%nat := LoopWait]} (begun y) (acked y) (cutoff y))
  end.

Fixpoint acts (l : list action) (y : system) : option system :=
  match l with
  | [] => Some y
  | a :: l => y ← act a y; acts l y
  end.

(** A new server with empty tables. *)
Definition newSystem : system := mkSystem (OpenAudit ∅ ∅) {[0%nat := LoopWait]} ∅ [] None.

(** ** What is kept *)

(** The event as it comes back from JSON. *)
Context (image : Event -> Event).
Hypothesis unmarshal_marshal : forall e, unmarshal (marshal e) = Some (image e).
Hypothesis image_key : forall e, evID (image e) = evID e /\ evTime (image e) = evTime e.

(** In the log as it was or as it came back from JSON. *)
Definition written (e : Event) (s : shared) : Prop := exists row, audit_events s !! evID e = Some row /\ (row = dbRow e \/ row = dbRow (image e)).
Definition queued (e : Event) (s : shared) : Prop := exists r, audit_outbox s !! evID e = Some r /\ recPayload r = marshal e.
Definition expired (e : Event) (c : option Z) : Prop := exists c', c = Some c' /\ dbTime (evTime e) < c'.

Definition delivered (c : option Z) (s : shared) (e : Event) : Prop := written e s \/ expired e c.
Definition kept (c : option Z) (s : shared) (e : Event) : Prop := delivered c s e \/ queued e s.

(** A row that was listed. *)
Definition listed (b : gmap string Event) (r : AuditOutboxRecord Payload) : Prop :=
  exists e, b !! recID r = Some e /\ evID e = recID r /\ recPayload r = marshal e.

(** What each thread relies on. *)
Definition threadOk (b : gmap string Event) (c : option Z) (s : shared) (t : thread) : Prop :=
  match t with
  | RecordBad e | RecordPending e | RecordWrite e | Enqueue e | LostLatch e => b !! evID e = Some e
  | EnqueueAdd e | EnqueueSwap e | EnqueueWake e | Returned e true => b !! evID e = Some e /\ kept c s e
  | LostBad e | Returned e false => lost s = true
  | DrainNext _ items => Forall (listed b) items
  | DrainWrite _ item x rest => Forall (listed b) rest /\ exists e, b !! recID item = Some e /\ evID e = recID item /\ x = image e
  | DrainDelete _ item rest => Forall (listed b) rest /\ exists e, b !! recID item = Some e /\ evID e = recID item /\ delivered c s e
  | DrainSubtract _ rest => Forall (listed b) rest
  | _ => True
  end.

(** Nothing is in a table that was not begun. *)
Record tablesOk (b : gmap string Event) (s : shared) : Prop := {
  ok_events : forall id row, audit_events s !! id = Some row -> exists e, b !! id = Some e /\ (row = dbRow e \/ row = dbRow (image e));
  ok_outbox : forall id r, audit_outbox s !! id = Some r -> recID r = id /\ listed b r }.

(** The log, with every acknowledged event kept. *)
Record Inv (y : system) : Prop := {
  inv_begun : forall id e, begun y !! id = Some e -> evID e = id;
  inv_tables : tablesOk (begun y) (mem y);
  inv_acked : forall e, e ∈ acked y -> begun y !! evID e = Some e /\ kept (cutoff y) (mem y) e;
  inv_threads : forall pid t, threads y !! pid = Some t -> threadOk (begun y) (cutoff y) (mem y) t }.

(** ** What the other threads may do *)

Definition grows (b : gmap string Event) (c : option Z) (s : shared) (c' : option Z) (s' : shared) : Prop :=
  (lost s = true -> lost s' = true)
  /\ forall e, b !! evID e = Some e -> (delivered c s e -> delivered c' s' e) /\ (kept c s e -> kept c' s' e).

Lemma listed_mono b b' items : b ⊆ b' -> Forall (listed b) items -> Forall (listed b') items.
Proof. intros Hb Hf. eapply Forall_impl; [exact Hf|]. intros r (e & H & H'). exists e. split; [by eapply lookup_weaken|done]. Qed.

Lemma threadOk_grows b c s b' c' s' t : (forall id e, b !! id = Some e -> evID e = id) -> b ⊆ b' -> grows b c s c' s' ->
  threadOk b c s t -> threadOk b' c' s' t.
Proof.
  intros Hid Hb [Hl Hg]. pose proof (fun id e => lookup_weaken b b' id e) as Hw. pose proof (fun items => listed_mono b b' items Hb) as Hm.
  destruct t as [e|e|e|e|e|e|e|e|e|e []| | | | | | | |?|?|? ?|? item x rest|? ? ?|? item rest|? ?|?|? ?|? ?|?|? ?|? ?]; cbn; eauto.
  1-4: intros [H1 H2]; split; [by eauto|by apply Hg].
  - intros [H1 (e & H2 & H3 & H4)]. split; [by eauto|]. exists e. by eauto.
  - intros [H1 (e & H2 & H3 & H4)]. split; [by eauto|]. exists e. split_and!; [by eauto|done|]. apply Hg; [congruence|done].
Qed.

(** Memory that is no table. *)
Lemma grows_same b c s s' : audit_events s' = audit_events s -> audit_outbox s' = audit_outbox s -> (lost s = true -> lost s' = true) ->
  grows b c s c s'.
Proof. intros He Ho Hl. split; [done|]. intros e _. unfold kept, delivered, written, queued. by rewrite He, Ho. Qed.

Lemma tables_same b s s' : audit_events s' = audit_events s -> audit_outbox s' = audit_outbox s -> tablesOk b s -> tablesOk b s'.
Proof. intros He Ho [H1 H2]. split; rewrite ?He, ?Ho; done. Qed.

Lemma insertNew_lookup {A} id (x : A) m k v : insertNew id x m !! k = Some v <-> m !! k = Some v \/ k = id /\ m !! id = None /\ v = x.
Proof.
  unfold insertNew. destruct (m !! id) eqn:H; [split; [auto|intros [?|(_ & ? & _)]; done]|].
  rewrite lookup_insert_Some. split; [intros [[-> ->]|[? ?]]; auto|intros [?|(-> & _ & ->)]; [|auto]]. right. split; [congruence|done].
Qed.

(** ** The statements *)

Lemma insert_events b c s id e x : tablesOk b s -> b !! id = Some e -> evID e = id -> x = e \/ x = image e ->
  let s' := set_events (insertNew (evID x) (dbRow x) (audit_events s)) s in tablesOk b s' /\ grows b c s c s' /\ delivered c s' e.
Proof.
  intros [H1 H2] Hb He Hx. assert (Hk : evID x = id) by (destruct Hx as [-> | ->]; [done|rewrite (proj1 (image_key e)); done]).
  assert (Hr : dbRow x = dbRow e \/ dbRow x = dbRow (image e)) by (destruct Hx as [-> | ->]; auto).
  cbn. split_and!.
  - split; cbn; [|done]. intros id' row [?|(-> & _ & ->)]%insertNew_lookup; [by eauto|]. exists e. by rewrite Hk.
  - split; [done|]. intros e' _. unfold kept, delivered, written, queued. cbn.
    assert (Hm : forall row, audit_events s !! evID e' = Some row -> insertNew (evID x) (dbRow x) (audit_events s) !! evID e' = Some row)
      by (intros row ?; apply insertNew_lookup; by left).
    naive_solver.
  - left. unfold written. cbn. destruct (audit_events s !! id) as [row|] eqn:Hrow.
    + exists row. split; [apply insertNew_lookup; left; congruence|]. destruct (H1 _ _ Hrow) as (e' & Hb' & Hor). assert (e' = e) as -> by congruence. done.
    + exists (dbRow x). split; [|done]. apply insertNew_lookup. right. rewrite Hk. naive_solver.
Qed.

Lemma insertEvent_ok b c o s id e x : tablesOk b s -> b !! id = Some e -> evID e = id -> x = e \/ x = image e ->
  let '(ok, s') := insertEvent dbTime o x s in tablesOk b s' /\ grows b c s c s' /\ (ok = true -> delivered c s' e).
Proof.
  intros Ht Hb He Hx. unfold insertEvent. destruct (closed s); [split_and!; [done|by apply grows_same|done]|].
  destruct (insert_events b c s id e x Ht Hb He Hx) as (H1 & H2 & H3). destruct o as [|[] m]; cbn; [done..|].
  split_and!; [done|by apply grows_same|done].
Qed.

Lemma enqueue_ok b c o s e : tablesOk b s -> b !! evID e = Some e ->
  let '(ok, s') := EnqueueAuditEvent o (evID e) (evTime e) (marshal e) s in tablesOk b s' /\ grows b c s c s' /\ (ok = true -> kept c s' e).
Proof.
  intros Ht Hb. unfold EnqueueAuditEvent. destruct (String.eqb _ _); [split_and!; [done|by apply grows_same|done]|].
  set (r := mkRecord (evID e) (evTime e) (marshal e) 0 ""). set (s1 := set_outbox _ s).
  assert (H1 : tablesOk b s1).
  { split; [apply Ht|]. intros id r' [?|(-> & _ & ->)]%insertNew_lookup; [by apply Ht|]. split; [done|]. by exists e. }
  assert (H2 : grows b c s c s1).
  { split; [done|]. intros e' _. unfold kept, delivered, written, queued. cbn.
    assert (Hm : forall r', audit_outbox s !! evID e' = Some r' -> insertNew (evID e) r (audit_outbox s) !! evID e' = Some r')
      by (intros r' ?; apply insertNew_lookup; by left).
    naive_solver. }
  assert (H3 : queued e s1).
  { unfold queued. cbn. destruct (audit_outbox s !! evID e) as [r'|] eqn:Hr.
    - exists r'. split; [apply insertNew_lookup; by left|]. destruct (ok_outbox _ _ Ht _ _ Hr) as [Hk (e' & Hb' & Hid & Hp)]. congruence.
    - exists r. split; [|done]. apply insertNew_lookup. by right. }
  destruct o as [|[] m]; cbn; [by split_and!; [..|right]|by split_and!; [..|right]|]. split_and!; [done|by apply grows_same|done].
Qed.

Lemma mark_ok b c o s id m : tablesOk b s ->
  let s' := MarkAuditOutboxAttempt o id m s in tablesOk b s' /\ grows b c s c s'.
Proof.
  intros Ht. unfold MarkAuditOutboxAttempt. destruct (applies o); cbn; [|split; [done|by apply grows_same]].
  assert (Hf : forall f k, (forall r : AuditOutboxRecord Payload, recID (f r) = recID r /\ recPayload (f r) = recPayload r) ->
            forall r', alter f id (audit_outbox s) !! k = Some r' -> exists r, audit_outbox s !! k = Some r /\ recID r' = recID r /\ recPayload r' = recPayload r).
  { intros f k Hf r'. rewrite lookup_alter_Some. intros [(<- & r & Hr & ->)|[_ ?]]; [exists r; by rewrite !(proj1 (Hf _)), (proj2 (Hf _))|by exists r']. }
  split.
  - split; [apply Ht|]. cbn. intros k r' (r & Hr & Hi & Hp)%Hf; [|done]. destruct (ok_outbox _ _ Ht _ _ Hr) as [Hk (e & ?)].
    split; [congruence|]. exists e. by rewrite Hi, Hp.
  - split; [done|]. intros e _. unfold kept, delivered, written, queued. cbn. split; [done|]. intros [?|(r & Hr & Hp)]; [by left|right].
    destruct (decide (evID e = id)) as [<-|Hne]; [|by exists r; rewrite lookup_alter_ne].
    eexists. rewrite lookup_alter_eq, Hr. split; [reflexivity|done].
Qed.

Lemma delete_ok b c o s id e : tablesOk b s -> b !! id = Some e -> evID e = id -> delivered c s e ->
  let s' := (DeleteAuditOutboxEvent o id s).2 in tablesOk b s' /\ grows b c s c s'.
Proof.
  intros Ht Hb He Hd. unfold DeleteAuditOutboxEvent. destruct (applies o); cbn; [|split; [done|by apply grows_same]]. split.
  - split; [apply Ht|]. cbn. intros k r [_ ?]%lookup_delete_Some. by apply Ht.
  - split; [done|]. intros e' Hb'. unfold kept. split; [done|]. intros [?|(r & Hr & Hp)]; [by left|].
    destruct (decide (evID e' = id)) as [Heq|Hne]; [left|right; exists r; cbn; by rewrite lookup_delete_ne].
    assert (e' = e) as -> by congruence. done.
Qed.

(** ** The steps *)

Lemma listed_now b s limit : tablesOk b s -> Forall (listed b) (ListAuditOutbox limit s).
Proof.
  intros Ht. apply Forall_forall. intros r Hr. unfold ListAuditOutbox in Hr. apply elem_of_take in Hr as (i & Hr & _).
  apply list_elem_of_lookup_2 in Hr. rewrite sorting.merge_sort_Permutation in Hr. apply list_elem_of_fmap in Hr as ([id r'] & -> & Hin).
  apply elem_of_map_to_list in Hin. by apply (ok_outbox _ _ Ht _ _ Hin).
Qed.

Lemma drainWrite_ok b c o s k item x rest : tablesOk b s -> threadOk b c s (DrainWrite k item x rest) ->
  let '(ok, s') := insertEvent dbTime o x s in
  tablesOk b s' /\ grows b c s c s' /\ (ok = true -> threadOk b c s' (DrainDelete k item rest)).
Proof.
  intros Ht (Hr & e & Hb & He & ->). pose proof (insertEvent_ok b c o s _ e (image e) Ht Hb He (or_intror eq_refl)) as H.
  destruct (insertEvent dbTime o (image e) s) as [ok s']. destruct H as (H1 & H2 & H3). split_and!; [done..|]. intros Hok. cbn. split; [done|]. exists e. auto.
Qed.

(** A step that touches no table. *)
Lemma quiet_step b c s s' t' : tablesOk b s -> audit_events s' = audit_events s -> audit_outbox s' = audit_outbox s ->
  (lost s = true -> lost s' = true) -> threadOk b c s' t' -> tablesOk b s' /\ grows b c s c s' /\ threadOk b c s' t'.
Proof. intros Ht He Ho Hl H. split_and!; [by eapply tables_same|by apply grows_same|done]. Qed.

Local Ltac quiet := apply quiet_step; cbn; auto.

Lemma advance_ok b c o s t s' t' : tablesOk b s -> threadOk b c s t -> advance o s t = Some (s', t') ->
  tablesOk b s' /\ grows b c s c s' /\ threadOk b c s' t'.
Proof.
  intros Ht Hok Hadv.
  destruct t as [e|e|e|e|e|e|e|e|e|e ok| | | | | | | |k|k|k items|k item x rest|k item m|k item rest|k rest|k|k n|k n|k|k f|k f]; cbn [AuditLog.advance] in Hadv.
  - injection Hadv as <- <-. quiet. by destruct (writeBad s).
  - injection Hadv as <- <-. quiet. by destruct (0 <? pending s).
  - pose proof (insertEvent_ok b c o s _ e e Ht Hok eq_refl (or_introl eq_refl)) as H.
    destruct (insertEvent dbTime o e s) as [ok s1]. destruct H as (H1 & H2 & H3). injection Hadv as <- <-.
    split_and!; [done..|]. destruct ok; cbn; [split; [done|left; auto]|done].
  - pose proof (enqueue_ok b c o s e Ht Hok) as H. destruct (EnqueueAuditEvent _ _ _ _ _) as [ok s1]. destruct H as (H1 & H2 & H3).
    injection Hadv as <- <-. split_and!; [done..|]. destruct ok; cbn; auto.
  - injection Hadv as <- <-. quiet.
  - injection Hadv as <- <-. quiet.
  - injection Hadv as <- <-. quiet.
  - injection Hadv as <- <-. quiet.
  - injection Hadv as <- <-. quiet.
  - done.
  - destruct o as [|[] m]; [destruct (wake s); [|done]| |destruct (stopped s); [|done]]; injection Hadv as <- <-; quiet.
  - injection Hadv as <- <-. quiet. by destruct (_ =? _).
  - done.
  - injection Hadv as <- <-. quiet. by destruct (0 <? _).
  - injection Hadv as <- <-. quiet.
  - injection Hadv as <- <-. quiet.
  - done.
  - destruct (draining s); [done|]. injection Hadv as <- <-. quiet.
  - injection Hadv as <- <-. quiet. destruct (works o); cbn; [by apply listed_now|done].
  - destruct items as [|item rest]; injection Hadv as <- <-; quiet.
    cbn in Hok. apply Forall_cons in Hok as [(e & Hb & He & Hp) Hr]. rewrite Hp, unmarshal_marshal. cbn. eauto.
  - pose proof (drainWrite_ok b c o s k item x rest Ht Hok) as H. destruct (insertEvent dbTime o x s) as [ok s1]. destruct H as (H1 & H2 & H3).
    injection Hadv as <- <-. split_and!; [done..|]. destruct ok; [by apply H3|done].
  - injection Hadv as <- <-. destruct (mark_ok b c o s (recID item) (boundedError m) Ht). done.
  - destruct Hok as (Hr & e & Hb & He & Hd). pose proof (delete_ok b c o s _ e Ht Hb He Hd) as H.
    destruct (DeleteAuditOutboxEvent o (recID item) s) as [ok s1]. destruct H as [H1 H2]. injection Hadv as <- <-. split_and!; [done..|]. by destruct ok.
  - injection Hadv as <- <-. quiet.
  - injection Hadv as <- <-. quiet. by destruct (works o).
  - injection Hadv as <- <-. quiet.
  - injection Hadv as <- <-. quiet. by destruct (_ && _).
  - injection Hadv as <- <-. quiet.
  - injection Hadv as <- <-. quiet.
  - injection Hadv as <- <-. quiet. destruct k; [done|]. by destruct (f && _).
Qed.

(** Purging drops rows that are older than the cut-off, and nothing else. *)
Lemma purge_ok b c o now s : tablesOk b s ->
  let cut := dbTime (now - RetentionDays cfg * 86400 * nsSecond) in
  let c' := Some (match c with Some c' => Z.max c' cut | None => cut end) in
  let s' := Purge dbTime o cfg now s in tablesOk b s' /\ grows b c s c' s'.
Proof.
  intros Ht cut c' s'.
  assert (Hx : forall e, expired e c -> expired e c') by (intros e (c0 & -> & ?); eexists; split; [reflexivity|lia]).
  assert (Hquiet : audit_events s' = audit_events s -> audit_outbox s' = audit_outbox s -> lost s' = lost s -> tablesOk b s' /\ grows b c s c' s').
  { intros He Ho Hl. split; [by eapply tables_same|]. split; [congruence|]. intros e _. unfold kept, delivered, written, queued. rewrite He, Ho. naive_solver. }
  unfold s', Purge, purgeEvents in *. destruct (closed s); [by apply Hquiet|]. destruct (applies o); [|by apply Hquiet]. clear Hquiet. cbn. split.
  - split; [|apply Ht]. cbn. intros id row [H _]%map_lookup_filter_Some. by apply Ht.
  - split; [done|]. intros e Hb. unfold kept, delivered.
    assert (Hd : written e s \/ expired e c -> written e (set_retain (negb (works o)) (set_events (filter (fun '(_, e) => ~ evTime e < cut) (audit_events s)) s)) \/ expired e c').
    { intros [(row & Hrow & Hor)|?]; [|by right; apply Hx]. destruct (decide (evTime row < cut)) as [Hlt|Hge].
      - right. eexists. split; [reflexivity|]. assert (evTime row = dbTime (evTime e)) as <-.
        { destruct Hor as [-> | ->]; cbn; [done|]. by rewrite (proj2 (image_key e)). } destruct c; lia.
      - left. exists row. split; [|done]. cbn. apply map_lookup_filter_Some. done. }
    split; [exact Hd|]. intros [H|H]; [left; by apply Hd|by right].
Qed.

Lemma threads_insert (P : thread -> Prop) (m : gmap nat thread) pid t :
  (forall p x, m !! p = Some x -> P x) -> P t -> forall p x, <[pid := t]> m !! p = Some x -> P x.
Proof. intros Hm Ht p x [[_ <-]|[_ H]]%lookup_insert_Some; eauto. Qed.

Lemma act_inv a y y' : Inv y -> act a y = Some y' -> Inv y'.
Proof.
  intros [Hid Ht Ha Hth]. destruct a as [pid uuid now e|pid|pid o|o now|]; cbn [act].
  - set (e' := prepareEvent cfg uuid now e). destruct (begun y !! evID e') eqn:Hb; [done|]. destruct (threads y !! pid); [done|]. intros [= <-].
    assert (Hsub : begun y ⊆ <[evID e' := e']> (begun y)) by by apply insert_subseteq. split; cbn.
    + intros id x [[<- <-]|[_ ?]]%lookup_insert_Some; eauto.
    + destruct Ht as [H1 H2]. split.
      * intros id row H. destruct (H1 _ _ H) as (x & ? & ?). exists x. split; [by eapply lookup_weaken|done].
      * intros id r H. destruct (H2 _ _ H) as (? & x & ? & ?). split; [done|]. exists x. split; [by eapply lookup_weaken|done].
    + intros x Hx. destruct (Ha x Hx). split; [by eapply lookup_weaken|done].
    + apply threads_insert; [|cbn; by rewrite lookup_insert_eq]. intros p t Hp. eapply threadOk_grows; [exact Hid|done|by apply grows_same|eauto].
  - destruct (threads y !! pid); [done|]. intros [= <-]. split; cbn; [done..|]. by apply threads_insert.
  - destruct (threads y !! pid) as [t|] eqn:Hp; [|done]. cbn. destruct (advance o (mem y) t) as [[s' t']|] eqn:Hadv; [|done]. intros [= <-].
    destruct (advance_ok _ (cutoff y) _ _ _ _ _ Ht (Hth _ _ Hp) Hadv) as (H1 & H2 & H3). split; cbn; [done|done| |].
    + assert (Hold : forall e, e ∈ acked y -> begun y !! evID e = Some e /\ kept (cutoff y) s' e) by (intros e He; destruct (Ha e He); split; [done|by apply H2]).
      destruct t' as [| | | | | | | | |e []| | | | | | | | | | | | | | | | | | | |]; try exact Hold. intros e' [->|He]%elem_of_cons; [exact H3|by apply Hold].
    + apply threads_insert; [|done]. intros p x Hx. eapply threadOk_grows; [exact Hid|done|exact H2|eauto].
  - intros [= <-]. destruct (purge_ok (begun y) (cutoff y) o now (mem y) Ht) as [H1 H2]. split; cbn; [done|done| |].
    + intros e He. destruct (Ha e He). split; [done|by apply H2].
    + intros p t Hp. eapply threadOk_grows; [exact Hid|done|exact H2|eauto].
  - intros [= <-]. split; cbn; [done|by apply (tables_same _ (mem y))|done|]. by intros p t [_ <-]%lookup_singleton_Some.
Qed.

Lemma acts_inv l y y' : Inv y -> acts l y = Some y' -> Inv y'.
Proof.
  revert y. induction l as [|a l IH]; intros y Hy; cbn; [by intros [= <-]|]. destruct (act a y) as [y1|] eqn:Ha; [|done].
  cbn. apply IH. by eapply act_inv.
Qed.

Lemma newSystem_inv : Inv newSystem.
Proof. split; cbn; [done|split; cbn; done|by intros e ?%not_elem_of_nil|]. by intros p t [_ <-]%lookup_singleton_Some. Qed.

(** C13: No recorded event is lost: whatever the order of the steps of requests, of the
    loop and of a shutdown, whichever statements of the two databases fail or fail after
    they took effect, and wherever the process dies and starts again, an event whose
    recording returned without an error is in the log as it was recorded, or in the
    outbox, or old enough for a purge that was asked for. Every row of the log is such an
    event, once; and if a recording returned an error, the server is not healthy until it
    is started again. *)
Theorem recorded_events_kept l y : acts l newSystem = Some y ->
  (forall e, e ∈ acked y -> kept (cutoff y) (mem y) e)
  /\ (forall id row, audit_events (mem y) !! id = Some row -> exists e, begun y !! id = Some e /\ (row = dbRow e \/ row = dbRow (image e)))
  /\ (forall pid e ping, threads y !! pid = Some (Returned e false) -> Health ping (mem y) = false).
Proof.
  intros H%(acts_inv _ _ _ newSystem_inv). split_and!.
  - intros e He. by apply (inv_acked _ H).
  - apply (inv_tables _ H).
  - intros pid e ping Hp%(inv_threads _ H). cbn in Hp. unfold Health. rewrite Hp. cbn. rewrite !andb_false_r. done.
Qed.
End System.

(** ** The outbox is delivered *)

Section Drain.
Context {Payload : Type} (marshal : Event -> Payload) (unmarshal : Payload -> option Event) (dbTime : Z -> Z) (cfg : AuditConfig).

Local Abbreviation shared := (shared Payload).
Local Abbreviation thread := (thread Payload).
Local Abbreviation record := (AuditOutboxRecord Payload).
Local Abbreviation advance := (advance marshal unmarshal dbTime cfg).

(** The loop alone, with databases that work: its ticker wakes it. *)
Definition patient (t : thread) : outcome := match t with LoopWait => Breaks true "" | _ => Works end.

Fixpoint tend (n : nat) (s : shared) (t : thread) : option (shared * thread) :=
  match n with
  | O => Some (s, t)
  | S n => '(s, t) ← advance (patient t) s t; tend n s t
  end.

Definition reaches (s : shared) (t : thread) (s' : shared) (t' : thread) : Prop := exists n, tend n s t = Some (s', t').

Lemma reaches_refl s t : reaches s t s t.
Proof. by exists 0%nat. Qed.

Lemma reaches_step s t s1 t1 s' t' : advance (patient t) s t = Some (s1, t1) -> reaches s1 t1 s' t' -> reaches s t s' t'.
Proof. intros H [n Hn]. exists (S n). cbn. by rewrite H. Qed.

Lemma reaches_trans s t s1 t1 s' t' : reaches s t s1 t1 -> reaches s1 t1 s' t' -> reaches s t s' t'.
Proof.
  intros [n Hn] H. revert s t Hn. induction n as [|n IH]; intros s t Hn; cbn in Hn; [by injection Hn as -> ->|].
  destruct (advance (patient t) s t) as [[s2 t2]|] eqn:Ha; [|done]. eapply reaches_step; [done|]. by apply IH.
Qed.

(** The next step of the loop. *)
Local Ltac go := eapply reaches_step; [cbn; reflexivity|].

(** Rows that can be decoded, each under its identifier. *)
Definition decodable (id : string) (r : record) : Prop := recID r = id /\ exists e, unmarshal (recPayload r) = Some e /\ evID e = id.

(** The memory after some rows were delivered. *)
Definition deliver (r : record) (s : shared) : shared :=
  set_pending (pending s - 1)
    (set_outbox (delete (recID r) (audit_outbox s))
       match unmarshal (recPayload r) with Some e => set_events (insertNew (evID e) (dbRow dbTime e) (audit_events s)) s | None => s end).

Definition deliverAll (items : list record) (s : shared) : shared := foldl (fun s r => deliver r s) s items.

Record delivering (items : list record) (s s' : shared) : Prop := {
  dl_flags : lost s' = lost s /\ closed s' = closed s /\ draining s' = draining s;
  dl_outbox : forall id, audit_outbox s' !! id = (if decide (id ∈ map recID items) then None else audit_outbox s !! id);
  dl_events : audit_events s ⊆ audit_events s';
  dl_items : forall r, r ∈ items -> is_Some (audit_events s' !! recID r) }.

Lemma insertNew_subseteq {A} id (x : A) m : m ⊆ insertNew id x m.
Proof. apply map_subseteq_spec. intros k v H. apply insertNew_lookup. by left. Qed.

Lemma insertNew_is_Some {A} id (x : A) m : is_Some (insertNew id x m !! id).
Proof. unfold insertNew. destruct (m !! id) eqn:H; [rewrite H|rewrite lookup_insert_eq]; eauto. Qed.

Lemma deliverAll_spec items s : (forall r, r ∈ items -> decodable (recID r) r) -> delivering items s (deliverAll items s).
Proof.
  revert s. induction items as [|r items IH]; intros s Hd; [split; cbn; [done|done|done|by intros ? ?%not_elem_of_nil]|].
  change (deliverAll (r :: items) s) with (deliverAll items (deliver r s)). destruct (Hd r ltac:(left)) as (_ & e & He & Hid).
  destruct (IH (deliver r s)) as [Hf Ho Hs Hi]; [intros; apply Hd; by right|].
  assert (Hs1 : audit_events s ⊆ audit_events (deliver r s)) by (unfold deliver; rewrite He; apply insertNew_subseteq).
  split.
  - assert (lost (deliver r s) = lost s /\ closed (deliver r s) = closed s /\ draining (deliver r s) = draining s) as (? & ? & ?)
      by (unfold deliver; by rewrite He). destruct Hf as (? & ? & ?). split_and!; congruence.
  - intros id. rewrite Ho. unfold deliver at 1. cbn [audit_outbox set_pending set_outbox]. cbn [map].
    destruct (decide (id ∈ map recID items)) as [Hin|Hn]; [rewrite decide_True by (by right); done|].
    destruct (decide (id = recID r)) as [-> |Hne]; [rewrite decide_True by left; by rewrite lookup_delete_eq|].
    rewrite lookup_delete_ne, decide_False by (rewrite ?elem_of_cons; naive_solver). done.
  - by etrans.
  - intros r' [-> |Hr']%elem_of_cons; [|by apply Hi]. assert (is_Some (audit_events (deliver r s) !! recID r)) as [v Hv].
    { unfold deliver. rewrite He. cbn. rewrite <- Hid. apply insertNew_is_Some. }
    exists v. by eapply lookup_weaken.
Qed.

(** The items of a batch, one after the other. *)
Lemma drain_items k items s : closed s = false -> (forall r, r ∈ items -> decodable (recID r) r) ->
  reaches s (DrainNext k items) (deliverAll items s) (DrainCount k).
Proof.
  revert s. induction items as [|r items IH]; intros s Hc Hd; [go; apply reaches_refl|].
  destruct (Hd r ltac:(left)) as (_ & e & He & Hid). eapply reaches_step; [cbn; by rewrite He|].
  eapply reaches_step; [cbn; unfold insertEvent; rewrite Hc; reflexivity|]. go. go.
  change (deliverAll (r :: items) s) with (deliverAll items (deliver r s)).
  replace (set_pending _ _) with (deliver r s) by (unfold deliver; by rewrite He).
  apply IH; [unfold deliver; by rewrite He|intros; apply Hd; by right].
Qed.

(** What a batch lists. *)
Lemma ListAuditOutbox_elem limit (s : shared) r : r ∈ ListAuditOutbox limit s -> exists id, audit_outbox s !! id = Some r.
Proof.
  unfold ListAuditOutbox. intros (i & Hr & _)%elem_of_take. apply list_elem_of_lookup_2 in Hr. rewrite merge_sort_Permutation in Hr.
  apply list_elem_of_fmap in Hr as ([id r'] & -> & Hin). apply elem_of_map_to_list in Hin. by exists id.
Qed.

Lemma ListAuditOutbox_nil limit (s : shared) : ListAuditOutbox limit s = [] -> audit_outbox s = ∅.
Proof.
  unfold ListAuditOutbox. set (limit' := if _ || _ then _ else _). set (sorted := merge_sort _ _). intros H.
  assert (Hl : sorted = []).
  { destruct sorted; [done|]. assert (0 < limit') by (unfold limit'; destruct (_ || _) eqn:?; lia). destruct (Z.to_nat limit') eqn:?; [lia|done]. }
  assert (Hp : map snd (map_to_list (audit_outbox s)) ≡ₚ []) by (rewrite <- Hl; symmetry; apply merge_sort_Permutation).
  apply Permutation_nil_r in Hp. apply map_eq_nil in Hp. by apply map_to_list_empty_iff.
Qed.

(** A state from which the loop drains. *)
Record ready (s : shared) : Prop := {
  rd_open : closed s = false; rd_free : draining s = false; rd_lost : lost s = false;
  rd_rows : forall id r, audit_outbox s !! id = Some r -> decodable id r }.

Lemma drain_batch s : ready s ->
  let s1 := deliverAll (ListAuditOutbox (RetryBatchSize cfg) s) (set_draining true s) in
  let s2 := set_draining false (set_bad (negb (CountAuditOutbox s1 =? 0)) (set_pending (CountAuditOutbox s1) s1)) in
  reaches s (DrainLock TheLoop) s2 LoopWait
  /\ ready s2 /\ audit_events s ⊆ audit_events s2
  /\ (forall id r, audit_outbox s !! id = Some r -> audit_outbox s2 !! id = Some r \/ audit_outbox s2 !! id = None /\ is_Some (audit_events s2 !! id))
  /\ audit_outbox s2 ⊆ audit_outbox s /\ (audit_outbox s2 = audit_outbox s -> audit_outbox s = ∅).
Proof.
  intros [Hc Hf Hl Hr]. cbv zeta. set (items := ListAuditOutbox _ s). set (s0 := set_draining true s). set (s1 := deliverAll items s0).
  assert (Hd : forall r, r ∈ items -> decodable (recID r) r /\ audit_outbox s !! recID r = Some r).
  { intros r [id Hid]%ListAuditOutbox_elem. pose proof (Hr _ _ Hid) as [Hk ?]. rewrite Hk. by split. }
  destruct (deliverAll_spec items s0) as [(H1 & H2 & H3) Ho He Hi]; [intros; by apply Hd|]. fold s1 in H1, H2, H3, Ho, He, Hi.
  assert (Hsub : audit_outbox s1 ⊆ audit_outbox s) by (apply map_subseteq_spec; intros id r; rewrite Ho; by destruct (decide _)).
  split_and!.
  - eapply reaches_step; [cbn; by rewrite Hf|]. go. change (ListAuditOutbox _ (set_draining true s)) with items.
    eapply reaches_trans; [apply drain_items; [done|intros; by apply Hd]|]. change (deliverAll items _) with s1. do 2 go.
    eapply reaches_step; [cbn; rewrite H1; cbn; rewrite Hl; cbn; rewrite andb_true_r; reflexivity|].
    destruct (CountAuditOutbox s1 =? 0); cbn [negb]; do 2 go; apply reaches_refl.
  - split; cbn; [by rewrite H2|done|by rewrite H1|]. intros id r Hid. apply Hr. by eapply lookup_weaken.
  - done.
  - intros id r Hid. cbn. rewrite Ho. destruct (decide (id ∈ map recID items)) as [Hin|]; [right|by left]. split; [done|].
    apply list_elem_of_fmap in Hin as (r' & -> & Hin). by apply Hi.
  - done.
  - cbn. intros Heq. destruct items as [|r items'] eqn:Hitems; [by apply ListAuditOutbox_nil in Hitems|].
    destruct (Hd r ltac:(left)) as [_ Hr1]. rewrite <- Heq, Ho, decide_True in Hr1 by left. done.
Qed.

(** From a backlog to an empty outbox. *)
Lemma drain_all n s : (size (audit_outbox s) < n)%nat -> ready s -> exists s', reaches s (DrainLock TheLoop) s' LoopWait
  /\ audit_outbox s' = ∅ /\ pending s' = 0 /\ writeBad s' = false /\ audit_events s ⊆ audit_events s'
  /\ forall id r, audit_outbox s !! id = Some r -> is_Some (audit_events s' !! id).
Proof.
  revert s. induction n as [|n IH]; intros s Hn Hr; [lia|]. destruct (drain_batch s Hr) as (Hgo & Hr2 & He & Hrow & Hsub & Hless).
  set (s1 := deliverAll _ _) in *. set (s2 := set_draining false _) in *.
  destruct (decide (audit_outbox s2 = ∅)) as [Hz|Hnz].
  - assert (CountAuditOutbox s1 = 0) as Hc by (unfold CountAuditOutbox; change (audit_outbox s1) with (audit_outbox s2); by rewrite Hz).
    exists s2. split_and!; [done|done|exact Hc|unfold s2; cbn; by rewrite Hc|done|].
    intros id r Hid. destruct (Hrow _ _ Hid) as [H|[_ H]]; [by rewrite Hz in H|done].
  - assert (Hc : CountAuditOutbox s1 <> 0).
    { unfold CountAuditOutbox. change (audit_outbox s1) with (audit_outbox s2). intros H. apply Hnz, map_size_empty_iff. lia. }
    assert (Hlt : (size (audit_outbox s2) < size (audit_outbox s))%nat).
    { apply map_subset_size. split; [done|]. intros Hback. assert (audit_outbox s2 = audit_outbox s) as Heq by by apply (anti_symm (⊆)).
      apply Hnz. rewrite Heq. by apply Hless. }
    destruct (IH s2 ltac:(lia) Hr2) as (s' & Hgo' & H1 & H2 & H3 & H4 & H5). exists s'. split_and!; [|done|done|done|by etrans|].
    + eapply reaches_trans; [exact Hgo|]. go. eapply reaches_step; [|exact Hgo']. cbn -[Z.eqb]. rewrite (proj2 (Z.eqb_neq _ _) Hc). done.
    + intros id r Hid. destruct (Hrow _ _ Hid) as [H|[_ [v Hv]]]; [by eapply H5|]. exists v. by eapply lookup_weaken.
Qed.

(** C15: The loop delivers the backlog when it runs alone: from any state in which the recorder
    is open, no batch is under way, no event has been lost, every row of the outbox can be
    decoded and the counter of pending events is not zero, the loop's own steps, with both
    databases working and no other request or batch in between, lead batch after batch to a
    state in which the outbox is empty, every row that was in it is in the log beside the
    rows that were there before, and recording goes straight to the log again. (With
    requests in between an event can be left behind: see [stranded_event].) *)
Theorem backlog_is_delivered s :
  closed s = false -> draining s = false -> lost s = false ->
  (forall id r, audit_outbox s !! id = Some r -> decodable id r) -> pending s <> 0 ->
  exists s', reaches s LoopCheck s' LoopWait
    /\ audit_outbox s' = ∅ /\ pending s' = 0 /\ writeBad s' = false /\ audit_events s ⊆ audit_events s'
    /\ forall id r, audit_outbox s !! id = Some r -> is_Some (audit_events s' !! id).
Proof.
  intros Hc Hd Hl Hrows Hp. assert (Hr : ready s) by by split.
  destruct (drain_all (S (size (audit_outbox s))) s ltac:(lia) Hr) as (s' & Hgo & H). exists s'. split; [|exact H].
  eapply reaches_step; [|exact Hgo]. cbn. by rewrite (proj2 (Z.eqb_neq _ _) Hp).
Qed.
End Drain.

(** ** Examples *)

(** Payloads that are the events themselves, timestamps in microseconds. *)
Definition micro (t : Z) : Z := t / 1000 * 1000.
Definition demoAudit : AuditConfig := mkAudit 64 100 30 false.
Definition demoEvent (path : string) : Event := mkEvent "" 5000 "" "ada" "" "basic" "w" "wfs" "TRANSACTION" "change" "POST" path 200 3 false.

Abbreviation actsDemo := (acts (fun e : Event => e) Some micro demoAudit).
Abbreviation run pid := (Step pid Works).

(** One event fails to be written and is queued; the loop delivers it; while the batch
    ends, a second request queues its event. *)
Definition queueFirst : list action :=
  [Begin 1 "a" 5000 (demoEvent "/a"); run 1; run 1; Step 1 (Breaks false "disk"); run 1; run 1; run 1; run 1].
Definition drainFirst : list action := repeat (run 0) 10.
Definition queueSecond : list action := [Begin 2 "b" 6000 (demoEvent "/b"); run 2; run 2; run 2; run 2; run 2].
Definition finishBatch : list action := repeat (run 0) 4.

Definition stored (path id : string) : Event := dbRow micro (prepareEvent demoAudit id 5000 (demoEvent path)).

(** The second event is acknowledged and in the outbox, but the batch has overwritten the
    counter and the flag: nothing is pending, the server is healthy, and the loop's
    wake-up and ticks find nothing to do. *)
Example stranded_event :
  match actsDemo (queueFirst ++ drainFirst ++ queueSecond ++ finishBatch) newSystem with
  | Some y => bool_decide (audit_events (mem y) = {["a" := stored "/a" "a"]})
              && bool_decide (map fst (map_to_list (audit_outbox (mem y))) = ["b"])
              && (pending (mem y) =? 0) && Health true (mem y) && bool_decide (length (acked y) = 2%nat)
              && match actsDemo [run 0; run 0; Step 0 (Breaks true ""); run 0; Step 0 (Breaks true ""); run 0] y with
                 | Some y' => bool_decide (map fst (map_to_list (audit_outbox (mem y'))) = ["b"]) && Health true (mem y')
                 | None => false
                 end
  | None => false
  end = true.
Proof. vm_compute. reflexivity. Qed.

(** The queued event survives the death of the process. *)
Lemma recorded_events_kept_witness : exists y, actsDemo (queueFirst ++ [Crash]) newSystem = Some y
  /\ length (acked y) = 1%nat /\ forall e, e ∈ acked y -> kept (fun e => e) micro (fun e => e) (cutoff y) (mem y) e.
Proof.
  destruct (actsDemo (queueFirst ++ [Crash]) newSystem) as [y|] eqn:E; [|vm_compute in E; discriminate E]. exists y. split; [reflexivity|]. split.
  - vm_compute in E. injection E as <-. reflexivity.
  - apply (recorded_events_kept (fun e : Event => e) Some micro demoAudit (fun e => e)
             (fun e => eq_refl) (fun e => conj eq_refl eq_refl) (queueFirst ++ [Crash]) y E).
Defined.

(** A server that starts with one row in the outbox. *)
Definition restarted : shared Event := OpenAudit ∅ {["a" := mkRecord "a" 5000 (stored "/a" "a") 0 ""]}.

Lemma backlog_is_delivered_witness : exists s', reaches (fun e : Event => e) Some micro demoAudit restarted LoopCheck s' LoopWait
  /\ audit_outbox s' = ∅ /\ is_Some (audit_events s' !! "a").
Proof.
  destruct (backlog_is_delivered (fun e : Event => e) Some micro demoAudit restarted) as (s' & H1 & H2 & _ & _ & _ & H3).
  - reflexivity.
  - reflexivity.
  - reflexivity.
  - intros id r H. unfold restarted, OpenAudit in H. cbn [audit_outbox] in H. apply lookup_singleton_Some in H as [<- <-].
    split; [reflexivity|]. eexists. split; reflexivity.
  - vm_compute. discriminate.
  - exists s'. split; [exact H1|]. split; [exact H2|]. eapply H3. cbn. apply lookup_singleton_eq.
Defined.
