(* ===== verification/AuditList.v ===== *)
(** * The audit log: pages

    Following the cursors shows every selected event once, the newest first. *)

From stdpp Require Import sorting.
From S2P Require Import Prelude GoText Base64 RateLimit ProtocolRequest AuditLog.

#[export] Instance Lfilter_Permutation {A} (f : A -> bool) : Proper ((≡ₚ) ==> (≡ₚ)) (List.filter f).
Proof.
  intros l l' H. induction H as [|x l l' _ IH|x y l|l l' l'' _ IH _ IH']; cbn; [done| | |by etrans].
  - destruct (f x); [by constructor|done].
  - destruct (f x), (f y); try done. apply Permutation_swap.
Qed.

(** ** The order of events *)

Lemma leb_trans a b c : String.leb a b = true -> String.leb b c = true -> String.leb a c = true.
Proof. rewrite <- !Is_true_true. apply (transitivity (R := String.le)). Qed.

Lemma ltb_leb a b : String.ltb a b = true <-> String.leb a b = true /\ a <> b.
Proof.
  unfold String.ltb, String.leb. destruct (String.compare a b) eqn:H; split; try done.
  - intros [_ Hne]. by apply String.compare_eq_iff in H.
  - intros _. split; [done|]. intros ->. pose proof (String.compare_antisym b b) as E. by rewrite H in E.
  - by intros [? _].
Qed.

#[export] Instance newerFirst_trans : Transitive newerFirst.
Proof. intros a b c [H|[H Hl]] [H'|[H' Hl']]; unfold newerFirst; [left; lia..|]. right. split; [lia|]. by eapply leb_trans. Qed.

#[export] Instance newerFirst_total : Total newerFirst.
Proof.
  intros a b. unfold newerFirst. destruct (Z.lt_trichotomy (evTime a) (evTime b)) as [?|[->|?]]; [right; by left| |left; by left].
  destruct (String.leb_total (evID b) (evID a)); [left|right]; by right.
Qed.

Lemma newerFirst_same a b : newerFirst a b -> newerFirst b a -> evID a = evID b.
Proof. intros [H|[H Hl]] [H'|[H' Hl']]; try lia. by apply String.leb_antisym. Qed.

Section Pages.
Context (dbTime : Z -> Z) (marshalCursor : eventCursor -> string) (unmarshalCursor : string -> option eventCursor).

Local Abbreviation ListEvents := (ListEvents dbTime unmarshalCursor).
Local Abbreviation ListPage := (ListPage dbTime marshalCursor unmarshalCursor).
Local Abbreviation cursorOf e := (encodeCursor marshalCursor (mkCursor (evTime e) (evID e))).

(** A table as the log fills it: rows under their identifiers, with times of the
    database's resolution, whose cursors fit into a request. *)
Record logTable (table : gmap string Event) : Prop := {
  lt_key : forall id e, table !! id = Some e -> evID e = id;
  lt_row : forall id e, table !! id = Some e ->
    dbTime (evTime e) = evTime e /\ evTime e <> zeroTime /\ evID e <> "" /\ (String.length (evID e) <= 256)%nat
    /\ (0 < String.length (cursorOf e) <= 2048)%nat /\ unmarshalCursor (marshalCursor (mkCursor (evTime e) (evID e))) = Some (mkCursor (evTime e) (evID e)) }.

(** All pages: the first, and those of its cursor. *)
Fixpoint allPages (fuel : nat) (table : gmap string Event) (q : Query) : option (list (list Event)) :=
  match fuel with
  | O => None
  | S fuel =>
      p ← ListPage table q;
      if String.eqb (NextCursor p) "" then Some [pageEvents p]
      else rest ← allPages fuel table (with_cursor (NextCursor p) q); Some (pageEvents p :: rest)
  end.

(** The selected events, the newest first. *)
Definition selected (table : gmap string Event) (q : Query) : list Event :=
  merge_sort newerFirst (List.filter (selects dbTime q) (map snd (map_to_list table))).

Context (table : gmap string Event) (Htable : logTable table).

Lemma elem_rows e : e ∈ map snd (map_to_list table) -> table !! evID e = Some e.
Proof. intros ([id e'] & -> & Hin)%list_elem_of_fmap. apply elem_of_map_to_list in Hin. cbn. by rewrite (lt_key _ Htable _ _ Hin). Qed.

Lemma selected_elem q e : e ∈ selected table q -> table !! evID e = Some e.
Proof.
  unfold selected. rewrite merge_sort_Permutation, elem_of_Lfilter. intros [H _]. by apply elem_rows.
Qed.

Lemma rows_unique a b : table !! evID a = Some a -> table !! evID b = Some b -> newerFirst a b -> newerFirst b a -> a = b.
Proof. intros Ha Hb H1 H2. pose proof (newerFirst_same _ _ H1 H2) as E. congruence. Qed.

Lemma rows_NoDup : NoDup (map snd (map_to_list table)).
Proof.
  apply (NoDup_fmap_2_strong snd); [|apply NoDup_map_to_list]. intros [id e] [id' e'] H%elem_of_map_to_list H'%elem_of_map_to_list E. cbn in E. subst.
  f_equal. rewrite <- (lt_key _ Htable _ _ H). apply (lt_key _ Htable _ _ H').
Qed.

Lemma selected_sorted q : StronglySorted newerFirst (selected table q).
Proof. apply (StronglySorted_merge_sort newerFirst). Qed.

Lemma selected_NoDup q : NoDup (selected table q).
Proof. unfold selected. rewrite merge_sort_Permutation. apply NoDup_ListNoDup, List.NoDup_filter, NoDup_ListNoDup, rows_NoDup. Qed.

(** Selecting in the sorted list or before sorting is the same. *)
Lemma sort_filter (f g : Event -> bool) :
  merge_sort newerFirst (List.filter (fun e => f e && g e) (map snd (map_to_list table)))
  = List.filter g (merge_sort newerFirst (List.filter f (map snd (map_to_list table)))).
Proof.
  set (rows := map snd (map_to_list table)). set (l1 := merge_sort _ (List.filter (fun e => _) _)). set (l2 := merge_sort _ (List.filter f rows)).
  assert (Hp2 : l2 ≡ₚ List.filter f rows) by apply merge_sort_Permutation.
  assert (Hp1 : l1 ≡ₚ List.filter g (List.filter f rows)).
  { unfold l1. rewrite merge_sort_Permutation. clear. induction rows as [|x rows IH]; [done|]. cbn. destruct (f x); cbn; [|done]. by destruct (g x); rewrite IH. }
  assert (Hp3 : List.filter g l2 ≡ₚ List.filter g (List.filter f rows)) by by rewrite Hp2.
  assert (Hin : forall x, x ∈ List.filter g (List.filter f rows) -> table !! evID x = Some x).
  { intros x. rewrite !elem_of_Lfilter. intros [[? _] _]. by apply elem_rows. }
  apply (StronglySorted_unique_strong newerFirst).
  - intros a b Ha Hb. rewrite Hp1 in Ha. rewrite Hp3 in Hb. apply rows_unique; by apply Hin.
  - apply (StronglySorted_merge_sort newerFirst).
  - assert (Hs : StronglySorted newerFirst l2) by apply (StronglySorted_merge_sort newerFirst). clear -Hs.
    induction Hs as [|x l Hs IH Hf]; cbn; [constructor|]. destruct (g x); [|done]. constructor; [done|]. apply Forall_forall.
    intros y. rewrite elem_of_Lfilter. intros [Hy _]. rewrite Forall_forall in Hf. by apply Hf.
  - by rewrite Hp1, Hp3.
Qed.

(** After the cursor of an event come the events that follow it. *)
Lemma after_suffix q pre x post : selected table q = pre ++ x :: post ->
  List.filter (afterCursor dbTime (mkCursor (evTime x) (evID x))) (selected table q) = post.
Proof.
  intros E. pose proof (selected_sorted q) as Hs. pose proof (selected_NoDup q) as Hnd.
  assert (Hin : forall e, e ∈ selected table q -> table !! evID e = Some e) by apply selected_elem. rewrite E in *.
  assert (Hx : table !! evID x = Some x) by (apply Hin; set_solver).
  assert (Hafter : forall e, table !! evID e = Some e -> (afterCursor dbTime (mkCursor (evTime x) (evID x)) e = true <-> newerFirst x e /\ e <> x)).
  { intros e He. unfold afterCursor, newerFirst. cbn. rewrite (proj1 (lt_row _ Htable _ _ Hx)).
    rewrite orb_true_iff, andb_true_iff, ltb_leb, Z.ltb_lt, Z.eqb_eq. split.
    - intros [H|[H [Hl Hne]]]; (split; [|by intros ->; try lia]); auto.
    - intros [[H|[H Hl]] Hne]; [by left|right]. split_and!; [done|done|]. intros Hid. congruence. }
  apply NoDup_app in Hnd as (_ & Hdis & [Hxp Hnd]%NoDup_cons). apply StronglySorted_app in Hs as (Hpre & _ & [Hxs Hs]%StronglySorted_cons).
  rewrite List.filter_app. cbn [List.filter].
  assert (afterCursor dbTime (mkCursor (evTime x) (evID x)) x = false) as ->.
  { apply not_true_iff_false. intros [_ ?]%Hafter; [done|done]. }
  rewrite Lfilter_none, Lfilter_all; [done| |].
  - intros e He. apply Hafter; [apply Hin; set_solver|]. rewrite Forall_forall in Hxs. split; [by apply Hxs|by intros ->].
  - intros e He. apply not_true_iff_false. intros [Hn Hne]%Hafter; [|apply Hin; set_solver].
    apply Hne, rows_unique; [apply Hin; set_solver|done|apply Hpre; set_solver|done].
Qed.

(** ** Following the cursors *)

(** The query whose cursor is at the end of [pre]. *)
Definition resumes (q q0 : Query) (pre : list Event) : Prop :=
  exists cursor, q = with_cursor cursor q0 /\
    match last pre with Some x => cursor = cursorOf x | None => cursor = "" end.

Lemma decode_cursorOf x : table !! evID x = Some x -> decodeCursor unmarshalCursor (cursorOf x) = Some (mkCursor (evTime x) (evID x)).
Proof.
  intros Hx. destruct (lt_row _ Htable _ _ Hx) as (_ & H1 & H2 & H3 & H4 & H5). unfold decodeCursor.
  rewrite (proj2 (Nat.ltb_ge _ _)) by lia. unfold encodeCursor. rewrite DecodeString_Encode. cbn [mbind option_bind]. rewrite H5. cbn [mbind option_bind curTime curID].
  rewrite (proj2 (Z.eqb_neq _ _) H1), (proj2 (String.eqb_neq _ _) H2), (proj2 (Nat.ltb_ge _ _)) by lia. done.
Qed.

Lemma cursorOf_nonempty x : table !! evID x = Some x -> cursorOf x <> "".
Proof. intros Hx E. destruct (lt_row _ Htable _ _ Hx) as (_ & _ & _ & _ & H & _). rewrite E in H. cbn in H. lia. Qed.

Lemma ListEvents_resumes q q0 pre post limit : selected table q0 = pre ++ post -> resumes q q0 pre -> pageLimit limit = limit ->
  ListEvents table (with_page limit q) = Some (take (Z.to_nat (limit + 1)) post).
Proof.
  intros Hall (cursor & -> & Hc) Hl. unfold AuditLog.ListEvents. cbn [qLimit qExtra qCursor with_page with_cursor]. rewrite Hl.
  destruct (last pre) as [x|] eqn:Hlast.
  - apply last_Some in Hlast as [pre' ->]. rewrite <- app_assoc in Hall. subst cursor.
    assert (Hx : table !! evID x = Some x) by (apply (selected_elem q0); rewrite Hall; set_solver).
    rewrite (proj2 (String.eqb_neq _ _) (cursorOf_nonempty x Hx)), (decode_cursorOf x Hx). cbn [fmap option_fmap option_map mbind option_bind].
    do 2 f_equal. rewrite (sort_filter (selects dbTime q0)). exact (after_suffix q0 pre' x post Hall).
  - apply last_None in Hlast as ->. subst cursor. cbn [String.eqb mbind option_bind]. do 2 f_equal. cbn in Hall. rewrite <- Hall.
    etrans; [exact (sort_filter (selects dbTime q0) (fun _ => true))|]. by apply Lfilter_all.
Qed.

Lemma pageLimit_spec limit : 1 <= pageLimit limit <= 1000 /\ pageLimit (pageLimit limit) = pageLimit limit.
Proof. unfold pageLimit. destruct ((limit <=? 0) || (1000 <? limit)) eqn:H; [split; [lia|done]|]. rewrite H. split; [lia|done]. Qed.

(** A page that is followed by another, and one that is not. *)
Lemma ListPage_resumes q q0 pre post : selected table q0 = pre ++ post -> resumes q q0 pre ->
  let n := Z.to_nat (pageLimit (qLimit q0)) in
  ListPage table q = Some (if (n <? length post)%nat then mkPage (take n post) (match last (take n post) with Some e => cursorOf e | None => "" end)
                           else mkPage post "").
Proof.
  intros Hall Hr n. destruct (pageLimit_spec (qLimit q0)) as [Hn Hi]. unfold AuditLog.ListPage.
  assert (qLimit q = qLimit q0) as -> by (destruct Hr as (c & -> & _); done).
  rewrite (ListEvents_resumes q q0 pre post) by done. cbn [mbind option_bind]. rewrite length_take. fold n.
  destruct (Nat.ltb_spec n (length post)) as [Hlt|Hge].
  - rewrite (proj2 (Z.ltb_lt _ _)) by lia. rewrite take_take, Nat.min_l by lia. done.
  - rewrite (proj2 (Z.ltb_ge _ _)) by lia. by rewrite take_ge by lia.
Qed.

Lemma pages_from fuel q q0 pre post : selected table q0 = pre ++ post -> resumes q q0 pre -> (length post < fuel)%nat ->
  exists pages, allPages fuel table q = Some pages /\ concat pages = post
    /\ Forall (fun page => (Z.of_nat (length page) <= pageLimit (qLimit q0))) pages.
Proof.
  revert q pre post. induction fuel as [|fuel IH]; intros q pre post Hall Hr Hf; [lia|]. cbn [allPages].
  rewrite (ListPage_resumes q q0 pre post Hall Hr). set (n := Z.to_nat _). destruct (pageLimit_spec (qLimit q0)) as [Hn _].
  destruct (Nat.ltb_spec n (length post)) as [Hlt|Hge]; cbn [mbind option_bind NextCursor pageEvents].
  2: { exists [post]. cbn. rewrite app_nil_r. split_and!; [done|done|]. constructor; [lia|constructor]. }
  destruct (last (take n post)) as [x|] eqn:Hlast; [|apply last_None in Hlast; apply (f_equal length) in Hlast; rewrite length_take in Hlast; cbn in Hlast; lia].
  assert (Hx : table !! evID x = Some x).
  { apply (selected_elem q0). rewrite Hall. apply last_Some in Hlast as [l' E]. rewrite <- (take_drop n post), E. set_solver. }
  rewrite (proj2 (String.eqb_neq _ _) (cursorOf_nonempty x Hx)).
  destruct (IH (with_cursor (cursorOf x) q) (pre ++ take n post) (drop n post)) as (pages & -> & Hc & Hp).
  - by rewrite <- app_assoc, take_drop.
  - destruct Hr as (c & -> & _). exists (cursorOf x). split; [done|]. by rewrite last_app, Hlast.
  - rewrite length_drop. lia.
  - exists (take n post :: pages). cbn. rewrite Hc, take_drop. split_and!; [done|done|]. constructor; [rewrite length_take; lia|done].
Qed.

(** C33: Following the cursors of the audit log ends, and shows every event the query
    selects exactly once, the newest first and in full pages of at most the limit: the
    pages one after the other are the sorted selection. *)
Theorem pages_are_the_log q : qCursor q = "" ->
  exists pages, allPages (S (size table)) table q = Some pages /\ concat pages = selected table q
    /\ Forall (fun page => (Z.of_nat (length page) <= pageLimit (qLimit q))) pages.
Proof.
  intros Hq. apply (pages_from _ q q []); [done|exists ""; split; [by destruct q; cbn in *; subst|done]|].
  unfold selected. rewrite (Permutation_length (merge_sort_Permutation newerFirst _)).
  pose proof (List.filter_length_le (selects dbTime q) (map snd (map_to_list table))) as H. rewrite length_map, length_map_to_list in H. lia.
Qed.
End Pages.

(** ** Examples *)

Definition logged (id : string) (time : Z) (status : Z) : Event := mkEvent id time "" "ada" "" "basic" "w" "wfs" "TRANSACTION" "change" "POST" "/w" status 3 false.
Definition demoLog : gmap string Event := {["a" := logged "a" 1000 200; "b" := logged "b" 2000 403; "c" := logged "c" 2000 200]}.
Definition demoMarshal (c : eventCursor) : string := curID c.
Definition demoUnmarshal (s : string) : option eventCursor := assoc s [("a", mkCursor 1000 "a"); ("b", mkCursor 2000 "b"); ("c", mkCursor 2000 "c")].
Definition everything : Query := mkQuery "" "" false "" "" "" None AnyOutcome 1.

Example demo_pages : allPages (fun t => t) demoMarshal demoUnmarshal 4 demoLog everything = Some [[logged "c" 2000 200]; [logged "b" 2000 403]; [logged "a" 1000 200]].
Proof. vm_compute. reflexivity. Qed.

Example demo_failed : ListEvents (fun t => t) demoUnmarshal demoLog (mkQuery "" "TRANSaction" false "w" "" "" (Some 1500) OutcomeFailed 0) = Some [logged "b" 2000 403]
  /\ ListEvents (fun t => t) demoUnmarshal demoLog (mkQuery "not a cursor" "" false "" "" "" None AnyOutcome 0) = None.
Proof. vm_compute. done. Qed.

Lemma pages_are_the_log_witness : exists pages, allPages (fun t => t) demoMarshal demoUnmarshal (S (size demoLog)) demoLog everything = Some pages
  /\ concat pages = selected (fun t => t) demoLog everything.
Proof.
  destruct (pages_are_the_log (fun t => t) demoMarshal demoUnmarshal demoLog) with (q := everything) as (pages & H1 & H2 & _).
  - assert (Hl : forall id e, demoLog !! id = Some e -> (id, e) ∈ [("a", logged "a" 1000 200); ("b", logged "b" 2000 403); ("c", logged "c" 2000 200)]).
    { intros id e H. unfold demoLog in H. apply lookup_insert_Some in H as [[<- <-]|[_ H]]; [left|].
      apply lookup_insert_Some in H as [[<- <-]|[_ H]]; [right; left|]. apply lookup_singleton_Some in H as [<- <-]. right; right; left. }
    split; intros id e H%Hl; rewrite !elem_of_cons, elem_of_nil in H; destruct H as [[= -> ->]|[[= -> ->]|[[= -> ->]|[]]]];
      try reflexivity; (split_and!; [reflexivity|discriminate|discriminate|cbn; lia|vm_compute; lia|vm_compute; lia|reflexivity]).
  - reflexivity.
  - exists pages. split; [exact H1|exact H2].
Defined.
